(* ===== verification/_CoqProject ===== *)
-Q . S2P
Prelude.v
Bytes.v
Text.v
SafeText.v
NetAllow.v
NetConnect.v
Io.v
NetDns.v
NetRelay.v
NetProxy.v
WlTables.v
WlWire.v
WlObjects.v
WlAudit.v
WlPolicy.v
WlTrace.v
WlRelay.v
WlStream.v
WlLoop.v
DbusSig.v
DbusWire.v
DbusCodec.v
DbusMessage.v
DbusSession.v
DbusCalls.v
Seccomp.v
InitExec.v
Fuel.v
InitLoop.v
InitRun.v
InitSpec.v
Tty.v
TtyRun.v
TtySpec.v
Network.v
NetworkSpec.v
Config.v
KdlOut.v
Host.v
Bwrap.v
Sweep.v
BwrapSpec.v
DbusPlan.v
Sidecar.v
DbusSpec.v
Shares.v
SharesSpec.v
Dri.v
Grants.v
Launch.v
GrantsSpec.v
ConfigScan.v
ConfigScanFacts.v
ConfigText.v
ConfigParse.v
ConfigDoc.v
AudioPolicy.v
ConfigWf.v
ConfigDocFacts.v
KdlDoc.v
ConfigReadBack.v
KdlText.v
ConfigRoundTrip.v
Profile.v
ProfileWalk.v
ProfileMerge.v
ProfileSpec.v
ProfileOrigins.v
ProfileText.v
Lint.v
LintSpec.v
Desktop.v
