(* ===== verification/Prelude.v ===== *)
(** * bubbler, verified

    A model of bubbler, which runs a desktop application in a sandbox, translated from the
    Rust sources under [src/crates/], with the theorems that make it correct.  Its programs
    and how they fit together:

    - the core ([bubbler-core]) reads a configuration or a stack of profiles (KDL), lints it,
      and turns it into the command line of bubblewrap and of the processes that stand beside
      the sandbox: the filtering bus proxy, the egress proxy with pasta and an nftables rule
      set, the Wayland proxy, the PipeWire holder; it keeps the terminal while the sandbox runs;
    - the supervisor ([bubbler-init]) is process 1 inside: it starts the application, wakes the
      nested X server on its first client, runs commands sent over the exec socket, and ends;
    - the egress proxy ([bubbler-net-proxy]) is a CONNECT proxy that dials only what an
      allowlist covers, resolves names itself, and then relays bytes;
    - the Wayland proxy ([bubbler-wl-proxy]) decodes every message between a client and the
      compositor, keeps interfaces out of the registry and ties clipboard reads to input.

    The guarantees meet at texts and command lines: the core's theorems say what a
    configuration means and what argv it becomes, and each program's theorems say what it does
    when it reads that argv ([NetworkSpec.proxy_enforces_the_config],
    [DbusSpec.proxy_reads_the_plan], [BwrapSpec.supervisor_reads_its_arguments] join the two).

    ** Files

    Shared: [Prelude] (Rust's [Result] as a monad, [len]/[get]/[slice] on lists with their
    out-of-range answers, machine integers, durations, loops and what they keep, tactics),
    [Bytes] and [Text] (the methods of [str] and of byte slices the sources use), [Io] (the
    operating system of the egress proxy as a class of calls over an abstract world), [Fuel]
    (computations that may run out of fuel, and total-correctness rules for them).

    Egress proxy (crates/bubbler-net-proxy/src): [NetAllow] (allow.rs), [NetConnect]
    (connect.rs), [NetDns] (dns.rs), [NetRelay] (relay.rs), and [NetProxy] (main.rs) with its
    modules [Grammar] (arguments), [Log], [Tunnel] (one client from its first byte to the
    relay) and [Serve] (the accept loop and its threads as a step system).

    Wayland proxy (crates/bubbler-wl-proxy/src): [WlTables] (tables.rs, privileged.rs),
    [WlWire] (wire.rs), [WlObjects] (objects.rs), [WlAudit] (audit.rs), [WlPolicy] (policy.rs),
    [WlRelay] (relay.rs); [WlTrace] is runs of the policy over many connections, [WlStream]
    what one connection carries, [WlLoop] every relay the loop can reach.

    Bus client (crates/bubbler-core/src/dbus_wire.rs): [DbusSig], [DbusWire] (values),
    [DbusCodec] (the round trip), [DbusMessage] (messages), [DbusSession] (authentication and
    calls over one socket), [DbusCalls] (what a call guarantees).

    Supervisor (crates/bubbler-init/src): [InitExec] (proto.rs, wire.rs, spawn.rs), [InitLoop]
    (main.rs), [InitRun] (the logic of its runs), [InitSpec] (the theorems).

    Core, what it reads: [Config] (the types of config.rs and what is computed on them),
    [KdlOut] (kdl_out.rs), [ConfigScan] and [ConfigScanFacts] (the scans of the raw text),
    [ConfigText] (no value can open or hide a kept line), [ConfigParse] (one node), [ConfigDoc]
    (a file), [ConfigWf] and [ConfigDocFacts] (what every file that was read holds), [KdlDoc]
    (the document the writer writes), [KdlText] (the KDL 2 it is written in, as a reader of its
    own, and that the text reads as the document), [ConfigReadBack] and [ConfigRoundTrip] (what
    was written is read back), [Profile] (profile.rs), [ProfileWalk] (the walk of the includes),
    [ProfileMerge], [ProfileSpec], [ProfileOrigins], [ProfileText] (the merge, its
    specification, the layer each node is credited to, its text),
    [AudioPolicy] (audio_policy.rs), [Lint] (lint.rs) and [LintSpec], [Desktop] (desktop.rs).

    Core, what it builds: [Host] (host.rs, env.rs, init_bin.rs), [Bwrap] (bwrap.rs) and
    [BwrapSpec], [Sweep] (the sweep of destinations in service.rs), [Network] (network.rs) and
    [NetworkSpec], [Seccomp] (seccomp.rs), [DbusPlan] (dbus.rs), [Sidecar] (wayland.rs,
    pipewire.rs, the names of instance.rs) and [DbusSpec], [Shares] (the shares of service.rs)
    and [SharesSpec], [Dri] (service/dri.rs), [Grants] (the rest of service.rs), [Launch]
    (launcher.rs, up to the argv of every process) and [GrantsSpec].  Core, while it runs:
    [Tty] (tty.rs), [TtyRun], [TtySpec].  Core, what it shows: [SafeText] (safe_text.rs,
    json.rs).

    ** How the model reads the code

    What a function changes in place it returns.  A [Result] is [result]; a panic has no value
    in the model, and where the source could reach one a lemma or an invariant shows that it
    does not.  Machine integers are [Z] with their wrap-around, saturation or checks written
    out.  Instants and durations are nanoseconds, a descriptor is a number, text is its UTF-8
    bytes.  Names are the source's; a loop over a vector is [fold_res] or [fold_left] over a
    step of its own, a method of a type that other types have too sits in a [Module] of the
    type's name.

    Loops that the source bounds recurse on that bound.  The others have fuel, and a theorem
    or lemma says it is enough: [NAME_FUEL] for a compressed name, 8193 turns for the header of
    a request (every turn reads a byte of at most 8192), [flush_fuel] for a queue, the length of
    the text for a scanner, [DbusWire.DEPTH_FUEL] 65 (values nest at most 64 deep),
    [Resolver.DEPTH_FUEL] 9 for the includes of a profile (chains of at most eight,
    [ProfileWalk.walk_returns]).  Loops that wait for the world (the session, the terminal, the
    shutdown of the supervisor) return once what can happen before their deadline is spent
    ([DbusCalls.call_returns]); a turn of the supervisor ends but for one loop, which goes on
    as long as connections come in faster than it takes them, whatever its fuel
    ([InitSpec.supervisor_returns], [InitRun.floods]).  The poll loops of the two
    proxies run for ever; their properties are invariants of every turn.

    Code that is not under [src/], and the system, are classes the definitions are written
    against; the laws used of them are classes of their own, and the witnesses run the
    theorems on concrete instances: [Os]/[OsLaws], [Unix]/[UnixLaws], [Bus]/[BusLaws],
    [Stream]/[StreamLaws], [Conn], [Sup]/[SupLaws], [Term]/[TermLaws]/[TermTime] are calls of
    the kernel; [Host], [Files], [Entries], [FdAllocator] the file system and the descriptors of a launch;
    [Tables]/[TablesOk], [Profiles], [PolicyFiles] what the build embeds; [Kdl]/[KdlLaws],
    [Libseccomp], [SyscallNames], [IpText]/[IpTextLaws] the kdl crate (which reads the part of
    KDL 2 that [KdlText] spells out), libseccomp and the standard library's addresses; [Endian], [Target] the machine.

    ** What the theorems show

    The sandbox.  What a service adds to it its own node asks for
    ([GrantsSpec.everything_bound_is_asked_for]); it is confined whatever the configuration,
    with the host's network only where that says so ([every_sandbox_is_confined],
    [network_is_shared_only_when_asked]); shares keep clear of what bubbler keeps and of one
    another ([SharesSpec]); a mask is never bound over, a planted link never followed
    ([BwrapSpec.masks_cover_grants], [Sweep.sweep_refuses_planted_links]); the compiled seccomp
    program answers every call as its rule set says ([Seccomp.compiled_program_runs]); the rule
    set of nftables is the filter the configuration means and no value forges a rule
    ([NetworkSpec]); the bus rules are the granted ones ([DbusSpec]).

    The files.  What is written is read back, where KDL 2 can say it ([ConfigRoundTrip]), what
    was read is well formed ([ConfigDocFacts]), a flattened profile is the sum of its layers, or
    one of them contradicts another ([ProfileSpec]), and its text is what is rendered, each node
    with the layer it is credited to ([ProfileText]).  The linter's verdict is the parser's, it
    loses no finding, and what it calls clean acknowledges the wide grants it has; a property
    written twice and the family of a name are where it misses one ([LintSpec]).  The copy of
    an application's launcher entry starts through bubbler wherever it starts, and is the
    entry line by line but for what makes it so ([Desktop]).

    The processes.  The egress proxy dials only an address that answered a lookup of an
    allowed name, asks only its resolvers, takes a request for one byte by byte by a grammar of
    its own ([NetConnect.Http]), and its relay neither loses, invents nor reorders a byte ([NetProxy],
    [NetRelay], [NetConnect], [NetDns]).  On the Wayland proxy only what was advertised to a
    connection is bound on it, the clipboard gate follows input, messages keep their
    descriptors, the maps stay bounded and the loop always waits ([WlTrace], [WlStream],
    [WlObjects], [WlLoop]).  The bus client answers a call with its own reply and its codec
    round-trips ([DbusCalls], [DbusCodec], [DbusMessage]).  The supervisor starts nothing once
    it stops, answers the exec channel faithfully and returns ([InitSpec]).  The terminal
    carries every byte both ways ([TtySpec]), and text of others reaches it harmless
    ([SafeText]).

    ** Not modelled

    Process set-up on raw descriptors and the starting, watching and stopping of the launcher's
    processes, which are system calls; threads other than as interleavings; the sweep of
    inherited descriptors, the PipeWire holder, cgroups, document forwarding; instances and logs
    on disk, the writing of desktop entries; the question for the accessibility bus; the wording of errors,
    findings and usage texts, the rendering of lint reports and explanations, the cutting of
    lines to a width; the command line and the terminal interface. *)
From stdpp Require Export base tactics list gmap numbers strings.
From Stdlib Require Export ZArith Lia.


#[global] Open Scope Z_scope.

(** ** Fallible code: Rust's [Result] *)

Inductive result (E A : Type) : Type :=
| Ok (a : A)
| Err (e : E).
Arguments Ok {E A} a.
Arguments Err {E A} e.

#[global] Instance result_eq_dec E A `{EqDecision E, EqDecision A} : EqDecision (result E A).
Proof. solve_decision. Defined.

#[global] Instance result_ret E : MRet (result E) := fun A a => Ok a.
#[global] Instance result_bind E : MBind (result E) := fun A B f m =>
  match m with Ok a => f a | Err e => Err e end.
#[global] Instance result_fmap E : FMap (result E) := fun A B f m =>
  match m with Ok a => Ok (f a) | Err e => Err e end.

(** [Option::ok_or], [Result::map_err] and [Result::is_ok]. *)
Definition ok_or {E A} (o : option A) (e : E) : result E A :=
  match o with Some a => Ok a | None => Err e end.

Definition map_err {E F A} (f : E -> F) (m : result E A) : result F A :=
  match m with Ok a => Ok a | Err e => Err (f e) end.

(** A loop over a list that keeps a state and may return early with an error. *)
Fixpoint fold_res {E S A} (f : S -> A -> result E S) (s : S) (l : list A) : result E S :=
  match l with
  | [] => Ok s
  | a :: l => match f s a with Ok s => fold_res f s l | Err e => Err e end
  end.

Definition is_ok {E A} (m : result E A) : bool :=
  match m with Ok _ => true | Err _ => false end.

Lemma bind_ok {E A B} (m : result E A) (f : A -> result E B) b :
  (m ≫= f) = Ok b <-> exists a, m = Ok a /\ f a = Ok b.
Proof. destruct m as [a|e]; cbn; naive_solver. Qed.

Lemma ok_or_ok {E A} (o : option A) (e : E) a : ok_or o e = Ok a <-> o = Some a.
Proof. destruct o; cbn; naive_solver. Qed.

Lemma is_ok_true {E A} (m : result E A) : is_ok m = true <-> exists a, m = Ok a.
Proof. destruct m; cbn; naive_solver. Qed.

Lemma fold_app {E S A} (f : S -> A -> result E S) l k s : fold_res f s (l ++ k) = (fold_res f s l ≫= fun s => fold_res f s k).
Proof. revert s. induction l as [|a l IH]; intros s; [done|]. cbn [app fold_res]. destruct (f s a); [apply IH|done]. Qed.

Lemma omap_app_local {A C} (f : A -> option C) l k : omap f (l ++ k) = omap f l ++ omap f k.
Proof. induction l as [|a l IH]; cbn; [done|]. destruct (f a); cbn; by rewrite IH. Qed.

(** What every turn of a loop keeps holds of what the loop answers. *)
Lemma fold_res_inv {E S A} (P : S -> Prop) (f : S -> A -> result E S) l : forall s s',
  (forall s a s', a ∈ l -> P s -> f s a = Ok s' -> P s') -> P s -> fold_res f s l = Ok s' -> P s'.
Proof.
  induction l as [|a l IH]; intros s s' Hf Hs; cbn [fold_res]; [by intros [= <-]|].
  destruct (f s a) as [s1|e] eqn:E1; [|done]. intros Hl. eapply IH; [|eapply Hf; [by left|exact Hs|exact E1]|exact Hl].
  intros t b t' Hb. apply Hf. by right.
Qed.

(** What every element of a loop leaves behind, when no later one takes it away. *)
Lemma fold_res_each {E S A} (Q : A -> S -> Prop) (f : S -> A -> result E S) l : forall s s',
  (forall s a s', a ∈ l -> f s a = Ok s' -> Q a s') -> (forall s a b s', Q b s -> f s a = Ok s' -> Q b s') ->
  fold_res f s l = Ok s' -> Forall (fun a => Q a s') l.
Proof.
  induction l as [|a l IH]; intros s s' Hf Hk; cbn [fold_res]; [by constructor|].
  destruct (f s a) as [s1|e] eqn:E1; [|done]. intros Hl. constructor.
  - eapply (fold_res_inv (Q a)); [|eapply Hf; [by left|exact E1]|exact Hl]. intros t b t' _. apply Hk.
  - eapply IH; [|exact Hk|exact Hl]. intros t b t' Hb. apply Hf. by right.
Qed.

(** The same of a loop that cannot fail. *)
Lemma fold_left_inv {A C} (P : C -> Prop) (f : C -> A -> C) l : (forall c a, a ∈ l -> P c -> P (f c a)) -> forall c, P c -> P (fold_left f l c).
Proof.
  induction l as [|a l IH]; intros Hf c Hc; cbn; [done|]. apply IH; [|apply Hf; [by left|done]]. intros d b Hb. apply Hf. by right.
Qed.

Lemma Forall_concat_map {A C} (P : C -> Prop) (f : A -> list C) l : (forall a, a ∈ l -> Forall P (f a)) -> Forall P (concat (map f l)).
Proof.
  intros Hf. apply Forall_forall. intros c Hc. apply list_elem_of_In, in_concat in Hc as (k & (a & <- & Ha)%in_map_iff & Hc).
  apply list_elem_of_In in Ha, Hc. specialize (Hf a Ha). rewrite Forall_forall in Hf. by apply Hf.
Qed.

(** ** Tactics of the development *)

(** Splits every bind, test and match that a successful result went through. *)
Ltac inv_ok :=
  repeat match goal with
  | H : Ok _ = Ok _ |- _ => injection H as H; subst
  | H : Err _ = Err _ |- _ => injection H as H; subst
  | H : Some _ = Some _ |- _ => injection H as H; subst
  | H : Ok _ = Err _ |- _ => discriminate H
  | H : Err _ = Ok _ |- _ => discriminate H
  | H : None = Some _ |- _ => discriminate H
  | H : Some _ = None |- _ => discriminate H
  | H : (_ ≫= _) = Ok _ |- _ =>
      apply bind_ok in H; let a := fresh "r" in let E := fresh "E" in destruct H as (a & E & H)
  | H : ok_or _ _ = Ok _ |- _ => apply ok_or_ok in H
  end.

(** One case split on the scrutinee of a match or test in a hypothesis. *)
Ltac split_in H :=
  match type of H with
  | context [match ?x with _ => _ end] =>
      lazymatch x with
      | context [match _ with _ => _ end] => fail
      | _ => let E := fresh "E" in destruct x eqn:E
      end
  end.

(** A closed decidable statement, by evaluation. *)
Ltac by_decide := apply (bool_decide_unpack _); vm_compute; exact I.

(** A hypothesis that evaluates to a contradiction. *)
Ltac by_absurd := let H := fresh in intros H; exfalso; revert H; apply (bool_decide_unpack _); vm_compute; exact I.

(** Turns boolean tests in the context into propositions. *)
Ltac bool_to_prop :=
  repeat match goal with
  | H : (_ && _)%bool = true |- _ => apply andb_true_iff in H; destruct H
  | H : (_ || _)%bool = false |- _ => apply orb_false_iff in H; destruct H
  | H : negb _ = true |- _ => apply negb_true_iff in H
  | H : negb _ = false |- _ => apply negb_false_iff in H
  | H : (_ <? _) = true |- _ => apply Z.ltb_lt in H
  | H : (_ <? _) = false |- _ => apply Z.ltb_ge in H
  | H : (_ <=? _) = true |- _ => apply Z.leb_le in H
  | H : (_ <=? _) = false |- _ => apply Z.leb_gt in H
  | H : (_ >? _) = true |- _ => rewrite Z.gtb_ltb in H
  | H : (_ >? _) = false |- _ => rewrite Z.gtb_ltb in H
  | H : (_ >=? _) = true |- _ => rewrite Z.geb_leb in H
  | H : (_ >=? _) = false |- _ => rewrite Z.geb_leb in H
  | H : (_ =? _) = true |- _ => apply Z.eqb_eq in H
  | H : (_ =? _) = false |- _ => apply Z.eqb_neq in H
  | H : bool_decide _ = true |- _ => apply bool_decide_eq_true in H
  | H : bool_decide _ = false |- _ => apply bool_decide_eq_false in H
  end.

(** ** Lengths and slices with [usize] indices *)

Definition len {A} (l : list A) : Z := Z.of_nat (length l).

Lemma len_nil {A} : len (@nil A) = 0.
Proof. done. Qed.
Lemma len_cons {A} (x : A) l : len (x :: l) = 1 + len l.
Proof. unfold len. cbn [length]. lia. Qed.
Lemma len_app {A} (l k : list A) : len (l ++ k) = len l + len k.
Proof. unfold len. rewrite length_app. lia. Qed.
Lemma len_nonneg {A} (l : list A) : 0 <= len l.
Proof. unfold len. lia. Qed.
Lemma len_0 {A} (l : list A) : len l = 0 -> l = [].
Proof. destruct l; [done|]. rewrite len_cons. pose proof (len_nonneg l). lia. Qed.
Lemma len_rev {A} (l : list A) : len (rev l) = len l.
Proof. unfold len. by rewrite length_rev. Qed.
Lemma len_map {A B} (f : A -> B) l : len (map f l) = len l.
Proof. unfold len. by rewrite length_map. Qed.
Lemma len_fmap {A B} (f : A -> B) l : len (f <$> l) = len l.
Proof. unfold len. by rewrite length_fmap. Qed.
Lemma len_replicate {A} n (x : A) : len (replicate n x) = Z.of_nat n.
Proof. unfold len. by rewrite length_replicate. Qed.
Lemma len_drop {A} n (l : list A) : len (drop n l) = Z.max 0 (len l - Z.of_nat n).
Proof. unfold len. rewrite length_drop. lia. Qed.
Lemma len_take {A} n (l : list A) : len (take n l) = Z.min (Z.of_nat n) (len l).
Proof. unfold len. rewrite length_take. lia. Qed.

Create HintDb bub.
Create Rewrite HintDb len.
#[export] Hint Rewrite @len_nil @len_cons @len_app @len_rev @len_map @len_fmap @len_replicate
  @len_drop @len_take : len.
#[export] Hint Resolve len_nonneg : bub.

(** Arithmetic about lengths. *)
Ltac len_lia :=
  autorewrite with len in *;
  repeat match goal with
  | l : list _ |- _ => lazymatch goal with
      | H : 0 <= len l |- _ => fail
      | _ => pose proof (len_nonneg l)
      end
  end; lia.

(** [slice::get(i)]: the element, or [None] out of range. *)
Definition get {A} (l : list A) (i : Z) : option A :=
  if (0 <=? i) && (i <? len l) then l !! Z.to_nat i else None.

(** [slice::get(a..b)]: the sub-slice, or [None] when the range is not inside it. *)
Definition slice {A} (l : list A) (a b : Z) : option (list A) :=
  if (0 <=? a) && (a <=? b) && (b <=? len l)
  then Some (take (Z.to_nat (b - a)) (drop (Z.to_nat a) l)) else None.

(** [&l[a..]] with [a <= l.len()], and [&l[..a]]. *)
Definition from {A} (l : list A) (a : Z) : list A := drop (Z.to_nat a) l.
Definition upto {A} (l : list A) (a : Z) : list A := take (Z.to_nat a) l.

Lemma slice_some {A} (l s : list A) a b :
  slice l a b = Some s <->
  exists p q, l = p ++ s ++ q /\ len p = a /\ len s = b - a.
Proof.
  unfold slice. split.
  - intros H. destruct (_ && _) eqn:E; [|done]. bool_to_prop. injection H as <-.
    exists (take (Z.to_nat a) l), (drop (Z.to_nat b) l). split; [|split; len_lia].
    replace (Z.to_nat b) with (Z.to_nat a + Z.to_nat (b - a))%nat by lia.
    rewrite <-drop_drop, take_drop, take_drop. done.
  - intros (p & q & -> & <- & Hs). pose proof (len_nonneg q). pose proof (len_nonneg s).
    pose proof (len_nonneg p).
    replace (_ && _) with true.
    2:{ symmetry. rewrite !andb_true_iff, !Z.leb_le. len_lia. }
    replace (Z.to_nat (len p)) with (length p) by (unfold len; lia).
    rewrite drop_app_length.
    replace (Z.to_nat (b - len p)) with (length s) by (unfold len in *; lia).
    by rewrite take_app_length.
Qed.

Lemma slice_app {A} (p s q : list A) : slice (p ++ s ++ q) (len p) (len p + len s) = Some s.
Proof. apply slice_some. exists p, q. split; [done|]. lia. Qed.

Lemma slice_none {A} (l : list A) a b :
  0 <= a <= b -> slice l a b = None <-> len l < b.
Proof.
  intros Hab. unfold slice. destruct (_ && _) eqn:E; bool_to_prop.
  - split; [done|lia].
  - split; [|done]. intros _. destruct (Z.ltb_spec (len l) b); [done|].
    exfalso. revert E. rewrite (proj2 (Z.leb_le 0 a)), (proj2 (Z.leb_le a b)), (proj2 (Z.leb_le b (len l))) by lia.
    done.
Qed.

Lemma get_some {A} (l : list A) i x :
  get l i = Some x <-> exists p q, l = p ++ x :: q /\ len p = i.
Proof.
  unfold get. split.
  - intros H. destruct (_ && _) eqn:E; [|done]. bool_to_prop.
    apply list_elem_of_split_length in H as (p & q & -> & Hp).
    exists p, q. split; [done|]. unfold len in *. lia.
  - intros (p & q & -> & <-). replace (_ && _) with true.
    2:{ symmetry. rewrite andb_true_iff, Z.leb_le, Z.ltb_lt. len_lia. }
    replace (Z.to_nat (len p)) with (length p) by (unfold len; lia).
    rewrite lookup_app_r by lia. by rewrite Nat.sub_diag.
Qed.

Lemma get_none {A} (l : list A) i : 0 <= i -> get l i = None <-> len l <= i.
Proof.
  intros Hi. unfold get. rewrite (proj2 (Z.leb_le 0 i)) by lia. cbn.
  destruct (Z.ltb_spec i (len l)).
  - split; [|lia]. intros Hn%lookup_ge_None. unfold len in *. lia.
  - split; [lia|done].
Qed.

Lemma get_app_mid {A} (p q : list A) x : get (p ++ x :: q) (len p) = Some x.
Proof. apply get_some. by exists p, q. Qed.

Lemma from_app {A} (p q : list A) : from (p ++ q) (len p) = q.
Proof. unfold from, len. rewrite Nat2Z.id. apply drop_app_length. Qed.
Lemma upto_app {A} (p q : list A) : upto (p ++ q) (len p) = p.
Proof. unfold upto, len. rewrite Nat2Z.id. apply take_app_length. Qed.
Lemma upto_from {A} (l : list A) a : upto l a ++ from l a = l.
Proof. apply take_drop. Qed.
Lemma len_from {A} (l : list A) a : 0 <= a <= len l -> len (from l a) = len l - a.
Proof. intros. unfold from. rewrite len_drop. lia. Qed.
Lemma len_upto {A} (l : list A) a : 0 <= a <= len l -> len (upto l a) = a.
Proof. intros. unfold upto. rewrite len_take. lia. Qed.

Lemma upto_app_ge {A} (p q : list A) a : len p <= a -> upto (p ++ q) a = p ++ upto q (a - len p).
Proof.
  intros. unfold upto. rewrite take_app_ge by (unfold len in *; lia). do 2 f_equal.
  unfold len in *. lia.
Qed.
Lemma upto_app_le {A} (p q : list A) a : a <= len p -> upto (p ++ q) a = upto p a.
Proof. intros. unfold upto. apply take_app_le. unfold len in *. lia. Qed.
Lemma upto_cons {A} (x : A) l a : 1 <= a -> upto (x :: l) a = x :: upto l (a - 1).
Proof.
  intros. unfold upto. replace (Z.to_nat a) with (S (Z.to_nat (a - 1))) by lia. done.
Qed.
Lemma from_app_ge {A} (p q : list A) a : len p <= a -> from (p ++ q) a = from q (a - len p).
Proof.
  intros. unfold from. rewrite drop_app_ge by (unfold len in *; lia). f_equal. unfold len in *. lia.
Qed.
Lemma from_app_le {A} (p q : list A) a : a <= len p -> from (p ++ q) a = from p a ++ q.
Proof. intros. unfold from. apply drop_app_le. unfold len in *. lia. Qed.
Lemma upto_ge {A} (l : list A) a : len l <= a -> upto l a = l.
Proof. intros. apply take_ge. unfold len in *. lia. Qed.
Lemma from_0 {A} (l : list A) : from l 0 = l.
Proof. done. Qed.
Lemma upto_le0 {A} (l : list A) a : a <= 0 -> upto l a = [].
Proof. intros. unfold upto. by replace (Z.to_nat a) with 0%nat by lia. Qed.

(** A list is cut at any position inside it. *)
Lemma cut_at {A} (l : list A) a : 0 <= a <= len l -> exists p q, l = p ++ q /\ len p = a.
Proof.
  intros. exists (upto l a), (from l a). rewrite upto_from, len_upto by lia. done.
Qed.

Lemma app_len_inj {A} (p p' q q' : list A) :
  len p = len p' -> p ++ q = p' ++ q' -> p = p' /\ q = q'.
Proof. intros Hl Heq. apply app_inj_1 in Heq; [done|]. unfold len in Hl. lia. Qed.

(** [iter().position(p)]. *)
Fixpoint position {A} (p : A -> bool) (l : list A) : option Z :=
  match l with
  | [] => None
  | x :: l => if p x then Some 0 else Z.succ <$> position p l
  end.

Lemma position_some {A} (p : A -> bool) l i :
  position p l = Some i <->
  exists a x b, l = a ++ x :: b /\ len a = i /\ p x = true /\ Forall (fun y => p y = false) a.
Proof.
  revert i. induction l as [|y l IH]; intros i; cbn.
  - split; [done|]. by intros ([|??] & x & b & H & _).
  - destruct (p y) eqn:E.
    + split.
      * intros [= <-]. exists [], y, l. repeat split; auto.
      * intros ([|z a] & x & b & [= -> ->] & <- & Hx & Ha); [done|].
        apply Forall_cons in Ha as [Hz _]. congruence.
    + rewrite fmap_Some. split.
      * intros (j & (a & x & b & -> & <- & Hx & Ha)%IH & ->).
        exists (y :: a), x, b. rewrite len_cons. repeat split; auto; lia.
      * intros ([|z a] & x & b & [= -> ->] & <- & Hx & Ha); [congruence|].
        apply Forall_cons in Ha as [_ Ha]. exists (len a). split; [|rewrite len_cons; lia].
        apply IH. by exists a, x, b.
Qed.

Lemma position_none {A} (p : A -> bool) l :
  position p l = None <-> Forall (fun y => p y = false) l.
Proof.
  induction l as [|y l IH]; cbn; [done|].
  rewrite Forall_cons, <-IH. destruct (p y); [naive_solver|].
  rewrite fmap_None. naive_solver.
Qed.

Lemma forallb_spec {A} (f : A -> bool) l :
  forallb f l = true <-> Forall (fun x => f x = true) l.
Proof. rewrite List.forallb_forall, Forall_forall. setoid_rewrite list_elem_of_In. done. Qed.

Lemma forallb_false {A} (f : A -> bool) l :
  forallb f l = false <-> ~ Forall (fun x => f x = true) l.
Proof. rewrite <-forallb_spec. by destruct (forallb f l). Qed.

Lemma existsb_spec {A} (f : A -> bool) l :
  existsb f l = true <-> exists x, x ∈ l /\ f x = true.
Proof. rewrite List.existsb_exists. setoid_rewrite list_elem_of_In. done. Qed.

Lemma existsb_none {A} (f : A -> bool) l : existsb f l = false <-> forall x, x ∈ l -> f x = false.
Proof.
  rewrite <-not_true_iff_false, existsb_spec. split.
  - intros Hn x Hx. apply not_true_iff_false. intros Hf. apply Hn. by exists x.
  - intros Hf (x & Hx & Ht). rewrite Hf in Ht; done.
Qed.

(** No pair of a list has the key. *)
Lemma key_absent {A K} `{EqDecision K} (f : A -> K) (l : list A) k :
  existsb (fun x => bool_decide (f x = k)) l = false <-> k ∉ map f l.
Proof.
  rewrite existsb_none. split.
  - intros Hf (x & -> & Hx)%list_elem_of_fmap. specialize (Hf x Hx). by rewrite bool_decide_true in Hf.
  - intros Hk x Hx. apply bool_decide_eq_false. intros <-. apply Hk, list_elem_of_fmap. by exists x.
Qed.

Lemma NoDup_snoc {A} (l : list A) x : NoDup l -> x ∉ l -> NoDup (l ++ [x]).
Proof.
  intros Hl Hx. apply NoDup_app. split; [done|]. split; [|apply NoDup_singleton].
  intros y Hy ->%list_elem_of_singleton. done.
Qed.

(** ** Machine integers *)

Definition U8_MAX : Z := 255.
Definition U16_MAX : Z := 65535.
Definition U32_MAX : Z := 4294967295.
Definition I32_MAX : Z := 2147483647.
Definition U64_MAX : Z := 18446744073709551615.
Definition USIZE_MAX : Z := U64_MAX.

(** [usize::checked_add] on the 64-bit target the build requires. *)
Definition checked_add (a b : Z) : option Z :=
  if a + b <=? USIZE_MAX then Some (a + b) else None.

Lemma checked_add_some a b c : checked_add a b = Some c -> c = a + b.
Proof. unfold checked_add. by destruct (_ <=? _); intros [= <-]. Qed.

Definition saturating_sub (a b : Z) : Z := Z.max 0 (a - b).

(** [u64::saturating_add]. *)
Definition saturating_add_u64 (a b : Z) : Z := Z.min U64_MAX (a + b).

(** [as i32] of a [u32], and [as u32] of an [i32]. *)
Definition i32_of_u32 (w : Z) : Z := if w <? 2 ^ 31 then w else w - 2 ^ 32.
Definition u32_of_i32 (v : Z) : Z := v mod 2 ^ 32.

Definition is_u16 (v : Z) : Prop := 0 <= v <= U16_MAX.
Definition is_u32 (v : Z) : Prop := 0 <= v <= U32_MAX.
Definition is_i32 (v : Z) : Prop := - 2 ^ 31 <= v < 2 ^ 31.

Lemma i32_u32 v : is_i32 v -> i32_of_u32 (u32_of_i32 v) = v.
Proof.
  unfold is_i32, i32_of_u32, u32_of_i32. intros.
  destruct (Z.leb_spec 0 v).
  - rewrite Z.mod_small by lia. destruct (Z.ltb_spec v (2 ^ 31)); lia.
  - rewrite <-(Z.mod_add v 1) by lia. rewrite Z.mod_small by lia.
    destruct (Z.ltb_spec (v + 1 * 2 ^ 32) (2 ^ 31)); lia.
Qed.

Lemma u32_i32 w : is_u32 w -> u32_of_i32 (i32_of_u32 w) = w.
Proof.
  unfold is_u32, U32_MAX, i32_of_u32, u32_of_i32. intros.
  destruct (Z.ltb_spec w (2 ^ 31)); [apply Z.mod_small; lia|].
  rewrite <-(Z.mod_add (w - 2 ^ 32) 1) by lia.
  replace (w - 2 ^ 32 + 1 * 2 ^ 32) with w by lia. apply Z.mod_small. lia.
Qed.

Lemma i32_of_u32_range w : is_u32 w -> is_i32 (i32_of_u32 w).
Proof. unfold is_u32, is_i32, U32_MAX, i32_of_u32. intros. destruct (Z.ltb_spec w (2 ^ 31)); lia. Qed.

Lemma u32_of_i32_range v : is_u32 (u32_of_i32 v).
Proof. unfold is_u32, U32_MAX, u32_of_i32. pose proof (Z.mod_pos_bound v (2 ^ 32)). lia. Qed.

(** A shifted value and a value that fits under the shift do not overlap. *)
Lemma lor_shiftl s o n : 0 <= n -> 0 <= o < 2 ^ n -> Z.lor (Z.shiftl s n) o = s * 2 ^ n + o.
Proof.
  intros Hn Ho. rewrite <-Z.shiftl_mul_pow2 by done.
  assert (Z.land (Z.shiftl s n) o = 0) as Hl.
  { apply Z.bits_inj'. intros i Hi. rewrite Z.land_spec, Z.bits_0. destruct (Z.lt_ge_cases i n).
    - by rewrite Z.shiftl_spec_low.
    - destruct (Z.eq_dec o 0) as [->|]; [by rewrite Z.bits_0, andb_false_r|].
      rewrite (Z.bits_above_log2 o), andb_false_r; [done|lia|].
      apply Z.lt_le_trans with n; [|done]. apply Z.log2_lt_pow2; lia. }
  rewrite <-Z.lxor_lor by done. symmetry. by apply Z.add_nocarry_lxor.
Qed.

(** ** Time: [Duration]s and [Instant]s are nanoseconds *)

Definition NANOS : Z := 1000000000.
Definition from_secs (s : Z) : Z := s * NANOS.
Definition from_millis (ms : Z) : Z := ms * 1000000.
