(* ===== verification/Bytes.v ===== *)
(** Bytes and text as the Rust code sees them.

    A [u8] is a [byte]; a [Vec<u8>], a [&[u8]], a [String] and a [&str] are all
    [bytes] (text is its UTF-8 encoding, which is what [len], [split] and the
    ASCII operations of [str] work on).  This file holds the byte arithmetic,
    the little- and big-endian encodings of integers with their round trips,
    the ASCII classes, and the [str] searching and splitting functions the
    components use. *)
From S2P Require Export Prelude.

(** Byte literals: the scope [byte]. *)
Export Corelib.Init.Byte.ByteSyntaxNotations.
Delimit Scope byte_scope with byte.

Abbreviation byte := Init.Byte.byte.
Abbreviation bytes := (list byte).

#[global] Instance byte_eq_decision : EqDecision byte := Strings.Byte.byte_eq_dec.

(** Text literals: [B] of a string is its bytes. *)
Definition B (s : string) : bytes := String.list_byte_of_string s.

(** Lengths of text literals, evaluated. *)
Ltac lit_len :=
  repeat match goal with
  | |- context [len (B ?s)] =>
      let n := eval vm_compute in (len (B s)) in change (len (B s)) with n
  end.

(** ** Bytes as numbers *)

Definition u8 (b : byte) : Z := Z.of_N (Strings.Byte.to_N b).
(** [as u8]: the low eight bits. *)
Definition to_u8 (z : Z) : byte :=
  match Strings.Byte.of_N (Z.to_N (z mod 256)) with Some b => b | None => Init.Byte.x00 end.

Lemma u8_range b : 0 <= u8 b < 256.
Proof. unfold u8. pose proof (Strings.Byte.to_N_bounded b). lia. Qed.

Lemma to_u8_u8 b : to_u8 (u8 b) = b.
Proof.
  unfold to_u8. rewrite Z.mod_small by apply u8_range. unfold u8.
  by rewrite N2Z.id, Strings.Byte.of_to_N.
Qed.

Lemma u8_to_u8 z : u8 (to_u8 z) = z mod 256.
Proof.
  unfold to_u8. destruct (Strings.Byte.of_N _) eqn:E.
  - apply Strings.Byte.to_of_N in E. unfold u8. rewrite E.
    rewrite Z2N.id; [done|]. apply Z.mod_pos_bound. lia.
  - apply Strings.Byte.of_N_None_iff in E. pose proof (Z.mod_pos_bound z 256). lia.
Qed.

Lemma u8_inj b c : u8 b = u8 c -> b = c.
Proof. intros H. by rewrite <-(to_u8_u8 b), H, to_u8_u8. Qed.

#[global] Instance u8_Inj : Inj (=) (=) u8 := u8_inj.

(** A statement about every byte, by the 256 cases. *)
Ltac by_bytes :=
  intros; repeat match goal with b : byte |- _ => destruct b end;
  vm_compute; congruence || (intros; discriminate) || (intuition congruence).

(** ** Fixed-width integers on the wire *)

Fixpoint le_bytes (n : nat) (z : Z) : bytes :=
  match n with
  | O => []
  | S n => to_u8 z :: le_bytes n (z / 256)
  end.

Fixpoint le_val (l : bytes) : Z :=
  match l with
  | [] => 0
  | b :: l => u8 b + 256 * le_val l
  end.

Definition be_bytes (n : nat) (z : Z) : bytes := rev (le_bytes n z).
Definition be_val (l : bytes) : Z := le_val (rev l).

Lemma len_le_bytes n z : len (le_bytes n z) = Z.of_nat n.
Proof. revert z. induction n as [|n IH]; intros z; cbn [le_bytes]; [done|]. rewrite len_cons, IH. lia. Qed.

Lemma len_be_bytes n z : len (be_bytes n z) = Z.of_nat n.
Proof. unfold be_bytes. by rewrite len_rev, len_le_bytes. Qed.

#[export] Hint Rewrite len_le_bytes len_be_bytes : len.

Lemma le_val_range l : 0 <= le_val l < 256 ^ len l.
Proof.
  induction l as [|b l IH]; cbn [le_val]; [done|].
  rewrite len_cons, Z.pow_add_r by len_lia. pose proof (u8_range b). lia.
Qed.

Lemma le_val_bytes n z : 0 <= z < 256 ^ Z.of_nat n -> le_val (le_bytes n z) = z.
Proof.
  revert z. induction n as [|n IH]; intros z H; cbn [le_bytes le_val].
  - cbn in H. lia.
  - rewrite u8_to_u8, IH; [pose proof (Z.div_mod z 256); lia|].
    rewrite Nat2Z.inj_succ, Z.pow_succ_r in H by lia.
    split; [apply Z.div_pos; lia|apply Z.div_lt_upper_bound; lia].
Qed.

Lemma le_bytes_val l : le_bytes (length l) (le_val l) = l.
Proof.
  induction l as [|b l IH]; cbn [length le_bytes le_val]; [done|]. f_equal.
  - apply u8_inj. rewrite u8_to_u8, (Z.mul_comm 256), Z.mod_add by lia.
    apply Z.mod_small, u8_range.
  - rewrite (Z.mul_comm 256), Z.div_add, Z.div_small by (lia || apply u8_range). done.
Qed.

Lemma le_bytes_inj n x y :
  0 <= x < 256 ^ Z.of_nat n -> 0 <= y < 256 ^ Z.of_nat n ->
  le_bytes n x = le_bytes n y -> x = y.
Proof. intros Hx Hy E. by rewrite <-(le_val_bytes n x), E, le_val_bytes. Qed.

Lemma be_val_bytes n z : 0 <= z < 256 ^ Z.of_nat n -> be_val (be_bytes n z) = z.
Proof. intros. unfold be_val, be_bytes. rewrite rev_involutive. by apply le_val_bytes. Qed.

Lemma be_bytes_val l : be_bytes (length l) (be_val l) = l.
Proof.
  unfold be_val, be_bytes. rewrite <-(length_rev l), le_bytes_val. apply rev_involutive.
Qed.

Lemma be_val_range l : 0 <= be_val l < 256 ^ len l.
Proof. unfold be_val. rewrite <-(len_rev l). apply le_val_range. Qed.

(** ** ASCII *)

Definition is_ascii_digit (b : byte) : bool := (48 <=? u8 b) && (u8 b <=? 57).
Definition is_ascii_upper (b : byte) : bool := (65 <=? u8 b) && (u8 b <=? 90).
Definition is_ascii_lower (b : byte) : bool := (97 <=? u8 b) && (u8 b <=? 122).
Definition is_ascii_alphanumeric (b : byte) : bool :=
  is_ascii_digit b || is_ascii_upper b || is_ascii_lower b.
Definition lower_byte (b : byte) : byte :=
  if is_ascii_upper b then to_u8 (u8 b + 32) else b.
Definition to_ascii_lowercase (l : bytes) : bytes := map lower_byte l.
Definition eq_ignore_ascii_case (a b : bytes) : bool :=
  bool_decide (to_ascii_lowercase a = to_ascii_lowercase b).

Definition DOT : byte := Init.Byte.x2e.
Definition DASH : byte := Init.Byte.x2d.
Definition COLON : byte := Init.Byte.x3a.
Definition STAR : byte := Init.Byte.x2a.
Definition PLUS : byte := Init.Byte.x2b.
Definition SPACE : byte := Init.Byte.x20.
Definition TAB : byte := Init.Byte.x09.
Definition CR : byte := Init.Byte.x0d.
Definition LF : byte := Init.Byte.x0a.
Definition NUL : byte := Init.Byte.x00.
Definition LBRACKET : byte := Init.Byte.x5b.

Lemma lower_lower b : lower_byte (lower_byte b) = lower_byte b.
Proof. by_bytes. Qed.
Lemma lower_alnum b : is_ascii_alphanumeric (lower_byte b) = is_ascii_alphanumeric b.
Proof. by_bytes. Qed.
Lemma lower_digit b : is_ascii_digit (lower_byte b) = is_ascii_digit b.
Proof. by_bytes. Qed.
Lemma lower_dot b : lower_byte b = DOT <-> b = DOT.
Proof. by_bytes. Qed.
Lemma lower_dash b : lower_byte b = DASH <-> b = DASH.
Proof. by_bytes. Qed.
Lemma lower_not_upper b : is_ascii_upper (lower_byte b) = false.
Proof. by_bytes. Qed.
Lemma not_upper_lower b : is_ascii_upper b = false -> lower_byte b = b.
Proof. unfold lower_byte. by intros ->. Qed.
Lemma alnum_not_dot : is_ascii_alphanumeric DOT = false.
Proof. done. Qed.

Lemma lowercase_idem l : to_ascii_lowercase (to_ascii_lowercase l) = to_ascii_lowercase l.
Proof. unfold to_ascii_lowercase. rewrite map_map. apply map_ext. apply lower_lower. Qed.
Lemma len_lowercase l : len (to_ascii_lowercase l) = len l.
Proof. apply len_map. Qed.
#[export] Hint Rewrite len_lowercase : len.
Lemma lowercase_app a b :
  to_ascii_lowercase (a ++ b) = to_ascii_lowercase a ++ to_ascii_lowercase b.
Proof. apply map_app. Qed.

Lemma eq_ignore_case_spec a b :
  eq_ignore_ascii_case a b = true <-> to_ascii_lowercase a = to_ascii_lowercase b.
Proof. apply bool_decide_eq_true. Qed.

(** ** Prefixes, suffixes and splitting *)

Fixpoint strip_prefix {A} `{EqDecision A} (pre l : list A) : option (list A) :=
  match pre, l with
  | [], _ => Some l
  | p :: pre, x :: l => if decide (p = x) then strip_prefix pre l else None
  | _ :: _, [] => None
  end.

Lemma strip_prefix_some {A} `{EqDecision A} (pre l q : list A) :
  strip_prefix pre l = Some q <-> l = pre ++ q.
Proof.
  revert l. induction pre as [|p pre IH]; intros l; cbn.
  - naive_solver.
  - destruct l as [|x l]; [naive_solver|]. case_decide; [|naive_solver].
    rewrite IH. naive_solver.
Qed.

Definition strip_suffix {A} `{EqDecision A} (suf l : list A) : option (list A) :=
  (@rev A) <$> strip_prefix (rev suf) (rev l).

Lemma strip_suffix_some {A} `{EqDecision A} (suf l p : list A) :
  strip_suffix suf l = Some p <-> l = p ++ suf.
Proof.
  unfold strip_suffix. rewrite fmap_Some. split.
  - intros (q & Hq & ->). apply strip_prefix_some in Hq.
    rewrite <-(rev_involutive l), Hq, rev_app_distr, rev_involutive. done.
  - intros ->. exists (rev p). rewrite strip_prefix_some, rev_app_distr, rev_involutive. done.
Qed.

(** [s.strip_suffix(x).unwrap_or(s)] and its prefix twin. *)
Definition without_suffix {A} `{EqDecision A} (suf l : list A) : list A :=
  default l (strip_suffix suf l).

Definition starts_with {A} `{EqDecision A} (pre l : list A) : bool :=
  match strip_prefix pre l with Some _ => true | None => false end.
Definition ends_with {A} `{EqDecision A} (suf l : list A) : bool :=
  match strip_suffix suf l with Some _ => true | None => false end.

Lemma starts_with_spec {A} `{EqDecision A} (pre l : list A) :
  starts_with pre l = true <-> exists q, l = pre ++ q.
Proof.
  unfold starts_with. setoid_rewrite <-strip_prefix_some.
  destruct (strip_prefix pre l); naive_solver.
Qed.
Lemma ends_with_spec {A} `{EqDecision A} (suf l : list A) :
  ends_with suf l = true <-> exists p, l = p ++ suf.
Proof.
  unfold ends_with. setoid_rewrite <-strip_suffix_some.
  destruct (strip_suffix suf l); naive_solver.
Qed.

Lemma without_suffix_cases {A} `{EqDecision A} (suf l : list A) :
  l = without_suffix suf l ++ suf \/ (without_suffix suf l = l /\ forall p, l <> p ++ suf).
Proof.
  unfold without_suffix. destruct (strip_suffix suf l) eqn:E; cbn.
  - left. by apply strip_suffix_some.
  - right. split; [done|]. intros p Hp. apply strip_suffix_some in Hp. congruence.
Qed.

Lemma without_suffix_suf {A} `{EqDecision A} (p suf : list A) : without_suffix suf (p ++ suf) = p.
Proof. unfold without_suffix. by rewrite (proj2 (strip_suffix_some suf (p ++ suf) p) eq_refl). Qed.

Lemma without_suffix_id {A} `{EqDecision A} (suf l : list A) :
  (forall p, l <> p ++ suf) -> without_suffix suf l = l.
Proof. intros H. destruct (without_suffix_cases suf l) as [H'|[H' _]]; [by apply H in H'|done]. Qed.

Lemma without_suffix_len {A} `{EqDecision A} (suf l : list A) :
  len l - len suf <= len (without_suffix suf l) <= len l.
Proof.
  destruct (without_suffix_cases suf l) as [H1|[H1 _]].
  - apply (f_equal len) in H1. len_lia.
  - rewrite H1. len_lia.
Qed.

(** [str::split] on one ASCII character: always at least one piece. *)
Fixpoint split_on (sep : byte) (l : bytes) : list bytes :=
  match l with
  | [] => [[]]
  | b :: l =>
      if decide (b = sep) then [] :: split_on sep l
      else match split_on sep l with
           | w :: ws => (b :: w) :: ws
           | [] => [[b]]
           end
  end.

(** [[..].join(sep)]. *)
Fixpoint join (sep : bytes) (ws : list bytes) : bytes :=
  match ws with
  | [] => []
  | [w] => w
  | w :: ws => w ++ sep ++ join sep ws
  end.

Lemma split_on_nonempty sep l : split_on sep l <> [].
Proof. destruct l as [|b l]; cbn; [done|]. case_decide; [done|]. by destruct (split_on sep l). Qed.

Lemma join_cons sep w ws : ws <> [] -> join sep (w :: ws) = w ++ sep ++ join sep ws.
Proof. by destruct ws. Qed.

Lemma join_ends sep ws l : last ws = Some l -> exists p, join sep ws = p ++ l.
Proof.
  induction ws as [|w ws IH]; [done|]. destruct ws as [|v ws].
  - intros [= ->]. by exists [].
  - intros H. destruct (IH H) as [p Hp]. rewrite join_cons, Hp by done.
    exists (w ++ sep ++ p). by rewrite <-!app_assoc.
Qed.

Lemma join_split sep l : join [sep] (split_on sep l) = l.
Proof.
  induction l as [|b l IH]; cbn; [done|]. pose proof (split_on_nonempty sep l).
  case_decide as E.
  - subst. rewrite join_cons by done. rewrite IH. done.
  - destruct (split_on sep l) as [|w ws] eqn:E'; [done|].
    destruct ws; cbn in *; by rewrite IH.
Qed.

Lemma split_on_no_sep sep l w : w ∈ split_on sep l -> sep ∉ w.
Proof.
  revert w. induction l as [|b l IH]; intros w; cbn.
  - rewrite list_elem_of_singleton. intros ->. apply not_elem_of_nil.
  - case_decide as E.
    + rewrite elem_of_cons. intros [->|?]; [apply not_elem_of_nil|auto].
    + destruct (split_on sep l) as [|v vs].
      * rewrite list_elem_of_singleton. intros ->. set_solver.
      * rewrite elem_of_cons. intros [->|?]; [|apply IH; set_solver].
        assert (sep ∉ v) by (apply IH; set_solver). set_solver.
Qed.

Lemma split_on_no_sep_id sep w : sep ∉ w -> split_on sep w = [w].
Proof.
  induction w as [|b w IH]; cbn; [done|]. intros H.
  rewrite decide_False by set_solver. rewrite IH by set_solver. done.
Qed.

Lemma split_on_app sep w l : sep ∉ w -> split_on sep (w ++ sep :: l) = w :: split_on sep l.
Proof.
  induction w as [|b w IH]; cbn; intros H.
  - by rewrite decide_True.
  - rewrite decide_False by set_solver. rewrite IH by set_solver. done.
Qed.

Lemma split_on_app_sep sep p q : split_on sep (p ++ sep :: q) = split_on sep p ++ split_on sep q.
Proof.
  induction p as [|b p IH]; cbn; [by rewrite decide_True|]. rewrite IH.
  case_decide; [done|]. pose proof (split_on_nonempty sep p). by destruct (split_on sep p).
Qed.

Lemma Forall_join (P : byte -> Prop) sep ws :
  P sep -> Forall (Forall P) ws -> Forall P (join [sep] ws).
Proof.
  intros Hs. induction ws as [|w ws IH]; [constructor|]. intros [Hw Hws]%Forall_cons.
  destruct ws as [|v ws]; [done|]. rewrite join_cons by done. cbn [app].
  rewrite Forall_app, Forall_cons. auto.
Qed.

Lemma split_join sep ws :
  ws <> [] -> Forall (fun w => sep ∉ w) ws -> split_on sep (join [sep] ws) = ws.
Proof.
  induction ws as [|w ws IH]; [done|]. intros _ [Hw Hws]%Forall_cons.
  destruct ws as [|v ws].
  - by apply split_on_no_sep_id.
  - rewrite join_cons by done. cbn [app]. rewrite split_on_app by done.
    f_equal. by apply IH.
Qed.

Lemma split_on_inj sep l l' : split_on sep l = split_on sep l' -> l = l'.
Proof. intros H. by rewrite <-(join_split sep l), H, join_split. Qed.

Lemma len_split_on sep l w : w ∈ split_on sep l -> len w <= len l.
Proof.
  revert w. induction l as [|b l IH]; intros w; cbn.
  - rewrite list_elem_of_singleton. by intros ->.
  - case_decide.
    + rewrite elem_of_cons, len_cons. intros [->|?%IH]; len_lia.
    + destruct (split_on sep l) as [|v vs].
      * rewrite list_elem_of_singleton. intros ->. len_lia.
      * rewrite elem_of_cons, len_cons. intros [->|Hw].
        -- rewrite len_cons. pose proof (IH v ltac:(set_solver)). lia.
        -- pose proof (IH w ltac:(set_solver)). lia.
Qed.

(** Lower case commutes with splitting at a character that has no case. *)
Lemma split_on_lowercase l :
  split_on DOT (to_ascii_lowercase l) = map to_ascii_lowercase (split_on DOT l).
Proof.
  induction l as [|b l IH]; [done|].
  change (to_ascii_lowercase (b :: l)) with (lower_byte b :: to_ascii_lowercase l).
  cbn [split_on]. rewrite IH. pose proof (split_on_nonempty DOT l).
  destruct (decide (b = DOT)) as [->|E]; [done|].
  rewrite decide_False by (by rewrite lower_dot). by destruct (split_on DOT l).
Qed.

(** [str::rsplit_once] on one ASCII character. *)
Fixpoint rsplit_once (sep : byte) (l : bytes) : option (bytes * bytes) :=
  match l with
  | [] => None
  | b :: l' =>
      match rsplit_once sep l' with
      | Some (p, q) => Some (b :: p, q)
      | None => if decide (b = sep) then Some ([], l') else None
      end
  end.

Lemma rsplit_once_none sep l : rsplit_once sep l = None <-> sep ∉ l.
Proof.
  induction l as [|b l IH]; cbn; [set_solver|].
  destruct (rsplit_once sep l) as [[p q]|].
  - split; [done|]. intros H. destruct IH as [_ IH]. discriminate IH. set_solver.
  - case_decide; [set_solver|]. split; [|done]. intros _.
    pose proof (proj1 IH eq_refl). set_solver.
Qed.

Lemma rsplit_once_app sep p q : sep ∉ q -> rsplit_once sep (p ++ sep :: q) = Some (p, q).
Proof.
  intros Hq. induction p as [|x p IH]; cbn.
  - by rewrite (proj2 (rsplit_once_none sep q) Hq), decide_True.
  - by rewrite IH.
Qed.

Lemma rsplit_once_some sep l p q :
  rsplit_once sep l = Some (p, q) <-> l = p ++ sep :: q /\ sep ∉ q.
Proof.
  split; [|intros [-> ?]; by apply rsplit_once_app].
  revert p. induction l as [|b l IH]; intros p; cbn; [done|].
  destruct (rsplit_once sep l) as [[p' q']|] eqn:E.
  - intros [= <- ->]. destruct (IH p' eq_refl) as [-> ?]. done.
  - apply rsplit_once_none in E. case_decide; [|done]. intros [= <- <-]. by subst.
Qed.
