(* ===== verification/Text.v ===== *)
(** Numbers and UTF-8 in text: the parts of Rust's [FromStr], [Display],
    [str::from_utf8] and [String::from_utf8_lossy] the components use.  The
    decoders work on the byte encoding of the text; fuel is the length of the
    input, which every step shortens. *)
From S2P Require Export Bytes.

(** ** Decimal numbers *)

Definition digit_val (b : byte) : Z := u8 b - 48.
Definition digits_val (l : bytes) : Z := fold_left (fun acc b => 10 * acc + digit_val b) l 0.

(** [u16::from_str] and the like: an optional [+], then digits and nothing
    else, refused when the value does not fit under [max]. *)
Definition parse_uint (max : Z) (l : bytes) : option Z :=
  let ds := match l with b :: l' => if decide (b = PLUS) then l' else l | [] => [] end in
  if bool_decide (ds <> []) && forallb is_ascii_digit ds && (digits_val ds <=? max)
  then Some (digits_val ds) else None.

(** [i32::from_str]: the sign may also be [-]. *)
Definition parse_i32 (l : bytes) : option Z :=
  match l with
  | b :: ds =>
      if decide (b = DASH) then
        if bool_decide (ds <> []) && forallb is_ascii_digit ds && (digits_val ds <=? I32_MAX + 1)
        then Some (- digits_val ds) else None
      else parse_uint I32_MAX l
  | [] => None
  end.

(** [Display] of an unsigned integer. *)
Fixpoint decimal_aux (fuel : nat) (n : Z) (acc : bytes) : bytes :=
  match fuel with
  | O => acc
  | S fuel =>
      let acc := to_u8 (48 + n mod 10) :: acc in
      if n <? 10 then acc else decimal_aux fuel (n / 10) acc
  end.

Definition decimal (n : Z) : bytes := decimal_aux (S (Z.to_nat (Z.log2 n))) n [].

Lemma digits_val_app ds d : digits_val (ds ++ [d]) = 10 * digits_val ds + digit_val d.
Proof. unfold digits_val. by rewrite fold_left_app. Qed.

Lemma digit_byte n : 0 <= n < 10 ->
  is_ascii_digit (to_u8 (48 + n)) = true /\ digit_val (to_u8 (48 + n)) = n.
Proof.
  intros. unfold is_ascii_digit, digit_val. rewrite u8_to_u8, Z.mod_small by lia.
  split; [|lia]. rewrite andb_true_iff, !Z.leb_le. lia.
Qed.

Lemma decimal_aux_spec fuel n acc :
  0 <= n < 10 ^ Z.of_nat fuel -> (0 < fuel)%nat ->
  exists ds, decimal_aux fuel n acc = ds ++ acc /\ ds <> [] /\
    forallb is_ascii_digit ds = true /\ digits_val ds = n /\ 10 ^ (len ds - 1) <= Z.max 1 n.
Proof.
  revert n acc. induction fuel as [|fuel IH]; intros n acc Hn Hf; [lia|].
  cbn [decimal_aux]. destruct (digit_byte (n mod 10)) as [Hd Hv]; [apply Z.mod_pos_bound; lia|].
  destruct (Z.ltb_spec n 10) as [Hlt|Hge].
  - exists [to_u8 (48 + n mod 10)]. split_and!; [done|done|cbn; by rewrite Hd| |].
    + unfold digits_val. cbn [fold_left]. rewrite Hv, Z.mod_small; lia.
    + change (10 ^ (len [to_u8 (48 + n mod 10)] - 1)) with 1. lia.
  - rewrite Nat2Z.inj_succ, Z.pow_succ_r in Hn by lia.
    destruct (IH (n / 10) (to_u8 (48 + n mod 10) :: acc)) as (ds & E & Hne & Hds & Hval & Hlen).
    + split; [apply Z.div_pos; lia|apply Z.div_lt_upper_bound; lia].
    + destruct fuel; [cbn in Hn|]; lia.
    + exists (ds ++ [to_u8 (48 + n mod 10)]). rewrite E, <-app_assoc. split_and!.
      * done.
      * by destruct ds.
      * by rewrite forallb_app, Hds; cbn; rewrite Hd.
      * rewrite digits_val_app, Hval, Hv. pose proof (Z.div_mod n 10). lia.
      * autorewrite with len.
        replace (len ds + (1 + 0) - 1) with (Z.succ (len ds - 1)) by lia.
        destruct ds as [|d ds]; [done|]. rewrite Z.pow_succ_r by len_lia.
        pose proof (Z.div_mod n 10). pose proof (Z.mod_pos_bound n 10). lia.
Qed.

Lemma decimal_spec n : 0 <= n ->
  decimal n <> [] /\ forallb is_ascii_digit (decimal n) = true /\ digits_val (decimal n) = n /\
  10 ^ (len (decimal n) - 1) <= Z.max 1 n.
Proof.
  intros Hn. unfold decimal.
  destruct (decimal_aux_spec (S (Z.to_nat (Z.log2 n))) n []) as (ds & -> & H); [|lia|by rewrite app_nil_r].
  split; [done|]. rewrite Nat2Z.inj_succ, Z2Nat.id by apply Z.log2_nonneg.
  destruct (Z.eq_dec n 0) as [->|]; [done|].
  pose proof (Z.log2_spec n ltac:(lia)) as [_ H].
  eapply Z.lt_le_trans; [apply H|]. apply Z.pow_le_mono_l. pose proof (Z.log2_nonneg n). lia.
Qed.

Lemma len_decimal k n : 0 <= n < 10 ^ k -> 1 <= k -> len (decimal n) <= k.
Proof.
  intros Hn Hk. destruct (decimal_spec n) as (_ & _ & _ & H); [lia|].
  destruct (Z.le_gt_cases (len (decimal n)) k); [done|].
  assert (10 ^ k <= 10 ^ (len (decimal n) - 1)) by (apply Z.pow_le_mono_r; lia).
  assert (10 ^ 1 <= 10 ^ k) by (apply Z.pow_le_mono_r; lia). lia.
Qed.

Lemma digits_first_not_plus ds : forallb is_ascii_digit ds = true ->
  match ds with b :: l' => if decide (b = PLUS) then l' else ds | [] => [] end = ds.
Proof.
  destruct ds as [|b ds]; [done|]. cbn. intros [Hb _]%andb_true_iff.
  rewrite decide_False; [done|]. by intros ->.
Qed.

Lemma parse_uint_digits max ds :
  ds <> [] -> forallb is_ascii_digit ds = true ->
  parse_uint max ds = if digits_val ds <=? max then Some (digits_val ds) else None.
Proof.
  intros Hne Hds. unfold parse_uint. rewrite digits_first_not_plus by done.
  rewrite bool_decide_true, Hds by done. done.
Qed.

Lemma parse_uint_decimal max n : 0 <= n <= max -> parse_uint max (decimal n) = Some n.
Proof.
  intros Hn. destruct (decimal_spec n) as (? & ? & Hv & _); [lia|].
  rewrite parse_uint_digits, Hv by done. by rewrite (proj2 (Z.leb_le n max)) by lia.
Qed.

Lemma digits_val_nonneg ds : forallb is_ascii_digit ds = true -> 0 <= digits_val ds.
Proof.
  induction ds as [|d ds IH] using rev_ind; [done|].
  rewrite forallb_app, digits_val_app. cbn. rewrite andb_true_r.
  intros [Hds Hd]%andb_true_iff. specialize (IH Hds).
  unfold is_ascii_digit in Hd. unfold digit_val. bool_to_prop. lia.
Qed.

Lemma parse_uint_range max l n : parse_uint max l = Some n -> 0 <= n <= max.
Proof.
  unfold parse_uint. generalize (match l with b :: l' => if decide (b = PLUS) then l' else l | [] => [] end).
  intros ds H. destruct (_ && _ && _) eqn:E; [|done]. inv_ok. bool_to_prop.
  split; [by apply digits_val_nonneg|done].
Qed.

(** ** UTF-8 *)

(** The next unit of a byte string: a character of [k] bytes, or a maximal
    invalid sequence of [k] bytes (one cut short by the end included). *)
Inductive utf8_unit := Char (k : nat) | Bad (k : nat).

Definition between (lo hi : Z) (b : byte) : bool := (lo <=? u8 b) && (u8 b <=? hi).
Definition is_cont : byte -> bool := between 128 191.

Definition utf8_second3 (b0 b1 : byte) : bool :=
  if u8 b0 =? 224 then between 160 191 b1
  else if u8 b0 =? 237 then between 128 159 b1
  else is_cont b1.

Definition utf8_second4 (b0 b1 : byte) : bool :=
  if u8 b0 =? 240 then between 144 191 b1
  else if u8 b0 =? 244 then between 128 143 b1
  else is_cont b1.

Definition utf8_next (l : bytes) : utf8_unit :=
  match l with
  | [] => Bad 0
  | b0 :: l1 =>
      if u8 b0 <? 128 then Char 1
      else if between 194 223 b0 then
        match l1 with b1 :: _ => if is_cont b1 then Char 2 else Bad 1 | [] => Bad 1 end
      else if between 224 239 b0 then
        match l1 with
        | b1 :: l2 =>
            if utf8_second3 b0 b1 then
              match l2 with b2 :: _ => if is_cont b2 then Char 3 else Bad 2 | [] => Bad 2 end
            else Bad 1
        | [] => Bad 1
        end
      else if between 240 244 b0 then
        match l1 with
        | b1 :: l2 =>
            if utf8_second4 b0 b1 then
              match l2 with
              | b2 :: l3 =>
                  if is_cont b2 then
                    match l3 with b3 :: _ => if is_cont b3 then Char 4 else Bad 3 | [] => Bad 3 end
                  else Bad 2
              | [] => Bad 2
              end
            else Bad 1
        | [] => Bad 1
        end
      else Bad 1
  end.

Fixpoint utf8_valid_fuel (fuel : nat) (l : bytes) : bool :=
  match l, fuel with
  | [], _ => true
  | _, O => false
  | _, S fuel =>
      match utf8_next l with Char k => utf8_valid_fuel fuel (drop k l) | Bad _ => false end
  end.

(** [str::from_utf8(l).is_ok()]. *)
Definition utf8_valid (l : bytes) : bool := utf8_valid_fuel (length l) l.

(** U+FFFD in UTF-8. *)
Definition REPLACEMENT : bytes := [Init.Byte.xef; Init.Byte.xbf; Init.Byte.xbd].

Fixpoint lossy_fuel (fuel : nat) (l : bytes) : bytes :=
  match l, fuel with
  | [], _ => []
  | _, O => []
  | _, S fuel =>
      match utf8_next l with
      | Char k => take k l ++ lossy_fuel fuel (drop k l)
      | Bad k => REPLACEMENT ++ lossy_fuel fuel (drop (Nat.max 1 k) l)
      end
  end.

(** [String::from_utf8_lossy] and [CString::to_string_lossy]. *)
Definition from_utf8_lossy (l : bytes) : bytes := lossy_fuel (length l) l.

Definition is_ascii (l : bytes) : bool := forallb (fun b => u8 b <? 128) l.

Lemma utf8_valid_ascii l : is_ascii l = true -> utf8_valid l = true.
Proof.
  unfold utf8_valid. induction l as [|b l IH]; [done|]. cbn [is_ascii forallb length].
  intros [Hb Hl]%andb_true_iff. cbn [utf8_valid_fuel utf8_next]. rewrite Hb. by apply IH.
Qed.

Lemma lossy_ascii l : is_ascii l = true -> from_utf8_lossy l = l.
Proof.
  unfold from_utf8_lossy. induction l as [|b l IH]; [done|]. cbn [is_ascii forallb length].
  intros [Hb Hl]%andb_true_iff. cbn [lossy_fuel utf8_next]. rewrite Hb. cbn. f_equal. by apply IH.
Qed.

Lemma utf8_next_char l k : utf8_next l = Char k -> (1 <= k <= length l)%nat.
Proof.
  unfold utf8_next. intros H.
  repeat (case_match; simplify_eq/=; try lia).
Qed.

(** Text that reads as ASCII after the lossy conversion was that text before. *)
Lemma lossy_is_ascii l k : is_ascii k = true -> from_utf8_lossy l = k -> l = k.
Proof.
  unfold from_utf8_lossy.
  assert (forall fuel l, (length l <= fuel)%nat -> is_ascii (lossy_fuel fuel l) = true ->
            lossy_fuel fuel l = l) as H.
  { clear. induction fuel as [|fuel IH]; intros [|b l] Hf Ha; try done; [cbn in Hf; lia|].
    cbn [lossy_fuel] in Ha |- *. destruct (utf8_next (b :: l)) as [n|n] eqn:E.
    - unfold is_ascii in Ha. rewrite forallb_app in Ha. apply andb_true_iff in Ha as [_ Ha].
      rewrite IH; [apply take_drop| |done].
      apply utf8_next_char in E. rewrite length_drop. cbn in *. lia.
    - discriminate Ha. }
  intros Ha <-. symmetry. by apply H.
Qed.

(** The bytes of the white space ([char::is_whitespace]) a text begins with. *)
Definition white_at (s : bytes) : option nat :=
  match s with
  | [] => None
  | b :: s =>
    if ((9 <=? u8 b) && (u8 b <=? 13)) || (u8 b =? 32) then Some 1%nat
    else match s with
         | [] => None
         | c :: s =>
           if (u8 b =? 194) && ((u8 c =? 133) || (u8 c =? 160)) then Some 2%nat
           else match s with
                | [] => None
                | d :: _ =>
                  if ((u8 b =? 225) && (u8 c =? 154) && (u8 d =? 128)) ||
                     ((u8 b =? 226) && (u8 c =? 128) && (((128 <=? u8 d) && (u8 d <=? 138)) || (u8 d =? 168) || (u8 d =? 169) || (u8 d =? 175))) ||
                     ((u8 b =? 226) && (u8 c =? 129) && (u8 d =? 159)) ||
                     ((u8 b =? 227) && (u8 c =? 128) && (u8 d =? 128))
                  then Some 3%nat else None
                end
         end
  end.

(** [char::from(u8)] pushed onto a [String]: a byte above 127 becomes two. *)
Definition push_latin1 (b : byte) : bytes :=
  if u8 b <? 128 then [b] else [to_u8 (192 + u8 b / 64); to_u8 (128 + u8 b mod 64)].

Lemma parse_i32_decimal n : 0 <= n <= I32_MAX -> parse_i32 (decimal n) = Some n.
Proof.
  intros Hn. destruct (decimal_spec n) as (Hne & Hd & _); [lia|].
  pose proof (parse_uint_decimal I32_MAX n Hn) as Hp. unfold parse_i32.
  destruct (decimal n) as [|b ds]; [done|]. rewrite decide_False; [done|].
  intros ->. cbn in Hd. done.
Qed.

Lemma parse_i32_range l n : parse_i32 l = Some n -> n <= I32_MAX.
Proof.
  unfold parse_i32. destruct l as [|b ds]; [done|]. case_decide.
  - destruct (_ && _ && _) eqn:E; [|done]. intros [= <-]. bool_to_prop.
    pose proof (digits_val_nonneg ds ltac:(done)). unfold I32_MAX. lia.
  - intros Hp%parse_uint_range. lia.
Qed.

Lemma decimal_ascii n : 0 <= n -> is_ascii (decimal n) = true.
Proof.
  intros Hn. destruct (decimal_spec n Hn) as (_ & Hd & _). unfold is_ascii.
  rewrite forallb_spec in *. eapply Forall_impl; [done|]. by_bytes.
Qed.

Lemma utf8_decimal n : 0 <= n -> utf8_valid (decimal n) = true.
Proof. intros. by apply utf8_valid_ascii, decimal_ascii. Qed.
