(* ===== verification/SafeText.v ===== *)
(** Text bubbler did not write, on its way to a terminal or into JSON
    (bubbler-core/src/safe_text.rs, json.rs, and the notes of dbus.rs).

    A [char] is its bytes; [chars] takes a [str] apart, and [render] walks bytes that need
    not be text unit by unit, as decoding the longest valid prefix again and again does.
    Fuel is the length of the input: every turn takes a byte or a character. *)
From S2P Require Export Prelude Bytes Text.

Definition CARET : byte := Init.Byte.x5e.
Definition BACKSLASH : byte := Init.Byte.x5c.
Definition ESC : bytes := [Init.Byte.x1b].
Definition BEL : bytes := [Init.Byte.x07].
Definition QUOTE : byte := Init.Byte.x22.

(** [str::chars]. *)
Fixpoint chars_fuel (fuel : nat) (l : bytes) : list bytes :=
  match l, fuel with
  | [], _ | _, O => []
  | _, S fuel => match utf8_next l with Char k => take k l :: chars_fuel fuel (drop k l) | Bad _ => [] end
  end.
Definition chars (l : bytes) : list bytes := chars_fuel (length l) l.

(** The characters a terminal acts on by themselves: C0, [DEL], and the C1 range, whose
    encoding is [c2] and the code itself. *)
Definition is_c0 (b : byte) : bool := (u8 b <=? 31) || (u8 b =? 127).
Definition is_c1 (c : bytes) : bool := match c with [b0; b1] => (u8 b0 =? 194) && (u8 b1 <=? 159) | _ => false end.
Definition is_layout (c : bytes) : bool := bool_decide (c = [LF]) || bool_decide (c = [TAB]).

(** [char::is_control]. *)
Definition is_control (c : bytes) : bool := match c with [b] => is_c0 b | _ => is_c1 c end.

Definition needs_replacing (c : bytes) : bool := negb (is_layout c) && is_control c.

(** ** Bytes *)

Definition HEX : bytes := B "0123456789abcdef".
Definition hex (n : Z) : byte := nth (Z.to_nat n) HEX Init.Byte.x30.
Definition push_hex (b : byte) : bytes := B "\x" ++ [hex (Z.shiftr (u8 b) 4); hex (Z.land (u8 b) 15)].

Definition push_char (c : bytes) : bytes :=
  if is_layout c then c
  else match c with
       | [b] => if is_c0 b then [CARET; to_u8 (Z.lxor (u8 b) 64)] else c
       | [_; b1] => if is_c1 c then push_hex b1 else c
       | _ => c
       end.

Fixpoint render_fuel (fuel : nat) (l : bytes) : bytes :=
  match l, fuel with
  | [], _ | _, O => []
  | _, S fuel =>
    match utf8_next l with
    | Char k => push_char (take k l) ++ render_fuel fuel (drop k l)
    | Bad k => concat (map push_hex (take (Nat.max 1 k) l)) ++ render_fuel fuel (drop (Nat.max 1 k) l)
    end
  end.
Definition render (l : bytes) : bytes := render_fuel (length l) l.

(** ** Text *)

(** What is left after a sequence, to its final byte or its terminator. *)
Fixpoint skip_csi (l : list bytes) : list bytes :=
  match l with
  | [] => []
  | c :: l => match c with [b] => if (64 <=? u8 b) && (u8 b <=? 126) then l else skip_csi l | _ => skip_csi l end
  end.

Fixpoint skip_string (l : list bytes) : list bytes :=
  match l with
  | [] => []
  | c :: l =>
    if bool_decide (c = BEL) then l
    else if bool_decide (c = ESC) && bool_decide (head l = Some [BACKSLASH]) then tail l
    else skip_string l
  end.

Definition skip_sequence (l : list bytes) : list bytes :=
  match l with
  | c :: l' =>
    if bool_decide (c = B "[") then skip_csi l'
    else if bool_decide (c ∈ [B "]"; B "_"; B "^"; B "P"]) then skip_string l'
    else l
  | [] => []
  end.

Definition QUESTION : byte := Init.Byte.x3f.

Fixpoint sanitize_loop (fuel : nat) (l : list bytes) : bytes :=
  match l, fuel with
  | [], _ | _, O => []
  | c :: l, S fuel =>
    if is_layout c then c ++ sanitize_loop fuel l
    else if bool_decide (c = ESC) then QUESTION :: sanitize_loop fuel (skip_sequence l)
    else if needs_replacing c then QUESTION :: sanitize_loop fuel l
    else c ++ sanitize_loop fuel l
  end.

Definition sanitize (s : bytes) : bytes :=
  if existsb needs_replacing (chars s) then sanitize_loop (length (chars s)) (chars s) else s.

(** ** JSON *)

(** The code of a control character, which is its last byte. *)
Definition json_char (c : bytes) : bytes :=
  if bool_decide (c = [QUOTE]) then [BACKSLASH; QUOTE]
  else if bool_decide (c = [BACKSLASH]) then [BACKSLASH; BACKSLASH]
  else if bool_decide (c = [LF]) then B "\n"
  else if bool_decide (c = [CR]) then B "\r"
  else if bool_decide (c = [TAB]) then B "\t"
  else if is_control c then
    match last c with
    | Some b => B "\u00" ++ [hex (Z.shiftr (u8 b) 4); hex (Z.land (u8 b) 15)]
    | None => c
    end
  else c.

Definition json_string (s : bytes) : bytes := [QUOTE] ++ concat (map json_char (chars s)) ++ [QUOTE].

(** ** Notes *)

Definition KEPT : nat := 200.

Definition is_space (c : bytes) : bool := bool_decide (is_Some (white_at c)).

(** [str::trim], on the characters. *)
Fixpoint trim_front (l : list bytes) : list bytes := match l with c :: l' => if is_space c then trim_front l' else l | [] => [] end.
Definition trim (l : list bytes) : list bytes := List.rev (trim_front (List.rev (trim_front l))).

(** [bus_note]. *)
Definition bus_note (text : bytes) : bytes :=
  let line := match split_on LF text with l :: _ => l | [] => [] end in
  let text := trim (chars (render line)) in
  if (KEPT <? length text)%nat then concat (take KEPT text) ++ B "..." else concat text.

(** ** Characters *)

(** One character and nothing after it. *)
Definition whole (c : bytes) : Prop := utf8_next c = Char (length c).

Lemma next_app c l : whole c -> utf8_next (c ++ l) = Char (length c).
Proof.
  unfold whole. intros Hc. destruct c as [|b0 [|b1 [|b2 [|b3 c]]]]; unfold utf8_next in *; cbn [app length] in *;
    repeat (case_match; simplify_eq/=; try done).
Qed.

Lemma next_whole l k : utf8_next l = Char k -> whole (take k l) /\ length (take k l) = k.
Proof.
  intros Hk. assert (length (take k l) = k) as Hl by (apply utf8_next_char in Hk; rewrite length_take; lia). split; [|done]. unfold whole. rewrite Hl. clear Hl.
  destruct l as [|b0 [|b1 [|b2 [|b3 l]]]]; unfold utf8_next in *; cbn [take] in *; repeat (case_match; simplify_eq/=; try done).
Qed.

Lemma whole_ne c : whole c -> c <> [].
Proof. by intros Hc ->. Qed.

Lemma chars_fuel_concat fuel cs : Forall whole cs -> (length (concat cs) <= fuel)%nat -> chars_fuel fuel (concat cs) = cs /\ utf8_valid_fuel fuel (concat cs) = true.
Proof.
  intros Hcs. revert fuel. induction Hcs as [|c cs Hc _ IH]; intros fuel Hf; [by destruct fuel|]. cbn [concat] in *. rewrite length_app in Hf.
  pose proof (whole_ne c Hc) as Hne. pose proof (next_app c (concat cs) Hc) as Hn. destruct c as [|b c]; [done|]. cbn [app length] in *.
  destruct fuel as [|fuel]; [lia|]. cbn [chars_fuel utf8_valid_fuel]. rewrite Hn.
  change (drop (S (length c)) (b :: c ++ concat cs)) with (drop (length c) (c ++ concat cs)). rewrite drop_app_length. destruct (IH fuel) as [-> ->]; [lia|].
  split; [|done]. f_equal. change (take (S (length c)) (b :: c ++ concat cs)) with (b :: take (length c) (c ++ concat cs)). by rewrite take_app_length.
Qed.

Lemma chars_concat cs : Forall whole cs -> chars (concat cs) = cs.
Proof. intros Hcs. by apply chars_fuel_concat. Qed.
Lemma valid_concat cs : Forall whole cs -> utf8_valid (concat cs) = true.
Proof. intros Hcs. by apply chars_fuel_concat. Qed.

Lemma chars_valid s : utf8_valid s = true -> concat (chars s) = s /\ Forall whole (chars s).
Proof.
  unfold utf8_valid, chars. generalize (length s) at 1 2 3. intros fuel. revert s. induction fuel as [|fuel IH]; intros s Hv; [by destruct s|].
  destruct s as [|b s]; [done|]. cbn [utf8_valid_fuel chars_fuel] in *. destruct (utf8_next (b :: s)) as [k|k] eqn:E; [|done].
  destruct (IH _ Hv) as [Hc Hw]. cbn [concat]. rewrite Hc. split; [apply take_drop|]. constructor; [by apply next_whole in E as [E _]|done].
Qed.

(** ** What is shown *)

(** Text made of whole characters none of which a terminal acts on. *)
Definition shown (s : bytes) : Prop := exists cs, s = concat cs /\ Forall whole cs /\ Forall (fun c => needs_replacing c = false) cs.

Lemma shown_nil : shown [].
Proof. by exists []. Qed.
Lemma shown_app s t : shown s -> shown t -> shown (s ++ t).
Proof. intros (cs & -> & Hc & Hn) (ds & -> & Hd & Hm). exists (cs ++ ds). rewrite concat_app. split; [done|]. by split; apply Forall_app. Qed.
Lemma shown_char c : whole c -> needs_replacing c = false -> shown c.
Proof. intros Hc Hn. exists [c]. cbn [concat]. rewrite app_nil_r. split; [done|]. by split; constructor. Qed.
Lemma shown_cons b s : whole [b] -> needs_replacing [b] = false -> shown s -> shown (b :: s).
Proof. intros Hb Hn Hs. apply (shown_app [b]); [by apply shown_char|done]. Qed.
Lemma shown_spec s : shown s <-> utf8_valid s = true /\ Forall (fun c => needs_replacing c = false) (chars s).
Proof.
  split.
  - intros (cs & -> & Hc & Hn). split; [by apply valid_concat|]. by rewrite chars_concat.
  - intros [Hv Hn]. destruct (chars_valid s Hv) as [Hc Hw]. by exists (chars s).
Qed.

Lemma shown_hex b : shown (push_hex b).
Proof. apply shown_cons, shown_cons, shown_cons, shown_cons, shown_nil; destruct b; vm_compute; reflexivity. Qed.

Lemma shown_push_char c : whole c -> shown (push_char c).
Proof.
  intros Hc. unfold push_char. destruct (is_layout c) eqn:El; [apply shown_char; [done|]; unfold needs_replacing; by rewrite El|].
  destruct c as [|b0 [|b1 c]]; [done| |].
  - destruct (is_c0 b0) eqn:E.
    + apply shown_cons, shown_cons, shown_nil; try done; destruct b0; try discriminate E; vm_compute; reflexivity.
    + apply shown_char; [done|]. unfold needs_replacing, is_control. by rewrite El, E.
  - destruct c as [|b2 c].
    + destruct (is_c1 [b0; b1]) eqn:E; [apply shown_hex|]. apply shown_char; [done|]. unfold needs_replacing. cbn [is_control]. by rewrite E, andb_false_r.
    + apply shown_char; [done|]. unfold needs_replacing. cbn [is_control is_c1]. by rewrite andb_false_r.
Qed.

Lemma render_shown fuel l : shown (render_fuel fuel l).
Proof.
  revert l. induction fuel as [|fuel IH]; intros l; [destruct l; apply shown_nil|]. destruct l as [|b l]; [apply shown_nil|]. cbn [render_fuel].
  destruct (utf8_next (b :: l)) as [k|k] eqn:E; apply shown_app; [by apply shown_push_char; apply next_whole in E as [E _]|apply IH| |apply IH].
  generalize (take (Nat.max 1 k) (b :: l)). intros raw. induction raw as [|x raw IHr]; [apply shown_nil|]. cbn [map concat]. by apply shown_app; [apply shown_hex|].
Qed.

Lemma render_plain fuel s : (length s <= fuel)%nat -> shown s -> render_fuel fuel s = s.
Proof.
  intros Hf (cs & -> & Hc & Hn). revert fuel Hf. induction Hc as [|c cs Hc _ IH]; intros fuel Hf; [by destruct fuel|]. apply Forall_cons in Hn as [Hn Hns].
  cbn [concat] in *. rewrite length_app in Hf. pose proof (next_app c (concat cs) Hc) as Hnx. destruct c as [|b c]; [by apply whole_ne in Hc|]. cbn [app length] in *.
  destruct fuel as [|fuel]; [lia|]. cbn [render_fuel]. rewrite Hnx.
  change (drop (S (length c)) (b :: c ++ concat cs)) with (drop (length c) (c ++ concat cs)). rewrite drop_app_length, (IH Hns fuel) by lia.
  change (take (S (length c)) (b :: c ++ concat cs)) with (b :: take (length c) (c ++ concat cs)). rewrite take_app_length.
  unfold push_char. unfold needs_replacing in Hn. destruct (is_layout (b :: c)); [done|]. cbn [negb andb] in Hn.
  destruct c as [|b1 [|b2 c]]; cbn [is_control] in Hn; [by rewrite Hn|by rewrite Hn|done].
Qed.

Lemma whole_question : whole [QUESTION] /\ needs_replacing [QUESTION] = false.
Proof. by split; vm_compute. Qed.

Lemma skip_csi_suffix l : exists p, l = p ++ skip_csi l.
Proof.
  induction l as [|c l [p IH]]; [by exists []|]. cbn [skip_csi].
  destruct c as [|b [|b1 c]]; [|destruct (_ && _); [by exists [[b]]|]|]; (eexists (_ :: p); cbn [app]; f_equal; exact IH).
Qed.
Lemma skip_string_suffix l : exists p, l = p ++ skip_string l.
Proof.
  induction l as [|c l [p IH]]; [by exists []|]. cbn [skip_string]. repeat case_bool_decide; cbn [andb]; try (exists (c :: p); cbn [app]; by rewrite <-IH); [by exists [c]|].
  destruct l as [|d l]; [done|]. by exists [c; d].
Qed.
Lemma skip_suffix l : exists p, l = p ++ skip_sequence l.
Proof.
  unfold skip_sequence. destruct l as [|c l]; [by exists []|]. case_bool_decide; [destruct (skip_csi_suffix l) as [p Hp]; exists (c :: p); cbn [app]; by rewrite <-Hp|].
  case_bool_decide; [destruct (skip_string_suffix l) as [p Hp]; exists (c :: p); cbn [app]; by rewrite <-Hp|by exists []].
Qed.

Lemma sanitize_shown fuel l : Forall whole l -> shown (sanitize_loop fuel l).
Proof.
  revert l. induction fuel as [|fuel IH]; intros l Hl; [destruct l; apply shown_nil|]. destruct Hl as [|c l Hc Hl]; [apply shown_nil|]. cbn [sanitize_loop].
  destruct whole_question as [Hw Hn].
  destruct (is_layout c) eqn:El; [apply shown_app; [apply shown_char; [done|]; unfold needs_replacing; by rewrite El|by apply IH]|].
  case_bool_decide; [apply shown_cons; [done|done|]; apply IH; destruct (skip_suffix l) as [p Hp]; rewrite Hp in Hl; by apply Forall_app in Hl as [_ Hl]|].
  destruct (needs_replacing c) eqn:En; [by apply shown_cons; [..|apply IH]|]. by apply shown_app; [apply shown_char|apply IH].
Qed.

(** With fuel for the characters the loop has seen them all. *)
Lemma sanitize_fuel n m l : (length l <= n)%nat -> (length l <= m)%nat -> sanitize_loop n l = sanitize_loop m l.
Proof.
  revert m l. induction n as [|n IH]; intros m [|c l] Hn Hm; cbn [length] in *; try lia; try (by destruct m). destruct m as [|m]; [lia|].
  destruct (skip_suffix l) as [p Hp]. apply (f_equal length) in Hp. rewrite length_app in Hp. cbn [sanitize_loop].
  by rewrite (IH m l), (IH m (skip_sequence l)) by lia.
Qed.

(** C18. What goes to a terminal is text no character of which the terminal acts on: bytes
    of any kind rendered, and text sanitized, are UTF-8 with no control character but the
    line feed and the tab, and bytes that were such text already are not touched. *)
Theorem text_shown_is_safe :
  (forall l, utf8_valid (render l) = true /\ Forall (fun c => needs_replacing c = false) (chars (render l))) /\
  (forall s, utf8_valid s = true -> utf8_valid (sanitize s) = true /\ Forall (fun c => needs_replacing c = false) (chars (sanitize s))) /\
  (forall s, utf8_valid s = true -> Forall (fun c => needs_replacing c = false) (chars s) -> render s = s /\ sanitize s = s).
Proof.
  split; [|split].
  - intros l. apply shown_spec, render_shown.
  - intros s Hv. apply shown_spec. unfold sanitize. destruct (chars_valid s Hv) as [Hc Hw]. destruct (existsb needs_replacing (chars s)) eqn:E; [by apply sanitize_shown|].
    apply shown_spec. split; [done|]. apply Forall_forall. intros c Hin. destruct (needs_replacing c) eqn:En; [|done].
    assert (existsb needs_replacing (chars s) = true) as Ht by (apply existsb_exists; exists c; by split; [apply list_elem_of_In|]). congruence.
  - intros s Hv Hn. split; [apply render_plain; [done|]; by apply shown_spec|]. unfold sanitize. destruct (existsb needs_replacing (chars s)) eqn:E; [|done].
    apply existsb_exists in E as (c & Hin%list_elem_of_In & Hc). rewrite Forall_forall in Hn. rewrite (Hn c Hin) in Hc. discriminate Hc.
Qed.

Lemma text_shown_is_safe_witness :
  (utf8_valid (B "a" ++ ESC ++ B "[2Jb") = true /\ sanitize (B "a" ++ ESC ++ B "[2Jb") = B "a?b" /\ utf8_valid (sanitize (B "a" ++ ESC ++ B "[2Jb")) = true) /\
  render (ESC ++ B "]52;c;x" ++ BEL ++ [Init.Byte.xff]) = B "^[]52;c;x^G\xff" /\ render (B "plain") = B "plain".
Proof.
  destruct text_shown_is_safe as (Hr & Hs & Hk). split; [|split].
  - assert (utf8_valid (B "a" ++ ESC ++ B "[2Jb") = true) as Hv by reflexivity. split; [exact Hv|]. split; [reflexivity|]. exact (proj1 (Hs _ Hv)).
  - reflexivity.
  - apply (Hk (B "plain")); [reflexivity|]. repeat constructor.
Defined.

(** ** A reader of JSON strings, as RFC 8259 has them *)

Definition hex_digit (c : bytes) : option Z := match c with [b] => position (fun h => bool_decide (h = b)) HEX | _ => None end.

(** A code below 256 in UTF-8. *)
Definition latin1 (n : Z) : bytes := push_latin1 (to_u8 n).

(** The characters after the opening quote: those of the string, and what follows its end. *)
Fixpoint json_read (l : list bytes) : option (list bytes * list bytes) :=
  match l with
  | [] => None
  | c :: l =>
    if bool_decide (c = [QUOTE]) then Some ([], l)
    else if bool_decide (c = [BACKSLASH]) then
      match l with
      | e :: l =>
        if bool_decide (e = B "u") then
          match l with
          | _ :: _ :: h1 :: h0 :: l => a ← hex_digit h1; b ← hex_digit h0; '(s, rest) ← json_read l; Some (latin1 (16 * a + b) :: s, rest)
          | _ => None
          end
        else
          d ← (if bool_decide (e = [QUOTE]) then Some [QUOTE]
               else if bool_decide (e = [BACKSLASH]) then Some [BACKSLASH]
               else if bool_decide (e = B "n") then Some [LF]
               else if bool_decide (e = B "r") then Some [CR]
               else if bool_decide (e = B "t") then Some [TAB]
               else None);
          '(s, rest) ← json_read l; Some (d :: s, rest)
      | [] => None
      end
    else if is_control c then None
    else '(s, rest) ← json_read l; Some (c :: s, rest)
  end.

Lemma whole_ascii b : u8 b <? 128 = true -> whole [b].
Proof. unfold whole, utf8_next. by intros ->. Qed.

(** The characters a character is written as. *)
Lemma json_char_whole c : whole c -> exists w, json_char c = concat w /\ Forall whole w /\ forall l, json_read (w ++ l) = ('(s, rest) ← json_read l; Some (c :: s, rest)).
Proof.
  intros Hc. unfold json_char.
  repeat (let E := fresh in case_bool_decide as E; [subst c; match goal with |- exists w, ?l = _ /\ _ => exists (map (fun b => [b]) l) end; split; [reflexivity|]; split; [repeat constructor|]; intros l; reflexivity|]).
  destruct (is_control c) eqn:Ec.
  - destruct c as [|b [|b1 [|b2 c]]]; try done; cbn [last].
    + exists [[BACKSLASH]; B "u"; B "0"; B "0"; [hex (Z.shiftr (u8 b) 4)]; [hex (Z.land (u8 b) 15)]]. split; [reflexivity|].
      cbn [is_control] in Ec. split; [repeat constructor; destruct b; vm_compute; reflexivity|]. intros l. destruct b; try discriminate Ec; reflexivity.
    + exists [[BACKSLASH]; B "u"; B "0"; B "0"; [hex (Z.shiftr (u8 b1) 4)]; [hex (Z.land (u8 b1) 15)]]. split; [reflexivity|].
      cbn [is_control is_c1] in Ec. unfold whole in Hc. split; [repeat constructor; destruct b1; vm_compute; reflexivity|].
      intros l. assert (b = Init.Byte.xc2) as -> by (destruct b; try discriminate Ec; reflexivity). destruct b1; try discriminate Ec; try discriminate Hc; reflexivity.
  - exists [c]. cbn [concat]. rewrite app_nil_r. split; [done|]. split; [by constructor|]. intros l. cbn [app json_read]. by rewrite !bool_decide_false, Ec.
Qed.

Lemma json_chars cs l : Forall whole cs -> exists w, concat (map json_char cs) = concat w /\ Forall whole w /\
  json_read (w ++ [QUOTE] :: l) = Some (cs, l).
Proof.
  induction 1 as [|c cs Hc _ (w & Ew & Hw & Hr)]; [by exists []|]. destruct (json_char_whole c Hc) as (v & Ev & Hv & Hrv).
  exists (v ++ w). cbn [map concat]. rewrite Ev, Ew, concat_app. split; [done|]. split; [by apply Forall_app|]. rewrite <-app_assoc, Hrv, Hr. done.
Qed.

(** A text written into JSON is read back as that text by any reader of the format, and
    what follows it is not touched: no character of it ends the literal or is a control
    character in it. *)
Theorem json_string_roundtrip s rest : utf8_valid s = true -> utf8_valid rest = true ->
  exists l, chars (json_string s ++ rest) = [QUOTE] :: l /\ json_read l = Some (chars s, chars rest) /\ concat (chars s) = s /\ concat (chars rest) = rest.
Proof.
  intros [Hs Hw]%chars_valid [Hr Hv]%chars_valid. destruct (json_chars (chars s) (chars rest) Hw) as (w & Ew & Hww & Hread).
  exists (w ++ [QUOTE] :: chars rest). split; [|by split].
  unfold json_string. rewrite Ew. rewrite <-Hr at 1.
  replace (([QUOTE] ++ concat w ++ [QUOTE]) ++ concat (chars rest)) with (concat ([QUOTE] :: w ++ [QUOTE] :: chars rest))
    by (cbn [concat app]; by rewrite concat_app, <-app_assoc).
  apply chars_concat. constructor; [done|]. apply Forall_app. split; [done|]. by constructor.
Qed.

Lemma json_string_roundtrip_witness : utf8_valid (B "a" ++ [QUOTE; LF] ++ ESC) = true /\
  exists l, chars (json_string (B "a" ++ [QUOTE; LF] ++ ESC) ++ B ",x") = [QUOTE] :: l /\ json_read l = Some (chars (B "a" ++ [QUOTE; LF] ++ ESC), chars (B ",x")).
Proof.
  assert (utf8_valid (B "a" ++ [QUOTE; LF] ++ ESC) = true) as Hv by reflexivity. assert (utf8_valid (B ",x") = true) as Hr by reflexivity. split; [exact Hv|].
  destruct (json_string_roundtrip _ _ Hv Hr) as (l & Hl & Hread & _). by exists l.
Defined.
