(* ===== verification/NetAllow.v ===== *)
(** The allowlist of the egress proxy: [crates/bubbler-net-proxy/src/allow.rs].

    [HostPattern] is a name an [allow-host] writes, [Allowlist] the list of
    name-and-port grants of one run.  The error texts of the source are the
    constructors of [allow_error], one each. *)
From S2P Require Export Text.

Inductive allow_error :=
| NameTooLong      (* "a name is at most 253 characters, trailing dot included" *)
| OnlyWildcard     (* "a wildcard stands for one label under a name" *)
| AddressName      (* "a name whose last label is all digits is an address" *)
| EmptyLabel       (* "a name holds no empty label" *)
| LabelTooLong     (* "a label is at most 63 characters" *)
| LabelChars       (* "a label holds ASCII letters, digits and - only" *)
| LabelDash        (* "a label neither starts nor ends with -" *)
| NotNamePort      (* "an allowed target is written name:port" *)
| PortShape        (* "a port is one to five digits" *)
| PortRange.       (* "a port is between 1 and 65535" *)

#[global] Instance allow_error_eq_dec : EqDecision allow_error.
Proof. solve_decision. Defined.

Module HostPattern.

Record t := mk { labels : list bytes; wildcard : bool }.

#[global] Instance eq_dec : EqDecision t.
Proof. solve_decision. Defined.

Definition MAX_NAME : Z := 253.
Definition MAX_LABEL : Z := 63.

Definition label_char (b : byte) : bool := is_ascii_alphanumeric b || bool_decide (b = DASH).

Definition check_label (s : bytes) : result allow_error unit :=
  if bool_decide (s = []) then Err EmptyLabel
  else if len s >? MAX_LABEL then Err LabelTooLong
  else if negb (forallb label_char s) then Err LabelChars
  else if starts_with [DASH] s || ends_with [DASH] s then Err LabelDash
  else Ok tt.

(** The loop over [name.split('.').enumerate()], with the labels pushed so
    far and whether a wildcard was seen. *)
Fixpoint parse_labels (first : bool) (pieces labels : list bytes) (wildcard : bool)
  : result allow_error (list bytes * bool) :=
  match pieces with
  | [] => Ok (labels, wildcard)
  | label :: pieces =>
      if first && bool_decide (label = [STAR]) then parse_labels false pieces labels true
      else
        _ ← check_label label;
        parse_labels false pieces (labels ++ [to_ascii_lowercase label]) wildcard
  end.

Definition parse (s : bytes) : result allow_error t :=
  if len s >? MAX_NAME then Err NameTooLong
  else
    let name := without_suffix [DOT] s in
    '(labels, wildcard) ← parse_labels true (split_on DOT name) [] false;
    match last labels with
    | None => Err OnlyWildcard
    | Some l => if forallb is_ascii_digit l then Err AddressName else Ok (mk labels wildcard)
    end.

Definition matches (p : t) (host : bytes) : bool :=
  if len host >? MAX_NAME then false
  else
    let got := split_on DOT (without_suffix [DOT] host) in
    if negb (forallb (fun l => is_ok (check_label l)) got) then false
    else
      let got := if wildcard p then tail got else got in
      (len got =? len (labels p)) &&
      forallb (fun '(g, l) => eq_ignore_ascii_case g l) (zip got (labels p)).

(** [Display]: the name as a config writes it. *)
Definition fmt (p : t) : bytes :=
  (if wildcard p then B "*." else []) ++ join [DOT] (labels p).

End HostPattern.

Module Allowlist.

Record t := mk { entries : list (HostPattern.t * Z) }.

Definition entry (word : bytes) : result allow_error (HostPattern.t * Z) :=
  '(name, port) ← ok_or (rsplit_once COLON word) NotNamePort;
  pattern ← HostPattern.parse name;
  if bool_decide (port = []) || (len port >? 5) || negb (forallb is_ascii_digit port)
  then Err PortShape
  else match parse_uint U16_MAX port with
       | None => Err PortRange
       | Some port => if port =? 0 then Err PortRange else Ok (pattern, port)
       end.

Fixpoint parse_loop (words : list bytes) (entries : list (HostPattern.t * Z))
  : result allow_error t :=
  match words with
  | [] => Ok (mk entries)
  | word :: words => e ← entry word; parse_loop words (entries ++ [e])
  end.

Definition parse (words : list bytes) : result allow_error t := parse_loop words [].

Definition matches (l : t) (host : bytes) (port : Z) : bool :=
  existsb (fun '(pattern, allowed) => (allowed =? port) && HostPattern.matches pattern host)
    (entries l).

(** [len] and [is_empty]. *)
Definition size (l : t) : Z := len (entries l).
Definition is_empty (l : t) : bool := bool_decide (entries l = []).

End Allowlist.

(** ** Labels *)

(** What the label rule accepts: RFC 1035 with RFC 1123's leading digit. *)
Definition valid_label (s : bytes) : Prop := HostPattern.check_label s = Ok tt.

Lemma valid_label_iff s :
  valid_label s <->
  s <> [] /\ len s <= 63 /\ Forall (fun b => HostPattern.label_char b = true) s /\
  (forall q, s <> DASH :: q) /\ (forall p, s <> p ++ [DASH]).
Proof.
  unfold valid_label, HostPattern.check_label, HostPattern.MAX_LABEL.
  rewrite Z.gtb_ltb. pose proof (starts_with_spec [DASH] s). pose proof (ends_with_spec [DASH] s).
  case_bool_decide; [naive_solver|].
  destruct (Z.ltb_spec 63 (len s)); [split; [done|]; lia|].
  rewrite <-forallb_spec. destruct (forallb _ s); cbn; [|split; [done|]; naive_solver].
  destruct (starts_with [DASH] s), (ends_with [DASH] s); cbn; try solve [split; [done|naive_solver]].
  split; [|done]. intros _. repeat split; try done.
  - intros q Hq. destruct H as [_ H]. discriminate H. by exists q.
  - intros p Hp. destruct H0 as [_ H0]. discriminate H0. by exists p.
Qed.

Lemma valid_label_no_dot s : valid_label s -> DOT ∉ s.
Proof.
  intros (_ & _ & H & _)%valid_label_iff Hin. rewrite Forall_forall in H. by apply H in Hin.
Qed.

Lemma valid_label_no_colon s : valid_label s -> COLON ∉ s.
Proof.
  intros (_ & _ & H & _)%valid_label_iff Hin. rewrite Forall_forall in H. by apply H in Hin.
Qed.

Lemma valid_label_nonempty s : valid_label s -> s <> [].
Proof. by intros (? & _)%valid_label_iff. Qed.

Lemma valid_label_ascii s : valid_label s -> is_ascii s = true.
Proof.
  intros (_ & _ & H & _)%valid_label_iff. unfold is_ascii. apply forallb_spec.
  eapply Forall_impl; [done|]. by_bytes.
Qed.

Lemma not_star_valid : ~ valid_label [STAR].
Proof. done. Qed.

Lemma valid_label_lower s : valid_label (to_ascii_lowercase s) <-> valid_label s.
Proof.
  rewrite !valid_label_iff, len_lowercase.
  assert (forall b, HostPattern.label_char (lower_byte b) = HostPattern.label_char b) as Hc by by_bytes.
  assert (Forall (fun b => HostPattern.label_char b = true) (to_ascii_lowercase s) <->
          Forall (fun b => HostPattern.label_char b = true) s) as ->.
  { unfold to_ascii_lowercase. rewrite Forall_map. by setoid_rewrite Hc. }
  assert (to_ascii_lowercase s <> [] <-> s <> []) as -> by (destruct s; done).
  assert ((forall q, to_ascii_lowercase s <> DASH :: q) <-> (forall q, s <> DASH :: q)) as ->.
  { destruct s as [|b s]; cbn; [done|]. pose proof (lower_dash b). split; intros H' q [=]; naive_solver. }
  assert ((forall p, to_ascii_lowercase s <> p ++ [DASH]) <-> (forall p, s <> p ++ [DASH])) as ->.
  { destruct s as [|b s _] using rev_ind; [done|]. rewrite lowercase_app.
    pose proof (lower_dash b). split; intros H' q Hq; apply app_inj_2 in Hq as [? [= ?]]; naive_solver. }
  done.
Qed.

(** ** Parsing a pattern *)

(** The pieces of a written name, as [split('.')] gives them. *)
Definition pieces_of (s : bytes) : list bytes := split_on DOT (without_suffix [DOT] s).

Definition wild_pieces (wildcard : bool) (raw : list bytes) : list bytes :=
  if wildcard then [STAR] :: raw else raw.

(** Labels no pattern may end in: an address would be read as a name. *)
Definition all_digits (l : bytes) : bool := forallb is_ascii_digit l.

(** The invariant of a parsed pattern. *)
Definition wf_pattern (p : HostPattern.t) : Prop :=
  Forall (fun l => valid_label l /\ to_ascii_lowercase l = l) (HostPattern.labels p) /\
  exists l, last (HostPattern.labels p) = Some l /\ all_digits l = false.

Lemma parse_labels_rest pieces acc wc r :
  HostPattern.parse_labels false pieces acc wc = Ok r <->
  Forall valid_label pieces /\ r = (acc ++ map to_ascii_lowercase pieces, wc).
Proof.
  revert acc. induction pieces as [|l pieces IH]; intros acc; cbn.
  - rewrite app_nil_r. naive_solver.
  - rewrite bind_ok, Forall_cons. setoid_rewrite IH. setoid_rewrite <-app_assoc. cbn.
    split; [intros ([] & ? & ? & ->); done|]. intros [[? ?] ->]. by exists tt.
Qed.

Lemma parse_labels_first pieces r :
  HostPattern.parse_labels true pieces [] false = Ok r <->
  exists raw, pieces = wild_pieces r.2 raw /\ Forall valid_label raw /\ r.1 = map to_ascii_lowercase raw.
Proof.
  destruct pieces as [|l pieces]; cbn.
  - split; [intros [= <-]; by exists []|]. intros (raw & H & _ & Hr). destruct r as [ls w]; cbn in *.
    destruct w; [done|]. cbn in H. subst. done.
  - case_bool_decide as E; cbn.
    + subst. rewrite parse_labels_rest. split.
      * intros [H ->]. by exists pieces.
      * destruct r as [ls []]; intros (raw & H & Hv & Hl); cbn in *.
        -- injection H as ->. by subst.
        -- subst raw. apply Forall_cons in Hv as [Hv _]. by destruct not_star_valid.
    + rewrite bind_ok. setoid_rewrite parse_labels_rest. split.
      * intros ([] & Hl & Hv & ->). exists (l :: pieces). by rewrite Forall_cons.
      * destruct r as [ls []]; intros (raw & H & Hv & Hl); cbn in *; [congruence|].
        subst raw ls. apply Forall_cons in Hv as [? ?]. by exists tt.
Qed.

Lemma parse_iff s p :
  HostPattern.parse s = Ok p <->
  len s <= 253 /\
  exists raw, pieces_of s = wild_pieces (HostPattern.wildcard p) raw /\ Forall valid_label raw /\
    HostPattern.labels p = map to_ascii_lowercase raw /\
    exists l, last (HostPattern.labels p) = Some l /\ all_digits l = false.
Proof.
  unfold HostPattern.parse, HostPattern.MAX_NAME. rewrite Z.gtb_ltb.
  destruct (Z.ltb_spec 253 (len s)); [split; [done|lia]|].
  fold (pieces_of s). rewrite bind_ok. setoid_rewrite parse_labels_first. split.
  - intros ([ls w] & (raw & Hp & Hv & Hl) & H'); cbn in *.
    destruct (last ls) as [l|] eqn:E; [|done].
    destruct (forallb is_ascii_digit l) eqn:E'; [done|]. injection H' as <-. cbn.
    split; [done|]. exists raw. eauto 10.
  - intros (_ & raw & Hp & Hv & Hl & l & Hlast & Hd). destruct p as [ls w]; cbn in *.
    exists (ls, w); cbn. split; [eauto|]. rewrite Hlast. unfold all_digits in Hd. by rewrite Hd.
Qed.

Lemma map_lowercase_wf raw :
  Forall valid_label raw ->
  Forall (fun l => valid_label l /\ to_ascii_lowercase l = l) (map to_ascii_lowercase raw).
Proof.
  intros H. rewrite Forall_map. eapply Forall_impl; [done|]. cbn. intros l Hl.
  by rewrite valid_label_lower, lowercase_idem.
Qed.

Lemma parse_wf s p : HostPattern.parse s = Ok p -> wf_pattern p.
Proof.
  intros (_ & raw & _ & Hv & Hl & Hlast)%parse_iff. split; [|done].
  rewrite Hl. by apply map_lowercase_wf.
Qed.

(** A name of labels never ends in the root dot, and splits back into them. *)
Lemma join_labels_pieces w labels :
  labels <> [] -> Forall valid_label labels ->
  pieces_of (join [DOT] (wild_pieces w labels)) = wild_pieces w labels.
Proof.
  intros Hne Hv. unfold pieces_of.
  assert (exists l, last labels = Some l) as [l Hlast] by (destruct (last labels) eqn:E; [eauto|by apply last_None in E]).
  assert (valid_label l) as Hl.
  { rewrite Forall_forall in Hv. apply Hv. rewrite last_lookup in Hlast. by eapply list_elem_of_lookup_2. }
  destruct (join_ends [DOT] (wild_pieces w labels) l) as [p Hp].
  { destruct w; [|done]. cbn. rewrite last_cons, Hlast. done. }
  destruct (without_suffix_cases [DOT] (join [DOT] (wild_pieces w labels))) as [H|[-> _]].
  - exfalso. rewrite H in Hp. pose proof (valid_label_no_dot _ Hl) as Hdot.
    destruct l as [|x l' _] using rev_ind; [by apply valid_label_nonempty in Hl|].
    rewrite app_assoc in Hp. apply app_inj_tail in Hp as [_ <-]. set_solver.
  - apply split_join; [by destruct w|].
    assert (Forall (fun l => DOT ∉ l) labels).
    { eapply Forall_impl; [done|]. apply valid_label_no_dot. }
    destruct w; cbn; [|done]. constructor; [|done].
    intros Hin%list_elem_of_singleton. discriminate Hin.
Qed.

Lemma fmt_join p : HostPattern.labels p <> [] ->
  HostPattern.fmt p = join [DOT] (wild_pieces (HostPattern.wildcard p) (HostPattern.labels p)).
Proof.
  intros H. unfold HostPattern.fmt, wild_pieces. destruct (HostPattern.wildcard p); [|done].
  by rewrite join_cons.
Qed.

Lemma len_join_map f sep ws :
  (forall w, len (f w) = len w) -> len (join sep (map f ws)) = len (join sep ws).
Proof.
  intros Hf. induction ws as [|w [|v ws] IH]; cbn [map]; [done|apply Hf|].
  cbn [map] in IH. rewrite (join_cons sep (f w)), (join_cons sep w) by done.
  autorewrite with len. rewrite Hf, IH. done.
Qed.

Lemma fmt_len s p : HostPattern.parse s = Ok p -> len (HostPattern.fmt p) <= len s.
Proof.
  intros (_ & raw & Hp & Hv & Hl & l & Hlast & _)%parse_iff.
  rewrite fmt_join by (destruct (HostPattern.labels p); done).
  transitivity (len (without_suffix [DOT] s)); [|pose proof (without_suffix_len [DOT] s); lia].
  rewrite <-(join_split DOT (without_suffix [DOT] s)). fold (pieces_of s). rewrite Hp, Hl.
  destruct (HostPattern.wildcard p); cbn [wild_pieces].
  - destruct raw as [|r raw]; [by rewrite Hl in Hlast|].
    rewrite (join_cons _ [STAR]), (join_cons _ [STAR]) by done. autorewrite with len. rewrite len_join_map by apply len_lowercase. lia.
  - rewrite len_join_map by apply len_lowercase. lia.
Qed.

Lemma parse_fmt p : wf_pattern p -> len (HostPattern.fmt p) <= 253 ->
  HostPattern.parse (HostPattern.fmt p) = Ok p.
Proof.
  intros [Hv (l & Hlast & Hd)] Hlen. apply parse_iff. split; [done|].
  assert (HostPattern.labels p <> []) by (destruct (HostPattern.labels p); done).
  assert (Forall valid_label (HostPattern.labels p)).
  { eapply Forall_impl; [exact Hv|]. naive_solver. }
  exists (HostPattern.labels p). split_and!; [|done| |eauto].
  - rewrite fmt_join by done. by apply join_labels_pieces.
  - symmetry. erewrite map_ext_in; [apply map_id|]. intros x Hx%list_elem_of_In.
    rewrite Forall_forall in Hv. by apply Hv.
Qed.

(** ** Matching a name *)

Lemma zip_forallb_lower got ls :
  len got = len ls ->
  forallb (fun '(g, l) => eq_ignore_ascii_case g l) (zip got ls) = true <->
  map to_ascii_lowercase got = map to_ascii_lowercase ls.
Proof.
  revert ls. induction got as [|g got IH]; intros [|l ls] Hlen; try solve [len_lia]; cbn; [done|].
  rewrite andb_true_iff, eq_ignore_case_spec, IH by len_lia.
  split; [by intros [-> ->]|by intros [= -> ->]].
Qed.

Lemma matches_iff p host :
  HostPattern.matches p host = true <->
  len host <= 253 /\ Forall valid_label (pieces_of host) /\
  map to_ascii_lowercase (if HostPattern.wildcard p then tail (pieces_of host) else pieces_of host)
  = map to_ascii_lowercase (HostPattern.labels p).
Proof.
  unfold HostPattern.matches, HostPattern.MAX_NAME. fold (pieces_of host). rewrite Z.gtb_ltb.
  destruct (Z.ltb_spec 253 (len host)); [split; [done|lia]|].
  assert (forallb (fun l => is_ok (HostPattern.check_label l)) (pieces_of host) = true <->
          Forall valid_label (pieces_of host)) as Hf.
  { rewrite forallb_spec. apply Forall_proper; [|done]. intros l. unfold valid_label.
    destruct (HostPattern.check_label l) as [[]|]; done. }
  destruct (forallb _ (pieces_of host)); cbn; [|split; [done|naive_solver]].
  set (got := if HostPattern.wildcard p then _ else _). rewrite andb_true_iff, Z.eqb_eq. split.
  - intros [Hl Hz]. rewrite zip_forallb_lower in Hz by done. naive_solver.
  - intros (_ & _ & Hm). assert (len got = len (HostPattern.labels p)) as Hl.
    { by rewrite <-(len_map to_ascii_lowercase got), Hm, len_map. }
    by rewrite zip_forallb_lower.
Qed.

Lemma wf_lower p : wf_pattern p ->
  map to_ascii_lowercase (HostPattern.labels p) = HostPattern.labels p.
Proof.
  intros [Hv _]. erewrite map_ext_in; [apply map_id|]. intros x Hx%list_elem_of_In.
  rewrite Forall_forall in Hv. by apply Hv.
Qed.

Lemma without_suffix_app (l rest : bytes) :
  rest <> [] -> without_suffix [DOT] (l ++ DOT :: rest) = l ++ DOT :: without_suffix [DOT] rest.
Proof.
  intros Hne. destruct (exists_last Hne) as (r & x & ->).
  destruct (decide (x = DOT)) as [->|Hx].
  - rewrite app_comm_cons, app_assoc, !without_suffix_suf. done.
  - rewrite !without_suffix_id; [done| |].
    + by intros p [_ ?]%app_inj_tail.
    + intros p. rewrite app_comm_cons, app_assoc. by intros [_ ?]%app_inj_tail.
Qed.

Lemma pieces_of_cons l rest :
  DOT ∉ l -> rest <> [] -> pieces_of (l ++ DOT :: rest) = l :: pieces_of rest.
Proof.
  intros. unfold pieces_of. rewrite without_suffix_app by done. by apply split_on_app.
Qed.

Lemma pieces_of_inv s l ps :
  pieces_of s = l :: ps -> ps <> [] ->
  exists rest, s = l ++ DOT :: rest /\ DOT ∉ l /\ (rest <> [] -> pieces_of rest = ps).
Proof.
  intros Hp Hps. unfold pieces_of in Hp.
  assert (DOT ∉ l) as Hl by (apply (split_on_no_sep _ (without_suffix [DOT] s)); rewrite Hp; set_solver).
  assert (without_suffix [DOT] s = l ++ DOT :: join [DOT] ps) as Hs.
  { by rewrite <-(join_split DOT (without_suffix [DOT] s)), Hp, join_cons. }
  assert (exists rest, s = l ++ DOT :: rest) as [rest ->].
  { destruct (without_suffix_cases [DOT] s) as [H|[H _]]; [|exists (join [DOT] ps); by rewrite <-H].
    exists (join [DOT] ps ++ [DOT]). by rewrite H, Hs, <-app_assoc. }
  exists rest. split_and!; [done|done|]. intros Hne.
  rewrite without_suffix_app in Hp by done. rewrite split_on_app in Hp by done.
  by injection Hp.
Qed.

(** ** Entries *)

Lemma entry_ok word p port :
  Allowlist.entry word = Ok (p, port) ->
  exists name digits, word = name ++ COLON :: digits /\ HostPattern.parse name = Ok p /\
    parse_uint U16_MAX digits = Some port /\ 1 <= port <= 65535.
Proof.
  unfold Allowlist.entry. intros H. inv_ok. destruct r as [name digits].
  apply rsplit_once_some in E as [-> _]. inv_ok.
  destruct (_ || _ || _); [done|]. destruct (parse_uint U16_MAX digits) as [v|] eqn:Ev; [|done].
  destruct (Z.eqb_spec v 0); [done|]. inv_ok. apply parse_uint_range in Ev as Hr.
  exists name, digits. split_and!; try done; unfold U16_MAX in Hr; lia.
Qed.

Lemma parse_loop_ok words acc l :
  Allowlist.parse_loop words acc = Ok l <->
  exists es, Forall2 (fun w e => Allowlist.entry w = Ok e) words es /\ Allowlist.entries l = acc ++ es.
Proof.
  revert acc. induction words as [|w words IH]; intros acc; cbn.
  - split.
    + intros [= <-]. exists []. by rewrite app_nil_r.
    + intros (es & ->%Forall2_nil_inv_l & H). rewrite app_nil_r in H. destruct l; cbn in *. by subst.
  - rewrite bind_ok. setoid_rewrite IH. split.
    + intros (e & He & es & Hes & Hl). exists (e :: es). rewrite <-app_assoc in Hl. eauto.
    + intros (es & Hes & Hl). apply Forall2_cons_inv_l in Hes as (e & es' & He & Hes & ->).
      exists e. split; [done|]. exists es'. by rewrite <-app_assoc.
Qed.

Lemma allowlist_matches_iff l host port :
  Allowlist.matches l host port = true <->
  exists p, (p, port) ∈ Allowlist.entries l /\ HostPattern.matches p host = true.
Proof.
  unfold Allowlist.matches. rewrite existsb_spec. split.
  - intros ([p q] & Hin & H). bool_to_prop. subst. eauto.
  - intros (p & Hin & H). exists (p, port). rewrite Z.eqb_refl, H. done.
Qed.

Lemma len_port_digits port : 0 <= port <= 65535 -> len (decimal port) <= 5.
Proof. intros. apply (len_decimal 5); lia. Qed.

(** ** Properties *)

(** A pattern that parses is canonical: printing it the way a config
    writes it and parsing that gives the same pattern back, the printed form is
    never longer than what was written, every label kept is a lower-case LDH
    label and the last one is not all digits. *)
Theorem pattern_parse_roundtrip s p :
  HostPattern.parse s = Ok p ->
  HostPattern.parse (HostPattern.fmt p) = Ok p /\ wf_pattern p /\
  len (HostPattern.fmt p) <= len s.
Proof.
  intros H. pose proof (parse_wf _ _ H). pose proof (fmt_len _ _ H).
  split_and!; [|done|done]. apply parse_fmt; [done|]. apply parse_iff in H as [? _]. lia.
Qed.

Lemma pattern_parse_roundtrip_witness :
  exists p, HostPattern.parse (B "*.Example.COM.") = Ok p /\
    HostPattern.parse (HostPattern.fmt p) = Ok p.
Proof.
  eexists. split; [vm_compute; reflexivity|].
  apply (pattern_parse_roundtrip (B "*.Example.COM.")). vm_compute. reflexivity.
Defined.

(** A wildcard stands for exactly one label: [*.name] covers a host
    precisely when the host is one LDH label, a dot, and a name [name] itself
    covers, inside the length limit. *)
Theorem wildcard_covers_one_label labels host :
  labels <> [] ->
  HostPattern.matches (HostPattern.mk labels true) host = true <->
  exists l rest, host = l ++ DOT :: rest /\ valid_label l /\ len host <= 253 /\
    HostPattern.matches (HostPattern.mk labels false) rest = true.
Proof.
  intros Hne. setoid_rewrite matches_iff. cbn [HostPattern.wildcard HostPattern.labels]. split.
  - intros (Hlen & Hv & Hm). destruct (pieces_of host) as [|l ps] eqn:Hp; [by destruct labels|].
    cbn in Hm. assert (ps <> []) by (intros ->; by destruct labels).
    destruct (pieces_of_inv _ _ _ Hp ltac:(done)) as (rest & -> & Hl & Hr).
    apply Forall_cons in Hv as [Hvl Hv]. exists l, rest.
    assert (rest <> []).
    { intros ->. unfold pieces_of in Hp. rewrite without_suffix_suf, split_on_no_sep_id in Hp by done.
      congruence. }
    rewrite Hr by done. autorewrite with len in *. pose proof (len_nonneg l). split_and!; (done || lia).
  - intros (l & rest & -> & Hl & Hlen & Hr & Hv & Hm).
    assert (rest <> []).
    { intros ->. change (pieces_of []) with [@nil byte] in Hv.
      apply Forall_cons in Hv as [Hv%valid_label_nonempty _]. done. }
    rewrite pieces_of_cons by (done || by apply valid_label_no_dot). by rewrite Forall_cons.
Qed.

Lemma wildcard_covers_one_label_witness :
  [B "example"; B "com"] <> [] /\
  HostPattern.matches (HostPattern.mk [B "example"; B "com"] true) (B "a.example.com") = true.
Proof.
  split; [discriminate|]. apply (wildcard_covers_one_label [B "example"; B "com"]); [discriminate|].
  exists (B "a"), (B "example.com"). vm_compute. split_and!; congruence.
Defined.

(** A name and its port are one grant: a parsed allowlist lets a target
    through exactly when one of its words names a pattern covering the host
    together with that very port, and every port in it is between 1 and 65535. *)
Theorem allowlist_grants_name_with_port words list host port :
  Allowlist.parse words = Ok list ->
  (Allowlist.matches list host port = true <->
   exists w p, w ∈ words /\ Allowlist.entry w = Ok (p, port) /\
     HostPattern.matches p host = true) /\
  (Allowlist.matches list host port = true -> 1 <= port <= 65535).
Proof.
  intros (es & Hes & He)%parse_loop_ok. cbn in He.
  assert (Allowlist.matches list host port = true <->
    exists w p, w ∈ words /\ Allowlist.entry w = Ok (p, port) /\ HostPattern.matches p host = true) as Hiff.
  { rewrite allowlist_matches_iff, He. split.
    - intros (p & (i & Hi)%list_elem_of_lookup & Hm).
      destruct (Forall2_lookup_r _ _ _ _ _ Hes Hi) as (w & Hw & Hentry).
      exists w, p. split_and!; [by eapply list_elem_of_lookup_2|done|done].
    - intros (w & p & (i & Hi)%list_elem_of_lookup & Hw & Hm).
      destruct (Forall2_lookup_l _ _ _ _ _ Hes Hi) as (e & Hei & He').
      rewrite Hw in He'. injection He' as <-. exists p. split; [by eapply list_elem_of_lookup_2|done]. }
  split; [done|]. rewrite Hiff. intros (w & p & _ & He' & _).
  by apply entry_ok in He' as (_ & _ & _ & _ & _ & ?).
Qed.

Lemma allowlist_grants_name_with_port_witness :
  exists list, Allowlist.parse [B "api.example:443"; B "*.cdn.example:8443"] = Ok list /\
    Allowlist.matches list (B "X.cdn.example.") 8443 = true.
Proof.
  eexists. split; [vm_compute; reflexivity|].
  apply (allowlist_grants_name_with_port [B "api.example:443"; B "*.cdn.example:8443"]);
    [vm_compute; reflexivity|].
  exists (B "*.cdn.example:8443"), (HostPattern.mk [B "cdn"; B "example"] true).
  vm_compute. split_and!; [right; left; reflexivity|reflexivity|reflexivity].
Defined.

(** Writing a canonical pattern and a port as an [--allow] word and
    reading the word back gives that pattern and that port. *)
Theorem entry_roundtrip p port :
  wf_pattern p -> len (HostPattern.fmt p) <= 253 -> 1 <= port <= 65535 ->
  Allowlist.entry (HostPattern.fmt p ++ B ":" ++ decimal port) = Ok (p, port).
Proof.
  intros Hp Hlen Hport. destruct (decimal_spec port) as (Hne & Hd & _); [lia|].
  pose proof (len_port_digits port). unfold Allowlist.entry.
  change (B ":") with [COLON]. cbn [app]. rewrite rsplit_once_app.
  2:{ intros Hin. rewrite forallb_spec, Forall_forall in Hd. by apply Hd in Hin. }
  cbn [mbind result_bind ok_or]. rewrite parse_fmt by done.
  cbn [mbind result_bind map_err]. rewrite bool_decide_false, Hd by done. rewrite Z.gtb_ltb.
  destruct (Z.ltb_spec 5 (len (decimal port))); [lia|]. cbn [orb negb].
  rewrite parse_uint_decimal by (unfold U16_MAX; lia).
  destruct (Z.eqb_spec port 0); [lia|done].
Qed.

Lemma entry_roundtrip_witness :
  Allowlist.entry (B "*.cdn.example" ++ B ":" ++ decimal 8443)
  = Ok (HostPattern.mk [B "cdn"; B "example"] true, 8443).
Proof.
  apply (entry_roundtrip (HostPattern.mk [B "cdn"; B "example"] true) 8443); [|vm_compute; congruence|lia].
  split; [repeat constructor|]. eexists. split; reflexivity.
Defined.
