(* ===== verification/NetConnect.v ===== *)
(** The one request the egress proxy reads, [CONNECT host:port]:
    [crates/bubbler-net-proxy/src/connect.rs].

    [parse] is the source's pure function over the bytes read so far.  Its
    header loop has fuel; [headers_total] shows that the fuel [parse] gives it
    is always enough, because the loop refuses the sixty-fifth field. *)
From S2P Require Export NetAllow.

Definition MAX_REQUEST_LINE : Z := 512.
Definition MAX_TARGET : Z := 259.
Definition MAX_HEADERS : Z := Z.shiftl 8 10.
Definition MAX_HEADER_COUNT : Z := 64.

Definition CRLF : bytes := [CR; LF].

Definition ESTABLISHED : bytes := B "HTTP/1.1 200 Connection established" ++ CRLF ++ CRLF.

Record Request := mkRequest { r_host : bytes; r_port : Z; consumed : Z }.

#[global] Instance Request_eq_dec : EqDecision Request.
Proof. solve_decision. Defined.

Module Status.

Record t := mk { code : Z; reason : bytes; allow_header : bool }.

#[global] Instance eq_dec : EqDecision t.
Proof. solve_decision. Defined.

Definition new (code : Z) (reason : bytes) : t := mk code reason false.

Definition INCOMPLETE : t := new 0 (B "Incomplete").
Definition BAD_REQUEST : t := new 400 (B "Bad Request").
Definition FORBIDDEN : t := new 403 (B "Forbidden").
Definition METHOD_NOT_ALLOWED : t := mk 405 (B "Method Not Allowed") true.
Definition REQUEST_TIMEOUT : t := new 408 (B "Request Timeout").
Definition URI_TOO_LONG : t := new 414 (B "URI Too Long").
Definition SERVICE_UNAVAILABLE : t := new 503 (B "Service Unavailable").
Definition BAD_GATEWAY : t := new 502 (B "Bad Gateway").
Definition GATEWAY_TIMEOUT : t := new 504 (B "Gateway Timeout").

Definition response (s : t) : bytes :=
  let allow := if allow_header s then B "Allow: CONNECT" ++ CRLF else [] in
  B "HTTP/1.1 " ++ decimal (code s) ++ B " " ++ reason s ++ CRLF ++ allow ++
  B "Content-Length: 0" ++ CRLF ++ B "Connection: close" ++ CRLF ++ CRLF.

End Status.

Definition is_token (b : byte) : bool :=
  is_ascii_alphanumeric b || bool_decide (b ∈ B "!#$%&'*+-.^_`|~").

(** [(lo..=hi).contains(&b)]. *)
Definition byte_in (lo hi : Z) (b : byte) : bool := (lo <=? u8 b) && (u8 b <=? hi).

Definition split_line (buf : bytes) (at_ window : Z) (over : Status.t)
  : result Status.t (bytes * Z) :=
  let rest := from buf at_ in
  let limit := Z.min (len rest) window in
  match position (fun b => bool_decide (b = LF)) (upto rest limit) with
  | Some i => Ok (without_suffix [CR] (upto rest i), at_ + i + 1)
  | None => if len rest >? window then Err over else Err Status.INCOMPLETE
  end.

Definition target_of (target : bytes) : result Status.t (bytes * Z) :=
  if len target >? MAX_TARGET then Err Status.URI_TOO_LONG
  else if negb (utf8_valid target) then Err Status.BAD_REQUEST
  else
    '(host, port) ← ok_or (rsplit_once COLON target) Status.BAD_REQUEST;
    if starts_with [LBRACKET] host then Err Status.FORBIDDEN
    else if bool_decide (port = []) || (len port >? 5) || negb (forallb is_ascii_digit port)
    then Err Status.BAD_REQUEST
    else match parse_uint U16_MAX port with
    | None => Err Status.BAD_REQUEST
    | Some port =>
      if port =? 0 then Err Status.BAD_REQUEST
      else
        let name := without_suffix [DOT] host in
        let labels := split_on DOT name in
        if match last labels with
           | Some l => negb (bool_decide (l = [])) && forallb is_ascii_digit l
           | None => false
           end
        then Err Status.FORBIDDEN
        else if negb (forallb (fun l => is_ok (HostPattern.check_label l)) labels)
        then Err Status.BAD_REQUEST
        else Ok (to_ascii_lowercase name, port)
    end.

Definition request_line (line : bytes) : result Status.t (bytes * Z) :=
  if negb (forallb (fun b => bool_decide (b = SPACE) || byte_in 33 126 b) line)
  then Err Status.BAD_REQUEST
  else match split_on SPACE line with
  | [method; target; version] =>
      if negb (bool_decide (method = B "CONNECT")) then Err Status.METHOD_NOT_ALLOWED
      else if negb (bool_decide (version = B "HTTP/1.1")) && negb (bool_decide (version = B "HTTP/1.0"))
      then Err Status.BAD_REQUEST
      else target_of target
  | _ => Err Status.BAD_REQUEST
  end.

Definition field (line : bytes) : result Status.t bool :=
  if starts_with [SPACE] line || starts_with [TAB] line then Err Status.BAD_REQUEST
  else
    colon ← ok_or (position (fun b => bool_decide (b = COLON)) line) Status.BAD_REQUEST;
    let name := upto line colon in
    let value := from line (colon + 1) in
    if bool_decide (name = []) || negb (forallb is_token name) then Err Status.BAD_REQUEST
    else if negb (forallb (fun b => bool_decide (b = TAB) || byte_in 32 126 b) value)
    then Err Status.BAD_REQUEST
    else Ok (eq_ignore_ascii_case name (B "host")).

(** The loop of [parse]: [Some] of where the blank line ended and how many
    [Host] fields there were; [None] is a loop that ran out of fuel. *)
Fixpoint headers (fuel : nat) (buf : bytes) (at_ hosts fields : Z)
  : option (result Status.t (Z * Z)) :=
  match fuel with
  | O => None
  | S fuel =>
    if at_ >=? MAX_HEADERS then Some (Err Status.BAD_REQUEST)
    else match split_line buf at_ (MAX_HEADERS - at_) Status.BAD_REQUEST with
    | Err e => Some (Err e)
    | Ok (line, next) =>
      if bool_decide (line = []) then Some (Ok (next, hosts))
      else
        let fields := fields + 1 in
        if fields >? MAX_HEADER_COUNT then Some (Err Status.BAD_REQUEST)
        else match field line with
        | Err e => Some (Err e)
        | Ok h => headers fuel buf next (if h then hosts + 1 else hosts) fields
        end
    end
  end.

Definition parse (buf : bytes) : option (result Status.t Request) :=
  match split_line buf 0 MAX_REQUEST_LINE Status.URI_TOO_LONG with
  | Err e => Some (Err e)
  | Ok (line, at_) =>
    match request_line line with
    | Err e => Some (Err e)
    | Ok (host, port) =>
      match headers 65 buf at_ 0 0 with
      | None => None
      | Some (Err e) => Some (Err e)
      | Some (Ok (at_, hosts)) =>
          if negb (hosts =? 1) then Some (Err Status.BAD_REQUEST)
          else Some (Ok (mkRequest host port at_))
      end
    end
  end.

Lemma MAX_HEADERS_val : MAX_HEADERS = 8192.
Proof. reflexivity. Qed.

(** ** Lines *)

(** [buf] from [a] on starts with the raw line [raw] and its terminator, which
    ends at [b]. *)
Definition line_at (buf : bytes) (a b : Z) (raw : bytes) : Prop :=
  LF ∉ raw /\ exists p q, buf = p ++ raw ++ LF :: q /\ len p = a /\ b = a + len raw + 1.

Lemma no_lf_iff l : LF ∉ l <-> Forall (fun b => bool_decide (b = LF) = false) l.
Proof.
  rewrite Forall_forall. setoid_rewrite bool_decide_eq_false. split; [intros ? x ? ->; done|].
  intros H Hin. by apply (H LF).
Qed.

Lemma position_lf l i :
  position (fun b => bool_decide (b = LF)) l = Some i <->
  exists a b, l = a ++ LF :: b /\ len a = i /\ LF ∉ a.
Proof.
  rewrite position_some. setoid_rewrite no_lf_iff. split.
  - intros (a & x & b & -> & Hi & Hx%bool_decide_eq_true & Ha). subst. by exists a, b.
  - intros (a & b & -> & Hi & Ha). exists a, LF, b. by rewrite bool_decide_eq_true.
Qed.

Lemma split_line_ok buf a w over line b :
  0 <= a <= len buf ->
  split_line buf a w over = Ok (line, b) <->
  exists raw, line_at buf a b raw /\ line = without_suffix [CR] raw /\ b <= a + w.
Proof.
  intros Ha. destruct (cut_at buf a Ha) as (p & rest & -> & Hp).
  unfold split_line. rewrite <-Hp, from_app. clear Ha.
  split.
  - destruct (position _ _) eqn:E; [|by destruct (_ >? _)]. intros [= <- <-].
    apply position_lf in E as (x & y & Hxy & Hz & Hx).
    assert (rest = x ++ LF :: (y ++ from rest (Z.min (len rest) w))) as Hr.
    { rewrite <-(upto_from rest (Z.min (len rest) w)) at 1. by rewrite Hxy, <-app_assoc. }
    exists x. split; [|split].
    + split; [done|]. eexists p, _. rewrite Hr at 1. split_and!; [done|done|lia].
    + by rewrite Hr, <-Hz, upto_app.
    + apply (f_equal len) in Hxy. unfold upto in Hxy. len_lia.
  - intros (raw & (Hraw & p' & q & Heq & Hp' & Hb) & -> & Hw).
    apply app_len_inj in Heq as [<- ->]; [|done].
    assert (position (fun b => bool_decide (b = LF))
       (upto (raw ++ LF :: q) (Z.min (len (raw ++ LF :: q)) w)) = Some (len raw)) as ->.
    { apply position_lf. exists raw, (upto q (Z.min (len (raw ++ LF :: q)) w - len raw - 1)).
      split_and!; [|done|done]. rewrite upto_app_ge, upto_cons by len_lia.
      done. }
    rewrite upto_app. repeat f_equal. lia.
Qed.

(** A line is looked for only in what has been read, so more input never
    changes an answer other than [INCOMPLETE]. *)
Lemma split_line_more buf more a w over :
  0 <= a <= len buf -> split_line buf a w over <> Err Status.INCOMPLETE ->
  split_line (buf ++ more) a w over = split_line buf a w over.
Proof.
  intros Ha Hne. destruct (split_line buf a w over) as [[line b]|e] eqn:E.
  - apply split_line_ok; [len_lia|]. apply split_line_ok in E as (raw & (Hr & p & q & -> & ? & ?) & ? & ?); [|done].
    exists raw. split_and!; [|done|done]. split; [done|]. exists p, (q ++ more).
    rewrite <-!app_assoc. done.
  - unfold split_line in *. destruct (cut_at buf a Ha) as (p & rest & -> & Hp).
    rewrite <-app_assoc. rewrite <-Hp, from_app in *.
    destruct (position _ _) eqn:E'; [done|]. rewrite Z.gtb_ltb in *.
    destruct (Z.ltb_spec w (len rest)); [|by injection E as <-]. injection E as <-.
    assert (upto (rest ++ more) (Z.min (len (rest ++ more)) w) = upto rest (Z.min (len rest) w)) as ->.
    { rewrite upto_app_le by lia. f_equal. len_lia. }
    rewrite E', (proj2 (Z.ltb_lt _ _)); [done|len_lia].
Qed.

Lemma split_line_incomplete buf a w over :
  0 <= a <= len buf -> split_line buf a w over = Err Status.INCOMPLETE ->
  over = Status.INCOMPLETE \/ len buf <= a + w.
Proof.
  intros Ha. destruct (cut_at buf a Ha) as (p & rest & -> & Hp). unfold split_line.
  rewrite <-Hp, from_app. destruct (position _ _); [done|]. rewrite Z.gtb_ltb.
  destruct (Z.ltb_spec w (len rest)); [intros [= ->]; by left|]. right. len_lia.
Qed.

Lemma line_at_bounds buf a b raw : line_at buf a b raw -> (0 <= a < b) /\ b <= len buf.
Proof. intros (_ & p & q & -> & ? & ?). len_lia. Qed.

(** ** The header loop *)

Lemma headers_total fuel buf a hosts fields :
  fields <= MAX_HEADER_COUNT < fields + Z.of_nat fuel ->
  headers fuel buf a hosts fields <> None.
Proof.
  revert a hosts fields. induction fuel as [|fuel IH]; intros a hosts fields Hf; cbn [headers]; [lia|].
  destruct (a >=? _); [done|]. destruct (split_line _ _ _ _) as [[line next]|]; [|done].
  case_bool_decide; [done|]. rewrite Z.gtb_ltb. destruct (Z.ltb_spec MAX_HEADER_COUNT (fields + 1)); [done|].
  destruct (field line) as [h|]; [|done]. apply IH. lia.
Qed.

(** A raw line, its terminator's CR taken off. *)
Definition text_of (raw : bytes) : bytes := without_suffix [CR] raw.

(** What the loop accepts: raw lines that are fields, then an empty line. *)
Inductive header_block (buf : bytes) : Z -> list bytes -> Z -> Prop :=
| block_end a b raw :
    line_at buf a b raw -> text_of raw = [] -> b <= MAX_HEADERS ->
    header_block buf a [] b
| block_field a b c raw raws h :
    line_at buf a b raw -> text_of raw <> [] -> field (text_of raw) = Ok h ->
    header_block buf b raws c ->
    header_block buf a (raw :: raws) c.

Definition is_host (raw : bytes) : bool :=
  match field (text_of raw) with Ok true => true | _ => false end.

Fixpoint count_hosts (raws : list bytes) : Z :=
  match raws with
  | [] => 0
  | raw :: raws => (if is_host raw then 1 else 0) + count_hosts raws
  end.

Lemma header_block_bounds buf a raws c :
  header_block buf a raws c -> 0 <= a < c /\ c <= len buf /\ c <= MAX_HEADERS.
Proof.
  induction 1 as [a b raw Hl%line_at_bounds|a b c raw raws h Hl%line_at_bounds]; lia.
Qed.

Lemma headers_ok fuel buf a hosts fields c n :
  0 <= a <= len buf ->
  headers fuel buf a hosts fields = Some (Ok (c, n)) <->
  exists raws, header_block buf a raws c /\ n = hosts + count_hosts raws /\
    (raws = [] \/ fields + len raws <= MAX_HEADER_COUNT) /\ len raws < Z.of_nat fuel.
Proof.
  revert a hosts fields. induction fuel as [|fuel IH]; intros a hosts fields Ha; cbn [headers].
  { split; [done|]. intros (raws & _ & _ & _ & Hlt). len_lia. }
  rewrite Z.geb_leb. destruct (Z.leb_spec MAX_HEADERS a) as [Hge|Hlt].
  { split; [done|]. intros (raws & Hb%header_block_bounds & _). lia. }
  destruct (split_line _ _ _ _) as [[line next]|e] eqn:Es.
  2:{ split; [done|]. intros (raws & Hb & _). exfalso.
      assert (exists b raw, line_at buf a b raw /\ b <= MAX_HEADERS) as (b & raw & Hl & Hbm).
      { inversion Hb as [? ? raw Hl|? b ? raw ? ? Hl ? ? Hb']; subst; [by exists c, raw|].
        exists b, raw. apply header_block_bounds in Hb'. split; [done|lia]. }
      assert (split_line buf a (MAX_HEADERS - a) Status.BAD_REQUEST = Ok (text_of raw, b)) as Hc; [|congruence].
      apply split_line_ok; [done|]. exists raw. split_and!; [done|done|lia]. }
  apply split_line_ok in Es as (raw & Hl & -> & Hw); [|done].
  pose proof (line_at_bounds _ _ _ _ Hl) as Hlb.
  assert (forall b raw', line_at buf a b raw' -> b = next /\ raw' = raw) as Hdet.
  { intros b raw' (Hn' & p' & q' & Heq' & Hp' & ->). destruct Hl as (Hn & p & q & -> & Hp & ->).
    apply app_len_inj in Heq' as [_ Heq]; [|congruence].
    assert (split_on LF (raw ++ LF :: q) = split_on LF (raw' ++ LF :: q')) as Hs by congruence.
    rewrite !split_on_app in Hs by done. injection Hs as -> _. done. }
  fold (text_of raw). case_bool_decide as Hempty.
  - split.
    + intros [= -> ->]. exists []. cbn. split_and!; [by eapply block_end; eauto; lia|lia|auto|len_lia].
    + intros (raws & Hb & -> & _). inversion Hb as [? ? raw' Hl'|? b ? raw' ? ? Hl']; subst.
      * apply Hdet in Hl' as [-> ->]. cbn. do 3 f_equal. lia.
      * apply Hdet in Hl' as [-> ->]. done.
  - rewrite Z.gtb_ltb. destruct (Z.ltb_spec MAX_HEADER_COUNT (fields + 1)).
    { split; [done|]. intros (raws & Hb & _ & Hc & _). exfalso.
      inversion Hb as [? ? raw' Hl'|? b ? raw' ? ? Hl']; subst.
      - by apply Hdet in Hl' as [-> ->].
      - destruct Hc as [?|Hc]; [done|]. len_lia. }
    destruct (field (text_of raw)) as [h|e] eqn:Ef.
    2:{ split; [done|]. intros (raws & Hb & _). exfalso.
        inversion Hb as [? ? raw' Hl'|? b ? raw' ? ? Hl']; subst; apply Hdet in Hl' as [-> ->]; congruence. }
    rewrite IH by lia. split.
    + intros (raws & Hb & -> & Hc & Hf). exists (raw :: raws).
      split_and!; [by eapply block_field; eauto| |right|len_lia].
      * cbn. unfold is_host. rewrite Ef. destruct h; lia.
      * destruct Hc as [->|Hc]; len_lia.
    + intros (raws & Hb & -> & Hc & Hf).
      inversion Hb as [? ? raw' Hl'|? b ? raw' raws' ? Hl']; subst; apply Hdet in Hl' as [-> ->]; [done|].
      exists raws'. split_and!; [done| |destruct Hc as [?|Hc]; [done|right; len_lia]|len_lia].
      cbn. unfold is_host. rewrite Ef. destruct h; lia.
Qed.

Lemma headers_more fuel buf more a hosts fields :
  0 <= a <= len buf -> headers fuel buf a hosts fields <> Some (Err Status.INCOMPLETE) ->
  headers fuel (buf ++ more) a hosts fields = headers fuel buf a hosts fields.
Proof.
  revert a hosts fields. induction fuel as [|fuel IH]; intros a hosts fields Ha; cbn [headers]; [done|].
  destruct (a >=? _); [done|].
  destruct (split_line buf _ _ _) as [[line next]|e] eqn:E.
  - rewrite split_line_more, E by (done || congruence). intros Hne.
    apply split_line_ok in E as (raw & Hl%line_at_bounds & _ & _); [|done].
    case_bool_decide; [done|]. destruct (_ >? _); [done|]. destruct (field line); [|done].
    apply IH; [lia|done].
  - intros Hne. rewrite split_line_more, E by (done || congruence). done.
Qed.

Lemma field_not_incomplete line : field line <> Err Status.INCOMPLETE.
Proof.
  unfold field. destruct (_ || _); [done|]. destruct (position _ _); cbn; [|done].
  destruct (_ || _); [done|]. by destruct (negb _).
Qed.

Lemma target_not_incomplete t : target_of t <> Err Status.INCOMPLETE.
Proof.
  unfold target_of. repeat (case_match; try done). destruct (rsplit_once _ _) as [[h p]|]; cbn; [|done].
  repeat (case_match; try done).
Qed.

Lemma request_line_not_incomplete line : request_line line <> Err Status.INCOMPLETE.
Proof.
  unfold request_line. repeat (case_match; try done). apply target_not_incomplete.
Qed.

Lemma headers_incomplete fuel buf a hosts fields :
  0 <= a <= len buf -> headers fuel buf a hosts fields = Some (Err Status.INCOMPLETE) ->
  len buf <= MAX_HEADERS.
Proof.
  revert a hosts fields. induction fuel as [|fuel IH]; intros a hosts fields Ha; cbn [headers]; [done|].
  destruct (a >=? _); [done|]. destruct (split_line _ _ _ _) as [[line next]|e] eqn:E.
  - case_bool_decide; [done|]. destruct (_ >? _); [done|].
    destruct (field line) eqn:Ef; [|intros [= ->]; by apply field_not_incomplete in Ef].
    apply split_line_ok in E as (raw & Hl%line_at_bounds & _ & _); [|done]. apply IH. lia.
  - intros [= ->]. apply split_line_incomplete in E as [?|?]; [done|lia|done].
Qed.

(** ** Targets *)

(** A host a target may name: valid labels, the last one not all digits. *)
Definition dialable (host : bytes) : Prop :=
  Forall valid_label (split_on DOT host) /\
  exists l, last (split_on DOT host) = Some l /\ all_digits l = false.

Lemma target_of_ok t host port :
  target_of t = Ok (host, port) <->
  exists raw digits, t = raw ++ COLON :: digits /\ COLON ∉ digits /\ len t <= MAX_TARGET /\
    utf8_valid t = true /\ starts_with [LBRACKET] raw = false /\
    digits <> [] /\ len digits <= 5 /\ forallb is_ascii_digit digits = true /\
    parse_uint U16_MAX digits = Some port /\ port <> 0 /\
    dialable (without_suffix [DOT] raw) /\ host = to_ascii_lowercase (without_suffix [DOT] raw).
Proof.
  unfold target_of. rewrite Z.gtb_ltb. split.
  - destruct (Z.ltb_spec MAX_TARGET (len t)); [done|]. destruct (utf8_valid t); [|done].
    destruct (rsplit_once COLON t) as [[raw digits]|] eqn:Er; [|done].
    apply rsplit_once_some in Er as [-> Hd]. cbn [ok_or mbind result_bind negb].
    destruct (starts_with _ raw) eqn:Es; [done|]. rewrite Z.gtb_ltb.
    case_bool_decide as He; [done|]. destruct (Z.ltb_spec 5 (len digits)); [done|].
    destruct (forallb is_ascii_digit digits) eqn:Ed; [|done]. cbn [orb negb].
    destruct (parse_uint _ _) as [q|] eqn:Ep; [|done]. destruct (Z.eqb_spec q 0); [done|].
    destruct (last (split_on DOT (without_suffix [DOT] raw))) as [l|] eqn:El.
    2:{ apply last_None in El. by apply split_on_nonempty in El. }
    destruct (negb (bool_decide (l = [])) && _) eqn:Eb; [done|].
    destruct (forallb (fun l => is_ok _) _) eqn:Ef; [|done]. cbn [negb]. intros [= <- <-].
    exists raw, digits. rewrite Ed. split_and!; try done.
    assert (Forall valid_label (split_on DOT (without_suffix [DOT] raw))) as Hv.
    { rewrite forallb_spec in Ef. eapply Forall_impl; [done|]. intros x Hx.
      apply is_ok_true in Hx as [[] ?]. done. }
    split; [done|]. exists l. split; [done|]. unfold all_digits.
    apply last_Some in El as [k Hk]. rewrite Hk, Forall_app, Forall_singleton in Hv.
    destruct Hv as [_ Hv%valid_label_nonempty]. rewrite bool_decide_false in Eb by done. done.
  - intros (raw & digits & -> & Hd & Hl & Hu & Hs & Hne & Hl5 & Hdig & Hp & H0 & [Hv (l & El & Ha)] & ->).
    destruct (Z.ltb_spec MAX_TARGET (len (raw ++ COLON :: digits))); [lia|].
    rewrite Hu, rsplit_once_app by done. cbn [ok_or mbind result_bind negb].
    rewrite Hs, bool_decide_false, Hdig, Hp by done. rewrite Z.gtb_ltb.
    destruct (Z.ltb_spec 5 (len digits)); [lia|]. cbn [orb negb].
    destruct (Z.eqb_spec port 0); [done|]. rewrite El. unfold all_digits in Ha.
    rewrite Ha, andb_false_r.
    assert (forallb (fun l => is_ok (HostPattern.check_label l)) (split_on DOT (without_suffix [DOT] raw)) = true) as ->.
    { apply forallb_spec. eapply Forall_impl; [done|]. by intros x ->. }
    done.
Qed.

Lemma all_digits_lower l : all_digits (to_ascii_lowercase l) = all_digits l.
Proof.
  unfold all_digits, to_ascii_lowercase. induction l as [|b l IH]; [done|]. cbn [map forallb].
  by rewrite lower_digit, IH.
Qed.

Lemma dialable_wf host : dialable host ->
  wf_pattern (HostPattern.mk (split_on DOT (to_ascii_lowercase host)) false).
Proof.
  intros [Hv (l & Hl & Hd)]. rewrite split_on_lowercase. split; cbn.
  - by apply map_lowercase_wf.
  - exists (to_ascii_lowercase l). change (map ?f ?l) with (f <$> l).
    by rewrite fmap_last, Hl, all_digits_lower.
Qed.

Lemma dialable_chars host : dialable host ->
  Forall (fun b => (HostPattern.label_char b || bool_decide (b = DOT)) = true) host.
Proof.
  intros [Hv _]. rewrite <-(join_split DOT host). apply Forall_join; [done|].
  eapply Forall_impl; [done|]. intros w (_ & _ & Hw & _)%valid_label_iff.
  eapply Forall_impl; [done|]. by intros b ->.
Qed.

Lemma dialable_ascii host : dialable host -> is_ascii host = true.
Proof. intros H%dialable_chars. apply forallb_spec. eapply Forall_impl; [done|]. by_bytes. Qed.

(** ** The whole request *)

Lemma parse_ok buf r :
  parse buf = Some (Ok r) <->
  exists line raws a, line_at buf 0 a line /\ a <= MAX_REQUEST_LINE /\
    request_line (text_of line) = Ok (r_host r, r_port r) /\
    header_block buf a raws (consumed r) /\ count_hosts raws = 1 /\ len raws <= MAX_HEADER_COUNT.
Proof.
  unfold parse. split.
  - destruct (split_line _ _ _ _) as [[line a]|] eqn:E; [|done].
    apply split_line_ok in E as (raw & Hl & -> & Ha); [|len_lia].
    pose proof (line_at_bounds _ _ _ _ Hl). fold (text_of raw).
    destruct (request_line (text_of raw)) as [[host port]|] eqn:Er; [|done].
    destruct (headers _ _ _ _ _) as [[[c n]|]|] eqn:Eh; [|done|done].
    apply headers_ok in Eh as (raws & Hb & -> & Hc & Hf); [|lia].
    destruct (Z.eqb_spec (0 + count_hosts raws) 1); [|done]. intros [= <-]. cbn.
    exists raw, raws, a. split_and!; try done; unfold MAX_HEADER_COUNT; lia.
  - intros (line & raws & a & Hl & Ha & Hr & Hb & Hn & Hf).
    pose proof (line_at_bounds _ _ _ _ Hl).
    assert (split_line buf 0 MAX_REQUEST_LINE Status.URI_TOO_LONG = Ok (text_of line, a)) as ->.
    { apply split_line_ok; [len_lia|]. exists line. split_and!; [done|done|lia]. }
    rewrite Hr. assert (headers 65 buf a 0 0 = Some (Ok (consumed r, 1))) as ->.
    { apply headers_ok; [lia|]. exists raws. unfold MAX_HEADER_COUNT in *.
      split_and!; [done|lia|right; lia|lia]. }
    by destruct r.
Qed.

(** The canonical request for a target. *)
Definition authority (host : bytes) (port : Z) : bytes := host ++ COLON :: decimal port.
Definition request_text (host : bytes) (port : Z) : bytes :=
  B "CONNECT " ++ authority host port ++ B " HTTP/1.1" ++ CRLF ++
  B "Host: " ++ authority host port ++ CRLF ++ CRLF.

Definition visible (b : byte) : bool := byte_in 33 126 b.

Lemma authority_visible host port :
  dialable host -> 0 <= port -> Forall (fun b => visible b = true) (authority host port).
Proof.
  intros Hh%dialable_chars Hp. unfold authority.
  destruct (decimal_spec port Hp) as (_ & Hd & _). rewrite forallb_spec in Hd.
  rewrite Forall_app, Forall_cons. split_and!; [|done|]; (eapply Forall_impl; [done|]; by_bytes).
Qed.

Lemma visible_not c l : Forall (fun b => visible b = true) l -> visible c = false -> c ∉ l.
Proof. intros H Hc Hin. rewrite Forall_forall in H. apply H in Hin. congruence. Qed.

Lemma target_of_authority host port :
  dialable host -> len host <= 253 -> 1 <= port <= U16_MAX ->
  target_of (authority host port) = Ok (to_ascii_lowercase host, port).
Proof.
  intros Hh Hl Hp. apply target_of_ok. exists host, (decimal port).
  destruct (decimal_spec port) as (Hne & Hd & _); [lia|].
  pose proof (len_port_digits port ltac:(unfold U16_MAX in *; lia)).
  pose proof (dialable_chars _ Hh) as Hc. pose proof (dialable_ascii _ Hh) as Ha.
  assert (without_suffix [DOT] host = host) as Hs.
  { destruct Hh as [Hv _]. apply without_suffix_id. intros p ->.
    rewrite split_on_app_sep, Forall_app in Hv. destruct Hv as [_ Hv].
    by apply Forall_singleton, valid_label_nonempty in Hv. }
  rewrite forallb_spec in Hd. split_and!; rewrite ?Hs; try done.
  - intros Hin. rewrite Forall_forall in Hd. by apply Hd in Hin.
  - unfold authority, MAX_TARGET. len_lia.
  - apply utf8_valid_ascii. unfold authority, is_ascii. rewrite forallb_app.
    fold (is_ascii host). rewrite Ha. cbn. apply forallb_spec. eapply Forall_impl; [done|]. by_bytes.
  - apply not_true_is_false. intros (q & ->)%starts_with_spec.
    apply Forall_cons in Hc as [Hc _]. done.
  - by apply forallb_spec.
  - apply parse_uint_decimal. unfold U16_MAX in *. lia.
  - lia.
Qed.

Lemma request_line_authority host port :
  dialable host -> len host <= 253 -> 1 <= port <= U16_MAX ->
  request_line (B "CONNECT " ++ authority host port ++ B " HTTP/1.1")
  = Ok (to_ascii_lowercase host, port).
Proof.
  intros Hh Hl Hp. pose proof (authority_visible host port Hh ltac:(lia)) as Hv.
  unfold request_line.
  assert (forallb (fun b => bool_decide (b = SPACE) || byte_in 33 126 b)
    (B "CONNECT " ++ authority host port ++ B " HTTP/1.1") = true) as ->.
  { rewrite !forallb_app. cbn [forallb B]. apply andb_true_iff. split; [done|].
    rewrite andb_true_r. apply forallb_spec. eapply Forall_impl; [done|].
    unfold visible. intros b ->. apply orb_true_r. }
  assert (split_on SPACE (B "CONNECT " ++ authority host port ++ B " HTTP/1.1")
    = [B "CONNECT"; authority host port; B "HTTP/1.1"]) as ->.
  { change (B "CONNECT ") with (B "CONNECT" ++ [SPACE]). rewrite <-app_assoc.
    change ([SPACE] ++ ?x) with (SPACE :: x). rewrite split_on_app by by_decide.
    change (B " HTTP/1.1") with (SPACE :: B "HTTP/1.1").
    rewrite split_on_app by (by eapply visible_not). done. }
  rewrite !bool_decide_true by done. cbn [negb andb]. by apply target_of_authority.
Qed.

Lemma field_host_authority host port :
  dialable host -> 0 <= port -> field (B "Host: " ++ authority host port) = Ok true.
Proof.
  intros Hh Hp. pose proof (authority_visible host port Hh Hp) as Hv. unfold field.
  change (starts_with [SPACE] _ || starts_with [TAB] _) with false. cbv iota.
  assert (position (fun b => bool_decide (b = COLON)) (B "Host: " ++ authority host port) = Some 4) as ->.
  { apply position_some. exists (B "Host"), COLON, (B " " ++ authority host port).
    split_and!; [done|done|done|repeat constructor]. }
  cbn [ok_or mbind result_bind].
  change (upto (B "Host: " ++ authority host port) 4) with (B "Host").
  change (from (B "Host: " ++ authority host port) (4 + 1)) with (B " " ++ authority host port).
  rewrite bool_decide_false by done. change (forallb is_token (B "Host")) with true. cbn [orb negb].
  assert (forallb (fun b => bool_decide (b = TAB) || byte_in 32 126 b) (B " " ++ authority host port) = true) as ->; [|done].
  rewrite forallb_app. apply andb_true_iff. split; [done|]. apply forallb_spec.
  eapply Forall_impl; [done|]. by_bytes.
Qed.

Lemma text_of_cr line : text_of (line ++ [CR]) = line.
Proof. apply without_suffix_suf. Qed.

(** [p ++ raw ++ LF :: q] has the line [raw] at [len p]. *)
Lemma line_at_here p raw q a :
  LF ∉ raw -> len p = a -> line_at (p ++ raw ++ LF :: q) a (a + len raw + 1) raw.
Proof. intros ? <-. split; [done|]. by exists p, q. Qed.

Module Http.

(** ** The grammar of a request, after RFC 9110 and RFC 9112 *)

Definition digit (b : byte) : Prop := 48 <= u8 b <= 57.
Definition letter (b : byte) : Prop := 65 <= u8 b <= 90 \/ 97 <= u8 b <= 122.
(** A character of a token: the name of a field is one. *)
Definition tchar (b : byte) : Prop := digit b \/ letter b \/ b ∈ B "!#$%&'*+-.^_`|~".
(** A character of the value of a field: visible ASCII, a space or a tab. *)
Definition vchar (b : byte) : Prop := 32 <= u8 b <= 126 \/ u8 b = 9.

(** A label of a host name, and a name: no address, since the last label is not a number. *)
Definition name_label (l : bytes) : Prop :=
  1 <= len l <= 63 /\ Forall (fun b => digit b \/ letter b \/ b = DASH) l /\ head l <> Some DASH /\ last l <> Some DASH.
Definition name_labels (ls : list bytes) : Prop := Forall name_label ls /\ exists l, last ls = Some l /\ ~ Forall digit l.

(** The number that digits write. *)
Definition number (digits : bytes) : Z := fold_left (fun n b => 10 * n + (u8 b - 48)) digits 0.

(** A target in authority form: a name, which may end in the root's dot, and a port.  What it
    names is the name in lower case without that dot. *)
Definition target_says (t host : bytes) (port : Z) : Prop :=
  exists ls root digits, t = join [DOT] ls ++ root ++ COLON :: digits /\ len t <= 259 /\
    name_labels ls /\ (root = [] \/ root = [DOT]) /\ host = to_ascii_lowercase (join [DOT] ls) /\
    1 <= len digits <= 5 /\ Forall digit digits /\ port = number digits /\ 1 <= port <= 65535.

Definition request_says (line host : bytes) (port : Z) : Prop :=
  exists t version, line = B "CONNECT" ++ SPACE :: t ++ SPACE :: version /\
    (version = B "HTTP/1.1" \/ version = B "HTTP/1.0") /\ target_says t host port.

(** A field: a name, a colon directly after it, and a value. *)
Definition field_says (line name value : bytes) : Prop :=
  line = name ++ COLON :: value /\ name <> [] /\ Forall tchar name /\ Forall vchar value.

(** How a line may end. *)
Definition eol (e : bytes) : Prop := e = CRLF \/ e = [LF].

(** A field with the end of its line. *)
Definition written (f : bytes * bytes * bytes) : bytes := f.1.1 ++ COLON :: f.1.2 ++ f.2.
Definition field_wf (f : bytes * bytes * bytes) : Prop := (exists line, field_says line f.1.1 f.1.2) /\ eol f.2.

Lemma digit_iff b : is_ascii_digit b = true <-> digit b.
Proof. unfold is_ascii_digit, digit. rewrite andb_true_iff, !Z.leb_le. done. Qed.

Lemma alnum_iff b : is_ascii_alphanumeric b = true <-> digit b \/ letter b.
Proof.
  unfold is_ascii_alphanumeric, is_ascii_digit, is_ascii_upper, is_ascii_lower, digit, letter.
  rewrite !orb_true_iff, !andb_true_iff, !Z.leb_le. lia.
Qed.

Lemma tchar_iff b : is_token b = true <-> tchar b.
Proof. unfold is_token, tchar. rewrite orb_true_iff, alnum_iff, bool_decide_eq_true. tauto. Qed.

Lemma vchar_iff b : bool_decide (b = TAB) || byte_in 32 126 b = true <-> vchar b.
Proof.
  unfold byte_in, vchar. rewrite orb_true_iff, andb_true_iff, !Z.leb_le, bool_decide_eq_true.
  assert (b = TAB <-> u8 b = 9) as -> by (split; [by intros ->|intros Hb; by apply (inj u8)]). tauto.
Qed.

Lemma forallb_Forall {A} (f : A -> bool) (P : A -> Prop) l : (forall a, f a = true <-> P a) -> forallb f l = true <-> Forall P l.
Proof. intros Hf. rewrite forallb_spec. split; (intros Hl; eapply Forall_impl; [exact Hl|]; intros a; apply Hf). Qed.

Lemma label_iff l : valid_label l <-> name_label l.
Proof.
  rewrite valid_label_iff. unfold name_label.
  assert (Forall (fun b => HostPattern.label_char b = true) l <-> Forall (fun b => digit b \/ letter b \/ b = DASH) l) as ->.
  { rewrite <-forallb_spec. apply forallb_Forall. intros b. unfold HostPattern.label_char. rewrite orb_true_iff, alnum_iff, bool_decide_eq_true. tauto. }
  assert (l <> [] /\ len l <= 63 <-> 1 <= len l <= 63) as Hl by (destruct l as [|b l]; [split; [by intros [? _]|rewrite len_nil; intros; lia]|split; [intros [_ ?]; len_lia|intros; split; [done|lia]]]).
  assert ((forall q, l <> DASH :: q) <-> head l <> Some DASH) as Hh.
  { destruct l as [|b l]; cbn; [done|]. split; [intros Hq [= ->]; by apply (Hq l)|intros Hq q [= -> _]; by apply Hq]. }
  assert ((forall p, l <> p ++ [DASH]) <-> last l <> Some DASH) as Ht.
  { rewrite last_Some. split; [intros Hp [p Hl']; by apply (Hp p)|intros Hp p Hl'; apply Hp; by exists p]. }
  rewrite <-Hh, <-Ht, <-Hl. tauto.
Qed.

Lemma labels_iff host : dialable host <-> exists ls, host = join [DOT] ls /\ name_labels ls.
Proof.
  unfold dialable, name_labels. assert (forall l, all_digits l = false <-> ~ Forall digit l) as Hd.
  { intros l. rewrite <-(forallb_Forall is_ascii_digit digit l digit_iff). unfold all_digits. by rewrite not_true_iff_false. }
  split.
  - intros (Hv & l & Hl & Ha). exists (split_on DOT host). rewrite join_split. split; [done|]. split.
    + eapply Forall_impl; [exact Hv|]. intros x. apply label_iff.
    + exists l. by rewrite <-Hd.
  - intros (ls & -> & Hv & l & Hl & Ha). assert (Forall valid_label ls) as Hvl by (eapply Forall_impl; [exact Hv|]; intros x; apply label_iff).
    rewrite split_join; [|intros ->; discriminate Hl|eapply Forall_impl; [exact Hvl|]; intros x; apply valid_label_no_dot]. split; [done|]. exists l. by rewrite Hd.
Qed.

(** A name has no dot at its end, and begins with no bracket. *)
Lemma dialable_end host : dialable host -> forall p, host <> p ++ [DOT].
Proof.
  intros [Hv _] p ->. rewrite split_on_app_sep, Forall_app in Hv. destruct Hv as [_ Hv]. by apply Forall_singleton, valid_label_nonempty in Hv.
Qed.

Lemma root_dot raw : dialable (without_suffix [DOT] raw) <-> exists root, (root = [] \/ root = [DOT]) /\ raw = without_suffix [DOT] raw ++ root /\ dialable (without_suffix [DOT] raw).
Proof.
  split; [|by intros (? & _ & _ & ?)]. intros Hd. destruct (without_suffix_cases [DOT] raw) as [He|[He _]]; [exists [DOT]|exists []]; split_and!; auto.
  by rewrite app_nil_r.
Qed.

Lemma port_iff digits port : digits <> [] /\ len digits <= 5 /\ forallb is_ascii_digit digits = true /\ parse_uint U16_MAX digits = Some port /\ port <> 0 <->
  1 <= len digits <= 5 /\ Forall digit digits /\ port = number digits /\ 1 <= port <= 65535.
Proof.
  rewrite (forallb_Forall is_ascii_digit digit digits digit_iff). split.
  - intros (Hne & Hl & Hd & Hp & H0). assert (0 <= port <= 65535) as Hr by (by apply parse_uint_range in Hp).
    rewrite parse_uint_digits in Hp; [|done|by apply (forallb_Forall _ _ _ digit_iff)]. destruct (_ <=? _); [|done]. injection Hp as <-.
    split; [destruct digits; [done|len_lia]|]. split; [done|]. split; [done|lia].
  - intros (Hl & Hd & -> & Hr). assert (digits <> []) as Hne by (intros ->; rewrite len_nil in Hl; lia). split_and!; try done; [lia| |lia].
    rewrite parse_uint_digits; [|done|by apply (forallb_Forall _ _ _ digit_iff)]. change (digits_val digits) with (number digits).
    by rewrite (proj2 (Z.leb_le _ _)) by (unfold U16_MAX; lia).
Qed.

Lemma target_iff t host port : target_of t = Ok (host, port) <-> target_says t host port.
Proof.
  rewrite target_of_ok. unfold target_says, MAX_TARGET. split.
  - intros (raw & digits & -> & _ & Hl & _ & _ & Hne & Hl5 & Hd & Hp & H0 & Hn & ->).
    destruct (proj1 (port_iff digits port) ltac:(done)) as (P1 & P2 & P3 & P4). apply root_dot in Hn as (root & Hroot & Hraw & Hn).
    apply labels_iff in Hn as (ls & Hls & Hn). exists ls, root, digits. rewrite <-Hls. split_and!; try done; try lia. rewrite app_assoc. by rewrite <-Hraw.
  - intros (ls & root & digits & -> & Hl & Hn & Hroot & -> & Hpd). apply port_iff in Hpd as (Hne & Hl5 & Hd & Hp & H0).
    assert (dialable (join [DOT] ls)) as Hdial by (apply labels_iff; by exists ls).
    assert (without_suffix [DOT] (join [DOT] ls ++ root) = join [DOT] ls) as Hw.
    { destruct Hroot as [->| ->]; [rewrite app_nil_r; apply without_suffix_id; by apply dialable_end|apply without_suffix_suf]. }
    exists (join [DOT] ls ++ root), digits. rewrite <-app_assoc, Hw. pose proof (dialable_chars _ Hdial) as Hc. pose proof (proj1 (forallb_spec _ _) Hd) as Hdig.
    split_and!; try done.
    + intros Hin. rewrite Forall_forall in Hdig. by apply Hdig in Hin.
    + apply utf8_valid_ascii. unfold is_ascii. rewrite !forallb_app. pose proof (dialable_ascii _ Hdial) as Ha. unfold is_ascii in Ha. rewrite Ha. cbn [forallb].
      assert (forallb (fun b => u8 b <? 128) root = true) as -> by (by destruct Hroot as [->| ->]). cbn. apply forallb_spec. eapply Forall_impl; [exact Hdig|]. by_bytes.
    + apply not_true_is_false. intros (q & Hq)%starts_with_spec. destruct (join [DOT] ls) as [|b j] eqn:Ej.
      * destruct Hdial as [_ (l & Hl' & Ha)]. cbn in Hl'. injection Hl' as <-. done.
      * injection Hq as -> _. apply Forall_cons in Hc as [Hc _]. done.
Qed.

Lemma target_visible t host port : target_says t host port -> Forall (fun b => visible b = true) t.
Proof.
  intros (ls & root & digits & -> & _ & Hn & Hroot & _ & _ & Hd & _). assert (dialable (join [DOT] ls)) as Hdial by (apply labels_iff; by exists ls).
  apply Forall_app. split; [eapply Forall_impl; [exact (dialable_chars _ Hdial)|by_bytes]|]. apply Forall_app. split; [destruct Hroot as [->| ->]; by repeat constructor|].
  constructor; [done|]. eapply Forall_impl; [exact Hd|]. intros b Hb%digit_iff. revert Hb. by_bytes.
Qed.

Lemma request_iff line host port : request_line line = Ok (host, port) <-> request_says line host port.
Proof.
  unfold request_line, request_says. split.
  - destruct (forallb _ line); cbn [negb]; [|done]. destruct (split_on SPACE line) as [|m [|t [|v [|? ?]]]] eqn:Es; try done.
    destruct (bool_decide (m = _)) eqn:Em; cbn [negb]; [|done]. destruct (negb _ && _) eqn:Ev; [done|]. rewrite target_iff. intros Ht.
    exists t, v. bool_to_prop. subst m. split; [by rewrite <-(join_split SPACE line), Es|]. split; [|done]. apply andb_false_iff in Ev as [Ev|Ev]; bool_to_prop; auto.
  - intros (t & v & -> & Hv & Ht). pose proof (target_visible _ _ _ Ht) as Hvis. apply target_iff in Ht. assert (SPACE ∉ t) as Hs by (by eapply visible_not).
    assert (Forall (fun b => visible b = true) v /\ SPACE ∉ v) as [Hvv Hvs] by (destruct Hv as [->| ->]; split; [by repeat constructor|by_decide|by repeat constructor|by_decide]).
    assert (forallb (fun b => bool_decide (b = SPACE) || byte_in 33 126 b) (B "CONNECT" ++ SPACE :: t ++ SPACE :: v) = true) as ->.
    { rewrite forallb_app. apply andb_true_iff. split; [done|]. cbn [forallb]. rewrite forallb_app. cbn [forallb]. rewrite bool_decide_true by done. cbn [orb andb].
      apply andb_true_iff. split; apply forallb_spec; [eapply Forall_impl; [exact Hvis|]|eapply Forall_impl; [exact Hvv|]]; intros b Hb; unfold visible in Hb; rewrite Hb; apply orb_true_r. }
    rewrite split_on_app by by_decide. rewrite split_on_app by done. rewrite split_on_no_sep_id by done. cbn [negb]. rewrite bool_decide_true by done. cbn [negb].
    destruct Hv as [->| ->]; exact Ht.
Qed.

Lemma field_iff line h : field line = Ok h <-> exists name value, field_says line name value /\ h = bool_decide (to_ascii_lowercase name = B "host").
Proof.
  assert (forall name, eq_ignore_ascii_case name (B "host") = bool_decide (to_ascii_lowercase name = B "host")) as Hhost.
  { intros name. apply eq_true_iff_eq. rewrite eq_ignore_case_spec, bool_decide_eq_true. done. }
  unfold field, field_says. split.
  - destruct (_ || _); [done|]. destruct (position _ line) as [i|] eqn:Ep; [|done]. cbn [ok_or mbind result_bind].
    apply position_some in Ep as (name & c & value & -> & <- & Hc & _). apply bool_decide_eq_true in Hc as ->. rewrite upto_app, Hhost.
    replace (from (name ++ COLON :: value) (len name + 1)) with value by (change (COLON :: value) with ([COLON] ++ value); rewrite app_assoc; replace (len name + 1) with (len (name ++ [COLON])) by len_lia; by rewrite from_app).
    case_bool_decide; [done|]. cbn [orb]. destruct (forallb is_token name) eqn:Ht; cbn [negb]; [|done]. destruct (forallb _ value) eqn:Hv; cbn [negb]; [|done].
    intros [= <-]. exists name, value. split; [|done]. split; [done|]. split; [done|]. split; [by apply (forallb_Forall is_token tchar _ tchar_iff)|by apply (forallb_Forall _ vchar _ vchar_iff)].
  - intros (name & value & (-> & Hne & Ht & Hv) & ->). apply (forallb_Forall is_token tchar _ tchar_iff) in Ht. apply (forallb_Forall _ vchar _ vchar_iff) in Hv.
    assert (forall c, is_token c = false -> starts_with [c] (name ++ COLON :: value) = false) as Hs.
    { intros c Hc. apply not_true_is_false. intros (q & Hq)%starts_with_spec. destruct name as [|b name]; [done|]. injection Hq as -> _.
      cbn [forallb] in Ht. rewrite Hc in Ht. done. }
    rewrite (Hs SPACE), (Hs TAB) by done. cbn [orb].
    assert (position (fun b => bool_decide (b = COLON)) (name ++ COLON :: value) = Some (len name)) as ->.
    { apply position_some. exists name, COLON, value. split_and!; [done|done|by apply bool_decide_eq_true|]. apply forallb_spec in Ht. eapply Forall_impl; [exact Ht|].
      intros b Hb. apply bool_decide_eq_false. by intros ->. }
    cbn [ok_or mbind result_bind]. rewrite upto_app, Hhost.
    replace (from (name ++ COLON :: value) (len name + 1)) with value by (change (COLON :: value) with ([COLON] ++ value); rewrite app_assoc; replace (len name + 1) with (len (name ++ [COLON])) by len_lia; by rewrite from_app).
    rewrite bool_decide_false by done. cbn [orb]. by rewrite Ht, Hv.
Qed.

(** ** The lines of a request *)

(** A raw line with its newline is its text and one of the endings. *)
Lemma raw_ending raw : exists e, eol e /\ raw ++ [LF] = text_of raw ++ e.
Proof.
  unfold text_of, eol, CRLF. destruct (without_suffix_cases [CR] raw) as [He|[He _]].
  - exists [CR; LF]. split; [by left|]. rewrite He at 1. by rewrite <-app_assoc.
  - exists [LF]. split; [by right|]. by rewrite He.
Qed.

Lemma ending_raw t e : eol e -> CR ∉ t -> LF ∉ t -> exists raw, LF ∉ raw /\ raw ++ [LF] = t ++ e /\ text_of raw = t.
Proof.
  intros [->| ->] Hcr Hlf.
  - exists (t ++ [CR]). split; [by intros [?|?%list_elem_of_singleton]%elem_of_app|]. split; [by rewrite <-app_assoc|]. apply without_suffix_suf.
  - exists t. split; [done|]. split; [done|]. apply without_suffix_id. intros p ->. apply Hcr, elem_of_app. right. by left.
Qed.

Lemma line_at_split p s a b raw : len p = a -> line_at (p ++ s) a b raw <-> LF ∉ raw /\ exists q, s = raw ++ [LF] ++ q /\ b = a + len raw + 1.
Proof.
  intros <-. unfold line_at. split.
  - intros (Hr & p' & q & Heq & Hp & Hb). apply app_len_inj in Heq as [<- ->]; [|done]. split; [done|]. by exists q.
  - intros (Hr & q & -> & Hb). split; [done|]. by exists p, q.
Qed.

Lemma field_says_clean line name value : field_says line name value -> CR ∉ line /\ LF ∉ line /\ line <> [].
Proof.
  intros (-> & Hne & Hn & Hv). assert (forall c, ~ tchar c -> ~ vchar c -> c <> COLON -> c ∉ name ++ COLON :: value) as Hc.
  { intros c Ht Hvc Hcol [Hin|[->|Hin]%elem_of_cons]%elem_of_app; [rewrite Forall_forall in Hn; by apply Ht, Hn|done|rewrite Forall_forall in Hv; by apply Hvc, Hv]. }
  split; [|split; [|by destruct name]]; apply Hc; try done; rewrite <-?tchar_iff, <-?vchar_iff; done.
Qed.

(** The fields of a block with what is after it, and the lines the loop sees. *)
Definition hosts_of (fields : list (bytes * bytes * bytes)) : list (bytes * bytes * bytes) :=
  List.filter (fun f => bool_decide (to_ascii_lowercase f.1.1 = B "host")) fields.

Definition block_says (s : bytes) (fields : list (bytes * bytes * bytes)) (e rest : bytes) : Prop :=
  s = concat (map written fields) ++ e ++ rest /\ Forall field_wf fields /\ eol e.

Lemma is_host_iff raw name value : field_says (text_of raw) name value -> is_host raw = bool_decide (to_ascii_lowercase name = B "host").
Proof.
  intros Hf. unfold is_host. assert (field (text_of raw) = Ok (bool_decide (to_ascii_lowercase name = B "host"))) as -> by (apply field_iff; by exists name, value).
  by destruct (bool_decide _).
Qed.

Lemma block_read buf a raws c : header_block buf a raws c -> forall p s, buf = p ++ s -> len p = a ->
  exists fields e rest, block_says s fields e rest /\ c = a + len s - len rest /\ len fields = len raws /\ len (hosts_of fields) = count_hosts raws /\ c <= MAX_HEADERS.
Proof.
  induction 1 as [a b raw Hl Ht Hm|a b c raw raws h Hl Ht Hf _ IH]; intros p s -> Hp.
  - apply line_at_split in Hl as (_ & q & -> & ->); [|done]. destruct (raw_ending raw) as (e & He & Hr). rewrite Ht in Hr. exists [], e, q. split_and!; try done.
    + split; [by rewrite app_assoc, Hr|]. by split.
    + len_lia.
  - apply line_at_split in Hl as (_ & q & -> & ->); [|done]. destruct (raw_ending raw) as (e & He & Hr). apply field_iff in Hf as (name & value & Hs & ->).
    destruct (IH (p ++ raw ++ [LF]) q) as (fields & e' & rest & (-> & Hw & He') & -> & Hlen & Hhosts & Hm); [by rewrite <-!app_assoc|len_lia|].
    assert (written (name, value, e) = raw ++ [LF]) as Hwr by (rewrite Hr; destruct Hs as [-> _]; unfold written; cbn; by rewrite <-app_assoc).
    exists ((name, value, e) :: fields), e', rest. split_and!.
    + split; [cbn [map concat]; rewrite Hwr, <-!app_assoc; done|]. split; [|done]. constructor; [|done]. split; [by exists (text_of raw)|done].
    + len_lia.
    + len_lia.
    + unfold hosts_of in *. cbn [List.filter count_hosts fst]. rewrite (is_host_iff raw name value Hs). destruct (bool_decide _); len_lia.
    + done.
Qed.

Lemma block_written fields : forall p e rest, Forall field_wf fields -> eol e -> len p + len (concat (map written fields) ++ e) <= MAX_HEADERS ->
  exists raws, header_block (p ++ concat (map written fields) ++ e ++ rest) (len p) raws (len p + len (concat (map written fields) ++ e)) /\
    len raws = len fields /\ count_hosts raws = len (hosts_of fields).
Proof.
  induction fields as [|[[name value] e'] fields IH]; intros p e rest Hw He Hm.
  - destruct (ending_raw [] e He) as (raw & Hraw & Hr & Ht); [by apply not_elem_of_nil..|]. exists []. cbn [map concat app] in *. split; [|done]. eapply block_end; [|exact Ht|done].
    apply line_at_split; [done|]. split; [done|]. exists rest. rewrite <-Hr, <-app_assoc. split; [done|len_lia].
  - apply Forall_cons in Hw as [[[line Hs] He'] Hw]. cbn [fst snd] in *. destruct (field_says_clean _ _ _ Hs) as (Hcr & Hlf & Hne).
    destruct (ending_raw line e' He' Hcr Hlf) as (raw & Hraw & Hr & Ht).
    assert (written (name, value, e') = raw ++ [LF]) as Hwr by (rewrite Hr; destruct Hs as [-> _]; unfold written; cbn; by rewrite <-app_assoc).
    cbn [map concat] in *. rewrite Hwr in *. destruct (IH (p ++ raw ++ [LF]) e rest Hw He) as (raws & Hb & Hlen & Hc); [len_lia|].
    rewrite <-!app_assoc in Hb.
    replace (len (p ++ raw ++ [LF])) with (len p + len raw + 1) in Hb by len_lia.
    assert (line_at (p ++ raw ++ [LF] ++ concat (map written fields) ++ e ++ rest) (len p) (len p + len raw + 1) raw) as Hline
      by (apply line_at_split; [done|]; split; [done|]; by eexists).
    exists (raw :: raws). split_and!.
    + rewrite <-!app_assoc. replace (len p + len (raw ++ [LF] ++ concat (map written fields) ++ e)) with (len p + len raw + 1 + len (concat (map written fields) ++ e)) by len_lia.
      eapply block_field; [exact Hline|by rewrite Ht|apply field_iff; rewrite Ht; by exists name, value|exact Hb].
    + len_lia.
    + unfold hosts_of in *. cbn [List.filter count_hosts fst]. rewrite <-Ht in Hs. rewrite (is_host_iff raw name value Hs), Hc. destruct (bool_decide _); len_lia.
Qed.

End Http.
Import Http.

(** ** Properties *)

Lemma parse_total buf : parse buf <> None.
Proof.
  unfold parse. destruct (split_line _ _ _ _) as [[line a]|]; [|done].
  destruct (request_line line) as [[host port]|]; [|done].
  destruct (headers _ _ _ _ _) as [[[c n]|]|] eqn:Eh; [by destruct (n =? 1)|done|].
  apply headers_total in Eh; [done|]. unfold MAX_HEADER_COUNT. lia.
Qed.

(** The parser always comes to an answer, and the answer stays inside what
    was read: a request it accepts took at least one byte and at most what is
    there, and never more than the header limit; it asks for more bytes only
    while at most that limit has been read, so reading to fill a buffer of that
    size always ends the wait. *)
Theorem connect_parse_decides buf :
  exists a, parse buf = Some a /\
  match a with
  | Ok r => 0 < consumed r <= len buf /\ consumed r <= MAX_HEADERS
  | Err e => e = Status.INCOMPLETE -> len buf <= MAX_HEADERS
  end.
Proof.
  destruct (parse buf) as [[r|e]|] eqn:E; [exists (Ok r)|exists (Err e)|]; (split; [done|]) || idtac.
  - apply parse_ok in E as (line & raws & a & Hl%line_at_bounds & _ & _ & Hb%header_block_bounds & _). len_lia.
  - intros ->. unfold parse in E. destruct (split_line _ _ _ _) as [[line a]|e] eqn:Es.
    + destruct (request_line line) as [[host port]|e] eqn:Er.
      2:{ injection E as ->. by apply request_line_not_incomplete in Er. }
      destruct (headers _ _ _ _ _) as [[[c n]|]|] eqn:Eh; [by destruct (n =? 1)| |done].
      injection E as ->. apply split_line_ok in Es as (raw & Hl%line_at_bounds & _ & _); [|len_lia].
      eapply headers_incomplete in Eh; [done|lia].
    + injection E as ->. apply split_line_incomplete in Es as [?|?]; [done| |len_lia].
      rewrite MAX_HEADERS_val. unfold MAX_REQUEST_LINE in *. lia.
  - by apply parse_total in E.
Qed.

(** Reading in pieces cannot change an answer: once the parser has said
    anything but "incomplete", bytes that arrive later do not matter, so the
    same bytes give the same target however they were split. *)
Theorem connect_parse_stable buf more :
  parse buf <> Some (Err Status.INCOMPLETE) -> parse (buf ++ more) = parse buf.
Proof.
  unfold parse. intros Hne. destruct (split_line buf 0 _ _) as [[line a]|e] eqn:Es.
  - rewrite split_line_more, Es by (len_lia || congruence).
    destruct (request_line line) as [[host port]|]; [|done].
    apply split_line_ok in Es as (raw & Hl%line_at_bounds & _ & _); [|len_lia].
    rewrite headers_more; [done|lia|]. intros Hh. by rewrite Hh in Hne.
  - rewrite split_line_more, Es by (len_lia || congruence). done.
Qed.

Lemma connect_parse_stable_witness :
  parse (request_text (B "Api.example") 443 ++ B "tunnel") = parse (request_text (B "Api.example") 443).
Proof. apply connect_parse_stable. vm_compute. congruence. Defined.

(** C36. What an accepted request is, exactly, byte by byte: a request-line of the grammar
    above that takes at most 512 bytes with its end, at most 64 fields of which exactly one
    is [Host], and an empty line, all within 8192 bytes, each line ended by CRLF or by LF
    alone.  The target comes from the request-line alone, in lower case; it is a name and a
    port from 1 to 65535, never an address; and what [consumed] leaves is what follows the
    empty line. *)
Theorem connect_parse_iff buf r :
  parse buf = Some (Ok r) <->
  exists line e0 fields e1 rest,
    buf = line ++ e0 ++ concat (map written fields) ++ e1 ++ rest /\
    request_says line (r_host r) (r_port r) /\ eol e0 /\ len (line ++ e0) <= 512 /\
    Forall field_wf fields /\ len fields <= 64 /\ len (hosts_of fields) = 1 /\
    eol e1 /\ consumed r = len buf - len rest /\ consumed r <= 8192.
Proof.
  rewrite parse_ok. split.
  - intros (raw & raws & a & Hl & Ha & Hr & Hb & Hc & Hn). apply request_iff in Hr. apply (line_at_split [] buf 0) in Hl as (_ & q & -> & ->); [|done]. cbn [app] in *.
    destruct (raw_ending raw) as (e0 & He0 & Hraw). destruct (block_read _ _ _ _ Hb (raw ++ [LF]) q) as (fields & e1 & rest & (-> & Hw & He1) & -> & Hlen & Hhosts & Hm); [by rewrite <-app_assoc|len_lia|].
    exists (text_of raw), e0, fields, e1, rest. rewrite <-Hraw. unfold MAX_REQUEST_LINE, MAX_HEADER_COUNT in *. rewrite MAX_HEADERS_val in Hm.
    split_and!; try done; try len_lia. by rewrite (app_assoc (text_of raw)), <-Hraw, <-app_assoc.
  - intros (line & e0 & fields & e1 & rest & -> & Hr & He0 & Hl & Hw & Hn & Hh & He1 & Hc & Hm).
    assert (CR ∉ line /\ LF ∉ line) as [Hcr Hlf].
    { destruct Hr as (t & v & -> & Hv & Ht). apply target_visible in Ht. assert (forall c, c ∉ B "CONNECT" -> c <> SPACE -> visible c = false -> c ∉ v -> c ∉ B "CONNECT" ++ SPACE :: t ++ SPACE :: v) as Hno.
      { intros c H1 H2 H3 H4. rewrite elem_of_app, elem_of_cons, elem_of_app, elem_of_cons. pose proof (visible_not c t Ht H3). tauto. }
      split; apply Hno; try done; try (by destruct Hv as [->| ->]; by_decide); by_decide. }
    destruct (ending_raw line e0 He0 Hcr Hlf) as (raw & Hraw & Hr0 & Ht). rewrite app_assoc in Hc |- *. rewrite <-Hr0 in *.
    destruct (block_written fields (raw ++ [LF]) e1 rest Hw He1) as (raws & Hb & Hlen & Hcount); [rewrite MAX_HEADERS_val; len_lia|].
    exists raw, raws, (len (raw ++ [LF])). unfold MAX_REQUEST_LINE, MAX_HEADER_COUNT. split_and!; [|done|by rewrite Ht; apply request_iff| |lia|lia].
    + apply (line_at_split [] _ 0); [done|]. split; [done|]. exists (concat (map written fields) ++ e1 ++ rest). split; [rewrite (app_assoc raw [LF]); reflexivity|len_lia].
    + replace (consumed r) with (len (raw ++ [LF]) + len (concat (map written fields) ++ e1)) by len_lia. exact Hb.
Qed.

(** Only a name is ever accepted as a target: its labels are lower-case
    LDH labels, the last one is not all digits (so it is no IPv4 address), it
    carries no root dot, and the port is between 1 and 65535. *)
Theorem connect_target_is_name buf r :
  parse buf = Some (Ok r) ->
  wf_pattern (HostPattern.mk (split_on DOT (r_host r)) false) /\ 1 <= r_port r <= 65535 /\
  is_ascii (r_host r) = true /\ len (r_host r) <= 257.
Proof.
  intros (line & raws & a & _ & _ & Hr & _)%parse_ok. unfold request_line in Hr.
  destruct (negb _); [done|]. destruct (split_on SPACE _) as [|m [|t [|v [|? ?]]]]; try done.
  destruct (negb (bool_decide (m = _))); [done|]. destruct (_ && _); [done|].
  apply target_of_ok in Hr as (raw & ds & -> & _ & Hl & _ & _ & Hne & Hl5 & Hd & Hp & H0 & Hh & ->).
  apply parse_uint_range in Hp. unfold U16_MAX, MAX_TARGET in *.
  split_and!; [by apply dialable_wf|lia|lia| |].
  - apply dialable_ascii, forallb_spec in Hh. unfold to_ascii_lowercase.
    apply forallb_spec, Forall_map. eapply Forall_impl; [done|]. by_bytes.
  - rewrite len_lowercase. pose proof (without_suffix_len [DOT] raw).
    destruct ds; [done|]. len_lia.
Qed.

Lemma connect_target_is_name_witness :
  exists r, parse (request_text (B "Api.example.") 443) = Some (Ok r) /\
    wf_pattern (HostPattern.mk (split_on DOT (r_host r)) false).
Proof.
  eexists. split; [vm_compute; reflexivity|].
  apply (connect_target_is_name (request_text (B "Api.example.") 443)). vm_compute. reflexivity.
Defined.

(** The request a client writes for a target is read as that target, in
    lower case, and the bytes after it are left for the tunnel. *)
Theorem connect_request_roundtrip host port more :
  dialable host -> len host <= 253 -> 1 <= port <= 65535 ->
  parse (request_text host port ++ more)
  = Some (Ok (mkRequest (to_ascii_lowercase host) port (len (request_text host port)))) /\
  from (request_text host port ++ more) (len (request_text host port)) = more.
Proof.
  intros Hh Hl Hp. split; [|apply from_app]. apply parse_ok.
  pose proof (authority_visible host port Hh ltac:(lia)) as Hv.
  assert (len (authority host port) <= 259) as Hla.
  { unfold authority. pose proof (len_port_digits port ltac:(lia)). len_lia. }
  set (au := authority host port) in *. assert (LF ∉ au) as Hlf by (by eapply visible_not).
  set (l1 := B "CONNECT " ++ au ++ B " HTTP/1.1" ++ [CR]).
  set (l2 := B "Host: " ++ au ++ [CR]).
  assert (LF ∉ l1 /\ LF ∉ l2) as [Hl1 Hl2].
  { unfold l1, l2. rewrite !not_elem_of_app. split_and!; done || by_decide. }
  assert (request_text host port ++ more = [] ++ l1 ++ LF :: l2 ++ LF :: [CR] ++ LF :: more) as E.
  { unfold request_text, l1, l2, CRLF. fold au. rewrite <-!app_assoc. done. }
  exists l1, [l2], (0 + len l1 + 1). cbn [r_host r_port consumed].
  assert (len l1 <= 259 + 18 /\ len l2 <= 259 + 7) as [Hn1 Hn2].
  { unfold l1, l2. autorewrite with len. lit_len. lia. }
  assert (len (request_text host port) = len l1 + len l2 + 4) as ->.
  { apply (f_equal len) in E. autorewrite with len in E. lia. }
  split_and!; [| | | | |done].
  - rewrite E. by apply line_at_here.
  - unfold MAX_REQUEST_LINE. lia.
  - unfold l1. rewrite !app_assoc, text_of_cr, <-app_assoc.
    by apply request_line_authority; unfold U16_MAX.
  - replace (len l1 + len l2 + 4) with (0 + len l1 + 1 + len l2 + 1 + len [CR] + 1) by len_lia.
    eapply (block_field _ _ (0 + len l1 + 1 + len l2 + 1) _ _ _ true).
    + rewrite E, app_nil_l, (cons_middle LF l1), app_assoc. apply line_at_here; [done|len_lia].
    + unfold l2. rewrite app_assoc, text_of_cr. done.
    + unfold l2. rewrite app_assoc, text_of_cr. apply field_host_authority; [done|lia].
    + eapply (block_end _ _ _ [CR]); [|done|rewrite MAX_HEADERS_val; len_lia].
      rewrite E. replace ([] ++ l1 ++ LF :: l2 ++ LF :: [CR] ++ LF :: more)
        with ((l1 ++ LF :: l2 ++ [LF]) ++ [CR] ++ LF :: more) by (rewrite <-!app_assoc; cbn; by rewrite <-!app_assoc).
      apply line_at_here; [by_decide|len_lia].
  - unfold count_hosts, is_host, l2. rewrite app_assoc, text_of_cr. unfold au.
    by rewrite field_host_authority by (done || lia).
Qed.

Lemma connect_request_roundtrip_witness :
  parse (request_text (B "API.example") 443 ++ B "rest")
  = Some (Ok (mkRequest (B "api.example") 443 (len (request_text (B "API.example") 443)))).
Proof.
  apply connect_request_roundtrip; [|vm_compute; congruence|lia].
  split; [repeat constructor|]. eexists. split; reflexivity.
Defined.
