(* ===== verification/Io.v ===== *)
(** The operating system as the egress proxy uses it.

    An effect is a function of the world: [io W A] takes the state of the world
    before a call and gives the call's result with the state after it.  [Os] is
    the interface the proxy's components are written against: one operation per
    call of the standard library they make, for an abstract type of worlds.
    [OsLaws] is what they rely on of it, and is the documented behaviour of
    those calls.  Times are nanoseconds. *)
From S2P Require Export Text.

Inductive ErrorKind := Interrupted | WouldBlock | TimedOut | UnexpectedEof | KindOther.

#[global] Instance ErrorKind_eq_dec : EqDecision ErrorKind.
Proof. solve_decision. Defined.

Record io_error := mkError { kind : ErrorKind; text : bytes }.

#[global] Instance io_error_eq_dec : EqDecision io_error.
Proof. solve_decision. Defined.

(** [io::Error::other]. *)
Definition other (text : bytes) : io_error := mkError KindOther text.

Definition io (W A : Type) : Type := W -> result io_error A * W.

#[global] Instance io_ret W : MRet (io W) := fun A a w => (Ok a, w).
#[global] Instance io_bind W : MBind (io W) := fun A B f m w =>
  match m w with
  | (Ok a, w) => f a w
  | (Err e, w) => (Err e, w)
  end.

Definition lift {W A} (r : result io_error A) : io W A := fun w => (r, w).

(** A call that cannot fail. *)
Definition call {W A} (f : W -> A * W) : io W A := fun w => let '(a, w) := f w in (Ok a, w).

Lemma io_bind_ok {W A B} (m : io W A) (f : A -> io W B) w b w' :
  (m ≫= f) w = (Ok b, w') <-> exists a w1, m w = (Ok a, w1) /\ f a w1 = (Ok b, w').
Proof.
  unfold mbind, io_bind. destruct (m w) as [[a|e] w1]; split.
  - intros H. by exists a, w1.
  - by intros (a' & w1' & [= <- <-] & H).
  - done.
  - by intros (a' & w1' & ? & _).
Qed.

(** [IpAddr]: four or sixteen octets, and [SocketAddr]. *)
Inductive IpAddr := V4 (octets : bytes) | V6 (octets : bytes).

#[global] Instance IpAddr_eq_dec : EqDecision IpAddr.
Proof. solve_decision. Defined.

Record SocketAddr := mkAddr { ip : IpAddr; port : Z }.

#[global] Instance SocketAddr_eq_dec : EqDecision SocketAddr.
Proof. solve_decision. Defined.

Inductive Shutdown := ShutWrite | ShutBoth.

(** [PollFlags], the four the relay knows. *)
Record PollFlags := mkFlags { IN : bool; OUT : bool; HUP : bool; ERR : bool }.
Definition no_flags : PollFlags := mkFlags false false false false.
Definition flags_empty (f : PollFlags) : bool := negb (IN f || OUT f || HUP f || ERR f).
Definition flags_or (a b : PollFlags) : PollFlags :=
  mkFlags (IN a || IN b) (OUT a || OUT b) (HUP a || HUP b) (ERR a || ERR b).
Definition intersects (a b : PollFlags) : bool :=
  (IN a && IN b) || (OUT a && OUT b) || (HUP a && HUP b) || (ERR a && ERR b).
Definition contains (a b : PollFlags) : bool :=
  implb (IN b) (IN a) && implb (OUT b) (OUT a) && implb (HUP b) (HUP a) && implb (ERR b) (ERR a).

(** The calls, over worlds [W] and socket handles [sock]. *)
Class Os (W sock : Type) := {
  now : W -> Z * W;
  system_nanos : W -> Z * W;
  sleep : Z -> W -> W;
  (** [getrandom(2)] of so many bytes: what it filled, or nothing. *)
  getrandom : Z -> W -> option bytes * W;
  udp_bind : SocketAddr -> io W sock;
  udp_connect : sock -> SocketAddr -> io W unit;
  udp_send : sock -> bytes -> io W Z;
  (** [recv] into a buffer of so many bytes. *)
  udp_recv : sock -> Z -> io W bytes;
  tcp_connect : SocketAddr -> Z -> io W sock;
  set_read_timeout : sock -> option Z -> io W unit;
  set_write_timeout : sock -> option Z -> io W unit;
  set_nonblocking : sock -> bool -> io W unit;
  set_nodelay : sock -> bool -> io W unit;
  (** [read] into a buffer of so many bytes; nothing is the end of the stream. *)
  read : sock -> Z -> io W bytes;
  (** [write]: how many of the bytes went out. *)
  write : sock -> bytes -> io W Z;
  write_all : sock -> bytes -> io W unit;
  read_exact : sock -> Z -> io W bytes;
  shutdown : sock -> Shutdown -> io W unit;
  (** [poll] under [retry_on_intr]: how many entries have news, and the news. *)
  poll : list (sock * PollFlags) -> Z -> io W (Z * list PollFlags);
}.

Class OsLaws (W sock : Type) `{Os W sock} := {
  read_len s n w b w' : 0 <= n -> read s n w = (Ok b, w') -> len b <= n;
  write_len s b w n w' : write s b w = (Ok n, w') -> 0 <= n <= len b;
  udp_recv_len s n w b w' : 0 <= n -> udp_recv s n w = (Ok b, w') -> len b <= n;
  read_exact_len s n w b w' : 0 <= n -> read_exact s n w = (Ok b, w') -> len b = n;
  now_monotone w t w' t' w'' : now w = (t, w') -> now w' = (t', w'') -> t <= t';
}.

(** ** Writing down what an operating system was asked

    [logged] instruments any [Os]: it behaves as that one does and also keeps
    the events the safety theorems are about.  Code written against [Os] cannot
    tell. *)

Inductive event (sock : Type) :=
| ERead (s : sock) (b : bytes)
| EWrite (s : sock) (b : bytes)
| EShut (s : sock)
| EConnect (a : SocketAddr)
| EUdp (a : SocketAddr).
Arguments ERead {sock} s b.
Arguments EWrite {sock} s b.
Arguments EShut {sock} s.
Arguments EConnect {sock} a.
Arguments EUdp {sock} a.

#[global] Instance event_eq_dec sock `{EqDecision sock} : EqDecision (event sock).
Proof. solve_decision. Defined.

Section Logged.
Context {W sock : Type} `{EqDecision sock} `{Os W sock}.

Definition silent {A} (m : io W A) : io (W * list (event sock)) A := fun '(w, log) =>
  let '(r, w) := m w in (r, (w, log)).
Definition silent' {A} (m : W -> A * W) : W * list (event sock) -> A * (W * list (event sock)) :=
  fun '(w, log) => let '(a, w) := m w in (a, (w, log)).
Definition noted {A} (m : io W A) (ev : A -> event sock) : io (W * list (event sock)) A :=
  fun '(w, log) => match m w with
  | (Ok a, w) => (Ok a, (w, log ++ [ev a]))
  | (Err e, w) => (Err e, (w, log))
  end.
(** Noted whether or not the call succeeds. *)
Definition before {A} (ev : event sock) (m : io W A) : io (W * list (event sock)) A :=
  fun '(w, log) => let '(r, w) := m w in (r, (w, log ++ [ev])).

Definition logged : Os (W * list (event sock)) sock := {|
  now := silent' now; system_nanos := silent' system_nanos;
  sleep d := fun '(w, log) => (sleep d w, log); getrandom n := silent' (getrandom n);
  udp_bind a := silent (udp_bind a); udp_connect s a := before (EUdp a) (udp_connect s a);
  udp_send s b := silent (udp_send s b); udp_recv s n := silent (udp_recv s n);
  tcp_connect a t := before (EConnect a) (tcp_connect a t);
  set_read_timeout s t := silent (set_read_timeout s t);
  set_write_timeout s t := silent (set_write_timeout s t);
  set_nonblocking s b := silent (set_nonblocking s b); set_nodelay s b := silent (set_nodelay s b);
  read s n := noted (read s n) (ERead s);
  write s b := noted (write s b) (fun n => EWrite s (upto b n));
  write_all s b := noted (write_all s b) (fun _ => EWrite s b);
  read_exact s n := noted (read_exact s n) (ERead s);
  shutdown s how := before (EShut s) (shutdown s how);
  poll fds t := silent (poll fds t) |}.

(** The bytes read from a socket, and written to it, in order. *)
Definition reads (s : sock) (log : list (event sock)) : bytes :=
  concat (map (fun e => match e with ERead s' b => if decide (s' = s) then b else [] | _ => [] end) log).
Definition writes (s : sock) (log : list (event sock)) : bytes :=
  concat (map (fun e => match e with EWrite s' b => if decide (s' = s) then b else [] | _ => [] end) log).

Lemma reads_app s l k : reads s (l ++ k) = reads s l ++ reads s k.
Proof. unfold reads. by rewrite map_app, concat_app. Qed.
Lemma writes_app s l k : writes s (l ++ k) = writes s l ++ writes s k.
Proof. unfold writes. by rewrite map_app, concat_app. Qed.

End Logged.
