(* ===== verification/NetDns.v ===== *)
(** The egress proxy's own DNS client: [crates/bubbler-net-proxy/src/dns.rs].

    [Reader] is the cursor over one message; its operations are a state monad
    [rd] over the position, the message being fixed.  The name decompressor has
    fuel, and [name_loop_total] shows that [NAME_FUEL] is always enough: each
    turn of the loop either lengthens the name, which is bounded, or takes one
    more of the counted jumps. *)
From S2P Require Export Io NetAllow.

Definition PORT : Z := 53.
Definition TIMEOUT : Z := from_secs 2.
Definition TRIES : nat := 3.
Definition BUDGET : Z := from_secs 10.
Definition MAX_UDP : Z := 4096.
Definition MAX_TCP : Z := 8192.
Definition MAX_NAME : Z := 255.
Definition MAX_LABEL : Z := 63.
Definition MAX_JUMPS : Z := 16.
Definition MAX_RECORDS : Z := 32.
Definition MAX_CNAMES : nat := 8.
Definition TYPE_A : Z := 1.
Definition TYPE_CNAME : Z := 5.
Definition TYPE_AAAA : Z := 28.
Definition CLASS_IN : Z := 1.

Inductive DnsError := Short | Name | Pointer | LabelType | NotAnAnswer | Question | Class_.

#[global] Instance DnsError_eq_dec : EqDecision DnsError.
Proof. solve_decision. Defined.

(** The texts of the errors. *)
Definition dns_text (e : DnsError) : bytes :=
  match e with
  | Short => B "the answer ends in the middle of a field"
  | Name => B "a name or a label is longer than DNS allows"
  | Pointer => B "a compression pointer does not point backwards"
  | LabelType => B "a label type this parser does not have"
  | NotAnAnswer => B "the message is not an answer"
  | Question => B "the answer does not carry exactly one question"
  | Class_ => B "the answer is to a question of another class"
  end.

Record Reply := mkReply {
  id : Z; truncated : bool; rcode : Z; asked : bytes * Z; addresses : list IpAddr }.

#[global] Instance Reply_eq_dec : EqDecision Reply.
Proof. solve_decision. Defined.

Inductive Data := DV4 (octets : bytes) | DV6 (octets : bytes) | Cname (to : bytes) | DOther.

#[global] Instance Data_eq_dec : EqDecision Data.
Proof. solve_decision. Defined.

Record RRecord := mkRecord { owner : bytes; data : Data }.

#[global] Instance RRecord_eq_dec : EqDecision RRecord.
Proof. solve_decision. Defined.

Definition rd (A : Type) : Type := Z -> result DnsError (A * Z).

#[global] Instance rd_ret : MRet rd := fun A a at_ => Ok (a, at_).
#[global] Instance rd_bind : MBind rd := fun A B f m at_ =>
  match m at_ with Ok (a, at_) => f a at_ | Err e => Err e end.

Definition fail {A} (e : DnsError) : rd A := fun _ => Err e.

Module Reader.
Section Reader.
Context (msg : bytes).

Definition u8 : rd Z := fun at_ =>
  match get msg at_ with Some b => Ok (Bytes.u8 b, at_ + 1) | None => Err Short end.

Definition u16 : rd Z := a ← u8; b ← u8; mret (a * 256 + b).

Definition u32 : rd Z :=
  a ← u8; b ← u8; c ← u8; d ← u8; mret (((a * 256 + b) * 256 + c) * 256 + d).

Definition seek (to : Z) : rd unit := fun _ =>
  if to >? len msg then Err Short else Ok (tt, to).

(** The loop of [name]: the text so far, the position, the jumps taken and the
    end of the name as it stands in the message, once that is known. *)
Fixpoint name_loop (fuel : nat) (out : bytes) (at_ jumps : Z) (end_ : option Z)
  : option (result DnsError (bytes * Z)) :=
  match fuel with
  | O => None
  | S fuel =>
    match get msg at_ with
    | None => Some (Err Short)
    | Some b =>
      let len_ := Bytes.u8 b in
      let top := Z.land len_ 192 in
      if top =? 0 then
        let n := len_ in
        let at_ := at_ + 1 in
        if n =? 0 then Some (Ok (out, default at_ end_))
        else match slice msg at_ (at_ + n) with
        | None => Some (Err Short)
        | Some label =>
          if len out + n + 1 >? MAX_NAME then Some (Err Name)
          else
            let out := if bool_decide (out = []) then out else out ++ [DOT] in
            let out := out ++ concat (map (fun b => push_latin1 (lower_byte b)) label) in
            name_loop fuel out (at_ + n) jumps end_
        end
      else if top =? 192 then
        let hi := Z.land len_ 63 in
        match get msg (at_ + 1) with
        | None => Some (Err Short)
        | Some lo =>
          let to := Z.lor (Z.shiftl hi 8) (Bytes.u8 lo) in
          let end_ := Some (default (at_ + 2) end_) in
          if to >=? at_ then Some (Err Pointer)
          else
            let jumps := jumps + 1 in
            if jumps >? MAX_JUMPS then Some (Err Pointer)
            else name_loop fuel out to jumps end_
        end
      else Some (Err LabelType)
    end
  end.

Definition NAME_FUEL : nat := 300.

Definition name : rd bytes := fun at_ =>
  default (Err Pointer) (name_loop NAME_FUEL [] at_ 0 None).

Definition record_data (class rtype from end_ : Z) : result DnsError Data :=
  let rdata := default [] (slice msg from end_) in
  if (class =? CLASS_IN) && (rtype =? TYPE_A) && (end_ - from =? 4) then Ok (DV4 rdata)
  else if (class =? CLASS_IN) && (rtype =? TYPE_AAAA) && (end_ - from =? 16) then Ok (DV6 rdata)
  else if (class =? CLASS_IN) && (rtype =? TYPE_CNAME) then
    match name from with Ok (to, _) => Ok (Cname to) | Err e => Err e end
  else Ok DOther.

(** What [record] does with the five fields it has read, at [from]. *)
Definition record_rest (name : bytes) (rtype class len_ : Z) : rd RRecord := fun from =>
  match checked_add from len_ with
  | None => Err Short
  | Some end_ =>
    if end_ >? len msg then Err Short
    else match record_data class rtype from end_ with
    | Err e => Err e
    | Ok data => (_ ← seek end_; mret (mkRecord name data)) from
    end
  end.

Definition record : rd RRecord :=
  name ← name; rtype ← u16; class ← u16; _ ← u32; len_ ← u16;
  record_rest name rtype class len_.

Fixpoint records (n : nat) : rd (list RRecord) :=
  match n with
  | O => mret []
  | S n => r ← record; rs ← records n; mret (r :: rs)
  end.

End Reader.
End Reader.

Definition as_u16 (n : Z) : Z := if n <=? U16_MAX then n else U16_MAX.

(** One pass of [chain] over the records: the addresses and the first [CNAME]
    the target owns. *)
Definition chain_step (target : bytes) (acc : list IpAddr * option bytes) (r : RRecord)
  : list IpAddr * option bytes :=
  let '(out, next) := acc in
  if negb (bool_decide (owner r = target)) then acc
  else match data r with
  | DV4 a => (out ++ [V4 a], next)
  | DV6 a => (out ++ [V6 a], next)
  | Cname to => match next with None => (out, Some to) | Some _ => acc end
  | DOther => acc
  end.

Fixpoint chain_loop (turns : nat) (target : bytes) (records : list RRecord) (out : list IpAddr)
  : list IpAddr :=
  match turns with
  | O => out
  | S turns =>
    let '(out, next) := foldl (chain_step target) (out, None) records in
    if negb (bool_decide (out = [])) then out
    else match next with
    | Some to => chain_loop turns to records out
    | None => out
    end
  end.

Definition chain (name : bytes) (records : list RRecord) : list IpAddr :=
  chain_loop MAX_CNAMES name records [].

Definition parse_reply (msg : bytes) : rd Reply :=
  id ← Reader.u16 msg;
  flags ← Reader.u16 msg;
  questions ← Reader.u16 msg;
  answers ← Reader.u16 msg;
  _ ← Reader.u16 msg;
  _ ← Reader.u16 msg;
  if Z.land flags 32768 =? 0 then fail NotAnAnswer
  else if negb (questions =? 1) then fail Question
  else
    name ← Reader.name msg;
    qtype ← Reader.u16 msg;
    class ← Reader.u16 msg;
    if negb (class =? CLASS_IN) then fail Class_
    else
      records ← Reader.records msg (Z.to_nat (Z.min answers (as_u16 MAX_RECORDS)));
      mret (mkReply id (negb (Z.land flags 512 =? 0)) (Z.land flags 15) (name, qtype)
              (chain name records)).

Definition parse (msg : bytes) : result DnsError Reply :=
  match parse_reply msg 0 with Ok (r, _) => Ok r | Err e => Err e end.

Definition checked (msg : bytes) (id_ : Z) (name : bytes) (qtype : Z) : result io_error Reply :=
  reply ← map_err (fun e => other (dns_text e)) (parse msg);
  if negb (id reply =? id_) then Err (other (B "an answer carrying another id"))
  else
    let want := to_ascii_lowercase (without_suffix [DOT] name) in
    if negb (bool_decide (asked reply = (want, qtype)))
    then Err (other (B "an answer to another question"))
    else if (rcode reply =? 0) || (rcode reply =? 3) then Ok reply
    else Err (other (B "the resolver answered with rcode " ++ decimal (rcode reply))).

Fixpoint encode_labels (labels : list bytes) : result io_error bytes :=
  match labels with
  | [] => Ok [to_u8 0]
  | label :: labels =>
      if (len label >? U8_MAX) || negb ((len label >? 0) && (len label <=? MAX_LABEL))
      then Err (other (B "a label of no length DNS carries"))
      else rest ← encode_labels labels; Ok (to_u8 (len label) :: label ++ rest)
  end.

Definition encode_name (name out : bytes) : result io_error bytes :=
  let name := without_suffix [DOT] name in
  if bool_decide (name = []) || (len name >? MAX_NAME)
  then Err (other (B "a name of no length DNS carries"))
  else enc ← encode_labels (split_on DOT name); Ok (out ++ enc).

Definition question (name : bytes) (qtype id_ : Z) : result io_error bytes :=
  let msg := be_bytes 2 id_ ++ be_bytes 2 256 ++ be_bytes 2 1 ++ replicate 6 (to_u8 0) in
  msg ← encode_name name msg;
  Ok (msg ++ be_bytes 2 qtype ++ be_bytes 2 CLASS_IN).

(** ** Asking *)

Section Ask.
Context {W sock : Type} `{Os W sock}.

Definition fallback_id : io W Z := nanos ← call system_nanos; mret (Z.land nanos 65535).

(** The loop that fills two random bytes: at most two calls can each add one. *)
Fixpoint random_bytes (turns : nat) (got : bytes) (w : W) : option bytes * W :=
  if len got >=? 2 then (Some got, w)
  else match turns with
  | O => (None, w)
  | S turns =>
    match getrandom (2 - len got) w with
    | (Some filled, w) =>
        if len filled >? 0 then random_bytes turns (got ++ filled) w else (None, w)
    | (None, w) => (None, w)
    end
  end.

Definition query_id : io W Z :=
  got ← call (random_bytes 2 []);
  match got with
  | Some bytes => mret (be_val bytes)
  | None => fallback_id
  end.

Definition unspecified (like : IpAddr) : IpAddr :=
  match like with V4 _ => V4 (replicate 4 (to_u8 0)) | V6 _ => V6 (replicate 16 (to_u8 0)) end.

Definition over_udp (server : SocketAddr) (question : bytes) : io W bytes :=
  socket ← udp_bind (mkAddr (unspecified (ip server)) 0);
  _ ← udp_connect socket server;
  _ ← set_read_timeout socket (Some TIMEOUT);
  _ ← udp_send socket question;
  udp_recv socket MAX_UDP.

Definition over_tcp (server : SocketAddr) (question : bytes) : io W bytes :=
  socket ← tcp_connect server TIMEOUT;
  _ ← set_read_timeout socket (Some TIMEOUT);
  _ ← set_write_timeout socket (Some TIMEOUT);
  _ ← lift (if len question <=? U16_MAX then Ok tt
            else Err (other (B "the question is longer than a message")));
  _ ← write_all socket (be_bytes 2 (len question));
  _ ← write_all socket question;
  head ← read_exact socket 2;
  let len_ := be_val head in
  if len_ >? MAX_TCP then lift (Err (other (B "an answer longer than this client reads")))
  else read_exact socket len_.

Definition once (name : bytes) (qtype : Z) (server : SocketAddr) : io W Reply :=
  id_ ← query_id;
  question ← lift (question name qtype id_);
  msg ← over_udp server question;
  reply ← lift (checked msg id_ name qtype);
  if negb (truncated reply) then mret reply
  else msg ← over_tcp server question; lift (checked msg id_ name qtype).

(** The tries [ask] makes of one server: an answer, or the last error. *)
Fixpoint tries (n : nat) (name : bytes) (qtype : Z) (server : SocketAddr) (deadline : Z)
  (last : io_error) (w : W) : (result io_error (list IpAddr) + io_error) * W :=
  match n with
  | O => (inr last, w)
  | S n =>
    let '(t, w) := now w in
    if t >=? deadline
    then (inl (Err (other (B "the resolvers took longer than the budget"))), w)
    else match once name qtype server w with
    | (Ok reply, w) => (inl (Ok (addresses reply)), w)
    | (Err err, w) => tries n name qtype server deadline err w
    end
  end.

Fixpoint ask_loop (servers : list SocketAddr) (name : bytes) (qtype deadline : Z)
  (last : io_error) (w : W) : result io_error (list IpAddr) * W :=
  match servers with
  | [] => (Err last, w)
  | server :: servers =>
    match tries TRIES name qtype server deadline last w with
    | (inl r, w) => (r, w)
    | (inr last, w) => ask_loop servers name qtype deadline last w
    end
  end.

Definition ask (name : bytes) (qtype : Z) (servers : list SocketAddr) (deadline : Z)
  : io W (list IpAddr) :=
  ask_loop servers name qtype deadline (other (B "no resolver answered")).

(** The loop over the two questions: what was found, whether anything
    answered, and the last error. *)
Fixpoint resolve_loop (qtypes : list Z) (name : bytes) (servers : list SocketAddr) (deadline : Z)
  (found : list IpAddr) (answered : bool) (last : io_error) (w : W)
  : (list IpAddr * bool * io_error) * W :=
  match qtypes with
  | [] => ((found, answered, last), w)
  | qtype :: qtypes =>
    match ask name qtype servers deadline w with
    | (Ok more, w) => resolve_loop qtypes name servers deadline (found ++ more) true last w
    | (Err err, w) => resolve_loop qtypes name servers deadline found answered err w
    end
  end.

Definition resolve_at (name : bytes) (port : Z) (servers : list SocketAddr)
  : io W (list SocketAddr) := fun w =>
  if bool_decide (servers = []) then (Err (other (B "no resolver address was given")), w)
  else
    let '(t, w) := now w in
    let deadline := t + BUDGET in
    let '((found, answered, last), w) :=
      resolve_loop [TYPE_A; TYPE_AAAA] name servers deadline [] false
        (other (B "no resolver answered")) w in
    if negb answered then (Err last, w)
    else (Ok (map (fun ip => mkAddr ip port) found), w).

Definition resolve (name : bytes) (port : Z) (servers : list IpAddr) : io W (list SocketAddr) :=
  resolve_at name port (map (fun ip => mkAddr ip PORT) servers).

End Ask.

#[global] Arguments Reader.name : simpl never.

(** ** The reader *)

Lemma rd_bind_ok {A C} (m : rd A) (f : A -> rd C) p c p' :
  (m ≫= f) p = Ok (c, p') <-> exists a p1, m p = Ok (a, p1) /\ f a p1 = Ok (c, p').
Proof.
  unfold mbind, rd_bind. destruct (m p) as [[a p1]|e]; split.
  - intros Hf. by exists a, p1.
  - by intros (a' & p1' & [= <- <-] & ?).
  - done.
  - by intros (a' & p1' & ? & _).
Qed.

Ltac rd_inv :=
  repeat match goal with
  | H : (_ ≫= _) _ = Ok _ |- _ =>
      apply rd_bind_ok in H; let a := fresh "r" in let p := fresh "p" in let E := fresh "E" in
      destruct H as (a & p & E & H)
  | H : mret _ _ = Ok _ |- _ => injection H as H; subst
  | H : fail _ _ = Ok _ |- _ => discriminate H
  end.

Lemma u8_ok msg p v p' :
  Reader.u8 msg p = Ok (v, p') <-> exists b, get msg p = Some b /\ v = u8 b /\ p' = p + 1.
Proof. unfold Reader.u8. destruct (get msg p); naive_solver. Qed.

Lemma get_bounds {A} (l : list A) i x : get l i = Some x -> 0 <= i < len l.
Proof. intros (p & q & -> & <-)%get_some. len_lia. Qed.

Lemma u8_bounds msg p v p' : Reader.u8 msg p = Ok (v, p') -> p' = p + 1 /\ 0 <= p < len msg /\ 0 <= v < 256.
Proof.
  intros (b & Hb%get_bounds & -> & ->)%u8_ok. pose proof (u8_range b). lia.
Qed.

Lemma u16_bounds msg p v p' :
  Reader.u16 msg p = Ok (v, p') -> p' = p + 2 /\ 0 <= p /\ p' <= len msg /\ 0 <= v < 65536.
Proof. unfold Reader.u16. intros. rd_inv. apply u8_bounds in E, E0. lia. Qed.

Lemma u32_bounds msg p v p' :
  Reader.u32 msg p = Ok (v, p') -> p' = p + 4 /\ 0 <= p /\ p' <= len msg.
Proof. unfold Reader.u32. intros. rd_inv. apply u8_bounds in E, E0, E1, E2. lia. Qed.

(** Reading back what was written, at any place of a message. *)
Lemma u8_app pre b post : Reader.u8 (pre ++ b :: post) (len pre) = Ok (u8 b, len pre + 1).
Proof. apply u8_ok. exists b. by rewrite get_app_mid. Qed.

Lemma u16_app pre v post : 0 <= v < 65536 ->
  Reader.u16 (pre ++ be_bytes 2 v ++ post) (len pre) = Ok (v, len pre + 2).
Proof.
  intros Hv. change (be_bytes 2 v) with [to_u8 (v / 256); to_u8 v]. unfold Reader.u16.
  apply rd_bind_ok. do 2 eexists. split; [apply u8_app|].
  apply rd_bind_ok. do 2 eexists. split.
  - change (pre ++ [?a; ?b] ++ post) with (pre ++ a :: (b :: post)).
    rewrite (cons_middle _ pre), app_assoc.
    replace (len pre + 1) with (len (pre ++ [to_u8 (v / 256)])) by len_lia. apply u8_app.
  - unfold mret, rd_ret. do 2 f_equal; [|len_lia]. rewrite !u8_to_u8.
    rewrite (Z.mod_small (v / 256)) by (split; [apply Z.div_pos|apply Z.div_lt_upper_bound]; lia).
    pose proof (Z.div_mod v 256). lia.
Qed.

Lemma top_bits : forall b, (Z.land (u8 b) 192 =? 0) = (u8 b <? 64).
Proof. by_bytes. Qed.

Lemma to_u8_small z : 0 <= z < 256 -> u8 (to_u8 z) = z.
Proof. intros. rewrite u8_to_u8. by apply Z.mod_small. Qed.

Definition latin1_lower (label : bytes) : bytes :=
  concat (map (fun b => push_latin1 (lower_byte b)) label).

Lemma push_latin1_len b : 1 <= len (push_latin1 b) <= 2.
Proof. unfold push_latin1. destruct (_ <? _); len_lia. Qed.

Lemma latin1_lower_len label : len label <= len (latin1_lower label) <= 2 * len label.
Proof.
  unfold latin1_lower. induction label as [|b l IH]; cbn [map concat]; [done|].
  pose proof (push_latin1_len (lower_byte b)). len_lia.
Qed.

Lemma latin1_lower_ascii label : is_ascii label = true -> latin1_lower label = to_ascii_lowercase label.
Proof.
  unfold latin1_lower, is_ascii, to_ascii_lowercase.
  induction label as [|b l IH]; cbn [map concat forallb]; [done|].
  intros [Hb Hl]%andb_true_iff. rewrite IH by done.
  assert (push_latin1 (lower_byte b) = [lower_byte b]) as ->; [|done].
  revert Hb. by_bytes.
Qed.

Lemma push_latin1_no_upper b : Forall (fun b => is_ascii_upper b = false) (push_latin1 (lower_byte b)).
Proof. destruct b; vm_compute; repeat constructor. Qed.

Lemma latin1_lower_no_upper label : Forall (fun b => is_ascii_upper b = false) (latin1_lower label).
Proof.
  unfold latin1_lower. induction label as [|b l IH]; cbn [map concat]; [constructor|].
  apply Forall_app. split; [apply push_latin1_no_upper|done].
Qed.

(** The text a name has once [label] is added to it. *)
Definition add_label (out label : bytes) : bytes :=
  (if bool_decide (out = []) then out else out ++ [DOT]) ++ latin1_lower label.

Lemma add_label_len out label n : len label = n ->
  len out + n <= len (add_label out label) <= len out + 1 + 2 * n.
Proof.
  intros <-. unfold add_label. pose proof (latin1_lower_len label). case_bool_decide; len_lia.
Qed.

(** One label at [at_]. *)
Lemma name_loop_label msg fuel out p j e b label :
  get msg p = Some b -> 0 < u8 b < 64 -> slice msg (p + 1) (p + 1 + u8 b) = Some label ->
  Reader.name_loop msg (S fuel) out p j e =
  if len out + u8 b + 1 >? MAX_NAME then Some (Err Name)
  else Reader.name_loop msg fuel (add_label out label) (p + 1 + u8 b) j e.
Proof.
  intros Hb Hn Hs. cbn [Reader.name_loop]. rewrite Hb, top_bits.
  rewrite (proj2 (Z.ltb_lt _ _)) by lia. destruct (Z.eqb_spec (u8 b) 0); [lia|].
  by rewrite Hs.
Qed.

Lemma name_loop_total msg fuel out p j e :
  0 <= j <= MAX_JUMPS -> Z.max 0 (MAX_NAME - len out) + (MAX_JUMPS - j) < Z.of_nat fuel ->
  Reader.name_loop msg fuel out p j e <> None.
Proof.
  revert out p j e. induction fuel as [|fuel IH]; intros out p j e Hj Hm; [lia|].
  destruct (get msg p) as [b|] eqn:Hb; [|cbn [Reader.name_loop]; by rewrite Hb].
  destruct (slice msg (p + 1) (p + 1 + u8 b)) as [label|] eqn:Hs.
  - destruct (decide (0 < u8 b < 64)) as [Hn|Hn].
    + rewrite (name_loop_label _ _ _ _ _ _ b label) by done. rewrite Z.gtb_ltb.
      destruct (Z.ltb_spec MAX_NAME (len out + u8 b + 1)); [done|]. apply IH; [done|].
      apply slice_some in Hs as (x & y & _ & _ & Hl).
      pose proof (add_label_len out label (u8 b) ltac:(lia)). unfold MAX_NAME in *. lia.
    + cbn [Reader.name_loop]. rewrite Hb, top_bits. destruct (Z.ltb_spec (u8 b) 64).
      { pose proof (u8_range b). destruct (Z.eqb_spec (u8 b) 0); [done|lia]. }
      destruct (_ =? 192); [|done]. destruct (get msg (p + 1)); [|done].
      destruct (_ >=? p); [done|]. rewrite Z.gtb_ltb. destruct (Z.ltb_spec MAX_JUMPS (j + 1)); [done|].
      apply IH; lia.
  - cbn [Reader.name_loop]. rewrite Hb, Hs. destruct (_ =? 0); [by destruct (_ =? 0)|].
    destruct (_ =? 192); [|done]. destruct (get msg (p + 1)); [|done].
    destruct (_ >=? p); [done|]. rewrite Z.gtb_ltb. destruct (Z.ltb_spec MAX_JUMPS (j + 1)); [done|].
    apply IH; lia.
Qed.

(** One turn of the loop, when it does not stop. *)
Inductive name_step (msg : bytes) : bytes * Z * Z * option Z -> bytes * Z * Z * option Z -> Prop :=
| step_label out p j e b label :
    get msg p = Some b -> 0 < u8 b < 64 -> slice msg (p + 1) (p + 1 + u8 b) = Some label ->
    len out + u8 b + 1 <= MAX_NAME ->
    name_step msg (out, p, j, e) (add_label out label, p + 1 + u8 b, j, e)
| step_pointer out p j e to :
    0 <= p -> p + 2 <= len msg -> 0 <= to < p -> j + 1 <= MAX_JUMPS ->
    name_step msg (out, p, j, e) (out, to, j + 1, Some (default (p + 2) e)).

(** A name that is read is a run of such turns up to the empty label. *)
Lemma name_loop_run msg fuel out p j e s q :
  Reader.name_loop msg fuel out p j e = Some (Ok (s, q)) ->
  exists p' j' e', rtc (name_step msg) (out, p, j, e) (s, p', j', e') /\
    0 <= p' < len msg /\ q = default (p' + 1) e'.
Proof.
  revert out p j e. induction fuel as [|fuel IH]; intros out p j e; [done|].
  cbn [Reader.name_loop]. destruct (get msg p) as [b|] eqn:Hb; [|done].
  pose proof (get_bounds _ _ _ Hb) as Hp. pose proof (u8_range b) as Hr.
  rewrite top_bits. destruct (Z.ltb_spec (u8 b) 64).
  - destruct (Z.eqb_spec (u8 b) 0).
    + intros [= <- <-]. exists p, j, e. split; [apply rtc_refl|done].
    + destruct (slice _ _ _) as [label|] eqn:Hs; [|done]. rewrite Z.gtb_ltb.
      destruct (Z.ltb_spec MAX_NAME (len out + u8 b + 1)); [done|].
      intros (p' & j' & e' & Hrun & Hq)%IH. exists p', j', e'. split; [|done].
      eapply rtc_l; [|exact Hrun]. apply (step_label _ _ _ _ _ b label); (done || lia).
  - destruct (Z.land (u8 b) 192 =? 192); [|done].
    destruct (get msg (p + 1)) as [lo|] eqn:Hlo; [|done]. rewrite Z.geb_leb.
    destruct (Z.leb_spec p (Z.lor (Z.shiftl (Z.land (u8 b) 63) 8) (u8 lo))) as [|Hto]; [done|].
    rewrite Z.gtb_ltb. destruct (Z.ltb_spec MAX_JUMPS (j + 1)); [done|].
    intros (p' & j' & e' & Hrun & Hq)%IH. exists p', j', e'. split; [|done].
    eapply rtc_l; [|exact Hrun]. apply get_bounds in Hlo. pose proof (u8_range lo).
    apply step_pointer; [lia|lia| |lia]. split; [|lia].
    apply Z.lor_nonneg. split; [|lia]. apply Z.shiftl_nonneg, Z.land_nonneg. lia.
Qed.

Definition no_upper (s : bytes) : Prop := Forall (fun b => is_ascii_upper b = false) s.

(** What every turn keeps. *)
Definition name_inv (msg : bytes) (p0 : Z) (st : bytes * Z * Z * option Z) : Prop :=
  let '(out, p, j, e) := st in
  len out <= MAX_NAME + MAX_LABEL /\ no_upper out /\
  match e with Some x => p0 < x <= len msg | None => p0 <= p end.

Lemma name_step_inv msg p0 st st' : name_inv msg p0 st -> name_step msg st st' -> name_inv msg p0 st'.
Proof.
  intros Hi Hs. destruct Hs as [out p j e b label Hb Hn Hs Hl|out p j e to]; cbn in *.
  - destruct Hi as (Ho & Hu & He). apply slice_some in Hs as (x & y & _ & _ & Hlab).
    pose proof (add_label_len out label (u8 b) ltac:(lia)). unfold MAX_NAME, MAX_LABEL in *.
    split_and!; [lia| |destruct e; lia].
    unfold add_label, no_upper in *. apply Forall_app. split; [|apply latin1_lower_no_upper].
    case_bool_decide; [done|]. apply Forall_app. by repeat constructor.
  - destruct Hi as (Ho & Hu & He). split_and!; try done; destruct e; cbn; lia.
Qed.

Lemma name_run_inv msg p0 st st' :
  name_inv msg p0 st -> rtc (name_step msg) st st' -> name_inv msg p0 st'.
Proof. intros Hi Hr. revert Hi. induction Hr; eauto using name_step_inv. Qed.

Lemma name_ok msg p s q :
  Reader.name msg p = Ok (s, q) ->
  p < q <= len msg /\ len s <= 318 /\ no_upper s.
Proof.
  unfold Reader.name. destruct (Reader.name_loop _ _ _ _ _ _) as [[[s' q']|]|] eqn:E; try done.
  intros [= -> ->]. apply name_loop_run in E as (p' & j' & e' & Hr & Hp' & ->).
  apply (name_run_inv _ p) in Hr; [|by unfold name_inv; split_and!; [done|constructor|lia]].
  cbn in Hr. destruct Hr as (Hl & Hu & He). unfold MAX_NAME, MAX_LABEL in Hl.
  split_and!; [destruct e'; cbn; lia..|lia|done].
Qed.

Lemma name_terminates msg p :
  Reader.name_loop msg Reader.NAME_FUEL [] p 0 None = Some (Reader.name msg p).
Proof.
  unfold Reader.name. destruct (Reader.name_loop _ _ _ _ _ _) eqn:E; [done|].
  apply name_loop_total in E; [done|unfold MAX_JUMPS; lia|].
  unfold MAX_JUMPS, MAX_NAME, Reader.NAME_FUEL. autorewrite with len. lia.
Qed.

Lemma record_rest_ok msg name rtype class n p r q :
  Reader.record_rest msg name rtype class n p = Ok (r, q) ->
  0 <= n -> q = p + n /\ q <= len msg /\ owner r = name /\
  Reader.record_data msg class rtype p q = Ok (data r).
Proof.
  unfold Reader.record_rest, checked_add. destruct (Z.leb_spec (p + n) USIZE_MAX); [|done].
  rewrite Z.gtb_ltb. destruct (Z.ltb_spec (len msg) (p + n)); [done|].
  destruct (Reader.record_data _ _ _ _ _) as [d|] eqn:E; [|done]. intros Hk Hn.
  rd_inv. unfold Reader.seek in E0. rewrite Z.gtb_ltb in E0.
  destruct (Z.ltb_spec (len msg) (p + n)); [done|]. injection E0 as _ <-. done.
Qed.

Lemma record_ok msg p r q :
  Reader.record msg p = Ok (r, q) ->
  p < q <= len msg /\
  exists class rtype from, 0 <= from /\ from <= q /\ Reader.record_data msg class rtype from q = Ok (data r).
Proof.
  unfold Reader.record. intros. rd_inv.
  apply name_ok in E. apply u16_bounds in E0, E1, E3. apply u32_bounds in E2.
  apply record_rest_ok in H as (-> & ? & ? & ?); [|lia].
  split; [lia|]. exists r2, r1, p4. split_and!; (done || lia).
Qed.

Lemma records_ok msg n p rs q :
  Reader.records msg n p = Ok (rs, q) -> length rs = n /\
  Forall (fun r => exists p q, Reader.record msg p = Ok (r, q)) rs.
Proof.
  revert p rs q. induction n as [|n IH]; intros p rs q; cbn [Reader.records]; intros H.
  - rd_inv. done.
  - rd_inv. apply IH in E0 as [<- Hall]. split; [done|]. constructor; [eauto|done].
Qed.

(** ** Names on the wire *)

(** The labels of a name as the wire writes them, and what a label may be. *)
Definition wire_labels (labels : list bytes) : bytes :=
  concat (map (fun l => to_u8 (len l) :: l) labels).

Definition dns_label (l : bytes) : Prop := 0 < len l <= MAX_LABEL.

Lemma encode_labels_ok labels enc :
  encode_labels labels = Ok enc <-> Forall dns_label labels /\ enc = wire_labels labels ++ [to_u8 0].
Proof.
  revert enc. induction labels as [|l ls IH]; intros enc; cbn [encode_labels].
  - unfold wire_labels. cbn. split; [intros [= <-]; auto|by intros [_ ->]].
  - rewrite !Z.gtb_ltb, Forall_cons. unfold dns_label, U8_MAX, MAX_LABEL in *.
    destruct (Z.ltb_spec 255 (len l)); [split; [done|lia]|].
    destruct (Z.ltb_spec 0 (len l)), (Z.leb_spec (len l) 63); cbn; try solve [split; [done|lia]].
    rewrite bind_ok. setoid_rewrite IH. split.
    + intros (r & [Hf ->] & [= <-]). split; [done|]. unfold wire_labels. cbn. by rewrite <-app_assoc.
    + intros [[? Hf] ->]. eexists. split; [split; [done|reflexivity]|].
      unfold wire_labels. cbn. by rewrite <-app_assoc.
Qed.

Lemma len_wire_labels labels : len (wire_labels labels) = len (concat labels) + len labels.
Proof.
  unfold wire_labels. induction labels as [|l ls IH]; cbn [map concat]; [done|].
  rewrite <-app_comm_cons. len_lia.
Qed.

Lemma len_join sep ws : ws <> [] -> len (join [sep] ws) = len (concat ws) + len ws - 1.
Proof.
  induction ws as [|w ws IH]; [done|]. intros _. destruct ws as [|v ws]; [cbn; len_lia|].
  rewrite join_cons by done. cbn [concat]. specialize (IH ltac:(done)). cbn [concat] in *. len_lia.
Qed.

Lemma foldl_add_label out labels :
  out <> [] ->
  foldl add_label out labels = out ++ concat (map (fun l => DOT :: latin1_lower l) labels).
Proof.
  revert out. induction labels as [|l ls IH]; intros out Hout; cbn [foldl map concat]; [by rewrite app_nil_r|].
  unfold add_label at 2. rewrite bool_decide_false by done. rewrite IH by (by destruct out).
  by rewrite <-!app_assoc.
Qed.

Lemma foldl_add_join labels :
  Forall (fun l => l <> [] /\ is_ascii l = true) labels ->
  foldl add_label [] labels = to_ascii_lowercase (join [DOT] labels).
Proof.
  destruct labels as [|l ls]; [done|]. intros [[Hne Hl] Hls]%Forall_cons. cbn [foldl].
  unfold add_label at 2. cbn [app]. rewrite bool_decide_true by done. rewrite latin1_lower_ascii by done.
  rewrite foldl_add_label by (by destruct l). clear Hne Hl. revert l.
  induction ls as [|k ls IH]; intros l; cbn [map concat]; [by rewrite app_nil_r|].
  apply Forall_cons in Hls as [[_ Hk] Hls].
  rewrite join_cons, lowercase_app, lowercase_app by done. f_equal.
  rewrite <-IH, latin1_lower_ascii by done. done.
Qed.

Lemma name_loop_wire msg pre post labels out j e fuel :
  msg = pre ++ wire_labels labels ++ to_u8 0 :: post ->
  Forall dns_label labels -> len labels < Z.of_nat fuel ->
  len (foldl add_label out labels) <= MAX_NAME - 1 ->
  Reader.name_loop msg fuel out (len pre) j e
  = Some (Ok (foldl add_label out labels, default (len pre + len (wire_labels labels) + 1) e)).
Proof.
  revert pre out fuel. induction labels as [|l ls IH]; intros pre out fuel Hmsg Hf Hlen Hmax.
  - destruct fuel as [|fuel]; [len_lia|]. cbn [Reader.name_loop]. rewrite Hmsg.
    change (wire_labels [] ++ to_u8 0 :: post) with (to_u8 0 :: post).
    rewrite get_app_mid, top_bits. rewrite to_u8_small by lia.
    replace (len pre + len (wire_labels []) + 1) with (len pre + 1); [done|].
    change (len (wire_labels [])) with 0. lia.
  - apply Forall_cons in Hf as [[Hl0 Hl] Hf]. destruct fuel as [|fuel]; [len_lia|].
    unfold MAX_LABEL, MAX_NAME in *. rewrite len_cons in Hlen.
    assert (Hm : msg = pre ++ to_u8 (len l) :: l ++ wire_labels ls ++ to_u8 0 :: post).
    { rewrite Hmsg. unfold wire_labels. cbn [map concat]. by rewrite <-!app_assoc. }
    assert (u8 (to_u8 (len l)) = len l) as Hu by (apply to_u8_small; lia).
    rewrite (name_loop_label _ _ _ _ _ _ (to_u8 (len l)) l).
    2:{ rewrite Hm. apply get_app_mid. }
    2:{ rewrite Hu. lia. }
    2:{ rewrite Hu, Hm. apply slice_some. exists (pre ++ [to_u8 (len l)]), (wire_labels ls ++ to_u8 0 :: post).
        rewrite <-app_assoc. split_and!; [done|len_lia|lia]. }
    rewrite Hu, Z.gtb_ltb. cbn [foldl] in *.
    assert (len (add_label out l) <= len (foldl add_label (add_label out l) ls)) as Hmono.
    { rewrite foldl_add_label; [rewrite len_app; match goal with |- context [len (concat ?x)] => pose proof (len_nonneg (concat x)) end; lia|].
      intros Hn. pose proof (add_label_len out l _ eq_refl).
      rewrite Hn, len_nil in *. pose proof (len_nonneg out). lia. }
    assert (len out + len l + 1 <= 255).
    { pose proof (Z.le_trans _ _ _ Hmono Hmax) as Hb. clear Hmono Hmax. unfold add_label in Hb. pose proof (latin1_lower_len l). case_bool_decide; subst; len_lia. }
    destruct (Z.ltb_spec MAX_NAME (len out + len l + 1)); [unfold MAX_NAME in *; lia|].
    replace (len pre + 1 + len l) with (len (pre ++ to_u8 (len l) :: l)) by len_lia.
    rewrite IH; [|by rewrite Hm, <-app_assoc|done|lia|done].
    do 4 f_equal. unfold wire_labels. cbn [map concat]. rewrite <-app_comm_cons. len_lia.
Qed.

Lemma is_ascii_join labels :
  is_ascii (join [DOT] labels) = true -> Forall (fun l => is_ascii l = true) labels.
Proof.
  unfold is_ascii. induction labels as [|l ls IH]; [constructor|]. destruct ls as [|k ls].
  - intros H. by repeat constructor.
  - rewrite join_cons by done. rewrite !forallb_app. intros [? [_ ?]%andb_true_iff]%andb_true_iff.
    constructor; [done|auto].
Qed.

(** ** Aliases *)

(** The addresses the records hold for a name, in order, and the name its
    first [CNAME] gives. *)
Definition addrs_of (rs : list RRecord) (t : bytes) : list IpAddr :=
  omap (fun r => if bool_decide (owner r = t)
    then match data r with DV4 a => Some (V4 a) | DV6 a => Some (V6 a) | _ => None end
    else None) rs.

Definition aliases_of (rs : list RRecord) (t : bytes) : list bytes :=
  omap (fun r => if bool_decide (owner r = t)
    then match data r with Cname to => Some to | _ => None end else None) rs.

Definition alias (rs : list RRecord) (t to : bytes) : Prop := head (aliases_of rs t) = Some to.

Lemma chain_pass t rs out next :
  foldl (chain_step t) (out, next) rs
  = (out ++ addrs_of rs t, match next with Some x => Some x | None => head (aliases_of rs t) end).
Proof.
  revert out next. induction rs as [|r rs IH]; intros out next; cbn [foldl].
  - rewrite app_nil_r. by destruct next.
  - unfold chain_step at 2. unfold addrs_of, aliases_of in *. cbn [omap list_omap].
    case_bool_decide; cbn [negb]; [|by rewrite IH].
    destruct (data r); rewrite ?IH; cbn; try (rewrite <-app_assoc; done); try done.
    destruct next; rewrite IH; done.
Qed.

Lemma chain_loop_spec turns t rs :
  exists k t', (k <= turns)%nat /\ nsteps (alias rs) k t t' /\
    (chain_loop (S turns) t rs [] = addrs_of rs t') /\
    (forall k' t'', (k' < k)%nat -> nsteps (alias rs) k' t t'' -> addrs_of rs t'' = []) /\
    (addrs_of rs t' = [] -> k = turns \/ aliases_of rs t' = []).
Proof.
  revert t. induction turns as [|turns IH]; intros t.
  - exists 0%nat, t. split_and!; [done|constructor| |lia|by left].
    cbn [chain_loop]. rewrite chain_pass. cbn [app]. case_bool_decide as E; cbn [negb]; [|done].
    rewrite E. by destruct (head _).
  - cbn [chain_loop]. rewrite chain_pass. cbn [app]. case_bool_decide as E; cbn [negb].
    + destruct (head (aliases_of rs t)) as [to|] eqn:Ha.
      * destruct (IH to) as (k & t' & Hk & Hs & Hc & Hb & He).
        exists (S k), t'. cbn [chain_loop] in Hc. rewrite E.
        split_and!; [lia|by econstructor|done| |].
        -- intros k' t'' Hlt Hs'. destruct k' as [|k']; inversion Hs'; subst; [done|].
           apply (Hb k'); [lia|]. unfold alias in *. congruence.
        -- intros [->|?]%He; [by left|by right].
      * exists 0%nat, t. split_and!; [lia|constructor|done|lia|].
        intros _. right. by destruct (aliases_of rs t).
    + exists 0%nat, t. split_and!; [lia|constructor|done|lia|done].
Qed.

Lemma nsteps_alias_det rs k a b b' : nsteps (alias rs) k a b -> nsteps (alias rs) k a b' -> b = b'.
Proof.
  intros H. revert b'. induction H as [a|k a c b Hac H IH]; intros b' H'; inversion H'; subst; [done|].
  apply IH. unfold alias in *. congruence.
Qed.

(** ** Answers *)

Lemma parse_shape msg r :
  parse msg = Ok r ->
  exists name qtype rs, asked r = (name, qtype) /\ (length rs <= 32)%nat /\
    Forall (fun x => exists p q, Reader.record msg p = Ok (x, q)) rs /\
    addresses r = chain name rs /\ 0 <= rcode r < 16.
Proof.
  unfold parse. destruct (parse_reply msg 0) as [[r' p]|] eqn:E; [|done]. intros [= ->].
  unfold parse_reply in E. rd_inv.
  destruct (Z.land _ 32768 =? 0); [done|]. destruct (negb (_ =? 1)); [done|]. rd_inv.
  destruct (negb _); [done|]. rd_inv.
  match goal with H : Reader.records _ _ _ = Ok _ |- _ => apply records_ok in H as [Hlen Hall] end. cbn [asked addresses rcode].
  do 3 eexists. split_and!; [done| |exact Hall|done| |].
  - unfold as_u16, MAX_RECORDS, U16_MAX in Hlen. cbn in Hlen. lia.
  - apply Z.land_nonneg. lia.
  - change 15 with (Z.ones 4). rewrite Z.land_ones by lia. apply Z.mod_pos_bound. lia.
Qed.

Definition octets (a : IpAddr) : bytes := match a with V4 o | V6 o => o end.

(** An address as wide as its family says. *)
Definition ip_wf (a : IpAddr) : Prop :=
  match a with V4 o => len o = 4 | V6 o => len o = 16 end.

Lemma addrs_of_record rs t a :
  a ∈ addrs_of rs t -> exists r, r ∈ rs /\ owner r = t /\
    (match data r with DV4 o => a = V4 o | DV6 o => a = V6 o | _ => False end).
Proof.
  unfold addrs_of. intros (r & Hr & Hd)%list_elem_of_omap. exists r. split; [done|].
  case_bool_decide; [|done]. split; [done|]. destruct (data r); naive_solver.
Qed.

Lemma record_data_wf msg p r q :
  Reader.record msg p = Ok (r, q) ->
  match data r with DV4 o => len o = 4 | DV6 o => len o = 16 | _ => True end.
Proof.
  intros (Hp & class & rtype & from & Hf & Hq & Hd)%record_ok. unfold Reader.record_data in Hd.
  assert (slice msg from q <> None) as Hs by (rewrite slice_none; lia).
  destruct (slice msg from q) as [s|] eqn:Es; [|done]. apply slice_some in Es as (x & y & _ & _ & Hl).
  cbn [default] in Hd. destruct (Z.eqb_spec (q - from) 4), (Z.eqb_spec (q - from) 16); try lia;
    rewrite ?andb_true_r, ?andb_false_r in Hd; repeat (split_in Hd; try done); inv_ok;
    rewrite <-Hd; cbn; lia || done.
Qed.

Lemma chain_addrs name rs : exists k t, (k < MAX_CNAMES)%nat /\ nsteps (alias rs) k name t /\
  chain name rs = addrs_of rs t.
Proof.
  destruct (chain_loop_spec 7 name rs) as (k & t & Hk & Hs & Hc & _). exists k, t.
  split_and!; [unfold MAX_CNAMES; lia|done|done].
Qed.

Lemma answer_addresses msg r :
  parse msg = Ok r -> (length (addresses r) <= 32)%nat /\ Forall ip_wf (addresses r).
Proof.
  intros (name & qt & rs & _ & Hlen & Hall & -> & _)%parse_shape.
  destruct (chain_addrs name rs) as (k & t & _ & _ & ->). split.
  - etrans; [|exact Hlen]. clear. unfold addrs_of. induction rs as [|r rs IH]; cbn; [done|].
    destruct (if bool_decide _ then _ else _); cbn; lia.
  - rewrite Forall_forall in Hall. apply Forall_forall. intros a (x & Hx & _ & Hd)%addrs_of_record.
    apply Hall in Hx as (p & q & Hx%record_data_wf). destruct (data x); subst; cbn; done.
Qed.

(** ** Asking *)

Section AskFacts.
Context {W sock : Type} `{Os W sock}.

(** [msg] came back from [server] for [q], over one transport or the other. *)
Definition exchanged (server : SocketAddr) (q msg : bytes) : Prop :=
  exists w w', over_udp server q w = (Ok msg, w') \/ over_tcp server q w = (Ok msg, w').

(** An answer held to its question. *)
Definition answers (servers : list SocketAddr) (name : bytes) (qtype : Z) (r : Reply) : Prop :=
  exists server id_ q msg, server ∈ servers /\ question name qtype id_ = Ok q /\
    exchanged server q msg /\ parse msg = Ok r /\ id r = id_ /\
    asked r = (to_ascii_lowercase (without_suffix [DOT] name), qtype) /\ (rcode r = 0 \/ rcode r = 3).

Lemma checked_ok msg id_ name qtype r :
  checked msg id_ name qtype = Ok r <->
  parse msg = Ok r /\ id r = id_ /\
  asked r = (to_ascii_lowercase (without_suffix [DOT] name), qtype) /\ (rcode r = 0 \/ rcode r = 3).
Proof.
  unfold checked. destruct (parse msg) as [r'|e]; cbn [map_err mbind result_bind]; [|naive_solver].
  destruct (Z.eqb_spec (id r') id_); cbn [negb]; [|naive_solver].
  case_bool_decide; cbn [negb]; [|naive_solver].
  destruct (Z.eqb_spec (rcode r') 0), (Z.eqb_spec (rcode r') 3); cbn [orb]; naive_solver.
Qed.

Lemma once_ok name qtype server w r w' :
  once name qtype server w = (Ok r, w') -> answers [server] name qtype r.
Proof.
  unfold once. intros (id_ & w1 & _ & Hr)%io_bind_ok.
  apply io_bind_ok in Hr as (q & w2 & Hq & Hr). injection Hq as Hq <-.
  apply io_bind_ok in Hr as (msg & w3 & Hu & Hr).
  apply io_bind_ok in Hr as (r1 & w4 & Hc & Hr). injection Hc as Hc <-.
  assert (exists msg', exchanged server q msg' /\ checked msg' id_ name qtype = Ok r) as (m & Hx & Hm).
  { destruct (truncated r1); cbn [negb] in Hr.
    - apply io_bind_ok in Hr as (msg' & w5 & Ht & Hr). injection Hr as Hr _.
      exists msg'. split; [|done]. exists w3, w5. by right.
    - injection Hr as -> _. exists msg. split; [|done]. exists w1, w3. by left. }
  apply checked_ok in Hm. exists server, id_, q, m. split; [set_solver|]. naive_solver.
Qed.

Lemma answers_mono s s' name qtype r : s ⊆ s' -> answers s name qtype r -> answers s' name qtype r.
Proof. intros Hs (server & id_ & q & m & ? & ?). exists server, id_, q, m. split; [set_solver|done]. Qed.

Lemma tries_ok n name qtype server deadline last w found w' :
  tries n name qtype server deadline last w = (inl (Ok found), w') ->
  exists r, answers [server] name qtype r /\ found = addresses r.
Proof.
  revert last w. induction n as [|n IH]; intros last w; cbn [tries]; [done|].
  destruct (now w) as [t w1]. destruct (t >=? deadline); [done|].
  destruct (once _ _ _ _) as [[r|e] w2] eqn:E; [|apply IH].
  intros [= <- _]. exists r. split; [by eapply once_ok|done].
Qed.

Lemma ask_ok servers name qtype deadline w found w' :
  ask name qtype servers deadline w = (Ok found, w') ->
  exists r, answers servers name qtype r /\ found = addresses r.
Proof.
  unfold ask. generalize (other (B "no resolver answered")). revert w.
  induction servers as [|s ss IH]; intros w last; cbn [ask_loop]; [done|].
  destruct (tries _ _ _ _ _ _ _) as [[r|last'] w1] eqn:E.
  - intros [= -> _]. apply tries_ok in E as (r & Hr & ->). exists r.
    split; [eapply answers_mono; [|done]; set_solver|done].
  - intros (r & Hr & ->)%IH. exists r. split; [eapply answers_mono; [|done]; set_solver|done].
Qed.

(** What the two answers together give. *)
Definition found_in (servers : list SocketAddr) (name : bytes) (qtypes : list Z) (found : list IpAddr) : Prop :=
  exists parts : list (list IpAddr), found = concat parts /\ (length parts <= length qtypes)%nat /\
    Forall (fun part => exists qtype r, qtype ∈ qtypes /\ answers servers name qtype r /\ part = addresses r) parts.

Lemma resolve_loop_ok qtypes name servers deadline found answered last w found' answered' last' w' :
  resolve_loop qtypes name servers deadline found answered last w = ((found', answered', last'), w') ->
  exists more, found' = found ++ more /\ found_in servers name qtypes more.
Proof.
  revert found answered last w. induction qtypes as [|qt qts IH]; intros found answered last w; cbn [resolve_loop].
  - intros [= <- <- <- <-]. exists []. split; [by rewrite app_nil_r|]. by exists [].
  - destruct (ask _ _ _ _ _) as [[more|e] w1] eqn:E.
    + apply ask_ok in E as (r & Hr & ->). intros (more & -> & parts & -> & Hl & Hp)%IH.
      exists (addresses r ++ concat parts). split; [by rewrite app_assoc|].
      exists (addresses r :: parts). split_and!; [done|cbn; lia|]. constructor.
      * exists qt, r. split; [set_solver|done].
      * eapply Forall_impl; [done|]. cbn. intros p (q & r' & ? & ? & ?). exists q, r'. split; [set_solver|done].
    + intros (more & -> & parts & -> & Hl & Hp)%IH. eexists. split; [done|].
      exists parts. split_and!; [done|cbn; lia|].
      eapply Forall_impl; [done|]. cbn. intros p (q & r' & ? & ? & ?). exists q, r'. split; [set_solver|done].
Qed.

End AskFacts.

(** ** Properties *)

(** Decompressing a name always ends, whatever the message holds, and the
    fuel of the model is never what ends it.  A name that is read ends after it
    began and inside the message, holds no upper-case letter, and is at most
    318 bytes of UTF-8: the source's 255 counted before each label's bytes are
    widened. *)
Theorem name_reader_terminates msg p :
  Reader.name_loop msg Reader.NAME_FUEL [] p 0 None = Some (Reader.name msg p) /\
  forall s q, Reader.name msg p = Ok (s, q) ->
    (p < q /\ q <= len msg) /\ len s <= 318 /\ no_upper s.
Proof. split; [apply name_terminates|]. intros s q Hn%name_ok. naive_solver lia. Qed.

(** A name the client writes is the name it reads back, in lower case and
    without the root dot, wherever in a message it stands and whatever follows
    it, and reading stops right after it. *)
Theorem name_roundtrip name pre enc post :
  is_ascii (without_suffix [DOT] name) = true -> len (without_suffix [DOT] name) <= 254 ->
  encode_name name pre = Ok enc ->
  Reader.name (enc ++ post) (len pre) = Ok (to_ascii_lowercase (without_suffix [DOT] name), len enc).
Proof.
  set (s := without_suffix [DOT] name). intros Ha Hl. unfold encode_name. fold s.
  case_bool_decide as Hs; [done|]. rewrite Z.gtb_ltb. destruct (Z.ltb_spec MAX_NAME (len s)); [done|].
  cbn [orb]. rewrite bind_ok. intros (enc' & [Hf ->]%encode_labels_ok & [= <-]).
  assert (Hlow : foldl add_label [] (split_on DOT s) = to_ascii_lowercase s).
  { rewrite foldl_add_join, join_split; [done|]. apply Forall_forall. intros l Hin.
    rewrite Forall_forall in Hf. split; [intros ->; by destruct (Hf [] Hin)|].
    rewrite <-(join_split DOT s) in Ha. apply is_ascii_join in Ha. rewrite Forall_forall in Ha. auto. }
  pose proof (len_join DOT (split_on DOT s) (split_on_nonempty DOT s)) as Hj. rewrite join_split in Hj.
  pose proof (len_nonneg (concat (split_on DOT s))).
  unfold Reader.name. rewrite <-!app_assoc. cbn [app].
  rewrite (name_loop_wire _ pre post (split_on DOT s)); [|done|done| |].
  - rewrite Hlow. cbn. do 2 f_equal. len_lia.
  - unfold Reader.NAME_FUEL. lia.
  - rewrite Hlow, len_lowercase. unfold MAX_NAME. lia.
Qed.

Lemma name_roundtrip_witness :
  Reader.name ((B "hdr" ++ [Init.Byte.x03] ++ B "WwW" ++ [Init.Byte.x02] ++ B "eU" ++ [NUL]) ++ B "tail") 3
  = Ok (B "www.eu", len (B "hdr" ++ [Init.Byte.x03] ++ B "WwW" ++ [Init.Byte.x02] ++ B "eU" ++ [NUL])).
Proof. by apply (name_roundtrip (B "WwW.eU.") (B "hdr")). Defined.

(** A name the allowlist lets through can always be asked about: the
    question is built, and it carries that name. *)
Theorem allowed_name_is_askable list host port qtype id_ :
  Allowlist.matches list host port = true ->
  exists q, question host qtype id_ = Ok q /\ len q <= 17 + len host + 1 /\
    exists p, Reader.name q 12 = Ok (to_ascii_lowercase (without_suffix [DOT] host), p) /\ p + 4 = len q.
Proof.
  intros (pat & _ & Hm)%allowlist_matches_iff. apply matches_iff in Hm as (Hlen & Hv & _).
  unfold pieces_of in Hv. set (s := without_suffix [DOT] host) in *.
  pose proof (without_suffix_len [DOT] host) as Hs. fold s in Hs.
  assert (s <> []) as Hne.
  { intros E. rewrite E in Hv. by apply Forall_cons in Hv as [Hv%valid_label_nonempty _]. }
  set (head := be_bytes 2 id_ ++ be_bytes 2 256 ++ be_bytes 2 1 ++ replicate 6 (to_u8 0)).
  assert (len head = 12) as Hh by done.
  set (enc := head ++ wire_labels (split_on DOT s) ++ [to_u8 0]).
  assert (encode_name host head = Ok enc) as He.
  { unfold encode_name. fold s. rewrite bool_decide_false by done. rewrite Z.gtb_ltb.
    destruct (Z.ltb_spec MAX_NAME (len s)); [unfold MAX_NAME in *; lia|]. cbn [orb].
    apply bind_ok. eexists. split; [|reflexivity]. apply encode_labels_ok. split; [|done].
    eapply Forall_impl; [done|]. intros l (Hn & Hl & _)%valid_label_iff. unfold dns_label, MAX_LABEL.
    destruct l; [done|]. len_lia. }
  pose proof (len_join DOT (split_on DOT s) (split_on_nonempty DOT s)) as Hj. rewrite join_split in Hj.
  pose proof (len_wire_labels (split_on DOT s)) as Hw.
  assert (len enc = 12 + len s + 2) as Hel by (unfold enc; len_lia).
  exists (enc ++ be_bytes 2 qtype ++ be_bytes 2 CLASS_IN). unfold question. fold head. rewrite He. split; [done|].
  split.
  { rewrite !len_app, !len_be_bytes. destruct (without_suffix_cases [DOT] host) as [E|[E _]]; fold s in E.
    - apply (f_equal len) in E. len_lia.
    - rewrite <-E. lia. }
  exists (len enc). split; [|len_lia]. rewrite <-Hh. apply name_roundtrip; [|fold s; lia|done].
  fold s. rewrite <-(join_split DOT s). apply forallb_spec, Forall_join; [done|].
  eapply Forall_impl; [done|]. intros l Hl%valid_label_ascii. by apply forallb_spec.
Qed.

Lemma allowed_name_is_askable_witness :
  exists q, question (B "a.example") TYPE_A 7 = Ok q /\ len q <= 27.
Proof.
  edestruct (allowed_name_is_askable
    (Allowlist.mk [(HostPattern.mk [B "a"; B "example"] false, 443)]) (B "a.example") 443 TYPE_A 7)
    as (q & Hq & Hl & _); [vm_compute; reflexivity|].
  exists q. split; [exact Hq|exact Hl].
Defined.

(** An answer only speaks for the name that was asked: the addresses taken
    from it are exactly those owned by one name on the [CNAME] path that starts
    at the question's name, at most seven hops away, and no name earlier on that
    path owned any; a record for any other name changes nothing. *)
Theorem chain_follows_aliases name rs :
  exists hops t, (hops < 8)%nat /\ nsteps (alias rs) hops name t /\
    chain name rs = addrs_of rs t /\
    (forall k u, (k < hops)%nat -> nsteps (alias rs) k name u -> addrs_of rs u = []) /\
    (chain name rs = [] -> forall k u, (k < 8)%nat -> nsteps (alias rs) k name u -> addrs_of rs u = []).
Proof.
  destruct (chain_loop_spec 7 name rs) as (k & t & Hk & Hs & Hc & Hb & He). exists k, t.
  change (chain_loop 8 name rs []) with (chain name rs) in Hc.
  split_and!; [lia|done|done|done|]. rewrite Hc. intros Hz k' u Hk' Hu.
  destruct (decide (k' < k)%nat); [by apply (Hb k')|].
  destruct (decide (k' = k)) as [->|].
  - by rewrite (nsteps_alias_det _ _ _ _ _ Hu Hs).
  - exfalso. destruct (He Hz) as [->|Ha]; [lia|].
    replace k' with (k + S (k' - k - 1))%nat in Hu by lia.
    apply nsteps_add_inv in Hu as (v & Hv & Hu). rewrite (nsteps_alias_det _ _ _ _ _ Hv Hs) in Hu.
    inversion Hu as [|? ? ? ? Hal]; subst. unfold alias in Hal. by rewrite Ha in Hal.
Qed.

Lemma resolve_at_found {W sock} `{Os W sock} name port servers w found w' :
  resolve_at name port servers w = (Ok found, w') ->
  (length found <= 64)%nat /\
  Forall (fun a => Io.port a = port /\ ip_wf (ip a) /\
    exists qtype r, qtype ∈ [TYPE_A; TYPE_AAAA] /\ answers servers name qtype r /\ ip a ∈ addresses r) found.
Proof.
  unfold resolve_at. case_bool_decide; [done|]. destruct (now w) as [t w1].
  destruct (resolve_loop _ _ _ _ _ _ _ _) as [[[found' answered] last] w2] eqn:E.
  destruct answered; [|done]. intros [= <- <-].
  apply resolve_loop_ok in E as (more & -> & parts & -> & Hl & Hp). cbn [app].
  split.
  - rewrite length_map. cbn in Hl.
    assert (Forall (fun p => (length p <= 32)%nat) parts) as Hall.
    { eapply Forall_impl; [done|]. cbn. intros p (qt & r & _ & Hr & ->).
      destruct Hr as (server & i & q & m & _ & _ & _ & Hm & _). by apply answer_addresses in Hm as [? _]. }
    destruct parts as [|p1 [|p2 [|p3 ps]]]; cbn in Hl |- *; try lia;
      rewrite ?Forall_cons in Hall; rewrite ?length_app; cbn; lia.
  - apply Forall_map, Forall_forall. intros a Ha. split; [done|]. cbn.
    apply list_elem_of_In, in_concat in Ha as (part & Hpart & Ha).
    apply list_elem_of_In in Hpart, Ha. rewrite Forall_forall in Hp.
    destruct (Hp _ Hpart) as (qt & r & Hqt & Hr & ->). split; [|by exists qt, r].
    destruct Hr as (server & i & q & m & _ & _ & _ & Hm & _).
    apply answer_addresses in Hm as [_ Hm]. rewrite Forall_forall in Hm. by apply Hm.
Qed.

(** A resolver for the witnesses: the world is the last question sent and the
    answer is one [A] record for its name. *)
Definition echo_answer (q : bytes) : bytes :=
  upto q 2 ++ be_bytes 2 33152 ++ be_bytes 2 1 ++ be_bytes 2 1 ++ be_bytes 2 0 ++ be_bytes 2 0 ++ from q 12 ++
  be_bytes 2 49164 ++ be_bytes 2 1 ++ be_bytes 2 1 ++ be_bytes 4 60 ++ be_bytes 2 4 ++ be_bytes 4 16909060.

#[local] Instance echo_os : Os bytes unit := {
  now w := (0, w); system_nanos w := (0, w); sleep _ w := w;
  getrandom n w := (Some (replicate (Z.to_nat n) (to_u8 7)), w);
  udp_bind _ := mret tt; udp_connect _ _ := mret tt;
  udp_send _ q := fun _ => (Ok (len q), q);
  udp_recv _ _ := fun w => (Ok (echo_answer w), w);
  tcp_connect _ _ := mret tt; set_read_timeout _ _ := mret tt; set_write_timeout _ _ := mret tt;
  set_nonblocking _ _ := mret tt; set_nodelay _ _ := mret tt;
  read _ _ := mret []; write _ b := mret (len b); write_all _ _ := mret tt;
  read_exact _ _ := mret []; shutdown _ _ := mret tt;
  poll fds _ := mret (0, map (fun _ => no_flags) fds) }.

(** Every address a resolution gives was in an answer to this very
    question: it came back from one of the resolvers given, carried the id of
    the question sent, echoed that name (in lower case) and type, and said
    "answer" or "no such name".  A resolution gives at most 64 addresses, all on
    the port asked for and each as wide as its family. *)
Theorem resolved_addresses_were_answered {W sock} `{Os W sock} name port servers w found w' :
  resolve_at name port servers w = (Ok found, w') ->
  (length found <= 64)%nat /\
  Forall (fun a => Io.port a = port /\ ip_wf (ip a) /\
    exists qtype r, qtype ∈ [TYPE_A; TYPE_AAAA] /\ answers servers name qtype r /\ ip a ∈ addresses r) found.
Proof. apply resolve_at_found. Qed.

Lemma resolved_addresses_were_answered_witness :
  let found := replicate 2 (mkAddr (V4 [Init.Byte.x01; Init.Byte.x02; Init.Byte.x03; Init.Byte.x04]) 443) in
  fst (resolve_at (B "Www.eu") 443 [mkAddr (V4 (B "abcd")) 53] ([] : bytes)) = Ok found /\
  Nat.le (length found) 64.
Proof.
  cbv zeta. split; [vm_compute; reflexivity|].
  eapply (resolved_addresses_were_answered (B "Www.eu") 443 [mkAddr (V4 (B "abcd")) 53] ([] : bytes)).
  vm_compute. reflexivity.
Defined.
