(* ===== verification/NetRelay.v ===== *)
(** The blind half of the egress proxy:
    [crates/bubbler-net-proxy/src/relay.rs].

    [Dir] is one direction of a tunnel and [round] one turn of the loop of
    [run], over any [Os].  [run] takes turns until one returns; a tunnel may
    carry bytes for ever, so it has fuel and the properties are invariants of
    every turn.  The byte-stream theorem speaks of what [logged] wrote down of
    the reads and writes of any operating system. *)
From S2P Require Export Io.

Definition CHUNK : Z := Z.shiftl 32 10.
Definition IDLE : Z := from_secs 60.

Lemma CHUNK_val : CHUNK = 32768.
Proof. reflexivity. Qed.

(** [ready(asked, got, want)]. *)
Definition ready (asked got want : PollFlags) : bool :=
  contains asked want && intersects got (flags_or want (mkFlags false false true true)).

Definition would_wait (err : io_error) : bool :=
  match kind err with WouldBlock | Interrupted => true | _ => false end.

Module Dir.

(** [held] is [buf[..len]]; the bytes past [len] are never looked at. *)
Record t := mk { held : bytes; off : Z; source_done : bool; sink_done : bool }.

Definition default : t := mk [] 0 false false.

Definition pending (d : t) : bool := off d <? len (held d).
Definition done (d : t) : bool := sink_done d.
Definition wants_read (d : t) : bool := negb (source_done d) && negb (pending d) && negb (sink_done d).
Definition wants_write (d : t) : bool := pending d && negb (sink_done d).

Definition abandon (d : t) : t := mk (held d) (len (held d)) true true.

Section Ops.
Context {W sock : Type} `{Os W sock}.

Definition close_sink (d : t) (sink : sock) (w : W) : t * W :=
  if sink_done d || negb (source_done d) || pending d then (d, w)
  else
    let '(_, w) := shutdown sink ShutWrite w in
    (mk (held d) (off d) (source_done d) true, w).

(** [read_from] and [write_to]: whether anything moved, and the direction
    after. *)
Definition read_from (d : t) (source : sock) (w : W) : (bool * t) * W :=
  match read source CHUNK w with
  | (Ok [], w) => ((false, mk (held d) (off d) true (sink_done d)), w)
  | (Ok got, w) => ((true, mk got 0 (source_done d) (sink_done d)), w)
  | (Err err, w) =>
      if would_wait err then ((false, d), w)
      else ((false, mk (held d) (off d) true (sink_done d)), w)
  end.

Definition write_to (d : t) (sink : sock) (w : W) : (bool * t) * W :=
  match write sink (from (held d) (off d)) w with
  | (Ok n, w) =>
      if n =? 0 then ((false, abandon d), w)
      else ((true, mk (held d) (off d + n) (source_done d) (sink_done d)), w)
  | (Err err, w) => if would_wait err then ((false, d), w) else ((false, abandon d), w)
  end.

End Ops.
End Dir.

Record Relay := mkRelay { out : Dir.t; back : Dir.t; moved_at : Z }.

Section Run.
Context {W sock : Type} `{Os W sock}.
Context (client upstream : sock) (idle : Z).

Definition want_in : PollFlags := mkFlags true false false false.
Definition want_out : PollFlags := mkFlags false true false false.

(** What a side is waited on for. *)
Definition asked_of (reads writes : Dir.t) : PollFlags :=
  flags_or (if Dir.wants_read reads then want_in else no_flags)
           (if Dir.wants_write writes then want_out else no_flags).

(** [if ready(..) { moved |= d.op(&s); }] *)
Definition when (b : bool) (op : W -> (bool * Dir.t) * W) (d : Dir.t) (w : W) : (bool * Dir.t) * W :=
  if b then op w else ((false, d), w).

(** The four moves after a [poll] that had news. *)
Definition act (on_client on_upstream from_client from_upstream : PollFlags) (o b : Dir.t) (w : W)
  : (bool * Dir.t * Dir.t) * W :=
  let '((m1, o), w) := when (ready on_client from_client want_in)
                         (Dir.read_from o client) o w in
  let '((m2, o), w) := when (ready on_upstream from_upstream want_out)
                         (Dir.write_to o upstream) o w in
  let '((m3, b), w) := when (ready on_upstream from_upstream want_in)
                         (Dir.read_from b upstream) b w in
  let '((m4, b), w) := when (ready on_client from_client want_out)
                         (Dir.write_to b client) b w in
  ((m1 || m2 || m3 || m4, o, b), w).

(** Why a turn ends the tunnel. *)
Inductive ending := BothDone | NothingToAsk | IdleOver | PollQuiet | PollFailed (e : io_error).

Definition fds_of (on_client on_upstream : PollFlags) : list (sock * PollFlags) :=
  (if flags_empty on_client then [] else [(client, on_client)]) ++
  (if flags_empty on_upstream then [] else [(upstream, on_upstream)]).

(** The revents of the entry a side has in the set, if it has one. *)
Definition revents (on_client on_upstream : PollFlags) (got : list PollFlags) : PollFlags * PollFlags :=
  let client_at := if flags_empty on_client then None else Some 0 in
  let upstream_at := if flags_empty on_upstream then None
                     else Some (if flags_empty on_client then 0 else 1) in
  let at_ i := match i with None => no_flags | Some i => default no_flags (get got i) end in
  (at_ client_at, at_ upstream_at).

Definition round (s : Relay) (w : W) : (ending + Relay) * W :=
  let '(o, w) := Dir.close_sink (out s) upstream w in
  let '(b, w) := Dir.close_sink (back s) client w in
  if Dir.done o && Dir.done b then (inl BothDone, w)
  else
    let on_client := asked_of o b in
    let on_upstream := asked_of b o in
    let fds := fds_of on_client on_upstream in
    if bool_decide (length fds = 0%nat) then (inl NothingToAsk, w)
    else
      let '(t, w) := now w in
      let left := saturating_sub idle (saturating_sub t (moved_at s)) in
      if left =? 0 then (inl IdleOver, w)
      else match poll fds left w with
      | (Err e, w) => (inl (PollFailed e), w)
      | (Ok (n, got), w) =>
        if n =? 0 then (inl PollQuiet, w)
        else
          let '(from_client, from_upstream) := revents on_client on_upstream got in
          let '((moved, o, b), w) := act on_client on_upstream from_client from_upstream o b w in
          if moved then let '(t, w) := now w in (inr (mkRelay o b t), w)
          else (inr (mkRelay o b (moved_at s)), w)
      end.

Definition result_of (e : ending) : result io_error unit :=
  match e with PollFailed e => Err e | _ => Ok tt end.

Fixpoint run_loop (fuel : nat) (s : Relay) (w : W) : (result io_error unit + Relay) * W :=
  match fuel with
  | O => (inr s, w)
  | S fuel =>
    match round s w with
    | (inl e, w) => (inl (result_of e), w)
    | (inr s, w) => run_loop fuel s w
    end
  end.

Definition run_setup : io W Z :=
  _ ← set_nonblocking client true;
  _ ← set_nonblocking upstream true;
  _ ← set_nodelay client true;
  _ ← set_nodelay upstream true;
  call now.

(** [run]: [inr] is a tunnel still open after so many turns. *)
Definition run (fuel : nat) (w : W) : (result io_error unit + Relay) * W :=
  match run_setup w with
  | (Err e, w) => (inl (Err e), w)
  | (Ok t, w) => run_loop fuel (mkRelay Dir.default Dir.default t) w
  end.

End Run.

#[global] Arguments revents : simpl never.
#[global] Arguments act : simpl never.

(** ** One direction *)

Section DirFacts.
Context {W sock : Type} `{EqDecision sock} `{OsLaws W sock}.
Notation LW := (W * list (event sock))%type.
#[local] Existing Instance logged | 0.

(** What is known of a direction from [source] to [sink] after [log]. *)
Record dir_inv (source sink : sock) (d : Dir.t) (log : list (event sock)) : Prop := {
  inv_off : 0 <= Dir.off d <= len (Dir.held d);
  inv_chunk : len (Dir.held d) <= CHUNK;
  inv_closed : Dir.sink_done d = true -> Dir.source_done d = true;
  inv_rest : exists rest, reads source log = writes sink log ++ rest /\ len rest <= CHUNK /\
    (Dir.sink_done d = false -> rest = from (Dir.held d) (Dir.off d));
  inv_shut : EShut sink ∈ log -> Dir.sink_done d = true /\ reads source log = writes sink log;
}.

(** Events that concern neither end leave it alone. *)
Lemma dir_inv_frame source sink d log ev :
  dir_inv source sink d log -> reads source [ev] = [] -> writes sink [ev] = [] -> ev <> EShut sink ->
  dir_inv source sink d (log ++ [ev]).
Proof.
  intros [? ? ? Hr Hs] E1 E2 E3. constructor; try done.
  - by rewrite reads_app, writes_app, E1, E2, !app_nil_r.
  - rewrite reads_app, writes_app, E1, E2, !app_nil_r. intros Hin. apply Hs. set_solver.
Qed.

Lemma from_pending d : Dir.pending d = false -> 0 <= Dir.off d <= len (Dir.held d) ->
  from (Dir.held d) (Dir.off d) = [].
Proof.
  unfold Dir.pending. intros. bool_to_prop. apply len_0. rewrite len_from; lia.
Qed.

Lemma close_sink_inv source sink d (lw : LW) d' lw' :
  source <> sink -> dir_inv source sink d lw.2 ->
  Dir.close_sink d sink lw = (d', lw') ->
  dir_inv source sink d' lw'.2 /\
  (forall d2, dir_inv sink source d2 lw.2 -> dir_inv sink source d2 lw'.2).
Proof.
  intros Hne Hi. destruct lw as [w log]; cbn [snd] in *. unfold Dir.close_sink.
  destruct (_ || _ || _) eqn:E; [intros [= <- <-]; done|]. bool_to_prop.
  cbn. destruct (shutdown sink ShutWrite w) as [r w1]. intros [= <- <-]. cbn in *.
  assert (reads source [EShut sink] = [] /\ writes sink [EShut sink] = []) as [E1 E2] by done.
  destruct Hi as [Ho Hc Hd Hr Hs]. split.
  - constructor; cbn; try done.
    + destruct Hr as (rest & Hr & Hl & Hrest). exists rest. rewrite reads_app, writes_app, E1, E2, !app_nil_r.
      split_and!; done.
    + intros _. split; [done|]. destruct Hr as (rest & Hr & Hl & Hrest).
      rewrite reads_app, writes_app, E1, E2, !app_nil_r, Hr, Hrest, from_pending by done.
      by rewrite app_nil_r.
  - intros d2 Hi2. apply dir_inv_frame; [done|done|done|congruence].
Qed.

Lemma read_from_inv source sink d (lw : LW) m d' lw' :
  source <> sink -> dir_inv source sink d lw.2 -> Dir.wants_read d = true ->
  Dir.read_from d source lw = ((m, d'), lw') ->
  dir_inv source sink d' lw'.2 /\
  (forall d2, dir_inv sink source d2 lw.2 -> dir_inv sink source d2 lw'.2).
Proof.
  intros Hne Hi Hw. destruct lw as [w log]; cbn [snd] in *. unfold Dir.wants_read in Hw. bool_to_prop.
  unfold Dir.read_from. cbn. pose proof (read_len source CHUNK w) as Hlen.
  destruct (read source CHUNK w) as [[b|e] w1] eqn:Er.
  - specialize (Hlen _ _ ltac:(rewrite CHUNK_val; lia) eq_refl). cbn. destruct Hi as [Ho Hc Hd Hr Hs].
    assert (Hrr : reads source [ERead source b] = b).
    { unfold reads. cbn. rewrite decide_True by done. apply app_nil_r. }
    assert (forall d2, dir_inv sink source d2 log -> dir_inv sink source d2 (log ++ [ERead source b])) as Hfr.
    { intros d2 Hi2. apply dir_inv_frame; [done| |done|done]. unfold reads. cbn. by rewrite decide_False. }
    destruct Hr as (rest & Hr & Hl & Hrest). rewrite from_pending in Hrest by done.
    assert (EShut sink ∉ log) as Hns by (intros Hin%Hs; destruct Hin; congruence).
    destruct b as [|x b]; intros [= <- <- <-]; (split; [|done]); constructor; cbn [Dir.off Dir.held Dir.sink_done Dir.source_done fst snd];
      try done; try congruence; try (split; [done|apply len_nonneg]).
    + exists []. rewrite reads_app, writes_app, Hrr, Hr, Hrest, !app_nil_r by done.
      split_and!; [done|done|]. intros. by rewrite from_pending.
    + intros Hin. exfalso. set_solver.
    + exists (x :: b). rewrite reads_app, writes_app, Hrr, Hr, Hrest, !app_nil_r by done.
      done.
    + intros Hin. exfalso. set_solver.
  - cbn. destruct (would_wait e); intros [= <- <- <-]; (split; [|done]); [done|].
    destruct Hi as [Ho Hc Hd Hr Hs]. by constructor.
Qed.

Lemma abandon_inv source sink d log :
  dir_inv source sink d log -> dir_inv source sink (Dir.abandon d) log.
Proof.
  intros [Ho Hc Hd Hr Hs]. constructor; cbn; try done.
  - lia.
  - destruct Hr as (rest & Hr & Hl & _). by exists rest.
  - intros [_ ?]%Hs. done.
Qed.

Lemma write_to_inv source sink d (lw : LW) m d' lw' :
  source <> sink -> dir_inv source sink d lw.2 -> Dir.wants_write d = true ->
  Dir.write_to d sink lw = ((m, d'), lw') ->
  dir_inv source sink d' lw'.2 /\
  (forall d2, dir_inv sink source d2 lw.2 -> dir_inv sink source d2 lw'.2).
Proof.
  intros Hne Hi Hw. destruct lw as [w log]; cbn [snd] in *. unfold Dir.wants_write in Hw. bool_to_prop.
  unfold Dir.write_to. cbn. set (p := from (Dir.held d) (Dir.off d)).
  pose proof (write_len sink p w) as Hlen.
  destruct (write sink p w) as [[n|e] w1] eqn:Ew.
  - specialize (Hlen _ _ eq_refl). cbn [fst snd]. set (ev := EWrite sink (upto p n)).
    assert (Hww : writes sink [ev] = upto p n).
    { unfold writes. cbn. rewrite decide_True by done. apply app_nil_r. }
    assert (forall d2, dir_inv sink source d2 log -> dir_inv sink source d2 (log ++ [ev])) as Hfr.
    { intros d2 Hi2. apply dir_inv_frame; [done|done| |done]. unfold writes. cbn. by rewrite decide_False. }
    destruct Hi as [Ho Hc Hd Hr Hs]. destruct Hr as (rest & Hr & Hl & Hrest).
    rewrite Hrest in Hr by done. fold p in Hr.
    assert (EShut sink ∉ log) as Hns by (intros Hin%Hs; destruct Hin; congruence).
    assert (len p = len (Dir.held d) - Dir.off d) as Hp by (apply len_from; lia).
    assert (dir_inv source sink (Dir.mk (Dir.held d) (Dir.off d + n) (Dir.source_done d) (Dir.sink_done d)) (log ++ [ev])) as Hnew.
    { constructor; cbn [Dir.off Dir.held Dir.sink_done Dir.source_done]; try done; [lia| |].
      - exists (from p n). rewrite reads_app, writes_app, Hww, Hr, <-!app_assoc, upto_from.
        unfold reads at 1. cbn [map concat]. rewrite !app_nil_r. split_and!; [done|rewrite len_from; lia|].
        intros _. unfold p, from. rewrite drop_drop. f_equal. lia.
      - intros Hin. exfalso. set_solver. }
    destruct (Z.eqb_spec n 0) as [->|]; intros [= <- <- <-]; (split; [|done]); [|done].
    apply abandon_inv in Hnew. unfold Dir.abandon in *. cbn in *. done.
  - cbn. destruct (would_wait e); intros [= <- <- <-]; (split; [|done]); [done|]. by apply abandon_inv.
Qed.

End DirFacts.

(** ** The tunnel *)

Lemma asked_in r w : contains (asked_of r w) want_in = Dir.wants_read r.
Proof. unfold asked_of, contains. destruct (Dir.wants_read r), (Dir.wants_write w); done. Qed.
Lemma asked_out r w : contains (asked_of r w) want_out = Dir.wants_write w.
Proof. unfold asked_of, contains. destruct (Dir.wants_read r), (Dir.wants_write w); done. Qed.
Lemma asked_empty r w : flags_empty (asked_of r w) = negb (Dir.wants_read r || Dir.wants_write w).
Proof. unfold asked_of, flags_empty. destruct (Dir.wants_read r), (Dir.wants_write w); done. Qed.

Lemma ready_in r w got : ready (asked_of r w) got want_in = true -> Dir.wants_read r = true.
Proof. unfold ready. rewrite asked_in. by intros [? _]%andb_true_iff. Qed.
Lemma ready_out r w got : ready (asked_of r w) got want_out = true -> Dir.wants_write w = true.
Proof. unfold ready. rewrite asked_out. by intros [? _]%andb_true_iff. Qed.

Lemma read_not_write d : Dir.wants_read d = true -> Dir.wants_write d = false.
Proof. unfold Dir.wants_read, Dir.wants_write. intros. bool_to_prop. by rewrite H1. Qed.

(** A direction that is still open after its sink was offered a close is
    waiting for something. *)
Lemma close_sink_waits {W sock} `{Os W sock} d (s : sock) (w : W) :
  let d' := (Dir.close_sink d s w).1 in
  Dir.done d' || Dir.wants_read d' || Dir.wants_write d' = true.
Proof.
  unfold Dir.close_sink, Dir.done, Dir.wants_read, Dir.wants_write.
  destruct (Dir.sink_done d) eqn:E1; cbn; [by rewrite E1|].
  destruct (Dir.source_done d) eqn:E2; cbn.
  - destruct (Dir.pending d) eqn:E3; cbn; [by rewrite E1, E2, E3|].
    by destruct (shutdown s ShutWrite w).
  - rewrite E1, E2. by destruct (Dir.pending d).
Qed.

Section TunnelFacts.
Context {W sock : Type} `{EqDecision sock} `{OsLaws W sock}.
Notation LW := (W * list (event sock))%type.
#[local] Existing Instance logged | 0.
Context (client upstream : sock) (Hne : client <> upstream).

Definition tunnel_inv (o b : Dir.t) (log : list (event sock)) : Prop :=
  dir_inv client upstream o log /\ dir_inv upstream client b log.

Lemma act_inv fc fu o b (lw : LW) m o' b' lw' :
  tunnel_inv o b lw.2 ->
  act client upstream (asked_of o b) (asked_of b o) fc fu o b lw = ((m, o', b'), lw') ->
  tunnel_inv o' b' lw'.2.
Proof.
  intros [Ho Hb]. unfold act, when.
  assert (exists m1 o1 lw1, (if ready (asked_of o b) fc want_in then Dir.read_from o client lw else ((false, o), lw)) = ((m1, o1), lw1) /\
    tunnel_inv o1 b lw1.2 /\ (Dir.wants_write o = true -> o1 = o)) as (m1 & o1 & lw1 & -> & [Ho1 Hb1] & Hw1).
  { destruct (ready _ _ _) eqn:R.
    - apply ready_in in R. destruct (Dir.read_from o client lw) as [[m1 o1] lw1] eqn:E.
      eapply read_from_inv in E as [? Hf]; [|exact Hne|done|done].
      exists m1, o1, lw1. split_and!; [done|split; auto|]. intros Hw. apply read_not_write in R. congruence.
    - exists false, o, lw. done. }
  assert (exists m2 o2 lw2, (if ready (asked_of b o) fu want_out then Dir.write_to o1 upstream lw1 else ((false, o1), lw1)) = ((m2, o2), lw2) /\
    tunnel_inv o2 b lw2.2) as (m2 & o2 & lw2 & -> & [Ho2 Hb2]).
  { destruct (ready _ _ _) eqn:R.
    - apply ready_out in R. destruct (Dir.write_to o1 upstream lw1) as [[m2 o2] lw2] eqn:E.
      eapply write_to_inv in E as [? Hf]; [|exact Hne|done|by rewrite Hw1].
      exists m2, o2, lw2. split; [done|split; auto].
    - exists false, o1, lw1. done. }
  assert (exists m3 b3 lw3, (if ready (asked_of b o) fu want_in then Dir.read_from b upstream lw2 else ((false, b), lw2)) = ((m3, b3), lw3) /\
    tunnel_inv o2 b3 lw3.2 /\ (Dir.wants_write b = true -> b3 = b)) as (m3 & b3 & lw3 & -> & [Ho3 Hb3] & Hw3).
  { destruct (ready _ _ _) eqn:R.
    - apply ready_in in R. destruct (Dir.read_from b upstream lw2) as [[m3 b3] lw3] eqn:E.
      eapply read_from_inv in E as [? Hf]; [|apply not_eq_sym, Hne|done|done].
      exists m3, b3, lw3. split_and!; [done|split; auto|]. intros Hw. apply read_not_write in R. congruence.
    - exists false, b, lw2. done. }
  destruct (ready (asked_of o b) fc want_out) eqn:R.
  - apply ready_out in R. destruct (Dir.write_to b3 client lw3) as [[m4 b4] lw4] eqn:E.
    eapply write_to_inv in E as [? Hf]; [|apply not_eq_sym, Hne|done|by rewrite Hw3].
    intros [= <- <- <- <-]. split; auto.
  - intros [= <- <- <- <-]. split; auto.
Qed.

Lemma round_inv idle s (lw : LW) r lw' :
  tunnel_inv (out s) (back s) lw.2 -> round client upstream idle s lw = (r, lw') ->
  match r with
  | inl _ => exists o b, tunnel_inv o b lw'.2
  | inr s' => tunnel_inv (out s') (back s') lw'.2
  end.
Proof.
  intros [Ho Hb]. unfold round.
  destruct (Dir.close_sink (out s) upstream lw) as [o lw1] eqn:E1.
  eapply close_sink_inv in E1 as [Ho1 Hf1]; [|exact Hne|done]. apply Hf1 in Hb. clear Hf1 Ho.
  destruct (Dir.close_sink (back s) client lw1) as [b lw2] eqn:E2.
  eapply close_sink_inv in E2 as [Hb2 Hf2]; [|apply not_eq_sym, Hne|done]. apply Hf2 in Ho1. clear Hf2 Hb.
  assert (tunnel_inv o b lw2.2) as Hi by done.
  destruct (_ && _); [intros [= <- <-]; eauto|]. case_bool_decide; [intros [= <- <-]; eauto|].
  destruct lw2 as [w2 log2]. cbn [now logged silent']. cbn. destruct (now w2) as [t w3].
  destruct (_ =? 0); [intros [= <- <-]; cbn; eauto|].
  unfold silent. destruct (poll _ _ w3) as [[[n got]|e] w4]; [|intros [= <- <-]; cbn; eauto].
  destruct (n =? 0); [intros [= <- <-]; cbn; eauto|].
  destruct (revents (asked_of o b) (asked_of b o) got) as [fc fu].
  destruct (act client upstream (asked_of o b) (asked_of b o) fc fu o b (w4, log2))
    as [[[m o'] b'] lw5] eqn:Ea. apply act_inv in Ea; [|done].
  destruct lw5 as [w5 log5]. unfold silent'. destruct m; [destruct (now w5) as [t' w6]|]; by intros [= <- <-].
Qed.

Lemma run_loop_inv fuel idle s (lw : LW) r lw' :
  tunnel_inv (out s) (back s) lw.2 -> run_loop client upstream idle fuel s lw = (r, lw') ->
  exists o b, tunnel_inv o b lw'.2.
Proof.
  revert s lw. induction fuel as [|fuel IH]; intros s lw Hi; cbn [run_loop].
  - intros [= <- <-]. eauto.
  - destruct (round _ _ _ s lw) as [[e|s'] lw1] eqn:E; apply round_inv in E; try done.
    + intros [= <- <-]. done.
    + by apply IH.
Qed.

Lemma setup_log (w : W) log r w' log' :
  @run_setup LW sock logged client upstream (w, log) = (r, (w', log')) -> log' = log.
Proof.
  unfold run_setup, mbind, io_bind, call. cbn. unfold silent, silent'.
  destruct (set_nonblocking client true w) as [[]  w1]; [|by intros [= _ _ <-]].
  destruct (set_nonblocking upstream true w1) as [[] w2]; [|by intros [= _ _ <-]].
  destruct (set_nodelay client true w2) as [[] w3]; [|by intros [= _ _ <-]].
  destruct (set_nodelay upstream true w3) as [[] w4]; [|by intros [= _ _ <-]].
  destruct (now w4) as [t w5]. by intros [= _ _ <-].
Qed.

Lemma tunnel_inv_init : tunnel_inv Dir.default Dir.default [].
Proof.
  assert (forall source sink : sock, dir_inv source sink Dir.default []) as Hd; [|by split].
  intros source sink. constructor; [|rewrite CHUNK_val|..]; cbn [Dir.default Dir.held Dir.off Dir.sink_done].
  - len_lia.
  - len_lia.
  - discriminate.
  - exists []. rewrite CHUNK_val. split_and!; [done|len_lia|done].
  - intros Hin. set_solver.
Qed.

End TunnelFacts.

(** ** Properties *)

(** C14. The relay carries each direction's bytes across unchanged and in order.
    Whatever the operating system answers and however long the tunnel runs, what
    has been written to one side is a prefix of what was read from the other, at
    most one buffer of [CHUNK] bytes behind it; and a side's write end is shut
    only once everything read for it has gone out. *)
Theorem relay_stream_integrity {W sock} `{EqDecision sock} `{OsLaws W sock}
    (client upstream : sock) idle fuel (w : W) r w' log :
  client <> upstream ->
  @run _ _ logged client upstream idle fuel (w, []) = (r, (w', log)) ->
  (exists rest, reads client log = writes upstream log ++ rest /\ len rest <= 32768) /\
  (exists rest, reads upstream log = writes client log ++ rest /\ len rest <= 32768) /\
  (EShut upstream ∈ log -> writes upstream log = reads client log) /\
  (EShut client ∈ log -> writes client log = reads upstream log).
Proof.
  intros Hne Hr. assert (exists o b, tunnel_inv client upstream o b log) as (o & b & Ho & Hb).
  { unfold run in Hr. destruct (@run_setup _ _ logged client upstream (w, [])) as [[t|e] [w1 log1]] eqn:E;
      apply setup_log in E as ->.
    - apply (run_loop_inv client upstream Hne) in Hr; [done|]. by apply tunnel_inv_init.
    - injection Hr as <- <- <-. exists Dir.default, Dir.default. by apply tunnel_inv_init. }
  destruct Ho as [_ _ _ (r1 & E1 & L1 & _) S1], Hb as [_ _ _ (r2 & E2 & L2 & _) S2].
  rewrite CHUNK_val in *. split_and!; [by exists r1|by exists r2| |].
  - intros [_ ?]%S1. done.
  - intros [_ ?]%S2. done.
Qed.

(** A world for the witnesses: the client says "hi" and is done, upstream says
    nothing, and every wait is answered at once. *)
Definition hi_os : Os bool bool := {|
  now w := (0, w); system_nanos w := (0, w); sleep _ w := w;
  getrandom n w := (None, w); udp_bind _ := mret true; udp_connect _ _ := mret tt;
  udp_send _ q := mret (len q); udp_recv _ _ := mret [];
  tcp_connect _ _ := mret true; set_read_timeout _ _ := mret tt; set_write_timeout _ _ := mret tt;
  set_nonblocking _ _ := mret tt; set_nodelay _ _ := mret tt;
  read s n := fun w => if s && w && (2 <=? n) then (Ok (B "hi"), false) else (Ok [], w);
  write _ b := mret (len b); write_all _ _ := mret tt;
  read_exact _ n := mret (replicate (Z.to_nat n) NUL); shutdown _ _ := mret tt;
  poll fds _ := mret (1, map snd fds) |}.

#[local] Instance hi_laws : @OsLaws bool bool hi_os.
Proof.
  constructor.
  - intros s n w b w' Hn. cbn. destruct (s && w), (Z.leb_spec 2 n); cbn; intros [= <- <-]; unfold len; cbn; lia.
  - intros s b w n w'. cbn. intros [= <- <-]. len_lia.
  - intros s n w b w' Hn [= <- <-]. len_lia.
  - intros s n w b w' Hn [= <- <-]. len_lia.
  - intros w t w' t' w'' [= <- <-] [= <- <-]. lia.
Qed.

Lemma relay_stream_integrity_witness :
  exists r w' log, @run _ _ (@logged _ _ hi_os) true false IDLE 5 (true, []) = (r, (w', log)) /\
    EShut false ∈ log /\ writes false log = B "hi" /\ writes false log = reads true log.
Proof.
  do 3 eexists. split; [vm_compute; reflexivity|]. split; [by_decide|]. split; [reflexivity|].
  eapply (@relay_stream_integrity bool bool _ hi_os hi_laws true false IDLE 5 true);
    [congruence|vm_compute; reflexivity|by_decide].
Defined.

(** A turn of the relay ends the tunnel for four reasons only: both
    directions are over; nothing has moved for the whole idle budget; [poll] let
    what was left of that budget pass; or [poll] itself failed.  An open
    direction always waits for something, so the source's empty poll set is
    never met. *)
Theorem relay_ends_only_when_over {W sock} `{Os W sock} (client upstream : sock) idle s (w : W) e w' :
  round client upstream idle s w = (inl e, w') ->
  match e with
  | BothDone => exists w1, Dir.sink_done (Dir.close_sink (out s) upstream w).1 = true /\
                  Dir.sink_done (Dir.close_sink (back s) client w1).1 = true
  | NothingToAsk => False
  | IdleOver => exists w1 t, now w1 = (t, w') /\ idle <= Z.max 0 (t - moved_at s)
  | PollQuiet => exists fds left got w1, poll fds left w1 = (Ok (0, got), w') /\ 0 < left <= Z.max 0 idle
  | PollFailed e => exists fds left w1, poll fds left w1 = (Err e, w')
  end.
Proof.
  unfold round. pose proof (close_sink_waits (out s) upstream w) as Ho. cbn in Ho.
  destruct (Dir.close_sink (out s) upstream w) as [o w1] eqn:E1.
  pose proof (close_sink_waits (back s) client w1) as Hb. cbn in Hb.
  destruct (Dir.close_sink (back s) client w1) as [b w2] eqn:E2. cbn [fst] in *.
  destruct (Dir.done o && Dir.done b) eqn:Ed.
  { intros [= <- <-]. exists w1. rewrite E2. by apply andb_true_iff in Ed. }
  case_bool_decide as Hf.
  { intros [= <- <-]. unfold fds_of in Hf. rewrite !asked_empty in Hf.
    destruct (Dir.wants_read o), (Dir.wants_write o), (Dir.wants_read b), (Dir.wants_write b);
      cbn in Hf; try done. rewrite !orb_false_r in *. by rewrite Ho, Hb in Ed. }
  destruct (now w2) as [t w3] eqn:En. unfold saturating_sub.
  destruct (Z.eqb_spec (Z.max 0 (idle - Z.max 0 (t - moved_at s))) 0).
  { intros [= <- <-]. exists w2, t. split; [done|lia]. }
  destruct (poll _ _ w3) as [[[n' got]|e'] w4] eqn:Ep.
  - destruct (Z.eqb_spec n' 0) as [->|].
    + intros [= <- <-]. do 4 eexists. split; [exact Ep|lia].
    + destruct (revents _ _ _) as [fc fu]. destruct (act _ _ _ _ _ _ _ _ _) as [[[m o'] b'] w5].
      destruct m; [|done]. by destruct (now w5).
  - intros [= <- <-]. by do 3 eexists.
Qed.

(** The relay never spins: when [poll] has news of any entry it was given,
    the turn reads or writes, for each side is polled for exactly what its
    directions act on. *)
Theorem relay_acts_on_news {sock} (client upstream : sock) o b got i s asked flags :
  get (fds_of client upstream (asked_of o b) (asked_of b o)) i = Some (s, asked) ->
  get got i = Some flags ->
  intersects flags (flags_or asked (mkFlags false false true true)) = true ->
  let '(fc, fu) := revents (asked_of o b) (asked_of b o) got in
  ready (asked_of o b) fc want_in || ready (asked_of b o) fu want_out ||
  ready (asked_of b o) fu want_in || ready (asked_of o b) fc want_out = true.
Proof.
  intros Hi Hg Hn.
  assert (forall r w got', flags_empty (asked_of r w) = false ->
    intersects got' (flags_or (asked_of r w) (mkFlags false false true true)) = true ->
    ready (asked_of r w) got' want_in || ready (asked_of r w) got' want_out = true) as Hr.
  { intros r w f He Hx. unfold ready. rewrite asked_in, asked_out. rewrite asked_empty in He.
    unfold asked_of, intersects in *. destruct f as [[] [] [] []], (Dir.wants_read r), (Dir.wants_write w);
      done. }
  unfold revents, fds_of in *.
  destruct (flags_empty (asked_of o b)) eqn:E1, (flags_empty (asked_of b o)) eqn:E2; cbn [app] in Hi.
  - apply get_some in Hi as ([|??] & ? & [=] & _).
  - apply get_some in Hi as ([|? [|??]] & q & [=] & Hi); subst. change (len []) with 0 in Hg.
    rewrite Hg. cbn -[ready asked_of get want_in want_out]. apply Hr in Hn; [|done].
    apply orb_true_iff in Hn as [->| ->]; by rewrite ?orb_true_r.
  - apply get_some in Hi as ([|? [|??]] & q & [=] & Hi); subst. change (len []) with 0 in Hg.
    rewrite Hg. cbn -[ready asked_of get want_in want_out]. apply Hr in Hn; [|done].
    apply orb_true_iff in Hn as [->| ->]; by rewrite ?orb_true_r.
  - apply get_some in Hi as ([|? [|? [|??]]] & q & [=] & Hi); subst;
      [change (len []) with 0 in Hg|change (len [_]) with 1 in Hg];
      rewrite Hg; cbn -[ready asked_of get want_in want_out]; (apply Hr in Hn; [|done]);
      apply orb_true_iff in Hn as [->| ->]; by rewrite ?orb_true_r.
Qed.

Lemma relay_ends_only_when_over_witness :
  exists w', @round _ _ hi_os true false 0 (mkRelay Dir.default Dir.default 0) true = (inl IdleOver, w') /\
    exists w1 t, @now _ _ hi_os w1 = (t, w').
Proof.
  eexists. split; [vm_compute; reflexivity|].
  edestruct (@relay_ends_only_when_over _ _ hi_os true false 0 (mkRelay Dir.default Dir.default 0) true IdleOver)
    as (w1 & t & Ht & _); [vm_compute; reflexivity|]. exists w1, t. exact Ht.
Defined.

Lemma relay_acts_on_news_witness :
  ready (asked_of Dir.default Dir.default) (mkFlags false false true false) want_in = true.
Proof.
  pose proof (relay_acts_on_news true false Dir.default Dir.default [mkFlags false false true false; no_flags]
    0 true want_in (mkFlags false false true false) eq_refl eq_refl eq_refl) as Hn.
  vm_compute in Hn |- *. exact Hn.
Defined.
