(* ===== verification/NetProxy.v ===== *)
(** The egress proxy's process: [crates/bubbler-net-proxy/src/main.rs].

    [Grammar] is the argument parser, [Log] the rate-limited log, [Tunnel] what
    one connection's thread does (read the request, judge it, dial, relay or
    refuse), and [Serve] the accept loop with its count of live tunnels, as a
    step relation in which the threads and the loop interleave.  A tunnel's
    world is the operating system's with the log's sink beside it.

    Two loops of a tunnel need not end by themselves, the one that reads the
    request (a [read] may be interrupted for ever) and the relay, so both have
    fuel, and a tunnel that ran out of it is [Running]. *)
From S2P Require Export NetConnect NetDns NetRelay.

Definition MAX_TUNNELS : Z := 64.
Definition HEADER_TIMEOUT : Z := from_secs 10.
Definition CONNECT_TIMEOUT : Z := from_secs 10.
Definition WRITE_TIMEOUT : Z := from_secs 10.
Definition REFUSE_TIMEOUT : Z := from_secs 1.
Definition LOG_BUDGET : Z := 20.
Definition LOG_WINDOW : Z := from_secs 1.
Definition READ_CHUNK : Z := 1024.

(** [OsStr::to_str]. *)
Definition to_str (word : bytes) : option bytes := if utf8_valid word then Some word else None.

Module Grammar.

Record Args := mkArgs {
  allow : list bytes; dns : list IpAddr; aport : Z; ready_fd : Z; log_fd : option Z;
  log_tunnels : bool }.

Definition listen_port (word : bytes) : option Z :=
  s ← to_str word;
  match parse_uint U16_MAX s with
  | Some port => if port >? 0 then Some port else None
  | None => None
  end.

Definition number (word : bytes) : option Z :=
  s ← to_str word;
  match parse_i32 s with Some fd => if fd >=? 0 then Some fd else None | None => None end.

(** The options read so far. *)
Record Partial := mkPartial {
  p_allow : list bytes; p_dns : list IpAddr; p_port : option Z; p_ready_fd : option Z;
  p_log_fd : option Z; p_log_tunnels : bool }.

Section Parse.
(** [IpAddr::from_str]. *)
Context (ip_from_str : bytes -> option IpAddr).

Fixpoint words (it : list bytes) (a : Partial) : option Partial :=
  match it with
  | [] => Some a
  | word :: it =>
    word ← to_str word;
    if bool_decide (word = B "--allow") then
      match it with
      | [] => None
      | v :: it =>
          s ← to_str v;
          words it (mkPartial (p_allow a ++ [s]) (p_dns a) (p_port a) (p_ready_fd a) (p_log_fd a) (p_log_tunnels a))
      end
    else if bool_decide (word = B "--dns") then
      match it with
      | [] => None
      | v :: it =>
          s ← to_str v; ip ← ip_from_str s;
          words it (mkPartial (p_allow a) (p_dns a ++ [ip]) (p_port a) (p_ready_fd a) (p_log_fd a) (p_log_tunnels a))
      end
    else if bool_decide (word = B "--port") && bool_decide (p_port a = None) then
      match it with
      | [] => None
      | v :: it =>
          port ← listen_port v;
          words it (mkPartial (p_allow a) (p_dns a) (Some port) (p_ready_fd a) (p_log_fd a) (p_log_tunnels a))
      end
    else if bool_decide (word = B "--ready-fd") && bool_decide (p_ready_fd a = None) then
      match it with
      | [] => None
      | v :: it =>
          fd ← number v;
          words it (mkPartial (p_allow a) (p_dns a) (p_port a) (Some fd) (p_log_fd a) (p_log_tunnels a))
      end
    else if bool_decide (word = B "--log-fd") && bool_decide (p_log_fd a = None) then
      match it with
      | [] => None
      | v :: it =>
          fd ← number v;
          words it (mkPartial (p_allow a) (p_dns a) (p_port a) (p_ready_fd a) (Some fd) (p_log_tunnels a))
      end
    else if bool_decide (word = B "--log-tunnels") && negb (p_log_tunnels a) then
      words it (mkPartial (p_allow a) (p_dns a) (p_port a) (p_ready_fd a) (p_log_fd a) true)
    else None
  end.

Definition parse_from (it : list bytes) : option Args :=
  a ← words it (mkPartial [] [] None None None false);
  if bool_decide (p_allow a = []) || bool_decide (p_dns a = []) then None
  else
    port ← p_port a;
    ready_fd ← p_ready_fd a;
    if bool_decide (Some ready_fd = p_log_fd a) then None
    else Some (mkArgs (p_allow a) (p_dns a) port ready_fd (p_log_fd a) (p_log_tunnels a)).

End Parse.
End Grammar.

Module Log.

(** [out] is the lines written, in order. *)
Record Sink := mk { out : list bytes; window : Z; written : Z; suppressed : Z }.

Definition new (t : Z) : Sink := mk [] t 0 0.

Definition line_text (msg : bytes) : bytes := B "bubbler-net-proxy: " ++ msg ++ [LF].

Definition put (s : Sink) (msg : bytes) : Sink :=
  mk (out s ++ [line_text msg]) (window s) (written s) (suppressed s).

Definition suppressed_text (n : Z) : bytes := B "suppressed " ++ decimal n ++ B " lines".

Definition roll (s : Sink) (now : Z) : Sink :=
  if saturating_sub now (window s) >=? LOG_WINDOW then
    let swallowed := suppressed s in
    let s := mk (out s) now 0 0 in
    if swallowed >? 0 then put s (suppressed_text swallowed) else s
  else s.

Definition at_ (s : Sink) (now : Z) (msg : bytes) : Sink :=
  let s := roll s now in
  if written s >=? LOG_BUDGET
  then mk (out s) (window s) (written s) (saturating_add_u64 (suppressed s) 1)
  else put (mk (out s) (window s) (written s + 1) (suppressed s)) msg.

End Log.

Module Tunnel.

Definition is_timeout (err : io_error) : bool :=
  match kind err with WouldBlock | TimedOut => true | _ => false end.

Definition octet (o : bytes) (i : nat) : Z := u8 (nth i o NUL).

Definition v4_inward (o : bytes) : bool :=
  (octet o 0 =? 127) || forallb (fun i => octet o i =? 0) (seq 0 4) ||
  ((octet o 0 =? 169) && (octet o 1 =? 254)).

(** [Ipv6Addr::to_ipv4_mapped]. *)
Definition to_ipv4_mapped (o : bytes) : option bytes :=
  if forallb (fun i => octet o i =? 0) (seq 0 10) && (octet o 10 =? 255) && (octet o 11 =? 255)
  then Some (from o 12) else None.

Definition is_inward (ip : IpAddr) : bool :=
  match ip with
  | V4 o => v4_inward o
  | V6 o =>
    match to_ipv4_mapped o with
    | Some o => v4_inward o
    | None =>
        (forallb (fun i => octet o i =? 0) (seq 0 15) && (octet o 15 =? 1)) ||
        forallb (fun i => octet o i =? 0) (seq 0 16) ||
        (Z.land (octet o 0 * 256 + octet o 1) 65472 =? 65152)
    end
  end.

Section Tunnel.
Context {W sock : Type} `{Os W sock}.

(** [saturating_duration_since] the clock now. *)
Definition time_left (deadline : Z) (w : W) : Z * W :=
  let '(t, w) := now w in (saturating_sub deadline t, w).

Fixpoint dial_loop (addrs : list SocketAddr) (deadline : Z) (late : bool) (w : W)
  : result Status.t sock * W :=
  let unreached late := if late : bool then Status.GATEWAY_TIMEOUT else Status.BAD_GATEWAY in
  match addrs with
  | [] => (Err (unreached late), w)
  | addr :: addrs =>
    if is_inward (ip addr) then dial_loop addrs deadline late w
    else
      let '(left_, w) := time_left deadline w in
      if left_ =? 0 then (Err (unreached true), w)
      else match tcp_connect addr left_ w with
      | (Ok upstream, w) => (Ok upstream, w)
      | (Err err, w) =>
          dial_loop addrs deadline (if bool_decide (kind err = TimedOut) then true else late) w
      end
  end.

Definition dial (host : bytes) (port : Z) (resolve : bytes -> Z -> io W (list SocketAddr)) (w : W)
  : result Status.t sock * W :=
  match resolve host port w with
  | (Err _, w) => (Err Status.BAD_GATEWAY, w)
  | (Ok addrs, w) =>
    let '(t, w) := now w in dial_loop addrs (t + CONNECT_TIMEOUT) false w
  end.

(** The loop of [read_request], with what has been read so far; [None] is a
    loop that ran out of fuel. *)
Fixpoint read_loop (fuel : nat) (client : sock) (deadline : Z) (buf : bytes) (w : W)
  : option (result (option Status.t) (Request * bytes)) * W :=
  match fuel with
  | O => (None, w)
  | S fuel =>
    match NetConnect.parse buf with
    | None => (None, w)
    | Some (Ok request) =>
        (Some (Ok (request, from buf (consumed request))), w)
    | Some (Err status) =>
      if negb (Status.code status =? 0) then (Some (Err (Some status)), w)
      else if len buf >=? MAX_HEADERS then (Some (Err (Some Status.BAD_REQUEST)), w)
      else
        let '(left_, w) := time_left deadline w in
        if left_ =? 0 then (Some (Err (Some Status.REQUEST_TIMEOUT)), w)
        else match set_read_timeout client (Some left_) w with
        | (Err _, w) => (Some (Err None), w)
        | (Ok _, w) =>
          match read client READ_CHUNK w with
          | (Ok [], w) => (Some (Err None), w)
          | (Ok got, w) => read_loop fuel client deadline (buf ++ got) w
          | (Err err, w) =>
            if bool_decide (kind err = Interrupted) then read_loop fuel client deadline buf w
            else if is_timeout err then (Some (Err (Some Status.REQUEST_TIMEOUT)), w)
            else (Some (Err None), w)
          end
        end
    end
  end.

Definition read_request (fuel : nat) (client : sock) (deadline : Z) (w : W)
  : option (result (option Status.t) (Request * bytes)) * W :=
  read_loop fuel client deadline [] w.

Definition open (client upstream : sock) (buffered : bytes) : io W unit :=
  _ ← set_write_timeout client (Some WRITE_TIMEOUT);
  _ ← set_write_timeout upstream (Some WRITE_TIMEOUT);
  _ ← write_all client ESTABLISHED;
  _ ← write_all upstream buffered;
  _ ← set_read_timeout client None;
  _ ← set_write_timeout client None;
  set_write_timeout upstream None.

(** The operating system's world with the log beside it. *)
Definition world : Type := W * Log.Sink.

Definition os {A} (m : W -> A * W) : world -> A * world := fun '(w, s) =>
  let '(a, w) := m w in (a, (w, s)).

Definition line (msg : bytes) : world -> world := fun '(w, s) =>
  let '(t, w) := now w in (w, Log.at_ s t msg).

Definition if_verbose (verbose : bool) (msg : bytes) (w : world) : world :=
  if verbose then line msg w else w.

Definition status_text (s : Status.t) : bytes := decimal (Status.code s) ++ B " " ++ Status.reason s.

Definition note_refusal (status : Status.t) : world -> world :=
  let why :=
    if Status.code status =? 400 then B "malformed request"
    else if Status.code status =? 405 then B "not CONNECT"
    else if Status.code status =? 408 then B "request header timed out"
    else if Status.code status =? 414 then B "request line too long"
    else if Status.code status =? 503 then B "too many tunnels"
    else Status.reason status in
  line (B "refused " ++ decimal (Status.code status) ++ B " " ++ why).

Definition refuse (client : sock) (status : Status.t) (wait : Z) (w : world) : world :=
  let '(sent, w) := os (_ ← set_write_timeout client (Some wait);
                        write_all client (Status.response status)) w in
  let w := match sent with
    | Ok _ => w
    | Err err => line (status_text status ++ B " not delivered: " ++ text err) w
    end in
  (os (shutdown client ShutBoth) w).2.

Inductive outcome := Running | Ended.

(** [host:port] as the log writes it. *)
Definition target_text (r : Request) : bytes := r_host r ++ B ":" ++ decimal (r_port r).

Definition tunnel (fuel : nat) (verbose : bool) (client : sock) (allowed : Allowlist.t)
    (dns : list SocketAddr) (w : world) : outcome * world :=
  let '(t, w) := os now w in
  let deadline := t + HEADER_TIMEOUT in
  match os (read_request fuel client deadline) w with
  | (None, w) => (Running, w)
  | (Some (Err (Some status)), w) =>
      (Ended, refuse client status WRITE_TIMEOUT (note_refusal status w))
  | (Some (Err None), w) => (Ended, w)
  | (Some (Ok (request, buffered)), w) =>
    if negb (Allowlist.matches allowed (r_host request) (r_port request)) then
      let w := line (B "denied " ++ target_text request ++ B ": no allow-host covers it") w in
      (Ended, refuse client Status.FORBIDDEN WRITE_TIMEOUT w)
    else match os (dial (r_host request) (r_port request) (fun host port => resolve_at host port dns)) w with
    | (Err status, w) =>
        let w := line (target_text request ++ B " not reached: " ++ status_text status) w in
        (Ended, refuse client status WRITE_TIMEOUT w)
    | (Ok upstream, w) =>
      match os (open client upstream buffered) w with
      | (Err err, w) =>
          (Ended, line (target_text request ++ B " tunnel not opened: " ++ text err) w)
      | (Ok _, w) =>
        let w := if_verbose verbose (B "tunnel to " ++ target_text request) w in
        match os (run client upstream IDLE fuel) w with
        | (inr _, w) => (Running, w)
        | (inl (Ok _), w) => (Ended, w)
        | (inl (Err err), w) => (Ended, line (target_text request ++ B " relay: " ++ text err) w)
        end
      end
    end
  end.

End Tunnel.
End Tunnel.

Module Serve.

(** Where the accept loop of [serve] is: waiting in [accept], about to load the
    count, about to take one more, about to spawn the thread. *)
Inductive Pc := AtAccept | AtLoad | AtTake | AtSpawn.

#[global] Instance Pc_eq_dec : EqDecision Pc.
Proof. solve_decision. Defined.

(** [live] is the shared count; [threads] the tunnel threads that have not
    dropped their [Live] yet. *)
Record State := mk { pc : Pc; live : Z; threads : Z }.

Definition init : State := mk AtAccept 0 0.

(** The count is a [usize]: [fetch_add] and [fetch_sub] wrap. *)
Definition wrap (n : Z) : Z := n mod 2 ^ 64.
(** [Live::take] and its [drop]. *)
Definition take_one (live : Z) : Z := wrap (live + 1).
Definition give_back (live : Z) : Z := wrap (live - 1).

(** One atomic action: of the loop, or the end of one tunnel's thread. *)
Inductive action :=
| Accepted        (* [accept] gave a connection *)
| AcceptFailed    (* it did not; the loop goes round *)
| Full            (* the count is at the limit: refuse and go round *)
| Free            (* it is not *)
| Take            (* [Live::take] *)
| Spawned         (* the thread holds the count from here *)
| NotSpawned      (* no thread: the closure is dropped, and the count with it *)
| Finished.       (* a tunnel is over and drops its count *)

Definition step (s : State) (a : action) : option State :=
  match a, pc s with
  | Accepted, AtAccept => Some (mk AtLoad (live s) (threads s))
  | AcceptFailed, AtAccept => Some s
  | Full, AtLoad => if live s >=? MAX_TUNNELS then Some (mk AtAccept (live s) (threads s)) else None
  | Free, AtLoad => if live s >=? MAX_TUNNELS then None else Some (mk AtTake (live s) (threads s))
  | Take, AtTake => Some (mk AtSpawn (take_one (live s)) (threads s))
  | Spawned, AtSpawn => Some (mk AtAccept (live s) (threads s + 1))
  | NotSpawned, AtSpawn => Some (mk AtAccept (give_back (live s)) (threads s))
  | Finished, _ =>
      if threads s >? 0 then Some (mk (pc s) (give_back (live s)) (threads s - 1)) else None
  | _, _ => None
  end.

Fixpoint run (s : State) (l : list action) : option State :=
  match l with [] => Some s | a :: l => s ← step s a; run s l end.

End Serve.

(** ** The arguments *)

Lemma opt_bind_some {A C} (m : option A) (f : A -> option C) c :
  (m ≫= f) = Some c <-> exists a, m = Some a /\ f a = Some c.
Proof. destruct m; cbn; naive_solver. Qed.

(** What the grammar promises of the arguments it accepts. *)
Record args_ok (a : Grammar.Args) : Prop := {
  some_allow : Grammar.allow a <> [];
  some_dns : Grammar.dns a <> [];
  allow_text : Forall (fun s => utf8_valid s = true) (Grammar.allow a);
  port_range : 1 <= Grammar.aport a <= U16_MAX;
  ready_range : 0 <= Grammar.ready_fd a <= I32_MAX;
  log_range : match Grammar.log_fd a with Some fd => 0 <= fd <= I32_MAX | None => True end;
  fds_distinct : Grammar.log_fd a <> Some (Grammar.ready_fd a);
}.

Section ArgsFacts.
Context (ip_from_str : bytes -> option IpAddr) (ip_text : IpAddr -> bytes).

(** An argv for some arguments. *)
Definition argv_of (a : Grammar.Args) : list bytes :=
  concat (map (fun s => [B "--allow"; s]) (Grammar.allow a)) ++
  concat (map (fun ip => [B "--dns"; ip_text ip]) (Grammar.dns a)) ++
  [B "--port"; decimal (Grammar.aport a); B "--ready-fd"; decimal (Grammar.ready_fd a)] ++
  match Grammar.log_fd a with Some fd => [B "--log-fd"; decimal fd] | None => [] end ++
  (if Grammar.log_tunnels a then [B "--log-tunnels"] else []).

Lemma to_str_some s x : to_str s = Some x <-> utf8_valid s = true /\ x = s.
Proof. unfold to_str. destruct (utf8_valid s); naive_solver. Qed.

Lemma listen_port_range w p : Grammar.listen_port w = Some p -> 1 <= p <= U16_MAX.
Proof.
  unfold Grammar.listen_port. intros (s & _ & Hs)%opt_bind_some.
  destruct (parse_uint _ _) as [q|] eqn:E; [|done]. apply parse_uint_range in E. rewrite Z.gtb_ltb in Hs.
  destruct (Z.ltb_spec 0 q); [|done]. injection Hs as <-. lia.
Qed.

Lemma number_range w n : Grammar.number w = Some n -> 0 <= n <= I32_MAX.
Proof.
  unfold Grammar.number. intros (s & _ & Hs)%opt_bind_some.
  destruct (parse_i32 _) as [q|] eqn:E; [|done]. apply parse_i32_range in E. rewrite Z.geb_leb in Hs.
  destruct (Z.leb_spec 0 q); [|done]. injection Hs as <-. lia.
Qed.

(** Every option keeps what the ones before it established. *)
Definition partial_ok (a : Grammar.Partial) : Prop :=
  Forall (fun s => utf8_valid s = true) (Grammar.p_allow a) /\
  (forall p, Grammar.p_port a = Some p -> 1 <= p <= U16_MAX) /\
  (forall p, Grammar.p_ready_fd a = Some p -> 0 <= p <= I32_MAX) /\
  (forall p, Grammar.p_log_fd a = Some p -> 0 <= p <= I32_MAX).

Lemma words_ok n it a a' : (length it <= n)%nat ->
  Grammar.words ip_from_str it a = Some a' -> partial_ok a -> partial_ok a'.
Proof.
  revert it a. induction n as [|n IH]; intros it a Hn; destruct it as [|word it]; cbn [Grammar.words length] in *;
    try (by intros [= <-]); try lia.
  intros (w & _ & Hw)%opt_bind_some (A1 & A2 & A3 & A4). revert Hw.
  repeat lazymatch goal with
  | |- (if ?b then _ else _) = _ -> _ => destruct b
  | |- match ?l with [] => _ | _ => _ end = _ -> _ => destruct l as [|? ?]; [done|]
  | |- (_ ≫= _) = _ -> _ => intros (? & ? & Hk)%opt_bind_some; revert Hk
  | |- None = _ -> _ => done
  end; cbn [length] in *; intros Hw; (apply IH in Hw; [exact Hw|lia|]);
    repeat match goal with
    | H : to_str _ = Some _ |- _ => apply to_str_some in H as [? ->]
    | H : Grammar.listen_port _ = Some _ |- _ => apply listen_port_range in H
    | H : Grammar.number _ = Some _ |- _ => apply number_range in H
    end; (split_and!; cbn;
      first [exact A1|exact A2|exact A3|exact A4|intros ? [= <-]; assumption
            |apply Forall_app; split; [exact A1|by repeat constructor]]).
Qed.

Lemma words_allow ws it a :
  Forall (fun s => utf8_valid s = true) ws ->
  Grammar.words ip_from_str (concat (map (fun s => [B "--allow"; s]) ws) ++ it) a =
  Grammar.words ip_from_str it (Grammar.mkPartial (Grammar.p_allow a ++ ws) (Grammar.p_dns a)
    (Grammar.p_port a) (Grammar.p_ready_fd a) (Grammar.p_log_fd a) (Grammar.p_log_tunnels a)).
Proof.
  revert a. induction ws as [|s ws IH]; intros a; cbn [map concat app].
  - intros _. rewrite app_nil_r. by destruct a.
  - intros [Hs Hws]%Forall_cons. etrans.
    { change (Grammar.words ip_from_str (B "--allow" :: s :: ?it) a) with
        (s ← to_str s; Grammar.words ip_from_str it (Grammar.mkPartial (Grammar.p_allow a ++ [s]) (Grammar.p_dns a)
           (Grammar.p_port a) (Grammar.p_ready_fd a) (Grammar.p_log_fd a) (Grammar.p_log_tunnels a))).
      reflexivity. }
    unfold to_str. rewrite Hs. cbn [mbind option_bind].
    rewrite IH by done. cbn. by rewrite <-app_assoc.
Qed.

Lemma words_dns ips it a :
  Forall (fun i => ip_from_str (ip_text i) = Some i /\ utf8_valid (ip_text i) = true) ips ->
  Grammar.words ip_from_str (concat (map (fun i => [B "--dns"; ip_text i]) ips) ++ it) a =
  Grammar.words ip_from_str it (Grammar.mkPartial (Grammar.p_allow a) (Grammar.p_dns a ++ ips)
    (Grammar.p_port a) (Grammar.p_ready_fd a) (Grammar.p_log_fd a) (Grammar.p_log_tunnels a)).
Proof.
  revert a. induction ips as [|i ips IH]; intros a; cbn [map concat app].
  - intros _. rewrite app_nil_r. by destruct a.
  - intros [[Hi Hu] Hips]%Forall_cons. etrans.
    { change (Grammar.words ip_from_str (B "--dns" :: ?v :: ?it) a) with
        (s ← to_str v; i ← ip_from_str s;
         Grammar.words ip_from_str it (Grammar.mkPartial (Grammar.p_allow a) (Grammar.p_dns a ++ [i])
           (Grammar.p_port a) (Grammar.p_ready_fd a) (Grammar.p_log_fd a) (Grammar.p_log_tunnels a))).
      reflexivity. }
    unfold to_str. rewrite Hu. cbn [mbind option_bind].
    rewrite Hi. cbn [mbind option_bind]. rewrite IH by done. cbn. by rewrite <-app_assoc.
Qed.

Lemma listen_port_decimal p : 1 <= p <= U16_MAX -> Grammar.listen_port (decimal p) = Some p.
Proof.
  intros Hp. unfold Grammar.listen_port, to_str. rewrite utf8_decimal by lia. cbn [mbind option_bind].
  rewrite parse_uint_decimal by lia. rewrite Z.gtb_ltb. by rewrite (proj2 (Z.ltb_lt 0 p)) by lia.
Qed.

Lemma number_decimal n : 0 <= n <= I32_MAX -> Grammar.number (decimal n) = Some n.
Proof.
  intros Hn. unfold Grammar.number, to_str. rewrite utf8_decimal by lia. cbn [mbind option_bind].
  rewrite parse_i32_decimal by lia. rewrite Z.geb_leb. by rewrite (proj2 (Z.leb_le 0 n)) by lia.
Qed.

End ArgsFacts.

Section GrammarFacts.
Context (ip_from_str : bytes -> option IpAddr) (ip_text : IpAddr -> bytes).

Lemma parse_from_ok it a : Grammar.parse_from ip_from_str it = Some a -> args_ok a.
Proof.
  unfold Grammar.parse_from. intros (p & Hp & Ha)%opt_bind_some.
  eapply (words_ok _ (length it)) in Hp as (A1 & A2 & A3 & A4); [|done|by repeat split].
  case_bool_decide; [done|]. case_bool_decide; [done|]. cbn [orb] in Ha.
  apply opt_bind_some in Ha as (port & Hport & Ha). apply opt_bind_some in Ha as (rfd & Hr & Ha).
  case_bool_decide; [done|]. injection Ha as <-. constructor; cbn; auto.
  destruct (Grammar.p_log_fd p); auto.
Qed.

Lemma words_tail a p it :
  Grammar.p_port p = None -> Grammar.p_ready_fd p = None -> Grammar.p_log_fd p = None ->
  Grammar.p_log_tunnels p = false -> args_ok a ->
  it = [B "--port"; decimal (Grammar.aport a); B "--ready-fd"; decimal (Grammar.ready_fd a)] ++
    match Grammar.log_fd a with Some fd => [B "--log-fd"; decimal fd] | None => [] end ++
    (if Grammar.log_tunnels a then [B "--log-tunnels"] else []) ->
  Grammar.words ip_from_str it p = Some (Grammar.mkPartial (Grammar.p_allow p) (Grammar.p_dns p)
    (Some (Grammar.aport a)) (Some (Grammar.ready_fd a)) (Grammar.log_fd a) (Grammar.log_tunnels a)).
Proof.
  destruct p as [pa pd pp pr pl pt]; cbn [Grammar.p_port Grammar.p_ready_fd Grammar.p_log_fd Grammar.p_log_tunnels Grammar.p_allow Grammar.p_dns].
  intros -> -> -> -> [_ _ _ Hp Hr Hl _] ->. destruct a as [? ? port rfd lfd lt]; cbn [Grammar.aport Grammar.ready_fd Grammar.log_fd Grammar.log_tunnels] in *.
  etrans.
  { change (Grammar.words ip_from_str (?l ++ ?k) ?p) with
      (port ← Grammar.listen_port (decimal port); rfd ← Grammar.number (decimal rfd);
       Grammar.words ip_from_str k (Grammar.mkPartial pa pd (Some port) (Some rfd) None false)).
    reflexivity. }
  rewrite listen_port_decimal, number_decimal by done. cbn [mbind option_bind].
  destruct lfd as [fd|].
  - etrans.
    { change (Grammar.words ip_from_str (?l ++ ?k) ?p) with
        (fd ← Grammar.number (decimal fd);
         Grammar.words ip_from_str k (Grammar.mkPartial pa pd (Some port) (Some rfd) (Some fd) false)).
      reflexivity. }
    rewrite number_decimal by done. cbn [mbind option_bind]. by destruct lt.
  - by destruct lt.
Qed.

(** The launcher's argv means what it says: every set of arguments the
    process can be given (some target, some resolver, a port that can be bound,
    distinct descriptors) is read back from the argv that writes it, and nothing
    the grammar accepts breaks those rules. *)
Theorem proxy_args_roundtrip a :
  args_ok a ->
  Forall (fun i => ip_from_str (ip_text i) = Some i /\ utf8_valid (ip_text i) = true) (Grammar.dns a) ->
  Grammar.parse_from ip_from_str (argv_of ip_text a) = Some a /\
  forall it a', Grammar.parse_from ip_from_str it = Some a' -> args_ok a'.
Proof.
  intros Ha Hd. split; [|apply parse_from_ok]. unfold Grammar.parse_from, argv_of.
  rewrite words_allow by apply Ha. rewrite words_dns by done.
  erewrite words_tail by (reflexivity || exact Ha). cbn. destruct Ha as [H1 H2 _ _ _ _ H3].
  rewrite !bool_decide_false by congruence. by destruct a.
Qed.

End GrammarFacts.

Lemma proxy_args_roundtrip_witness :
  let a := Grammar.mkArgs [B "api.example:443"] [V4 (B "abcd")] 3128 3 (Some 4) true in
  Grammar.parse_from (fun s => Some (V4 s)) (argv_of octets a) = Some a.
Proof.
  cbv zeta. apply (proxy_args_roundtrip (fun s => Some (V4 s)) octets).
  - constructor; cbn; try done; try (unfold U16_MAX, I32_MAX; lia). by repeat constructor.
  - by repeat constructor.
Defined.

(** ** The log *)

(** What a line of the log is: a message, or the count of those withheld. *)
Inductive entry := Msg (m : bytes) | Swallowed (n : Z).
Definition entry_text (e : entry) : bytes :=
  Log.line_text match e with Msg m => m | Swallowed n => Log.suppressed_text n end.
Definition accounted (e : entry) : Z := match e with Msg _ => 1 | Swallowed n => n end.
Definition total (es : list entry) : Z := fold_right Z.add 0 (map accounted es).

Definition log_run (s : Log.Sink) (calls : list (Z * bytes)) : Log.Sink :=
  foldl (fun s '(t, msg) => Log.at_ s t msg) s calls.

Definition messages (es : list entry) : list bytes :=
  omap (fun e => match e with Msg m => Some m | Swallowed _ => None end) es.

(** The accounts of a log that began at [t0], after the messages [ms]. *)
Record log_inv (t0 : Z) (ms : list bytes) (s : Log.Sink) (es : list entry) : Prop := {
  log_lines : Log.out s = map entry_text es;
  log_total : total es + Log.suppressed s = len ms;
  log_order : messages es `sublist_of` ms;
  log_suppressed : 0 <= Log.suppressed s;
  log_counts : Forall (fun e => 0 <= accounted e) es;
  log_written : 0 <= Log.written s <= LOG_BUDGET;
  log_window : t0 <= Log.window s;
  log_rate : len es <= (LOG_BUDGET + 1) * ((Log.window s - t0) / LOG_WINDOW) + Log.written s;
}.

Lemma total_app es es' : total (es ++ es') = total es + total es'.
Proof. unfold total. induction es as [|e es IH]; cbn in *; lia. Qed.

Lemma total_nonneg es : Forall (fun e => 0 <= accounted e) es -> 0 <= total es.
Proof. unfold total. induction 1; cbn; lia. Qed.

Lemma messages_app es es' : messages (es ++ es') = messages es ++ messages es'.
Proof. apply omap_app. Qed.

Lemma LOG_WINDOW_val : LOG_WINDOW = 1000000000.
Proof. reflexivity. Qed.

Lemma roll_inv t0 ms s es now :
  log_inv t0 ms s es -> exists es', log_inv t0 ms (Log.roll s now) es'.
Proof.
  intros Hi. unfold Log.roll, saturating_sub. rewrite Z.geb_leb.
  destruct (Z.leb_spec LOG_WINDOW (Z.max 0 (now - Log.window s))) as [Hw|]; [|by exists es].
  destruct Hi as [H1 H2 H3 H4 H5 H6 H7 H8].
  assert ((Log.window s - t0) / LOG_WINDOW + 1 <= (now - t0) / LOG_WINDOW) as Hdiv.
  { rewrite LOG_WINDOW_val in *. rewrite <-(Z.div_add _ 1) by lia. apply Z.div_le_mono; lia. }
  rewrite LOG_WINDOW_val in *. unfold LOG_BUDGET in *.
  rewrite Z.gtb_ltb. destruct (Z.ltb_spec 0 (Log.suppressed s)).
  - exists (es ++ [Swallowed (Log.suppressed s)]).
    constructor; cbn [Log.put Log.out Log.suppressed Log.written Log.window]; rewrite ?LOG_WINDOW_val;
      unfold LOG_BUDGET; try lia.
    + by rewrite H1, map_app.
    + rewrite total_app. unfold total at 2. cbn. lia.
    + rewrite messages_app. cbn. by rewrite app_nil_r.
    + apply Forall_app. split; [done|]. repeat constructor. cbn. lia.
    + len_lia.
  - exists es. constructor; cbn [Log.out Log.suppressed Log.written Log.window]; rewrite ?LOG_WINDOW_val;
      unfold LOG_BUDGET; try done; lia.
Qed.

Lemma at_inv t0 ms s es now msg :
  log_inv t0 ms s es -> len ms < U64_MAX -> exists es', log_inv t0 (ms ++ [msg]) (Log.at_ s now msg) es'.
Proof.
  intros (es1 & Hi)%(roll_inv _ _ _ _ now) Hn. unfold Log.at_. set (s1 := Log.roll s now) in *.
  destruct Hi as [H1 H2 H3 H4 H5 H6 H7 H8]. pose proof (total_nonneg _ H5).
  rewrite Z.geb_leb. destruct (Z.leb_spec LOG_BUDGET (Log.written s1)).
  - exists es1. unfold saturating_add_u64. rewrite Z.min_r by lia.
    constructor; cbn [Log.out Log.suppressed Log.written Log.window]; try done; try lia.
    + len_lia.
    + by apply sublist_inserts_r.
  - exists (es1 ++ [Msg msg]).
    constructor; cbn [Log.put Log.out Log.suppressed Log.written Log.window]; try done; try lia.
    + by rewrite H1, map_app.
    + rewrite total_app. unfold total at 2. cbn. len_lia.
    + rewrite messages_app. by apply sublist_app.
    + apply Forall_app. split; [done|]. by repeat constructor.
    + len_lia.
Qed.

Lemma log_run_inv t0 ms s es calls :
  log_inv t0 ms s es -> len ms + len calls <= U64_MAX ->
  exists es', log_inv t0 (ms ++ map snd calls) (log_run s calls) es'.
Proof.
  revert ms s es. induction calls as [|[t m] calls IH]; intros ms s es Hi Hn; cbn [log_run foldl map].
  - exists es. by rewrite app_nil_r.
  - destruct (at_inv t0 ms s es t m Hi) as (es' & Hi'); [len_lia|].
    apply IH in Hi'; [|len_lia]. rewrite <-app_assoc in Hi'. exact Hi'.
Qed.

Lemma window_le s calls T :
  Log.window s <= T -> Forall (fun c => fst c <= T) calls -> Log.window (log_run s calls) <= T.
Proof.
  revert s. induction calls as [|[t m] calls IH]; intros s Hs; [done|]. intros [Ht Hc]%Forall_cons.
  apply IH; [|done]. unfold Log.at_, Log.roll. cbn in Ht. repeat case_match; cbn; lia.
Qed.

(** The log is bounded and hides nothing.  However fast messages come, at
    most twenty of them and one notice go out per second the log has been open;
    the messages that do go out keep their order, and every one that does not is
    counted, in a notice already written or in the count the next one will
    give. *)
Theorem log_bounded_and_accounted t0 T calls :
  len calls <= U64_MAX -> t0 <= T -> Forall (fun c => fst c <= T) calls ->
  exists es, Log.out (log_run (Log.new t0) calls) = map entry_text es /\
    messages es `sublist_of` map snd calls /\
    total es + Log.suppressed (log_run (Log.new t0) calls) = len calls /\
    len (Log.out (log_run (Log.new t0) calls)) <= 21 * ((T - t0) / 1000000000 + 1).
Proof.
  intros Hn HT Hc. destruct (log_run_inv t0 [] (Log.new t0) [] calls) as (es & [H1 H2 H3 H4 H5 H6 H7 H8]).
  { constructor; cbn; try done; try (unfold LOG_BUDGET; lia). rewrite Z.sub_diag. done. }
  { len_lia. }
  pose proof (window_le (Log.new t0) calls T HT Hc).
  exists es. split_and!; [done|done|len_lia|]. rewrite H1, len_map. rewrite LOG_WINDOW_val in H8.
  assert ((Log.window (log_run (Log.new t0) calls) - t0) / 1000000000 <= (T - t0) / 1000000000)
    by (apply Z.div_le_mono; lia).
  unfold LOG_BUDGET in *. lia.
Qed.

Lemma log_bounded_and_accounted_witness :
  len (Log.out (log_run (Log.new 0) (replicate 100 (5, B "denied")))) <= 21.
Proof.
  destruct (log_bounded_and_accounted 0 5 (replicate 100 (5, B "denied"))) as (es & _ & _ & _ & Hl).
  - vm_compute. congruence.
  - lia.
  - repeat constructor; cbn; lia.
  - exact Hl.
Defined.

(** ** Reading the request *)

Section ReadFacts.
Context {W sock : Type} `{EqDecision sock} `{OsLaws W sock}.
Notation LW := (W * list (event sock))%type.

Definition connects (log : list (event sock)) : list SocketAddr :=
  omap (fun e => match e with EConnect a => Some a | _ => None end) log.

Lemma connects_app l k : connects (l ++ k) = connects l ++ connects k.
Proof. apply omap_app. Qed.

(** What the loop returns, with everything it has read from the client. *)
Definition read_result (client : sock) (log : list (event sock))
    (r : option (result (option Status.t) (Request * bytes))) : Prop :=
  match r with
  | Some (Ok (req, rest)) =>
      NetConnect.parse (reads client log) = Some (Ok req) /\
      rest = from (reads client log) (consumed req)
  | _ => True
  end.

Lemma read_loop_exact fuel client deadline buf w log r w' log' :
  reads client log = buf -> len buf <= MAX_HEADERS + READ_CHUNK ->
  Tunnel.read_loop (H := logged) fuel client deadline buf (w, log) = (r, (w', log')) ->
  read_result client log' r /\ len (reads client log') <= MAX_HEADERS + READ_CHUNK /\
  writes client log' = writes client log /\ connects log' = connects log /\ log `prefix_of` log'.
Proof.
  revert buf w log. induction fuel as [|fuel IH]; intros buf w log Hb Hl; cbn [Tunnel.read_loop].
  { intros [= <- <- <-]. rewrite Hb. done. }
  destruct (NetConnect.parse buf) as [[req|status]|] eqn:Ep.
  - intros [= <- <- <-]. cbn. by rewrite Hb.
  - destruct (negb _); [intros [= <- <- <-]; by rewrite Hb|].
    rewrite Z.geb_leb. destruct (Z.leb_spec MAX_HEADERS (len buf)); [intros [= <- <- <-]; by rewrite Hb|].
    unfold Tunnel.time_left. cbn. destruct (now w) as [t w1].
    destruct (_ =? 0); [intros [= <- <- <-]; by rewrite Hb|].
    unfold silent, noted.
    destruct (set_read_timeout client (Some (saturating_sub deadline t)) w1) as [[[]|e] w2]; [|intros [= <- <- <-]; by rewrite Hb].
    pose proof (read_len client READ_CHUNK w2) as Hlen.
    destruct (read client READ_CHUNK w2) as [[got|e] w3] eqn:Er.
    + specialize (Hlen _ _ ltac:(unfold READ_CHUNK; lia) eq_refl).
      assert (reads client [ERead client got] = got) as Hr.
      { unfold reads. cbn. rewrite decide_True by done. apply app_nil_r. }
      destruct got as [|b got].
      * intros [= <- <- <-]. rewrite reads_app, writes_app, connects_app, Hr, Hb, !app_nil_r.
        split_and!; try done. by exists [ERead client []].
      * intros (R1 & R2 & R3 & R4 & R5)%IH; [|by rewrite reads_app, Hr, Hb|len_lia].
        rewrite writes_app, connects_app, !app_nil_r in *. split_and!; try done.
        etrans; [|exact R5]. by exists [ERead client (b :: got)].
    + case_bool_decide; [by apply IH|].
      destruct (Tunnel.is_timeout e); intros [= <- <- <-]; by rewrite Hb.
  - intros [= <- <- <-]. by rewrite Hb.
Qed.

(** A client whose reads are never interrupted is answered in bounded turns. *)
Lemma read_loop_total fuel client deadline buf (w : W) :
  (forall n w e w', read client n w = (Err e, w') -> kind e <> Interrupted) ->
  Z.max 0 (MAX_HEADERS - len buf) < Z.of_nat fuel ->
  (Tunnel.read_loop fuel client deadline buf w).1 <> None.
Proof.
  intros Hint. revert buf w. induction fuel as [|fuel IH]; intros buf w Hf; cbn [Tunnel.read_loop]; [lia|].
  destruct (NetConnect.parse buf) as [[req|status]|] eqn:Ep; [done| |by apply parse_total in Ep].
  destruct (negb _); [done|]. rewrite Z.geb_leb. destruct (Z.leb_spec MAX_HEADERS (len buf)); [done|].
  destruct (Tunnel.time_left deadline w) as [lt w1]. destruct (lt =? 0); [done|].
  destruct (set_read_timeout client (Some lt) w1) as [[[]|e] w2]; [|done].
  destruct (read client READ_CHUNK w2) as [[got|e] w3] eqn:Er.
  - destruct got as [|b got]; [done|]. apply IH. len_lia.
  - rewrite bool_decide_false by (by eapply Hint). by destruct (Tunnel.is_timeout e).
Qed.

End ReadFacts.

(** ** What a tunnel may connect to

    [keeps P m]: the computation [m] over an instrumented world keeps the
    predicate [P] of the events so far. *)

Section Keeps.
Context {W sock : Type} `{EqDecision sock} `{Os W sock}.
Notation LW := (W * list (event sock))%type.
#[local] Existing Instance logged | 0.

Definition keeps {A} (P : list (event sock) -> Prop) (m : LW -> A * LW) : Prop :=
  forall lw, P lw.2 -> P (m lw).2.2.

Context (asked ok : SocketAddr -> Prop) (log0 : list (event sock)).

(** What an event says of an address: who is asked over UDP, and where a connection goes. *)
Definition ev_ok (e : event sock) : Prop :=
  match e with EUdp a => asked a | EConnect a => ok a | _ => True end.

(** The events go on from [log0], and every address in them is allowed. *)
Definition only_ok (log : list (event sock)) : Prop := log0 `prefix_of` log /\ Forall ev_ok log.

Lemma only_ok_app log ev : only_ok log -> ev_ok ev -> only_ok (log ++ [ev]).
Proof. intros [Hp Hf] He. split; [by apply prefix_app_r|]. apply Forall_app. by repeat constructor. Qed.

Lemma keeps_silent {A} (m : io W A) : keeps only_ok (silent m).
Proof. intros [w log] Hp. unfold silent. by destruct (m w). Qed.
Lemma keeps_silent' {A} (m : W -> A * W) : keeps only_ok (silent' m).
Proof. intros [w log] Hp. unfold silent'. by destruct (m w). Qed.
Lemma keeps_noted {A} (m : io W A) ev :
  (forall a, ev_ok (ev a)) -> keeps only_ok (noted m ev).
Proof.
  intros He [w log] Hp. unfold noted. destruct (m w) as [[a|e] w']; [|done]. by apply only_ok_app.
Qed.
Lemma keeps_before {A} (m : io W A) ev :
  ev_ok ev -> keeps only_ok (before ev m).
Proof. intros He [w log] Hp. unfold before. destruct (m w). by apply only_ok_app. Qed.

Lemma keeps_bind {A C} P (m : io LW A) (f : A -> io LW C) :
  keeps P m -> (forall a, keeps P (f a)) -> keeps P (m ≫= f).
Proof.
  intros Hm Hf lw Hp. unfold mbind, io_bind. specialize (Hm lw Hp).
  destruct (m lw) as [[a|e] lw']; [by apply Hf|done].
Qed.
Lemma keeps_call {A} P (m : LW -> A * LW) : keeps P m -> keeps P (call m).
Proof. intros Hm lw Hp. specialize (Hm lw Hp). unfold call. by destruct (m lw). Qed.
Lemma keeps_lift {A} P (r : result io_error A) : keeps P (lift r).
Proof. by intros lw. Qed.
Lemma keeps_ret {A} P (a : A) : keeps P (mret a : io LW A).
Proof. by intros lw. Qed.

Ltac keeps_op :=
  first [apply keeps_silent|apply keeps_silent'|apply keeps_lift|apply keeps_ret
        |apply keeps_noted; done
        |apply keeps_before; by first [exact I|assumption]].
Ltac keeps_step :=
  repeat (first [apply keeps_bind; [|intros ?]|apply keeps_call|keeps_op]).

Lemma keeps_random n got : keeps only_ok (random_bytes n got).
Proof.
  revert got. induction n as [|n IH]; intros got lw Hp; cbn [random_bytes]; destruct (_ >=? _); try done.
  pose proof (keeps_silent' (getrandom (2 - len got)) lw Hp) as Hg.
  change (silent' (getrandom (2 - len got)) lw) with (getrandom (2 - len got) lw) in Hg.
  destruct (getrandom (2 - len got) lw) as [[filled|] lw']; [|done]. destruct (_ >? _); [by apply IH|done].
Qed.

Lemma keeps_query_id : keeps only_ok (query_id (W := LW) (sock := sock)).
Proof.
  unfold query_id. apply keeps_bind; [apply keeps_call, keeps_random|].
  intros [got|]; [apply keeps_ret|]. unfold fallback_id. keeps_step.
Qed.

Lemma keeps_once name qtype server : asked server -> ok server -> keeps only_ok (once (W := LW) (sock := sock) name qtype server).
Proof.
  intros Hu Hs. unfold once, over_udp, over_tcp. apply keeps_bind; [apply keeps_query_id|intros id_].
  apply keeps_bind; [keeps_op|intros q]. apply keeps_bind; [keeps_step|intros msg].
  apply keeps_bind; [keeps_op|intros r]. destruct (negb _); [keeps_op|].
  apply keeps_bind; [|intros m; keeps_op]. keeps_step. destruct (_ >? _); keeps_op.
Qed.

Lemma keeps_tries n name qtype server deadline last : asked server -> ok server ->
  keeps only_ok (tries (W := LW) (sock := sock) n name qtype server deadline last).
Proof.
  intros Hu Hs. revert last. induction n as [|n IH]; intros last lw Hp; cbn [tries]; [done|].
  pose proof (keeps_silent' now lw Hp) as Hn. change (silent' now lw) with (now lw) in Hn.
  destruct (now lw) as [t lw1]. destruct (_ >=? _); [done|].
  pose proof (keeps_once name qtype server Hu Hs lw1 Hn) as Ho.
  destruct (once name qtype server lw1) as [[r|e] lw2]; [done|by apply IH].
Qed.

Lemma keeps_ask name qtype servers deadline : Forall (fun s => asked s /\ ok s) servers ->
  keeps only_ok (ask (W := LW) (sock := sock) name qtype servers deadline).
Proof.
  unfold ask. intros Hs. generalize (other (B "no resolver answered")).
  induction Hs as [|s ss [Hu Hs] _ IH]; intros last lw Hp; cbn [ask_loop]; [done|].
  pose proof (keeps_tries TRIES name qtype s deadline last Hu Hs lw Hp) as Ht.
  destruct (tries _ _ _ _ _ _ lw) as [[r|last'] lw']; [done|by apply IH].
Qed.

Lemma keeps_resolve name port servers : Forall (fun s => asked s /\ ok s) servers ->
  keeps only_ok (resolve_at (W := LW) (sock := sock) name port servers).
Proof.
  intros Hs lw Hp. unfold resolve_at. case_bool_decide; [done|].
  pose proof (keeps_silent' now lw Hp) as Hn. change (silent' now lw) with (now lw) in Hn.
  destruct (now lw) as [t lw1].
  assert (forall qts found answered last, keeps only_ok
    (resolve_loop (W := LW) (sock := sock) qts name servers (t + BUDGET) found answered last)) as Hl.
  { induction qts as [|qt qts IH]; intros found answered last lw2 Hp2; cbn [resolve_loop]; [done|].
    pose proof (keeps_ask name qt servers (t + BUDGET) Hs lw2 Hp2) as Ha.
    destruct (ask name qt servers (t + BUDGET) lw2) as [[more|e] lw3]; by apply IH. }
  specialize (Hl [TYPE_A; TYPE_AAAA] [] false (other (B "no resolver answered")) lw1 Hn).
  destruct (resolve_loop _ _ _ _ _ _ _ lw1) as [[[found answered] last] lw2]. by destruct answered.
Qed.

Lemma keeps_dial host port servers :
  Forall (fun s => asked s /\ ok s) servers ->
  (forall a qtype r, Tunnel.is_inward (ip a) = false -> Io.port a = port ->
     answers (W := LW) (sock := sock) servers host qtype r -> ip a ∈ addresses r -> ok a) ->
  keeps only_ok (Tunnel.dial (W := LW) (sock := sock) host port (fun h p => resolve_at h p servers)).
Proof.
  intros Hs Hok lw Hp. unfold Tunnel.dial.
  pose proof (keeps_resolve host port servers Hs lw Hp) as Hr.
  pose proof (resolve_at_found host port servers lw) as Hport.
  destruct (resolve_at host port servers lw) as [[addrs|e] lw1]; [|done].
  destruct (Hport _ _ eq_refl) as [_ Hall]. clear Hport.
  pose proof (keeps_silent' now lw1 Hr) as Hn. change (silent' now lw1) with (now lw1) in Hn.
  destruct (now lw1) as [t lw2]. cbn [snd] in *. clear Hr Hp lw lw1. generalize false as late.
  revert lw2 Hn. induction Hall as [|a addrs (Ha & _ & qt & r & _ & Hans & Hin) _ IH]; intros lw Hp late; cbn [Tunnel.dial_loop]; [done|].
  destruct (Tunnel.is_inward (ip a)) eqn:Hi; [by apply IH|]. unfold Tunnel.time_left.
  pose proof (keeps_silent' now lw Hp) as Hn. change (silent' now lw) with (now lw) in Hn.
  destruct (now lw) as [t' lw1]. destruct (_ =? 0); [done|].
  lazymatch goal with |- context [tcp_connect a ?d lw1] =>
    pose proof (keeps_before (tcp_connect a d) (EConnect a) ltac:(by eapply Hok) lw1 Hn) as Hc;
    change (before (EConnect a) (tcp_connect a d) lw1) with (tcp_connect a d lw1) in Hc;
    destruct (tcp_connect a d lw1) as [[up|e] lw2] end; [done|by apply IH].
Qed.

Lemma keeps_read_loop fuel client deadline buf lw : only_ok lw.2 -> forall r,
  Tunnel.read_loop (W := LW) (sock := sock) fuel client deadline buf lw = r -> only_ok r.2.2.
Proof.
  intros Hp r <-. revert buf lw Hp. induction fuel as [|fuel IH]; intros buf lw Hp; cbn [Tunnel.read_loop]; [done|].
  destruct (NetConnect.parse buf) as [[req|status]|]; [done| |done]. destruct (negb _); [done|]. destruct (_ >=? _); [done|]. unfold Tunnel.time_left.
  pose proof (keeps_silent' now lw Hp) as Hn. change (silent' now lw) with (now lw) in Hn. destruct (now lw) as [t lw1]. destruct (_ =? 0); [done|].
  lazymatch goal with |- context [set_read_timeout client ?d lw1] =>
    pose proof (keeps_silent (set_read_timeout client d) lw1 Hn) as Hs; change (silent (set_read_timeout client d) lw1) with (set_read_timeout client d lw1) in Hs;
    destruct (set_read_timeout client d lw1) as [[[]|e] lw2] end; [|done].
  pose proof (keeps_noted (read client READ_CHUNK) (ERead client) (fun _ => I) lw2 Hs) as Hr.
  change (noted (read client READ_CHUNK) (ERead client) lw2) with (read client READ_CHUNK lw2) in Hr.
  destruct (read client READ_CHUNK lw2) as [[[|b got]|e] lw3]; [done|by apply IH|]. case_bool_decide; [by apply IH|]. by destruct (Tunnel.is_timeout e).
Qed.

Lemma keeps_open client upstream buffered :
  keeps only_ok (Tunnel.open (W := LW) (sock := sock) client upstream buffered).
Proof. unfold Tunnel.open. keeps_step. Qed.

Lemma keeps_close d s : keeps only_ok (Dir.close_sink (W := LW) d s).
Proof.
  intros lw Hp. unfold Dir.close_sink. destruct (_ || _ || _); [done|].
  pose proof (keeps_before (shutdown s ShutWrite) (EShut s) I lw Hp) as Hc.
  change (before (EShut s) (shutdown s ShutWrite) lw) with (shutdown s ShutWrite lw) in Hc.
  by destruct (shutdown s ShutWrite lw).
Qed.

Lemma keeps_read d s : keeps only_ok (Dir.read_from (W := LW) d s).
Proof.
  intros lw Hp. unfold Dir.read_from.
  pose proof (keeps_noted (read s CHUNK) (ERead s) ltac:(done) lw Hp) as Hc.
  change (noted (read s CHUNK) (ERead s) lw) with (read s CHUNK lw) in Hc.
  destruct (read s CHUNK lw) as [[[|b got]|e] lw']; [done|done|]. by destruct (would_wait e).
Qed.

Lemma keeps_write d s : keeps only_ok (Dir.write_to (W := LW) d s).
Proof.
  intros lw Hp. unfold Dir.write_to. set (p := from _ _).
  pose proof (keeps_noted (write s p) (fun n => EWrite s (upto p n)) ltac:(done) lw Hp) as Hc.
  change (noted (write s p) (fun n => EWrite s (upto p n)) lw) with (write s p lw) in Hc.
  destruct (write s p lw) as [[n|e] lw']; [by destruct (n =? 0)|]. by destruct (would_wait e).
Qed.

Lemma keeps_when (b : bool) (op : LW -> (bool * Dir.t) * LW) d :
  keeps only_ok op -> keeps only_ok (when b op d).
Proof. intros Ho lw Hp. unfold when. destruct b; [by apply Ho|done]. Qed.

Lemma keeps_act client upstream oc ou fc fu o b :
  keeps only_ok (act (W := LW) (sock := sock) client upstream oc ou fc fu o b).
Proof.
  intros lw Hp. unfold act.
  pose proof (keeps_when (ready oc fc want_in) _ o (keeps_read o client) lw Hp) as H1.
  destruct (when _ _ o lw) as [[m1 o1] lw1].
  pose proof (keeps_when (ready ou fu want_out) _ o1 (keeps_write o1 upstream) lw1 H1) as H2.
  destruct (when _ _ o1 lw1) as [[m2 o2] lw2].
  pose proof (keeps_when (ready ou fu want_in) _ b (keeps_read b upstream) lw2 H2) as H3.
  destruct (when _ _ b lw2) as [[m3 b3] lw3].
  pose proof (keeps_when (ready oc fc want_out) _ b3 (keeps_write b3 client) lw3 H3) as H4.
  by destruct (when _ _ b3 lw3) as [[m4 b4] lw4].
Qed.

Lemma keeps_now : keeps only_ok (now (W := LW) (sock := sock)).
Proof. apply keeps_silent'. Qed.
Lemma keeps_poll fds t : keeps only_ok (poll (W := LW) (sock := sock) fds t).
Proof. apply keeps_silent. Qed.

Lemma keeps_round client upstream idle s :
  keeps only_ok (round (W := LW) (sock := sock) client upstream idle s).
Proof.
  intros lw Hp. unfold round.
  pose proof (keeps_close (out s) upstream lw Hp) as H1. destruct (Dir.close_sink (out s) upstream lw) as [o lw1].
  pose proof (keeps_close (back s) client lw1 H1) as H2. destruct (Dir.close_sink (back s) client lw1) as [b lw2].
  destruct (_ && _); [done|]. case_bool_decide; [done|].
  pose proof (keeps_now lw2 H2) as H3. destruct (now lw2) as [t lw3]. destruct (_ =? 0); [done|].
  lazymatch goal with |- context [poll ?f ?d lw3] =>
    pose proof (keeps_poll f d lw3 H3) as H4; destruct (poll f d lw3) as [[[n got]|e] lw4] end; [|done].
  destruct (n =? 0); [done|]. destruct (revents _ _ _) as [fc fu].
  pose proof (keeps_act client upstream (asked_of o b) (asked_of b o) fc fu o b lw4 H4) as H5.
  destruct (act _ _ _ _ _ _ _ _ lw4) as [[[m o'] b'] lw5].
  destruct m; [|done]. pose proof (keeps_now lw5 H5) as H6. by destruct (now lw5).
Qed.

Lemma keeps_run client upstream idle fuel :
  keeps only_ok (run (W := LW) (sock := sock) client upstream idle fuel).
Proof.
  assert (forall s, keeps only_ok (run_loop (W := LW) (sock := sock) client upstream idle fuel s)) as Hl.
  { induction fuel as [|fuel IH]; intros s lw Hp; cbn [run_loop]; [done|].
    pose proof (keeps_round client upstream idle s lw Hp) as H1.
    destruct (round client upstream idle s lw) as [[e|s'] lw']; [done|by apply IH]. }
  assert (keeps only_ok (run_setup (W := LW) (sock := sock) client upstream)) as Hs.
  { unfold run_setup. keeps_step. }
  intros lw Hp. unfold run. specialize (Hs lw Hp).
  destruct (run_setup client upstream lw) as [[t|e] lw']; [by apply Hl|done].
Qed.

(** The same of the computations that also hold the log's sink. *)
Definition keeps_w {A} (P : list (event sock) -> Prop) (m : Tunnel.world (W := LW) -> A * Tunnel.world (W := LW)) : Prop :=
  forall w, P w.1.2 -> P (m w).2.1.2.

Lemma keeps_os {A} P (m : LW -> A * LW) : keeps P m -> keeps_w P (Tunnel.os m).
Proof. intros Hm [lw s] Hp. specialize (Hm lw Hp). cbn. by destruct (m lw). Qed.

Lemma keeps_line msg (w : Tunnel.world) : only_ok w.1.2 -> only_ok (Tunnel.line (W := LW) (sock := sock) msg w).1.2.
Proof.
  destruct w as [lw s]. intros Hp. unfold Tunnel.line. pose proof (keeps_now lw Hp) as Hn. by destruct (now lw).
Qed.

Lemma keeps_refuse client status wait (w : Tunnel.world) :
  only_ok w.1.2 -> only_ok (Tunnel.refuse (W := LW) (sock := sock) client status wait w).1.2.
Proof.
  intros Hp. unfold Tunnel.refuse.
  assert (keeps only_ok (_ ← set_write_timeout client (Some wait);
    write_all client (Status.response status) : io LW unit)) as Hs by keeps_step.
  pose proof (keeps_os _ _ Hs w Hp) as H1.
  destruct (Tunnel.os _ w) as [sent w1]. cbn [snd] in H1.
  assert (only_ok (match sent with Ok _ => w1 | Err err => Tunnel.line (Tunnel.status_text status ++
    B " not delivered: " ++ text err) w1 end).1.2) as H2.
  { destruct sent; [done|]. by apply keeps_line. }
  refine (keeps_os _ _ _ _ H2). by apply keeps_before.
Qed.

End Keeps.

(** ** Properties of a tunnel *)

Section Safety.
Context {W sock : Type} `{EqDecision sock} `{OsLaws W sock}.
Notation LW := (W * list (event sock))%type.
#[local] Existing Instance logged | 0.

(** An address a tunnel may be opened to on the strength of the bytes [taken]
    from the client: the answer to a lookup of the target those bytes name, on
    the port they name, which the allowlist covers; and not one that leads back
    into the namespace. *)
Definition dial_target (allowed : Allowlist.t) (dns : list SocketAddr) (taken : bytes) (a : SocketAddr) : Prop :=
  Tunnel.is_inward (ip a) = false /\
  exists req qtype r, NetConnect.parse taken = Some (Ok req) /\
    Allowlist.matches allowed (r_host req) (r_port req) = true /\ Io.port a = r_port req /\
    answers (W := LW) (sock := sock) dns (r_host req) qtype r /\ ip a ∈ addresses r.

(** A resolver that is asked: one of those given, for a target the allowlist covers. *)
Definition asked_for (allowed : Allowlist.t) (dns : list SocketAddr) (taken : bytes) (a : SocketAddr) : Prop :=
  a ∈ dns /\ exists req, NetConnect.parse taken = Some (Ok req) /\ Allowlist.matches allowed (r_host req) (r_port req) = true.

Definition may_connect allowed dns taken a : Prop := asked_for allowed dns taken a \/ dial_target allowed dns taken a.

Lemma tunnel_connects fuel verbose client allowed dns (lw : LW) sink :
  lw.2 = [] ->
  let log := (Tunnel.tunnel (W := LW) fuel verbose client allowed dns (lw, sink)).2.1.2 in
  exists log1, log1 `prefix_of` log /\
    Forall (ev_ok (asked_for allowed dns (reads client log1)) (may_connect allowed dns (reads client log1))) log.
Proof.
  intros Hnil. cbv zeta. unfold Tunnel.tunnel. destruct lw as [w log]. cbn in Hnil. subst log.
  cbn [Tunnel.os now logged silent']. unfold silent'. destruct (now w) as [t w0].
  unfold Tunnel.read_request. lazymatch goal with |- context [Tunnel.os ?m ((w0, []), sink)] =>
    change (Tunnel.os m ((w0, []), sink)) with
      (let '(a, lw1) := Tunnel.read_loop (W := LW) fuel client (t + HEADER_TIMEOUT) [] (w0, []) in (a, (lw1, sink))) end.
  destruct (Tunnel.read_loop fuel client (t + HEADER_TIMEOUT) [] (w0, [])) as [r [w1 log1]] eqn:Er.
  assert (forall asked ok, Forall (ev_ok asked ok) log1) as Hcon by (intros asked ok; exact (proj2 (keeps_read_loop asked ok [] fuel client (t + HEADER_TIMEOUT) [] (w0, []) (conj (prefix_nil _) (Forall_nil_2 _)) _ Er))).
  apply read_loop_exact in Er as (Hres & _); [|done|by rewrite MAX_HEADERS_val].
  set (asked := asked_for allowed dns (reads client log1)). set (ok := may_connect allowed dns (reads client log1)).
  assert (forall lg, only_ok asked ok log1 lg -> exists log1, log1 `prefix_of` lg /\
    Forall (ev_ok (asked_for allowed dns (reads client log1)) (may_connect allowed dns (reads client log1))) lg) as Hfin.
  { intros lg [Hp Hf]. by exists log1. }
  assert (only_ok asked ok log1 (((w1, log1), sink) : Tunnel.world (W := LW)).1.2) as H1.
  { split; [done|]. apply Hcon. }
  destruct r as [[[req rest]|[status|]]|]; cbn [snd fst]; [|apply Hfin..]; [| |exact H1|exact H1].
  2:{ apply keeps_refuse. by apply keeps_line. }
  apply Hfin. cbn in Hres. destruct Hres as [Hparse _].
  destruct (Allowlist.matches _ _ _) eqn:Hm; cbn [negb].
  2:{ apply keeps_refuse. by apply keeps_line. }
  assert (keeps (only_ok asked ok log1) (Tunnel.dial (W := LW) (sock := sock) (r_host req) (r_port req)
    (fun h p => resolve_at h p dns))) as Hd.
  { apply keeps_dial.
    - apply Forall_forall. intros a Ha. assert (asked a) as Hasked by (split; [done|by exists req]). split; [done|by left].
    - intros a qt r Hi Hp Hans Hin. right. split; [done|]. by exists req, qt, r. }
  pose proof (keeps_os _ _ Hd _ H1) as H2.
  destruct (Tunnel.os _ ((w1, log1), sink)) as [[up|status] [[w2 log2] s2]]; cbn [snd fst] in H2 |- *.
  2:{ apply keeps_refuse. by apply keeps_line. }
  pose proof (keeps_os _ _ (keeps_open asked ok log1 client up rest) ((w2, log2), s2) H2) as H3.
  destruct (Tunnel.os _ ((w2, log2), s2)) as [[u|err] w3]; cbn [snd] in H3 |- *; [|by apply keeps_line].
  set (w4 := Tunnel.if_verbose _ _ _).
  assert (only_ok asked ok log1 w4.1.2) as H4.
  { unfold w4, Tunnel.if_verbose. destruct verbose; [by apply keeps_line|done]. }
  pose proof (keeps_os _ _ (keeps_run asked ok log1 client up IDLE fuel) w4 H4) as H5.
  destruct (Tunnel.os _ w4) as [[[u'|err]|rl] w5]; cbn [snd] in H5 |- *; [done|by apply keeps_line|done].
Qed.

End Safety.

(** ** The accept loop *)

(** The count the loop itself holds, between taking it and the spawn. *)
Definition in_hand (p : Serve.Pc) : Z := match p with Serve.AtSpawn => 1 | _ => 0 end.

(** The count is exactly the tunnels that hold it, and the loop only goes on to
    take one more while it is under the limit. *)
Definition serve_inv (s : Serve.State) : Prop :=
  0 <= Serve.threads s /\
  Serve.live s = Serve.threads s + in_hand (Serve.pc s) /\
  (Serve.pc s = Serve.AtTake -> Serve.live s < MAX_TUNNELS) /\ Serve.live s <= MAX_TUNNELS.

Lemma serve_step_inv s a s' : serve_inv s -> Serve.step s a = Some s' -> serve_inv s'.
Proof.
  unfold serve_inv, Serve.step, MAX_TUNNELS. intros (H1 & H2 & H3 & H4).
  assert (forall n, 0 <= n <= 64 -> Serve.wrap n = n) as Hw.
  { intros n Hn. unfold Serve.wrap. apply Z.mod_small. lia. }
  unfold Serve.take_one, Serve.give_back. rewrite Z.geb_leb, Z.gtb_ltb.
  destruct s as [pc live threads]; cbn in *.
  destruct a, pc; cbn in *; try done; try (destruct (Z.leb_spec 64 live)); try (destruct (Z.ltb_spec 0 threads));
    try done; intros [= <-]; cbn; try specialize (H3 eq_refl); rewrite ?Hw by lia;
    split_and!; try lia; intros; try lia; try done.
Qed.

Lemma serve_run_inv s l s' : serve_inv s -> Serve.run s l = Some s' -> serve_inv s'.
Proof.
  revert s. induction l as [|a l IH]; intros s Hs; cbn [Serve.run]; [by intros [= <-]|].
  intros (s1 & H1 & H2)%opt_bind_some. eapply IH; [|done]. by eapply serve_step_inv.
Qed.

(** ** Properties *)

(** C10. The sandbox chooses no address.  Over any operating system and for any
    bytes a client sends, a tunnel's thread asks over UDP only the resolvers it was
    given, and only once the client's request named a target that the allowlist
    covers; and it opens a connection only to one of them, then too, or to an
    address that answered a lookup, on the port the request names, of the name it
    names, when the allowlist covers that name with that port and the address does
    not lead back into the namespace (loopback, unspecified, link-local, mapped or
    not). *)
Theorem tunnel_dials_only_allowlisted {W sock} `{EqDecision sock} `{OsLaws W sock}
    fuel verbose (client : sock) allowed dns (w : W) sink o w' log sink' :
  Tunnel.tunnel (W := W * list (event sock)) (H := logged) fuel verbose client allowed dns ((w, []), sink)
  = (o, ((w', log), sink')) ->
  exists taken, taken `prefix_of` reads client log /\
    (forall a, EUdp a ∈ log -> asked_for allowed dns taken a) /\
    (forall a, EConnect a ∈ log -> asked_for allowed dns taken a \/ dial_target (W := W) (sock := sock) allowed dns taken a).
Proof.
  intros Ht. destruct (tunnel_connects fuel verbose client allowed dns (w, []) sink eq_refl) as (log1 & Hp & Hf).
  rewrite Ht in Hp, Hf. cbn [fst snd] in *. rewrite Forall_forall in Hf. exists (reads client log1).
  split; [destruct Hp as [k ->]; rewrite reads_app; by apply prefix_app_r|]. split; intros a Ha; exact (Hf _ Ha).
Qed.

(** Reading a request loses no byte and holds no more than a header block and
    one read: on success everything read is the request followed by exactly the
    bytes handed to the tunnel, nothing has been written to the client and
    nothing connected yet. *)
Theorem read_request_exact {W sock} `{EqDecision sock} `{OsLaws W sock}
    fuel (client : sock) deadline (w : W) r w' log :
  Tunnel.read_request (W := W * list (event sock)) (H := logged) fuel client deadline (w, []) = (r, (w', log)) ->
  len (reads client log) <= 9216 /\ writes client log = [] /\ connects log = [] /\
  forall req rest, r = Some (Ok (req, rest)) ->
    NetConnect.parse (reads client log) = Some (Ok req) /\
    reads client log = upto (reads client log) (consumed req) ++ rest.
Proof.
  intros Hr. apply read_loop_exact in Hr as (Hres & Hl & Hw & Hc & _); [|done|by rewrite MAX_HEADERS_val].
  rewrite MAX_HEADERS_val in Hl. split_and!; [done|done|done|].
  intros req rest ->. destruct Hres as [Hp ->]. by rewrite upto_from.
Qed.

(** The header phase ends: for a client whose reads are not interrupted, 8193
    turns always bring an answer, however its bytes are cut. *)
Theorem read_request_terminates {W sock} `{Os W sock} (client : sock) deadline (w : W) :
  (forall n w e w', read client n w = (Err e, w') -> kind e <> Interrupted) ->
  (Tunnel.read_request (Z.to_nat 8193) client deadline w).1 <> None.
Proof. intros Hi. apply read_loop_total; [done|]. rewrite MAX_HEADERS_val, Z2Nat.id by lia. len_lia. Qed.

(** However connections, spawns and endings interleave, at most 64 tunnels run
    at once, the shared count is exactly the number of tunnels that hold it and
    never wraps, and a connection is refused for want of a slot only while all 64
    are taken. *)
Theorem serve_tunnels_bounded l s :
  Serve.run Serve.init l = Some s ->
  0 <= Serve.threads s <= 64 /\
  Serve.live s = Serve.threads s + in_hand (Serve.pc s) /\
  (Serve.step s Serve.Full <> None -> Serve.threads s = 64).
Proof.
  intros Hr. apply serve_run_inv in Hr as (H1 & H2 & H3 & H4); [|done]. unfold MAX_TUNNELS in *.
  split_and!; [lia|destruct (Serve.pc s); cbn in *; lia|done|].
  destruct s as [pc live threads]; destruct pc; cbn in *; try done.
  rewrite Z.geb_leb. unfold MAX_TUNNELS. destruct (Z.leb_spec 64 live); [intros _; lia|done].
Qed.

Lemma serve_tunnels_bounded_witness :
  exists s, Serve.run Serve.init (concat (replicate 64 [Serve.Accepted; Serve.Free; Serve.Take; Serve.Spawned]) ++ [Serve.Accepted]) = Some s /\
    Serve.threads s = 64.
Proof.
  eexists. split; [vm_compute; reflexivity|].
  eapply (serve_tunnels_bounded (concat (replicate 64 [Serve.Accepted; Serve.Free; Serve.Take; Serve.Spawned]) ++ [Serve.Accepted]));
    [vm_compute; reflexivity|vm_compute; congruence].
Defined.

(** A world for the witnesses: what the client still has to say, and the last
    question sent to the resolver, which answers every name with 1.2.3.4.  The
    client is [true], every socket opened [false]. *)
Definition demo_os : Os (list bytes * bytes) bool := {|
  now w := (0, w); system_nanos w := (0, w); sleep _ w := w;
  getrandom n w := (Some (replicate (Z.to_nat n) (to_u8 7)), w);
  udp_bind _ := mret false; udp_connect _ _ := mret tt;
  udp_send _ q := fun w => (Ok (len q), (w.1, q));
  udp_recv _ n := fun w => (Ok (upto (echo_answer w.2) n), w);
  tcp_connect _ _ := mret false; set_read_timeout _ _ := mret tt; set_write_timeout _ _ := mret tt;
  set_nonblocking _ _ := mret tt; set_nodelay _ _ := mret tt;
  read s n := fun w => match w.1 with
    | c :: cs => if s then (Ok (upto c n), (cs, w.2)) else (Ok [], w)
    | [] => (Ok [], w)
    end;
  write _ b := mret (len b); write_all _ _ := mret tt;
  read_exact _ n := mret (replicate (Z.to_nat n) NUL); shutdown _ _ := mret tt;
  poll fds _ := mret (1, map snd fds) |}.

#[local] Instance demo_laws : @OsLaws _ bool demo_os.
Proof.
  constructor.
  - intros s n [cs q] b w' Hn. cbn. destruct cs as [|c cs]; [intros [= <- <-]; len_lia|].
    destruct s; intros [= <- <-]; [|len_lia]. unfold upto. len_lia.
  - intros s b w n w'. cbn. intros [= <- <-]. len_lia.
  - intros s n w b w' Hn [= <- <-]. unfold upto. len_lia.
  - intros s n w b w' Hn [= <- <-]. len_lia.
  - intros w t w' t' w'' [= <- <-] [= <- <-]. lia.
Qed.

Definition demo_target : SocketAddr :=
  mkAddr (V4 [Init.Byte.x01; Init.Byte.x02; Init.Byte.x03; Init.Byte.x04]) 443.
Definition demo_list : Allowlist.t := Allowlist.mk [(HostPattern.mk [B "www"; B "eu"] false, 443)].
Definition demo_server : SocketAddr := mkAddr (V4 (B "abcd")) 53.
Definition demo_world : list bytes * bytes := ([request_text (B "Www.eu") 443 ++ B "hello"], []).

Lemma tunnel_dials_only_allowlisted_witness :
  exists o w' log sink',
    Tunnel.tunnel (H := @logged _ _ demo_os) 9 true true demo_list [demo_server] ((demo_world, []), Log.new 0)
    = (o, ((w', log), sink')) /\ EConnect demo_target ∈ log /\ EUdp demo_server ∈ log /\
    exists taken, asked_for demo_list [demo_server] taken demo_server /\ (demo_target ∈ [demo_server] \/ Tunnel.is_inward (ip demo_target) = false).
Proof.
  do 4 eexists. split; [vm_compute; reflexivity|]. split; [by_decide|]. split; [by_decide|].
  edestruct (@tunnel_dials_only_allowlisted _ bool _ demo_os demo_laws 9 true true demo_list [demo_server]
    demo_world (Log.new 0)) as (t & _ & Hu & Hc); [vm_compute; reflexivity|]. exists t. split; [apply Hu; by_decide|].
  destruct (Hc demo_target) as [[Hd _]|[Hd _]]; [by_decide|left; exact Hd|right; exact Hd].
Defined.

Lemma read_request_exact_witness :
  exists req w' log,
    Tunnel.read_request (H := @logged _ _ demo_os) 9 true 5 (demo_world, [])
    = (Some (Ok (req, B "hello")), (w', log)) /\
    reads true log = upto (reads true log) (consumed req) ++ B "hello".
Proof.
  do 3 eexists. split; [vm_compute; reflexivity|].
  eapply (@read_request_exact _ bool _ demo_os demo_laws 9 true 5 demo_world); vm_compute; reflexivity.
Defined.

Lemma read_request_terminates_witness :
  (Tunnel.read_request (H := demo_os) (Z.to_nat 8193) true 5 demo_world).1 <> None.
Proof.
  apply (@read_request_terminates _ bool demo_os true 5 demo_world).
  intros n [[|c cs] q] e w'; cbn; discriminate.
Defined.
