(* ===== verification/WlTables.v ===== *)
(** The protocol tables of the Wayland proxy:
    [crates/bubbler-wl-proxy/src/tables.rs] and [privileged.rs].

    The list of interfaces itself is written by [build.rs] from the protocol
    XML, so it is a parameter, the class [Tables]; [TablesOk] is what the build
    script's output satisfies and the lookups rely on: the names are ASCII, sorted and
    distinct, and [wl_display] is where the constant says.  [binary_search] is
    the search of Rust's [slice::binary_search_by], and finds an element of a
    sorted list exactly when it is there. *)
From S2P Require Export Text.
From Stdlib Require Import Sorting.Sorted.

Inductive ArgKind := KInt | KUint | KFixed | KString | KObject | KNewId | KArray | KFd.

#[global] Instance ArgKind_eq_dec : EqDecision ArgKind.
Proof. solve_decision. Defined.

Record Message := mkMessage {
  m_name : bytes; since : Z; is_destructor : bool; m_args : list ArgKind;
  new_id_interface : option bytes }.

Record Interface := mkInterface {
  i_name : bytes; version : Z; requests : list Message; events : list Message }.

#[global] Instance Message_eq_dec : EqDecision Message.
Proof. solve_decision. Defined.
#[global] Instance Interface_eq_dec : EqDecision Interface.
Proof. solve_decision. Defined.

(** [Ord::cmp] on text: byte by byte. *)
Fixpoint cmp_bytes (a b : bytes) : comparison :=
  match a, b with
  | [], [] => Eq
  | [], _ :: _ => Lt
  | _ :: _, [] => Gt
  | x :: a, y :: b => match u8 x ?= u8 y with Eq => cmp_bytes a b | c => c end
  end.

(** The loop of [binary_search_by], [size] elements left from [base] on. *)
Fixpoint search_loop {A} (fuel : nat) (f : A -> comparison) (l : list A) (base size : nat) : nat :=
  match fuel with
  | O => base
  | S fuel =>
    if Nat.leb size 1 then base
    else
      let half := Nat.div size 2 in
      let mid := (base + half)%nat in
      let base := match f <$> l !! mid with Some Gt => base | _ => mid end in
      search_loop fuel f l base (size - half)
  end.

(** [binary_search_by(..).ok()]. *)
Definition binary_search {A} (f : A -> comparison) (l : list A) : option nat :=
  let base := search_loop (length l) f l 0 (length l) in
  match f <$> l !! base with Some Eq => Some base | _ => None end.

(** [slice.binary_search(&x).is_ok()] on text. *)
Definition search_text (l : list bytes) (x : bytes) : bool :=
  match binary_search (fun y => cmp_bytes y x) l with Some _ => true | None => false end.

(** [requests.get(opcode)], [events.get(opcode)]. *)
Definition request (i : Interface) (opcode : Z) : option Message := get (requests i) opcode.
Definition event (i : Interface) (opcode : Z) : option Message := get (events i) opcode.
Definition message (i : Interface) (from_client : bool) (opcode : Z) : option Message :=
  if from_client then request i opcode else event i opcode.

(** The generated tables. *)
Class Tables := {
  INTERFACES : list Interface;
  WL_DISPLAY_INDEX : nat;
}.

Definition index_of `{Tables} (name : bytes) : option nat :=
  binary_search (fun iface => cmp_bytes (i_name iface) name) INTERFACES.
Definition by_index `{Tables} (index : nat) : option Interface := INTERFACES !! index.
Definition lookup_iface `{Tables} (name : bytes) : option Interface := index_of name ≫= by_index.

(** Strictly increasing, by the names a list is searched under. *)
Definition sorted_by {A} (name : A -> bytes) (l : list A) : Prop :=
  StronglySorted (fun a b => cmp_bytes (name a) (name b) = Lt) l.

Class TablesOk `{Tables} := {
  tables_sorted : sorted_by i_name INTERFACES;
  tables_display : exists i, INTERFACES !! WL_DISPLAY_INDEX = Some i /\ i_name i = B "wl_display" /\ 1 <= version i;
  tables_versions : Forall (fun i => 1 <= version i <= U32_MAX) INTERFACES;
  tables_ascii : Forall (fun i => is_ascii (i_name i) = true) INTERFACES;
}.

Definition PRIVILEGED : list bytes := [
  B "ext_data_control_manager_v1";
  B "ext_foreign_toplevel_image_capture_source_manager_v1";
  B "ext_foreign_toplevel_list_v1";
  B "ext_idle_notifier_v1";
  B "ext_image_copy_capture_manager_v1";
  B "ext_output_image_capture_source_manager_v1";
  B "ext_session_lock_manager_v1";
  B "ext_transient_seat_manager_v1";
  B "ext_workspace_manager_v1";
  B "hyprland_ctm_control_manager_v1";
  B "hyprland_focus_grab_manager_v1";
  B "hyprland_global_shortcuts_manager_v1";
  B "hyprland_input_capture_manager_v1";
  B "hyprland_lock_notifier_v1";
  B "hyprland_toplevel_export_manager_v1";
  B "hyprland_toplevel_mapping_manager_v1";
  B "vicinae_hotkey_manager_v1";
  B "wp_content_type_manager_v1";
  B "wp_drm_lease_device_v1";
  B "wp_pointer_warp_v1";
  B "wp_security_context_manager_v1";
  B "xwayland_shell_v1";
  B "xx_input_method_manager_v2";
  B "zwlr_data_control_manager_v1";
  B "zwlr_export_dmabuf_manager_v1";
  B "zwlr_foreign_toplevel_manager_v1";
  B "zwlr_gamma_control_manager_v1";
  B "zwlr_input_inhibit_manager_v1";
  B "zwlr_layer_shell_v1";
  B "zwlr_output_manager_v1";
  B "zwlr_output_power_manager_v1";
  B "zwlr_screencopy_manager_v1";
  B "zwlr_virtual_pointer_manager_v1";
  B "zwp_fullscreen_shell_v1";
  B "zwp_input_method_manager_v2";
  B "zwp_input_method_v1";
  B "zwp_input_panel_v1";
  B "zwp_virtual_keyboard_manager_v1";
  B "zwp_xwayland_keyboard_grab_manager_v1";
  B "zxdg_output_manager_v1"].

Definition ALLOWED_GLOBALS : list bytes := [
  B "ext_background_effect_manager_v1";
  B "wl_compositor";
  B "wl_data_device_manager";
  B "wl_display";
  B "wl_output";
  B "wl_seat";
  B "wl_shell";
  B "wl_shm";
  B "wl_subcompositor";
  B "wp_alpha_modifier_v1";
  B "wp_color_manager_v1";
  B "wp_color_representation_manager_v1";
  B "wp_commit_timing_manager_v1";
  B "wp_cursor_shape_manager_v1";
  B "wp_fifo_manager_v1";
  B "wp_fractional_scale_manager_v1";
  B "wp_linux_drm_syncobj_manager_v1";
  B "wp_presentation";
  B "wp_single_pixel_buffer_manager_v1";
  B "wp_tearing_control_manager_v1";
  B "wp_viewporter";
  B "xdg_activation_v1";
  B "xdg_system_bell_v1";
  B "xdg_toplevel_drag_manager_v1";
  B "xdg_toplevel_icon_manager_v1";
  B "xdg_toplevel_tag_manager_v1";
  B "xdg_wm_base";
  B "xdg_wm_dialog_v1";
  B "xx_session_manager_v1";
  B "zwp_idle_inhibit_manager_v1";
  B "zwp_input_timestamps_manager_v1";
  B "zwp_keyboard_shortcuts_inhibit_manager_v1";
  B "zwp_linux_dmabuf_v1";
  B "zwp_linux_explicit_synchronization_v1";
  B "zwp_pointer_constraints_v1";
  B "zwp_pointer_gestures_v1";
  B "zwp_primary_selection_device_manager_v1";
  B "zwp_relative_pointer_manager_v1";
  B "zwp_tablet_manager_v1";
  B "zwp_tablet_manager_v2";
  B "zwp_text_input_manager_v1";
  B "zwp_text_input_manager_v3";
  B "zxdg_decoration_manager_v1";
  B "zxdg_exporter_v1";
  B "zxdg_exporter_v2";
  B "zxdg_importer_v1";
  B "zxdg_importer_v2";
  B "zxdg_shell_v6"].

(** ** Order of text *)

Lemma cmp_eq a b : cmp_bytes a b = Eq <-> a = b.
Proof.
  revert b. induction a as [|x a IH]; intros [|y b]; cbn; try done.
  destruct (Z.compare_spec (u8 x) (u8 y)) as [E|E|E].
  - apply u8_inj in E as ->. rewrite IH. split; [by intros ->|by intros [= ->]].
  - split; [done|]. intros [= -> ->]. lia.
  - split; [done|]. intros [= -> ->]. lia.
Qed.

Lemma cmp_refl a : cmp_bytes a a = Eq.
Proof. by apply cmp_eq. Qed.

Lemma cmp_opp a b : cmp_bytes b a = CompOpp (cmp_bytes a b).
Proof.
  revert b. induction a as [|x a IH]; intros [|y b]; cbn; try done.
  rewrite (Z.compare_antisym (u8 x) (u8 y)). destruct (u8 x ?= u8 y); cbn; auto.
Qed.

Lemma cmp_lt_trans a b c : cmp_bytes a b = Lt -> cmp_bytes b c = Lt -> cmp_bytes a c = Lt.
Proof.
  revert b c. induction a as [|x a IH]; intros [|y b] [|z c]; cbn; try done.
  destruct (Z.compare_spec (u8 x) (u8 y)), (Z.compare_spec (u8 y) (u8 z)); try done; intros H1 H2;
    destruct (Z.compare_spec (u8 x) (u8 z)); try done; try lia. by eapply IH.
Qed.

Lemma sorted_lookup {A} (name : A -> bytes) l i j a b :
  sorted_by name l -> (i < j)%nat -> l !! i = Some a -> l !! j = Some b ->
  cmp_bytes (name a) (name b) = Lt.
Proof.
  intros Hs. revert i j. induction Hs as [|x l Hs IH Hx]; intros i j Hij Ha Hb; [done|].
  destruct i as [|i], j as [|j]; try lia; cbn in *.
  - injection Ha as ->. rewrite Forall_forall in Hx. apply Hx. by eapply list_elem_of_lookup_2.
  - eapply IH; [|done|done]. lia.
Qed.

Lemma sorted_inj {A} (name : A -> bytes) l i j a b :
  sorted_by name l -> l !! i = Some a -> l !! j = Some b -> name a = name b -> i = j.
Proof.
  intros Hs Ha Hb Hn. destruct (Nat.lt_trichotomy i j) as [H|[H|H]]; [|done|]; exfalso.
  - pose proof (sorted_lookup _ _ _ _ _ _ Hs H Ha Hb) as E. by rewrite Hn, cmp_refl in E.
  - pose proof (sorted_lookup _ _ _ _ _ _ Hs H Hb Ha) as E. by rewrite Hn, cmp_refl in E.
Qed.

(** ** The search *)

#[local] Arguments Nat.div : simpl never.

(** The element sought, wherever it is, stays among those left. *)
Lemma search_loop_spec {A} (name : A -> bytes) l x fuel base size i a :
  sorted_by name l -> l !! i = Some a -> name a = x ->
  (size <= fuel)%nat -> (1 <= size)%nat -> (base <= i < base + size)%nat -> (base + size <= length l)%nat ->
  search_loop fuel (fun y => cmp_bytes (name y) x) l base size = i.
Proof.
  intros Hs Hi <-. revert base size. induction fuel as [|fuel IH]; intros base size Hf Hsz Hb Hl; [lia|].
  cbn [search_loop]. destruct (Nat.leb_spec size 1); [lia|].
  pose proof (Nat.div_mod size 2 ltac:(lia)) as Hd. pose proof (Nat.mod_upper_bound size 2 ltac:(lia)) as Hm.
  set (half := Nat.div size 2) in *.
  destruct (lookup_lt_is_Some_2 l (base + half)) as [m Hmid]; [lia|]. rewrite Hmid. cbn.
  destruct (decide (i = base + half)%nat) as [Hin|Hin].
  - subst i. rewrite Hmid in Hi. injection Hi as ->. rewrite cmp_refl. apply IH; lia.
  - destruct (decide (i < base + half)%nat) as [Hlt|Hge].
    + pose proof (sorted_lookup _ _ _ _ _ _ Hs Hlt Hi Hmid) as E. rewrite cmp_opp, E. cbn.
      apply IH; lia.
    + assert (Hgt : (base + half < i)%nat) by lia.
      pose proof (sorted_lookup _ _ _ _ _ _ Hs Hgt Hmid Hi) as E. rewrite E. apply IH; lia.
Qed.

Lemma binary_search_spec {A} (name : A -> bytes) l x i :
  sorted_by name l ->
  binary_search (fun y => cmp_bytes (name y) x) l = Some i <-> exists a, l !! i = Some a /\ name a = x.
Proof.
  intros Hs. unfold binary_search. split.
  - destruct (l !! search_loop _ _ l 0 (length l)) as [a|] eqn:E; [|done]. cbn.
    destruct (cmp_bytes (name a) x) eqn:Ec; [|done|done]. intros [= <-]. exists a.
    split; [done|by apply cmp_eq].
  - intros (a & Ha & Hx). apply lookup_lt_Some in Ha as Hlt.
    rewrite (search_loop_spec name l x (length l) 0 (length l) i a) by (done || lia).
    rewrite Ha. cbn. by rewrite Hx, cmp_refl.
Qed.

Lemma search_text_spec l x : sorted_by id l -> search_text l x = true <-> x ∈ l.
Proof.
  intros Hs. unfold search_text. pose proof (binary_search_spec id l x) as Hb.
  destruct (binary_search (fun y => cmp_bytes y x) l) as [i|] eqn:E.
  - split; [|done]. intros _. apply Hb in E as (a & Ha & <-); [|done]. by eapply list_elem_of_lookup_2.
  - split; [done|]. intros (i & Hi)%list_elem_of_lookup.
    assert (binary_search (fun y => cmp_bytes (id y) x) l = Some i) as E' by (apply Hb; [done|by exists x]).
    unfold id in E'. congruence.
Qed.

(** A sorted list is checked by comparing neighbours. *)
Fixpoint increasing (l : list bytes) : bool :=
  match l with
  | a :: (b :: _) as t => match cmp_bytes a b with Lt => increasing t | _ => false end
  | _ => true
  end.

Lemma increasing_sorted l : increasing l = true -> sorted_by id l.
Proof.
  induction l as [|a l IH]; [constructor|]. intros Ha.
  assert (increasing l = true /\ match l with [] => True | b :: _ => cmp_bytes a b = Lt end) as [H1 H2].
  { destruct l as [|b l]; [done|]. cbn [increasing] in Ha. by destruct (cmp_bytes a b). }
  specialize (IH H1). constructor; [done|]. destruct l as [|b l]; [constructor|].
  constructor; [done|]. inversion IH as [|? ? _ Hb]; subst. eapply Forall_impl; [exact Hb|].
  cbn. intros c Hc. by eapply cmp_lt_trans.
Qed.

Lemma privileged_sorted : sorted_by id PRIVILEGED.
Proof. apply increasing_sorted. vm_compute. reflexivity. Qed.

(** ** Properties *)

(** A lookup by name finds an interface exactly when the tables describe one
    of that name, and an index names it back; so "unknown" means the tables do
    not have it, never that the search missed it. *)
Theorem lookup_iff_described `{TablesOk} name :
  (forall i, lookup_iface name = Some i <-> i ∈ INTERFACES /\ i_name i = name) /\
  (forall n, index_of name = Some n <-> exists i, by_index n = Some i /\ i_name i = name).
Proof.
  pose proof tables_sorted as Hs.
  assert (forall n, index_of name = Some n <-> exists i, by_index n = Some i /\ i_name i = name) as Hidx.
  { intros n. unfold index_of, by_index. by apply (binary_search_spec i_name). }
  split; [|done]. intros i. unfold lookup_iface. destruct (index_of name) as [n|] eqn:E; cbn.
  - destruct (proj1 (Hidx n) eq_refl) as (j & Hj & Hn). unfold by_index in *. rewrite Hj. split.
    + intros [= ->]. split; [by eapply list_elem_of_lookup_2|done].
    + intros [(m & Hm)%list_elem_of_lookup Hi]. f_equal.
      assert (n = m) as -> by (eapply (sorted_inj i_name); [exact Hs|exact Hj|exact Hm|congruence]). congruence.
  - split; [done|]. intros [(m & Hm)%list_elem_of_lookup Hi].
    discriminate (proj2 (Hidx m)). by exists i.
Qed.

(** The two lists of globals disagree on nothing: both are searchable, and no
    global is both offered to a sandbox and withheld from it. *)
Theorem allowed_globals_not_privileged name :
  (search_text ALLOWED_GLOBALS name = true <-> name ∈ ALLOWED_GLOBALS) /\
  (search_text PRIVILEGED name = true <-> name ∈ PRIVILEGED) /\
  ~ (name ∈ ALLOWED_GLOBALS /\ name ∈ PRIVILEGED).
Proof.
  split; [|split].
  - apply search_text_spec, increasing_sorted. vm_compute. reflexivity.
  - apply search_text_spec, privileged_sorted.
  - intros [Ha Hp]. assert (Forall (fun n => n ∉ PRIVILEGED) ALLOWED_GLOBALS) as Hd by by_decide.
    rewrite Forall_forall in Hd. by apply (Hd name).
Qed.

(** A few interfaces as the protocols spell them, for the witnesses. *)
#[local] Notation msg := mkMessage.
Definition demo_tables : Tables := {|
  INTERFACES := [
    mkInterface (B "wl_callback") 1 [] [msg (B "done") 1 true [KUint] None];
    mkInterface (B "wl_data_offer") 3
      [msg (B "accept") 1 false [KUint; KString] None; msg (B "receive") 1 false [KString; KFd] None;
       msg (B "destroy") 1 true [] None]
      [msg (B "offer") 1 false [KString] None];
    mkInterface (B "wl_display") 1
      [msg (B "sync") 1 false [KNewId] (Some (B "wl_callback"));
       msg (B "get_registry") 1 false [KNewId] (Some (B "wl_registry"))]
      [msg (B "error") 1 false [KObject; KUint; KString] None; msg (B "delete_id") 1 false [KUint] None];
    mkInterface (B "wl_keyboard") 9 [msg (B "release") 3 true [] None]
      [msg (B "keymap") 1 false [KUint; KFd; KUint] None;
       msg (B "enter") 1 false [KUint; KObject; KArray] None;
       msg (B "leave") 1 false [KUint; KObject] None;
       msg (B "key") 1 false [KUint; KUint; KUint; KUint] None];
    mkInterface (B "wl_registry") 1 [msg (B "bind") 1 false [KUint; KString; KUint; KNewId] None]
      [msg (B "global") 1 false [KUint; KString; KUint] None; msg (B "global_remove") 1 false [KUint] None];
    mkInterface (B "wl_seat") 9
      [msg (B "get_pointer") 1 false [KNewId] (Some (B "wl_pointer"));
       msg (B "get_keyboard") 1 false [KNewId] (Some (B "wl_keyboard"))] [];
    mkInterface (B "zwlr_layer_shell_v1") 4 [] []];
  WL_DISPLAY_INDEX := 2 |}.

(** Sortedness of any list, by comparing the names of neighbours. *)
Lemma increasing_sorted_by {A} (name : A -> bytes) l :
  increasing (map name l) = true -> sorted_by name l.
Proof.
  intros Hs%increasing_sorted. induction l as [|a l IH]; [constructor|].
  inversion Hs as [|? ? Hl Ha]; subst. constructor; [by apply IH|].
  apply Forall_map in Ha. exact Ha.
Qed.

#[local] Instance demo_tables_ok : @TablesOk demo_tables.
Proof.
  constructor.
  - apply increasing_sorted_by. vm_compute. reflexivity.
  - eexists. split; [reflexivity|]. split; [reflexivity|cbn; lia].
  - repeat constructor; cbn; unfold U32_MAX; lia.
  - by repeat constructor.
Qed.

Lemma lookup_iff_described_witness :
  exists i, @lookup_iface demo_tables (B "wl_keyboard") = Some i /\ i ∈ @INTERFACES demo_tables.
Proof.
  eexists. split; [vm_compute; reflexivity|].
  apply (@lookup_iff_described demo_tables demo_tables_ok (B "wl_keyboard")). vm_compute. reflexivity.
Defined.
