(* ===== verification/WlWire.v ===== *)
(** The Wayland wire format: [crates/bubbler-wl-proxy/src/wire.rs].

    The wire is in the machine's byte order, so the order is a parameter, the
    class [Endian].  An [Arg]'s text is a [CString] without its NUL, and holds
    none. *)
From S2P Require Export WlTables.

Definition HEADER : Z := 8.

Inductive WireError :=
| NeedMore | BadSize (size : Z) | Truncated | Trailing (left_ : Z) | BadString | TooLarge (len : Z).

#[global] Instance WireError_eq_dec : EqDecision WireError.
Proof. solve_decision. Defined.

(** The [Display] of [thiserror]. *)
Definition wire_error_text (e : WireError) : bytes :=
  match e with
  | NeedMore => B "the buffer holds only part of the message"
  | BadSize n => B "message size " ++ decimal n ++ B " is not a whole number of 4-byte words of at least 8"
  | Truncated => B "an argument runs past the end of the message"
  | Trailing n => decimal n ++ B " bytes left over after the arguments"
  | BadString => B "a string argument is not NUL-terminated or has an embedded NUL"
  | TooLarge n => B "a message of " ++ decimal n ++ B " bytes does not fit the 16-bit size field"
  end.

(** [true] on a little-endian machine. *)
Class Endian := little : bool.

Definition u32_ne_bytes `{Endian} (v : Z) : bytes := if little then le_bytes 4 v else be_bytes 4 v.
Definition u32_from_ne `{Endian} (b : bytes) : Z := if little then le_val b else be_val b.

Inductive Arg :=
| Int (v : Z) | Uint (v : Z) | Fixed (v : Z) | String_ (text : option bytes)
| Object (id : Z) | NewId (id : Z) | Array (b : bytes) | Fd.

#[global] Instance Arg_eq_dec : EqDecision Arg.
Proof. solve_decision. Defined.

Module Header.

Record t := mk { object : Z; opcode : Z; size : Z }.

Definition decode `{Endian} (buf : bytes) : result WireError t :=
  match slice buf 0 HEADER with
  | None => Err NeedMore
  | Some head =>
    let object := u32_from_ne (upto head 4) in
    let word := u32_from_ne (from head 4) in
    let opcode := Z.land word 65535 in
    let size := Z.shiftr word 16 in
    if (size <? HEADER) || negb (size mod 4 =? 0) then Err (BadSize size)
    else Ok (mk object opcode size)
  end.

Definition encode `{Endian} (h : t) : bytes :=
  u32_ne_bytes (object h) ++ u32_ne_bytes (Z.lor (Z.shiftl (size h) 16) (opcode h)).

End Header.

(** [usize::checked_next_multiple_of(4)]. *)
Definition next_multiple_of_4 (n : Z) : option Z :=
  let m := (n + 3) / 4 * 4 in if m <=? USIZE_MAX then Some m else None.

Definition take_word `{Endian} (body : bytes) (at_ : Z) : result WireError (Z * Z) :=
  end_ ← ok_or (checked_add at_ 4) Truncated;
  word ← ok_or (slice body at_ end_) Truncated;
  Ok (u32_from_ne word, end_).

Definition take_bytes (body : bytes) (at_ len_ : Z) : result WireError (bytes * Z) :=
  padded ← ok_or (next_multiple_of_4 len_) Truncated;
  end_ ← ok_or (checked_add at_ len_) Truncated;
  past ← ok_or (checked_add at_ padded) Truncated;
  if past >? len body then Err Truncated
  else b ← ok_or (slice body at_ end_) Truncated; Ok (b, past).

Definition put_bytes `{Endian} (b : bytes) : result WireError bytes :=
  if len b >? U32_MAX then Err (TooLarge (len b))
  else Ok (u32_ne_bytes (len b) ++ b ++ replicate (Z.to_nat ((4 - len b mod 4) mod 4)) NUL).

(** [bytes.split_last()]. *)
Definition split_last (b : bytes) : option (byte * bytes) :=
  match rev b with [] => None | x :: r => Some (x, rev r) end.

Definition decode_arg `{Endian} (body : bytes) (kind : ArgKind) (at_ : Z) : result WireError (Arg * Z) :=
  match kind with
  | KInt => '(w, at_) ← take_word body at_; Ok (Int (i32_of_u32 w), at_)
  | KUint => '(w, at_) ← take_word body at_; Ok (Uint w, at_)
  | KFixed => '(w, at_) ← take_word body at_; Ok (Fixed (i32_of_u32 w), at_)
  | KObject => '(w, at_) ← take_word body at_; Ok (Object w, at_)
  | KNewId => '(w, at_) ← take_word body at_; Ok (NewId w, at_)
  | KString =>
      '(n, at_) ← take_word body at_;
      if n =? 0 then Ok (String_ None, at_)
      else
        '(b, at_) ← take_bytes body at_ n;
        match split_last b with
        | None => Err BadString
        | Some (last, text) =>
            if negb (bool_decide (last = NUL)) || bool_decide (NUL ∈ text) then Err BadString
            else Ok (String_ (Some text), at_)
        end
  | KArray =>
      '(n, at_) ← take_word body at_;
      '(b, at_) ← take_bytes body at_ n;
      Ok (Array b, at_)
  | KFd => Ok (Fd, at_)
  end.

Fixpoint decode_args `{Endian} (body : bytes) (sig_ : list ArgKind) (at_ : Z)
  : result WireError (list Arg * Z) :=
  match sig_ with
  | [] => Ok ([], at_)
  | kind :: sig_ =>
      '(arg, at_) ← decode_arg body kind at_;
      '(args, at_) ← decode_args body sig_ at_;
      Ok (arg :: args, at_)
  end.

Definition decode `{Endian} (buf : bytes) (sig_ : list ArgKind) : result WireError (list Arg * Z) :=
  header ← Header.decode buf;
  let size := Header.size header in
  match slice buf HEADER size with
  | None => Err NeedMore
  | Some body =>
      '(args, at_) ← decode_args body sig_ 0;
      if negb (at_ =? len body) then Err (Trailing (len body - at_)) else Ok (args, size)
  end.

Definition encode_arg `{Endian} (arg : Arg) : result WireError bytes :=
  match arg with
  | Int v | Fixed v => Ok (u32_ne_bytes (u32_of_i32 v))
  | Uint v | Object v | NewId v => Ok (u32_ne_bytes v)
  | String_ None => Ok (u32_ne_bytes 0)
  | String_ (Some text) => put_bytes (text ++ [NUL])
  | Array b => put_bytes b
  | Fd => Ok []
  end.

Fixpoint encode_args `{Endian} (args : list Arg) : result WireError bytes :=
  match args with
  | [] => Ok []
  | arg :: args => b ← encode_arg arg; rest ← encode_args args; Ok (b ++ rest)
  end.

Definition encode `{Endian} (object opcode : Z) (args : list Arg) : result WireError bytes :=
  body ← encode_args args;
  let n := HEADER + len body in
  if n >? U16_MAX then Err (TooLarge n)
  else Ok (Header.encode (Header.mk object opcode n) ++ body).

Definition fd_count (sig_ : list ArgKind) : Z :=
  len (filter (fun kind => kind = KFd) sig_).

(** ** Words *)

Section Facts.
Context `{Endian}.

Lemma len_ne v : len (u32_ne_bytes v) = 4.
Proof. unfold u32_ne_bytes. destruct little; len_lia. Qed.

Lemma ne_val v : is_u32 v -> u32_from_ne (u32_ne_bytes v) = v.
Proof.
  unfold is_u32, U32_MAX, u32_from_ne, u32_ne_bytes. intros Hv.
  destruct little; [apply le_val_bytes|apply be_val_bytes]; cbn; lia.
Qed.

Lemma ne_bytes b : len b = 4 -> u32_ne_bytes (u32_from_ne b) = b.
Proof.
  unfold u32_from_ne, u32_ne_bytes. intros Hb. assert (4%nat = length b) as -> by (unfold len in Hb; lia).
  destruct little; [apply le_bytes_val|apply be_bytes_val].
Qed.

Lemma ne_range b : len b = 4 -> is_u32 (u32_from_ne b).
Proof.
  unfold is_u32, U32_MAX, u32_from_ne. intros Hb.
  pose proof (le_val_range b). pose proof (be_val_range b). rewrite Hb in *. destruct little; lia.
Qed.

(** The two halves of the header's second word. *)
Lemma word_halves s o : 0 <= s <= U16_MAX -> 0 <= o <= U16_MAX ->
  is_u32 (Z.lor (Z.shiftl s 16) o) /\ Z.land (Z.lor (Z.shiftl s 16) o) 65535 = o /\
  Z.shiftr (Z.lor (Z.shiftl s 16) o) 16 = s.
Proof.
  unfold is_u32, U32_MAX, U16_MAX. intros Hs Ho.
  assert (Z.lor (Z.shiftl s 16) o = s * 2 ^ 16 + o) as ->.
  { apply lor_shiftl; lia. }
  split; [lia|]. change 65535 with (Z.ones 16). rewrite Z.land_ones, Z.shiftr_div_pow2 by lia. split.
  - rewrite Z.add_comm, Z.mod_add by lia. apply Z.mod_small. lia.
  - rewrite Z.div_add_l, Z.div_small by lia. lia.
Qed.

Lemma header_roundtrip h rest :
  is_u32 (Header.object h) -> 0 <= Header.opcode h <= U16_MAX ->
  8 <= Header.size h <= U16_MAX -> Header.size h mod 4 = 0 ->
  Header.decode (Header.encode h ++ rest) = Ok h.
Proof.
  intros Ho Hop Hs Hm. unfold Header.decode, Header.encode.
  set (w := Z.lor (Z.shiftl (Header.size h) 16) (Header.opcode h)).
  destruct (word_halves (Header.size h) (Header.opcode h)) as (Hw & H1 & H2); [lia|done|]. fold w in Hw, H1, H2.
  assert (slice ((u32_ne_bytes (Header.object h) ++ u32_ne_bytes w) ++ rest) 0 HEADER
    = Some (u32_ne_bytes (Header.object h) ++ u32_ne_bytes w)) as ->.
  { apply slice_some. exists [], rest. rewrite len_app, !len_ne. done. }
  assert (upto (u32_ne_bytes (Header.object h) ++ u32_ne_bytes w) 4 = u32_ne_bytes (Header.object h)) as ->.
  { rewrite <-(len_ne (Header.object h)). apply upto_app. }
  assert (from (u32_ne_bytes (Header.object h) ++ u32_ne_bytes w) 4 = u32_ne_bytes w) as ->.
  { rewrite <-(len_ne (Header.object h)). apply from_app. }
  rewrite !ne_val, H1, H2 by done. unfold HEADER. rewrite (proj2 (Z.ltb_ge _ _)) by lia.
  rewrite Hm. cbn. by destruct h.
Qed.

Lemma header_ok buf h : Header.decode buf = Ok h ->
  is_u32 (Header.object h) /\ 0 <= Header.opcode h <= U16_MAX /\ 8 <= Header.size h <= U16_MAX /\
  Header.size h mod 4 = 0 /\ exists rest, buf = Header.encode h ++ rest.
Proof.
  unfold Header.decode. destruct (slice buf 0 HEADER) as [head|] eqn:E; [|done].
  apply slice_some in E as (p & rest & -> & Hp%len_0 & Hl). subst p. unfold HEADER in Hl.
  destruct (cut_at head 4) as (a & b & -> & Ha); [lia|]. autorewrite with len in Hl.
  rewrite <-Ha, upto_app, from_app. rewrite Ha in *.
  set (w := u32_from_ne b). pose proof (ne_range b ltac:(lia)) as Hw. fold w in Hw. unfold is_u32, U32_MAX in Hw.
  destruct (_ || _) eqn:Eb; [done|]. bool_to_prop. intros [= <-]. cbn. unfold HEADER in *.
  assert (w = Z.shiftr w 16 * 2 ^ 16 + Z.land w 65535) as Hsplit.
  { change 65535 with (Z.ones 16). rewrite Z.land_ones, Z.shiftr_div_pow2 by lia.
    pose proof (Z.div_mod w (2 ^ 16)). lia. }
  assert (0 <= Z.land w 65535 <= U16_MAX) as Hop.
  { change 65535 with (Z.ones 16). rewrite Z.land_ones by lia. pose proof (Z.mod_pos_bound w (2 ^ 16)). unfold U16_MAX. lia. }
  assert (Z.shiftr w 16 <= U16_MAX) by (unfold U16_MAX in *; lia).
  split_and!; try lia; [apply ne_range; lia..|].
  exists rest. unfold Header.encode. cbn. rewrite ne_bytes by lia.
  assert (Z.lor (Z.shiftl (Z.shiftr w 16) 16) (Z.land w 65535) = w) as ->.
  { rewrite lor_shiftl; unfold U16_MAX in *; lia. }
  unfold w. by rewrite ne_bytes by lia.
Qed.

End Facts.

#[export] Hint Rewrite @len_ne : len.

(** ** Arguments *)

Section ArgFacts.
Context `{Endian}.

(** An argument of a kind, with its value in range. *)
Definition arg_fits (kind : ArgKind) (arg : Arg) : Prop :=
  match kind, arg with
  | KInt, Int v | KFixed, Fixed v => is_i32 v
  | KUint, Uint v | KObject, Object v | KNewId, NewId v => is_u32 v
  | KString, String_ None => True
  | KString, String_ (Some text) => NUL ∉ text
  | KArray, Array _ => True
  | KFd, Fd => True
  | _, _ => False
  end.

Lemma padded n : 0 <= n -> (n + 3) / 4 * 4 = n + (4 - n mod 4) mod 4.
Proof.
  intros Hn. Z.to_euclidean_division_equations. lia.
Qed.

Lemma padded_multiple n : 0 <= n -> (n + (4 - n mod 4) mod 4) mod 4 = 0.
Proof. intros Hn. rewrite <-padded by done. apply Z.mod_mul. lia. Qed.

Lemma take_word_app pre v post : is_u32 v -> len (pre ++ u32_ne_bytes v ++ post) <= U32_MAX ->
  take_word (pre ++ u32_ne_bytes v ++ post) (len pre) = Ok (v, len pre + 4).
Proof.
  intros Hv Hl. unfold take_word, checked_add, USIZE_MAX, U64_MAX. unfold U32_MAX in Hl.
  rewrite (proj2 (Z.leb_le _ _)) by len_lia. cbn [ok_or mbind result_bind].
  rewrite <-(len_ne v), slice_app. cbn [ok_or mbind result_bind]. by rewrite ne_val.
Qed.

Lemma take_word_ok body at_ w at' : 0 <= at_ -> take_word body at_ = Ok (w, at') ->
  is_u32 w /\ at' = at_ + 4 /\ at' <= len body.
Proof.
  unfold take_word, checked_add. intros Ha Ht. destruct (_ <=? _); [|done]. cbn [ok_or mbind result_bind] in Ht.
  destruct (slice body at_ (at_ + 4)) as [s|] eqn:E; [|done]. injection Ht as <- <-.
  apply slice_some in E as (p & q & -> & Hp & Hs). split_and!; [apply ne_range; lia..|done|len_lia].
Qed.

(** The bytes of [put_bytes], after the length. *)
Definition padding (b : bytes) : bytes := replicate (Z.to_nat ((4 - len b mod 4) mod 4)) NUL.

Lemma len_padding b : len (padding b) = (4 - len b mod 4) mod 4.
Proof. unfold padding. rewrite len_replicate. pose proof (Z.mod_pos_bound (4 - len b mod 4) 4). lia. Qed.

Lemma take_bytes_app pre b post : len (pre ++ b ++ padding b ++ post) <= U32_MAX ->
  take_bytes (pre ++ b ++ padding b ++ post) (len pre) (len b) = Ok (b, len pre + len b + len (padding b)).
Proof.
  unfold take_bytes, next_multiple_of_4, checked_add, USIZE_MAX, U64_MAX, U32_MAX. intros Hl.
  rewrite padded, <-len_padding by apply len_nonneg. autorewrite with len in *.
  pose proof (len_nonneg pre). pose proof (len_nonneg b). pose proof (len_nonneg post). pose proof (len_nonneg (padding b)).
  rewrite (proj2 (Z.leb_le _ _)) by lia. cbn [ok_or mbind result_bind].
  rewrite (proj2 (Z.leb_le _ _)) by lia. cbn [ok_or mbind result_bind].
  rewrite (proj2 (Z.leb_le _ _)) by lia. cbn [ok_or mbind result_bind].
  rewrite Z.gtb_ltb, (proj2 (Z.ltb_ge _ _)) by lia. rewrite slice_app. cbn. do 2 f_equal. lia.
Qed.

Lemma next_multiple_some n m : 0 <= n -> next_multiple_of_4 n = Some m -> m = n + (4 - n mod 4) mod 4.
Proof. unfold next_multiple_of_4. intros Hn. rewrite padded by done. by destruct (_ <=? _); intros [= <-]. Qed.

Lemma take_bytes_ok body at_ n b at' : 0 <= at_ -> 0 <= n -> take_bytes body at_ n = Ok (b, at') ->
  len b = n /\ at' = at_ + n + (4 - n mod 4) mod 4 /\ at' <= len body.
Proof.
  unfold take_bytes. intros Ha Hn Ht.
  apply bind_ok in Ht as (m & Hm%ok_or_ok%next_multiple_some & Ht); [|done]. subst m.
  apply bind_ok in Ht as (e & He%ok_or_ok%checked_add_some & Ht). subst e.
  apply bind_ok in Ht as (past & Hp%ok_or_ok%checked_add_some & Ht). subst past.
  rewrite Z.gtb_ltb in Ht. destruct (Z.ltb_spec (len body) (at_ + (n + (4 - n mod 4) mod 4))); [done|].
  destruct (slice body at_ (at_ + n)) as [s|] eqn:E; [|done]. injection Ht as <- <-.
  apply slice_some in E as (p & q & -> & Hp & Hs). split_and!; lia.
Qed.

Lemma split_last_snoc t x : split_last (t ++ [x]) = Some (x, t).
Proof. unfold split_last. rewrite rev_app_distr. cbn. by rewrite rev_involutive. Qed.

Lemma split_last_some b x t : split_last b = Some (x, t) -> b = t ++ [x].
Proof.
  unfold split_last. destruct (rev b) as [|y r] eqn:E; [done|]. intros [= -> <-].
  by rewrite <-(rev_involutive b), E.
Qed.

Lemma put_bytes_ok b e : put_bytes b = Ok e <-> len b <= U32_MAX /\ e = u32_ne_bytes (len b) ++ b ++ padding b.
Proof.
  unfold put_bytes, padding. rewrite Z.gtb_ltb. destruct (Z.ltb_spec U32_MAX (len b)); [split; [done|lia]|].
  naive_solver.
Qed.

(** Writing an argument and reading it back, anywhere in a body. *)
Lemma decode_encode_arg pre arg kind e post :
  arg_fits kind arg -> encode_arg arg = Ok e -> len (pre ++ e ++ post) <= U32_MAX ->
  decode_arg (pre ++ e ++ post) kind (len pre) = Ok (arg, len pre + len e).
Proof.
  assert (forall v, is_u32 v -> len (pre ++ u32_ne_bytes v ++ post) <= U32_MAX ->
    take_word (pre ++ u32_ne_bytes v ++ post) (len pre) = Ok (v, len pre + len (u32_ne_bytes v))) as Hword.
  { intros v Hv Hl. rewrite take_word_app by done. by rewrite len_ne. }
  assert (forall b, len b <= U32_MAX -> len (pre ++ (u32_ne_bytes (len b) ++ b ++ padding b) ++ post) <= U32_MAX ->
    exists m, take_word (pre ++ (u32_ne_bytes (len b) ++ b ++ padding b) ++ post) (len pre) = Ok (len b, m) /\
    take_bytes (pre ++ (u32_ne_bytes (len b) ++ b ++ padding b) ++ post) m (len b)
      = Ok (b, len pre + len (u32_ne_bytes (len b) ++ b ++ padding b))) as Hput.
  { intros b Hb Hl. rewrite <-!app_assoc in *. exists (len pre + 4). split.
    - rewrite take_word_app; [done| |done]. split; [apply len_nonneg|done].
    - replace (len pre + 4) with (len (pre ++ u32_ne_bytes (len b))) by (rewrite len_app, len_ne; lia).
      rewrite app_assoc, take_bytes_app by (by rewrite <-app_assoc). do 2 f_equal. len_lia. }
  destruct kind, arg; cbn; try done; intros Hf He Hl.
  - injection He as <-. rewrite Hword by (done || apply u32_of_i32_range). cbn. by rewrite i32_u32.
  - injection He as <-. by rewrite Hword.
  - injection He as <-. rewrite Hword by (done || apply u32_of_i32_range). cbn. by rewrite i32_u32.
  - destruct text as [text|].
    + apply put_bytes_ok in He as [Hlen ->]. destruct (Hput _ Hlen Hl) as (m & Hw & Hb).
      rewrite Hw. cbn [mbind result_bind]. destruct (Z.eqb_spec (len (text ++ [NUL])) 0); [len_lia|].
      rewrite Hb. cbn [mbind result_bind]. rewrite split_last_snoc, bool_decide_true, bool_decide_false by done. done.
    + injection He as <-. by rewrite Hword by (done || (unfold is_u32, U32_MAX; lia)).
  - injection He as <-. by rewrite Hword.
  - injection He as <-. by rewrite Hword.
  - apply put_bytes_ok in He as [Hlen ->]. destruct (Hput _ Hlen Hl) as (m & Hw & Hb).
    rewrite Hw. cbn [mbind result_bind]. rewrite Hb. done.
  - injection He as <-. do 2 f_equal. len_lia.
Qed.

(** What is read fits, and is written back in as many bytes. *)
Lemma decode_arg_ok body kind at_ arg at' :
  0 <= at_ -> decode_arg body kind at_ = Ok (arg, at') ->
  arg_fits kind arg /\ at_ <= at' /\ (at_ <= len body -> at' <= len body) /\
  exists e, encode_arg arg = Ok e /\ len e = at' - at_ /\ len e mod 4 = 0.
Proof.
  intros Ha Hd. destruct kind; cbn [decode_arg] in Hd.
  1,2,3,5,6: apply bind_ok in Hd as ([w p] & Hw & Hd); injection Hd as <- <-;
    apply take_word_ok in Hw as (Hr & -> & Hl); [|done];
    (split_and!; [by try apply i32_of_u32_range|lia|lia|]); eexists; (split; [reflexivity|]);
    rewrite len_ne; (split; [lia|done]).
  - apply bind_ok in Hd as ([w p] & Hw & Hd). apply take_word_ok in Hw as (Hr & -> & Hl); [|done].
    destruct (Z.eqb_spec w 0) as [->|].
    + injection Hd as <- <-. split_and!; [done|lia|lia|]. eexists. split; [reflexivity|]. rewrite len_ne. split; [lia|done].
    + apply bind_ok in Hd as ([b q] & Hb & Hd). unfold is_u32 in Hr.
      apply take_bytes_ok in Hb as (Hlen & -> & Hq); [|lia|lia].
      destruct (split_last b) as [[x t]|] eqn:Es; [|done]. apply split_last_some in Es as ->.
      case_bool_decide; [subst x|done]. case_bool_decide; [done|]. cbn in Hd. injection Hd as <- <-.
      pose proof (Z.mod_pos_bound (4 - w mod 4) 4). split_and!; [done|lia|lia|].
      eexists. split; [by apply put_bytes_ok; split; [lia|]|].
      rewrite !len_app, len_ne, <-!(len_app t), len_padding, Hlen in *. split; [lia|].
      rewrite <-Zplus_mod_idemp_r, padded_multiple by lia. done.
  - apply bind_ok in Hd as ([w p] & Hw & Hd). apply take_word_ok in Hw as (Hr & -> & Hl); [|done].
    apply bind_ok in Hd as ([b q] & Hb & Hd). unfold is_u32 in Hr.
    apply take_bytes_ok in Hb as (Hlen & -> & Hq); [|lia|lia]. injection Hd as <- <-.
    pose proof (Z.mod_pos_bound (4 - w mod 4) 4). split_and!; [done|lia|lia|].
    eexists. split; [by apply put_bytes_ok; split; [lia|]|].
    rewrite !len_app, len_ne, len_padding, Hlen. split; [lia|].
    rewrite <-Zplus_mod_idemp_r, padded_multiple by lia. done.
  - injection Hd as <- <-. split_and!; [done|lia|lia|]. eexists. split; [reflexivity|]. split; [len_lia|done].
Qed.

End ArgFacts.

(** ** Messages *)

Section MessageFacts.
Context `{Endian}.

Lemma encode_arg_words arg e : encode_arg arg = Ok e -> len e mod 4 = 0.
Proof.
  assert (forall b e, put_bytes b = Ok e -> len e mod 4 = 0) as Hput.
  { intros b e' [Hl ->]%put_bytes_ok. rewrite !len_app, len_ne, len_padding.
    rewrite <-Zplus_mod_idemp_r, padded_multiple by apply len_nonneg. done. }
  destruct arg as [v|v|v|[t|]|v|v|b|]; cbn; try (by apply Hput); intros [= <-]; try (by rewrite len_ne). done.
Qed.

Lemma encode_args_words args e : encode_args args = Ok e -> len e mod 4 = 0.
Proof.
  revert e. induction args as [|a args IH]; intros e; cbn [encode_args]; [by intros [= <-]|].
  intros (b & Hb & (r & Hr & [= <-])%bind_ok)%bind_ok. apply encode_arg_words in Hb. apply IH in Hr.
  rewrite len_app, Z.add_mod, Hb, Hr by lia. done.
Qed.

Lemma decode_encode_args pre args sig_ e post :
  Forall2 arg_fits sig_ args -> encode_args args = Ok e -> len (pre ++ e ++ post) <= U32_MAX ->
  decode_args (pre ++ e ++ post) sig_ (len pre) = Ok (args, len pre + len e).
Proof.
  intros Hf. revert pre e. induction Hf as [|k a sig_ args Hk Hf IH]; intros pre e; cbn [encode_args decode_args].
  - intros [= <-] _. do 2 f_equal. len_lia.
  - intros (b & Hb & (r & Hr & [= <-])%bind_ok)%bind_ok Hl. rewrite <-app_assoc in *.
    rewrite (decode_encode_arg pre a k b) by done. cbn [mbind result_bind].
    specialize (IH (pre ++ b) r Hr). rewrite <-!app_assoc in IH.
    replace (len pre + len b) with (len (pre ++ b)) by len_lia. rewrite IH by done. cbn.
    do 2 f_equal. len_lia.
Qed.

Lemma decode_args_ok body sig_ at_ args at' :
  0 <= at_ -> decode_args body sig_ at_ = Ok (args, at') ->
  Forall2 arg_fits sig_ args /\ at_ <= at' /\
  exists e, encode_args args = Ok e /\ len e = at' - at_.
Proof.
  revert at_ args. induction sig_ as [|k sig_ IH]; intros at_ args Ha; cbn [decode_args].
  - intros [= <- <-]. split_and!; [constructor|lia|]. exists []. split; [done|len_lia].
  - intros ([a p] & Hd & ([as_ q] & Hr & [= <- <-])%bind_ok)%bind_ok.
    apply decode_arg_ok in Hd as (Hk & Hp & _ & e & He & Hel & _); [|done].
    apply IH in Hr as (Hf & Hq & e' & He' & Hel'); [|lia].
    split_and!; [by constructor|lia|]. exists (e ++ e'). split; [|len_lia].
    cbn. rewrite He. cbn. by rewrite He'.
Qed.

Lemma encode_ok o op args out :
  encode o op args = Ok out <->
  exists body, encode_args args = Ok body /\ 8 + len body <= U16_MAX /\
    out = Header.encode (Header.mk o op (8 + len body)) ++ body.
Proof.
  unfold encode, HEADER. rewrite bind_ok. apply exist_proper. intros body.
  rewrite Z.gtb_ltb. destruct (Z.ltb_spec U16_MAX (8 + len body)); naive_solver lia.
Qed.

Lemma len_header h : len (Header.encode h) = 8.
Proof. unfold Header.encode. rewrite len_app, !len_ne. done. Qed.

Lemma decode_split h body rest sig_ :
  is_u32 (Header.object h) -> 0 <= Header.opcode h <= U16_MAX -> 8 <= Header.size h <= U16_MAX ->
  Header.size h mod 4 = 0 -> Header.size h = 8 + len body ->
  decode ((Header.encode h ++ body) ++ rest) sig_ =
  ('(args, at_) ← decode_args body sig_ 0;
   if negb (at_ =? len body) then Err (Trailing (len body - at_)) else Ok (args, Header.size h)).
Proof.
  intros Ho Hop Hs Hm Hl. unfold decode. rewrite <-app_assoc, header_roundtrip by done.
  cbn [mbind result_bind]. unfold HEADER.
  replace (slice (Header.encode h ++ body ++ rest) 8 (Header.size h)) with (Some body); [done|].
  symmetry. apply slice_some. exists (Header.encode h), rest. rewrite len_header. split_and!; [done|done|lia].
Qed.

(** The pieces of a message the decoder accepts or refuses for good. *)
Lemma decode_cases buf sig_ :
  match Header.decode buf with
  | Err e => decode buf sig_ = Err e
  | Ok h =>
      (len buf < Header.size h /\ decode buf sig_ = Err NeedMore) \/
      (exists body rest, buf = (Header.encode h ++ body) ++ rest /\ Header.size h = 8 + len body)
  end.
Proof.
  destruct (Header.decode buf) as [h|e] eqn:E; [|unfold decode; by rewrite E].
  apply header_ok in E as Hh. destruct Hh as (_ & _ & Hs & _ & r & ->).
  destruct (Z.lt_ge_cases (len (Header.encode h ++ r)) (Header.size h)).
  - left. split; [done|]. unfold decode. rewrite E. cbn [mbind result_bind]. unfold HEADER.
    by rewrite (proj2 (slice_none (Header.encode h ++ r) 8 (Header.size h) ltac:(lia)) ltac:(done)).
  - right. rewrite len_app, len_header in *. destruct (cut_at r (Header.size h - 8)) as (b & q & -> & Hb); [lia|].
    exists b, q. rewrite <-app_assoc. split; [done|lia].
Qed.

Lemma decode_args_no_more body sig_ at_ : decode_args body sig_ at_ <> Err NeedMore.
Proof.
  assert (forall b p, take_word b p <> Err NeedMore) as Hw.
  { intros b p. unfold take_word. destruct (checked_add p 4); [|done]. cbn [ok_or mbind result_bind].
    by destruct (slice _ _ _). }
  assert (forall b p n, take_bytes b p n <> Err NeedMore) as Hb.
  { intros b p n. unfold take_bytes. destruct (next_multiple_of_4 n); [|done]. cbn [ok_or mbind result_bind].
    destruct (checked_add p n); [|done]. cbn [ok_or mbind result_bind].
    destruct (checked_add p z); [|done]. cbn [ok_or mbind result_bind].
    destruct (_ >? _); [done|]. by destruct (slice _ _ _). }
  revert at_. induction sig_ as [|k sig_ IH]; intros at_; cbn [decode_args]; [done|].
  destruct (decode_arg body k at_) as [[a p]|e] eqn:E.
  - cbn. specialize (IH p). by destruct (decode_args body sig_ p) as [[? ?]|?].
  - cbn. intros [= ->]. specialize (Hw body at_).
    destruct k; cbn in E; try (destruct (take_word body at_) as [[w q]|?]; cbn in E; congruence); try done.
    + destruct (take_word body at_) as [[w q]|?]; cbn in E; [|congruence].
      destruct (w =? 0); [done|]. specialize (Hb body q w). destruct (take_bytes body q w) as [[b r]|?]; cbn in E; [|congruence].
      destruct (split_last b) as [[? ?]|]; [|done]. by destruct (_ || _).
    + destruct (take_word body at_) as [[w q]|?]; cbn in E; [|congruence].
      specialize (Hb body q w). destruct (take_bytes body q w) as [[b r]|?]; cbn in E; congruence.
Qed.

(** ** Properties *)

(** What is written is what is read: a message that can be encoded decodes
    to the same object, opcode and arguments, whatever follows it on the stream,
    and takes exactly its own bytes. *)
Theorem wire_roundtrip o op args sig_ out rest :
  is_u32 o -> 0 <= op <= 65535 -> Forall2 arg_fits sig_ args -> encode o op args = Ok out ->
  Header.decode (out ++ rest) = Ok (Header.mk o op (len out)) /\
  decode (out ++ rest) sig_ = Ok (args, len out).
Proof.
  intros Ho Hop Hf (body & Hb & Hl & ->)%encode_ok. pose proof (encode_args_words _ _ Hb) as Hm.
  pose proof (len_nonneg body). set (h := Header.mk o op (8 + len body)).
  assert (len (Header.encode h ++ body) = 8 + len body) as -> by (rewrite len_app, len_header; lia).
  assert ((8 + len body) mod 4 = 0) as Hm8 by (rewrite Z.add_mod, Hm by lia; done).
  split; [rewrite <-app_assoc; apply header_roundtrip; unfold h; cbn [Header.object Header.opcode Header.size]; [done|done|lia|done]|].
  rewrite decode_split by (unfold h; cbn [Header.object Header.opcode Header.size]; done || lia).
  pose proof (decode_encode_args [] args sig_ body [] Hf Hb) as Hd. rewrite app_nil_l, app_nil_r in Hd.
  change (len []) with 0 in Hd. rewrite Hd by (unfold U16_MAX, U32_MAX in *; lia). cbn [mbind result_bind].
  by rewrite Z.add_0_l, Z.eqb_refl.
Qed.

(** A message is read from its own bytes alone. *)
Lemma decode_prefix buf sig_ args size : decode buf sig_ = Ok (args, size) ->
  8 <= size <= len buf /\ Header.decode (upto buf size) = Header.decode buf /\
  decode (upto buf size) sig_ = Ok (args, size).
Proof.
  intros Hd. pose proof (decode_cases buf sig_) as Hc. destruct (Header.decode buf) as [h|e] eqn:Eh; [|congruence].
  destruct Hc as [[_ Hc]|(body & rest & Hbuf & Hsz)]; [congruence|].
  apply header_ok in Eh as (Ho & Hop & Hs & Hm & _).
  assert (size = Header.size h) as ->.
  { rewrite Hbuf, decode_split in Hd by done. apply bind_ok in Hd as ([a p] & _ & Hd).
    destruct (negb _); [done|]. by injection Hd. }
  assert (len (Header.encode h ++ body) = Header.size h) as Hl by (rewrite len_app, len_header; lia).
  rewrite Hbuf in *. rewrite <-Hl at 3 4. rewrite upto_app. pose proof (len_nonneg rest). split_and!.
  - lia.
  - rewrite len_app. lia.
  - by apply header_roundtrip.
  - rewrite decode_split in Hd by done. rewrite <-(app_nil_r (Header.encode h ++ body)), decode_split by done. exact Hd.
Qed.

(** What was read can be written, in as many bytes and for the same reader. *)
Lemma decode_encode buf sig_ args size :
  decode buf sig_ = Ok (args, size) ->
  exists h out, Header.decode buf = Ok h /\ Header.size h = size /\ size <= len buf /\
    encode (Header.object h) (Header.opcode h) args = Ok out /\ len out = size /\
    Header.decode out = Ok h /\ decode out sig_ = Ok (args, size).
Proof.
  intros Hd. pose proof (decode_cases buf sig_) as Hc. destruct (Header.decode buf) as [h|e] eqn:Eh; [|congruence].
  destruct Hc as [[_ Hc]|(body & rest & Hbuf & Hsz)]; [congruence|].
  apply header_ok in Eh as (Ho & Hop & Hs & Hm & _).
  rewrite Hbuf, decode_split in Hd by done.
  apply bind_ok in Hd as ([args' p] & Ha & Hd). destruct (Z.eqb_spec p (len body)); [|done]. injection Hd as -> <-. subst p.
  apply decode_args_ok in Ha as (Hf & _ & e & He & Hel); [|lia]. rewrite Z.sub_0_r in Hel.
  assert (h = Header.mk (Header.object h) (Header.opcode h) (8 + len e)) as Hh by (rewrite Hel, <-Hsz; by destruct h).
  assert (encode (Header.object h) (Header.opcode h) args = Ok (Header.encode h ++ e)) as Hen.
  { apply encode_ok. exists e. split_and!; [done|lia|by rewrite <-Hh]. }
  exists h, (Header.encode h ++ e). rewrite Hen, !len_app, len_header, Hel, Hsz.
  split_and!; try done.
  - rewrite Hbuf, !len_app, len_header. pose proof (len_nonneg rest). lia.
  - by apply header_roundtrip.
  - rewrite <-(app_nil_r (_ ++ e)), decode_split by (done || lia).
    pose proof (decode_encode_args [] args sig_ e [] Hf He) as Hde. rewrite app_nil_l, app_nil_r in Hde.
    change (len []) with 0 in Hde. rewrite Hde by (unfold U16_MAX, U32_MAX in *; lia). cbn [mbind result_bind].
    by rewrite Z.add_0_l, Z.eqb_refl, Hsz.
Qed.

(** Re-encoding a message that was decoded never fails and never changes its
    length: the proxy always has something to forward, of the size that arrived,
    and what it forwards decodes to the very same header and arguments. *)
Theorem wire_reencode buf sig_ args size :
  decode buf sig_ = Ok (args, size) ->
  exists h out, Header.decode buf = Ok h /\ Header.size h = size /\ size <= len buf /\
    encode (Header.object h) (Header.opcode h) args = Ok out /\ len out = size /\
    Header.decode out = Ok h /\ decode out sig_ = Ok (args, size).
Proof. apply decode_encode. Qed.

(** The decoder asks for more bytes exactly while the message is not all
    there (no whole header, or fewer bytes than it declares), and once it has
    answered anything else, bytes that follow do not change the answer. *)
Theorem wire_decode_incremental buf more sig_ :
  (decode buf sig_ = Err NeedMore <->
   len buf < 8 \/ exists h, Header.decode buf = Ok h /\ len buf < Header.size h) /\
  (decode buf sig_ <> Err NeedMore -> decode (buf ++ more) sig_ = decode buf sig_).
Proof.
  pose proof (decode_cases buf sig_) as Hc. destruct (Header.decode buf) as [h|e] eqn:Eh.
  - apply header_ok in Eh as Hh. destruct Hh as (Ho & Hop & Hs & Hm & r & Hr).
    assert (8 <= len buf) by (rewrite Hr, len_app, len_header; pose proof (len_nonneg r); lia).
    destruct Hc as [[Hl Hd]|(body & rest & Hbuf & Hsz)].
    + rewrite Hd. split; [|done]. split; [|done]. intros _. right. by exists h.
    + assert (len buf >= Header.size h) as Hge.
      { rewrite Hbuf, !len_app, len_header. pose proof (len_nonneg rest). lia. }
      assert (decode buf sig_ <> Err NeedMore) as Hne.
      { rewrite Hbuf, decode_split by done. pose proof (decode_args_no_more body sig_ 0).
        destruct (decode_args body sig_ 0) as [[args p]|?]; cbn; [by destruct (negb _)|congruence]. }
      split.
      * split; [done|]. intros [?|(h' & [= <-] & ?)]; lia.
      * intros _. rewrite Hbuf, <-app_assoc, !decode_split by done. done.
  - rewrite Hc. unfold Header.decode in Eh. destruct (slice buf 0 HEADER) as [head|] eqn:Es.
    + assert (e <> NeedMore) as Hne.
      { destruct (_ || _); [by injection Eh as <-|done]. }
      apply slice_some in Es as (p & q & -> & Hp%len_0 & Hl). subst p. unfold HEADER in *. split.
      * split; [by intros [= ->]|]. rewrite app_nil_l, len_app. intros [?|(h' & ? & _)]; [|done].
        pose proof (len_nonneg q). lia.
      * intros _. unfold decode, Header.decode, HEADER. rewrite app_nil_l, <-app_assoc.
        assert (slice (head ++ q ++ more) 0 8 = Some head) as ->.
        { apply slice_some. exists [], (q ++ more). split_and!; [done|done|lia]. }
        by rewrite Eh.
    + injection Eh as <-. apply slice_none in Es; [|by unfold HEADER]. unfold HEADER in Es. split; [|done].
      split; [by left|done].
Qed.

End MessageFacts.

Definition demo_sig : list ArgKind := [KUint; KString; KInt; KArray; KFd].
Definition demo_args : list Arg := [Uint 7; String_ (Some (B "text")); Int (-3); Array (B "abc"); Fd].

Lemma wire_roundtrip_witness :
  exists out, @encode true 9 2 demo_args = Ok out /\ @decode true (out ++ B "more") demo_sig = Ok (demo_args, len out).
Proof.
  eexists. split; [vm_compute; reflexivity|].
  eapply (@wire_roundtrip true 9 2 demo_args demo_sig); [|lia| |vm_compute; reflexivity].
  - unfold is_u32, U32_MAX. lia.
  - repeat constructor; unfold U32_MAX; try lia; try (vm_compute; congruence).
    apply (bool_decide_unpack _). vm_compute. exact I.
Defined.

Definition demo_bytes : bytes := match @encode false 9 2 demo_args with Ok out => out | Err _ => [] end.

Lemma wire_reencode_witness :
  exists h out, @Header.decode false demo_bytes = Ok h /\
    @encode false (Header.object h) (Header.opcode h) demo_args = Ok out /\ len out = 36.
Proof.
  destruct (@wire_reencode false demo_bytes demo_sig demo_args 36) as (h & out & Hh & _ & _ & He & Hl & _).
  - vm_compute. reflexivity.
  - exists h, out. split; [exact Hh|]. split; [exact He|exact Hl].
Defined.
