(* ===== verification/WlObjects.v ===== *)
(** The object ids of one Wayland connection:
    [crates/bubbler-wl-proxy/src/objects.rs].

    [Objects] is the map, the hidden globals and the count of destroyed server
    objects; a failing operation leaves it alone, as the source's do.  The
    count is a [usize] the source subtracts from: [objects_ok] shows that it is
    always exactly what it counts, so it never wraps.  An [op] is one operation
    the policy performs, and the invariants are about every sequence of them. *)
From S2P Require Export WlWire.

Definition SERVER_ID_BASE : Z := 4278190080.
Definition MAX_OBJECTS : Z := Z.shiftl 1 16.

Inductive ObjectError :=
| NotClientId (id : Z) | NotServerId (id : Z) | InUse (id : Z) | Unmapped (id : Z) | UntypedNewId
| NoSuchMessage (iface : bytes) (opcode : Z) | UnknownInterface (index : nat)
| MissingInterface (name : bytes) | HiddenGlobal (name : Z) | TooManyObjects.

#[global] Instance ObjectError_eq_dec : EqDecision ObjectError.
Proof. solve_decision. Defined.

(** The [Display] of [thiserror]. *)
Definition object_error_text (e : ObjectError) : bytes :=
  match e with
  | NotClientId id => B "object id " ++ decimal id ++ B " is not in the client range 1..0xff000000"
  | NotServerId id => B "object id " ++ decimal id ++ B " is not in the server range 0xff000000.."
  | InUse id => B "object " ++ decimal id ++ B " is still mapped"
  | Unmapped id => B "object " ++ decimal id ++ B " is not mapped"
  | UntypedNewId => B "the interface of this new object is only known from the message itself"
  | NoSuchMessage iface op => iface ++ B " has no message with opcode " ++ decimal op ++ B " on this side"
  | UnknownInterface i => B "interface " ++ decimal (Z.of_nat i) ++ B " is not in the tables"
  | MissingInterface name => B "the tables do not describe interface " ++ name
  | HiddenGlobal name => B "global " ++ decimal name ++ B " is hidden from this connection"
  | TooManyObjects => B "more than 65536 objects are mapped, or as many are dead server ids"
  end.

Record Entry := mkEntry { interface : nat; e_version : Z; zombie : bool }.

#[global] Instance Entry_eq_dec : EqDecision Entry.
Proof. solve_decision. Defined.

Record Objects := mkObjects {
  map_ : gmap Z Entry; hidden_globals : gset Z; server_zombies : Z }.

Section Objects.
Context `{Tables}.

Definition new : Objects :=
  mkObjects {[ 1 := mkEntry WL_DISPLAY_INDEX 1 false ]} ∅ 0.

Definition lookup_id (o : Objects) (id : Z) : option Entry := map_ o !! id.

Definition interface_of (o : Objects) (id : Z) : option Interface :=
  entry ← lookup_id o id; by_index (interface entry).

Definition objects_len (o : Objects) : Z := Z.of_nat (size (map_ o)).
Definition objects_is_empty (o : Objects) : bool := objects_len o =? 0.
Definition live (o : Objects) : Z := objects_len o - server_zombies o.

Definition record (o : Objects) (from_client : bool) (id : Z) (iface : nat) (version_ : Z)
  : result ObjectError Objects :=
  if from_client && ((id =? 0) || (id >=? SERVER_ID_BASE)) then Err (NotClientId id)
  else if negb from_client && (id <? SERVER_ID_BASE) then Err (NotServerId id)
  else match by_index iface with
  | None => Err (UnknownInterface iface)
  | Some i =>
    let entry := mkEntry iface (Z.min version_ (version i)) false in
    match map_ o !! id with
    | Some old =>
      if from_client then Err (InUse id)
      else
        let zombies := if zombie old then server_zombies o - 1 else server_zombies o in
        Ok (mkObjects (<[id := entry]> (map_ o)) (hidden_globals o) zombies)
    | None =>
      if (live o >=? MAX_OBJECTS) || (server_zombies o >=? MAX_OBJECTS) then Err TooManyObjects
      else Ok (mkObjects (<[id := entry]> (map_ o)) (hidden_globals o) (server_zombies o))
    end
  end.

Definition bind (o : Objects) (name : Z) (iface : nat) (version_ new_id : Z) : result ObjectError Objects :=
  if bool_decide (name ∈ hidden_globals o) then Err (HiddenGlobal name)
  else record o true new_id iface version_.

(** [args.iter().find_map(..)]: the id the message creates. *)
Fixpoint new_id_of (args : list Arg) : option Z :=
  match args with
  | [] => None
  | NewId id :: _ => Some id
  | _ :: args => new_id_of args
  end.

Definition new_id_from (o : Objects) (from_client : bool) (parent opcode : Z) (args : list Arg)
  : result ObjectError (option Z * Objects) :=
  entry ← ok_or (lookup_id o parent) (Unmapped parent);
  iface ← ok_or (by_index (interface entry)) (UnknownInterface (interface entry));
  msg ← ok_or (message iface from_client opcode) (NoSuchMessage (i_name iface) opcode);
  match new_id_of args with
  | None => Ok (None, o)
  | Some new_id =>
    name ← ok_or (new_id_interface msg) UntypedNewId;
    index ← ok_or (index_of name) (MissingInterface name);
    o ← record o from_client new_id index (e_version entry);
    Ok (Some new_id, o)
  end.

Definition destroy (o : Objects) (id : Z) : Objects * bool :=
  match map_ o !! id with
  | Some entry =>
    let zombies := if negb (zombie entry) && (id >=? SERVER_ID_BASE)
                   then server_zombies o + 1 else server_zombies o in
    (mkObjects (<[id := mkEntry (interface entry) (e_version entry) true]> (map_ o)) (hidden_globals o) zombies, true)
  | None => (o, false)
  end.

Definition delete_id (o : Objects) (id : Z) : Objects * bool :=
  match map_ o !! id with
  | Some entry =>
    let zombies := if zombie entry && (id >=? SERVER_ID_BASE)
                   then server_zombies o - 1 else server_zombies o in
    (mkObjects (delete id (map_ o)) (hidden_globals o) zombies, true)
  | None => (o, false)
  end.

Definition hide_global (o : Objects) (name : Z) : Objects :=
  mkObjects (map_ o) ({[ name ]} ∪ hidden_globals o) (server_zombies o).
Definition is_hidden (o : Objects) (name : Z) : bool := bool_decide (name ∈ hidden_globals o).
Definition hidden_count (o : Objects) : Z := Z.of_nat (size (hidden_globals o)).

(** ** The invariant *)

(** The destroyed objects of the server's range, by id. *)
Definition server_zombie (p : Z * Entry) : Prop := SERVER_ID_BASE <= p.1 /\ zombie p.2 = true.
#[global] Instance server_zombie_dec p : Decision (server_zombie p).
Proof. unfold server_zombie. apply _. Defined.

Definition zombies_of (m : gmap Z Entry) : gmap Z Entry := filter server_zombie m.

Definition entry_ok (e : Entry) : Prop :=
  exists i, by_index (interface e) = Some i /\ e_version e <= version i.

Record objects_ok (o : Objects) : Prop := {
  ok_zombies : server_zombies o = Z.of_nat (size (zombies_of (map_ o)));
  ok_size : objects_len o <= 2 * MAX_OBJECTS - 1;
  ok_ids : forall id e, map_ o !! id = Some e -> id <> 0 /\ entry_ok e;
}.

Lemma MAX_OBJECTS_val : MAX_OBJECTS = 65536.
Proof. reflexivity. Qed.

(** What the entry of an id adds to the count. *)
Definition weight (id : Z) (e : option Entry) : Z :=
  match e with Some e => if decide (server_zombie (id, e)) then 1 else 0 | None => 0 end.

Lemma zombies_delete m id :
  Z.of_nat (size (zombies_of (delete id m))) = Z.of_nat (size (zombies_of m)) - weight id (m !! id).
Proof.
  unfold zombies_of, weight. rewrite map_filter_delete. destruct (m !! id) as [e|] eqn:E.
  - destruct (decide (server_zombie (id, e))) as [Hz|Hz].
    + assert (filter server_zombie m !! id = Some e) as Hl by by apply map_lookup_filter_Some_2.
      rewrite map_size_delete_Some by by exists e.
      assert (size (filter server_zombie m) <> 0%nat); [|lia].
      intros Hz0%map_size_empty_inv. by rewrite Hz0, lookup_empty in Hl.
    + rewrite map_size_delete_None; [lia|]. apply map_lookup_filter_None_2. right. intros e' He'. congruence.
  - rewrite map_size_delete_None; [lia|]. apply map_lookup_filter_None_2. by left.
Qed.

Lemma zombies_insert_fresh m id e :
  m !! id = None ->
  Z.of_nat (size (zombies_of (<[id := e]> m))) = Z.of_nat (size (zombies_of m)) + weight id (Some e).
Proof.
  intros Hn. unfold zombies_of, weight. destruct (decide (server_zombie (id, e))) as [Hz|Hz].
  - rewrite map_filter_insert_True by done. rewrite map_size_insert_None; [lia|].
    apply map_lookup_filter_None_2. by left.
  - rewrite map_filter_insert_False by done. rewrite fin_maps.delete_id by done. lia.
Qed.

Lemma zombies_insert m id e :
  Z.of_nat (size (zombies_of (<[id := e]> m))) =
  Z.of_nat (size (zombies_of m)) - weight id (m !! id) + weight id (Some e).
Proof.
  rewrite <-insert_delete_eq, zombies_insert_fresh by apply lookup_delete_eq.
  by rewrite zombies_delete.
Qed.

Lemma objects_len_insert o id e :
  Z.of_nat (size (<[id := e]> (map_ o))) =
  objects_len o + (if decide (map_ o !! id = None) then 1 else 0).
Proof.
  unfold objects_len. destruct (map_ o !! id) eqn:E.
  - rewrite decide_False by done. rewrite map_size_insert_Some by done. lia.
  - rewrite decide_True by done. rewrite map_size_insert_None by done. lia.
Qed.

Lemma weight_live id i v : weight id (Some (mkEntry i v false)) = 0.
Proof. unfold weight, server_zombie. cbn. by rewrite decide_False by naive_solver. Qed.

Lemma weight_eq id e : weight id (Some e) = if (SERVER_ID_BASE <=? id) && zombie e then 1 else 0.
Proof.
  unfold weight. case_decide as Hd; unfold server_zombie in Hd; cbn in Hd.
  - destruct Hd as [Hb ->]. by rewrite (proj2 (Z.leb_le _ _) Hb).
  - destruct (Z.leb_spec SERVER_ID_BASE id), (zombie e) eqn:E; cbn; try done. destruct Hd. done.
Qed.

Lemma weight_range id e : 0 <= weight id e <= 1.
Proof. unfold weight. destruct e; [|lia]. case_decide; lia. Qed.

(** What recording an id means, in full. *)
Lemma record_iff o from_client id iface v o' :
  record o from_client id iface v = Ok o' <->
  (if from_client then 0 <> id /\ id < SERVER_ID_BASE else SERVER_ID_BASE <= id) /\
  exists i, by_index iface = Some i /\
    map_ o' = <[id := mkEntry iface (Z.min v (version i)) false]> (map_ o) /\
    hidden_globals o' = hidden_globals o /\
    match map_ o !! id with
    | Some old => from_client = false /\
        server_zombies o' = server_zombies o - (if zombie old then 1 else 0)
    | None => live o < MAX_OBJECTS /\ server_zombies o < MAX_OBJECTS /\ server_zombies o' = server_zombies o
    end.
Proof.
  unfold record. rewrite !Z.geb_leb.
  assert ((from_client && ((id =? 0) || (SERVER_ID_BASE <=? id))) = false /\
          (negb from_client && (id <? SERVER_ID_BASE)) = false <->
          (if from_client then 0 <> id /\ id < SERVER_ID_BASE else SERVER_ID_BASE <= id)) as Hr.
  { destruct from_client; cbn [andb negb]; rewrite ?orb_false_iff, ?Z.eqb_neq, ?Z.leb_gt, ?Z.ltb_ge; intuition lia. }
  destruct (from_client && _) eqn:E1; [split; [done|]; intros [Hc _]; apply Hr in Hc as [? _]; congruence|].
  destruct (negb from_client && _) eqn:E2; [split; [done|]; intros [Hc _]; apply Hr in Hc as [_ ?]; congruence|].
  pose proof (proj1 Hr (conj eq_refl eq_refl)) as Hc. clear Hr.
  destruct (by_index iface) as [i|] eqn:Ei.
  2:{ split; [done|]. intros (_ & i & ? & _). done. }
  destruct (map_ o !! id) as [old|] eqn:El.
  - destruct from_client.
    + split; [done|]. intros (_ & i' & _ & _ & _ & ? & _). done.
    + split.
      * intros [= <-]. split; [done|]. exists i. cbn. split_and!; try done. destruct (zombie old); lia.
      * intros (_ & i' & [= <-] & R1 & R2 & _ & R3). destruct o'; cbn in *. subst. do 2 f_equal. destruct (zombie old); lia.
  - destruct (Z.leb_spec MAX_OBJECTS (live o)), (Z.leb_spec MAX_OBJECTS (server_zombies o)); cbn [orb];
      try (split; [done|]; intros (_ & i' & _ & _ & _ & ? & ? & _); lia).
    split.
    + intros [= <-]. split; [done|]. by exists i.
    + intros (_ & i' & [= <-] & R1 & R2 & _ & _ & R3). destruct o'; cbn in *. by subst.
Qed.

Lemma zombies_nonneg o : objects_ok o -> 0 <= server_zombies o <= objects_len o.
Proof.
  intros [-> _ _]. unfold objects_len. split; [lia|]. apply inj_le. unfold zombies_of. apply map_size_filter.
Qed.

Lemma record_objects_ok o from_client id iface v o' :
  objects_ok o -> record o from_client id iface v = Ok o' -> objects_ok o'.
Proof.
  intros Hok (Hr & i & Hi & Hm & Hh & Hc)%record_iff. pose proof (zombies_nonneg o Hok). destruct Hok as [Hz Hs He].
  constructor.
  - rewrite Hm, zombies_insert, weight_live, <-Hz.
    destruct (map_ o !! id) as [old|] eqn:E; [|cbn; lia]. destruct Hc as [-> ->].
    rewrite weight_eq, (proj2 (Z.leb_le _ _) Hr). cbn. lia.
  - unfold objects_len. rewrite Hm, objects_len_insert. unfold live in Hc. rewrite MAX_OBJECTS_val in *.
    destruct (map_ o !! id); [rewrite decide_False by done; lia|]. rewrite decide_True by done. lia.
  - intros id' e'. rewrite Hm. intros [[<- <-]|[Hne Hl]]%lookup_insert_Some; [|by eapply He].
    split; [destruct from_client; unfold SERVER_ID_BASE in *; lia|]. exists i. cbn. split; [done|lia].
Qed.

Lemma destroy_objects_ok o id : objects_ok o -> objects_ok (destroy o id).1.
Proof.
  intros [Hz Hs He]. unfold destroy. destruct (map_ o !! id) as [e|] eqn:E; [|done]. cbn.
  constructor; cbn.
  - rewrite zombies_insert, E, <-Hz, ?weight_eq, Z.geb_leb. cbn [zombie].
    destruct (SERVER_ID_BASE <=? id), (zombie e); cbn; lia.
  - unfold objects_len. cbn. rewrite objects_len_insert, decide_False by congruence. lia.
  - intros id' e'. intros [[<- <-]|[Hne Hl]]%lookup_insert_Some; [|by eapply He]. by apply (He _ e).
Qed.

Lemma delete_objects_ok o id : objects_ok o -> objects_ok (delete_id o id).1.
Proof.
  intros [Hz Hs He]. unfold delete_id. destruct (map_ o !! id) as [e|] eqn:E; [|done]. cbn.
  constructor; cbn.
  - rewrite zombies_delete, E, <-Hz, ?weight_eq, Z.geb_leb. cbn [zombie].
    destruct (SERVER_ID_BASE <=? id), (zombie e); cbn; lia.
  - unfold objects_len in *. cbn. rewrite map_size_delete_Some by by exists e. lia.
  - intros id' e' [_ Hl]%lookup_delete_Some. by eapply He.
Qed.

Lemma hide_objects_ok o name : objects_ok o -> objects_ok (hide_global o name).
Proof. intros [Hz Hs He]. by constructor. Qed.

Lemma new_objects_ok `{!TablesOk} : objects_ok new.
Proof.
  constructor; cbn.
  - unfold zombies_of. rewrite map_filter_singleton_False; [done|]. unfold server_zombie. cbn. naive_solver.
  - unfold objects_len. cbn. rewrite map_size_singleton, MAX_OBJECTS_val. lia.
  - intros id e [<- <-]%lookup_singleton_Some. split; [done|].
    destruct tables_display as (i & Hi & _ & Hv). exists i. cbn. done.
Qed.

(** ** Sequences of operations *)

Inductive op :=
| ORecord (from_client : bool) (id : Z) (iface : nat) (v : Z)
| ODestroy (id : Z)
| ODelete (id : Z)
| OHide (name : Z).

(** An operation that fails changes nothing. *)
Definition op_step (o : Objects) (p : op) : Objects :=
  match p with
  | ORecord from_client id iface v =>
      match record o from_client id iface v with Ok o' => o' | Err _ => o end
  | ODestroy id => (destroy o id).1
  | ODelete id => (delete_id o id).1
  | OHide name => hide_global o name
  end.

Definition op_run (o : Objects) (l : list op) : Objects := foldl op_step o l.

Lemma op_step_ok o p : objects_ok o -> objects_ok (op_step o p).
Proof.
  intros Ho. destruct p; cbn; [|by apply destroy_objects_ok|by apply delete_objects_ok|by apply hide_objects_ok].
  destruct (record _ _ _ _ _) eqn:E; [by eapply record_objects_ok|done].
Qed.

Lemma op_run_ok o l : objects_ok o -> objects_ok (op_run o l).
Proof. revert o. induction l as [|p l IH]; intros o Ho; [done|]. by apply IH, op_step_ok. Qed.

End Objects.

(** ** Properties *)

Section Properties.
Context `{TablesOk}.

(** The ops that fill a connection to its live cap, with one dead server id. *)
Definition fill_ops (n : nat) : list op :=
  map (fun k => ORecord true (2 + Z.of_nat k) WL_DISPLAY_INDEX 1) (seq 0 n).
Definition cap_ops : list op :=
  [ORecord false SERVER_ID_BASE WL_DISPLAY_INDEX 1; ODestroy SERVER_ID_BASE] ++ fill_ops (Z.to_nat 65535).

Lemma op_run_app o l k : op_run o (l ++ k) = op_run (op_run o l) k.
Proof. apply foldl_app. Qed.

Lemma fill_spec o0 n :
  objects_ok o0 -> live o0 = 1 -> server_zombies o0 = 1 ->
  (forall id, 2 <= id < SERVER_ID_BASE -> map_ o0 !! id = None) ->
  (n <= Z.to_nat 65535)%nat ->
  let o := op_run o0 (fill_ops n) in
  live o = 1 + Z.of_nat n /\ server_zombies o = 1 /\
  (forall id, 2 + Z.of_nat n <= id < SERVER_ID_BASE -> map_ o !! id = None) /\
  map_ o !! SERVER_ID_BASE = map_ o0 !! SERVER_ID_BASE.
Proof.
  intros Hok Hlive Hz Hfree. induction n as [|n IH]; intros Hn; cbv zeta.
  - change (op_run o0 (fill_ops 0)) with o0. split_and!; [lia|done| |done]. intros. apply Hfree. lia.
  - destruct IH as (Hl & Hzz & Hf & Hs); [lia|]. unfold fill_ops in *.
    rewrite seq_S, map_app, op_run_app. set (o := op_run o0 _) in *. cbn [map op_run foldl].
    set (id := 2 + Z.of_nat (0 + n)). destruct tables_display as (i & Hi & _ & Hv).
    assert (map_ o !! id = None) as Hid by (apply Hf; unfold id, SERVER_ID_BASE; lia).
    set (o' := mkObjects (<[id := mkEntry WL_DISPLAY_INDEX (Z.min 1 (version i)) false]> (map_ o))
                 (hidden_globals o) (server_zombies o)).
    assert (op_step o (ORecord true id WL_DISPLAY_INDEX 1) = o') as ->.
    { cbn [op_step]. assert (record o true id WL_DISPLAY_INDEX 1 = Ok o') as ->; [|done].
      apply record_iff. split; [unfold id, SERVER_ID_BASE; lia|]. exists i. split_and!; [done|done|done|].
      rewrite Hid, Hl, Hzz, MAX_OBJECTS_val. split_and!; [lia|lia|done]. }
    unfold live, objects_len, o'. cbn [map_ server_zombies].
    rewrite objects_len_insert, decide_True by done. unfold live in Hl.
    split_and!; [lia|done| |].
    + intros id' Hid'. rewrite lookup_insert_ne by (unfold id; lia). apply Hf. lia.
    + rewrite lookup_insert_ne; [done|]. unfold id, SERVER_ID_BASE. lia.
Qed.

(** C39. The map of a connection is bounded whatever either side does: after any
    operations the count of destroyed server objects is exact (so the source's
    subtractions never wrap), at most 131071 ids are mapped, none is 0, and every
    mapped id has an interface the tables describe at a version they describe. *)
Theorem objects_stay_bounded ops :
  let o := op_run new ops in
  server_zombies o = Z.of_nat (size (zombies_of (map_ o))) /\
  0 <= server_zombies o <= objects_len o /\ objects_len o <= 131071 /\
  forall id e, map_ o !! id = Some e ->
    id <> 0 /\ exists i, interface_of o id = Some i /\ e_version e <= version i.
Proof.
  cbv zeta. pose proof (op_run_ok new ops new_objects_ok) as Hok. pose proof (zombies_nonneg _ Hok).
  destruct Hok as [Hz Hs He]. rewrite MAX_OBJECTS_val in Hs. split_and!; [done|lia|lia|lia|].
  intros id e Hl. destruct (He id e Hl) as (Hid & i & Hi & Hv). split; [done|].
  exists i. split; [|done]. unfold interface_of, lookup_id. by rewrite Hl.
Qed.

(** A message creates an object only as the protocol allows: in the range of
    the side that sent it, never over an id of the client's that is still mapped,
    with the interface the tables name for that message and its parent's version
    clamped to what they describe; every other id is left as it was. *)
Theorem new_object_is_typed o from_client parent opcode args id o' :
  new_id_from o from_client parent opcode args = Ok (Some id, o') ->
  NewId id ∈ args /\
  (if from_client then 0 <> id /\ id < SERVER_ID_BASE /\ map_ o !! id = None else SERVER_ID_BASE <= id) /\
  (exists p pi m n i, map_ o !! parent = Some p /\ by_index (interface p) = Some pi /\
     message pi from_client opcode = Some m /\ new_id_interface m = Some (i_name i) /\
     by_index n = Some i /\
     map_ o' !! id = Some (mkEntry n (Z.min (e_version p) (version i)) false)) /\
  forall id', id' <> id -> map_ o' !! id' = map_ o !! id'.
Proof.
  unfold new_id_from. intros (p & Hp%ok_or_ok & Hr)%bind_ok.
  apply bind_ok in Hr as (pi & Hpi%ok_or_ok & Hr). apply bind_ok in Hr as (m & Hm%ok_or_ok & Hr).
  destruct (new_id_of args) as [nid|] eqn:Ea; [|done].
  apply bind_ok in Hr as (nm & Hnm%ok_or_ok & Hr). apply bind_ok in Hr as (n & Hn%ok_or_ok & Hr).
  apply bind_ok in Hr as (o1 & Ho & [= -> ->]).
  apply record_iff in Ho as (Hrange & i & Hi & Hmap & _ & Hc).
  pose proof (proj1 (binary_search_spec i_name INTERFACES nm n tables_sorted) Hn) as (i' & Hi' & Hname).
  assert (i' = i) as -> by (unfold by_index in Hi; congruence).
  split_and!.
  - clear -Ea. induction args as [|a args IH]; [done|]. destruct a; cbn in Ea; try (apply elem_of_cons; right; by apply IH).
    injection Ea as ->. set_solver.
  - destruct from_client; [|done]. split_and!; [apply Hrange..|]. by destruct (map_ o !! id); [destruct Hc|].
  - exists p, pi, m, n, i. rewrite Hmap, lookup_insert_eq, Hname. done.
  - intros id' Hne. by rewrite Hmap, lookup_insert_ne.
Qed.

(** An id is forgotten only when the server releases it: any other operation
    keeps every id mapped, and keeps a client's id mapped to the same interface
    and version, so events still in flight for an object it has destroyed go on
    being decoded. *)
Theorem only_delete_id_forgets o p id e :
  map_ o !! id = Some e -> p <> ODelete id ->
  exists e', map_ (op_step o p) !! id = Some e' /\
    (id < SERVER_ID_BASE -> interface e' = interface e /\ e_version e' = e_version e).
Proof.
  intros He Hp. destruct p as [fc id' iface v|id'|id'|name]; cbn.
  - destruct (record o fc id' iface v) as [o'|] eqn:Er; [|by exists e].
    apply record_iff in Er as (Hr & i & Hi & Hm & _ & Hc). rewrite Hm.
    destruct (decide (id = id')) as [->|Hne].
    + rewrite lookup_insert_eq. eexists. split; [done|]. rewrite He in Hc. destruct Hc as [-> _]. lia.
    + rewrite lookup_insert_ne by done. by exists e.
  - unfold destroy. destruct (map_ o !! id') as [e'|] eqn:E; cbn; [|by exists e].
    destruct (decide (id = id')) as [->|Hne].
    + rewrite lookup_insert_eq. eexists. split; [done|]. assert (e' = e) as -> by congruence. done.
    + rewrite lookup_insert_ne by done. by exists e.
  - unfold delete_id. destruct (map_ o !! id') as [e'|] eqn:E; cbn; [|by exists e].
    rewrite lookup_delete_ne by congruence. by exists e.
  - by exists e.
Qed.

(** The live cap is not a bound on live objects.  A connection filled to
    [MAX_OBJECTS] live ids, with one dead server id beside them, passes the cap
    when the server reuses that id: the reuse of a mapped id is not held to the
    cap, so 65537 ids are live. *)
Theorem live_cap_passed_by_reuse :
  live (op_run new cap_ops) = MAX_OBJECTS /\
  live (op_run new (cap_ops ++ [ORecord false SERVER_ID_BASE WL_DISPLAY_INDEX 1])) = MAX_OBJECTS + 1.
Proof.
  destruct tables_display as (i & Hi & _ & Hv).
  assert (by_index WL_DISPLAY_INDEX = Some i) as Hi' by exact Hi.
  set (e := mkEntry WL_DISPLAY_INDEX (Z.min 1 (version i)) false).
  set (d := mkEntry WL_DISPLAY_INDEX 1 false).
  set (o1 := mkObjects (<[SERVER_ID_BASE := e]> {[ 1 := d ]}) ∅ 0).
  assert (record new false SERVER_ID_BASE WL_DISPLAY_INDEX 1 = Ok o1) as E1.
  { apply record_iff. split; [lia|]. exists i. split_and!; [done|done|done|].
    cbn [new map_]. rewrite lookup_singleton_ne by done. unfold live, objects_len. cbn [new map_ server_zombies].
    rewrite map_size_singleton, MAX_OBJECTS_val. split_and!; [lia|lia|done]. }
  set (o2 := op_run new [ORecord false SERVER_ID_BASE WL_DISPLAY_INDEX 1; ODestroy SERVER_ID_BASE]).
  set (z := mkEntry WL_DISPLAY_INDEX (e_version e) true).
  assert (o2 = mkObjects (<[SERVER_ID_BASE := z]> (<[SERVER_ID_BASE := e]> {[ 1 := d ]})) ∅ 1) as E2.
  { unfold o2. cbn [op_run foldl op_step]. rewrite E1. unfold destroy. cbn [o1 map_].
    rewrite lookup_insert_eq. done. }
  assert (live o2 = 1 /\ server_zombies o2 = 1) as [Hl2 Hz2].
  { rewrite E2. unfold live, objects_len. cbn [map_ server_zombies].
    rewrite map_size_insert_Some by (rewrite lookup_insert_eq; by eexists).
    rewrite map_size_insert_None by (apply lookup_singleton_ne; discriminate).
    rewrite map_size_singleton. split; reflexivity. }
  destruct (fill_spec o2 (Z.to_nat 65535)) as (Hl & Hz & _ & Hs).
  { apply op_run_ok, new_objects_ok. }
  { done. } { done. }
  { intros id Hid. rewrite E2. cbn [map_]. unfold SERVER_ID_BASE in *.
    rewrite !lookup_insert_ne by lia. apply lookup_singleton_ne. lia. }
  { done. }
  rewrite op_run_app. unfold cap_ops. rewrite op_run_app. fold o2. set (o := op_run o2 _) in *. clearbody o.
  rewrite MAX_OBJECTS_val, Hl, Z2Nat.id by lia. split; [done|].
  cbn [op_run foldl op_step].
  rewrite E2 in Hs. cbn [map_] in Hs. rewrite lookup_insert_eq in Hs.
  set (o' := mkObjects (<[SERVER_ID_BASE := e]> (map_ o)) (hidden_globals o) (server_zombies o - 1)).
  assert (record o false SERVER_ID_BASE WL_DISPLAY_INDEX 1 = Ok o') as ->.
  { apply record_iff. split; [lia|]. exists i. split_and!; [done|done|done|]. rewrite Hs. done. }
  unfold live, objects_len, o' in *. cbn [map_ server_zombies].
  rewrite map_size_insert_Some by (rewrite Hs; by eexists). lia.
Qed.

End Properties.

(** The demo tables give [wl_display] the index 2 and [wl_registry] 4. *)
Definition demo_objects : Objects :=
  match @new_id_from demo_tables (@new demo_tables) true 1 1 [NewId 2] with
  | Ok (_, o) => o
  | Err _ => @new demo_tables
  end.

Lemma objects_stay_bounded_witness :
  objects_len (@op_run demo_tables (@new demo_tables) [ORecord true 2 4 1; ODestroy 2; ODelete 2]) <= 131071.
Proof. apply (@objects_stay_bounded demo_tables demo_tables_ok [ORecord true 2 4 1; ODestroy 2; ODelete 2]). Defined.

Lemma new_object_is_typed_witness :
  @new_id_from demo_tables (@new demo_tables) true 1 1 [NewId 2] = Ok (Some 2, demo_objects) /\
  map_ (@new demo_tables) !! 2 = None.
Proof.
  assert (@new_id_from demo_tables (@new demo_tables) true 1 1 [NewId 2] = Ok (Some 2, demo_objects)) as E by (vm_compute; reflexivity).
  split; [exact E|].
  apply (@new_object_is_typed demo_tables demo_tables_ok (@new demo_tables) true 1 1 [NewId 2] 2 demo_objects E).
Defined.

Lemma only_delete_id_forgets_witness :
  exists e', map_ (@op_step demo_tables demo_objects (ODestroy 2)) !! 2 = Some e' /\ interface e' = 4%nat.
Proof.
  destruct (@only_delete_id_forgets demo_tables demo_objects (ODestroy 2) 2 (mkEntry 4 1 false))
    as (e' & He & Hi); [vm_compute; reflexivity|congruence|].
  exists e'. split; [exact He|]. apply Hi. reflexivity.
Defined.

Lemma live_cap_passed_by_reuse_witness :
  live (@op_run demo_tables (@new demo_tables)
    (@cap_ops demo_tables ++ [ORecord false SERVER_ID_BASE (@WL_DISPLAY_INDEX demo_tables) 1])) = MAX_OBJECTS + 1.
Proof. apply (@live_cap_passed_by_reuse demo_tables demo_tables_ok). Defined.
