(* ===== verification/WlAudit.v ===== *)
(** The Wayland proxy's audit log: [crates/bubbler-wl-proxy/src/audit.rs].

    [out] is the text written so far, line by line; times are nanoseconds. *)
From S2P Require Export Text.

Definition RATE : Z := from_secs 1.

Inductive Kind := Gate_ | Close.

#[global] Instance Kind_eq_dec : EqDecision Kind.
Proof. solve_decision. Defined.

Record Budget := mkBudget { last_ : option Z; suppressed : Z }.

Record Audit := mkAudit { out : list bytes; gate_ : Budget; close_ : Budget }.

Definition new_audit : Audit := mkAudit [] (mkBudget None 0) (mkBudget None 0).

Definition budget (a : Audit) (kind : Kind) : Budget :=
  match kind with Gate_ => gate_ a | Close => close_ a end.

Definition set_budget (a : Audit) (kind : Kind) (b : Budget) : Audit :=
  match kind with
  | Gate_ => mkAudit (out a) b (close_ a)
  | Close => mkAudit (out a) (gate_ a) b
  end.

Definition line_text (text : bytes) (n : Z) : bytes :=
  if n =? 0 then text ++ [LF] else text ++ B " (+" ++ decimal n ++ B " more)" ++ [LF].

(** Whether a line of this kind went out less than [RATE] ago. *)
Definition too_soon (b : Budget) (now : Z) : bool :=
  match last_ b with Some last => saturating_sub now last <? RATE | None => false end.

Definition line (a : Audit) (kind : Kind) (now : Z) (text : bytes) : Audit :=
  let b := budget a kind in
  if too_soon b now
  then set_budget a kind (mkBudget (last_ b) (saturating_add_u64 (suppressed b) 1))
  else
    let a := set_budget a kind (mkBudget (Some now) 0) in
    mkAudit (out a ++ [line_text text (suppressed b)]) (gate_ a) (close_ a).

Definition suppressed_of (a : Audit) (kind : Kind) : Z := suppressed (budget a kind).

(** ** What has been written *)

(** A line that went out: its kind, when, its text and the count it carries. *)
Record sent := mkSent { s_kind : Kind; s_at : Z; s_text : bytes; s_count : Z }.

Definition of_kind (k : Kind) (l : list sent) : list sent := filter (fun s => s_kind s = k) l.

Definition counted (l : list sent) : Z := fold_right Z.add 0 (map (fun s => 1 + s_count s) l).

Definition call : Type := Kind * Z * bytes.
Definition audit_run (a : Audit) (calls : list call) : Audit :=
  foldl (fun a '(k, now, text) => line a k now text) a calls.
Definition calls_of (k : Kind) (calls : list call) : list call := filter (fun c => c.1.1 = k) calls.

(** Lines of one kind are at least [RATE] apart. *)
Fixpoint spaced (from_ : option Z) (l : list sent) : Prop :=
  match l with
  | [] => True
  | s :: l => (match from_ with Some t => t + RATE <= s_at s | None => True end) /\ spaced (Some (s_at s)) l
  end.

Definition last_at (from_ : option Z) (l : list sent) : option Z :=
  match last l with Some s => Some (s_at s) | None => from_ end.

Record audit_inv (calls : list call) (a : Audit) (es : list sent) : Prop := {
  inv_out : out a = map (fun s => line_text (s_text s) (s_count s)) es;
  inv_last : forall k, last_ (budget a k) = last_at None (of_kind k es);
  inv_spaced : forall k, spaced None (of_kind k es);
  inv_counted : forall k, counted (of_kind k es) + suppressed_of a k = len (calls_of k calls);
  inv_nonneg : forall k, 0 <= suppressed_of a k /\ 0 <= counted (of_kind k es);
}.

Lemma of_kind_snoc k es s : of_kind k (es ++ [s]) = of_kind k es ++ (if decide (s_kind s = k) then [s] else []).
Proof. unfold of_kind. by rewrite filter_app. Qed.
Lemma calls_of_snoc k cs c : calls_of k (cs ++ [c]) = calls_of k cs ++ (if decide (c.1.1 = k) then [c] else []).
Proof. unfold calls_of. by rewrite filter_app. Qed.

Lemma spaced_snoc from_ l s :
  spaced from_ l -> (match last_at from_ l with Some t => t + RATE <= s_at s | None => True end) ->
  spaced from_ (l ++ [s]).
Proof.
  revert from_. induction l as [|x l IH]; intros from_; cbn [app spaced].
  - done.
  - intros [H1 H2] Hl. split; [done|]. apply IH; [done|].
    unfold last_at in *. rewrite last_cons in Hl. by destruct (last l).
Qed.

Lemma counted_snoc l s : counted (l ++ [s]) = counted l + (1 + s_count s).
Proof. unfold counted. induction l as [|x l IH]; cbn in *; lia. Qed.

Lemma budget_set a k k' b : budget (set_budget a k b) k' = if decide (k = k') then b else budget a k'.
Proof. destruct k, k'; done. Qed.

Lemma line_inv calls a es k now text :
  audit_inv calls a es -> len calls < U64_MAX ->
  exists es', audit_inv (calls ++ [(k, now, text)]) (line a k now text) es'.
Proof.
  intros [H1 H2 H3 H4 H5] Hn. unfold line.
  assert (forall k', len (calls_of k' (calls ++ [(k, now, text)])) =
    len (calls_of k' calls) + (if decide (k = k') then 1 else 0)) as Hc.
  { intros k'. rewrite calls_of_snoc. cbn. destruct (decide (k = k')); len_lia. }
  destruct (too_soon (budget a k) now) eqn:Hs.
  - exists es. constructor.
    + destruct k; done.
    + intros k'. rewrite budget_set. destruct (decide (k = k')) as [->|]; [cbn; done|done].
    + done.
    + intros k'. specialize (H4 k') as Hk. specialize (H5 k') as [Hk1 Hk2]. rewrite Hc.
      unfold suppressed_of in *. rewrite budget_set. destruct (decide (k = k')) as [->|]; [|lia].
      cbn. unfold saturating_add_u64. rewrite Z.min_r; [lia|].
      assert (len (calls_of k' calls) <= len calls).
      { unfold calls_of, len. apply inj_le. apply length_filter. }
      lia.
    + intros k'. destruct (H5 k') as [Hk1 Hk2]. split; [|done]. unfold suppressed_of in *. rewrite budget_set.
      destruct (decide (k = k')) as [->|]; [|done]. cbn. unfold saturating_add_u64, U64_MAX. lia.
  - set (s := mkSent k now text (suppressed (budget a k))). exists (es ++ [s]). constructor.
    + cbn. rewrite map_app, <-H1. by destruct k.
    + intros k'. rewrite of_kind_snoc. cbn [s_kind s].
      assert (last_ (budget (mkAudit (out (set_budget a k (mkBudget (Some now) 0)) ++ [line_text text (suppressed (budget a k))])
        (gate_ (set_budget a k (mkBudget (Some now) 0))) (close_ (set_budget a k (mkBudget (Some now) 0)))) k')
        = last_ (budget (set_budget a k (mkBudget (Some now) 0)) k')) as -> by (destruct k'; done).
      rewrite budget_set. destruct (decide (k = k')) as [->|].
      * unfold last_at. rewrite last_snoc. done.
      * by rewrite app_nil_r.
    + intros k'. rewrite of_kind_snoc. cbn [s_kind s]. destruct (decide (k = k')) as [<-|]; [|by rewrite app_nil_r].
      apply spaced_snoc; [done|]. rewrite <-H2. unfold too_soon in Hs.
      destruct (last_ (budget a k)) as [t|]; [|done]. bool_to_prop. cbn. unfold saturating_sub, RATE, from_secs, NANOS in *. lia.
    + intros k'. rewrite Hc, of_kind_snoc. cbn [s_kind s]. specialize (H4 k').
      unfold suppressed_of in *. destruct (decide (k = k')) as [<-|].
      * rewrite counted_snoc. cbn. destruct k; cbn in *; lia.
      * rewrite app_nil_r. destruct k, k'; cbn in *; done || lia.
    + intros k'. destruct (H5 k') as [Hk1 Hk2]. rewrite of_kind_snoc. cbn [s_kind s]. unfold suppressed_of in *.
      destruct (decide (k = k')) as [<-|].
      * rewrite counted_snoc. cbn. destruct k; cbn in *; lia.
      * rewrite app_nil_r. destruct k, k'; cbn in *; done || lia.
Qed.

Lemma audit_run_inv calls0 a es calls :
  audit_inv calls0 a es -> len calls0 + len calls <= U64_MAX ->
  exists es', audit_inv (calls0 ++ calls) (audit_run a calls) es'.
Proof.
  revert calls0 a es. induction calls as [|[[k now] text] calls IH]; intros calls0 a es Hi Hn; cbn [audit_run foldl].
  - exists es. by rewrite app_nil_r.
  - destruct (line_inv calls0 a es k now text Hi) as (es' & Hi'); [len_lia|].
    apply IH in Hi'; [|len_lia]. rewrite <-app_assoc in Hi'. exact Hi'.
Qed.

(** ** Properties *)

(** The audit log is bounded per kind and loses no count: lines of one kind are
    at least a second apart whatever the other kind does, and every call of a kind
    is a line of that kind, in the count a later line of it carries, or in the
    count its next line will. *)
Theorem audit_bounded_and_accounted calls :
  len calls <= U64_MAX ->
  exists es, out (audit_run new_audit calls) = map (fun s => line_text (s_text s) (s_count s)) es /\
  forall k, spaced None (of_kind k es) /\
    counted (of_kind k es) + suppressed_of (audit_run new_audit calls) k = len (calls_of k calls).
Proof.
  intros Hn. destruct (audit_run_inv [] new_audit [] calls) as (es & [H1 H2 H3 H4 H5]).
  - constructor; [done|by intros []..].
  - len_lia.
  - exists es. done.
Qed.

(** One kind cannot spend another's budget: what a kind may write next does not
    depend on the calls of the other kind. *)
Theorem audit_kinds_independent a k k' now text calls :
  k <> k' -> Forall (fun c => c.1.1 = k') calls ->
  budget (audit_run a calls) k = budget a k /\
  (too_soon (budget a k) now = false ->
   last (out (line (audit_run a calls) k now text)) = Some (line_text text (suppressed_of a k))).
Proof.
  intros Hne Hc. assert (budget (audit_run a calls) k = budget a k) as Hb.
  { revert a. induction Hc as [|[[k1 t] m] calls Hk Hc IH]; intros a; cbn [audit_run foldl]; [done|].
    cbn in Hk. subst k1. etrans; [apply IH|]. unfold line. destruct (too_soon _ t); destruct k, k'; done. }
  split; [done|]. intros Ht. unfold line. rewrite Hb, Ht. cbn. by rewrite last_snoc.
Qed.

Definition demo_calls : list call := [(Gate_, 0, B "a"); (Gate_, 5, B "b"); (Close, 6, B "c"); (Gate_, 2000000000, B "d")].

Lemma audit_bounded_and_accounted_witness :
  exists es, out (audit_run new_audit demo_calls) = map (fun s => line_text (s_text s) (s_count s)) es /\
    spaced None (of_kind Gate_ es).
Proof.
  destruct (audit_bounded_and_accounted demo_calls) as (es & Ho & Hk); [vm_compute; congruence|].
  exists es. split; [exact Ho|]. apply Hk.
Defined.

Lemma audit_kinds_independent_witness :
  last (out (line (audit_run new_audit [(Gate_, 0, B "a"); (Gate_, 5, B "b")]) Close 6 (B "c"))) = Some (line_text (B "c") 0).
Proof.
  apply (audit_kinds_independent new_audit Close Gate_ 6 (B "c") [(Gate_, 0, B "a"); (Gate_, 5, B "b")]);
    [congruence|repeat constructor|reflexivity].
Defined.
