(* ===== verification/WlPolicy.v ===== *)
(** The Wayland proxy's policy: [crates/bubbler-wl-proxy/src/policy.rs].

    [apply] judges one decoded message.  What the source changes in place is
    returned: the policy, the connection, the audit log, and the message with
    its rewritten arguments and what is left of its descriptors.  A descriptor
    is a number; those a dropped message closes are returned as [closed].

    A run of the proxy over many messages and connections is in [WlTrace]. *)
From S2P Require Export WlAudit WlObjects.

Definition GATE_WINDOW : Z := from_millis 1000.

Definition GATED_OFFERS : list bytes := [
  B "ext_data_control_offer_v1";
  B "wl_data_offer";
  B "zwlr_data_control_offer_v1";
  B "zwp_primary_selection_offer_v1"].

Definition DISPLAY_ID : Z := 1.
Definition DISPLAY_ERROR : Z := 0.

Inductive Gate := Paste | Open.

#[global] Instance Gate_eq_dec : EqDecision Gate.
Proof. solve_decision. Defined.

Inductive Action := Forward | Drop | Refuse (error : bytes).

#[global] Instance Action_eq_dec : EqDecision Action.
Proof. solve_decision. Defined.

Record Policy := mkPolicy { gate : Gate; fallback_deny : bool; last_input : option Z }.

Record Global := mkGlobal { g_interface : nat; g_version : Z }.

#[global] Instance Global_eq_dec : EqDecision Global.
Proof. solve_decision. Defined.

Record Connection := mkConnection { objects : Objects; globals : gmap Z Global }.

Record Incoming := mkIncoming {
  from_client : bool; object : Z; opcode : Z; iface_ : Interface; message_ : Message;
  args : list Arg; fds : list Z }.

Definition new_policy (gate : Gate) (fallback_deny : bool) : Policy := mkPolicy gate fallback_deny None.
Definition compositor_enforces (p : Policy) : bool := negb (fallback_deny p).
Definition arm (p : Policy) (now : Z) : Policy := mkPolicy (gate p) (fallback_deny p) (Some now).

Definition set_args (msg : Incoming) (a : list Arg) : Incoming :=
  mkIncoming (from_client msg) (object msg) (opcode msg) (iface_ msg) (message_ msg) a (fds msg).

(** [drop_message]: the message without its descriptors, and those closed. *)
Definition drop_message (msg : Incoming) : Incoming * list Z :=
  (mkIncoming (from_client msg) (object msg) (opcode msg) (iface_ msg) (message_ msg) (args msg) [], fds msg).

Definition is_iface (msg : Incoming) (name : bytes) : bool := bool_decide (i_name (iface_ msg) = name).
Definition is_message (msg : Incoming) (name : bytes) : bool := bool_decide (m_name (message_ msg) = name).

Section Policy.
Context `{Tables} `{Endian}.

Definition new_connection : Connection := mkConnection new ∅.
Definition globals_count (c : Connection) : Z := Z.of_nat (size (globals c)).

(** [CString::new(text).unwrap_or_default()]. *)
Definition cstring_or_default (text : bytes) : bytes := if bool_decide (NUL ∈ text) then [] else text.

Definition display_error (object : Z) (text : bytes) : bytes :=
  let args := [Object object; Uint 0; String_ (Some (cstring_or_default text))] in
  match encode DISPLAY_ID DISPLAY_ERROR args with Ok out => out | Err _ => [] end.

Definition refuse (object : Z) (why : bytes) (audit : Audit) (now : Z) : Action * Audit :=
  (Refuse (display_error object why),
   line audit Close now (B "bubbler-wl-proxy: connection closed: " ++ why)).

(** Requests: the clipboard gate. *)
Definition request (p : Policy) (msg : Incoming) (audit : Audit) (now : Z)
  : Action * Incoming * Audit * list Z :=
  if negb (is_message msg (B "receive")) || negb (search_text GATED_OFFERS (i_name (iface_ msg)))
  then (Forward, msg, audit, [])
  else
    let iface := i_name (iface_ msg) in
    let mime := match args msg with String_ (Some mime) :: _ => from_utf8_lossy mime | _ => [] end in
    if bool_decide (gate p = Open) then
      (Forward, msg,
       line audit Gate_ now (B "bubbler-wl-proxy: clipboard read allowed (open): " ++ iface ++ B ", " ++ mime), [])
    else
      let age := saturating_sub now <$> last_input p in
      if match age with Some age => age <=? GATE_WINDOW | None => false end then (Forward, msg, audit, [])
      else
        let why := match age with
          | Some age => B "no input for " ++ decimal (age / 1000000) ++ B " ms"
          | None => B "no input since the proxy started"
          end in
        let audit := line audit Gate_ now
          (B "bubbler-wl-proxy: clipboard read denied (" ++ iface ++ B ", " ++ mime ++ B "): " ++ why) in
        let '(msg, closed) := drop_message msg in
        (Drop, msg, audit, closed).

(** [wl_registry.global]. *)
Definition global (msg : Incoming) (conn : Connection) : Action * Incoming * Connection * list Z :=
  match args msg with
  | Uint name :: String_ (Some iface) :: Uint version_ :: rest =>
    let described :=
      if utf8_valid iface then
        match index_of iface, lookup_iface iface with
        | Some index, Some known => if search_text PRIVILEGED iface then None else Some (index, known)
        | _, _ => None
        end
      else None in
    match described with
    | None =>
        let '(msg, closed) := drop_message msg in
        (Drop, msg, mkConnection (hide_global (objects conn) name) (globals conn), closed)
    | Some (index, known) =>
        let offered := Z.min version_ (version known) in
        let conn := mkConnection (objects conn) (<[name := mkGlobal index offered]> (globals conn)) in
        let msg := if negb (offered =? version_)
          then set_args msg (Uint name :: String_ (Some iface) :: Uint offered :: rest) else msg in
        (Forward, msg, conn, [])
    end
  | _ => (Forward, msg, conn, [])
  end.

(** [wl_registry.global_remove]. *)
Definition global_remove (msg : Incoming) (conn : Connection) : Action * Incoming * Connection * list Z :=
  match args msg with
  | Uint name :: _ =>
    if is_hidden (objects conn) name then
      let '(msg, closed) := drop_message msg in (Drop, msg, conn, closed)
    else (Forward, msg, mkConnection (objects conn) (delete name (globals conn)), [])
  | _ => (Forward, msg, conn, [])
  end.

(** The events whose arrival is user input. *)
Definition arms (msg : Incoming) : bool :=
  (is_iface msg (B "wl_keyboard") && is_message msg (B "key") && bool_decide (args msg !! 3%nat = Some (Uint 1))) ||
  (is_iface msg (B "wl_pointer") && is_message msg (B "button")) ||
  (is_iface msg (B "wl_touch") && (is_message msg (B "down") || is_message msg (B "up"))).

(** Events: the registry is filtered, and input events arm the gate. *)
Definition event (p : Policy) (msg : Incoming) (conn : Connection) (now : Z)
  : Action * Incoming * Connection * Policy * list Z :=
  if is_iface msg (B "wl_registry") && is_message msg (B "global") then
    let '(action, msg, conn, closed) := global msg conn in (action, msg, conn, p, closed)
  else if is_iface msg (B "wl_registry") && is_message msg (B "global_remove") then
    let '(action, msg, conn, closed) := global_remove msg conn in (action, msg, conn, p, closed)
  else if is_iface msg (B "wl_display") && is_message msg (B "delete_id") then
    let conn := match args msg with
      | Uint id :: _ => mkConnection (delete_id (objects conn) id).1 (globals conn)
      | _ => conn
      end in
    (Forward, msg, conn, p, [])
  else if arms msg then (Forward, msg, conn, arm p now, [])
  else (Forward, msg, conn, p, []).

(** The offered global a [bind] names, when it may be bound. *)
Definition offered_global (conn : Connection) (name : Z) (wanted : bytes) (version_ : Z) : option Global :=
  match globals conn !! name with
  | Some g =>
    if match by_index (g_interface g) with Some known => bool_decide (i_name known = wanted) | None => false end
       && (1 <=? version_) && (version_ <=? g_version g)
    then Some g else None
  | None => None
  end.

(** [wl_registry.bind]. *)
Definition bind_request (msg : Incoming) (conn : Connection) (audit : Audit) (now : Z)
  : result ObjectError Action * Connection * Audit :=
  match args msg with
  | Uint name :: String_ (Some iface) :: Uint version_ :: NewId new_id :: _ =>
    let wanted := from_utf8_lossy iface in
    match offered_global conn name wanted version_ with
    | None =>
        let why := B "bind of hidden global " ++ wanted ++ B " (name " ++ decimal name ++ B ", v" ++
          decimal version_ ++ B ") refused by the sandbox proxy" in
        let '(action, audit) := refuse (object msg) why audit now in (Ok action, conn, audit)
    | Some g =>
        match bind (objects conn) name (g_interface g) version_ new_id with
        | Err e => (Err e, conn, audit)
        | Ok o => (Ok Forward, mkConnection o (globals conn), audit)
        end
    end
  | _ =>
    let '(action, audit) := refuse (object msg) (B "a bind the proxy could not read") audit now in
    (Ok action, conn, audit)
  end.

(** Everything one call of [apply] leaves behind. *)
Record Judged := mkJudged {
  action : result ObjectError Action; j_policy : Policy; j_conn : Connection; j_audit : Audit;
  j_msg : Incoming; closed : list Z }.

Definition is_bind (msg : Incoming) : bool :=
  from_client msg && is_iface msg (B "wl_registry") && is_message msg (B "bind").

(** The bookkeeping after a message that is forwarded. *)
Definition account (msg : Incoming) (conn : Connection) : result ObjectError Connection :=
  '(_, o) ← new_id_from (objects conn) (from_client msg) (object msg) (opcode msg) (args msg);
  let o := if from_client msg && is_destructor (message_ msg) then (destroy o (object msg)).1 else o in
  Ok (mkConnection o (globals conn)).

Definition apply (p : Policy) (msg : Incoming) (conn : Connection) (audit : Audit) (now : Z) : Judged :=
  if is_bind msg then
    let '(action, conn, audit) := bind_request msg conn audit now in
    mkJudged action p conn audit msg []
  else
    let '(action, msg, conn, p, audit, closed) :=
      if from_client msg
      then let '(action, msg, audit, closed) := request p msg audit now in
           (action, msg, conn, p, audit, closed)
      else let '(action, msg, conn, p, closed) := event p msg conn now in
           (action, msg, conn, p, audit, closed) in
    if bool_decide (action = Forward) then
      match account msg conn with
      | Err e => mkJudged (Err e) p conn audit msg closed
      | Ok conn => mkJudged (Ok action) p conn audit msg closed
      end
    else mkJudged (Ok action) p conn audit msg closed.

End Policy.

(** ** What a message does to the policy and to its descriptors *)

Section Facts.
Context `{Tables} `{Endian}.

(** A [receive] of one of the offers the gate covers. *)
Definition gated_read (msg : Incoming) : bool :=
  from_client msg && is_message msg (B "receive") && search_text GATED_OFFERS (i_name (iface_ msg)).

Lemma gated_not_bind msg : gated_read msg = true -> is_bind msg = false.
Proof.
  unfold gated_read, is_bind, is_message. intros Hg. bool_to_prop.
  rewrite (bool_decide_false (m_name (message_ msg) = B "bind")), andb_false_r; [done|]. rewrite H3. done.
Qed.

Lemma arms_iface msg : arms msg = true ->
  is_iface msg (B "wl_registry") = false /\ is_iface msg (B "wl_display") = false.
Proof.
  unfold arms, is_iface. intros Ha.
  assert (exists n, i_name (iface_ msg) = n /\ n ∈ [B "wl_keyboard"; B "wl_pointer"; B "wl_touch"]) as (n & Hn & Hin).
  { exists (i_name (iface_ msg)). split; [done|]. apply orb_true_iff in Ha as [Ha|Ha]; [apply orb_true_iff in Ha as [Ha|Ha]|];
      bool_to_prop; rewrite ?H1, ?H2, ?H3; set_solver. }
  rewrite Hn. split; apply bool_decide_eq_false; intros ->; revert Hin; by_absurd.
Qed.

(** A message with its version argument clamped, or the message itself. *)
Inductive clamped (msg : Incoming) : Incoming -> Prop :=
| same : clamped msg msg
| lowered name i v known rest :
    from_client msg = false -> is_iface msg (B "wl_registry") = true -> is_message msg (B "global") = true ->
    args msg = Uint name :: String_ (Some i) :: Uint v :: rest ->
    lookup_iface i = Some known -> version known < v ->
    clamped msg (set_args msg (Uint name :: String_ (Some i) :: Uint (version known) :: rest)).

(** How a message leaves [apply]: as it came (or clamped) with its descriptors,
    or dropped with all of them closed. *)
Inductive passed (msg : Incoming) : Action -> Incoming -> list Z -> Prop :=
| passed_forward m : clamped msg m -> passed msg Forward m []
| passed_drop : passed msg Drop (drop_message msg).1 (drop_message msg).2.

Lemma clamped_fds msg m : clamped msg m -> fds m = fds msg.
Proof. by destruct 1. Qed.

(** A branch that forwards the message as it came. *)
Ltac fwd := lazymatch goal with
  | |- (Forward, _, _, _) = _ -> _ => intros [= <- <- <- <-]; constructor; constructor
  | |- (Forward, _, _, _, _) = _ -> _ => intros [= <- <- <- <- <-]; split; [constructor; constructor|done]
  end.

Lemma request_passed p msg audit now a m au cl :
  request p msg audit now = (a, m, au, cl) -> passed msg a m cl.
Proof.
  unfold request. destruct (_ || _); [fwd|].
  case_bool_decide; [fwd|].
  destruct (match _ <$> _ with Some _ => _ | None => _ end); [fwd|].
  intros [= <- <- <- <-]. constructor.
Qed.

Lemma global_passed msg conn a m c cl :
  from_client msg = false -> is_iface msg (B "wl_registry") = true -> is_message msg (B "global") = true ->
  global msg conn = (a, m, c, cl) -> passed msg a m cl.
Proof.
  intros Hf Hi Hm. unfold global. destruct (args msg) as [|[] l] eqn:E1; try fwd.
  destruct l as [|[] l]; try fwd.
  destruct text as [i|]; [|fwd].
  destruct l as [|[] l]; try fwd.
  destruct (if utf8_valid i then _ else _) as [[index known]|] eqn:Ed; intros [= <- <- <- <-]; [|constructor].
  assert (lookup_iface i = Some known) as Hk.
  { destruct (utf8_valid i); [|done]. destruct (index_of i); [|done]. destruct (lookup_iface i); [|done].
    destruct (search_text _ _); congruence. }
  constructor. destruct (Z.eqb_spec (Z.min v0 (version known)) v0); [constructor|].
  replace (Z.min v0 (version known)) with (version known) by lia.
  eapply lowered; try done. lia.
Qed.

Lemma event_passed p msg conn now a m c p' cl :
  from_client msg = false -> event p msg conn now = (a, m, c, p', cl) ->
  passed msg a m cl /\ p' = (if arms msg then arm p now else p).
Proof.
  intros Hf. unfold event. destruct (arms msg) eqn:Ha.
  - destruct (arms_iface msg Ha) as [-> ->]. cbn. intros [= <- <- <- <- <-]. split; [constructor; constructor|done].
  - destruct (is_iface msg (B "wl_registry")) eqn:Ei, (is_message msg (B "global")) eqn:Eg; cbn [andb].
    { destruct (global msg conn) as [[[a1 m1] c1] cl1] eqn:E. intros [= <- <- <- <- <-].
      split; [by eapply global_passed|done]. }
    2,3: destruct (_ && _); intros [= <- <- <- <- <-]; (split; [constructor; constructor|done]).
    destruct (is_message msg (B "global_remove")).
    + unfold global_remove. destruct (args msg) as [|[] l]; try fwd.
      destruct (is_hidden _ _); intros [= <- <- <- <- <-]; (split; [|done]); [constructor|constructor; constructor].
    + destruct (_ && _); intros [= <- <- <- <- <-]; (split; [constructor; constructor|done]).
Qed.

(** What [apply] leaves of the message: everything, perhaps clamped, unless it is
    dropped. *)
Definition msg_left (msg : Incoming) (j : Judged) : Prop :=
  match action j with
  | Ok Drop => j_msg j = (drop_message msg).1 /\ closed j = (drop_message msg).2
  | _ => clamped msg (j_msg j) /\ closed j = []
  end.

Lemma passed_inv msg a m cl : passed msg a m cl ->
  (a = Forward /\ clamped msg m /\ cl = []) \/ (a = Drop /\ m = (drop_message msg).1 /\ cl = (drop_message msg).2).
Proof. destruct 1; [left|right]; done. Qed.

Lemma apply_left p msg conn audit now :
  msg_left msg (apply p msg conn audit now) /\
  j_policy (apply p msg conn audit now) = (if negb (from_client msg) && arms msg then arm p now else p).
Proof.
  unfold apply. destruct (is_bind msg) eqn:Eb.
  { assert (from_client msg = true) as -> by (unfold is_bind in Eb; bool_to_prop; done). cbn [negb andb].
    destruct (bind_request msg conn audit now) as [[a c] au] eqn:E. split; [|done].
    assert (a <> Ok Drop) as Hd.
    { revert E. unfold bind_request. destruct (args msg) as [|[] l]; try (by intros [= <- <- <-]).
      destruct l as [|[] l]; try (by intros [= <- <- <-]). destruct text; [|by intros [= <- <- <-]].
      destruct l as [|[] l]; try (by intros [= <- <- <-]). destruct l as [|[] l]; try (by intros [= <- <- <-]).
      destruct (offered_global _ _ _ _); [|by intros [= <- <- <-]].
      destruct (bind _ _ _ _ _); by intros [= <- <- <-]. }
    unfold msg_left. cbn. destruct a as [[]|]; try done; (split; [constructor|done]). }
  destruct (from_client msg) eqn:Ef; cbn [negb andb].
  - destruct (request p msg audit now) as [[[a m] au] cl] eqn:E. apply request_passed in E as [(-> & Hm & ->)|(-> & -> & ->)]%passed_inv.
    + rewrite bool_decide_true by done. destruct (account m conn); cbn; done.
    + rewrite bool_decide_false by done. done.
  - destruct (event p msg conn now) as [[[[a m] c] p'] cl] eqn:E.
    apply event_passed in E as [[(-> & Hm & ->)|(-> & -> & ->)]%passed_inv ->]; [| |done].
    + rewrite bool_decide_true by done. destruct (account m c); cbn; done.
    + rewrite bool_decide_false by done. done.
Qed.

(** A gated read under [Paste] is dropped unless input is recent. *)
Lemma gated_decides p msg conn audit now :
  gate p = Paste -> gated_read msg = true ->
  action (apply p msg conn audit now) <> Ok Drop <->
  exists t, last_input p = Some t /\ saturating_sub now t <= GATE_WINDOW.
Proof.
  intros Hp Hg. unfold apply. rewrite gated_not_bind by done.
  unfold gated_read in Hg. apply andb_true_iff in Hg as [[Hf Hm]%andb_true_iff Hs]. rewrite Hf.
  unfold request, drop_message. rewrite Hm, Hs, Hp. cbn [negb orb]. rewrite bool_decide_false by done.
  destruct (last_input p) as [t|]; cbn [fmap option_fmap option_map].
  - destruct (Z.leb_spec (saturating_sub now t) GATE_WINDOW).
    + cbn beta iota. rewrite bool_decide_true by done. destruct (account msg conn); cbn; (split; [intros _; by exists t|done]).
    + cbn beta iota. rewrite bool_decide_false by done. cbn. split; [done|]. intros (t' & [= <-] & ?). lia.
  - cbn beta iota. rewrite bool_decide_false by done. cbn. split; [done|]. by intros (t' & ? & ?).
Qed.

(** ** Connections *)

(** What every global a connection was offered is. *)
Definition global_ok (g : Global) : Prop :=
  exists i, by_index (g_interface g) = Some i /\ i_name i ∉ PRIVILEGED /\ g_version g <= version i.

Record conn_ok (c : Connection) : Prop := {
  conn_objects : objects_ok (objects c);
  conn_globals : forall name g, globals c !! name = Some g -> global_ok g;
}.

(** Hidden globals stay hidden. *)
Definition hides (c c' : Connection) : Prop := hidden_globals (objects c) ⊆ hidden_globals (objects c').

Lemma hides_refl c : hides c c.
Proof. unfold hides. done. Qed.
Lemma hides_trans a b c : hides a b -> hides b c -> hides a c.
Proof. unfold hides. by intros; etrans. Qed.
Hint Resolve hides_refl : core.

Lemma new_id_from_ok o fc parent op a r o' :
  objects_ok o -> new_id_from o fc parent op a = Ok (r, o') -> objects_ok o' /\ hidden_globals o' = hidden_globals o.
Proof.
  intros Ho. unfold new_id_from. intros (p & _ & Hr)%bind_ok. apply bind_ok in Hr as (pi & _ & Hr).
  apply bind_ok in Hr as (m & _ & Hr). destruct (new_id_of a); [|by injection Hr as <- <-].
  apply bind_ok in Hr as (nm & _ & Hr). apply bind_ok in Hr as (n & _ & Hr).
  apply bind_ok in Hr as (o1 & Hrec & [= _ <-]). split; [by eapply record_objects_ok|].
  by apply record_iff in Hrec as (_ & i & _ & _ & Hh & _).
Qed.

Lemma destroy_hidden o id : hidden_globals (destroy o id).1 = hidden_globals o.
Proof. unfold destroy. by destruct (map_ o !! id). Qed.
Lemma delete_hidden o id : hidden_globals (delete_id o id).1 = hidden_globals o.
Proof. unfold delete_id. by destruct (map_ o !! id). Qed.

Lemma account_ok msg c c' : conn_ok c -> account msg c = Ok c' -> conn_ok c' /\ hides c c'.
Proof.
  intros [Ho Hg]. unfold account. intros ([r o] & Hn & [= <-])%bind_ok.
  apply new_id_from_ok in Hn as [Ho' Hh]; [|done]. unfold hides. cbn.
  destruct (_ && _); (split; [constructor; cbn; [try apply destroy_objects_ok; done|done]|]).
  - by rewrite destroy_hidden, Hh.
  - by rewrite Hh.
Qed.

(** A described global: the interface and its index, and never a privileged one. *)
Lemma described_ok `{!TablesOk} i index known :
  (if utf8_valid i then
     match index_of i, lookup_iface i with
     | Some index, Some known => if search_text PRIVILEGED i then None else Some (index, known)
     | _, _ => None
     end
   else None) = Some (index, known) <->
  utf8_valid i = true /\ by_index index = Some known /\ i_name known = i /\ i ∉ PRIVILEGED.
Proof.
  destruct (utf8_valid i); [|naive_solver].
  pose proof (fun n => binary_search_spec i_name INTERFACES i n tables_sorted) as Hb.
  unfold lookup_iface. fold (index_of i) in Hb. destruct (index_of i) as [n|] eqn:En; cbn.
  - destruct (proj1 (Hb n) eq_refl) as (k & Hk & Hname). unfold by_index in *. rewrite Hk.
    pose proof (search_text_spec PRIVILEGED i privileged_sorted) as Hp.
    destruct (search_text PRIVILEGED i).
    + split; [done|]. intros (_ & _ & _ & Hn). destruct Hn. by apply Hp.
    + split.
      * intros [= <- <-]. split_and!; [done|done|done|]. intros Hin. apply Hp in Hin. done.
      * intros (_ & Hi & Hn & _). assert (Some n = Some index) as [= ->] by (apply Hb; by exists known). congruence.
  - split; [done|]. intros (_ & Hi & Hn & _). discriminate (proj2 (Hb index)). by exists known.
Qed.

(** A branch that leaves the connection as it was. *)
Ltac keep Hsame := lazymatch goal with
  | |- (Forward, _, _, _) = _ -> _ => intros [= <- <- <- <-]; exact Hsame
  | |- (Forward, _, _, _, _) = _ -> _ => intros [= <- <- <- <- <-]; exact Hsame
  end.

Lemma event_conn_ok `{!TablesOk} p msg conn now a m c p' cl :
  conn_ok conn -> event p msg conn now = (a, m, c, p', cl) -> conn_ok c /\ hides conn c.
Proof.
  intros Hok. assert (conn_ok conn /\ hides conn conn) as Hsame by (split; [exact Hok|apply hides_refl]).
  unfold event. destruct (_ && _).
  { destruct (global msg conn) as [[[a1 m1] c1] cl1] eqn:E. intros [= <- <- <- <- <-]. revert E. unfold global.
    destruct (args msg) as [|[] l]; try keep Hsame.
    destruct l as [|[] l]; try keep Hsame.
    destruct text as [i|]; [|keep Hsame].
    destruct l as [|[] l]; try keep Hsame.
    destruct (if utf8_valid i then _ else _) as [[index known]|] eqn:Ed; intros [= <- <- <- <-].
    - apply described_ok in Ed as (_ & Hi & Hn & Hp). split; [|exact (hides_refl conn)]. constructor; cbn; [apply Hok|].
      intros n g [[<- <-]|[Hne Hl]]%lookup_insert_Some; [|by eapply (conn_globals _ Hok)].
      exists known. cbn. rewrite Hn. split_and!; [exact Hi|exact Hp|apply Z.le_min_r].
    - split; [constructor; cbn; [by apply hide_objects_ok, Hok|apply Hok]|]. unfold hides. apply union_subseteq_r. }
  destruct (_ && _).
  { unfold global_remove. destruct (args msg) as [|[] l]; try keep Hsame.
    destruct (is_hidden _ _); intros [= <- <- <- <- <-]; [exact Hsame|]. split; [|exact (hides_refl conn)].
    constructor; cbn; [apply Hok|]. intros n g [_ Hl]%lookup_delete_Some. by eapply (conn_globals _ Hok). }
  destruct (_ && _).
  { intros [= <- <- <- <- <-]. destruct (args msg) as [|[] l]; try exact Hsame.
    split; [constructor; cbn; [by apply delete_objects_ok, Hok|apply Hok]|]. unfold hides. cbn. by rewrite delete_hidden. }
  destruct (arms msg); intros [= <- <- <- <- <-]; exact Hsame.
Qed.

Lemma apply_conn_ok `{!TablesOk} p msg conn audit now :
  conn_ok conn -> conn_ok (j_conn (apply p msg conn audit now)) /\ hides conn (j_conn (apply p msg conn audit now)).
Proof.
  intros Hok. assert (conn_ok conn /\ hides conn conn) as Hsame by (split; [exact Hok|apply hides_refl]).
  unfold apply. destruct (is_bind msg).
  { unfold bind_request.
    destruct (args msg) as [|[] l]; try exact Hsame. destruct l as [|[] l]; try exact Hsame.
    destruct text as [i|]; [|exact Hsame]. destruct l as [|[] l]; try exact Hsame. destruct l as [|[] l]; try exact Hsame.
    destruct (offered_global _ _ _ _) as [g|]; [|exact Hsame]. unfold bind.
    case_bool_decide; [exact Hsame|]. destruct (record _ _ _ _ _) as [o|] eqn:Er; [|exact Hsame]. cbn.
    split; [constructor; cbn; [by eapply record_objects_ok; [apply Hok|]|apply Hok]|].
    apply record_iff in Er as (_ & k & _ & _ & Hh & _). unfold hides. cbn. by rewrite Hh. }
  destruct (from_client msg).
  - destruct (request p msg audit now) as [[[a m] au] cl]. case_bool_decide; [|exact Hsame].
    destruct (account m conn) as [c|] eqn:Ea; [|exact Hsame]. by apply account_ok in Ea.
  - destruct (event p msg conn now) as [[[[a m] c] p'] cl] eqn:Ee. apply event_conn_ok in Ee as [Hc Hh]; [|done].
    case_bool_decide; [|by split]. destruct (account m c) as [c'|] eqn:Ea; [|by split].
    apply account_ok in Ea as [Hc' Hh']; [|done]. split; [exact Hc'|]. by eapply hides_trans.
Qed.

Lemma new_conn_ok `{!TablesOk} : conn_ok new_connection.
Proof. constructor; cbn; [apply new_objects_ok|]. intros name g. by rewrite lookup_empty. Qed.

(** A branch that forwards the message and leaves the globals. *)
Ltac keep_left := lazymatch goal with
  | |- (_, _, _, _) = _ -> _ => intros [= <- <- <- <-]; by left
  | |- (_, _, _, _, _) = _ -> _ => intros [= <- <- <- <- <-]; by left
  end.

(** Where a connection's globals come from: it had them, or this message, a
    [registry.global] that is forwarded, advertises them to the client. *)
Lemma event_globals `{!TablesOk} p msg conn now a m c p' cl name g :
  event p msg conn now = (a, m, c, p', cl) -> globals c !! name = Some g ->
  globals conn !! name = Some g \/
  (a = Forward /\ is_iface msg (B "wl_registry") = true /\ is_message msg (B "global") = true /\
   exists i rest, by_index (g_interface g) = Some i /\
     args m = Uint name :: String_ (Some (i_name i)) :: Uint (g_version g) :: rest).
Proof.
  unfold event. destruct (_ && _) eqn:Eg.
  { apply andb_true_iff in Eg as [Hi Hm].
    destruct (global msg conn) as [[[a1 m1] c1] cl1] eqn:E. intros [= <- <- <- <- <-]. revert E. unfold global.
    destruct (args msg) as [|[] l] eqn:Ea; try keep_left.
    destruct l as [|[] l]; try keep_left. destruct text as [i|]; [|keep_left]. destruct l as [|[] l]; try keep_left.
    destruct (if utf8_valid i then _ else _) as [[index known]|] eqn:Ed; intros [= <- <- <- <-]; [|by left].
    apply described_ok in Ed as (_ & Hk & Hn & _). cbn [globals]. intros [[<- <-]|[_ Hl]]%lookup_insert_Some; [|by left].
    right. split_and!; [done..|]. exists known, l. split; [done|]. cbn [g_version]. rewrite Hn.
    destruct (Z.eqb_spec (Z.min v0 (version known)) v0) as [->|]; cbn [negb]; done. }
  clear Eg. destruct (_ && _).
  { unfold global_remove. destruct (args msg) as [|[] l]; try keep_left.
    destruct (is_hidden _ _); intros [= <- <- <- <- <-]; [by left|]. cbn. intros [_ Hl]%lookup_delete_Some. by left. }
  destruct (_ && _).
  { intros [= <- <- <- <- <-]. destruct (args msg) as [|[] l]; by left. }
  destruct (arms msg); keep_left.
Qed.

(** A [registry.global] that is dropped hides its name. *)
Lemma event_withholds p msg conn now a m c p' cl name rest :
  event p msg conn now = (a, m, c, p', cl) -> a = Drop ->
  is_iface msg (B "wl_registry") = true -> is_message msg (B "global") = true -> args msg = Uint name :: rest ->
  name ∈ hidden_globals (objects c).
Proof.
  intros He Hd Hi Hm Ha. revert He. unfold event. rewrite Hi, Hm. cbn [andb].
  destruct (global msg conn) as [[[a1 m1] c1] cl1] eqn:E. intros [= -> <- <- <- <-]. revert E. unfold global.
  rewrite Ha, Hd. destruct rest as [|[] l]; try done. destruct text as [i|]; [|done]. destruct l as [|[] l]; try done.
  destruct (if utf8_valid i then _ else _) as [[index known]|]; intros [=]; subst c1; cbn; set_solver.
Qed.

End Facts.
