(* ===== verification/WlTrace.v ===== *)
(** Runs of the Wayland proxy's policy over many connections.

    The relay ([relay.rs], [accept] and [pump]) makes a [Connection] for every
    client it accepts, hands [Policy::apply] each message of each connection in
    the order it reads them, and closes the connection when the answer is a
    refusal or an error.  [trace] is that loop with the sockets left out: its
    input says which connection the next message came from, and its output
    lists what was judged and how.  The properties compare the judgement of one
    message with what was judged before it. *)
From S2P Require Export WlPolicy.

Inductive Input := Accepted | Message (conn : nat) (msg : Incoming) (now : Z).

(** What every connection of one sandbox shares, and the connections by number;
    a closed one is [None]. *)
Record Proxy := mkProxy { policy : Policy; conns : list (option Connection); log_ : Audit }.

Record Out := mkOut { o_conn : nat; o_msg : Incoming; o_now : Z; o_judged : Judged }.

Definition ends (j : Judged) : bool :=
  match action j with Ok (Refuse _) | Err _ => true | Ok _ => false end.

Section Trace.
Context `{Tables} `{Endian}.

Definition trace_step (p : Proxy) (i : Input) : Proxy * list Out :=
  match i with
  | Accepted => (mkProxy (policy p) (conns p ++ [Some new_connection]) (log_ p), [])
  | Message n msg now =>
    match conns p !! n with
    | Some (Some c) =>
      let j := apply (policy p) msg c (log_ p) now in
      let c' := if ends j then None else Some (j_conn j) in
      (mkProxy (j_policy j) (<[n := c']> (conns p)) (j_audit j), [mkOut n msg now j])
    | _ => (p, [])
    end
  end.

Fixpoint trace (p : Proxy) (l : list Input) : Proxy * list Out :=
  match l with
  | [] => (p, [])
  | i :: l => let '(p, o) := trace_step p i in let '(p, os) := trace p l in (p, o ++ os)
  end.

Definition proxy_start (g : Gate) (deny : bool) (audit : Audit) : Proxy :=
  mkProxy (new_policy g deny) [] audit.

(** ** What a trace says of the past *)

Definition input_at (o : Out) : option Z :=
  if negb (from_client (o_msg o)) && arms (o_msg o) then Some (o_now o) else None.

(** When the user last touched an input device, on any connection. *)
Definition last_input_of (os : list Out) : option Z := last (omap input_at os).

Definition is_global (msg : Incoming) : bool :=
  negb (from_client msg) && is_iface msg (B "wl_registry") && is_message msg (B "global").

(** The client of connection [n] was sent this advertisement. *)
Definition advertised (os : list Out) (n : nat) (name : Z) (iface : bytes) (v : Z) : Prop :=
  exists o rest, o ∈ os /\ o_conn o = n /\ is_global (o_msg o) = true /\ action (o_judged o) = Ok Forward /\
    args (j_msg (o_judged o)) = Uint name :: String_ (Some iface) :: Uint v :: rest.

(** An advertisement of [name] was kept from the client of connection [n]. *)
Definition withheld (os : list Out) (n : nat) (name : Z) : Prop :=
  exists o rest, o ∈ os /\ o_conn o = n /\ is_global (o_msg o) = true /\ action (o_judged o) = Ok Drop /\
    args (o_msg o) = Uint name :: rest.

(** The invariant a run keeps, over what it has judged so far. *)
Record traced (g : Gate) (os : list Out) (p : Proxy) : Prop := {
  traced_gate : gate (policy p) = g;
  traced_input : last_input (policy p) = last_input_of os;
  traced_conns : Forall (fun o => (o_conn o < length (conns p))%nat) os;
  traced_ok : forall n c, conns p !! n = Some (Some c) -> conn_ok c;
  traced_globals : forall n c name g, conns p !! n = Some (Some c) -> globals c !! name = Some g ->
    exists i, by_index (g_interface g) = Some i /\ advertised os n name (i_name i) (g_version g);
  traced_hidden : forall n c name, conns p !! n = Some (Some c) -> withheld os n name ->
    name ∈ hidden_globals (objects c);
}.

Lemma last_input_snoc os o : last_input_of (os ++ [o]) =
  match input_at o with Some t => Some t | None => last_input_of os end.
Proof.
  unfold last_input_of. rewrite omap_app. cbn. destruct (input_at o); [by rewrite last_snoc|by rewrite app_nil_r].
Qed.

Lemma advertised_app os os' n name i v : advertised os n name i v -> advertised (os ++ os') n name i v.
Proof. intros (o & rest & Ho & Hr). exists o, rest. split; [set_solver|done]. Qed.

Lemma withheld_app os os' n name : withheld os n name -> withheld (os ++ os') n name.
Proof. intros (o & rest & Ho & Hr). exists o, rest. split; [set_solver|done]. Qed.

(** ** What one judgement adds *)

Lemma account_globals msg c c' : account msg c = Ok c' -> globals c' = globals c.
Proof. unfold account. by intros ([r o] & _ & [= <-])%bind_ok. Qed.

Lemma bind_globals msg c audit now : globals (bind_request msg c audit now).1.2 = globals c.
Proof.
  unfold bind_request. destruct (args msg) as [|[] l]; try done. destruct l as [|[] l]; try done.
  destruct text; [|done]. destruct l as [|[] l]; try done. destruct l as [|[] l]; try done.
  destruct (offered_global _ _ _ _); [|done]. by destruct (bind _ _ _ _ _).
Qed.

Lemma apply_globals `{!TablesOk} p msg c audit now name g :
  let j := apply p msg c audit now in
  ends j = false -> globals (j_conn j) !! name = Some g ->
  globals c !! name = Some g \/
  (is_global msg = true /\ action j = Ok Forward /\
   exists i rest, by_index (g_interface g) = Some i /\
     args (j_msg j) = Uint name :: String_ (Some (i_name i)) :: Uint (g_version g) :: rest).
Proof.
  unfold apply, is_global. destruct (is_bind msg).
  { pose proof (bind_globals msg c audit now) as Hb. destruct (bind_request msg c audit now) as [[a c'] au].
    cbn in *. rewrite Hb. by left. }
  destruct (from_client msg).
  - destruct (request p msg audit now) as [[[a m] au] cl]. case_bool_decide; [|by left].
    destruct (account m c) as [c'|] eqn:Ea; [|done]. cbn. rewrite (account_globals _ _ _ Ea). by left.
  - destruct (event p msg c now) as [[[[a m] c1] p'] cl] eqn:Ee.
    case_bool_decide as Ha; cbn [action ends j_conn j_msg].
    + destruct (account m c1) as [c'|] eqn:Ec; [|done]. cbn [action ends j_conn j_msg].
      rewrite (account_globals _ _ _ Ec). intros _ Hg.
      destruct (event_globals _ _ _ _ _ _ _ _ _ _ _ Ee Hg) as [Hl|(-> & -> & -> & Hr)]; [by left|by right].
    + intros _ Hg. destruct (event_globals _ _ _ _ _ _ _ _ _ _ _ Ee Hg) as [Hl|(-> & _)]; [by left|done].
Qed.

Lemma apply_withholds p msg c audit now name rest :
  let j := apply p msg c audit now in
  action j = Ok Drop -> is_global msg = true -> args msg = Uint name :: rest ->
  name ∈ hidden_globals (objects (j_conn j)).
Proof.
  unfold apply, is_global. intros Ha [[Hf Hi]%andb_true_iff Hm]%andb_true_iff Hargs.
  apply negb_true_iff in Hf. unfold is_bind in *. rewrite Hf in *. cbn [andb] in *.
  destruct (event p msg c now) as [[[[a m] c1] p'] cl] eqn:Ee. revert Ha.
  case_bool_decide as Hfw; [destruct (account m c1); cbn; congruence|].
  cbn. intros [= ->]. by eapply event_withholds.
Qed.

(** A bind that is forwarded: the global was offered, at this version or above,
    it is not hidden, and the new id is recorded as what it names. *)
Lemma bind_forwarded p msg c audit now :
  let j := apply p msg c audit now in
  is_bind msg = true -> action j = Ok Forward ->
  exists name i v id rest g,
    args msg = Uint name :: String_ (Some i) :: Uint v :: NewId id :: rest /\ j_msg j = msg /\
    offered_global c name (from_utf8_lossy i) v = Some g /\ name ∉ hidden_globals (objects c) /\
    record (objects c) true id (g_interface g) v = Ok (objects (j_conn j)).
Proof.
  unfold apply. intros -> . unfold bind_request.
  destruct (args msg) as [|[] l]; try done. destruct l as [|[] l]; try done.
  destruct text as [i|]; [|done]. destruct l as [|[] l]; try done. destruct l as [|[] l]; try done.
  destruct (offered_global c v (from_utf8_lossy i) v0) as [g|] eqn:Eo; [|done]. unfold bind.
  case_bool_decide as Hh; [done|]. destruct (record _ _ _ _ _) as [o|] eqn:Er; [|done]. cbn. intros _.
  by exists v, i, v0, id, l, g.
Qed.

(** ** The invariant of a run *)

Lemma apply_policy p msg c audit now :
  j_policy (apply p msg c audit now) = if negb (from_client msg) && arms msg then arm p now else p.
Proof. apply apply_left. Qed.

Lemma traced_start g deny audit : traced g [] (proxy_start g deny audit).
Proof. by constructor. Qed.

Lemma traced_accept `{!TablesOk} g os p : traced g os p ->
  traced g os (mkProxy (policy p) (conns p ++ [Some new_connection]) (log_ p)).
Proof.
  intros [Hg Hi Hc Hok Hgl Hh].
  assert (forall n c, (conns p ++ [Some new_connection]) !! n = Some (Some c) ->
    conns p !! n = Some (Some c) \/ n = length (conns p) /\ c = new_connection) as Hsplit.
  { intros n c [Hn|[Hn Hl]]%lookup_app_Some; [by left|right]. apply list_lookup_singleton_Some in Hl as [? [= ->]].
    split; [lia|done]. }
  constructor; cbn; [done|done|..].
  - eapply Forall_impl; [exact Hc|]. intros o Ho. rewrite length_app. cbn in *. lia.
  - intros n c [Hn|[-> ->]]%Hsplit; [by eapply Hok|apply new_conn_ok].
  - intros n c name g' [Hn|[-> ->]]%Hsplit; [by eapply Hgl|]. cbn. by rewrite lookup_empty.
  - intros n c name [Hn|[-> ->]]%Hsplit; [by eapply Hh|]. intros (o & rest & Ho & Ho' & _).
    rewrite Forall_forall in Hc. specialize (Hc o Ho). cbn in Hc. lia.
Qed.

Lemma traced_judge `{!TablesOk} g os p n c msg now :
  traced g os p -> conns p !! n = Some (Some c) ->
  let j := apply (policy p) msg c (log_ p) now in
  let c' := if ends j then None else Some (j_conn j) in
  traced g (os ++ [mkOut n msg now j]) (mkProxy (j_policy j) (<[n := c']> (conns p)) (j_audit j)).
Proof.
  intros [Hg Hi Hc Hok Hgl Hh] Hn j c'.
  destruct (apply_conn_ok (policy p) msg c (log_ p) now (Hok n c Hn)) as [Hjok Hjh]. fold j in Hjok, Hjh.
  pose proof (apply_policy (policy p) msg c (log_ p) now) as Hp. fold j in Hp.
  assert (forall n' k, <[n := c']> (conns p) !! n' = Some (Some k) ->
    (n' <> n /\ conns p !! n' = Some (Some k)) \/ (n' = n /\ ends j = false /\ k = j_conn j)) as Hsplit.
  { intros n' k [(<- & Hk & _)|[Hne Hl]]%list_lookup_insert_Some; [right|left; split; [congruence|done]].
    subst c'. destruct (ends j); [done|]. by injection Hk as <-. }
  constructor; cbn [policy conns log_].
  - rewrite Hp. by destruct (_ && _).
  - rewrite Hp, last_input_snoc. unfold input_at. cbn [o_msg o_now]. by destruct (_ && _).
  - rewrite length_insert, Forall_app. split; [done|]. apply Forall_singleton. cbn. by eapply lookup_lt_Some.
  - intros n' k [[_ Hl]|(-> & _ & ->)]%Hsplit; [by eapply Hok|done].
  - intros n' k name g' [[_ Hl]|(-> & He & ->)]%Hsplit Hlk.
    { destruct (Hgl _ _ _ _ Hl Hlk) as (i & Hb & Ha). exists i. split; [done|]. by apply advertised_app. }
    destruct (apply_globals (policy p) msg c (log_ p) now name g' He Hlk) as [Hold|(Hig & Hact & i & rest & Hb & Hargs)].
    { destruct (Hgl _ _ _ _ Hn Hold) as (i & Hb & Ha). exists i. split; [done|]. by apply advertised_app. }
    exists i. split; [done|]. exists (mkOut n msg now j), rest. split_and!; [set_solver|done..].
  - intros n' k name [[Hne Hl]|(-> & He & ->)]%Hsplit (o & rest & [Ho|Ho]%elem_of_app & Hoc & Hig & Hact & Hargs).
    + eapply Hh; [exact Hl|]. by exists o, rest.
    + apply list_elem_of_singleton in Ho as ->. cbn in Hoc. done.
    + apply Hjh. eapply Hh; [exact Hn|]. by exists o, rest.
    + apply list_elem_of_singleton in Ho as ->. by apply (apply_withholds (policy p) msg c (log_ p) now name rest).
Qed.

(** Every judgement of a run was made in a state of which the invariant holds,
    over what was judged before it. *)
Lemma trace_traced `{!TablesOk} g l : forall os p p' os',
  traced g os p -> trace p l = (p', os') ->
  traced g (os ++ os') p' /\
  forall k o, os' !! k = Some o -> exists q c, traced g (os ++ take k os') q /\
    conns q !! o_conn o = Some (Some c) /\ o_judged o = apply (policy q) (o_msg o) c (log_ q) (o_now o).
Proof.
  induction l as [|i l IH]; cbn; intros os p p' os' Ht Hr.
  { injection Hr as <- <-. split; [by rewrite app_nil_r|done]. }
  destruct (trace_step p i) as [p1 o1] eqn:Es. destruct (trace p1 l) as [p2 os2] eqn:Er. injection Hr as <- <-.
  destruct i as [|n msg now]; cbn in Es.
  { injection Es as <- <-. cbn. eapply IH; [|exact Er]. by apply traced_accept. }
  destruct (conns p !! n) as [[c|]|] eqn:En.
  2,3: injection Es as <- <-; cbn; by eapply IH.
  injection Es as <- <-. pose proof (traced_judge g os p n c msg now Ht En) as Hj. cbn zeta in Hj.
  destruct (IH _ _ _ _ Hj Er) as [Ht' Hk]. rewrite <- app_assoc in Ht'. split; [done|].
  intros [|k] o; cbn.
  - intros [= <-]. exists p, c. rewrite app_nil_r. split_and!; [done|done|done].
  - intros Ho. destruct (Hk k o Ho) as (q & c' & Hq & Hr). exists q, c'. by rewrite <- app_assoc in Hq.
Qed.

(** ** Properties *)

(** C12. The clipboard gate: in every run of a proxy whose gate is [Paste], over
    any interleaving of its connections, a [receive] of a gated offer escapes
    being dropped exactly when the last input event judged before it, on
    whichever connection, is at most [GATE_WINDOW] old. *)
Theorem gate_follows_input `{!TablesOk} deny audit l p os k o :
  trace (proxy_start Paste deny audit) l = (p, os) -> os !! k = Some o -> gated_read (o_msg o) = true ->
  action (o_judged o) <> Ok Drop <->
  exists t, last_input_of (take k os) = Some t /\ saturating_sub (o_now o) t <= GATE_WINDOW.
Proof.
  intros Ht Ho Hg. destruct (trace_traced Paste l [] _ _ _ (traced_start Paste deny audit) Ht) as [_ Hk].
  destruct (Hk k o Ho) as (q & c & [Hgate Hi _ _ _ _] & Hc & ->). cbn [app] in Hi. rewrite <- Hi.
  apply gated_decides; done.
Qed.

(** C11. Only what a client was shown can be bound: in every run, a
    [wl_registry.bind] that is forwarded names a global this very connection was
    sent an advertisement of before, for this interface and at this version or
    above; the interface is not a privileged one, no advertisement of the name
    was ever withheld from the connection, and the new id, which is of the
    client's range, is recorded as an object of that interface and version. *)
Theorem bind_only_advertised `{!TablesOk} g deny audit l p os k o :
  trace (proxy_start g deny audit) l = (p, os) -> os !! k = Some o -> is_bind (o_msg o) = true ->
  action (o_judged o) = Ok Forward ->
  exists name raw v id rest i offered index,
    args (o_msg o) = Uint name :: String_ (Some raw) :: Uint v :: NewId id :: rest /\
    j_msg (o_judged o) = o_msg o /\
    from_utf8_lossy raw = i_name i /\ by_index index = Some i /\
    advertised (take k os) (o_conn o) name (i_name i) offered /\ 1 <= v <= offered /\ offered <= version i /\
    i_name i ∉ PRIVILEGED /\ ~ withheld (take k os) (o_conn o) name /\
    0 <> id /\ id < SERVER_ID_BASE /\
    map_ (objects (j_conn (o_judged o))) !! id = Some (mkEntry index v false).
Proof.
  intros Ht Ho Hb. destruct (trace_traced g l [] _ _ _ (traced_start g deny audit) Ht) as [_ Hk].
  destruct (Hk k o Ho) as (q & c & [_ _ _ Hok Hgl Hh] & Hc & Hj). rewrite Hj. cbn [app] in *. intros Ha.
  destruct (bind_forwarded _ _ _ _ _ Hb Ha) as (name & raw & v & id & rest & gl & Hargs & Hm & Hoff & Hhid & Hrec).
  unfold offered_global in Hoff. destruct (globals c !! name) as [gl'|] eqn:Egl; [|done].
  destruct (Hgl _ _ _ _ Hc Egl) as (i & Hi & Hadv). rewrite Hi in Hoff.
  destruct (_ && _) eqn:Et in Hoff; [|done]. injection Hoff as ->. bool_to_prop.
  destruct (conn_globals _ (Hok _ _ Hc) _ _ Egl) as (i' & Hi' & Hpriv & Hver).
  assert (i' = i) as -> by congruence.
  apply record_iff in Hrec as ([Hz Hlt] & i'' & Hi'' & Hmap & _). assert (i'' = i) as -> by congruence.
  exists name, raw, v, id, rest, i, (g_version gl), (g_interface gl).
  split_and!; try done; [lia..|intros Hw; apply Hhid; by eapply Hh|].
  rewrite Hmap, lookup_insert_eq. do 2 f_equal. lia.
Qed.

(** The registry shows a client only what the tables describe and the proxy
    does not keep to itself, at a version the tables know: a well-formed
    [registry.global] event is dropped exactly when its interface is not text, is
    not described or is privileged, and one that is forwarded carries the lower
    of the two versions and is otherwise as it came. *)
Theorem registry_shows_only_described `{!TablesOk} p msg c audit now name i v rest :
  is_global msg = true -> args msg = Uint name :: String_ (Some i) :: Uint v :: rest ->
  let j := apply p msg c audit now in
  (action j = Ok Drop <-> ~ (utf8_valid i = true /\ (exists k, k ∈ INTERFACES /\ i_name k = i) /\ i ∉ PRIVILEGED)) /\
  (action j = Ok Forward -> exists k, k ∈ INTERFACES /\ i_name k = i /\
     args (j_msg j) = Uint name :: String_ (Some i) :: Uint (Z.min v (version k)) :: rest /\
     fds (j_msg j) = fds msg /\
     exists index, by_index index = Some k /\
       globals (j_conn j) !! name = Some (mkGlobal index (Z.min v (version k)))).
Proof.
  unfold is_global. intros [[Hf Hi]%andb_true_iff Hm]%andb_true_iff Hargs.
  apply negb_true_iff in Hf. unfold apply, is_bind. rewrite Hf. cbn [andb].
  unfold event. rewrite Hi, Hm. cbn [andb]. unfold global. rewrite Hargs.
  destruct (if utf8_valid i then _ else _) as [[index known]|] eqn:Ed.
  - apply described_ok in Ed as (Hu & Hk & Hn & Hp). rewrite bool_decide_true by done.
    set (c1 := mkConnection _ _).
    set (m := if negb _ then _ else _).
    assert (args m = Uint name :: String_ (Some i) :: Uint (Z.min v (version known)) :: rest /\ fds m = fds msg) as [Hma Hmf].
    { unfold m. destruct (Z.eqb_spec (Z.min v (version known)) v) as [->|]; done. }
    assert (known ∈ INTERFACES) as Hin by (by eapply list_elem_of_lookup_2).
    split.
    + destruct (account m c1); cbn; (split; [done|]); intros Hneg; destruct Hneg; split_and!; try done; by exists known.
    + destruct (account m c1) as [c2|] eqn:Ea; [|done]. cbn. intros _. exists known. split_and!; try done.
      exists index. split; [done|]. rewrite (account_globals _ _ _ Ea). cbn. apply lookup_insert_eq.
  - cbn. split; [|done]. split; [|done]. intros _ (Hu & (k & Hk & Hn) & Hp).
    apply list_elem_of_lookup_1 in Hk as [index Hk].
    assert (None = Some (index, k)) as [=]. rewrite <- Ed. by apply described_ok.
Qed.

(** Descriptors are neither lost nor made up: what a judged message keeps
    and what is closed are together the descriptors it came with, in order.  A
    dropped message has all of its descriptors closed; any other keeps them all,
    and is as it came but for the version of an advertisement the tables
    describe at a lower one. *)
Theorem policy_conserves_descriptors p msg c audit now :
  let j := apply p msg c audit now in
  fds (j_msg j) ++ closed j = fds msg /\
  (action j = Ok Drop -> fds (j_msg j) = [] /\ args (j_msg j) = args msg) /\
  (action j <> Ok Drop -> closed j = [] /\
    (j_msg j = msg \/ is_global msg = true /\ exists name i v rest known,
       args msg = Uint name :: String_ (Some i) :: Uint v :: rest /\ lookup_iface i = Some known /\ version known < v /\
       j_msg j = set_args msg (Uint name :: String_ (Some i) :: Uint (version known) :: rest))).
Proof.
  intros j. destruct (apply_left p msg c audit now) as [Hl _]. fold j in Hl. clearbody j. unfold msg_left in Hl.
  assert ((action j = Ok Drop /\ j_msg j = (drop_message msg).1 /\ closed j = (drop_message msg).2) \/
          (action j <> Ok Drop /\ clamped msg (j_msg j) /\ closed j = [])) as [(-> & -> & ->)|(Ha & Hc & ->)].
  { destruct (action j) as [[]|]; by (left + right). }
  - done.
  - rewrite (clamped_fds _ _ Hc), app_nil_r. split_and!; try done. intros _. split; [done|].
    destruct Hc as [|name i v known rest Hf Hi Hm Hargs Hk Hv]; [by left|right].
    unfold is_global. rewrite Hf, Hi, Hm. split; [done|]. by exists name, i, v, rest, known.
Qed.

End Trace.

(** A client that gets its registry, is shown a seat above the tables' version and
    a privileged shell, binds the seat, and reads the clipboard before and after
    a key goes down. *)
Definition demo_msg (fc : bool) (obj : Z) (iface msg : nat) (a : list Arg) (fds : list Z) : Incoming :=
  let i := default (mkInterface [] 0 [] []) (@by_index demo_tables iface) in
  let ms := if fc then requests i else events i in
  mkIncoming fc obj (Z.of_nat msg) i (default (mkMessage [] 0 false [] None) (ms !! msg)) a fds.

Definition demo_inputs : list Input := [
  Accepted;
  Message 0 (demo_msg true 1 2 1 [NewId 2] []) 1;
  Message 0 (demo_msg false 2 4 0 [Uint 7; String_ (Some (B "wl_seat")); Uint 20] []) 2;
  Message 0 (demo_msg false 2 4 0 [Uint 8; String_ (Some (B "zwlr_layer_shell_v1")); Uint 4] []) 3;
  Message 0 (demo_msg true 2 4 0 [Uint 7; String_ (Some (B "wl_seat")); Uint 5; NewId 3] []) 4;
  Message 0 (demo_msg true 3 5 1 [NewId 4] []) 5;
  Message 0 (demo_msg true 9 1 1 [String_ (Some (B "text/plain")); Fd] [33]) 6;
  Message 0 (demo_msg false 4 3 3 [Uint 1; Uint 2; Uint 3; Uint 1] []) 7;
  Message 0 (demo_msg true 9 1 1 [String_ (Some (B "text/plain")); Fd] [34]) 8].

Definition demo_run : Proxy * list Out :=
  @trace demo_tables false (proxy_start Paste true new_audit) demo_inputs.

Definition demo_out (k : nat) : Out :=
  default (mkOut 0 (demo_msg true 0 0 0 [] []) 0
    (mkJudged (Ok Drop) (new_policy Paste true) (@new_connection demo_tables) new_audit (demo_msg true 0 0 0 [] []) []))
    (demo_run.2 !! k).

Lemma gate_follows_input_witness :
  action (o_judged (demo_out 5)) = Ok Drop /\ action (o_judged (demo_out 7)) <> Ok Drop.
Proof.
  split; [vm_compute; reflexivity|].
  apply (@gate_follows_input demo_tables false demo_tables_ok true new_audit demo_inputs demo_run.1 demo_run.2 7 (demo_out 7));
    [vm_compute; reflexivity..|].
  exists 7. split; [vm_compute; reflexivity|]. vm_compute. congruence.
Defined.

Lemma bind_only_advertised_witness :
  action (o_judged (demo_out 3)) = Ok Forward /\
  exists id index i, map_ (objects (j_conn (o_judged (demo_out 3)))) !! id = Some (mkEntry index 5 false) /\
    @by_index demo_tables index = Some i /\ i_name i ∉ PRIVILEGED.
Proof.
  assert (action (o_judged (demo_out 3)) = Ok Forward) as Ha by (vm_compute; reflexivity).
  split; [exact Ha|].
  destruct (@bind_only_advertised demo_tables false demo_tables_ok Paste true new_audit demo_inputs
    demo_run.1 demo_run.2 3 (demo_out 3)) as (n & raw & v & id & rest & i & o & index & Hargs & _ & _ & Hi & _ & _ & _ & Hp & _ & _ & _ & Hm);
    [vm_compute; reflexivity..|exact Ha|].
  assert (args (o_msg (demo_out 3)) = [Uint 7; String_ (Some (B "wl_seat")); Uint 5; NewId 3]) as Hargs' by (vm_compute; reflexivity).
  assert (v = 5) as -> by congruence.
  exists id, index, i. split; [exact Hm|]. split; [exact Hi|exact Hp].
Defined.

Lemma registry_shows_only_described_witness :
  let j := @apply demo_tables false (new_policy Paste true)
    (demo_msg false 2 4 0 [Uint 8; String_ (Some (B "zwlr_layer_shell_v1")); Uint 4] [])
    (@new_connection demo_tables) new_audit 0 in
  action j = Ok Drop.
Proof.
  intros j.
  apply (@registry_shows_only_described demo_tables false demo_tables_ok (new_policy Paste true)
    (demo_msg false 2 4 0 [Uint 8; String_ (Some (B "zwlr_layer_shell_v1")); Uint 4] [])
    (@new_connection demo_tables) new_audit 0 8 (B "zwlr_layer_shell_v1") 4 []); [vm_compute; reflexivity..|].
  intros (_ & _ & Hn). apply Hn. apply search_text_spec; [apply privileged_sorted|vm_compute; reflexivity].
Defined.
