(* ===== verification/WlRelay.v ===== *)
(** The Wayland relay: [crates/bubbler-wl-proxy/src/relay.rs].

    [Unix] is the operating system as the relay uses it.  A descriptor that
    travels with a message is a number; [close] closes one, which is what
    dropping the source's [OwnedFd]s does.  [service] is one round of work for
    one connection, [step] one round of the whole loop, over any [Unix]; an
    error leaves the state it happened in, which the caller throws away. *)
From S2P Require Import Io.
From S2P Require Export WlPolicy.

Definition CHUNK : Z := 4096.
Definition MAX_FDS : Z := 253.
Definition MAX_MESSAGE_FDS : Z := 4.
Definition MAX_QUEUE : Z := Z.shiftl 4 20.
Definition MAX_TOTAL_QUEUE : Z := Z.shiftl 64 20.
Definition MAX_CONNECTIONS : Z := 256.
Definition BACKOFF : Z := from_millis 100.

Inductive Errno := AGAIN | INTR | MFILE | NFILE | INPROGRESS | OtherErrno (text : bytes).

#[global] Instance Errno_eq_dec : EqDecision Errno.
Proof. solve_decision. Defined.

Definition out_of_descriptors (err : Errno) : bool :=
  match err with MFILE | NFILE => true | _ => false end.

(** What [recvmsg] collected: bytes, descriptors, and whether control data was
    cut short. *)
Record Received := mkReceived { r_bytes : bytes; r_fds : list Z; r_ctrunc : bool }.

(** The system calls, over worlds [W] and sockets [sock].  [socket_addr] is
    [SocketAddrUnix::new]. *)
Class Unix (W sock : Type) := {
  instant_now : W -> Z * W;
  recvmsg : sock -> Z -> W -> result Errno Received * W;
  sendmsg : sock -> bytes -> list Z -> W -> result Errno Z * W;
  close : list Z -> W -> W;
  poll_unix : list (sock * PollFlags) -> option Z -> W -> result Errno (list PollFlags) * W;
  accept_with : sock -> W -> result Errno sock * W;
  socket_with : W -> result Errno sock * W;
  socket_addr : bytes -> result Errno bytes;
  connect_unix : sock -> bytes -> W -> result Errno unit * W;
  errno_text : Errno -> bytes;
}.

Class UnixLaws (W sock : Type) `{Unix W sock} := {
  recvmsg_len s n w r w' : 0 <= n -> recvmsg s n w = (Ok r, w') -> len (r_bytes r) <= n;
  sendmsg_len s b f w n w' : sendmsg s b f w = (Ok n, w') -> 0 <= n <= len b;
}.

Record Frame := mkFrame { data : bytes; off : Z; f_fds : list Z }.

Record Side (sock : Type) := mkSide {
  fd : sock; buf : bytes; s_fds : list Z; outq : list Frame; out_bytes : Z; eof : bool }.
Arguments mkSide {sock}.
Arguments fd {sock}.
Arguments buf {sock}.
Arguments s_fds {sock}.
Arguments outq {sock}.
Arguments out_bytes {sock}.
Arguments eof {sock}.

Record Conn (sock : Type) := mkConn {
  client : Side sock; server : Side sock; state : Connection; closing : bool; broken : bool }.
Arguments mkConn {sock}.
Arguments client {sock}.
Arguments server {sock}.
Arguments state {sock}.
Arguments closing {sock}.
Arguments broken {sock}.

Definition new_side {sock} (s : sock) : Side sock := mkSide s [] [] [] 0 false.

Definition want_in : PollFlags := mkFlags true false false false.
Definition want_out : PollFlags := mkFlags false true false false.

(** Setters. *)
Definition set_buf {sock} (s : Side sock) (b : bytes) : Side sock :=
  mkSide (fd s) b (s_fds s) (outq s) (out_bytes s) (eof s).
Definition set_fds {sock} (s : Side sock) (f : list Z) : Side sock :=
  mkSide (fd s) (buf s) f (outq s) (out_bytes s) (eof s).
Definition set_eof {sock} (s : Side sock) (e : bool) : Side sock :=
  mkSide (fd s) (buf s) (s_fds s) (outq s) (out_bytes s) e.

(** [side.out_bytes += data.len(); side.out.push_back(frame)]. *)
Definition push {sock} (s : Side sock) (data : bytes) (f : list Z) : Side sock :=
  mkSide (fd s) (buf s) (s_fds s) (outq s ++ [mkFrame data 0 f]) (out_bytes s + len data) (eof s).

Definition want `{Endian} (buf : bytes) : Z :=
  match Header.decode buf with
  | Ok header => Z.max (saturating_sub (Header.size header) (len buf)) CHUNK
  | Err _ => CHUNK
  end.

Section Service.
Context `{Tables} `{Endian} {W sock : Type} `{Unix W sock}.

Definition new_conn (c s : sock) : Conn sock := mkConn (new_side c) (new_side s) new_connection false false.

(** [flush]: [None] is out of fuel, and [flush_returns] shows it never is. *)
Fixpoint flush_loop (fuel : nat) (side : Side sock) (w : W) : option (result bytes unit * Side sock * W) :=
  match outq side with
  | [] => Some (Ok tt, side, w)
  | frame :: out =>
    match fuel with
    | O => None
    | S fuel =>
      if MAX_MESSAGE_FDS <? len (f_fds frame)
      then Some (Err (B "the message carries more descriptors than fit"), side, w)
      else match sendmsg (fd side) (from (data frame) (off frame)) (f_fds frame) w with
      | (Ok sent, w) =>
        if sent =? 0 then Some (Ok tt, side, w)
        else
          let frame := mkFrame (data frame) (off frame + sent) [] in
          let out := if off frame >=? len (data frame) then out else frame :: out in
          flush_loop fuel (mkSide (fd side) (buf side) (s_fds side) out (out_bytes side - sent) (eof side)) w
      | (Err AGAIN, w) | (Err INTR, w) => Some (Ok tt, side, w)
      | (Err e, w) => Some (Err (errno_text e), side, w)
      end
    end
  end.

(** Every turn sends a byte of the queue. *)
Definition flush_fuel (side : Side sock) : nat := S (length (concat (map data (outq side)))).

Definition flush (side : Side sock) (w : W) : result bytes unit * Side sock * W :=
  default (Ok tt, side, w) (flush_loop (flush_fuel side) side w).

Definition flags (c : Conn sock) (is_client : bool) : PollFlags :=
  let '(side, other) := if is_client then (client c, server c) else (server c, client c) in
  flags_or (if negb (closing c) && negb (eof side) && (out_bytes other <? MAX_QUEUE) then want_in else no_flags)
           (if negb (bool_decide (outq side = [])) then want_out else no_flags).

Definition finished (c : Conn sock) : bool :=
  let empty s := bool_decide (outq s = []) in
  broken c
  || (closing c && empty (client c))
  || (eof (client c) && empty (server c) && empty (client c))
  || (eof (server c) && empty (client c)).

Definition queued (c : Conn sock) : Z := out_bytes (client c) + out_bytes (server c).

(** [receive]. *)
Definition receive (side : Side sock) (w : W) : result bytes unit * Side sock * W :=
  match recvmsg (fd side) (want (buf side)) w with
  | (Ok msg, w) =>
    let side := set_buf side (buf side ++ r_bytes msg) in
    let side := if len (r_bytes msg) =? 0 then set_eof side true else side in
    let side := set_fds side (s_fds side ++ r_fds msg) in
    if r_ctrunc msg then (Err (B "the peer sent more descriptors than one message may carry"), side, w)
    else if len (s_fds side) >? MAX_FDS
    then (Err (B "the peer sent more descriptors than its messages can own"), side, w)
    else (Ok tt, side, w)
  | (Err AGAIN, w) | (Err INTR, w) => (Ok tt, side, w)
  | (Err _, w) => (Ok tt, set_eof side true, w)
  end.

(** What the loop of [pump] works on. *)
Record Pump := mkPump {
  src : Side sock; dst : Side sock; p_state : Connection; p_closing : bool;
  p_policy : Policy; p_audit : Audit }.

(** One whole message at the front of [rest]: its arguments, its size and what
    it is for; [None] when there is none yet. *)
Definition next_message (from_client : bool) (st : Connection) (rest : bytes)
  : result bytes (option (Header.t * Interface * Message * list Arg * Z)) :=
  match Header.decode rest with
  | Err NeedMore => Ok None
  | Err err => Err (wire_error_text err)
  | Ok header =>
    if len rest <? Header.size header then Ok None
    else
      iface ← ok_or (interface_of (objects st) (Header.object header)) (object_error_text (Unmapped (Header.object header)));
      msg ← ok_or (message iface from_client (Header.opcode header))
              (object_error_text (NoSuchMessage (i_name iface) (Header.opcode header)));
      '(args, consumed) ← map_err wire_error_text (decode rest (m_args msg));
      Ok (Some (header, iface, msg, args, consumed))
  end.

(** One message judged: the rest of the loop's body, [at_] bytes of [src.buf]
    behind it. *)
Definition pump_one (from_client : bool) (now : Z) (m : Header.t * Interface * Message * list Arg * Z)
  (p : Pump) (w : W) : result bytes unit * Pump * W :=
  let '(header, iface, msg, args_, consumed) := m in
  let owed := fd_count (m_args msg) in
  if len (s_fds (src p)) <? owed
  then (Err (B "a " ++ i_name iface ++ B "." ++ m_name msg ++ B " arrived without its " ++ decimal owed ++ B " descriptors"), p, w)
  else
    let taken := upto (s_fds (src p)) owed in
    let s := set_fds (src p) (from (s_fds (src p)) owed) in
    let incoming := mkIncoming from_client (Header.object header) (Header.opcode header) iface msg args_ taken in
    let j := apply (p_policy p) incoming (p_state p) (p_audit p) now in
    let w := close (closed j) w in
    let p := mkPump s (dst p) (j_conn j) (p_closing p) (j_policy j) (j_audit j) in
    match action j with
    | Err e => (Err (object_error_text e), p, close (fds (j_msg j)) w)
    | Ok Forward =>
      match encode (Header.object header) (Header.opcode header) (args (j_msg j)) with
      | Err e => (Err (wire_error_text e), p, close (fds (j_msg j)) w)
      | Ok data => (Ok tt, mkPump s (push (dst p) data (fds (j_msg j))) (p_state p) (p_closing p) (p_policy p) (p_audit p), w)
      end
    | Ok Drop => (Ok tt, p, w)
    | Ok (Refuse error) =>
      let s := if negb (bool_decide (error = [])) then push s error [] else s in
      (Ok tt, mkPump s (dst p) (p_state p) true (p_policy p) (p_audit p), close (fds (j_msg j)) w)
    end.

(** The loop, from [at_] on; the fuel is the bytes that are left, and a message
    is at least a header long. *)
Fixpoint pump_loop (fuel : nat) (from_client : bool) (now : Z) (at_ : Z) (p : Pump) (w : W)
  : result bytes Z * Pump * W :=
  match fuel with
  | O => (Ok at_, p, w)
  | S fuel =>
    if p_closing p then (Ok at_, p, w)
    else match next_message from_client (p_state p) (from (buf (src p)) at_) with
    | Err e => (Err e, p, w)
    | Ok None => (Ok at_, p, w)
    | Ok (Some m) =>
      match pump_one from_client now m p w with
      | (Err e, p, w) => (Err e, p, w)
      | (Ok tt, p, w) => pump_loop fuel from_client now (at_ + m.2) p w
      end
    end
  end.

Definition pump (from_client : bool) (c : Conn sock) (policy : Policy) (audit : Audit) (now : Z) (w : W)
  : result bytes unit * Conn sock * Policy * Audit * W :=
  let '(s, d) := if from_client then (client c, server c) else (server c, client c) in
  let back s d st cl := if from_client then mkConn s d st cl (broken c) else mkConn d s st cl (broken c) in
  match receive s w with
  | (Err e, s, w) => (Err e, back s d (state c) (closing c), policy, audit, w)
  | (Ok tt, s, w) =>
    let p := mkPump s d (state c) (closing c) policy audit in
    match pump_loop (S (length (buf s))) from_client now 0 p w with
    | (Err e, p, w) => (Err e, back (src p) (dst p) (p_state p) (p_closing p), p_policy p, p_audit p, w)
    | (Ok at_, p, w) =>
      (Ok tt, back (set_buf (src p) (from (buf (src p)) at_)) (dst p) (p_state p) (p_closing p),
       p_policy p, p_audit p, w)
    end
  end.

(** The flags that wake a side. *)
Definition woke : PollFlags := mkFlags true false true true.

(** [if !side.out.is_empty() && flush(&mut side).is_err() { self.broken = true }]. *)
Definition flush_side (side : Side sock) (w : W) : bool * Side sock * W :=
  if bool_decide (outq side = []) then (false, side, w)
  else let '(r, side, w) := flush side w in (negb (is_ok r), side, w).

Definition flush_both (c : Conn sock) (w : W) : Conn sock * W :=
  let '(b1, srv, w) := flush_side (server c) w in
  let '(b2, cl, w) := flush_side (client c) w in
  (mkConn cl srv (state c) (closing c) (broken c || b1 || b2), w).

Definition service (c : Conn sock) (on_client on_server : PollFlags) (policy : Policy) (audit : Audit) (now : Z) (w : W)
  : result bytes unit * Conn sock * Policy * Audit * W :=
  let '(r, c, policy, audit, w) :=
    if intersects on_client woke && negb (closing c) && negb (eof (client c))
    then pump true c policy audit now w else (Ok tt, c, policy, audit, w) in
  match r with
  | Err e => (Err e, c, policy, audit, w)
  | Ok tt =>
    let '(r, c, policy, audit, w) :=
      if intersects on_server woke && negb (closing c) && negb (eof (server c))
      then pump false c policy audit now w else (Ok tt, c, policy, audit, w) in
    match r with
    | Err e => (Err e, c, policy, audit, w)
    | Ok tt => let '(c, w) := flush_both c w in (Ok tt, c, policy, audit, w)
    end
  end.

End Service.

(** ** The loop over every connection *)

Record Relay (sock : Type) := mkRelay {
  listener : sock; upstream : bytes; policy : Policy; audit : Audit; conns : list (Conn sock);
  backoff : bool; refusing : bool }.
Arguments mkRelay {sock}.
Arguments listener {sock}.
Arguments upstream {sock}.
Arguments policy {sock}.
Arguments audit {sock}.
Arguments conns {sock}.
Arguments backoff {sock}.
Arguments refusing {sock}.

Inductive Slot := Listener | Client (index : nat) | Server (index : nat).

#[global] Instance Slot_eq_dec : EqDecision Slot.
Proof. solve_decision. Defined.

Section Step.
Context `{Tables} `{Endian} {W sock : Type} `{Unix W sock}.

Definition with_audit (r : Relay sock) (a : Audit) : Relay sock :=
  mkRelay (listener r) (upstream r) (policy r) a (conns r) (backoff r) (refusing r).

Definition wait_for_descriptors (r : Relay sock) (now : Z) : Relay sock :=
  mkRelay (listener r) (upstream r) (policy r)
    (if refusing r then audit r
     else line (audit r) Close now (B "bubbler-wl-proxy: connection refused: out of descriptors"))
    (conns r) true true.

Definition dial (r : Relay sock) (w : W) : result Errno sock * W :=
  match socket_with w with
  | (Err e, w) => (Err e, w)
  | (Ok s, w) =>
    match socket_addr (upstream r) with
    | Err e => (Err e, w)
    | Ok address =>
      match connect_unix s address w with
      | (Ok tt, w) | (Err INPROGRESS, w) | (Err AGAIN, w) => (Ok s, w)
      | (Err err, w) => (Err err, w)
      end
    end
  end.

(** [accept]: [inr] is still accepting when the fuel ends.  A client whose
    upstream cannot be dialled leaves the loop where it was. *)
Fixpoint accept (fuel : nat) (now : Z) (r : Relay sock) (w : W) : (Relay sock + Relay sock) * W :=
  match fuel with
  | O => (inr r, w)
  | S fuel =>
    if len (conns r) >=? MAX_CONNECTIONS then (inl r, w)
    else match accept_with (listener r) w with
    | (Ok c, w) =>
      match dial r w with
      | (Ok s, w) =>
        accept fuel now (mkRelay (listener r) (upstream r) (policy r) (audit r)
          (conns r ++ [new_conn c s]) (backoff r) false) w
      | (Err err, w) =>
        if out_of_descriptors err then (inl (wait_for_descriptors r now), w)
        else accept fuel now (with_audit r (line (audit r) Close now
               (B "bubbler-wl-proxy: connection closed: no upstream socket: " ++ errno_text err))) w
      end
    | (Err AGAIN, w) | (Err INTR, w) => (inl r, w)
    | (Err err, w) =>
      if out_of_descriptors err then (inl (wait_for_descriptors r now), w)
      else (inl (with_audit r (line (audit r) Close now
              (B "bubbler-wl-proxy: connection closed: accept failed: " ++ errno_text err))), w)
    end
  end.

(** The poll array: a side with nothing to wait for is left out. *)
Definition side_slot (index : nat) (c : Conn sock) (is_client : bool) : list (Slot * (sock * PollFlags)) :=
  let f := flags c is_client in
  if flags_empty f then []
  else [(if is_client then Client index else Server index, (fd (if is_client then client c else server c), f))].

Definition slots (r : Relay sock) : list (Slot * (sock * PollFlags)) :=
  (if (len (conns r) <? MAX_CONNECTIONS) && negb (backoff r) then [(Listener, (listener r, want_in))] else []) ++
  concat (imap (fun index c => side_slot index c true ++ side_slot index c false) (conns r)).

(** What a slot was told, the last entry counting. *)
Definition told (sl : list Slot) (got : list PollFlags) (s : Slot) : PollFlags :=
  default no_flags (last (omap (fun '(s', f) => if decide (s' = s) then Some f else None) (zip sl got))).

(** The round of [service] calls, and the indices of the connections it ends. *)
Fixpoint serve_all (index : nat) (ready : nat -> PollFlags * PollFlags) (now : Z) (cs : list (Conn sock))
  (p : Policy) (a : Audit) (w : W) : list (Conn sock) * list nat * Policy * Audit * W :=
  match cs with
  | [] => ([], [], p, a, w)
  | c :: cs =>
    let '(r, c, p, a, w) := service c (ready index).1 (ready index).2 p a now w in
    let '(dead, a) := match r with
      | Ok tt => (if finished c then [index] else [], a)
      | Err why => ([index], line a Close now (B "bubbler-wl-proxy: connection closed: " ++ why))
      end in
    let '(cs, more, p, a, w) := serve_all (S index) ready now cs p a w in
    (c :: cs, dead ++ more, p, a, w)
  end.

(** The live connections with their indices. *)
Definition live_of (cs : list (Conn sock)) (dead : list nat) : list (nat * Conn sock) :=
  filter (fun '(i, _) => i ∉ dead) (imap pair cs).

Definition total_queued (l : list (nat * Conn sock)) : Z := fold_right Z.add 0 (map (fun x => queued x.2) l).

(** [max_by_key(queued)]: the last of the largest. *)
Definition fattest (l : list (nat * Conn sock)) : option (nat * Conn sock) :=
  foldl (fun best x => match best with
    | Some b => if queued x.2 >=? queued b.2 then Some x else best
    | None => Some x
    end) None l.

(** The connection that gives way, when all of them hold too much. *)
Definition evict (cs : list (Conn sock)) (dead : list nat) (a : Audit) (now : Z) : list nat * Audit :=
  let live := live_of cs dead in
  let total := total_queued live in
  if total >? MAX_TOTAL_QUEUE then
    match fattest live with
    | Some (index, _) =>
      (dead ++ [index], line a Close now (B "bubbler-wl-proxy: connection closed: the sandbox has queued " ++
        decimal total ++ B " bytes across its connections"))
    | None => (dead, a)
    end
  else (dead, a).

(** Every descriptor a connection holds, but its sockets. *)
Definition conn_fds (c : Conn sock) : list Z :=
  s_fds (client c) ++ concat (map f_fds (outq (client c))) ++ s_fds (server c) ++ concat (map f_fds (outq (server c))).

(** Sorted, without duplicates, and removed from the last on: what is left is
    what is not in [dead].  A removed connection closes what it holds. *)
Definition reap (cs : list (Conn sock)) (dead : list nat) (w : W) : list (Conn sock) * W :=
  let gone := filter (fun '(i, _) => i ∈ dead) (imap pair cs) in
  ((live_of cs dead).*2, foldr (fun x w => close (conn_fds x.2) w) w gone).

(** [step]: [inr] when the fuel of [accept] ends. *)
Definition step (fuel : nat) (r : Relay sock) (w : W) : result Errno (Relay sock + Relay sock) * W :=
  let backing_off := backoff r in
  let sl := slots r in
  let timeout := if backing_off then Some BACKOFF else None in
  let '(polled, w) :=
    if negb (bool_decide (sl = [])) || backing_off then poll_unix (map snd sl) timeout w
    else (Ok [], w) in
  match polled with
  | Err INTR => (Ok (inl r), w)
  | Err err => (Err err, w)
  | Ok got =>
    let news := told (map fst sl) got in
    let waiting := intersects (news Listener) want_in in
    let '(now, w) := instant_now w in
    let '(cs, dead, p, a, w) :=
      serve_all 0 (fun i => (news (Client i), news (Server i))) now (conns r) (policy r) (audit r) w in
    let '(dead, a) := evict cs dead a now in
    let '(cs, w) := reap cs dead w in
    let r := mkRelay (listener r) (upstream r) p a cs false (refusing r) in
    if waiting then let '(r, w) := accept fuel now r w in (Ok r, w) else (Ok (inl r), w)
  end.

(** [run]: [inl] is the error it stopped with, [inr] a relay still serving when
    the fuel ends. *)
Fixpoint run_loop (fuel : nat) (r : Relay sock) (w : W) : (Errno * Relay sock + Relay sock) * W :=
  match fuel with
  | O => (inr r, w)
  | S fuel =>
    match step fuel r w with
    | (Err err, w) =>
      let '(now, w) := instant_now w in
      (inl (err, with_audit r (line (audit r) Close now (B "bubbler-wl-proxy: stopped: " ++ errno_text err))), w)
    | (Ok (inl r), w) => run_loop fuel r w
    | (Ok (inr r), w) => (inr r, w)
    end
  end.

Definition run (fuel : nat) (listener : sock) (upstream : bytes) (policy : Policy) (audit : Audit) (w : W) :=
  run_loop fuel (mkRelay listener upstream policy audit [] false false) w.

End Step.
