(* ===== verification/WlStream.v ===== *)
(** What the Wayland relay carries: the streams of bytes and of descriptors of
    one connection, over any system and any interleaving with the others.

    [logged] writes down what any [Unix] is asked; code written against the
    class cannot tell.  [served] is reachability: a connection, the log so far,
    and either a round of [service] for it or anything the other connections
    do. *)
From S2P Require Import Io.
From S2P Require Export WlRelay.

Inductive event (sock : Type) :=
| ERecv (s : sock) (r : Received)
| ESend (s : sock) (b : bytes) (f : list Z)
| EClose (f : list Z).
Arguments ERecv {sock} s r.
Arguments ESend {sock} s b f.
Arguments EClose {sock} f.

Section Logged.
Context {W sock : Type} `{EqDecision sock} `{Unix W sock}.

Definition quiet {A} (m : W -> A * W) : W * list (event sock) -> A * (W * list (event sock)) :=
  fun '(w, log) => let '(a, w) := m w in (a, (w, log)).

Definition logged : Unix (W * list (event sock)) sock := {|
  instant_now := quiet instant_now;
  recvmsg s n := fun '(w, log) => match recvmsg s n w with
    | (Ok r, w) => (Ok r, (w, log ++ [ERecv s r]))
    | (Err e, w) => (Err e, (w, log))
    end;
  sendmsg s b f := fun '(w, log) => match sendmsg s b f w with
    | (Ok n, w) => (Ok n, (w, log ++ (if n =? 0 then [] else [ESend s (upto b n) f])))
    | (Err e, w) => (Err e, (w, log))
    end;
  close f := fun '(w, log) => (close f w, log ++ [EClose f]);
  poll_unix fds t := quiet (poll_unix fds t);
  accept_with s := quiet (accept_with s);
  socket_with := quiet socket_with;
  socket_addr := socket_addr;
  connect_unix s a := quiet (connect_unix s a);
  errno_text := errno_text |}.

#[global] Instance logged_laws `{!UnixLaws W sock} : @UnixLaws (W * list (event sock)) sock logged.
Proof.
  constructor; intros s.
  - intros n [w log] r w' Hn. cbn. destruct (recvmsg s n w) as [[r1|e] w1] eqn:E; [|done]. intros [= <- <-].
    by eapply recvmsg_len.
  - intros b f [w log] n w'. cbn. destruct (sendmsg s b f w) as [[n1|e] w1] eqn:E; [|done]. intros [= <- <-].
    by eapply sendmsg_len.
Qed.

Definition gather {A} (f : event sock -> list A) (log : list (event sock)) : list A := concat (map f log).

(** The bytes and the descriptors that came in on a socket, and went out. *)
Definition got (s : sock) := gather (fun e => match e with ERecv s' r => if decide (s' = s) then r_bytes r else [] | _ => [] end).
Definition got_fds (s : sock) := gather (fun e => match e with ERecv s' r => if decide (s' = s) then r_fds r else [] | _ => [] end).
Definition sent (s : sock) := gather (fun e => match e with ESend s' b _ => if decide (s' = s) then b else [] | _ => [] end).
Definition sent_fds (s : sock) := gather (fun e => match e with ESend s' _ f => if decide (s' = s) then f else [] | _ => [] end).

Lemma gather_app {A} (f : event sock -> list A) l k : gather f (l ++ k) = gather f l ++ gather f k.
Proof. unfold gather. by rewrite map_app, concat_app. Qed.

Lemma got_app s l k : got s (l ++ k) = got s l ++ got s k.
Proof. apply gather_app. Qed.
Lemma got_fds_app s l k : got_fds s (l ++ k) = got_fds s l ++ got_fds s k.
Proof. apply gather_app. Qed.
Lemma sent_app s l k : sent s (l ++ k) = sent s l ++ sent s k.
Proof. apply gather_app. Qed.
Lemma sent_fds_app s l k : sent_fds s (l ++ k) = sent_fds s l ++ sent_fds s k.
Proof. apply gather_app. Qed.

(** An event of neither end. *)
Definition touches (s : sock) (e : event sock) : bool :=
  match e with ERecv s' _ | ESend s' _ _ => bool_decide (s' = s) | EClose _ => false end.

Lemma untouched s more : forallb (fun e => negb (touches s e)) more = true ->
  got s more = [] /\ got_fds s more = [] /\ sent s more = [] /\ sent_fds s more = [].
Proof.
  unfold got, got_fds, sent, sent_fds, gather. induction more as [|e more IH]; cbn; [done|].
  intros [He Hm]%andb_true_iff. destruct (IH Hm) as (-> & -> & -> & ->).
  destruct e; cbn in *; try done; (destruct (decide (s0 = s)) as [E|E]; [by rewrite bool_decide_true in He|done]).
Qed.

End Logged.

Section Flush.
Context {W sock : Type} `{UnixLaws W sock}.

(** ** What a side has left to send *)

Definition pending (s : Side sock) : bytes := concat (map (fun f => from (data f) (off f)) (outq s)).
Definition pending_fds (s : Side sock) : list Z := concat (map f_fds (outq s)).

Record side_ok (s : Side sock) : Prop := {
  side_count : out_bytes s = len (pending s);
  side_frames : Forall (fun f => 0 <= off f < len (data f)) (outq s);
}.

(** The queue holds a byte for every turn [flush] can take. *)
Lemma flush_loop_total fuel : forall s (w : W), side_ok s -> (length (pending s) <= fuel)%nat ->
  is_Some (flush_loop fuel s w).
Proof.
  induction fuel as [|fuel IH]; intros s w [Hc Hf] Hl; cbn [flush_loop];
    unfold pending in *; destruct (outq s) as [|f out] eqn:Eq; try done; apply Forall_cons in Hf as [Ho Hf];
    assert (len (from (data f) (off f)) = len (data f) - off f) as Hlf by (apply len_from; lia);
    cbn [map concat] in *; rewrite length_app in Hl.
  { unfold len in Hlf at 1. lia. }
  destruct (_ <? _); [done|]. cbn [data off f_fds].
  pose proof (sendmsg_len (fd s) (from (data f) (off f)) (f_fds f) w) as Hlen.
  destruct (sendmsg _ _ _ w) as [[n|e] w1]; [|by destruct e].
  specialize (Hlen _ _ eq_refl). destruct (Z.eqb_spec n 0) as [->|Hn]; [done|].
  rewrite Hlf in Hlen. apply IH; clear IH.
  - constructor; cbn [out_bytes outq]; unfold pending; cbn [outq]; rewrite Z.geb_leb;
      destruct (Z.leb_spec (len (data f)) (off f + n)); cbn [map concat off data]; try done.
    + rewrite Hc, len_app. lia.
    + rewrite Hc, !len_app. rewrite (len_from (data f) (off f + n)) by lia. lia.
    + constructor; [cbn; lia|done].
  - cbn [outq]. rewrite Z.geb_leb. destruct (Z.leb_spec (len (data f)) (off f + n)).
    + unfold len in *. lia.
    + cbn [map concat off data]. rewrite length_app. unfold from in *. rewrite !length_drop in *. unfold len in *. lia.
Qed.

(** A [flush] that returns well has nothing left to do. *)
Lemma flush_loop_stops fuel : forall (s : Side sock) (w : W) s' w',
  flush_loop fuel s w = Some (Ok tt, s', w') ->
  outq s' = [] \/ exists f w0 e, hd_error (outq s') = Some f /\
    sendmsg (fd s') (from (data f) (off f)) (f_fds f) w0 = (e, w') /\
    (e = Ok 0 \/ e = Err AGAIN \/ e = Err INTR).
Proof.
  induction fuel as [|fuel IH]; intros s w s' w'; cbn [flush_loop]; destruct (outq s) as [|f out] eqn:Eq; try done;
    try (by intros [= <- <-]; left).
  destruct (_ <? _); [done|]. destruct (sendmsg _ _ _ w) as [[n|e] w1] eqn:Es.
  - destruct (Z.eqb_spec n 0) as [->|]; [|by apply IH]. intros [= <- <-]. right. exists f, w, (Ok 0).
    rewrite Eq. auto.
  - destruct e; intros [=]; subst; right; exists f, w; eexists; rewrite Eq; eauto.
Qed.

Lemma pending_le (s : Side sock) : (length (pending s) <= length (concat (map data (outq s))))%nat.
Proof.
  unfold pending. induction (outq s) as [|f out IH]; cbn; [done|]. rewrite !length_app. unfold from at 1. rewrite length_drop. lia.
Qed.

(** Writing a queue out ends: every turn of [flush] hands the kernel at least
    a byte, so it returns, and it returns well only with the queue empty or the
    kernel unwilling to take more at that moment. *)
Theorem flush_returns (s : Side sock) (w : W) : side_ok s ->
  exists r s' w', flush_loop (flush_fuel s) s w = Some (r, s', w') /\
    (r = Ok tt -> outq s' = [] \/
       exists f w0 e, hd_error (outq s') = Some f /\
         sendmsg (fd s') (from (data f) (off f)) (f_fds f) w0 = (e, w') /\
         (e = Ok 0 \/ e = Err AGAIN \/ e = Err INTR)).
Proof.
  intros Hs. destruct (flush_loop_total (flush_fuel s) s w Hs) as [[[r s'] w'] Hr].
  { pose proof (pending_le s). unfold flush_fuel. lia. }
  exists r, s', w'. split; [done|]. intros ->. by eapply flush_loop_stops.
Qed.

End Flush.

Section Streams.
Context `{Tables} `{Endian} {W sock : Type} `{EqDecision sock} `{UnixLaws W sock}.
Notation LW := (W * list (event sock))%type.
#[local] Existing Instance logged | 0.

Lemma new_side_ok (s : sock) : side_ok (new_side s).
Proof. by constructor. Qed.

Lemma push_ok (s : Side sock) d f : side_ok s -> 0 < len d -> side_ok (push s d f).
Proof.
  intros [Hc Hf] Hd. unfold push, pending. constructor; cbn.
  - unfold pending in *. rewrite map_app, concat_app, len_app, <-Hc. cbn. rewrite from_0, app_nil_r. done.
  - apply Forall_app. split; [done|]. constructor; [cbn; lia|done].
Qed.

Lemma pending_push (s : Side sock) d f : pending (push s d f) = pending s ++ d.
Proof. unfold pending, push. cbn. rewrite map_app, concat_app. cbn. by rewrite from_0, app_nil_r. Qed.
Lemma pending_fds_push (s : Side sock) d f : pending_fds (push s d f) = pending_fds s ++ f.
Proof. unfold pending_fds, push. cbn. rewrite map_app, concat_app. cbn. by rewrite app_nil_r. Qed.

(** The two sides differ in nothing but their queue. *)
Definition same_input (s s' : Side sock) : Prop :=
  fd s' = fd s /\ buf s' = buf s /\ s_fds s' = s_fds s /\ eof s' = eof s.

(** What [flush] does: it sends a prefix of what is pending, with its
    descriptors, and touches nothing else. *)
Lemma flush_loop_spec fuel : forall (s : Side sock) (w : W) log r s' w' log',
  side_ok s -> flush_loop fuel s (w, log) = Some (r, s', (w', log')) ->
  side_ok s' /\ same_input s s' /\ exists more, log' = log ++ more /\
    Forall (fun e => exists b f, e = ESend (fd s) b f) more /\
    pending s = sent (fd s) more ++ pending s' /\ pending_fds s = sent_fds (fd s) more ++ pending_fds s'.
Proof.
  assert (forall (s : Side sock) log, side_ok s -> side_ok s /\ same_input s s /\ exists more, log = log ++ more /\
    Forall (fun e => exists b f, e = ESend (fd s) b f) more /\
    pending s = sent (fd s) more ++ pending s /\ pending_fds s = sent_fds (fd s) more ++ pending_fds s) as Hstay.
  { intros s log Hs. split_and!; [done|by split_and!|]. exists []. by rewrite app_nil_r. }
  induction fuel as [|fuel IH]; intros s w log r s' w' log' Hs; cbn [flush_loop];
    destruct (outq s) as [|f out] eqn:Eq; try done; try (intros [= <- <- <- <-]; by apply Hstay).
  destruct (_ <? _); [intros [= <- <- <- <-]; by apply Hstay|]. cbn.
  pose proof (sendmsg_len (fd s) (from (data f) (off f)) (f_fds f) w) as Hlen.
  destruct (sendmsg _ _ _ w) as [[n|e] w1].
  2: destruct e; intros [= <- <- <- <-]; by apply Hstay.
  specialize (Hlen _ _ eq_refl). destruct (Z.eqb_spec n 0) as [->|Hn].
  { rewrite app_nil_r. intros [= <- <- <- <-]. by apply Hstay. }
  destruct Hs as [Hc Hf]. rewrite Eq in Hf. apply Forall_cons in Hf as [Ho Hf].
  assert (len (from (data f) (off f)) = len (data f) - off f) as Hlf by (apply len_from; lia). rewrite Hlf in Hlen.
  set (out' := if _ >=? _ then out else _). set (s1 := mkSide _ _ _ _ _ _).
  set (ev := ESend (fd s) (upto (from (data f) (off f)) n) (f_fds f)).
  assert (pending s = upto (from (data f) (off f)) n ++ pending s1 /\ pending_fds s = f_fds f ++ pending_fds s1 /\
          Forall (fun f => 0 <= off f < len (data f)) out') as (Hp & Hpf & Hfr).
  { unfold pending, pending_fds, s1, out'. rewrite Eq. cbn [outq map concat].
    rewrite Z.geb_leb. destruct (Z.leb_spec (len (data f)) (off f + n)).
    - rewrite upto_ge by lia. done.
    - cbn [map concat off data f_fds]. rewrite app_nil_l, app_assoc. split_and!; [|done|constructor; [cbn; lia|done]].
      f_equal. rewrite <-(upto_from (from (data f) (off f)) n) at 1. f_equal. unfold from. rewrite drop_drop. f_equal. lia. }
  intros Hr. apply IH in Hr as (Hs' & Hi & more & -> & Hm & Hp' & Hpf').
  - split; [done|]. split; [exact Hi|]. exists (ev :: more). rewrite <-app_assoc. split; [done|].
    split; [constructor; [by eexists _, _|exact Hm]|].
    unfold sent, sent_fds, gather. cbn [map concat ev]. rewrite !decide_True by done.
    rewrite Hp, Hpf, Hp', Hpf', <-!app_assoc. done.
  - constructor; [|exact Hfr]. unfold s1. cbn [out_bytes]. fold s1. rewrite Hc, Hp, len_app, len_upto by lia. lia.
Qed.

(** A side with nothing queued has nothing counted. *)
Lemma side_empty (s : Side sock) : side_ok s -> outq s = [] -> out_bytes s = 0.
Proof. intros [Hc _] E. unfold pending in Hc. by rewrite E in Hc. Qed.

Lemma unfinished_waits (c : Conn sock) :
  side_ok (client c) -> side_ok (server c) -> finished c = false ->
  flags_empty (flags c true) && flags_empty (flags c false) = false.
Proof.
  intros Oc Os. pose proof (side_empty _ Oc). pose proof (side_empty _ Os). unfold finished, flags.
  assert (0 <? MAX_QUEUE = true) as Hq by done.
  destruct (bool_decide_reflect (outq (client c) = [])) as [E1|E1]; cbn [negb].
  2: { intros _. by destruct (_ && _ && _). }
  destruct (bool_decide_reflect (outq (server c) = [])) as [E2|E2]; cbn [negb].
  - rewrite H3, H4, Hq by done. destruct (broken c), (closing c), (eof (client c)), (eof (server c)); done.
  - intros _. destruct (negb (closing c) && negb (eof (client c)) && _), (negb (closing c) && negb (eof (server c)) && _); done.
Qed.

(** What one round of sending leaves of a side. *)
Definition sent_some (s s' : Side sock) (log log' : list (event sock)) : Prop :=
  side_ok s' /\ same_input s s' /\ exists more, log' = log ++ more /\
    Forall (fun e => exists b f, e = ESend (fd s) b f) more /\
    pending s = sent (fd s) more ++ pending s' /\ pending_fds s = sent_fds (fd s) more ++ pending_fds s'.

Lemma flush_side_spec (s : Side sock) (w : W) log b s' w' log' :
  side_ok s -> flush_side s (w, log) = (b, s', (w', log')) -> sent_some s s' log log'.
Proof.
  intros Hs. unfold flush_side. case_bool_decide.
  { intros [= <- <- <- <-]. split_and!; [done|by split_and!|]. exists []. by rewrite app_nil_r. }
  unfold flush. destruct (flush_loop_total (flush_fuel s) s ((w, log) : LW) Hs) as [[[r s1] [w1 log1]] Hr].
  { pose proof (pending_le s). unfold flush_fuel. lia. }
  rewrite Hr. cbn. intros [= <- <- <- <-]. by eapply flush_loop_spec.
Qed.

(** ** One message *)

(** A message that came in: its bytes, the descriptors it took, and what was
    queued for the other side, if it was forwarded. *)
Record Carried := mkCarried { c_in : bytes; c_taken : list Z; c_out : option bytes }.

Definition out_of (k : Carried) : bytes := default [] (c_out k).
Definition fds_of (k : Carried) : list Z := match c_out k with Some _ => c_taken k | None => [] end.

(** The arguments it is forwarded with: its own, but for the version of an
    advertisement the tables describe at a lower one. *)
Definition reworded (fc : bool) (a a' : list Arg) : Prop :=
  a' = a \/ fc = false /\ exists name i v rest known,
    a = Uint name :: String_ (Some i) :: Uint v :: rest /\ lookup_iface i = Some known /\ version known < v /\
    a' = Uint name :: String_ (Some i) :: Uint (version known) :: rest.

(** One whole message of the sender, by the tables, and, when it is forwarded,
    as many bytes that say the same. *)
Definition carried_ok (fc : bool) (k : Carried) : Prop :=
  exists h iface msg a,
    Header.decode (c_in k) = Ok h /\ message iface fc (Header.opcode h) = Some msg /\
    decode (c_in k) (m_args msg) = Ok (a, len (c_in k)) /\ len (c_taken k) = fd_count (m_args msg) /\
    forall d, c_out k = Some d -> exists a', reworded fc a a' /\
      encode (Header.object h) (Header.opcode h) a' = Ok d /\ len d = len (c_in k).

Lemma reworded_len fc o op a a' d d' :
  reworded fc a a' -> encode o op a = Ok d -> encode o op a' = Ok d' -> len d' = len d.
Proof.
  intros [->|(_ & name & i & v & rest & known & -> & _ & _ & ->)]; [by intros -> [= ->]|].
  intros (e & He & _ & ->)%encode_ok (e' & He' & _ & ->)%encode_ok. rewrite !len_app, !len_header.
  cbn [encode_args encode_arg] in He, He'.
  destruct (put_bytes (i ++ [NUL])) as [t|]; [|done]. destruct (encode_args rest) as [r|]; [|done].
  cbn in He, He'. injection He as <-. injection He' as <-. rewrite !len_app, !len_ne. done.
Qed.

Lemma next_message_some fc st rest h iface msg a n :
  next_message fc st rest = Ok (Some (h, iface, msg, a, n)) ->
  Header.decode rest = Ok h /\ message iface fc (Header.opcode h) = Some msg /\
  decode rest (m_args msg) = Ok (a, n) /\ 8 <= n <= len rest.
Proof.
  unfold next_message. destruct (Header.decode rest) as [h'|[]] eqn:Eh; try done. destruct (_ <? _); [done|].
  intros (i & _ & Hr)%bind_ok. apply bind_ok in Hr as (m & Hm%ok_or_ok & Hr).
  apply bind_ok in Hr as ([a' n'] & Hd & Hr). injection Hr as -> -> -> -> ->.
  destruct (decode rest (m_args msg)) as [[a1 n1]|] eqn:Ed; [|done]. injection Hd as -> ->.
  apply decode_prefix in Ed as Hp. destruct Hp as (Hn & _). done.
Qed.

(** Nothing but closing descriptors is done to the outside while messages are
    judged. *)
Definition only_closes (log log' : list (event sock)) : Prop :=
  exists more, log' = log ++ more /\ Forall (fun e => exists f, e = EClose f) more.

Lemma only_closes_refl log : only_closes log log.
Proof. exists []. by rewrite app_nil_r. Qed.
Lemma only_closes_one log f : only_closes log (log ++ [EClose f]).
Proof. exists [EClose f]. split; [done|]. constructor; [by eexists|done]. Qed.
Lemma only_closes_trans a b c : only_closes a b -> only_closes b c -> only_closes a c.
Proof.
  intros (m & -> & Hm) (m' & -> & Hm'). exists (m ++ m'). rewrite app_assoc. split; [done|]. by apply Forall_app.
Qed.

(** What judging the messages [ms] does to the two sides; [err] is a refusal
    queued for the sender. *)
Record pumped (fc : bool) (p p' : @Pump sock) (ms : list Carried) (err : bytes) : Prop := {
  pd_taken : s_fds (src p) = concat (map c_taken ms) ++ s_fds (src p');
  pd_dst : pending (dst p') = pending (dst p) ++ concat (map out_of ms);
  pd_dst_fds : pending_fds (dst p') = pending_fds (dst p) ++ concat (map fds_of ms);
  pd_dst_same : same_input (dst p) (dst p');
  pd_src : pending (src p') = pending (src p) ++ err;
  pd_src_fds : pending_fds (src p') = pending_fds (src p);
  pd_src_same : fd (src p') = fd (src p) /\ buf (src p') = buf (src p) /\ eof (src p') = eof (src p);
  pd_ok : side_ok (src p) -> side_ok (dst p) -> side_ok (src p') /\ side_ok (dst p');
  pd_closing : p_closing p = true \/ err <> [] -> p_closing p' = true;
  pd_carried : Forall (carried_ok fc) ms;
  pd_refused : fc = false -> err = [];
}.

Lemma same_input_refl (s : Side sock) : same_input s s.
Proof. done. Qed.
Lemma same_input_trans (a b c : Side sock) : same_input a b -> same_input b c -> same_input a c.
Proof. unfold same_input. intuition congruence. Qed.

Lemma pumped_refl fc p : pumped fc p p [] [].
Proof. constructor; rewrite ?app_nil_r; try done. by intros [?|?]. Qed.

Lemma pumped_trans fc a b c ms ms' err err' :
  pumped fc a b ms err -> pumped fc b c ms' err' -> pumped fc a c (ms ++ ms') (err ++ err').
Proof.
  intros [T1 D1 F1 S1 E1 G1 (X1 & Y1 & Z1) O1 C1 K1 R1] [T2 D2 F2 S2 E2 G2 (X2 & Y2 & Z2) O2 C2 K2 R2].
  constructor; rewrite ?map_app, ?concat_app.
  - by rewrite T1, T2, app_assoc.
  - by rewrite D2, D1, app_assoc.
  - by rewrite F2, F1, app_assoc.
  - by eapply same_input_trans.
  - by rewrite E2, E1, app_assoc.
  - by rewrite G2, G1.
  - by rewrite X2, Y2, Z2.
  - intros Ha Hb. destruct (O1 Ha Hb). auto.
  - intros [Hc|He]; [auto|]. destruct (decide (err = [])) as [->|Hn]; [apply C2; by right|auto].
  - by apply Forall_app.
  - intros Hfc. by rewrite (R1 Hfc), (R2 Hfc).
Qed.

(** Only a client is refused. *)
Lemma event_not_refused p msg c audit now error :
  action (apply p msg c audit now) = Ok (Refuse error) -> from_client msg = true.
Proof.
  unfold apply, is_bind. destruct (from_client msg) eqn:Ef; [done|]. cbn [andb].
  destruct (WlPolicy.event p msg c now) as [[[[a m] c'] p'] cl] eqn:E.
  apply event_passed in E as [[(-> & _)|(-> & _)]%passed_inv _]; [| |done].
  - rewrite bool_decide_true by done. by destruct (account m c').
  - by rewrite bool_decide_false by done.
Qed.

(** One message: it is carried, or refused. *)
Lemma pump_one_spec fc now st rest m (p : Pump) (w : W) log p' w' log' :
  p_state p = st -> next_message fc st rest = Ok (Some m) ->
  pump_one fc now m p (w, log) = (Ok tt, p', (w', log')) ->
  8 <= m.2 <= len rest /\ only_closes log log' /\
  exists k err, c_in k = upto rest m.2 /\ pumped fc p p' [k] err.
Proof.
  intros <- Hn. destruct m as [[[[h iface] msg] a] n]. apply next_message_some in Hn as (Hh & Hm & Hd & Hsz).
  apply decode_prefix in Hd as Hp. destruct Hp as (_ & Hhp & Hdp). rewrite Hh in Hhp.
  assert (len (upto rest n) = n) as Hl by (apply len_upto; lia).
  unfold pump_one. set (owed := fd_count (m_args msg)).
  destruct (Z.ltb_spec (len (s_fds (src p))) owed) as [|Ho]; [done|].
  assert (0 <= owed) as Ho' by apply len_nonneg.
  set (inc := mkIncoming _ _ _ _ _ _ _).
  destruct (apply_left (p_policy p) inc (p_state p) (p_audit p) now) as [Hleft _].
  pose proof (event_not_refused (p_policy p) inc (p_state p) (p_audit p) now) as Href.
  set (j := apply _ _ _ _ _) in *. clearbody j. unfold msg_left in Hleft.
  set (taken := upto (s_fds (src p)) owed) in *.
  assert (len taken = owed) as Ht by (apply len_upto; lia).
  assert (forall d, (forall x, d = Some x -> exists a', reworded fc a a' /\
      encode (Header.object h) (Header.opcode h) a' = Ok x /\ len x = n) ->
    carried_ok fc (mkCarried (upto rest n) taken d)) as Hk.
  { intros d Hx. exists h, iface, msg, a. cbn [c_in c_taken c_out]. rewrite Hl. done. }
  assert (s_fds (src p) = (taken ++ []) ++ from (s_fds (src p)) owed) as Hsplit by (rewrite app_nil_r; symmetry; apply upto_from).
  set (s1 := set_fds (src p) (from (s_fds (src p)) owed)) in *.
  cbn [close logged snd]. intros Hr. split; [done|].
  destruct (action j) as [[| |error]|e] eqn:Ea; [| | |done]; cbn [p_policy p_audit p_state p_closing src dst] in Hr.
  - destruct Hleft as [Hcl Hclosed].
    destruct (encode _ _ (args (j_msg j))) as [d|] eqn:Ee; [|done]. injection Hr as <- <- <-.
    assert (reworded fc a (args (j_msg j))) as Hrw.
    { destruct Hcl as [|name i v known r Hf Hi Hg Hargs Hlk Hv]; [by left|right]. split; [done|].
      by exists name, i, v, r, known. }
    destruct (decode_encode _ _ _ _ Hd) as (h' & d0 & Hh' & _ & _ & Hd0 & Hl0 & _). rewrite Hh in Hh'. injection Hh' as <-.
    assert (len d = n) as Hld by (rewrite (reworded_len _ _ _ _ _ _ _ Hrw Hd0 Ee); done).
    rewrite Hclosed, (clamped_fds _ _ Hcl). split; [apply only_closes_one|].
    exists (mkCarried (upto rest n) taken (Some d)), []. split; [done|].
    constructor; cbn [src dst map concat c_taken out_of fds_of default c_out p_closing]; rewrite ?pending_push, ?pending_fds_push, ?app_nil_r; try done.
    + by rewrite app_nil_r in Hsplit.
    + intros [Hs Hf] Hds. split; [by constructor|]. apply push_ok; [done|lia].
    + by intros [?|?].
    + constructor; [|done]. apply Hk. intros x [= <-]. by exists (args (j_msg j)).
  - injection Hr as <- <- <-. split; [apply only_closes_one|].
    exists (mkCarried (upto rest n) taken None), []. split; [done|].
    constructor; cbn; rewrite ?app_nil_r; try done.
    + by rewrite app_nil_r in Hsplit.
    + intros [Hs Hf] Hds. split; [by constructor|done].
    + by intros [?|?].
    + constructor; [|done]. by apply Hk.
  - injection Hr as <- <- <-. split; [eapply only_closes_trans; apply only_closes_one|].
    exists (mkCarried (upto rest n) taken None), error. split; [done|].
    assert (fc = false -> error = []) as Hnr by (intros ->; by specialize (Href error eq_refl)).
    destruct (bool_decide_reflect (error = [])) as [->|Hne]; cbn [negb].
    + constructor; cbn; rewrite ?app_nil_r; try done.
      * by rewrite app_nil_r in Hsplit.
      * intros [Hs Hf] Hds. split; [by constructor|done].
      * constructor; [|done]. by apply Hk.
    + constructor; cbn [src dst map concat c_taken out_of fds_of default c_out p_closing]; rewrite ?pending_push, ?pending_fds_push, ?app_nil_r; try done.
      * by rewrite app_nil_r in Hsplit.
      * intros [Hs Hf] Hds. split; [|done]. apply push_ok; [by constructor|]. destruct error; [done|]. len_lia.
      * constructor; [|done]. by apply Hk.
Qed.

(** No whole message is at the front. *)
Definition partial (b : bytes) : Prop :=
  Header.decode b = Err NeedMore \/ exists h, Header.decode b = Ok h /\ len b < Header.size h.

Lemma next_message_none fc st b : next_message fc st b = Ok None -> partial b.
Proof.
  unfold next_message, partial. destruct (Header.decode b) as [h|[]]; try done; [|by left].
  destruct (Z.ltb_spec (len b) (Header.size h)); [right; by exists h|].
  intros (i & _ & Hr)%bind_ok. apply bind_ok in Hr as (m & _ & Hr). by apply bind_ok in Hr as ([a n] & _ & Hr).
Qed.

Lemma partial_short b : partial b -> len b < 65535.
Proof.
  intros [Hd|(h & Hd & Hl)].
  - unfold Header.decode in Hd. destruct (slice b 0 HEADER) as [s|] eqn:E.
    + destruct (_ || _); done.
    + apply slice_none in E; unfold HEADER in *; lia.
  - apply header_ok in Hd as (_ & _ & Hs & _). unfold U16_MAX in Hs. lia.
Qed.

Lemma pump_loop_spec fc now fuel : forall at_ (p : Pump) (w : W) log at' p' w' log',
  0 <= at_ <= len (buf (src p)) -> len (buf (src p)) - at_ < Z.of_nat fuel ->
  pump_loop fuel fc now at_ p (w, log) = (Ok at', p', (w', log')) ->
  exists ms err, pumped fc p p' ms err /\ only_closes log log' /\ at_ <= at' <= len (buf (src p)) /\
    from (buf (src p)) at_ = concat (map c_in ms) ++ from (buf (src p)) at' /\
    (p_closing p' = false -> partial (from (buf (src p)) at')).
Proof.
  induction fuel as [|fuel IH]; intros at_ p w log at' p' w' log' Ha Hf; [lia|]. cbn [pump_loop].
  destruct (p_closing p) eqn:Ec.
  { intros [= <- <- <- <-]. exists [], []. split_and!; try done; try lia; [apply pumped_refl|apply only_closes_refl|congruence]. }
  destruct (next_message fc (p_state p) _) as [[m|]|] eqn:En; [| |done].
  2: { intros [= <- <- <- <-]. apply next_message_none in En. exists [], [].
       split_and!; try done; try lia; [apply pumped_refl|apply only_closes_refl]. }
  destruct (pump_one fc now m p (w, log)) as [[[[]|e] p1] [w1 log1]] eqn:Eo; [|done].
  destruct (pump_one_spec _ _ _ _ _ _ _ _ _ _ _ eq_refl En Eo) as (Hn & Hc & k & err & Hk & Hp).
  destruct (pd_src_same _ _ _ _ _ Hp) as (_ & Hb & _). rewrite len_from in Hn by lia.
  intros Hr. apply IH in Hr as (ms & err' & Hp' & Hc' & Hat & Hbuf & Hpart); rewrite Hb in *; [|lia|lia].
  exists (k :: ms), (err ++ err'). split; [by apply (pumped_trans fc p p1 p' [k] ms err err')|].
  split; [by eapply only_closes_trans|]. split; [lia|]. split; [|done].
  cbn [map concat]. rewrite <-app_assoc, <-Hbuf, Hk.
  rewrite <-(upto_from (from (buf (src p)) at_) m.2) at 1. f_equal. unfold from. rewrite drop_drop. f_equal. lia.
Qed.

(** ** One side's reading *)

(** What [receive] does. *)
Lemma receive_spec (s : Side sock) (w : W) log s' w' log' :
  receive s (w, log) = (Ok tt, s', (w', log')) ->
  fd s' = fd s /\ outq s' = outq s /\ out_bytes s' = out_bytes s /\ len (buf s') <= len (buf s) + want (buf s) /\
  exists b f, buf s' = buf s ++ b /\ s_fds s' = s_fds s ++ f /\
    ((b = [] /\ f = [] /\ log' = log) \/ exists c, log' = log ++ [ERecv (fd s) (mkReceived b f c)]).
Proof.
  assert (0 <= want (buf s)) as Hw.
  { unfold want, CHUNK. destruct (Header.decode (buf s)); lia. }
  unfold receive. cbn. pose proof (recvmsg_len (fd s) (want (buf s)) w) as Hlen.
  destruct (recvmsg (fd s) (want (buf s)) w) as [[r|e] w1].
  - specialize (Hlen _ _ Hw eq_refl). set (s2 := set_fds _ _).
    assert (fd s2 = fd s /\ outq s2 = outq s /\ out_bytes s2 = out_bytes s /\ buf s2 = buf s ++ r_bytes r /\ s_fds s2 = s_fds s ++ r_fds r)
      as (E1 & E2 & E3 & E4 & E5) by (unfold s2; destruct (_ =? _); done).
    clearbody s2. destruct (r_ctrunc r) eqn:Er; [done|]. destruct (_ >? _); [done|]. intros [= <- <- <-].
    rewrite E4, len_app. split_and!; [done|done|done|lia|]. exists (r_bytes r), (r_fds r). split_and!; [done|done|]. right.
    exists (r_ctrunc r). by destruct r.
  - destruct e; intros [= <- <- <-]; cbn; (split_and!; [done|done|done|lia|]); exists [], []; rewrite !app_nil_r; (split_and!; [done|done|by left]).
Qed.

(** ** The two directions *)

(** What is known of a direction after [log]: [ms] were read from [s] and queued
    for [d], in order, with [err] behind them. *)
Record dir_inv (fc : bool) (s d : Side sock) (log : list (event sock)) (ms : list Carried) (err : bytes) : Prop := {
  di_got : got (fd s) log = concat (map c_in ms) ++ buf s;
  di_got_fds : got_fds (fd s) log = concat (map c_taken ms) ++ s_fds s;
  di_sent : sent (fd d) log ++ pending d = concat (map out_of ms) ++ err;
  di_sent_fds : sent_fds (fd d) log ++ pending_fds d = concat (map fds_of ms);
  di_carried : Forall (carried_ok fc) ms;
}.

Definition conn_inv (cs ss : sock) (c : Conn sock) (log : list (event sock)) : Prop :=
  fd (client c) = cs /\ fd (server c) = ss /\ side_ok (client c) /\ side_ok (server c) /\
  (closing c = false -> partial (buf (client c)) /\ partial (buf (server c))) /\
  exists up down err, dir_inv true (client c) (server c) log up [] /\
    dir_inv false (server c) (client c) log down err /\ (closing c = false -> err = []).

Lemma closes_quiet log log' s : only_closes log log' ->
  got s log' = got s log /\ got_fds s log' = got_fds s log /\ sent s log' = sent s log /\ sent_fds s log' = sent_fds s log.
Proof.
  intros (more & -> & Hm). assert (forallb (fun e => negb (touches s e)) more = true) as Hu.
  { apply forallb_spec. eapply Forall_impl; [exact Hm|]. by intros e (f & ->). }
  apply untouched in Hu as (E1 & E2 & E3 & E4).
  by rewrite got_app, got_fds_app, sent_app, sent_fds_app, E1, E2, E3, E4, !app_nil_r.
Qed.

Lemma recv_log (s : sock) log b f c (s' : sock) :
  let log' := log ++ [ERecv s (mkReceived b f c)] in
  got s' log' = got s' log ++ (if decide (s = s') then b else []) /\
  got_fds s' log' = got_fds s' log ++ (if decide (s = s') then f else []) /\
  sent s' log' = sent s' log /\ sent_fds s' log' = sent_fds s' log.
Proof.
  cbn zeta. unfold got, got_fds, sent, sent_fds. rewrite !gather_app. unfold gather. cbn. rewrite !app_nil_r. done.
Qed.

(** [pump], for the side it reads and the side it feeds. *)
Lemma pump_dirs fc now (s d s1 : Side sock) st cl pol au (w : W) log w1 log1 at_ p' w' log' ms ms' err :
  fd s <> fd d -> side_ok s -> side_ok d ->
  dir_inv fc s d log ms [] -> dir_inv (negb fc) d s log ms' err -> (fc = true -> err = []) ->
  receive s (w, log) = (Ok tt, s1, (w1, log1)) ->
  pump_loop (S (length (buf s1))) fc now 0 (mkPump s1 d st cl pol au) (w1, log1) = (Ok at_, p', (w', log')) ->
  let s' := set_buf (src p') (from (buf (src p')) at_) in
  fd s' = fd s /\ fd (dst p') = fd d /\ buf (dst p') = buf d /\ side_ok s' /\ side_ok (dst p') /\
  (cl = true -> p_closing p' = true) /\ (p_closing p' = false -> partial (buf s')) /\
  exists new err', dir_inv fc s' (dst p') log' (ms ++ new) [] /\
    dir_inv (negb fc) (dst p') s' log' ms' (err ++ err') /\ (p_closing p' = false -> err' = []) /\ (fc = false -> err' = []).
Proof.
  intros Hne Hs Hd [G1 F1 S1 P1 K1] [G2 F2 S2 P2 K2] Herr Hr Hl s'.
  apply receive_spec in Hr as (Hfd & Hq & Hob & _ & b & f & Hbuf & Hfds & Hlog).
  apply pump_loop_spec in Hl as (new & err' & Hp & Hc & Hat & Hcut & Hpart); [|cbn; unfold len; lia|cbn; unfold len; lia].
  destruct Hp as [T D F Sm E G (X & Y & Z_) O C K R]. cbn [src dst p_closing] in *.
  destruct Sm as (Sm1 & Sm2 & Sm3 & Sm4).
  assert (got (fd s) log1 = got (fd s) log ++ b /\ got_fds (fd s) log1 = got_fds (fd s) log ++ f /\
    got (fd d) log1 = got (fd d) log /\ got_fds (fd d) log1 = got_fds (fd d) log /\
    forall x, sent x log1 = sent x log /\ sent_fds x log1 = sent_fds x log) as (L1 & L2 & L3 & L4 & L5).
  { destruct Hlog as [(-> & -> & ->)|(c & ->)]; [by rewrite !app_nil_r|].
    destruct (recv_log (fd s) log b f c (fd s)) as (-> & -> & _). destruct (recv_log (fd s) log b f c (fd d)) as (-> & -> & _).
    rewrite !decide_True, !decide_False, !app_nil_r by done. split_and!; try done.
    intros x. by destruct (recv_log (fd s) log b f c x) as (_ & _ & -> & ->). }
  assert (side_ok s1) as Hs1.
  { destruct Hs as [Hc1 Hf1]. constructor; [rewrite Hob, Hc1; unfold pending; by rewrite Hq|by rewrite Hq]. }
  assert (pending s1 = pending s /\ pending_fds s1 = pending_fds s) as [Hps Hpf] by (unfold pending, pending_fds; by rewrite Hq).
  destruct (O Hs1 Hd) as [Os Od].
  assert (fd s' = fd s) as Hfs' by (cbn; by rewrite X, Hfd).
  assert (pending s' = pending (src p') /\ pending_fds s' = pending_fds (src p')) as [Hp1 Hp2] by done.
  rewrite from_0 in Hcut.
  destruct (closes_quiet _ _ (fd s) Hc) as (Q1 & Q2 & Q3 & Q4). destruct (closes_quiet _ _ (fd d) Hc) as (Q5 & Q6 & Q7 & Q8).
  destruct (L5 (fd s)) as [L6 L7]. destruct (L5 (fd d)) as [L8 L9].
  split_and!; try done.
  - constructor; [apply Os|apply Os].
  - intros ->. apply C. by left.
  - intros Hcl. cbn [buf s' set_buf]. rewrite Y. by apply Hpart.
  - exists new, err'. split; [|split; [|split]].
    + constructor; rewrite ?map_app, ?concat_app.
      * rewrite Hfs', Q1, L1, G1, <-!app_assoc, <-Hbuf. cbn [buf s' set_buf]. rewrite Y. by rewrite <-Hcut.
      * rewrite Hfs', Q2, L2, F1, <-!app_assoc, <-Hfds. cbn [s_fds s' set_buf]. by rewrite <-T.
      * rewrite Sm1, Q7, L8, D, app_assoc, S1, !app_nil_r. done.
      * rewrite Sm1, Q8, L9, F, app_assoc, P1. done.
      * by apply Forall_app.
    + constructor.
      * by rewrite Sm1, Sm2, Q5, L3.
      * by rewrite Sm1, Sm3, Q6, L4.
      * rewrite Hfs', Hp1, Q3, L6, E, Hps, !app_assoc, S2. done.
      * rewrite Hfs', Hp2, Q4, L7, G, Hpf. done.
      * done.
    + intros Hcl. destruct (decide (err' = [])) as [|Hn]; [done|]. rewrite C in Hcl by (by right). done.
    + done.
Qed.

(** ** One round of service *)

Context (cs ss : sock) (Hne : cs <> ss).

Lemma pump_inv fc now (c : Conn sock) pol au (w : W) log c' pol' au' w' log' :
  conn_inv cs ss c log -> closing c = false -> pump fc c pol au now (w, log) = (Ok tt, c', pol', au', (w', log')) ->
  conn_inv cs ss c' log'.
Proof.
  intros (Hc & Hs & Oc & Os & Hpart & up & down & err & Dup & Ddown & He) Hcl.
  specialize (He Hcl) as ->. destruct (Hpart Hcl) as [Pc Ps]. unfold pump. rewrite Hcl. destruct fc.
  - destruct (receive (client c) (w, log)) as [[[[]|e] s1] [w1 log1]] eqn:Er; [|done].
    destruct (pump_loop _ true now 0 _ _) as [[[at_|e] p'] [w2 log2]] eqn:El; [|done]. intros [= <- <- <- <- <-].
    eapply (pump_dirs true now (client c) (server c)) in El as (F1 & F2 & B2 & O1 & O2 & _ & Hp & new & err' & D1 & D2 & E1 & _);
      try done; [|congruence].
    unfold conn_inv. cbn [client server closing]. split_and!; try done; [congruence..| |].
    + intros Hx. split; [by apply Hp|by rewrite B2].
    + by exists (up ++ new), down, err'.
  - destruct (receive (server c) (w, log)) as [[[[]|e] s1] [w1 log1]] eqn:Er; [|done].
    destruct (pump_loop _ false now 0 _ _) as [[[at_|e] p'] [w2 log2]] eqn:El; [|done]. intros [= <- <- <- <- <-].
    eapply (pump_dirs false now (server c) (client c)) in El as (F1 & F2 & B2 & O1 & O2 & _ & Hp & new & err' & D1 & D2 & _ & E1);
      try done; [|congruence].
    rewrite (E1 eq_refl) in D2.
    unfold conn_inv. cbn [client server closing]. split_and!; try done; [congruence..| |].
    + intros Hx. split; [by rewrite B2|by apply Hp].
    + by exists up, (down ++ new), [].
Qed.

(** Sending on one side leaves the direction the other way alone, and moves
    bytes of its own from the queue to the log. *)
Lemma sent_dirs fc (s d d' : Side sock) log log' ms ms' err err' :
  fd s <> fd d -> sent_some d d' log log' ->
  dir_inv fc s d log ms err -> dir_inv (negb fc) d s log ms' err' ->
  dir_inv fc s d' log' ms err /\ dir_inv (negb fc) d' s log' ms' err'.
Proof.
  intros Hfd (_ & (E1 & E2 & E3 & _) & more & -> & Hm & Hp & Hpf) [G1 F1 S1 P1 K1] [G2 F2 S2 P2 K2].
  assert (got (fd s) more = [] /\ got_fds (fd s) more = [] /\ sent (fd s) more = [] /\ sent_fds (fd s) more = []) as (U1 & U2 & U3 & U4).
  { apply untouched, forallb_spec. eapply Forall_impl; [exact Hm|]. intros e (b & f & ->). cbn. by rewrite bool_decide_false. }
  assert (got (fd d) more = [] /\ got_fds (fd d) more = []) as (U5 & U6).
  { clear -Hm. unfold got, got_fds, gather. induction Hm as [|e more (b & f & ->) _ [IH1 IH2]]; done. }
  split; constructor; rewrite ?E1, ?E2, ?E3.
  - by rewrite got_app, U1, app_nil_r.
  - by rewrite got_fds_app, U2, app_nil_r.
  - by rewrite sent_app, <-app_assoc, <-Hp.
  - by rewrite sent_fds_app, <-app_assoc, <-Hpf.
  - done.
  - by rewrite got_app, U5, app_nil_r.
  - by rewrite got_fds_app, U6, app_nil_r.
  - by rewrite sent_app, U3, app_nil_r.
  - by rewrite sent_fds_app, U4, app_nil_r.
  - done.
Qed.

Lemma flush_both_inv (c : Conn sock) (w : W) log c' w' log' :
  conn_inv cs ss c log -> flush_both c (w, log) = (c', (w', log')) -> conn_inv cs ss c' log' /\ closing c' = closing c.
Proof.
  intros (Hc & Hs & Oc & Os & Hpart & up & down & err & Dup & Ddown & He). unfold flush_both.
  destruct (flush_side (server c) (w, log)) as [[b1 s1] [w1 log1]] eqn:E1.
  destruct (flush_side (client c) (w1, log1)) as [[b2 c1] [w2 log2]] eqn:E2. intros [= <- <- <-].
  apply flush_side_spec in E1 as S1; [|done]. apply flush_side_spec in E2 as S2; [|done].
  destruct S1 as (O1 & (A1 & A2 & A3 & A4) & M1). destruct S2 as (O2 & (B1 & B2 & B3 & B4) & M2).
  destruct (sent_dirs true (client c) (server c) s1 log log1 up down [] err) as [Dup' Ddown']; [congruence|by split_and!|done|done|].
  destruct (sent_dirs false s1 (client c) c1 log1 log2 down up err []) as [Ddown'' Dup'']; [congruence|by split_and!|done|done|].
  split; [|done]. unfold conn_inv. cbn [client server closing]. split_and!; try done; [congruence..| |].
  - intros Hx. rewrite A2, B2. by apply Hpart.
  - by exists up, down, err.
Qed.

Lemma service_inv (c : Conn sock) f1 f2 pol au now (w : W) log c' pol' au' w' log' :
  conn_inv cs ss c log -> service c f1 f2 pol au now (w, log) = (Ok tt, c', pol', au', (w', log')) ->
  conn_inv cs ss c' log'.
Proof.
  intros Hi. unfold service.
  destruct (if _ && _ then pump true c pol au now (w, log) else _) as [[[[r1 c1] p1] a1] [w1 log1]] eqn:E1.
  destruct r1 as [[]|]; [|done].
  assert (conn_inv cs ss c1 log1) as Hi1.
  { destruct (_ && _) eqn:Eb in E1; [|by injection E1 as <- <- <- <- <-]. bool_to_prop. by eapply pump_inv. }
  destruct (if _ && _ then pump false c1 p1 a1 now (w1, log1) else _) as [[[[r2 c2] p2] a2] [w2 log2]] eqn:E2.
  destruct r2 as [[]|]; [|done].
  assert (conn_inv cs ss c2 log2) as Hi2.
  { destruct (_ && _) eqn:Eb in E2; [|by injection E2 as <- <- <- <- <-]. bool_to_prop. by eapply pump_inv. }
  destruct (flush_both c2 (w2, log2)) as [c3 [w3 log3]] eqn:E3. intros [= <- <- <- <- <-].
  by eapply flush_both_inv.
Qed.

(** ** Reachability *)

(** A connection between the sockets [cs] and [ss], and the log so far. *)
Inductive served : Conn sock -> list (event sock) -> Prop :=
| served_new : served (new_conn cs ss) []
| served_other c log more :
    served c log -> forallb (fun e => negb (touches cs e) && negb (touches ss e)) more = true ->
    served c (log ++ more)
| served_round c log f1 f2 pol au now (w : W) c' pol' au' w' log' :
    served c log -> service c f1 f2 pol au now (w, log) = (Ok tt, c', pol', au', (w', log')) ->
    served c' log'.

Lemma conn_inv_new : conn_inv cs ss (new_conn cs ss) [].
Proof.
  assert (partial []) as Hp by (left; reflexivity).
  unfold conn_inv. split_and!; try done; [apply new_side_ok..|]. exists [], [], []. by split_and!.
Qed.

Lemma conn_inv_other c log more :
  conn_inv cs ss c log -> forallb (fun e => negb (touches cs e) && negb (touches ss e)) more = true ->
  conn_inv cs ss c (log ++ more).
Proof.
  intros (<- & <- & Oc & Os & Hpart & up & down & err & [G1 F1 S1 P1 K1] & [G2 F2 S2 P2 K2] & He) Hm.
  assert (forall s, s = fd (client c) \/ s = fd (server c) -> got s more = [] /\ got_fds s more = [] /\ sent s more = [] /\ sent_fds s more = []) as Hu.
  { intros s Hs. apply untouched, forallb_spec. apply forallb_spec in Hm. eapply Forall_impl; [exact Hm|].
    intros e [??]%andb_true_iff. by destruct Hs as [-> | ->]. }
  destruct (Hu (fd (client c))) as (U1 & U2 & U3 & U4); [by left|].
  destruct (Hu (fd (server c))) as (U5 & U6 & U7 & U8); [by right|].
  unfold conn_inv. split_and!; try done. exists up, down, err.
  split_and!; [constructor|constructor|done];
    rewrite ?got_app, ?got_fds_app, ?sent_app, ?sent_fds_app, ?U1, ?U2, ?U3, ?U4, ?U5, ?U6, ?U7, ?U8, ?app_nil_r; first [done|by rewrite app_nil_r in S1].
Qed.

Lemma served_inv c log : served c log -> conn_inv cs ss c log.
Proof.
  induction 1; [apply conn_inv_new|by apply conn_inv_other|by eapply service_inv].
Qed.

(** ** Properties *)

(** C13. What the relay carries: after any rounds of service, whatever the other
    connections do in between, the bytes read from the client are whole messages
    by the tables and then a part of one; each takes the descriptors its
    signature owes it, in the order they came; and what has gone to the
    compositor and is queued for it are, in order, the messages that were
    forwarded, each as many bytes as it came in, saying what it said, with the
    descriptors it took.  The other way it is the same, and nothing but the
    error of a refusal, once the connection is closing, comes behind it. *)
Theorem relay_carries_messages c log : served c log ->
  exists up down err,
    (got cs log = concat (map c_in up) ++ buf (client c) /\
     got_fds cs log = concat (map c_taken up) ++ s_fds (client c) /\
     sent ss log ++ pending (server c) = concat (map out_of up) /\
     sent_fds ss log ++ pending_fds (server c) = concat (map fds_of up) /\
     Forall (carried_ok true) up) /\
    (got ss log = concat (map c_in down) ++ buf (server c) /\
     got_fds ss log = concat (map c_taken down) ++ s_fds (server c) /\
     sent cs log ++ pending (client c) = concat (map out_of down) ++ err /\
     sent_fds cs log ++ pending_fds (client c) = concat (map fds_of down) /\
     Forall (carried_ok false) down) /\
    (closing c = false -> err = [] /\ partial (buf (client c)) /\ partial (buf (server c))).
Proof.
  intros (Hc & Hs & _ & _ & Hp & up & down & err & [G1 F1 S1 P1 K1] & [G2 F2 S2 P2 K2] & He)%served_inv.
  rewrite app_nil_r in *. rewrite Hc, Hs in *. exists up, down, err. split_and!; try done. intros Hx. split; [by apply He|by apply Hp].
Qed.

(** No connection is ever stuck: one that is not finished waits for something
    on one of its sides, so the poll array has an entry for it. *)
Theorem relay_waits_for_something c log :
  served c log -> finished c = false -> flags_empty (flags c true) && flags_empty (flags c false) = false.
Proof. intros (_ & _ & Oc & Os & _)%served_inv. by apply unfinished_waits. Qed.

End Streams.

(** A system for the witnesses: what is to be read, in order, and a kernel that
    takes five bytes at a time. *)
Definition demo_unix : Unix (list (nat * Received)) nat := {|
  instant_now w := (0, w);
  recvmsg s n w := match w with
    | (s', r) :: w' => if decide (s' = s) then (Ok (mkReceived (upto (r_bytes r) n) (r_fds r) (r_ctrunc r)), w') else (Err AGAIN, w)
    | [] => (Err AGAIN, w)
    end;
  sendmsg s b f w := (Ok (Z.min (len b) 5), w);
  close f w := w;
  poll_unix fds t w := (Ok (map (fun _ => mkFlags true true false false) fds), w);
  accept_with s w := match w with [] => (Err AGAIN, w) | _ :: w => (Ok 7%nat, w) end;
  socket_with w := (Ok 8%nat, w);
  socket_addr b := Ok b;
  connect_unix s a w := (Ok tt, w);
  errno_text e := B "error" |}.

#[local] Instance demo_unix_laws : @UnixLaws (list (nat * Received)) nat demo_unix.
Proof.
  constructor; intros s.
  - intros n w r w' Hn. cbn. destruct w as [|[s' r0] w]; [done|]. destruct (decide _); [|done]. intros [= <- <-]. cbn [r_bytes].
    unfold upto. rewrite len_take. lia.
  - intros b f w n w' [= <- <-]. pose proof (len_nonneg b). lia.
Qed.

(** [wl_display.get_registry], and the start of another message. *)
Definition demo_request : bytes :=
  match @encode true 1 1 [NewId 2] with Ok b => b | Err _ => [] end.

Definition demo_world : list (nat * Received) * list (event nat) :=
  ([(1%nat, mkReceived (demo_request ++ upto demo_request 6) [33] false)], []).

Definition demo_round :=
  @service demo_tables true _ nat (@logged _ nat demo_unix) (@new_conn demo_tables nat 1%nat 2%nat)
    (mkFlags true false false false) no_flags (new_policy Paste false) new_audit 0 demo_world.

Definition demo_conn : Conn nat := demo_round.1.1.1.2.
Definition demo_log : list (event nat) := demo_round.2.2.

Lemma demo_served : @served demo_tables true _ nat _ demo_unix 1%nat 2%nat demo_conn demo_log.
Proof.
  eapply (served_round 1%nat 2%nat (@new_conn demo_tables nat 1%nat 2%nat) [] (mkFlags true false false false) no_flags
    (new_policy Paste false) new_audit 0 demo_world.1 demo_conn demo_round.1.1.2 demo_round.1.2 demo_round.2.1 demo_log).
  - apply served_new.
  - vm_compute. reflexivity.
Qed.

Lemma flush_returns_witness :
  let s := push (new_side 2%nat) demo_request [] in
  exists r s' w', @flush_loop _ nat demo_unix (flush_fuel s) s [] = Some (r, s', w').
Proof.
  intros s. destruct (@flush_returns _ nat demo_unix demo_unix_laws s []) as (r & s' & w' & Hr & _).
  - apply push_ok; [apply new_side_ok|vm_compute; reflexivity].
  - exists r, s', w'. exact Hr.
Defined.

Lemma relay_carries_messages_witness :
  sent 2%nat demo_log = demo_request /\ len (buf (client demo_conn)) = 6 /\
  exists up, Forall (@carried_ok demo_tables true true) up /\ got 1%nat demo_log = concat (map c_in up) ++ buf (client demo_conn).
Proof.
  split; [vm_compute; reflexivity|]. split; [vm_compute; reflexivity|].
  destruct (@relay_carries_messages demo_tables true _ nat _ demo_unix demo_unix_laws 1%nat 2%nat (Nat.neq_succ_diag_r 1)
    demo_conn demo_log demo_served) as (up & down & err & (Hg & _ & _ & _ & Hc) & _).
  exists up. split; [exact Hc|exact Hg].
Defined.

Lemma relay_waits_for_something_witness :
  flags_empty (flags demo_conn true) && flags_empty (flags demo_conn false) = false.
Proof.
  apply (@relay_waits_for_something demo_tables true _ nat _ demo_unix demo_unix_laws 1%nat 2%nat (Nat.neq_succ_diag_r 1)
    demo_conn demo_log demo_served). vm_compute. reflexivity.
Defined.
