(* ===== verification/WlLoop.v ===== *)
(** The loop of the Wayland relay over every connection: [step] of [relay.rs]
    and what holds of every relay it can reach.

    The statements are over worlds that keep a log, as in [WlStream]; the code
    is written against [Unix] and cannot tell. *)
From S2P Require Import Io.
From S2P Require Export WlStream.

Section Live.
Context {sock : Type}.

Lemma live_of_in (cs : list (Conn sock)) dead i c : (i, c) ∈ live_of cs dead <-> cs !! i = Some c /\ i ∉ dead.
Proof.
  unfold live_of. rewrite list_elem_of_filter, elem_of_lookup_imap. split.
  - intros [Hn (j & d & [= <- <-] & Hj)]. done.
  - intros [Hl Hn]. split; [done|]. by exists i, c.
Qed.

Lemma live_of_len (cs : list (Conn sock)) dead : len (live_of cs dead).*2 <= len cs.
Proof.
  rewrite len_fmap. unfold live_of, len. pose proof (length_filter (fun '(i, _) => i ∉ dead) (imap pair cs)) as Hl.
  rewrite length_imap in Hl. lia.
Qed.

(** ** Who gives way *)

Lemma fattest_fold l : forall (best : option (nat * Conn sock)) x,
  foldl (fun best x => match best with
    | Some b => if queued x.2 >=? queued b.2 then Some x else best
    | None => Some x
    end) best l = Some x ->
  (x ∈ l \/ best = Some x) /\ (forall y, y ∈ l \/ best = Some y -> queued y.2 <= queued x.2).
Proof.
  induction l as [|a l IH]; intros best x; cbn [foldl].
  { intros ->. split; [by right|]. intros y [Hy|[= ->]]; [by apply elem_of_nil in Hy|done]. }
  intros Hf. apply IH in Hf as [Hin Hmax]. destruct best as [b|].
  - rewrite Z.geb_leb in *. destruct (Z.leb_spec (queued b.2) (queued a.2)).
    + split; [destruct Hin as [?|[= ->]]; left; set_solver|]. intros y [[->|Hy]%elem_of_cons|[= <-]].
      * apply Hmax. by right.
      * apply Hmax. by left.
      * etrans; [eassumption|]. apply Hmax. by right.
    + split; [destruct Hin as [?|[= ->]]; [left; set_solver|by right]|]. intros y [[->|Hy]%elem_of_cons|[= <-]].
      * transitivity (queued b.2); [lia|]. apply Hmax. by right.
      * apply Hmax. by left.
      * apply Hmax. by right.
  - split; [destruct Hin as [?|[= ->]]; left; set_solver|]. intros y [[->|Hy]%elem_of_cons|?]; [|apply Hmax; by left|done].
    apply Hmax. by right.
Qed.

Lemma total_empty : total_queued (sock := sock) [] = 0.
Proof. done. Qed.

(** The total is bounded by giving up one connection a round: while the live
    connections hold no more than [MAX_TOTAL_QUEUE] between them nobody gives
    way; past that exactly one does, a live one that holds at least as much as
    every other, and the log says so. *)
Theorem eviction_takes_the_fattest (cs : list (Conn sock)) dead a now :
  let total := total_queued (live_of cs dead) in
  (total <= MAX_TOTAL_QUEUE -> evict cs dead a now = (dead, a)) /\
  (MAX_TOTAL_QUEUE < total -> exists i c a', evict cs dead a now = (dead ++ [i], a') /\
     cs !! i = Some c /\ i ∉ dead /\
     (forall j d, cs !! j = Some d -> j ∉ dead -> queued d <= queued c)).
Proof.
  unfold evict. rewrite Z.gtb_ltb. destruct (Z.ltb_spec MAX_TOTAL_QUEUE (total_queued (live_of cs dead))) as [Hl|Hl].
  - split; [lia|]. intros _. destruct (fattest (live_of cs dead)) as [[i c]|] eqn:Ef.
    + apply fattest_fold in Ef as [[Hin|[=]] Hmax]. apply live_of_in in Hin as [Hi Hn].
      exists i, c. eexists. split_and!; try done. intros j d Hj Hd. apply (Hmax (j, d)). left. by apply live_of_in.
    + destruct (live_of cs dead) as [|x l] eqn:El; [by rewrite total_empty in Hl|].
      exfalso. revert Ef. unfold fattest. cbn [foldl]. clear. revert x. induction l as [|y l IH]; intros x; cbn; [done|].
      destruct (_ >=? _); apply IH.
  - split; [done|lia].
Qed.

End Live.

Section Loop.
Context `{Tables} `{Endian} {W sock : Type} `{EqDecision sock} `{UnixLaws W sock}.
Notation LW := (W * list (WlStream.event sock))%type.
#[local] Existing Instance WlStream.logged | 0.

Definition conn_ok2 (c : Conn sock) : Prop := side_ok (client c) /\ side_ok (server c).

(** ** One round of service *)

Lemma pump_sides fc now (c : Conn sock) pol au (w : LW) c' pol' au' w' :
  conn_ok2 c -> pump fc c pol au now w = (Ok tt, c', pol', au', w') -> conn_ok2 c'.
Proof.
  intros [Oc Os]. destruct w as [w log], w' as [w' log']. unfold pump.
  assert (forall s s1 (w1 : W) log1, side_ok s -> receive s (w, log) = (Ok tt, s1, (w1, log1)) -> side_ok s1) as Hr.
  { intros s s1 w1 log1 [Hc Hf] (_ & Hq & Hob & _)%receive_spec.
    constructor; [rewrite Hob, Hc; unfold pending; by rewrite Hq|by rewrite Hq]. }
  assert (forall s s1 d (w1 : W) log1 at_ p' w2 log2, side_ok s -> side_ok d ->
    receive s (w, log) = (Ok tt, s1, (w1, log1)) ->
    pump_loop (S (length (buf s1))) fc now 0 (mkPump s1 d (state c) (closing c) pol au) (w1, log1) = (Ok at_, p', (w2, log2)) ->
    side_ok (set_buf (src p') (from (buf (src p')) at_)) /\ side_ok (dst p')) as Hp.
  { intros s s1 d w1 log1 at_ p' w2 log2 Hs Hd Er El. specialize (Hr _ _ _ _ Hs Er).
    apply pump_loop_spec in El as (ms & err & Hp & _); [|cbn; unfold len; lia..].
    destruct (pd_ok _ _ _ _ _ Hp Hr Hd) as [[? ?] ?]. split; [by constructor|done]. }
  destruct fc.
  - destruct (receive (client c) (w, log)) as [[[[]|e] s1] [w1 log1]] eqn:Er; [|done].
    destruct (pump_loop _ true now 0 _ _) as [[[at_|e] p'] [w2 log2]] eqn:El; [|done]. intros [= <- <- <- <- <-].
    destruct (Hp _ _ _ _ _ _ _ _ _ Oc Os Er El). by split.
  - destruct (receive (server c) (w, log)) as [[[[]|e] s1] [w1 log1]] eqn:Er; [|done].
    destruct (pump_loop _ false now 0 _ _) as [[[at_|e] p'] [w2 log2]] eqn:El; [|done]. intros [= <- <- <- <- <-].
    destruct (Hp _ _ _ _ _ _ _ _ _ Os Oc Er El). by split.
Qed.

Lemma service_sides (c : Conn sock) f1 f2 pol au now (w : LW) c' pol' au' w' :
  conn_ok2 c -> service c f1 f2 pol au now w = (Ok tt, c', pol', au', w') -> conn_ok2 c'.
Proof.
  intros Hc. unfold service.
  destruct (if _ && _ then pump true c pol au now w else _) as [[[[r1 c1] p1] a1] w1] eqn:E1.
  destruct r1 as [[]|]; [|done].
  assert (conn_ok2 c1) as H1'.
  { destruct (_ && _) in E1; [by eapply pump_sides|by injection E1 as <- <- <- <-]. }
  destruct (if _ && _ then pump false c1 p1 a1 now w1 else _) as [[[[r2 c2] p2] a2] w2] eqn:E2.
  destruct r2 as [[]|]; [|done].
  assert (conn_ok2 c2) as [Oc Os].
  { destruct (_ && _) in E2; [by eapply pump_sides|by injection E2 as <- <- <- <-]. }
  unfold flush_both. destruct w2 as [w2 log2].
  destruct (flush_side (server c2) (w2, log2)) as [[b1 s1] [w3 log3]] eqn:E3.
  destruct (flush_side (client c2) (w3, log3)) as [[b2 d1] [w4 log4]] eqn:E4. intros [= <- <- <- <-].
  apply flush_side_spec in E3 as [O1 _]; [|done]. apply flush_side_spec in E4 as [O2 _]; [|done]. by split.
Qed.

(** ** The relay *)

Definition relay_ok (r : Relay sock) : Prop :=
  Forall (fun c => conn_ok2 c /\ finished c = false) (conns r) /\ len (conns r) <= MAX_CONNECTIONS.

(** After the round of [service], a connection that is not to be removed is in
    order and not finished. *)
Lemma serve_all_spec ready now : forall cs index p a (w : LW) cs' dead p' a' w',
  Forall conn_ok2 cs -> serve_all index ready now cs p a w = (cs', dead, p', a', w') ->
  length cs' = length cs /\
  forall i c, cs' !! i = Some c -> (index + i)%nat ∉ dead -> conn_ok2 c /\ finished c = false.
Proof.
  induction cs as [|c cs IH]; intros index p a w cs' dead p' a' w' Hall; cbn [serve_all].
  { intros [= <- <- <- <- <-]. split; [done|]. intros i c. by rewrite lookup_nil. }
  apply Forall_cons in Hall as [Hc Hall].
  destruct (service c _ _ p a now w) as [[[[r c1] p1] a1] w1] eqn:Es.
  destruct (match r with Ok _ => _ | Err _ => _ end) as [d a2] eqn:Ed.
  destruct (serve_all (S index) ready now cs p1 a2 w1) as [[[[cs2 more] p2] a3] w2] eqn:Er.
  intros [= <- <- <- <- <-]. apply IH in Er as [Hl Hr]; [|done]. split; [cbn; by rewrite Hl|].
  intros [|i] c2; cbn [lookup list_lookup].
  - intros [= <-]. rewrite Nat.add_0_r. intros Hn.
    destruct r as [[]|why]; [|injection Ed as <- <-; exfalso; apply Hn; set_solver].
    destruct (finished c1) eqn:Ef; injection Ed as <- <-; [exfalso; apply Hn; set_solver|].
    split; [by eapply service_sides|done].
  - intros Hi Hn. apply (Hr i c2 Hi). intros Hin. apply Hn. rewrite Nat.add_succ_r in *. set_solver.
Qed.

Lemma step_conns_ok ready now (cs : list (Conn sock)) p a (w : LW) cs' dead more p' a' w' :
  Forall (fun c => conn_ok2 c /\ finished c = false) cs -> len cs <= MAX_CONNECTIONS ->
  serve_all 0 ready now cs p a w = (cs', dead, p', a', w') ->
  Forall (fun c => conn_ok2 c /\ finished c = false) (live_of cs' (dead ++ more)).*2 /\
  len (live_of cs' (dead ++ more)).*2 <= MAX_CONNECTIONS.
Proof.
  intros Hall Hlen Hs. apply serve_all_spec in Hs as [Hl Hs].
  2: { eapply Forall_impl; [exact Hall|]. by intros c [? _]. }
  split.
  - apply Forall_forall. intros c Hc. apply list_elem_of_fmap in Hc as ([i d] & -> & Hin).
    apply live_of_in in Hin as [Hd Hn]. apply (Hs i d Hd). set_solver.
  - pose proof (live_of_len cs' (dead ++ more)). unfold len in *. lia.
Qed.

Lemma new_conn_ok2 (c s : sock) : conn_ok2 (new_conn c s) /\ finished (new_conn c s) = false.
Proof. split; [split; apply new_side_ok|done]. Qed.

(** What [accept] leaves, however it ends. *)
Definition either {A} (x : A + A) : A := match x with inl a | inr a => a end.

Lemma accept_ok fuel : forall now (r : Relay sock) (w : LW) r' w',
  relay_ok r -> accept fuel now r w = (r', w') -> relay_ok (either r').
Proof.
  assert (forall (r : Relay sock) now, relay_ok r -> relay_ok (wait_for_descriptors r now)) as Hw by done.
  assert (forall (r : Relay sock) a, relay_ok r -> relay_ok (with_audit r a)) as Ha by done.
  induction fuel as [|fuel IH]; intros now r w r' w' Hr; cbn [accept]; [by intros [= <- <-]|].
  rewrite Z.geb_leb. destruct (Z.leb_spec MAX_CONNECTIONS (len (conns r))) as [|Hl]; [by intros [= <- <-]|].
  destruct (accept_with (listener r) w) as [[c|e] w1].
  - destruct (dial r w1) as [[s|e] w2].
    + apply IH. destruct Hr as [Hall Hlen]. split; cbn [conns].
      * apply Forall_app. split; [done|]. constructor; [apply new_conn_ok2|done].
      * len_lia.
    + destruct (out_of_descriptors e); [intros [= <- <-]; by apply Hw|]. apply IH. by apply Ha.
  - destruct e; cbn [out_of_descriptors]; intros [= <- <-]; by first [apply Hr|apply Hw|apply Ha].
Qed.

Lemma evict_more cs dead a now : exists more, (@evict sock cs dead a now).1 = dead ++ more.
Proof.
  unfold evict. destruct (_ >? _); [|exists []; by rewrite app_nil_r].
  destruct (fattest _) as [[i c]|]; [by exists [i]|exists []; by rewrite app_nil_r].
Qed.

Lemma step_ok fuel (r : Relay sock) (w : LW) r' w' :
  relay_ok r -> step fuel r w = (Ok r', w') -> relay_ok (either r').
Proof.
  intros Hr. unfold step.
  destruct (if negb _ || _ then _ else _) as [[got_|[]] w1]; try done; [|by intros [= <- <-]].
  destruct (instant_now w1) as [now w2].
  destruct (serve_all _ _ _ _ _ _ _) as [[[[cs dead] p] a] w3] eqn:Es.
  destruct (evict_more cs dead a now) as [more Hm].
  destruct (evict cs dead a now) as [dead' a']. cbn [fst] in Hm. subst dead'.
  unfold reap. destruct Hr as [Hall Hlen].
  destruct (step_conns_ok _ _ _ _ _ _ _ _ more _ _ _ Hall Hlen Es) as [Hall' Hlen'].
  destruct (intersects _ _).
  - destruct (accept _ _ _ _) as [r1 w4] eqn:Ea. intros [= <- <-]. by eapply accept_ok in Ea.
  - by intros [= <- <-].
Qed.

(** Every relay the loop can be in, whatever the system answers. *)
Inductive reached (listener : sock) (upstream : bytes) (p : Policy) (a : Audit) : Relay sock -> Prop :=
| reached_start : reached listener upstream p a (mkRelay listener upstream p a [] false false)
| reached_step fuel r (w : LW) r' w' :
    reached listener upstream p a r -> step fuel r w = (Ok r', w') -> reached listener upstream p a (either r').

Lemma reached_ok l u p a r : reached l u p a r -> relay_ok r.
Proof. induction 1; [by split|by eapply step_ok]. Qed.

(** C40. The loop never waits for nothing and never serves too many: in every
    relay it can reach there are at most [MAX_CONNECTIONS] connections, none of
    them finished; the poll array is empty only while the relay backs off, which
    has a timeout; each of its entries waits for something; and every connection
    has an entry in it. *)
Theorem relay_always_waits l u p a r : reached l u p a r ->
  len (conns r) <= MAX_CONNECTIONS /\
  (slots r = [] -> backoff r = true) /\
  (forall s f, In (s, f) (slots r) -> flags_empty f.2 = false) /\
  (forall i c, conns r !! i = Some c -> exists e, In e (slots r) /\ (e.1 = Client i \/ e.1 = Server i)).
Proof.
  intros [Hall Hlen]%reached_ok.
  assert (forall i c, conns r !! i = Some c -> exists e, In e (slots r) /\ (e.1 = Client i \/ e.1 = Server i)) as Hent.
  { intros i c Hi. destruct (Forall_lookup_1 _ _ _ _ Hall Hi) as [[Oc Os] Hf].
    pose proof (unfinished_waits _ Oc Os Hf) as Hw.
    assert (exists e, In e (side_slot i c true ++ side_slot i c false) /\ (e.1 = Client i \/ e.1 = Server i)) as (e & He & Hs).
    { unfold side_slot. destruct (flags_empty (flags c true)); cbn [andb] in Hw; [rewrite Hw|]; eexists; cbn; eauto. }
    exists e. split; [|done]. unfold slots. apply in_app_iff. right. apply in_concat. eexists. split; [|exact He].
    apply list_elem_of_In, elem_of_lookup_imap. by exists i, c. }
  split_and!; [done| | |done].
  - intros Hs. destruct (conns r) as [|c cs] eqn:Ec.
    + unfold slots in Hs. rewrite Ec in Hs. by destruct (backoff r).
    + destruct (Hent 0%nat c) as (e & He & _); [done|]. by rewrite Hs in He.
  - intros s f. unfold slots. rewrite in_app_iff. intros [Hin|Hin].
    + destruct (_ && _); [|done]. destruct Hin as [[= <- <-]|[]]. done.
    + apply in_concat in Hin as (x & Hx & Hin). apply list_elem_of_In, elem_of_lookup_imap in Hx as (i & c & -> & _).
      apply in_app_iff in Hin. unfold side_slot in Hin.
      destruct (flags_empty (flags c true)) eqn:E1, (flags_empty (flags c false)) eqn:E2; cbn in Hin; naive_solver.
Qed.

End Loop.

(** A relay that has accepted one client. *)
Definition demo_relay : Relay nat :=
  match @step demo_tables true _ nat (@WlStream.logged _ nat demo_unix) 3
    (mkRelay 0%nat (B "/run/wayland-0") (new_policy Paste false) new_audit [] false false) ([(0%nat, mkReceived [] [] false)], []) with
  | (Ok r, _) => either r
  | (Err _, _) => mkRelay 0%nat [] (new_policy Paste false) new_audit [] false false
  end.

Lemma demo_reached : @reached demo_tables true _ nat demo_unix 0%nat (B "/run/wayland-0") (new_policy Paste false) new_audit demo_relay.
Proof.
  eapply (@reached_step demo_tables true _ nat demo_unix 0%nat (B "/run/wayland-0") (new_policy Paste false) new_audit 3
    (mkRelay 0%nat (B "/run/wayland-0") (new_policy Paste false) new_audit [] false false)
    ([(0%nat, mkReceived [] [] false)], []) (inl demo_relay)).
  - apply reached_start.
  - vm_compute. reflexivity.
Qed.

Lemma relay_always_waits_witness :
  len (conns demo_relay) = 1 /\ exists e, In e (slots demo_relay) /\ (e.1 = Client 0 \/ e.1 = Server 0).
Proof.
  split; [vm_compute; reflexivity|].
  destruct (conns demo_relay !! 0%nat) as [c|] eqn:Ec; [|exfalso; revert Ec; vm_compute; discriminate].
  destruct (@relay_always_waits demo_tables true _ nat _ demo_unix demo_unix_laws 0%nat (B "/run/wayland-0")
    (new_policy Paste false) new_audit demo_relay demo_reached) as (_ & _ & _ & H).
  exact (H 0%nat c Ec).
Defined.

(** Two connections with more than the total between them. *)
Definition demo_heavy : list (Conn nat) :=
  map (fun n => let c := @new_conn demo_tables nat 1%nat 2%nat in
    mkConn (mkSide 1%nat [] [] [] n false) (server c) (state c) false false) [40000000; 50000000].

Lemma eviction_takes_the_fattest_witness :
  exists i c a', evict demo_heavy [] new_audit 0 = ([i], a') /\ demo_heavy !! i = Some c /\ queued c = 50000000.
Proof.
  destruct (proj2 (eviction_takes_the_fattest demo_heavy [] new_audit 0)) as (i & c & a' & He & Hi & _ & Hm);
    [vm_compute; reflexivity|].
  exists i, c, a'. split; [exact He|]. split; [exact Hi|].
  destruct i as [|[|i]]; [|injection Hi as <-; reflexivity|discriminate].
  exfalso. injection Hi as <-. specialize (Hm 1%nat _ eq_refl ltac:(by apply not_elem_of_nil)).
  vm_compute in Hm. by apply Hm.
Defined.
