(* ===== verification/DbusSig.v ===== *)
(** D-Bus type signatures: [Type], [parse_signature] and [parse_type] of
    [crates/bubbler-core/src/dbus_wire.rs].

    The parser works on what is left of the signature, where the source keeps an
    index; its own errors are all [BadSignature] with the whole signature, which
    [parse_signature] puts in.  Every call eats a byte, so the signature's length
    is fuel enough, and [parse_signature_iff] would fail if it were not. *)
From S2P Require Export Text.

Definition MAX_SIGNATURE : Z := 255.
Definition MAX_CONTAINER_DEPTH : Z := 32.

(** [Type]. *)
Inductive ty :=
| TByte | TBool | TInt16 | TUint16 | TInt32 | TUint32 | TInt64 | TUint64 | TDouble
| TStr | TObjectPath | TSignature | TFd
| TArray (t : ty) | TStruct (fields : list ty) | TDictEntry (k v : ty) | TVariant.

(** Induction with the fields of a struct. *)
Section TyInd.
Variable P : ty -> Prop.
Hypothesis Hbase : forall t, match t with TArray _ | TStruct _ | TDictEntry _ _ => True | _ => P t end.
Hypothesis Harray : forall t, P t -> P (TArray t).
Hypothesis Hstruct : forall fs, Forall P fs -> P (TStruct fs).
Hypothesis Hdict : forall k v, P k -> P v -> P (TDictEntry k v).

Fixpoint ty_ind' (t : ty) : P t :=
  match t with
  | TArray t => Harray t (ty_ind' t)
  | TStruct fs => Hstruct fs ((fix go l : Forall P l := match l with [] => Forall_nil_2 P | x :: l => Forall_cons_2 P x l (ty_ind' x) (go l) end) fs)
  | TDictEntry k v => Hdict k v (ty_ind' k) (ty_ind' v)
  | t => Hbase t
  end.
End TyInd.

#[global] Instance ty_eq_dec : EqDecision ty.
Proof.
  unfold EqDecision, Decision. fix go 1. intros x y.
  destruct x, y; try (left; reflexivity); try (right; discriminate).
  - destruct (go x y); [left|right]; congruence.
  - assert ({fields = fields0} + {fields <> fields0}) as [->|Hn]; [|by left|right; congruence].
    revert fields0. induction fields as [|t a IH]; intros [|u b]; [by left|by right|by right|].
    destruct (go t u); [|right; congruence]. destruct (IH b); [left|right]; congruence.
  - destruct (go x1 y1); [|right; congruence]. destruct (go x2 y2); [left|right]; congruence.
Defined.

Definition alignment (t : ty) : Z :=
  match t with
  | TByte | TSignature | TVariant => 1
  | TInt16 | TUint16 => 2
  | TBool | TInt32 | TUint32 | TFd | TStr | TObjectPath | TArray _ => 4
  | TInt64 | TUint64 | TDouble | TStruct _ | TDictEntry _ _ => 8
  end.

(** The type code that opens a type. *)
Definition code (t : ty) : byte :=
  match t with
  | TByte => "y" | TBool => "b" | TInt16 => "n" | TUint16 => "q" | TInt32 => "i" | TUint32 => "u"
  | TInt64 => "x" | TUint64 => "t" | TDouble => "d" | TStr => "s" | TObjectPath => "o"
  | TSignature => "g" | TFd => "h" | TArray _ => "a" | TStruct _ => "(" | TDictEntry _ _ => "{" | TVariant => "v"
  end%byte.

Definition is_basic (t : ty) : bool :=
  match t with TArray _ | TStruct _ | TDictEntry _ _ | TVariant => false | _ => true end.

(** [bytes.get(at) == Some(&c)], and past it. *)
Definition eat (c : byte) (b : bytes) : option bytes :=
  match b with x :: b => if bool_decide (x = c) then Some b else None | [] => None end.

(** The loop over a struct's fields, up to and with the closing parenthesis. *)
Fixpoint parse_fields (n : nat) (one : bytes -> option (ty * bytes)) (b : bytes) : option (list ty * bytes) :=
  match n with
  | O => None
  | S n =>
    match eat ")"%byte b with
    | Some b => Some ([], b)
    | None => '(t, b) ← one b; '(ts, b) ← parse_fields n one b; Some (t :: ts, b)
    end
  end.

Definition simple_type (c : byte) : option ty :=
  match c with
  | "y" => Some TByte | "b" => Some TBool | "n" => Some TInt16 | "q" => Some TUint16 | "i" => Some TInt32
  | "u" => Some TUint32 | "x" => Some TInt64 | "t" => Some TUint64 | "d" => Some TDouble | "s" => Some TStr
  | "o" => Some TObjectPath | "g" => Some TSignature | "h" => Some TFd | "v" => Some TVariant
  | _ => None
  end%byte.

Fixpoint parse_type (fuel : nat) (b : bytes) (arrays structs : Z) : option (ty * bytes) :=
  match fuel, b with
  | O, _ | _, [] => None
  | S fuel, c :: b =>
    match simple_type c with
    | Some t => Some (t, b)
    | None =>
      if bool_decide (c = "a"%byte) then
        if arrays >=? MAX_CONTAINER_DEPTH then None
        else match eat "{"%byte b with
        | Some b =>
          if structs >=? MAX_CONTAINER_DEPTH then None
          else
            '(key, b) ← parse_type fuel b (arrays + 1) (structs + 1);
            if negb (is_basic key) then None
            else
              '(value, b) ← parse_type fuel b (arrays + 1) (structs + 1);
              b ← eat "}"%byte b; Some (TArray (TDictEntry key value), b)
        | None => '(t, b) ← parse_type fuel b (arrays + 1) structs; Some (TArray t, b)
        end
      else if bool_decide (c = "("%byte) then
        if structs >=? MAX_CONTAINER_DEPTH then None
        else
          '(fields, b) ← parse_fields (S (length b)) (fun b => parse_type fuel b arrays (structs + 1)) b;
          if bool_decide (fields = []) then None else Some (TStruct fields, b)
      else None
    end
  end.

Fixpoint parse_types (fuel : nat) (b : bytes) : option (list ty) :=
  match b, fuel with
  | [], _ => Some []
  | _, O => None
  | b, S fuel => '(t, b) ← parse_type (S (length b)) b 0 0; ts ← parse_types fuel b; Some (t :: ts)
  end.

(** [parse_signature]: [None] is [BadSignature] of the whole. *)
Definition parse_signature (sig : bytes) : option (list ty) :=
  if len sig >? MAX_SIGNATURE then None else parse_types (length sig) sig.

(** ** The specification: how a type is written, and which types there are *)

Fixpoint show (t : ty) : bytes :=
  match t with
  | TArray t => "a"%byte :: show t
  | TStruct fs => "("%byte :: concat (map show fs) ++ [")"%byte]
  | TDictEntry k v => "{"%byte :: show k ++ show v ++ ["}"%byte]
  | t => [code t]
  end.

Definition show_all (ts : list ty) : bytes := concat (map show ts).

(** A single complete type inside so many arrays and structs. *)
Fixpoint ty_ok (arrays structs : Z) (t : ty) : bool :=
  match t with
  | TArray (TDictEntry k v) =>
      (arrays <? 32) && (structs <? 32) && is_basic k &&
      ty_ok (arrays + 1) (structs + 1) k && ty_ok (arrays + 1) (structs + 1) v
  | TArray t => (arrays <? 32) && ty_ok (arrays + 1) structs t
  | TStruct fs => (structs <? 32) && bool_decide (fs <> []) && forallb (ty_ok arrays (structs + 1)) fs
  | TDictEntry _ _ => false
  | _ => true
  end.

Definition is_dict (t : ty) : bool := match t with TDictEntry _ _ => true | _ => false end.

Lemma show_nonempty t : (1 <= length (show t))%nat.
Proof. destruct t; cbn; lia. Qed.

(** ** The parser and the specification agree *)

Lemma show_code t : exists tl, show t = code t :: tl.
Proof. destruct t; by eexists. Qed.

Lemma eat_some c b rest : eat c b = Some rest <-> b = c :: rest.
Proof. destruct b as [|x b]; cbn; [naive_solver|]. case_bool_decide; naive_solver. Qed.

Lemma eat_other c x b : x <> c -> eat c (x :: b) = None.
Proof. intros. cbn. by rewrite bool_decide_false. Qed.

Lemma code_not_closing t : code t <> ")"%byte.
Proof. by destruct t. Qed.
Lemma code_brace t : is_dict t = false -> code t <> "{"%byte.
Proof. by destruct t. Qed.
Lemma code_simple t : match t with TArray _ | TStruct _ | TDictEntry _ _ => simple_type (code t) = None | _ => simple_type (code t) = Some t end.
Proof. by destruct t. Qed.

Lemma simple_show c t : simple_type c = Some t -> show t = [c] /\ forall a s, ty_ok a s t = true.
Proof. destruct c; cbn; intros [= <-]; done. Qed.

Lemma not_dict_ok a s t : ty_ok a s t = true -> is_dict t = false.
Proof. by destruct t. Qed.

Lemma array_ok a s t : ty_ok a s (TArray t) = true ->
  a < 32 /\
  ((exists k v, t = TDictEntry k v /\ s < 32 /\ is_basic k = true /\ ty_ok (a + 1) (s + 1) k = true /\ ty_ok (a + 1) (s + 1) v = true)
   \/ (is_dict t = false /\ ty_ok (a + 1) s t = true)).
Proof.
  cbn [ty_ok]. intros Ht. split; [by destruct t; bool_to_prop|].
  destruct t; bool_to_prop; try (by right). left. eexists _, _. by split_and!.
Qed.

Definition reads_back (t : ty) : Prop := forall arrays structs fuel rest,
  ty_ok arrays structs t = true -> (length (show t) <= fuel)%nat ->
  parse_type fuel (show t ++ rest) arrays structs = Some (t, rest).

Lemma parse_fields_show fs one rest n :
  Forall (fun t => forall rest, one (show t ++ rest) = Some (t, rest)) fs -> (length fs < n)%nat ->
  parse_fields n one (show_all fs ++ ")"%byte :: rest) = Some (fs, rest).
Proof.
  intros Hall. revert n. induction Hall as [|t fs Ht Hall IH]; intros [|n] Hn; cbn [length] in Hn; try lia.
  - cbn. done.
  - cbn [parse_fields]. unfold show_all. cbn [map concat]. rewrite <-app_assoc.
    destruct (show_code t) as (tl & Hs). rewrite Hs. cbn [app]. rewrite eat_other by apply code_not_closing.
    change (code t :: tl ++ ?x) with ((code t :: tl) ++ x). rewrite <-Hs, Ht. cbn [mbind option_bind].
    fold (show_all fs). rewrite IH by lia. done.
Qed.

Lemma length_show_all fs : (length fs <= length (show_all fs))%nat.
Proof.
  unfold show_all. induction fs as [|t fs IH]; cbn; [done|]. rewrite length_app. pose proof (show_nonempty t). lia.
Qed.

Lemma show_in_all t fs : t ∈ fs -> (length (show t) <= length (show_all fs))%nat.
Proof.
  unfold show_all. induction 1 as [|t u fs _ IH]; cbn; rewrite length_app; lia.
Qed.

Lemma parse_show t : reads_back t.
Proof.
  enough (reads_back t /\ match t with TDictEntry k v => reads_back k /\ reads_back v | _ => True end) by tauto.
  revert t. apply ty_ind'; [intros t|intros t IH|intros fs IH|intros k v IHk IHv].
  - destruct t; try done; (split; [|done]); intros a s [|fuel] rest Hok Hf; cbn in Hf; try lia; done.
  - split; [|done]. intros a s [|fuel] rest Hok Hf; cbn [show length] in Hf; [lia|].
    apply array_ok in Hok as (Ha & Hc). cbn [show app parse_type]. cbn [simple_type].
    rewrite bool_decide_true, Z.geb_leb, (proj2 (Z.leb_gt _ _)) by (done || (unfold MAX_CONTAINER_DEPTH; lia)).
    destruct Hc as [(k & v & -> & Hs & Hb & Hk & Hv)|[Hd Ht]].
    + destruct IH as (_ & IHk & IHv). cbn [show length] in Hf. rewrite !length_app in Hf. cbn [length] in Hf.
      cbn [show app]. unfold eat at 1. rewrite bool_decide_true, Z.geb_leb, (proj2 (Z.leb_gt _ _)) by (done || (unfold MAX_CONTAINER_DEPTH; lia)).
      rewrite <-!app_assoc, IHk by (done || lia). cbn [mbind option_bind]. rewrite Hb. cbn [negb].
      rewrite IHv by (done || lia). done.
    + destruct (show_code t) as (tl & Hsh). rewrite Hsh. cbn [app]. rewrite eat_other by (by apply code_brace).
      change (code t :: tl ++ rest) with ((code t :: tl) ++ rest). rewrite <-Hsh.
      rewrite (proj1 IH) by (done || lia). done.
  - split; [|done]. intros a s [|fuel] rest Hok Hf; cbn [show length] in Hf; [lia|].
    cbn [ty_ok] in Hok. apply andb_true_iff in Hok as [[Hs Hne]%andb_true_iff Hall]. bool_to_prop.
    rewrite length_app in Hf. cbn [length] in Hf. fold (show_all fs) in Hf.
    cbn [show app parse_type simple_type]. rewrite bool_decide_false, bool_decide_true, Z.geb_leb, (proj2 (Z.leb_gt _ _))
      by (done || (unfold MAX_CONTAINER_DEPTH; lia)).
    fold (show_all fs). rewrite <-app_assoc. cbn [app]. rewrite parse_fields_show.
    + cbn [mbind option_bind]. by rewrite bool_decide_false.
    + apply forallb_spec in Hall. rewrite Forall_forall in *. intros t Ht rest'.
      destruct (IH t Ht) as [Hrb _]. apply Hrb; [by apply Hall|]. pose proof (show_in_all t fs Ht). lia.
    + rewrite length_app. cbn [length]. pose proof (length_show_all fs). lia.
  - split; [|split; [apply IHk|apply IHv]]. by intros a s fuel rest Hok.
Qed.

(** The end of a struct's fields. *)
Lemma parse_fields_some n one b fs rest : parse_fields n one b = Some (fs, rest) ->
  (forall b t rest, one b = Some (t, rest) -> b = show t ++ rest) ->
  b = show_all fs ++ ")"%byte :: rest.
Proof.
  intros Hp Hone. revert b fs Hp. induction n as [|n IH]; intros b fs; [done|]. cbn [parse_fields].
  destruct (eat ")"%byte b) as [b'|] eqn:E.
  - apply eat_some in E as ->. by intros [= <- <-].
  - intros ([t b1] & H1 & ([ts b2] & H2 & [= <- <-])%bind_Some)%bind_Some.
    rewrite (Hone _ _ _ H1), (IH _ _ H2). unfold show_all. cbn. by rewrite <-app_assoc.
Qed.

Lemma parse_fields_all n one b fs rest (P : ty -> Prop) : parse_fields n one b = Some (fs, rest) ->
  (forall b t rest, one b = Some (t, rest) -> P t) -> Forall P fs.
Proof.
  intros Hp Hone. revert b fs Hp. induction n as [|n IH]; intros b fs; [done|]. cbn [parse_fields].
  destruct (eat ")"%byte b) as [b'|]; [by intros [= <- <-]|].
  intros ([t b1] & H1 & ([ts b2] & H2 & [= <- <-])%bind_Some)%bind_Some. constructor; [by eapply Hone|by eapply IH].
Qed.

Lemma parse_sound fuel : forall b a s t rest,
  parse_type fuel b a s = Some (t, rest) -> b = show t ++ rest /\ ty_ok a s t = true.
Proof.
  induction fuel as [|fuel IH]; intros b a s t rest; [by destruct b|]. destruct b as [|c b]; [done|]. cbn [parse_type].
  destruct (simple_type c) as [t'|] eqn:Es.
  { intros [= <- <-]. apply simple_show in Es as [-> Hok]. done. }
  unfold MAX_CONTAINER_DEPTH. rewrite !Z.geb_leb. case_bool_decide as Hc.
  - subst c. destruct (Z.leb_spec 32 a); [done|]. destruct (eat "{"%byte b) as [b'|] eqn:E.
    + apply eat_some in E as ->. destruct (Z.leb_spec 32 s); [done|].
      intros ([k b1] & H1 & Hr)%bind_Some. destruct (is_basic k) eqn:Eb; [|done]. cbn [negb] in Hr.
      apply bind_Some in Hr as ([v b2] & H2 & (b3 & H3%eat_some & [= <- <-])%bind_Some).
      apply IH in H1 as [-> Hk]. apply IH in H2 as [-> Hv]. subst b2. cbn [show ty_ok app]. rewrite <-!app_assoc.
      split; [done|]. rewrite Eb, Hk, Hv. by rewrite !(proj2 (Z.ltb_lt _ _)) by lia.
    + intros ([t' b1] & H1 & [= <- <-])%bind_Some. apply IH in H1 as [-> Hk]. split; [done|].
      cbn [ty_ok]. rewrite (proj2 (Z.ltb_lt _ _)) by lia. destruct t'; done.
  - case_bool_decide as Hp; [|done]. subst c. destruct (Z.leb_spec 32 s); [done|].
    intros ([fs b1] & H1 & Hr)%bind_Some. case_bool_decide; [done|]. injection Hr as <- <-.
    pose proof (parse_fields_some _ _ _ _ _ H1 (fun b t rest Hx => proj1 (IH _ _ _ _ _ Hx))) as ->.
    pose proof (parse_fields_all _ _ _ _ _ (fun t => ty_ok a (s + 1) t = true) H1 (fun b t rest Hx => proj2 (IH _ _ _ _ _ Hx))) as Hall.
    cbn [show ty_ok]. fold (show_all fs). cbn [app]. rewrite <-app_assoc. split; [done|].
    rewrite (proj2 (Z.ltb_lt _ _)), bool_decide_true by (done || lia). by apply forallb_spec.
Qed.

Lemma parse_types_iff fuel b ts : (length b <= fuel)%nat ->
  parse_types fuel b = Some ts <-> b = show_all ts /\ Forall (fun t => ty_ok 0 0 t = true) ts.
Proof.
  revert b ts. induction fuel as [|fuel IH]; intros b ts Hf.
  - destruct b; [|cbn in Hf; lia]. cbn. split; [by intros [= <-]|]. intros [Hb _]. destruct ts as [|t ts]; [done|].
    unfold show_all in Hb. cbn in Hb. destruct (show_code t) as (? & E). by rewrite E in Hb.
  - destruct b as [|c b].
    { cbn. split; [by intros [= <-]|]. intros [Hb _]. destruct ts as [|t ts]; [done|].
      unfold show_all in Hb. cbn in Hb. destruct (show_code t) as (? & E). by rewrite E in Hb. }
    cbn [parse_types]. set (l := c :: b) in *. split.
    + intros ([t b1] & H1 & (ts' & H2 & [= <-])%bind_Some)%bind_Some.
      apply parse_sound in H1 as [E Hok]. pose proof (show_nonempty t).
      apply IH in H2 as [-> Hall]; [|rewrite E, length_app in Hf; lia]. split; [exact E|]. by constructor.
    + intros [Hb Hall]. destruct Hall as [|t ts Ht Hall]; [done|]. unfold show_all in Hb. cbn [map concat] in Hb.
      rewrite Hb, parse_show; [|done|rewrite length_app; lia]. cbn [mbind option_bind].
      pose proof (show_nonempty t). rewrite Hb, length_app in Hf.
      rewrite (proj2 (IH (concat (map show ts)) ts ltac:(lia))); [done|]. by split.
Qed.

(** What a signature parses to, in both directions. *)
Lemma parse_signature_spec sig ts :
  parse_signature sig = Some ts <->
  sig = show_all ts /\ Forall (fun t => ty_ok 0 0 t = true) ts /\ len sig <= MAX_SIGNATURE.
Proof.
  unfold parse_signature. rewrite Z.gtb_ltb. destruct (Z.ltb_spec MAX_SIGNATURE (len sig)).
  - split; [done|]. intros (_ & _ & ?). lia.
  - rewrite parse_types_iff by done. naive_solver.
Qed.

(** The signature parser accepts exactly the signatures there are: a text of
    at most 255 bytes that spells single complete types in which arrays and
    structs nest at most 32 deep each, structs have fields and dict entries are
    elements of arrays with a basic key; and it reads the types that are
    spelled. *)
Theorem parse_signature_iff sig ts :
  parse_signature sig = Some ts <->
  sig = show_all ts /\ Forall (fun t => ty_ok 0 0 t = true) ts /\ len sig <= MAX_SIGNATURE.
Proof. apply parse_signature_spec. Qed.
