(* ===== verification/DbusWire.v ===== *)
(** D-Bus marshalling: [Value], [encode] and [decode] of
    [crates/bubbler-core/src/dbus_wire.rs].

    A number is [Z] within its width, a [Double] its 64 bits, text its UTF-8.  The
    source grows one buffer; so does [encode_value], which alignment depends on.
    [Reader] is the offset and the count of values; the buffer is an argument.
    [decode_value] recurs on the nesting that [MAX_DEPTH] bounds, and its loops
    over an array's elements on the bytes that are left of it. *)
From S2P Require Export DbusSig.

Definition MAX_ARRAY : Z := Z.shiftl 1 26.
Definition MAX_MESSAGE : Z := Z.shiftl 1 27.
Definition MAX_INCOMING : Z := Z.shiftl 16 20.
Definition MAX_VALUES : Z := Z.shiftl 1 20.
Definition MAX_DEPTH : Z := 64.

Inductive WireError :=
| Connect (path : bytes) | Io | Closed | Timeout | Auth (line : bytes) | AuthRejected (offered : bytes)
| NoFdPassing | TooManyFds (n : Z) | Remote (name message : bytes) | BadSignature (sig : bytes)
| Arity (expected got : Z) | TypeMismatch (expected : byte) (got : bytes) | Unsupported (what : bytes)
| Truncated | Padding | Trailing (n : Z) | ArrayTooLong (n : Z) | MessageTooLong (n : Z) | TooManyValues
| BadString | BadObjectPath (path : bytes) | BadBool (n : Z) | Depth | Endianness (flag : byte)
| BadMessage (what : bytes) | FdIndex (n : Z) | NoDestination.

Inductive value :=
| VByte (v : byte) | VBool (v : bool) | VInt16 (v : Z) | VUint16 (v : Z) | VInt32 (v : Z) | VUint32 (v : Z)
| VInt64 (v : Z) | VUint64 (v : Z) | VDouble (bits : Z) | VStr (v : bytes) | VObjectPath (v : bytes)
| VSignature (v : bytes) | VFd (v : Z) | VByteArray (v : bytes) | VArray (items : list value)
| VStruct (fields : list value) | VDict (entries : list (bytes * value)) | VVariant (inner : value).

(** Induction with what a container holds. *)
Section ValueInd.
Variable P : value -> Prop.
Hypothesis Hbase : forall v, match v with VArray _ | VStruct _ | VDict _ | VVariant _ => True | _ => P v end.
Hypothesis Harray : forall l, Forall P l -> P (VArray l).
Hypothesis Hstruct : forall l, Forall P l -> P (VStruct l).
Hypothesis Hdict : forall l, Forall (fun e => P e.2) l -> P (VDict l).
Hypothesis Hvariant : forall v, P v -> P (VVariant v).

Fixpoint value_ind' (v : value) : P v :=
  let all := fix all l : Forall P l :=
    match l with [] => Forall_nil_2 P | x :: l => Forall_cons_2 P x l (value_ind' x) (all l) end in
  match v with
  | VArray l => Harray l (all l)
  | VStruct l => Hstruct l (all l)
  | VDict l => Hdict l ((fix go l : Forall (fun e => P e.2) l :=
      match l with [] => Forall_nil_2 _ | x :: l => Forall_cons_2 (fun e => P e.2) x l (value_ind' x.2) (go l) end) l)
  | VVariant v => Hvariant v (value_ind' v)
  | v => Hbase v
  end.
End ValueInd.

Definition kind (v : value) : bytes :=
  match v with
  | VByte _ => B "a byte" | VBool _ => B "a boolean" | VInt16 _ => B "an int16" | VUint16 _ => B "a uint16"
  | VInt32 _ => B "an int32" | VUint32 _ => B "a uint32" | VInt64 _ => B "an int64" | VUint64 _ => B "a uint64"
  | VDouble _ => B "a double" | VStr _ => B "a string" | VObjectPath _ => B "an object path"
  | VSignature _ => B "a signature" | VFd _ => B "a file descriptor index" | VByteArray _ => B "a byte array"
  | VArray _ => B "an array" | VStruct _ => B "a struct" | VDict _ => B "a dict" | VVariant _ => B "a variant"
  end.

Definition SLASH : byte := "/"%byte.

Definition valid_object_path (path : bytes) : bool :=
  if bool_decide (path = [SLASH]) then true
  else match strip_prefix [SLASH] path with
  | None => false
  | Some rest =>
    bool_decide (rest <> []) &&
    forallb (fun element => bool_decide (element <> []) &&
      forallb (fun b => is_ascii_alphanumeric b || bool_decide (b = "_"%byte)) element) (split_on SLASH rest)
  end.

(** ** Encoding *)

Definition pad (out : bytes) (align : Z) : bytes :=
  let over := len out mod align in
  if over =? 0 then out else out ++ replicate (Z.to_nat (align - over)) NUL.

Definition align_up (n align : Z) : Z := (n + align - 1) / align * align.

Definition encode_str (out text : bytes) : result WireError bytes :=
  if bool_decide (NUL ∈ text) then Err BadString
  else if len text >? U32_MAX then Err (ArrayTooLong (len text))
  else Ok (out ++ le_bytes 4 (len text) ++ text ++ [NUL]).

Definition encode_signature (out sig : bytes) : bytes := out ++ [to_u8 (len sig)] ++ sig ++ [NUL].

Definition get_signature (sig : bytes) : result WireError (list ty) := ok_or (parse_signature sig) (BadSignature sig).

Fixpoint concat_results (l : list (result WireError bytes)) : result WireError bytes :=
  match l with [] => Ok [] | r :: l => a ← r; b ← concat_results l; Ok (a ++ b) end.

Fixpoint signature_of (v : value) (depth : Z) : result WireError bytes :=
  if depth >? MAX_DEPTH then Err Depth
  else match v with
  | VByte _ => Ok (B "y") | VBool _ => Ok (B "b") | VInt16 _ => Ok (B "n") | VUint16 _ => Ok (B "q")
  | VInt32 _ => Ok (B "i") | VUint32 _ => Ok (B "u") | VInt64 _ => Ok (B "x") | VUint64 _ => Ok (B "t")
  | VDouble _ => Ok (B "d") | VStr _ => Ok (B "s") | VObjectPath _ => Ok (B "o") | VSignature _ => Ok (B "g")
  | VFd _ => Ok (B "h") | VByteArray _ => Ok (B "ay") | VVariant _ => Ok (B "v")
  | VArray [] => Err (Unsupported (B "an empty array inside a variant"))
  | VArray (first :: _) => s ← signature_of first (depth + 1); Ok (B "a" ++ s)
  | VDict [] => Err (Unsupported (B "an empty dict inside a variant"))
  | VDict ((_, first) :: _) => s ← signature_of first (depth + 1); Ok (B "a{s" ++ s ++ B "}")
  | VStruct fields =>
      s ← concat_results (map (fun f => signature_of f (depth + 1)) fields); Ok (B "(" ++ s ++ B ")")
  end.

(** The loops over items, entries and fields. *)
Section Loops.
Variable enc : value -> bytes -> result WireError bytes.

Fixpoint encode_items (items : list value) (out : bytes) : result WireError bytes :=
  match items with [] => Ok out | item :: items => out ← enc item out; encode_items items out end.

Fixpoint encode_entries (entries : list (bytes * value)) (out : bytes) : result WireError bytes :=
  match entries with
  | [] => Ok out
  | (key, v) :: entries => out ← encode_str (pad out 8) key; out ← enc v out; encode_entries entries out
  end.
End Loops.

Fixpoint encode_fields (enc : value -> ty -> bytes -> result WireError bytes) (vs : list value) (ts : list ty)
  (out : bytes) : result WireError bytes :=
  match vs, ts with
  | v :: vs, t :: ts => out ← enc v t out; encode_fields enc vs ts out
  | _, _ => Ok out
  end.

(** What an array holds: the elements, one after the other. *)
Definition encode_elements (enc : value -> ty -> bytes -> result WireError bytes) (v : value) (element : ty) (out : bytes)
  : result WireError bytes :=
  let mismatch := Err (TypeMismatch "a"%byte (kind v)) in
  match element, v with
  | TByte, VByteArray b => Ok (out ++ b)
  | TByte, _ => mismatch
  | TDictEntry key entry, VDict entries =>
      if negb (bool_decide (key = TStr)) then Err (Unsupported (B "dict keys that are not strings"))
      else encode_entries (fun v => enc v entry) entries out
  | TDictEntry _ _, _ => mismatch
  | _, VArray items => encode_items (fun v => enc v element) items out
  | _, _ => mismatch
  end.

(** The end of [encode_array]: the length goes where zeros were kept for it. *)
Definition finish_array (length_at start : Z) (out : bytes) : result WireError bytes :=
  let length := len out - start in
  if length >? MAX_ARRAY then Err (ArrayTooLong length)
  else Ok (upto out length_at ++ le_bytes 4 length ++ from out (length_at + 4)).

Fixpoint encode_value (v : value) (t : ty) (depth : Z) (out : bytes) {struct v} : result WireError bytes :=
  if depth >? MAX_DEPTH then Err Depth
  else
    let mismatch := Err (TypeMismatch (code t) (kind v)) in
    let out := pad out (alignment t) in
    match t, v with
    | TByte, VByte b => Ok (out ++ [b])
    | TBool, VBool b => Ok (out ++ le_bytes 4 (if b then 1 else 0))
    | TInt16, VInt16 n => Ok (out ++ le_bytes 2 (n mod 2 ^ 16))
    | TUint16, VUint16 n => Ok (out ++ le_bytes 2 n)
    | TInt32, VInt32 n => Ok (out ++ le_bytes 4 (n mod 2 ^ 32))
    | TUint32, VUint32 n => Ok (out ++ le_bytes 4 n)
    | TInt64, VInt64 n => Ok (out ++ le_bytes 8 (n mod 2 ^ 64))
    | TUint64, VUint64 n => Ok (out ++ le_bytes 8 n)
    | TDouble, VDouble n => Ok (out ++ le_bytes 8 n)
    | TFd, VFd n => Ok (out ++ le_bytes 4 n)
    | TStr, VStr s => encode_str out s
    | TObjectPath, VObjectPath s => if valid_object_path s then encode_str out s else Err (BadObjectPath s)
    | TSignature, VSignature s => _ ← get_signature s; Ok (encode_signature out s)
    | TArray element, _ =>
      if depth >=? MAX_DEPTH then Err Depth
      else
        let length_at := len out in
        let out := pad (out ++ le_bytes 4 0) (alignment element) in
        let start := len out in
        out ← encode_elements (fun v t => encode_value v t (depth + 1)) v element out;
        finish_array length_at start out
    | TStruct fields, VStruct given =>
      if negb (len fields =? len given) then Err (Arity (len fields) (len given))
      else encode_fields (fun v t => encode_value v t (depth + 1)) given fields out
    | TVariant, VVariant inner =>
      sig ← signature_of inner 0;
      types ← get_signature sig;
      match types with
      | [inner_type] => encode_value inner inner_type (depth + 1) (encode_signature out sig)
      | _ => Err (BadSignature sig)
      end
    | _, _ => mismatch
    end.

Definition encode (sig : bytes) (values : list value) : result WireError bytes :=
  types ← get_signature sig;
  if negb (len types =? len values) then Err (Arity (len types) (len values))
  else encode_fields (fun v t => encode_value v t 0) values types [].

(** ** Decoding *)

Record Reader := mkReader { at_ : Z; values : Z }.

Section Reader.
Variable buf : bytes.

Definition take (n : Z) (r : Reader) : result WireError (bytes * Reader) :=
  end_ ← ok_or (checked_add (at_ r) n) Truncated;
  b ← ok_or (slice buf (at_ r) end_) Truncated;
  Ok (b, mkReader end_ (values r)).

Definition count_value (r : Reader) : result WireError Reader :=
  if values r + 1 >? MAX_VALUES then Err TooManyValues else Ok (mkReader (at_ r) (values r + 1)).

Definition align (n : Z) (r : Reader) : result WireError Reader :=
  let over := at_ r mod n in
  '(b, r) ← take (if over =? 0 then 0 else n - over) r;
  if forallb (fun x => bool_decide (x = NUL)) b then Ok r else Err Padding.

Definition read_byte (r : Reader) : result WireError (byte * Reader) :=
  '(b, r) ← take 1 r; match b with x :: _ => Ok (x, r) | [] => Err Truncated end.

Definition uint (n : Z) (r : Reader) : result WireError (Z * Reader) :=
  '(b, r) ← take n r; Ok (le_val b, r).

Definition text (n : Z) (r : Reader) : result WireError (bytes * Reader) :=
  '(b, r) ← take n r;
  if bool_decide (NUL ∈ b) then Err BadString
  else
    '(x, r) ← read_byte r;
    if negb (bool_decide (x = NUL)) then Err BadString
    else if utf8_valid b then Ok (b, r) else Err BadString.

Definition signed (bits n : Z) : Z := if n <? 2 ^ (bits - 1) then n else n - 2 ^ bits.

(** The loops of [decode_array] and of a struct, over what reads one value. *)
Section Loops.
Variable one : Reader -> result WireError (value * Reader).

Fixpoint decode_items (n : nat) (end_ : Z) (r : Reader) : result WireError (list value * Reader) :=
  if at_ r <? end_ then
    match n with
    | O => Err Truncated
    | S n =>
      '(v, r) ← one r;
      if at_ r >? end_ then Err Truncated
      else '(vs, r) ← decode_items n end_ r; Ok (v :: vs, r)
    end
  else Ok ([], r).

Fixpoint decode_entries (n : nat) (end_ : Z) (r : Reader) : result WireError (list (bytes * value) * Reader) :=
  if at_ r <? end_ then
    match n with
    | O => Err Truncated
    | S n =>
      r ← count_value r;
      r ← align 8 r;
      '(n0, r) ← uint 4 r;
      '(key, r) ← text n0 r;
      '(v, r) ← one r;
      if at_ r >? end_ then Err Truncated
      else '(vs, r) ← decode_entries n end_ r; Ok ((key, v) :: vs, r)
    end
  else Ok ([], r).
End Loops.

Fixpoint decode_fields (one : ty -> Reader -> result WireError (value * Reader)) (ts : list ty) (r : Reader)
  : result WireError (list value * Reader) :=
  match ts with
  | [] => Ok ([], r)
  | t :: ts => '(v, r) ← one t r; '(vs, r) ← decode_fields one ts r; Ok (v :: vs, r)
  end.

(** What an array holds, up to its end. *)
Definition decode_elements (one : ty -> Reader -> result WireError (value * Reader)) (element : ty)
  (length end_ : Z) (r : Reader) : result WireError (value * Reader) :=
  match element with
  | TByte => '(b, r) ← take length r; Ok (VByteArray b, r)
  | TDictEntry key entry =>
    if negb (bool_decide (key = TStr)) then Err (Unsupported (B "dict keys that are not strings"))
    else '(l, r) ← decode_entries (one entry) (Z.to_nat length) end_ r; Ok (VDict l, r)
  | _ => '(l, r) ← decode_items (one element) (Z.to_nat length) end_ r; Ok (VArray l, r)
  end.

Definition decode_array (one : ty -> Reader -> result WireError (value * Reader)) (element : ty) (depth : Z)
  (r : Reader) : result WireError (value * Reader) :=
  if depth >=? MAX_DEPTH then Err Depth
  else
    '(length, r) ← uint 4 r;
    if length >? MAX_ARRAY then Err (ArrayTooLong length)
    else
      r ← align (alignment element) r;
      end_ ← ok_or (checked_add (at_ r) length) Truncated;
      if end_ >? len buf then Err Truncated
      else
        '(v, r) ← decode_elements one element length end_ r;
        if negb (at_ r =? end_) then Err Truncated else Ok (v, r).

(** A value of each type, its alignment passed. *)
Definition decode_body (one : ty -> Reader -> result WireError (value * Reader)) (t : ty) (depth : Z) (r : Reader)
  : result WireError (value * Reader) :=
  match t with
  | TByte => '(b, r) ← read_byte r; Ok (VByte b, r)
  | TBool =>
    '(n, r) ← uint 4 r;
    if n =? 0 then Ok (VBool false, r) else if n =? 1 then Ok (VBool true, r) else Err (BadBool n)
  | TInt16 => '(n, r) ← uint 2 r; Ok (VInt16 (signed 16 n), r)
  | TUint16 => '(n, r) ← uint 2 r; Ok (VUint16 n, r)
  | TInt32 => '(n, r) ← uint 4 r; Ok (VInt32 (signed 32 n), r)
  | TUint32 => '(n, r) ← uint 4 r; Ok (VUint32 n, r)
  | TInt64 => '(n, r) ← uint 8 r; Ok (VInt64 (signed 64 n), r)
  | TUint64 => '(n, r) ← uint 8 r; Ok (VUint64 n, r)
  | TDouble => '(n, r) ← uint 8 r; Ok (VDouble n, r)
  | TFd => '(n, r) ← uint 4 r; Ok (VFd n, r)
  | TStr => '(n, r) ← uint 4 r; '(s, r) ← text n r; Ok (VStr s, r)
  | TObjectPath =>
    '(n, r) ← uint 4 r; '(s, r) ← text n r;
    if valid_object_path s then Ok (VObjectPath s, r) else Err (BadObjectPath s)
  | TSignature =>
    '(n, r) ← read_byte r; '(s, r) ← text (u8 n) r; _ ← get_signature s; Ok (VSignature s, r)
  | TVariant =>
    '(n, r) ← read_byte r; '(s, r) ← text (u8 n) r; types ← get_signature s;
    match types with
    | [inner] => '(v, r) ← one inner r; Ok (VVariant v, r)
    | _ => Err (BadSignature s)
    end
  | TArray element => decode_array one element depth r
  | TStruct fields => '(vs, r) ← decode_fields one fields r; Ok (VStruct vs, r)
  | TDictEntry _ _ => Err (Unsupported (B "a dict entry outside an array"))
  end.

Fixpoint decode_value (fuel : nat) (t : ty) (depth : Z) (r : Reader) : result WireError (value * Reader) :=
  if depth >? MAX_DEPTH then Err Depth
  else match fuel with
  | O => Err Depth
  | S fuel =>
    r ← count_value r;
    r ← align (alignment t) r;
    decode_body (fun t => decode_value fuel t (depth + 1)) t depth r
  end.

End Reader.

(** Deeper than [MAX_DEPTH] is refused, so 65 levels are enough. *)
Definition DEPTH_FUEL : nat := 65.

Definition decode (sig body : bytes) : result WireError (list value) :=
  types ← get_signature sig;
  '(vs, r) ← decode_fields (fun t => decode_value body DEPTH_FUEL t 0) types (mkReader 0 0);
  if negb (at_ r =? len body) then Err (Trailing (len body - at_ r)) else Ok vs.

(** ** Well-formed values *)

(** What Rust's types guarantee: a number fits its width and text is UTF-8. *)
Fixpoint value_ok (v : value) : bool :=
  match v with
  | VByte _ | VBool _ | VByteArray _ => true
  | VInt16 n => (- 2 ^ 15 <=? n) && (n <? 2 ^ 15)
  | VUint16 n => (0 <=? n) && (n <? 2 ^ 16)
  | VInt32 n => (- 2 ^ 31 <=? n) && (n <? 2 ^ 31)
  | VUint32 n | VFd n => (0 <=? n) && (n <? 2 ^ 32)
  | VInt64 n => (- 2 ^ 63 <=? n) && (n <? 2 ^ 63)
  | VUint64 n | VDouble n => (0 <=? n) && (n <? 2 ^ 64)
  | VStr s | VObjectPath s | VSignature s => utf8_valid s
  | VArray l | VStruct l => forallb value_ok l
  | VDict l => forallb (fun e => utf8_valid e.1 && value_ok e.2) l
  | VVariant v => value_ok v
  end.

(** How many values the decoder counts for it. *)
Fixpoint count (v : value) : Z :=
  match v with
  | VArray l | VStruct l => 1 + fold_right Z.add 0 (map count l)
  | VDict l => 1 + fold_right Z.add 0 (map (fun e => 1 + count e.2) l)
  | VVariant v => 1 + count v
  | _ => 1
  end.

Definition counts (l : list value) : Z := fold_right Z.add 0 (map count l).

(** ** The primitives, one after the other in a buffer *)

Definition padding (n a : Z) : bytes := replicate (Z.to_nat (if n mod a =? 0 then 0 else a - n mod a)) NUL.

Lemma pad_padding out a : pad out a = out ++ padding (len out) a.
Proof. unfold pad, padding. destruct (_ =? _); [by rewrite app_nil_r|done]. Qed.

Lemma len_pad_bytes n a : 0 < a -> len (padding n a) = if n mod a =? 0 then 0 else a - n mod a.
Proof.
  intros Ha. unfold padding. rewrite len_replicate. pose proof (Z.mod_pos_bound n a Ha). destruct (_ =? _); lia.
Qed.

Lemma alignment_pos t : 0 < alignment t.
Proof. by destruct t. Qed.

Section Primitives.
Context (buf : bytes) (Hbuf : len buf <= U64_MAX).

Lemma take_at pre b post p vs : buf = pre ++ b ++ post -> len pre = p ->
  take buf (len b) (mkReader p vs) = Ok (b, mkReader (p + len b) vs).
Proof.
  intros -> <-. unfold take, checked_add, USIZE_MAX. cbn [at_ values]. rewrite (proj2 (Z.leb_le _ _)) by len_lia.
  cbn [ok_or mbind result_bind]. by rewrite slice_app.
Qed.

Lemma align_at pre a post p vs : 0 < a -> buf = pre ++ padding p a ++ post -> len pre = p ->
  align buf a (mkReader p vs) = Ok (mkReader (p + len (padding p a)) vs).
Proof.
  intros Ha Hb Hp. unfold align. cbn [at_]. rewrite <-len_pad_bytes by done.
  rewrite (take_at pre _ post) by done. cbn [mbind result_bind].
  replace (forallb _ (padding p a)) with true; [done|]. symmetry. apply forallb_spec. unfold padding.
  apply Forall_replicate. by rewrite bool_decide_true.
Qed.

Lemma uint_at pre n z post p vs : buf = pre ++ le_bytes n z ++ post -> len pre = p -> 0 <= z < 256 ^ Z.of_nat n ->
  uint buf (Z.of_nat n) (mkReader p vs) = Ok (z, mkReader (p + Z.of_nat n) vs).
Proof.
  intros Hb Hp Hz. unfold uint. rewrite <-(len_le_bytes n z), (take_at pre _ post) by done. cbn [mbind result_bind].
  by rewrite le_val_bytes.
Qed.

Lemma byte_at pre b post p vs : buf = pre ++ [b] ++ post -> len pre = p ->
  read_byte buf (mkReader p vs) = Ok (b, mkReader (p + 1) vs).
Proof. intros Hb Hp. unfold read_byte. by rewrite (take_at pre [b] post). Qed.

Lemma text_at pre s post p vs : buf = pre ++ (s ++ [NUL]) ++ post -> len pre = p -> NUL ∉ s -> utf8_valid s = true ->
  text buf (len s) (mkReader p vs) = Ok (s, mkReader (p + len s + 1) vs).
Proof.
  intros Hb Hp Hn Hu. unfold text. rewrite (take_at pre s ([NUL] ++ post)) by (by rewrite ?Hb, <-?app_assoc).
  cbn [mbind result_bind]. rewrite bool_decide_false by done.
  rewrite (byte_at (pre ++ s) NUL post) by (by rewrite ?Hb, <-?app_assoc || len_lia). cbn [mbind result_bind].
  by rewrite Hu.
Qed.

Lemma count_at p vs : vs + 1 <= MAX_VALUES -> count_value (mkReader p vs) = Ok (mkReader p (vs + 1)).
Proof. intros. unfold count_value. cbn. rewrite Z.gtb_ltb, (proj2 (Z.ltb_ge _ _)) by lia. done. Qed.

End Primitives.

(** Text a signature can be. *)
Lemma plain_one b : bool_decide (0 < u8 b < 128) = true -> Forall (fun b => 0 < u8 b < 128) [b].
Proof. intros Hb%bool_decide_eq_true. by apply Forall_singleton. Qed.

Lemma show_plain t : Forall (fun b => 0 < u8 b < 128) (show t).
Proof.
  revert t. apply ty_ind'.
  - intros t. destruct t; first [exact I|by apply plain_one].
  - intros t IH. cbn. apply (Forall_app_2 _ [_]); [by apply plain_one|done].
  - intros fs IH. cbn. apply (Forall_app_2 _ [_]); [by apply plain_one|]. apply Forall_app. split; [|by apply plain_one].
    apply Forall_concat. by apply Forall_map.
  - intros k v IHk IHv. cbn. apply (Forall_app_2 _ [_]); [by apply plain_one|]. rewrite !Forall_app.
    split_and!; [done|done|by apply plain_one].
Qed.

Lemma signature_plain sig ts : parse_signature sig = Some ts ->
  NUL ∉ sig /\ utf8_valid sig = true /\ len sig <= 255.
Proof.
  intros (-> & Hall & Hl)%parse_signature_spec. assert (Forall (fun b => 0 < u8 b < 128) (show_all ts)) as Hp.
  { unfold show_all. apply Forall_concat, Forall_map, Forall_true. apply show_plain. }
  split_and!; [| |done].
  - intros Hin. rewrite Forall_forall in Hp. apply Hp in Hin. cbn in Hin. lia.
  - apply utf8_valid_ascii, forallb_spec. eapply Forall_impl; [exact Hp|]. cbn. intros b ?. apply Z.ltb_lt. lia.
Qed.
