(* ===== verification/DbusCodec.v ===== *)
(** The codec's contract: what [encode] writes, [decode] reads back.

    [written] is the induction hypothesis about one value: encoding it appends
    some bytes [e], at least one, and wherever [e] sits at the same offset of a
    buffer, decoding there gives the value and ends where [e] ends. *)
From S2P Require Export DbusWire.

(** The types the signature parser can give. *)
Definition typed (t : ty) : Prop := exists a s, ty_ok a s t = true.

Definition reads (v : value) (t : ty) (depth : Z) (n : Z) (e : bytes) : Prop :=
  forall buf pre post vs fuel,
    buf = pre ++ e ++ post -> len pre = n -> len buf <= U64_MAX ->
    (Z.to_nat (65 - depth) <= fuel)%nat -> vs + count v <= MAX_VALUES ->
    decode_value buf fuel t depth (mkReader n vs) = Ok (v, mkReader (n + len e) (vs + count v)).

Definition written (v : value) : Prop := forall t depth out out',
  encode_value v t depth out = Ok out' -> value_ok v = true -> typed t ->
  exists e, out' = out ++ e /\ 0 < len e /\ reads v t depth (len out) e.

Lemma fold_nonneg {A} (f : A -> Z) l : Forall (fun x => 1 <= f x) l -> 0 <= fold_right Z.add 0 (map f l).
Proof. induction 1; cbn; lia. Qed.

Lemma count_pos v : 1 <= count v.
Proof.
  revert v. apply value_ind'.
  - intros v. by destruct v.
  - intros l H%fold_nonneg. cbn. lia.
  - intros l H%fold_nonneg. cbn. lia.
  - intros l H. cbn. pose proof (fold_nonneg (fun e : bytes * value => 1 + count e.2) l). rewrite Forall_forall in *.
    specialize (H0 ltac:(intros x Hx; specialize (H x Hx); cbn in *; lia)). lia.
  - intros v H. cbn. lia.
Qed.

Lemma counts_nonneg l : 0 <= counts l.
Proof. apply fold_nonneg, Forall_true. apply count_pos. Qed.

Lemma signed_mod bits n : 0 < bits -> - 2 ^ (bits - 1) <= n < 2 ^ (bits - 1) -> signed bits (n mod 2 ^ bits) = n.
Proof.
  intros Hb Hn. assert (2 ^ bits = 2 * 2 ^ (bits - 1)) as E by (rewrite <-Z.pow_succ_r by lia; f_equal; lia).
  unfold signed. destruct (decide (0 <= n)).
  - rewrite Z.mod_small by lia. by rewrite (proj2 (Z.ltb_lt _ _)) by lia.
  - rewrite <-(Z.mod_add n 1), Z.mod_small, (proj2 (Z.ltb_ge _ _)) by lia. lia.
Qed.

Lemma encode_str_ok out s out' : encode_str out s = Ok out' ->
  out' = out ++ le_bytes 4 (len s) ++ s ++ [NUL] /\ NUL ∉ s /\ 0 <= len s < 256 ^ Z.of_nat 4.
Proof.
  unfold encode_str. case_bool_decide; [done|]. rewrite Z.gtb_ltb. destruct (Z.ltb_spec U32_MAX (len s)); [done|].
  intros [= <-]. split_and!; [done|done|len_lia|]. unfold U32_MAX in *. cbn. lia.
Qed.

Lemma typed_array t : typed (TArray t) ->
  (exists k v, t = TDictEntry k v /\ typed v) \/ (is_dict t = false /\ typed t).
Proof.
  intros (a & s & (_ & [(k & v & -> & _ & _ & _ & Hv)|[Hd Ht]])%array_ok).
  - left. eexists _, _. split; [done|]. by eexists _, _.
  - right. split; [done|]. by eexists _, _.
Qed.

Lemma typed_struct fs : typed (TStruct fs) -> fs <> [] /\ Forall typed fs.
Proof.
  intros (a & s & Hok). cbn [ty_ok] in Hok. apply andb_true_iff in Hok as [[_ Hne]%andb_true_iff Hall].
  apply bool_decide_eq_true in Hne. split; [done|]. apply forallb_spec in Hall. eapply Forall_impl; [exact Hall|].
  intros t Ht. exists a, (s + 1). exact Ht.
Qed.

Lemma typed_signature sig ts : parse_signature sig = Some ts -> Forall typed ts.
Proof.
  intros (_ & Hall & _)%parse_signature_spec. eapply Forall_impl; [exact Hall|]. intros t Ht. exists 0, 0. exact Ht.
Qed.

Lemma parts {A} (buf pre e1 e2 post : list A) : buf = pre ++ (e1 ++ e2) ++ post ->
  buf = pre ++ e1 ++ (e2 ++ post) /\ buf = (pre ++ e1) ++ e2 ++ post.
Proof. intros ->. by rewrite <-!app_assoc. Qed.

(** ** One value after the other *)

Section Lists.
Context (depth : Z).

Lemma items_written t items out out' :
  Forall written items -> forallb value_ok items = true -> typed t ->
  encode_items (fun v => encode_value v t depth) items out = Ok out' ->
  exists e, out' = out ++ e /\ len items <= len e /\
  forall buf pre post vs fuel n,
    buf = pre ++ e ++ post -> len pre = len out -> len buf <= U64_MAX ->
    (Z.to_nat (65 - depth) <= fuel)%nat -> vs + counts items <= MAX_VALUES -> (length items <= n)%nat ->
    decode_items (decode_value buf fuel t depth) n (len out + len e) (mkReader (len out) vs)
    = Ok (items, mkReader (len out + len e) (vs + counts items)).
Proof.
  intros Hall Hok Ht. revert out. induction Hall as [|v items Hv Hall IH]; intros out; cbn [encode_items].
  - intros [= <-]. exists []. split_and!; [by rewrite app_nil_r|len_lia|]. intros buf pre post vs fuel n _ _ _ _ _ _.
    rewrite Z.add_0_r. destruct n; cbn [decode_items at_]; rewrite Z.ltb_irrefl; by rewrite Z.add_0_r.
  - cbn [forallb] in Hok. apply andb_true_iff in Hok as [Hvok Hok]. intros (out1 & H1 & H2)%bind_ok.
    destruct (Hv _ _ _ _ H1 Hvok Ht) as (e1 & -> & Hl1 & Hr1).
    destruct (IH Hok _ H2) as (e2 & -> & Hl2 & Hr2). exists (e1 ++ e2).
    split_and!; [by rewrite app_assoc|len_lia|]. intros buf pre post vs fuel n Hb Hp Hbuf Hf Hvs Hn.
    destruct n as [|n]; cbn [length] in Hn; [lia|]. apply parts in Hb as [Hb1 Hb2].
    unfold counts in Hvs. cbn [map fold_right] in Hvs. fold (counts items) in Hvs. pose proof (counts_nonneg items).
    cbn [decode_items at_]. rewrite (proj2 (Z.ltb_lt _ _)) by len_lia.
    rewrite (Hr1 _ _ _ _ _ Hb1 Hp) by (done || lia). cbn [mbind result_bind at_].
    rewrite Z.gtb_ltb, (proj2 (Z.ltb_ge _ _)) by len_lia.
    specialize (Hr2 buf (pre ++ e1) post (vs + count v) fuel n Hb2). rewrite !len_app in *.
    replace (len out + (len e1 + len e2)) with (len out + len e1 + len e2) by lia.
    rewrite Hr2 by (done || lia). cbn [mbind result_bind]. do 3 f_equal. unfold counts. cbn. lia.
Qed.

(** A key as an entry has it, up to its value. *)
Lemma key_written key out out' : encode_str (pad out 8) key = Ok out' -> utf8_valid key = true ->
  exists e, out' = out ++ e /\ 0 < len e /\
  forall buf pre post vs,
    buf = pre ++ e ++ post -> len pre = len out -> len buf <= U64_MAX -> vs + 1 <= MAX_VALUES ->
    (r ← count_value (mkReader (len out) vs); r ← align buf 8 r; '(n0, r) ← uint buf 4 r; text buf n0 r)
    = Ok (key, mkReader (len out + len e) (vs + 1)).
Proof.
  rewrite pad_padding. intros (-> & Hnul & Hl)%encode_str_ok Hu.
  exists (padding (len out) 8 ++ le_bytes 4 (len key) ++ key ++ [NUL]). pose proof (len_nonneg (padding (len out) 8)).
  split_and!; [by rewrite <-!app_assoc|len_lia|]. intros buf pre post vs Hb Hp Hbuf Hvs.
  apply parts in Hb as [Hb1 Hb2]. apply parts in Hb2 as [Hb2 Hb3].
  rewrite count_at by done. cbn [mbind result_bind]. rewrite (align_at _ Hbuf pre 8 _ _ _ eq_refl Hb1 Hp).
  cbn [mbind result_bind]. rewrite (uint_at _ Hbuf _ 4 _ _ _ _ Hb2) by (done || len_lia). cbn [mbind result_bind].
  rewrite (text_at _ Hbuf _ _ _ _ _ Hb3) by (done || len_lia). do 3 f_equal. len_lia.
Qed.

Lemma entries_written t entries out out' :
  Forall (fun e => written e.2) entries -> forallb (fun e => utf8_valid e.1 && value_ok e.2) entries = true -> typed t ->
  encode_entries (fun v => encode_value v t depth) entries out = Ok out' ->
  exists e, out' = out ++ e /\ len entries <= len e /\
  forall buf pre post vs fuel n,
    buf = pre ++ e ++ post -> len pre = len out -> len buf <= U64_MAX ->
    (Z.to_nat (65 - depth) <= fuel)%nat -> vs + count (VDict entries) <= MAX_VALUES + 1 -> (length entries <= n)%nat ->
    decode_entries buf (decode_value buf fuel t depth) n (len out + len e) (mkReader (len out) vs)
    = Ok (entries, mkReader (len out + len e) (vs + count (VDict entries) - 1)).
Proof.
  intros Hall Hok Ht. revert out. induction Hall as [|[key v] entries Hv Hall IH]; intros out; cbn [encode_entries].
  - intros [= <-]. exists []. split_and!; [by rewrite app_nil_r|len_lia|]. intros buf pre post vs fuel n _ _ _ _ _ _.
    rewrite Z.add_0_r. destruct n; cbn [decode_entries at_]; rewrite Z.ltb_irrefl; do 3 f_equal; cbn; lia.
  - cbn [forallb fst snd] in Hok. apply andb_true_iff in Hok as [[Hu Hvok]%andb_true_iff Hok].
    intros (out1 & H1 & (out2 & H2 & H3)%bind_ok)%bind_ok.
    cbn [snd] in Hv. destruct (key_written _ _ _ H1 Hu) as (e0 & -> & Hl0 & Hr0).
    destruct (Hv _ _ _ _ H2 Hvok Ht) as (e1 & -> & Hl1 & Hr1).
    destruct (IH Hok _ H3) as (e2 & -> & Hl2 & Hr2). exists (e0 ++ e1 ++ e2).
    split_and!; [by rewrite <-!app_assoc|len_lia|]. intros buf pre post vs fuel n Hb Hp Hbuf Hf Hvs Hn.
    destruct n as [|n]; cbn [length] in Hn; [lia|]. apply parts in Hb as [Hb0 Hb1]. apply parts in Hb1 as [Hb1 Hb2].
    assert (count (VDict ((key, v) :: entries)) = 1 + count v + count (VDict entries)) as Hc by (cbn; lia).
    rewrite Hc in *. pose proof (count_pos (VDict entries)) as Hpos. pose proof (count_pos v).
    cbn [decode_entries at_]. rewrite (proj2 (Z.ltb_lt _ _)) by len_lia.
    specialize (Hr0 _ _ _ vs Hb0 Hp Hbuf ltac:(lia)).
    apply bind_ok in Hr0 as (r1 & -> & (r2 & Ha & ([n0 r3] & Hn0 & Ht0)%bind_ok)%bind_ok).
    cbn [mbind result_bind] in *. rewrite Ha. cbn [mbind result_bind]. rewrite Hn0. cbn [mbind result_bind]. rewrite Ht0.
    cbn [mbind result_bind]. rewrite !len_app in *.
    rewrite (Hr1 _ _ _ _ _ Hb1) by (rewrite ?len_app; done || lia). cbn [mbind result_bind at_].
    rewrite Z.gtb_ltb, (proj2 (Z.ltb_ge _ _)) by len_lia.
    specialize (Hr2 buf _ post (vs + 1 + count v) fuel n Hb2). rewrite !len_app in *.
    replace (len out + (len e0 + (len e1 + len e2))) with (len out + len e0 + len e1 + len e2) by lia.
    rewrite Hr2 by (done || lia). cbn [mbind result_bind]. do 3 f_equal. lia.
Qed.

Lemma fields_written vs ts out out' :
  Forall written vs -> forallb value_ok vs = true -> Forall typed ts -> length ts = length vs ->
  encode_fields (fun v t => encode_value v t depth) vs ts out = Ok out' ->
  exists e, out' = out ++ e /\ len vs <= len e /\
  forall buf pre post n fuel,
    buf = pre ++ e ++ post -> len pre = len out -> len buf <= U64_MAX ->
    (Z.to_nat (65 - depth) <= fuel)%nat -> n + counts vs <= MAX_VALUES ->
    decode_fields (fun t => decode_value buf fuel t depth) ts (mkReader (len out) n)
    = Ok (vs, mkReader (len out + len e) (n + counts vs)).
Proof.
  intros Hall Hok Hts. revert ts Hts out. induction Hall as [|v vs Hv Hall IH]; intros ts Hts out Hl.
  - destruct ts; [|done]. intros [= <-]. exists []. split_and!; [by rewrite app_nil_r|len_lia|].
    intros buf pre post n fuel _ _ _ _ _. cbn. by rewrite !Z.add_0_r.
  - destruct Hts as [|t ts Ht Hts]; [done|]. cbn [forallb] in Hok. apply andb_true_iff in Hok as [Hvok Hok].
    intros (out1 & H1 & H2)%bind_ok.
    destruct (Hv _ _ _ _ H1 Hvok Ht) as (e1 & -> & Hl1 & Hr1).
    destruct (IH Hok _ Hts _ ltac:(by injection Hl) H2) as (e2 & -> & Hl2 & Hr2). exists (e1 ++ e2).
    split_and!; [by rewrite app_assoc|len_lia|]. intros buf pre post n fuel Hb Hp Hbuf Hf Hvs.
    apply parts in Hb as [Hb1 Hb2]. unfold counts in Hvs. cbn [map fold_right] in Hvs. fold (counts vs) in Hvs.
    pose proof (counts_nonneg vs). cbn [decode_fields]. rewrite (Hr1 _ _ _ _ _ Hb1 Hp) by (done || lia).
    cbn [mbind result_bind]. specialize (Hr2 buf (pre ++ e1) post (n + count v) fuel Hb2). rewrite !len_app in *.
    rewrite Hr2 by (done || lia). cbn [mbind result_bind]. do 3 f_equal; unfold counts; cbn; lia.
Qed.

End Lists.

(** ** An array, from its length on *)

Lemma finish_spec out q e out' :
  finish_array (len out) (len out + 4 + len q) (((out ++ le_bytes 4 0) ++ q) ++ e) = Ok out' ->
  len e <= MAX_ARRAY /\ out' = out ++ le_bytes 4 (len e) ++ q ++ e.
Proof.
  unfold finish_array. replace (_ - _) with (len e) by len_lia. rewrite Z.gtb_ltb.
  destruct (Z.ltb_spec MAX_ARRAY (len e)); [done|]. intros [= <-]. split; [done|].
  rewrite <-!app_assoc, upto_app. do 2 f_equal. rewrite app_assoc.
  replace (len out + 4) with (len (out ++ le_bytes 4 0)) by len_lia. by rewrite from_app.
Qed.

Lemma array_read buf pre e post one element depth vs v vs' :
  buf = pre ++ (le_bytes 4 (len e) ++ padding (len pre + 4) (alignment element) ++ e) ++ post -> len buf <= U64_MAX ->
  depth < MAX_DEPTH -> len e <= MAX_ARRAY ->
  (let p := len pre + 4 + len (padding (len pre + 4) (alignment element)) in
   decode_elements buf one element (len e) (p + len e) (mkReader p vs) = Ok (v, mkReader (p + len e) vs')) ->
  decode_array buf one element depth (mkReader (len pre) vs)
  = Ok (v, mkReader (len pre + 4 + len (padding (len pre + 4) (alignment element)) + len e) vs').
Proof.
  intros Hb Hbuf Hd He Hel. apply parts in Hb as [Hb1 Hb2]. apply parts in Hb2 as [Hb2 Hb3].
  unfold decode_array. rewrite Z.geb_leb, (proj2 (Z.leb_gt _ _)) by lia.
  rewrite (uint_at _ Hbuf _ 4 _ _ _ _ Hb1 eq_refl) by (change MAX_ARRAY with 67108864 in He; change (256 ^ Z.of_nat 4) with 4294967296; len_lia).
  cbn [mbind result_bind]. rewrite Z.gtb_ltb, (proj2 (Z.ltb_ge _ _)) by lia.
  change (Z.of_nat 4) with 4. rewrite (align_at _ Hbuf _ _ _ _ vs (alignment_pos _) Hb2) by len_lia. cbn [mbind result_bind at_].
  assert (len pre + 4 + len (padding (len pre + 4) (alignment element)) + len e <= len buf) as Hl.
  { apply (f_equal len) in Hb3. rewrite !len_app, len_le_bytes in Hb3. pose proof (len_nonneg post). lia. }
  unfold checked_add. rewrite (proj2 (Z.leb_le _ _)) by (unfold USIZE_MAX; lia). cbn [ok_or mbind result_bind].
  rewrite Z.gtb_ltb, (proj2 (Z.ltb_ge _ _)) by lia. rewrite Hel. cbn [mbind result_bind at_].
  by rewrite Z.eqb_refl.
Qed.

(** ** Every value *)

(** The decoder, past the count and the alignment. *)
Definition body_reads (v : value) (t : ty) (depth : Z) (e : bytes) (n : Z) : Prop := forall buf pre post vs fuel,
  buf = pre ++ e ++ post -> len pre = n -> len buf <= U64_MAX -> (Z.to_nat (65 - (depth + 1)) <= fuel)%nat ->
  vs + count v <= MAX_VALUES + 1 ->
  decode_body buf (fun t => decode_value buf fuel t (depth + 1)) t depth (mkReader n vs)
  = Ok (v, mkReader (n + len e) (vs + count v - 1)).

Lemma reads_body v t depth n e : depth <= MAX_DEPTH ->
  body_reads v t depth e (n + len (padding n (alignment t))) -> reads v t depth n (padding n (alignment t) ++ e).
Proof.
  intros Hd Hbody buf pre post vs fuel Hb Hp Hbuf Hf Hvs. apply parts in Hb as [Hb1 Hb2].
  pose proof (count_pos v). change MAX_DEPTH with 64 in Hd. destruct fuel as [|fuel]; [lia|]. cbn [decode_value].
  rewrite Z.gtb_ltb, (proj2 (Z.ltb_ge _ _)) by (change MAX_DEPTH with 64; lia).
  rewrite count_at by lia. cbn [mbind result_bind].
  rewrite (align_at _ Hbuf _ _ _ _ _ (alignment_pos _) ltac:(by rewrite Hb1) Hp). cbn [mbind result_bind].
  rewrite (Hbody _ _ _ (vs + 1) fuel Hb2) by (lia || len_lia). do 3 f_equal; len_lia.
Qed.

Lemma written_body v t depth out e : depth <= MAX_DEPTH -> 0 < len e ->
  body_reads v t depth e (len (pad out (alignment t))) ->
  exists e', pad out (alignment t) ++ e = out ++ e' /\ 0 < len e' /\ reads v t depth (len out) e'.
Proof.
  rewrite pad_padding, len_app. intros Hd He Hr. exists (padding (len out) (alignment t) ++ e).
  split_and!; [by rewrite app_assoc| |by apply reads_body]. rewrite len_app. pose proof (len_nonneg (padding (len out) (alignment t))). lia.
Qed.

(** A number, a text and a signature. *)
Lemma number_reads k n v t depth p f :
  (forall buf one r, decode_body buf one t depth r = '(n', r) ← uint buf (Z.of_nat k) r; f n' r) ->
  0 <= n < 256 ^ Z.of_nat k -> (forall r, f n r = Ok (v, r)) -> count v = 1 ->
  body_reads v t depth (le_bytes k n) p.
Proof.
  intros Hbody Hn Hv Hc buf pre post vs fuel Hb Hp Hbuf Hf Hvs. rewrite Hbody.
  rewrite (uint_at _ Hbuf _ _ _ _ _ _ Hb Hp Hn). cbn [mbind result_bind].
  rewrite Hv, Hc, len_le_bytes. do 3 f_equal. lia.
Qed.

Lemma text_reads s v t depth p f :
  (forall buf one r, decode_body buf one t depth r = '(n, r) ← uint buf 4 r; '(s, r) ← text buf n r; f s r) ->
  0 <= len s < 256 ^ Z.of_nat 4 -> NUL ∉ s -> utf8_valid s = true -> (forall r, f s r = Ok (v, r)) -> count v = 1 ->
  body_reads v t depth (le_bytes 4 (len s) ++ s ++ [NUL]) p.
Proof.
  intros Hbody Hn Hnul Hu Hv Hc buf pre post vs fuel Hb Hp Hbuf Hf Hvs. rewrite Hbody. apply parts in Hb as [Hb1 Hb2].
  rewrite (uint_at _ Hbuf _ 4 _ _ _ _ Hb1 Hp Hn). cbn [mbind result_bind].
  rewrite (text_at _ Hbuf _ _ _ _ _ Hb2) by (done || len_lia). cbn [mbind result_bind].
  rewrite Hv, Hc. do 3 f_equal; len_lia.
Qed.

Lemma signature_at buf pre sig post p vs ts : len buf <= U64_MAX ->
  buf = pre ++ ([to_u8 (len sig)] ++ sig ++ [NUL]) ++ post -> len pre = p -> parse_signature sig = Some ts ->
  read_byte buf (mkReader p vs) = Ok (to_u8 (len sig), mkReader (p + 1) vs) /\
  text buf (u8 (to_u8 (len sig))) (mkReader (p + 1) vs) = Ok (sig, mkReader (p + 1 + len sig + 1) vs).
Proof.
  intros Hbuf Hb Hp Hs. apply signature_plain in Hs as (Hnul & Hu & Hl). apply parts in Hb as [Hb1 Hb2].
  split; [by rewrite (byte_at _ Hbuf _ _ _ _ _ Hb1 Hp)|]. rewrite u8_to_u8, Z.mod_small by len_lia.
  by rewrite (text_at _ Hbuf _ _ _ _ _ Hb2) by (done || len_lia).
Qed.

Lemma signature_reads s ts depth p : parse_signature s = Some ts ->
  body_reads (VSignature s) TSignature depth ([to_u8 (len s)] ++ s ++ [NUL]) p.
Proof.
  intros Hs buf pre post vs fuel Hb Hp Hbuf Hf Hvs.
  destruct (signature_at _ _ _ _ _ vs _ Hbuf Hb Hp Hs) as [H1 H2]. cbn [decode_body].
  rewrite H1. cbn [mbind result_bind]. rewrite H2. cbn [mbind result_bind]. unfold get_signature. rewrite Hs.
  cbn [ok_or mbind result_bind]. do 3 f_equal; cbn; len_lia.
Qed.

Lemma variant_reads sig t v depth out e p : parse_signature sig = Some [t] -> p = len out ->
  reads v t (depth + 1) (len (out ++ ([to_u8 (len sig)] ++ sig ++ [NUL]))) e ->
  body_reads (VVariant v) TVariant depth (([to_u8 (len sig)] ++ sig ++ [NUL]) ++ e) p.
Proof.
  intros Hs -> Hr buf pre post vs fuel Hb Hp Hbuf Hf Hvs. apply parts in Hb as [Hb1 Hb2].
  destruct (signature_at _ _ _ _ _ vs _ Hbuf Hb1 Hp Hs) as [H1 H2]. cbn [decode_body].
  rewrite H1. cbn [mbind result_bind]. rewrite H2. cbn [mbind result_bind]. unfold get_signature. rewrite Hs.
  cbn [ok_or mbind result_bind count] in *. specialize (Hr _ _ _ vs fuel Hb2).
  replace (len out + 1 + len sig + 1) with (len (out ++ [to_u8 (len sig)] ++ sig ++ [NUL])) by len_lia.
  rewrite Hr by (done || len_lia). cbn [mbind result_bind]. do 3 f_equal; len_lia.
Qed.

Definition parts_written (v : value) : Prop :=
  match v with
  | VArray l | VStruct l => Forall written l
  | VDict l => Forall (fun e => written e.2) l
  | VVariant v => written v
  | _ => True
  end.

Definition elements_read (v : value) (element : ty) (depth n : Z) (e : bytes) : Prop := forall buf pre post vs fuel,
  buf = pre ++ e ++ post -> len pre = n -> len buf <= U64_MAX -> (Z.to_nat (65 - (depth + 1)) <= fuel)%nat ->
  vs + count v <= MAX_VALUES + 1 ->
  decode_elements buf (fun t => decode_value buf fuel t (depth + 1)) element (len e) (n + len e) (mkReader n vs)
  = Ok (v, mkReader (n + len e) (vs + count v - 1)).

Lemma items_elements items element depth out out' :
  Forall written items -> forallb value_ok items = true -> typed element ->
  match element with TByte | TDictEntry _ _ => False | _ => True end ->
  encode_items (fun v => encode_value v element (depth + 1)) items out = Ok out' ->
  exists e, out' = out ++ e /\ elements_read (VArray items) element depth (len out) e.
Proof.
  intros Hall Hok Ht Hel H. destruct (items_written _ _ _ _ _ Hall Hok Ht H) as (e & -> & Hl & Hr).
  exists e. split; [done|]. intros buf pre post vs fuel Hb Hp Hbuf Hf Hvs. cbn [count] in *. fold (counts items) in *.
  specialize (Hr buf pre post vs fuel (Z.to_nat (len e)) Hb Hp Hbuf Hf ltac:(lia) ltac:(unfold len in *; lia)).
  assert (decode_elements buf (fun t => decode_value buf fuel t (depth + 1)) element (len e) (len out + len e) (mkReader (len out) vs)
    = '(l, r) ← decode_items (decode_value buf fuel element (depth + 1)) (Z.to_nat (len e)) (len out + len e) (mkReader (len out) vs);
      Ok (VArray l, r)) as -> by (by destruct element).
  rewrite Hr. cbn [mbind result_bind]. do 3 f_equal. lia.
Qed.

Lemma elements_written v element depth out out' :
  parts_written v -> value_ok v = true -> typed (TArray element) ->
  encode_elements (fun v t => encode_value v t (depth + 1)) v element out = Ok out' ->
  exists e, out' = out ++ e /\ elements_read v element depth (len out) e.
Proof.
  intros Hp Hok [(k & t & -> & Ht)|[Hd Ht]]%typed_array.
  - unfold encode_elements. destruct v as [| | | | | | | | | | | | | | | |l|]; try done. destruct (decide (k = TStr)) as [->|]; [|by rewrite bool_decide_false].
    rewrite bool_decide_true by done. cbn [negb]. intros H.
    destruct (entries_written _ _ _ _ _ Hp Hok Ht H) as (e & -> & Hl & Hr). exists e. split; [done|].
    intros buf pre post vs fuel Hb Hpre Hbuf Hf Hvs. cbn [decode_elements]. rewrite bool_decide_true by done. cbn [negb].
    by rewrite (Hr buf pre post vs fuel) by (done || unfold len in *; lia).
  - assert (forall items, v = VArray items -> match element with TByte | TDictEntry _ _ => False | _ => True end ->
      encode_elements (fun v t => encode_value v t (depth + 1)) v element out = Ok out' ->
      exists e, out' = out ++ e /\ elements_read v element depth (len out) e) as Hitems.
    { intros items -> Hel H. apply items_elements; try done. by destruct element. }
    destruct element; try done; destruct v; try done; try (intros H; by eapply Hitems).
    intros [= <-]. exists v. split; [done|]. intros buf pre post vs fuel Hb Hpre Hbuf Hf Hvs. cbn [decode_elements].
    rewrite (take_at _ Hbuf _ _ _ _ _ Hb Hpre). cbn [mbind result_bind]. do 3 f_equal. cbn. lia.
Qed.

Lemma len_word k n q : (0 < k)%nat -> 0 < len (le_bytes k n ++ q).
Proof. rewrite len_app, len_le_bytes. pose proof (len_nonneg q). lia. Qed.

Lemma array_written v element depth out out' :
  parts_written v -> value_ok v = true -> typed (TArray element) -> depth <= MAX_DEPTH ->
  encode_value v (TArray element) depth out = Ok out' ->
  exists e, out' = out ++ e /\ 0 < len e /\ reads v (TArray element) depth (len out) e.
Proof.
  intros Hp Hok Ht Hd H. assert (encode_value v (TArray element) depth out =
    if depth >=? MAX_DEPTH then Err Depth else
      out' ← encode_elements (fun v t => encode_value v t (depth + 1)) v element
               (pad (pad out 4 ++ le_bytes 4 0) (alignment element));
      finish_array (len (pad out 4)) (len (pad (pad out 4 ++ le_bytes 4 0) (alignment element))) out') as E.
  { destruct v; cbn [encode_value alignment]; by rewrite Z.gtb_ltb, (proj2 (Z.ltb_ge _ _)) by lia. }
  rewrite E, Z.geb_leb in H. clear E. destruct (Z.leb_spec MAX_DEPTH depth) as [|Hd']; [done|].
  apply bind_ok in H as (out1 & H1 & H2). destruct (elements_written _ _ _ _ _ Hp Hok Ht H1) as (x & -> & Hx).
  rewrite (pad_padding (pad out 4 ++ _)) in *. rewrite !len_app, len_le_bytes in *.
  apply finish_spec in H2 as [Hl ->]. apply (written_body v (TArray element) depth out); [done|apply len_word; lia|]. cbn [alignment].
  intros buf pre post vs fuel Hb Hpre Hbuf Hf Hvs. cbn [decode_body]. rewrite <-Hpre in *. change (Z.of_nat 4) with 4 in *.
  rewrite (array_read buf pre x post _ element depth vs v (vs + count v - 1)); [|done|done|done|done|].
  - do 3 f_equal. len_lia.
  - intros p. apply parts in Hb as [_ Hb]. apply parts in Hb as [_ Hb]. eapply Hx; [exact Hb|by rewrite !len_app, len_le_bytes|done|lia|lia].
Qed.

Lemma struct_written l fields depth out out' :
  Forall written l -> forallb value_ok l = true -> typed (TStruct fields) -> depth <= MAX_DEPTH ->
  encode_value (VStruct l) (TStruct fields) depth out = Ok out' ->
  exists e, out' = out ++ e /\ 0 < len e /\ reads (VStruct l) (TStruct fields) depth (len out) e.
Proof.
  intros Hp Hok [Hne Ht]%typed_struct Hd. cbn [encode_value]. rewrite Z.gtb_ltb, (proj2 (Z.ltb_ge _ _)) by lia.
  destruct (Z.eqb_spec (len fields) (len l)) as [El|]; [|done]. cbn [negb]. intros H.
  destruct (fields_written _ _ _ _ _ Hp Hok Ht ltac:(by apply Nat2Z.inj) H) as (e & -> & He & Hr).
  apply (written_body (VStruct l) (TStruct fields) depth out); [done|destruct fields; [done|]; rewrite len_cons in El; len_lia|].
  intros buf pre post vs fuel Hb Hpre Hbuf Hf Hvs. cbn [decode_body count] in *. fold (counts l) in *.
  rewrite (Hr buf pre post vs fuel) by (done || lia). cbn [mbind result_bind]. do 3 f_equal. lia.
Qed.

Lemma variant_written v depth out out' :
  written v -> value_ok v = true -> depth <= MAX_DEPTH ->
  encode_value (VVariant v) TVariant depth out = Ok out' ->
  exists e, out' = out ++ e /\ 0 < len e /\ reads (VVariant v) TVariant depth (len out) e.
Proof.
  intros Hv Hok Hd. cbn [encode_value]. rewrite Z.gtb_ltb, (proj2 (Z.ltb_ge _ _)) by lia.
  intros (sig & Hsig & (types & Hs & H)%bind_ok)%bind_ok. apply ok_or_ok in Hs.
  destruct types as [|t [|]]; [done| |done]. pose proof (typed_signature _ _ Hs) as [Ht _]%Forall_cons.
  destruct (Hv _ _ _ _ H Hok Ht) as (e & -> & He & Hr). unfold encode_signature in *. rewrite <-app_assoc.
  apply (written_body (VVariant v) TVariant depth out); [done|len_lia|]. by eapply variant_reads.
Qed.

Lemma number_written k n v t depth out f :
  depth <= MAX_DEPTH -> (0 < k)%nat ->
  (forall buf one r, decode_body buf one t depth r = '(n', r) ← uint buf (Z.of_nat k) r; f n' r) ->
  0 <= n < 256 ^ Z.of_nat k -> (forall r, f n r = Ok (v, r)) -> count v = 1 ->
  exists e, pad out (alignment t) ++ le_bytes k n = out ++ e /\ 0 < len e /\ reads v t depth (len out) e.
Proof. intros. apply written_body; [done|rewrite len_le_bytes; lia|]. by eapply number_reads. Qed.

Lemma text_written s v t depth out out' f :
  depth <= MAX_DEPTH -> encode_str (pad out (alignment t)) s = Ok out' -> utf8_valid s = true ->
  (forall buf one r, decode_body buf one t depth r = '(n, r) ← uint buf 4 r; '(s, r) ← text buf n r; f s r) ->
  (forall r, f s r = Ok (v, r)) -> count v = 1 ->
  exists e, out' = out ++ e /\ 0 < len e /\ reads v t depth (len out) e.
Proof.
  intros Hd (-> & Hnul & Hl)%encode_str_ok Hu Hb Hf Hc. apply written_body; [done|apply len_word; lia|].
  by eapply text_reads.
Qed.

Lemma signed_written k bits n v t depth out f :
  depth <= MAX_DEPTH -> (0 < k)%nat -> 2 ^ bits = 256 ^ Z.of_nat k -> 0 < bits ->
  (- 2 ^ (bits - 1) <=? n) && (n <? 2 ^ (bits - 1)) = true ->
  (forall buf one r, decode_body buf one t depth r = '(n', r) ← uint buf (Z.of_nat k) r; f (signed bits n') r) ->
  (forall r, f n r = Ok (v, r)) -> count v = 1 ->
  exists e, pad out (alignment t) ++ le_bytes k (n mod 2 ^ bits) = out ++ e /\ 0 < len e /\ reads v t depth (len out) e.
Proof.
  intros Hd Hk Hp Hbits Hn Hb Hf Hc. bool_to_prop. apply (number_written _ _ _ _ _ _ (fun n => f (signed bits n))); try done.
  - rewrite <-Hp. apply Z.mod_pos_bound. lia.
  - intros r. by rewrite signed_mod.
Qed.

Lemma value_step v : parts_written v -> written v.
Proof.
  intros Hp t depth out out' H Hok Ht. destruct (Z.leb_spec depth MAX_DEPTH) as [Hd|Hd]; last first.
  { destruct v; cbn [encode_value] in H; by rewrite Z.gtb_ltb, (proj2 (Z.ltb_lt _ _)) in H. }
  destruct t; try (by eapply array_written); destruct v; cbn [value_ok] in Hok;
    try (by eapply struct_written); try (by eapply variant_written); revert H;
    cbn [encode_value]; rewrite Z.gtb_ltb, (proj2 (Z.ltb_ge _ _)) by lia; try done.
  - intros [= <-]. apply (written_body _ TByte); [done|done|]. intros buf pre post vs fuel Hb Hpre Hbuf Hf Hvs.
    cbn [decode_body]. rewrite (byte_at _ Hbuf _ _ _ _ _ Hb Hpre). cbn [mbind result_bind]. do 3 f_equal; cbn; lia.
  - intros [= <-]. eapply (number_written 4 _ _ TBool); try done; [lia|by destruct v|]. intros r. by destruct v.
  - intros [= <-]. apply (signed_written 2 16 _ _ TInt16 _ _ (fun n r => Ok (VInt16 n, r))); try done; first [lia|exact Hok].
  - intros [= <-]. eapply (number_written 2 _ _ TUint16); try done; [lia|by bool_to_prop].
  - intros [= <-]. apply (signed_written 4 32 _ _ TInt32 _ _ (fun n r => Ok (VInt32 n, r))); try done; first [lia|exact Hok].
  - intros [= <-]. eapply (number_written 4 _ _ TUint32); try done; [lia|by bool_to_prop].
  - intros [= <-]. apply (signed_written 8 64 _ _ TInt64 _ _ (fun n r => Ok (VInt64 n, r))); try done; first [lia|exact Hok].
  - intros [= <-]. eapply (number_written 8 _ _ TUint64); try done; [lia|by bool_to_prop].
  - intros [= <-]. eapply (number_written 8 _ _ TDouble); try done; [lia|by bool_to_prop].
  - intros H. eapply (text_written _ _ TStr); done.
  - destruct (valid_object_path v) eqn:Ev; [|done]. intros H. eapply (text_written _ _ TObjectPath); try done.
    intros r. cbv beta. by rewrite Ev.
  - intros (ts & Hs%ok_or_ok & [= <-])%bind_ok. unfold encode_signature. apply (written_body _ TSignature); [done|done|].
    by eapply signature_reads.
  - intros [= <-]. eapply (number_written 4 _ _ TFd); try done; [lia|by bool_to_prop].
Qed.

Lemma value_written v : written v.
Proof.
  revert v. apply value_ind'.
  - intros v. destruct v; try exact I; by apply value_step.
  - intros l Hl. by apply value_step.
  - intros l Hl. by apply value_step.
  - intros l Hl. by apply value_step.
  - intros v Hv. by apply value_step.
Qed.

Lemma body_decode_encode sig vs body :
  encode sig vs = Ok body -> forallb value_ok vs = true -> counts vs <= MAX_VALUES -> len body <= U64_MAX ->
  decode sig body = Ok vs.
Proof.
  unfold encode, decode. intros (types & Hs & H)%bind_ok Hok Hc Hl. rewrite Hs. cbn [mbind result_bind].
  apply ok_or_ok in Hs. destruct (Z.eqb_spec (len types) (len vs)) as [El|]; [|done]. cbn [negb] in H.
  destruct (fields_written 0 vs types [] body) as (e & -> & _ & Hr);
    [by apply Forall_true, value_written|done|by eapply typed_signature|by apply Nat2Z.inj|done|].
  rewrite app_nil_l in *. specialize (Hr e [] [] 0 DEPTH_FUEL). rewrite app_nil_r in Hr.
  change (len []) with 0 in Hr. rewrite Hr by (done || lia). cbn [mbind result_bind at_].
  by rewrite Z.add_0_l, Z.eqb_refl.
Qed.

(** C16. What the codec writes it reads back: when the values of a message fit their
    signature, so that [encode] gives a body, [decode] of that body with that
    signature gives the same values, whatever their nesting, their padding and
    the signatures inside their variants; the values must be ones the Rust types
    can hold, and no more than the decoder counts to. *)
Theorem dbus_body_roundtrip sig vs body :
  encode sig vs = Ok body -> forallb value_ok vs = true -> counts vs <= MAX_VALUES -> len body <= U64_MAX ->
  decode sig body = Ok vs.
Proof. apply body_decode_encode. Qed.

Definition demo_values : list value :=
  [VDict [(B "k", VVariant (VArray [VInt16 (-2); VInt16 7])); (B "path", VVariant (VObjectPath (B "/org/bubbler")))];
   VStruct [VByte "y"%byte; VInt64 (-9)]; VArray [VStr (B "net"); VStr []]; VByteArray (B "raw"); VBool true].

Lemma dbus_body_roundtrip_witness :
  exists body, encode (B "a{sv}(yx)asayb") demo_values = Ok body /\ decode (B "a{sv}(yx)asayb") body = Ok demo_values.
Proof.
  eexists. split; [vm_compute; reflexivity|]. eapply (dbus_body_roundtrip (B "a{sv}(yx)asayb")); vm_compute; congruence.
Defined.
