(* ===== verification/DbusMessage.v ===== *)
(** D-Bus messages: [encode_message], [frame], [decode_message], [uid_hex] and
    [check_fd_indices] of [crates/bubbler-core/src/dbus_wire.rs].

    A message code and a header field code are the [u8] as a number.  The
    properties: a message that was encoded is framed where it was put together,
    whatever follows it in the buffer, and read back with the header fields it
    was given; and descriptor indices are checked at every depth of a body. *)
From S2P Require Export DbusCodec.

Definition PROTOCOL_VERSION : Z := 1.
Definition FIXED_HEADER : Z := 16.
Definition MSG_METHOD_CALL : Z := 1.
Definition MSG_METHOD_RETURN : Z := 2.
Definition MSG_ERROR : Z := 3.
Definition FIELD_PATH : Z := 1.
Definition FIELD_INTERFACE : Z := 2.
Definition FIELD_MEMBER : Z := 3.
Definition FIELD_ERROR_NAME : Z := 4.
Definition FIELD_REPLY_SERIAL : Z := 5.
Definition FIELD_DESTINATION : Z := 6.
Definition FIELD_SENDER : Z := 7.
Definition FIELD_SIGNATURE : Z := 8.
Definition FIELD_UNIX_FDS : Z := 9.

Record Message := mkMessage
  { m_kind : Z; reply_serial : option Z; error_name : option bytes; sender : option bytes;
    m_signature : bytes; unix_fds : Z; m_body : bytes }.

Definition HEADER : bytes := B "yyyyuua(yv)".

Definition LITTLE : byte := "l"%byte.

Definition field_struct (f : Z * value) : value := VStruct [VByte (to_u8 f.1); VVariant f.2].

Definition encode_message (kind flags serial : Z) (fields : list (Z * value)) (body : bytes) : result WireError bytes :=
  if len body >? MAX_MESSAGE then Err (MessageTooLong (len body))
  else
    message ← encode HEADER
      [VByte LITTLE; VByte (to_u8 kind); VByte (to_u8 flags); VByte (to_u8 PROTOCOL_VERSION);
       VUint32 (len body); VUint32 serial; VArray (map field_struct fields)];
    let message := pad message 8 ++ body in
    if len message >? MAX_MESSAGE then Err (MessageTooLong (len message)) else Ok message.

(** [u32::from_le_bytes] of four bytes at an index. *)
Definition u32_at (b : bytes) (i : Z) : Z := le_val (upto (from b i) 4).

Definition frame (head : bytes) : result WireError (Z * Z) :=
  head ← ok_or (slice head 0 FIXED_HEADER) Truncated;
  b0 ← ok_or (get head 0) Truncated;
  b3 ← ok_or (get head 3) Truncated;
  if negb (bool_decide (b0 = LITTLE)) then Err (Endianness b0)
  else if negb (u8 b3 =? PROTOCOL_VERSION) then Err (BadMessage (B "a message of an unknown version"))
  else
    let body_len := u32_at head 4 in
    let fields_len := u32_at head 12 in
    if fields_len >? MAX_ARRAY then Err (ArrayTooLong fields_len)
    else if body_len >? MAX_INCOMING then Err (MessageTooLong body_len)
    else
      let body_at := align_up (FIXED_HEADER + fields_len) 8 in
      total ← ok_or (checked_add body_at body_len) (MessageTooLong body_len);
      if total >? MAX_INCOMING then Err (MessageTooLong total) else Ok (body_at, body_len).

(** The header fields read so far, and the codes seen. *)
Record Fields := mkFields
  { f_reply_serial : option Z; f_error_name : option bytes; f_sender : option bytes;
    f_signature : bytes; f_unix_fds : Z; f_seen : list Z }.

Definition no_fields : Fields := mkFields None None None [] 0 [].

(** One known field code and its value: the fields with it, or [None] for the wrong type. *)
Definition set_field (code : Z) (v : value) (f : Fields) : option Fields :=
  let '(mkFields rs en se si fds seen) := f in
  if code =? FIELD_REPLY_SERIAL then match v with VUint32 n => Some (mkFields (Some n) en se si fds seen) | _ => None end
  else if code =? FIELD_ERROR_NAME then match v with VStr s => Some (mkFields rs (Some s) se si fds seen) | _ => None end
  else if code =? FIELD_SENDER then match v with VStr s => Some (mkFields rs en (Some s) si fds seen) | _ => None end
  else if code =? FIELD_SIGNATURE then match v with VSignature s => Some (mkFields rs en se s fds seen) | _ => None end
  else if code =? FIELD_UNIX_FDS then match v with VUint32 n => Some (mkFields rs en se si n seen) | _ => None end
  else if code =? FIELD_PATH then match v with VObjectPath _ => Some f | _ => None end
  else if (code =? FIELD_INTERFACE) || (code =? FIELD_MEMBER) || (code =? FIELD_DESTINATION) then
    match v with VStr _ => Some f | _ => None end
  else Some f.

Fixpoint read_fields (fields : list value) (f : Fields) : result WireError Fields :=
  match fields with
  | [] => Ok f
  | VStruct [VByte c; VVariant v] :: fields =>
    if bool_decide (u8 c ∈ f_seen f) then Err (BadMessage (B "a header field twice"))
    else
      let '(mkFields rs en se si fds seen) := f in
      match set_field (u8 c) v (mkFields rs en se si fds (seen ++ [u8 c])) with
      | Some f => read_fields fields f
      | None => Err (BadMessage (B "a header field of the wrong type"))
      end
  | _ :: _ => Err (BadMessage (B "a header field it could not read"))
  end.

Definition decode_message (message : bytes) : result WireError Message :=
  '(body_at, body_len) ← frame message;
  let fields_end := FIXED_HEADER + u32_at message 12 in
  header ← ok_or (slice message 0 fields_end) Truncated;
  values ← decode HEADER header;
  match values with
  | [_; VByte kind; _; _; _; _; VArray fields] =>
    padding ← ok_or (slice message fields_end body_at) Truncated;
    if existsb (fun b => negb (bool_decide (b = NUL))) padding then Err Padding
    else
      body ← ok_or (slice message body_at (body_at + body_len)) Truncated;
      f ← read_fields fields no_fields;
      if bool_decide (f_signature f = []) && negb (bool_decide (body = [])) then
        Err (BadMessage (B "a body with no signature"))
      else Ok (mkMessage (u8 kind) (f_reply_serial f) (f_error_name f) (f_sender f) (f_signature f) (f_unix_fds f) body)
  | _ => Err (BadMessage (B "a header it could not read"))
  end.

Definition hex_digit (n : Z) : byte := default NUL (B "0123456789abcdef" !! Z.to_nat n).

Definition uid_hex (uid : Z) : bytes :=
  concat (map (fun b => [hex_digit (Z.shiftr (u8 b) 4); hex_digit (Z.land (u8 b) 15)]) (decimal uid)).

Fixpoint check_fd_indices (v : value) (count : Z) {struct v} : result WireError unit :=
  let all := fix all (l : list value) : result WireError unit :=
    match l with [] => Ok () | v :: l => _ ← check_fd_indices v count; all l end in
  match v with
  | VFd index => if index >=? count then Err (FdIndex index) else Ok ()
  | VArray items | VStruct items => all items
  | VDict entries =>
    (fix go (l : list (bytes * value)) : result WireError unit :=
       match l with [] => Ok () | (_, v) :: l => _ ← check_fd_indices v count; go l end) entries
  | VVariant inner => check_fd_indices inner count
  | _ => Ok ()
  end.

(** ** Every descriptor index of a value *)

Fixpoint fd_indices (v : value) : list Z :=
  match v with
  | VFd n => [n]
  | VArray l | VStruct l => concat (map fd_indices l)
  | VDict l => concat (map (fun e => fd_indices e.2) l)
  | VVariant v => fd_indices v
  | _ => []
  end.

(** ** The fixed header *)

Definition HEADER_TYPES : list ty := [TByte; TByte; TByte; TByte; TUint32; TUint32; TArray (TStruct [TByte; TVariant])].

Lemma header_types : parse_signature HEADER = Some HEADER_TYPES.
Proof. vm_compute. reflexivity. Qed.

Lemma pad_id out a : len out mod a = 0 -> pad out a = out.
Proof. unfold pad. by intros ->. Qed.

Definition fixed (kind flags serial body_len fields_len : Z) : bytes :=
  [LITTLE; to_u8 kind; to_u8 flags; to_u8 PROTOCOL_VERSION] ++ le_bytes 4 body_len ++ le_bytes 4 serial ++ le_bytes 4 fields_len.

Lemma len_fixed k f s b n : len (fixed k f s b n) = 16.
Proof. unfold fixed. by rewrite !len_app, !len_le_bytes. Qed.
#[local] Hint Rewrite len_fixed : len.

Lemma encode_scalar (v : value) t depth out e : depth <= MAX_DEPTH ->
  match t, v with
  | TByte, VByte b => e = [b]
  | TUint32, VUint32 n => e = le_bytes 4 n
  | _, _ => False
  end -> len out mod alignment t = 0 -> encode_value v t depth out = Ok (out ++ e).
Proof.
  intros Hd Hm Ha. destruct t; try done; destruct v; try done; subst e; cbn [encode_value];
    rewrite Z.gtb_ltb, (proj2 (Z.ltb_ge _ _)) by done; by rewrite pad_id.
Qed.

Lemma header_encoded kind flags serial body_len fields m :
  encode HEADER [VByte LITTLE; VByte (to_u8 kind); VByte (to_u8 flags); VByte (to_u8 PROTOCOL_VERSION);
    VUint32 body_len; VUint32 serial; VArray fields] = Ok m -> forallb value_ok fields = true ->
  exists e, m = fixed kind flags serial body_len (len e) ++ e /\ len e <= MAX_ARRAY.
Proof.
  unfold encode, get_signature. rewrite header_types. cbn [ok_or mbind result_bind]. rewrite Z.eqb_refl. cbn [negb].
  unfold HEADER_TYPES. cbn [encode_fields].
  do 4 (erewrite encode_scalar by (done || reflexivity); cbn [mbind result_bind app]).
  do 2 (erewrite encode_scalar by (done || reflexivity || len_lia); cbn [mbind result_bind app]).
  intros (out & H & [= <-])%bind_ok Hok. cbn [encode_value alignment] in H.
  set (h := LITTLE :: _) in H. assert (len h = 12) as Hh by (unfold h; rewrite !len_cons, !len_app, !len_le_bytes; done).
  assert (len (h ++ le_bytes 4 0) = 16) as Hh' by (rewrite len_app, len_le_bytes, Hh; done).
  rewrite (pad_id h 4), (pad_id (h ++ _) 8) in H by (by rewrite ?Hh, ?Hh').
  change (0 >? MAX_DEPTH) with false in H. change (0 >=? MAX_DEPTH) with false in H. cbv iota in H.
  apply bind_ok in H as (out1 & H1 & H2).
  apply elements_written in H1 as (e & -> & _); [|by apply Forall_true, value_written|done|by exists 0, 0].
  assert (finish_array (len h) (len h + 4 + @len byte []) (((h ++ le_bytes 4 0) ++ []) ++ e) = Ok out) as H3.
  { rewrite app_nil_r. rewrite len_nil, Z.add_0_r. rewrite Hh. by rewrite Hh', Hh in H2. }
  apply finish_spec in H3 as [Hl ->]. exists e. split; [|done]. unfold h, fixed. cbn [app]. by rewrite <-!app_assoc.
Qed.

(** ** Framing *)

Lemma u32_at_app p n q i : len p = i -> 0 <= n < 2 ^ 32 -> u32_at (p ++ le_bytes 4 n ++ q) i = n.
Proof.
  intros <- Hn. unfold u32_at. rewrite from_app.
  replace 4 with (len (le_bytes 4 n)) at 2 by (by rewrite len_le_bytes). rewrite upto_app. by apply le_val_bytes.
Qed.

Lemma align_up_pad n a : 0 < a -> 0 <= n -> align_up n a = n + len (padding n a).
Proof.
  intros Ha Hn. rewrite len_pad_bytes by done. unfold align_up. pose proof (Z.div_mod n a ltac:(lia)) as E.
  pose proof (Z.mod_pos_bound n a Ha) as Hm. set (q := n / a) in *. set (r := n mod a) in *.
  destruct (Z.eqb_spec r 0).
  - replace (n + a - 1) with (a - 1 + q * a) by lia. rewrite Z.div_add, Z.div_small by lia. lia.
  - replace (n + a - 1) with (r - 1 + (q + 1) * a) by lia. rewrite Z.div_add, Z.div_small by lia. lia.
Qed.

Lemma u32_at_fixed k f s b n q : 0 <= n < 2 ^ 32 -> u32_at (fixed k f s b n ++ q) 12 = n.
Proof.
  intros Hn. unfold fixed. rewrite !app_assoc, <-app_assoc. apply u32_at_app; [|done]. by rewrite !len_app, !len_le_bytes.
Qed.

Lemma frame_fixed kind flags serial body_len e q : 
  0 <= @len byte e <= MAX_ARRAY -> 0 <= body_len -> 16 + len e + len (padding (16 + len e) 8) + body_len <= MAX_INCOMING ->
  frame (fixed kind flags serial body_len (len e) ++ q) = Ok (16 + len e + len (padding (16 + len e) 8), body_len).
Proof.
  intros He Hb Ht. unfold frame. pose proof (len_nonneg (padding (16 + len e) 8)) as Hpad.
  change MAX_ARRAY with 67108864 in He. change MAX_INCOMING with 16777216 in Ht.
  change FIXED_HEADER with 16.
  pose proof (slice_app [] (fixed kind flags serial body_len (len e)) q) as Hs. cbn [app] in Hs. change (@len byte []) with 0 in Hs.
  rewrite Z.add_0_l, len_fixed in Hs. rewrite Hs. cbn [ok_or mbind result_bind].
  assert (get (fixed kind flags serial body_len (len e)) 0 = Some LITTLE) as -> by reflexivity.
  assert (get (fixed kind flags serial body_len (len e)) 3 = Some (to_u8 PROTOCOL_VERSION)) as -> by reflexivity.
  cbn [ok_or mbind result_bind]. rewrite bool_decide_true by done. cbn [negb].
  assert (u8 (to_u8 PROTOCOL_VERSION) =? PROTOCOL_VERSION = true) as -> by reflexivity. cbn [negb].
  assert (u32_at (fixed kind flags serial body_len (len e)) 4 = body_len) as -> by (apply (u32_at_app [_; _; _; _]); [done|lia]).
  assert (u32_at (fixed kind flags serial body_len (len e)) 12 = len e) as ->.
  { rewrite <-(app_nil_r (fixed _ _ _ _ _)). apply u32_at_fixed. lia. }
  rewrite !Z.gtb_ltb, (proj2 (Z.ltb_ge _ _)), (proj2 (Z.ltb_ge _ _)) by (change MAX_ARRAY with 67108864; change MAX_INCOMING with 16777216; lia).
  rewrite align_up_pad by lia. unfold checked_add. rewrite (proj2 (Z.leb_le _ _)) by (change USIZE_MAX with (2 ^ 64 - 1); lia).
  cbn [ok_or mbind result_bind]. by rewrite Z.gtb_ltb, (proj2 (Z.ltb_ge _ _)) by (change MAX_INCOMING with 16777216; lia).
Qed.

(** ** Header fields *)

(** The value of a field. *)
Definition field (code : Z) (fields : list (Z * value)) : option value :=
  snd <$> head (filter (fun f => f.1 = code) fields).

Definition field_u32 code fields := match field code fields with Some (VUint32 n) => Some n | _ => None end.
Definition field_str code fields := match field code fields with Some (VStr s) => Some s | _ => None end.
Definition field_sig fields := match field FIELD_SIGNATURE fields with Some (VSignature s) => s | _ => [] end.

(** A field whose code is known has the type the specification gives it. *)
Definition field_ok (f : Z * value) : bool :=
  (0 <=? f.1) && (f.1 <? 256) && value_ok f.2 && (match set_field f.1 f.2 no_fields with Some _ => true | None => false end).

Definition with_fields (f : Fields) (fs : list (Z * value)) : Fields :=
  let or {A} (x y : option A) := match x with Some _ => x | None => y end in
  mkFields (or (field_u32 FIELD_REPLY_SERIAL fs) (f_reply_serial f)) (or (field_str FIELD_ERROR_NAME fs) (f_error_name f))
    (or (field_str FIELD_SENDER fs) (f_sender f))
    (match field FIELD_SIGNATURE fs with Some (VSignature s) => s | _ => f_signature f end)
    (default (f_unix_fds f) (field_u32 FIELD_UNIX_FDS fs)) (f_seen f ++ map fst fs).

Lemma field_cons code c v fs : field code ((c, v) :: fs) = if decide (c = code) then Some v else field code fs.
Proof. unfold field. rewrite filter_cons. cbn [fst]. by case_decide. Qed.

Lemma field_none code fs : code ∉ map fst fs -> field code fs = None.
Proof.
  induction fs as [|[c v] fs IH]; [done|]. intros H. rewrite field_cons. cbn [map fst] in H.
  apply not_elem_of_cons in H as [H1 H2]. rewrite decide_False by congruence. by apply IH.
Qed.

Lemma set_field_with c v fs f f' : c ∉ map fst fs ->
  set_field c v (mkFields (f_reply_serial f) (f_error_name f) (f_sender f) (f_signature f) (f_unix_fds f) (f_seen f ++ [c])) = Some f' ->
  with_fields f' fs = with_fields f ((c, v) :: fs).
Proof.
  intros Hc. unfold with_fields, field_u32, field_str. rewrite !field_cons.
  assert (forall k, k = c -> field k fs = None) as Hn by (intros k ->; by apply field_none).
  unfold set_field. cbn [map fst]. 
  repeat (case_decide; [subst; rewrite ?(Hn _ eq_refl); cbn; destruct v; try done; intros [= <-]; cbn; by rewrite <-?app_assoc|]).
  repeat match goal with H : c <> ?k |- _ => rewrite (proj2 (Z.eqb_neq c k) H); clear H end.
  intros Hs. assert (f' = mkFields (f_reply_serial f) (f_error_name f) (f_sender f) (f_signature f) (f_unix_fds f) (f_seen f ++ [c])) as ->.
  { destruct (c =? FIELD_PATH); [by destruct v; simplify_eq|]. destruct (_ || _); [by destruct v; simplify_eq|]. by simplify_eq. }
  cbn. by rewrite <-app_assoc.
Qed.

Lemma set_field_any c v f f' : is_Some (set_field c v f) -> is_Some (set_field c v f').
Proof.
  unfold set_field. destruct f, f'. repeat (destruct (_ =? _); [destruct v; naive_solver|]).
  destruct (_ || _); [destruct v|]; naive_solver.
Qed.

Lemma read_fields_with fs f : forallb field_ok fs = true -> NoDup (map fst fs) -> Forall (fun c => c ∉ f_seen f) (map fst fs) ->
  read_fields (map field_struct fs) f = Ok (with_fields f fs).
Proof.
  revert f. induction fs as [|[c v] fs IH]; intros f Hok Hnd Hs.
  - cbn. destruct f. unfold with_fields. cbn. by rewrite app_nil_r.
  - cbn [forallb] in Hok. apply andb_true_iff in Hok as [Hf Hok]. cbn [map fst] in *. apply NoDup_cons in Hnd as [Hc Hnd].
    apply Forall_cons in Hs as [Hcs Hs]. unfold field_ok in Hf. cbn [fst snd] in Hf.
    apply andb_true_iff in Hf as [[[? ?]%andb_true_iff ?]%andb_true_iff Hset]. bool_to_prop.
    cbn [map read_fields field_struct fst snd]. rewrite u8_to_u8, Z.mod_small by lia. rewrite bool_decide_false by done.
    destruct f as [rs en se si fds seen] eqn:Ef.
    assert (is_Some (set_field c v (mkFields rs en se si fds (seen ++ [c])))) as [f' Hf'].
    { apply (set_field_any _ _ no_fields). by destruct (set_field c v no_fields). }
    rewrite Hf'. assert (f_seen f' = seen ++ [c]) as Hseen.
    { revert Hf'. unfold set_field. repeat (destruct (_ =? _); [destruct v; by intros [= <-]|]). destruct (_ || _); [destruct v|]; by intros [= <-]. }
    rewrite IH; [|done|done|].
    + f_equal. by apply set_field_with.
    + rewrite Hseen. apply Forall_forall. intros k Hk [Hk'|Hk']%elem_of_app.
      * rewrite Forall_forall in Hs. by apply (Hs k).
      * apply list_elem_of_singleton in Hk' as ->. done.
Qed.

Lemma field_structs_ok fs : forallb field_ok fs = true -> forallb value_ok (map field_struct fs) = true.
Proof.
  rewrite !forallb_spec, Forall_map. intros H. eapply Forall_impl; [exact H|]. intros [c v] Hf. unfold field_ok in Hf. bool_to_prop. cbn in *.
  by rewrite andb_true_r.
Qed.

(** The parts of an encoded message. *)
Lemma encode_message_parts kind flags serial fields body msg :
  encode_message kind flags serial fields body = Ok msg -> forallb field_ok fields = true ->
  exists e, let m := fixed kind flags serial (len body) (len e) ++ e in
  encode HEADER [VByte LITTLE; VByte (to_u8 kind); VByte (to_u8 flags); VByte (to_u8 PROTOCOL_VERSION);
    VUint32 (len body); VUint32 serial; VArray (map field_struct fields)] = Ok m /\
  msg = m ++ padding (16 + len e) 8 ++ body /\ len e <= MAX_ARRAY.
Proof.
  unfold encode_message. destruct (_ >? _); [done|]. intros (m & Hm & H)%bind_ok Hok.
  pose proof (header_encoded _ _ _ _ _ _ Hm (field_structs_ok _ Hok)) as (e & -> & He).
  destruct (_ >? _); [done|]. assert (msg = pad (fixed kind flags serial (len body) (len e) ++ e) 8 ++ body) as -> by congruence.
  exists e. split_and!; [done| |done]. by rewrite pad_padding, len_app, len_fixed, <-app_assoc.
Qed.

(** A message that was encoded is found and read back: whatever else the buffer
    holds after it, [frame] says where its body begins and how long that is, so
    that exactly its bytes are taken; and when its header fields have the types the
    specification gives them, no code comes twice and a body has a signature,
    [decode_message] gives its kind, its body and each field it was given. *)
Theorem message_roundtrip kind flags serial fields body msg :
  encode_message kind flags serial fields body = Ok msg ->
  0 <= kind < 256 -> 0 <= serial < 2 ^ 32 -> forallb field_ok fields = true -> NoDup (map fst fields) ->
  counts (map field_struct fields) + 7 <= MAX_VALUES -> len msg <= MAX_INCOMING ->
  field_sig fields <> [] \/ body = [] ->
  (forall rest, frame (msg ++ rest) = Ok (len msg - len body, len body)) /\
  decode_message msg = Ok (mkMessage kind (field_u32 FIELD_REPLY_SERIAL fields) (field_str FIELD_ERROR_NAME fields)
    (field_str FIELD_SENDER fields) (field_sig fields) (default 0 (field_u32 FIELD_UNIX_FDS fields)) body).
Proof.
  intros H Hk Hser Hok Hnd Hc Hl Hsig. destruct (encode_message_parts _ _ _ _ _ _ H Hok) as (e & Hm & -> & He).
  set (m := fixed _ _ _ _ _ ++ e) in *. assert (len m = 16 + len e) as Hlm by (unfold m; by rewrite len_app, len_fixed).
  rewrite !len_app, Hlm in Hl. rewrite !len_app, Hlm. pose proof (len_nonneg e). pose proof (len_nonneg body).
  pose proof (len_nonneg (padding (16 + len e) 8)).
  assert (forall rest, frame ((m ++ padding (16 + len e) 8 ++ body) ++ rest) = Ok (16 + len e + len (padding (16 + len e) 8), len body)) as Hf.
  { intros rest. unfold m. rewrite <-!app_assoc. apply frame_fixed; lia. }
  split. { intros rest. rewrite Hf. do 2 f_equal. lia. }
  unfold decode_message. specialize (Hf []). rewrite app_nil_r in Hf. rewrite Hf. cbn [mbind result_bind].
  assert (u32_at (m ++ padding (16 + len e) 8 ++ body) 12 = len e) as ->.
  { unfold m. rewrite <-app_assoc. apply u32_at_fixed. change MAX_ARRAY with 67108864 in He. lia. }
  change FIXED_HEADER with 16. set (p := padding (16 + len e) 8) in *.
  assert (slice (m ++ p ++ body) 0 (16 + len e) = Some m) as ->.
  { apply slice_some. exists [], (p ++ body). split_and!; [done|done|lia]. }
  assert (slice (m ++ p ++ body) (16 + len e) (16 + len e + len p) = Some p) as ->.
  { apply slice_some. exists m, body. split_and!; [done|done|lia]. }
  assert (slice (m ++ p ++ body) (16 + len e + len p) (16 + len e + len p + len body) = Some body) as ->.
  { apply slice_some. exists (m ++ p), []. split_and!; [by rewrite app_nil_r, app_assoc|rewrite len_app; lia|lia]. }
  cbn [ok_or mbind result_bind]. change MAX_INCOMING with 16777216 in Hl.
  rewrite (body_decode_encode _ _ _ Hm); [| | |change U64_MAX with (2 ^ 64 - 1); lia].
  2:{ cbn [forallb value_ok andb]. rewrite field_structs_ok by done.
      by rewrite !(proj2 (Z.leb_le _ _)), !(proj2 (Z.ltb_lt _ _)) by lia. }
  2:{ unfold counts in *. cbn [map fold_right count] in *. lia. }
  cbn [mbind result_bind].
  assert (existsb (fun b => negb (bool_decide (b = NUL))) p = false) as ->.
  { apply not_true_iff_false. rewrite existsb_spec. intros (b & Hb & Hn). unfold p, padding in Hb.
    apply elem_of_replicate in Hb as [-> _]. done. }
  rewrite read_fields_with; [|done|done|by apply Forall_true; intros ? ?%elem_of_nil].
  cbn [mbind result_bind with_fields f_signature f_reply_serial f_error_name f_sender f_unix_fds no_fields].
  fold (field_sig fields). rewrite u8_to_u8, Z.mod_small by lia.
  destruct (bool_decide (field_sig fields = []) && _) eqn:E.
  { bool_to_prop. by destruct Hsig. }
  do 2 f_equal; [by destruct (field_u32 _ _)|by destruct (field_str _ _)|by destruct (field_str _ _)].
Qed.

Definition demo_fields : list (Z * value) :=
  [(FIELD_REPLY_SERIAL, VUint32 7); (FIELD_SENDER, VStr (B ":1.5")); (FIELD_SIGNATURE, VSignature (B "s"));
   (FIELD_UNIX_FDS, VUint32 2); (200, VByteArray (B "later"))].

Definition demo_message : bytes := match encode_message MSG_METHOD_RETURN 0 9 demo_fields (B "body") with Ok m => m | Err _ => [] end.

Lemma message_roundtrip_witness :
  (forall rest, frame (demo_message ++ rest) = Ok (len demo_message - 4, 4)) /\
  decode_message demo_message = Ok (mkMessage MSG_METHOD_RETURN (Some 7) None (Some (B ":1.5")) (B "s") 2 (B "body")).
Proof.
  apply (message_roundtrip MSG_METHOD_RETURN 0 9 demo_fields (B "body") demo_message);
    [by vm_compute|by vm_compute|by vm_compute|by vm_compute|by_decide|by vm_compute|by vm_compute|by left].
Defined.

(** ** Descriptor indices *)

Lemma check_all {A} (f : A -> result WireError unit) (g : A -> list Z) (n : Z) l (all : list A -> result WireError unit) :
  (forall x l, all (x :: l) = _ ← f x; all l) -> all [] = Ok () ->
  Forall (fun x => f x = Ok () <-> Forall (fun i => i < n) (g x)) l ->
  all l = Ok () <-> Forall (fun i => i < n) (concat (map g l)).
Proof.
  intros Hc Hn Hall. induction Hall as [|x l Hx Hall IH]; cbn [map concat].
  - rewrite Hn. split; [by intros|done].
  - rewrite Hc, bind_ok, Forall_app, <-Hx, <-IH. split; [intros ([] & H1 & H2)|intros [H1 H2]; exists ()]; done.
Qed.

(** A body is sent only when every descriptor index in it, at any depth of its
    arrays, structs, dicts and variants, is one of the descriptors the call was
    given. *)
Theorem fd_indices_checked v n :
  check_fd_indices v n = Ok () <-> Forall (fun i => i < n) (fd_indices v).
Proof.
  revert v. apply value_ind'.
  - intros v. destruct v; try exact I; cbn; try (split; by intros).
    rewrite Z.geb_leb, Forall_singleton. destruct (Z.leb_spec n v); split; intros; (lia || done).
  - intros l Hl. by apply (check_all (fun v => check_fd_indices v n)).
  - intros l Hl. by apply (check_all (fun v => check_fd_indices v n)).
  - intros l Hl. cbn [fd_indices check_fd_indices].
    apply (check_all (fun e => check_fd_indices e.2 n) (fun e => fd_indices e.2)); try done. by intros [k v] ?.
  - done.
Qed.
