(* ===== verification/DbusSession.v ===== *)
(** The session-bus client: [Session] of [crates/bubbler-core/src/dbus_wire.rs].

    [Bus] is what the kernel gives it for one connected socket: [recvmsg],
    [sendmsg], [poll], and whether the deadline of the call has passed
    ([Instant::now() >= deadline]).  [M] threads the session and the world, and is
    [None] when the fuel of a loop ran out; [BusLaws] says that interrupts, wake-ups
    and arrivals before a deadline are finitely many, and with that much fuel none
    of the loops runs out ([call_returns]).

    [call_by] asks for the owner of its destination, which is itself a call, to the
    bus; [call_with] is the body of [call_by] over what gives the owner, and
    [call_by_bus] shows that for the bus this is the same function again. *)
From S2P Require Export DbusMessage.

Definition MAX_CALL_FDS : Z := 253.
Definition MAX_AUTH_LINE : Z := 4096.
Definition ERROR_NO_OWNER : bytes := B "org.freedesktop.DBus.Error.NameHasNoOwner".
Definition ERROR_SERVICE_UNKNOWN : bytes := B "org.freedesktop.DBus.Error.ServiceUnknown".
Definition BUS_NAME : bytes := B "org.freedesktop.DBus".
Definition BUS_PATH : bytes := B "/org/freedesktop/DBus".
Definition BUS_INTERFACE : bytes := B "org.freedesktop.DBus".

Inductive Errno := INTR | AGAIN | OtherErrno.

(** [poll] is for reading or, [true], for writing, and gives how many are ready. *)
Class Bus (W : Type) := {
  late : W -> bool * W;
  recvmsg : W -> result Errno (bytes * Z) * W;
  sendmsg : bytes -> list Z -> W -> result Errno Z * W;
  poll : bool -> W -> result Errno Z * W;
  getuid : Z;
}.

(** [budget] bounds what still happens before the deadline. *)
Class BusLaws (W : Type) `{Bus W} (budget : W -> nat) := {
  late_budget w b w' : late w = (b, w') -> (budget w' <= budget w)%nat;
  recv_budget w r w' : recvmsg w = (r, w') -> (budget w' <= budget w)%nat;
  recv_spends w r w' : recvmsg w = (r, w') ->
    match r with Ok _ | Err INTR => True | _ => False end -> (budget w' < budget w)%nat;
  send_budget b f w r w' : sendmsg b f w = (r, w') -> (budget w' <= budget w)%nat;
  send_spends b f w r w' : sendmsg b f w = (r, w') ->
    match r with Ok _ | Err INTR => True | _ => False end -> (budget w' < budget w)%nat;
  poll_budget o w r w' : poll o w = (r, w') -> (budget w' <= budget w)%nat;
  poll_spends o w r w' : poll o w = (r, w') ->
    match r with Ok n => n <> 0 | Err INTR => True | _ => False end -> (budget w' < budget w)%nat;
  recv_len w b n w' : recvmsg w = (Ok (b, n), w') -> len b <= 4096 /\ 0 <= n;
  send_len b f w n w' : sendmsg b f w = (Ok n, w') -> 0 <= n <= len b;
}.

Record Session := mkSession
  { owners : list (bytes * bytes); fds_seen : Z; serial : Z; unique_name : bytes; fd_passing : bool; buf : bytes }.

Definition set_owners (o : list (bytes * bytes)) (s : Session) : Session :=
  mkSession o (fds_seen s) (serial s) (unique_name s) (fd_passing s) (buf s).
Definition set_fds_seen (n : Z) (s : Session) : Session :=
  mkSession (owners s) n (serial s) (unique_name s) (fd_passing s) (buf s).
Definition set_serial (n : Z) (s : Session) : Session :=
  mkSession (owners s) (fds_seen s) n (unique_name s) (fd_passing s) (buf s).
Definition set_unique_name (n : bytes) (s : Session) : Session :=
  mkSession (owners s) (fds_seen s) (serial s) n (fd_passing s) (buf s).
Definition set_fd_passing (b : bool) (s : Session) : Session :=
  mkSession (owners s) (fds_seen s) (serial s) (unique_name s) b (buf s).
Definition set_buf (b : bytes) (s : Session) : Session :=
  mkSession (owners s) (fds_seen s) (serial s) (unique_name s) (fd_passing s) b.

(** ** The monad *)

Definition M (W A : Type) : Type := Session * W -> option (result WireError A * (Session * W)).

#[global] Instance M_ret W : MRet (M W) := fun A a s => Some (Ok a, s).
#[global] Instance M_bind W : MBind (M W) := fun A B f m s =>
  match m s with
  | Some (Ok a, s) => f a s
  | Some (Err e, s) => Some (Err e, s)
  | None => None
  end.

Definition throw {W A} (e : WireError) : M W A := fun s => Some (Err e, s).
Definition lift {W A} (r : result WireError A) : M W A := fun s => Some (r, s).
Definition out_of_fuel {W A} : M W A := fun _ => None.
Definition get_session {W} : M W Session := fun s => Some (Ok s.1, s).
Definition modify {W} (f : Session -> Session) : M W unit := fun '(s, w) => Some (Ok (), (f s, w)).
(** A call of the system, and its result as a value. *)
Definition sys {W A} (f : W -> A * W) : M W A := fun '(s, w) => let '(a, w) := f w in Some (Ok a, (s, w)).
(** The result of a computation as a value. *)
Definition attempt {W A} (m : M W A) : M W (result WireError A) := fun s =>
  match m s with Some (r, s) => Some (Ok r, s) | None => None end.

(** [str::trim] of ASCII text. *)
Definition is_space (b : byte) : bool := ((9 <=? u8 b) && (u8 b <=? 13)) || (u8 b =? 32).
Fixpoint trim_start (l : bytes) : bytes :=
  match l with b :: l' => if is_space b then trim_start l' else l | [] => [] end.
Definition trim (l : bytes) : bytes := rev (trim_start (rev (trim_start l))).

(** [windows(2).position(|w| w == b"\r\n")]. *)
Fixpoint find_crlf (l : bytes) : option Z :=
  match l with
  | a :: (b :: _) as l' => if bool_decide (a = CR) && bool_decide (b = LF) then Some 0 else Z.succ <$> find_crlf l'
  | _ => None
  end.

Section Session.
Context {W : Type} `{Bus W} (fuel : nat).
Notation M := (M W).

Fixpoint wait_loop (n : nat) (out : bool) : M unit :=
  match n with
  | O => out_of_fuel
  | S n =>
    l ← sys late;
    if l : bool then throw Timeout
    else
      r ← sys (poll out);
      match r with
      | Ok k => if k =? 0 then throw Timeout else mret ()
      | Err INTR => wait_loop n out
      | Err _ => throw Io
      end
  end.
Definition wait (out : bool) : M unit := wait_loop fuel out.

Fixpoint fill_loop (n : nat) : M unit :=
  match n with
  | O => out_of_fuel
  | S n =>
    r ← sys recvmsg;
    match r with
    | Ok (b, fds) =>
      _ ← modify (fun s => set_fds_seen (fds_seen s + fds) s);
      if len b =? 0 then throw Closed else modify (fun s => set_buf (buf s ++ b) s)
    | Err INTR => fill_loop n
    | Err AGAIN => _ ← wait false; fill_loop n
    | Err _ => throw Io
    end
  end.
Definition fill : M unit := fill_loop fuel.

Fixpoint send_loop (n : nat) (b : bytes) (carried : list Z) : M unit :=
  match b, n with
  | [], _ => mret ()
  | _, O => out_of_fuel
  | _, S n =>
    if negb (bool_decide (carried = [])) && (len carried >? MAX_CALL_FDS) then throw (TooManyFds (len carried))
    else
      r ← sys (sendmsg b carried);
      match r with
      | Ok k => if k =? 0 then throw Closed else send_loop n (from b k) []
      | Err INTR => send_loop n b carried
      | Err AGAIN => _ ← wait true; send_loop n b carried
      | Err _ => throw Io
      end
  end.
Definition send (b : bytes) (fds : list Z) : M unit := send_loop fuel b fds.

Fixpoint line_loop (n : nat) : M bytes :=
  match n with
  | O => out_of_fuel
  | S n =>
    s ← get_session;
    match find_crlf (buf s) with
    | Some end_ =>
      let line := upto (buf s) end_ in
      _ ← modify (set_buf (from (buf s) (end_ + 2)));
      if negb (is_ascii line) then throw (Auth (from_utf8_lossy line))
      else if utf8_valid line then mret line else throw BadString
    | None =>
      if len (buf s) >? MAX_AUTH_LINE then throw (Auth (B "a line with no end"))
      else _ ← fill; line_loop n
    end
  end.
Definition line : M bytes := line_loop fuel.

(** The message whole in the buffer, if it is. *)
Definition whole (b : bytes) : result WireError (option (bytes * bytes)) :=
  if len b >=? FIXED_HEADER then
    '(body_at, body_len) ← frame b;
    let total := body_at + body_len in
    if len b >=? total then Ok (Some (upto b total, from b total)) else Ok None
  else Ok None.

Fixpoint receive_loop (n : nat) : M Message :=
  match n with
  | O => out_of_fuel
  | S n =>
    s ← get_session;
    w ← lift (whole (buf s));
    match w with
    | Some (b, rest) =>
      _ ← modify (set_buf rest);
      message ← lift (decode_message b);
      s ← get_session;
      let arrived := fds_seen s in
      _ ← modify (set_fds_seen 0);
      if negb (arrived =? unix_fds message) then
        throw (BadMessage (B "a message with fewer or more descriptors than it declares"))
      else mret message
    | None =>
      l ← sys late;
      if l : bool then throw Timeout else _ ← fill; receive_loop n
    end
  end.
Definition receive : M Message := receive_loop fuel.

(** Whether a message answers the call: its own serial, a reply, and from the
    owner, or an error from the bus. *)
Definition answers (serial : Z) (owner : bytes) (reply : Message) : result WireError bool :=
  if negb (bool_decide (reply_serial reply = Some serial)) then Ok false
  else if negb (m_kind reply =? MSG_METHOD_RETURN) && negb (m_kind reply =? MSG_ERROR) then Ok false
  else match sender reply with
  | Some sender =>
      if bool_decide (sender = owner) then Ok true
      else if bool_decide (sender = BUS_NAME) && (m_kind reply =? MSG_ERROR) then Ok true
      else Ok false
  | None => Err (BadMessage (B "a reply with no sender"))
  end.

(** What the caller gets of its answer. *)
Definition outcome (dest : bytes) (reply : Message) : M (list value) :=
  if m_kind reply =? MSG_METHOD_RETURN then lift (decode (m_signature reply) (m_body reply))
  else if m_kind reply =? MSG_ERROR then
    match error_name reply with
    | None => throw (BadMessage (B "an error reply with no error name"))
    | Some name =>
      _ ← (if bool_decide (name = ERROR_NO_OWNER) || bool_decide (name = ERROR_SERVICE_UNKNOWN)
           then modify (fun s => set_owners (filter (fun e => e.1 <> dest) (owners s)) s) else mret ());
      throw (Remote name match decode (m_signature reply) (m_body reply) with Ok (VStr text :: _) => text | _ => [] end)
    end
  else throw (BadMessage (B "a reply that is not a reply")).

Fixpoint reply_loop (n : nat) (serial : Z) (owner dest : bytes) : M (list value) :=
  match n with
  | O => out_of_fuel
  | S n =>
    l ← sys late;
    if l : bool then throw Timeout
    else
      reply ← receive;
      a ← lift (answers serial owner reply);
      if a : bool then outcome dest reply else reply_loop n serial owner dest
  end.

(** The checks of every descriptor index before anything is sent. *)
Fixpoint check_all_fds (body : list value) (count : Z) : result WireError unit :=
  match body with [] => Ok () | v :: body => _ ← check_fd_indices v count; check_all_fds body count end.

Definition call_fields (path owner iface member sig : bytes) (count : Z) : list (Z * value) :=
  [(FIELD_PATH, VObjectPath path); (FIELD_DESTINATION, VStr owner)] ++
  (if bool_decide (iface = []) then [] else [(FIELD_INTERFACE, VStr iface)]) ++
  [(FIELD_MEMBER, VStr member)] ++
  (if bool_decide (sig = []) then [] else [(FIELD_SIGNATURE, VSignature sig)]) ++
  (if count >? 0 then [(FIELD_UNIX_FDS, VUint32 count)] else []).

Definition call_with (owner_of : M bytes) (dest path iface member sig : bytes) (body : list value) (fds : list Z)
  : M (list value) :=
  if bool_decide (dest = []) then throw NoDestination
  else
    s ← get_session;
    if negb (bool_decide (fds = [])) && negb (fd_passing s) then throw NoFdPassing
    else if len fds >? MAX_CALL_FDS then throw (TooManyFds (len fds))
    else
      let count := len fds in
      _ ← lift (check_all_fds body count);
      owner ← owner_of;
      body ← lift (encode sig body);
      let fields := call_fields path owner iface member sig count in
      _ ← modify (fun s => set_serial (Z.max ((serial s + 1) mod 2 ^ 32) 1) s);
      s ← get_session;
      let serial := serial s in
      message ← lift (encode_message MSG_METHOD_CALL 0 serial fields body);
      _ ← send message fds;
      reply_loop fuel serial owner dest.

(** [call_by] to the bus itself: it is its own owner. *)
Definition bus_call (member sig : bytes) (body : list value) : M (list value) :=
  call_with (mret BUS_NAME) BUS_NAME BUS_PATH BUS_INTERFACE member sig body [].

Definition COLON_ : bytes := B ":".

Definition ask_owner (dest : bytes) : M bytes :=
  reply ← bus_call (B "GetNameOwner") (B "s") [VStr dest];
  match reply with
  | [VStr owner] =>
      if starts_with COLON_ owner then mret owner else throw (BadMessage (B "a name owner that is not unique"))
  | _ => throw (BadMessage (B "a GetNameOwner reply that is not one name"))
  end.

Definition start_service (dest : bytes) : M unit :=
  _ ← bus_call (B "StartServiceByName") (B "su") [VStr dest; VUint32 0]; mret ().

Definition owner_of (dest : bytes) : M bytes :=
  if bool_decide (dest = BUS_NAME) || starts_with COLON_ dest then mret dest
  else
    s ← get_session;
    match list_find (fun e => e.1 = dest) (owners s) with
    | Some (_, (_, owner)) => mret owner
    | None =>
      asked ← attempt (ask_owner dest);
      owner ← match asked with
        | Err (Remote name m) =>
            if bool_decide (name = ERROR_NO_OWNER) then _ ← start_service dest; ask_owner dest
            else throw (Remote name m)
        | other => lift other
        end;
      _ ← modify (fun s => set_owners (owners s ++ [(dest, owner)]) s);
      mret owner
    end.

Definition call_by (dest path iface member sig : bytes) (body : list value) (fds : list Z) : M (list value) :=
  call_with (owner_of dest) dest path iface member sig body fds.

Definition hello : M bytes :=
  reply ← bus_call (B "Hello") [] [];
  match reply with
  | [VStr name] =>
      if starts_with COLON_ name then mret name else throw (BadMessage (B "a Hello reply that is not a unique name"))
  | _ => throw (BadMessage (B "a Hello reply that is not one name"))
  end.

Definition CRLF : bytes := [CR; LF].

Definition authenticate : M unit :=
  _ ← send ([NUL] ++ B "AUTH EXTERNAL " ++ uid_hex getuid ++ CRLF) [];
  l ← line;
  match strip_prefix (B "REJECTED") l with
  | Some rest => throw (AuthRejected (trim rest))
  | None =>
    if negb (starts_with (B "OK ") l) then throw (Auth l)
    else
      _ ← send (B "NEGOTIATE_UNIX_FD" ++ CRLF) [];
      l ← line;
      _ ← (if bool_decide (l = B "AGREE_UNIX_FD") then modify (set_fd_passing true)
           else if starts_with (B "ERROR") l then mret () else throw (Auth l));
      send (B "BEGIN" ++ CRLF) []
  end.

(** [connect], once the socket is connected. *)
Definition open_session : M unit :=
  _ ← authenticate; name ← hello; modify (set_unique_name name).

End Session.

Definition new_session : Session := mkSession [] 0 0 [] false [].
