(* ===== verification/DbusCalls.v ===== *)
(** What the calls of the session-bus client guarantee.

    [keeps R m] says that [m] relates the state before and after it by the
    preorder [R], whatever it returns; [Section Keeps] proves it of every operation
    of the session from what [R] must allow of its primitive steps.  It is used
    with two relations: [calmer], that the work left does not grow, for
    termination, and [read_on], that what left the buffer came off the stream in
    order, for the answer to a call. *)
From S2P Require Export DbusSession.

Create HintDb keeps.

Section Keeps.
Context {W : Type} `{Bus W} (R : Session * W -> Session * W -> Prop) `{!PreOrder R}.

Definition keeps {A} (m : M W A) : Prop := forall st r st', m st = Some (r, st') -> R st st'.

Lemma keeps_mbind {A B} (m : M W A) (f : A -> M W B) : keeps m -> (forall a, keeps (f a)) -> keeps (m ≫= f).
Proof.
  intros Hm Hf st r st'. unfold mbind, M_bind. destruct (m st) as [[[a|e] st1]|] eqn:E; [| |done].
  - intros H1. etransitivity; [by eapply Hm|by eapply Hf].
  - intros [= <- <-]. by eapply Hm.
Qed.

Lemma keeps_pure {A} (m : M W A) : (forall st, m st = None \/ exists r, m st = Some (r, st)) -> keeps m.
Proof. intros Hm st r st' E. destruct (Hm st) as [?|(r' & Hr)]; simplify_eq. done. Qed.

Lemma keeps_mret {A} (a : A) : keeps (mret a).
Proof. apply keeps_pure. intros st. right. by eexists. Qed.
Lemma keeps_throw {A} e : keeps (throw e : M W A).
Proof. apply keeps_pure. intros st. right. by eexists. Qed.
Lemma keeps_mlift {A} (x : result WireError A) : keeps (lift x).
Proof. apply keeps_pure. intros st. right. by eexists. Qed.
Lemma keeps_fuel {A} : keeps (out_of_fuel : M W A).
Proof. apply keeps_pure. by left. Qed.
Lemma keeps_get : keeps get_session.
Proof. apply keeps_pure. intros st. right. by eexists. Qed.
Lemma keeps_modify f : (forall s w, R (s, w) (f s, w)) -> keeps (modify f).
Proof. intros Hf [s w] r st' [= <- <-]. apply Hf. Qed.
Lemma keeps_sys {A} (f : W -> A * W) : (forall s w a w', f w = (a, w') -> R (s, w) (s, w')) -> keeps (sys f).
Proof. intros Hf [s w] r st'. unfold sys. destruct (f w) as [a w'] eqn:E. intros [= <- <-]. by eapply Hf. Qed.
Lemma keeps_attempt {A} (m : M W A) : keeps m -> keeps (attempt m).
Proof. intros Hm st r st'. unfold attempt. destruct (m st) as [[r1 st1]|] eqn:E; [|done]. intros [= <- <-]. by eapply Hm. Qed.

(** What the relation must allow. *)
Context (Hlate : forall s w b w', late w = (b, w') -> R (s, w) (s, w'))
  (Hpoll : forall s w o r w', poll o w = (r, w') -> R (s, w) (s, w'))
  (Hsend : forall s w b f r w', sendmsg b f w = (r, w') -> R (s, w) (s, w'))
  (Hrecv : forall s w e w', recvmsg w = (Err e, w') -> R (s, w) (s, w'))
  (Hdata : forall s w b n w', recvmsg w = (Ok (b, n), w') ->
    R (s, w) (set_buf (buf s ++ b) (set_fds_seen (fds_seen s + n) s), w'))
  (Hfds : forall s n w, R (s, w) (set_fds_seen n s, w))
  (Htake : forall s rest w, (exists pre, buf s = pre ++ rest) -> R (s, w) (set_buf rest s, w))
  (Hsame : forall s s' w, buf s' = buf s -> R (s, w) (s', w)).

Context (fuel : nat).

Lemma wait_keeps n out : keeps (wait_loop n out).
Proof.
  induction n as [|n IH]; cbn [wait_loop]; [apply keeps_fuel|].
  apply keeps_mbind; [by apply keeps_sys|]. intros [|]; [apply keeps_throw|].
  apply keeps_mbind; [apply keeps_sys; intros; by eapply Hpoll|]. intros [k|[]]; try apply keeps_throw; [|done].
  destruct (k =? 0); [apply keeps_throw|apply keeps_mret].
Qed.

Lemma fill_keeps n : keeps (fill_loop fuel n).
Proof.
  induction n as [|n IH]; cbn [fill_loop]; [apply keeps_fuel|]. intros [s w] r st' E.
  unfold mbind, M_bind, sys in E. destruct (recvmsg w) as [[[b k]|e] w1] eqn:Er.
  - pose proof (Hdata s _ _ _ _ Er) as Hd. cbn [modify] in E. destruct (Z.eqb_spec (len b) 0) as [E0|]; [|injection E as <- <-; exact Hd].
    apply len_0 in E0 as ->. injection E as <- <-. revert Hd. rewrite app_nil_r. by destruct s.
  - apply (Hrecv s) in Er. etransitivity; [exact Er|]. revert E. 
    destruct e; [by apply IH| |by intros [= <- <-]]. apply (keeps_mbind (wait fuel false) (fun _ => fill_loop fuel n)); [apply wait_keeps|].
    intros _. exact IH.
Qed.

Lemma send_keeps n b carried : keeps (send_loop fuel n b carried).
Proof.
  revert b carried. induction n as [|n IH]; intros b carried; cbn [send_loop]; destruct b as [|c b]; try apply keeps_mret; [apply keeps_fuel|].
  destruct (_ && _); [apply keeps_throw|]. apply keeps_mbind; [apply keeps_sys; intros; by eapply Hsend|].
  intros [k|[]]; [|done| |apply keeps_throw].
  - destruct (k =? 0); [apply keeps_throw|done].
  - apply keeps_mbind; [apply wait_keeps|done].
Qed.

Lemma find_crlf_cut l i : find_crlf l = Some i -> exists pre, l = pre ++ from l (i + 2).
Proof.
  intros _. exists (upto l (i + 2)). by rewrite upto_from.
Qed.

Lemma line_keeps n : keeps (line_loop fuel n).
Proof.
  induction n as [|n IH]; cbn [line_loop]; [apply keeps_fuel|]. intros [s w] r st' E.
  unfold mbind, M_bind at 1 in E. cbn [get_session fst] in E. destruct (find_crlf (buf s)) as [i|] eqn:Ef.
  - unfold mbind, M_bind in E. cbn [modify] in E. assert (R (s, w) (set_buf (from (buf s) (i + 2)) s, w)) as H1.
    { apply Htake. by apply find_crlf_cut. }
    etransitivity; [exact H1|]. revert E. destruct (negb _); [apply keeps_throw|]. destruct (utf8_valid _); [apply keeps_mret|apply keeps_throw].
  - revert E. destruct (_ >? _); [apply keeps_throw|].
    apply (keeps_mbind (fill fuel) (fun _ => line_loop fuel n)); [apply fill_keeps|]. intros _. exact IH.
Qed.

Lemma whole_cut b m rest : whole b = Ok (Some (m, rest)) -> b = m ++ rest.
Proof.
  unfold whole. destruct (_ >=? _); [|done]. intros ([p q] & _ & H1)%bind_ok. revert H1.
  destruct (_ >=? _); [|done]. intros [= <- <-]. by rewrite upto_from.
Qed.

Lemma receive_keeps n : keeps (receive_loop fuel n).
Proof.
  induction n as [|n IH]; cbn [receive_loop]; [apply keeps_fuel|]. intros [s w] r st' E.
  unfold mbind, M_bind at 1 in E. cbn [get_session fst] in E.
  destruct (whole (buf s)) as [[[b rest]|]|e] eqn:Ew; cbn [lift] in E; [| |by injection E as <- <-].
  - apply whole_cut in Ew. unfold M_bind at 1 in E. cbn [modify] in E.
    assert (R (s, w) (set_buf rest s, w)) as H1 by (apply Htake; by exists b).
    etransitivity; [exact H1|]. revert E. apply keeps_mbind; [apply keeps_mlift|]. intros m.
    apply keeps_mbind; [apply keeps_get|]. intros s'. apply keeps_mbind; [apply keeps_modify; intros; by apply Hfds|].
    intros _. destruct (negb _); [apply keeps_throw|apply keeps_mret].
  - revert E. apply keeps_mbind; [by apply keeps_sys|]. intros [|]; [apply keeps_throw|].
    apply keeps_mbind; [apply fill_keeps|done].
Qed.

Lemma outcome_keeps dest reply : keeps (outcome dest reply).
Proof.
  unfold outcome. destruct (_ =? _); [apply keeps_mlift|]. destruct (_ =? _); [|apply keeps_throw].
  destruct (error_name reply); [|apply keeps_throw]. apply keeps_mbind; [|intros; apply keeps_throw].
  destruct (_ || _); [apply keeps_modify; intros; by apply Hsame|apply keeps_mret].
Qed.

Lemma reply_keeps n sn owner dest : keeps (reply_loop fuel n sn owner dest).
Proof.
  induction n as [|n IH]; cbn [reply_loop]; [apply keeps_fuel|].
  apply keeps_mbind; [by apply keeps_sys|]. intros [|]; [apply keeps_throw|].
  apply keeps_mbind; [apply receive_keeps|]. intros reply. apply keeps_mbind; [apply keeps_mlift|].
  intros [|]; [apply outcome_keeps|done].
Qed.

Lemma call_with_keeps own dest path iface member sig body fds : keeps own ->
  keeps (call_with fuel own dest path iface member sig body fds).
Proof.
  intros Hown. unfold call_with. case_bool_decide; [apply keeps_throw|]. apply keeps_mbind; [apply keeps_get|]. intros s.
  destruct (_ && _); [apply keeps_throw|]. destruct (_ >? _); [apply keeps_throw|].
  apply keeps_mbind; [apply keeps_mlift|]. intros _. apply keeps_mbind; [done|]. intros owner.
  apply keeps_mbind; [apply keeps_mlift|]. intros b. apply keeps_mbind; [apply keeps_modify; intros; by apply Hsame|]. intros _.
  apply keeps_mbind; [apply keeps_get|]. intros s'. apply keeps_mbind; [apply keeps_mlift|]. intros m.
  apply keeps_mbind; [apply send_keeps|]. intros _. apply reply_keeps.
Qed.

Lemma bus_call_keeps member sig body : keeps (bus_call fuel member sig body).
Proof. apply call_with_keeps, keeps_mret. Qed.

Lemma ask_owner_keeps dest : keeps (ask_owner fuel dest).
Proof.
  apply keeps_mbind; [apply bus_call_keeps|]. intros [|[] []]; try apply keeps_throw.
  destruct (starts_with _ _); [apply keeps_mret|apply keeps_throw].
Qed.

Lemma owner_of_keeps dest : keeps (owner_of fuel dest).
Proof.
  unfold owner_of. destruct (_ || _); [apply keeps_mret|]. apply keeps_mbind; [apply keeps_get|]. intros s.
  destruct (list_find _ _) as [[? [? owner]]|]; [apply keeps_mret|].
  apply keeps_mbind; [apply keeps_attempt, ask_owner_keeps|]. intros asked. apply keeps_mbind.
  - destruct asked as [a|[]]; try apply keeps_mlift. case_bool_decide; [|apply keeps_throw].
    apply keeps_mbind; [|intros; apply ask_owner_keeps]. apply keeps_mbind; [apply bus_call_keeps|intros; apply keeps_mret].
  - intros owner. apply keeps_mbind; [apply keeps_modify; intros; by apply Hsame|intros; apply keeps_mret].
Qed.

Lemma call_by_keeps dest path iface member sig body fds : keeps (call_by fuel dest path iface member sig body fds).
Proof. apply call_with_keeps, owner_of_keeps. Qed.

Lemma hello_keeps : keeps (hello fuel).
Proof.
  apply keeps_mbind; [apply bus_call_keeps|]. intros [|[] []]; try apply keeps_throw.
  destruct (starts_with _ _); [apply keeps_mret|apply keeps_throw].
Qed.

Lemma authenticate_keeps : keeps (authenticate fuel).
Proof.
  apply keeps_mbind; [apply send_keeps|]. intros _. apply keeps_mbind; [apply line_keeps|]. intros l.
  destruct (strip_prefix _ l); [apply keeps_throw|]. destruct (negb _); [apply keeps_throw|].
  apply keeps_mbind; [apply send_keeps|]. intros _. apply keeps_mbind; [apply line_keeps|]. intros l'.
  apply keeps_mbind; [|intros _; apply send_keeps]. case_bool_decide; [apply keeps_modify; intros; by apply Hsame|].
  destruct (starts_with _ _); [apply keeps_mret|apply keeps_throw].
Qed.

Lemma open_session_keeps : keeps (open_session fuel).
Proof.
  apply keeps_mbind; [apply authenticate_keeps|]. intros _. apply keeps_mbind; [apply hello_keeps|]. intros name.
  apply keeps_modify. intros. by apply Hsame.
Qed.

End Keeps.

(** ** Every call returns *)

Section Returns.
Context {W : Type} `{Bus W} (budget : W -> nat) `{!BusLaws W budget} (fuel : nat).

Definition work (st : Session * W) : Z := 4097 * Z.of_nat (budget st.2) + len (buf st.1).

Definition calmer (st st' : Session * W) : Prop := work st' <= work st.

#[local] Instance calmer_preorder : PreOrder calmer.
Proof. split; unfold calmer; [intros ?|intros ???]; lia. Qed.

Lemma calm_world s w w' : (budget w' <= budget w)%nat -> calmer (s, w) (s, w').
Proof. unfold calmer, work. cbn [fst snd]. lia. Qed.

Lemma data_spends s w b n w' : recvmsg w = (Ok (b, n), w') ->
  work (set_buf (buf s ++ b) (set_fds_seen (fds_seen s + n) s), w') < work (s, w).
Proof.
  intros E. pose proof (recv_spends _ _ _ E I). pose proof (recv_len _ _ _ _ E) as [Hl _]. unfold work. cbn [fst snd buf set_buf].
  rewrite len_app. lia.
Qed.

(** The premises of [Section Keeps], for [calmer]. *)
Lemma calm_late s w b w' : late w = (b, w') -> calmer (s, w) (s, w').
Proof. intros ?%late_budget. by apply calm_world. Qed.
Lemma calm_poll s w o r w' : poll o w = (r, w') -> calmer (s, w) (s, w').
Proof. intros ?%poll_budget. by apply calm_world. Qed.
Lemma calm_send s w b f r w' : sendmsg b f w = (r, w') -> calmer (s, w) (s, w').
Proof. intros ?%send_budget. by apply calm_world. Qed.
Lemma calm_recv s w e w' : recvmsg w = (Err e, w') -> calmer (s, w) (s, w').
Proof. intros ?%recv_budget. by apply calm_world. Qed.
Lemma calm_data s w b n w' : recvmsg w = (Ok (b, n), w') ->
  calmer (s, w) (set_buf (buf s ++ b) (set_fds_seen (fds_seen s + n) s), w').
Proof. intros E. apply Z.lt_le_incl. by apply data_spends. Qed.
Lemma calm_fds s n (w : W) : calmer (s, w) (set_fds_seen n s, w).
Proof. unfold calmer, work. cbn [fst snd buf set_fds_seen]. lia. Qed.
Lemma calm_same s s' (w : W) : buf s' = buf s -> calmer (s, w) (s', w).
Proof. unfold calmer, work. cbn [fst snd]. intros ->. lia. Qed.
Lemma calm_take s rest (w : W) : (exists pre, buf s = pre ++ rest) -> calmer (s, w) (set_buf rest s, w).
Proof. unfold calmer, work. cbn [fst snd buf set_buf]. intros [pre ->]. rewrite len_app. pose proof (len_nonneg pre). lia. Qed.

Hint Resolve calm_late calm_poll calm_send calm_recv calm_data calm_fds calm_same calm_take : keeps.

(** [m] has fuel enough for [n] steps of work. *)
Definition below {A} (n : nat) (m : M W A) : Prop := forall st, work st < Z.of_nat n -> is_Some (m st).
(** A success was work. *)
Definition spends {A} (m : M W A) : Prop := forall st a st', m st = Some (Ok a, st') -> work st' < work st.

Lemma work_nonneg st : 0 <= work st.
Proof. unfold work. pose proof (len_nonneg (buf st.1)). lia. Qed.

Lemma below_0 {A} (m : M W A) : below 0 m.
Proof. intros st Hst. pose proof (work_nonneg st). lia. Qed.

Lemma below_pure {A} n (m : M W A) : (forall st, is_Some (m st)) -> below n m.
Proof. intros Hm st _. apply Hm. Qed.

Lemma below_bind {A B} n k (m : M W A) (f : A -> M W B) :
  below n m -> (forall st a st', work st < Z.of_nat n -> m st = Some (Ok a, st') -> work st' < Z.of_nat k) ->
  (forall a, below k (f a)) -> below n (m ≫= f).
Proof.
  intros Hm Hk Hf st Hst. unfold mbind, M_bind. destruct (Hm st Hst) as [[[a|e] st'] E]; rewrite E; [|by eexists].
  apply Hf. by eapply Hk.
Qed.

Lemma below_calm {A B} n (m : M W A) (f : A -> M W B) :
  below n m -> keeps calmer m -> (forall a, below n (f a)) -> below n (m ≫= f).
Proof. intros Hm Hk Hf. eapply below_bind; [done| |done]. intros st a st' Hst E. apply Hk in E. unfold calmer in E. lia. Qed.

Lemma below_spend {A B} n (m : M W A) (f : A -> M W B) :
  below (S n) m -> spends m -> (forall a, below n (f a)) -> below (S n) (m ≫= f).
Proof. intros Hm Hk Hf. eapply below_bind; [done| |done]. intros st a st' Hst E. apply Hk in E. lia. Qed.

Lemma below_mono {A} n k (m : M W A) : (k <= n)%nat -> below n m -> below k m.
Proof. intros Hk Hm st Hst. apply Hm. lia. Qed.

Lemma below_sys {A} n (f : W -> A * W) : below n (sys f).
Proof. apply below_pure. intros [s w]. unfold sys. destruct (f w). by eexists. Qed.
Lemma below_ret {A} n (a : A) : below n (mret a).
Proof. apply below_pure. by eexists. Qed.
Lemma below_throw {A} n e : below n (throw e : M W A).
Proof. apply below_pure. by eexists. Qed.
Lemma below_lift {A} n (r : result WireError A) : below n (lift r).
Proof. apply below_pure. by eexists. Qed.
Lemma below_get n : below n get_session.
Proof. apply below_pure. by eexists. Qed.
Lemma below_modify n f : below n (modify f).
Proof. apply below_pure. intros [s w]. by eexists. Qed.
Lemma below_attempt {A} n (m : M W A) : below n m -> below n (attempt m).
Proof. intros Hm st Hst. unfold attempt. destruct (Hm st Hst) as [[r st'] ->]. by eexists. Qed.

Lemma spends_bind {A B} (m : M W A) (f : A -> M W B) : keeps calmer m -> (forall a, spends (f a)) -> spends (m ≫= f).
Proof.
  intros Hm Hf st b st'. unfold mbind, M_bind. destruct (m st) as [[[a|e] st1]|] eqn:E; [|done|done].
  intros H1. apply Hm in E. apply Hf in H1. unfold calmer in E. lia.
Qed.

Lemma spends_throw {A} e : spends (throw e : M W A).
Proof. by intros ???. Qed.

(** A step of a loop that only goes round when it spent something. *)
Lemma sys_step {A B} n (f : W -> A * W) (g : A -> M W B) (P : A -> bool) :
  (forall w a w', f w = (a, w') -> (budget w' <= budget w)%nat /\ (P a = true -> (budget w' < budget w)%nat)) ->
  (forall a, P a = true -> below n (g a)) -> (forall a, P a = false -> below (S n) (g a)) -> below (S n) (sys f ≫= g).
Proof.
  intros Hf Hg Hg' [s w] Hst. unfold mbind, M_bind, sys. destruct (f w) as [a w'] eqn:E. apply Hf in E as [E1 E2].
  unfold work in *. cbn [fst snd] in *. destruct (P a) eqn:HP.
  - apply (Hg a HP). unfold work. cbn [fst snd]. specialize (E2 eq_refl). lia.
  - apply (Hg' a HP). unfold work. cbn [fst snd]. lia.
Qed.

Lemma wait_below n out : below n (wait_loop n out).
Proof.
  induction n as [|n IH]; cbn [wait_loop]; [apply below_0|].
  apply below_calm; [apply below_sys|apply keeps_sys; eauto with keeps|]. intros [|]; [apply below_throw|].
  apply (sys_step _ _ _ (fun r => match r with Err INTR => true | _ => false end)).
  - intros w r w' E. split; [by eapply poll_budget|]. intros Hr. apply (poll_spends _ _ _ _ E). by destruct r as [|[]].
  - by intros [|[]].
  - intros [k|[]] Hr; try apply below_throw; [|done]. destruct (k =? 0); [apply below_throw|apply below_ret].
Qed.

Lemma wait_spends n out : spends (wait_loop n out).
Proof.
  induction n as [|n IH]; cbn [wait_loop]; [done|].
  apply spends_bind; [apply keeps_sys; eauto with keeps|]. intros [|]; [apply spends_throw|].
  intros [s w] a st'. unfold mbind, M_bind, sys. destruct (poll out w) as [r w'] eqn:E.
  pose proof (poll_budget _ _ _ _ E) as Hb. pose proof (poll_spends _ _ _ _ E) as Hs.
  destruct r as [k|[]]; [| |done|done].
  - destruct (Z.eqb_spec k 0); [done|]. intros [= <- <-]. specialize (Hs n0). unfold work. cbn [fst snd]. lia.
  - intros H1%IH. unfold work in *. cbn [fst snd] in *. lia.
Qed.

Lemma wait_calm n out : keeps calmer (wait_loop n out).
Proof. apply (wait_keeps calmer); eauto with keeps. Qed.

Lemma fill_below n : (n <= fuel)%nat -> below n (fill_loop fuel n).
Proof.
  induction n as [|n IH]; intros Hn; cbn [fill_loop]; [apply below_0|].
  apply (sys_step _ _ _ (fun r => match r with Err INTR => true | _ => false end)).
  - intros w r w' E. split; [by eapply recv_budget|]. intros Hr. apply (recv_spends _ _ _ E). by destruct r as [|[]].
  - intros [|[]] Hr; try done. apply IH. lia.
  - intros [[b k]|[]] Hr; try done; [| |apply below_throw].
    + apply below_pure. intros [s w]. unfold mbind, M_bind, modify. destruct (_ =? _); by eexists.
    + apply below_spend; [|apply wait_spends|intros _; apply IH; lia]. eapply below_mono; [exact Hn|apply wait_below].
Qed.

Lemma fill_spends n : spends (fill_loop fuel n).
Proof.
  induction n as [|n IH]; cbn [fill_loop]; [done|]. intros [s w] a st'. unfold mbind, M_bind at 1, sys at 1.
  destruct (recvmsg w) as [r w'] eqn:E. pose proof (recv_budget _ _ _ E) as Hb. destruct r as [[b k]|[]]; [| | |done].
  - pose proof (data_spends s _ _ _ _ E) as Hd. cbn [modify]. destruct (_ =? _); [done|]. intros H1. injection H1 as <- <-. exact Hd.
  - intros H1%IH. unfold work in *. cbn [fst snd] in *. lia.
  - assert (spends (_ ← wait fuel false; fill_loop fuel n)) as Hs by (apply spends_bind; [apply wait_calm|done]).
    intros H1%Hs. unfold work in *. cbn [fst snd] in *. lia.
Qed.

Lemma send_below n b carried : (n <= fuel)%nat -> below n (send_loop fuel n b carried).
Proof.
  revert b carried. induction n as [|n IH]; intros b carried Hn; cbn [send_loop]; [apply below_0|].
  destruct b as [|c b]; [apply below_ret|]. destruct (_ && _); [apply below_throw|].
  apply (sys_step _ _ _ (fun r => match r with Ok _ | Err INTR => true | _ => false end)).
  - intros w r w' E. split; [by eapply send_budget|]. intros Hr. apply (send_spends _ _ _ _ _ E). by destruct r as [|[]].
  - intros [k|[]] Hr; try done; [|apply IH; lia]. destruct (_ =? _); [apply below_throw|apply IH; lia].
  - intros [k|[]] Hr; try done; [|apply below_throw].
    apply below_spend; [|apply wait_spends|intros _; apply IH; lia]. eapply below_mono; [exact Hn|apply wait_below].
Qed.

Lemma fill_calm n : keeps calmer (fill_loop fuel n).
Proof. apply (fill_keeps calmer); eauto with keeps. Qed.
Lemma send_calm n b carried : keeps calmer (send_loop fuel n b carried).
Proof. apply (send_keeps calmer); eauto with keeps. Qed.
Lemma line_calm n : keeps calmer (line_loop fuel n).
Proof. apply (line_keeps calmer); eauto with keeps. Qed.
Lemma receive_calm n : keeps calmer (receive_loop fuel n).
Proof. apply (receive_keeps calmer); eauto with keeps. Qed.

Lemma line_below n : (n <= fuel)%nat -> below n (line_loop fuel n).
Proof.
  induction n as [|n IH]; intros Hn; cbn [line_loop]; [apply below_0|].
  intros [s w] Hst. unfold mbind, M_bind at 1. cbn [get_session fst]. destruct (find_crlf (buf s)).
  - unfold mbind, M_bind. cbn [modify]. destruct (negb _); [by eexists|]. destruct (utf8_valid _); by eexists.
  - destruct (_ >? _); [by eexists|]. refine (below_spend n (fill fuel) (fun _ => line_loop fuel n) _ _ _ _ Hst).
    + eapply below_mono; [exact Hn|]. by apply fill_below.
    + apply fill_spends.
    + intros _. apply IH. lia.
Qed.

Lemma frame_total b p q : frame b = Ok (p, q) -> FIXED_HEADER <= p + q.
Proof.
  unfold frame. intros H1. repeat (apply bind_ok in H1 as (? & _ & H1)). revert H1. do 4 (destruct (_ : bool); [done|]).
  intros (t & Ht & H1)%bind_ok. destruct (_ : bool); [done|]. injection H1 as <- <-.
  assert (forall l i, 0 <= u32_at l i) as Hu by (intros l i; unfold u32_at; apply le_val_range).
  rewrite align_up_pad by (lia || specialize (Hu x 12); change FIXED_HEADER with 16; lia).
  pose proof (Hu x 12). pose proof (Hu x 4). pose proof (len_nonneg (padding (FIXED_HEADER + u32_at x 12) 8)). lia.
Qed.

(** A message taken off the buffer is at least its fixed header. *)
Lemma whole_shorter b m rest : whole b = Ok (Some (m, rest)) -> (length rest < length b)%nat.
Proof.
  unfold whole. destruct (_ >=? _); [|done]. intros ([p q] & Hf%frame_total & H1)%bind_ok. revert H1.
  destruct (_ >=? _) eqn:E; [|done]. intros [= <- <-]. bool_to_prop. change FIXED_HEADER with 16 in Hf.
  unfold from. rewrite length_drop. unfold len in E. lia.
Qed.

Lemma receive_below n : (n <= fuel)%nat -> below n (receive_loop fuel n).
Proof.
  induction n as [|n IH]; intros Hn; cbn [receive_loop]; [apply below_0|].
  intros [s w] Hst. unfold mbind, M_bind at 1. cbn [get_session fst].
  destruct (whole (buf s)) as [[[b rest]|]|e] eqn:Ew; [| |by eexists].
  - unfold M_bind. cbn [lift modify]. destruct (decode_message b); [|by eexists]. cbn [get_session modify].
    destruct (negb _); by eexists.
  - refine (below_calm (S n) (sys late) (fun l : bool => if l then throw Timeout else _ ← fill fuel; receive_loop fuel n) _ _ _ _ Hst).
    + apply below_sys.
    + apply keeps_sys; eauto with keeps.
    + intros [|]; [apply below_throw|]. apply below_spend; [|apply fill_spends|intros _; apply IH; lia].
      eapply below_mono; [exact Hn|]. by apply fill_below.
Qed.

Lemma receive_spends n : spends (receive_loop fuel n).
Proof.
  induction n as [|n IH]; cbn [receive_loop]; [done|]. intros [s w] a st'. unfold mbind, M_bind at 1. cbn [get_session fst].
  destruct (whole (buf s)) as [[[b rest]|]|e] eqn:Ew; [| |done].
  - apply whole_shorter in Ew. unfold M_bind. cbn [lift modify]. destruct (decode_message b); [|done]. cbn [get_session modify].
    destruct (negb _); [done|]. intros H1. injection H1 as <- <-. unfold work. cbn [fst snd buf set_buf set_fds_seen]. unfold len. lia.
  - assert (spends (l ← sys late; if l : bool then throw Timeout else _ ← fill fuel; receive_loop fuel n)) as Hs.
    { apply spends_bind; [apply keeps_sys; eauto with keeps|]. intros [|]; [apply spends_throw|].
      apply spends_bind; [apply fill_calm|done]. }
    intros H1. by eapply Hs.
Qed.

Lemma outcome_below n dest reply : below n (outcome dest reply).
Proof.
  apply below_pure. intros [s w]. unfold outcome. destruct (_ =? _); [by eexists|]. destruct (_ =? _); [|by eexists].
  destruct (error_name reply); [|by eexists]. unfold mbind, M_bind. destruct (_ || _); by eexists.
Qed.

Lemma reply_below n sn owner dest : (n <= fuel)%nat -> below n (reply_loop fuel n sn owner dest).
Proof.
  induction n as [|n IH]; intros Hn; cbn [reply_loop]; [apply below_0|].
  apply below_calm; [apply below_sys|apply keeps_sys; eauto with keeps|]. intros [|]; [apply below_throw|].
  apply below_spend; [|apply receive_spends|].
  - eapply below_mono; [exact Hn|]. by apply receive_below.
  - intros reply. apply below_calm; [apply below_lift|apply keeps_mlift; tc_solve|].
    intros [|]; [apply outcome_below|apply IH; lia].
Qed.

Lemma call_with_below own dest path iface member sig body fds : keeps calmer own -> below fuel own ->
  below fuel (call_with fuel own dest path iface member sig body fds).
Proof.
  intros Hk Hb. unfold call_with. case_bool_decide; [apply below_throw|].
  apply below_calm; [apply below_get|apply keeps_get; tc_solve|]. intros s.
  destruct (_ && _); [apply below_throw|]. destruct (_ >? _); [apply below_throw|].
  apply below_calm; [apply below_lift|apply keeps_mlift; tc_solve|]. intros _. apply below_calm; [done|done|]. intros owner.
  apply below_calm; [apply below_lift|apply keeps_mlift; tc_solve|]. intros b.
  apply below_calm; [apply below_modify|apply keeps_modify; intros; by apply calm_same|]. intros _.
  apply below_calm; [apply below_get|apply keeps_get; tc_solve|]. intros s'.
  apply below_calm; [apply below_lift|apply keeps_mlift; tc_solve|]. intros m.
  apply below_calm; [by apply send_below|apply send_calm|]. intros _. by apply reply_below.
Qed.

Lemma bus_call_below member sig body : below fuel (bus_call fuel member sig body).
Proof. apply call_with_below; [apply keeps_mret; tc_solve|apply below_ret]. Qed.

Lemma ask_owner_below dest : below fuel (ask_owner fuel dest).
Proof.
  apply below_calm; [apply bus_call_below|apply bus_call_keeps; eauto with keeps; tc_solve|].
  intros [|[] []]; try apply below_throw. destruct (starts_with _ _); [apply below_ret|apply below_throw].
Qed.

Lemma owner_of_below dest : below fuel (owner_of fuel dest).
Proof.
  unfold owner_of. destruct (_ || _); [apply below_ret|].
  apply below_calm; [apply below_get|apply keeps_get; tc_solve|]. intros s.
  destruct (list_find _ _) as [[? [? owner]]|]; [apply below_ret|].
  assert (keeps calmer (ask_owner fuel dest)) as Hk by (apply ask_owner_keeps; eauto with keeps; tc_solve).
  apply below_calm; [apply below_attempt, ask_owner_below|by apply keeps_attempt|]. intros asked. apply below_calm.
  - destruct asked as [a|[]]; try apply below_lift. case_bool_decide; [|apply below_throw].
    apply below_calm; [|apply keeps_mbind; [tc_solve|apply bus_call_keeps; eauto with keeps; tc_solve|intros; apply keeps_mret; tc_solve]|intros; apply ask_owner_below].
    apply below_calm; [apply bus_call_below|apply bus_call_keeps; eauto with keeps; tc_solve|intros; apply below_ret].
  - destruct asked as [a|[]]; try (apply keeps_mlift; tc_solve). case_bool_decide; [|apply keeps_throw; tc_solve].
    apply keeps_mbind; [tc_solve| |done]. apply keeps_mbind; [tc_solve|apply bus_call_keeps; eauto with keeps; tc_solve|intros; apply keeps_mret; tc_solve].
  - intros owner. apply below_calm; [apply below_modify|apply keeps_modify; intros; by apply calm_same|intros; apply below_ret].
Qed.

Lemma call_by_below dest path iface member sig body fds : below fuel (call_by fuel dest path iface member sig body fds).
Proof. apply call_with_below; [apply owner_of_keeps; eauto with keeps; tc_solve|apply owner_of_below]. Qed.

Lemma authenticate_below : below fuel (authenticate fuel).
Proof.
  assert (forall b f, keeps calmer (send fuel b f)) as Hs by (intros; apply send_calm).
  assert (keeps calmer (line fuel)) as Hl by apply line_calm.
  apply below_calm; [by apply send_below|done|]. intros _. apply below_calm; [by apply line_below|done|]. intros l.
  destruct (strip_prefix _ l); [apply below_throw|]. destruct (negb _); [apply below_throw|].
  apply below_calm; [by apply send_below|done|]. intros _. apply below_calm; [by apply line_below|done|]. intros l'.
  apply below_calm.
  - case_bool_decide; [apply below_modify|]. destruct (starts_with _ _); [apply below_ret|apply below_throw].
  - case_bool_decide; [apply keeps_modify; intros; by apply calm_same|].
    destruct (starts_with _ _); [apply keeps_mret; tc_solve|apply keeps_throw; tc_solve].
  - intros _. by apply send_below.
Qed.

Lemma hello_below : below fuel (hello fuel).
Proof.
  apply below_calm; [apply bus_call_below|apply bus_call_keeps; eauto with keeps; tc_solve|].
  intros [|[] []]; try apply below_throw. destruct (starts_with _ _); [apply below_ret|apply below_throw].
Qed.

Lemma open_session_below : below fuel (open_session fuel).
Proof.
  apply below_calm; [apply authenticate_below|apply authenticate_keeps; eauto with keeps; tc_solve|]. intros _.
  apply below_calm; [apply hello_below|apply hello_keeps; eauto with keeps; tc_solve|]. intros. apply below_modify.
Qed.

End Returns.

(** ** What answers a call *)

(** [logged] behaves as the bus it is given and writes down what it was asked. *)
Inductive event := Got (b : bytes) (fds : Z) | Put (b : bytes) (fds : list Z).

Section Logged.
Context {W : Type} `{Bus W}.

Definition logged : Bus (W * list event) := {|
  late := fun '(w, log) => let '(b, w) := late w in (b, (w, log));
  recvmsg := fun '(w, log) => match recvmsg w with
    | (Ok (b, n), w) => (Ok (b, n), (w, log ++ [Got b n]))
    | (Err e, w) => (Err e, (w, log))
    end;
  sendmsg b f := fun '(w, log) => match sendmsg b f w with
    | (Ok n, w) => (Ok n, (w, log ++ [Put (upto b n) f]))
    | (Err e, w) => (Err e, (w, log))
    end;
  poll o := fun '(w, log) => let '(r, w) := poll o w in (r, (w, log));
  getuid := getuid |}.
End Logged.

Definition got (log : list event) : bytes := concat (map (fun e => match e with Got b _ => b | Put _ _ => [] end) log).
Definition put (log : list event) : bytes := concat (map (fun e => match e with Put b _ => b | Got _ _ => [] end) log).
(** The descriptors sent, each with the bytes sent before it. *)
Definition sent_fds (log : list event) : list Z := concat (map (fun e => match e with Put _ f => f | Got _ _ => [] end) log).

Lemma heard_dbus_app a b : got (a ++ b) = got a ++ got b.
Proof. unfold got. by rewrite map_app, concat_app. Qed.
Lemma put_app a b : put (a ++ b) = put a ++ put b.
Proof. unfold put. by rewrite map_app, concat_app. Qed.
Lemma said_fds_app a b : sent_fds (a ++ b) = sent_fds a ++ sent_fds b.
Proof. unfold sent_fds. by rewrite map_app, concat_app. Qed.

Section Answer.
Context {W : Type} `{Bus W} (fuel : nat).
#[local] Existing Instance logged | 0.
Notation St := (Session * (W * list event))%type.

(** The log grew by [l]; what was read and had been in the buffer is [pre] and what
    is in the buffer now; the rest of what identifies a call is as it was. *)
Definition read_on (st st' : St) : Prop := exists l pre,
  st'.2.2 = st.2.2 ++ l /\ put l = [] /\ buf st.1 ++ got l = pre ++ buf st'.1 /\
  owners st'.1 = owners st.1 /\ serial st'.1 = serial st.1.

#[local] Instance read_on_preorder : PreOrder read_on.
Proof.
  split.
  - intros [s [w log]]. exists [], []. cbn. by rewrite !app_nil_r.
  - intros [s1 [w1 log1]] [s2 [w2 log2]] [s3 [w3 log3]] (l1 & p1 & E1 & P1 & B1 & O1 & S1) (l2 & p2 & E2 & P2 & B2 & O2 & S2).
    cbn in *. exists (l1 ++ l2), (p1 ++ p2). subst log2 log3. rewrite put_app, heard_dbus_app, P1, P2. split_and!; cbn; try congruence.
    + by rewrite app_assoc.
    + by rewrite app_assoc, B1, <-app_assoc, B2, app_assoc.
Qed.

Lemma read_on_step s w log s' w' l pre : put l = [] -> buf s ++ got l = pre ++ buf s' -> owners s' = owners s -> serial s' = serial s ->
  read_on (s, (w, log)) (s', (w', log ++ l)).
Proof. intros. by exists l, pre. Qed.

Lemma read_on_quiet s s' w w' log : (exists pre, buf s = pre ++ buf s') -> owners s' = owners s -> serial s' = serial s ->
  read_on (s, (w, log)) (s', (w', log)).
Proof. intros [pre Hp] Ho Hs. exists [], pre. cbn. by rewrite !app_nil_r. Qed.

Lemma read_late s (w : W * list event) b w' : late w = (b, w') -> read_on (s, w) (s, w').
Proof. destruct w as [w log]. cbn. destruct (late w). intros [= _ <-]. apply read_on_quiet; [by exists []|done|done]. Qed.
Lemma read_poll s (w : W * list event) o r w' : poll o w = (r, w') -> read_on (s, w) (s, w').
Proof. destruct w as [w log]. cbn. destruct (poll o w). intros [= _ <-]. apply read_on_quiet; [by exists []|done|done]. Qed.
Lemma read_recv s (w : W * list event) e w' : recvmsg w = (Err e, w') -> read_on (s, w) (s, w').
Proof.
  destruct w as [w log]. cbn. destruct (recvmsg w) as [[[b n]|e'] w1]; [done|]. intros [= _ <-].
  apply read_on_quiet; [by exists []|done|done].
Qed.
Lemma read_data s (w : W * list event) b n w' : recvmsg w = (Ok (b, n), w') ->
  read_on (s, w) (set_buf (buf s ++ b) (set_fds_seen (fds_seen s + n) s), w').
Proof.
  destruct w as [w log]. cbn. destruct (recvmsg w) as [[[b' n']|e'] w1]; [|done]. intros [= -> -> <-].
  apply (read_on_step _ _ _ _ _ [Got b n] []); [done| |done|done]. cbn. by rewrite app_nil_r.
Qed.
Lemma read_fds s n (w : W * list event) : read_on (s, w) (set_fds_seen n s, w).
Proof. destruct w as [w log]. apply read_on_quiet; [by exists []|done|done]. Qed.
Lemma read_take s rest (w : W * list event) : (exists pre, buf s = pre ++ rest) -> read_on (s, w) (set_buf rest s, w).
Proof. destruct w as [w log]. intros Hp. by apply read_on_quiet. Qed.

Hint Resolve read_late read_poll read_recv read_data read_fds read_take : keeps.

Lemma fill_reads n : keeps read_on (fill_loop fuel n).
Proof. apply (fill_keeps read_on); eauto with keeps. Qed.
Lemma receive_reads n : keeps read_on (receive_loop fuel n).
Proof. apply (receive_keeps read_on); eauto with keeps. Qed.

Lemma read_more (st st1 st' : St) l pre mb : read_on st st1 -> st'.2.2 = st1.2.2 ++ l -> put l = [] ->
  buf st1.1 ++ got l = pre ++ mb ++ buf st'.1 -> owners st'.1 = owners st1.1 -> serial st'.1 = serial st1.1 ->
  exists l' pre', st'.2.2 = st.2.2 ++ l' /\ put l' = [] /\ buf st.1 ++ got l' = pre' ++ mb ++ buf st'.1 /\
  owners st'.1 = owners st.1 /\ serial st'.1 = serial st.1.
Proof.
  intros (l1 & p1 & E1 & P1 & B1 & O1 & S1) E2 P2 B2 O2 S2. exists (l1 ++ l), (p1 ++ pre).
  rewrite E2, E1, put_app, heard_dbus_app, P1, P2. split_and!; try done; try congruence.
  - by rewrite app_assoc.
  - by rewrite app_assoc, B1, <-app_assoc, B2, <-app_assoc.
Qed.

Lemma outcome_ok dest reply (st : St) vs st' : outcome dest reply st = Some (Ok vs, st') ->
  st' = st /\ m_kind reply = MSG_METHOD_RETURN /\ decode (m_signature reply) (m_body reply) = Ok vs.
Proof.
  unfold outcome. destruct (Z.eqb_spec (m_kind reply) MSG_METHOD_RETURN).
  - intros H1. injection H1 as -> <-. done.
  - destruct (_ =? _); [|done]. destruct (error_name reply); [|done]. destruct st as [s w]. unfold mbind, M_bind.
    by destruct (_ || _).
Qed.

Lemma answers_yes sn owner reply : answers sn owner reply = Ok true -> m_kind reply = MSG_METHOD_RETURN ->
  reply_serial reply = Some sn /\ sender reply = Some owner.
Proof.
  unfold answers. intros H1 Hk. revert H1. case_bool_decide; [|done]. cbn [negb]. destruct (_ && _); [done|].
  destruct (sender reply); [|done]. case_bool_decide as Ho; [by subst|]. rewrite Hk. by rewrite andb_false_r.
Qed.

(** A message that was received is the last thing that left the buffer. *)
Lemma receive_message n (st : St) reply (st' : St) : receive_loop fuel n st = Some (Ok reply, st') ->
  exists l pre mb, st'.2.2 = st.2.2 ++ l /\ put l = [] /\ buf st.1 ++ got l = pre ++ mb ++ buf st'.1 /\
  owners st'.1 = owners st.1 /\ serial st'.1 = serial st.1 /\ decode_message mb = Ok reply.
Proof.
  revert st. induction n as [|n IH]; intros [s w]; cbn [receive_loop]; [done|]. unfold mbind, M_bind at 1. cbn [get_session fst].
  destruct (whole (buf s)) as [[[b rest]|]|e] eqn:Ew; [| |done].
  - apply whole_cut in Ew. unfold M_bind. cbn [lift modify]. destruct (decode_message b) as [m|] eqn:Ed; [|done].
    cbn [get_session modify fst]. destruct (negb _); [done|]. intros H1. injection H1 as -> <-.
    exists [], [], b. cbn. by rewrite !app_nil_r.
  - unfold M_bind at 1. cbn [lift]. intros H1.
    assert (exists st1, read_on (s, w) st1 /\ receive_loop fuel n st1 = Some (Ok reply, st')) as (st1 & Hr & H2).
    { unfold M_bind at 1 in H1. unfold sys in H1. destruct (late w) as [[|] w1] eqn:El; [done|].
      apply (read_late s) in El. unfold M_bind in H1. destruct (fill fuel (s, w1)) as [[[[]|] st1]|] eqn:Ef; [|done|done].
      exists st1. split; [|done]. etransitivity; [exact El|]. by eapply fill_reads. }
    destruct (IH _ H2) as (l & pre & mb & E2 & P2 & B2 & O2 & S2 & D).
    destruct (read_more _ _ _ _ _ _ Hr E2 P2 B2 O2 S2) as (l' & p' & ?). exists l', p', mb. by destruct_and!.
Qed.

(** The answer to a call that was sent. *)
Lemma reply_answer n sn owner dest (st : St) vs (st' : St) : reply_loop fuel n sn owner dest st = Some (Ok vs, st') ->
  exists l pre mb reply, st'.2.2 = st.2.2 ++ l /\ put l = [] /\ buf st.1 ++ got l = pre ++ mb ++ buf st'.1 /\
  owners st'.1 = owners st.1 /\ serial st'.1 = serial st.1 /\ decode_message mb = Ok reply /\
  reply_serial reply = Some sn /\ m_kind reply = MSG_METHOD_RETURN /\ sender reply = Some owner /\
  decode (m_signature reply) (m_body reply) = Ok vs.
Proof.
  revert st. induction n as [|n IH]; intros [s w]; cbn [reply_loop]; [done|]. unfold mbind, M_bind, sys at 1.
  destruct (late w) as [[|] w1] eqn:El; [done|]. apply (read_late s) in El.
  destruct (receive fuel (s, w1)) as [[[reply|] st1]|] eqn:Er; [|done|done].
  cbn [lift]. destruct (answers sn owner reply) as [[|]|] eqn:Ea; [| |done].
  - intros H1. apply receive_message in Er as (l & pre & mb & E2 & P2 & B2 & O2 & S2 & D).
    destruct (outcome_ok _ _ _ _ _ H1) as (-> & Hk & Hd). destruct (answers_yes _ _ _ Ea Hk) as [Hs Hf].
    destruct (read_more _ _ _ _ _ _ El E2 P2 B2 O2 S2) as (l' & p' & ?). exists l', p', mb, reply. by destruct_and!.
  - intros (l & pre & mb & reply' & E2 & P2 & B2 & O2 & S2 & Hrest)%IH.
    assert (read_on (s, w) st1) as Hr by (etransitivity; [exact El|by eapply receive_reads]).
    destruct (read_more _ _ _ _ _ _ Hr E2 P2 B2 O2 S2) as (l' & p' & ?). exists l', p', mb, reply'. by destruct_and!.
Qed.

(** The same without what is special to reading. *)
Definition on_stream (st st' : St) : Prop := exists l pre,
  st'.2.2 = st.2.2 ++ l /\ buf st.1 ++ got l = pre ++ buf st'.1.

#[local] Instance on_stream_preorder : PreOrder on_stream.
Proof.
  split.
  - intros [s [w log]]. exists [], []. cbn. by rewrite !app_nil_r.
  - intros [s1 [w1 log1]] [s2 [w2 log2]] [s3 [w3 log3]] (l1 & p1 & E1 & B1) (l2 & p2 & E2 & B2).
    cbn in *. exists (l1 ++ l2), (p1 ++ p2). subst log2 log3. split; cbn [fst snd]; [by rewrite app_assoc|].
    by rewrite heard_dbus_app, app_assoc, B1, <-app_assoc, B2, app_assoc.
Qed.

Lemma read_stream st st' : read_on st st' -> on_stream st st'.
Proof. intros (l & pre & E & _ & B & _). by exists l, pre. Qed.
Lemma stream_same s s' (w : W * list event) : buf s' = buf s -> on_stream (s, w) (s', w).
Proof. intros E. exists [], []. cbn. by rewrite E, !app_nil_r. Qed.
Lemma stream_send s (w : W * list event) b f r w' : sendmsg b f w = (r, w') -> on_stream (s, w) (s, w').
Proof.
  destruct w as [w log]. cbn. destruct (sendmsg b f w) as [[n|e] w1]; intros [= _ <-]; [exists [Put (upto b n) f], []|exists [], []];
  cbn; by rewrite !app_nil_r.
Qed.

Lemma owner_of_stream dest : keeps on_stream (owner_of fuel dest).
Proof.
  apply (owner_of_keeps on_stream); intros; eauto using stream_send, stream_same; apply read_stream; eauto with keeps.
Qed.

(** What [send] puts on the socket. *)
Lemma send_puts (Hlen : forall b f (w : W) n w', sendmsg b f w = (Ok n, w') -> 0 <= n <= len b) n b carried (st st' : St) :
  send_loop fuel n b carried st = Some (Ok (), st') ->
  exists l, st'.1 = st.1 /\ st'.2.2 = st.2.2 ++ l /\ put l = b /\ got l = [] /\ (b <> [] \/ carried = [] -> sent_fds l = carried).
Proof.
  assert (forall out (st st' : St), wait fuel out st = Some (Ok (), st') -> st'.1 = st.1 /\ st'.2.2 = st.2.2) as Hwait.
  { clear. intros out. unfold wait. generalize fuel at 1. intros k. induction k as [|k IH]; intros [s [w log]] st'; cbn [wait_loop]; [done|].
    unfold mbind, M_bind, sys. cbn. destruct (late w) as [[|] w1]; [done|]. destruct (poll out w1) as [[j|[]] w2]; [|apply IH|done|done].
    destruct (j =? 0); [done|]. by intros [= <-]. }
  revert b carried st. induction n as [|n IH]; intros b carried [s [w log]]; destruct b as [|c b]; cbn [send_loop].
  - intros [= <-]. exists []. rewrite app_nil_r. split_and!; try done. by intros [?| ->].
  - done.
  - intros [= <-]. exists []. rewrite app_nil_r. split_and!; try done. by intros [?| ->].
  - destruct (_ && _); [done|]. unfold mbind, M_bind at 1, sys. cbn. destruct (sendmsg _ carried w) as [[k|e] w1] eqn:Es.
    + apply Hlen in Es. destruct (Z.eqb_spec k 0); [done|]. intros (l & E1 & E2 & E3 & E4 & E5)%IH.
      cbn [fst snd] in *. exists ([Put (upto (c :: b) k) carried] ++ l). rewrite E2, put_app, heard_dbus_app, said_fds_app, E3, E4, <-app_assoc.
      split_and!; [done|done| |done|].
      * unfold put. cbn [map concat]. rewrite app_nil_r. apply upto_from.
      * intros _. rewrite E5 by (by right). cbn. by rewrite !app_nil_r.
    + destruct e; [apply IH| |done]. unfold mbind, M_bind. intros H1.
      destruct (wait fuel true (s, (w1, log))) as [[[[]|] st1]|] eqn:Ew; [|done|done]. apply Hwait in Ew as [W1 W2].
      apply IH in H1 as (l & E1 & E2 & E3 & E4 & E5). cbn in *. exists l. rewrite E1, E2, W1, W2. done.
Qed.

(** The name that may answer a call to [dest]: itself when it is the bus or a unique
    name, or the owner the session has on record for it. *)
Definition owns (dest owner : bytes) (s : Session) : Prop :=
  (owner = dest /\ (dest = BUS_NAME \/ starts_with COLON_ dest = true)) \/ (dest, owner) ∈ owners s.

Lemma owner_of_owns dest (st : St) owner (st' : St) : owner_of fuel dest st = Some (Ok owner, st') -> owns dest owner st'.1.
Proof.
  unfold owner_of. destruct (_ || _) eqn:Eb.
  { intros [= -> ->]. left. split; [done|]. apply orb_true_iff in Eb as [?%bool_decide_eq_true|?]; auto. }
  unfold mbind, M_bind at 1. cbn [get_session]. destruct (list_find _ _) as [[i [d o]]|] eqn:Ef.
  { intros [= -> ->]. right. apply list_find_Some in Ef as (Hi & Hd & _). cbn in Hd. subst d. by eapply list_elem_of_lookup_2. }
  intros H1. right. destruct (attempt (ask_owner fuel dest) st) as [[[asked|] st1]|] eqn:E1; [|unfold M_bind in H1; by rewrite E1 in H1..].
  unfold M_bind at 1 in H1. rewrite E1 in H1. unfold M_bind in H1 at 1.
  match type of H1 with match ?m with _ => _ end = _ => destruct m as [[[o|] st2]|]; [|done|done] end.
  destruct st2 as [s2 w2]. unfold M_bind in H1. cbn [modify] in H1. injection H1 as <- <-. cbn. apply elem_of_app. right. by apply list_elem_of_singleton.
Qed.

Lemma header_nonempty kind flags serial fields body m : encode_message kind flags serial fields body = Ok m -> m <> [].
Proof.
  unfold encode_message. destruct (_ >? _); [done|]. intros (h & Hh & H1)%bind_ok. destruct (_ >? _); [done|].
  assert (m = pad h 8 ++ body) as -> by congruence.
  enough (h <> []) as Hn by (rewrite pad_padding; destruct h; [done|by intros ?]).
  revert Hh. unfold encode, get_signature. rewrite header_types. cbn [ok_or mbind result_bind]. rewrite Z.eqb_refl. cbn [negb].
  unfold HEADER_TYPES. cbn [encode_fields]. do 7 (intros (? & ? & Hh)%bind_ok; revert Hh). intros [= <-].
  match goal with H : encode_value (VArray _) _ _ _ = _ |- _ => revert H end. cbn [encode_value].
  destruct (_ >? _); [done|]. destruct (_ >=? _); [done|]. intros (o & _ & Hf)%bind_ok. revert Hf. unfold finish_array.
  destruct (_ >? _); [done|]. intros H7 E7. rewrite E7 in H7.
  apply (f_equal (fun r => match r with Ok l => len l | Err _ => 1 end)) in H7. cbv beta iota in H7.
  rewrite !len_app, len_le_bytes in H7. change (@len byte []) with 0 in H7.
  match type of H7 with len ?x + (_ + len ?y) = _ => pose proof (len_nonneg x); pose proof (len_nonneg y) end. lia.
Qed.

Lemma call_answered_spec (Hlen : forall b f (w : W) n w', sendmsg b f w = (Ok n, w') -> 0 <= n <= len b)
    dest path iface member sig body fds (st : St) vs (st' : St) :
  call_by fuel dest path iface member sig body fds st = Some (Ok vs, st') ->
  exists owner b request asked sent heard pre mb reply,
    owns dest owner st'.1 /\ encode sig body = Ok b /\
    encode_message MSG_METHOD_CALL 0 (serial st'.1) (call_fields path owner iface member sig (len fds)) b = Ok request /\
    st'.2.2 = st.2.2 ++ asked ++ sent ++ heard /\ put sent = request /\ sent_fds sent = fds /\ put heard = [] /\
    buf st.1 ++ got (asked ++ sent ++ heard) = pre ++ mb ++ buf st'.1 /\ decode_message mb = Ok reply /\
    reply_serial reply = Some (serial st'.1) /\ m_kind reply = MSG_METHOD_RETURN /\ sender reply = Some owner /\
    decode (m_signature reply) (m_body reply) = Ok vs.
Proof.
  unfold call_by, call_with. case_bool_decide; [done|]. unfold mbind, M_bind at 1. cbn [get_session].
  destruct (_ && _); [done|]. destruct (_ >? _); [done|]. unfold M_bind at 1. cbn [lift].
  destruct (check_all_fds body (len fds)); [|done]. unfold M_bind at 1.
  destruct (owner_of fuel dest st) as [[[owner|] st1]|] eqn:Eo; [|done|done]. pose proof (owner_of_owns _ _ _ _ Eo) as Howns.
  apply owner_of_stream in Eo as (asked & p1 & L1 & B1). unfold M_bind at 1. cbn [lift].
  destruct (encode sig body) as [b|]; [|done]. unfold M_bind at 1. destruct st1 as [s1 w1]. cbn [modify]. unfold M_bind at 1. cbn [get_session fst].
  set (s2 := set_serial _ s1). unfold M_bind at 1. cbn [lift].
  destruct (encode_message _ _ _ _ _) as [request|] eqn:Em; [|done]. unfold M_bind at 1.
  destruct (send fuel request fds (s2, w1)) as [[[[]|] st3]|] eqn:Es; [|done|done].
  apply (send_puts Hlen) in Es as (sent & E3 & L3 & P3 & G3 & F3).
  intros (heard & p2 & mb & reply & L4 & P4 & B4 & O4 & S4 & Hm & Hs & Hk & Hf & Hd)%reply_answer.
  rewrite E3 in O4, S4, B4. cbn [fst snd] in *. exists owner, b, request, asked, sent, heard, (p1 ++ p2), mb, reply.
  rewrite S4. split_and!; try done.
  - unfold owns in *. by rewrite O4.
  - rewrite L4, L3, L1. by rewrite <-!app_assoc.
  - apply F3. left. by eapply header_nonempty.
  - rewrite !heard_dbus_app, G3. cbn [app]. rewrite app_assoc, B1, <-!app_assoc. f_equal. exact B4.
Qed.

End Answer.

(** ** The properties *)

(** A call returns.  When what still happens before the deadline is finite, so is
    the work of the client: with fuel for it, opening a session and any call of an
    open one, the lookup and the starting of the destination's owner, the sending
    and all the messages passed over included, come to a result. *)
Theorem call_returns {W} `{Bus W} (budget : W -> nat) `{!BusLaws W budget} fuel st :
  work budget st < Z.of_nat fuel ->
  is_Some (open_session fuel st) /\
  forall dest path iface member sig body fds, is_Some (call_by fuel dest path iface member sig body fds st).
Proof.
  intros Hf. split; [by apply (open_session_below budget)|]. intros. by apply (call_by_below budget).
Qed.

(** C15. What a call returns is the answer of whoever it was addressed to.  The owner
    is the destination itself (the bus, or a unique name) or the name the session
    has on record for it; the request goes to that owner, whole, and its
    descriptors with it; nothing is sent afterwards; and the values come from the
    last message taken off the stream, which answers this call's serial, is a method
    return and was stamped with that owner by the bus.  No other peer's message can
    be the answer, whatever its serial. *)
Theorem call_answered {W} `{Bus W} (budget : W -> nat) `{!BusLaws W budget}
    fuel dest path iface member sig body fds s w log vs s' w' log' :
  @call_by _ logged fuel dest path iface member sig body fds (s, (w, log)) = Some (Ok vs, (s', (w', log'))) ->
  exists owner b request asked sent heard pre mb reply,
    owns dest owner s' /\ encode sig body = Ok b /\
    encode_message MSG_METHOD_CALL 0 (serial s') (call_fields path owner iface member sig (len fds)) b = Ok request /\
    log' = log ++ asked ++ sent ++ heard /\ put sent = request /\ sent_fds sent = fds /\ put heard = [] /\
    buf s ++ got (asked ++ sent ++ heard) = pre ++ mb ++ buf s' /\ decode_message mb = Ok reply /\
    reply_serial reply = Some (serial s') /\ m_kind reply = MSG_METHOD_RETURN /\ sender reply = Some owner /\
    decode (m_signature reply) (m_body reply) = Ok vs.
Proof. apply (call_answered_spec fuel (fun b f w n w' => send_len b f w n w')). Qed.

(** A bus that hands over what it has and takes a bounded number of messages. *)
#[local] Instance demo_bus : Bus (list (bytes * Z) * nat) := {|
  late := fun w => (bool_decide (w.1 = []), w);
  recvmsg := fun '(l, n) => match l with [] => (Err AGAIN, (l, n)) | (b, f) :: l' =>
    if (len b <=? 4096) && (0 <=? f) then (Ok (b, f), (l', n)) else (Err OtherErrno, (l', n)) end;
  sendmsg := fun b f '(l, n) => match n with O => (Err OtherErrno, (l, n)) | S n => (Ok (len b), (l, n)) end;
  poll := fun _ w => (Ok 0, w);
  getuid := 1000 |}.

#[local] Instance demo_bus_laws : BusLaws (list (bytes * Z) * nat) (fun w => (length w.1 + w.2)%nat).
Proof.
  split; unfold late, recvmsg, sendmsg, poll; cbn.
  - by intros [l n] b w' [= _ <-].
  - intros [[|[b f] l] n] r w'; [by intros [= <- <-]|]. destruct (_ && _); intros [= <- <-]; cbn; lia.
  - intros [[|[b f] l] n] r w'; [by intros [= <- <-]|]. destruct (_ && _); intros [= <- <-]; cbn; lia.
  - intros b f [l [|n]] r w' [= <- <-]; cbn; lia.
  - intros b f [l [|n]] r w' [= <- <-]; cbn; [done|lia].
  - intros o [l n] r w' [= <- <-]. cbn. lia.
  - by intros o [l n] r w' [= <- <-].
  - intros [[|[b f] l] n] b' n' w'; [done|]. destruct (_ && _) eqn:E; intros [= <- <- <-]. bool_to_prop. lia.
  - intros b f [l [|n]] k w' [= <- <-]. pose proof (len_nonneg b). lia.
Qed.

Definition demo_reply (sn : Z) (from : bytes) : bytes :=
  match encode_message MSG_METHOD_RETURN 0 3
    [(FIELD_REPLY_SERIAL, VUint32 sn); (FIELD_SENDER, VStr from); (FIELD_SIGNATURE, VSignature (B "s"))]
    (match encode (B "s") [VStr from] with Ok b => b | Err _ => [] end) with Ok m => m | Err _ => [] end.

(** Someone else answers first, in two pieces; then the callee. *)
Definition demo_world : list (bytes * Z) * nat :=
  ([(upto (demo_reply 1 (B ":1.66")) 20, 0); (from (demo_reply 1 (B ":1.66")) 20 ++ demo_reply 1 (B ":1.9"), 0); ([], 0)], 5%nat).

Definition demo_call (w : list (bytes * Z) * nat) :=
  @call_by _ (@logged _ demo_bus) 20 (B ":1.9") (B "/org") (B "org.Test") (B "Get") [] [] [] (new_session, (w, [])).

Lemma call_returns_witness :
  is_Some (open_session 40000 (new_session, demo_world)) /\
  forall dest path iface member sig body fds,
    is_Some (call_by 40000 dest path iface member sig body fds (new_session, demo_world)).
Proof. apply (call_returns (fun w => (length w.1 + w.2)%nat) 40000 (new_session, demo_world)). vm_compute. reflexivity. Defined.

Lemma call_answered_witness : exists s' w' log',
  demo_call demo_world = Some (Ok [VStr (B ":1.9")], (s', (w', log'))) /\
  exists owner reply, owns (B ":1.9") owner s' /\ sender reply = Some owner /\ reply_serial reply = Some (serial s').
Proof.
  assert (exists s' w' log', demo_call demo_world = Some (Ok [VStr (B ":1.9")], (s', (w', log')))) as (s' & w' & log' & E)
    by (do 3 eexists; vm_compute; reflexivity).
  exists s', w', log'. split; [exact E|].
  destruct (@call_answered _ demo_bus _ demo_bus_laws 20 (B ":1.9") (B "/org") (B "org.Test") (B "Get") [] [] []
    new_session demo_world [] [VStr (B ":1.9")] s' w' log' E)
    as (owner & b & request & asked & sent & heard & pre & mb & reply & Ho & _ & _ & _ & _ & _ & _ & _ & _ & Hs & _ & Hf & _).
  exists owner, reply. split; [exact Ho|split; [exact Hf|exact Hs]].
Defined.
