(* ===== verification/Seccomp.v ===== *)
(** The seccomp denylist: [crates/bubbler-core/src/seccomp.rs].

    Two halves.  The rule set: [default_set], what a profile makes of it
    ([RuleSet.with_]), and [build], which hands it to libseccomp, an interface of
    the model ([Libseccomp]) whose filters are an abstract type.  And the program
    written by hand: [personality_prefix], bytes of [struct sock_filter], for which
    [Bpf.exec] is the instruction set as [linux/filter.h] documents it, as far as
    the prefix and what may follow it need it. *)
From S2P Require Export Text.

(** Whether bubbler was built for x86_64. *)
Class Target := x86_64 : bool.

Definition DEFAULT_EPERM : list bytes := map B
  ["syslog"; "uselib"; "acct"; "quotactl"; "add_key"; "keyctl"; "request_key"; "move_pages"; "mbind";
   "get_mempolicy"; "set_mempolicy"; "migrate_pages"; "perf_event_open"; "bpf"; "userfaultfd"; "fanotify_init";
   "lookup_dcookie"; "name_to_handle_at"; "open_by_handle_at"; "kexec_load"; "kexec_file_load"; "init_module";
   "finit_module"; "delete_module"; "iopl"; "ioperm"; "swapon"; "swapoff"; "reboot"; "vhangup"; "settimeofday";
   "clock_settime"; "clock_settime64"; "adjtimex"; "clock_adjtime"; "clock_adjtime64"; "sethostname";
   "setdomainname"; "nfsservctl"; "vm86"; "vm86old"; "io_uring_setup"; "io_uring_enter"; "io_uring_register";
   "pidfd_getfd"; "kcmp"]%string.

Definition SINGLE_ARCH_EPERM : list bytes := [B "modify_ldt"].

Definition DEFAULT_ENOSYS : list bytes := map B
  ["clone3"; "open_tree"; "move_mount"; "fsopen"; "fsconfig"; "fsmount"; "fspick"]%string.

Definition DEFAULT_ENOSYS_NUMBERED : list (bytes * Z) :=
  [(B "open_tree_attr", 467); (B "listns", 470); (B "fchroot", 472)].

Definition TIOCSTI : Z := 0x5412.
Definition TIOCLINUX : Z := 0x541C.
Definition DEFAULT_IOCTL_EPERM : list Z := [TIOCSTI; TIOCLINUX].

Inductive Arch := X86.
Definition EXTRA_ARCHES `{Target} : list Arch := if x86_64 then [X86] else [].

Inductive Errno := Eperm | Enosys.

#[global] Instance Errno_eq_dec : EqDecision Errno.
Proof. solve_decision. Defined.

Definition errno_name (e : Errno) : bytes := match e with Eperm => B "EPERM" | Enosys => B "ENOSYS" end.
(** [OsErrno::PERM] and [OsErrno::NOSYS]. *)
Definition raw (e : Errno) : Z := match e with Eperm => 1 | Enosys => 38 end.

Record SeccompConfig := mkConfig { allow : list bytes; deny : list (bytes * Errno); disable : bool }.

Module RuleSet.
Record t := mk {
  eperm : list bytes; enosys : list bytes; enosys_numbered : list (bytes * Z * Errno);
  ioctl_eperm : list Z; personality : bool }.

Definition default_set `{Target} : t :=
  let extra := match EXTRA_ARCHES with [] => SINGLE_ARCH_EPERM | _ => [] end in
  mk (DEFAULT_EPERM ++ extra) DEFAULT_ENOSYS (map (fun '(name, nr) => (name, nr, Enosys)) DEFAULT_ENOSYS_NUMBERED)
    DEFAULT_IOCTL_EPERM true.

Definition remove (name : bytes) (set : t) : t :=
  mk (filter (fun s => s <> name) (eperm set)) (filter (fun s => s <> name) (enosys set))
    (filter (fun e => e.1.1 <> name) (enosys_numbered set)) (ioctl_eperm set) (personality set).

Definition clear_ioctl (set : t) : t := mk (eperm set) (enosys set) (enosys_numbered set) [] (personality set).

Definition IOCTL : bytes := B "ioctl".
Definition PERSONALITY : bytes := B "personality".

(** The body of the loop over [cfg.allow]. *)
Definition allow_one (set : t) (name : bytes) : t :=
  let set := remove name set in
  let set := if bool_decide (name = IOCTL) then clear_ioctl set else set in
  if bool_decide (name = PERSONALITY)
  then mk (eperm set) (enosys set) (enosys_numbered set) (ioctl_eperm set) false else set.

(** The body of the loop over [cfg.deny]. *)
Definition deny_one (set : t) (d : bytes * Errno) : t :=
  let '(name, errno) := d in
  let set := remove name set in
  let set := if bool_decide (name = IOCTL) then clear_ioctl set else set in
  match list_find (fun e => e.1 = name) DEFAULT_ENOSYS_NUMBERED with
  | Some (_, (_, nr)) =>
      mk (eperm set) (enosys set) (enosys_numbered set ++ [(name, nr, errno)]) (ioctl_eperm set) (personality set)
  | None =>
    match errno with
    | Eperm => mk (eperm set ++ [name]) (enosys set) (enosys_numbered set) (ioctl_eperm set) (personality set)
    | Enosys => mk (eperm set) (enosys set ++ [name]) (enosys_numbered set) (ioctl_eperm set) (personality set)
    end
  end.

Definition with_ `{Target} (cfg : SeccompConfig) : option t :=
  if disable cfg then None
  else Some (fold_left deny_one (deny cfg) (fold_left allow_one (allow cfg) default_set)).
End RuleSet.

(** ** libseccomp *)

Inductive ScmpAction := Allow | Log | KillProcess | ErrnoAction (e : Z).

(** [ScmpArgCompare::new(arg, MaskedEqual(mask), datum)]. *)
Record ArgCompare := mkCompare { arg : Z; mask : Z; datum : Z }.

(** Its calls, over an abstract type of filters; an error is its text. *)
Class Libseccomp (F : Type) := {
  filter_new : ScmpAction -> result bytes F;
  set_act_badarch : ScmpAction -> F -> result bytes F;
  add_arch : Arch -> F -> result bytes F;
  add_rule : ScmpAction -> Z -> F -> result bytes F;
  add_rule_conditional : ScmpAction -> Z -> ArgCompare -> F -> result bytes F;
  export_bpf : F -> result bytes bytes;
  from_name : bytes -> option Z;
}.

Definition REQUEST_MASK : Z := 0xFFFFFFFF.

Definition action (log : bool) (e : Errno) : ScmpAction := if log then Log else ErrnoAction (raw e).

Section Build.
Context {F : Type} `{Libseccomp F} `{Target}.

Record Built := mkBuilt { b_filter : F; b_rules : Z; b_skipped : list bytes }.

Fixpoint numbered_loop (log : bool) (l : list (bytes * Z * Errno)) (f : F) (seen : gset Z) : result bytes (F * gset Z) :=
  match l with
  | [] => Ok (f, seen)
  | (_, nr, errno) :: l =>
    if bool_decide (nr ∈ seen) then numbered_loop log l f seen
    else f ← add_rule (action log errno) nr f; numbered_loop log l f ({[nr]} ∪ seen)
  end.

Fixpoint arch_loop (l : list Arch) (f : F) : result bytes F :=
  match l with [] => Ok f | a :: l => f ← add_arch a f; arch_loop l f end.

Fixpoint named_loop (log : bool) (errno : Errno) (names : list bytes) (f : F) (seen : gset Z) (skipped : list bytes)
  : result bytes (F * gset Z * list bytes) :=
  match names with
  | [] => Ok (f, seen, skipped)
  | name :: names =>
    match from_name name with
    | None => named_loop log errno names f seen (skipped ++ [name])
    | Some nr =>
      if bool_decide (nr ∈ seen) then named_loop log errno names f seen skipped
      else f ← add_rule (action log errno) nr f; named_loop log errno names f ({[nr]} ∪ seen) skipped
    end
  end.

Fixpoint ioctl_loop (log : bool) (ioctl : Z) (requests : list Z) (f : F) (rules : Z) : result bytes (F * Z) :=
  match requests with
  | [] => Ok (f, rules)
  | request :: requests =>
    f ← add_rule_conditional (action log Eperm) ioctl (mkCompare 1 REQUEST_MASK request) f;
    ioctl_loop log ioctl requests f (rules + 1)
  end.

Definition build (set : RuleSet.t) (log : bool) : result bytes Built :=
  f ← filter_new Allow;
  f ← set_act_badarch KillProcess f;
  '(f, seen) ← numbered_loop log (RuleSet.enosys_numbered set) f ∅;
  f ← arch_loop EXTRA_ARCHES f;
  '(f, seen, skipped) ← named_loop log Eperm (RuleSet.eperm set) f seen [];
  '(f, seen, skipped) ← named_loop log Enosys (RuleSet.enosys set) f seen skipped;
  let rules := Z.of_nat (size seen) in
  match from_name RuleSet.IOCTL with
  | None => Ok (mkBuilt f rules skipped)
  | Some ioctl =>
    if negb (bool_decide (RuleSet.ioctl_eperm set = [])) && negb (bool_decide (ioctl ∈ seen)) then
      '(f, rules) ← ioctl_loop log ioctl (RuleSet.ioctl_eperm set) f rules; Ok (mkBuilt f rules skipped)
    else Ok (mkBuilt f rules skipped)
  end.

End Build.
Arguments Built : clear implicits.

(** [take_note]: the names to report now, and whether they have been. *)
Definition take_note (skipped : list bytes) (noted : bool) : bool * bool :=
  if bool_decide (skipped = []) then (false, noted) else (negb noted, true).

Definition skip_line (name : bytes) : bytes :=
  B "bubbler: seccomp: " ++ name ++ B " unknown to this libseccomp, rule skipped".

(** ** The hand-written prefix *)

Definition PERSONALITY_ALLOWED : list Z := [0x0; 0x8; 0x20000; 0x20008; 0xffffffff].
Definition AUDIT_ARCH_X86_64 : Z := 0xc000003e.
Definition AUDIT_ARCH_I386 : Z := 0x40000003.
Definition NR_PERSONALITY_X86_64 : Z := 135.
Definition NR_PERSONALITY_I386 : Z := 136.
Definition BPF_LD_W_ABS : Z := 0x20.
Definition BPF_JEQ_K : Z := 0x15.
Definition BPF_JA : Z := 0x05.
Definition BPF_RET_K : Z := 0x06.
Definition SECCOMP_RET_ERRNO : Z := 0x50000.
Definition SECCOMP_RET_LOG : Z := 0x7ffc0000.

Definition insn (code jt jf k : Z) : bytes := le_bytes 2 code ++ [to_u8 jt; to_u8 jf] ++ le_bytes 4 k.

Definition allowed (i : nat) : Z := nth i PERSONALITY_ALLOWED 0.

Definition personality_deny (log : bool) : Z := if log then SECCOMP_RET_LOG else Z.lor SECCOMP_RET_ERRNO (raw Eperm).

Definition personality_prefix (log : bool) : bytes :=
  concat [
    insn BPF_LD_W_ABS 0 0 4;
    insn BPF_JEQ_K 0 2 AUDIT_ARCH_X86_64;
    insn BPF_LD_W_ABS 0 0 0;
    insn BPF_JEQ_K 3 9 NR_PERSONALITY_X86_64;
    insn BPF_JEQ_K 0 8 AUDIT_ARCH_I386;
    insn BPF_LD_W_ABS 0 0 0;
    insn BPF_JEQ_K 0 6 NR_PERSONALITY_I386;
    insn BPF_LD_W_ABS 0 0 16;
    insn BPF_JEQ_K 4 0 (allowed 0);
    insn BPF_JEQ_K 3 0 (allowed 1);
    insn BPF_JEQ_K 2 0 (allowed 2);
    insn BPF_JEQ_K 1 0 (allowed 3);
    insn BPF_JEQ_K 0 1 (allowed 4);
    insn BPF_JA 0 0 1;
    insn BPF_RET_K 0 0 (personality_deny log)].

Record Program := mkProgram { arches : bytes; p_bytes : bytes }.

(** [ARCHES]: off x86_64 it is the name of the architecture built for. *)
Definition ARCHES `{Target} (native : bytes) : bytes := if x86_64 then B "x86_64 + i386" else native.

(** [compile]: the result, the note taken, and the lines on standard error. *)
Definition compile {F} `{Libseccomp F} `{Target} (native : bytes) (set : RuleSet.t) (log noted : bool)
  : result bytes (option Program) * bool * list bytes :=
  match build set log with
  | Err e => (Err e, noted, [])
  | Ok built =>
    let '(tell, noted) := take_note (b_skipped built) noted in
    let lines := if tell then map skip_line (b_skipped built) else [] in
    if b_rules built =? 0 then (Ok None, noted, lines)
    else
      let bytes := if RuleSet.personality set then personality_prefix log else [] in
      match export_bpf (b_filter built) with
      | Err e => (Err e, noted, lines)
      | Ok b => (Ok (Some (mkProgram (ARCHES native) (bytes ++ b))), noted, lines)
      end
  end.

(** ** The machine the prefix runs on

    Classic BPF as the kernel runs it on [struct seccomp_data]: an instruction is
    eight bytes, jumps go forward from the instruction after the jump, loads take a
    32-bit word of the data.  Only the four instructions of the prefix are given a
    meaning; what a program does from an instruction outside them is [other], any
    function of where the program is and of the accumulator. *)
Module Bpf.

Record Insn := mkInsn { code : Z; jt : Z; jf : Z; k : Z }.

(** Offsets of [struct seccomp_data]: [nr], [arch], and the low and high words of [args]. *)
Record Data := mkData { nr : Z; arch : Z; args : list Z }.

Definition word (d : Data) (at_ : Z) : option Z :=
  if at_ =? 0 then Some (nr d)
  else if at_ =? 4 then Some (arch d)
  else if (at_ >=? 16) && (at_ mod 4 =? 0) then
    let i := (at_ - 16) / 8 in
    a ← get (args d) i;
    Some (if (at_ - 16) mod 8 =? 0 then a mod 2 ^ 32 else a / 2 ^ 32)
  else None.

(** The first instruction of some bytes, and the rest. *)
Definition next (b : bytes) : option (Insn * bytes) :=
  i ← slice b 0 8;
  match i with
  | c0 :: c1 :: t :: f :: k => Some (mkInsn (le_val [c0; c1]) (u8 t) (u8 f) (le_val k), from b 8)
  | _ => None
  end.

Section Exec.
Variable other : bytes -> Data -> Z -> option Z.

Fixpoint exec (fuel : nat) (b : bytes) (d : Data) (a : Z) : option Z :=
  match fuel with
  | O => None
  | S fuel =>
    match next b with
    | None => None
    | Some (i, rest) =>
      if code i =? BPF_LD_W_ABS then a ← word d (k i); exec fuel rest d a
      else if code i =? BPF_JEQ_K then exec fuel (from rest (8 * (if a =? k i then jt i else jf i))) d a
      else if code i =? BPF_JA then exec fuel (from rest (8 * k i)) d a
      else if code i =? BPF_RET_K then Some (k i)
      else other b d a
    end
  end.

(** An instruction is eight bytes, so the length is fuel enough ([exec_fuel]). *)
Definition run (b : bytes) (d : Data) (a : Z) : option Z := exec (S (length b)) b d a.

Lemma next_shorter b i rest : next b = Some (i, rest) -> (length rest < length b)%nat.
Proof.
  unfold next. intros (s & Hs & H1)%bind_Some. apply slice_some in Hs as (p & q & -> & _ & Hl).
  destruct s as [|x0 [|x1 [|x2 [|x3 s]]]]; try done.
  assert (rest = from (p ++ (x0 :: x1 :: x2 :: x3 :: s) ++ q) 8) as -> by congruence.
  unfold from. rewrite length_drop, !length_app. change (Z.to_nat 8) with 8%nat. cbn [length]. lia.
Qed.

Lemma exec_fuel f1 f2 b d a : (length b < f1)%nat -> (length b < f2)%nat -> exec f1 b d a = exec f2 b d a.
Proof.
  revert f2 b a. induction f1 as [|f1 IH]; intros [|f2] b a H1 H2; try lia. cbn [exec].
  destruct (next b) as [[i rest]|] eqn:E; [|done]. apply next_shorter in E.
  assert (forall n, (length (from rest n) <= length rest)%nat) as Hf by (intros n; unfold from; rewrite length_drop; lia).
  destruct (_ =? _); [destruct (word d (k i)); [|done]; cbn [mbind option_bind]; apply IH; lia|].
  destruct (_ =? _); [apply IH; (eapply Nat.le_lt_trans; [apply Hf|lia])|].
  destruct (_ =? _); [apply IH; (eapply Nat.le_lt_trans; [apply Hf|lia])|]. done.
Qed.

Lemma run_next b d a i rest : next b = Some (i, rest) -> run b d a =
  if code i =? BPF_LD_W_ABS then a ← word d (k i); run rest d a
  else if code i =? BPF_JEQ_K then run (from rest (8 * (if a =? k i then jt i else jf i))) d a
  else if code i =? BPF_JA then run (from rest (8 * k i)) d a
  else if code i =? BPF_RET_K then Some (k i)
  else other b d a.
Proof.
  intros E. unfold run at 1. cbn [exec]. rewrite E. apply next_shorter in E.
  assert (forall n, (length (from rest n) <= length rest)%nat) as Hf by (intros n; unfold from; rewrite length_drop; lia).
  destruct (_ =? _); [destruct (word d (k i)); [|done]; cbn [mbind option_bind]; apply exec_fuel; lia|].
  destruct (_ =? _); [apply exec_fuel; [|lia]; (eapply Nat.le_lt_trans; [apply Hf|lia])|].
  destruct (_ =? _); [apply exec_fuel; [|lia]; (eapply Nat.le_lt_trans; [apply Hf|lia])|]. done.
Qed.

Lemma len_insn c t f v : len (insn c t f v) = 8.
Proof. unfold insn. by rewrite !len_app, !len_le_bytes. Qed.

Lemma next_insn c t f v rest : 0 <= c < 2 ^ 16 -> 0 <= t < 256 -> 0 <= f < 256 -> 0 <= v < 2 ^ 32 ->
  next (insn c t f v ++ rest) = Some (mkInsn c t f v, rest).
Proof.
  intros Hc Ht Hf Hv. unfold next. pose proof (slice_app [] (insn c t f v) rest) as Hs. rewrite len_insn in Hs.
  cbn [app] in Hs. change (@len byte [] + 8) with 8 in Hs. change (@len byte []) with 0 in Hs. rewrite Hs. cbn [mbind option_bind].
  assert (from (insn c t f v ++ rest) 8 = rest) as -> by (rewrite <-(len_insn c t f v), from_app; done).
  unfold insn at 1. cbn [le_bytes app]. do 3 f_equal.
  - change (le_val (le_bytes 2 c) = c). by apply le_val_bytes.
  - rewrite u8_to_u8. by apply Z.mod_small.
  - rewrite u8_to_u8. by apply Z.mod_small.
  - change (le_val (le_bytes 4 v) = v). by apply le_val_bytes.
Qed.

Lemma skip_insn c t f v rest n : 0 <= n -> from (insn c t f v ++ rest) (8 * (1 + n)) = from rest (8 * n).
Proof. intros Hn. rewrite from_app_ge by (rewrite len_insn; lia). rewrite len_insn. f_equal. lia. Qed.

Lemma run_ld t f v rest d a x : 0 <= t < 256 -> 0 <= f < 256 -> 0 <= v < 2 ^ 32 -> word d v = Some x ->
  run (insn BPF_LD_W_ABS t f v ++ rest) d a = run rest d x.
Proof. intros Ht Hf Hv Hx. rewrite (run_next _ _ _ _ _ (next_insn BPF_LD_W_ABS _ _ _ _ ltac:(done) Ht Hf Hv)). cbn [code k]. rewrite Z.eqb_refl, Hx. done. Qed.

Lemma run_jeq t f v rest d a : 0 <= t < 256 -> 0 <= f < 256 -> 0 <= v < 2 ^ 32 ->
  run (insn BPF_JEQ_K t f v ++ rest) d a = run (from rest (8 * (if a =? v then t else f))) d a.
Proof. intros Ht Hf Hv. by rewrite (run_next _ _ _ _ _ (next_insn BPF_JEQ_K _ _ _ _ ltac:(done) Ht Hf Hv)). Qed.

Lemma run_ja t f v rest d a : 0 <= t < 256 -> 0 <= f < 256 -> 0 <= v < 2 ^ 32 ->
  run (insn BPF_JA t f v ++ rest) d a = run (from rest (8 * v)) d a.
Proof. intros Ht Hf Hv. by rewrite (run_next _ _ _ _ _ (next_insn BPF_JA _ _ _ _ ltac:(done) Ht Hf Hv)). Qed.

Lemma run_ret t f v rest d a : 0 <= t < 256 -> 0 <= f < 256 -> 0 <= v < 2 ^ 32 ->
  run (insn BPF_RET_K t f v ++ rest) d a = Some v.
Proof. intros Ht Hf Hv. by rewrite (run_next _ _ _ _ _ (next_insn BPF_RET_K _ _ _ _ ltac:(done) Ht Hf Hv)). Qed.

End Exec.
End Bpf.

(** Skips whole instructions, and runs one. *)
Ltac skip_insns :=
  repeat match goal with
  | |- context [from (insn ?c ?t ?f ?v ++ ?r) (8 * ?n)] =>
    lazymatch n with
    | 0 => rewrite (from_0 (insn c t f v ++ r) : from (insn c t f v ++ r) (8 * 0) = _)
    | _ => let m := eval vm_compute in (n - 1) in
           change (from (insn c t f v ++ r) (8 * n)) with (from (insn c t f v ++ r) (8 * (1 + m)));
           rewrite (Bpf.skip_insn c t f v r m) by lia
    end
  end.

(** What a call of [personality] is denied: an argument off the list, on either ABI. *)
Definition is_personality (d : Bpf.Data) : bool :=
  ((Bpf.arch d =? AUDIT_ARCH_X86_64) && (Bpf.nr d =? NR_PERSONALITY_X86_64))
  || ((Bpf.arch d =? AUDIT_ARCH_I386) && (Bpf.nr d =? NR_PERSONALITY_I386)).

Definition persona (d : Bpf.Data) : Z := default 0 (Bpf.word d 16).

Definition denied_persona (d : Bpf.Data) : bool :=
  is_personality d && negb (existsb (fun v => persona d =? v) PERSONALITY_ALLOWED).

(** The accumulator after the prefix. *)
Definition prefix_acc (d : Bpf.Data) : Z :=
  if is_personality d then persona d
  else if (Bpf.arch d =? AUDIT_ARCH_X86_64) || (Bpf.arch d =? AUDIT_ARCH_I386) then Bpf.nr d else Bpf.arch d.

(** The end of the prefix, from the load of the argument. *)
Definition check_persona (log : bool) (p : bytes) : bytes :=
  insn BPF_LD_W_ABS 0 0 16 ++ insn BPF_JEQ_K 4 0 (allowed 0) ++ insn BPF_JEQ_K 3 0 (allowed 1) ++
  insn BPF_JEQ_K 2 0 (allowed 2) ++ insn BPF_JEQ_K 1 0 (allowed 3) ++ insn BPF_JEQ_K 0 1 (allowed 4) ++
  insn BPF_JA 0 0 1 ++ insn BPF_RET_K 0 0 (personality_deny log) ++ p.

Lemma from_insns c t f v r n : 1 <= n -> from (insn c t f v ++ r) (8 * n) = from r (8 * (n - 1)).
Proof. intros Hn. replace n with (1 + (n - 1)) at 1 by lia. apply Bpf.skip_insn. lia. Qed.

Lemma from_here (l : bytes) : from l (8 * 0) = l.
Proof. apply from_0. Qed.

Ltac here := repeat (rewrite from_insns by done; rewrite ?Z.sub_diag; cbn [Z.sub Z.add Z.opp Z.pos_sub Pos.pred_double Z.pred_double]); rewrite ?from_here.

Lemma pass_runs other log p d a :
  Bpf.run other (insn BPF_JA 0 0 1 ++ insn BPF_RET_K 0 0 (personality_deny log) ++ p) d a = Bpf.run other p d a.
Proof. rewrite Bpf.run_ja by done. by here. Qed.

Lemma deny_runs other log p d a :
  Bpf.run other (insn BPF_RET_K 0 0 (personality_deny log) ++ p) d a = Some (personality_deny log).
Proof. apply Bpf.run_ret; try done. by destruct log. Qed.

Lemma check_runs other log p d a x : Bpf.word d 16 = Some x ->
  Bpf.run other (check_persona log p) d a =
  if existsb (fun v => x =? v) PERSONALITY_ALLOWED then Bpf.run other p d x else Some (personality_deny log).
Proof.
  intros Hx. unfold check_persona. rewrite (Bpf.run_ld _ 0 0 16 _ _ _ x) by done.
  change (existsb _ _) with
    ((x =? allowed 0) || ((x =? allowed 1) || ((x =? allowed 2) || ((x =? allowed 3) || ((x =? allowed 4) || false))))).
  rewrite Bpf.run_jeq by done. destruct (x =? allowed 0); [here; apply pass_runs|here].
  rewrite Bpf.run_jeq by done. destruct (x =? allowed 1); [here; apply pass_runs|here].
  rewrite Bpf.run_jeq by done. destruct (x =? allowed 2); [here; apply pass_runs|here].
  rewrite Bpf.run_jeq by done. destruct (x =? allowed 3); [here; apply pass_runs|here].
  rewrite Bpf.run_jeq by done. destruct (x =? allowed 4); here; [apply pass_runs|apply deny_runs].
Qed.

Lemma prefix_runs other log p d : Bpf.args d <> [] ->
  Bpf.run other (personality_prefix log ++ p) d 0 =
  if denied_persona d then Some (personality_deny log) else Bpf.run other p d (prefix_acc d).
Proof.
  intros Ha. assert (exists x, Bpf.word d 16 = Some x) as [x Hx].
  { unfold Bpf.word. cbn. destruct (Bpf.args d) as [|a l]; [done|]. by eexists. }
  assert (persona d = x) as Hp by (unfold persona; by rewrite Hx).
  unfold personality_prefix. cbn [concat]. rewrite <-!app_assoc. cbn [app].
  fold (check_persona log p). rewrite (Bpf.run_ld _ _ _ _ _ _ _ (Bpf.arch d)) by done. rewrite Bpf.run_jeq by done.
  unfold denied_persona, prefix_acc, is_personality. rewrite Hp.
  destruct (Z.eqb_spec (Bpf.arch d) AUDIT_ARCH_X86_64) as [E|E]; here.
  - assert (Bpf.arch d =? AUDIT_ARCH_I386 = false) as -> by (by rewrite E). rewrite orb_false_r. cbn [andb orb].
    rewrite (Bpf.run_ld _ _ _ _ _ _ _ (Bpf.nr d)) by done. rewrite Bpf.run_jeq by done.
    destruct (Bpf.nr d =? NR_PERSONALITY_X86_64); here; cbn [andb].
    + rewrite (check_runs _ _ _ _ _ _ Hx). by destruct (existsb _ _).
    + apply pass_runs.
  - cbn [andb orb]. rewrite Bpf.run_jeq by done. destruct (Z.eqb_spec (Bpf.arch d) AUDIT_ARCH_I386) as [E'|E']; here; cbn [andb orb].
    + rewrite (Bpf.run_ld _ _ _ _ _ _ _ (Bpf.nr d)) by done. rewrite Bpf.run_jeq by done.
      destruct (Bpf.nr d =? NR_PERSONALITY_I386); here; cbn [andb].
      * rewrite (check_runs _ _ _ _ _ _ Hx). by destruct (existsb _ _).
      * apply pass_runs.
    + apply pass_runs.
Qed.

(** ** What a rule set says *)

Definition rules_of (set : RuleSet.t) : list (bytes * Errno) :=
  map (fun n => (n, Eperm)) (RuleSet.eperm set) ++ map (fun n => (n, Enosys)) (RuleSet.enosys set) ++
  map (fun e => (e.1.1, e.2)) (RuleSet.enosys_numbered set).

(** The error a profile's last word on a name asks for. *)
Definition last_deny (l : list (bytes * Errno)) (name : bytes) : option Errno :=
  snd <$> last (filter (fun d => d.1 = name) l).


Lemma in_remove name n e set : (n, e) ∈ rules_of (RuleSet.remove name set) <-> n <> name /\ (n, e) ∈ rules_of set.
Proof.
  unfold rules_of, RuleSet.remove. cbn. rewrite !elem_of_app, !list_elem_of_fmap.
  setoid_rewrite list_elem_of_filter. naive_solver.
Qed.

Lemma nodup_filter_map {A} (g : A -> bytes * Errno) P `{!forall x, Decision (P x)} (l : list A) :
  sublist (map fst (map g (filter P l))) (map fst (map g l)).
Proof.
  induction l as [|x l IH]; [done|]. rewrite filter_cons. cbn [map]. case_decide; cbn [map]; by constructor.
Qed.

Lemma nodup_remove name set : NoDup (map fst (rules_of set)) -> NoDup (map fst (rules_of (RuleSet.remove name set))).
Proof.
  intros Hn. eapply sublist_NoDup; [exact Hn|]. unfold rules_of, RuleSet.remove. cbn. rewrite !map_app.
  repeat apply sublist_app; apply nodup_filter_map.
Qed.

Lemma in_deny_one set name errno n e :
  (n, e) ∈ rules_of (RuleSet.deny_one set (name, errno)) <->
  (n = name /\ e = errno) \/ (n <> name /\ (n, e) ∈ rules_of set).
Proof.
  rewrite <-in_remove. unfold RuleSet.deny_one.
  set (s1 := RuleSet.remove name set). set (s2 := if bool_decide (name = RuleSet.IOCTL) then _ else _).
  assert (rules_of s2 = rules_of s1) as <- by (unfold s2; by case_bool_decide).
  destruct (list_find _ _) as [[i [nm nr]]|]; [|destruct errno]; unfold rules_of; cbn;
    rewrite ?map_app, !elem_of_app; cbn; rewrite list_elem_of_singleton; naive_solver.
Qed.

Lemma nodup_deny_one set d : NoDup (map fst (rules_of set)) -> NoDup (map fst (rules_of (RuleSet.deny_one set d))).
Proof.
  destruct d as [name errno]. intros Hn. unfold RuleSet.deny_one. apply (nodup_remove name) in Hn.
  assert (name ∉ map fst (rules_of (RuleSet.remove name set))) as Hout.
  { intros ([n e] & -> & [? _]%in_remove)%list_elem_of_fmap. done. }
  set (s1 := RuleSet.remove name set) in *. set (s2 := if bool_decide (name = RuleSet.IOCTL) then _ else _).
  assert (rules_of s2 = rules_of s1) as E by (unfold s2; by case_bool_decide). rewrite <-E in *. clear E.
  assert (forall a b, rules_of s2 = a ++ b -> NoDup (map fst (a ++ [(name, errno)] ++ b))) as Hins.
  { intros a b E. rewrite E in *. rewrite map_app in *. cbn [map app fst] in *.
    rewrite not_elem_of_app in Hout. destruct Hout. apply NoDup_app in Hn as (Ha & Hab & Hb). apply NoDup_app. split_and!; [done| |by constructor].
    intros x Hx [->|?]%elem_of_cons; [done|]. by eapply Hab. }
  destruct (list_find _ _) as [[i [nm nr]]|]; [|destruct errno];
    match goal with |- NoDup (map fst (rules_of ?s)) => set (s' := s) end.
  - assert (rules_of s' = rules_of s2 ++ [(name, errno)] ++ []) as ->.
    { unfold rules_of, s'. cbn. by rewrite map_app, <-!app_assoc. }
    apply Hins. by rewrite app_nil_r.
  - assert (rules_of s' = map (fun n => (n, Eperm)) (RuleSet.eperm s2) ++ [(name, Eperm)] ++
      map (fun n => (n, Enosys)) (RuleSet.enosys s2) ++ map (fun e => (e.1.1, e.2)) (RuleSet.enosys_numbered s2)) as ->.
    { unfold rules_of, s'. cbn. by rewrite map_app, <-!app_assoc. }
    by apply Hins.
  - assert (rules_of s' = (map (fun n => (n, Eperm)) (RuleSet.eperm s2) ++ map (fun n => (n, Enosys)) (RuleSet.enosys s2)) ++
      [(name, Enosys)] ++ map (fun e => (e.1.1, e.2)) (RuleSet.enosys_numbered s2)) as ->.
    { unfold rules_of, s'. cbn. by rewrite map_app, <-!app_assoc. }
    apply Hins. unfold rules_of. by rewrite <-app_assoc.
Qed.

Lemma rules_allow_one set name : rules_of (RuleSet.allow_one set name) = rules_of (RuleSet.remove name set).
Proof. unfold RuleSet.allow_one. by repeat case_bool_decide. Qed.

Lemma last_deny_snoc l d name : last_deny (l ++ [d]) name = if decide (d.1 = name) then Some d.2 else last_deny l name.
Proof.
  unfold last_deny. rewrite filter_app, filter_cons, filter_nil. case_decide; [by rewrite last_snoc|by rewrite app_nil_r].
Qed.

Lemma ioctl_allow_one set name :
  RuleSet.ioctl_eperm (RuleSet.allow_one set name) = if bool_decide (name = RuleSet.IOCTL) then [] else RuleSet.ioctl_eperm set.
Proof. unfold RuleSet.allow_one. by destruct (bool_decide (name = RuleSet.IOCTL)), (bool_decide (name = RuleSet.PERSONALITY)). Qed.
Lemma personality_allow_one set name :
  RuleSet.personality (RuleSet.allow_one set name) = RuleSet.personality set && negb (bool_decide (name = RuleSet.PERSONALITY)).
Proof.
  unfold RuleSet.allow_one. destruct (bool_decide (name = RuleSet.IOCTL)), (bool_decide (name = RuleSet.PERSONALITY));
  unfold RuleSet.clear_ioctl, RuleSet.remove; cbn [RuleSet.personality negb]; by rewrite ?andb_true_r, ?andb_false_r.
Qed.
Lemma ioctl_deny_one set d :
  RuleSet.ioctl_eperm (RuleSet.deny_one set d) = if bool_decide (d.1 = RuleSet.IOCTL) then [] else RuleSet.ioctl_eperm set.
Proof.
  destruct d as [name errno]. unfold RuleSet.deny_one. cbn [fst].
  destruct (bool_decide (name = RuleSet.IOCTL)), (list_find _ _) as [[? []]|], errno; done.
Qed.
Lemma personality_deny_one set d : RuleSet.personality (RuleSet.deny_one set d) = RuleSet.personality set.
Proof.
  destruct d as [name errno]. unfold RuleSet.deny_one.
  destruct (bool_decide (name = RuleSet.IOCTL)), (list_find _ _) as [[? []]|], errno; done.
Qed.

(** Membership of a list and of what is before its end, as booleans. *)
Lemma decide_cons (x y : bytes) l : bool_decide (x ∈ y :: l) = bool_decide (y = x) || bool_decide (x ∈ l).
Proof.
  destruct (bool_decide_reflect (y = x)) as [->|Hn]; cbn [orb]; [apply bool_decide_true; by left|].
  apply bool_decide_ext. rewrite elem_of_cons. naive_solver.
Qed.
Lemma decide_snoc (x y : bytes) l : bool_decide (x ∈ l ++ [y]) = bool_decide (x ∈ l) || bool_decide (y = x).
Proof.
  destruct (bool_decide_reflect (y = x)) as [->|Hn]; rewrite ?orb_true_r, ?orb_false_r.
  - apply bool_decide_true. rewrite elem_of_app. right. by left.
  - apply bool_decide_ext. rewrite elem_of_app, list_elem_of_singleton. naive_solver.
Qed.

Lemma allows_spec names set : let s := fold_left RuleSet.allow_one names set in
  (forall n e, (n, e) ∈ rules_of s <-> n ∉ names /\ (n, e) ∈ rules_of set) /\
  (NoDup (map fst (rules_of set)) -> NoDup (map fst (rules_of s))) /\
  RuleSet.ioctl_eperm s = (if bool_decide (RuleSet.IOCTL ∈ names) then [] else RuleSet.ioctl_eperm set) /\
  RuleSet.personality s = RuleSet.personality set && negb (bool_decide (RuleSet.PERSONALITY ∈ names)).
Proof.
  revert set. induction names as [|name names IH]; intros set; cbn [fold_left].
  - split_and!; [intros n e; rewrite elem_of_nil; naive_solver|done|done|by rewrite andb_true_r].
  - destruct (IH (RuleSet.allow_one set name)) as (H1 & H2 & H3 & H4). cbv zeta in *. split_and!.
    + intros n e. rewrite H1, rules_allow_one, in_remove, not_elem_of_cons. naive_solver.
    + intros Hn. apply H2. rewrite rules_allow_one. by apply nodup_remove.
    + rewrite H3, ioctl_allow_one, decide_cons. by destruct (bool_decide (name = _)), (bool_decide (_ ∈ names)).
    + rewrite H4, personality_allow_one, decide_cons, negb_orb. by rewrite andb_assoc.
Qed.

Lemma denies_spec l set : let s := fold_left RuleSet.deny_one l set in
  (forall n e, (n, e) ∈ rules_of s <->
     last_deny l n = Some e \/ (last_deny l n = None /\ (n, e) ∈ rules_of set)) /\
  (NoDup (map fst (rules_of set)) -> NoDup (map fst (rules_of s))) /\
  RuleSet.ioctl_eperm s = (if bool_decide (RuleSet.IOCTL ∈ map fst l) then [] else RuleSet.ioctl_eperm set) /\
  RuleSet.personality s = RuleSet.personality set.
Proof.
  induction l as [|d l IH] using rev_ind; cbv zeta.
  - split_and!; [intros n e; unfold last_deny; cbn; naive_solver|done|done|done].
  - cbv zeta in IH. destruct IH as (H1 & H2 & H3 & H4). rewrite fold_left_app. cbn [fold_left]. destruct d as [name errno]. split_and!.
    + intros n e. rewrite in_deny_one, H1, last_deny_snoc. cbn [fst snd].
      destruct (decide (name = n)) as [->|Hne]; split.
      * intros [[_ ->]|[? _]]; [by left|done].
      * intros [[= ->]|[? _]]; [by left|done].
      * intros [[? _]|[_ ?]]; done.
      * intros ?. right. done.
    + intros Hn. by apply nodup_deny_one, H2.
    + rewrite map_app, ioctl_deny_one, H3. cbn [map fst]. rewrite decide_snoc.
      by destruct (bool_decide (name = _)), (bool_decide (_ ∈ map fst l)).
    + by rewrite personality_deny_one.
Qed.

Lemma default_nodup `{Target} : NoDup (map fst (rules_of RuleSet.default_set)).
Proof. unfold RuleSet.default_set, EXTRA_ARCHES. destruct x86_64; by_decide. Qed.

(** ** What is asked of libseccomp *)

Inductive call := CArch (a : Arch) | CRule (act : ScmpAction) (nr : Z) | CCond (act : ScmpAction) (nr : Z) (cmp : ArgCompare).

Section Plan.
Context {F : Type} `{Libseccomp F} `{Target}.

Definition apply_call (c : call) (f : F) : result bytes F :=
  match c with
  | CArch a => add_arch a f
  | CRule act nr => add_rule act nr f
  | CCond act nr cmp => add_rule_conditional act nr cmp f
  end.

(** The calls, one after the other, up to the first that fails. *)
Fixpoint applied (cs : list call) (f : F) : result bytes F :=
  match cs with [] => Ok f | c :: cs => f ← apply_call c f; applied cs f end.

(** The first rule for each number that has none yet. *)
Fixpoint fresh (log : bool) (l : list (Errno * Z)) (seen : gset Z) : list call :=
  match l with
  | [] => []
  | (e, nr) :: l =>
    if bool_decide (nr ∈ seen) then fresh log l seen else CRule (action log e) nr :: fresh log l ({[nr]} ∪ seen)
  end.

Definition numbers (l : list (Errno * Z)) : gset Z := list_to_set (map snd l).

Definition numbered (set : RuleSet.t) : list (Errno * Z) := map (fun e => (e.2, e.1.2)) (RuleSet.enosys_numbered set).

Definition resolve (errno : Errno) (names : list bytes) : list (Errno * Z) :=
  omap (fun n => pair errno <$> from_name n) names.

Definition named (set : RuleSet.t) : list (Errno * Z) :=
  resolve Eperm (RuleSet.eperm set) ++ resolve Enosys (RuleSet.enosys set).

Definition unknown (names : list bytes) : list bytes := filter (fun n => from_name n = None) names.

Definition ioctl_calls (set : RuleSet.t) (log : bool) : list call :=
  match from_name RuleSet.IOCTL with
  | Some ioctl =>
    if bool_decide (ioctl ∈ numbers (numbered set ++ named set)) then []
    else map (fun r => CCond (action log Eperm) ioctl (mkCompare 1 REQUEST_MASK r)) (RuleSet.ioctl_eperm set)
  | None => []
  end.

Definition unconditional (set : RuleSet.t) (log : bool) : list call * list call :=
  (fresh log (numbered set) ∅, fresh log (named set) (numbers (numbered set))).

Lemma applied_app cs ds f : applied (cs ++ ds) f = f ← applied cs f; applied ds f.
Proof. revert f. induction cs as [|c cs IH]; intros f; cbn; [done|]. destruct (apply_call c f); cbn; [apply IH|done]. Qed.

Lemma union_absorb (nr : Z) (a x : gset Z) : nr ∈ a -> a ∪ ({[nr]} ∪ x) = a ∪ x.
Proof. set_solver. Qed.
Lemma union_move (nr : Z) (a x : gset Z) : {[nr]} ∪ a ∪ x = a ∪ ({[nr]} ∪ x).
Proof. set_solver. Qed.

Lemma numbers_cons e nr l : numbers ((e, nr) :: l) = {[nr]} ∪ numbers l.
Proof. done. Qed.

Lemma numbered_loop_plan log l f seen : numbered_loop log l f seen =
  f ← applied (fresh log (map (fun e => (e.2, e.1.2)) l) seen) f;
  Ok (f, seen ∪ numbers (map (fun e => (e.2, e.1.2)) l)).
Proof.
  revert f seen. induction l as [|[[n nr] e] l IH]; intros f seen; cbn [numbered_loop map fresh fst snd].
  - unfold numbers. cbn. by rewrite (right_id_L ∅ (∪)).
  - rewrite numbers_cons. case_bool_decide as Hin.
    + by rewrite IH, union_absorb.
    + cbn [applied apply_call]. destruct (add_rule (action log e) nr f); cbn [mbind result_bind]; [|done]. by rewrite IH, union_move.
Qed.

Lemma named_loop_plan log e names f seen skipped : named_loop log e names f seen skipped =
  f ← applied (fresh log (resolve e names) seen) f;
  Ok (f, seen ∪ numbers (resolve e names), skipped ++ unknown names).
Proof.
  revert f seen skipped. induction names as [|n names IH]; intros f seen skipped; cbn [named_loop].
  - unfold numbers, unknown. cbn. by rewrite (right_id_L ∅ (∪)), app_nil_r.
  - unfold resolve, unknown. cbn [omap list_omap]. rewrite filter_cons. fold (unknown names). 
    destruct (from_name n) as [nr|] eqn:E; cbn [fmap option_fmap option_map].
    + fold (resolve e names). rewrite decide_False by done. cbn [fresh]. rewrite numbers_cons. case_bool_decide.
      * by rewrite IH, union_absorb.
      * cbn [applied apply_call]. destruct (add_rule (action log e) nr f); cbn [mbind result_bind]; [|done]. by rewrite IH, union_move.
    + fold (resolve e names). rewrite decide_True by done. rewrite IH. by rewrite <-app_assoc.
Qed.

Lemma arch_loop_plan l f : arch_loop l f = applied (map CArch l) f.
Proof. revert f. induction l as [|a l IH]; intros f; cbn; [done|]. destruct (add_arch a f); cbn; [apply IH|done]. Qed.

Lemma ioctl_loop_plan log i l f n : ioctl_loop log i l f n =
  f ← applied (map (fun r => CCond (action log Eperm) i (mkCompare 1 REQUEST_MASK r)) l) f; Ok (f, n + len l).
Proof.
  revert f n. induction l as [|r l IH]; intros f n; cbn [ioctl_loop map applied apply_call]; [by rewrite Z.add_0_r|].
  destruct (add_rule_conditional _ _ _ _); cbn [mbind result_bind]; [|done]. rewrite IH, len_cons.
  by rewrite Z.add_assoc.
Qed.

Lemma fresh_app log a b seen : fresh log (a ++ b) seen = fresh log a seen ++ fresh log b (seen ∪ numbers a).
Proof.
  revert seen. induction a as [|[e nr] a IH]; intros seen; cbn [app fresh].
  - unfold numbers. cbn. by rewrite (right_id_L ∅ (∪)).
  - rewrite numbers_cons. case_bool_decide; rewrite IH; [by rewrite union_absorb|]. cbn [app]. by rewrite union_move.
Qed.

Lemma numbers_app a b : numbers (a ++ b) = numbers a ∪ numbers b.
Proof. unfold numbers. by rewrite map_app, list_to_set_app_L. Qed.

Lemma fresh_count log l seen : Z.of_nat (size (seen ∪ numbers l)) = Z.of_nat (size seen) + len (fresh log l seen).
Proof.
  revert seen. induction l as [|[e nr] l IH]; intros seen; cbn [fresh].
  - unfold numbers. cbn. rewrite (right_id_L ∅ (∪)). change (@len call []) with 0. lia.
  - rewrite numbers_cons. case_bool_decide.
    + by rewrite <-IH, union_absorb.
    + rewrite len_cons, <-union_move, IH, size_union by set_solver. rewrite size_singleton. lia.
Qed.

(** [build] is its plan carried out. *)
Lemma build_plan set log : build set log =
  let '(first, named) := unconditional set log in
  f ← filter_new Allow; f ← set_act_badarch KillProcess f;
  f ← applied (first ++ map CArch EXTRA_ARCHES ++ named ++ ioctl_calls set log) f;
  Ok (mkBuilt f (len (first ++ named ++ ioctl_calls set log)) (unknown (RuleSet.eperm set ++ RuleSet.enosys set))).
Proof.
  unfold unconditional, build. cbv beta iota.
  set (cnt := len (_ ++ _ ++ ioctl_calls set log)).
  assert (fresh log (named set) (numbers (numbered set)) = fresh log (resolve Eperm (RuleSet.eperm set)) (numbers (numbered set)) ++
    fresh log (resolve Enosys (RuleSet.enosys set)) (numbers (numbered set) ∪ numbers (resolve Eperm (RuleSet.eperm set)))) as Hn
    by apply fresh_app.
  assert (Z.of_nat (size (numbers (numbered set) ∪ numbers (named set))) + len (ioctl_calls set log) = cnt) as Hc.
  { unfold cnt. rewrite (fresh_count log), !len_app. pose proof (fresh_count log (numbered set) ∅) as E.
    rewrite (left_id_L ∅ (∪)), size_empty in E. lia. }
  clearbody cnt. destruct (filter_new Allow) as [f0|]; cbn [mbind result_bind]; [|done].
  destruct (set_act_badarch KillProcess f0) as [f1|]; cbn [mbind result_bind]; [|done].
  rewrite numbered_loop_plan, Hn, !applied_app. fold (numbered set).
  destruct (applied (fresh log (numbered set) ∅) f1) as [f2|]; cbn [mbind result_bind]; [|done].
  rewrite (left_id_L ∅ (∪)), arch_loop_plan, applied_app.
  destruct (applied (map CArch EXTRA_ARCHES) f2) as [f3|]; cbn [mbind result_bind]; [|done].
  rewrite named_loop_plan, !applied_app.
  destruct (applied (fresh log (resolve Eperm _) _) f3) as [f4|]; cbn [mbind result_bind]; [|done].
  rewrite named_loop_plan.
  destruct (applied (fresh log (resolve Enosys _) _) f4) as [f5|]; cbn [mbind result_bind]; [|done].
  rewrite <-(assoc_L (∪)), <-numbers_app. fold (named set). cbn [app].
  assert (unknown (RuleSet.eperm set) ++ unknown (RuleSet.enosys set) = unknown (RuleSet.eperm set ++ RuleSet.enosys set)) as ->
    by (unfold unknown; by rewrite filter_app).
  rewrite <-Hc. unfold ioctl_calls. rewrite numbers_app.
  destruct (from_name RuleSet.IOCTL) as [i|]; [|by rewrite Z.add_0_r].
  destruct (bool_decide (i ∈ _)); cbn [negb]; [by rewrite andb_false_r, Z.add_0_r|]. rewrite andb_true_r.
  destruct (bool_decide_reflect (RuleSet.ioctl_eperm set = [])) as [Hr|Hr]; cbn [negb]; [rewrite Hr; by rewrite Z.add_0_r|]. rewrite ioctl_loop_plan, len_map.
  by destruct (applied _ f5).
Qed.

(** The error of the first entry for a number. *)
Definition first_for (nr : Z) (l : list (Errno * Z)) : option Errno := fst <$> head (filter (fun x => x.2 = nr) l).

Lemma fresh_spec log l seen act nr :
  CRule act nr ∈ fresh log l seen <-> nr ∉ seen /\ exists e, first_for nr l = Some e /\ act = action log e.
Proof.
  revert seen. induction l as [|[e n] l IH]; intros seen; cbn [fresh].
  - unfold first_for. cbn. rewrite elem_of_nil. naive_solver.
  - unfold first_for. rewrite filter_cons. cbn [snd]. fold (first_for nr l).
    destruct (bool_decide_reflect (n ∈ seen)) as [Hin|Hin].
    + rewrite IH. unfold first_for. case_decide as Hd; [|done]. subst. split; intros [? _]; done.
    + rewrite elem_of_cons, IH. case_decide as Hd.
      * subst. cbn. split; [intros [[= ->]|[Hn _]]; [naive_solver|set_solver]|]. intros [_ (e' & [= <-] & ->)]. by left.
      * unfold first_for. split; [intros [[= -> ->]|[Hn He]]; [done|split; [set_solver|done]]|].
        intros [Hn He]. right. split; [set_solver|done].
Qed.

Definition rule_nr (c : call) : list Z := match c with CRule _ nr => [nr] | _ => [] end.

Lemma fresh_nodup log l seen : NoDup (concat (map rule_nr (fresh log l seen))) /\ Forall (fun nr => nr ∉ seen) (concat (map rule_nr (fresh log l seen))).
Proof.
  revert seen. induction l as [|[e n] l IH]; intros seen; cbn [fresh]; [by split; constructor|].
  case_bool_decide as Hin; [apply IH|]. cbn [map concat rule_nr app]. destruct (IH ({[n]} ∪ seen)) as [H1 H2].
  rewrite Forall_forall in H2. split; constructor; try done.
  - intros Hn. apply H2 in Hn. set_solver.
  - apply Forall_forall. intros x Hx%H2. set_solver.
Qed.
End Plan.

(** ** The properties *)

Lemma with_spec `{Target} cfg :
  match RuleSet.with_ cfg with
  | None => disable cfg = true
  | Some set =>
    disable cfg = false /\
    (forall n e, (n, e) ∈ rules_of set <->
       last_deny (deny cfg) n = Some e \/
       (last_deny (deny cfg) n = None /\ n ∉ allow cfg /\ (n, e) ∈ rules_of RuleSet.default_set)) /\
    NoDup (map fst (rules_of set)) /\
    RuleSet.ioctl_eperm set =
      (if bool_decide (RuleSet.IOCTL ∈ allow cfg) || bool_decide (RuleSet.IOCTL ∈ map fst (deny cfg)) then [] else DEFAULT_IOCTL_EPERM) /\
    RuleSet.personality set = negb (bool_decide (RuleSet.PERSONALITY ∈ allow cfg))
  end.
Proof.
  unfold RuleSet.with_. destruct (disable cfg); [done|]. split; [done|].
  destruct (allows_spec (allow cfg) RuleSet.default_set) as (A1 & A2 & A3 & A4).
  destruct (denies_spec (deny cfg) (fold_left RuleSet.allow_one (allow cfg) RuleSet.default_set)) as (D1 & D2 & D3 & D4).
  cbv zeta in *. split_and!.
  - intros n e. rewrite D1, A1. tauto.
  - apply D2, A2, default_nodup.
  - rewrite D3, A3. by destruct (bool_decide (_ ∈ allow cfg)), (bool_decide (_ ∈ map fst (deny cfg))).
  - by rewrite D4, A4.
Qed.

(** What a profile makes of the denylist: a name is answered with the error of the
    profile's last [deny] of it; without one, it is allowed when the profile allows
    it, and otherwise as in the default list.  No name is ever answered twice,
    whatever lists it was on; [ioctl] in either list takes the two request rules
    back; only [allow "personality"] drops the prefix; and there is no rule set
    exactly when the profile disables the filter. *)
Theorem rule_set_of_profile `{Target} cfg :
  match RuleSet.with_ cfg with
  | None => disable cfg = true
  | Some set =>
    disable cfg = false /\
    (forall n e, (n, e) ∈ rules_of set <->
       last_deny (deny cfg) n = Some e \/
       (last_deny (deny cfg) n = None /\ n ∉ allow cfg /\ (n, e) ∈ rules_of RuleSet.default_set)) /\
    NoDup (map fst (rules_of set)) /\
    RuleSet.ioctl_eperm set =
      (if bool_decide (RuleSet.IOCTL ∈ allow cfg) || bool_decide (RuleSet.IOCTL ∈ map fst (deny cfg)) then [] else DEFAULT_IOCTL_EPERM) /\
    RuleSet.personality set = negb (bool_decide (RuleSet.PERSONALITY ∈ allow cfg))
  end.
Proof. apply with_spec. Qed.

(** What [build] asks of libseccomp.  A filter that allows by default and kills
    what comes from another ABI; then the rules by number, then the other
    architectures, then the rules by name, so that exactly the named rules reach
    every architecture.  A syscall gets one unconditional rule, that of the first
    entry for its number and with that entry's error; the conditional rules on
    [ioctl] are asked for only beside no unconditional one; the count is that of the
    rules and the skipped names are those libseccomp does not know. *)
Theorem filter_one_answer {F} `{Libseccomp F} `{Target} set log b :
  build set log = Ok b ->
  exists f0 f1 first later conditional,
    filter_new Allow = Ok f0 /\ set_act_badarch KillProcess f0 = Ok f1 /\
    applied (first ++ map CArch EXTRA_ARCHES ++ later ++ conditional) f1 = Ok (b_filter b) /\
    (forall act nr, CRule act nr ∈ first ++ later <->
       exists e, first_for nr (numbered set ++ named set) = Some e /\ act = action log e) /\
    NoDup (concat (map rule_nr (first ++ later))) /\
    (conditional = [] \/ exists ioctl, from_name RuleSet.IOCTL = Some ioctl /\ (forall act, CRule act ioctl ∉ first ++ later) /\
       conditional = map (fun r => CCond (action log Eperm) ioctl (mkCompare 1 REQUEST_MASK r)) (RuleSet.ioctl_eperm set)) /\
    b_rules b = len (first ++ later ++ conditional) /\
    b_skipped b = filter (fun n => from_name n = None) (RuleSet.eperm set ++ RuleSet.enosys set).
Proof.
  rewrite build_plan. unfold unconditional. intros (f0 & Hnew & (f1 & Hbad & (f & Ha & [= <-])%bind_ok)%bind_ok)%bind_ok.
  assert (fresh log (numbered set) ∅ ++ fresh log (named set) (numbers (numbered set)) = fresh log (numbered set ++ named set) ∅) as E.
  { rewrite fresh_app. by rewrite (left_id_L ∅ (∪)). }
  exists f0, f1, (fresh log (numbered set) ∅), (fresh log (named set) (numbers (numbered set))), (ioctl_calls set log).
  rewrite E. split_and!; try done.
  - intros act nr. rewrite fresh_spec. split; [by intros [_ ?]|]. intros ?. split; [apply not_elem_of_empty|done].
  - apply fresh_nodup.
  - unfold ioctl_calls. destruct (from_name RuleSet.IOCTL) as [i|]; [|by left]. case_bool_decide as Hi; [by left|]. right.
    exists i. split_and!; [done| |done]. intros act Hin%fresh_spec. destruct Hin as (_ & e & He & _). apply Hi.
    unfold first_for in He. destruct (filter _ _) as [|[e' n] l] eqn:Ef; [done|].
    assert ((e', n) ∈ filter (fun x : Errno * Z => x.2 = i) (numbered set ++ named set)) as Hm by (rewrite Ef; by left).
    apply list_elem_of_filter in Hm as [Hn Hm]. cbn in Hn. subst n. unfold numbers. apply elem_of_list_to_set.
    apply list_elem_of_fmap. by exists (e', i).
Qed.

(** C17. What the program [compile] hands to bwrap does, run as classic BPF: a call of
    [personality] on either ABI with an argument off the list is answered at once
    with [EPERM], or logged; everything else, and everything when the profile
    allows [personality], runs libseccomp's own program from its first instruction.
    The prefix is whole instructions. *)
Theorem compiled_program_runs {F} `{Libseccomp F} `{Target} native set log noted prog noted' lines :
  compile native set log noted = (Ok (Some prog), noted', lines) ->
  exists built b, build set log = Ok built /\ b_rules built <> 0 /\ export_bpf (b_filter built) = Ok b /\
  (len (p_bytes prog) - len b) mod 8 = 0 /\
  forall other d, Bpf.args d <> [] ->
    Bpf.run other (p_bytes prog) d 0 =
    if RuleSet.personality set && denied_persona d then Some (personality_deny log)
    else Bpf.run other b d (if RuleSet.personality set then prefix_acc d else 0).
Proof.
  unfold compile. destruct (build set log) as [built|]; [|done]. destruct (take_note _ _) as [tell n'].
  destruct (Z.eqb_spec (b_rules built) 0) as [|Hr]; [done|]. destruct (export_bpf (b_filter built)) as [b|] eqn:Eb; [|done].
  intros [= <- <- <-]. exists built, b. split_and!; try done; cbn [p_bytes].
  - rewrite len_app. replace (_ + len b - len b) with (len (if RuleSet.personality set then personality_prefix log else [])) by lia.
    destruct (RuleSet.personality set); [|done]. destruct log; reflexivity.
  - intros other d Hd. destruct (RuleSet.personality set); [|done]. cbn [andb]. by apply prefix_runs.
Qed.

(** A libseccomp that records what it is asked, knows two names and exports nothing. *)
#[local] Instance demo_seccomp : Libseccomp (list call) := {|
  filter_new _ := Ok []; set_act_badarch _ f := Ok f; add_arch a f := Ok (f ++ [CArch a]);
  add_rule act nr f := Ok (f ++ [CRule act nr]); add_rule_conditional act nr cmp f := Ok (f ++ [CCond act nr cmp]);
  export_bpf _ := Ok (insn BPF_RET_K 0 0 0);
  from_name n := if bool_decide (n = B "ioctl") then Some 16 else if bool_decide (n = B "bpf") then Some 321 else None |}.
#[local] Instance demo_target : Target := true.

Lemma filter_one_answer_witness : exists b, build RuleSet.default_set false = Ok b /\ b_rules b = 6 /\
  exists f0 f1 first later conditional, filter_new Allow = Ok f0 /\ set_act_badarch KillProcess f0 = Ok f1 /\
    applied (first ++ map CArch EXTRA_ARCHES ++ later ++ conditional) f1 = Ok (b_filter b).
Proof.
  assert (exists b, build RuleSet.default_set false = Ok b /\ b_rules b = 6) as (b & E & Hr)
    by (eexists; split; [vm_compute; reflexivity|reflexivity]).
  exists b. split; [exact E|]. split; [exact Hr|].
  destruct (filter_one_answer RuleSet.default_set false b E) as (f0 & f1 & first & later & conditional & Hnew & Hbad & Ha & _).
  exists f0, f1, first, later, conditional. split; [exact Hnew|split; [exact Hbad|exact Ha]].
Defined.

(** [personality(ADDR_NO_RANDOMIZE)] on x86_64. *)
Definition demo_data : Bpf.Data := Bpf.mkData 135 AUDIT_ARCH_X86_64 [0x40000].

Lemma compiled_program_runs_witness : exists prog noted lines,
  compile (B "x86_64") RuleSet.default_set false true = (Ok (Some prog), noted, lines) /\
  Bpf.run (fun _ _ _ => None) (p_bytes prog) demo_data 0 = Some (personality_deny false).
Proof.
  assert (exists prog noted lines, compile (B "x86_64") RuleSet.default_set false true = (Ok (Some prog), noted, lines))
    as (prog & noted & lines & E) by (do 3 eexists; vm_compute; reflexivity).
  exists prog, noted, lines. split; [exact E|].
  destruct (compiled_program_runs _ _ _ _ _ _ _ E) as (built & b & _ & _ & _ & _ & Hrun).
  rewrite (Hrun (fun _ _ _ => None) demo_data) by (vm_compute; congruence). vm_compute. reflexivity.
Defined.
