(* ===== verification/InitExec.v ===== *)
(** The exec channel of [bubbler-init]: [crates/bubbler-init/src/proto.rs] and
    [wire.rs], and the [flatpak-spawn] command line of [spawn.rs].

    A request is length-prefixed raw bytes with three descriptors on the prefix.
    [Stream] is the connection: [recvmsg] for the prefix, [read] for the payload,
    each of at most so many bytes.  [Incoming.read_step] loops until the connection
    has no more to give; its fuel is the bytes it can still want, and
    [read_step_returns] shows that to be enough. *)
From S2P Require Export Io.

Module Proto.
Definition MAX_REQUEST : Z := Z.shiftl 1 20.
Definition FLAG_CTTY : Z := 1.
Definition KNOWN_FLAGS : Z := FLAG_CTTY.

Inductive ProtoError := Truncated | BadCount | TooLarge | BadFlags.

Record Request := mkRequest { flags : Z; argv : list bytes }.

Definition ctty (r : Request) : bool := negb (Z.land (flags r) FLAG_CTTY =? 0).

(** [!KNOWN_FLAGS] of a [u32]. *)
Definition not_u32 (n : Z) : Z := 2 ^ 32 - 1 - n.

Definition encode_arg (a : bytes) : bytes := le_bytes 4 (len a) ++ a.

Definition encode_request (argv : list bytes) (flags : Z) : bytes :=
  le_bytes 4 flags ++ le_bytes 4 (len argv) ++ concat (map encode_arg argv).

Definition take4 (buf : bytes) (pos : Z) : result ProtoError (Z * Z) :=
  end_ ← ok_or (checked_add pos 4) Truncated;
  b ← ok_or (slice buf pos end_) Truncated;
  Ok (le_val b, end_).

Fixpoint take_args (buf : bytes) (argc : nat) (pos : Z) : result ProtoError (list bytes * Z) :=
  match argc with
  | O => Ok ([], pos)
  | S argc =>
    '(len_, pos) ← take4 buf pos;
    end_ ← ok_or (checked_add pos len_) Truncated;
    b ← ok_or (slice buf pos end_) Truncated;
    '(args, pos) ← take_args buf argc end_;
    Ok (b :: args, pos)
  end.

Definition decode_request (buf : bytes) : result ProtoError Request :=
  if len buf >? MAX_REQUEST then Err TooLarge
  else
    '(flags, pos) ← take4 buf 0;
    if negb (Z.land flags (not_u32 KNOWN_FLAGS) =? 0) then Err BadFlags
    else
      '(argc, pos) ← take4 buf pos;
      if (argc =? 0) || (argc >? MAX_REQUEST / 4) then Err BadCount
      else
        '(argv, pos) ← take_args buf (Z.to_nat argc) pos;
        if negb (pos =? len buf) then Err Truncated else Ok (mkRequest flags argv).

Definition encode_status (status : Z) : bytes := le_bytes 4 (u32_of_i32 status).
Definition decode_status (b : bytes) : Z := i32_of_u32 (le_val b).
End Proto.

(** ** The wire *)

Definition REQUEST_FDS : Z := 3.

Definition invalid (msg : bytes) : io_error := mkError KindOther msg.

Class Stream (W : Type) := {
  (** [recvmsg] into a buffer of so many bytes, with room for the descriptors. *)
  recv : Z -> io W (bytes * list Z);
  sread : Z -> io W bytes;
}.

Class StreamLaws (W : Type) `{Stream W} := {
  recv_room n w b f w' : 0 <= n -> recv n w = (Ok (b, f), w') -> len b <= n;
  sread_room n w b w' : 0 <= n -> sread n w = (Ok b, w') -> len b <= n;
}.

Definition would_block (e : io_error) : bool :=
  match Io.kind e with WouldBlock | Interrupted => true | _ => false end.

(** [{e:?}] of a protocol error. *)
Definition proto_text (e : Proto.ProtoError) : bytes :=
  match e with
  | Proto.Truncated => B "Truncated" | Proto.BadCount => B "BadCount"
  | Proto.TooLarge => B "TooLarge" | Proto.BadFlags => B "BadFlags"
  end.

Module Incoming.
(** [prefix] holds the [have] bytes of it that were read. *)
Record t := mk { prefix : bytes; want : option Z; payload : bytes; fds : list Z }.

Definition new : t := mk [] None [] [].

Section Step.
Context {W : Type} `{Stream W}.

(** [Ok(true)] once the prefix is whole, with what is then known. *)
Definition read_prefix (s : t) (w : W) : result io_error bool * t * W :=
  match recv (4 - len (prefix s)) w with
  | (Err e, w) => ((if would_block e then Ok false else Err e), s, w)
  | (Ok (b, f), w) =>
    let s := mk (prefix s) (want s) (payload s) (fds s ++ f) in
    if len b =? 0 then (Err (mkError UnexpectedEof []), s, w)
    else
      let s := mk (prefix s ++ b) (want s) (payload s) (fds s) in
      if len (prefix s) <? 4 then (Ok false, s, w)
      else if negb (len (fds s) =? REQUEST_FDS) then (Err (invalid (B "expected exactly three fds")), s, w)
      else
        let n := le_val (prefix s) in
        if n >? Proto.MAX_REQUEST then (Err (invalid (B "request too large")), s, w)
        else (Ok true, mk (prefix s) (Some n) (payload s) (fds s), w)
  end.

Fixpoint read_loop (fuel : nat) (s : t) (w : W) : option (result io_error (option (Proto.Request * list Z)) * t * W) :=
  match fuel with
  | O => None
  | S fuel =>
    match want s with
    | None =>
      match read_prefix s w with
      | (Err e, s, w) => Some (Err e, s, w)
      | (Ok false, s, w) => Some (Ok None, s, w)
      | (Ok true, s, w) => read_loop fuel s w
      end
    | Some want_ =>
      if len (payload s) <? want_ then
        match sread (Z.min (want_ - len (payload s)) 4096) w with
        | (Ok b, w) =>
          if len b =? 0 then Some (Err (mkError UnexpectedEof []), s, w)
          else read_loop fuel (mk (prefix s) (want s) (payload s ++ b) (fds s)) w
        | (Err e, w) => Some ((if would_block e then Ok None else Err e), s, w)
        end
      else
        match Proto.decode_request (payload s) with
        | Err e => Some (Err (invalid (proto_text e)), s, w)
        | Ok request => Some (Ok (Some (request, fds s)), mk (prefix s) (want s) (payload s) [], w)
        end
    end
  end.

(** What is still to read: at least a byte a turn. *)
Definition fuel (s : t) : nat :=
  match want s with
  | None => Z.to_nat Proto.MAX_REQUEST + 3
  | Some want_ => Z.to_nat (want_ - len (payload s)) + 1
  end.

Definition read_step (s : t) (w : W) : option (result io_error (option (Proto.Request * list Z)) * t * W) :=
  read_loop (fuel s) s w.
End Step.
End Incoming.

(** ** The codec *)

Module ProtoFacts.
Import Proto.

Lemma take4_spec buf pos n e : 0 <= pos -> len buf <= MAX_REQUEST ->
  take4 buf pos = Ok (n, e) <-> exists p q, buf = p ++ le_bytes 4 n ++ q /\ len p = pos /\ e = pos + 4 /\ 0 <= n < 2 ^ 32.
Proof.
  intros Hp Hl. unfold take4, checked_add. change MAX_REQUEST with 1048576 in Hl. destruct (Z.leb_spec (pos + 4) USIZE_MAX) as [Hle|Hle]; cbn [ok_or mbind result_bind]; last first.
  { split; [done|]. intros (p & q & -> & <- & _ & _). change USIZE_MAX with (2 ^ 64 - 1) in Hle.
    rewrite !len_app, len_le_bytes in Hl. pose proof (len_nonneg q). lia. }
  split.
  - intros (b & Hs%ok_or_ok & [= <- <-])%bind_ok. apply slice_some in Hs as (p & q & -> & <- & Hb).
    exists p, q. assert (length b = 4%nat) as Hb4 by (unfold len in Hb; lia).
    split_and!; [|done|done|apply le_val_range|]. { rewrite <-Hb4. by rewrite le_bytes_val. }
    pose proof (le_val_range b) as Hr. replace (len b) with 4 in Hr by lia. lia.
  - intros (p & q & -> & <- & -> & Hn). pose proof (slice_app p (le_bytes 4 n) q) as Hs. rewrite len_le_bytes in Hs.
    change (Z.of_nat 4) with 4 in Hs. rewrite Hs. cbn [ok_or mbind result_bind]. by rewrite le_val_bytes.
Qed.

Lemma take_args_spec buf argc pos args e : 0 <= pos <= len buf -> len buf <= MAX_REQUEST ->
  take_args buf argc pos = Ok (args, e) <->
  length args = argc /\ exists p q, buf = p ++ concat (map encode_arg args) ++ q /\ len p = pos /\
    e = pos + len (concat (map encode_arg args)).
Proof.
  intros Hp Hl. revert pos args e Hp. induction argc as [|argc IH]; intros pos args e Hp; cbn [take_args].
  - split.
    + intros [= <- <-]. split; [done|]. destruct (cut_at buf pos Hp) as (p & q & -> & Hpos).
      exists p, q. split_and!; [done|done|]. change (len (concat (map encode_arg []))) with 0. lia.
    + intros (Ha & p & q & _ & <- & ->). destruct args; [|done]. cbn. by rewrite Z.add_0_r.
  - split.
    + intros ([n p1] & H1 & H2)%bind_ok. apply take4_spec in H1 as (p & q & -> & <- & -> & Hn); [|lia|done].
      apply bind_ok in H2 as (end_ & Hc%ok_or_ok%checked_add_some & (b & Hs%ok_or_ok & ([args' e'] & Ht & [= <- <-])%bind_ok)%bind_ok).
      subst end_. rewrite app_assoc in Hs. apply slice_some in Hs as (p' & q' & E & Hp' & Hb).
      apply app_len_inj in E as [<- ->]; [|rewrite len_app, len_le_bytes; lia].
      assert (len b = n) as <- by lia.
      apply IH in Ht as (Hlen & p2 & q2 & E & Hp2 & ->); [|rewrite !len_app, len_le_bytes in *; pose proof (len_nonneg q'); pose proof (len_nonneg p); lia].
      assert (p2 = (p ++ le_bytes 4 (len b)) ++ b /\ concat (map encode_arg args') ++ q2 = q') as [-> <-].
      { apply app_len_inj; [rewrite Hp2, !len_app, len_le_bytes; lia|by rewrite <-E, <-!app_assoc]. }
      split; [cbn; lia|]. exists p, q2. cbn [map concat]. change (encode_arg b) with (le_bytes 4 (len b) ++ b). rewrite !len_app, len_le_bytes, <-!app_assoc.
      split_and!; [done|done|lia].
    + intros (Ha & p & q & E & <- & ->). destruct args as [|a args]; [done|]. injection Ha as Ha.
      cbn [map concat] in *. change (encode_arg a) with (le_bytes 4 (len a) ++ a) in *. rewrite <-!app_assoc in E.
      assert (take4 buf (len p) = Ok (len a, len p + 4)) as ->.
      { apply take4_spec; [lia|done|]. exists p, (a ++ concat (map encode_arg args) ++ q). split_and!; [done|done|done|len_lia|].
        apply (f_equal len) in E. rewrite !len_app, len_le_bytes in E. change MAX_REQUEST with 1048576 in Hl.
        pose proof (len_nonneg p). pose proof (len_nonneg q). pose proof (len_nonneg (concat (map encode_arg args))). lia. }
      cbn [mbind result_bind]. assert (len p + 4 + len a + len (concat (map encode_arg args)) + len q = len buf) as Hsum.
      { rewrite E, !len_app, len_le_bytes. lia. }
      pose proof (len_nonneg (concat (map encode_arg args))). pose proof (len_nonneg q).
      unfold checked_add. rewrite (proj2 (Z.leb_le _ _)) by (change MAX_REQUEST with 1048576 in Hl; change USIZE_MAX with (2 ^ 64 - 1); lia).
      cbn [ok_or mbind result_bind].
      assert (slice buf (len p + 4) (len p + 4 + len a) = Some a) as ->.
      { apply slice_some. exists (p ++ le_bytes 4 (len a)), (concat (map encode_arg args) ++ q). split_and!; [by rewrite <-app_assoc|len_lia|lia]. }
      cbn [ok_or mbind result_bind]. assert (take_args buf argc (len p + 4 + len a) = Ok (args, len p + 4 + len a + len (concat (map encode_arg args)))) as ->.
      { apply IH; [pose proof (len_nonneg a); lia|]. split; [done|]. exists (p ++ le_bytes 4 (len a) ++ a), q.
        split_and!; [by rewrite <-!app_assoc|len_lia|done]. }
      cbn [mbind result_bind]. do 2 f_equal. rewrite !len_app, len_le_bytes. lia.
Qed.

Lemma unknown_flags n : 0 <= n < 2 ^ 32 -> Z.land n (not_u32 KNOWN_FLAGS) = 0 <-> n = 0 \/ n = 1.
Proof.
  intros Hn. assert (n = 0 \/ n = 1 \/ exists i, 1 <= i < 32 /\ Z.testbit n i = true) as [->|[->|(i & Hi & Hb)]].
  { destruct (Z.le_gt_cases n 1) as [|Hg]; [lia|]. right. right. exists (Z.log2 n).
    split; [|apply Z.bit_log2; lia]. split; [change 1 with (Z.log2 2); apply Z.log2_le_mono; lia|]. apply Z.log2_lt_pow2; lia. }
  - cbn. tauto.
  - cbn. tauto.
  - split.
    + intros E. apply (f_equal (fun z => Z.testbit z i)) in E. rewrite Z.land_spec, Hb, Z.bits_0 in E.
      assert (Z.testbit (not_u32 KNOWN_FLAGS) i = true) as Ht.
      { unfold not_u32, KNOWN_FLAGS, FLAG_CTTY. change (2 ^ 32 - 1 - 1) with (Z.shiftl (Z.ones 31) 1).
        rewrite Z.shiftl_spec, Z.ones_spec_low by lia. done. }
      by rewrite Ht in E.
    + intros [-> | ->]; [by rewrite Z.bits_0 in Hb|]. 
      exfalso. revert Hb. change 1 with (2 ^ 0). rewrite Z.pow2_bits_eqb by lia. intros ?%Z.eqb_eq. lia.
Qed.

Lemma decode_iff buf r :
  decode_request buf = Ok r <->
  buf = encode_request (argv r) (flags r) /\ len buf <= MAX_REQUEST /\ argv r <> [] /\ (flags r = 0 \/ flags r = 1).
Proof.
  unfold decode_request. rewrite Z.gtb_ltb. destruct (Z.ltb_spec MAX_REQUEST (len buf)) as [|Hl]; [split; [done|lia]|].
  split.
  - intros ([fl p1] & H1 & H2)%bind_ok. apply take4_spec in H1 as (p & q & E & Hp & -> & Hf); [|lia|done].
    apply len_0 in Hp as ->. cbn [app] in E. destruct (Z.eqb_spec (Z.land fl (not_u32 KNOWN_FLAGS)) 0) as [Hfl|]; [|done]. cbn [negb] in H2.
    apply unknown_flags in Hfl; [|done].
    apply bind_ok in H2 as ([argc p2] & H2 & H3). apply take4_spec in H2 as (p & q2 & E2 & Hp & -> & Ha); [|lia|done].
    subst buf. apply app_len_inj in E2 as [<- ->]; [|by rewrite Hp, len_le_bytes].
    destruct (_ || _) eqn:Ec in H3; [done|]. bool_to_prop.
    apply bind_ok in H3 as ([args e] & H3 & H4). apply take_args_spec in H3 as (Hlen & p' & q' & E & Hp' & ->); [|rewrite !len_app, !len_le_bytes; pose proof (len_nonneg q2); lia|done].
    rewrite app_assoc in E. apply app_len_inj in E as [<- ->]; [|by rewrite len_app, !len_le_bytes].
    destruct (Z.eqb_spec (0 + 4 + 4 + len (concat (map encode_arg args))) (len (le_bytes 4 fl ++ le_bytes 4 argc ++ concat (map encode_arg args) ++ q'))) as [El|]; [|done].
    injection H4 as <-. cbn [argv flags]. rewrite !len_app, !len_le_bytes in El. assert (q' = []) as -> by (apply len_0; lia).
    assert (len args = argc) as <- by (unfold len; rewrite Hlen; lia).
    split_and!; [by rewrite app_nil_r|done| |done]. intros ->. by apply H.
  - intros (E & _ & Hne & Hf). unfold encode_request in E. set (rest := concat (map encode_arg (argv r))) in *.
    assert (4 * len (argv r) <= len rest) as Hr.
    { unfold rest. clear. induction (argv r) as [|a l IH]; [done|]. cbn [map concat]. change (encode_arg a) with (le_bytes 4 (len a) ++ a).
      rewrite !len_app, len_le_bytes, len_cons. pose proof (len_nonneg a). lia. }
    assert (8 + len rest = len buf) as Hsum by (rewrite E, !len_app, !len_le_bytes; lia).
    assert (1 <= len (argv r)) as Hpos by (clear -Hne; destruct (argv r) as [|x l]; [done|]; rewrite len_cons; pose proof (len_nonneg l); lia).
    change MAX_REQUEST with 1048576 in *.
    assert (take4 buf 0 = Ok (flags r, 4)) as -> by (apply take4_spec; [lia|done|]; exists [], (le_bytes 4 (len (argv r)) ++ rest); repeat split; [done|lia|lia]).
    cbn [mbind result_bind]. rewrite (proj2 (unknown_flags (flags r) ltac:(lia)) Hf). cbn [Z.eqb negb].
    assert (take4 buf 4 = Ok (len (argv r), 8)) as ->.
    { apply take4_spec; [lia|done|]. exists (le_bytes 4 (flags r)), rest. split_and!; [done|by rewrite len_le_bytes|done|lia|lia]. }
    cbn [mbind result_bind]. rewrite (proj2 (Z.eqb_neq _ _)), Z.gtb_ltb, (proj2 (Z.ltb_ge _ _)) by (change (1048576 / 4) with 262144; lia). cbn [orb].
    assert (take_args buf (Z.to_nat (len (argv r))) 8 = Ok (argv r, 8 + len rest)) as ->.
    { apply take_args_spec; [lia|done|]. split; [unfold len; lia|]. exists (le_bytes 4 (flags r) ++ le_bytes 4 (len (argv r))), [].
      split_and!; [by rewrite app_nil_r, <-app_assoc|by rewrite len_app, !len_le_bytes|done]. }
    cbn [mbind result_bind]. rewrite Hsum, Z.eqb_refl. cbn [negb]. by destruct r.
Qed.
End ProtoFacts.

(** ** The whole stream of one connection *)

Section Logged.
Context {W : Type} `{Stream W}.

(** [logged] also keeps every piece that arrived, with its descriptors. *)
Definition logged : Stream (W * list (bytes * list Z)) := {|
  recv n := fun '(w, log) => match recv n w with
    | (Ok (b, f), w) => (Ok (b, f), (w, log ++ [(b, f)]))
    | (Err e, w) => (Err e, (w, log))
    end;
  sread n := fun '(w, log) => match sread n w with
    | (Ok b, w) => (Ok b, (w, log ++ [(b, [])]))
    | (Err e, w) => (Err e, (w, log))
    end |}.
End Logged.

Definition arrived (log : list (bytes * list Z)) : bytes := concat (map fst log).
Definition arrived_fds (log : list (bytes * list Z)) : list Z := concat (map snd log).

Lemma arrived_snoc log b f : arrived (log ++ [(b, f)]) = arrived log ++ b.
Proof. unfold arrived. rewrite map_app, concat_app. cbn. by rewrite app_nil_r. Qed.
Lemma arrived_fds_snoc log b f : arrived_fds (log ++ [(b, f)]) = arrived_fds log ++ f.
Proof. unfold arrived_fds. rewrite map_app, concat_app. cbn. by rewrite app_nil_r. Qed.

Section Whole.
Context {W : Type} `{Stream W} `{!StreamLaws W}.
#[local] Existing Instance logged | 0.
Notation log := (list (bytes * list Z)).

(** A connection between two steps: what arrived is the prefix and the payload so
    far, with the descriptors. *)
Definition incoming (s : Incoming.t) (l : log) : Prop :=
  arrived l = Incoming.prefix s ++ Incoming.payload s /\ Incoming.fds s = arrived_fds l /\
  match Incoming.want s with
  | None => len (Incoming.prefix s) < 4 /\ Incoming.payload s = []
  | Some n => len (Incoming.prefix s) = 4 /\ n = le_val (Incoming.prefix s) /\ n <= Proto.MAX_REQUEST /\
      len (Incoming.fds s) = REQUEST_FDS /\ len (Incoming.payload s) <= n
  end.

Lemma incoming_new : incoming Incoming.new [].
Proof. split_and!; [done|done|]. cbn. split; [|done]. change (@len byte []) with 0. lia. Qed.

(** The request that arrived, and nothing besides. *)
Definition whole_request (l : log) (req : Proto.Request) (f : list Z) : Prop :=
  exists p, arrived l = le_bytes 4 (len p) ++ p /\ Proto.decode_request p = Ok req /\ len p <= Proto.MAX_REQUEST /\
    f = arrived_fds l /\ len f = REQUEST_FDS.

Lemma prefix_spec s (w : W) (l : log) r s' w' l' : incoming s l -> Incoming.want s = None ->
  Incoming.read_prefix s (w, l) = (r, s', (w', l')) ->
  match r with Ok true => incoming s' l' /\ is_Some (Incoming.want s') | Ok false => incoming s' l' | Err _ => True end.
Proof.
  intros (Ha & Hf & Hw) Hn. rewrite Hn in Hw. destruct Hw as [Hp Hpl]. unfold Incoming.read_prefix. cbn.
  destruct (recv (4 - len (Incoming.prefix s)) w) as [[[b f]|e] w1] eqn:E; last first.
  { destruct (would_block e); intros [= <- <- <- <-]; [|done]. unfold incoming. by rewrite Hn. }
  apply recv_room in E; [|lia]. destruct (Z.eqb_spec (len b) 0); [by intros [= <- <- <- <-]|]. rewrite Hpl, app_nil_r in Ha.
  destruct (Z.ltb_spec (len (Incoming.prefix s ++ b)) 4).
  { intros [= <- <- <- <-]. unfold incoming. cbn. rewrite Hn, arrived_snoc, arrived_fds_snoc, Ha, Hf, Hpl, app_nil_r. done. }
  destruct (Z.eqb_spec (len (Incoming.fds s ++ f)) REQUEST_FDS); [|by intros [= <- <- <- <-]]. cbn [negb].
  rewrite Z.gtb_ltb. destruct (Z.ltb_spec Proto.MAX_REQUEST (le_val (Incoming.prefix s ++ b))); [by intros [= <- <- <- <-]|].
  intros [= <- <- <- <-]. unfold incoming. cbn. rewrite arrived_snoc, arrived_fds_snoc, Ha, Hf, Hpl, app_nil_r.
  split; [|by eexists]. split_and!; try done; [rewrite len_app in *; lia|by rewrite <-Hf|].
  apply le_val_range.
Qed.

Lemma loop_spec fuel s (w : W) (l : log) r s' w' l' : incoming s l ->
  Incoming.read_loop fuel s (w, l) = Some (r, s', (w', l')) ->
  match r with
  | Ok None => incoming s' l'
  | Ok (Some (req, f)) => whole_request l' req f
  | Err _ => True
  end.
Proof.
  revert s w l. induction fuel as [|fuel IH]; intros s w l Hi; cbn [Incoming.read_loop]; [done|].
  destruct (Incoming.want s) as [n|] eqn:En.
  - destruct Hi as (Ha & Hf & Hw). rewrite En in Hw. destruct Hw as (Hp & Hnv & Hmax & Hfds & Hpl).
    destruct (Z.ltb_spec (len (Incoming.payload s)) n) as [Hlt|Hge].
    + unfold sread at 1. cbn [logged]. destruct (sread _ w) as [[b|e] w1] eqn:E; last first.
      { destruct (would_block e); intros [= <- <- <- <-]; [|done]. unfold incoming. by rewrite En. }
      apply sread_room in E; [|lia]. destruct (len b =? 0); [by intros [= <- <- <- <-]|]. apply IH.
      unfold incoming. cbn. rewrite arrived_snoc, arrived_fds_snoc, Ha, Hf, app_nil_r, <-app_assoc.
      split_and!; try done; [by rewrite <-Hf|]. rewrite len_app. lia.
    + destruct (Proto.decode_request (Incoming.payload s)) as [req|] eqn:Ed; [|by intros [= <- <- <- <-]].
      intros [= <- <- <- <-]. assert (len (Incoming.payload s) = n) as El by lia. exists (Incoming.payload s).
      rewrite El, Hnv. assert (length (Incoming.prefix s) = 4%nat) as H4 by (unfold len in Hp; lia).
      rewrite <-H4 at 1. rewrite le_bytes_val. split_and!; try done. by rewrite <-Hnv.
  - destruct (Incoming.read_prefix s (w, l)) as [[r1 s1] [w1 l1]] eqn:E.
    pose proof (prefix_spec _ _ _ _ _ _ _ Hi En E) as Hs. destruct r1 as [[|]|e].
    + destruct Hs as [Hs _]. by apply IH.
    + by intros [= <- <- <- <-].
    + by intros [= <- <- <- <-].
Qed.

(** The supervisor polls and reads again while the request is incomplete. *)
Fixpoint read_steps (n : nat) (s : Incoming.t) (w : W * log) : option (result io_error (option (Proto.Request * list Z)) * Incoming.t * (W * log)) :=
  match Incoming.read_step s w, n with
  | Some (Ok None, s, w), S n => read_steps n s w
  | r, _ => r
  end.

Lemma steps_spec n s (w : W) (l : log) req f s' w' l' : incoming s l ->
  read_steps n s (w, l) = Some (Ok (Some (req, f)), s', (w', l')) -> whole_request l' req f.
Proof.
  revert s w l. induction n as [|n IH]; intros s w l Hi; cbn [read_steps]; unfold Incoming.read_step;
    destruct (Incoming.read_loop _ s (w, l)) as [[[[[[? ?]|]|] s1] [w1 l1]]|] eqn:E; try done;
    apply loop_spec in E; try done; try (by intros [= <- <- <- <- <-]). by apply IH.
Qed.

Lemma loop_total fuel s (w : W) :
  match Incoming.want s with None => len (Incoming.payload s) = 0 /\ (Z.to_nat Proto.MAX_REQUEST + 3 <= fuel)%nat | Some n => (Z.to_nat (n - len (Incoming.payload s)) < fuel)%nat end ->
  is_Some (Incoming.read_loop fuel s w).
Proof.
  revert s w. assert (forall fuel s w n, Incoming.want s = Some n -> (Z.to_nat (n - len (Incoming.payload s)) < fuel)%nat -> is_Some (Incoming.read_loop (W := W) fuel s w)) as Hsome.
  { clear. induction fuel as [|fuel IH]; intros s w n En Hf; [lia|]. cbn [Incoming.read_loop]. rewrite En.
    destruct (Z.ltb_spec (len (Incoming.payload s)) n).
    - destruct (sread _ w) as [[b|e] w1]; [|by eexists]. destruct (Z.eqb_spec (len b) 0); [by eexists|].
      apply (IH _ _ n); [done|]. cbn. rewrite len_app. pose proof (len_nonneg b). lia.
    - destruct (Proto.decode_request _); by eexists. }
  destruct fuel as [|fuel]; intros s w; cbn [Incoming.read_loop]; destruct (Incoming.want s) as [n|] eqn:En.
  - lia.
  - lia.
  - intros Hf. destruct (Hsome (S fuel) s w n En Hf) as [x Hx]. cbn [Incoming.read_loop] in Hx. rewrite En in Hx. by exists x.
  - intros [Hp Hf]. destruct (Incoming.read_prefix s w) as [[[[|]|e] s1] w1] eqn:E; [|by eexists|by eexists].
    revert E. unfold Incoming.read_prefix. destruct (recv _ w) as [[[b f]|e] w2]; [|by destruct (would_block e)].
    destruct (_ =? 0); [done|]. destruct (_ <? 4); [done|]. destruct (negb _); [done|]. rewrite Z.gtb_ltb. destruct (Z.ltb_spec Proto.MAX_REQUEST (le_val (Incoming.prefix s ++ b))) as [|Hle]; cbn in *.
    { by rewrite (proj2 (Z.ltb_lt _ _)) by done. }
    rewrite (proj2 (Z.ltb_ge _ _)) by done. intros [= <- <-]. eapply Hsome; [done|]. cbn. lia.
Qed.
End Whole.

(** ** The client's side, and reading a request whole *)

(** [time_left] is [deadline.saturating_duration_since(Instant::now())]. *)
Class Conn (W : Type) := {
  conn_stream :: Stream W;
  send_with_fds : bytes -> list Z -> io W Z;
  send_all : bytes -> io W unit;
  time_left : W -> Z * W;
  set_timeout : Z -> io W unit;
}.

Section Conn.
Context {W : Type} `{Conn W}.

(** [read_exact] of the standard library on the connection. *)
Context (read_exact : Z -> io W bytes).

Definition arm : io W unit := fun w =>
  let '(left_, w) := time_left w in
  if left_ =? 0 then (Err (mkError TimedOut (B "request timed out")), w) else set_timeout left_ w.

(** [None] is out of fuel. *)
Fixpoint read_exact_by (fuel : nat) (buf : bytes) (n : Z) (w : W) : option (result io_error bytes * W) :=
  if n <=? len buf then Some (Ok buf, w)
  else match fuel with
  | O => None
  | S fuel =>
    match arm w with
    | (Err e, w) => Some (Err e, w)
    | (Ok _, w) =>
      match sread (n - len buf) w with
      | (Ok b, w) => if len b =? 0 then Some (Err (mkError UnexpectedEof []), w) else read_exact_by fuel (buf ++ b) n w
      | (Err e, w) => if bool_decide (Io.kind e = Interrupted) then read_exact_by fuel buf n w else Some (Err e, w)
      end
    end
  end.

Definition send_request (argv : list bytes) (flags : Z) (fds : list Z) : io W unit :=
  let payload := Proto.encode_request argv flags in
  if len payload >? Proto.MAX_REQUEST then lift (Err (invalid (B "request too large")))
  else
    let len_ := le_bytes 4 (len payload) in
    n ← send_with_fds len_ fds;
    if negb (n =? len len_) then lift (Err (invalid (B "short length prefix"))) else send_all payload.

Definition recv_request (fuel : nat) (w : W) : option (result io_error (Proto.Request * list Z) * W) :=
  match arm w with
  | (Err e, w) => Some (Err e, w)
  | (Ok _, w) =>
    match recv 4 w with
    | (Err e, w) => Some (Err e, w)
    | (Ok (b, fds), w) =>
      if negb (len b =? 4) then Some (Err (invalid (B "short length prefix")), w)
      else if negb (len fds =? REQUEST_FDS) then Some (Err (invalid (B "expected exactly three fds")), w)
      else
        let len_ := le_val b in
        if len_ >? Proto.MAX_REQUEST then Some (Err (invalid (B "request too large")), w)
        else match read_exact_by fuel [] len_ w with
        | None => None
        | Some (Err e, w) => Some (Err e, w)
        | Some (Ok buf, w) =>
          match Proto.decode_request buf with
          | Err e => Some (Err (invalid (proto_text e)), w)
          | Ok request => Some (Ok (request, fds), w)
          end
        end
    end
  end.

Definition send_status (status : Z) : io W unit := send_all (Proto.encode_status status).
Definition recv_status : io W Z := b ← read_exact 4; mret (Proto.decode_status b).

End Conn.

(** ** [flatpak-spawn] *)

Module Spawn.
Record t := mk {
  directory : option bytes; env : list (bytes * bytes); clear_env : bool; forward : list Z; argv : list bytes }.

Definition default : t := mk None [] false [] [].

Definition IGNORED : list bytes := map B ["--sandbox"; "--watch-bus"; "--latest-version"; "--no-network"]%string.
Definition IGNORED_PREFIXES : list bytes := map B ["--sandbox-expose"; "--sandbox-flag"]%string.
Definition HOST_ONLY : list bytes := map B ["--host"; "--talk-name"; "--app-path"; "--usr-path"; "--expose-pids"]%string.

Definition EQUALS : byte := "="%byte.
Definition DASHES : bytes := B "--".

(** A word at its first [=]. *)
Definition split_equals (word : bytes) : bytes * option bytes :=
  match position (fun b => bool_decide (b = EQUALS)) word with
  | Some i => (upto word i, Some (from word (i + 1)))
  | None => (word, None)
  end.

Definition value_of (word : bytes) (value : option bytes) : result bytes bytes :=
  ok_or value (from_utf8_lossy word ++ B ": needs a =VALUE").

Definition set_argv (s : t) (a : list bytes) : t := mk (directory s) (env s) (clear_env s) (forward s) a.

(** One option. *)
Definition option_word (s : t) (word : bytes) : result bytes t :=
  let '(name, value) := split_equals word in
  if bool_decide (name ∈ HOST_ONLY) then Err (from_utf8_lossy name ++ B " is not available inside a bubbler sandbox")
  else if bool_decide (name ∈ IGNORED) || existsb (fun p => starts_with p name) IGNORED_PREFIXES then Ok s
  else if bool_decide (name = B "--directory") then
    v ← value_of word value; Ok (mk (Some v) (env s) (clear_env s) (forward s) (argv s))
  else if bool_decide (name = B "--clear-env") then Ok (mk (directory s) (env s) true (forward s) (argv s))
  else if bool_decide (name = B "--env") then
    pair ← value_of word value;
    match split_equals pair with
    | (k, Some v) => Ok (mk (directory s) (env s ++ [(k, v)]) (clear_env s) (forward s) (argv s))
    | _ => Err (from_utf8_lossy word ++ B ": not KEY=VALUE")
    end
  else if bool_decide (name = B "--forward-fd") then
    v ← value_of word value;
    match (if utf8_valid v then parse_i32 v else None) with
    | Some n =>
      if n >=? 0 then Ok (mk (directory s) (env s) (clear_env s) (forward s ++ [n]) (argv s))
      else Err (from_utf8_lossy word ++ B ": not a descriptor number")
    | None => Err (from_utf8_lossy word ++ B ": not a descriptor number")
    end
  else Err (B "unknown option " ++ from_utf8_lossy word).

Fixpoint words (it : list bytes) (s : t) : result bytes t :=
  match it with
  | [] => Ok s
  | word :: it =>
    if bool_decide (word = DASHES) then Ok (set_argv s (argv s ++ it))
    else if negb (starts_with DASHES word) then Ok (set_argv s ((argv s ++ [word]) ++ it))
    else s ← option_word s word; words it s
  end.

Definition parse (args : list bytes) : result bytes t :=
  s ← words args default;
  if bool_decide (argv s = []) then Err (B "no command to run") else Ok s.

(** ** What a command line asks for *)

(** An option that can be answered here, and what it changes. *)
Inductive Option := ODirectory (d : bytes) | OClear | OEnv (k v : bytes) | OForward (n : Z) | OIgnored (word : bytes).

Definition ignored (word : bytes) : bool :=
  let name := (split_equals word).1 in
  starts_with DASHES word && negb (bool_decide (word = DASHES)) && negb (bool_decide (name ∈ HOST_ONLY)) &&
  (bool_decide (name ∈ IGNORED) || existsb (fun p => starts_with p name) IGNORED_PREFIXES).

Definition option_ok (o : Option) : bool :=
  match o with
  | OEnv k _ => negb (bool_decide (EQUALS ∈ k))
  | OForward n => (0 <=? n) && (n <=? I32_MAX)
  | OIgnored word => ignored word
  | _ => true
  end.

Definition show (o : Option) : bytes :=
  match o with
  | ODirectory d => B "--directory=" ++ d
  | OClear => B "--clear-env"
  | OEnv k v => B "--env=" ++ k ++ [EQUALS] ++ v
  | OForward n => B "--forward-fd=" ++ decimal n
  | OIgnored word => word
  end.

Definition apply (s : t) (o : Option) : t :=
  match o with
  | ODirectory d => mk (Some d) (env s) (clear_env s) (forward s) (argv s)
  | OClear => mk (directory s) (env s) true (forward s) (argv s)
  | OEnv k v => mk (directory s) (env s ++ [(k, v)]) (clear_env s) (forward s) (argv s)
  | OForward n => mk (directory s) (env s) (clear_env s) (forward s ++ [n]) (argv s)
  | OIgnored _ => s
  end.
End Spawn.

Module SpawnFacts.
Import Spawn.

Lemma split_equals_app name v : EQUALS ∉ name -> split_equals (name ++ EQUALS :: v) = (name, Some v).
Proof.
  intros Hn. unfold split_equals.
  assert (position (fun b => bool_decide (b = EQUALS)) (name ++ EQUALS :: v) = Some (len name)) as ->.
  { apply position_some. exists name, EQUALS, v. split_and!; [done|done|by apply bool_decide_true|].
    apply Forall_forall. intros b Hb. apply bool_decide_false. by intros ->. }
  rewrite upto_app. replace (len name + 1) with (len (name ++ [EQUALS])) by len_lia.
  change (name ++ EQUALS :: v) with (name ++ [EQUALS] ++ v). rewrite app_assoc, from_app. done.
Qed.

Lemma option_shown s o : option_ok o = true -> option_word s (show o) = Ok (apply s o).
Proof.
  intros Ho. destruct o as [d| |k v|n|word].
  - unfold option_word. change (show (ODirectory d)) with (B "--directory" ++ EQUALS :: d). rewrite split_equals_app by by_decide. done.
  - done.
  - unfold option_word. change (show (OEnv k v)) with (B "--env" ++ EQUALS :: (k ++ EQUALS :: v)). rewrite split_equals_app by by_decide.
    cbn in Ho. apply negb_true_iff, bool_decide_eq_false in Ho.
    change (match split_equals (k ++ EQUALS :: v) with
      | (k, Some v) => Ok (mk (directory s) (env s ++ [(k, v)]) (clear_env s) (forward s) (argv s))
      | _ => Err (from_utf8_lossy (B "--env" ++ EQUALS :: (k ++ EQUALS :: v)) ++ B ": not KEY=VALUE")
      end = Ok (apply s (OEnv k v))). by rewrite split_equals_app.
  - unfold option_word. change (show (OForward n)) with (B "--forward-fd" ++ EQUALS :: decimal n). rewrite split_equals_app by by_decide.
    cbn in Ho. bool_to_prop.
    change (match (if utf8_valid (decimal n) then parse_i32 (decimal n) else None) with
      | Some n0 => if n0 >=? 0 then Ok (mk (directory s) (env s) (clear_env s) (forward s ++ [n0]) (argv s))
        else Err (from_utf8_lossy (B "--forward-fd" ++ EQUALS :: decimal n) ++ B ": not a descriptor number")
      | None => Err (from_utf8_lossy (B "--forward-fd" ++ EQUALS :: decimal n) ++ B ": not a descriptor number")
      end = Ok (apply s (OForward n))).
    rewrite utf8_decimal, parse_i32_decimal by lia. by rewrite Z.geb_leb, (proj2 (Z.leb_le _ _)) by lia.
  - unfold option_word. cbn [show]. cbn [option_ok] in Ho. unfold ignored in Ho. destruct (split_equals word) as [name value].
    cbn [fst] in Ho. apply andb_true_iff in Ho as [[[_ _]%andb_true_iff Hh]%andb_true_iff Hi]. apply negb_true_iff in Hh. by rewrite Hh, Hi.
Qed.

Lemma shown_dashes o : option_ok o = true -> starts_with DASHES (show o) = true /\ show o <> DASHES.
Proof.
  intros Ho. destruct o as [d| |k v|n|word]; [done|done|done|done|]. cbn [option_ok] in Ho. unfold ignored in Ho.
  apply andb_true_iff in Ho as [[[Hs Hd]%andb_true_iff _]%andb_true_iff _]. split; [done|].
  by apply negb_true_iff, bool_decide_eq_false in Hd.
Qed.

Lemma words_shown os rest s : forallb option_ok os = true -> words (map show os ++ rest) s = words rest (fold_left apply os s).
Proof.
  revert s. induction os as [|o os IH]; intros s; [done|]. cbn [forallb map app fold_left]. intros [Ho Hos]%andb_true_iff.
  destruct (shown_dashes o Ho) as [Hs Hd]. cbn [words]. rewrite bool_decide_false, Hs by done. cbn [negb].
  rewrite option_shown by done. cbn [mbind result_bind]. by apply IH.
Qed.

Lemma apply_argv os s : argv (fold_left apply os s) = argv s.
Proof. revert s. induction os as [|o os IH]; intros s; [done|]. cbn [fold_left]. rewrite IH. by destruct o. Qed.
End SpawnFacts.

(** ** The properties *)

(** The exec channel's codec is exact: the bytes that decode are those of at most
    a mebibyte that encode a request with a command and no flag but the terminal's,
    and they decode to it. *)
Theorem request_codec_iff buf r :
  Proto.decode_request buf = Ok r <->
  buf = Proto.encode_request (Proto.argv r) (Proto.flags r) /\ len buf <= Proto.MAX_REQUEST /\
  Proto.argv r <> [] /\ (Proto.flags r = 0 \/ Proto.flags r = 1).
Proof. apply ProtoFacts.decode_iff. Qed.

(** However the bytes of a connection are cut up, and however often the supervisor
    has to come back for more, the request it acts on is the whole of what arrived:
    the length, that many bytes, which decode to the request, and exactly three
    descriptors, all that came with it.  Nothing past the request is read. *)
Theorem incoming_request_is_whole {W} `{Stream W} `{!StreamLaws W} n w req f s' w' log :
  read_steps n Incoming.new (w, []) = Some (Ok (Some (req, f)), s', (w', log)) -> whole_request log req f.
Proof. apply steps_spec, incoming_new. Qed.

(** A step on a connection ends: it has fuel for every byte the request can still
    want, whatever the connection gives. *)
Theorem read_step_returns {W} `{Stream W} s (w : W) :
  (Incoming.want s = None -> Incoming.payload s = []) -> is_Some (Incoming.read_step s w).
Proof.
  intros Hs. apply loop_total. unfold Incoming.fuel. destruct (Incoming.want s) as [n|]; [lia|]. rewrite Hs by done. done.
Qed.

(** [flatpak-spawn] reads every option it can answer, drops those it ignores, and
    passes the command on untouched: after the options, whatever follows [--], or
    the first word that is no option with all that follows it. *)
Theorem spawn_reads_options os cmd rest :
  forallb Spawn.option_ok os = true -> cmd <> [] ->
  rest = Spawn.DASHES :: cmd \/ (rest = cmd /\ starts_with Spawn.DASHES (List.hd [] cmd) = false) ->
  Spawn.parse (map Spawn.show os ++ rest) = Ok (Spawn.set_argv (fold_left Spawn.apply os Spawn.default) cmd).
Proof.
  intros Hos Hc Hr. unfold Spawn.parse. rewrite SpawnFacts.words_shown by done.
  pose proof (SpawnFacts.apply_argv os Spawn.default) as Ha. set (s := fold_left Spawn.apply os Spawn.default) in *.
  assert (Spawn.words rest s = Ok (Spawn.set_argv s cmd)) as ->.
  { destruct Hr as [->|[-> Hd]].
    - cbn [Spawn.words]. rewrite bool_decide_true by done. by rewrite Ha.
    - destruct cmd as [|word cmd]; [done|]. cbn [List.hd] in Hd. cbn [Spawn.words]. rewrite bool_decide_false, Hd, Ha; [done|].
      intros ->. done. }
  cbn [mbind result_bind]. by rewrite bool_decide_false.
Qed.

(** A connection that gives two bytes at a time, and nothing between two polls. *)
#[local] Instance demo_stream : Stream (bytes * list Z * bool) := {|
  recv n := fun w : bytes * list Z * bool => let '(b, f, ready) := w in if ready then (Ok (upto b (Z.min 2 n), f), (from b (Z.min 2 n), [], false))
    else (Err (mkError WouldBlock []), (b, f, true));
  sread n := fun w : bytes * list Z * bool => let '(b, f, ready) := w in if ready then (Ok (upto b (Z.min 2 n)), (from b (Z.min 2 n), f, false))
    else (Err (mkError WouldBlock []), (b, f, true)) |}.

#[local] Instance demo_stream_laws : StreamLaws (bytes * list Z * bool).
Proof.
  assert (forall n (b : bytes), 0 <= n -> len (upto b (Z.min 2 n)) <= n) as Hl.
  { intros n b Hn. unfold upto. rewrite len_take. lia. }
  split; intros n [[b f] []]; cbn; try done.
  - intros b' f' w' Hn [= <- <- <-]. by apply Hl.
  - intros b' w' Hn [= <- <-]. by apply Hl.
Qed.

Definition demo_request : Proto.Request := Proto.mkRequest 1 [B "sh"; []; B "-c"].
Definition demo_payload : bytes := Proto.encode_request (Proto.argv demo_request) 1.

Lemma incoming_request_is_whole_witness : exists s' w' log,
  read_steps 40 Incoming.new ((le_bytes 4 (len demo_payload) ++ demo_payload, [3; 4; 5], true), []) =
    Some (Ok (Some (demo_request, [3; 4; 5])), s', (w', log)) /\ whole_request log demo_request [3; 4; 5].
Proof.
  assert (exists s' w' log, read_steps 40 Incoming.new ((le_bytes 4 (len demo_payload) ++ demo_payload, [3; 4; 5], true), []) =
    Some (Ok (Some (demo_request, [3; 4; 5])), s', (w', log))) as (s' & w' & log & E) by (do 3 eexists; vm_compute; reflexivity).
  exists s', w', log. split; [exact E|]. by apply (incoming_request_is_whole 40 (le_bytes 4 (len demo_payload) ++ demo_payload, [3; 4; 5], true) _ _ s' w').
Defined.

Lemma read_step_returns_witness : is_Some (Incoming.read_step Incoming.new (demo_payload, [3; 4; 5], true)).
Proof. by apply (read_step_returns Incoming.new (demo_payload, [3; 4; 5], true)). Defined.

Lemma spawn_reads_options_witness :
  Spawn.parse (map B ["--sandbox"; "--sandbox-expose-ro=/usr"; "--env=A=b=c"; "--forward-fd=7"; "--directory=/tmp"; "prlimit"; "--as=1"]%string)
  = Ok (Spawn.mk (Some (B "/tmp")) [(B "A", B "b=c")] false [7] [B "prlimit"; B "--as=1"]).
Proof.
  apply (spawn_reads_options
    [Spawn.OIgnored (B "--sandbox"); Spawn.OIgnored (B "--sandbox-expose-ro=/usr"); Spawn.OEnv (B "A") (B "b=c"); Spawn.OForward 7;
     Spawn.ODirectory (B "/tmp")] [B "prlimit"; B "--as=1"] [B "prlimit"; B "--as=1"]); [by vm_compute|done|by right].
Defined.
