(* ===== verification/Fuel.v ===== *)
(** Computations on a world that may run out of fuel, and the rules to reason about
    them.

    [M W A] is a function of the world, [None] when its fuel was not enough.
    [returns m Q] is total correctness: [m] ends in every world, with a result in [Q].
    A world with a log beside it, [W * list E], records what was asked of the
    machine: [triple P m Q] takes a log in [P] to one in [Q], and [grows m] says the
    log is only ever added to. *)
From S2P Require Export Io.

Definition M (W A : Type) : Type := W -> option (A * W).
#[global] Instance M_ret W : MRet (M W) := fun A a w => Some (a, w).
#[global] Instance M_bind W : MBind (M W) := fun A B f m w =>
  match m w with Some (a, w) => f a w | None => None end.

Definition eff {W A} (f : W -> A * W) : M W A := fun w => Some (f w).
Definition act {W} (f : W -> W) : M W unit := fun w => Some (tt, f w).
Definition out_of_fuel {W A} : M W A := fun _ => None.

(** ** Total correctness *)

Section Returns.
Context {W : Type}.

Definition returns {A} (m : M W A) (Q : A -> Prop) : Prop := forall w, exists a w', m w = Some (a, w') /\ Q a.

Lemma r_ret {A} (a : A) (Q : A -> Prop) : Q a -> returns (mret a) Q.
Proof. intros HQ w. by exists a, w. Qed.
Lemma r_bind {A B} (m : M W A) Q (f : A -> M W B) R : returns m Q -> (forall a, Q a -> returns (f a) R) -> returns (m ≫= f) R.
Proof. intros Hm Hf w. destruct (Hm w) as (a & w1 & E & HQ). unfold mbind, M_bind. rewrite E. by apply Hf. Qed.
Lemma r_eff {A} (f : W -> A * W) : returns (eff f) (fun _ => True).
Proof. intros w. unfold eff. destruct (f w) as [a w']. by exists a, w'. Qed.
Lemma r_act (f : W -> W) : returns (act f) (fun _ => True).
Proof. intros w. by exists tt, (f w). Qed.
Lemma r_post {A} (m : M W A) (Q Q' : A -> Prop) : (forall a, Q a -> Q' a) -> returns m Q -> returns m Q'.
Proof. intros HQ Hm w. destruct (Hm w) as (a & w' & E & Ha). eauto. Qed.
End Returns.

(** ** A log beside the world *)

Section Logs.
Context {W E : Type}.
Notation log := (list E).
Notation M := (M (W * log)).

Definition quiet {A} (f : W -> A * W) : W * log -> A * (W * log) := fun '(w, l) => let '(a, w) := f w in (a, (w, l)).
Definition quietly (f : W -> W) : W * log -> W * log := fun '(w, l) => (f w, l).

(** Noted as [ev] says, given what the call returned. *)
Definition recorded {A} (f : W -> A * W) (ev : A -> log) : W * log -> A * (W * log) :=
  fun '(w, l) => let '(a, w) := f w in (a, (w, l ++ ev a)).

Definition triple {A} (P : log -> Prop) (m : M A) (Q : A -> log -> Prop) : Prop :=
  forall w l a w' l', P l -> m (w, l) = Some (a, (w', l')) -> Q a l'.

Lemma t_ret {A} (P : log -> Prop) (a : A) : triple P (mret a) (fun x l => x = a /\ P l).
Proof. by intros w l x w' l' HP [= <- <- <-]. Qed.
Lemma t_bind {A B} P (m : M A) Q (f : A -> M B) R : triple P m Q -> (forall a, triple (Q a) (f a) R) -> triple P (m ≫= f) R.
Proof.
  intros Hm Hf w l b w' l' HP. unfold mbind, M_bind. destruct (m (w, l)) as [[a [w1 l1]]|] eqn:E1; [|done].
  apply Hf. by eapply Hm.
Qed.
Lemma t_pre {A} (P P' : log -> Prop) (m : M A) Q : (forall l, P l -> P' l) -> triple P' m Q -> triple P m Q.
Proof. intros HP Hm w l a w' l' H0. by apply Hm, HP. Qed.
Lemma t_post {A} P (m : M A) (Q Q' : A -> log -> Prop) : (forall a l, Q a l -> Q' a l) -> triple P m Q -> triple P m Q'.
Proof. intros HQ Hm w l a w' l' H0 E1. eapply HQ, Hm; eauto. Qed.
Lemma t_done {A} (P : log -> Prop) (a : A) (Q : A -> log -> Prop) : (forall l, P l -> Q a l) -> triple P (mret a) Q.
Proof. intros HQ. eapply t_post; [|apply t_ret]. intros x l [-> HP]. auto. Qed.
Lemma t_apply {A} {m : M A} {w l a w' l'} (E1 : m (w, l) = Some (a, (w', l'))) (P : log -> Prop) (Q : A -> log -> Prop) :
  P l -> triple P m Q -> Q a l'.
Proof. intros HP Ht. by eapply Ht. Qed.
Lemma t_fuel {A} P (Q : A -> log -> Prop) : triple P out_of_fuel Q.
Proof. by intros w l a w' l' _. Qed.

(** Calls that leave nothing in the log, and those that leave [ev]. *)
Lemma t_quiet {A} P (f : W -> A * W) : triple P (eff (quiet f)) (fun _ => P).
Proof. intros w l a w' l' HP. unfold eff, quiet. destruct (f w). by intros [= <- <- <-]. Qed.
Lemma t_quietly P (f : W -> W) : triple P (act (quietly f)) (fun _ => P).
Proof. by intros w l a w' l' HP [= <- <- <-]. Qed.
Lemma t_recorded {A} P (f : W -> A * W) ev : triple P (eff (recorded f ev)) (fun a l => exists l0, P l0 /\ l = l0 ++ ev a).
Proof. intros w l a w' l' HP. unfold eff, recorded. destruct (f w). intros [= <- <- <-]. by exists l. Qed.

Definition grows {A} (m : M A) : Prop := forall w l a w' l', m (w, l) = Some (a, (w', l')) -> l ⊆ l'.

Lemma g_ret {A} (a : A) : grows (mret a).
Proof. by intros w l x w' l' [= <- <- <-]. Qed.
Lemma g_bind {A B} (m : M A) (f : A -> M B) : grows m -> (forall a, grows (f a)) -> grows (m ≫= f).
Proof.
  intros Hm Hf w l b w' l'. unfold mbind, M_bind. destruct (m (w, l)) as [[a [w1 l1]]|] eqn:E1; [|done].
  intros E2. apply Hm in E1. apply Hf in E2. set_solver.
Qed.
Lemma g_fuel {A} : grows (A := A) out_of_fuel.
Proof. done. Qed.
Lemma g_quiet {A} (f : W -> A * W) : grows (eff (quiet f)).
Proof. intros w l a w' l'. unfold eff, quiet. destruct (f w). by intros [= <- <- <-]. Qed.
Lemma g_quietly (f : W -> W) : grows (act (quietly f)).
Proof. by intros w l a w' l' [= <- <- <-]. Qed.
Lemma g_recorded {A} (f : W -> A * W) ev : grows (eff (recorded f ev)).
Proof. intros w l a w' l'. unfold eff, recorded. destruct (f w). intros [= <- <- <-]. set_solver. Qed.
End Logs.

Create HintDb grows.
#[export] Hint Resolve g_ret g_fuel : grows.

(** Follows the structure of a computation whose calls have their lemmas in [grows]. *)
Ltac grow := repeat first
  [ solve [eauto with grows]
  | exact (g_quiet _) | exact (g_quietly _) | exact (g_recorded _ _)
  | apply g_bind; intros
  | match goal with |- grows (match ?x with _ => _ end) => destruct x end
  | match goal with |- grows (if ?x then _ else _) => destruct x end ].
