(* ===== verification/InitLoop.v ===== *)
(** The supervisor of [bubbler-init], PID 1 of a sandbox:
    [crates/bubbler-init/src/main.rs].

    [Args] is the command line.  [Sup] is the machine: clock, children, signals,
    the control socket and the display socket, for abstract worlds, children and
    connections; a connection is a [Conn] of [InitExec], whose [read_step] reads the
    requests.  [tick] is one turn of the loop of [main], [run] the loop from the
    launch of the command on.  A computation is a function of the world that may run
    out of fuel ([None]): [accepts] bounds how many connections one turn accepts,
    and the wait for children in [shutdown] is given a turn for every tick of the
    grace. *)
From S2P Require Export Fuel InitExec.

Definition TICK : Z := from_millis 20.
Definition GRACE : Z := from_secs 5.
Definition REQUEST_TIMEOUT : Z := from_secs 5.
Definition NOT_EXECUTABLE : Z := Z.shiftl 127 8.
Definition MAX_PENDING : Z := 16.
Definition X11_SOCKET : bytes := B "/tmp/.X11-unix/X0".
Definition DISPLAY : bytes := B ":0".
Definition USAGE : bytes :=
  B "bubbler-init: usage: --socket-fd N [--ctty] [--x11 argv... --] [--x11-socket path] [--wm program] -- cmd...".

(** ** The command line *)

Module Args.
Record t := mk {
  socket_fd : Z; ctty : bool; x11 : option (list bytes); x11_socket : bytes;
  wm : option bytes; command : list bytes }.

(** The words before the first [--], and those after it. *)
Fixpoint until_dashes (it : list bytes) : list bytes * list bytes :=
  match it with
  | [] => ([], [])
  | w :: it => if bool_decide (w = Spawn.DASHES) then ([], it) else let '(a, it) := until_dashes it in (w :: a, it)
  end.

(** What the loop has read so far. *)
Record partial := mkPartial {
  p_fd : option Z; p_ctty : bool; p_x11 : option (list bytes); p_socket : option bytes; p_wm : option bytes }.

(** Fuel is the number of words: each turn takes at least one. *)
Fixpoint parse_loop (fuel : nat) (it : list bytes) (p : partial) : option (partial * list bytes) :=
  match fuel with
  | O => None
  | S fuel =>
    match it with
    | [] => Some (p, [])
    | a :: it =>
      if negb (utf8_valid a) then None
      else if bool_decide (a = B "--socket-fd") then
        match it with
        | v :: it =>
          if utf8_valid v then parse_loop fuel it (mkPartial (parse_i32 v) (p_ctty p) (p_x11 p) (p_socket p) (p_wm p))
          else None
        | [] => None
        end
      else if bool_decide (a = B "--ctty") then parse_loop fuel it (mkPartial (p_fd p) true (p_x11 p) (p_socket p) (p_wm p))
      else if bool_decide (a = B "--x11") && bool_decide (p_x11 p = None) then
        let '(argv, it) := until_dashes it in
        if bool_decide (argv = []) then None
        else parse_loop fuel it (mkPartial (p_fd p) (p_ctty p) (Some argv) (p_socket p) (p_wm p))
      else if bool_decide (a = B "--x11-socket") && bool_decide (p_socket p = None) then
        match it with
        | v :: it => parse_loop fuel it (mkPartial (p_fd p) (p_ctty p) (p_x11 p) (Some v) (p_wm p))
        | [] => None
        end
      else if bool_decide (a = B "--wm") && bool_decide (p_wm p = None) then
        match it with
        | v :: it => parse_loop fuel it (mkPartial (p_fd p) (p_ctty p) (p_x11 p) (p_socket p) (Some v))
        | [] => None
        end
      else if bool_decide (a = Spawn.DASHES) then Some (p, it)
      else None
    end
  end.

Definition parse_from (it : list bytes) : option t :=
  '(p, command) ← parse_loop (S (length it)) it (mkPartial None false None None None);
  if bool_decide (p_x11 p = None) && (bool_decide (p_socket p <> None) || bool_decide (p_wm p <> None)) then None
  else if bool_decide (command = []) then None
  else
    fd ← p_fd p;
    Some (mk fd (p_ctty p) (p_x11 p) (default X11_SOCKET (p_socket p)) (p_wm p) command).
End Args.

(** ** Exit codes *)

(** [ExitStatus::code] and [ExitStatus::signal] of a raw wait status. *)
Definition exit_code (status : Z) : option Z :=
  if Z.land status 127 =? 0 then Some (Z.land (Z.shiftr status 8) 255) else None.
Definition exit_signal (status : Z) : option Z :=
  let s := Z.land status 127 in if (0 <? s) && (s <? 127) then Some s else None.

Definition code_of (status : Z) : Z :=
  let code := match exit_code status with
              | Some c => c
              | None => match exit_signal status with Some s => 128 + s | None => 1 end
              end in
  if code <=? U8_MAX then code else 1.

(** ** The machine *)

Inductive Signal := TERM | KILL.

(** [std::process::Command] as the supervisor builds one: [stdio] is inherited unless
    given, [display] is what it sets [DISPLAY] to, [terminal] is [take_ctty]. *)
Record Command := mkCommand {
  program : bytes; args : list bytes; display : option bytes; stdio : option (Z * Z * Z); terminal : bool }.

Inductive watched (conn : Type) := Control | Screen | Half (c : conn).
Arguments Control {conn}.
Arguments Screen {conn}.
Arguments Half {conn} c.

(** [instant] and [pause] are [Instant::now] and [thread::sleep]; [stop_swap] takes the
    flag the signal handlers set; [dup_display] and [pass_on] are the [fcntl]s on the
    display socket; [accept] is nothing when there is nobody left to accept. *)
Class Sup (W child conn : Type) := {
  instant : W -> Z * W;
  pause : Z -> W -> W;
  stop_swap : W -> bool * W;
  spawn : Command -> io W child;
  try_wait : child -> io W (option Z);
  wait : child -> io W Z;
  kill_process : child -> Signal -> W -> W;
  child_kill : child -> W -> W;
  isatty : Z -> W -> bool * W;
  try_clone : Z -> W -> option Z * W;
  write_to_fd : Z -> bytes -> W -> W;
  eprintln : bytes -> W -> W;
  bind_x11 : bytes -> io W unit;
  dup_display : io W Z;
  pass_on : Z -> io W unit;
  poll : list (watched conn) -> Z -> W -> (result io_error Z * list PollFlags) * W;
  accept : W -> option conn * W;
  set_nonblocking : conn -> io W unit;
  conn_of :: conn -> Conn W;
}.

(** ** The state of the loop *)

Record X11 (child : Type) := mkX11 {
  x_argv : list bytes; x_wm : option bytes; started : bool; server : option child; wm_child : option child }.
Arguments mkX11 {child}. Arguments x_argv {child}. Arguments x_wm {child}. Arguments started {child}.
Arguments server {child}. Arguments wm_child {child}.

Record Exec (child conn : Type) := mkExec { e_child : child; e_conn : conn }.
Arguments mkExec {child conn}. Arguments e_child {child conn}. Arguments e_conn {child conn}.

Record Stopping := mkStopping { asked : bool; kill_at : option Z }.

Record Pending (conn : Type) := mkPending { p_conn : conn; p_incoming : Incoming.t; p_deadline : Z }.
Arguments mkPending {conn}. Arguments p_conn {conn}. Arguments p_incoming {conn}. Arguments p_deadline {conn}.

Record State (child conn : Type) := mkState {
  command : child; execs : list (Exec child conn); pending : list (Pending conn);
  x11 : option (X11 child); stopping : Stopping }.
Arguments mkState {child conn}. Arguments command {child conn}. Arguments execs {child conn}.
Arguments pending {child conn}. Arguments x11 {child conn}. Arguments stopping {child conn}.

Section Loop.
Context {W child conn : Type} `{Sup W child conn}.
Notation M := (M W).
Notation Exec := (Exec child conn).
Notation Pending := (Pending conn).
Notation X11 := (X11 child).
Notation State := (State child conn).

Definition answer (c : conn) (status : Z) : M unit := fun w =>
  Some (tt, (@send_status W (conn_of c) status w).2).

Definition refuse (c : conn) (report : option Z) (why : bytes) : M unit :=
  match report with Some fd => act (write_to_fd fd (B "bubbler-init: " ++ why)) | None => mret tt end;;
  answer c NOT_EXECUTABLE.

(** What is run for a request, with its standard streams. *)
Definition exec_command (program : bytes) (rest : list bytes) (fds : Z * Z * Z) (display : option bytes) (terminal : bool) : Command :=
  mkCommand program rest display (Some fds) terminal.

Definition serve (c : conn) (request : Proto.Request) (fds : list Z) (execs : list Exec) (display : option bytes) (stopping : bool)
  : M (list Exec) :=
  match Proto.argv request, fds with
  | program :: rest, stdin :: stdout :: stderr :: _ =>
    report ← eff (try_clone stderr);
    if stopping : bool then
      refuse c report (B "stopping; " ++ from_utf8_lossy program ++ B " was not run");; mret execs
    else
      terminal ← (if Proto.ctty request then eff (isatty stdin) else mret false);
      r ← eff (spawn (exec_command program rest (stdin, stdout, stderr) display terminal));
      match r with
      | Ok child => mret (execs ++ [mkExec child c])
      | Err e => refuse c report (from_utf8_lossy program ++ B ": " ++ text e);; mret execs
      end
  | _, _ => mret execs
  end.

Definition step_of (c : conn) (s : Incoming.t) : M (result io_error (option (Proto.Request * list Z)) * Incoming.t) :=
  fun w => @Incoming.read_step W (@conn_stream W (conn_of c)) s w.

(** [ready] is parallel to [pending]; what is removed leaves both. *)
Fixpoint read_pending (pending : list Pending) (ready : list bool) (execs : list Exec) (display : option bytes) (stopping : bool)
  : M (list Pending * list Exec) :=
  match pending with
  | [] => mret ([], execs)
  | p :: pending =>
    if negb (List.hd false ready) then
      '(kept, execs) ← read_pending pending (List.tl ready) execs display stopping;
      mret (p :: kept, execs)
    else
      '(r, incoming) ← step_of (p_conn p) (p_incoming p);
      match r with
      | Ok None =>
        '(kept, execs) ← read_pending pending (List.tl ready) execs display stopping;
        mret (mkPending (p_conn p) incoming (p_deadline p) :: kept, execs)
      | Ok (Some (request, fds)) =>
        execs ← serve (p_conn p) request fds execs display stopping;
        read_pending pending (List.tl ready) execs display stopping
      | Err _ => read_pending pending (List.tl ready) execs display stopping
      end
  end.

Fixpoint reap (execs : list Exec) : M (list Exec) :=
  match execs with
  | [] => mret []
  | e :: execs =>
    r ← eff (try_wait (e_child e));
    match r with
    | Ok None => kept ← reap execs; mret (e :: kept)
    | Ok (Some status) => answer (e_conn e) status;; reap execs
    | Err _ => reap execs
    end
  end.

Definition has_exited (c : child) (what : bytes) : M bool :=
  r ← eff (try_wait c);
  match r with
  | Ok None => mret false
  | Ok (Some _) => mret true
  | Err e => act (eprintln (B "bubbler-init: cannot wait for " ++ what ++ B ": " ++ text e));; mret true
  end.

Fixpoint signal_execs (execs : list Exec) (sig : Signal) : M unit :=
  match execs with
  | [] => mret tt
  | e :: execs => act (kill_process (e_child e) sig);; signal_execs execs sig
  end.

Definition begin_stop (command : child) (execs : list Exec) (s : Stopping) : M Stopping :=
  act (kill_process command TERM);;
  signal_execs execs TERM;;
  now ← eff instant;
  mret (mkStopping true (match kill_at s with Some t => Some t | None => Some (now + GRACE) end)).

(** The wait of [shutdown], until nobody is left or the deadline has passed. *)
Fixpoint shutdown_loop (fuel : nat) (deadline : Z) (execs : list Exec) : M (list Exec) :=
  match execs with
  | [] => mret []
  | _ =>
    now ← eff instant;
    if now <? deadline then
      match fuel with
      | O => out_of_fuel
      | S fuel => act (pause TICK);; execs ← reap execs; shutdown_loop fuel deadline execs
      end
    else mret execs
  end.

Definition SHUTDOWN_TURNS : nat := Z.to_nat (GRACE / TICK).

Fixpoint wait_all (execs : list Exec) : M unit :=
  match execs with
  | [] => mret tt
  | e :: execs =>
    r ← eff (wait (e_child e));
    match r with Ok status => answer (e_conn e) status | Err _ => mret tt end;;
    wait_all execs
  end.

Definition shutdown (execs : list Exec) : M unit :=
  if bool_decide (length execs = 0%nat) then mret tt
  else
    signal_execs execs TERM;;
    now ← eff instant;
    execs ← shutdown_loop SHUTDOWN_TURNS (now + GRACE) execs;
    signal_execs execs KILL;;
    wait_all execs.

Definition start_x11 (x : X11) : M (result bytes X11) :=
  match x_argv x with
  | [] => mret (Err (B "no server to run"))
  | program :: rest =>
    r ← eff dup_display;
    match r with
    | Err e => mret (Err (B "cannot duplicate the socket: " ++ text e))
    | Ok handed =>
      r ← eff (pass_on handed);
      match r with
      | Err e => mret (Err (B "cannot pass the socket: " ++ text e))
      | Ok _ =>
        r ← eff (spawn (mkCommand program (rest ++ [B "-listenfd"; decimal handed]) None None false));
        match r with
        | Err e => mret (Err (from_utf8_lossy program ++ B ": " ++ text e))
        | Ok child => mret (Ok (mkX11 (x_argv x) (x_wm x) (started x) (Some child) (wm_child x)))
        end
      end
    end
  end.

Definition start_wm (x : X11) : M X11 :=
  match x_wm x with
  | None => mret x
  | Some wm =>
    r ← eff (spawn (mkCommand wm [] (Some DISPLAY) None false));
    match r with
    | Ok child => mret (mkX11 (x_argv x) (x_wm x) (started x) (server x) (Some child))
    | Err e => act (eprintln (B "bubbler-init: wm " ++ from_utf8_lossy wm ++ B ": " ++ text e));; mret x
    end
  end.

Fixpoint stop_loop (fuel : nat) (deadline : Z) (c : child) : M bool :=
  now ← eff instant;
  if now <? deadline then
    match fuel with
    | O => out_of_fuel
    | S fuel =>
      r ← eff (try_wait c);
      match r with
      | Ok None => act (pause TICK);; stop_loop fuel deadline c
      | _ => mret true
      end
    end
  else mret false.

Definition stop_child (c : child) : M unit :=
  act (kill_process c TERM);;
  now ← eff instant;
  gone ← stop_loop SHUTDOWN_TURNS (now + GRACE) c;
  if gone : bool then mret tt
  else act (child_kill c);; _ ← eff (wait c); mret tt.

Definition stop_x11 (x : option X11) : M unit :=
  match x with
  | None => mret tt
  | Some x =>
    match wm_child x with Some c => stop_child c | None => mret tt end;;
    match server x with Some c => stop_child c | None => mret tt end
  end.

(** ** One turn of the loop *)

Definition set_execs (s : State) (e : list Exec) : State := mkState (command s) e (pending s) (x11 s) (stopping s).
Definition set_pending (s : State) (p : list Pending) : State := mkState (command s) (execs s) p (x11 s) (stopping s).
Definition set_x11 (s : State) (x : X11) : State := mkState (command s) (execs s) (pending s) (Some x) (stopping s).
Definition set_stopping (s : State) (st : Stopping) : State := mkState (command s) (execs s) (pending s) (x11 s) st.

Definition stop (s : State) : M State :=
  st ← begin_stop (command s) (execs s) (stopping s); mret (set_stopping s st).

Definition display_of (s : State) : option bytes := match x11 s with Some _ => Some DISPLAY | None => None end.

Definition gone (c : option child) (what : bytes) : M bool :=
  match c with Some c => has_exited c what | None => mret false end.

(** A server that exited stops the command; a window manager that exited is reported. *)
Definition check_server (s : State) : M State :=
  match x11 s with
  | None => mret s
  | Some x =>
    down ← gone (server x) (B "Xwayland");
    if down : bool then
      act (eprintln (B "bubbler-init: Xwayland exited; stopping the command"));;
      s ← stop s;
      mret (set_x11 s (mkX11 (x_argv x) (x_wm x) (started x) None (wm_child x)))
    else mret s
  end.

Definition check_wm (s : State) : M State :=
  match x11 s with
  | None => mret s
  | Some x =>
    down ← gone (wm_child x) (B "the window manager");
    if down : bool then
      match x_wm x with
      | Some name => act (eprintln (B "bubbler-init: wm " ++ from_utf8_lossy name ++ B " exited"))
      | None => mret tt
      end;;
      mret (set_x11 s (mkX11 (x_argv x) (x_wm x) (started x) (server x) None))
    else mret s
  end.

Definition reap_execs (s : State) : M State := e ← reap (execs s); mret (set_execs s e).

(** The SIGKILL, once, when the deadline has come. *)
Definition check_kill (s : State) : M State :=
  match kill_at (stopping s) with
  | None => mret s
  | Some at_ =>
    now ← eff instant;
    if at_ <=? now then
      act (kill_process (command s) KILL);;
      signal_execs (execs s) KILL;;
      mret (set_stopping s (mkStopping (asked (stopping s)) None))
    else mret s
  end.

Definition waking (s : State) : bool :=
  match x11 s with Some x => negb (started x) && negb (asked (stopping s)) | None => false end.

Definition poll_set (s : State) : list (watched conn) :=
  Control :: (if waking s then [Screen] else []) ++ map (fun p => Half (p_conn p)) (pending s).

Definition IN_ : PollFlags := mkFlags true false false false.

(** The first client of the display is what starts the server. *)
Definition wake_x11 (s : State) : M State :=
  match x11 s with
  | Some x =>
    if asked (stopping s) then mret s
    else
      let x := mkX11 (x_argv x) (x_wm x) true (server x) (wm_child x) in
      r ← start_x11 x;
      match r with
      | Ok x => x ← start_wm x; mret (set_x11 s x)
      | Err reason =>
        act (eprintln (B "bubbler-init: Xwayland did not start: " ++ reason));;
        stop (set_x11 s x)
      end
  | None => mret s
  end.

Definition expire (now : Z) (pending : list Pending) : list Pending :=
  filter (fun p => now < p_deadline p) pending.

Fixpoint accept_loop (fuel : nat) (pending : list Pending) : M (list Pending) :=
  match fuel with
  | O => out_of_fuel
  | S fuel =>
    c ← eff accept;
    match c with
    | None => mret pending
    | Some c =>
      r ← eff (set_nonblocking c);
      match r with
      | Err _ => accept_loop fuel pending
      | Ok _ =>
        let pending := if len pending >=? MAX_PENDING then List.tl pending else pending in
        now ← eff instant;
        accept_loop fuel (pending ++ [mkPending c Incoming.new (now + REQUEST_TIMEOUT)])
      end
    end
  end.

Definition read_ready (ready : list bool) (s : State) : M State :=
  '(p, e) ← read_pending (pending s) ready (execs s) (display_of s) (asked (stopping s));
  mret (set_pending (set_execs s e) p).

Definition expire_pending (s : State) : M State := now ← eff instant; mret (set_pending s (expire now (pending s))).

Definition accept_new (accepts : nat) (s : State) : M State := p ← accept_loop accepts (pending s); mret (set_pending s p).

(** What follows the poll: [revents] are the answers for [poll_set] of the state it
    was made from, [x_slot] whether the display was in it. *)
Definition after_poll (accepts : nat) (x_slot : bool) (polled : result io_error Z) (revents : list PollFlags) (s : State) : M State :=
  let accept := contains (List.nth 0 revents no_flags) IN_ in
  let wake := x_slot && contains (List.nth 1 revents no_flags) IN_ in
  let ready := map (fun f => negb (flags_empty f)) (drop (if x_slot then 2 else 1) revents) in
  asked_now ← eff stop_swap;
  s ← (if asked_now : bool then stop s else mret s);
  match polled with
  | Err _ => act (pause TICK);; mret s
  | Ok _ =>
    s ← (if wake : bool then wake_x11 s else mret s);
    s ← read_ready ready s;
    s ← expire_pending s;
    if accept : bool then accept_new accepts s else mret s
  end.

(** What every turn that does not end the run does before it polls. *)
Definition before_poll (s : State) : M State :=
  s ← check_server s; s ← check_wm s; s ← reap_execs s; check_kill s.

(** [inr] is the exit code of the run. *)
Definition tick (accepts : nat) (s : State) : M (State + Z) :=
  r ← eff (try_wait (command s));
  match r with
  | Ok (Some status) =>
    e ← reap (execs s);
    shutdown e;;
    stop_x11 (x11 s);;
    mret (inr (code_of status))
  | _ =>
    s ← before_poll s;
    '(polled, revents) ← eff (poll (poll_set s) TICK);
    s ← after_poll accepts (waking s) polled revents s;
    mret (inl s)
  end.

(** From the command line on: the display is bound, the command launched. *)
Definition launch (a : Args.t) : M (State + Z) :=
  match Args.command a with
  | [] => act (eprintln USAGE);; mret (inr 2)
  | program :: rest =>
    r ← match Args.x11 a with
        | Some argv => r ← eff (bind_x11 (Args.x11_socket a));
                       match r with
                       | Ok _ => mret (Ok (Some (mkX11 argv (Args.wm a) false None None)))
                       | Err e => act (eprintln (B "bubbler-init: cannot bind the display socket: " ++ text e));; mret (Err 2)
                       end
        | None => mret (Ok None)
        end;
    match r with
    | Err code => mret (inr code)
    | Ok x =>
      terminal ← (if Args.ctty a then eff (isatty 0) else mret false);
      r ← eff (spawn (mkCommand program rest (match x with Some _ => Some DISPLAY | None => None end) None terminal));
      match r with
      | Ok child => mret (inl (mkState child [] [] x (mkStopping false None)))
      | Err e =>
        act (eprintln (B "bubbler-init: " ++ from_utf8_lossy program ++ B ": " ++ text e));;
        stop_x11 x;;
        mret (inr 127)
      end
    end
  end.

(** So many turns of the loop; each with the fuel [accepts]. *)
Fixpoint turns (accepts : nat) (n : nat) (s : State) : M (State + Z) :=
  match n with
  | O => mret (inl s)
  | S n =>
    r ← tick accepts s;
    match r with inl s => turns accepts n s | inr code => mret (inr code) end
  end.

Definition run (accepts n : nat) (a : Args.t) : M (State + Z) :=
  r ← launch a;
  match r with inl s => turns accepts n s | inr code => mret (inr code) end.
End Loop.
