(* ===== verification/InitRun.v ===== *)
(** What the supervisor of [InitLoop] guarantees of its runs.

    [watched_by] instruments any machine: it behaves as that one does and writes
    down what the theorems are about.  [triple] states what a computation does to
    that log; [inv] is what holds between the state of the loop and the log. *)
From S2P Require Export InitLoop.

(** ** What happened *)

(** [Exited] and [Lost] are the outcomes of waiting for a child that is gone: its
    status, or the error that leaves it unknown.  [Got] is what was read from a
    connection, [Sent] what was written to it. *)
Inductive event (child conn : Type) :=
| Spawned (ch : child) (cmd : Command)
| Signalled (ch : child) (sig : Signal)
| Exited (ch : child) (status : Z)
| Lost (ch : child)
| Accepted (c : conn)
| Got (c : conn) (b : bytes) (fds : list Z)
| Sent (c : conn) (b : bytes).
Arguments Spawned {child conn} ch cmd.
Arguments Signalled {child conn} ch sig.
Arguments Exited {child conn} ch status.
Arguments Lost {child conn} ch.
Arguments Accepted {child conn} c.
Arguments Got {child conn} c b fds.
Arguments Sent {child conn} c b.

Section Watched.
Context {W child conn : Type} `{Sup W child conn}.
Notation event := (event child conn).
Notation log := (list event).

Definition outcome (ch : child) (r : result io_error (option Z)) : log :=
  match r with Ok (Some st) => [Exited ch st] | Ok None => [] | Err _ => [Lost ch] end.

Definition conn_log (c : conn) : Conn (W * log) := {|
  conn_stream := {|
    recv n := recorded (@recv W (@conn_stream W (conn_of c)) n) (fun r => match r with Ok (b, f) => [Got c b f] | Err _ => [] end);
    sread n := recorded (@sread W (@conn_stream W (conn_of c)) n) (fun r => match r with Ok b => [Got c b []] | Err _ => [] end) |};
  send_with_fds b f := quiet (@send_with_fds W (conn_of c) b f);
  send_all b := recorded (@send_all W (conn_of c) b) (fun _ => [Sent c b]);
  time_left := quiet (@time_left W (conn_of c));
  set_timeout n := quiet (@set_timeout W (conn_of c) n) |}.

Definition watched_by : Sup (W * log) child conn := {|
  instant := quiet instant; pause d := quietly (pause d); stop_swap := quiet stop_swap;
  spawn cmd := recorded (spawn cmd) (fun r => match r with Ok ch => [Spawned ch cmd] | Err _ => [] end);
  try_wait ch := recorded (try_wait ch) (outcome ch);
  wait ch := recorded (wait ch) (fun r => match r with Ok st => [Exited ch st] | Err _ => [Lost ch] end);
  kill_process ch sig := fun '(w, l) => (kill_process ch sig w, l ++ [Signalled ch sig]);
  child_kill ch := fun '(w, l) => (child_kill ch w, l ++ [Signalled ch KILL]);
  isatty fd := quiet (isatty fd); try_clone fd := quiet (try_clone fd);
  write_to_fd fd b := quietly (write_to_fd fd b); eprintln b := quietly (eprintln b);
  bind_x11 p := quiet (bind_x11 p); dup_display := quiet dup_display; pass_on fd := quiet (pass_on fd);
  poll fds t := quiet (poll fds t);
  accept := recorded accept (fun r => match r with Some c => [Accepted c] | None => [] end);
  set_nonblocking c := quiet (set_nonblocking c);
  conn_of := conn_log |}.
End Watched.

(** ** What a log says *)

Section Logs.
Context {child conn : Type} `{EqDecision conn}.
Notation event := (event child conn).
Notation log := (list event).

Definition accepted (l : log) : list conn := omap (fun e => match e with Accepted c => Some c | _ => None end) l.
Definition answered (l : log) : list conn := omap (fun e => match e with Sent c _ => Some c | _ => None end) l.

(** What was read from one connection. *)
Definition heard (c : conn) (l : log) : list (bytes * list Z) :=
  omap (fun e => match e with Got c' b f => if decide (c' = c) then Some (b, f) else None | _ => None end) l.

Definition is_term (e : event) : Prop := match e with Signalled _ TERM => True | _ => False end.
Definition is_spawn (e : event) : Prop := match e with Spawned _ _ => True | _ => False end.
Definition no_spawn (l : log) : Prop := Forall (fun e => ~ is_spawn e) l.
Definition no_term (l : log) : Prop := Forall (fun e => ~ is_term e) l.

(** Nothing was started after the first SIGTERM. *)
Definition calm (l : log) : Prop := forall l1 ch l2, l = l1 ++ Signalled ch TERM :: l2 -> no_spawn l2.

(** The command [cmd] is the one a connection asked for, with the descriptors that
    came with the request. *)
Definition requested (l : log) (c : conn) (cmd : Command) : Prop := exists req stdin stdout stderr,
  c ∈ accepted l /\ whole_request (heard c l) req [stdin; stdout; stderr] /\
  Proto.argv req = program cmd :: args cmd /\ stdio cmd = Some (stdin, stdout, stderr) /\
  (terminal cmd = true -> Proto.ctty req = true).

(** The child was started for the connection. *)
Definition served (l : log) (ch : child) (c : conn) : Prop := exists l1 cmd l2,
  l = l1 ++ Spawned ch cmd :: l2 /\ requested l1 c cmd.

(** An event is what it should be after what happened before it. *)
Definition just (l : log) (e : event) : Prop :=
  match e with
  | Spawned ch cmd => stdio cmd = None \/ exists c, requested l c cmd
  | Sent c b => b = Proto.encode_status NOT_EXECUTABLE \/
      exists ch st, b = Proto.encode_status st /\ Exited ch st ∈ l /\ served l ch c
  | _ => True
  end.

Definition justified (l : log) : Prop := forall l1 e l2, l = l1 ++ e :: l2 -> just l1 e.

(** Every child started for a request is known to be gone, but for [chs]. *)
Definition accounted (chs : list child) (l : log) : Prop := forall ch cmd,
  Spawned ch cmd ∈ l -> stdio cmd <> None -> ch ∈ chs \/ (exists st, Exited ch st ∈ l) \/ Lost ch ∈ l.

Lemma accepted_app l k : accepted (l ++ k) = accepted l ++ accepted k.
Proof. apply omap_app. Qed.
Lemma answered_app l k : answered (l ++ k) = answered l ++ answered k.
Proof. apply omap_app. Qed.
Lemma heard_app c l k : heard c (l ++ k) = heard c l ++ heard c k.
Proof. apply omap_app. Qed.

Lemma snoc_split {A} (l : list A) e l1 x l2 : l ++ [e] = l1 ++ x :: l2 ->
  (l2 = [] /\ l = l1 /\ e = x) \/ exists l2', l2 = l2' ++ [e] /\ l = l1 ++ x :: l2'.
Proof.
  destruct l2 as [|y l2' _] using rev_ind.
  - intros [-> [= ->]]%app_inj_tail. by left.
  - rewrite app_comm_cons, app_assoc. intros [-> ->]%app_inj_tail. right. by exists l2'.
Qed.

Lemma calm_snoc l e : calm l -> (is_spawn e -> no_term l) -> calm (l ++ [e]).
Proof.
  intros Hc He l1 ch l2 [(-> & -> & ->)|(l2' & -> & ->)]%snoc_split; [constructor|].
  apply Forall_app. split; [by eapply Hc|]. apply Forall_singleton. intros Hs. specialize (He Hs).
  unfold no_term in He. rewrite Forall_app, Forall_cons in He. destruct He as [_ [Ht _]]. by apply Ht.
Qed.

Lemma justified_snoc l e : justified l -> just l e -> justified (l ++ [e]).
Proof. intros Hl He l1 x l2 [(-> & -> & <-)|(l2' & -> & ->)]%snoc_split; [done|]. by eapply Hl. Qed.

Lemma served_snoc l e ch c : served l ch c -> served (l ++ [e]) ch c.
Proof. intros (l1 & cmd & l2 & -> & Hr). exists l1, cmd, (l2 ++ [e]). by rewrite <-app_assoc. Qed.

Lemma accounted_snoc chs l e : accounted chs l ->
  (match e with Spawned ch cmd => stdio cmd = None \/ ch ∈ chs | _ => True end) -> accounted chs (l ++ [e]).
Proof.
  intros Ha He ch cmd [Hin| <-%list_elem_of_singleton]%elem_of_app Hs.
  - destruct (Ha ch cmd Hin Hs) as [?|[[st ?]|?]]; [by left|right; left; exists st|right; right]; apply elem_of_app; by left.
  - left. by destruct He.
Qed.
End Logs.

(** ** Between the state and the log *)

Section Invariant.
Context {child conn : Type} `{EqDecision conn}.
Notation event := (event child conn).
Notation log := (list event).
Notation Exec := (Exec child conn).
Notation Pending := (Pending conn).

(** [loose] are the connections in hand, neither pending nor waiting for a child. *)
Record inv (loose : list conn) (pen : list Pending) (exs : list Exec) (asked : bool) (l : log) : Prop := {
  i_tokens : loose ++ map p_conn pen ++ map e_conn exs ++ answered l ⊆+ accepted l;
  i_unheard c : c ∉ accepted l -> heard c l = [];
  i_reading : NoDup (accepted l) -> Forall (fun p => incoming (p_incoming p) (heard (p_conn p) l)) pen;
  i_execs : NoDup (accepted l) -> Forall (fun e => served l (e_child e) (e_conn e)) exs;
  i_just : NoDup (accepted l) -> justified l;
  i_calm : calm l;
  i_asked : asked = false -> no_term l;
  i_accounted : accounted (map e_child exs) l }.

Lemma inv_start : inv [] [] [] false [].
Proof.
  split; try done.
  - by intros _ [] ? ? ?.
  - by intros [] ? ? ?.
  - intros _. constructor.
  - by intros ? ? ?%elem_of_nil.
Qed.

(** The connections of [loose], [pen] and [exs] may be regrouped. *)
Lemma inv_regroup loose loose' pen pen' (exs exs' : list Exec) a (l : log) :
  inv loose pen exs a l ->
  loose' ++ map p_conn pen' ++ map e_conn exs' ⊆+ loose ++ map p_conn pen ++ map e_conn exs ->
  pen' ⊆ pen -> exs' ⊆ exs -> accounted (map e_child exs') l ->
  inv loose' pen' exs' a l.
Proof.
  intros [] Hs Hp He Ha. split; try done.
  - etrans; [|apply i_tokens0]. apply (submseteq_skips_r (answered l)) in Hs. by rewrite <-!app_assoc in Hs.
  - intros Hn. specialize (i_reading0 Hn). rewrite Forall_forall in *. auto.
  - intros Hn. specialize (i_execs0 Hn). rewrite Forall_forall in *. auto.
Qed.

Lemma inv_take loose pre p pen (exs : list Exec) a (l : log) :
  inv loose (pre ++ p :: pen) exs a l -> inv (p_conn p :: loose) (pre ++ pen) exs a l.
Proof.
  intros Hi. eapply inv_regroup; [done| |set_solver|done|apply Hi].
  rewrite !map_app. cbn [map]. rewrite <-!app_assoc. apply Permutation_submseteq. cbn. solve_Permutation.
Qed.

Lemma inv_drop loose c pen (exs : list Exec) a (l : log) : inv (c :: loose) pen exs a l -> inv loose pen exs a l.
Proof. intros Hi. eapply inv_regroup; [done| |done|done|apply Hi]. cbn. by apply submseteq_cons. Qed.

Lemma inv_retain loose pen pen' (exs : list Exec) a (l : log) : sublist pen' pen ->
  inv loose pen exs a l -> inv loose pen' exs a l.
Proof.
  intros Hs Hi. eapply inv_regroup; [done| | |done|apply Hi].
  - apply submseteq_skips_l, submseteq_skips_r, sublist_submseteq. by apply fmap_sublist.
  - intros x. by apply sublist_subseteq.
Qed.

Lemma inv_gone loose pen pre e (exs : list Exec) a (l : log) :
  inv loose pen (pre ++ e :: exs) a l -> (exists st, Exited (e_child e) st ∈ l) \/ Lost (e_child e) ∈ l ->
  inv (e_conn e :: loose) pen (pre ++ exs) a l.
Proof.
  intros Hi Hg. eapply inv_regroup; [done| |done|set_solver|].
  - rewrite !map_app. cbn [map]. apply Permutation_submseteq. cbn. solve_Permutation.
  - intros ch cmd Hin Hs. destruct (i_accounted _ _ _ _ _ Hi ch cmd Hin Hs) as [Hc|?]; [|by right].
    rewrite map_app in Hc. cbn in Hc. rewrite map_app.
    apply elem_of_app in Hc as [?|[-> | ?]%elem_of_cons]; [left; set_solver|by right|left; set_solver].
Qed.

(** *** What one event does to it *)

Definition silent_event (e : event) : Prop :=
  match e with Accepted _ | Got _ _ _ | Sent _ _ => False | _ => True end.

Lemma silent_logs e (l : log) : silent_event e ->
  accepted (l ++ [e]) = accepted l /\ answered (l ++ [e]) = answered l /\ forall c, heard c (l ++ [e]) = heard c l.
Proof.
  intros He. rewrite accepted_app, answered_app.
  split_and!; [| |intros c; rewrite heard_app]; destruct e; try done; cbn; by rewrite app_nil_r.
Qed.

Lemma inv_event e loose loose' pen (exs exs' : list Exec) a a' (l : log) :
  inv loose pen exs a l -> silent_event e ->
  (NoDup (accepted l) -> just l e) -> (a' = false -> a = false /\ ~ is_term e) -> (is_spawn e -> a = false) ->
  loose' ++ map p_conn pen ++ map e_conn exs' ⊆+ loose ++ map p_conn pen ++ map e_conn exs ->
  (NoDup (accepted l) -> Forall (fun x => served (l ++ [e]) (e_child x) (e_conn x)) exs') ->
  accounted (map e_child exs') (l ++ [e]) ->
  inv loose' pen exs' a' (l ++ [e]).
Proof.
  intros [] He Hj Ha Hsp Ht Hs Hacc. destruct (silent_logs e l He) as (Ea & Es & Eh).
  split; rewrite ?Ea, ?Es; auto.
  - etrans; [|apply i_tokens0]. apply (submseteq_skips_r (answered l)) in Ht. by rewrite <-!app_assoc in Ht.
  - intros c Hc. rewrite Eh. auto.
  - intros Hn. eapply Forall_impl; [by apply i_reading0|]. intros p. by rewrite Eh.
  - intros Hn. apply justified_snoc; auto.
  - apply calm_snoc; [done|]. intros Hs'. apply i_asked0. by apply Hsp.
  - intros H. destruct (Ha H) as [H1 H2]. apply Forall_app. split; [by apply i_asked0|]. by apply Forall_singleton.
Qed.

Lemma served_all e (exs : list Exec) (l : log) :
  Forall (fun x => served l (e_child x) (e_conn x)) exs -> Forall (fun x => served (l ++ [e]) (e_child x) (e_conn x)) exs.
Proof. intros H. eapply Forall_impl; [done|]. intros x. apply served_snoc. Qed.

Lemma inv_silent e loose pen (exs : list Exec) a (l : log) :
  match e with Exited _ _ | Lost _ | Signalled _ KILL => True | _ => False end ->
  inv loose pen exs a l -> inv loose pen exs a (l ++ [e]).
Proof.
  intros He Hi. pose proof Hi as []. eapply inv_event; [done|..]; try done.
  - by destruct e.
  - by destruct e.
  - intros ->. split; [done|]. intros Ht. by destruct e as [|? []| | | | |].
  - intros Hs. by destruct e.
  - intros Hn. apply served_all. auto.
  - apply accounted_snoc; [done|]. by destruct e as [|? []| | | | |].
Qed.

Lemma inv_term ch loose pen (exs : list Exec) a (l : log) :
  inv loose pen exs a l -> inv loose pen exs true (l ++ [Signalled ch TERM]).
Proof.
  intros Hi. pose proof Hi as []. eapply inv_event; [done|..]; try done.
  - intros Hn. apply served_all. auto.
  - by apply accounted_snoc.
Qed.

(** Starting the command, the X server or the window manager. *)
Lemma inv_own ch cmd loose pen (exs : list Exec) (l : log) : stdio cmd = None ->
  inv loose pen exs false l -> inv loose pen exs false (l ++ [Spawned ch cmd]).
Proof.
  intros Hc Hi. pose proof Hi as []. eapply inv_event; [done|..]; try done.
  - intros _. by left.
  - intros _. split; [done|]. by intros [].
  - intros Hn. apply served_all. auto.
  - apply accounted_snoc; [done|by left].
Qed.

Lemma inv_exec ch cmd c loose pen (exs : list Exec) (l : log) : (NoDup (accepted l) -> requested l c cmd) ->
  inv (c :: loose) pen exs false l -> inv loose pen (exs ++ [mkExec ch c]) false (l ++ [Spawned ch cmd]).
Proof.
  intros Hr Hi. pose proof Hi as []. eapply inv_event; [done|..]; try done.
  - intros Hn. right. exists c. auto.
  - intros _. split; [done|]. by intros [].
  - rewrite map_app. cbn. apply Permutation_submseteq. solve_Permutation.
  - intros Hn. apply Forall_app. split; [apply served_all; auto|]. apply Forall_singleton. exists l, cmd, []. auto.
  - rewrite map_app. apply accounted_snoc; [|right; cbn; set_solver].
    intros ch' cmd' H1 H2. destruct (i_accounted0 ch' cmd' H1 H2) as [?|?]; [left; set_solver|by right].
Qed.

Lemma inv_sent c b loose pen (exs : list Exec) a (l : log) : (NoDup (accepted l) -> just l (Sent c b)) ->
  inv (c :: loose) pen exs a l -> inv loose pen exs a (l ++ [Sent c b]).
Proof.
  intros Hj []. assert (accepted (l ++ [Sent c b]) = accepted l) as Ea by (rewrite accepted_app; apply app_nil_r).
  assert (forall c', heard c' (l ++ [Sent c b]) = heard c' l) as Eh by (intros c'; rewrite heard_app; apply app_nil_r).
  split; rewrite ?Ea; auto.
  - etrans; [|apply i_tokens0]. rewrite answered_app. cbn. apply Permutation_submseteq. solve_Permutation.
  - intros c' Hc. rewrite Eh. auto.
  - intros Hn. eapply Forall_impl; [by apply i_reading0|]. intros p. by rewrite Eh.
  - intros Hn. apply served_all. auto.
  - intros Hn. apply justified_snoc; auto.
  - by apply calm_snoc; [|intros []].
  - intros Ha. apply Forall_app. split; [by apply i_asked0|]. apply Forall_singleton. by intros [].
  - by apply accounted_snoc.
Qed.

(** A new connection: before it nothing was heard on it. *)
Lemma inv_accepted c loose pen (exs : list Exec) a (l : log) :
  inv loose pen exs a l -> inv (c :: loose) pen exs a (l ++ [Accepted c]).
Proof.
  intros [].
  assert (forall c', heard c' (l ++ [Accepted c]) = heard c' l) as Eh by (intros c'; rewrite heard_app; apply app_nil_r).
  assert (NoDup (accepted (l ++ [Accepted c])) -> NoDup (accepted l)) as Hnd by (rewrite accepted_app; by intros [? _]%NoDup_app).
  split.
  - rewrite accepted_app, answered_app. cbn. rewrite app_nil_r. etrans; [by apply submseteq_skip|].
    apply Permutation_submseteq. apply Permutation_cons_append.
  - intros c' Hc. rewrite Eh. apply i_unheard0. intros H. apply Hc. rewrite accepted_app. set_solver.
  - intros Hn. eapply Forall_impl; [by apply i_reading0, Hnd|]. intros p. by rewrite Eh.
  - intros Hn. apply served_all. auto.
  - intros Hn. apply justified_snoc; auto. done.
  - by apply calm_snoc; [|intros []].
  - intros Ha. apply Forall_app. split; [by apply i_asked0|]. apply Forall_singleton. by intros [].
  - by apply accounted_snoc.
Qed.

(** A connection in hand becomes a pending one, having read what was heard on it. *)
Lemma inv_put c inc d loose pre pen (exs : list Exec) a (l : log) : (NoDup (accepted l) -> incoming inc (heard c l)) ->
  inv (c :: loose) (pre ++ pen) exs a l -> inv loose (pre ++ mkPending c inc d :: pen) exs a l.
Proof.
  intros Hh []. split; auto.
  - etrans; [|apply i_tokens0]. rewrite !map_app. cbn. apply Permutation_submseteq. solve_Permutation.
  - intros Hn. specialize (i_reading0 Hn). rewrite Forall_app in *. rewrite Forall_cons. cbn. naive_solver.
Qed.

(** What is read on a connection concerns nobody else. *)
Definition got (c : conn) (evs : list (bytes * list Z)) : log := map (fun e => Got c e.1 e.2) evs.

Lemma got_logs c evs : accepted (got c evs) = [] /\ answered (got c evs) = [] /\ heard c (got c evs) = evs /\
  (forall c', c' <> c -> heard c' (got c evs) = []) /\ forall P : event -> Prop, (forall b f, P (Got c b f)) -> Forall P (got c evs).
Proof.
  induction evs as [|[b f] evs (IH1 & IH2 & IH3 & IH4 & IH5)]; [split_and!; try done; constructor|].
  unfold accepted, answered, heard, got in *. cbn in *. rewrite decide_True by done. split_and!.
  - done.
  - done.
  - by rewrite IH3.
  - intros c' Hc. rewrite decide_False by done. auto.
  - intros P HP. constructor; auto.
Qed.

Lemma NoDup_part {A} (l k : list A) : l ⊆+ k -> NoDup k -> NoDup l.
Proof. intros (r & ->)%submseteq_Permutation. by intros [? _]%NoDup_app. Qed.

Lemma append_log (P : log -> Prop) l k : P l -> (forall l' e, e ∈ k -> P l' -> P (l' ++ [e])) -> P (l ++ k).
Proof.
  intros Hl Hs. revert l Hl. induction k as [|e k IH]; intros l Hl; [by rewrite app_nil_r|].
  rewrite cons_middle, app_assoc. apply IH; [intros l' e' H; apply Hs; by right|]. apply Hs; [by left|done].
Qed.

Lemma inv_got c evs loose pen (exs : list Exec) a (l : log) :
  inv (c :: loose) pen exs a l -> inv (c :: loose) pen exs a (l ++ got c evs).
Proof.
  intros []. destruct (got_logs c evs) as (Ea & Es & Eh & Eo & Hall).
  assert (forall e, e ∈ got c evs -> exists b f, e = Got c b f) as Hnew by (apply Forall_forall, Hall; eauto).
  assert (c ∈ accepted l) as Hc by (eapply elem_of_submseteq, i_tokens0; by left).
  split; rewrite ?accepted_app, ?answered_app, ?Ea, ?Es, ?app_nil_r; auto.
  - intros c' Hc'. rewrite heard_app, Eo, app_nil_r by (by intros ->). auto.
  - intros Hn. specialize (i_reading0 Hn). rewrite Forall_forall in *. intros p Hp. rewrite heard_app, Eo, app_nil_r; [auto|].
    intros Ec. apply NoDup_part in i_tokens0; [|done]. apply NoDup_cons in i_tokens0 as [Hx _]. apply Hx.
    rewrite !elem_of_app. right. left. apply list_elem_of_fmap. by exists p.
  - intros Hn. specialize (i_execs0 Hn). rewrite Forall_forall in *. intros x Hx. apply append_log; [auto|].
    intros l' e _. apply served_snoc.
  - intros Hn. apply append_log; [auto|]. intros l' e (b & f & ->)%Hnew. intros. by apply justified_snoc.
  - apply append_log; [done|]. intros l' e (b & f & ->)%Hnew. intros. by apply calm_snoc; [|intros []].
  - intros Ha. apply Forall_app. split; [by apply i_asked0|]. apply Hall. by intros b f [].
  - apply append_log; [done|]. intros l' e (b & f & ->)%Hnew. intros. by apply accounted_snoc.
Qed.
End Invariant.

(** ** What the operations do to the log *)

Section Triples.
Context {W child conn : Type} `{EqDecision conn} `{Sup W child conn}.
Context (conn_laws : forall c : conn, @StreamLaws W (@conn_stream W (conn_of c))).
Notation event := (event child conn).
Notation log := (list event).
Notation Exec := (Exec child conn).
Notation Pending := (Pending conn).
Notation M := (M (W * log)).
#[local] Instance watched_sup : Sup (W * log) child conn := watched_by.

Lemma t_signal loose pen (exs : list Exec) a ch sig :
  triple (inv loose pen exs a) (act (kill_process ch sig))
    (fun _ => inv loose pen exs (match sig with TERM => true | KILL => a end)).
Proof.
  intros w l u w' l' Hi [= <- <- <-]. destruct sig; [by eapply inv_term|by apply inv_silent].
Qed.

Lemma t_signal_execs loose pen (exs : list Exec) a es sig : match sig with TERM => a = true | KILL => True end ->
  triple (inv loose pen exs a) (signal_execs es sig) (fun _ => inv loose pen exs a).
Proof.
  intros Hs. induction es as [|e es IH]; cbn [signal_execs]; [by apply t_done|].
  eapply t_bind; [apply t_signal|]. intros ?. cbn beta. destruct sig; [|exact IH]. cbn in Hs. rewrite Hs in IH |- *. exact IH.
Qed.

(** Waiting for a child: what it leaves, and that nothing else changes. *)
Lemma t_try_wait loose pen (exs : list Exec) a ch :
  triple (inv loose pen exs a) (eff (try_wait ch)) (fun r l => inv loose pen exs a l /\
    match r with Ok None => True | Ok (Some st) => Exited ch st ∈ l | Err _ => Lost ch ∈ l end).
Proof.
  eapply t_post; [|apply t_recorded]. intros r l (l0 & Hi & ->). destruct r as [[st|]|e]; cbn [outcome].
  - split; [by apply inv_silent|]. set_solver.
  - by rewrite app_nil_r.
  - split; [by apply inv_silent|]. set_solver.
Qed.

Lemma t_wait loose pen (exs : list Exec) a ch :
  triple (inv loose pen exs a) (eff (wait ch)) (fun r l => inv loose pen exs a l /\
    match r with Ok st => Exited ch st ∈ l | Err _ => Lost ch ∈ l end).
Proof.
  eapply t_post; [|apply t_recorded]. intros r l (l0 & Hi & ->). destruct r as [st|e].
  - split; [by apply inv_silent|]. set_solver.
  - split; [by apply inv_silent|]. set_solver.
Qed.

Lemma t_answer c status loose pen (exs : list Exec) a :
  triple (fun l => inv (c :: loose) pen exs a l /\ (NoDup (accepted l) -> just l (Sent c (Proto.encode_status status))))
    (answer c status) (fun _ => inv loose pen exs a).
Proof.
  intros w l u w' l' [Hi Hj]. unfold answer, send_status. cbn. destruct (send_all _ w) as [r w1]. intros [= <- <- <-]. by apply inv_sent.
Qed.

(** A child that has gone: its connection is answered, or dropped with it. *)
Lemma t_resolve e loose pen pre (exs : list Exec) a status :
  triple (fun l => inv loose pen (pre ++ e :: exs) a l /\ Exited (e_child e) status ∈ l)
    (answer (e_conn e) status) (fun _ => inv loose pen (pre ++ exs) a).
Proof.
  eapply t_pre; [|apply t_answer]. intros l [Hi He]. split; [apply inv_gone; [done|left; by exists status]|].
  intros Hn. right. exists (e_child e), status. split_and!; [done|done|].
  apply (i_execs _ _ _ _ _ Hi), Forall_app in Hn as [_ [Hn _]%Forall_cons]. done.
Qed.

Lemma inv_lost e loose pen pre (exs : list Exec) a (l : log) :
  inv loose pen (pre ++ e :: exs) a l -> Lost (e_child e) ∈ l -> inv loose pen (pre ++ exs) a l.
Proof. intros Hi Hl. eapply inv_drop, inv_gone; [done|by right]. Qed.

Lemma t_reap loose pen pre (exs : list Exec) a :
  triple (inv loose pen (pre ++ exs) a) (reap exs) (fun exs' => inv loose pen (pre ++ exs') a).
Proof.
  revert pre. induction exs as [|e exs IH]; intros pre; cbn [reap]; [by apply t_done|].
  eapply t_bind; [apply t_try_wait|]. intros [[status|]|err]; cbn beta iota.
  - eapply t_bind; [apply t_resolve|]. intros ?. apply IH.
  - eapply t_bind; [eapply t_pre; [|apply (IH (pre ++ [e]))]|].
    + intros l [Hi _]. by rewrite <-app_assoc.
    + intros kept. apply t_done. intros l. by rewrite <-app_assoc.
  - eapply t_pre; [|apply IH]. intros l [Hi Hl]. by eapply inv_lost.
Qed.

Lemma t_wait_all loose pen (exs : list Exec) a :
  triple (inv loose pen exs a) (wait_all exs) (fun _ => inv loose pen [] a).
Proof.
  induction exs as [|e exs IH]; cbn [wait_all]; [by apply t_done|].
  eapply t_bind; [apply t_wait|]. intros [status|err]; cbn beta iota.
  - eapply t_bind; [apply (t_resolve e loose pen [] exs)|]. intros ?. apply IH.
  - eapply t_bind; [|intros ?; apply IH]. apply t_done. intros l [Hi Hl]. by eapply (inv_lost e _ _ []).
Qed.

Lemma inv_asked loose pen (exs : list Exec) a (l : log) : inv loose pen exs a l -> inv loose pen exs true l.
Proof. intros []. by split. Qed.

Lemma t_begin_stop command loose pen (exs : list Exec) a st :
  triple (inv loose pen exs a) (begin_stop command exs st) (fun st' l => inv loose pen exs true l /\ asked st' = true).
Proof.
  eapply t_bind; [apply t_signal|]. intros ?. eapply t_bind; [by apply t_signal_execs|]. intros ?.
  eapply t_bind; [apply t_quiet|]. intros now. by apply t_done.
Qed.

Lemma t_shutdown_loop fuel deadline loose pen (exs : list Exec) a :
  triple (inv loose pen exs a) (shutdown_loop fuel deadline exs) (fun exs' => inv loose pen exs' a).
Proof.
  revert exs. induction fuel as [|fuel IH]; intros [|e exs]; cbn [shutdown_loop]; try by apply t_done.
  - eapply t_bind; [apply t_quiet|]. intros now. destruct (now <? deadline); [apply t_fuel|by apply t_done].
  - eapply t_bind; [apply t_quiet|]. intros now. destruct (now <? deadline); [|by apply t_done].
    eapply t_bind; [apply t_quietly|]. intros ?. eapply t_bind; [apply (t_reap loose pen [] (e :: exs))|]. intros exs'. apply IH.
Qed.

Lemma t_shutdown loose pen (exs : list Exec) a :
  triple (inv loose pen exs a) (shutdown exs) (fun _ => inv loose pen [] true).
Proof.
  unfold shutdown. eapply t_pre; [apply inv_asked|]. case_bool_decide as Hb.
  - apply t_done. apply length_zero_iff_nil in Hb as ->. done.
  - eapply t_bind; [by apply t_signal_execs|]. intros ?. eapply t_bind; [apply t_quiet|]. intros now.
    eapply t_bind; [apply t_shutdown_loop|]. intros exs'. eapply t_bind; [by apply t_signal_execs|]. intros ?. apply t_wait_all.
Qed.

Lemma t_stop_loop fuel deadline c loose pen (exs : list Exec) a :
  triple (inv loose pen exs a) (stop_loop fuel deadline c) (fun _ => inv loose pen exs a).
Proof.
  induction fuel as [|fuel IH]; cbn [stop_loop]; (eapply t_bind; [apply t_quiet|]; intros now);
    (destruct (now <? deadline); [|by apply t_done]); [apply t_fuel|].
  eapply t_bind; [apply t_try_wait|]. intros [[st|]|e]; [by apply t_done; intros l [Hi _]| |by apply t_done; intros l [Hi _]].
  eapply t_bind; [apply t_quietly|]. intros ?. eapply t_pre; [|apply IH]. by intros l [Hi _].
Qed.

Lemma t_stop_child c loose pen (exs : list Exec) :
  triple (inv loose pen exs true) (stop_child c) (fun _ => inv loose pen exs true).
Proof.
  eapply t_bind; [apply t_signal|]. intros ?. eapply t_bind; [apply t_quiet|]. intros now.
  eapply t_bind; [apply t_stop_loop|]. intros [|]; [by apply t_done|].
  eapply t_bind; [|intros ?; eapply t_bind; [apply t_wait|]; intros ?; by apply t_done; intros l [Hi _]].
  intros w l u w' l' Hi [= <- <- <-]. by apply inv_silent.
Qed.

Lemma t_stop_x11 x loose pen (exs : list Exec) :
  triple (inv loose pen exs true) (stop_x11 x) (fun _ => inv loose pen exs true).
Proof.
  destruct x as [x|]; [|by apply t_done]. unfold stop_x11.
  eapply (t_bind _ _ (fun _ => inv loose pen exs true)); [|intros ?]; [destruct (wm_child x)|destruct (server x)];
    try apply t_stop_child; by apply t_done.
Qed.

Lemma t_refuse c report why loose pen (exs : list Exec) a :
  triple (inv (c :: loose) pen exs a) (refuse c report why) (fun _ => inv loose pen exs a).
Proof.
  eapply (t_bind _ _ (fun _ => inv (c :: loose) pen exs a)).
  - destruct report; [apply t_quietly|by apply t_done].
  - intros ?. eapply t_pre; [|apply t_answer]. intros l Hi. split; [done|]. intros _. by left.
Qed.

Lemma t_serve c req fds loose pen (exs : list Exec) display a :
  triple (fun l => inv (c :: loose) pen exs a l /\ (NoDup (accepted l) -> whole_request (heard c l) req fds))
    (serve c req fds exs display a) (fun exs' => inv loose pen exs' a).
Proof.
  unfold serve. destruct (Proto.argv req) as [|program rest] eqn:Ea.
  { apply t_done. intros l [Hi _]. by eapply inv_drop. }
  destruct fds as [|stdin [|stdout [|stderr fds]]]; try (apply t_done; intros l [Hi _]; by eapply inv_drop).
  eapply t_bind; [apply t_quiet|]. intros report. destruct a.
  { eapply t_bind; [eapply t_pre; [|apply t_refuse]; by intros l [Hi _]|]. intros ?. by apply t_done. }
  set (P := fun l : log => _).
  eapply (t_bind _ _ (fun terminal l => P l /\ (terminal = true -> Proto.ctty req = true))).
  { destruct (Proto.ctty req); [eapply t_post; [|apply t_quiet]; by intros|by apply t_done]. }
  intros terminal. eapply t_bind; [apply t_recorded|]. intros [ch|err].
  - apply t_done. intros l (l0 & [[Hi Hw] Ht] & ->). apply inv_exec; [|done]. intros Hn. specialize (Hw Hn).
    assert (fds = []) as ->.
    { destruct Hw as (_ & _ & _ & _ & _ & Hl). unfold REQUEST_FDS in Hl. destruct fds; [done|]. pose proof (len_nonneg fds).
      rewrite !len_cons in Hl. lia. }
    exists req, stdin, stdout, stderr. split_and!; try done.
    eapply elem_of_submseteq; [|apply (i_tokens _ _ _ _ _ Hi)]. by left.
  - eapply t_bind; [eapply t_pre; [|apply t_refuse]|].
    + intros l (l0 & [[Hi Hw] Ht] & ->). by rewrite app_nil_r.
    + intros ?. by apply t_done.
Qed.

(** Reading on a connection is what [InitExec] says of it. *)
Lemma read_prefix_heard c s (w : W) (l : log) r s' w' l' :
  @Incoming.read_prefix _ (@conn_stream _ (conn_log c)) s (w, l) = (r, s', (w', l')) ->
  exists evs, l' = l ++ got c evs /\ forall l0,
    @Incoming.read_prefix _ (@logged W (@conn_stream W (conn_of c))) s (w, l0) = (r, s', (w', l0 ++ evs)).
Proof.
  unfold Incoming.read_prefix, recv at 1. cbn. intros E.
  destruct (recv _ w) as [[[b f]|e] w1]; [exists [(b, f)]|exists []]; revert E.
  - destruct (len b =? 0); [by intros [= <- <- <- <-]|]. destruct (_ <? 4); [by intros [= <- <- <- <-]|].
    destruct (negb _); [by intros [= <- <- <- <-]|]. destruct (_ >? _); by intros [= <- <- <- <-].
  - intros [= <- <- <- <-]. split; [done|]. intros l0. by rewrite app_nil_r.
Qed.

Lemma read_loop_heard c fuel s (w : W) (l : log) r s' w' l' :
  @Incoming.read_loop _ (@conn_stream _ (conn_log c)) fuel s (w, l) = Some (r, s', (w', l')) ->
  exists evs, l' = l ++ got c evs /\ forall l0,
    @Incoming.read_loop _ (@logged W (@conn_stream W (conn_of c))) fuel s (w, l0) = Some (r, s', (w', l0 ++ evs)).
Proof.
  revert s w l. induction fuel as [|fuel IH]; intros s w l; cbn [Incoming.read_loop]; [done|].
  destruct (Incoming.want s) as [n|].
  - destruct (_ <? n).
    + cbn [sread conn_stream conn_log logged]. unfold recorded, Io.noted. destruct (sread _ w) as [[b|e] w1].
      * destruct (len b =? 0).
        { intros [= <- <- <- <-]. exists [(b, [])]. done. }
        intros (evs & -> & Hl)%IH. exists ((b, []) :: evs). split; [by rewrite <-app_assoc|].
        intros l0. rewrite Hl, <-app_assoc. done.
      * intros [= <- <- <- <-]. exists []. split; [by rewrite !app_nil_r|]. intros l0. by rewrite !app_nil_r.
    + destruct (Proto.decode_request _); intros [= <- <- <- <-]; exists []; (split; [by rewrite !app_nil_r|]; intros l0; by rewrite !app_nil_r).
  - destruct (Incoming.read_prefix s (w, l)) as [[r1 s1] [w1 l1]] eqn:E. apply read_prefix_heard in E as (evs & -> & Hp).
    destruct r1 as [[|]|e].
    + intros (evs' & -> & Hl)%IH. exists (evs ++ evs'). split; [unfold got; by rewrite map_app, app_assoc|].
      intros l0. by rewrite Hp, Hl, app_assoc.
    + intros [= <- <- <- <-]. exists evs. split; [done|]. intros l0. by rewrite Hp.
    + intros [= <- <- <- <-]. exists evs. split; [done|]. intros l0. by rewrite Hp.
Qed.

Lemma t_read p loose pre pen (exs : list Exec) a :
  triple (inv loose (pre ++ p :: pen) exs a) (step_of (p_conn p) (p_incoming p)) (fun r l =>
    match r with
    | (Ok None, inc) => inv loose (pre ++ mkPending (p_conn p) inc (p_deadline p) :: pen) exs a l
    | (Ok (Some (req, f)), _) => inv (p_conn p :: loose) (pre ++ pen) exs a l /\
        (NoDup (accepted l) -> whole_request (heard (p_conn p) l) req f)
    | (Err _, _) => inv loose (pre ++ pen) exs a l
    end).
Proof.
  intros w l [r inc] w' l' Hi E. unfold step_of, Incoming.read_step in E. cbn [conn_of watched_sup watched_by] in E.
  apply read_loop_heard in E as (evs & -> & Hl). specialize (Hl (heard (p_conn p) l)).
  destruct (got_logs (child := child) (p_conn p) evs) as (Ea & _ & Eh & _).
  assert (NoDup (accepted (l ++ got (p_conn p) evs)) -> match r with
    | Ok None => incoming inc (heard (p_conn p) (l ++ got (p_conn p) evs))
    | Ok (Some (req, f)) => whole_request (heard (p_conn p) (l ++ got (p_conn p) evs)) req f
    | Err _ => True end) as Hr.
  { rewrite accepted_app, Ea, app_nil_r, heard_app, Eh. intros Hn.
    pose proof (i_reading _ _ _ _ _ Hi Hn) as [_ [Hp _]%Forall_cons]%Forall_app.
    by apply (@loop_spec _ _ (conn_laws (p_conn p)) _ _ _ _ _ _ _ _ Hp) in Hl. }
  apply inv_take, (inv_got _ evs) in Hi. destruct r as [[[req f]|]|e].
  - done.
  - by apply inv_put.
  - by eapply inv_drop.
Qed.

Lemma t_read_pending loose pre pen ready (exs : list Exec) display a :
  triple (inv loose (pre ++ pen) exs a) (read_pending pen ready exs display a)
    (fun r => inv loose (pre ++ r.1) r.2 a).
Proof.
  revert pre ready exs. induction pen as [|p pen IH]; intros pre ready exs; cbn [read_pending]; [by apply t_done|].
  assert (forall p', triple (inv loose (pre ++ p' :: pen) exs a)
    ('(kept, execs) ← read_pending pen (List.tl ready) exs display a; mret (p' :: kept, execs)) (fun r => inv loose (pre ++ r.1) r.2 a)) as Hkeep.
  { intros p'. eapply t_bind; [eapply t_pre; [|apply (IH (pre ++ [p']))]|].
    - intros l. by rewrite <-app_assoc.
    - intros [kept exs']. apply t_done. intros l. cbn. by rewrite <-app_assoc. }
  destruct (negb _); [apply Hkeep|]. eapply t_bind; [apply t_read|].
  intros [[[[req f]|]|e] inc].
  - eapply t_bind; [apply t_serve|]. intros exs'. apply IH.
  - apply Hkeep.
  - apply IH.
Qed.
Lemma t_accept loose pen (exs : list Exec) a :
  triple (inv loose pen exs a) (eff accept) (fun c l => match c with
    | Some c => inv (c :: loose) pen exs a l /\ (NoDup (accepted l) -> heard c l = [])
    | None => inv loose pen exs a l
    end).
Proof.
  eapply t_post; [|apply t_recorded]. intros [c|] l (l0 & Hi & ->); [|by rewrite app_nil_r].
  split; [by apply inv_accepted|]. rewrite accepted_app, heard_app. intros (_ & Hn & _)%NoDup_app.
  rewrite (i_unheard _ _ _ _ _ Hi); [done|]. intros Hc. apply (Hn c Hc). cbn. by left.
Qed.

Lemma t_accept_loop fuel loose pen (exs : list Exec) a :
  triple (inv loose pen exs a) (accept_loop fuel pen) (fun pen' => inv loose pen' exs a).
Proof.
  revert pen. induction fuel as [|fuel IH]; intros pen; cbn [accept_loop]; [apply t_fuel|].
  eapply t_bind; [apply t_accept|]. intros [c|]; [|by apply t_done].
  eapply t_bind; [apply t_quiet|]. intros [u|e].
  - eapply t_bind; [apply t_quiet|]. intros now. eapply t_pre; [|apply IH]. intros l [Hi Hh]. cbn beta in Hi.
    apply inv_put; [intros Hn; rewrite (Hh Hn); apply incoming_new|]. rewrite app_nil_r.
    eapply inv_retain; [|exact Hi]. destruct (_ >=? _); [|done]. destruct pen; [done|]. by apply sublist_cons.
  - eapply t_pre; [|apply IH]. intros l [Hi _]. by eapply inv_drop.
Qed.

(** Starting something of the supervisor's own. *)
Lemma t_own cmd loose pen (exs : list Exec) : stdio cmd = None ->
  triple (inv loose pen exs false) (eff (spawn cmd)) (fun _ => inv loose pen exs false).
Proof.
  intros Hc. eapply t_post; [|apply t_recorded]. intros [ch|e] l (l0 & Hi & ->); [by apply inv_own|by rewrite app_nil_r].
Qed.

Lemma t_start_x11 x loose pen (exs : list Exec) :
  triple (inv loose pen exs false) (start_x11 x) (fun _ => inv loose pen exs false).
Proof.
  unfold start_x11. destruct (x_argv x); [by apply t_done|].
  eapply t_bind; [apply t_quiet|]. intros [fd|e]; [|by apply t_done].
  eapply t_bind; [apply t_quiet|]. intros [u|e]; [|by apply t_done].
  eapply t_bind; [by apply t_own|]. intros [ch|e]; by apply t_done.
Qed.

Lemma t_start_wm x loose pen (exs : list Exec) :
  triple (inv loose pen exs false) (start_wm x) (fun _ => inv loose pen exs false).
Proof.
  unfold start_wm. destruct (x_wm x); [|by apply t_done].
  eapply t_bind; [by apply t_own|]. intros [ch|e]; [by apply t_done|].
  eapply t_bind; [apply t_quietly|]. intros ?. by apply t_done.
Qed.

(** *** The loop *)

Notation State := (State child conn).
Definition sinv (s : State) : log -> Prop := inv [] (pending s) (execs s) (asked (stopping s)).

Lemma t_stop s : triple (sinv s) (stop s) sinv.
Proof.
  eapply t_bind; [apply t_begin_stop|]. intros st. apply t_done. intros l [Hi Ha]. unfold sinv. cbn. by rewrite Ha.
Qed.

Lemma t_gone P c what : (forall ch, triple P (eff (try_wait ch)) (fun _ => P)) -> triple P (gone c what) (fun _ => P).
Proof.
  intros Hw. destruct c as [c|]; [|by apply t_done]. unfold gone, has_exited. eapply t_bind; [apply Hw|].
  intros [[st|]|e]; try by apply t_done. eapply t_bind; [apply t_quietly|]. intros ?. by apply t_done.
Qed.

Lemma t_poke s ch : triple (sinv s) (eff (try_wait ch)) (fun _ => sinv s).
Proof. eapply t_post; [|apply t_try_wait]. by intros r l [Hi _]. Qed.

Lemma t_check_server s : triple (sinv s) (check_server s) sinv.
Proof.
  unfold check_server. destruct (x11 s) as [x|]; [|by apply t_done].
  eapply t_bind; [apply t_gone, t_poke|]. intros [|]; [|by apply t_done].
  eapply t_bind; [apply t_quietly|]. intros ?. eapply t_bind; [apply t_stop|]. intros s'. by apply t_done.
Qed.

Lemma t_check_wm s : triple (sinv s) (check_wm s) sinv.
Proof.
  unfold check_wm. destruct (x11 s) as [x|]; [|by apply t_done].
  eapply t_bind; [apply t_gone, t_poke|]. intros [|]; [|by apply t_done].
  eapply (t_bind _ _ (fun _ => sinv s)); [destruct (x_wm x); [apply t_quietly|by apply t_done]|]. intros ?. by apply t_done.
Qed.

Lemma t_reap_execs s : triple (sinv s) (reap_execs s) sinv.
Proof. eapply t_bind; [apply (t_reap _ _ [])|]. intros e. by apply t_done. Qed.

Lemma t_check_kill s : triple (sinv s) (check_kill s) sinv.
Proof.
  unfold check_kill. destruct (kill_at (stopping s)) as [t|]; [|by apply t_done].
  eapply t_bind; [apply t_quiet|]. intros now. destruct (t <=? now); [|by apply t_done].
  eapply t_bind; [apply t_signal|]. intros ?. eapply t_bind; [by apply t_signal_execs|]. intros ?. by apply t_done.
Qed.

Lemma t_before_poll s : triple (sinv s) (before_poll s) sinv.
Proof.
  eapply t_bind; [apply t_check_server|]. intros s1. eapply t_bind; [apply t_check_wm|]. intros s2.
  eapply t_bind; [apply t_reap_execs|]. intros s3. apply t_check_kill.
Qed.

Lemma t_wake_x11 s : triple (sinv s) (wake_x11 s) sinv.
Proof.
  unfold wake_x11. destruct (x11 s) as [x|]; [|by apply t_done]. unfold sinv at 1.
  destruct (asked (stopping s)) eqn:Ea; [apply t_done; unfold sinv; by rewrite Ea|].
  eapply t_bind; [apply t_start_x11|]. intros [x'|reason].
  - eapply t_bind; [apply t_start_wm|]. intros x2. apply t_done. unfold sinv. cbn. by rewrite Ea.
  - eapply t_bind; [apply t_quietly|]. intros ?. eapply t_pre; [|apply t_stop]. unfold sinv. cbn. by rewrite Ea.
Qed.

Lemma t_read_ready ready s : triple (sinv s) (read_ready ready s) sinv.
Proof. eapply t_bind; [apply (t_read_pending [] [])|]. intros [p e]. by apply t_done. Qed.

Lemma t_expire_pending s : triple (sinv s) (expire_pending s) sinv.
Proof.
  eapply t_bind; [apply t_quiet|]. intros now. apply t_done. intros l. apply inv_retain. apply sublist_filter.
Qed.

Lemma t_accept_new accepts s : triple (sinv s) (accept_new accepts s) sinv.
Proof. eapply t_bind; [apply t_accept_loop|]. intros p. by apply t_done. Qed.

Lemma t_after_poll accepts x_slot polled revents s : triple (sinv s) (after_poll accepts x_slot polled revents s) sinv.
Proof.
  unfold after_poll. eapply t_bind; [apply t_quiet|]. intros b.
  eapply (t_bind _ _ sinv); [destruct b; [apply t_stop|by apply t_done]|]. intros s1.
  destruct polled as [n|e]; [|eapply t_bind; [apply t_quietly|]; intros ?; by apply t_done].
  eapply (t_bind _ _ sinv); [destruct (_ && _); [apply t_wake_x11|by apply t_done]|]. intros s2.
  eapply t_bind; [apply t_read_ready|]. intros s3. eapply t_bind; [apply t_expire_pending|]. intros s4.
  destruct (contains _ _); [apply t_accept_new|by apply t_done].
Qed.

(** The log a run may leave: what holds while it goes on, and at its end. *)
Definition outcome_inv (r : State + Z) (l : log) : Prop :=
  match r with inl s => sinv s l | inr _ => exists pen, inv [] pen [] true l end.

Lemma t_tick accepts s : triple (sinv s) (tick accepts s) outcome_inv.
Proof.
  unfold tick. eapply t_bind; [apply t_poke|].
  assert (triple (sinv s) (s0 ← before_poll s; '(polled, revents) ← eff (poll (poll_set s0) TICK);
    s1 ← after_poll accepts (waking s0) polled revents s0; mret (inl s1)) outcome_inv) as Hon.
  { eapply t_bind; [apply t_before_poll|]. intros s1. eapply t_bind; [apply t_quiet|]. intros [polled revents].
    eapply t_bind; [apply t_after_poll|]. intros s2. by apply t_done. }
  intros [[status|]|e]; [|exact Hon|exact Hon].
  eapply t_bind; [apply (t_reap _ _ [])|]. intros es. eapply t_bind; [apply t_shutdown|]. intros ?.
  eapply t_bind; [apply t_stop_x11|]. intros ?. apply t_done. intros l Hi. by exists (pending s).
Qed.

Lemma t_turns accepts n s : triple (sinv s) (turns accepts n s) outcome_inv.
Proof.
  revert s. induction n as [|n IH]; intros s; cbn [turns]; [by apply t_done|].
  eapply t_bind; [apply t_tick|]. intros [s'|code]; [apply IH|by apply t_done].
Qed.

Lemma t_launch a : triple (fun l => l = []) (launch a) outcome_inv.
Proof.
  eapply t_pre; [intros l ->; exact inv_start|]. unfold launch.
  assert (forall l : log, inv [] [] [] false l -> forall code, outcome_inv (inr code) l) as Hend.
  { intros l Hi code. exists []. by eapply inv_asked. }
  destruct (Args.command a) as [|program rest].
  { eapply t_bind; [apply t_quietly|]. intros ?. apply t_done. eauto. }
  eapply (t_bind _ _ (fun _ => inv [] [] [] false)).
  { destruct (Args.x11 a); [|by apply t_done]. eapply t_bind; [apply t_quiet|]. intros [u|e]; [by apply t_done|].
    eapply t_bind; [apply t_quietly|]. intros ?. by apply t_done. }
  intros [x|code]; [|apply t_done; eauto].
  eapply (t_bind _ _ (fun _ => inv [] [] [] false)); [destruct (Args.ctty a); [apply t_quiet|by apply t_done]|].
  intros terminal. eapply t_bind; [by apply t_own|]. intros [ch|e]; [by apply t_done|].
  eapply t_bind; [apply t_quietly|]. intros ?. eapply t_bind; [eapply t_pre; [|apply t_stop_x11]; by apply inv_asked|].
  intros ?. apply t_done. intros l Hi. by exists [].
Qed.

Lemma t_run accepts n a : triple (fun l => l = []) (run accepts n a) outcome_inv.
Proof.
  eapply t_bind; [apply t_launch|]. intros [s|code]; [apply t_turns|by apply t_done].
Qed.
End Triples.

(** ** The supervisor returns *)

(** [clock] is the time of a world: the clock does not go back, and a sleep is as long
    as asked for. *)
Class SupLaws (W child conn : Type) `{Sup W child conn} (clock : W -> Z) := {
  instant_clock w t w' : instant w = (t, w') -> clock w <= t <= clock w';
  pause_clock d w : clock w + d <= clock (pause d w);
  try_wait_clock ch w r w' : try_wait ch w = (r, w') -> clock w <= clock w';
  send_all_clock c b w r w' : @send_all W (conn_of c) b w = (r, w') -> clock w <= clock w';
}.

(** Connections come in as fast as [while let Ok(..) = listener.accept()] takes them:
    from [w] on it is handed [k] in a row. *)
Fixpoint floods {W child conn} `{Sup W child conn} (k : nat) (w : W) : Prop :=
  match k with
  | O => True
  | S k =>
    match accept w with
    | (None, _) => False
    | (Some c, w) =>
      match set_nonblocking c w with
      | (Ok _, w) => floods k (instant w).2
      | (Err _, w) => floods k w
      end
    end
  end.

(** The same machine with nobody connecting: its turn is the turn up to the accept
    loop. *)
Definition deaf {W child conn} (sup : Sup W child conn) : Sup W child conn := {|
  instant := instant; pause := pause; stop_swap := stop_swap; spawn := spawn; try_wait := try_wait; wait := wait;
  kill_process := kill_process; child_kill := child_kill; isatty := isatty; try_clone := try_clone;
  write_to_fd := write_to_fd; eprintln := eprintln; bind_x11 := bind_x11; dup_display := dup_display;
  pass_on := pass_on; poll := poll; accept w := (None, w); set_nonblocking := set_nonblocking; conn_of := conn_of |}.

Section Returns.
Context {W child conn : Type} `{HS : Sup W child conn} {clock : W -> Z}.
Context `{!SupLaws W child conn clock}.
Notation Exec := (Exec child conn).
Notation Pending := (Pending conn).
Notation State := (State child conn).

Lemma r_answer c status : returns (answer c status) (fun _ => True).
Proof. intros w. unfold answer. by do 2 eexists. Qed.

(** Time does not go back while the children are asked after. *)
Lemma reap_returns (exs : list Exec) w : exists exs' w', reap exs w = Some (exs', w') /\ clock w <= clock w'.
Proof.
  revert w. induction exs as [|e exs IH]; intros w; cbn [reap]; [exists [], w; split; [done|lia]|].
  unfold mbind, M_bind, eff. destruct (try_wait (e_child e) w) as [r w1] eqn:E. apply try_wait_clock in E.
  destruct r as [[status|]|err].
  - unfold answer, send_status. destruct (send_all _ w1) as [r2 w2] eqn:E2. apply send_all_clock in E2. cbn [snd].
    destruct (IH w2) as (exs' & w' & -> & Hc). exists exs', w'. split; [done|lia].
  - destruct (IH w1) as (exs' & w' & -> & Hc). exists (e :: exs'), w'. split; [done|lia].
  - destruct (IH w1) as (exs' & w' & -> & Hc). exists exs', w'. split; [done|lia].
Qed.

Lemma r_reap (exs : list Exec) : returns (reap exs) (fun _ => True).
Proof. intros w. destruct (reap_returns exs w) as (a & w' & E & _). eauto. Qed.

Lemma shutdown_loop_returns fuel deadline (exs : list Exec) w : deadline <= clock w + Z.of_nat fuel * TICK ->
  exists exs' w', shutdown_loop fuel deadline exs w = Some (exs', w').
Proof.
  revert exs w. induction fuel as [|fuel IH]; intros [|e exs] w Hd; cbn [shutdown_loop]; try by do 2 eexists.
  - unfold mbind, M_bind, eff. destruct (instant w) as [now w1] eqn:E. apply instant_clock in E.
    destruct (Z.ltb_spec now deadline); [lia|by do 2 eexists].
  - unfold mbind, M_bind, eff. destruct (instant w) as [now w1] eqn:E. apply instant_clock in E.
    destruct (now <? deadline); [|by do 2 eexists]. unfold act. pose proof (pause_clock TICK w1) as Hp.
    destruct (reap_returns (e :: exs) (pause TICK w1)) as (exs' & w' & Er & Hc). cbn [reap] in Er |- *. rewrite Er.
    apply IH. lia.
Qed.

Lemma grace_turns : GRACE <= Z.of_nat SHUTDOWN_TURNS * TICK.
Proof. by_decide. Qed.

Lemma signal_execs_returns (exs : list Exec) sig : returns (signal_execs exs sig) (fun _ => True).
Proof.
  induction exs as [|e exs IH]; cbn [signal_execs]; [by apply r_ret|]. eapply r_bind; [apply r_act|]. by intros ? _.
Qed.

Lemma wait_all_returns (exs : list Exec) : returns (wait_all exs) (fun _ => True).
Proof.
  induction exs as [|e exs IH]; cbn [wait_all]; [by apply r_ret|]. eapply r_bind; [apply r_eff|]. intros r _.
  eapply r_bind; [|by intros ? _]. destruct r; [apply r_answer|by apply r_ret].
Qed.

Lemma r_shutdown (exs : list Exec) : returns (shutdown exs) (fun _ => True).
Proof.
  unfold shutdown. case_bool_decide; [by apply r_ret|]. eapply r_bind; [apply signal_execs_returns|]. intros ? _ w.
  unfold mbind at 1, M_bind, eff. destruct (instant w) as [now w1] eqn:E. apply instant_clock in E.
  destruct (shutdown_loop_returns SHUTDOWN_TURNS (now + GRACE) exs w1) as (exs' & w2 & Es); [pose proof grace_turns; lia|].
  unfold mbind at 1, M_bind. rewrite Es. revert w2 Es. clear. intros w2 _.
  apply (r_bind _ (fun _ => True)); [apply signal_execs_returns|]. intros ? _. apply wait_all_returns.
Qed.

Lemma stop_loop_returns fuel deadline c w : deadline <= clock w + Z.of_nat fuel * TICK ->
  exists b w', stop_loop fuel deadline c w = Some (b, w').
Proof.
  revert w. induction fuel as [|fuel IH]; intros w Hd; cbn [stop_loop]; unfold mbind, M_bind, eff;
    destruct (instant w) as [now w1] eqn:E; apply instant_clock in E.
  - destruct (Z.ltb_spec now deadline); [lia|by do 2 eexists].
  - destruct (now <? deadline); [|by do 2 eexists]. destruct (try_wait c w1) as [r w2] eqn:Et. apply try_wait_clock in Et.
    destruct r as [[st|]|e]; [by do 2 eexists| |by do 2 eexists]. unfold act. pose proof (pause_clock TICK w2). apply IH. lia.
Qed.

Lemma r_stop_child c : returns (stop_child c) (fun _ => True).
Proof.
  eapply r_bind; [apply r_act|]. intros ? _ w. unfold mbind at 1, M_bind, eff.
  destruct (instant w) as [now w1] eqn:E. apply instant_clock in E.
  destruct (stop_loop_returns SHUTDOWN_TURNS (now + GRACE) c w1) as (b & w2 & Es); [pose proof grace_turns; lia|].
  unfold mbind at 1, M_bind. rewrite Es. destruct b; [by do 2 eexists|]. apply (r_bind _ (fun _ => True)); [apply r_act|].
  intros ? _. eapply r_bind; [apply r_eff|]. intros ? _. by apply r_ret.
Qed.

Lemma r_stop_x11 x : returns (stop_x11 x) (fun _ => True).
Proof.
  destruct x as [x|]; [|by apply r_ret]. unfold stop_x11.
  eapply (r_bind _ (fun _ => True)); [destruct (wm_child x)|intros ? _; destruct (server x)]; try apply r_stop_child; by apply r_ret.
Qed.
Lemma r_refuse c report why : returns (refuse c report why) (fun _ => True).
Proof.
  eapply (r_bind _ (fun _ => True)); [destruct report; [apply r_act|by apply r_ret]|]. intros ? _. apply r_answer.
Qed.

Lemma r_serve c req fds (exs : list Exec) display a : returns (serve c req fds exs display a) (fun _ => True).
Proof.
  unfold serve. destruct (Proto.argv req) as [|program rest]; [by apply r_ret|].
  destruct fds as [|stdin [|stdout [|stderr fds]]]; try by apply r_ret.
  eapply r_bind; [apply r_eff|]. intros report _. destruct a.
  { eapply r_bind; [apply r_refuse|]. intros ? _. by apply r_ret. }
  eapply (r_bind _ (fun _ => True)); [destruct (Proto.ctty req); [apply r_eff|by apply r_ret]|]. intros terminal _.
  eapply r_bind; [apply r_eff|]. intros [ch|e] _; [by apply r_ret|].
  eapply r_bind; [apply r_refuse|]. intros ? _. by apply r_ret.
Qed.

(** No payload is read before its length is known. *)
Definition fresh (s : Incoming.t) : Prop := Incoming.want s = None -> Incoming.payload s = [].

Lemma read_prefix_fresh `{Stream V} s (w : V) : fresh s -> Incoming.want s = None -> fresh (Incoming.read_prefix s w).1.2.
Proof.
  intros Hs Hn. specialize (Hs Hn). unfold Incoming.read_prefix. destruct (recv _ w) as [[[b f]|e] w1]; [|by intros _].
  destruct (len b =? 0); [by intros _|]. destruct (_ <? 4); [by intros _|]. destruct (negb _); [by intros _|].
  destruct (_ >? _); by intros _.
Qed.

Lemma read_loop_fresh `{Stream V} fuel s (w : V) r s' w' : fresh s -> Incoming.read_loop fuel s w = Some (r, s', w') -> fresh s'.
Proof.
  revert s w. induction fuel as [|fuel IH]; intros s w Hs; cbn [Incoming.read_loop]; [done|].
  destruct (Incoming.want s) as [n|] eqn:En.
  - destruct (_ <? n).
    + destruct (sread _ w) as [[b|e] w1]; [|by intros [= <- <- <-]]. destruct (len b =? 0); [by intros [= <- <- <-]|].
      apply IH. intros Hw. cbn in Hw. congruence.
    + destruct (Proto.decode_request _); intros [= <- <- <-]; [|done]. intros Hw. cbn in Hw. congruence.
  - pose proof (read_prefix_fresh s w Hs En) as Hp. destruct (Incoming.read_prefix s w) as [[[[|]|e] s1] w1]; cbn in Hp;
      [by apply IH|by intros [= <- <- <-]..].
Qed.

Lemma r_read c s : fresh s -> returns (step_of c s) (fun r => fresh r.2).
Proof.
  intros Hs w. unfold step_of. destruct (Incoming.read_step s w) as [[[r s'] w']|] eqn:E.
  - exists (r, s'), w'. split; [done|]. by eapply read_loop_fresh.
  - exfalso. assert (is_Some (@Incoming.read_step _ (@conn_stream _ (conn_of c)) s w)) as [x Hx]; [|congruence].
    apply loop_total. unfold Incoming.fuel. destruct (Incoming.want s) as [n|] eqn:En; [lia|]. by rewrite (Hs En).
Qed.

Lemma r_read_pending (pen : list Pending) ready (exs : list Exec) display a : Forall (fun p => fresh (p_incoming p)) pen ->
  returns (read_pending pen ready exs display a) (fun r => Forall (fun p => fresh (p_incoming p)) r.1 /\ len r.1 <= len pen).
Proof.
  intros Hp. revert ready exs. induction Hp as [|p pen Hp _ IH]; intros ready exs; cbn [read_pending]; [by apply r_ret|].
  assert (forall p', fresh (p_incoming p') -> returns ('(kept, execs) ← read_pending pen (List.tl ready) exs display a; mret (p' :: kept, execs))
    (fun r => Forall (fun p => fresh (p_incoming p)) r.1 /\ len r.1 <= len (p :: pen))) as Hkeep.
  { intros p' Hp'. eapply r_bind; [apply IH|]. intros [kept exs'] [Hk Hl]. apply r_ret. cbn in *. split; [by constructor|]. len_lia. }
  destruct (negb _); [by apply Hkeep|]. eapply r_bind; [by apply r_read|]. intros [[[[req f]|]|e] inc] Hi.
  - eapply r_bind; [apply r_serve|]. intros exs' _. eapply r_post; [|apply IH]. intros r [? ?]. split; [done|len_lia].
  - by apply Hkeep.
  - eapply r_post; [|apply IH]. intros r [? ?]. split; [done|len_lia].
Qed.

(** What holds of the pending connections between two turns. *)
Definition ok (s : State) : Prop := Forall (fun p => fresh (p_incoming p)) (pending s) /\ len (pending s) <= MAX_PENDING.

(** A connection put at the end of the queue, the oldest dropped where it is full. *)
Lemma ok_push (pen : list Pending) c now : Forall (fun p => fresh (p_incoming p)) pen -> len pen <= MAX_PENDING ->
  let pen' := (if len pen >=? MAX_PENDING then List.tl pen else pen) ++ [mkPending c Incoming.new now] in
  Forall (fun p => fresh (p_incoming p)) pen' /\ len pen' <= MAX_PENDING.
Proof.
  intros Hf Hl. cbn zeta. split.
  - apply Forall_app. split; [|by apply Forall_singleton]. destruct (_ >=? _); [|done]. by destruct Hf.
  - rewrite len_app, len_cons. change (len (@nil Pending)) with 0. destruct (Z.geb_spec (len pen) MAX_PENDING); [|unfold MAX_PENDING in *; lia].
    destruct pen; cbn [List.tl] in *; [unfold MAX_PENDING in *; change (len (@nil Pending)) with 0; lia|]. rewrite len_cons in Hl. lia.
Qed.

Lemma accept_loop_returns fuel (pen : list Pending) w :
  Forall (fun p => fresh (p_incoming p)) pen -> len pen <= MAX_PENDING ->
  (exists pen' w', accept_loop fuel pen w = Some (pen', w') /\ Forall (fun p => fresh (p_incoming p)) pen' /\ len pen' <= MAX_PENDING)
  \/ floods fuel w.
Proof.
  revert pen w. induction fuel as [|fuel IH]; intros pen w Hf Hl; cbn [accept_loop floods]; [by right|].
  unfold mbind, M_bind, eff. destruct (accept w) as [[c|] w1]; [|left; by exists pen, w1].
  destruct (set_nonblocking c w1) as [[u|e] w2]; [|by apply IH].
  destruct (instant w2) as [now w3]. cbn [snd]. by apply IH; apply ok_push.
Qed.

Lemma r_stop s : ok s -> returns (stop s) ok.
Proof.
  intros Hs. unfold stop, begin_stop. eapply r_bind; [|intros st _; by apply r_ret].
  eapply (r_bind _ (fun _ => True)); [apply r_act|]. intros ? _. eapply r_bind; [apply signal_execs_returns|]. intros ? _.
  eapply r_bind; [apply r_eff|]. intros now _. by apply (r_ret _ (fun _ => True)).
Qed.

Lemma r_gone c what : returns (gone c what) (fun _ => True).
Proof.
  destruct c as [c|]; [|by apply r_ret]. unfold gone, has_exited. eapply r_bind; [apply r_eff|].
  intros [[st|]|e] _; try by apply r_ret. eapply r_bind; [apply r_act|]. intros ? _. by apply r_ret.
Qed.

Lemma r_before_poll s : ok s -> returns (before_poll s) ok.
Proof.
  intros Hs. unfold before_poll. eapply (r_bind _ ok).
  { unfold check_server. destruct (x11 s) as [x|]; [|by apply r_ret]. eapply r_bind; [apply r_gone|]. intros [|] _; [|by apply r_ret].
    eapply r_bind; [apply r_act|]. intros ? _. eapply r_bind; [by apply r_stop|]. intros s1 H1. by apply r_ret. }
  clear s Hs. intros s Hs. eapply (r_bind _ ok).
  { unfold check_wm. destruct (x11 s) as [x|]; [|by apply r_ret]. eapply r_bind; [apply r_gone|]. intros [|] _; [|by apply r_ret].
    eapply (r_bind _ (fun _ => True)); [destruct (x_wm x); [apply r_act|by apply r_ret]|]. intros ? _. by apply r_ret. }
  clear s Hs. intros s Hs. eapply (r_bind _ ok).
  { eapply r_bind; [apply r_reap|]. intros e _. by apply r_ret. }
  clear s Hs. intros s Hs. unfold check_kill. destruct (kill_at (stopping s)); [|by apply r_ret].
  eapply r_bind; [apply r_eff|]. intros now _. destruct (_ <=? _); [|by apply r_ret].
  eapply r_bind; [apply r_act|]. intros ? _. eapply r_bind; [apply signal_execs_returns|]. intros ? _. by apply r_ret.
Qed.

Lemma r_wake_x11 s : ok s -> returns (wake_x11 s) ok.
Proof.
  intros Hs. unfold wake_x11. destruct (x11 s) as [x|]; [|by apply r_ret]. destruct (asked _); [by apply r_ret|].
  eapply (r_bind _ (fun _ => True)).
  - unfold start_x11. cbn. destruct (x_argv x); [by apply r_ret|]. eapply r_bind; [apply r_eff|]. intros [fd|e] _; [|by apply r_ret].
    eapply r_bind; [apply r_eff|]. intros [u|e] _; [|by apply r_ret]. eapply r_bind; [apply r_eff|]. intros [ch|e] _; by apply r_ret.
  - intros [x'|reason] _.
    + eapply (r_bind _ (fun _ => True)); [|intros x2 _; by apply r_ret]. unfold start_wm. destruct (x_wm x'); [|by apply r_ret].
      eapply r_bind; [apply r_eff|]. intros [ch|e] _; [by apply r_ret|]. eapply r_bind; [apply r_act|]. intros ? _. by apply r_ret.
    + eapply r_bind; [apply r_act|]. intros ? _. by apply r_stop.
Qed.

(** What follows the poll comes to the accept loop with a good state, or ends without
    it; on the deaf machine it ends there. *)
Lemma after_poll_accepts accepts x_slot polled revents s w : ok s -> exists s1 w1 (b : bool), ok s1 /\
  after_poll accepts x_slot polled revents s w = (if b then accept_new accepts s1 w1 else Some (s1, w1)) /\
  @after_poll _ _ _ (deaf HS) 1 x_slot polled revents s w = Some (s1, w1).
Proof.
  intros Hs. unfold after_poll, mbind, M_bind, eff. cbn [stop_swap deaf].
  destruct (stop_swap w) as [b w1].
  assert (returns (if b then stop s else mret s) ok) as Hr by (destruct b; [by apply r_stop|by apply r_ret]).
  destruct (Hr w1) as (s1 & w2 & E & Hs1).
  change (@stop _ _ _ (deaf HS)) with (@stop _ _ _ HS). rewrite E. clear E Hr Hs s w1 b w.
  destruct polled as [n|e]; [|by exists s1, (pause TICK w2), false].
  set (wake := x_slot && _). set (ready := map _ _).
  assert (returns (if wake then wake_x11 s1 else mret s1) ok) as Hr by (destruct wake; [by apply r_wake_x11|by apply r_ret]).
  destruct (Hr w2) as (s2 & w3 & E & Hs2). clear Hr.
  change (@wake_x11 _ _ _ (deaf HS)) with (@wake_x11 _ _ _ HS). rewrite E. clear E Hs1 s1 w2.
  assert (returns (s ← read_ready ready s2; expire_pending s) ok) as Hr.
  { destruct Hs2 as [Hf Hl]. eapply (r_bind _ ok).
    { eapply r_bind; [by apply r_read_pending|]. intros [p e] [Hp Hp']. apply r_ret. split; [done|]. cbn in *. lia. }
    clear s2 Hf Hl. intros s [Hf Hl]. eapply r_bind; [apply r_eff|]. intros now _. apply r_ret. split; cbn.
    - unfold expire. rewrite Forall_forall in *. intros p [_ Hp]%list_elem_of_filter. auto.
    - pose proof (length_filter (fun p : Pending => now < p_deadline p) (pending s)). unfold len, expire in *. lia. }
  destruct (Hr w3) as (s4 & w5 & E & Hs4). clear Hr. revert E. unfold mbind, M_bind.
  change (@read_ready _ _ _ (deaf HS)) with (@read_ready _ _ _ HS). destruct (read_ready ready s2 w3) as [[s3 w4]|]; [|done].
  change (@expire_pending _ _ _ (deaf HS)) with (@expire_pending _ _ _ HS). intros ->.
  exists s4, w5, (contains (List.nth 0 revents no_flags) IN_). split; [done|]. cbn zeta. destruct (contains (List.nth 0 revents no_flags) IN_); [|done].
  split; [done|]. unfold accept_new, mbind, M_bind. cbn. by destruct s4.
Qed.

Lemma code_of_range status : 0 <= code_of status <= U8_MAX.
Proof.
  unfold code_of, exit_code, exit_signal, U8_MAX. destruct (_ =? 0).
  - set (c := Z.land _ 255). assert (0 <= c) by (apply Z.land_nonneg; lia). destruct (Z.leb_spec c 255); lia.
  - destruct ((0 <? Z.land status 127) && _) eqn:E; [|vm_compute; done]. bool_to_prop. case_match; lia.
Qed.

Definition outcome_ok (r : State + Z) : Prop :=
  match r with inl s => ok s | inr code => 0 <= code <= U8_MAX end.

(** A turn ends, unless its accept loop is kept busy. *)
Lemma tick_returns accepts s w : ok s ->
  (exists r w', tick accepts s w = Some (r, w') /\ outcome_ok r) \/
  (exists s1 w1, @tick _ _ _ (deaf HS) 1 s w = Some (inl s1, w1) /\ floods accepts w1).
Proof.
  intros Hs. unfold tick, mbind, M_bind, eff. cbn [try_wait deaf].
  destruct (try_wait (command s) w) as [r w1].
  assert ((exists r w', (s0 ← before_poll s; '(polled, revents) ← eff (poll (poll_set s0) TICK);
      s1 ← after_poll accepts (waking s0) polled revents s0; mret (inl s1)) w1 = Some (r, w') /\ outcome_ok r) \/
    (exists s1 w', (s0 ← before_poll s; '(polled, revents) ← eff (poll (poll_set s0) TICK);
      s1 ← @after_poll _ _ _ (deaf HS) 1 (waking s0) polled revents s0; mret (inl (B := Z) s1)) w1 = Some (inl s1, w')
      /\ floods accepts w')) as Hon.
  { destruct (r_before_poll s Hs w1) as (s0 & w2 & E & Hs0). unfold mbind, M_bind, eff. rewrite E.
    destruct (poll (poll_set s0) TICK w2) as [[polled revents] w3].
    destruct (after_poll_accepts accepts (waking s0) polled revents s0 w3 Hs0) as (s1 & w4 & b & Hs1 & -> & ->).
    destruct b; [|left; by exists (inl s1), w4]. unfold accept_new, mbind, M_bind.
    destruct (accept_loop_returns accepts (pending s1) w4 (proj1 Hs1) (proj2 Hs1)) as [(p & w5 & -> & Hp)|Hf]; [left|right].
    - by exists (inl (set_pending s1 p)), w5.
    - by exists s1, w4. }
  destruct r as [[status|]|e]; [|exact Hon|exact Hon]. left.
  assert (returns (e ← reap (execs s); shutdown e;; stop_x11 (x11 s);; mret (inr (A := State) (code_of status))) outcome_ok) as Hr.
  { eapply r_bind; [apply r_reap|]. intros es _. eapply r_bind; [apply r_shutdown|]. intros ? _.
    eapply r_bind; [apply r_stop_x11|]. intros ? _. apply r_ret. apply code_of_range. }
  apply Hr.
Qed.

(** So many turns end, unless one of them, after some that did, is kept busy. *)
Lemma turns_return accepts n s w : ok s ->
  (exists r w', turns accepts n s w = Some (r, w') /\ outcome_ok r) \/
  (exists k s1 w1 s2 w2, (k < n)%nat /\ turns accepts k s w = Some (inl s1, w1) /\
     @tick _ _ _ (deaf HS) 1 s1 w1 = Some (inl s2, w2) /\ floods accepts w2).
Proof.
  revert s w. induction n as [|n IH]; intros s w Hs; [left; by exists (inl s), w|].
  destruct (tick_returns accepts s w Hs) as [(r & w1 & E & Hr)|(s1 & w1 & E & Hf)].
  2: { right. exists 0%nat, s, w, s1, w1. split_and!; [lia|done..]. }
  cbn [turns]. unfold mbind, M_bind. rewrite E. destruct r as [s1|code]; [|left; by exists (inr code), w1].
  destruct (IH s1 w1 Hr) as [?|(k & s2 & w2 & s3 & w3 & Hk & Ek & Hd & Hf)]; [by left|right].
  exists (S k), s2, w2, s3, w3. split_and!; [lia| |done..]. cbn [turns]. unfold mbind, M_bind. by rewrite E.
Qed.

Lemma r_launch a : returns (launch a) outcome_ok.
Proof.
  unfold launch. destruct (Args.command a) as [|program rest].
  { eapply r_bind; [apply r_act|]. intros ? _. apply r_ret. by_decide. }
  eapply (r_bind _ (fun r => match r with Ok _ => True | Err code => 0 <= code <= U8_MAX end)).
  { destruct (Args.x11 a); [|by apply r_ret]. eapply r_bind; [apply r_eff|]. intros [u|e] _; [by apply r_ret|].
    eapply r_bind; [apply r_act|]. intros ? _. apply r_ret. by_decide. }
  intros [x|code] Hr; [|by apply r_ret].
  eapply (r_bind _ (fun _ => True)); [destruct (Args.ctty a); [apply r_eff|by apply r_ret]|]. intros terminal _.
  eapply r_bind; [apply r_eff|]. intros [ch|e] _.
  - apply r_ret. split; [done|]. by_decide.
  - eapply r_bind; [apply r_act|]. intros ? _. eapply r_bind; [apply r_stop_x11|]. intros ? _. apply r_ret. by_decide.
Qed.
End Returns.

(** ** The log only grows *)

Section Grows.
Context {W child conn : Type} `{EqDecision conn} `{Sup W child conn}.
Notation event := (event child conn).
Notation log := (list event).
Notation M := (M (W * log)).
#[local] Existing Instance watched_sup.

Lemma g_signal ch sig : grows (act (kill_process ch sig)).
Proof. intros w l a w' l' [= <- <- <-]. set_solver. Qed.
Lemma g_child_kill (ch : child) : grows (act (child_kill ch)).
Proof. intros w l a w' l' [= <- <- <-]. set_solver. Qed.
Lemma g_answer c status : grows (answer c status).
Proof. intros w l a w' l'. unfold answer, send_status. cbn. destruct (send_all _ w). intros [= <- <- <-]. set_solver. Qed.
Lemma g_read c s : grows (step_of c s).
Proof.
  intros w l [r inc] w' l' E. unfold step_of, Incoming.read_step in E. apply read_loop_heard in E as (evs & -> & _). set_solver.
Qed.

#[local] Hint Resolve g_signal g_child_kill g_answer g_read : grows.

Lemma g_reap (exs : list (Exec child conn)) : grows (reap exs).
Proof. induction exs; cbn [reap]; grow. Qed.
Lemma g_signal_execs (exs : list (Exec child conn)) sig : grows (signal_execs exs sig).
Proof. induction exs; cbn [signal_execs]; grow. Qed.
Lemma g_wait_all (exs : list (Exec child conn)) : grows (wait_all exs).
Proof. induction exs; cbn [wait_all]; grow. Qed.
#[local] Hint Resolve g_reap g_signal_execs g_wait_all : grows.
Lemma g_shutdown_loop fuel deadline (exs : list (Exec child conn)) : grows (shutdown_loop fuel deadline exs).
Proof. revert exs. induction fuel; intros exs; cbn [shutdown_loop]; grow. Qed.
Lemma g_stop_loop fuel deadline c : grows (stop_loop fuel deadline c).
Proof. induction fuel; cbn [stop_loop]; grow. Qed.
#[local] Hint Resolve g_shutdown_loop g_stop_loop : grows.
Lemma g_shutdown (exs : list (Exec child conn)) : grows (shutdown exs).
Proof. unfold shutdown. grow. Qed.
Lemma g_stop_x11 x : grows (stop_x11 x).
Proof. unfold stop_x11, stop_child. grow. Qed.
#[local] Hint Resolve g_shutdown g_stop_x11 : grows.
Lemma g_begin_stop command (exs : list (Exec child conn)) st : grows (begin_stop command exs st).
Proof. unfold begin_stop. grow. Qed.
Lemma g_gone c what : grows (gone c what).
Proof. unfold gone, has_exited. grow. Qed.
Lemma g_serve c req fds (exs : list (Exec child conn)) display a : grows (serve c req fds exs display a).
Proof. unfold serve, refuse. grow. Qed.
#[local] Hint Resolve g_begin_stop g_gone g_serve : grows.
Lemma g_read_pending (pen : list (Pending conn)) ready exs display a : grows (read_pending pen ready exs display a).
Proof. revert ready exs. induction pen; intros ready exs; cbn [read_pending]; grow. Qed.
Lemma g_accept_loop fuel (pen : list (Pending conn)) : grows (accept_loop fuel pen).
Proof. revert pen. induction fuel; intros pen; cbn [accept_loop]; grow. Qed.
Lemma g_start_x11 x : grows (start_x11 x).
Proof. unfold start_x11. grow. Qed.
Lemma g_start_wm x : grows (start_wm x).
Proof. unfold start_wm. grow. Qed.
#[local] Hint Resolve g_read_pending g_accept_loop g_start_x11 g_start_wm : grows.

(** *** A deadline stands until the SIGKILL *)

Notation State := (State child conn).

(** Of the command [c], and of the deadline [t] if one is asked about. *)
Definition due (c : child) (t : option Z) (s : State) (l : log) : Prop :=
  command s = c /\ (is_Some t -> kill_at (stopping s) = t \/ Signalled c KILL ∈ l).

Lemma due_grows {A} c t s (m : M A) : grows m -> triple (due c t s) m (fun _ => due c t s).
Proof. intros Hg w l a w' l' [Hc Hd] E. apply Hg in E. split; [done|]. intros Ht. destruct (Hd Ht); [by left|right; set_solver]. Qed.

Lemma due_eq c t (s s' : State) (l : log) : command s' = command s -> kill_at (stopping s') = kill_at (stopping s) ->
  due c t s l -> due c t s' l.
Proof. unfold due. by intros -> ->. Qed.

Lemma begin_stop_keeps {V} `{Sup V child conn} command (exs : list (Exec child conn)) st t (v : V) st' v' :
  kill_at st = Some t -> begin_stop command exs st v = Some (st', v') -> kill_at st' = Some t.
Proof.
  intros Hk. unfold begin_stop, mbind, M_bind, act, eff. destruct (signal_execs _ _ _) as [[u v1]|]; [|done].
  destruct (instant v1) as [now v2]. intros [= <- <-]. cbn. by rewrite Hk.
Qed.

Lemma due_stop c t s : triple (due c t s) (stop s) (due c t).
Proof.
  intros w l s' w' l' [Hc Hd] E. unfold stop in E. unfold mbind at 1, M_bind in E.
  destruct (begin_stop _ _ _ (w, l)) as [[st [w1 l1]]|] eqn:Eb; [|done]. injection E as <- <- <-.
  pose proof (g_begin_stop _ _ _ _ _ _ _ _ Eb) as Hg. split; [done|]. cbn.
  intros Ht. destruct (Hd Ht) as [Hk|Hk]; [left|right; set_solver]. destruct Ht as [t' ->].
  exact (@begin_stop_keeps _ watched_sup _ _ _ _ _ _ _ Hk Eb).
Qed.
Lemma due_check_kill c t s : triple (due c t s) (check_kill s) (due c t).
Proof.
  unfold check_kill. destruct (kill_at (stopping s)) as [t'|]; [|by apply t_done].
  eapply t_bind; [apply due_grows, g_quiet|]. intros now. destruct (_ <=? _); [|by apply t_done].
  eapply (t_bind _ _ (fun _ l => command s = c /\ Signalled c KILL ∈ l)).
  { intros w l u w' l' [Hc _] [= <- <- <-]. rewrite Hc. split; [done|]. set_solver. }
  intros ?. eapply (t_bind _ _ (fun _ l => command s = c /\ Signalled c KILL ∈ l)).
  { intros w l u' w' l' [Hc Hk] E. apply g_signal_execs in E. split; [done|]. set_solver. }
  intros ?. apply t_done. intros l [Hc Hk]. split; [done|]. intros _. by right.
Qed.

Lemma due_before_poll c t s : triple (due c t s) (before_poll s) (due c t).
Proof.
  eapply (t_bind _ _ (due c t)).
  { unfold check_server. destruct (x11 s); [|by apply t_done]. eapply t_bind; [apply due_grows, g_gone|]. intros [|]; [|by apply t_done].
    eapply t_bind; [apply due_grows; grow|]. intros ?. eapply t_bind; [apply due_stop|]. intros s1. apply t_done. intros l. by apply due_eq. }
  intros s1. eapply (t_bind _ _ (due c t)).
  { unfold check_wm. destruct (x11 s1); [|by apply t_done]. eapply t_bind; [apply due_grows, g_gone|]. intros [|]; [|by apply t_done].
    eapply t_bind; [apply due_grows; grow|]. intros ?. apply t_done. intros l. by apply due_eq. }
  intros s2. eapply (t_bind _ _ (due c t)); [|intros s3; apply due_check_kill].
  eapply t_bind; [apply due_grows, g_reap|]. intros e. apply t_done. intros l. by apply due_eq.
Qed.

Lemma due_wake_x11 c t s : triple (due c t s) (wake_x11 s) (due c t).
Proof.
  unfold wake_x11. destruct (x11 s) as [x|]; [|by apply t_done]. destruct (asked _); [by apply t_done|].
  eapply t_bind; [apply due_grows, g_start_x11|]. intros [x'|reason].
  - eapply t_bind; [apply due_grows, g_start_wm|]. intros x2. apply t_done. intros l. by apply due_eq.
  - eapply t_bind; [apply due_grows; grow|]. intros ?. eapply t_pre; [|apply due_stop]. intros l. by apply due_eq.
Qed.

Lemma due_after_poll c t accepts x_slot polled revents s :
  triple (due c t s) (after_poll accepts x_slot polled revents s) (due c t).
Proof.
  unfold after_poll. eapply t_bind; [apply due_grows; grow|]. intros b.
  eapply (t_bind _ _ (due c t)); [destruct b; [apply due_stop|by apply t_done]|]. intros s1.
  destruct polled as [n|e]; [|eapply t_bind; [apply due_grows; grow|]; intros ?; by apply t_done].
  eapply (t_bind _ _ (due c t)); [destruct (_ && _); [apply due_wake_x11|by apply t_done]|]. intros s2.
  eapply (t_bind _ _ (due c t)).
  { eapply t_bind; [apply due_grows, g_read_pending|]. intros [p e]. apply t_done. intros l. by apply due_eq. }
  intros s3. eapply (t_bind _ _ (due c t)).
  { eapply t_bind; [apply due_grows; grow|]. intros now. apply t_done. intros l. by apply due_eq. }
  intros s4. destruct (contains _ _); [|by apply t_done].
  eapply t_bind; [apply due_grows, g_accept_loop|]. intros p. apply t_done. intros l. by apply due_eq.
Qed.

(** While the run goes on the deadline stands; at its end the exit code is the
    command's. *)
Definition due_or_done (c : child) (t : option Z) (r : State + Z) (l : log) : Prop :=
  match r with inl s => due c t s l | inr code => exists status, Exited c status ∈ l /\ code = code_of status end.

Lemma due_tick c t accepts s : triple (due c t s) (tick accepts s) (due_or_done c t).
Proof.
  unfold tick. eapply (t_bind _ _ (fun r l => due c t s l /\ match r with Ok (Some st) => Exited c st ∈ l | _ => True end)).
  { intros w l r w' l' Hd E. assert (l ⊆ l') as Hg by exact (g_recorded _ _ _ _ _ _ _ E). revert E. cbn. unfold eff, recorded.
    destruct (try_wait (command s) w) as [r1 w1]. intros [= <- <- <-]. destruct Hd as [Hc Hd]. split; [split; [done|]; intros Ht; destruct (Hd Ht); [by left|right; set_solver]|].
    destruct r1 as [[st|]|e]; cbn; [|done|done]. rewrite Hc. set_solver. }
  assert (triple (due c t s) (s0 ← before_poll s; '(polled, revents) ← eff (poll (poll_set s0) TICK);
    s1 ← after_poll accepts (waking s0) polled revents s0; mret (inl s1)) (due_or_done c t)) as Hon.
  { eapply t_bind; [apply due_before_poll|]. intros s1. eapply t_bind; [apply due_grows; grow|]. intros [polled revents].
    eapply t_bind; [apply due_after_poll|]. intros s2. by apply t_done. }
  intros [[status|]|e]; [|eapply t_pre; [|exact Hon]; by intros l [? _]..].
  intros w l r w' l' [_ He] E.
  assert (grows (e ← reap (execs s); shutdown e;; stop_x11 (x11 s);; mret (inr (A := State) (code_of status)))) as Hg by grow.
  pose proof (Hg _ _ _ _ _ E) as Hl. assert (r = inr (code_of status)) as ->; [|exists status; split; [set_solver|done]].
  revert E. unfold mbind, M_bind. destruct (reap _ _) as [[e1 w1]|]; [|done]. destruct (shutdown _ _) as [[e2 w2]|]; [|done].
  destruct (stop_x11 _ _) as [[e3 w3]|]; [|done]. unfold mret, M_ret. congruence.
Qed.

Lemma due_turns c t accepts n s : triple (due c t s) (turns accepts n s) (due_or_done c t).
Proof.
  revert s. induction n as [|n IH]; intros s; cbn [turns]; [by apply t_done|].
  eapply t_bind; [apply due_tick|]. intros [s'|code]; [apply IH|by apply t_done].
Qed.
End Grows.
