(* ===== verification/InitSpec.v ===== *)
(** What the supervisor of a sandbox promises: the theorems about the runs of
    [InitLoop], from the lemmas of [InitRun], and its command line read back. *)
From S2P Require Export InitRun.

(** ** The command line *)

Module ArgsFacts.
Import Args.

(** The words of a command line, in the order of the usage line. *)
Definition words (a : t) : list bytes :=
  [B "--socket-fd"; decimal (socket_fd a)] ++
  (if ctty a then [B "--ctty"] else []) ++
  (match x11 a with Some argv => [B "--x11"] ++ argv ++ [Spawn.DASHES] ++ [B "--x11-socket"; x11_socket a] | None => [] end) ++
  (match wm a with Some w => [B "--wm"; w] | None => [] end) ++
  [Spawn.DASHES] ++ command a.

Definition wf (a : t) : Prop :=
  0 <= socket_fd a <= I32_MAX /\ command a <> [] /\
  match x11 a with
  | Some argv => argv <> [] /\ Spawn.DASHES ∉ argv
  | None => x11_socket a = X11_SOCKET /\ wm a = None
  end.

Lemma until_dashes_app argv it : Spawn.DASHES ∉ argv -> until_dashes (argv ++ Spawn.DASHES :: it) = (argv, it).
Proof.
  induction argv as [|w argv IH]; cbn [until_dashes app].
  - by rewrite bool_decide_true.
  - intros [Hw Ha]%not_elem_of_cons. rewrite bool_decide_false by (by intros ->). by rewrite IH.
Qed.

Lemma parse_end fuel p cmd : parse_loop (S fuel) (Spawn.DASHES :: cmd) p = Some (p, cmd).
Proof. reflexivity. Qed.
Lemma parse_fd fuel v it p : utf8_valid v = true ->
  parse_loop (S fuel) (B "--socket-fd" :: v :: it) p =
  parse_loop fuel it (mkPartial (parse_i32 v) (p_ctty p) (p_x11 p) (p_socket p) (p_wm p)).
Proof. intros Hv. change (parse_loop (S fuel) (B "--socket-fd" :: v :: it) p) with
  (if utf8_valid v then parse_loop fuel it (mkPartial (parse_i32 v) (p_ctty p) (p_x11 p) (p_socket p) (p_wm p)) else None).
  by rewrite Hv. Qed.
Lemma parse_ctty fuel it p :
  parse_loop (S fuel) (B "--ctty" :: it) p = parse_loop fuel it (mkPartial (p_fd p) true (p_x11 p) (p_socket p) (p_wm p)).
Proof. reflexivity. Qed.
Lemma parse_x11 fuel argv it p : p_x11 p = None -> argv <> [] -> Spawn.DASHES ∉ argv ->
  parse_loop (S fuel) (B "--x11" :: argv ++ Spawn.DASHES :: it) p =
  parse_loop fuel it (mkPartial (p_fd p) (p_ctty p) (Some argv) (p_socket p) (p_wm p)).
Proof.
  intros Hp Hne Hd. cbn [parse_loop]. change (negb (utf8_valid (B "--x11"))) with false. cbn match.
  rewrite !(bool_decide_false (B "--x11" = _)) by done.
  rewrite bool_decide_true, Hp by done. cbn [andb]. rewrite (bool_decide_true (None = None)) by done. cbn match.
  rewrite until_dashes_app by done. by rewrite bool_decide_false.
Qed.
Lemma parse_socket fuel v it p : p_socket p = None ->
  parse_loop (S fuel) (B "--x11-socket" :: v :: it) p =
  parse_loop fuel it (mkPartial (p_fd p) (p_ctty p) (p_x11 p) (Some v) (p_wm p)).
Proof. destruct p. cbn [p_socket]. intros ->. reflexivity. Qed.
Lemma parse_wm fuel v it p : p_wm p = None ->
  parse_loop (S fuel) (B "--wm" :: v :: it) p =
  parse_loop fuel it (mkPartial (p_fd p) (p_ctty p) (p_x11 p) (p_socket p) (Some v)).
Proof. destruct p. cbn [p_wm]. intros ->. reflexivity. Qed.

Lemma more_fuel (n m : nat) : (m <= n)%nat -> exists k, n = (m + k)%nat.
Proof. intros. exists (n - m)%nat. lia. Qed.

Lemma parse_words a : wf a -> parse_from (words a) = Some a.
Proof.
  unfold wf, parse_from. destruct a as [fd ct x sock w cmd]. cbn [socket_fd ctty x11 x11_socket wm Args.command].
  intros (Hfd & Hc & Hx).
  assert (parse_loop (S (length (words (mk fd ct x sock w cmd)))) (words (mk fd ct x sock w cmd)) (mkPartial None false None None None)
    = Some (mkPartial (Some fd) ct x (if x then Some sock else None) w, cmd)) as ->.
  - destruct x as [argv|].
    + destruct Hx as [Hne Hd]. edestruct more_fuel as [k ->].
      { instantiate (1 := 7%nat). unfold words. cbn. rewrite !length_app. destruct argv; [done|]. cbn. rewrite ?length_app. cbn. lia. }
      unfold words. cbn [socket_fd ctty x11 x11_socket wm Args.command]. cbn [app Nat.add]. rewrite parse_fd, parse_i32_decimal by (done || (apply utf8_decimal; lia)).
      rewrite <-!app_assoc. cbn [app p_fd p_ctty p_x11 p_socket p_wm].
      destruct ct; cbn [app]; rewrite ?parse_ctty, parse_x11, parse_socket by done; cbn [p_fd p_ctty p_x11 p_socket p_wm];
        destruct w; cbn [app]; rewrite ?parse_wm by done; by rewrite parse_end.
    + destruct Hx as [-> ->]. edestruct more_fuel as [k ->].
      { instantiate (1 := 4%nat). unfold words. cbn. rewrite ?length_app. cbn. rewrite ?length_app. cbn. lia. }
      unfold words. cbn [socket_fd ctty x11 x11_socket wm Args.command]. cbn [app Nat.add]. rewrite parse_fd, parse_i32_decimal by (done || (apply utf8_decimal; lia)).
      destruct ct; cbn [app p_fd p_ctty p_x11 p_socket p_wm]; rewrite ?parse_ctty; by rewrite parse_end.
  - cbn. rewrite (bool_decide_false (cmd = [])) by done. destruct x as [argv|].
    + rewrite (bool_decide_false (Some argv = None)) by done. done.
    + by destruct Hx as [-> ->].
Qed.
End ArgsFacts.

(** ** The properties *)

Section Properties.
Context {W child conn : Type} `{EqDecision conn} `{Sup W child conn}.
Notation log := (list (event child conn)).
#[local] Existing Instance watched_sup.

(** C31. Once the run has been asked to stop nothing is started any more: no process is
    launched after the first SIGTERM, be it for a client of the exec socket, for the
    first client of the display, or the window manager, however the signals, the
    connections and the ends of the children fall. *)
Theorem nothing_starts_while_stopping (conn_laws : forall c : conn, @StreamLaws W (@conn_stream W (conn_of c)))
    accepts n a (w : W) r w' (log : log) :
  run accepts n a (w, []) = Some (r, (w', log)) ->
  forall l1 ch l2, log = l1 ++ Signalled ch TERM :: l2 -> no_spawn l2.
Proof.
  intros E. apply (t_run conn_laws) in E; [|done]. destruct r as [s|code]; [apply E|destruct E as [pen E]; apply E].
Qed.

(** C32. As long as the connections are told apart, every process the supervisor starts
    is its own (the command, the X server, the window manager) or is the command of
    a request that arrived whole on an accepted connection, with the three
    descriptors that came with it and the terminal only if the request asked for it.
    Every answer is the status that command exited with, on the connection that
    asked for it, or the refusal; and no connection is answered twice. *)
Theorem exec_channel_is_faithful (conn_laws : forall c : conn, @StreamLaws W (@conn_stream W (conn_of c)))
    accepts n a (w : W) r w' (log : log) :
  run accepts n a (w, []) = Some (r, (w', log)) -> NoDup (accepted log) ->
  (forall l1 ch cmd l2, log = l1 ++ Spawned ch cmd :: l2 -> stdio cmd = None \/ exists c, requested l1 c cmd) /\
  (forall l1 c b l2, log = l1 ++ Sent c b :: l2 -> b = Proto.encode_status NOT_EXECUTABLE \/
     exists ch st, b = Proto.encode_status st /\ Exited ch st ∈ l1 /\ served l1 ch c) /\
  NoDup (answered log).
Proof.
  intros E Hn. apply (t_run conn_laws) in E; [|done].
  assert (exists pen exs b, inv [] pen exs b log) as (pen & exs & b & Hi).
  { destruct r as [s|code]; [by do 3 eexists|]. destruct E as [pen E]. by do 3 eexists. }
  split_and!.
  - intros l1 ch cmd l2 El. exact (i_just _ _ _ _ _ Hi Hn _ _ _ El).
  - intros l1 c p l2 El. exact (i_just _ _ _ _ _ Hi Hn _ _ _ El).
  - eapply NoDup_part; [|exact Hn]. etrans; [|exact (i_tokens _ _ _ _ _ Hi)]. cbn. by do 2 apply submseteq_inserts_l.
Qed.

(** A run that ends leaves nobody behind: every process started for a client has
    been waited for, to its status or to an error of the kernel. *)
Theorem nobody_outlives_the_run (conn_laws : forall c : conn, @StreamLaws W (@conn_stream W (conn_of c)))
    accepts n a (w : W) code w' (log : log) :
  run accepts n a (w, []) = Some (inr code, (w', log)) ->
  forall ch cmd, Spawned ch cmd ∈ log -> stdio cmd <> None -> (exists st, Exited ch st ∈ log) \/ Lost ch ∈ log.
Proof.
  intros E. apply (t_run conn_laws) in E as [pen E]; [|done]. intros ch cmd Hin Hs.
  destruct (i_accounted _ _ _ _ _ E ch cmd Hin Hs) as [[]%elem_of_nil|?]; done.
Qed.

(** The first deadline is the deadline: from a state with one set, it is still the
    same after any number of turns, whatever else asks for a stop, until the command
    has been sent its SIGKILL; and a run that ends does so with the exit code of the
    command's own status. *)
Theorem deadline_is_not_extended accepts n (s : State child conn) t (w : W) r w' (log : log) :
  kill_at (stopping s) = Some t ->
  turns accepts n s (w, []) = Some (r, (w', log)) ->
  match r with
  | inl s' => command s' = command s /\ (kill_at (stopping s') = Some t \/ Signalled (command s) KILL ∈ log)
  | inr code => exists status, Exited (command s) status ∈ log /\ code = code_of status
  end.
Proof.
  intros Ht E. apply (due_turns (command s) (Some t)) in E; [|split; [done|by left]].
  destruct r as [s'|code]; [|done]. destruct E as [Hc Hd]. split; [done|]. by apply Hd.
Qed.
End Properties.

(** C33. Turn by turn the supervisor goes on or ends, for any machine whose calls return
    and whose clock does not go back: the reading of requests is bounded, and so is
    the wait of the shutdown, by the grace.  The one loop that can keep a turn is the
    one that accepts: the run comes to a result, or after turns that did end there is
    one whose accept loop is handed [accepts] connections in a row, whatever number
    [accepts] is.  At most [MAX_PENDING] requests are in the making between two turns,
    and an exit code is a byte. *)
Theorem supervisor_returns {W child conn} `{HS : Sup W child conn} {clock} `{!SupLaws W child conn clock}
    accepts n a (w : W) :
  (exists r w', run accepts n a w = Some (r, w') /\
     match r with inl s => len (pending s) <= MAX_PENDING | inr code => 0 <= code <= U8_MAX end) \/
  (exists k s1 w1 s2 w2, (k < n)%nat /\ run accepts k a w = Some (inl s1, w1) /\
     @tick _ _ _ (deaf HS) 1 s1 w1 = Some (inl s2, w2) /\ floods accepts w2).
Proof.
  unfold run, mbind, M_bind. destruct (r_launch a w) as (r & w1 & E & Hr). rewrite E.
  destruct r as [s|code]; [|left; by exists (inr code), w1].
  destruct (turns_return accepts n s w1 Hr) as [(r & w2 & Et & Hok)|Hf]; [left|by right].
  exists r, w2. split; [done|]. destruct r; [apply Hok|done].
Qed.

(** A command line written out is read back. *)
Theorem init_args_roundtrip a : ArgsFacts.wf a -> Args.parse_from (ArgsFacts.words a) = Some a.
Proof. apply ArgsFacts.parse_words. Qed.

(** ** A machine to run it on

    One client connects, asks for a command with the terminal, and the command
    exits with 1; the sandbox's own command runs for a few turns more.  Children and
    connections are numbers. *)

Record machine := mkMachine { m_clock : Z; m_queue : option nat; m_data : bytes; m_fds : list Z; m_next : nat; m_life : nat }.

Definition demo_conn : Conn machine := {|
  conn_stream := {|
    recv n := fun m => match m_data m with
      | [] => (Err (mkError WouldBlock []), m)
      | b => (Ok (upto b n, m_fds m), mkMachine (m_clock m) (m_queue m) (from b n) [] (m_next m) (m_life m))
      end;
    sread n := fun m => match m_data m with
      | [] => (Err (mkError WouldBlock []), m)
      | b => (Ok (upto b n), mkMachine (m_clock m) (m_queue m) (from b n) (m_fds m) (m_next m) (m_life m))
      end |};
  send_with_fds b _ := fun m => (Ok (len b), m); send_all _ := fun m => (Ok tt, m);
  time_left := fun m => (1, m); set_timeout _ := fun m => (Ok tt, m) |}.

#[local] Instance demo_sup : Sup machine nat nat := {|
  instant m := (m_clock m, m);
  pause d m := mkMachine (m_clock m + Z.max 0 d) (m_queue m) (m_data m) (m_fds m) (m_next m) (m_life m);
  stop_swap m := (bool_decide (m_life m = 1%nat), m);
  spawn _ := fun m => (Ok (m_next m), mkMachine (m_clock m) (m_queue m) (m_data m) (m_fds m) (S (m_next m)) (m_life m));
  try_wait ch := fun m => match ch, m_life m with
    | O, O => (Ok (Some 0), m)
    | O, S n => (Ok None, mkMachine (m_clock m) (m_queue m) (m_data m) (m_fds m) (m_next m) n)
    | _, _ => (Ok (Some 256), m)
    end;
  wait _ := fun m => (Ok 0, m);
  kill_process _ _ m := m; child_kill _ m := m;
  isatty _ m := (true, m); try_clone _ m := (None, m); write_to_fd _ _ m := m; eprintln _ m := m;
  bind_x11 _ := fun m => (Ok tt, m); dup_display := fun m => (Ok 5, m); pass_on _ := fun m => (Ok tt, m);
  poll fds _ m := ((Ok (len fds), map (fun _ => mkFlags true false false false) fds), m);
  accept m := match m_queue m with None => (None, m) | Some c => (Some c, mkMachine (m_clock m) None (m_data m) (m_fds m) (m_next m) (m_life m)) end;
  set_nonblocking _ := fun m => (Ok tt, m);
  conn_of _ := demo_conn |}.

Lemma demo_conn_laws (c : nat) : @StreamLaws machine (@conn_stream machine (conn_of c)).
Proof.
  split; cbn.
  - intros n [k q [|b d] f nx lf] b' f' w' Hn; [done|]. intros [= <- <- <-]. unfold upto. rewrite len_take. lia.
  - intros n [k q [|b d] f nx lf] b' w' Hn; [done|]. intros [= <- <-]. unfold upto. rewrite len_take. lia.
Qed.

#[local] Instance demo_sup_laws : SupLaws machine nat nat m_clock.
Proof.
  split; cbn.
  - intros m t m' [= <- <-]. lia.
  - intros d m. lia.
  - intros [|ch] [k q d f nx [|lf]] r m' [= <- <-]; cbn; lia.
  - intros c b m r m' [= <- <-]. lia.
Qed.

Definition demo_args : Args.t := Args.mk 3 false None X11_SOCKET None [B "app"].
Definition demo_request : bytes := Proto.encode_request [B "ls"] 1.
Definition demo_machine : machine := mkMachine 0 (Some 7%nat) (le_bytes 4 (len demo_request) ++ demo_request) [10; 11; 12] 0%nat 5.

#[local] Existing Instance watched_sup.
Definition demo_run : option ((State nat nat + Z) * (machine * list (event nat nat))) := run 3 9 demo_args (demo_machine, []).

Lemma demo_runs : exists w' log, demo_run = Some (inr 0, (w', log)) /\ NoDup (accepted log) /\
  Spawned 1%nat (mkCommand (B "ls") [] None (Some (10, 11, 12)) true) ∈ log /\
  log !! 7%nat = Some (Signalled 0%nat TERM) /\ log !! 6%nat = Some (Sent 7%nat (Proto.encode_status 256)).
Proof.
  do 2 eexists. split; [vm_compute; reflexivity|].
  split_and!; [vm_compute; repeat constructor; by intros ?%elem_of_nil|by do 4 right; left|done|done].
Qed.

Lemma nothing_starts_while_stopping_witness : exists w' log, demo_run = Some (inr 0, (w', log)) /\
  forall l1 ch l2, log = l1 ++ Signalled ch TERM :: l2 -> no_spawn l2.
Proof.
  destruct demo_runs as (w' & log & E & _). exists w', log. split; [exact E|].
  exact (nothing_starts_while_stopping demo_conn_laws 3 9 demo_args demo_machine (inr 0) w' log E).
Defined.

Lemma exec_channel_is_faithful_witness : exists w' log, demo_run = Some (inr 0, (w', log)) /\ NoDup (accepted log) /\
  NoDup (answered log) /\ exists l1 l2, log = l1 ++ Sent 7%nat (Proto.encode_status 256) :: l2.
Proof.
  destruct demo_runs as (w' & log & E & Hn & _ & _ & Hs). exists w', log. split; [exact E|split; [exact Hn|split]].
  - exact (proj2 (proj2 (exec_channel_is_faithful demo_conn_laws 3 9 demo_args demo_machine (inr 0) w' log E Hn))).
  - apply list_elem_of_split. by eapply list_elem_of_lookup_2.
Defined.

Lemma nobody_outlives_the_run_witness : exists w' log, demo_run = Some (inr 0, (w', log)) /\
  ((exists st, Exited 1%nat st ∈ log) \/ Lost 1%nat ∈ log).
Proof.
  destruct demo_runs as (w' & log & E & _ & Hs & _). exists w', log. split; [exact E|].
  exact (nobody_outlives_the_run demo_conn_laws 3 9 demo_args demo_machine 0 w' log E 1%nat _ Hs ltac:(discriminate)).
Defined.

Definition demo_state : State nat nat := mkState 0%nat [] [] None (mkStopping true (Some 100)).

Lemma deadline_is_not_extended_witness : exists s' w' log,
  turns 3 1 demo_state (demo_machine, []) = Some (inl s', (w', log)) /\
  command s' = 0%nat /\ (kill_at (stopping s') = Some 100 \/ Signalled 0%nat KILL ∈ log).
Proof.
  assert (exists s' w' log, turns 3 1 demo_state (demo_machine, []) = Some (inl s', (w', log))) as (s' & w' & log & E)
    by (do 3 eexists; vm_compute; reflexivity).
  exists s', w', log. split; [exact E|].
  exact (deadline_is_not_extended 3 1 demo_state 100 demo_machine (inl s') w' log eq_refl E).
Defined.

Lemma supervisor_returns_witness : exists r w', run 3 9 demo_args demo_machine = Some (r, w') /\
  match r with inl s => len (pending s) <= MAX_PENDING | inr code => 0 <= code <= U8_MAX end.
Proof.
  destruct (supervisor_returns (clock := m_clock) 3 9 demo_args demo_machine) as [?|(k & s1 & w1 & s2 & w2 & _ & _ & _ & Hf)]; [done|].
  exfalso. revert Hf. cbn. by destruct (m_queue w2).
Defined.

Definition demo_full_args : Args.t :=
  Args.mk 3 true (Some [B "Xwayland"; B ":0"]) (B "/tmp/x") (Some (B "twm")) [B "app"; B "--"; B "--ctty"].

Lemma init_args_roundtrip_witness : ArgsFacts.wf demo_full_args /\
  Args.parse_from (ArgsFacts.words demo_full_args) = Some demo_full_args.
Proof.
  assert (ArgsFacts.wf demo_full_args) as Hwf.
  { split; [by_decide|split; [discriminate|split; [discriminate|by_decide]]]. }
  split; [exact Hwf|exact (init_args_roundtrip demo_full_args Hwf)].
Defined.
