(* ===== verification/Tty.v ===== *)
(** The sandbox's terminal: [crates/bubbler-core/src/tty.rs].

    The decision for each standard descriptor ([plan]), the detach sequence
    ([Escape]), the non-blocking destinations ([NonBlocking]), the output that waits
    for the host ([Out]) and the two relays over them, [relay] for a terminal and
    [pump] for pipes.  [Term] is the operating system: reads, writes, polls and the
    clock, the exit check [until], the signal flags, and [as_slices], the length of
    the first run of a ring.  A loop is given fuel; [relay] and [pump] run as long as
    the command does, so their theorems are about every number of turns. *)
From S2P Require Export Fuel.

Definition CHUNK : Z := 8192.
Definition TICK : Z := from_millis 100.
Definition DRAIN : Z := from_millis 200.
Definition STALL : Z := from_secs 5.
Definition FLUSH_MAX : Z := from_secs 10.
Definition HURRY : Z := from_millis 200.
Definition PENDING_MAX : Z := 64 * 1024.
Definition DRAIN_MAX : Z := 2 * PENDING_MAX.
Definition ESCAPE : byte := Init.Byte.x1d.
Definition DETACH_RUN : Z := 3.
Definition DETACH_WINDOW : Z := from_secs 1.

(** ** The plan *)

Inductive TtyMode := Pty | Passthrough | NoTty.

Definition tty_mode (s : bytes) : option TtyMode :=
  if bool_decide (s = B "pty") then Some Pty
  else if bool_decide (s = B "passthrough") then Some Passthrough
  else if bool_decide (s = B "none") then Some NoTty
  else None.

Inductive StdioTarget := Slave | Inherit | Null | Pipe.

#[global] Instance StdioTarget_eq_dec : EqDecision StdioTarget.
Proof. solve_decision. Defined.

(** The targets of descriptors 0, 1 and 2. *)
Definition StdioPlan : Type := StdioTarget * StdioTarget * StdioTarget.

Definition plan (mode : TtyMode) (is_tty : bool * bool * bool) : StdioPlan :=
  match mode with
  | Pty =>
    let f (t : bool) := if t then Slave else Inherit in
    let '(i, o, e) := is_tty in (f i, f o, f e)
  | Passthrough => (Inherit, Inherit, Inherit)
  | NoTty => (Null, Pipe, Pipe)
  end.

Definition nth_fd (p : StdioPlan) (i : Z) : StdioTarget :=
  let '(a, b, c) := p in if i =? 0 then a else if i =? 1 then b else c.

Definition needs_pty (p : StdioPlan) : bool := existsb (fun i => bool_decide (nth_fd p i = Slave)) [0; 1; 2].
Definition ctty (p : StdioPlan) : bool := bool_decide (nth_fd p 0 = Slave).
Definition raw_mode (p : StdioPlan) : bool := ctty p.

(** [writable] says whether a descriptor of bubbler's was opened for writing. *)
Definition output_fd (p : StdioPlan) (writable : Z -> bool) : option Z :=
  List.find (fun i => bool_decide (nth_fd p i = Slave) && writable i) [1; 2; 0].

(** ** The detach sequence *)

Module Escape.
Record t := mk { held : Z; since : option Z }.

Definition new : t := mk 0 None.

(** What is released, and the empty run. *)
Definition release (e : t) : bytes * t := (replicate (Z.to_nat (held e)) ESCAPE, mk 0 None).

Definition expire (now : Z) (e : t) : bytes * t :=
  match since e with
  | Some s => if now - s >? DETACH_WINDOW then release e else ([], e)
  | None => ([], e)
  end.

(** What the sandbox should see of [chunk]; [true] is a detach, and what follows it in
    the chunk is not looked at. *)
Fixpoint feed (chunk : bytes) (now : Z) (e : t) : bool * bytes * t :=
  match chunk with
  | [] => (false, [], e)
  | b :: chunk =>
    if negb (bool_decide (b = ESCAPE)) then
      let '(out, e) := release e in
      let '(d, out', e) := feed chunk now e in
      (d, out ++ [b] ++ out', e)
    else
      let '(out, e) := expire now e in
      let held := held e + 1 in
      let since := if held =? 1 then Some now else since e in
      if held =? DETACH_RUN then (true, out, mk 0 None)
      else
        let '(d, out', e) := feed chunk now (mk held since) in
        (d, out ++ out', e)
  end.
End Escape.

(** ** The operating system *)

Class Term (W fd : Type) := {
  now : W -> Z * W;
  read : fd -> Z -> io W bytes;
  write : fd -> bytes -> io W Z;
  poll : list (fd * PollFlags) -> Z -> io W (Z * list PollFlags);
  as_slices : bytes -> W -> Z * W;
  (** [until()], [caught.winch.swap(false)] and [caught.stop.load()]. *)
  until : W -> option Z * W;
  winch : W -> bool * W;
  stop : W -> bool * W;
  (** [Warn::say], which never blocks and never fails. *)
  say : bytes -> W -> W;
  resize : fd -> fd -> W -> W;
  eof_char : fd -> W -> option byte * W;
}.

Class TermLaws (W fd : Type) `{Term W fd} := {
  read_room f n w b w' : 0 <= n -> read f n w = (Ok b, w') -> len b <= n;
  write_room f b w n w' : write f b w = (Ok n, w') -> 0 <= n <= len b;
  as_slices_first b w n w' : as_slices b w = (n, w') -> b <> [] -> 1 <= n <= len b;
}.

(** An error that means nothing has happened. *)
Definition again (e : io_error) : bool := match kind e with WouldBlock | Interrupted => true | _ => false end.
Definition interrupted (e : io_error) : bool := match kind e with Interrupted => true | _ => false end.

(** [Errno::IO]. *)
Definition EIO : io_error := other (B "Input/output error (os error 5)").

(** ** Output waiting for the host *)

Module Out.
Record t (fd : Type) := mk { fd_ : fd; sink : fd; name : bytes; pending : bytes; limit : Z; open : bool }.
Arguments mk {fd}. Arguments fd_ {fd}. Arguments sink {fd}. Arguments name {fd}.
Arguments pending {fd}. Arguments limit {fd}. Arguments open {fd}.

Section Ops.
Context {W fd : Type} `{EqDecision fd} `{Term W fd}.
Notation t := (t fd).
Notation M := (M W).

Definition new (f sink : fd) (name : bytes) : t := mk f sink name [] PENDING_MAX true.
Definition set_pending (o : t) (p : bytes) : t := mk (fd_ o) (sink o) (name o) p (limit o) (open o).
Definition relax (o : t) : t := mk (fd_ o) (sink o) (name o) (pending o) DRAIN_MAX (open o).
Definition waiting (o : t) : bool := bool_decide (pending o <> []).
Definition full (o : t) : bool := len (pending o) >=? limit o.
Definition push (o : t) (b : bytes) : t := set_pending o (pending o ++ b).

(** [false] when the destination already was the sink. *)
Definition redirect (o : t) (e : io_error) : M (bool * t) :=
  if bool_decide (fd_ o = sink o) then mret (false, o)
  else
    act (say (B "bubbler: output to " ++ name o ++ B " failed: " ++ text e ++ B "; discarding further output" ++ [LF]));;
    mret (true, mk (sink o) (sink o) (name o) (pending o) (limit o) (open o)).

Definition failed (o : t) (e : io_error) : M t :=
  '(redirected, o) ← redirect o e;
  if redirected : bool then mret o
  else mret (mk (fd_ o) (sink o) (name o) [] (limit o) false).

Fixpoint flush_loop (fuel : nat) (o : t) : M t :=
  if open o && waiting o then
    match fuel with
    | O => out_of_fuel
    | S fuel =>
      n ← eff (as_slices (pending o));
      r ← eff (write (fd_ o) (upto (pending o) n));
      match r with
      | Ok n =>
        if n =? 0 then o ← failed o EIO; flush_loop fuel o
        else flush_loop fuel (set_pending o (from (pending o) n))
      | Err e => if again e then mret o else o ← failed o e; flush_loop fuel o
      end
    end
  else mret o.

(** A turn takes a byte, or the destination, or the sink. *)
Definition flush (o : t) : M t := flush_loop (length (pending o) + 2) o.

Definition giving_up (o : t) (why : bytes) : M t :=
  act (say (B "bubbler: " ++ decimal (len (pending o)) ++ B " bytes of output to " ++ name o ++ B " were dropped: " ++ why ++ [LF]));;
  mret (set_pending o []).

Fixpoint finish_loop (fuel : nat) (by_ : Z) (moved : Z) (hurried : option Z) (o : t) : M t :=
  if open o && waiting o then
    match fuel with
    | O => out_of_fuel
    | S fuel =>
      let held := len (pending o) in
      o ← flush o;
      if bool_decide (pending o = []) then mret o
      else
        now ← eff now;
        let moved := if len (pending o) <? held then now else moved in
        hurried ← match hurried with
                  | None => s ← eff stop; mret (if s : bool then Some now else None)
                  | Some t => mret (Some t)
                  end;
        if match hurried with Some t => now - t >=? HURRY | None => false end then giving_up o (B "bubbler is stopping")
        else if (now - moved >=? STALL) || (now >=? by_) then giving_up o (B "it stopped being taken")
        else
          _ ← eff (poll [(fd_ o, mkFlags false true false false)] TICK);
          finish_loop fuel by_ moved hurried o
    end
  else mret o.

Definition finish (fuel : nat) (by_ : Z) (o : t) : M t :=
  moved ← eff now;
  s ← eff stop;
  finish_loop fuel by_ moved (if s : bool then Some moved else None) o.
End Ops.
End Out.

(** ** The relay of a terminal *)

Inductive RelayEnd := Exited (code : Z) | Detached.

Section Relay.
Context {W fd : Type} `{EqDecision fd} `{Term W fd}.
Notation M := (M W).
Notation Out := (Out.t fd).

Definition IN_ : PollFlags := mkFlags true false false false.
Definition OUT_ : PollFlags := mkFlags false true false false.

(** More is read out of the pty until the deadline, or until nothing is left. *)
Fixpoint drain_loop (fuel : nat) (deadline : Z) (master : fd) (reading : bool) (out : Out) : M Out :=
  if reading && Out.open out then
    match fuel with
    | O => out_of_fuel
    | S fuel =>
      out ← Out.flush out;
      now ← eff now;
      let left_ := saturating_sub deadline now in
      if left_ =? 0 then mret out
      else
        let asking := negb (Out.full out) in
        r ← eff (poll ((if asking then [(master, IN_)] else []) ++ (if Out.waiting out then [(Out.fd_ out, OUT_)] else [])) left_);
        match r with
        | Err e => if interrupted e then drain_loop fuel deadline master reading out else mret out
        | Ok (n, revents) =>
          if n =? 0 then mret out
          else if negb (asking && negb (flags_empty (List.nth 0 revents no_flags))) then drain_loop fuel deadline master reading out
          else
            r ← eff (read master CHUNK);
            match r with
            | Ok b => if len b =? 0 then drain_loop fuel deadline master false out
                      else drain_loop fuel deadline master reading (Out.push out b)
            | Err e => drain_loop fuel deadline master (if again e then reading else false) out
            end
        end
    end
  else mret out.

Definition drain (fuel : nat) (master : fd) (reading : bool) (out : Out) : M Out :=
  let out := Out.relax out in
  t ← eff now;
  out ← drain_loop fuel (t + DRAIN) master reading out;
  t ← eff now;
  Out.finish fuel (t + FLUSH_MAX) out.

Record State := mkState { stdin : option fd; typed : bytes; escape : Escape.t; reading : bool; out : Out }.

Definition set_stdin (s : State) (f : option fd) : State := mkState f (typed s) (escape s) (reading s) (out s).
Definition set_typed (s : State) (b : bytes) : State := mkState (stdin s) b (escape s) (reading s) (out s).
Definition set_out (s : State) (o : Out) : State := mkState (stdin s) (typed s) (escape s) (reading s) o.
Definition set_reading (s : State) (b : bool) : State := mkState (stdin s) (typed s) (escape s) b (out s).

(** Escapes whose run can no longer finish in time are typed after all. *)
Definition expire_escape (s : State) : M State :=
  now ← eff now;
  let '(released, e) := Escape.expire now (escape s) in
  mret (mkState (stdin s) (typed s ++ released) e (reading s) (out s)).

(** The host is not read while a chunk waits for the pty. *)
Definition read_stdin (s : State) : option fd := if bool_decide (typed s = []) then stdin s else None.

Definition master_events (s : State) : PollFlags :=
  mkFlags (reading s && Out.open (out s) && negb (Out.full (out s))) (bool_decide (typed s <> [])) false false.

Definition poll_stdin (s : State) : list (fd * PollFlags) := match read_stdin s with Some f => [(f, IN_)] | None => [] end.
Definition poll_master (master : fd) (s : State) : list (fd * PollFlags) :=
  if flags_empty (master_events s) then [] else [(master, master_events s)].
Definition poll_out (s : State) : list (fd * PollFlags) := if Out.waiting (out s) then [(Out.fd_ (out s), OUT_)] else [].
Definition poll_set (master : fd) (s : State) : list (fd * PollFlags) := poll_stdin s ++ poll_master master s ++ poll_out s.

(** The answer for an entry that may not be in the set. *)
Definition answer_at (there : bool) (i : nat) (revents : list PollFlags) : PollFlags :=
  if there then List.nth i revents no_flags else no_flags.

Definition flush_out (s : State) : M State := o ← Out.flush (out s); mret (set_out s o).

Definition write_typed (master : fd) (s : State) : M State :=
  r ← eff (write master (typed s));
  match r with
  | Ok n => mret (set_typed s (from (typed s) n))
  | Err e => mret (if again e then s else set_stdin (set_typed s []) None)
  end.

(** [inr] is the detach. *)
Definition read_host (fuel : nat) (master f : fd) (s : State) : M (State + RelayEnd) :=
  r ← eff (read f CHUNK);
  match r with
  | Ok b =>
    if len b =? 0 then
      eof ← eff (eof_char master);
      mret (inl (set_typed (set_stdin s None) (typed s ++ (match eof with Some c => [c] | None => [] end))))
    else
      t ← eff now;
      let '(detach, seen, e) := Escape.feed b t (escape s) in
      let s := mkState (stdin s) (typed s ++ seen) e (reading s) (out s) in
      if detach : bool then
        t ← eff now;
        o ← Out.finish fuel (t + FLUSH_MAX) (Out.relax (out s));
        mret (inr Detached)
      else mret (inl s)
  | Err e => mret (inl (if again e then s else set_stdin s None))
  end.

Definition read_master (master : fd) (s : State) : M State :=
  r ← eff (read master CHUNK);
  match r with
  | Ok b => if len b =? 0 then mret (set_reading s false)
            else o ← Out.flush (Out.push (out s) b); mret (set_out s o)
  | Err e => mret (if again e then s else set_reading s false)
  end.

(** What the answers of the poll call for; the set was made from [s0]. *)
Definition relay_ready (fuel : nat) (master : fd) (s0 : State) (revents : list PollFlags) (s : State) : M (State + RelayEnd) :=
  let n_in := length (poll_stdin s0) in
  let n_master := length (poll_master master s0) in
  let stdin_ready := negb (flags_empty (answer_at (bool_decide (poll_stdin s0 <> [])) 0 revents)) in
  let master_revents := answer_at (bool_decide (poll_master master s0 <> [])) n_in revents in
  let out_ready := negb (flags_empty (answer_at (bool_decide (poll_out s0 <> [])) (n_in + n_master) revents)) in
  s ← (if out_ready then flush_out s else mret s);
  s ← (if OUT master_revents && bool_decide (typed s <> []) then write_typed master s else mret s);
  r ← match read_stdin s0 with
      | Some f => if stdin_ready then read_host fuel master f s else mret (inl s)
      | None => mret (inl s)
      end;
  match r with
  | inr e => mret (inr e)
  | inl s =>
    if reading s && intersects master_revents (mkFlags true false true true)
    then s ← read_master master s; mret (inl s) else mret (inl s)
  end.

(** One turn of the loop; [inr] is its end. *)
Definition relay_turn (fuel : nat) (master host_out : fd) (s : State) : M (State + result io_error RelayEnd) :=
  code ← eff until;
  match code with
  | Some code => o ← drain fuel master (reading s) (out s); mret (inr (Ok (Exited code)))
  | None =>
    w ← eff winch;
    (if w : bool then act (resize master host_out) else mret tt);;
    s ← expire_escape s;
    r ← eff (poll (poll_set master s) TICK);
    match r with
    | Err e => mret (if interrupted e then inl s else inr (Err e))
    | Ok (_, revents) =>
      r ← relay_ready fuel master s revents s;
      mret (match r with inl s => inl s | inr e => inr (Ok e) end)
    end
  end.

Fixpoint relay_turns (fuel n : nat) (master host_out : fd) (s : State) : M (State + result io_error RelayEnd) :=
  match n with
  | O => mret (inl s)
  | S n =>
    r ← relay_turn fuel master host_out s;
    match r with inl s => relay_turns fuel n master host_out s | inr e => mret (inr e) end
  end.

(** [dest] is the non-blocking description of [host_out] that [NonBlocking] gives. *)
Definition relay (fuel n : nat) (master : fd) (host_in : option fd) (host_out dest : fd) (out_name : bytes) (sink : fd)
  : M (State + result io_error RelayEnd) :=
  relay_turns fuel n master host_out (mkState host_in [] Escape.new true (Out.new dest sink out_name)).

(** ** The relay of pipes *)

Record Lane := mkLane { pipe : fd; l_out : Out; l_open : bool }.

Definition wants_read (l : Lane) : bool := l_open l && Out.open (l_out l) && negb (Out.full (l_out l)).

Definition lane_slots (l : Lane) : list (fd * PollFlags) :=
  (if wants_read l then [(pipe l, IN_)] else []) ++ (if Out.waiting (l_out l) then [(Out.fd_ (l_out l), OUT_)] else []).

(** With nowhere left to put its output a pipe is not read any more. *)
Definition settle (l : Lane) : Lane := if Out.open (l_out l) then l else mkLane (pipe l) (l_out l) false.

Definition read_pipe (l : Lane) : M Lane :=
  r ← eff (read (pipe l) CHUNK);
  match r with
  | Ok b => if len b =? 0 then mret (mkLane (pipe l) (l_out l) false)
            else o ← Out.flush (Out.push (l_out l) b); mret (mkLane (pipe l) o (l_open l))
  | Err e => mret (if again e then l else mkLane (pipe l) (l_out l) false)
  end.

Definition flush_lane (l : Lane) : M Lane := o ← Out.flush (l_out l); mret (mkLane (pipe l) o (l_open l)).

(** The slots of one lane, its pipe first; [ready] are the answers from there on. *)
Definition serve_lane (l : Lane) (ready : list bool) : M (Lane * list bool) :=
  let reads := wants_read l in
  let writes := Out.waiting (l_out l) in
  '(l, ready) ← (if reads then
                   l ← (if List.hd false ready then l ← read_pipe l; mret (settle l) else mret l);
                   mret (l, List.tl ready)
                 else mret (l, ready));
  if writes then
    l ← (if List.hd false ready then l ← flush_lane l; mret (settle l) else mret l);
    mret (l, List.tl ready)
  else mret (l, ready).

Fixpoint serve_lanes (lanes : list Lane) (ready : list bool) : M (list Lane) :=
  match lanes with
  | [] => mret []
  | l :: lanes => '(l, ready) ← serve_lane l ready; lanes ← serve_lanes lanes ready; mret (l :: lanes)
  end.

Fixpoint finish_all (fuel : nat) (by_ : Z) (lanes : list Lane) : M unit :=
  match lanes with
  | [] => mret tt
  | l :: lanes => o ← Out.finish fuel by_ (l_out l); finish_all fuel by_ lanes
  end.

Definition pump_turn (fuel : nat) (lanes : list Lane) (exited : option (Z * Z)) : M (list Lane * option (Z * Z) + result io_error Z) :=
  '(lanes, exited) ← match exited with
    | Some _ => mret (lanes, exited)
    | None =>
      code ← eff until;
      match code with
      | None => mret (lanes, None)
      | Some code =>
        t ← eff now;
        mret (map (fun l => mkLane (pipe l) (Out.relax (l_out l)) (l_open l)) lanes, Some (code, t + DRAIN))
      end
    end;
  let waiting := existsb (fun l => Out.waiting (l_out l)) lanes in
  over ← match exited with
    | None => mret None
    | Some (code, deadline) =>
      if negb (existsb l_open lanes) && negb waiting then mret (Some code)
      else t ← eff now; mret (if t >=? deadline then Some code else None)
    end;
  match over with
  | Some code =>
    t ← eff now;
    finish_all fuel (t + FLUSH_MAX) lanes;;
    mret (inr (Ok code))
  | None =>
    r ← eff (poll (concat (map lane_slots lanes)) TICK);
    match r with
    | Err e => mret (if interrupted e then inl (lanes, exited) else inr (Err e))
    | Ok (_, revents) =>
      lanes ← serve_lanes lanes (map (fun f => negb (flags_empty f)) revents);
      mret (inl (lanes, exited))
    end
  end.

Fixpoint pump_turns (fuel n : nat) (lanes : list Lane) (exited : option (Z * Z)) : M (list Lane * option (Z * Z) + result io_error Z) :=
  match n with
  | O => mret (inl (lanes, exited))
  | S n =>
    r ← pump_turn fuel lanes exited;
    match r with inl (lanes, exited) => pump_turns fuel n lanes exited | inr e => mret (inr e) end
  end.

Definition pump (fuel n : nat) (pipes : list (fd * fd * bytes)) (sink : fd) : M (list Lane * option (Z * Z) + result io_error Z) :=
  pump_turns fuel n (map (fun '(p, dest, name) => mkLane p (Out.new dest sink name) true) pipes) None.
End Relay.
