(* ===== verification/TtyRun.v ===== *)
(** What the relays of [Tty] do with the bytes they carry, and that they come to an
    end.

    [watched_term] instruments any terminal with a log of what was read, written and
    said.  [oinv] ties the output buffer to the log: what was read for it is what its
    host took and what is still held, until the host fails, which is said. *)
From S2P Require Export Tty.

(** [Eof] is the end-of-file character that is typed for a host that has hung up,
    [Broken] a write that failed for good. *)
Inductive event (fd : Type) :=
| Read (f : fd) (b : bytes)
| Wrote (f : fd) (b : bytes)
| Eof (c : byte)
| Broken (f : fd)
| Said (msg : bytes).
Arguments Read {fd} f b.
Arguments Wrote {fd} f b.
Arguments Eof {fd} c.
Arguments Broken {fd} f.
Arguments Said {fd} msg.

Definition watched_term {W fd : Type} `{Term W fd} : Term (W * list (event fd)) fd := {|
  now := quiet now;
  read f n := recorded (read f n) (fun r => match r with Ok b => [Read f b] | Err _ => [] end);
  write f b := recorded (write f b) (fun r => match r with Ok n => [Wrote f (upto b n)] | Err e => if again e then [] else [Broken f] end);
  poll fds t := quiet (poll fds t); as_slices b := quiet (as_slices b);
  until := quiet until; winch := quiet winch; stop := quiet stop;
  say msg := fun '(w, l) => (say msg w, l ++ [Said msg]);
  resize a b := quietly (resize a b);
  eof_char f := recorded (eof_char f) (fun r => match r with Some c => [Eof c] | None => [] end) |}.

Section Logs.
Context {fd : Type} `{EqDecision fd}.
Notation log := (list (event fd)).

Definition reads (f : fd) (l : log) : bytes :=
  concat (map (fun e => match e with Read f' b => if decide (f' = f) then b else [] | _ => [] end) l).
Definition wrote (f : fd) (l : log) : bytes :=
  concat (map (fun e => match e with Wrote f' b => if decide (f' = f) then b else [] | _ => [] end) l).

(** What was typed at a host: its bytes, and the end-of-file character. *)
Definition input (f : fd) (l : log) : bytes :=
  concat (map (fun e => match e with Read f' b => if decide (f' = f) then b else [] | Eof c => [c] | _ => [] end) l).

Definition spoken (l : log) : Prop := exists msg, Said msg ∈ l.

Lemma reads_snoc f l e : reads f (l ++ [e]) = reads f l ++ (match e with Read f' b => if decide (f' = f) then b else [] | _ => [] end).
Proof. unfold reads. rewrite map_app, concat_app. cbn. by rewrite app_nil_r. Qed.
Lemma wrote_snoc f l e : wrote f (l ++ [e]) = wrote f l ++ (match e with Wrote f' b => if decide (f' = f) then b else [] | _ => [] end).
Proof. unfold wrote. rewrite map_app, concat_app. cbn. by rewrite app_nil_r. Qed.
Lemma input_snoc f l e : input f (l ++ [e]) = input f l ++
  (match e with Read f' b => if decide (f' = f) then b else [] | Eof c => [c] | _ => [] end).
Proof. unfold input. rewrite map_app, concat_app. cbn. by rewrite app_nil_r. Qed.
Lemma spoken_snoc l e : spoken l -> spoken (l ++ [e]).
Proof. intros [msg Hm]. exists msg. set_solver. Qed.

(** The output buffer [o] of what is read from [m] for the host [d]. *)
Definition oinv (m d : fd) (o : Out.t fd) (l : log) : Prop :=
  Out.sink o <> d /\
  (Out.fd_ o = d -> Out.open o = true /\ reads m l = wrote d l ++ Out.pending o) /\
  (Out.fd_ o <> d -> Out.fd_ o = Out.sink o /\ wrote d l `prefix_of` reads m l /\ spoken l).

(** At the end: the host has a prefix of what was read, all of it unless something was
    said. *)
Definition delivered (m d : fd) (l : log) : Prop :=
  wrote d l `prefix_of` reads m l /\ (~ spoken l -> wrote d l = reads m l).

(** What writing an output leaves in the log. *)
Definition out_event (d s : fd) (e : event fd) : Prop :=
  match e with Wrote f _ | Broken f => f = d \/ f = s | Said _ => True | _ => False end.

(** A condition that the output of [d] does not touch. *)
Definition framed (d s : fd) (R : log -> Prop) : Prop := forall l e, out_event d s e -> R l -> R (l ++ [e]).

Lemma oinv_new m d sink name : sink <> d -> oinv m d (Out.new d sink name) [].
Proof. intros Hs. split_and!; [done|done|by intros []]. Qed.

Lemma oinv_wrote m d o b n l : oinv m d o l -> upto (Out.pending o) n = b -> 0 <= n <= len (Out.pending o) ->
  oinv m d (Out.set_pending o (from (Out.pending o) n)) (l ++ [Wrote (Out.fd_ o) b]).
Proof.
  intros (Hs & Hd & Ho) <- Hn. split; [done|]. cbn. rewrite reads_snoc, wrote_snoc, app_nil_r. split; intros E.
  - destruct (Hd E) as [? ->]. split; [done|]. rewrite E, decide_True by done. by rewrite <-app_assoc, upto_from.
  - destruct (Ho E) as (Hf & Hp & Hsp). split; [done|]. rewrite decide_False, app_nil_r by done. split; [done|by apply spoken_snoc].
Qed.

(** Events that are not of this output leave it as it is. *)
Lemma oinv_other m d o l e : oinv m d o l ->
  match e with Wrote f _ => f <> d | Read f _ => f <> m | _ => True end -> oinv m d o (l ++ [e]).
Proof.
  intros (Hs & Hd & Ho) He. split; [done|]. rewrite reads_snoc, wrote_snoc.
  assert ((match e with Read f b => if decide (f = m) then b else [] | _ => [] end) = []) as -> by (destruct e; try done; by rewrite decide_False).
  assert ((match e with Wrote f b => if decide (f = d) then b else [] | _ => [] end) = []) as -> by (destruct e; try done; by rewrite decide_False).
  rewrite !app_nil_r. split; intros E; [auto|]. destruct (Ho E) as (? & ? & ?). split_and!; try done. by apply spoken_snoc.
Qed.

Lemma oinv_push m d o b l : oinv m d o l -> oinv m d (Out.push o b) (l ++ [Read m b]).
Proof.
  intros (Hs & Hd & Ho). split; [done|]. rewrite reads_snoc, wrote_snoc, app_nil_r, decide_True by done. cbn. split; intros E.
  - destruct (Hd E) as [? ->]. split; [done|]. by rewrite app_assoc.
  - destruct (Ho E) as (? & ? & ?). split_and!; [done|by apply prefix_app_r|by apply spoken_snoc].
Qed.

Lemma oinv_relax m d o l : oinv m d o l -> oinv m d (Out.relax o) l.
Proof. done. Qed.
End Logs.

(** ** Handing output over *)

Section Output.
Context {W fd : Type} `{EqDecision fd} `{Term W fd, !TermLaws W fd}.
Notation log := (list (event fd)).
Notation Out := (Out.t fd).
#[local] Instance watched : Term (W * log) fd := watched_term.

(** What an operation on an output keeps of it. *)
Definition kept (o o' : Out) : Prop :=
  Out.sink o' = Out.sink o /\ Out.limit o' = Out.limit o /\ len (Out.pending o') <= len (Out.pending o).

#[global] Instance kept_preorder : PreOrder kept.
Proof. split; [done|]. unfold kept. intros ? ? ? (-> & -> & ?) (-> & -> & ?). split_and!; [done|done|lia]. Qed.

Lemma oinv_dest m d o (l : log) : oinv m d o l -> Out.fd_ o = d \/ Out.fd_ o = Out.sink o.
Proof. intros (Hs & Hd & Ho). destruct (decide (Out.fd_ o = d)); [by left|right; by apply Ho]. Qed.

Lemma t_say {Q : unit -> log -> Prop} (P : log -> Prop) msg : (forall l, P l -> Q tt (l ++ [Said msg])) -> triple P (act (say msg)) Q.
Proof. intros HQ w l u w' l' HP [= <- <- <-]. by apply HQ. Qed.

Lemma t_failed m d o e (R : log -> Prop) : framed d (Out.sink o) R ->
  triple (fun l => oinv m d o l /\ R l) (Out.failed o e) (fun o' l => (oinv m d o' l /\ kept o o') /\ R l).
Proof.
  intros HR. unfold Out.failed, Out.redirect. case_bool_decide as Hf.
  - eapply t_bind; [apply t_ret|]. intros [b o1]. apply (t_pre _ (fun l => (b, o1) = (false, o) /\ oinv m d o l /\ R l)); [done|].
    intros w l o2 w' l' [[= -> ->] [(Hs & Hd & Ho) HRl]] [= <- <- <-]. split; [|done]. split.
    + split; [done|]. cbn. split; intros E; [congruence|]. destruct (Ho E) as (? & ? & ?). done.
    + split_and!; [done|done|]. cbn. apply len_nonneg.
  - eapply (t_bind _ _ (fun r l => exists o1, r = (true, o1) /\ (oinv m d o1 l /\ kept o o1) /\ R l)).
    + eapply t_bind; [apply (t_say (Q := fun _ l => (oinv m d (Out.mk (Out.sink o) (Out.sink o) (Out.name o) (Out.pending o) (Out.limit o) (Out.open o)) l) /\ R l))|].
      * intros l [(Hs & Hd & Ho) HRl]. split; [|by apply HR]. split; [done|]. cbn. split; intros E; [congruence|].
        rewrite reads_snoc, wrote_snoc, !app_nil_r. split_and!; [done| |eexists; apply elem_of_app; right; by left].
        destruct (decide (Out.fd_ o = d)) as [Ed|Ed]; [|by apply Ho]. destruct (Hd Ed) as [_ ->]. by apply prefix_app_r.
      * intros ?. apply t_done. intros l [Hi HRl]. eexists. split; [done|]. split; [|done]. split; [done|]. done.
    + intros [b o1]. intros w l o2 w' l' (o1' & [= -> ->] & Hi) [= <- <- <-]. done.
Qed.

Lemma t_flush_loop m d fuel o (R : log -> Prop) : framed d (Out.sink o) R ->
  triple (fun l => oinv m d o l /\ R l) (Out.flush_loop fuel o) (fun o' l => (oinv m d o' l /\ kept o o') /\ R l).
Proof.
  revert o. induction fuel as [|fuel IH]; intros o HR; cbn [Out.flush_loop].
  { destruct (_ && _); [apply t_fuel|]. apply t_done. by intros l [? ?]. }
  destruct (Out.open o && Out.waiting o) eqn:Ew; [|apply t_done; by intros l [? ?]].
  apply andb_true_iff in Ew as [_ Hw]. unfold Out.waiting in Hw. apply bool_decide_eq_true in Hw.
  assert (forall e, triple (fun l => oinv m d o l /\ R l) (o ← Out.failed o e; Out.flush_loop fuel o)
    (fun o' l => (oinv m d o' l /\ kept o o') /\ R l)) as Hfail.
  { intros e. eapply t_bind; [by apply t_failed|]. intros o1.
    intros w l o2 w' l' [[Hi Hk] HRl] E. eapply (IH o1) in E as [[Hi2 Hk2] ?]; [|by rewrite (proj1 Hk)|done].
    split; [|done]. split; [done|by etrans]. }
  intros w l o' w' l' [Hi HRl]. unfold mbind at 1, M_bind, eff at 1. cbn. unfold quiet.
  destruct (as_slices (Out.pending o) w) as [n1 w1] eqn:Es. apply as_slices_first in Es; [|done].
  unfold mbind at 1, M_bind, eff at 1, recorded. destruct (write (Out.fd_ o) _ w1) as [r w2] eqn:Ew. destruct r as [n|e].
  - apply write_room in Ew. rewrite len_upto in Ew by lia.
    set (b := upto (upto (Out.pending o) n1) n) in *.
    assert (b = upto (Out.pending o) n) as Hb.
    { unfold b, upto. rewrite take_take. f_equal. lia. }
    assert (HRw : R (l ++ [Wrote (Out.fd_ o) b])) by (apply HR; [by apply (oinv_dest m d o l)|done]).
    assert (Hi1 : oinv m d (Out.set_pending o (from (Out.pending o) n)) (l ++ [Wrote (Out.fd_ o) b])) by (apply oinv_wrote; [done|done|lia]).
    destruct (Z.eqb_spec n 0) as [->|Hn].
    + intros E. eapply Hfail in E; [done|]. split; [|done]. rewrite from_0 in Hi1. by destruct o.
    + intros E. eapply (IH (Out.set_pending o (from (Out.pending o) n))) in E as [[Hi2 Hk2] ?]; [|done|done].
      split; [|done]. split; [done|]. etrans; [|done]. split_and!; [done|done|]. cbn. rewrite len_from; lia.
  - destruct (again e).
    + rewrite app_nil_r. intros [= <- <- <-]. done.
    + intros E. eapply Hfail in E; [done|]. split; [by apply oinv_other|apply HR; [|done]]. by apply (oinv_dest m d o l).
Qed.

Lemma t_flush m d o (R : log -> Prop) : framed d (Out.sink o) R ->
  triple (fun l => oinv m d o l /\ R l) (Out.flush o) (fun o' l => (oinv m d o' l /\ kept o o') /\ R l).
Proof. apply t_flush_loop. Qed.

Lemma oinv_delivered m d o (l : log) : oinv m d o l -> Out.open o && Out.waiting o = false -> delivered m d l.
Proof.
  intros (Hs & Hd & Ho) Hw. destruct (decide (Out.fd_ o = d)) as [Ed|Ed].
  - destruct (Hd Ed) as [Hop Hr]. rewrite Hop in Hw. unfold Out.waiting in Hw. cbn in Hw. apply bool_decide_eq_false in Hw.
    unfold delivered. rewrite Hr. destruct (Out.pending o); [|by destruct Hw]. by rewrite app_nil_r.
  - destruct (Ho Ed) as (_ & Hp & Hsp). split; [done|]. by intros [].
Qed.

Lemma t_give_up m d o why (R : log -> Prop) : framed d (Out.sink o) R ->
  triple (fun l => oinv m d o l /\ R l) (Out.giving_up o why) (fun _ l => delivered m d l /\ R l).
Proof.
  intros HR. unfold Out.giving_up. eapply t_bind; [apply (t_say (Q := fun _ l => delivered m d l /\ R l))|intros ?; by apply t_done].
  intros l [(Hs & Hd & Ho) HRl]. split; [|by apply HR]. split.
  - rewrite reads_snoc, wrote_snoc, !app_nil_r. destruct (decide (Out.fd_ o = d)) as [Ed|Ed]; [|by apply Ho].
    destruct (Hd Ed) as [_ ->]. by apply prefix_app_r.
  - intros []. eexists. apply elem_of_app. right. by left.
Qed.

Lemma t_finish_loop m d fuel by_ moved hurried o (R : log -> Prop) : framed d (Out.sink o) R ->
  triple (fun l => oinv m d o l /\ R l) (Out.finish_loop fuel by_ moved hurried o) (fun _ l => delivered m d l /\ R l).
Proof.
  revert moved hurried o. induction fuel as [|fuel IH]; intros moved hurried o HR; cbn [Out.finish_loop];
    (destruct (Out.open o && Out.waiting o) eqn:Ew; [|apply t_done; intros l [Hi ?]; split; [by eapply oinv_delivered|done]]); [apply t_fuel|].
  intros w l o' w' l' Hi E. unfold mbind at 1, M_bind in E. destruct (Out.flush o (w, l)) as [[o1 [w1 l1]]|] eqn:Ef; [|done].
  apply (t_flush m d o R HR) in Ef as [[Hi1 (Hk & _)] HR1]; [|done]. rewrite <-Hk in HR. revert E.
  case_bool_decide as Hp.
  { intros [= <- <- <-]. split; [|done]. eapply oinv_delivered; [done|]. unfold Out.waiting. rewrite bool_decide_false by (by intros []).
    apply andb_false_r. }
  intros E. apply (t_apply E (fun l => oinv m d o1 l /\ R l) (fun _ l => delivered m d l /\ R l)); [done|].
  eapply t_bind; [apply t_quiet|]. intros t. eapply (t_bind _ _ (fun _ l => oinv m d o1 l /\ R l)).
  { destruct hurried; [by apply t_done|]. eapply t_bind; [apply t_quiet|]. intros s. by apply t_done. }
  intros h. destruct (match h with Some t0 => t - t0 >=? HURRY | None => false end); [by apply t_give_up|].
  destruct (_ || _); [by apply t_give_up|]. eapply t_bind; [apply t_quiet|]. intros r. by apply IH.
Qed.

Lemma t_finish m d fuel by_ o (R : log -> Prop) : framed d (Out.sink o) R ->
  triple (fun l => oinv m d o l /\ R l) (Out.finish fuel by_ o) (fun _ l => delivered m d l /\ R l).
Proof.
  intros HR. eapply t_bind; [apply t_quiet|]. intros t. eapply t_bind; [apply t_quiet|]. intros s. by apply t_finish_loop.
Qed.

(** Reading for an output: what comes is pushed. *)
Lemma t_drain_loop m d fuel deadline reading o : 
  triple (oinv m d o) (drain_loop fuel deadline m reading o) (fun o' l => oinv m d o' l).
Proof.
  revert reading o. induction fuel as [|fuel IH]; intros reading o; cbn [drain_loop];
    (destruct (reading && Out.open o); [|by apply t_done]); [apply t_fuel|].
  eapply t_bind; [eapply t_post; [|eapply t_pre; [|apply (t_flush m d o (fun _ => True))]]|]; [|by intros l Hi|by intros ? ? ? ?|].
  { intros o' l [[Hi _] _]. exact Hi. }
  intros o1. cbn beta. eapply t_bind; [apply t_quiet|]. intros t. cbn beta. destruct (_ =? 0); [by apply t_done|].
  eapply t_bind; [apply t_quiet|]. intros [[n revents]|e]; [|destruct (interrupted e); [apply IH|by apply t_done]].
  destruct (n =? 0); [by apply t_done|]. destruct (negb _); [apply IH|].
  eapply t_bind; [apply t_recorded|]. intros [b|e].
  - destruct (Z.eqb_spec (len b) 0) as [Hb|Hb]; (eapply t_pre; [|apply IH]); intros l (l0 & Hi & ->); [|by apply oinv_push].
    apply len_0 in Hb as ->. pose proof (oinv_push m d o1 [] l0 Hi) as Hi'. revert Hi'. unfold Out.push. rewrite app_nil_r. by destruct o1.
  - eapply t_pre; [|apply IH]. intros l (l0 & Hi & ->). by rewrite app_nil_r.
Qed.

Lemma t_drain m d fuel reading o : triple (oinv m d o) (drain fuel m reading o) (fun _ l => delivered m d l).
Proof.
  unfold drain. eapply t_bind; [apply t_quiet|]. intros t. eapply t_bind; [eapply t_pre; [|apply t_drain_loop]; apply oinv_relax|].
  intros o1. cbn beta. eapply t_bind; [apply t_quiet|]. intros t'. cbn beta.
  eapply t_post; [|eapply t_pre; [|apply (t_finish m d fuel _ o1 (fun _ => True))]]; [by intros ? ? [? _]|done|by intros ? ? ? ?].
Qed.
End Output.

(** ** The detach sequence *)

Module EscapeFacts.
Import Escape.

Definition wf (e : t) : Prop := 0 <= held e < DETACH_RUN.
Definition held_bytes (e : t) : bytes := replicate (Z.to_nat (held e)) ESCAPE.

Lemma expire_spec now e out e' : wf e -> expire now e = (out, e') ->
  wf e' /\ held_bytes e = out ++ held_bytes e' /\
  (e' = e /\ out = [] /\ (forall s, since e = Some s -> now - s <= DETACH_WINDOW) \/ held e' = 0).
Proof.
  unfold expire. intros Hw. destruct (since e) as [s|] eqn:Es; [|intros [= <- <-]; split; [done|]; split; [done|]; left; split_and!; by try congruence].
  rewrite Z.gtb_ltb. destruct (Z.ltb_spec DETACH_WINDOW (now - s)).
  - intros [= <- <-]. split; [done|]. split; [by rewrite app_nil_r|by right].
  - intros [= <- <-]. split; [done|]. split; [done|]. left. split_and!; [done|done|]. congruence.
Qed.

(** Nothing typed is lost or reordered: it is let through or still held.  A detach is
    three escapes in a row, at most the window after the first of them if that one
    was held from before. *)
Lemma feed_spec chunk now e d out e' : wf e -> feed chunk now e = (d, out, e') -> wf e' /\
  if d then
    (exists q, held_bytes e ++ chunk = out ++ replicate 3 ESCAPE ++ q) /\
    ((0 < held e /\ (forall s, since e = Some s -> now - s <= DETACH_WINDOW)) \/ exists p q, chunk = p ++ replicate 3 ESCAPE ++ q)
  else held_bytes e ++ chunk = out ++ held_bytes e'.
Proof.
  revert e d out e'. induction chunk as [|b chunk IH]; intros e d out e' Hw; cbn [feed].
  { intros [= <- <- <-]. split; [done|]. by rewrite app_nil_r. }
  case_bool_decide as Hb; cbn [negb].
  - subst b. destruct (expire now e) as [out1 e1] eqn:Ee. apply expire_spec in Ee as (Hw1 & Hh & Hc); [|done].
    assert (held_bytes e ++ ESCAPE :: chunk = out1 ++ replicate (Z.to_nat (held e1 + 1)) ESCAPE ++ chunk) as Hall.
    { rewrite Hh. unfold held_bytes. replace (Z.to_nat (held e1 + 1)) with (Z.to_nat (held e1) + 1)%nat by (unfold wf in *; lia).
      rewrite replicate_add. by rewrite <-!app_assoc. }
    unfold DETACH_RUN in *. destruct (Z.eqb_spec (held e1 + 1) 3) as [H3|H3].
    + intros [= <- <- <-]. split; [by cbn|]. rewrite H3 in Hall. split; [by exists chunk; rewrite Hall|]. left.
      destruct Hc as [(-> & _ & Hs)|H0]; [|lia]. split; [lia|done].
    + destruct (feed chunk now _) as [[d1 out2] e2] eqn:Ef. intros [= <- <- <-].
      apply IH in Ef as [Hw2 Hd]; [|unfold wf, DETACH_RUN in *; cbn; lia]. split; [done|].
      rewrite Hall. change (replicate (Z.to_nat (held e1 + 1)) ESCAPE) with (held_bytes (mk (held e1 + 1) (if held e1 + 1 =? 1 then Some now else since e1))).
      destruct d1; [|by rewrite Hd, app_assoc].
      destruct Hd as [[q Hq] Hx]. split; [exists q; by rewrite Hq, app_assoc|]. destruct Hx as [[_ Hs]|(p & q' & ->)]; [|right; by exists (ESCAPE :: p), q'].
      cbn [since] in Hs. destruct (Z.eqb_spec (held e1 + 1) 1) as [H1|H1].
      * right. assert (held e1 = 0) as E0 by lia. rewrite E0 in Hq. cbn in Hq. destruct out2 as [|x out2].
        -- exists [], q. exact Hq.
        -- injection Hq as _ Hq. exists (ESCAPE :: out2), q. cbn. by rewrite Hq.
      * left. destruct Hc as [(-> & _ & Hs')|H0]; [|lia]. split; [|done]. unfold wf in *. lia.
  - unfold release. destruct (feed chunk now _) as [[d1 out2] e2] eqn:Ef. intros [= <- <- <-].
    apply IH in Ef as [Hw2 Hd]; [|by cbn]. split; [done|]. unfold held_bytes in *. cbn [held] in Hd.
    change (replicate (Z.to_nat 0) ESCAPE ++ chunk) with chunk in Hd. rewrite <-!app_assoc.
    destruct d1; [|cbn; by rewrite Hd].
    destruct Hd as [[q Hq] Hx]. split; [exists q; by rewrite Hq, <-!app_assoc|]. right.
    destruct Hx as [[? _]|(p & q' & Hp)]; [lia|]. exists (b :: p), q'. by rewrite Hp.
Qed.
End EscapeFacts.

(** ** The relay of a terminal *)

Section RelayFacts.
Context {W fd : Type} `{EqDecision fd} `{Term W fd, !TermLaws W fd}.
Context (master dest sink host : fd).
Context (Hdm : dest <> master) (Hsm : sink <> master) (Hhm : host <> master).
Notation log := (list (event fd)).
Notation State := (State (fd := fd)).
#[local] Existing Instance watched.

(** What was typed: the pty has had a part of it, the rest waits, or is held back. *)
Definition typing (s : State) (l : log) : bytes := wrote master l ++ typed s ++ EscapeFacts.held_bytes (escape s).

Record tinv (s : State) (l : log) : Prop := {
  t_escape : EscapeFacts.wf (escape s);
  t_stdin f : stdin s = Some f -> f = host /\ typing s l = input host l;
  t_perm : Broken master ∉ l -> typing s l ≡ₚ input host l }.

Lemma typing_frame s l e : out_event dest sink e -> typing s (l ++ [e]) = typing s l /\ input host (l ++ [e]) = input host l.
Proof.
  intros He. unfold typing. rewrite wrote_snoc, input_snoc. destruct e as [|f b| |f|msg]; try done; cbn in He |- *.
  - rewrite decide_False, !app_nil_r by (destruct He; congruence). done.
  - by rewrite !app_nil_r.
  - by rewrite !app_nil_r.
Qed.

Lemma tinv_frame s : framed dest sink (tinv s).
Proof.
  intros l e He [He1 Hs Hp]. destruct (typing_frame s l e He) as [E1 E2]. split; [done| |]; rewrite ?E1, ?E2; [done|].
  intros Hb. apply Hp. intros H1. apply Hb. apply elem_of_app. by left.
Qed.

Definition rinv (s : State) (l : log) : Prop := (oinv master dest (out s) l /\ tinv s l) /\ Out.sink (out s) = sink.

(** A detach: three escapes in what was typed, and nothing of them or of what follows
    has gone to the pty. *)
Definition detached (l : log) : Prop := exists waiting q, input host l = wrote master l ++ waiting ++ replicate 3 ESCAPE ++ q.

Lemma detached_frame : framed dest sink detached.
Proof.
  intros l e He (t & q & E). exists t, q. rewrite wrote_snoc, input_snoc, E.
  destruct e as [|f b| |f|msg]; try done; cbn in He; rewrite ?app_nil_r; try done.
  by rewrite decide_False, app_nil_r by (destruct He; congruence).
Qed.

Definition relay_inv (r : State + result io_error RelayEnd) (l : log) : Prop :=
  match r with
  | inl s => rinv s l
  | inr (Ok (Exited _)) => delivered master dest l
  | inr (Ok Detached) => delivered master dest l /\ detached l
  | inr (Err _) => wrote dest l `prefix_of` reads master l
  end.

Lemma tinv_eq s s' l : stdin s' = stdin s -> typed s' = typed s -> escape s' = escape s -> tinv s l -> tinv s' l.
Proof. intros E1 E2 E3 []. split; unfold typing; rewrite ?E1, ?E2, ?E3; done. Qed.

Lemma t_expire s : triple (rinv s) (expire_escape s) rinv.
Proof.
  unfold expire_escape. eapply t_bind; [apply t_quiet|]. intros t. destruct (Escape.expire t (escape s)) as [rel e] eqn:Ee.
  apply t_done. intros l [[Hi [He Hs Hp]] Hk]. apply EscapeFacts.expire_spec in Ee as (Hw & Hh & _); [|done].
  split; [|done]. split; [done|].
  assert (forall r o, typing (mkState (stdin s) (typed s ++ rel) e r o) l = typing s l) as Et.
  { intros r o. unfold typing. cbn. by rewrite Hh, <-!app_assoc. }
  split; cbn; rewrite ?Et; done.
Qed.

Lemma t_flush_out s : triple (rinv s) (flush_out s) (fun s' l => rinv s' l /\ stdin s' = stdin s /\ typed s' = typed s).
Proof.
  intros w l s' w' l' [Hi Hk] E. unfold flush_out in E. unfold mbind, M_bind in E.
  destruct (Out.flush (out s) (w, l)) as [[o [w1 l1]]|] eqn:Ef; [|done]. injection E as <- <- <-.
  apply (t_flush master dest (out s) (tinv s)) in Ef as [[Ho (Hs & _)] Ht]; [|rewrite Hk; apply tinv_frame|done].
  split; [|done]. split; [|cbn; by rewrite Hs]. split; [done|]. by apply (tinv_eq s).
Qed.

Lemma oinv_unread s l e : oinv master dest (out s) l -> match e with Read f _ => f <> master | Wrote f _ => f = master | _ => True end ->
  oinv master dest (out s) (l ++ [e]).
Proof. intros Hi He. apply oinv_other; [done|]. destruct e; try done. by subst. Qed.

Lemma t_write_typed s : triple (rinv s) (write_typed master s) rinv.
Proof.
  intros w l s' w' l' [[Hi Ht] Hk] E. unfold write_typed, mbind, M_bind, eff in E. cbn in E. unfold recorded in E.
  destruct (write master (typed s) w) as [[n|e] w1] eqn:Ew; cbn in E.
  - injection E as <- <- <-. apply write_room in Ew. split; [|done]. split; [by apply oinv_unread|].
    destruct Ht as [He Hs Hp].
    assert (typing (set_typed s (from (typed s) n)) (l ++ [Wrote master (upto (typed s) n)]) = typing s l) as Et.
    { unfold typing. rewrite wrote_snoc, decide_True by done. cbn. rewrite <-app_assoc. f_equal. by rewrite app_assoc, upto_from. }
    split; [done| |]; rewrite Et, input_snoc, app_nil_r; [done|]. intros Hb. apply Hp. set_solver.
  - destruct (again e); injection E as <- <- <-.
    + rewrite app_nil_r. done.
    + split; [|done]. split; [by apply oinv_unread|]. split; [apply Ht|done|]. intros Hb. exfalso. apply Hb. set_solver.
Qed.

Lemma t_read_master s : triple (rinv s) (read_master master s) rinv.
Proof.
  intros w l s' w' l' [[Hi Ht] Hk] E. unfold read_master in E. unfold mbind at 1, M_bind, eff in E. cbn [read watched watched_term] in E.
  unfold recorded in E. destruct (read master CHUNK w) as [[b|e] w1].
  - assert (Ht' : forall s1, stdin s1 = stdin s -> typed s1 = typed s -> escape s1 = escape s -> tinv s1 (l ++ [Read master b])).
    { intros s1 E1 E2 E3. destruct Ht as [He Hs Hp].
      assert (typing s1 (l ++ [Read master b]) = typing s l) as Et by (unfold typing; by rewrite wrote_snoc, app_nil_r, E2, E3).
      split; [by rewrite E3| |]; rewrite Et, input_snoc, decide_False, app_nil_r by done; [by rewrite E1|].
      intros Hb. apply Hp. set_solver. }
    destruct (Z.eqb_spec (len b) 0) as [Hb|Hb].
    + injection E as <- <- <-. split; [|done]. split; [|by apply Ht']. apply len_0 in Hb as ->.
      pose proof (oinv_push master dest (out s) [] l Hi) as Hi'. revert Hi'. unfold Out.push. rewrite app_nil_r. cbn. by destruct (out s).
    + unfold mbind, M_bind in E. destruct (Out.flush _ _) as [[o [w2 l2]]|] eqn:Ef; [|done]. injection E as <- <- <-.
      apply (t_flush master dest (Out.push (out s) b) (tinv s)) in Ef as [[Ho (Hs & _)] Ht2].
      * split; [|cbn; by rewrite Hs]. split; [done|]. by apply (tinv_eq s).
      * cbn. rewrite Hk. apply tinv_frame.
      * split; [by apply oinv_push|by apply Ht'].
  - rewrite app_nil_r in E. destruct (again e); injection E as <- <- <-; [done|]. split; [|done]. split; [done|]. by apply (tinv_eq s).
Qed.

Lemma oinv_prefix m d o (l : log) : oinv m d o l -> wrote d l `prefix_of` reads m l.
Proof.
  intros (Hs & Hd & Ho). destruct (decide (Out.fd_ o = d)) as [Ed|Ed]; [|by apply Ho].
  destruct (Hd Ed) as [_ ->]. by apply prefix_app_r.
Qed.

(** The bytes read from the host are fed to the detach sequence. *)
Lemma tinv_fed s l b t d seen e rd o : stdin s = Some host -> tinv s l -> Escape.feed b t (escape s) = (d, seen, e) ->
  let s' := mkState (stdin s) (typed s ++ seen) e rd o in
  if d then detached (l ++ [Read host b]) else tinv s' (l ++ [Read host b]).
Proof.
  intros Hst [He Hs Hp] Ef. apply EscapeFacts.feed_spec in Ef as [Hw Hd]; [|done]. destruct (Hs _ Hst) as [_ Hx].
  assert (input host (l ++ [Read host b]) = wrote master l ++ typed s ++ EscapeFacts.held_bytes (escape s) ++ b) as Ei.
  { rewrite input_snoc, decide_True, <-Hx by done. unfold typing. by rewrite <-!app_assoc. }
  destruct d.
  - destruct Hd as [[q Hq] _]. exists (typed s ++ seen), q. rewrite Ei, Hq, wrote_snoc, app_nil_r. by rewrite <-!app_assoc.
  - assert (typing (mkState (stdin s) (typed s ++ seen) e rd o) (l ++ [Read host b]) = input host (l ++ [Read host b])) as Et.
    { unfold typing. cbn. rewrite Ei, Hd, wrote_snoc, app_nil_r. by rewrite <-!app_assoc. }
    split; [done| |intros _; by rewrite Et]. cbn [stdin]. intros f Hf. split; [congruence|exact Et].
Qed.

Definition host_inv (r : State + RelayEnd) (l : log) : Prop :=
  match r with inl s => rinv s l | inr _ => delivered master dest l /\ detached l end.

Lemma t_read_host fuel s : stdin s = Some host -> triple (rinv s) (read_host fuel master host s) host_inv.
Proof.
  intros Hst w l r w' l' [[Hi Ht] Hk] E. unfold read_host in E. unfold mbind at 1, M_bind, eff in E. cbn [read watched watched_term] in E.
  unfold recorded in E. destruct (read host CHUNK w) as [[b|e] w1].
  - assert (Hi' : oinv master dest (out s) (l ++ [Read host b])) by (by apply oinv_unread).
    destruct (Z.eqb_spec (len b) 0) as [Hb|Hb].
    + unfold mbind, M_bind in E. cbn [eof_char watched watched_term] in E. unfold recorded in E.
      apply len_0 in Hb as ->. destruct (eof_char master w1) as [eof w2]. injection E as <- <- <-.
      split; [|exact Hk]. split; [cbn; destruct eof; [by apply oinv_other|rewrite app_nil_r; exact Hi']|].
      destruct Ht as [He Hs Hp]. destruct (Hs _ Hst) as [_ Hx]. split; [done|done|]. intros _.
      assert (wrote master ((l ++ [Read host []]) ++ match eof with Some c => [Eof c] | None => [] end) = wrote master l) as Ew.
      { destruct eof; [rewrite wrote_snoc, app_nil_r|rewrite app_nil_r]; by rewrite wrote_snoc, app_nil_r. }
      assert (input host ((l ++ [Read host []]) ++ match eof with Some c => [Eof c] | None => [] end) =
        input host l ++ match eof with Some c => [c] | None => [] end) as Ei.
      { destruct eof; [rewrite input_snoc; f_equal|rewrite !app_nil_r]; by rewrite input_snoc, decide_True, app_nil_r. }
      unfold typing in *. cbn. rewrite Ew, Ei, <-Hx, <-!app_assoc. do 2 apply Permutation_app_head. apply Permutation_app_comm.
    + unfold mbind at 1, M_bind in E. cbn [now watched watched_term] in E. unfold quiet at 1 in E. destruct (now w1) as [t w2] in E.
      destruct (Escape.feed b t (escape s)) as [[d seen] e] eqn:Ef.
      pose proof (tinv_fed s l b t d seen e (reading s) (out s) Hst Ht Ef) as Hd. destruct d.
      * apply (t_apply E (fun l => oinv master dest (out s) l /\ detached l) host_inv); [done|]. cbn [out].
        eapply t_bind; [apply t_quiet|]. intros t'. eapply t_bind; [|intros o; apply t_done; intros l1 Hl1; exact Hl1].
        apply (t_finish master dest fuel (t' + FLUSH_MAX) (Out.relax (out s)) detached). cbn. rewrite Hk. apply detached_frame.
      * injection E as <- <- <-. split; [|done]. split; [done|exact Hd].
  - rewrite app_nil_r in E. destruct (again e); injection E as <- <- <-; [done|]. split; [|done]. split; [done|].
    destruct Ht as [He Hs Hp]. by split.
Qed.

Lemma t_relay_ready fuel s revents : triple (rinv s) (relay_ready fuel master s revents s) host_inv.
Proof.
  unfold relay_ready.
  set (P := fun (s' : State) l => rinv s' l /\ (typed s = [] -> stdin s' = stdin s /\ typed s' = [])).
  eapply (t_bind _ _ P).
  { destruct (negb _); [eapply t_post; [|apply t_flush_out]|apply t_done; intros l Hi; split; [done|by intros ->]].
    intros s1 l (Hi & E1 & E2). split; [done|]. intros Et. by rewrite E1, E2. }
  intros s1. eapply (t_bind _ _ P).
  { destruct (OUT _ && bool_decide (typed s1 <> [])) eqn:Eb; [|by apply t_done].
    apply andb_true_iff in Eb as [_ Eb]. apply bool_decide_eq_true in Eb.
    intros w l s2 w' l' [Hi Ht] E. split; [by eapply t_write_typed|]. intros Et. by destruct (Ht Et) as [_ ?]. }
  intros s2. eapply (t_bind _ _ host_inv).
  { unfold read_stdin. case_bool_decide as Et; [|apply t_done; by intros l [? _]].
    destruct (stdin s) as [f|] eqn:Es; [|apply t_done; by intros l [? _]].
    destruct (negb _); [|apply t_done; by intros l [? _]].
    intros w l r w' l' [Hi Ht] E. destruct (Ht Et) as [Es2 _]. destruct (t_stdin s2 l (proj2 (proj1 Hi)) f) as [-> _]; [by rewrite Es2|].
    eapply t_read_host; [|exact Hi|exact E]. by rewrite Es2. }
  intros [s3|e]; [|by apply t_done].
  destruct (reading s3 && _); [|by apply t_done]. eapply t_bind; [apply t_read_master|]. intros s4. by apply t_done.
Qed.

Lemma t_relay_turn fuel host_out s : triple (rinv s) (relay_turn fuel master host_out s) relay_inv.
Proof.
  unfold relay_turn. eapply t_bind; [apply t_quiet|]. intros [code|].
  { eapply t_bind; [eapply t_pre; [|apply (t_drain master dest)]; by intros l [[? _] _]|]. intros o. by apply t_done. }
  eapply t_bind; [apply t_quiet|]. intros w. eapply (t_bind _ _ (fun _ => rinv s)); [destruct w; [apply t_quietly|by apply t_done]|].
  intros ?. eapply t_bind; [apply t_expire|]. intros s1. eapply t_bind; [apply t_quiet|]. intros [[n revents]|e].
  - eapply t_bind; [apply t_relay_ready|]. intros [s2|e]; [by apply t_done|]. apply t_done. intros l Hl.
    destruct e; [exact (proj1 Hl)|exact Hl].
  - apply t_done. intros l Hi. destruct (interrupted e); [exact Hi|]. exact (oinv_prefix _ _ _ _ (proj1 (proj1 Hi))).
Qed.

Lemma t_relay_turns fuel n host_out s : triple (rinv s) (relay_turns fuel n master host_out s) relay_inv.
Proof.
  revert s. induction n as [|n IH]; intros s; cbn [relay_turns]; [by apply t_done|].
  eapply t_bind; [apply t_relay_turn|]. intros [s1|e]; [apply IH|by apply t_done].
Qed.

Lemma t_relay fuel n host_in host_out name : sink <> dest -> host_in = None \/ host_in = Some host ->
  triple (fun l => l = []) (relay fuel n master host_in host_out dest name sink) relay_inv.
Proof.
  intros Hsd Hh. eapply t_pre; [|apply t_relay_turns]. intros l ->. split; [|done]. split; [by apply oinv_new|].
  split; [by cbn| |by intros _]. intros f [= Hf]. split; [|done]. destruct Hh; congruence.
Qed.
End RelayFacts.

(** ** The relay of pipes *)

Section PumpFacts.
Context {W fd : Type} `{EqDecision fd} `{Term W fd, !TermLaws W fd}.
Context (sink : fd) (limit : Z).
Notation log := (list (event fd)).
Notation Lane := (Lane (fd := fd)).
#[local] Existing Instance watched.

(** Never more than the limit and one read are held. *)
Definition bounded (o : Out.t fd) : Prop := len (Out.pending o) < limit + CHUNK /\ Out.limit o = limit.

(** A lane carries the pipe [pd.1] to the host [pd.2]. *)
Definition lane_ok (l : log) (pd : fd * fd) (lane : Lane) : Prop :=
  pipe lane = pd.1 /\ oinv pd.1 pd.2 (l_out lane) l /\ Out.sink (l_out lane) = sink /\ bounded (l_out lane).

Definition lane_event (pd : fd * fd) (e : event fd) : Prop := out_event pd.2 sink e \/ exists b, e = Read pd.1 b.
Definition lane_framed (pd : fd * fd) (R : log -> Prop) : Prop := forall l e, lane_event pd e -> R l -> R (l ++ [e]).

(** Lanes that do not get in each other's way. *)
Definition apart (x y : fd * fd) : Prop := x.1 <> y.1 /\ x.2 <> y.2 /\ y.2 <> sink.

Lemma other_lane x y e : apart x y -> lane_event x e ->
  match e with Wrote f _ => f <> y.2 | Read f _ => f <> y.1 | _ => True end.
Proof. intros (H1 & H2 & H3) [He|[b ->]]; [|done]. destruct e; try done. cbn in He. destruct He; congruence. Qed.

Lemma lane_ok_framed x y lane : apart x y -> lane_framed x (fun l => lane_ok l y lane).
Proof. intros Ha l e He (Hp & Ho & Hs). split; [done|]. split; [|done]. apply oinv_other; [done|]. by eapply other_lane. Qed.

Lemma delivered_framed x y : apart x y -> lane_framed x (delivered y.1 y.2).
Proof.
  intros Ha l e He [Hp Hd]. pose proof (other_lane x y e Ha He) as Ho. unfold delivered. rewrite reads_snoc, wrote_snoc.
  assert ((match e with Read f b => if decide (f = y.1) then b else [] | _ => [] end) = []) as -> by (destruct e; try done; by rewrite decide_False).
  assert ((match e with Wrote f b => if decide (f = y.2) then b else [] | _ => [] end) = []) as -> by (destruct e; try done; by rewrite decide_False).
  rewrite !app_nil_r. split; [done|]. intros Hs. apply Hd. intros H1. apply Hs. by apply spoken_snoc.
Qed.

Lemma lane_out pd R : lane_framed pd R -> framed pd.2 sink R.
Proof. intros HR l e He. apply HR. by left. Qed.

Lemma kept_bounded o o' : kept o o' -> bounded o -> bounded o'.
Proof. intros (_ & El & Hl) [? ?]. unfold bounded. rewrite El. split; [lia|done]. Qed.

Lemma t_flush_lane pd lane R : lane_framed pd R ->
  triple (fun l => lane_ok l pd lane /\ R l) (flush_lane lane) (fun lane' l => lane_ok l pd lane' /\ R l).
Proof.
  intros HR w l lane' w' l' [(Hp & Ho & Hs & Hb) HRl] E. unfold flush_lane, mbind, M_bind in E.
  destruct (Out.flush (l_out lane) (w, l)) as [[o [w1 l1]]|] eqn:Ef; [|done]. injection E as <- <- <-.
  apply (t_flush pd.1 pd.2 (l_out lane) R) in Ef as [[Ho1 Hk] HR1]; [|rewrite Hs; by apply lane_out|done].
  split; [|done]. split_and!; [done|done|by cbn; rewrite (proj1 Hk)|by eapply kept_bounded].
Qed.

Lemma t_read_pipe pd lane R : lane_framed pd R -> Out.full (l_out lane) = false ->
  triple (fun l => lane_ok l pd lane /\ R l) (read_pipe lane) (fun lane' l => lane_ok l pd lane' /\ R l).
Proof.
  intros HR Hfull w l lane' w' l' [(Hp & Ho & Hs & Hb) HRl] E. unfold read_pipe in E. unfold mbind at 1, M_bind, eff in E.
  cbn [read watched watched_term] in E. unfold recorded in E. destruct (read (pipe lane) CHUNK w) as [[b|e] w1] eqn:Er.
  - apply read_room in Er; [|done]. rewrite Hp in E. assert (HR1 : R (l ++ [Read pd.1 b])) by (apply HR; [right; by exists b|done]).
    destruct (Z.eqb_spec (len b) 0) as [Hb0|Hb0].
    + injection E as <- <- <-. split; [|done]. split_and!; [done| |done|done].
      apply len_0 in Hb0 as ->. pose proof (oinv_push pd.1 pd.2 (l_out lane) [] l Ho) as Hi. revert Hi. unfold Out.push. rewrite app_nil_r. cbn. by destruct (l_out lane).
    + unfold mbind, M_bind in E. destruct (Out.flush _ _) as [[o [w2 l2]]|] eqn:Ef; [|done]. injection E as <- <- <-.
      apply (t_flush pd.1 pd.2 (Out.push (l_out lane) b) R) in Ef as [[Ho1 Hk] HR2].
      * split; [|done]. split_and!; [done|done|by cbn; rewrite (proj1 Hk)|]. eapply kept_bounded; [done|].
        unfold Out.full in Hfull. unfold bounded in *. cbn. rewrite len_app. destruct Hb as [_ Hb].
        split; [|done]. revert Hfull. destruct (Z.geb_spec (len (Out.pending (l_out lane))) (Out.limit (l_out lane))); [done|]. lia.
      * cbn. rewrite Hs. by apply lane_out.
      * split; [by apply oinv_push|done].
  - rewrite app_nil_r in E. destruct (again e); injection E as <- <- <-; done.
Qed.

Lemma lane_settle l pd lane : lane_ok l pd lane -> lane_ok l pd (settle lane).
Proof. intros (? & ? & ? & ?). unfold settle. destruct (Out.open _); done. Qed.

Lemma t_serve_lane pd lane ready R : lane_framed pd R ->
  triple (fun l => lane_ok l pd lane /\ R l) (serve_lane lane ready) (fun r l => lane_ok l pd r.1 /\ R l).
Proof.
  intros HR. unfold serve_lane. set (P := fun lane' (l : log) => lane_ok l pd lane' /\ R l).
  assert (forall (b : bool) (m : M (W * log) Lane) x, (b = true -> triple (P x) m P) ->
    triple (P x) (if b then l ← m; mret (settle l) else mret x) P) as Hready.
  { intros b m x Hm. destruct b; [|by apply t_done]. eapply t_bind; [by apply Hm|]. intros y. apply t_done.
    intros l [? ?]. split; [by apply lane_settle|done]. }
  eapply (t_bind _ _ (fun r => P r.1)).
  - destruct (wants_read lane) eqn:Ew; [|by apply t_done]. eapply t_bind; [apply Hready|intros y; by apply t_done].
    intros _. apply t_read_pipe; [done|]. unfold wants_read in Ew. apply andb_true_iff in Ew as [_ Ew]. by apply negb_true_iff in Ew.
  - intros [lane1 ready1]. cbn [fst]. destruct (Out.waiting (l_out lane)); [|by apply t_done].
    eapply t_bind; [apply Hready|intros y; by apply t_done]. intros _. by apply t_flush_lane.
Qed.

Definition all_apart (spec : list (fd * fd)) : Prop := forall x y, x ∈ spec -> y ∈ spec -> x <> y -> apart x y.

Lemma lanes_framed x spec lanes : (forall y, y ∈ spec -> apart x y) -> lane_framed x (fun l => Forall2 (lane_ok l) spec lanes).
Proof.
  intros Ha l e He Hf. induction Hf as [|y lane spec lanes Hy _ IH]; constructor.
  - apply (lane_ok_framed x y lane); [apply Ha; by left|done|done].
  - apply IH. intros z Hz. apply Ha. by right.
Qed.

Lemma t_serve_lanes spec lanes ready R : NoDup spec -> all_apart spec -> (forall x, x ∈ spec -> lane_framed x R) ->
  triple (fun l => Forall2 (lane_ok l) spec lanes /\ R l) (serve_lanes lanes ready) (fun lanes' l => Forall2 (lane_ok l) spec lanes' /\ R l).
Proof.
  revert lanes ready R. induction spec as [|x spec IH]; intros lanes ready R Hn Ha HR.
  { intros w l lanes' w' l' [Hf HRl]. apply Forall2_nil_inv_l in Hf as ->. intros [= <- <- <-]. done. }
  apply NoDup_cons in Hn as [Hx Hn].
  assert (Hay : forall y, y ∈ spec -> apart x y) by (intros y Hy; apply Ha; [by left|by right|by intros ->]).
  assert (Hya : forall y, y ∈ spec -> apart y x) by (intros y Hy; apply Ha; [by right|by left|by intros ->]).
  destruct lanes as [|lane lanes]; [intros w l ? ? ? [Hf _]; by inversion Hf|]. cbn [serve_lanes].
  eapply t_bind; [eapply t_pre; [|apply (t_serve_lane x lane ready (fun l => R l /\ Forall2 (lane_ok l) spec lanes))]|].
  - intros l [Hf HRl]. by apply Forall2_cons in Hf as [? ?].
  - intros l e He [HRl Hf]. split; [by apply (HR x); [left|..]|]. by apply (lanes_framed x).
  - intros [lane1 ready1]. cbn [fst]. eapply t_bind.
    + eapply t_pre; [|apply (IH lanes ready1 (fun l => R l /\ lane_ok l x lane1))]; [by intros l (? & ? & ?)|done| |].
      * intros y z Hy Hz. apply Ha; by right.
      * intros y Hy l e He [HRl Hl]. split; [by apply (HR y); [right|..]|]. by apply (lane_ok_framed y x); [apply Hya|..].
    + intros lanes1. apply t_done. intros l (Hf & HRl & Hl). split; [by constructor|done].
Qed.

Lemma t_finish_all spec fuel by_ lanes R : NoDup spec -> all_apart spec -> (forall x, x ∈ spec -> lane_framed x R) ->
  triple (fun l => Forall2 (lane_ok l) spec lanes /\ R l) (finish_all fuel by_ lanes)
    (fun _ l => Forall (fun pd => delivered pd.1 pd.2 l) spec /\ R l).
Proof.
  revert lanes R. induction spec as [|x spec IH]; intros lanes R Hn Ha HR.
  { intros w l lanes' w' l' [Hf HRl]. apply Forall2_nil_inv_l in Hf as ->. intros [= <- <- <-]. split; [constructor|done]. }
  apply NoDup_cons in Hn as [Hx Hn].
  assert (Hay : forall y, y ∈ spec -> apart x y) by (intros y Hy; apply Ha; [by left|by right|by intros ->]).
  assert (Hya : forall y, y ∈ spec -> apart y x) by (intros y Hy; apply Ha; [by right|by left|by intros ->]).
  destruct lanes as [|lane lanes]; [intros w l ? ? ? [Hf _]; by inversion Hf|]. cbn [finish_all].
  intros w l u w' l' [(Hl & Hf)%Forall2_cons HRl] E. destruct Hl as (Hp & Ho & Hs & Hb).
  apply (t_apply E (fun l => oinv x.1 x.2 (l_out lane) l /\ R l /\ Forall2 (lane_ok l) spec lanes)
    (fun _ l => Forall (fun pd => delivered pd.1 pd.2 l) (x :: spec) /\ R l)); [done|].
  eapply t_bind; [apply (t_finish x.1 x.2 fuel by_ (l_out lane) (fun l => R l /\ Forall2 (lane_ok l) spec lanes))|].
  - rewrite Hs. intros l1 e He [HR1 Hf1]. assert (lane_event x e) as Hl by by left. split; [by apply (HR x); [left|..]|]. by apply (lanes_framed x).
  - intros o. eapply t_post; [|eapply t_pre; [|apply (IH lanes (fun l => R l /\ delivered x.1 x.2 l))]].
    + intros u' l1 (Hd & HR1 & Hx1). split; [by constructor|done].
    + by intros l1 (Hd & HR1 & Hf1).
    + done.
    + intros y z Hy Hz. apply Ha; by right.
    + intros y Hy l1 e He [HR1 Hx1]. split; [by apply (HR y); [right|..]|]. by apply (delivered_framed y x); [apply Hya|..].
Qed.
End PumpFacts.

Section PumpRuns.
Context {W fd : Type} `{EqDecision fd} `{Term W fd, !TermLaws W fd}.
Context (sink : fd) (spec : list (fd * fd)) (Hnd : NoDup spec) (Hapart : all_apart sink spec).
Notation log := (list (event fd)).
Notation Lane := (Lane (fd := fd)).
#[local] Existing Instance watched.

Definition limit_of (exited : option (Z * Z)) : Z := if exited then DRAIN_MAX else PENDING_MAX.

(** What the pipes and hosts of [spec] have of each other. *)
Definition pump_inv (r : list Lane * option (Z * Z) + result io_error Z) (l : log) : Prop :=
  match r with
  | inl (lanes, exited) => Forall2 (lane_ok sink (limit_of exited) l) spec lanes
  | inr (Ok _) => Forall (fun pd => delivered pd.1 pd.2 l) spec
  | inr (Err _) => Forall (fun pd => wrote pd.2 l `prefix_of` reads pd.1 l) spec
  end.

Lemma relax_lanes lanes l : Forall2 (lane_ok sink PENDING_MAX l) spec lanes ->
  Forall2 (lane_ok sink DRAIN_MAX l) spec (map (fun x => mkLane (pipe x) (Out.relax (l_out x)) (l_open x)) lanes).
Proof.
  intros Hf. apply Forall2_fmap_r. eapply Forall2_impl; [done|]. intros pd lane (? & ? & ? & Hb & Hl). split_and!; try done.
  split; [|done]. cbn. unfold DRAIN_MAX, PENDING_MAX in *. lia.
Qed.

Lemma t_pump_turn fuel lanes exited :
  triple (fun l => Forall2 (lane_ok sink (limit_of exited) l) spec lanes) (pump_turn fuel lanes exited) pump_inv.
Proof.
  unfold pump_turn.
  eapply (t_bind _ _ (fun r l => Forall2 (lane_ok sink (limit_of r.2) l) spec r.1)).
  { destruct exited as [x|]; [by apply t_done|]. eapply t_bind; [apply t_quiet|]. intros [code|]; [|by apply t_done].
    eapply t_bind; [apply t_quiet|]. intros t. apply t_done. intros l. apply relax_lanes. }
  clear lanes exited. intros [lanes exited]. cbn [fst snd]. set (P := fun l : log => Forall2 _ spec lanes).
  eapply (t_bind _ _ (fun _ => P)).
  { destruct exited as [[code deadline]|]; [|by apply t_done]. destruct (_ && _); [by apply t_done|].
    eapply t_bind; [apply t_quiet|]. intros t. by apply t_done. }
  intros [code|].
  - eapply t_bind; [apply t_quiet|]. intros t. eapply t_bind; [|intros ?; apply t_done; intros l Hl; exact Hl].
    eapply t_post; [|eapply t_pre; [|apply (t_finish_all sink (limit_of exited) spec fuel _ lanes (fun _ => True))]]; [by intros ? ? [? _]|done|done|done|by intros ? ? ? ? ?].
  - eapply t_bind; [apply t_quiet|]. intros [[n revents]|e].
    + eapply t_bind; [|intros lanes'; apply t_done; intros l Hl; exact Hl].
      eapply t_post; [|eapply t_pre; [|apply (t_serve_lanes sink (limit_of exited) spec lanes _ (fun _ => True))]]; [by intros ? ? [? _]|done|done|done|by intros ? ? ? ? ?].
    + apply t_done. intros l Hf. destruct (interrupted e); [exact Hf|]. cbn.
      apply Forall_forall. intros pd Hpd. apply list_elem_of_lookup_1 in Hpd as [i Hi].
      destruct (Forall2_lookup_l _ _ _ _ _ Hf Hi) as (lane & _ & _ & Ho & _). by eapply oinv_prefix.
Qed.

Lemma t_pump_turns fuel n lanes exited :
  triple (fun l => Forall2 (lane_ok sink (limit_of exited) l) spec lanes) (pump_turns fuel n lanes exited) pump_inv.
Proof.
  revert lanes exited. induction n as [|n IH]; intros lanes exited; cbn [pump_turns]; [by apply t_done|].
  eapply t_bind; [apply t_pump_turn|]. intros [[lanes' exited']|e]; [apply IH|by apply t_done].
Qed.

Lemma t_pump fuel n names : length names = length spec -> (forall x, x ∈ spec -> sink <> x.2) ->
  triple (fun l => l = []) (pump fuel n (zip_with (fun pd name => (pd.1, pd.2, name)) spec names) sink) pump_inv.
Proof.
  intros Hl Hs. eapply t_pre; [|apply t_pump_turns]. intros l ->. cbn [limit_of].
  clear Hnd Hapart. revert names Hl. induction spec as [|x sp IH]; intros [|name names] Hl; try done; cbn; constructor.
  - split_and!; [done|apply oinv_new, Hs; by left|done|done].
  - apply IH; [intros y Hy; apply Hs; by right|]. cbn in Hl. lia.
Qed.
End PumpRuns.

(** ** The relays come to an end *)

Section Later.
Context {W : Type} (clock : W -> Z) (polls : Z -> W -> nat).

(** Time does not go back, and nothing but time makes room for more polls. *)
Definition later (w w' : W) : Prop := clock w <= clock w' /\ forall u, (polls u w' <= polls u w)%nat.

#[global] Instance later_preorder : PreOrder later.
Proof. split; [done|]. intros w1 w2 w3 [? H1] [? H2]. split; [lia|]. intros u. specialize (H1 u). specialize (H2 u). lia. Qed.
End Later.

(** [polls u w] bounds the polls that can still come before the instant [u]. *)
Class TermTime (W fd : Type) `{Term W fd} (clock : W -> Z) (polls : Z -> W -> nat) := {
  now_time w t w' : now w = (t, w') -> clock w <= t <= clock w' /\ later clock polls w w';
  read_time f n w r w' : read f n w = (r, w') -> later clock polls w w';
  write_time f b w r w' : write f b w = (r, w') -> later clock polls w w';
  slices_time b w n w' : as_slices b w = (n, w') -> later clock polls w w';
  until_time w r w' : until w = (r, w') -> later clock polls w w';
  winch_time w r w' : winch w = (r, w') -> later clock polls w w';
  stop_time w r w' : stop w = (r, w') -> later clock polls w w';
  say_time m w : later clock polls w (say m w);
  resize_time a b w : later clock polls w (resize a b w);
  eof_time f w r w' : eof_char f w = (r, w') -> later clock polls w w';
  poll_time fds d w r w' : poll fds d w = (r, w') -> later clock polls w w' /\
    forall u, u <= clock w' \/ (polls u w' < polls u w)%nat;
}.

Section Ends.
Context {W fd : Type} `{EqDecision fd} `{Term W fd, !TermLaws W fd} {clock : W -> Z} {polls : Z -> W -> nat}.
Context `{!TermTime W fd clock polls}.
Notation Out := (Out.t fd).
Notation later := (later clock polls).

Definition runs {A} (m : M W A) (w : W) : Prop := exists a w', m w = Some (a, w') /\ later w w'.

Lemma runs_ret {A} (a : A) w : runs (mret a) w.
Proof. by exists a, w. Qed.
Lemma runs_bind {A B} (m : M W A) (f : A -> M W B) w : runs m w -> (forall a w', later w w' -> runs (f a) w') -> runs (m ≫= f) w.
Proof.
  intros (a & w1 & E & Hl) Hf. destruct (Hf a w1 Hl) as (b & w2 & E2 & Hl2). exists b, w2. unfold mbind, M_bind. rewrite E.
  split; [done|by etrans].
Qed.
Lemma runs_eff {A} (f : W -> A * W) w : (forall a w', f w = (a, w') -> later w w') -> runs (eff f) w.
Proof. intros Hf. destruct (f w) as [a w'] eqn:E. exists a, w'. unfold eff. rewrite E. split; [done|by eapply Hf]. Qed.
Lemma runs_act (f : W -> W) w : later w (f w) -> runs (act f) w.
Proof. intros Hf. by exists tt, (f w). Qed.

Lemma runs_failed (o : Out) e w : exists o' w', Out.failed o e w = Some (o', w') /\ later w w' /\
  if bool_decide (Out.fd_ o = Out.sink o) then Out.open o' = false
  else Out.fd_ o' = Out.sink o' /\ Out.pending o' = Out.pending o.
Proof.
  unfold Out.failed, Out.redirect. case_bool_decide; unfold mbind, M_bind; cbn.
  - by do 2 eexists.
  - do 2 eexists. split; [done|]. split; [apply say_time|done].
Qed.

(** The turns a flush can still take. *)
Definition flush_turns (o : Out) : nat :=
  length (Out.pending o) + (if bool_decide (Out.fd_ o = Out.sink o) then 1 else 2).

Lemma runs_flush_loop fuel (o : Out) w : (Out.open o && Out.waiting o = true -> (flush_turns o <= fuel)%nat) -> runs (Out.flush_loop fuel o) w.
Proof.
  revert o w. induction fuel as [|fuel IH]; intros o w Hf; cbn [Out.flush_loop];
    (destruct (Out.open o && Out.waiting o) eqn:Ew; [|apply runs_ret]); specialize (Hf eq_refl).
  { unfold flush_turns in Hf. case_bool_decide; lia. }
  apply andb_true_iff in Ew as [_ Ew]. unfold Out.waiting in Ew. apply bool_decide_eq_true in Ew.
  assert (Hfail : forall e w', runs (o ← Out.failed o e; Out.flush_loop fuel o) w').
  { intros e w'. destruct (runs_failed o e w') as (o1 & w1 & E & Hl & Ho). unfold mbind, M_bind.
    destruct (IH o1 w1) as (a & w2 & E2 & Hl2); [|exists a, w2; rewrite E; split; [done|by etrans]].
    unfold flush_turns in *. case_bool_decide; [by rewrite Ho|]. destruct Ho as [-> ->]. rewrite bool_decide_true by done. lia. }
  destruct (as_slices (Out.pending o) w) as [n1 w1] eqn:Es. pose proof (slices_time _ _ _ _ Es) as Hl1. apply as_slices_first in Es as Hn1; [|done].
  unfold runs, mbind at 1, M_bind, eff. rewrite Es.
  destruct (write (Out.fd_ o) (upto (Out.pending o) n1) w1) as [r w2] eqn:Er. pose proof (write_time _ _ _ _ _ Er) as Hl2.
  assert (Hgo : forall m : M W Out, runs m w2 -> exists a w', m w2 = Some (a, w') /\ later w w').
  { intros m (a & w' & E & Hl). exists a, w'. split; [done|]. etrans; [done|]. by etrans. }
  unfold mbind at 1, M_bind. rewrite Er. destruct r as [n|e]; [|destruct (again e); [apply (Hgo (mret o)), runs_ret|apply Hgo, Hfail]].
  apply write_room in Er. rewrite len_upto in Er by lia. destruct (Z.eqb_spec n 0); [apply Hgo, Hfail|].
  apply Hgo, IH. intros _. unfold flush_turns in *. cbn. unfold from. rewrite length_drop. unfold len in *. case_bool_decide; lia.
Qed.

Lemma runs_flush (o : Out) w : runs (Out.flush o) w.
Proof. apply runs_flush_loop. intros _. unfold flush_turns. case_bool_decide; lia. Qed.

Lemma runs_give_up (o : Out) why w : runs (Out.giving_up o why) w.
Proof. unfold Out.giving_up. apply runs_bind; [apply runs_act, say_time|]. intros ? w' _. apply runs_ret. Qed.

Lemma runs_now w : runs (eff now) w.
Proof. apply runs_eff. intros t w' E. exact (proj2 (now_time _ _ _ E)). Qed.

(** What a wait for the instant [u] can still take. *)
Definition wait_turns (u : Z) (w : W) : nat := if decide (u <= clock w) then 0%nat else S (polls u w).

Lemma wait_later u w w' : later w w' -> (wait_turns u w' <= wait_turns u w)%nat.
Proof. intros [Hc Hp]. unfold wait_turns. specialize (Hp u). do 2 case_decide; lia. Qed.

Lemma wait_open u w : clock w < u -> (1 <= wait_turns u w)%nat.
Proof. intros. unfold wait_turns. case_decide; lia. Qed.

(** A poll takes a turn off the wait, or ends it. *)
Lemma wait_poll u w w' : later w w' -> u <= clock w' \/ (polls u w' < polls u w)%nat ->
  wait_turns u w' = 0%nat \/ (wait_turns u w' < wait_turns u w)%nat.
Proof. intros [Hc _] Hp. unfold wait_turns. do 2 case_decide; lia. Qed.

Lemma runs_finish_loop fuel by_ moved hurried (o : Out) w : (wait_turns by_ w < fuel)%nat -> runs (Out.finish_loop fuel by_ moved hurried o) w.
Proof.
  revert moved hurried o w. induction fuel as [|fuel IH]; intros moved hurried o w Hf; [lia|]. cbn [Out.finish_loop].
  destruct (_ && _); [|apply runs_ret]. apply runs_bind; [apply runs_flush|]. intros o1 w1 Hl1. case_bool_decide; [apply runs_ret|].
  pose proof (wait_later by_ _ _ Hl1) as Hw1. unfold runs, mbind at 1, M_bind, eff. destruct (now w1) as [t w2] eqn:Et.
  destruct (now_time _ _ _ Et) as [Ht Hl2]. pose proof (wait_later by_ _ _ Hl2) as Hw2.
  assert (Hgo : forall m : M W Out, runs m w2 -> exists a w', m w2 = Some (a, w') /\ later w1 w').
  { intros m (a & w' & E & Hl). exists a, w'. split; [done|]. by etrans. }
  apply Hgo, runs_bind.
  { destruct hurried; [apply runs_ret|]. apply runs_bind; [apply runs_eff, stop_time|]. intros s w' _. apply runs_ret. }
  intros h w3 Hl3. pose proof (wait_later by_ _ _ Hl3) as Hw3.
  destruct (match h with Some t0 => t - t0 >=? HURRY | None => false end); [apply runs_give_up|].
  destruct ((t - _ >=? STALL) || (t >=? by_)) eqn:Eb; [apply runs_give_up|].
  apply orb_false_iff in Eb as [_ Eb]. rewrite Z.geb_leb in Eb. apply Z.leb_gt in Eb.
  unfold runs, mbind at 1, M_bind, eff. destruct (poll _ _ w3) as [r w4] eqn:Ep. apply poll_time in Ep as [Hl4 Hp].
  destruct (IH (if len (Out.pending o1) <? len (Out.pending o) then t else moved) h o1 w4) as (a & w' & E & Hl5).
  - pose proof (wait_poll by_ w3 w4 Hl4 (Hp by_)). pose proof (wait_open by_ w1). lia.
  - exists a, w'. split; [exact E|by etrans].
Qed.

Context (fuel : nat) (Hfuel : forall u w, u <= clock w + FLUSH_MAX -> (polls u w + 1 < fuel)%nat).

Lemma wait_fuel u w : u <= clock w + FLUSH_MAX -> (wait_turns u w < fuel)%nat.
Proof. intros Hu. specialize (Hfuel u w Hu). unfold wait_turns. case_decide; lia. Qed.

Lemma runs_finish by_ (o : Out) w : by_ <= clock w + FLUSH_MAX -> runs (Out.finish fuel by_ o) w.
Proof.
  intros Hb. unfold Out.finish. apply runs_bind; [apply runs_now|]. intros t w1 [Hc1 _].
  apply runs_bind; [apply runs_eff, stop_time|]. intros s w2 [Hc2 _]. apply runs_finish_loop, wait_fuel. lia.
Qed.

(** A finish that is given all its time from here. *)
Lemma runs_finish_now (f : Z -> Out) w : runs (t ← eff now; Out.finish fuel (t + FLUSH_MAX) (f t)) w.
Proof.
  unfold runs, mbind at 1, M_bind, eff. destruct (now w) as [t w1] eqn:Et. destruct (now_time _ _ _ Et) as [Ht Hl].
  destruct (runs_finish (t + FLUSH_MAX) (f t) w1) as (a & w' & E & Hl2); [lia|]. exists a, w'. split; [done|by etrans].
Qed.

Lemma runs_drain_loop n deadline master reading (o : Out) w : (wait_turns deadline w < n)%nat -> runs (drain_loop n deadline master reading o) w.
Proof.
  revert reading o w. induction n as [|n IH]; intros reading o w Hf; [lia|]. cbn [drain_loop].
  destruct (_ && _); [|apply runs_ret]. apply runs_bind; [apply runs_flush|]. intros o1 w1 Hl1.
  pose proof (wait_later deadline _ _ Hl1) as Hw1. unfold runs, mbind at 1, M_bind, eff. destruct (now w1) as [t w2] eqn:Et.
  destruct (now_time _ _ _ Et) as [Ht Hl2]. pose proof (wait_later deadline _ _ Hl2) as Hw2.
  assert (Hgo : forall m : M W Out, runs m w2 -> exists a w', m w2 = Some (a, w') /\ later w1 w').
  { intros m (a & w' & E & Hl). exists a, w'. split; [done|]. by etrans. }
  apply Hgo. destruct (Z.eqb_spec (saturating_sub deadline t) 0) as [Hz|Hz]; [apply runs_ret|]. unfold saturating_sub in Hz.
  unfold runs, mbind at 1, M_bind, eff. destruct (poll _ _ w2) as [r w3] eqn:Ep. apply poll_time in Ep as [Hl3 Hp].
  pose proof (wait_poll deadline w2 w3 Hl3 (Hp deadline)). pose proof (wait_open deadline w1).
  assert (Hnext : forall reading o w', later w3 w' -> runs (drain_loop n deadline master reading o) w').
  { intros rd o' w' Hl'. apply IH. pose proof (wait_later deadline _ _ Hl'). lia. }
  assert (Hgo3 : forall m : M W Out, runs m w3 -> exists a w', m w3 = Some (a, w') /\ later w2 w').
  { intros m (a & w' & E & Hl). exists a, w'. split; [done|]. by etrans. }
  apply Hgo3. destruct r as [[k revents]|e]; [|destruct (interrupted e); [by apply Hnext|apply runs_ret]].
  destruct (k =? 0); [apply runs_ret|]. destruct (negb _); [by apply Hnext|].
  apply runs_bind; [apply runs_eff; intros; by eapply read_time|]. intros [b|e] w4 Hl4; [|by apply Hnext].
  destruct (len b =? 0); by apply Hnext.
Qed.

Lemma runs_drain master reading (o : Out) w : runs (drain fuel master reading o) w.
Proof.
  unfold drain. unfold runs, mbind at 1, M_bind, eff. destruct (now w) as [t w1] eqn:Et. destruct (now_time _ _ _ Et) as [Ht Hl].
  assert (runs (o1 ← drain_loop fuel (t + DRAIN) master reading (Out.relax o); t ← eff now; Out.finish fuel (t + FLUSH_MAX) o1) w1)
    as (a & w' & E & Hl2).
  { apply runs_bind; [apply runs_drain_loop, wait_fuel; unfold DRAIN, FLUSH_MAX, from_millis, from_secs, NANOS in *; lia|].
    intros o1 w2 _. apply (runs_finish_now (fun _ => o1)). }
  exists a, w'. split; [exact E|by etrans].
Qed.

Notation State := (State (fd := fd)).

Lemma runs_expire (s : State) w : runs (expire_escape s) w.
Proof. unfold expire_escape. apply runs_bind; [apply runs_now|]. intros t w' _. destruct (Escape.expire _ _). apply runs_ret. Qed.

Lemma runs_read_host master f (s : State) w : runs (read_host fuel master f s) w.
Proof.
  unfold read_host. apply runs_bind; [apply runs_eff; intros; by eapply read_time|]. intros [b|e] w1 _; [|apply runs_ret].
  destruct (len b =? 0).
  - apply runs_bind; [apply runs_eff; intros; by eapply eof_time|]. intros eof w2 _. apply runs_ret.
  - apply runs_bind; [apply runs_now|]. intros t w2 _. destruct (Escape.feed _ _ _) as [[d seen] e]. destruct d; [|apply runs_ret].
    destruct (runs_finish_now (fun _ => Out.relax (out s)) w2) as (o & w3 & E & Hl3). exists (inr Detached), w3. split; [|done].
    revert E. unfold mbind, M_bind, eff. cbn [out]. destruct (now w2) as [t' w4]. by intros ->.
Qed.

Lemma runs_relay_turn master host_out (s : State) w : runs (relay_turn fuel master host_out s) w.
Proof.
  unfold relay_turn. apply runs_bind; [apply runs_eff, until_time|]. intros [code|] w1 _.
  { apply runs_bind; [apply runs_drain|]. intros o w2 _. apply runs_ret. }
  apply runs_bind; [apply runs_eff, winch_time|]. intros b w2 _. apply runs_bind; [destruct b; [apply runs_act, resize_time|apply runs_ret]|].
  intros ? w3 _. apply runs_bind; [apply runs_expire|]. intros s1 w4 _.
  apply runs_bind; [apply runs_eff; intros ? ? E; by apply poll_time in E as [? _]|]. intros [[k revents]|e] w5 _; [|apply runs_ret].
  apply runs_bind; [|intros [s2|e] w6 _; apply runs_ret]. unfold relay_ready.
  apply runs_bind; [destruct (negb _); [apply runs_bind; [apply runs_flush|intros; apply runs_ret]|apply runs_ret]|]. intros s2 w6 _.
  apply runs_bind.
  { destruct (_ && _); [|apply runs_ret]. unfold write_typed. apply runs_bind; [apply runs_eff; intros; by eapply write_time|].
    intros [n|e] w7 _; apply runs_ret. }
  intros s3 w7 _. apply runs_bind; [destruct (read_stdin s1); [destruct (negb _); [apply runs_read_host|]|]; apply runs_ret|].
  intros [s4|e] w8 _; [|apply runs_ret]. destruct (_ && _); [|apply runs_ret]. apply runs_bind; [|intros; apply runs_ret].
  unfold read_master. apply runs_bind; [apply runs_eff; intros; by eapply read_time|]. intros [b2|e] w9 _; [|apply runs_ret].
  destruct (_ =? 0); [apply runs_ret|]. apply runs_bind; [apply runs_flush|]. intros; apply runs_ret.
Qed.

Lemma runs_relay_turns n master host_out (s : State) w : runs (relay_turns fuel n master host_out s) w.
Proof.
  revert s w. induction n as [|n IH]; intros s w; cbn [relay_turns]; [apply runs_ret|].
  apply runs_bind; [apply runs_relay_turn|]. intros [s'|e] w' _; [apply IH|apply runs_ret].
Qed.

Notation Lane := (Lane (fd := fd)).

Lemma runs_serve_lanes (lanes : list Lane) ready w : runs (serve_lanes lanes ready) w.
Proof.
  revert ready w. induction lanes as [|lane lanes IH]; intros ready w; cbn [serve_lanes]; [apply runs_ret|].
  apply runs_bind; [|intros [l1 r1] w1 _; apply runs_bind; [apply IH|intros; apply runs_ret]].
  unfold serve_lane. apply runs_bind.
  - destruct (wants_read lane); [|apply runs_ret]. apply runs_bind; [|intros; apply runs_ret].
    destruct (List.hd false ready); [|apply runs_ret]. apply runs_bind; [|intros; apply runs_ret].
    unfold read_pipe. apply runs_bind; [apply runs_eff; intros; by eapply read_time|]. intros [b|e] w1 _; [|apply runs_ret].
    destruct (_ =? 0); [apply runs_ret|]. apply runs_bind; [apply runs_flush|]. intros; apply runs_ret.
  - intros [l1 r1] w1 _. destruct (Out.waiting _); [|apply runs_ret]. apply runs_bind; [|intros; apply runs_ret].
    destruct (List.hd false r1); [|apply runs_ret]. apply runs_bind; [|intros; apply runs_ret].
    apply runs_bind; [apply runs_flush|]. intros; apply runs_ret.
Qed.

Lemma runs_finish_all by_ (lanes : list Lane) w : by_ <= clock w + FLUSH_MAX -> runs (finish_all fuel by_ lanes) w.
Proof.
  revert w. induction lanes as [|lane lanes IH]; intros w Hb; cbn [finish_all]; [apply runs_ret|].
  apply runs_bind; [by apply runs_finish|]. intros o w' [Hc _]. apply IH. lia.
Qed.

Lemma runs_pump_turn (lanes : list Lane) exited w : runs (pump_turn fuel lanes exited) w.
Proof.
  unfold pump_turn. apply runs_bind.
  { destruct exited; [apply runs_ret|]. apply runs_bind; [apply runs_eff, until_time|]. intros [code|] w1 _; [|apply runs_ret].
    apply runs_bind; [apply runs_now|]. intros; apply runs_ret. }
  intros [lanes1 exited1] w1 _. apply runs_bind.
  { destruct exited1 as [[code deadline]|]; [|apply runs_ret]. destruct (_ && _); [apply runs_ret|].
    apply runs_bind; [apply runs_now|]. intros; apply runs_ret. }
  intros [code|] w2 _.
  - unfold runs, mbind at 1, M_bind, eff. destruct (now w2) as [t w3] eqn:Et. destruct (now_time _ _ _ Et) as [Ht Hl].
    destruct (runs_finish_all (t + FLUSH_MAX) lanes1 w3) as (u & w4 & E & Hl4); [lia|].
    exists (inr (Ok code)), w4. unfold mbind, M_bind. rewrite E. split; [done|by etrans].
  - apply runs_bind; [apply runs_eff; intros ? ? E; by apply poll_time in E as [? _]|]. intros [[k revents]|e] w3 _; [|apply runs_ret].
    apply runs_bind; [apply runs_serve_lanes|]. intros; apply runs_ret.
Qed.

Lemma runs_pump_turns n (lanes : list Lane) exited w : runs (pump_turns fuel n lanes exited) w.
Proof.
  revert lanes exited w. induction n as [|n IH]; intros lanes exited w; cbn [pump_turns]; [apply runs_ret|].
  apply runs_bind; [apply runs_pump_turn|]. intros [[lanes' exited']|e] w' _; [apply IH|apply runs_ret].
Qed.
End Ends.
