(* ===== verification/TtySpec.v ===== *)
(** The theorems about the terminal and pipe relays of [Tty], from the lemmas of
    [TtyRun], and a terminal to run them on. *)
From S2P Require Export TtyRun.

Section Properties.
Context {W fd : Type} `{EqDecision fd} `{Term W fd, !TermLaws W fd}.
Notation log := (list (event fd)).
#[local] Existing Instance watched.

(** C34. The relay of a terminal loses no output.  What it hands to the host is a prefix
    of what it read from the pty, in order; a run that ends, by the exit of the
    command or a detach, has handed over all of it, unless it said that output was
    discarded or dropped. *)
Theorem relay_delivers master dest sink host fuel n host_in host_out name (w : W) ending w' (log : log) :
  dest <> master -> sink <> master -> host <> master -> sink <> dest -> host_in = None \/ host_in = Some host ->
  relay fuel n master host_in host_out dest name sink (w, []) = Some (inr (Ok ending), (w', log)) ->
  wrote dest log `prefix_of` reads master log /\ (~ spoken log -> wrote dest log = reads master log).
Proof.
  intros Hdm Hsm Hhm Hsd Hin E. apply (t_relay master dest sink host Hdm Hsm Hhm) in E; [|done..].
  destruct ending; [exact E|exact (proj1 E)].
Qed.

(** C35. Nothing typed is lost, added or reordered on its way to the pty: while the
    host's end is open, what the pty has had, what waits for it and the escapes held
    back are together the bytes typed.  Once it has hung up only the end-of-file
    character can overtake escapes that are still held.  A detach is three escapes
    in a row, of which and after which nothing has gone to the pty. *)
Theorem relay_types_what_was_typed master dest sink host fuel n host_in host_out name (w : W) r w' (log : log) :
  dest <> master -> sink <> master -> host <> master -> sink <> dest -> host_in = None \/ host_in = Some host ->
  relay fuel n master host_in host_out dest name sink (w, []) = Some (r, (w', log)) ->
  match r with
  | inl s =>
    let typing := wrote master log ++ typed s ++ replicate (Z.to_nat (Escape.held (escape s))) ESCAPE in
    (stdin s = Some host -> typing = input host log) /\ (Broken master ∉ log -> typing ≡ₚ input host log)
  | inr (Ok Detached) => exists waiting rest, input host log = wrote master log ++ waiting ++ replicate 3 ESCAPE ++ rest
  | inr _ => True
  end.
Proof.
  intros Hdm Hsm Hhm Hsd Hin E. apply (t_relay master dest sink host Hdm Hsm Hhm) in E; [|done..].
  destruct r as [s|[[code|]|e]]; try done; [|exact (proj2 E)].
  destruct E as [[_ [He Hs Hp]] _]. split; [|exact Hp]. intros Hst. by destruct (Hs _ Hst).
Qed.

(** The relay of pipes keeps each apart: for pipes and hosts that are different
    descriptors, each host has a prefix of its own pipe in order, all of it when the
    run ends and nothing was said.  While the command runs no pipe has more than
    [PENDING_MAX] and one read waiting, and after it twice that. *)
Theorem pump_delivers sink spec names fuel n (w : W) r w' (log : log) :
  NoDup spec -> (forall x y, x ∈ spec -> y ∈ spec -> x <> y -> x.1 <> y.1 /\ x.2 <> y.2) ->
  (forall x, x ∈ spec -> sink <> x.2) -> length names = length spec ->
  pump fuel n (zip_with (fun pd name => (pd.1, pd.2, name)) spec names) sink (w, []) = Some (r, (w', log)) ->
  Forall (fun pd => wrote pd.2 log `prefix_of` reads pd.1 log) spec /\
  match r with
  | inl (lanes, exited) =>
    Forall (fun l => len (Out.pending (l_out l)) < (if exited then DRAIN_MAX else PENDING_MAX) + CHUNK) lanes
  | inr (Ok _) => ~ spoken log -> Forall (fun pd => wrote pd.2 log = reads pd.1 log) spec
  | inr (Err _) => True
  end.
Proof.
  intros Hn Ha Hs Hl E. apply (t_pump sink spec) in E; [|done| |done|done|done].
  2:{ intros x y Hx Hy Hxy. destruct (Ha x y Hx Hy Hxy). split_and!; [done|done|]. intros E2. exact (Hs y Hy (eq_sym E2)). }
  destruct r as [[lanes exited]|[code|e]].
  - split.
    + apply Forall_forall. intros pd Hpd. apply list_elem_of_lookup_1 in Hpd as [i Hi].
      destruct (Forall2_lookup_l _ _ _ _ _ E Hi) as (lane & _ & _ & Ho & _). by eapply oinv_prefix.
    + apply Forall_forall. intros lane Hin. apply list_elem_of_lookup_1 in Hin as [i Hi].
      destruct (Forall2_lookup_r _ _ _ _ _ E Hi) as (pd & _ & _ & _ & _ & Hb & _). exact Hb.
  - split; [|intros Hsp]; (eapply Forall_impl; [exact E|]); intros pd [Hp Hd]; [done|by apply Hd].
  - done.
Qed.

(** Every turn of both relays ends, however the terminal takes its output: a flush
    stops when the host is unwilling, the drain at its deadline, and the last of the
    output is offered no longer than its bounds.  [fuel] is for the polls that fit
    before the longest of them. *)
Theorem relays_return {clock polls} `{!TermTime W fd clock polls} fuel n (w : W) :
  (forall u w, u <= clock w + FLUSH_MAX -> (polls u w + 1 < fuel)%nat) ->
  (forall master host_in host_out dest name sink, is_Some (relay fuel n master host_in host_out dest name sink w)) /\
  (forall pipes sink, is_Some (pump fuel n pipes sink w)).
Proof.
  intros Hf. split; intros.
  - destruct (runs_relay_turns (polls := polls) fuel Hf n master host_out (mkState host_in [] Escape.new true (Out.new dest sink name)) w)
      as (r & w' & E & _). by exists (r, w').
  - destruct (runs_pump_turns (polls := polls) fuel Hf n (map (fun '(p, dest, name) => mkLane p (Out.new dest sink name) true) pipes) None w)
      as (r & w' & E & _). by exists (r, w').
Qed.
End Properties.

(** The detach sequence lets through what it is given: every byte fed to it comes
    out in order or is an escape still held.  It detaches only on three escapes in a
    row, with nothing after them let through, and only if the first of them came in
    the same chunk or within [DETACH_WINDOW]. *)
Theorem detach_is_three_escapes chunk now e d out e' :
  0 <= Escape.held e < DETACH_RUN -> Escape.feed chunk now e = (d, out, e') ->
  0 <= Escape.held e' < DETACH_RUN /\
  if d then
    (exists rest, EscapeFacts.held_bytes e ++ chunk = out ++ replicate 3 ESCAPE ++ rest) /\
    ((0 < Escape.held e /\ (forall s, Escape.since e = Some s -> now - s <= DETACH_WINDOW)) \/
     exists p q, chunk = p ++ replicate 3 ESCAPE ++ q)
  else EscapeFacts.held_bytes e ++ chunk = out ++ EscapeFacts.held_bytes e'.
Proof. apply EscapeFacts.feed_spec. Qed.

(** A standard descriptor that is a terminal is never handed over as it is in the
    default mode. *)
Lemma pty_hides_the_terminal (i o e : bool) :
  (if i then nth_fd (plan Pty (i, o, e)) 0 = Slave else True) /\
  (if o then nth_fd (plan Pty (i, o, e)) 1 = Slave else True) /\
  (if e then nth_fd (plan Pty (i, o, e)) 2 = Slave else True) /\
  needs_pty (plan Pty (i, o, e)) = i || o || e.
Proof. by destruct i, o, e. Qed.

(** ** A terminal to run them on

    Descriptor 0 is the host, 1 and 2 its outputs, 5 the pty and 6 another pipe; what
    is read is what the table holds, and a write takes three bytes. *)

Record tmachine := mkTMachine { t_clock : Z; t_data : list (Z * bytes); t_turns : nat }.

Definition demo_read (f : Z) (m : tmachine) : result io_error bytes * tmachine :=
  match list_find (fun x => x.1 = f) (t_data m) with
  | Some (i, (_, b)) => (Ok (upto b CHUNK), mkTMachine (t_clock m) (delete i (t_data m)) (t_turns m))
  | None => (Err (mkError WouldBlock []), m)
  end.

#[local] Instance demo_term : Term tmachine Z := {
  now m := (t_clock m, m);
  read f n := fun m => if n =? CHUNK then demo_read f m else (Err (mkError WouldBlock []), m);
  write _ b := fun m => (Ok (Z.min 3 (len b)), m);
  poll fds t := fun m => (Ok (len fds, map snd fds), mkTMachine (t_clock m + NANOS) (t_data m) (t_turns m));
  as_slices b m := (len b, m);
  until m := match t_turns m with O => (Some 7, m) | S n => (None, mkTMachine (t_clock m) (t_data m) n) end;
  winch m := (false, m); stop m := (false, m); say _ m := m; resize _ _ m := m; eof_char _ m := (Some NUL, m);
}.

#[local] Instance demo_term_laws : TermLaws tmachine Z.
Proof.
  split; cbn.
  - intros f n m b m' Hn. destruct (Z.eqb_spec n CHUNK) as [->|]; [|done]. unfold demo_read.
    destruct (list_find _ _) as [[i [f' b']]|]; [|done]. intros [= <- _]. unfold upto. rewrite len_take. lia.
  - intros f b m n m' [= <- _]. pose proof (len_nonneg b). lia.
  - intros b m n m' [= <- _] Hb. destruct b; [done|]. rewrite len_cons. pose proof (len_nonneg b0). lia.
Qed.

(** A second passes with every poll. *)
Definition demo_polls (u : Z) (m : tmachine) : nat := Z.to_nat ((u - t_clock m + NANOS - 1) / NANOS).

#[local] Instance demo_term_time : TermTime tmachine Z t_clock demo_polls.
Proof.
  assert (forall m m', t_clock m = t_clock m' -> later t_clock demo_polls m m') as Hsame.
  { intros m m' E. split; [lia|]. intros u. unfold demo_polls. by rewrite E. }
  split; cbn.
  - intros m t m' [= <- <-]. split; [lia|by apply Hsame].
  - intros f n m r m'. destruct (_ =? _); [unfold demo_read; destruct (list_find _ _) as [[i [f' b]]|]|]; intros [= <- <-]; by apply Hsame.
  - intros f b m r m' [= <- <-]. by apply Hsame.
  - intros b m n m' [= <- <-]. by apply Hsame.
  - intros [c d [|n]] r m' [= <- <-]; by apply Hsame.
  - intros m r m' [= <- <-]. by apply Hsame.
  - intros m r m' [= <- <-]. by apply Hsame.
  - intros msg m. by apply Hsame.
  - intros a b m. by apply Hsame.
  - intros f m r m' [= <- <-]. by apply Hsame.
  - intros fds d m r m' [= <- <-]. cbn.
    assert (forall u, (u - (t_clock m + NANOS) + NANOS - 1) / NANOS = (u - t_clock m + NANOS - 1) / NANOS - 1) as Hd.
    { intros u. replace (u - (t_clock m + NANOS) + NANOS - 1) with (u - t_clock m + NANOS - 1 + (-1) * NANOS) by lia.
      rewrite Z.div_add by done. lia. }
    split; [split; cbn; [unfold NANOS; lia|]|]; intros u; unfold demo_polls; cbn; rewrite Hd; [lia|].
    destruct (Z.le_gt_cases u (t_clock m + NANOS)) as [|Hu]; [by left|right].
    assert (1 <= (u - t_clock m + NANOS - 1) / NANOS) by (apply Z.div_le_lower_bound; [done|unfold NANOS in *; lia]). lia.
Qed.

#[local] Existing Instance watched.

(** The host types, then types the detach sequence; the command writes and exits. *)
Definition demo_terminal (typed : bytes) : tmachine := mkTMachine 0 [(0, typed); (5, B "some output"); (6, B "errors")] 6.

Definition demo_relay (typed : bytes) (n : nat) := relay (W := tmachine * list (event Z)) 20 n 5 (Some 0) 1 1 (B "stdout") 2 (demo_terminal typed, []).

Lemma relay_delivers_witness : exists w' log, demo_relay (B "ls") 20 = Some (inr (Ok (Exited 7)), (w', log)) /\
  reads 5 log = B "some output" /\ ~ spoken log /\ wrote 1 log = reads 5 log.
Proof.
  assert (exists w' log, demo_relay (B "ls") 20 = Some (inr (Ok (Exited 7)), (w', log)) /\ reads 5 log = B "some output" /\
    Forall (fun e => match e with Said _ => False | _ => True end) log) as (w' & log & E & Er & Hs)
    by (do 2 eexists; split; [vm_compute; reflexivity|split; [vm_compute; reflexivity|repeat constructor]]).
  assert (~ spoken log) as Hq by (intros [msg Hm]; rewrite Forall_forall in Hs; exact (Hs _ Hm)).
  exists w', log. split; [exact E|split; [exact Er|split; [exact Hq|]]].
  exact (proj2 (relay_delivers 5 1 2 0 20 20 (Some 0) 1 (B "stdout") (demo_terminal (B "ls")) (Exited 7) w' log
    ltac:(discriminate) ltac:(discriminate) ltac:(discriminate) ltac:(discriminate) (or_intror eq_refl) E) Hq).
Defined.

Definition demo_keys : bytes := B "x" ++ [ESCAPE; ESCAPE; ESCAPE] ++ B "y".

Lemma relay_types_what_was_typed_witness : exists w' log, demo_relay demo_keys 20 = Some (inr (Ok Detached), (w', log)) /\
  exists waiting rest, input 0 log = wrote 5 log ++ waiting ++ replicate 3 ESCAPE ++ rest.
Proof.
  assert (exists w' log, demo_relay demo_keys 20 = Some (inr (Ok Detached), (w', log))) as (w' & log & E)
    by (do 2 eexists; vm_compute; reflexivity).
  exists w', log. split; [exact E|].
  exact (relay_types_what_was_typed 5 1 2 0 20 20 (Some 0) 1 (B "stdout") (demo_terminal demo_keys) (inr (Ok Detached)) w' log
    ltac:(discriminate) ltac:(discriminate) ltac:(discriminate) ltac:(discriminate) (or_intror eq_refl) E).
Defined.

Definition demo_spec : list (Z * Z) := [(5, 1); (6, 3)].
Definition demo_pump := pump (W := tmachine * list (event Z)) 20 20
  (zip_with (fun pd name => (pd.1, pd.2, name)) demo_spec [B "stdout"; B "stderr"]) 2 (demo_terminal [], []).

Lemma pump_delivers_witness : exists w' log, demo_pump = Some (inr (Ok 7), (w', log)) /\
  reads 6 log = B "errors" /\ Forall (fun pd => wrote pd.2 log `prefix_of` reads pd.1 log) demo_spec.
Proof.
  assert (exists w' log, demo_pump = Some (inr (Ok 7), (w', log)) /\ reads 6 log = B "errors") as (w' & log & E & Er)
    by (do 2 eexists; split; vm_compute; reflexivity).
  exists w', log. split; [exact E|split; [exact Er|]].
  refine (proj1 (pump_delivers 2 demo_spec [B "stdout"; B "stderr"] 20 20 (demo_terminal []) (inr (Ok 7)) w' log _ _ _ _ E)).
  - by_decide.
  - clear. intros x y [->|[->|[]%elem_of_nil]%elem_of_cons]%elem_of_cons [->|[->|[]%elem_of_nil]%elem_of_cons]%elem_of_cons Hxy.
    + by destruct Hxy.
    + split; discriminate.
    + split; discriminate.
    + by destruct Hxy.
  - clear. intros x [->|[->|[]%elem_of_nil]%elem_of_cons]%elem_of_cons; discriminate.
  - reflexivity.
Defined.

Lemma relays_return_witness : (forall u (w : tmachine), u <= t_clock w + FLUSH_MAX -> (demo_polls u w + 1 < 20)%nat) /\
  is_Some (relay 20 9 5 (Some 0) 1 1 (B "stdout") 2 (demo_terminal (B "ls"))).
Proof.
  assert (forall u (w : tmachine), u <= t_clock w + FLUSH_MAX -> (demo_polls u w + 1 < 20)%nat) as Hf.
  { intros u w Hu. unfold demo_polls. assert ((u - t_clock w + NANOS - 1) / NANOS < 12); [|lia].
    apply Z.div_lt_upper_bound; [done|]. unfold FLUSH_MAX, from_secs, NANOS in *. lia. }
  split; [exact Hf|]. exact (proj1 (relays_return (polls := demo_polls) 20 9 (demo_terminal (B "ls")) Hf) 5 (Some 0) 1 1 (B "stdout") 2).
Defined.

Lemma detach_is_three_escapes_witness :
  Escape.feed demo_keys 0 Escape.new = (true, B "x", Escape.new) /\
  exists p q, demo_keys = p ++ replicate 3 ESCAPE ++ q.
Proof.
  assert (Escape.feed demo_keys 0 Escape.new = (true, B "x", Escape.new)) as E by (vm_compute; reflexivity).
  assert (0 <= Escape.held Escape.new < DETACH_RUN) as Hn by by_decide.
  split; [exact E|].
  destruct (detach_is_three_escapes demo_keys 0 Escape.new true (B "x") Escape.new Hn E) as [_ [_ [[H _]|H]]];
    [discriminate H|exact H].
Defined.
