(* ===== verification/Network.v ===== *)
(** The [network] grant of the core: [crates/bubbler-core/src/network.rs], and the errors
    of a configuration ([crates/bubbler-core/src/error.rs]).

    [Cidr] and [Cgroup] are the values a rule is written from, [ruleset] the text that is
    fed to [nft], [pasta_argv], [net_proxy_argv] and [proxy_env] what the side processes
    and the application are told.  Reading and printing an address is the standard
    library's, a class of the model. *)
From S2P Require Export NetProxy.

(** [ConfigError], but for the causes the parser thread can fail with. *)
Inductive ConfigError :=
| UnknownNode (name : bytes)
| UnknownProperty (node prop : bytes)
| BadArgument (node reason : bytes)
| Duplicate (name : bytes)
| MissingCommand
| TooLarge (bytes_ max : Z)
| TooDeep (line max : Z)
| CommentTooBusy (line max : Z)
| Syntax.

#[global] Instance ConfigError_eq_dec : EqDecision ConfigError.
Proof. solve_decision. Defined.

(** [IpAddr]'s [FromStr] and [Display]. *)
Class IpText := { ip_from_str : bytes -> option IpAddr; ip_text : IpAddr -> bytes }.

Definition ip_char (b : byte) : bool :=
  is_ascii_digit b || ((97 <=? u8 b) && (u8 b <=? 102)) || bool_decide (b = DOT) || bool_decide (b = COLON).

Class IpTextLaws `{IpText} := {
  ip_from_text a : ip_wf a -> ip_from_str (ip_text a) = Some a;
  ip_text_chars a : forallb ip_char (ip_text a) = true;
  ip_from_wf s a : ip_from_str s = Some a -> ip_wf a }.

Definition QUOTE : byte := Init.Byte.x22.
Definition SLASH : byte := Init.Byte.x2f.
Definition quoted (s : bytes) : bytes := [QUOTE] ++ s ++ [QUOTE].
Definition ticked (s : bytes) : bytes := B "`" ++ s ++ B "`".

Definition DNS_FORWARD : IpAddr := V4 (map to_u8 [169; 254; 1; 1]).
Definition DNS_PORT : Z := 53.
Definition FORWARD_ADDRESS : bytes := B "127.0.0.1".
Definition PROXY_PORT : Z := 3128.

Module Mode.
Inductive t := Isolated | Host | None_.

#[global] Instance eq_dec : EqDecision t.
Proof. solve_decision. Defined.

Definition from_str (s : bytes) : result ConfigError t :=
  if bool_decide (s = B "host") then Ok Host
  else if bool_decide (s = B "none") then Ok None_
  else Err (BadArgument (B "network") (B "expected `host` or `none`, got " ++ ticked s)).
End Mode.

Record Forward := mkForward { f_port : Z; udp : bool }.

#[global] Instance Forward_eq_dec : EqDecision Forward.
Proof. solve_decision. Defined.

Module Outbound.
Inductive t := Allow | Deny.

#[global] Instance eq_dec : EqDecision t.
Proof. solve_decision. Defined.

Definition from_str (s : bytes) : result ConfigError t :=
  if bool_decide (s = B "allow") then Ok Allow
  else if bool_decide (s = B "deny") then Ok Deny
  else Err (BadArgument (B "outbound") (B "expected `allow` or `deny`, got " ++ ticked s)).
End Outbound.

Module Proto.
Inductive t := Tcp | Udp.

#[global] Instance eq_dec : EqDecision t.
Proof. solve_decision. Defined.

Definition keyword (p : t) : bytes := match p with Tcp => B "tcp" | Udp => B "udp" end.

Definition from_str (s : bytes) : result ConfigError t :=
  if bool_decide (s = B "tcp") then Ok Tcp
  else if bool_decide (s = B "udp") then Ok Udp
  else Err (BadArgument (B "allow-out") (B "proto must be " ++ quoted (B "tcp") ++ B " or " ++ quoted (B "udp") ++ B ", got " ++ ticked s)).
End Proto.

Module Cidr.
Record t := mk { addr : IpAddr; prefix : Z }.

#[global] Instance eq_dec : EqDecision t.
Proof. solve_decision. Defined.

Definition is_ipv6 (a : IpAddr) : bool := match a with V4 _ => false | V6 _ => true end.
Definition family (c : t) : bytes := match addr c with V4 _ => B "ip" | V6 _ => B "ip6" end.
Definition bits (a : IpAddr) : Z := match a with V4 _ => 32 | V6 _ => 128 end.

Definition U128_MAX : Z := 2 ^ 128 - 1.

Definition is_network_address (a : IpAddr) (prefix : Z) : bool :=
  if prefix =? bits a then true
  else match a with
       | V4 o => Z.land (be_val o) (Z.shiftr U32_MAX prefix) =? 0
       | V6 o => Z.land (be_val o) (Z.shiftr U128_MAX prefix) =? 0
       end.

(** [Ipv6Addr::to_ipv4_mapped]. *)
Definition ipv4_mapped (o : bytes) : bool := bool_decide (take 12 o = replicate 10 NUL ++ [Init.Byte.xff; Init.Byte.xff]).

(** [str::split_once] on one ASCII character. *)
Fixpoint split_once (sep : byte) (l : bytes) : option (bytes * bytes) :=
  match l with
  | [] => None
  | b :: l => if decide (b = sep) then Some ([], l) else '(p, q) ← split_once sep l; Some (b :: p, q)
  end.

Section Text.
Context `{IpText}.

Definition bad (reason : bytes) : ConfigError := BadArgument (B "allow-out") reason.

Definition from_str (s : bytes) : result ConfigError t :=
  let '(a, l) := match split_once SLASH s with Some (a, l) => (a, Some l) | None => (s, None) end in
  a ← ok_or (ip_from_str a)
        (bad (B "expects an address or a prefix, such as " ++ quoted (B "1.1.1.1") ++ B " or " ++ quoted (B "140.82.112.0/20")));
  if match a with V6 o => ipv4_mapped o | V4 _ => false end then
    Err (bad (B "an IPv4-mapped address names an IPv4 destination, which an IPv6 rule never matches; write the address in its IPv4 form"))
  else
    prefix ← match l with
      | None => Ok (bits a)
      | Some l => ok_or (n ← parse_uint U8_MAX l; if n <=? bits a then Some n else None)
                        (bad (B "prefix length is out of range for the address family"))
      end;
    if negb (is_network_address a prefix) then
      Err (bad (B "the bits below the prefix must be zero, or the rule covers a network its author did not write"))
    else Ok (mk a prefix).

Definition fmt (c : t) : bytes :=
  if prefix c =? bits (addr c) then ip_text (addr c) else ip_text (addr c) ++ [SLASH] ++ decimal (prefix c).
End Text.
End Cidr.

Module AllowOut.
Record t := mk { dest : Cidr.t; port : option Z; proto : option Proto.t }.

#[global] Instance eq_dec : EqDecision t.
Proof. solve_decision. Defined.

Definition fmt `{IpText} (a : t) : bytes :=
  quoted (Cidr.fmt (dest a)) ++
  (match port a with Some p => B " port=" ++ decimal p | None => [] end) ++
  (match proto a with Some p => B " proto=" ++ quoted (Proto.keyword p) | None => [] end).
End AllowOut.

Module AllowHost.
Record t := mk { pattern : HostPattern.t; port : Z }.

#[global] Instance eq_dec : EqDecision t.
Proof. solve_decision. Defined.

Definition DEFAULT_PORT : Z := 443.

Definition fmt (a : t) : bytes :=
  quoted (HostPattern.fmt (pattern a)) ++
  (if negb (port a =? DEFAULT_PORT) then B " port=" ++ decimal (port a) else []).
End AllowHost.

Module Cgroup.
Record t := mk { path : bytes; level : Z }.

Definition is_ascii_whitespace (b : byte) : bool := existsb (fun c => u8 b =? c) [32; 9; 10; 12; 13].
Definition is_ascii_control (b : byte) : bool := (u8 b <? 32) || (u8 b =? 127).

(** What no quoted path of a rule can carry. *)
Definition refused (b : byte) : option bytes :=
  if bool_decide (b = QUOTE) then Some (B "a quote")
  else if is_ascii_whitespace b then Some (B "whitespace")
  else if is_ascii_control b then Some (B "a control byte")
  else if negb (u8 b <? 128) then Some (B "a byte outside ASCII")
  else None.

Definition no_dir_name (c : bytes) : bool := bool_decide (c = []) || bool_decide (c = B ".") || bool_decide (c = B "..").

Definition new (path : bytes) : result bytes t :=
  if bool_decide (path = []) then Err (B "a cgroup path is not empty")
  else if starts_with [SLASH] path || ends_with [SLASH] path then
    Err (B "a cgroup path is relative to the cgroup2 mount: no leading or trailing `/`")
  else match head (omap refused path) with
       | Some what => Err (B "a cgroup path is written into a quoted nftables rule, so it holds no " ++ what)
       | None =>
         let comps := split_on SLASH path in
         if existsb no_dir_name comps then
           Err (B "every component of a cgroup path is a directory name, so none of them is empty, `.` or `..`")
         else if len comps >? U8_MAX then Err (B "a cgroup path has more components than nftables counts")
         else Ok (mk path (len comps))
       end.

Definition fmt (c : t) : bytes := B "socket cgroupv2 level " ++ decimal (level c) ++ B " " ++ quoted (path c).
End Cgroup.

Record NetworkConfig := mkNetwork {
  mode : Mode.t; n_dns : list IpAddr; n_forwards : list Forward; no_ipv6 : bool; outbound : Outbound.t;
  allow_out : list AllowOut.t; allow_hosts : list AllowHost.t }.

#[global] Instance NetworkConfig_eq_dec : EqDecision NetworkConfig.
Proof. solve_decision. Defined.

(** [NetworkConfig::default]. *)
Definition default_network : NetworkConfig := mkNetwork Mode.Isolated [] [] false Outbound.Allow [] [].

Definition is_isolated (cfg : NetworkConfig) : bool := bool_decide (mode cfg = Mode.Isolated).

Definition resolvers (cfg : NetworkConfig) : option (list IpAddr) :=
  match mode cfg, bool_decide (n_dns cfg = []) with
  | Mode.None_, _ => None
  | _, false => Some (n_dns cfg)
  | Mode.Isolated, true => Some [DNS_FORWARD]
  | Mode.Host, true => None
  end.

Definition or_empty {A} (o : option (list A)) : list A := default [] o.

Section Render.
Context `{IpText}.

Definition resolv_conf (cfg : NetworkConfig) : option bytes :=
  servers ← resolvers cfg;
  Some (concat (map (fun s => B "nameserver " ++ ip_text s ++ [LF]) servers)).

Definition allow_out_rules (allowed : AllowOut.t) : list bytes :=
  let protos := match AllowOut.proto allowed with
                | Some Proto.Tcp => [Proto.Tcp]
                | Some Proto.Udp => [Proto.Udp]
                | None => [Proto.Tcp; Proto.Udp]
                end in
  map (fun proto =>
    let head := Cidr.family (AllowOut.dest allowed) ++ B " daddr " ++ Cidr.fmt (AllowOut.dest allowed) in
    match AllowOut.port allowed with
    | Some port => head ++ B " " ++ Proto.keyword proto ++ B " dport " ++ decimal port ++ B " accept"
    | None => head ++ B " meta l4proto " ++ Proto.keyword proto ++ B " accept"
    end) protos.

Definition resolver_rules (ip : IpAddr) : list bytes :=
  let dest := Cidr.mk ip (Cidr.bits ip) in
  map (fun proto => Cidr.family dest ++ B " daddr " ++ Cidr.fmt dest ++ B " " ++ Proto.keyword proto ++
                    B " dport " ++ decimal DNS_PORT ++ B " accept") [Proto.Udp; Proto.Tcp].

(** A rule the proxy has to pass carries the match. *)
Definition gated (gate : option bytes) (rule : bytes) : bytes :=
  match gate with Some m => m ++ B " " ++ rule | None => rule end.

Definition out_rules (gate : option bytes) (allowed : AllowOut.t) : list bytes :=
  let resolver := bool_decide (AllowOut.port allowed = Some DNS_PORT) in
  map (fun rule => if resolver then gated gate rule else rule) (allow_out_rules allowed).

Definition rules (cfg : NetworkConfig) (gate : option bytes) : list bytes :=
  [B "oifname " ++ quoted (B "lo") ++ B " accept"; B "ct state established,related accept"] ++
  (if negb (no_ipv6 cfg)
   then [B "icmpv6 type { nd-router-solicit, nd-router-advert, nd-neighbor-solicit, nd-neighbor-advert } accept"] else []) ++
  concat (map (fun ip => map (gated gate) (resolver_rules ip)) (or_empty (resolvers cfg))) ++
  concat (map (out_rules gate) (allow_out cfg)) ++
  (match gate with Some m => [m ++ B " accept"] | None => [] end) ++
  [B "reject with icmpx admin-prohibited"].

(** The table with its one chain, a rule a line. *)
Definition table (rules : list bytes) : bytes :=
  B "table inet bubbler {" ++ [LF; TAB] ++ B "chain out {" ++ [LF] ++
  [TAB; TAB] ++ B "type filter hook output priority 0; policy drop;" ++ [LF] ++
  concat (map (fun rule => [TAB; TAB] ++ rule ++ [LF]) rules) ++
  [TAB] ++ B "}" ++ [LF] ++ B "}" ++ [LF].

Definition ruleset (cfg : NetworkConfig) (cgroup : option Cgroup.t) : option bytes :=
  if negb (bool_decide (outbound cfg = Outbound.Deny)) || negb (is_isolated cfg) then None
  else
    gate ← match bool_decide (allow_hosts cfg = []), cgroup with
           | true, _ => Some None
           | false, Some cg => Some (Some (Cgroup.fmt cg))
           | false, None => None
           end;
    Some (table (rules cfg gate)).

Record ProxyFds := mkProxyFds { ready : bytes; log_ : bytes }.

Definition net_proxy_argv (cfg : NetworkConfig) (fds : ProxyFds) (log_tunnels : bool) : list bytes :=
  concat (map (fun a => [B "--allow"; HostPattern.fmt (AllowHost.pattern a) ++ [COLON] ++ decimal (AllowHost.port a)]) (allow_hosts cfg)) ++
  concat (map (fun s => [B "--dns"; ip_text s]) (or_empty (resolvers cfg))) ++
  [B "--port"; decimal PROXY_PORT; B "--ready-fd"; ready fds; B "--log-fd"; log_ fds] ++
  (if log_tunnels then [B "--log-tunnels"] else []).

(** The [-t] or [-u] value. *)
Definition forwards (cfg : NetworkConfig) (is_udp : bool) : bytes :=
  let ports := map (fun f => decimal (f_port f)) (filter (fun f => udp f = is_udp) (n_forwards cfg)) in
  if bool_decide (ports = []) then B "none" else FORWARD_ADDRESS ++ [SLASH] ++ join (B ",") ports.

Record Attach := mkAttach { a_userns : bytes; a_ready : bytes; a_child : bytes }.

Definition pasta_argv (cfg : NetworkConfig) (at_ : Attach) : list bytes :=
  [B "--config-net"; B "--foreground"; B "--quiet"; B "-t"; forwards cfg false; B "-u"; forwards cfg true;
   B "-T"; B "none"; B "-U"; B "none"; B "--map-host-loopback"; B "none"; B "--map-guest-addr"; B "none"] ++
  (if bool_decide (n_dns cfg = []) then [B "--dns-forward"; ip_text DNS_FORWARD] else []) ++
  (if no_ipv6 cfg then [B "-4"] else []) ++
  [B "--userns"; a_userns at_; B "--pid"; a_ready at_; a_child at_].
End Render.

Definition PROXY_ENV_NAMES : list bytes :=
  [B "HTTPS_PROXY"; B "HTTP_PROXY"; B "https_proxy"; B "http_proxy"; B "NO_PROXY"; B "no_proxy"; B "NODE_USE_ENV_PROXY"].
Definition PROXY_BYPASS : bytes := B "localhost,127.0.0.1,::1".

Definition proxy_env (port : Z) : list (bytes * bytes) :=
  map (fun name => (name,
    if bool_decide (name = B "NO_PROXY") || bool_decide (name = B "no_proxy") then PROXY_BYPASS
    else if bool_decide (name = B "NODE_USE_ENV_PROXY") then B "1"
    else B "http://127.0.0.1:" ++ decimal port)) PROXY_ENV_NAMES.
