(* ===== verification/NetworkSpec.v ===== *)
(** The theorems about the [network] grant: the abstract filter a ruleset is the text of,
    what it lets through, that no value forges a rule, and that the proxy reads from its
    command line what the configuration says. *)
From S2P Require Export Network.

(** ** The filter a configuration means *)

(** What a packet leaving the namespace is matched on; [None] is neither TCP nor UDP. *)
Record packet := mkPacket {
  loopback : bool; established : bool; neighbour : bool; by_proxy : bool;
  dst : IpAddr; transport : option Proto.t; dport : Z }.

Inductive matcher := OnLoopback | Established | Neighbour | To (c : Cidr.t) (p : Proto.t) (port : option Z) | Anything.

(** A rule and whether it is the proxy's alone. *)
Record rule := mkRule { for_proxy : bool; what : matcher }.

Definition value (a : IpAddr) : Z := match a with V4 o | V6 o => be_val o end.

(** The leading bits agree. *)
Definition in_network (c : Cidr.t) (a : IpAddr) : Prop :=
  Cidr.is_ipv6 a = Cidr.is_ipv6 (Cidr.addr c) /\
  Z.shiftr (value a) (Cidr.bits a - Cidr.prefix c) = Z.shiftr (value (Cidr.addr c)) (Cidr.bits a - Cidr.prefix c).

#[global] Instance in_network_dec c a : Decision (in_network c a).
Proof. unfold in_network. apply _. Defined.

Definition applies (pkt : packet) (m : matcher) : bool :=
  match m with
  | OnLoopback => loopback pkt
  | Established => established pkt
  | Neighbour => neighbour pkt
  | To c p port => bool_decide (in_network c (dst pkt)) && bool_decide (transport pkt = Some p) &&
                   match port with Some n => dport pkt =? n | None => true end
  | Anything => true
  end.

(** Every rule accepts; the chain ends in a reject. *)
Definition admitted (l : list rule) (pkt : packet) : bool :=
  existsb (fun r => (if for_proxy r then by_proxy pkt else true) && applies pkt (what r)) l.

Definition protos (o : option Proto.t) : list Proto.t := match o with Some p => [p] | None => [Proto.Tcp; Proto.Udp] end.

Definition policy (cfg : NetworkConfig) : list rule :=
  let proxied := negb (bool_decide (allow_hosts cfg = [])) in
  [mkRule false OnLoopback; mkRule false Established] ++
  (if no_ipv6 cfg then [] else [mkRule false Neighbour]) ++
  concat (map (fun ip => map (fun p => mkRule proxied (To (Cidr.mk ip (Cidr.bits ip)) p (Some DNS_PORT))) [Proto.Udp; Proto.Tcp])
              (or_empty (resolvers cfg))) ++
  concat (map (fun a => map (fun p => mkRule (proxied && bool_decide (AllowOut.port a = Some DNS_PORT))
                                             (To (AllowOut.dest a) p (AllowOut.port a))) (protos (AllowOut.proto a)))
              (allow_out cfg)) ++
  (if proxied then [mkRule true Anything] else []).

Section Text.
Context `{IpText}.

(** A rule as [nft] reads it; [cgroup] is the match of the proxy. *)
Definition rule_text (cgroup : bytes) (r : rule) : bytes :=
  let body := match what r with
              | OnLoopback => B "oifname " ++ quoted (B "lo") ++ B " accept"
              | Established => B "ct state established,related accept"
              | Neighbour => B "icmpv6 type { nd-router-solicit, nd-router-advert, nd-neighbor-solicit, nd-neighbor-advert } accept"
              | To c p (Some n) => Cidr.family c ++ B " daddr " ++ Cidr.fmt c ++ B " " ++ Proto.keyword p ++ B " dport " ++ decimal n ++ B " accept"
              | To c p None => Cidr.family c ++ B " daddr " ++ Cidr.fmt c ++ B " meta l4proto " ++ Proto.keyword p ++ B " accept"
              | Anything => B "accept"
              end in
  if for_proxy r then cgroup ++ B " " ++ body else body.

Definition head_lines : list bytes :=
  [B "table inet bubbler {"; TAB :: B "chain out {"; [TAB; TAB] ++ B "type filter hook output priority 0; policy drop;"].
Definition tail_lines : list bytes := [[TAB; TAB] ++ B "reject with icmpx admin-prohibited"; TAB :: B "}"; B "}"].

Lemma concat_map_map {A B C} (g : B -> C) (f : A -> list B) l : map g (concat (map f l)) = concat (map (fun a => map g (f a)) l).
Proof. induction l as [|a l IH]; [done|]. cbn. by rewrite map_app, IH. Qed.

Lemma concat_map_ext {A B} (f g : A -> list B) l : (forall a, f a = g a) -> concat (map f l) = concat (map g l).
Proof. intros E. induction l as [|a l IH]; [done|]. cbn. by rewrite E, IH. Qed.

(** The lines of the rules are those of the policy. *)
Lemma rules_policy cfg (m : bytes) :
  let gate := if bool_decide (allow_hosts cfg = []) then None else Some m in
  rules cfg gate = map (rule_text m) (policy cfg) ++ [B "reject with icmpx admin-prohibited"].
Proof.
  cbv zeta. unfold rules, policy. rewrite !map_app, !concat_map_map, <-!app_assoc. cbn [map].
  apply (f_equal2 app); [done|]. apply (f_equal2 app); [by destruct (no_ipv6 cfg)|].
  apply (f_equal2 app); [|apply (f_equal2 app); [|by case_bool_decide]].
  - apply concat_map_ext. intros ip. by case_bool_decide.
  - apply concat_map_ext. intros a. unfold out_rules, allow_out_rules. rewrite !map_map.
    destruct a as [c [n|] [[|]|]]; cbn [AllowOut.port AllowOut.proto AllowOut.dest protos map]; repeat case_bool_decide; try done.
    all: by rewrite <-?app_assoc.
Qed.
End Text.

(** ** What the filter lets through *)

Lemma admitted_app l k pkt : admitted (l ++ k) pkt = admitted l pkt || admitted k pkt.
Proof. apply existsb_app. Qed.

Lemma admitted_concat {A} (f : A -> list rule) l pkt :
  admitted (concat (map f l)) pkt = true <-> exists a, a ∈ l /\ admitted (f a) pkt = true.
Proof.
  induction l as [|a l IH]; cbn [map concat].
  - split; [done|]. intros (a & []%elem_of_nil & _).
  - rewrite admitted_app, orb_true_iff, IH. split.
    + intros [Ha|(b & Hb & Hf)]; [exists a|exists b]; split; try done; [apply elem_of_cons; by left|apply elem_of_cons; by right].
    + intros (b & [->|Hb]%elem_of_cons & Hf); [by left|right; by exists b].
Qed.

(** The rules of one destination. *)
Definition covered (c : Cidr.t) (ps : list Proto.t) (port : option Z) (pkt : packet) : Prop :=
  in_network c (dst pkt) /\ (exists p, p ∈ ps /\ transport pkt = Some p) /\ (port = None \/ port = Some (dport pkt)).

Lemma admitted_to g c ps port pkt :
  admitted (map (fun p => mkRule g (To c p port)) ps) pkt = true <->
  covered c ps port pkt /\ (g = true -> by_proxy pkt = true).
Proof.
  unfold admitted. rewrite existsb_spec. unfold covered. setoid_rewrite list_elem_of_fmap. split.
  - intros (r & (p & -> & Hp) & Hr). cbn in Hr. apply andb_true_iff in Hr as [Hg Hr].
    apply andb_true_iff in Hr as [Hr Hn]. apply andb_true_iff in Hr as [Hi Ht]. apply bool_decide_eq_true in Hi, Ht.
    split; [split_and!; [done|by exists p|]|by intros ->]. destruct port as [n|]; [right; f_equal; lia|by left].
  - intros ((Hi & (p & Hp & Ht) & Hn) & Hg). exists (mkRule g (To c p port)). split; [by exists p|]. cbn.
    rewrite (bool_decide_true _ Hi), (bool_decide_true _ Ht). cbn. apply andb_true_iff. split.
    + destruct g; [by apply Hg|done].
    + destruct Hn as [->| ->]; [done|apply Z.eqb_refl].
Qed.

Lemma be_val_inj o o' : len o = len o' -> be_val o = be_val o' -> o = o'.
Proof.
  intros Hl E. rewrite <-(be_bytes_val o), <-(be_bytes_val o'), E. f_equal. unfold len in Hl. lia.
Qed.

Lemma in_network_single a b : ip_wf a -> ip_wf b -> in_network (Cidr.mk a (Cidr.bits a)) b <-> b = a.
Proof.
  unfold in_network. cbn. intros Ha Hb. split; [|by intros ->].
  intros [Hf Hv]. destruct a as [o|o], b as [o'|o']; cbn in *; try done; f_equal; apply be_val_inj; try congruence;
    by rewrite !Z.shiftr_0_r in Hv.
Qed.

(** What the parsers leave in a configuration. *)
Definition cidr_wf (c : Cidr.t) : Prop :=
  ip_wf (Cidr.addr c) /\ 0 <= Cidr.prefix c <= Cidr.bits (Cidr.addr c) /\
  Cidr.is_network_address (Cidr.addr c) (Cidr.prefix c) = true /\
  match Cidr.addr c with V6 o => Cidr.ipv4_mapped o = false | V4 _ => True end.

Definition port_wf (p : Z) : Prop := 1 <= p <= U16_MAX.

Definition host_wf (a : AllowHost.t) : Prop :=
  wf_pattern (AllowHost.pattern a) /\ len (HostPattern.fmt (AllowHost.pattern a)) <= 253 /\ port_wf (AllowHost.port a).

Record network_wf (cfg : NetworkConfig) : Prop := {
  w_dns : Forall ip_wf (n_dns cfg);
  w_forwards : Forall (fun f => port_wf (f_port f)) (n_forwards cfg);
  w_out : Forall (fun a => cidr_wf (AllowOut.dest a) /\ match AllowOut.port a with Some p => port_wf p | None => True end) (allow_out cfg);
  w_hosts : Forall host_wf (allow_hosts cfg) }.

Lemma resolvers_wf cfg : network_wf cfg -> Forall ip_wf (or_empty (resolvers cfg)).
Proof.
  intros Hw. unfold resolvers, or_empty. destruct (mode cfg); [|case_bool_decide|]; cbn; try apply Hw; try by constructor.
  case_bool_decide; [|apply Hw]. constructor; [done|constructor].
Qed.

(** What the policy lets out. *)
Lemma policy_admits cfg pkt :
  network_wf cfg -> ip_wf (dst pkt) ->
  admitted (policy cfg) pkt = true <->
  loopback pkt = true \/ established pkt = true \/ (no_ipv6 cfg = false /\ neighbour pkt = true) \/
  (dst pkt ∈ or_empty (resolvers cfg) /\ transport pkt <> None /\ dport pkt = DNS_PORT /\
     (allow_hosts cfg <> [] -> by_proxy pkt = true)) \/
  (exists a, a ∈ allow_out cfg /\ covered (AllowOut.dest a) (protos (AllowOut.proto a)) (AllowOut.port a) pkt /\
     (allow_hosts cfg <> [] -> AllowOut.port a = Some DNS_PORT -> by_proxy pkt = true)) \/
  (allow_hosts cfg <> [] /\ by_proxy pkt = true).
Proof.
  intros Hw Hd. unfold policy. rewrite !admitted_app, !orb_true_iff, !admitted_concat.
  setoid_rewrite admitted_to. cbn [admitted existsb for_proxy what applies andb]. rewrite orb_false_r, orb_true_iff.
  assert (forall b : bool, negb (bool_decide (allow_hosts cfg = [])) && b = true <-> allow_hosts cfg <> [] /\ b = true) as Hp
    by (intros b; case_bool_decide; cbn; naive_solver).
  assert (negb (bool_decide (allow_hosts cfg = [])) = true <-> allow_hosts cfg <> []) as Hp' by (case_bool_decide; cbn; naive_solver).
  setoid_rewrite Hp. setoid_rewrite bool_decide_eq_true. setoid_rewrite Hp'. rewrite Logic.or_assoc.
  do 2 (apply Morphisms_Prop.or_iff_morphism; [done|]).
  apply Morphisms_Prop.or_iff_morphism; [destruct (no_ipv6 cfg); cbn; rewrite ?orb_false_r; naive_solver|].
  apply Morphisms_Prop.or_iff_morphism; [|apply Morphisms_Prop.or_iff_morphism].
  - pose proof (resolvers_wf cfg Hw) as Hr. rewrite Forall_forall in Hr. unfold covered. split.
    + intros (ip & Hip & (Hin & (p & _ & Ht) & Hn) & Hg). apply in_network_single in Hin as ->; auto.
      split_and!; [done|by rewrite Ht|destruct Hn as [|[= <-]]; done|done].
    + intros (Hip & Ht & Hn & Hg). exists (dst pkt). split; [done|]. split; [|done]. split; [apply in_network_single; auto|split; [|right; by f_equal]].
      destruct (transport pkt) as [[|]|]; [exists Proto.Tcp|exists Proto.Udp|done]; by rewrite !elem_of_cons; eauto.
  - naive_solver.
  - case_bool_decide; cbn; rewrite ?orb_false_r, ?andb_true_r; naive_solver.
Qed.

(** ** No value forges a rule *)

Definition one_line (l : bytes) : bool := forallb (fun b => negb (bool_decide (b = LF))) l.

Lemma one_line_spec l : one_line l = true <-> LF ∉ l.
Proof.
  unfold one_line. rewrite forallb_spec, Forall_forall. split.
  - intros Hl Hin. specialize (Hl _ Hin). rewrite bool_decide_true in Hl; done.
  - intros Hl b Hb. case_bool_decide; [by subst|done].
Qed.

Lemma one_line_app l k : one_line (l ++ k) = one_line l && one_line k.
Proof. apply forallb_app. Qed.

Lemma one_line_cat l k : one_line l = true -> one_line k = true -> one_line (l ++ k) = true.
Proof. intros Hl Hk. by rewrite one_line_app, Hl, Hk. Qed.

(** A text that is put together from lines, with [B] kept from being read as a list. *)
#[local] Opaque B.
Ltac lines := repeat match goal with |- one_line (_ ++ _) = true => apply one_line_cat end; try (vm_compute; reflexivity).

Lemma one_line_weaken (P : byte -> bool) l : P LF = false -> forallb P l = true -> one_line l = true.
Proof.
  intros Hn Hl. apply one_line_spec. intros Hin. rewrite forallb_spec, Forall_forall in Hl. specialize (Hl _ Hin). congruence.
Qed.

Lemma one_line_decimal n : 0 <= n -> one_line (decimal n) = true.
Proof. intros Hn. by apply (one_line_weaken is_ascii_digit), decimal_spec. Qed.

Lemma cgroup_new path cg : Cgroup.new path = Ok cg ->
  cg = Cgroup.mk path (len (split_on SLASH path)) /\ 0 < Cgroup.level cg <= U8_MAX /\ Forall (fun b => Cgroup.refused b = None) path.
Proof.
  unfold Cgroup.new. intros Hn. destruct (bool_decide _); [done|]. destruct (_ || _); [done|].
  destruct (head (omap Cgroup.refused path)) eqn:Er; [done|]. destruct (existsb _ _); [done|].
  destruct (Z.gtb_spec (len (split_on SLASH path)) U8_MAX); [done|]. injection Hn as <-. cbn.
  assert (0 < len (split_on SLASH path)).
  { pose proof (split_on_nonempty SLASH path). destruct (split_on SLASH path) as [|w ws]; [done|]. rewrite len_cons. pose proof (len_nonneg ws). lia. }
  split_and!; try done; try lia. clear -Er.
  induction path as [|b p IH]; [constructor|]. cbn in Er. destruct (Cgroup.refused b) eqn:Eb; [done|]. constructor; auto.
Qed.

Lemma cgroup_fmt_line path cg : Cgroup.new path = Ok cg -> one_line (Cgroup.fmt cg) = true /\ QUOTE ∉ Cgroup.path cg.
Proof.
  intros (-> & Hl & Hp)%cgroup_new. rewrite Forall_forall in Hp. cbn in *.
  assert (forall b, Cgroup.refused b <> None -> b ∉ path) as Hr by (intros b Hb Hin; by apply Hb, Hp).
  split; [|by apply Hr]. unfold Cgroup.fmt, quoted. cbn [Cgroup.path Cgroup.level].
  lines; [apply one_line_decimal; lia|by apply one_line_spec, Hr].
Qed.

#[local] Transparent B.

Section Lines.
Context `{IpText, !IpTextLaws}.

Lemma one_line_cidr c : 0 <= Cidr.prefix c -> one_line (Cidr.fmt c) = true.
Proof.
  intros Hp. unfold Cidr.fmt.
  assert (one_line (ip_text (Cidr.addr c)) = true) as Ht by (by apply (one_line_weaken ip_char), ip_text_chars).
  destruct (_ =? _); [done|]. lines; [done|by apply one_line_decimal].
Qed.

(** What keeps the text of a rule on its line. *)
Definition rule_wf (r : rule) : Prop :=
  match what r with To c _ port => 0 <= Cidr.prefix c /\ match port with Some n => 0 <= n | None => True end | _ => True end.

Lemma one_line_rule m r : one_line m = true -> rule_wf r -> one_line (rule_text m r) = true.
Proof.
  intros Hm Hr. unfold rule_text.
  set (body := match what r with OnLoopback => _ | _ => _ end).
  assert (one_line body = true) as Hb; [|destruct (for_proxy r); [by lines|done]].
  subst body. unfold rule_wf in Hr. destruct (what r) as [| | |c p [n|]|]; try (vm_compute; reflexivity).
  all: destruct Hr as [Hc Hn]; lines; try (by apply one_line_cidr); try (by apply one_line_decimal); unfold Cidr.family;
    try (destruct (Cidr.addr c); vm_compute; reflexivity); destruct p; vm_compute; reflexivity.
Qed.

Lemma cidr_bits_nonneg a : 0 <= Cidr.bits a.
Proof. by destruct a. Qed.

Lemma policy_wf cfg : network_wf cfg -> Forall rule_wf (policy cfg).
Proof.
  intros Hw. unfold policy. rewrite !Forall_app. split_and!; [by repeat constructor|by destruct (no_ipv6 cfg); repeat constructor| | |by case_bool_decide; repeat constructor].
  all: apply Forall_concat, Forall_map, Forall_forall; intros x Hx; apply Forall_map, Forall_forall; intros p _; cbn.
  - split; [apply cidr_bits_nonneg|unfold DNS_PORT; lia].
  - pose proof (w_out _ Hw) as Ho. rewrite Forall_forall in Ho. destruct (Ho x Hx) as [(_ & Hp & _) Hn]. split; [lia|].
    destruct (AllowOut.port x); [unfold port_wf in Hn; lia|done].
Qed.

Lemma split_lines (ls : list bytes) tl : Forall (fun l => one_line l = true) ls ->
  split_on LF (concat (map (fun l => l ++ [LF]) ls) ++ tl) = ls ++ split_on LF tl.
Proof.
  induction 1 as [|l ls Hl _ IH]; [done|]. cbn [map concat]. rewrite <-!app_assoc. cbn [app].
  rewrite split_on_app by (by apply one_line_spec). by rewrite IH.
Qed.

Lemma table_lines cfg m : network_wf cfg -> one_line m = true ->
  split_on LF (table (map (rule_text m) (policy cfg) ++ [B "reject with icmpx admin-prohibited"])) =
  head_lines ++ map (fun r => [TAB; TAB] ++ rule_text m r) (policy cfg) ++ tail_lines ++ [[]].
Proof.
  intros Hw Hl. set (mid := map (fun r => [TAB; TAB] ++ rule_text m r) (policy cfg)).
  assert (Forall (fun l => one_line l = true) mid) as Hmid.
  { apply Forall_map. eapply Forall_impl; [by apply policy_wf|]. intros r Hr. apply one_line_cat; [done|]. by apply one_line_rule. }
  transitivity (split_on LF (concat (map (fun l => l ++ [LF]) (head_lines ++ mid ++ tail_lines)) ++ [])).
  - apply (f_equal (split_on LF)). rewrite app_nil_r, !map_app, !concat_app. unfold mid, table. rewrite !map_app, !map_map, !concat_app.
    cbn [map concat]. rewrite !app_nil_r.
    assert (forall l : list rule, map (fun r => [TAB; TAB] ++ rule_text m r ++ [LF]) l = map (fun r => ([TAB; TAB] ++ rule_text m r) ++ [LF]) l)
      as -> by (intros l; apply map_ext; intros r; by rewrite <-app_assoc).
    unfold head_lines, tail_lines. cbn [map concat]. by rewrite <-!app_assoc.
  - rewrite split_lines; [by rewrite <-!app_assoc|]. rewrite !Forall_app. split_and!; [by repeat constructor|done|by repeat constructor].
Qed.

Lemma ruleset_lines cfg path cg :
  network_wf cfg -> Cgroup.new path = Ok cg ->
  (forall cgroup, cgroup = None \/ cgroup = Some cg ->
    match ruleset cfg cgroup with
    | Some text =>
      outbound cfg = Outbound.Deny /\ mode cfg = Mode.Isolated /\ (allow_hosts cfg <> [] -> cgroup <> None) /\
      split_on LF text = head_lines ++ map (fun r => [TAB; TAB] ++ rule_text (Cgroup.fmt cg) r) (policy cfg) ++ tail_lines ++ [[]]
    | None => outbound cfg <> Outbound.Deny \/ mode cfg <> Mode.Isolated \/ (allow_hosts cfg <> [] /\ cgroup = None)
    end) /\
  Cgroup.fmt cg = B "socket cgroupv2 level " ++ decimal (len (split_on SLASH path)) ++ B " " ++ quoted path /\ QUOTE ∉ path.
Proof.
  intros Hw Hcg. destruct (cgroup_fmt_line _ _ Hcg) as [Hl Hq]. destruct (cgroup_new _ _ Hcg) as (-> & _).
  split; [|done]. set (cg := Cgroup.mk path _) in *. intros cgroup Hc.
  pose proof (rules_policy cfg (Cgroup.fmt cg)) as Hr. cbv zeta in Hr. unfold ruleset, is_isolated.
  destruct (decide (outbound cfg = Outbound.Deny)) as [Hd|Hd]; [rewrite (bool_decide_true _ Hd)|rewrite (bool_decide_false _ Hd); by left].
  destruct (decide (mode cfg = Mode.Isolated)) as [Hm|Hm]; [rewrite (bool_decide_true _ Hm)|rewrite (bool_decide_false _ Hm); by right; left].
  cbn [negb orb].
  assert (split_on LF (table (rules cfg (if bool_decide (allow_hosts cfg = []) then None else Some (Cgroup.fmt cg)))) =
    head_lines ++ map (fun r => [TAB; TAB] ++ rule_text (Cgroup.fmt cg) r) (policy cfg) ++ tail_lines ++ [[]]) as Ht
    by (rewrite Hr; by apply table_lines).
  destruct (bool_decide (allow_hosts cfg = [])) eqn:Eh.
  - apply bool_decide_eq_true in Eh. cbn [mbind option_bind]. split; [exact Hd|split; [exact Hm|split; [intros Hn; by destruct Hn|exact Ht]]].
  - apply bool_decide_eq_false in Eh. destruct Hc as [->| ->]; cbn [mbind option_bind]; [right; right; by split|].
    split; [exact Hd|split; [exact Hm|split; [intros _ Hn; discriminate Hn|exact Ht]]].
Qed.

(** C29. The text handed to [nft] is the abstract filter and nothing else: read line by
    line it is the frame of the table, one line for each rule of the policy in order,
    and the final reject; whatever the configuration or the cgroup is called no value
    of theirs opens a line or closes the quotes it stands in.  There is no text exactly
    when nothing is filtered or names are allowed and no cgroup was made for the proxy. *)
Theorem ruleset_refines_policy cfg path cg :
  network_wf cfg -> Cgroup.new path = Ok cg ->
  (forall cgroup, cgroup = None \/ cgroup = Some cg ->
    match ruleset cfg cgroup with
    | Some text =>
      outbound cfg = Outbound.Deny /\ mode cfg = Mode.Isolated /\ (allow_hosts cfg <> [] -> cgroup <> None) /\
      split_on LF text = head_lines ++ map (fun r => [TAB; TAB] ++ rule_text (Cgroup.fmt cg) r) (policy cfg) ++ tail_lines ++ [[]]
    | None => outbound cfg <> Outbound.Deny \/ mode cfg <> Mode.Isolated \/ (allow_hosts cfg <> [] /\ cgroup = None)
    end) /\
  Cgroup.fmt cg = B "socket cgroupv2 level " ++ decimal (len (split_on SLASH path)) ++ B " " ++ quoted path /\ QUOTE ∉ path.
Proof. apply ruleset_lines. Qed.

(** C28. What gets out of a filtered namespace.  The text given to [nft] is a list of
    accepting rules between its frame and the final reject, and they accept a packet
    exactly when it goes to the sandbox's own loopback, belongs to an answered
    connection, is neighbour discovery and IPv6 is not off, goes to a resolver on port
    53, is covered by an [allow-out], or is the proxy's and a name is allowed.  Where
    names are allowed, the resolvers and an [allow-out] that names port 53 are the
    proxy's alone; one that names no port covers every port, 53 too, and is open to the
    application, as [network.rs] has it. *)
Theorem filter_admits_only_the_configured cfg path cg cgroup text :
  network_wf cfg -> Cgroup.new path = Ok cg -> cgroup = None \/ cgroup = Some cg -> ruleset cfg cgroup = Some text ->
  exists l, split_on LF text = head_lines ++ map (fun r => [TAB; TAB] ++ rule_text (Cgroup.fmt cg) r) l ++ tail_lines ++ [[]] /\
  forall pkt, ip_wf (dst pkt) ->
  admitted l pkt = true <->
  loopback pkt = true \/ established pkt = true \/ (no_ipv6 cfg = false /\ neighbour pkt = true) \/
  (dst pkt ∈ or_empty (resolvers cfg) /\ transport pkt <> None /\ dport pkt = DNS_PORT /\
     (allow_hosts cfg <> [] -> by_proxy pkt = true)) \/
  (exists a, a ∈ allow_out cfg /\ covered (AllowOut.dest a) (protos (AllowOut.proto a)) (AllowOut.port a) pkt /\
     (allow_hosts cfg <> [] -> AllowOut.port a = Some DNS_PORT -> by_proxy pkt = true)) \/
  (allow_hosts cfg <> [] /\ by_proxy pkt = true).
Proof.
  intros Hw Hcg Hc Ht. exists (policy cfg). split; [|intros pkt; by apply policy_admits].
  pose proof (proj1 (ruleset_lines cfg path cg Hw Hcg) cgroup Hc) as Hr. rewrite Ht in Hr. exact (proj2 (proj2 (proj2 Hr))).
Qed.

End Lines.

(** ** Destinations as they are written *)

Lemma network_address_iff a p : ip_wf a -> 0 <= p <= Cidr.bits a ->
  Cidr.is_network_address a p = true <-> value a mod 2 ^ (Cidr.bits a - p) = 0.
Proof.
  intros Ha Hp. unfold Cidr.is_network_address. destruct (Z.eqb_spec p (Cidr.bits a)) as [->|Hn].
  { rewrite Z.sub_diag. split; [intros _; apply Z.mod_1_r|done]. }
  assert (forall v, Z.land v (Z.shiftr (2 ^ Cidr.bits a - 1) p) = v mod 2 ^ (Cidr.bits a - p)) as He.
  { intros v. replace (2 ^ Cidr.bits a - 1) with (Z.ones (Cidr.bits a)) by (rewrite Z.ones_equiv; lia).
    rewrite Z.shiftr_div_pow2, Z.ones_div_pow2 by lia. apply Z.land_ones. lia. }
  destruct a as [o|o]; cbn [value Cidr.bits] in *; [change U32_MAX with (2 ^ 32 - 1)|unfold Cidr.U128_MAX]; rewrite He; apply Z.eqb_eq.
Qed.

Lemma split_once_app sep p q : sep ∉ p -> Cidr.split_once sep (p ++ sep :: q) = Some (p, q).
Proof.
  induction p as [|b p IH]; intros Hp; cbn; [by rewrite decide_True|].
  rewrite decide_False by (intros ->; apply Hp, elem_of_cons; by left). rewrite IH; [done|].
  intros Hin. apply Hp, elem_of_cons. by right.
Qed.

Lemma split_once_none sep p : sep ∉ p -> Cidr.split_once sep p = None.
Proof.
  induction p as [|b p IH]; intros Hp; cbn; [done|].
  rewrite decide_False by (intros ->; apply Hp, elem_of_cons; by left). rewrite IH; [done|].
  intros Hin. apply Hp, elem_of_cons. by right.
Qed.

Section Written.
Context `{IpText, !IpTextLaws}.

Lemma ip_text_no b a : ip_char b = false -> b ∉ ip_text a.
Proof.
  intros Hb Hin. pose proof (ip_text_chars a) as Hc. rewrite forallb_spec, Forall_forall in Hc. specialize (Hc _ Hin). congruence.
Qed.

Lemma cidr_printed c : cidr_wf c -> Cidr.from_str (Cidr.fmt c) = Ok c.
Proof.
  destruct c as [a p]; intros (Ha & Hp & Hn & Hm). cbn in *. unfold Cidr.fmt, Cidr.from_str. cbn [Cidr.addr Cidr.prefix].
  assert (match a with V6 o => Cidr.ipv4_mapped o | V4 _ => false end = false) as Hm' by (by destruct a).
  destruct (Z.eqb_spec p (Cidr.bits a)) as [->|Hb].
  + rewrite split_once_none by (by apply ip_text_no). rewrite ip_from_text by done. cbn [ok_or mbind result_bind].
    by rewrite Hm', Hn.
  + cbn [app]. rewrite split_once_app by (by apply ip_text_no). rewrite ip_from_text by done. cbn [ok_or mbind result_bind].
    assert (p <= U8_MAX) by (destruct a; cbn in Hp; unfold U8_MAX; lia).
    rewrite Hm', parse_uint_decimal by lia. cbn [mbind option_bind]. rewrite (proj2 (Z.leb_le _ _)) by lia. cbn [ok_or mbind result_bind].
    by rewrite Hn.
Qed.

Lemma cidr_read s c : Cidr.from_str s = Ok c ->
  cidr_wf c /\ value (Cidr.addr c) mod 2 ^ (Cidr.bits (Cidr.addr c) - Cidr.prefix c) = 0.
Proof.
  unfold Cidr.from_str. destruct (match Cidr.split_once _ _ with Some _ => _ | None => _ end) as [a l].
  intros Hc. inv_ok. destruct (match r with V4 _ => _ | V6 _ => _ end) eqn:Em; [done|]. inv_ok.
  destruct (Cidr.is_network_address r r0) eqn:En; [|done]. cbn [negb] in Hc. inv_ok. cbn.
  assert (ip_wf r) as Hr by (by eapply ip_from_wf; destruct (ip_from_str a) eqn:Ea; inv_ok).
  assert (0 <= r0 <= Cidr.bits r) as Hp.
  { destruct l as [l|]; [|inv_ok; destruct r; cbn; lia]. inv_ok.
    destruct (parse_uint U8_MAX l) as [n|] eqn:El; [|done]. cbn [mbind option_bind] in *. apply parse_uint_range in El.
    destruct (n <=? Cidr.bits r) eqn:Eb; [|done]. inv_ok. lia. }
  split; [split; [exact Hr|split; [exact Hp|split; [exact En|cbn; by destruct r]]]|]. by apply network_address_iff.
Qed.

(** A destination means the network it is written as: every network whose host bits
    are clear is printed and read back as itself, and nothing is read that is not one,
    with its length in range, its host bits clear and no IPv4 address in IPv6 clothes. *)
Theorem cidr_roundtrip :
  (forall c, cidr_wf c -> Cidr.from_str (Cidr.fmt c) = Ok c) /\
  (forall s c, Cidr.from_str s = Ok c ->
    cidr_wf c /\ value (Cidr.addr c) mod 2 ^ (Cidr.bits (Cidr.addr c) - Cidr.prefix c) = 0).
Proof. exact (conj cidr_printed cidr_read). Qed.
End Written.

(** ** What the proxy is told *)

Definition target (a : AllowHost.t) : bytes := HostPattern.fmt (AllowHost.pattern a) ++ [COLON] ++ decimal (AllowHost.port a).

Lemma entry_target a : host_wf a -> Allowlist.entry (target a) = Ok (AllowHost.pattern a, AllowHost.port a).
Proof. intros (Hp & Hl & Hn). apply (entry_roundtrip _ _ Hp Hl). unfold port_wf, U16_MAX in Hn. lia. Qed.

Lemma is_ascii_app l k : is_ascii l = true -> is_ascii k = true -> is_ascii (l ++ k) = true.
Proof. unfold is_ascii. rewrite forallb_app. by intros -> ->. Qed.

Lemma join_is_ascii ws : Forall (fun w => is_ascii w = true) ws -> is_ascii (join [DOT] ws) = true.
Proof.
  induction 1 as [|w ws Hw _ IH]; [done|]. destruct ws as [|v ws]; [done|].
  rewrite join_cons by done. by repeat apply is_ascii_app.
Qed.

Lemma pattern_ascii p : wf_pattern p -> is_ascii (HostPattern.fmt p) = true.
Proof.
  intros [Hv (l & Hl & _)]. assert (HostPattern.labels p <> []) as Hn by (by destruct (HostPattern.labels p)).
  assert (Forall (fun w => is_ascii w = true) (HostPattern.labels p)).
  { eapply Forall_impl; [exact Hv|]. intros w [Hw _]. by apply valid_label_ascii. }
  rewrite fmt_join by done. apply join_is_ascii. unfold wild_pieces. destruct (HostPattern.wildcard p); [by constructor|done].
Qed.

Lemma target_utf8 a : host_wf a -> utf8_valid (target a) = true.
Proof.
  intros (Hp & Hl & Hn). apply utf8_valid_ascii. unfold target. apply is_ascii_app; [by apply pattern_ascii|].
  apply is_ascii_app; [done|]. apply decimal_ascii. unfold port_wf in Hn. lia.
Qed.

Section Told.
Context `{IpText, !IpTextLaws}.

Lemma ip_text_utf8 a : utf8_valid (ip_text a) = true.
Proof.
  apply utf8_valid_ascii. pose proof (ip_text_chars a) as Hc. unfold is_ascii.
  rewrite forallb_spec in *. eapply Forall_impl; [exact Hc|]. intros b. cbn beta. unfold ip_char, is_ascii_digit.
  rewrite !orb_true_iff, !andb_true_iff, !bool_decide_eq_true. intros [[[?|?]|E]|E]; [lia|lia|by rewrite E|by rewrite E].
Qed.

(** C30. The proxy enforces the configuration: from the command line the launcher gives
    it, it reads as its resolvers exactly those the ruleset opens to it, the port the
    application is pointed at, and an allowlist that grants a name and port exactly
    when an [allow-host] of the configuration does. *)
Theorem proxy_enforces_the_config cfg rfd lfd lt :
  network_wf cfg -> mode cfg = Mode.Isolated -> allow_hosts cfg <> [] ->
  0 <= rfd <= I32_MAX -> 0 <= lfd <= I32_MAX -> lfd <> rfd ->
  exists args list,
    Grammar.parse_from ip_from_str (net_proxy_argv cfg (mkProxyFds (decimal rfd) (decimal lfd)) lt) = Some args /\
    Grammar.dns args = or_empty (resolvers cfg) /\ Grammar.aport args = PROXY_PORT /\
    Grammar.ready_fd args = rfd /\ Grammar.log_fd args = Some lfd /\ Grammar.log_tunnels args = lt /\
    Allowlist.parse (Grammar.allow args) = Ok list /\
    forall host port, Allowlist.matches list host port = true <->
      exists a, a ∈ allow_hosts cfg /\ AllowHost.port a = port /\ HostPattern.matches (AllowHost.pattern a) host = true.
Proof.
  intros Hw Hm Hh Hr Hl Hrl.
  set (args := Grammar.mkArgs (map target (allow_hosts cfg)) (or_empty (resolvers cfg)) PROXY_PORT rfd (Some lfd) lt).
  assert (net_proxy_argv cfg (mkProxyFds (decimal rfd) (decimal lfd)) lt = argv_of ip_text args) as ->.
  { unfold net_proxy_argv, argv_of, args. cbn [Grammar.allow Grammar.dns Grammar.aport Grammar.ready_fd Grammar.log_fd Grammar.log_tunnels ready log_].
    by rewrite map_map. }
  set (list := Allowlist.mk (map (fun a => (AllowHost.pattern a, AllowHost.port a)) (allow_hosts cfg))).
  pose proof (w_hosts _ Hw) as Hhw. pose proof (resolvers_wf cfg Hw) as Hrw.
  exists args, list. split; [|split_and!; try reflexivity].
  - apply proxy_args_roundtrip.
    + constructor; cbn; try done.
      * destruct (allow_hosts cfg); done.
      * unfold resolvers. rewrite Hm. by case_bool_decide.
      * apply Forall_map. eapply Forall_impl; [exact Hhw|]. apply target_utf8.
      * congruence.
    + cbn. eapply Forall_impl; [exact Hrw|]. intros i Hi. split; [by apply ip_from_text|apply ip_text_utf8].
  - apply parse_loop_ok. eexists. split; [|reflexivity]. cbn. apply Forall2_fmap_2. clear -Hhw.
    induction Hhw as [|a l Ha _ IH]; constructor; [by apply entry_target|done].
  - intros host port. rewrite allowlist_matches_iff. cbn. setoid_rewrite list_elem_of_fmap. naive_solver.
Qed.
End Told.

(** ** Concrete runs

    An address is four decimal numbers, or a colon and its hexadecimal digits. *)

Definition hex_digit (n : Z) : byte := to_u8 (if n <? 10 then 48 + n else 87 + n).
Definition hex_val (b : byte) : option Z :=
  if is_ascii_digit b then Some (u8 b - 48) else if (97 <=? u8 b) && (u8 b <=? 102) then Some (u8 b - 87) else None.

Definition hex (o : bytes) : bytes := concat (map (fun b => [hex_digit (u8 b / 16); hex_digit (u8 b mod 16)]) o).

Fixpoint unhex (l : bytes) : option bytes :=
  match l with
  | [] => Some []
  | a :: b :: l => x ← hex_val a; y ← hex_val b; o ← unhex l; Some (to_u8 (16 * x + y) :: o)
  | _ => None
  end.

Definition demo_ip_text (a : IpAddr) : bytes :=
  match a with V4 o => join [DOT] (map (fun b => decimal (u8 b)) o) | V6 o => COLON :: hex o end.

Definition demo_ip (s : bytes) : option IpAddr :=
  a ← match s with
      | c :: l => if decide (c = COLON) then V6 <$> unhex l
                  else V4 <$> mapM (fun w => to_u8 <$> parse_uint U8_MAX w) (split_on DOT s)
      | [] => None
      end;
  if match a with V4 o => len o =? 4 | V6 o => len o =? 16 end then Some a else None.

#[local] Instance demo_text : IpText := {| ip_from_str := demo_ip; ip_text := demo_ip_text |}.

Lemma unhex_hex o : unhex (hex o) = Some o.
Proof.
  induction o as [|b o IH]; [done|]. cbn [hex map concat app unhex]. fold (hex o). rewrite IH.
  by destruct b.
Qed.

Lemma hex_chars o : forallb ip_char (hex o) = true.
Proof. induction o as [|b o IH]; [done|]. cbn [hex map concat app forallb]. fold (hex o). rewrite IH. by destruct b. Qed.

Lemma digits_chars l : forallb is_ascii_digit l = true -> forallb ip_char l = true.
Proof.
  rewrite !forallb_spec. intros Hl. eapply Forall_impl; [exact Hl|]. cbn. intros b Hb. unfold ip_char. by rewrite Hb.
Qed.

Lemma dotted_chars ws : Forall (fun w => forallb ip_char w = true) ws -> forallb ip_char (join [DOT] ws) = true.
Proof.
  induction 1 as [|w ws Hw _ IH]; [done|]. destruct ws as [|v ws]; [done|].
  rewrite join_cons by done. by rewrite !forallb_app, Hw, IH.
Qed.

Lemma octet_digits b : forallb is_ascii_digit (decimal (u8 b)) = true.
Proof. apply decimal_spec, u8_range. Qed.

#[local] Instance demo_text_laws : IpTextLaws.
Proof.
  split.
  - intros [o|o] Ho; cbn [ip_wf] in Ho; cbn [ip_from_str ip_text demo_text]; unfold demo_ip, demo_ip_text.
    + assert (map (fun b => decimal (u8 b)) o <> []) as Hn by (by destruct o).
      assert (Forall (fun w => DOT ∉ w) (map (fun b => decimal (u8 b)) o)) as Hd.
      { apply Forall_map, Forall_forall. intros b _ Hin. pose proof (octet_digits b) as Hb.
        rewrite forallb_spec, Forall_forall in Hb. by apply Hb in Hin. }
      assert (exists c l, join [DOT] (map (fun b => decimal (u8 b)) o) = c :: l /\ c <> COLON) as (c & l & E & Hc).
      { destruct o as [|b o]; [done|]. pose proof (octet_digits b) as Hb.
        assert (decimal (u8 b) <> []) as Hb' by (apply decimal_spec, u8_range).
        destruct (decimal (u8 b)) as [|c l] eqn:Eb; [done|]. cbn in Hb. apply andb_true_iff in Hb as [Hb _].
        cbn [map]. rewrite Eb. destruct o; [exists c, l|rewrite join_cons by done; exists c; eexists]; split; try reflexivity; by intros ->. }
      rewrite E. rewrite decide_False by done. rewrite <-E, split_join by done.
      assert (mapM (fun w => to_u8 <$> parse_uint U8_MAX w) (map (fun b => decimal (u8 b)) o) = Some o) as ->.
      { clear. induction o as [|b o IH]; [done|]. cbn [map mapM]. pose proof (u8_range b).
        rewrite parse_uint_decimal by (unfold U8_MAX; lia). rewrite IH. cbn [fmap option_fmap option_map mbind option_bind]. by rewrite to_u8_u8. }
      cbn [fmap option_fmap option_map mbind option_bind]. by rewrite (proj2 (Z.eqb_eq _ _) Ho).
    + rewrite decide_True by done. rewrite unhex_hex. cbn [fmap option_fmap option_map mbind option_bind]. by rewrite (proj2 (Z.eqb_eq _ _) Ho).
  - intros [o|o]; cbn.
    + apply dotted_chars, Forall_map, Forall_forall. intros b _. apply digits_chars, octet_digits.
    + apply hex_chars.
  - intros s a. cbn. unfold demo_ip. intros (a' & _ & Ha)%opt_bind_some. destruct a' as [o|o]; [destruct (Z.eqb_spec (len o) 4)|destruct (Z.eqb_spec (len o) 16)]; inv_ok; done.
Qed.

(** One resolver by default, one name, one network on one port. *)
Definition demo_network : NetworkConfig :=
  mkNetwork Mode.Isolated [] [mkForward 8080 false] false Outbound.Deny
    [AllowOut.mk (Cidr.mk (V4 (map to_u8 [140; 82; 112; 0])) 20) (Some 22) (Some Proto.Tcp)]
    [AllowHost.mk (HostPattern.mk [B "api"; B "example"] false) 443].

Lemma demo_network_wf : network_wf demo_network.
Proof.
  split; cbn.
  - constructor.
  - repeat constructor; unfold U16_MAX; cbn; lia.
  - repeat constructor; cbn; try done; unfold U16_MAX; lia.
  - repeat constructor; cbn; try done; unfold U16_MAX; try lia. exists (B "example"). by split.
Qed.

Definition demo_packet (a : list Z) (port : Z) (proxy : bool) : packet :=
  mkPacket false false false proxy (V4 (map to_u8 a)) (Some Proto.Tcp) port.

Lemma filter_admits_only_the_configured_witness :
  exists cg text l, Cgroup.new (B "bubbler/proxy") = Ok cg /\ ruleset demo_network (Some cg) = Some text /\
  split_on LF text = head_lines ++ map (fun r => [TAB; TAB] ++ rule_text (Cgroup.fmt cg) r) l ++ tail_lines ++ [[]] /\
  admitted l (demo_packet [140; 82; 113; 7] 22 false) = true /\ ~ admitted l (demo_packet [169; 254; 1; 1] 53 false) = true.
Proof.
  assert (exists cg, Cgroup.new (B "bubbler/proxy") = Ok cg) as (cg & Hcg) by (eexists; vm_compute; reflexivity).
  assert (exists text, ruleset demo_network (Some cg) = Some text) as (text & Ht) by (eexists; reflexivity).
  destruct (filter_admits_only_the_configured demo_network _ cg (Some cg) text demo_network_wf Hcg (or_intror eq_refl) Ht) as (l & Hl & Ha).
  exists cg, text, l. split; [exact Hcg|split; [exact Ht|split; [exact Hl|split]]].
  - apply Ha; [reflexivity|]. right; right; right; right; left. eexists. split; [by apply list_elem_of_singleton|]. split; [|intros _ [=]].
    split; [split; reflexivity|]. split; [exists Proto.Tcp; split; [by apply list_elem_of_singleton|done]|by right].
  - rewrite Ha by reflexivity. intros [[=]|[[=]|[[_ [=]]|[(_ & _ & _ & Hp)|[(a & Hin & (_ & _ & [Hn|Hn]) & _)|[_ [=]]]]]]].
    + by specialize (Hp ltac:(discriminate)).
    + apply list_elem_of_singleton in Hin as ->. discriminate Hn.
    + apply list_elem_of_singleton in Hin as ->. discriminate Hn.
Defined.

Lemma ruleset_refines_policy_witness :
  exists cg text, Cgroup.new (B "user.slice/bubbler-1.scope/proxy") = Ok cg /\ ruleset demo_network (Some cg) = Some text /\
  split_on LF text = head_lines ++ map (fun r => [TAB; TAB] ++ rule_text (Cgroup.fmt cg) r) (policy demo_network) ++ tail_lines ++ [[]].
Proof.
  assert (exists cg, Cgroup.new (B "user.slice/bubbler-1.scope/proxy") = Ok cg) as (cg & Hcg) by (eexists; vm_compute; reflexivity).
  pose proof (proj1 (ruleset_refines_policy demo_network _ cg demo_network_wf Hcg) (Some cg) (or_intror eq_refl)) as Hr.
  destruct (ruleset demo_network (Some cg)) as [text|] eqn:E.
  - destruct Hr as (_ & _ & _ & Hr). by exists cg, text.
  - exfalso. destruct Hr as [Hr|[Hr|[_ Hr]]]; [by apply Hr|by apply Hr|discriminate Hr].
Defined.

Lemma cidr_roundtrip_witness :
  Cidr.from_str (B "140.82.112.0/20") = Ok (Cidr.mk (V4 (map to_u8 [140; 82; 112; 0])) 20) /\
  Cidr.from_str (Cidr.fmt (Cidr.mk (V4 (map to_u8 [140; 82; 112; 0])) 20)) = Ok (Cidr.mk (V4 (map to_u8 [140; 82; 112; 0])) 20).
Proof.
  split; [vm_compute; reflexivity|]. apply (proj1 cidr_roundtrip).
  split; [done|split; [cbn; lia|by split]].
Defined.

Lemma proxy_enforces_the_config_witness :
  exists args list,
    Grammar.parse_from demo_ip (net_proxy_argv demo_network (mkProxyFds (decimal 3) (decimal 4)) true) = Some args /\
    Allowlist.parse (Grammar.allow args) = Ok list /\
    Allowlist.matches list (B "api.example") 443 = true.
Proof.
  destruct (proxy_enforces_the_config demo_network 3 4 true demo_network_wf eq_refl ltac:(discriminate)
    ltac:(unfold I32_MAX; lia) ltac:(unfold I32_MAX; lia) ltac:(lia)) as (args & list & Hp & _ & _ & _ & _ & _ & Hl & Hm).
  exists args, list. split; [exact Hp|]. split; [exact Hl|]. apply Hm.
  exists (AllowHost.mk (HostPattern.mk [B "api"; B "example"] false) 443). split; [by apply list_elem_of_singleton|by split].
Defined.
