(* ===== verification/Config.v ===== *)
(** The data of a configuration: the types of [crates/bubbler-core/src/config.rs] and what
    the file computes on them without reading KDL.

    A path is its list of components, which is what Rust compares paths by; a string is
    its bytes.  [grant] adds a service to those held, [Counts] and [section_rank] place the
    nodes a file keeps without granting them, the rest says which values a node takes. *)
From S2P Require Export Network Seccomp Tty.

(** The sub-components of [Network] and [Seccomp] and these share words; each type of the
    configuration has a module of its own. *)

Definition MAX_BYTES : Z := 64 * 1024.
Definition MAX_NESTING : Z := 32.
Definition MAX_COMMENT_MARKS : Z := 128.
Definition TMP_SIZE_MAX : Z := 64 * 1024 * 1024 * 1024.
Definition XWAYLAND : bytes := B "/usr/bin/Xwayland".

Definition RESERVED_ENV : list bytes :=
  [B "HOME"; B "PATH"; B "XDG_RUNTIME_DIR"; B "USER"; B "LOGNAME"; B "WAYLAND_DISPLAY"; B "DISPLAY"; B "XAUTHORITY";
   B "XDG_SESSION_TYPE"; B "PULSE_SERVER"; B "DBUS_SESSION_BUS_ADDRESS"; B "DBUS_SYSTEM_BUS_ADDRESS"; B "AT_SPI_BUS_ADDRESS";
   B "IBUS_USE_PORTAL"; B "XDG_ACTIVATION_TOKEN"; B "HTTPS_PROXY"; B "HTTP_PROXY"; B "https_proxy"; B "http_proxy";
   B "NO_PROXY"; B "no_proxy"; B "NODE_USE_ENV_PROXY"].

Definition RESERVED_ETC : list bytes :=
  [B "passwd"; B "passwd-"; B "passwd+"; B "group"; B "group-"; B "group+"; B "shadow"; B "shadow-"; B "shadow+";
   B "gshadow"; B "gshadow-"; B "gshadow+"].

Definition NODES : list bytes :=
  [B "wayland"; B "x11"; B "network"; B "dri"; B "pipewire"; B "pulseaudio"; B "gamepad"; B "hidraw"; B "camera";
   B "home-share"; B "path-share"; B "etc-share"; B "app-runtime"; B "dbus"; B "system-bus"; B "portals"; B "notify";
   B "tray"; B "mpris"; B "a11y"; B "input-method"; B "etc"; B "tmp"; B "tty"; B "userns"; B "seccomp"; B "env";
   B "lint-allow"; B "desktop"; B "command"].

Definition REPEATABLE : list bytes :=
  [B "home-share"; B "path-share"; B "etc-share"; B "app-runtime"; B "env"; B "lint-allow"].

(** ** Paths *)

(** [std::path::Component], without the prefixes of Windows. *)
Inductive component := RootDir | CurDir | ParentDir | Normal (s : bytes).

#[global] Instance component_eq_dec : EqDecision component.
Proof. solve_decision. Defined.

Notation path := (list component).

(** [Path::components]: repeated slashes and a [.] that is not the first piece of a
    relative path are no components. *)
Definition component_of (first : bool) (s : bytes) : option component :=
  if bool_decide (s = []) then None
  else if bool_decide (s = B ".") then (if first then Some CurDir else None)
  else if bool_decide (s = B "..") then Some ParentDir
  else Some (Normal s).

Definition components (s : bytes) : path :=
  match split_on SLASH s with
  | [] => []
  | p :: ps =>
    (if bool_decide (p = []) then (if bool_decide (ps = []) then [] else [RootDir])
     else match component_of true p with Some c => [c] | None => [] end) ++ omap (component_of false) ps
  end.

Definition component_text (c : component) : bytes :=
  match c with RootDir => [] | CurDir => B "." | ParentDir => B ".." | Normal s => s end.

(** The text of a path collected from components. *)
Definition path_text (p : path) : bytes :=
  match p with
  | [RootDir] => B "/"
  | _ => join [SLASH] (map component_text p)
  end.

Definition is_normal (c : component) : bool := match c with Normal _ => true | _ => false end.

(** ** The nodes *)

Module Userns.
Inductive t := Allow | Disable.
#[global] Instance eq_dec : EqDecision t.
Proof. solve_decision. Defined.

Definition from_str (s : bytes) : result ConfigError t :=
  if bool_decide (s = B "allow") then Ok Allow
  else if bool_decide (s = B "disable") then Ok Disable
  else Err (BadArgument (B "userns") (B "expected `allow` or `disable`, got " ++ ticked s)).
End Userns.

Module EtcMode.
Inductive t := Allowlist | Host.
#[global] Instance eq_dec : EqDecision t.
Proof. solve_decision. Defined.
End EtcMode.

Module Clipboard.
Inductive t := Paste | Open.
#[global] Instance eq_dec : EqDecision t.
Proof. solve_decision. Defined.
End Clipboard.

Module WaylandMode.
Inductive t := Sandboxed (clipboard : Clipboard.t) | Host.
#[global] Instance eq_dec : EqDecision t.
Proof. solve_decision. Defined.
Definition default_ : t := Sandboxed Clipboard.Paste.
End WaylandMode.

Record NestedX11 := mkNested { geometry : bytes; fullscreen : bool; grab : bool; wm : option bytes }.

#[global] Instance NestedX11_eq_dec : EqDecision NestedX11.
Proof. solve_decision. Defined.

(** [NestedX11::default]. *)
Definition default_nested : NestedX11 := mkNested (B "1280x720") false false None.

Definition xwayland_argv (x : NestedX11) : list bytes :=
  [XWAYLAND; B ":0"; B "-noreset"; B "-nolisten"; B "tcp"; B "-nolisten"; B "local"; B "-nolisten"; B "unix"; B "-ac"; B "-hidpi"] ++
  (if fullscreen x then [B "-fullscreen"] else [B "-decorate"; B "-geometry"; geometry x]) ++
  (if grab x then [B "-host-grab"] else []).

Module X11Mode.
Inductive t := Nested (x : NestedX11) | Host.
#[global] Instance eq_dec : EqDecision t.
Proof. solve_decision. Defined.
Definition default_ : t := Nested default_nested.
End X11Mode.

Module ShareMode.
Inductive t := ReadOnly | ReadWrite.
#[global] Instance eq_dec : EqDecision t.
Proof. solve_decision. Defined.
End ShareMode.

Record LintAllow := mkLintAllow { check_id : bytes; reason : bytes }.

#[global] Instance LintAllow_eq_dec : EqDecision LintAllow.
Proof. solve_decision. Defined.

Module BusRule.
Inductive t := See (n : bytes) | Talk (n : bytes) | Own (n : bytes) | Call (n r : bytes) | Broadcast (n r : bytes).
#[global] Instance eq_dec : EqDecision t.
Proof. solve_decision. Defined.

(** The name and the level, for a rule that sets one. *)
Definition policy (r : t) : option (bytes * bytes) :=
  match r with
  | See n => Some (n, B "see")
  | Talk n => Some (n, B "talk")
  | Own n => Some (n, B "own")
  | Call _ _ | Broadcast _ _ => None
  end.
End BusRule.

Module Portal.
Inductive t := ScreenCast | RemoteDesktop | GlobalShortcuts | Background | Location | Secrets.
#[global] Instance eq_dec : EqDecision t.
Proof. solve_decision. Defined.

Definition ALL : list t := [ScreenCast; RemoteDesktop; GlobalShortcuts; Background; Location; Secrets].

Definition node_name (p : t) : bytes :=
  match p with
  | ScreenCast => B "screencast"
  | RemoteDesktop => B "remote-desktop"
  | GlobalShortcuts => B "global-shortcuts"
  | Background => B "background"
  | Location => B "location"
  | Secrets => B "secrets"
  end.

Definition interfaces (p : t) : list bytes :=
  match p with
  | ScreenCast => [B "ScreenCast"; B "Screenshot"]
  | RemoteDesktop => [B "RemoteDesktop"; B "InputCapture"]
  | GlobalShortcuts => [B "GlobalShortcuts"]
  | Background => [B "Background"; B "DynamicLauncher"]
  | Location => [B "Location"]
  | Secrets => [B "Secret"]
  end.

Definition from_name (name : bytes) : option t := List.find (fun p => bool_decide (node_name p = name)) ALL.
End Portal.

Module Service.
Inductive t :=
| Wayland (m : WaylandMode.t)
| X11 (m : X11Mode.t)
| Network (cfg : NetworkConfig)
| Dri (kms : bool)
| Pipewire (microphone : bool)
| Pulseaudio (microphone : bool)
| HomeShare (p : path) (m : ShareMode.t) (optional : bool)
| PathShare (p : path) (m : ShareMode.t) (optional : bool)
| EtcShare (name : bytes)
| Dbus (rules : list BusRule.t)
| SystemBus (rules : list BusRule.t)
| Portals (children : list Portal.t)
| Notify
| Tray
| Gamepad (hidraw uinput : bool)
| Hidraw
| Camera (nodes : bool)
| Mpris (name : bytes)
| A11y
| InputMethod
| AppRuntime (id : bytes) (m : ShareMode.t).

#[global] Instance eq_dec : EqDecision t.
Proof. solve_decision. Defined.

Definition node_name (s : t) : bytes :=
  match s with
  | Wayland _ => B "wayland"
  | X11 _ => B "x11"
  | Network _ => B "network"
  | Dri _ => B "dri"
  | Pipewire _ => B "pipewire"
  | Pulseaudio _ => B "pulseaudio"
  | HomeShare _ _ _ => B "home-share"
  | PathShare _ _ _ => B "path-share"
  | EtcShare _ => B "etc-share"
  | Dbus _ => B "dbus"
  | SystemBus _ => B "system-bus"
  | Portals _ => B "portals"
  | Notify => B "notify"
  | Tray => B "tray"
  | Gamepad _ _ => B "gamepad"
  | Hidraw => B "hidraw"
  | Camera _ => B "camera"
  | Mpris _ => B "mpris"
  | A11y => B "a11y"
  | InputMethod => B "input-method"
  | AppRuntime _ _ => B "app-runtime"
  end.
End Service.

(** [SeccompConfig::default]. *)
Definition default_seccomp : SeccompConfig := mkConfig [] [] false.

#[global] Instance SeccompConfig_eq_dec : EqDecision SeccompConfig.
Proof. solve_decision. Defined.

#[global] Instance TtyMode_eq_dec : EqDecision TtyMode.
Proof. solve_decision. Defined.

Module Node.
Inductive t :=
| Service (s : Service.t)
| Env (pairs : list (bytes * bytes))
| LintAllow (l : list LintAllow)
| Etc (m : EtcMode.t)
| Tmp (size : Z)
| Tty (m : TtyMode)
| Userns (m : Userns.t)
| Seccomp (cfg : SeccompConfig)
| Desktop (name : bytes)
| Command (argv : list bytes).

#[global] Instance eq_dec : EqDecision t.
Proof. solve_decision. Defined.

Definition name (n : t) : bytes :=
  match n with
  | Service s => Service.node_name s
  | Env _ => B "env"
  | LintAllow _ => B "lint-allow"
  | Etc _ => B "etc"
  | Tmp _ => B "tmp"
  | Tty _ => B "tty"
  | Userns _ => B "userns"
  | Seccomp _ => B "seccomp"
  | Desktop _ => B "desktop"
  | Command _ => B "command"
  end.
End Node.

(** Whether a node carries anything beyond its own name. *)
Definition has_content (n : Node.t) : bool :=
  match n with
  | Node.Etc m => negb (bool_decide (m = EtcMode.Allowlist))
  | Node.Service s =>
    match s with
    | Service.Wayland m => negb (bool_decide (m = WaylandMode.default_))
    | Service.X11 m => negb (bool_decide (m = X11Mode.default_))
    | Service.Network cfg => negb (bool_decide (cfg = default_network))
    | Service.Camera nodes => nodes
    | Service.Dri kms => kms
    | Service.Gamepad hidraw uinput => hidraw || uinput
    | Service.Dbus rules | Service.SystemBus rules => negb (bool_decide (rules = []))
    | Service.Portals children => negb (bool_decide (children = []))
    | Service.Pipewire microphone | Service.Pulseaudio microphone => microphone
    | Service.Notify | Service.Tray | Service.Hidraw | Service.A11y | Service.InputMethod => false
    | Service.HomeShare _ _ _ | Service.PathShare _ _ _ | Service.EtcShare _ | Service.AppRuntime _ _ | Service.Mpris _ => true
    end
  | _ => true
  end.

Record Disabled := mkDisabled { node : Node.t; before : Z }.

Record InstanceConfig := mkInstance {
  services : list Service.t;
  shares : list (bytes * ShareMode.t);
  command : option (list bytes);
  env : list (bytes * bytes);
  etc : EtcMode.t;
  tmp : option Z;
  tty : TtyMode;
  seccomp : SeccompConfig;
  userns : Userns.t;
  lint_allows : list LintAllow;
  desktop : option bytes;
  disabled : list Disabled }.

(** [InstanceConfig::default]. *)
Definition default_config : InstanceConfig :=
  mkInstance [] [] None [] EtcMode.Allowlist None Pty default_seccomp Userns.Allow [] None [].

(** What the two audio nodes come to: [None] without either, else whether a microphone was
    asked for. *)
Definition audio (cfg : InstanceConfig) : option bool :=
  fold_left (fun set svc =>
    match svc with
    | Service.Pipewire microphone | Service.Pulseaudio microphone => Some (default false set || microphone)
    | _ => set
    end) (services cfg) None.

(** One layer as written. *)
Record RawProfile := mkRaw { config : InstanceConfig; includes : list bytes; tty_set : bool; userns_set : bool; etc_set : bool }.

(** ** Adding a grant *)

Module Same.
(** Which held service would grant the same thing as [svc]. *)
Definition twice (svc held : Service.t) : bool :=
  match svc, held with
  | Service.HomeShare p _ _, Service.HomeShare q _ _ => bool_decide (q = p)
  | Service.PathShare p _ _, Service.PathShare q _ _ => bool_decide (q = p)
  | Service.EtcShare n, Service.EtcShare m => bool_decide (m = n)
  | Service.AppRuntime i _, Service.AppRuntime j _ => bool_decide (j = i)
  | Service.Wayland _, Service.Wayland _ => true
  | Service.X11 _, Service.X11 _ => true
  | Service.Network _, Service.Network _ => true
  | Service.Gamepad _ _, Service.Gamepad _ _ => true
  | Service.Camera _, Service.Camera _ => true
  | Service.Dri _, Service.Dri _ => true
  | Service.Dbus _, Service.Dbus _ => true
  | Service.SystemBus _, Service.SystemBus _ => true
  | Service.Mpris _, Service.Mpris _ => true
  | Service.Portals _, Service.Portals _ => true
  | (Service.Pipewire _ | Service.Pulseaudio _ | Service.Notify | Service.Tray | Service.Hidraw | Service.A11y | Service.InputMethod), _ =>
      bool_decide (held = svc)
  | _, _ => false
  end.
End Same.

Definition grant (held : list Service.t) (svc : Service.t) : result ConfigError (list Service.t) :=
  if existsb (Same.twice svc) held then Err (Duplicate (Service.node_name svc)) else Ok (held ++ [svc]).

(** ** Sections *)

Definition section_rank (n : Node.t) : Z :=
  match n with
  | Node.LintAllow _ => 0
  | Node.Service _ => 1
  | Node.Env _ => 2
  | Node.Etc _ => 3
  | Node.Tmp _ => 4
  | Node.Tty _ => 5
  | Node.Userns _ => 6
  | Node.Seccomp _ => 7
  | Node.Desktop _ => 8
  | Node.Command _ => 9
  end.

Module Counts.
Record t := mk { lint_allows_ : Z; services_ : Z; env_ : Z; etc_ : Z; tmp_ : Z; tty_ : Z; userns_ : Z; seccomp_ : Z; desktop_ : Z; command_ : Z }.

(** [usize::from] of a test. *)
Definition one (b : bool) : Z := if b then 1 else 0.

Definition of_ (cfg : InstanceConfig) : t :=
  mk (len (lint_allows cfg)) (len (services cfg)) (len (env cfg))
     (one (negb (bool_decide (etc cfg = EtcMode.Allowlist)))) (one (bool_decide (tmp cfg <> None)))
     (one (negb (bool_decide (tty cfg = Pty)))) (one (negb (bool_decide (userns cfg = Userns.Allow))))
     (one (negb (bool_decide (seccomp cfg = default_seccomp)))) (one (bool_decide (desktop cfg <> None)))
     (one (bool_decide (command cfg <> None))).

Definition before (c : t) (n : Node.t) : Z :=
  match n with
  | Node.Service _ => services_ c
  | Node.Env _ => env_ c
  | Node.LintAllow _ => lint_allows_ c
  | Node.Etc _ => etc_ c
  | Node.Tmp _ => tmp_ c
  | Node.Tty _ => tty_ c
  | Node.Userns _ => userns_ c
  | Node.Seccomp _ => seccomp_ c
  | Node.Desktop _ => desktop_ c
  | Node.Command _ => command_ c
  end.
End Counts.

(** ** Grants that need one another *)

Definition is_dbus (s : Service.t) : bool := match s with Service.Dbus _ => true | _ => false end.
Definition is_portals (s : Service.t) : bool := match s with Service.Portals _ => true | _ => false end.
Definition is_camera (s : Service.t) : bool := match s with Service.Camera _ => true | _ => false end.
Definition is_nested_x11 (s : Service.t) : bool := match s with Service.X11 (X11Mode.Nested _) => true | _ => false end.
Definition is_wayland (s : Service.t) : bool := match s with Service.Wayland _ => true | _ => false end.
Definition is_dri (s : Service.t) : bool := match s with Service.Dri _ => true | _ => false end.

Definition has_dbus (l : list Service.t) : bool := existsb is_dbus l.

(** The node a service that is only a bundle of bus rules is written as. *)
Definition bundle_name (s : Service.t) : option bytes :=
  match s with
  | Service.Portals _ => Some (B "portals")
  | Service.Notify => Some (B "notify")
  | Service.Tray => Some (B "tray")
  | Service.Mpris _ => Some (B "mpris")
  | Service.A11y => Some (B "a11y")
  | Service.InputMethod => Some (B "input-method")
  | _ => None
  end.

Definition bundle_without_dbus (l : list Service.t) : option bytes :=
  if has_dbus l then None else head (omap bundle_name l).

Definition camera_without_portals (l : list Service.t) : bool := existsb is_camera l && negb (existsb is_portals l).

Definition nested_x11_without_display_stack (l : list Service.t) : bool :=
  existsb is_nested_x11 l && negb (existsb is_wayland l && existsb is_dri l).

(** ** Values *)

Definition is_ascii_alphabetic (b : byte) : bool := is_ascii_upper b || is_ascii_lower b.
Definition UNDERSCORE : byte := Init.Byte.x5f.

Definition is_name_element (s : bytes) : bool :=
  match s with
  | [] => false
  | b :: s => (is_ascii_alphabetic b || bool_decide (b = UNDERSCORE) || bool_decide (b = DASH)) &&
              forallb (fun b => is_ascii_alphanumeric b || bool_decide (b = UNDERSCORE) || bool_decide (b = DASH)) s
  end.

(** Whether every element is one, with [*] allowed for the last, and how many there are. *)
Fixpoint name_elements (l : list bytes) : bool :=
  match l with
  | [] => true
  | e :: l => (is_name_element e || (bool_decide (l = []) && bool_decide (e = [STAR]))) && name_elements l
  end.

Definition is_name_glob (s : bytes) (min_elements : Z) : bool :=
  name_elements (split_on DOT s) && (len (split_on DOT s) >=? min_elements).

Definition is_bus_name (s : bytes) : bool := is_name_glob s 2.

(** [dbus::is_valid_app_id]. *)
Definition app_id_element (last : bool) (e : bytes) : bool :=
  negb (bool_decide (e = [])) &&
  forallb (fun b => is_ascii_alphanumeric b || bool_decide (b = UNDERSCORE) || (last && bool_decide (b = DASH))) e.

Definition is_valid_app_id (id : bytes) : bool :=
  if bool_decide (id = []) || (len id >? 255) then false
  else
    let elements := split_on DOT id in
    let last := len elements - 1 in
    (last >=? 1) && forallb (fun '(i, e) => app_id_element (Z.of_nat i =? last) e) (imap (fun i e => (i, e)) elements).

Definition is_env_key (key : bytes) : bool :=
  match key with
  | [] => false
  | b :: key => (is_ascii_alphabetic b || bool_decide (b = UNDERSCORE)) &&
                forallb (fun b => is_ascii_alphanumeric b || bool_decide (b = UNDERSCORE)) key
  end.

Definition forbidden (b : byte) : option bytes :=
  if bool_decide (b = NUL) then Some (B "a NUL byte")
  else if bool_decide (b = LF) then Some (B "a newline")
  else if bool_decide (b = CR) then Some (B "a carriage return")
  else None.

Definition forbidden_byte (s : bytes) : option bytes := head (omap forbidden s).

(** The canonical spelling of a geometry. *)
Definition positive (part : bytes) : option Z :=
  if forallb is_ascii_digit part && negb (starts_with (B "0") part) then parse_uint U32_MAX part else None.

Definition parse_geometry (s : bytes) : option bytes :=
  '(w, h) ← Cidr.split_once Init.Byte.x78 s;
  w ← positive w; h ← positive h;
  Some (decimal w ++ B "x" ++ decimal h).

(** The digits and the scale of a size. *)
Definition size_scale (written : bytes) : option (bytes * Z) :=
  match last written with
  | Some b =>
    let digits := upto written (len written - 1) in
    if bool_decide (b = Init.Byte.x4b) then Some (digits, 1024)
    else if bool_decide (b = Init.Byte.x4d) then Some (digits, 1024 * 1024)
    else if bool_decide (b = Init.Byte.x47) then Some (digits, 1024 * 1024 * 1024)
    else None
  | None => None
  end.

(** [u64::checked_mul]. *)
Definition checked_mul (a b : Z) : option Z := if a * b <=? U64_MAX then Some (a * b) else None.

Definition desktop_plain (name : bytes) : bool :=
  match strip_suffix (B ".desktop") name with
  | Some stem => negb (bool_decide (stem = [])) && negb (bool_decide (SLASH ∈ stem)) &&
                 negb (bool_decide (stem = B ".")) && negb (bool_decide (stem = B ".."))
  | None => false
  end.

(** [instance::is_plain_name]. *)
Definition is_plain_name (name : bytes) : bool :=
  negb (bool_decide (name = [])) && negb (bool_decide (name = B ".")) && negb (bool_decide (name = B "..")) &&
  negb (starts_with [DASH] name) &&
  forallb (fun b => is_ascii_alphanumeric b || bool_decide (b = DOT) || bool_decide (b = UNDERSCORE) || bool_decide (b = DASH)) name.
