(* ===== verification/KdlOut.v ===== *)
(** Canonical KDL for a configuration: [crates/bubbler-core/src/kdl_out.rs].

    [service] and its kin write one node, [nodes] a whole configuration by sections with
    the kept [/-] lines among them.  The cutting of a node to columns on screen is not
    modelled: the width of a character is a library's. *)
From S2P Require Export Config.

Definition BACKSLASH : byte := Init.Byte.x5c.

(** ** Values *)

Definition hex_lower (n : Z) : byte := to_u8 (if n <? 10 then 48 + n else 87 + n).

(** [{:x}] of a number below 256. *)
Definition hex_number (n : Z) : bytes := if n <? 16 then [hex_lower n] else [hex_lower (n / 16); hex_lower (n mod 16)].

Definition escape_code (n : Z) : bytes := [BACKSLASH] ++ B "u{" ++ hex_number n ++ B "}".

(** One byte that is a character of its own, or part of one that is not a control. *)
Definition quote_byte (b : byte) : bytes :=
  if bool_decide (b = QUOTE) then [BACKSLASH; QUOTE]
  else if bool_decide (b = BACKSLASH) then [BACKSLASH; BACKSLASH]
  else if bool_decide (b = LF) then BACKSLASH :: B "n"
  else if bool_decide (b = CR) then BACKSLASH :: B "r"
  else if bool_decide (b = TAB) then BACKSLASH :: B "t"
  else if (u8 b <? 32) || (u8 b =? 127) then escape_code (u8 b)
  else [b].

(** The controls above ASCII are U+0080 to U+009F, which UTF-8 writes [c2 80] to
    [c2 9f]; nothing else starts with [c2] and continues so. *)
Fixpoint quote_chars (s : bytes) : bytes :=
  match s with
  | [] => []
  | b :: rest =>
    match rest with
    | c :: rest' =>
      if (u8 b =? 194) && (128 <=? u8 c) && (u8 c <=? 159) then escape_code (u8 c) ++ quote_chars rest'
      else quote_byte b ++ quote_chars rest
    | [] => quote_byte b
    end
  end.

Definition quote (s : bytes) : bytes := [QUOTE] ++ quote_chars s ++ [QUOTE].

(** [OsStr::to_str], or the refusal. *)
Definition text (node what s : bytes) : result ConfigError bytes :=
  if utf8_valid s then Ok s
  else Err (BadArgument node (what ++ B " is not valid UTF-8 and cannot be written as KDL")).

Definition share_mode (m : ShareMode.t) : bytes := match m with ShareMode.ReadOnly => B "ro" | ShareMode.ReadWrite => B "rw" end.
Definition optional_suffix (optional : bool) : bytes := if optional then B " optional=#true" else [].

(** A node with its children, a line each. *)
Definition block (head_ : bytes) (kids : list bytes) : bytes :=
  head_ ++ B " {" ++ [LF] ++ concat (map (fun kid => B "    " ++ kid ++ [LF]) kids) ++ B "}".

(** ** Nodes *)

Definition audio_node (name : bytes) (microphone : bool) : bytes :=
  if microphone then block name [B "microphone"] else name.

Definition flag (name : bytes) (on : bool) : bytes := if on then B " " ++ name ++ B "=#true" else [].

Definition x11 (n : NestedX11) : bytes :=
  B "x11" ++
  (if bool_decide (geometry n = geometry default_nested) then [] else B " geometry=" ++ quote (geometry n)) ++
  flag (B "fullscreen") (fullscreen n) ++ flag (B "grab") (grab n) ++
  (match wm n with Some w => B " wm=" ++ quote w | None => [] end).

Definition allow_port (f : Forward) : bytes := B "allow-port " ++ decimal (f_port f) ++ (if udp f then B " udp=#true" else []).

Section Out.
Context `{IpText}.

Definition network_kids (cfg : NetworkConfig) : list bytes :=
  (if bool_decide (outbound cfg = Outbound.Deny) then [B "outbound " ++ quoted (B "deny")] else []) ++
  map (fun ip => B "dns " ++ quote (ip_text ip)) (n_dns cfg) ++
  map (fun a => B "allow-out " ++ AllowOut.fmt a) (allow_out cfg) ++
  map (fun a => B "allow-host " ++ AllowHost.fmt a) (allow_hosts cfg) ++
  map allow_port (n_forwards cfg) ++
  (if no_ipv6 cfg then [B "no-ipv6"] else []).

Definition network (cfg : NetworkConfig) : bytes :=
  let node := B "network" ++ match mode cfg with
                             | Mode.Isolated => []
                             | Mode.Host => B " " ++ quoted (B "host")
                             | Mode.None_ => B " " ++ quoted (B "none")
                             end in
  if bool_decide (network_kids cfg = []) then node else block node (network_kids cfg).

Definition bus_rule (r : BusRule.t) : bytes :=
  match r with
  | BusRule.See n => B "see " ++ quote n
  | BusRule.Talk n => B "talk " ++ quote n
  | BusRule.Own n => B "own " ++ quote n
  | BusRule.Call n rule => B "call " ++ quote (n ++ B "=" ++ rule)
  | BusRule.Broadcast n rule => B "broadcast " ++ quote (n ++ B "=" ++ rule)
  end.

Definition bus_block (name : bytes) (rules : list BusRule.t) : bytes := block name (map bus_rule rules).

Definition lint_allow (a : LintAllow) : bytes := B "lint-allow " ++ quote (check_id a) ++ B " reason=" ++ quote (reason a).
Definition env_ (pair : bytes * bytes) : bytes := B "env " ++ pair.1 ++ B "=" ++ quote pair.2.
Definition etc_ (m : EtcMode.t) : bytes := match m with EtcMode.Allowlist => B "etc" | EtcMode.Host => B "etc " ++ quoted (B "host") end.

Definition tmp_ (size : Z) : bytes :=
  let '(n, unit) :=
    if size mod (1024 * 1024 * 1024) =? 0 then (size / (1024 * 1024 * 1024), B "G")
    else if size mod (1024 * 1024) =? 0 then (size / (1024 * 1024), B "M")
    else if size mod 1024 =? 0 then (size / 1024, B "K")
    else (size, B "K") in
  B "tmp size=" ++ quote (decimal n ++ unit).

Definition tty_ (m : TtyMode) : bytes :=
  B "tty " ++ quote (match m with Pty => B "pty" | Passthrough => B "passthrough" | NoTty => B "none" end).

Definition userns_ (m : Userns.t) : bytes := B "userns " ++ quote (match m with Userns.Allow => B "allow" | Userns.Disable => B "disable" end).

Definition seccomp_kids (cfg : SeccompConfig) : list bytes :=
  (if bool_decide (Seccomp.allow cfg = []) then [] else [B "allow " ++ join (B " ") (map quote (Seccomp.allow cfg))]) ++
  map (fun d => B "deny " ++ quote d.1 ++ B " errno=" ++ quote (errno_name d.2)) (Seccomp.deny cfg) ++
  (if disable cfg then [B "disable"] else []).

Definition seccomp_ (cfg : SeccompConfig) : bytes := block (B "seccomp") (seccomp_kids cfg).
Definition desktop_ (name : bytes) : bytes := B "desktop " ++ quote name.

Fixpoint command_words (argv : list bytes) : result ConfigError bytes :=
  match argv with
  | [] => Ok []
  | a :: argv => a ← text (B "command") (B "argument") a; rest ← command_words argv; Ok (B " " ++ quote a ++ rest)
  end.
Definition command_ (argv : list bytes) : result ConfigError bytes := words ← command_words argv; Ok (B "command" ++ words).

Definition service (s : Service.t) : result ConfigError bytes :=
  match s with
  | Service.Wayland (WaylandMode.Sandboxed Clipboard.Paste) => Ok (B "wayland")
  | Service.Wayland (WaylandMode.Sandboxed Clipboard.Open) => Ok (B "wayland clipboard=" ++ quoted (B "open"))
  | Service.Wayland WaylandMode.Host => Ok (B "wayland " ++ quoted (B "host"))
  | Service.X11 (X11Mode.Nested n) => Ok (x11 n)
  | Service.X11 X11Mode.Host => Ok (B "x11 " ++ quoted (B "host"))
  | Service.Network cfg => Ok (network cfg)
  | Service.Dri kms => Ok (if kms then B "dri kms=#true" else B "dri")
  | Service.Pipewire microphone => Ok (audio_node (B "pipewire") microphone)
  | Service.Pulseaudio microphone => Ok (audio_node (B "pulseaudio") microphone)
  | Service.Portals children => Ok (if bool_decide (children = []) then B "portals" else block (B "portals") (map Portal.node_name children))
  | Service.Notify => Ok (B "notify")
  | Service.Tray => Ok (B "tray")
  | Service.A11y => Ok (B "a11y")
  | Service.InputMethod => Ok (B "input-method")
  | Service.Hidraw => Ok (B "hidraw")
  | Service.Camera nodes => Ok (if nodes then B "camera nodes=#true" else B "camera")
  | Service.Gamepad hidraw uinput => Ok (B "gamepad" ++ flag (B "hidraw") hidraw ++ flag (B "uinput") uinput)
  | Service.HomeShare p m optional =>
    p ← text (B "home-share") (B "path") (path_text p);
    Ok (B "home-share " ++ quote p ++ B " mode=" ++ share_mode m ++ optional_suffix optional)
  | Service.PathShare p m optional =>
    p ← text (B "path-share") (B "path") (path_text p);
    Ok (B "path-share " ++ quote p ++ B " mode=" ++ share_mode m ++ optional_suffix optional)
  | Service.EtcShare name => name ← text (B "etc-share") (B "name") name; Ok (B "etc-share " ++ quote name)
  | Service.AppRuntime id m => Ok (B "app-runtime " ++ quote id ++ B " mode=" ++ share_mode m)
  | Service.Mpris name => Ok (B "mpris name=" ++ quote name)
  | Service.Dbus rules => Ok (if bool_decide (rules = []) then B "dbus" else bus_block (B "dbus") rules)
  | Service.SystemBus rules =>
    if bool_decide (rules = []) then
      Err (BadArgument (B "system-bus") (B "has no rules, and a system bus without one is not a config bubbler parses"))
    else match head (omap (fun r => match r with BusRule.Own n => Some n | _ => None end) rules) with
         | Some n => Err (BadArgument (B "system-bus") (B "owns " ++ ticked n ++ B ", and `own` on the system bus is not a config bubbler parses"))
         | None => Ok (bus_block (B "system-bus") rules)
         end
  end.

Definition node (n : Node.t) : result ConfigError bytes :=
  match n with
  | Node.Service s => service s
  | Node.Env pairs =>
    if bool_decide (pairs = []) then
      Err (BadArgument (B "env") (B "sets no variable, and an env node without one is not a config bubbler parses"))
    else Ok (B "env" ++ concat (map (fun '(k, v) => B " " ++ k ++ B "=" ++ quote v) pairs))
  | Node.LintAllow [one] => Ok (lint_allow one)
  | Node.LintAllow other => Err (BadArgument (B "lint-allow") (B "accepts one check id, not " ++ decimal (len other)))
  | Node.Etc m => Ok (etc_ m)
  | Node.Tmp size => Ok (tmp_ size)
  | Node.Tty m => Ok (tty_ m)
  | Node.Userns m => Ok (userns_ m)
  | Node.Seccomp cfg => Ok (seccomp_ cfg)
  | Node.Desktop name => Ok (desktop_ name)
  | Node.Command argv => command_ argv
  end.

Definition disabled_ (d : Disabled) : result ConfigError bytes := n ← node (Config.node d); Ok (B "/-" ++ n).

(** ** A whole configuration *)

(** One entry of a section as it is written back. *)
Inductive Entry (T : Type) := Enabled (x : T) | Off (i : nat) (d : Disabled).
Arguments Enabled {T}. Arguments Off {T}.

Fixpoint section_loop {T} (off : (Z -> bool) -> list (Entry T)) (i : Z) (enabled : list T) : list (Entry T) :=
  match enabled with
  | [] => []
  | x :: enabled => off (fun before => before =? i) ++ [Enabled x] ++ section_loop off (i + 1) enabled
  end.

Definition section_entries {T} (cfg : InstanceConfig) (is_ : Node.t -> bool) (enabled : list T) : list (Entry T) :=
  let of_section at_ :=
    omap (fun '(i, d) => if is_ (Config.node d) && at_ (before d) then Some (Off i d) else None)
         (imap (fun i d => (i, d)) (disabled cfg)) in
  section_loop of_section 0 enabled ++ of_section (fun before => before >=? len enabled).

Fixpoint lines_of (es : list (Entry bytes)) : result ConfigError (list bytes) :=
  match es with
  | [] => Ok []
  | Enabled n :: es => rest ← lines_of es; Ok (n :: rest)
  | Off _ d :: es => n ← disabled_ d; rest ← lines_of es; Ok (n :: rest)
  end.

Definition section (cfg : InstanceConfig) (rank : Z) (enabled : list bytes) : result ConfigError (list bytes) :=
  lines_of (section_entries cfg (fun n => section_rank n =? rank) enabled).

Fixpoint services_ (l : list Service.t) : result ConfigError (list bytes) :=
  match l with
  | [] => Ok []
  | s :: l => n ← service s; rest ← services_ l; Ok (n :: rest)
  end.

Definition when {A} (b : bool) (x : A) : list A := if b then [x] else [].

Definition nodes (cfg : InstanceConfig) : result ConfigError (list bytes) :=
  l0 ← section cfg 0 (map lint_allow (lint_allows cfg));
  svcs ← services_ (services cfg);
  l1 ← section cfg 1 svcs;
  l2 ← section cfg 2 (map env_ (env cfg));
  l3 ← section cfg 3 (when (negb (bool_decide (etc cfg = EtcMode.Allowlist))) (etc_ (etc cfg)));
  l4 ← section cfg 4 (match tmp cfg with Some t => [tmp_ t] | None => [] end);
  l5 ← section cfg 5 (when (negb (bool_decide (tty cfg = Pty))) (tty_ (tty cfg)));
  l6 ← section cfg 6 (when (negb (bool_decide (userns cfg = Userns.Allow))) (userns_ (userns cfg)));
  l7 ← section cfg 7 (when (negb (bool_decide (seccomp cfg = default_seccomp))) (seccomp_ (seccomp cfg)));
  l8 ← section cfg 8 (match desktop cfg with Some n => [desktop_ n] | None => [] end);
  cmd ← match command cfg with Some argv => n ← command_ argv; Ok [n] | None => Ok [] end;
  l9 ← section cfg 9 cmd;
  Ok (l0 ++ l1 ++ l2 ++ l3 ++ l4 ++ l5 ++ l6 ++ l7 ++ l8 ++ l9).

Definition render (cfg : InstanceConfig) : result ConfigError bytes :=
  l ← nodes cfg; Ok (concat (map (fun n => n ++ [LF]) l)).
End Out.
Arguments Enabled {T}.
Arguments Off {T}.

(** [node] without its [mode=], for a message that names two modes. *)
Definition without_mode (node : bytes) : bytes :=
  let '(base, optional) := match strip_suffix (B " optional=#true") node with
                           | Some base => (base, B " optional=#true")
                           | None => (node, [])
                           end in
  let base := match strip_suffix (B " mode=ro") base with
              | Some b => b
              | None => match strip_suffix (B " mode=rw") base with Some b => b | None => base end
              end in
  base ++ optional.
