(* ===== verification/Host.v ===== *)
(** The host a sandbox is built on: paths as [std::path] takes them apart, the file system as
    the trait of bubbler-core/src/host.rs sees it, the environment of env.rs, what a launch
    fails with, and where the binaries of bubbler's own are (init_bin.rs).

    A path is its text; [components] takes it apart, and paths are compared by their
    components.  The file system is [Host] and does not change while a sandbox is built. *)
From S2P Require Export Config.

(** ** Errors *)

Record FsError := mkFs { not_found : bool; fs_text : bytes }.

#[global] Instance FsError_eq_dec : EqDecision FsError.
Proof. solve_decision. Defined.

(** What building the arguments of a sandbox fails with; the other failures of a launch are
    those of the processes it starts. *)
Module LaunchError.
Inductive t :=
| MissingResource (service path : bytes)
| WrongType (service path expected : bytes)
| MissingEnv (service var : bytes)
| BadValue (service reason : bytes)
| PlantedSymlink (inside tree target host : bytes)
| UncheckedDestination (inside tree host : bytes) (source : FsError)
| UnwalkableDestination (p : bytes)
| Data (e : FsError)
| Seccomp (message : bytes)
| A11y (message : bytes)
| MissingCommand.
#[global] Instance eq_dec : EqDecision t.
Proof. solve_decision. Defined.
End LaunchError.

(** ** Paths *)

Module Path.
Definition is_absolute (p : bytes) : bool := match p with b :: _ => bool_decide (b = SLASH) | [] => false end.

(** [Path::join]: an absolute path replaces what it is joined to. *)
Definition join (dir file : bytes) : bytes :=
  if is_absolute file then file
  else match List.rev dir with
       | [] => file
       | c :: _ => if bool_decide (c = SLASH) then dir ++ file else dir ++ SLASH :: file
       end.

Definition eqb (a b : bytes) : bool := bool_decide (components a = components b).
Definition starts_with (a b : bytes) : bool := Bytes.starts_with (components b) (components a).

(** The pieces between slashes that are no component. *)
Definition blank (s : bytes) : bool := bool_decide (s = []) || bool_decide (s = B ".").

Fixpoint trim_left (l : list bytes) : list bytes :=
  match l with s :: l' => if blank s then trim_left l' else l | [] => [] end.
Definition trim_right (l : list bytes) : list bytes := List.rev (trim_left (List.rev l)).

(** The pieces after the first [n] components. *)
Fixpoint after (n : nat) (l : list bytes) : list bytes :=
  match n, l with
  | O, _ => l
  | _, [] => []
  | S n', s :: l => if blank s then after n l else after n' l
  end.

(** The pieces of a path, the root or a leading [.] apart. *)
Definition pieces (p : bytes) : bytes * list bytes :=
  match split_on SLASH p with
  | s :: l => if is_absolute p then ([SLASH], l) else if bool_decide (s = B ".") then (s, l) else ([], s :: l)
  | [] => ([], [])
  end.

Definition text (front : bytes) (l : list bytes) : bytes :=
  match l with
  | [] => front
  | _ => front ++ (if bool_decide (front = B ".") then [SLASH] else []) ++ Bytes.join [SLASH] l
  end.

(** [Path::parent]: without the last component, unless that is the root. *)
Definition parent (p : bytes) : option bytes :=
  let '(front, l) := pieces p in
  match List.rev (trim_right l) with
  | _ :: l => Some (text front (trim_right (List.rev l)))
  | [] => if bool_decide (front = B ".") then Some [] else None
  end.

Definition file_name (p : bytes) : option bytes :=
  match last (components p) with Some (Normal s) => Some s | _ => None end.

(** [Path::strip_prefix]: the text after the components of [base]. *)
Definition strip_prefix (p base : bytes) : option bytes :=
  if negb (starts_with p base) then None
  else
    let '(front, l) := pieces p in
    match length (components base) with
    | O => Some (text front (trim_right l))
    | S n as k => Some (Bytes.join [SLASH] (trim_right (trim_left (after (if bool_decide (front = []) then k else n) l))))
    end.

(** [Path::display]. *)
Definition display (p : bytes) : bytes := from_utf8_lossy p.
End Path.

(** ** The file system *)

Module FileType.
Inductive t := Socket | File | Dir | CharDevice | Other.
#[global] Instance eq_dec : EqDecision t.
Proof. solve_decision. Defined.
End FileType.

(** The methods of the trait [Host], and [env::current_exe]. *)
Class Host := {
  file_type : bytes -> option FileType.t;
  list_dir : bytes -> list bytes;
  canonicalize : bytes -> option bytes;
  is_mountpoint : bytes -> option bool;
  writable : bytes -> bool;
  read_link : bytes -> result FsError (option bytes);
  read : bytes -> option bytes;
  current_exe : option bytes }.

Definition is_type `{Host} (t : FileType.t) (p : bytes) : bool := bool_decide (file_type p = Some t).

(** ** The environment *)

Definition SANDBOX_HOME : bytes := B "/home/bubbler".
Definition DEFAULT_DATA_DIRS : list bytes := [B "/usr/local/share"; B "/usr/share"].
Definition DEFAULT_CONFIG_DIRS : list bytes := [B "/etc/xdg"].
Definition PASSTHROUGH_VARS : list bytes := [B "TERM"; B "LANG"; B "LANGUAGE"; B "COLORTERM"; B "TZ"].

Definition is_passthrough (name : bytes) : bool := starts_with (B "LC_") name || bool_decide (name ∈ PASSTHROUGH_VARS).

Definition xdg_dirs (value : option bytes) (defaults : list bytes) : list bytes :=
  match value with
  | Some (_ :: _ as v) => List.filter Path.is_absolute (split_on COLON v)
  | _ => defaults
  end.

(** The host's environment as the binary read it. *)
Record Env := mkEnv {
  home : bytes;
  data_home : bytes;
  config_home : bytes;
  config_dirs : list bytes;
  data_dirs : list bytes;
  runtime_dir : bytes;
  uid : Z;
  gid : Z;
  wayland_display : option bytes;
  display : option bytes;
  xauthority : option bytes;
  passthrough : list (bytes * bytes);
  init_override : option bytes;
  dbus_address : option bytes;
  dbus_system_address : option bytes;
  at_spi_bus_address : option bytes;
  dbus_log : bool;
  net_proxy_log : bool;
  seccomp_log : bool;
  test_allow_path : option bytes;
  profile_dir_override : option bytes;
  proxy_override : option bytes;
  pasta_override : option bytes;
  wl_proxy_override : option bytes;
  net_proxy_override : option bytes }.

(** ** What a bind needs of its source *)

Section Require.
Context `{Host}.

Definition require (service path expected : bytes) (accept : FileType.t -> bool) : result LaunchError.t bytes :=
  match file_type path with
  | None => Err (LaunchError.MissingResource service path)
  | Some t => if accept t then Ok path else Err (LaunchError.WrongType service path expected)
  end.

Definition require_socket (service path : bytes) : result LaunchError.t bytes :=
  require service path (B "a socket") (fun t => bool_decide (t = FileType.Socket)).
Definition require_file (service path : bytes) : result LaunchError.t bytes :=
  require service path (B "a regular file") (fun t => bool_decide (t = FileType.File)).
Definition require_dir (service path : bytes) : result LaunchError.t bytes :=
  require service path (B "a directory") (fun t => bool_decide (t = FileType.Dir)).
Definition require_dir_or_file (service path : bytes) : result LaunchError.t bytes :=
  require service path (B "a directory or a regular file") (fun t => bool_decide (t = FileType.Dir) || bool_decide (t = FileType.File)).
Definition require_exists (service path : bytes) : result LaunchError.t bytes :=
  match file_type path with Some _ => Ok path | None => Err (LaunchError.MissingResource service path) end.

Lemma require_ok service path expected accept p : require service path expected accept = Ok p <-> p = path /\ exists t, file_type path = Some t /\ accept t = true.
Proof.
  unfold require. destruct (file_type path) as [t|]; [|by split; [done|intros (_ & t & ? & _)]]. destruct (accept t) eqn:E.
  - split; [intros [= ->]; split; [done|by exists t]|by intros (-> & _)].
  - split; [done|]. intros (_ & t' & Ht & Ha). injection Ht as <-. congruence.
Qed.

(** ** The binaries of bubbler *)

Inductive Found := Override | Sibling | Installed.

Definition locate_binary (over : option bytes) (name installed service : bytes) : result LaunchError.t (bytes * Found) :=
  match over with
  | Some p => path ← require_file service p; Ok (path, Override)
  | None =>
    let sibling := exe ← current_exe; dir ← Path.parent exe; Some (Path.join dir name) in
    match sibling with
    | Some s => if is_type FileType.File s then Ok (s, Sibling) else path ← require_file service installed; Ok (path, Installed)
    | None => path ← require_file service installed; Ok (path, Installed)
    end
  end.

Definition INIT_NAME : bytes := B "bubbler-init".
Definition INIT_INSTALLED : bytes := B "/usr/lib/bubbler/bubbler-init".

Definition locate (env : Env) : result LaunchError.t bytes :=
  found ← locate_binary (init_override env) INIT_NAME INIT_INSTALLED (B "init"); Ok found.1.
End Require.
