(* ===== verification/Bwrap.v ===== *)
(** The arguments of bubblewrap (bubbler-core/src/bwrap.rs).

    [BwrapArgs] holds the operations of a sandbox in phases; a builder function adds one to
    its phase, with the tag in force.  What the source changes in place is returned; a
    function that panics on a builder without the operation it replaces gives [None].
    [emit] turns the phases into operations and asks the allocator for the descriptors and
    files they name, one after another; [finish] is the argv. *)
From S2P Require Export Host.

Module Origin.
Inductive t :=
| Baseline | Seccomp | Userns | Tmp | Etc | Ctty | Identity
| Service (i : nat) | Share (i : nat) | Env (i : nat) | Init | Command.
#[global] Instance eq_dec : EqDecision t.
Proof. solve_decision. Defined.
End Origin.

Record Explained := mkExplained { e_origin : Origin.t; e_args : list bytes; e_note : option bytes }.

Module Kind.
Inductive t :=
| Args (a : list bytes)
| Noted (a : list bytes) (note : bytes)
| Data (content dest : bytes)
| InfoFd
| BlockFd
| Seccomp (program arches : bytes).
#[global] Instance eq_dec : EqDecision t.
Proof. solve_decision. Defined.
End Kind.

Record Item := mkItem { i_origin : Origin.t; kind : Kind.t }.

#[global] Instance Item_eq_dec : EqDecision Item.
Proof. solve_decision. Defined.

Definition INIT_INSIDE : bytes := B "/run/bubbler-init".
Definition FLATPAK_SPAWN_INSIDE : bytes := B "/usr/bin/flatpak-spawn".

(** The descriptors and files of an argv, over the state of an allocator. *)
Class FdAllocator (W : Type) := {
  data : bytes -> W -> result FsError (bytes * W);
  file : bytes -> bytes -> W -> result FsError (bytes * W);
  init_socket : W -> result FsError (bytes * W);
  ready_pipe : W -> result FsError (bytes * W);
  listener : W -> result FsError (bytes * W);
  info_pipe : W -> result FsError (bytes * W);
  block_pipe : W -> result FsError (bytes * W) }.

Record BwrapArgs := mkArgs {
  namespaces : list Item;
  skeleton : list Item;
  runtime : list Item;
  binds : list Item;
  masks : list Item;
  env : list Item;
  ctty_ : bool;
  x11 : option (Origin.t * list bytes * option bytes);
  origin : Origin.t }.

Definition with_namespaces (f : list Item -> list Item) (a : BwrapArgs) : BwrapArgs :=
  mkArgs (f (namespaces a)) (skeleton a) (runtime a) (binds a) (masks a) (env a) (ctty_ a) (x11 a) (origin a).
Definition with_skeleton (f : list Item -> list Item) (a : BwrapArgs) : BwrapArgs :=
  mkArgs (namespaces a) (f (skeleton a)) (runtime a) (binds a) (masks a) (env a) (ctty_ a) (x11 a) (origin a).
Definition with_binds (f : list Item -> list Item) (a : BwrapArgs) : BwrapArgs :=
  mkArgs (namespaces a) (skeleton a) (runtime a) (f (binds a)) (masks a) (env a) (ctty_ a) (x11 a) (origin a).
Definition with_masks (f : list Item -> list Item) (a : BwrapArgs) : BwrapArgs :=
  mkArgs (namespaces a) (skeleton a) (runtime a) (binds a) (f (masks a)) (env a) (ctty_ a) (x11 a) (origin a).
Definition with_env (f : list Item -> list Item) (a : BwrapArgs) : BwrapArgs :=
  mkArgs (namespaces a) (skeleton a) (runtime a) (binds a) (masks a) (f (env a)) (ctty_ a) (x11 a) (origin a).

(** Whether the item is an operation [flag] leads. *)
Definition holds (flag : bytes) (i : Item) : bool :=
  match kind i with Kind.Args (a :: _) => bool_decide (a = flag) | _ => false end.

(** [push]. *)
Definition op (o : Origin.t) (parts : list bytes) : Item := mkItem o (Kind.Args parts).

Definition TMP_SIZE : Z := 2 * 1024 * 1024 * 1024.
Definition TMPFS_SIZE : Z := 64 * 1024 * 1024.

Definition ETC_ALLOWLIST : list bytes :=
  [B "ld.so.cache"; B "ld.so.conf"; B "ld.so.conf.d"; B "fonts"; B "localtime"; B "machine-id"; B "nsswitch.conf"; B "hosts";
   B "host.conf"; B "ssl"; B "ca-certificates"; B "mime.types"; B "xdg"; B "gtk-3.0"; B "gtk-4.0"; B "pulse"; B "pipewire";
   B "alsa"; B "drirc"; B "vulkan"; B "glvnd"; B "egl"; B "vdpau_wrapper.cfg"; B "os-release"].
Definition PROXY_ETC : list bytes := [B "ld.so.cache"; B "ld.so.conf"; B "ld.so.conf.d"; B "nsswitch.conf"].

Definition passwd_content (uid gid : Z) : bytes :=
  B "bubbler:x:" ++ decimal uid ++ B ":" ++ decimal gid ++ B ":bubbler:" ++ SANDBOX_HOME ++ B ":/bin/sh" ++ [LF] ++
  B "nobody:x:65534:65534:nobody:/:/bin/sh" ++ [LF].
Definition group_content (gid : Z) : bytes := B "bubbler:x:" ++ decimal gid ++ B ":" ++ [LF] ++ B "nobody:x:65534:" ++ [LF].

(** ** What every sandbox starts from *)

Section Baseline.
Context `{Host}.

Definition UNSHARED : list Item := [op Origin.Baseline [B "--unshare-all"]; op Origin.Baseline [B "--die-with-parent"]; op Origin.Baseline [B "--new-session"]].

Definition usr_links : list Item :=
  map (fun l => op Origin.Baseline [B "--symlink"; l.1; l.2])
    [(B "usr/bin", B "/bin"); (B "usr/lib", B "/lib"); (B "usr/lib64", B "/lib64"); (B "usr/bin", B "/sbin")].

Definition sized_tmpfs (size : Z) (dir : bytes) : Item := op Origin.Baseline [B "--size"; decimal size; B "--tmpfs"; dir].

(** The entries of [/etc] the host has. *)
Definition etc_binds (names : list bytes) : list Item :=
  map (fun p => op Origin.Baseline [B "--ro-bind"; p; p])
    (List.filter (fun p => bool_decide (file_type p <> None)) (map (Path.join (B "/etc")) names)).

Definition data_file (o : Origin.t) (content dest : bytes) : Item := mkItem o (Kind.Data content dest).

Definition setenv_item (o : Origin.t) (k v : bytes) : Item := op o [B "--setenv"; k; v].

Definition baseline (e : Env) (instance_home : bytes) : BwrapArgs :=
  let b := Origin.Baseline in
  let ntsync := B "/dev/ntsync" in
  mkArgs
    (UNSHARED ++ [op b [B "--hostname"; B "bubbler"]; op b [B "--chdir"; SANDBOX_HOME]; mkItem b Kind.InfoFd])
    ([op b [B "--ro-bind"; B "/usr"; B "/usr"]] ++ usr_links ++ [op b [B "--ro-bind-try"; B "/opt"; B "/opt"]] ++
     [sized_tmpfs TMPFS_SIZE (B "/etc")] ++ etc_binds ETC_ALLOWLIST ++
     [data_file b (passwd_content (uid e) (gid e)) (B "/etc/passwd"); data_file b (group_content (gid e)) (B "/etc/group")] ++
     [op b [B "--proc"; B "/proc"]; op b [B "--dev"; B "/dev"]] ++
     (if is_type FileType.CharDevice ntsync then [op b [B "--dev-bind"; ntsync; ntsync]] else []) ++
     [sized_tmpfs TMP_SIZE (B "/tmp"); sized_tmpfs TMPFS_SIZE (B "/var"); sized_tmpfs TMPFS_SIZE (B "/run")] ++
     [op b [B "--bind"; instance_home; SANDBOX_HOME]])
    [op b [B "--perms"; B "0700"; B "--dir"; runtime_dir e]]
    [] []
    ([op b [B "--clearenv"]] ++ map (fun kv => setenv_item b kv.1 kv.2) (passthrough e) ++
     [setenv_item b (B "HOME") SANDBOX_HOME; setenv_item b (B "PATH") (B "/usr/bin:" ++ SANDBOX_HOME ++ B "/.local/bin");
      setenv_item b (B "XDG_RUNTIME_DIR") (runtime_dir e); setenv_item b (B "USER") (B "bubbler"); setenv_item b (B "LOGNAME") (B "bubbler")])
    false None b.

Definition sidecar_baseline : BwrapArgs :=
  let b := Origin.Baseline in
  mkArgs UNSHARED
    ([op b [B "--ro-bind"; B "/usr"; B "/usr"]] ++ usr_links ++ [sized_tmpfs TMPFS_SIZE (B "/etc")] ++ etc_binds PROXY_ETC ++
     [op b [B "--proc"; B "/proc"]; op b [B "--dev"; B "/dev"]; sized_tmpfs TMPFS_SIZE (B "/tmp")])
    [] [] [] [op b [B "--clearenv"]] false None b.

Definition add_skeleton (l : list Item) (a : BwrapArgs) : BwrapArgs := with_skeleton (fun s => s ++ l) a.

Definition proxy_baseline (host_bus host_system_bus host_a11y_bus : option bytes) (socket_dir : bytes) : BwrapArgs :=
  let b := Origin.Baseline in
  add_skeleton (map (fun bus => op b [B "--ro-bind"; bus; bus]) (omap (fun bus => bus) [host_bus; host_system_bus; host_a11y_bus]) ++
                [op b [B "--bind"; socket_dir; socket_dir]]) sidecar_baseline.

Definition pw_context_baseline (host_socket dir : bytes) : BwrapArgs :=
  let b := Origin.Baseline in
  add_skeleton [op b [B "--ro-bind"; host_socket; host_socket]; op b [B "--bind"; dir; B "/tmp"]] sidecar_baseline.

Definition pw_pulse_baseline (socket inside dir : bytes) : BwrapArgs :=
  let b := Origin.Baseline in
  add_skeleton [op b [B "--ro-bind"; socket; inside]; op b [B "--bind"; dir; B "/tmp"]] sidecar_baseline.

Definition wl_proxy_baseline (upstream : bytes) : BwrapArgs :=
  add_skeleton [op Origin.Baseline [B "--ro-bind"; upstream; upstream]] sidecar_baseline.

(** ** What a grant changes *)

Definition share_net (a : BwrapArgs) : BwrapArgs :=
  if existsb (holds (B "--share-net")) (namespaces a) then a
  else with_namespaces (fun ns => match ns with i :: ns => i :: op (origin a) [B "--share-net"] :: ns | [] => ns end) a.

(** The first item [f] takes, replaced by what [f] makes of it. *)
Fixpoint replace_first {A} (f : A -> option A) (l : list A) : option (list A) :=
  match l with
  | [] => None
  | a :: l => match f a with Some b => Some (b :: l) | None => cons a <$> replace_first f l end
  end.

Definition chdir (dir : bytes) (a : BwrapArgs) : option BwrapArgs :=
  ns ← replace_first (fun i => if holds (B "--chdir") i then Some (op (i_origin i) [B "--chdir"; dir]) else None) (namespaces a);
  Some (with_namespaces (fun _ => ns) a).

(** [--size N --tmpfs dir]. *)
Definition is_tmpfs (dir : bytes) (i : Item) : bool :=
  match kind i with
  | Kind.Args (f :: _ as args) => bool_decide (f = B "--size") && bool_decide (last args = Some dir)
  | _ => false
  end.

Definition set_second (v : bytes) (args : list bytes) : list bytes := <[1%nat := v]> args.

Definition tmp_size (bytes : Z) (a : BwrapArgs) : option BwrapArgs :=
  sk ← replace_first (fun i => if is_tmpfs (B "/tmp") i then
                                 match kind i with Kind.Args args => Some (op (origin a) (set_second (decimal bytes) args)) | _ => None end
                               else None) (skeleton a);
  Some (with_skeleton (fun _ => sk) a).

Definition is_data (i : Item) : bool := match kind i with Kind.Data _ _ => true | _ => false end.

(** The items before the first one [f] takes, and from it on. *)
Fixpoint split_at_first {A} (f : A -> bool) (l : list A) : option (list A * list A) :=
  match l with
  | [] => None
  | a :: l' => if f a then Some ([], l) else '(b, c) ← split_at_first f l'; Some (a :: b, c)
  end.

(** What is put over the files beside the two that name the user as well, where the host has
    them. *)
Definition host_etc_extra (o : Origin.t) (passwd group : bytes) : list Item :=
  let present := List.filter (fun d => bool_decide (file_type (snd d) <> None)) in
  map (fun d => data_file o d.1 d.2)
    (present [(passwd, B "/etc/passwd-"); (passwd, B "/etc/passwd+"); (group, B "/etc/group-"); (group, B "/etc/group+")] ++
     present [([], B "/etc/subuid"); ([], B "/etc/subgid")]).

Definition bind_host_etc (a : BwrapArgs) : option BwrapArgs :=
  '(before, from) ← split_at_first (is_tmpfs (B "/etc")) (skeleton a);
  '(_, files) ← split_at_first is_data from;
  match files with
  | mkItem _ (Kind.Data passwd p) :: mkItem _ (Kind.Data group g) :: rest =>
    let o := origin a in
    Some (with_skeleton (fun _ => before ++ op o [B "--ro-bind"; B "/etc"; B "/etc"] :: data_file o passwd p :: data_file o group g ::
                                  host_etc_extra o passwd group ++ rest) a)
  | _ => None
  end.
End Baseline.

Definition tag (o : Origin.t) (a : BwrapArgs) : BwrapArgs :=
  mkArgs (namespaces a) (skeleton a) (runtime a) (binds a) (masks a) (env a) (ctty_ a) (x11 a) o.

Definition disable_userns (a : BwrapArgs) : BwrapArgs :=
  if existsb (holds (B "--unshare-user")) (namespaces a) then a
  else with_namespaces (fun ns => ns ++ [op (origin a) [B "--unshare-user"; B "--disable-userns"]]) a.

Definition block_until_released (a : BwrapArgs) : BwrapArgs := with_namespaces (fun ns => ns ++ [mkItem (origin a) Kind.BlockFd]) a.
Definition add_seccomp (program arches : bytes) (a : BwrapArgs) : BwrapArgs :=
  with_namespaces (fun ns => ns ++ [mkItem (origin a) (Kind.Seccomp program arches)]) a.

Definition add_bind (k : Kind.t) (a : BwrapArgs) : BwrapArgs := with_binds (fun l => l ++ [mkItem (origin a) k]) a.
Definition ro_bind (src dst : bytes) : BwrapArgs -> BwrapArgs := add_bind (Kind.Args [B "--ro-bind"; src; dst]).
Definition dev_bind (src dst : bytes) : BwrapArgs -> BwrapArgs := add_bind (Kind.Args [B "--dev-bind"; src; dst]).
Definition dev_bind_try (src dst : bytes) : BwrapArgs -> BwrapArgs := add_bind (Kind.Args [B "--dev-bind-try"; src; dst]).
Definition symlink (target link : bytes) : BwrapArgs -> BwrapArgs := add_bind (Kind.Args [B "--symlink"; target; link]).
Definition bind (src dst : bytes) : BwrapArgs -> BwrapArgs := add_bind (Kind.Args [B "--bind"; src; dst]).
Definition ro_bind_data (content dest : bytes) : BwrapArgs -> BwrapArgs := add_bind (Kind.Data content dest).
Definition bind_init (host_path : bytes) : BwrapArgs -> BwrapArgs := ro_bind host_path INIT_INSIDE.

Definition mask_dir (dir : bytes) (a : BwrapArgs) : BwrapArgs :=
  with_masks (fun l => l ++ [op (origin a) [B "--size"; B "4096"; B "--tmpfs"; dir]; op (origin a) [B "--remount-ro"; dir]]) a.

Definition flatpak_spawn_shim (host_path : bytes) (a : BwrapArgs) : BwrapArgs :=
  let bin := B "/usr/bin" in
  add_bind (Kind.Args [B "--remount-ro"; bin])
    (ro_bind host_path FLATPAK_SPAWN_INSIDE
      (add_bind (Kind.Noted [B "--overlay-src"; bin; B "--tmp-overlay"; bin] (B "flatpak-spawn shim (glycin, gdk-pixbuf)")) a)).

Definition ctty (a : BwrapArgs) : BwrapArgs :=
  mkArgs (namespaces a) (skeleton a) (runtime a) (binds a) (masks a) (env a) true (x11 a) (origin a).

(** A second server leaves the first in place; with debug assertions the source stops there. *)
Definition x11_server (argv : list bytes) (wm : option bytes) (a : BwrapArgs) : BwrapArgs :=
  mkArgs (namespaces a) (skeleton a) (runtime a) (binds a) (masks a) (env a) (ctty_ a)
    (match x11 a with Some x => Some x | None => Some (origin a, argv, wm) end) (origin a).

Definition setenv (k v : bytes) (a : BwrapArgs) : BwrapArgs := with_env (fun l => l ++ [setenv_item (origin a) k v]) a.

(** ** The argv *)

Section Finish.
Context {W : Type} `{FdAllocator W}.

Definition allocated {A} (r : result FsError A) : result LaunchError.t A := match r with Ok a => Ok a | Err e => Err (LaunchError.Data e) end.

(** One item as its operation. *)
Definition emit_one (i : Item) (w : W) : result LaunchError.t (Explained * W) :=
  let say args note := mkExplained (i_origin i) args note in
  match kind i with
  | Kind.Args a => Ok (say a None, w)
  | Kind.Noted a note => Ok (say a (Some note), w)
  | Kind.Data content dest =>
    '(src, w) ← allocated (file dest content w);
    Ok (say [B "--ro-bind"; src; dest] (Some (B "generated file, " ++ decimal (len content) ++ B " bytes")), w)
  | Kind.InfoFd => '(fd, w) ← allocated (info_pipe w); Ok (say [B "--info-fd"; fd] (Some (B "pipe: bwrap reports the sandbox pid on it")), w)
  | Kind.BlockFd =>
    '(fd, w) ← allocated (block_pipe w); Ok (say [B "--block-fd"; fd] (Some (B "pipe: the sandbox waits on it until bubbler lets it go")), w)
  | Kind.Seccomp program arches =>
    '(fd, w) ← allocated (data program w);
    Ok (say [B "--add-seccomp-fd"; fd] (Some (B "filter, " ++ decimal (len program) ++ B " bytes, " ++ arches)), w)
  end.

Fixpoint emit_all (l : list Item) (w : W) : result LaunchError.t (list Explained * W) :=
  match l with
  | [] => Ok ([], w)
  | i :: l => '(e, w) ← emit_one i w; '(es, w) ← emit_all l w; Ok (e :: es, w)
  end.

Definition phases (a : BwrapArgs) : list Item := namespaces a ++ skeleton a ++ runtime a ++ binds a ++ masks a ++ env a.

Definition emit (a : BwrapArgs) (w : W) : result LaunchError.t (list Explained * W) := emit_all (phases a) w.

Definition flatten (l : list Explained) : list bytes := concat (map e_args l).

Record Argv := mkArgv { args : list bytes; command_at : Z }.
Definition options (a : Argv) : list bytes := upto (args a) (command_at a).
Definition command (a : Argv) : list bytes := from (args a) (command_at a).

Record Finished := mkFinished { ops : list Explained; options_ : nat }.
Definition into_argv (f : Finished) : Argv := mkArgv (flatten (ops f)) (len (flatten (take (options_ f) (ops f)))).

(** What follows bwrap's own options: the supervisor with its own, then the command. *)
Definition supervisor_ops (a : BwrapArgs) (socket : bytes) (command : list bytes) : list Explained :=
  [mkExplained Origin.Init [B "--"; INIT_INSIDE; B "--socket-fd"; socket] (Some (B "socket: the exec channel bubbler-init serves"))] ++
  (if ctty_ a then [mkExplained Origin.Ctty [B "--ctty"] None] else []) ++
  match x11 a with
  | Some (o, argv, wm) =>
    mkExplained o (B "--x11" :: argv ++ [B "--"]) (Some (B "nested Xwayland, started by bubbler-init on the first X connection; -listenfd is added at run time")) ::
    match wm with
    | Some wm => [mkExplained o [B "--wm"; wm] (Some (B "window manager inside the sandbox, started with the server"))]
    | None => []
    end
  | None => []
  end ++
  [mkExplained Origin.Command (B "--" :: command) None].

Definition finish_ops (a : BwrapArgs) (command : list bytes) (w : W) : result LaunchError.t (Finished * W) :=
  '(out, w) ← emit a w;
  '(socket, w) ← allocated (init_socket w);
  Ok (mkFinished (out ++ supervisor_ops a socket command) (length out), w).

Definition finish (a : BwrapArgs) (command : list bytes) (w : W) : result LaunchError.t (Argv * W) :=
  '(f, w) ← finish_ops a command w; Ok (into_argv f, w).
Definition finish_explained (a : BwrapArgs) (command : list bytes) (w : W) : result LaunchError.t (list Explained * W) :=
  '(f, w) ← finish_ops a command w; Ok (ops f, w).

Definition finish_plain (a : BwrapArgs) (command : list bytes) (w : W) : result LaunchError.t (Argv * W) :=
  '(out, w) ← emit a w; Ok (mkArgv (flatten out ++ B "--" :: command) (len (flatten out)), w).
Definition finish_plain_explained (a : BwrapArgs) (command : list (bytes * Origin.t)) (w : W) : result LaunchError.t (list Explained * W) :=
  '(out, w) ← emit a w; Ok (out ++ map (fun c => mkExplained c.2 [c.1] None) ((B "--", Origin.Command) :: command), w).
End Finish.
