(* ===== verification/Sweep.v ===== *)
(** The sweep of the destinations (bubbler-core/src/service.rs): before bwrap creates a path
    inside a tree the application can write, every component of it is looked at on the host,
    so a link planted there is refused and not followed. *)
From S2P Require Export Bwrap.

(** The operations that create a path, and how far after the flag it stands. *)
Definition CREATES : list (bytes * nat) :=
  [(B "--bind", 2%nat); (B "--bind-try", 2%nat); (B "--ro-bind", 2%nat); (B "--ro-bind-try", 2%nat); (B "--dev-bind", 2%nat);
   (B "--dev-bind-try", 2%nat); (B "--symlink", 2%nat); (B "--bind-data", 2%nat); (B "--ro-bind-data", 2%nat); (B "--file", 2%nat);
   (B "--dir", 1%nat); (B "--tmpfs", 1%nat); (B "--proc", 1%nat); (B "--dev", 1%nat); (B "--mqueue", 1%nat); (B "--overlay", 3%nat);
   (B "--tmp-overlay", 1%nat); (B "--ro-overlay", 1%nat)].

(** The loop over the arguments, the rest of them at hand. *)
Fixpoint destination_loop (l : list bytes) : option bytes :=
  match l with
  | [] => None
  | arg :: rest =>
    match List.find (fun c => bool_decide (arg = c.1)) CREATES with
    | Some (_, at_) => l !! at_
    | None => destination_loop rest
    end
  end.

Definition destination (op : Explained) : option bytes := destination_loop (e_args op).

(** A tree the application can write: its host directory, its path inside, its name. *)
Record Tree := mkTree { t_host : bytes; t_inside : bytes; t_name : bytes }.

(** What follows the first [--bind] or [--ro-bind]. *)
Fixpoint bind_args (l : list bytes) : option (list bytes) :=
  match l with
  | [] => None
  | a :: l => if bool_decide (a = B "--bind") || bool_decide (a = B "--ro-bind") then Some l else bind_args l
  end.

Definition tree_of (e : Env) (op : Explained) : option Tree :=
  let app := Path.join (runtime_dir e) (B "app") in
  let doc := Path.join (runtime_dir e) (B "doc") in
  match bind_args (e_args op) with
  | Some (src :: dst :: _) =>
    if Path.eqb dst SANDBOX_HOME then Some (mkTree src dst (B "the instance home"))
    else if match Path.parent dst with Some p => Path.eqb p app | None => false end then Some (mkTree src dst (B "the app-runtime directory"))
    else if Path.eqb dst doc then Some (mkTree src dst (B "the document view"))
    else None
  | _ => None
  end.

Definition writable_trees (ops : list Explained) (e : Env) : list Tree := omap (tree_of e) ops.

Section Sweep.
Context `{Host}.

(** The components of a destination below a tree, one by one. *)
Fixpoint sweep_parts (t : Tree) (dst : bytes) (parts : path) (on_host inside : bytes) : result LaunchError.t unit :=
  match parts with
  | [] => Ok tt
  | Normal name :: parts =>
    let on_host := Path.join on_host name in
    let inside := Path.join inside name in
    match read_link on_host with
    | Ok None => sweep_parts t dst parts on_host inside
    | Ok (Some target) => Err (LaunchError.PlantedSymlink inside (t_name t) target (t_host t))
    | Err source => Err (LaunchError.UncheckedDestination inside (t_name t) on_host source)
    end
  | _ :: _ => Err (LaunchError.UnwalkableDestination dst)
  end.

Definition sweep_tree (dst : bytes) (_ : unit) (t : Tree) : result LaunchError.t unit :=
  match strip_prefix (components (t_inside t)) (components dst) with
  | Some parts => sweep_parts t dst parts (t_host t) (t_inside t)
  | None => Ok tt
  end.

Definition sweep_op (trees : list Tree) (_ : unit) (op : Explained) : result LaunchError.t unit :=
  match destination op with
  | Some dst => fold_res (sweep_tree dst) tt trees
  | None => Ok tt
  end.

(** The operations before the first that a [--] leads. *)
Fixpoint bwrap_ops (ops : list Explained) : list Explained :=
  match ops with
  | [] => []
  | op :: ops => if bool_decide (List.hd_error (e_args op) = Some (B "--")) then [] else op :: bwrap_ops ops
  end.

Definition sweep_destinations (ops : list Explained) (e : Env) : result LaunchError.t unit :=
  fold_res (sweep_op (writable_trees ops e)) tt (bwrap_ops ops).

(** ** What the sweep refuses *)

(** The places a destination passes below a tree: the host path of each and its path
    inside. *)
Definition place (t : Tree) (names : list bytes) : bytes := fold_left Path.join names (t_host t).
Definition place_inside (t : Tree) (names : list bytes) : bytes := fold_left Path.join names (t_inside t).

(** [names] is what [dst] has below the tree. *)
Definition below (t : Tree) (dst : bytes) (parts : path) : Prop := components dst = components (t_inside t) ++ parts.

Lemma sweep_parts_ok t dst parts h i : sweep_parts t dst parts h i = Ok tt <->
  exists names, parts = map Normal names /\ forall pre name post, names = pre ++ name :: post -> read_link (fold_left Path.join (pre ++ [name]) h) = Ok None.
Proof.
  revert h i. induction parts as [|c parts IH]; intros h i; cbn [sweep_parts].
  - split; [|done]. intros _. exists []. split; [done|]. by intros [] ? ?.
  - destruct c as [| | |name]; try (split; [done|]; by intros ([|] & [=] & _)).
    destruct (read_link (Path.join h name)) as [[target|]|source] eqn:E.
    + split; [done|]. intros ([|n names] & [=] & Hp). subst n. specialize (Hp [] name names eq_refl). cbn in Hp. congruence.
    + rewrite IH. split.
      * intros (names & -> & Hp). exists (name :: names). split; [done|]. intros [|p pre] n post [= <- Heq]; [exact E|]. cbn [app fold_left]. by apply Hp with post.
      * intros ([|n names] & [=] & Hp). subst n. exists names. split; [done|]. intros pre n post ->. by apply (Hp (name :: pre) n post).
    + split; [done|]. intros ([|n names] & [=] & Hp). subst n. specialize (Hp [] name names eq_refl). cbn in Hp. congruence.
Qed.

(** Each refusal names a place that is what it says. *)
Definition refusal (t : Tree) (dst : bytes) (parts : path) (h i : bytes) (e : LaunchError.t) : Prop :=
  (exists pre name post target, parts = map Normal (pre ++ [name]) ++ post /\ read_link (fold_left Path.join (pre ++ [name]) h) = Ok (Some target) /\
     e = LaunchError.PlantedSymlink (fold_left Path.join (pre ++ [name]) i) (t_name t) target (t_host t)) \/
  (exists pre name post source, parts = map Normal (pre ++ [name]) ++ post /\ read_link (fold_left Path.join (pre ++ [name]) h) = Err source /\
     e = LaunchError.UncheckedDestination (fold_left Path.join (pre ++ [name]) i) (t_name t) (fold_left Path.join (pre ++ [name]) h) source) \/
  (e = LaunchError.UnwalkableDestination dst /\ exists c, c ∈ parts /\ is_normal c = false).

Lemma sweep_parts_refuses t dst parts h i e : sweep_parts t dst parts h i = Err e -> refusal t dst parts h i e.
Proof.
  revert h i. induction parts as [|c parts IH]; intros h i; cbn [sweep_parts]; [done|].
  destruct c as [| | |name]; try (intros [= <-]; right; right; split; [done|]; eexists; split; [by left|done]).
  destruct (read_link (Path.join h name)) as [[target|]|source] eqn:E.
  - intros [= <-]. left. by exists [], name, parts, target.
  - intros [(pre & n & post & target & -> & Hr & ->)|[(pre & n & post & source & -> & Hr & ->)|(-> & c & Hc & Hn)]]%IH.
    + left. by exists (name :: pre), n, post, target.
    + right. left. by exists (name :: pre), n, post, source.
    + right. right. split; [done|]. exists c. split; [by right|done].
  - intros [= <-]. right. left. by exists [], name, parts, source.
Qed.

Lemma fold_unit {E A} (f : unit -> A -> result E unit) l : fold_res f tt l = Ok tt <-> Forall (fun a => f tt a = Ok tt) l.
Proof.
  induction l as [|a l IH]; cbn [fold_res]; [by split|]. rewrite Forall_cons, <-IH. destruct (f tt a) as [[]|]; naive_solver.
Qed.

Lemma fold_unit_err {E A} (f : unit -> A -> result E unit) l e : fold_res f tt l = Err e -> exists a, a ∈ l /\ f tt a = Err e.
Proof.
  induction l as [|a l IH]; cbn [fold_res]; [done|]. destruct (f tt a) as [[]|e'] eqn:E'.
  - intros (b & Hb & Hf)%IH. exists b. split; [by right|done].
  - intros [= <-]. exists a. split; [by left|done].
Qed.

Lemma bwrap_ops_elem ops op : op ∈ bwrap_ops ops -> op ∈ ops.
Proof. induction ops as [|o ops IH]; cbn [bwrap_ops]; [done|]. case_bool_decide; [by intros ?%elem_of_nil|]. rewrite !elem_of_cons. naive_solver. Qed.

(** A destination of bwrap's that lies below a tree the application can write. *)
Definition created_below (ops : list Explained) (e : Env) (dst : bytes) (t : Tree) (parts : path) : Prop :=
  (exists op, op ∈ bwrap_ops ops /\ destination op = Some dst) /\ t ∈ writable_trees ops e /\ below t dst parts.

(** C22. The sweep lets an argv pass exactly when no destination has a planted link on its
    way: for every path an operation of bwrap creates below a tree the application can
    write, each component of it down to the last is a plain name, and what is at that place
    of the tree's host directory could be looked at and is no link.  When it refuses, it is
    for such a destination: the link it names is there and points where it says, the place
    it could not look at is one of them, or a component is no name. *)
Theorem sweep_refuses_planted_links ops e :
  (sweep_destinations ops e = Ok tt <->
   forall dst t parts, created_below ops e dst t parts ->
     exists names, parts = map Normal names /\
       forall pre name post, names = pre ++ name :: post -> read_link (place t (pre ++ [name])) = Ok None) /\
  forall err, sweep_destinations ops e = Err err ->
    exists dst t parts, created_below ops e dst t parts /\ refusal t dst parts (t_host t) (t_inside t) err.
Proof.
  split.
  - unfold sweep_destinations. rewrite fold_unit, Forall_forall. unfold sweep_op. split.
    + intros Hs dst t parts ((op & Hop & Hd) & Ht & Hb). specialize (Hs op Hop). rewrite Hd, fold_unit, Forall_forall in Hs. specialize (Hs t Ht).
      unfold sweep_tree in Hs. apply strip_prefix_some in Hb. rewrite Hb in Hs. by apply sweep_parts_ok in Hs.
    + intros Hs op Hop. destruct (destination op) as [dst|] eqn:Hd; [|done]. apply fold_unit, Forall_forall. intros t Ht. unfold sweep_tree.
      destruct (strip_prefix _ _) as [parts|] eqn:Hp; [|done]. apply strip_prefix_some in Hp. apply sweep_parts_ok. apply (Hs dst t parts). split; [by exists op|by split].
  - intros err (op & Hop & Ho)%fold_unit_err. unfold sweep_op in Ho. destruct (destination op) as [dst|] eqn:Hd; [|done].
    apply fold_unit_err in Ho as (t & Ht & Hr). unfold sweep_tree in Hr. destruct (strip_prefix _ _) as [parts|] eqn:Hp; [|done]. apply strip_prefix_some in Hp.
    exists dst, t, parts. split; [split; [by exists op|by split]|]. by apply sweep_parts_refuses.
Qed.
End Sweep.

(** An application that planted [Downloads] as a link out of its home. *)
Section Demo.
#[local] Instance planted_host : Host :=
  {| file_type _ := None; list_dir _ := []; canonicalize _ := None; is_mountpoint _ := None; writable _ := false; read _ := None; current_exe := None;
     read_link p := if bool_decide (p = B "/data/home/Downloads") then Ok (Some (B "/oldroot/victim")) else Ok None |}.

Definition demo_env : Env :=
  {| home := B "/home/user"; data_home := B "/home/user/.local/share"; config_home := B "/home/user/.config"; config_dirs := DEFAULT_CONFIG_DIRS;
     data_dirs := DEFAULT_DATA_DIRS; runtime_dir := B "/run/user/1000"; uid := 1000; gid := 1000; wayland_display := None; display := None;
     xauthority := None; passthrough := []; init_override := None; dbus_address := None; dbus_system_address := None;
     at_spi_bus_address := None; dbus_log := false; net_proxy_log := false; seccomp_log := false; test_allow_path := None;
     profile_dir_override := None; proxy_override := None; pasta_override := None; wl_proxy_override := None; net_proxy_override := None |}.

Definition planted_ops : list Explained :=
  [mkExplained Origin.Baseline [B "--bind"; B "/data/home"; SANDBOX_HOME] None;
   mkExplained (Origin.Service 0) [B "--ro-bind"; B "/home/user/Downloads"; B "/home/bubbler/Downloads/in"] None;
   mkExplained Origin.Init [B "--"; B "--dir"; B "/home/bubbler/Downloads"] None].

Lemma sweep_refuses_planted_links_witness :
  sweep_destinations planted_ops demo_env =
    Err (LaunchError.PlantedSymlink (B "/home/bubbler/Downloads") (B "the instance home") (B "/oldroot/victim") (B "/data/home")) /\
  exists dst t parts, created_below planted_ops demo_env dst t parts.
Proof.
  assert (sweep_destinations planted_ops demo_env =
    Err (LaunchError.PlantedSymlink (B "/home/bubbler/Downloads") (B "the instance home") (B "/oldroot/victim") (B "/data/home"))) as He by (vm_compute; reflexivity).
  split; [exact He|]. destruct (proj2 (sweep_refuses_planted_links planted_ops demo_env) _ He) as (dst & t & parts & Hc & _). by exists dst, t, parts.
Defined.
End Demo.
