(* ===== verification/BwrapSpec.v ===== *)
(** What the builder of bwrap's arguments promises: whatever the grants do, the sandbox stays
    what the baseline made it but for what they name; no builder function panics; a mask is
    never bound over; and the supervisor reads the words that are written for it. *)
From S2P Require Import InitSpec.
From S2P Require Export Sweep.

(** ** The steps of a builder *)

Section Steps.
Context `{Host}.

Inductive step : BwrapArgs -> BwrapArgs -> Prop :=
| step_tag o a : step a (tag o a)
| step_share_net a : step a (share_net a)
| step_chdir d a a' : chdir d a = Some a' -> step a a'
| step_tmp_size n a a' : tmp_size n a = Some a' -> step a a'
| step_host_etc a a' : bind_host_etc a = Some a' -> step a a'
| step_userns a : step a (disable_userns a)
| step_block a : step a (block_until_released a)
| step_seccomp p r a : step a (add_seccomp p r a)
| step_ro_bind s d a : step a (ro_bind s d a)
| step_bind s d a : step a (bind s d a)
| step_dev_bind s d a : step a (dev_bind s d a)
| step_dev_bind_try s d a : step a (dev_bind_try s d a)
| step_symlink t l a : step a (symlink t l a)
| step_data c d a : step a (ro_bind_data c d a)
| step_shim p a : step a (flatpak_spawn_shim p a)
| step_mask d a : step a (mask_dir d a)
| step_ctty a : step a (ctty a)
| step_x11 argv wm a : step a (x11_server argv wm a)
| step_setenv k v a : step a (setenv k v a).

(** ** What stays *)

Notation b := Origin.Baseline.

Definition net_part (l : list Item) : Prop := l = [] \/ exists o, l = [op o [B "--share-net"]].

Definition wait_item (i : Item) : Prop :=
  match kind i with
  | Kind.BlockFd | Kind.Seccomp _ _ => True
  | Kind.Args args => args = [B "--unshare-user"; B "--disable-userns"]
  | _ => False
  end.

(** A file that names the user of the host, or its backup, and what is put over it. *)
Definition identity_file (e : Env) (i : Item) : Prop :=
  match kind i with
  | Kind.Data content dest =>
    (content = passwd_content (uid e) (gid e) /\ dest ∈ [B "/etc/passwd"; B "/etc/passwd-"; B "/etc/passwd+"]) \/
    (content = group_content (gid e) /\ dest ∈ [B "/etc/group"; B "/etc/group-"; B "/etc/group+"]) \/
    (content = [] /\ dest ∈ [B "/etc/subuid"; B "/etc/subgid"])
  | _ => False
  end.

Definition names_of (e : Env) (o : Origin.t) : list Item :=
  [data_file o (passwd_content (uid e) (gid e)) (B "/etc/passwd"); data_file o (group_content (gid e)) (B "/etc/group")].

(** [/etc] is the allowlist over a tmpfs, or the host's, and in either the user is the
    sandbox's own. *)
Definition etc_allowlist (e : Env) : list Item := sized_tmpfs TMPFS_SIZE (B "/etc") :: etc_binds ETC_ALLOWLIST ++ names_of e b.
Definition etc_part (e : Env) (l : list Item) : Prop :=
  l = etc_allowlist e \/
  exists o extra, l = op o [B "--ro-bind"; B "/etc"; B "/etc"] :: names_of e o ++ extra /\ Forall (identity_file e) extra.

Definition skeleton_front : list Item :=
  [op b [B "--ro-bind"; B "/usr"; B "/usr"]] ++ usr_links ++ [op b [B "--ro-bind-try"; B "/opt"; B "/opt"]].
Definition skeleton_devices : list Item :=
  [op b [B "--proc"; B "/proc"]; op b [B "--dev"; B "/dev"]] ++
  (if is_type FileType.CharDevice (B "/dev/ntsync") then [op b [B "--dev-bind"; B "/dev/ntsync"; B "/dev/ntsync"]] else []).
Definition skeleton_end (home : bytes) : list Item :=
  [sized_tmpfs TMPFS_SIZE (B "/var"); sized_tmpfs TMPFS_SIZE (B "/run"); op b [B "--bind"; home; SANDBOX_HOME]].

Definition tmp_item (i : Item) : Prop := exists o v, i = op o [B "--size"; v; B "--tmpfs"; B "/tmp"].

(** What a grant may add to the binds. *)
Definition bind_item (i : Item) : Prop :=
  match kind i with
  | Kind.Args args =>
    (exists f s d, args = [f; s; d] /\ f ∈ [B "--ro-bind"; B "--bind"; B "--dev-bind"; B "--dev-bind-try"; B "--symlink"]) \/
    args = [B "--remount-ro"; B "/usr/bin"]
  | Kind.Noted args _ => args = [B "--overlay-src"; B "/usr/bin"; B "--tmp-overlay"; B "/usr/bin"]
  | Kind.Data _ _ => True
  | _ => False
  end.

Definition mask_items (x : Origin.t * bytes) : list Item := [op x.1 [B "--size"; B "4096"; B "--tmpfs"; x.2]; op x.1 [B "--remount-ro"; x.2]].
Definition env_item (i : Item) : Prop := exists o k v, i = setenv_item o k v.

Record confined (e : Env) (home : bytes) (a : BwrapArgs) : Prop := {
  c_ns : exists net dir waits, net_part net /\ Forall wait_item waits /\
    namespaces a = op b [B "--unshare-all"] :: net ++
      [op b [B "--die-with-parent"]; op b [B "--new-session"]; op b [B "--hostname"; B "bubbler"]; op b [B "--chdir"; dir]; mkItem b Kind.InfoFd] ++ waits;
  c_sk : exists etc tmp, etc_part e etc /\ tmp_item tmp /\ skeleton a = skeleton_front ++ etc ++ skeleton_devices ++ tmp :: skeleton_end home;
  c_rt : runtime a = [op b [B "--perms"; B "0700"; B "--dir"; runtime_dir e]];
  c_binds : Forall bind_item (binds a);
  c_masks : exists ds, masks a = concat (map mask_items ds);
  c_env : exists sets, Forall env_item sets /\ env a = op b [B "--clearenv"] :: sets }.

Lemma skeleton_parts {A} (u o s p g t v r h : A) l1 l2 d ns :
  [u] ++ l1 ++ [o] ++ [s] ++ l2 ++ [p; g] ++ d ++ ns ++ [t; v; r] ++ [h] = ([u] ++ l1 ++ [o]) ++ (s :: l2 ++ [p; g]) ++ (d ++ ns) ++ t :: [v; r; h].
Proof. cbn [app]. rewrite <-!app_assoc. cbn [app]. by rewrite <-?app_assoc. Qed.

Lemma baseline_confined e home : confined e home (baseline e home).
Proof.
  split; try done.
  - exists [], SANDBOX_HOME, []. split; [by left|]. by split; [constructor|].
  - exists (etc_allowlist e), (sized_tmpfs TMP_SIZE (B "/tmp")). split; [by left|]. split; [by do 2 eexists|]. apply skeleton_parts.
  - by exists [].
  - eexists. split; [|reflexivity]. apply Forall_app. split; [|by repeat constructor; do 3 eexists]. apply Forall_map, Forall_forall. intros kv _. by do 3 eexists.
Qed.

(** ** The steps keep it *)

Lemma replace_first_at {A} (f : A -> option A) l x y r : Forall (fun i => f i = None) l -> f x = Some y -> replace_first f (l ++ x :: r) = Some (l ++ y :: r).
Proof. intros Hl Hx. induction Hl as [|i l Hi _ IH]; cbn [app replace_first]; [by rewrite Hx|]. rewrite Hi, IH. done. Qed.

Lemma split_at_first_at {A} (f : A -> bool) l x r : Forall (fun i => f i = false) l -> f x = true -> split_at_first f (l ++ x :: r) = Some (l, x :: r).
Proof. intros Hl Hx. induction Hl as [|i l Hi _ IH]; cbn [app split_at_first]; [by rewrite Hx|]. rewrite Hi, IH. done. Qed.

Lemma split_at_first_none {A} (f : A -> bool) l : Forall (fun i => f i = false) l -> split_at_first f l = None.
Proof. induction 1 as [|i l Hi _ IH]; cbn [split_at_first]; [done|]. by rewrite Hi, IH. Qed.

(** An item that mounts no tmpfs at [dir]. *)
Definition no_tmpfs (dir : bytes) (i : Item) : Prop := is_tmpfs dir i = false.

Lemma op_no_tmpfs dir o f l : f <> B "--size" -> no_tmpfs dir (op o (f :: l)).
Proof. intros Hf. unfold no_tmpfs, is_tmpfs. cbn [kind op]. by rewrite bool_decide_false. Qed.

Lemma front_no_tmpfs dir : Forall (no_tmpfs dir) skeleton_front.
Proof. unfold skeleton_front, usr_links. cbn [map app fst snd]. repeat (constructor; [by apply op_no_tmpfs|]). constructor. Qed.

Lemma devices_no_tmpfs dir : Forall (no_tmpfs dir) skeleton_devices.
Proof. unfold skeleton_devices. destruct (is_type _ _); cbn [app]; repeat (constructor; [by apply op_no_tmpfs|]); constructor. Qed.

Lemma etc_binds_no_tmpfs dir names : Forall (no_tmpfs dir) (etc_binds names).
Proof. unfold etc_binds. apply Forall_map, Forall_forall. intros p _. by apply op_no_tmpfs. Qed.

Lemma identity_no_tmpfs e dir i : identity_file e i -> no_tmpfs dir i.
Proof. unfold identity_file, no_tmpfs, is_tmpfs. by destruct (kind i). Qed.

Lemma etc_no_tmp e l : etc_part e l -> Forall (no_tmpfs (B "/tmp")) l.
Proof.
  intros [->|(o & extra & -> & Hx)].
  - constructor; [done|]. apply Forall_app. split; [apply etc_binds_no_tmpfs|]. by repeat constructor.
  - repeat constructor. eapply Forall_impl; [exact Hx|]. apply identity_no_tmpfs.
Qed.

Lemma chdir_at a dir e home : confined e home a -> exists a', chdir dir a = Some a' /\ confined e home a'.
Proof.
  intros [(net & was & waits & Hn & Hw & Ens) Hsk Hrt Hb Hm He]. unfold chdir. rewrite Ens.
  change (op b [B "--unshare-all"] :: net ++ ?r) with ([op b [B "--unshare-all"]] ++ net ++ r). cbn [app].
  assert (forall tl, op b [B "--unshare-all"] :: net ++ op b [B "--die-with-parent"] :: op b [B "--new-session"] :: op b [B "--hostname"; B "bubbler"] :: tl =
    ([op b [B "--unshare-all"]] ++ net ++ [op b [B "--die-with-parent"]; op b [B "--new-session"]; op b [B "--hostname"; B "bubbler"]]) ++ tl) as ->
    by (intros tl; by rewrite <-!app_assoc).
  rewrite (replace_first_at _ _ _ (op b [B "--chdir"; dir])); [|by destruct Hn as [->|[o ->]]; repeat constructor|reflexivity].
  eexists. split; [reflexivity|]. split; try done. exists net, dir, waits. split; [done|]. split; [done|]. cbn [with_namespaces namespaces]. by rewrite <-!app_assoc.
Qed.

Lemma tmp_size_at a n e home : confined e home a -> exists a', tmp_size n a = Some a' /\ confined e home a'.
Proof.
  intros [Hns (etc & tmp & Hetc & (o & v & ->) & Esk) Hrt Hb Hm He]. unfold tmp_size. rewrite Esk.
  assert (forall tl, skeleton_front ++ etc ++ skeleton_devices ++ tl = (skeleton_front ++ etc ++ skeleton_devices) ++ tl) as -> by (intros tl; by rewrite <-!app_assoc).
  rewrite (replace_first_at _ _ _ (op (origin a) [B "--size"; decimal n; B "--tmpfs"; B "/tmp"])); [|..|reflexivity].
  - eexists. split; [reflexivity|]. split; try done. exists etc, (op (origin a) [B "--size"; decimal n; B "--tmpfs"; B "/tmp"]). split; [done|].
    split; [by do 2 eexists|]. cbn [with_skeleton skeleton]. by rewrite <-!app_assoc.
  - assert (Forall (no_tmpfs (B "/tmp")) (skeleton_front ++ etc ++ skeleton_devices)) as Hf by (apply Forall_app; split; [apply front_no_tmpfs|]; apply Forall_app; split; [by apply (etc_no_tmp e)|apply devices_no_tmpfs]).
    eapply Forall_impl; [exact Hf|]. intros i Hi. unfold no_tmpfs in Hi. by rewrite Hi.
Qed.

Lemma passwd_identity e o d : d ∈ [B "/etc/passwd"; B "/etc/passwd-"; B "/etc/passwd+"] -> identity_file e (data_file o (passwd_content (uid e) (gid e)) d).
Proof. intros Hd. by left. Qed.
Lemma group_identity e o d : d ∈ [B "/etc/group"; B "/etc/group-"; B "/etc/group+"] -> identity_file e (data_file o (group_content (gid e)) d).
Proof. intros Hd. by right; left. Qed.
Lemma empty_identity e o d : d ∈ [B "/etc/subuid"; B "/etc/subgid"] -> identity_file e (data_file o [] d).
Proof. intros Hd. by right; right. Qed.

Lemma extra_identity e o : Forall (identity_file e) (host_etc_extra o (passwd_content (uid e) (gid e)) (group_content (gid e))).
Proof.
  unfold host_etc_extra. apply Forall_map, Forall_forall. intros [c d] [Hin|Hin]%elem_of_app; apply list_elem_of_In, filter_In in Hin as [Hin _]; apply list_elem_of_In in Hin; cbn [fst snd];
    repeat (apply elem_of_cons in Hin as [Hin|Hin]; [injection Hin as -> ->;
      first [apply passwd_identity; (by right; left) || (by right; right; left) | apply group_identity; (by right; left) || (by right; right; left) | apply empty_identity; (by left) || (by right; left)]|]); by apply elem_of_nil in Hin.
Qed.

Lemma bind_host_etc_eq a pre s mid o o' passwd p group g rest :
  skeleton a = pre ++ (s :: mid ++ [mkItem o (Kind.Data passwd p); mkItem o' (Kind.Data group g)]) ++ rest ->
  Forall (no_tmpfs (B "/etc")) pre -> is_tmpfs (B "/etc") s = true -> Forall (fun i => is_data i = false) (s :: mid) ->
  bind_host_etc a = Some (with_skeleton (fun _ => pre ++ (op (origin a) [B "--ro-bind"; B "/etc"; B "/etc"] ::
    [data_file (origin a) passwd p; data_file (origin a) group g] ++ host_etc_extra (origin a) passwd group) ++ rest) a).
Proof.
  intros Hsk Hpre Hs Hmid. unfold bind_host_etc. rewrite Hsk. cbn [app]. rewrite (split_at_first_at _ pre) by done. cbn [mbind option_bind].
  rewrite <-app_assoc. cbn [app]. rewrite app_comm_cons. rewrite (split_at_first_at is_data (s :: mid)) by done. reflexivity.
Qed.

Lemma bind_host_etc_none a : Forall (no_tmpfs (B "/etc")) (skeleton a) -> bind_host_etc a = None.
Proof. intros Hs. unfold bind_host_etc. by rewrite split_at_first_none. Qed.

Lemma host_etc_at a etc tmp e home : confined e home a -> etc_part e etc -> tmp_item tmp -> skeleton a = skeleton_front ++ etc ++ skeleton_devices ++ tmp :: skeleton_end home ->
  match bind_host_etc a with
  | Some a' => etc = etc_allowlist e /\ confined e home a'
  | None => etc <> etc_allowlist e
  end.
Proof.
  intros [Hns _ Hrt Hb Hm He] Hetc Ht Esk. destruct Hetc as [->|(o & extra & -> & Hx)].
  - rewrite (bind_host_etc_eq a _ _ _ _ _ _ _ _ _ _ Esk); [|apply front_no_tmpfs|done|constructor; [done|apply Forall_map, Forall_forall; done]].
    split; [done|]. split; try done. eexists _, tmp. split; [|split; [exact Ht|reflexivity]]. right. do 2 eexists. split; [reflexivity|]. apply extra_identity.
  - rewrite bind_host_etc_none.
    + intros Hn. discriminate Hn.
    + rewrite Esk. apply Forall_app. split; [apply front_no_tmpfs|]. apply Forall_app. split.
      * repeat (constructor; [done|]). eapply Forall_impl; [exact Hx|]. apply identity_no_tmpfs.
      * apply Forall_app. split; [apply devices_no_tmpfs|]. destruct Ht as (o' & v & ->). by repeat constructor.
Qed.

Lemma no_share_net waits : Forall wait_item waits -> existsb (holds (B "--share-net")) waits = false.
Proof.
  induction 1 as [|i waits Hi _ IH]; [done|]. cbn [existsb]. rewrite IH, orb_false_r. unfold wait_item in Hi. unfold holds. destruct (kind i) as [args| | | | |]; try done. by subst args.
Qed.

Lemma share_net_at a e home : confined e home a -> confined e home (share_net a).
Proof.
  intros [(net & dir & waits & Hn & Hw & Ens) Hsk Hrt Hb Hm He]. unfold share_net. destruct Hn as [->|[o ->]].
  - assert (existsb (holds (B "--share-net")) (namespaces a) = false) as -> by (rewrite Ens; cbn [app existsb]; rewrite no_share_net by done; reflexivity).
    split; try done. exists [op (origin a) [B "--share-net"]], dir, waits. split; [right; by eexists|]. split; [done|]. cbn [with_namespaces namespaces]. by rewrite Ens.
  - assert (existsb (holds (B "--share-net")) (namespaces a) = true) as -> by (rewrite Ens; reflexivity).
    split; try done. exists [op o [B "--share-net"]], dir, waits. split; [right; by eexists|]. by split.
Qed.

Lemma wait_at a e home i : wait_item i -> confined e home a -> confined e home (with_namespaces (fun ns => ns ++ [i]) a).
Proof.
  intros Hi [(net & dir & waits & Hn & Hw & Ens) Hsk Hrt Hb Hm He]. split; try done. exists net, dir, (waits ++ [i]). split; [done|].
  split; [apply Forall_app; split; [done|by constructor]|]. cbn [with_namespaces namespaces]. rewrite Ens. cbn [app]. rewrite <-app_assoc. cbn [app]. done.
Qed.

Lemma bind_at a e home k : bind_item (mkItem (origin a) k) -> confined e home a -> confined e home (add_bind k a).
Proof. intros Hk [Hns Hsk Hrt Hb Hm He]. split; try done. apply Forall_app. split; [done|by constructor]. Qed.

Lemma bind_three o f s d : f ∈ [B "--ro-bind"; B "--bind"; B "--dev-bind"; B "--dev-bind-try"; B "--symlink"] -> bind_item (mkItem o (Kind.Args [f; s; d])).
Proof. intros Hf. left. by exists f, s, d. Qed.

Lemma step_confined e home a a' : step a a' -> confined e home a -> confined e home a'.
Proof.
  intros Hs Hc. destruct Hs as [o a|a|d a a' Hd|n a a' Hd|a a' Hd|a|a|p r a|s d a|s d a|s d a|s d a|t l a|c d a|p a|d a|a|argv wm a|k v a].
  - destruct Hc as [Hns Hsk Hrt Hb Hm He]. by split.
  - by apply share_net_at.
  - destruct (chdir_at a d e home Hc) as (x & Hx & Hxc). rewrite Hd in Hx. by injection Hx as <-.
  - destruct (tmp_size_at a n e home Hc) as (x & Hx & Hxc). rewrite Hd in Hx. by injection Hx as <-.
  - pose proof (c_sk _ _ _ Hc) as (etc & tmp & He & Ht & Hk). pose proof (host_etc_at a etc tmp e home Hc He Ht Hk) as Hh. rewrite Hd in Hh. apply Hh.
  - unfold disable_userns. destruct (existsb _ _); [done|]. by apply wait_at.
  - by apply wait_at.
  - by apply wait_at.
  - apply bind_at; [|done]. apply bind_three. by left.
  - apply bind_at; [|done]. apply bind_three. by right; left.
  - apply bind_at; [|done]. apply bind_three. by do 2 right; left.
  - apply bind_at; [|done]. apply bind_three. by do 3 right; left.
  - apply bind_at; [|done]. apply bind_three. by do 4 right; left.
  - by apply bind_at.
  - apply bind_at; [by right|]. apply bind_at; [apply bind_three; by left|]. by apply bind_at.
  - destruct Hc as [Hns Hsk Hrt Hb [ds Hm] He]. split; try done. exists (ds ++ [(origin a, d)]). cbn [mask_dir with_masks masks]. by rewrite Hm, map_app, concat_app.
  - destruct Hc as [Hns Hsk Hrt Hb Hm He]. by split.
  - destruct Hc as [Hns Hsk Hrt Hb Hm He]. by split.
  - destruct Hc as [Hns Hsk Hrt Hb Hm (sets & Hsets & He)]. split; try done. exists (sets ++ [setenv_item (origin a) k v]).
    split; [apply Forall_app; split; [done|]; constructor; [by do 3 eexists|done]|]. cbn [setenv with_env env]. by rewrite He.
Qed.

Lemma steps_confined e home a a' : rtc step a a' -> confined e home a -> confined e home a'.
Proof. induction 1 as [|x y z Hs _ IH]; [done|]. intros Hx. apply IH. by eapply step_confined. Qed.

Lemma reached_confined e home a : rtc step (baseline e home) a -> confined e home a.
Proof. intros Hr. eapply steps_confined; [exact Hr|]. apply baseline_confined. Qed.

(** ** The operations *)

Context {W : Type} `{FdAllocator W}.

(** The operation an item becomes: its own elements, or a flag with what was allocated. *)
Definition says (i : Item) (x : Explained) : Prop :=
  e_origin x = i_origin i /\
  match kind i with
  | Kind.Args args | Kind.Noted args _ => e_args x = args
  | Kind.Data _ dest => exists src, e_args x = [B "--ro-bind"; src; dest]
  | Kind.InfoFd => exists fd, e_args x = [B "--info-fd"; fd]
  | Kind.BlockFd => exists fd, e_args x = [B "--block-fd"; fd]
  | Kind.Seccomp _ _ => exists fd, e_args x = [B "--add-seccomp-fd"; fd]
  end.

Lemma emit_one_says i w x w' : emit_one i w = Ok (x, w') -> says i x.
Proof. unfold emit_one, says. intros He. destruct (kind i); inv_ok; try (injection He as <- <-); try (destruct r; inv_ok); cbn; split; try done; by eexists. Qed.

Lemma emit_all_says l w xs w' : emit_all l w = Ok (xs, w') -> Forall2 says l xs.
Proof.
  revert w xs. induction l as [|i l IH]; intros w xs He; cbn [emit_all] in He; [by injection He as <- <-|].
  destruct (emit_one i w) as [[x w1]|] eqn:E1; [|done]. cbn [mbind result_bind] in He. destruct (emit_all l w1) as [[ys w2]|] eqn:E2; [|done].
  cbn [mbind result_bind] in He. injection He as <- <-. constructor; [by eapply emit_one_says|by eapply IH].
Qed.

(** The path an operation mounts or creates something at, as [bwrap(1)] reads it: options
    that apply to the next operation, then the operation. *)
Fixpoint mount_point (args : list bytes) : option bytes :=
  match args with
  | [] => None
  | f :: rest =>
    if bool_decide (f ∈ [B "--size"; B "--perms"; B "--overlay-src"]) then match rest with _ :: rest => mount_point rest | [] => None end
    else match List.find (fun c => bool_decide (f = c.1)) CREATES with Some (_, at_) => args !! at_ | None => None end
  end.

(** It mounts or creates something at [p] or above it. *)
Definition covers (p : bytes) (x : Explained) : bool :=
  match mount_point (e_args x) with Some d => Path.starts_with p d | None => false end.

Lemma last_such {A} (P : A -> bool) l : existsb P l = true -> exists pre x post, l = pre ++ x :: post /\ P x = true /\ Forall (fun y => P y = false) post.
Proof.
  induction l as [|c l IH]; cbn [existsb]; [done|]. destruct (existsb P l) eqn:E.
  - intros _. destruct (IH eq_refl) as (pre & x & post & -> & Hx & Hp). by exists (c :: pre), x, post.
  - rewrite orb_false_r. intros Hc. exists [], c, l. split; [done|]. split; [done|]. apply Forall_forall. intros y Hy. destruct (P y) eqn:Py; [|done].
    assert (existsb P l = true) as Ht by (apply existsb_exists; exists y; by split; [apply list_elem_of_In|]). congruence.
Qed.

Lemma mask_says x y : Forall2 says (mask_items x) y ->
  exists s r, y = [s; r] /\ e_args s = [B "--size"; B "4096"; B "--tmpfs"; x.2] /\ e_args r = [B "--remount-ro"; x.2].
Proof.
  unfold mask_items. intros Hs. apply Forall2_cons_inv_l in Hs as (s & y' & [_ Hs] & Hr & ->). apply Forall2_cons_inv_l in Hr as (r & y'' & [_ Hr] & Hn & ->).
  apply Forall2_nil_inv_l in Hn as ->. by exists s, r.
Qed.

Lemma masks_say ds ys y p : Forall2 says (concat (map mask_items ds)) ys -> y ∈ ys -> covers p y = true ->
  exists d, e_args y = [B "--size"; B "4096"; B "--tmpfs"; d] /\ Path.starts_with p d = true.
Proof.
  revert ys. induction ds as [|d ds IH]; intros ys Hs Hy Hc; cbn [map concat] in Hs; [apply Forall2_nil_inv_l in Hs as ->; by apply elem_of_nil in Hy|].
  apply Forall2_app_inv_l in Hs as (u & v & (s & r & -> & Es & Er)%mask_says & Hv & ->). cbn [app] in Hy.
  apply elem_of_cons in Hy as [->|Hy]; [exists d.2; split; [done|]; unfold covers in Hc; by rewrite Es in Hc|].
  apply elem_of_cons in Hy as [->|Hy]; [unfold covers in Hc; rewrite Er in Hc; discriminate Hc|]. by apply (IH v).
Qed.

Lemma masks_said ds ys d : Forall2 says (concat (map mask_items ds)) ys -> d ∈ map snd ds -> exists y, y ∈ ys /\ e_args y = [B "--size"; B "4096"; B "--tmpfs"; d].
Proof.
  revert ys. induction ds as [|x ds IH]; intros ys Hs Hd; cbn [map concat] in *; [by apply elem_of_nil in Hd|].
  apply Forall2_app_inv_l in Hs as (u & v & (s & r & -> & Es & Er)%mask_says & Hv & ->).
  apply elem_of_cons in Hd as [->|Hd]; [exists s; split; [by left|done]|]. destruct (IH v Hv Hd) as (y & Hy & He). exists y. split; [by do 2 right|done].
Qed.

Lemma env_covers l xs p : Forall env_item l -> Forall2 says l xs -> Forall (fun x => covers p x = false) xs.
Proof.
  intros Hl Hs. revert Hl. induction Hs as [|i x l xs [_ Hx] _ IH]; intros Hl; [constructor|]. apply Forall_cons in Hl as [(o & k & v & ->) Hl].
  constructor; [|by apply IH]. unfold covers. cbn in Hx. rewrite Hx. reflexivity.
Qed.

(** The directories that are masked. *)
Definition masked (a : BwrapArgs) : list bytes :=
  omap (fun i => match kind i with Kind.Args [f; _; _; d] => if bool_decide (f = B "--size") then Some d else None | _ => None end) (masks a).

Lemma masked_items ds : omap (fun i => match kind i with Kind.Args [f; _; _; d] => if bool_decide (f = B "--size") then Some d else None | _ => None end) (concat (map mask_items ds)) = map snd ds.
Proof. induction ds as [|x ds IH]; [done|]. cbn [map concat]. rewrite omap_app, IH. done. Qed.

(** C21. Nothing is put over a mask: for every path at or below a directory the configuration
    hides, whatever else was granted, the last operation that mounts or creates something at
    the path or above it is the empty tmpfs of a mask. *)
Theorem masks_cover_grants e home a w es w' d p :
  rtc step (baseline e home) a -> emit a w = Ok (es, w') -> d ∈ masked a -> Path.starts_with p d = true ->
  exists pre m post d', es = pre ++ m :: post /\ e_args m = [B "--size"; B "4096"; B "--tmpfs"; d'] /\ Path.starts_with p d' = true /\
    Forall (fun x => covers p x = false) post.
Proof.
  intros Hr%(reached_confined e home) He%emit_all_says Hd Hp. destruct (c_masks _ _ _ Hr) as [ds Hds]. destruct (c_env _ _ _ Hr) as (sets & Hsets & Henv).
  unfold masked in Hd. rewrite Hds, masked_items in Hd. unfold phases in He. rewrite !app_assoc in He.
  apply Forall2_app_inv_l in He as (front & xs & Hfront & Hxs & ->). apply Forall2_app_inv_l in Hfront as (base & ms & _ & Hms & ->).
  rewrite Henv in Hxs. apply Forall2_cons_inv_l in Hxs as (c & xs' & [_ Hc] & Hxs & ->). rewrite Hds in Hms.
  destruct (masks_said ds ms d Hms Hd) as (y & Hy & Ey).
  destruct (last_such (covers p) ms) as (pre & m & post & -> & Hm & Hpost).
  { apply existsb_exists. exists y. split; [by apply list_elem_of_In|]. unfold covers. rewrite Ey. exact Hp. }
  destruct (masks_say ds _ m p Hms) as (d' & Em & Hd'); [by apply elem_of_app; right; left|done|].
  exists (base ++ pre), m, (post ++ c :: xs'), d'. rewrite <-!app_assoc. split; [done|]. split; [done|]. split; [done|].
  apply Forall_app. split; [done|]. constructor; [unfold covers; cbn in Hc; by rewrite Hc|by apply (env_covers sets)].
Qed.

(** ** What is never dropped *)

(** Whatever the grants of a sandbox do, in whatever order, it keeps what the baseline
    gave it: every namespace is unshared and the network is shared by at most one flag, it
    dies with its parent in a session of its own, [/etc] is the allowlist or the host's with
    the sandbox's own user put over it, the instance home is the home, the environment is
    cleared and only then set, and a grant adds binds, masks and variables and nothing else.
    No function of the builder panics on it but the host's [/etc] where that is granted
    already; and what is said to bwrap is each item in turn, phase by phase. *)
Theorem sandbox_stays_confined e home a :
  rtc step (baseline e home) a ->
  confined e home a /\
  (forall dir, chdir dir a <> None) /\ (forall n, tmp_size n a <> None) /\
  (bind_host_etc a = None -> exists o, op o [B "--ro-bind"; B "/etc"; B "/etc"] ∈ skeleton a) /\
  forall w es w', emit a w = Ok (es, w') -> Forall2 says (phases a) es.
Proof.
  intros Hr%reached_confined. split; [done|]. split; [|split; [|split]].
  - intros dir. by destruct (chdir_at a dir e home Hr) as (x & -> & _).
  - intros n. by destruct (tmp_size_at a n e home Hr) as (x & -> & _).
  - destruct (c_sk _ _ _ Hr) as (etc & tmp & He & Ht & Hk). pose proof (host_etc_at a etc tmp e home Hr He Ht Hk) as Hh. intros Hn. rewrite Hn in Hh.
    destruct He as [->|(o & extra & -> & _)]; [done|]. exists o. rewrite Hk. apply elem_of_app. right. by left.
  - intros w es w' He. by apply emit_all_says in He.
Qed.

(** An operation of bwrap's own. *)
Definition own (i : Item) : Prop :=
  match kind i with Kind.Args l | Kind.Noted l _ => exists f r, l = f :: r /\ f <> B "--" | _ => True end.

Lemma own_op o f r : f <> B "--" -> own (op o (f :: r)).
Proof. intros Hf. by exists f, r. Qed.

Lemma wait_own i : wait_item i -> own i.
Proof. unfold wait_item, own. destruct (kind i); try done. intros ->. by do 2 eexists. Qed.
Lemma identity_own e i : identity_file e i -> own i.
Proof. unfold identity_file, own. by destruct (kind i). Qed.
Lemma bind_own i : bind_item i -> own i.
Proof.
  unfold bind_item, own. destruct (kind i); try done.
  - intros [(f & s & d & -> & Hf)| ->]; [|by do 2 eexists]. exists f, [s; d]. split; [done|]. intros ->. by vm_compute in Hf; repeat (apply elem_of_cons in Hf as [Hf|Hf]; [discriminate Hf|]); apply elem_of_nil in Hf.
  - intros ->. by do 2 eexists.
Qed.
Lemma masks_own ds : Forall own (concat (map mask_items ds)).
Proof. induction ds as [|d ds IH]; [constructor|]. cbn [map concat]. apply Forall_app. split; [|done]. repeat constructor; by apply own_op. Qed.
Lemma env_own l : Forall env_item l -> Forall own l.
Proof. intros Hl. eapply Forall_impl; [exact Hl|]. intros i (o & k & v & ->). by apply own_op. Qed.
Lemma etc_binds_own names : Forall own (etc_binds names).
Proof. unfold etc_binds. apply Forall_map, Forall_forall. intros p _. by apply own_op. Qed.
Lemma etc_own e l : etc_part e l -> Forall own l.
Proof.
  intros [->|(o & extra & -> & Hx)].
  - constructor; [by apply own_op|]. apply Forall_app. split; [apply etc_binds_own|]. by repeat constructor.
  - constructor; [by apply own_op|]. do 2 (constructor; [done|]). eapply Forall_impl; [exact Hx|]. apply identity_own.
Qed.
Lemma skeleton_own home o v : Forall own (skeleton_front ++ skeleton_devices ++ op o [B "--size"; v; B "--tmpfs"; B "/tmp"] :: skeleton_end home).
Proof.
  unfold skeleton_front, skeleton_devices, skeleton_end, usr_links. cbn [map app fst snd]. destruct (is_type _ _); cbn [app];
    repeat (constructor; [by apply own_op|]); constructor.
Qed.

Lemma confined_own e home a : confined e home a -> Forall own (phases a).
Proof.
  intros [(net & dir & waits & Hn & Hw & Ens) (etc & tmp & Hetc & (o & v & ->) & Esk) Ert Hb [ds Em] (sets & Hs & Ee)].
  unfold phases. rewrite Ens, Esk, Ert, Em, Ee. repeat rewrite Forall_app.
  pose proof (skeleton_own home o v) as Hsk. rewrite !Forall_app in Hsk. destruct Hsk as (Hf & Hd & Ht).
  split; [|split; [by split; [|split; [by eapply etc_own|]]|]].
  - constructor; [by apply own_op|]. apply Forall_app. split; [destruct Hn as [->|[o' ->]]; repeat constructor; by apply own_op|].
    apply Forall_app. split; [repeat (constructor; [by apply own_op|]); by constructor|]. eapply Forall_impl; [exact Hw|]. apply wait_own.
  - split; [repeat constructor; by apply own_op|]. split; [eapply Forall_impl; [exact Hb|]; apply bind_own|]. split; [apply masks_own|].
    constructor; [by apply own_op|]. by apply env_own.
Qed.

(** ** The argv *)

Definition no_dashes (x : Explained) : Prop := exists f r, e_args x = f :: r /\ f <> B "--".

Lemma says_no_dashes i x : own i -> says i x -> no_dashes x.
Proof.
  unfold own, says, no_dashes. intros Ho [_ Hs]. destruct (kind i); cbn in Hs.
  1, 2: by rewrite Hs.
  - destruct Hs as [? ->]. by do 2 eexists.
  - destruct Hs as [? ->]. by do 2 eexists.
  - destruct Hs as [? ->]. by do 2 eexists.
  - destruct Hs as [? ->]. by do 2 eexists.
Qed.

Lemma says_all_no_dashes l xs : Forall own l -> Forall2 says l xs -> Forall no_dashes xs.
Proof. intros Hl Hs. revert Hl. induction Hs as [|i x l xs Hx _ IH]; intros Hl; [constructor|]. apply Forall_cons in Hl as [Hi Hl]. constructor; [by eapply says_no_dashes|by apply IH]. Qed.

Lemma bwrap_ops_app out x rest : Forall no_dashes out -> List.hd_error (e_args x) = Some (B "--") -> bwrap_ops (out ++ x :: rest) = out.
Proof.
  intros Ho Hx. induction Ho as [|o out (f & r & He & Hf) _ IH]; cbn [app bwrap_ops]; [by rewrite bool_decide_true|].
  rewrite bool_decide_false by (rewrite He; cbn; intros [= ->]; by apply Hf). by rewrite IH.
Qed.

Lemma supervisor_leads a socket cmd : exists x rest, supervisor_ops a socket cmd = x :: rest /\ List.hd_error (e_args x) = Some (B "--").
Proof. unfold supervisor_ops. cbn [app]. by do 2 eexists. Qed.

Lemma argv_split out rest : let v := into_argv (mkFinished (out ++ rest) (length out)) in options v = flatten out /\ command v = flatten rest.
Proof.
  unfold into_argv, options, command. cbn [args command_at ops options_]. rewrite take_app_length. unfold flatten. rewrite map_app, concat_app, upto_app, from_app. done.
Qed.

(** The argv that is started and the operations that are shown and swept are the same
    words: both are built or both fail alike and leave the allocator as it was left, and
    bwrap's own options are the operations the sweep looks at, all that come before the
    supervisor. *)
Theorem argv_is_the_operations_shown e home a cmd w :
  rtc step (baseline e home) a ->
  match finish a cmd w, finish_explained a cmd w with
  | Ok (v, w1), Ok (shown, w2) =>
    w1 = w2 /\ args v = flatten shown /\ options v = flatten (bwrap_ops shown) /\
    exists socket, command v = flatten (supervisor_ops a socket cmd) /\ shown = bwrap_ops shown ++ supervisor_ops a socket cmd
  | Err e1, Err e2 => e1 = e2
  | _, _ => False
  end.
Proof.
  intros Hr%reached_confined%confined_own. unfold finish, finish_explained, finish_ops.
  destruct (emit a w) as [[out w1]|] eqn:E; cbn [mbind result_bind]; [|done].
  destruct (allocated (init_socket w1)) as [[socket w2]|]; cbn [mbind result_bind]; [|done]. cbn [ops].
  destruct (supervisor_leads a socket cmd) as (x & rest & Es & Hx).
  pose proof (bwrap_ops_app out x rest (says_all_no_dashes _ _ Hr (emit_all_says _ _ _ _ E)) Hx) as Hb. rewrite <-Es in Hb.
  pose proof (argv_split out (supervisor_ops a socket cmd)) as [Ho Hc].
  split; [done|]. split; [done|]. split; [by rewrite Hb|]. exists socket. by rewrite Hb.
Qed.

(** What the supervisor is to be told: the socket it serves, the terminal, the display server
    and the command. *)
Definition told (a : BwrapArgs) (fd : Z) (cmd : list bytes) : Args.t :=
  Args.mk fd (ctty_ a) (match x11 a with Some (_, argv, _) => Some argv | None => None end) X11_SOCKET
    (match x11 a with Some (_, _, wm) => wm | None => None end) cmd.

Definition x11_wf (a : BwrapArgs) : Prop := match x11 a with Some (_, argv, _) => argv <> [] /\ Spawn.DASHES ∉ argv | None => True end.

(** The words after the supervisor's own path. *)
Definition told_words (a : BwrapArgs) (socket : bytes) (cmd : list bytes) : list bytes :=
  B "--socket-fd" :: socket :: (if ctty_ a then [B "--ctty"] else []) ++
  match x11 a with Some (_, argv, wm) => B "--x11" :: argv ++ Spawn.DASHES :: match wm with Some wm => [B "--wm"; wm] | None => [] end | None => [] end ++
  Spawn.DASHES :: cmd.

Lemma supervisor_words a socket cmd : flatten (supervisor_ops a socket cmd) = B "--" :: INIT_INSIDE :: told_words a socket cmd.
Proof.
  unfold supervisor_ops, flatten, told_words. cbn [app map concat e_args]. do 4 f_equal. rewrite map_app, concat_app. f_equal; [by destruct (ctty_ a)|].
  destruct (x11 a) as [[[o argv] wm]|]; cbn [app map concat e_args]; [|by rewrite app_nil_r]. destruct wm; cbn [app map concat e_args]; rewrite ?app_nil_r, <-!app_assoc; cbn [app]; rewrite <-?app_assoc; done.
Qed.

Lemma told_loop k a fd cmd : 0 <= fd <= I32_MAX -> x11_wf a ->
  Args.parse_loop (5 + k) (told_words a (decimal fd) cmd) (Args.mkPartial None false None None None) =
  Some (Args.mkPartial (Some fd) (ctty_ a) (match x11 a with Some (_, argv, _) => Some argv | None => None end) None (match x11 a with Some (_, _, wm) => wm | None => None end), cmd).
Proof.
  intros Hfd Hx. unfold told_words. cbn [Nat.add]. rewrite ArgsFacts.parse_fd, parse_i32_decimal by (done || (apply utf8_decimal; lia)). cbn [Args.p_ctty Args.p_x11 Args.p_socket Args.p_wm].
  unfold x11_wf in Hx. destruct (ctty_ a); cbn [app]; rewrite ?ArgsFacts.parse_ctty; cbn [Args.p_fd Args.p_ctty Args.p_x11 Args.p_socket Args.p_wm];
    (destruct (x11 a) as [[[o argv] wm]|]; cbn [app]; [destruct Hx as [Hne Hd]|by rewrite ArgsFacts.parse_end]);
    rewrite <-!app_assoc; cbn [app]; rewrite ArgsFacts.parse_x11 by done; cbn [Args.p_fd Args.p_ctty Args.p_x11 Args.p_socket Args.p_wm];
    destruct wm as [wm|]; cbn [app]; rewrite ?ArgsFacts.parse_wm by done; by rewrite ArgsFacts.parse_end.
Qed.

Lemma told_parses a fd cmd : 0 <= fd <= I32_MAX -> cmd <> [] -> x11_wf a -> Args.parse_from (told_words a (decimal fd) cmd) = Some (told a fd cmd).
Proof.
  intros Hfd Hc Hx. unfold Args.parse_from.
  destruct (ArgsFacts.more_fuel (S (length (told_words a (decimal fd) cmd))) 5) as [k ->].
  { unfold told_words. cbn [length]. rewrite !length_app. destruct cmd; [done|]. cbn [length]. lia. }
  rewrite told_loop by done. cbn [mbind option_bind Args.p_x11 Args.p_socket Args.p_wm Args.p_fd Args.p_ctty]. rewrite (bool_decide_false (cmd = [])) by done.
  unfold told. destruct (x11 a) as [[[o argv] wm]|]; reflexivity.
Qed.

(** C23. The supervisor inside the sandbox reads what the launcher wrote for it: whatever the
    sandbox was given, the command part of its argv is a [--], the path the supervisor is
    bound at and words that its own argument parser reads as the socket it serves, whether
    it takes the terminal, the display server with its window manager, and the command
    unchanged. *)
Theorem supervisor_reads_its_arguments a cmd w v w' :
  (forall w s w', init_socket w = Ok (s, w') -> exists fd, 0 <= fd <= I32_MAX /\ s = decimal fd) ->
  x11_wf a -> cmd <> [] -> finish a cmd w = Ok (v, w') ->
  exists fd ws, command v = B "--" :: INIT_INSIDE :: ws /\ Args.parse_from ws = Some (told a fd cmd).
Proof.
  intros Hs Hx Hc Hf. unfold finish, finish_ops in Hf. destruct (emit a w) as [[out w1]|] eqn:E; [|done]. cbn [mbind result_bind] in Hf.
  destruct (init_socket w1) as [[socket w2]|] eqn:Es; [|done]. cbn in Hf. injection Hf as <- <-.
  destruct (Hs _ _ _ Es) as (fd & Hfd & ->). exists fd, (told_words a (decimal fd) cmd).
  destruct (argv_split out (supervisor_ops a (decimal fd) cmd)) as [_ Hcmd]. unfold command in *. rewrite supervisor_words in Hcmd. split; [exact Hcmd|]. by apply told_parses.
Qed.
End Steps.

(** ** A sandbox to run it on *)

Section Demo.
#[local] Instance demo_bwrap_host : Host :=
  {| file_type p := if bool_decide (p = B "/etc/fonts") then Some FileType.Dir else if bool_decide (p = B "/etc/passwd-") then Some FileType.File else None;
     list_dir _ := []; canonicalize _ := None; is_mountpoint _ := None; writable _ := false; read _ := None; current_exe := None; read_link _ := Ok None |}.

(** The allocator of a dry run numbers its descriptors. *)
#[local] Instance demo_alloc : FdAllocator Z :=
  {| data _ n := Ok (decimal n, n + 1); file d _ n := Ok (B "/run/bubbler" ++ d, n + 1); init_socket n := Ok (decimal (Z.max 0 (Z.min n I32_MAX)), n + 1);
     ready_pipe n := Ok (decimal n, n + 1); listener n := Ok (decimal n, n + 1); info_pipe n := Ok (decimal n, n + 1); block_pipe n := Ok (decimal n, n + 1) |}.

Definition demo_sandbox : BwrapArgs :=
  let a := baseline demo_env (B "/data/home") in
  let a := default a (bind_host_etc (tag Origin.Etc a)) in
  let a := share_net (share_net (tag (Origin.Service 0) a)) in
  let a := bind (B "/home/user/Music") (B "/home/bubbler/Music") (tag (Origin.Share 0) a) in
  let a := mask_dir (B "/home/bubbler/Music/private") a in
  let a := bind (B "/home/user/x") (B "/home/bubbler/Music/private/x") a in
  let a := ctty (tag Origin.Ctty a) in
  x11_server [B "Xwayland"; B "-rootless"] (Some (B "twm")) (setenv (B "LANG") (B "C") a).

Lemma demo_etc : bind_host_etc (tag Origin.Etc (baseline demo_env (B "/data/home"))) <> None.
Proof. intros E. vm_compute in E. discriminate E. Qed.

Lemma sandbox_reached : rtc step (baseline demo_env (B "/data/home")) demo_sandbox.
Proof.
  unfold demo_sandbox. cbv zeta. pose proof demo_etc as He. destruct (bind_host_etc _) as [a|] eqn:E; [|done]. cbn [default].
  eapply rtc_l; [apply step_tag|]. eapply rtc_l; [by apply step_host_etc|].
  eapply rtc_l; [apply step_tag|]. eapply rtc_l; [apply step_share_net|]. eapply rtc_l; [apply step_share_net|].
  eapply rtc_l; [apply step_tag|]. eapply rtc_l; [apply step_bind|]. eapply rtc_l; [apply step_mask|]. eapply rtc_l; [apply step_bind|].
  eapply rtc_l; [apply step_tag|]. eapply rtc_l; [apply step_ctty|]. eapply rtc_l; [apply step_setenv|]. eapply rtc_l; [apply step_x11|]. apply rtc_refl.
Qed.

Lemma demo_emits : exists es w', emit demo_sandbox 3 = Ok (es, w').
Proof. do 2 eexists. vm_compute. reflexivity. Qed.

Lemma sandbox_stays_confined_witness : rtc step (baseline demo_env (B "/data/home")) demo_sandbox /\ confined demo_env (B "/data/home") demo_sandbox.
Proof. split; [exact sandbox_reached|]. apply (sandbox_stays_confined demo_env (B "/data/home") demo_sandbox sandbox_reached). Defined.

Lemma masks_cover_grants_witness : exists es w' pre m post d', emit demo_sandbox 3 = Ok (es, w') /\ es = pre ++ m :: post /\
  e_args m = [B "--size"; B "4096"; B "--tmpfs"; d'] /\ Path.starts_with (B "/home/bubbler/Music/private/x") d' = true /\
  Forall (fun x => covers (B "/home/bubbler/Music/private/x") x = false) post.
Proof.
  destruct demo_emits as (es & w' & He). exists es, w'.
  destruct (masks_cover_grants demo_env (B "/data/home") demo_sandbox 3 es w' (B "/home/bubbler/Music/private") (B "/home/bubbler/Music/private/x") sandbox_reached He)
    as (pre & m & post & d' & Hes & Hm); [vm_compute; by left|vm_compute; reflexivity|]. by exists pre, m, post, d'.
Defined.

Lemma argv_is_the_operations_shown_witness : rtc step (baseline demo_env (B "/data/home")) demo_sandbox /\
  match finish demo_sandbox [B "app"] 3, finish_explained demo_sandbox [B "app"] 3 with
  | Ok (v, _), Ok (shown, _) => args v = flatten shown /\ options v = flatten (bwrap_ops shown)
  | _, _ => False
  end.
Proof.
  split; [exact sandbox_reached|]. pose proof (argv_is_the_operations_shown demo_env (B "/data/home") demo_sandbox [B "app"] 3 sandbox_reached) as Ha.
  assert (match finish demo_sandbox [B "app"] 3 with Ok _ => True | Err _ => False end) as Hok by (vm_compute; exact I).
  destruct (finish demo_sandbox [B "app"] 3) as [[v w1]|]; [|destruct Hok]. destruct (finish_explained demo_sandbox [B "app"] 3) as [[shown w2]|]; [|destruct Ha].
  destruct Ha as (_ & Ha & Ho & _). exact (conj Ha Ho).
Defined.

Lemma demo_socket w s w' : init_socket w = Ok (s, w') -> exists fd, 0 <= fd <= I32_MAX /\ s = decimal fd.
Proof. intros [= <- <-]. exists (Z.max 0 (Z.min w I32_MAX)). split; [unfold I32_MAX; lia|done]. Qed.

Lemma demo_x11 : x11_wf demo_sandbox.
Proof. vm_compute. split; [done|]. intros Hin. repeat (apply elem_of_cons in Hin as [Hin|Hin]; [discriminate Hin|]). by apply elem_of_nil in Hin. Qed.

Lemma supervisor_reads_its_arguments_witness : exists v w' fd ws, finish demo_sandbox [B "app"; B "--help"] 3 = Ok (v, w') /\
  command v = B "--" :: INIT_INSIDE :: ws /\ Args.parse_from ws = Some (Args.mk fd true (Some [B "Xwayland"; B "-rootless"]) X11_SOCKET (Some (B "twm")) [B "app"; B "--help"]).
Proof.
  assert (exists v w', finish demo_sandbox [B "app"; B "--help"] 3 = Ok (v, w')) as (v & w' & Hf) by (do 2 eexists; vm_compute; reflexivity).
  destruct (supervisor_reads_its_arguments demo_sandbox [B "app"; B "--help"] 3 v w' demo_socket demo_x11 ltac:(discriminate) Hf) as (fd & ws & Hc & Ht).
  exists v, w', fd, ws. split; [exact Hf|]. split; [exact Hc|]. rewrite Ht. unfold told. vm_compute. reflexivity.
Defined.
End Demo.
