(* ===== verification/DbusPlan.v ===== *)
(** What the filtering bus sidecar is told (bubbler-core/src/dbus.rs): the rules of each bus,
    the identity file, where the filtered sockets are, which host socket an address of the
    environment names, and the command line of the proxy; with the names and runtime paths
    of an instance (instance.rs, launcher.rs) it is made from. *)
From S2P Require Export Bwrap.

Module Dbus.
Definition PROXY_BIN : bytes := B "xdg-dbus-proxy".
Definition SESSION_SOCKET : bytes := B "bus".
Definition SYSTEM_SOCKET : bytes := B "system".
Definition SESSION_NODE : bytes := B "dbus".
Definition SYSTEM_NODE : bytes := B "system-bus".
Definition A11Y_SOCKET : bytes := B "a11y".
Definition A11Y_NODE : bytes := B "a11y".
Definition SYSTEM_BUS_PATH : bytes := B "/run/dbus/system_bus_socket".
Definition FLATPAK_INFO : bytes := B "/.flatpak-info".
Definition FLATPAK_DIR : bytes := B ".flatpak".
Definition DESKTOP_PATH : bytes := B "/org/freedesktop/portal/desktop".
Definition REQUEST_PATH : bytes := B "/org/freedesktop/portal/desktop/request/*".
Definition SESSION_PATH : bytes := B "/org/freedesktop/portal/desktop/session/*".
(** [launcher::RUNTIME_SUBDIR]. *)
Definition RUNTIME_SUBDIR : bytes := B "bubbler".

(** ** Rules *)

Definition PORTAL_SAFE : list bytes :=
  [B "FileChooser"; B "OpenURI"; B "Notification"; B "Settings"; B "Print"; B "Email"; B "Trash"; B "Account"; B "Inhibit";
   B "ProxyResolver"; B "NetworkMonitor"; B "MemoryMonitor"; B "PowerProfileMonitor"; B "Realtime"; B "GameMode"].

Definition DESKTOP : bytes := B "=org.freedesktop.portal.Desktop=".

Definition portal_call (iface : bytes) : bytes := B "--call" ++ DESKTOP ++ B "org.freedesktop.portal." ++ iface ++ B ".*@" ++ DESKTOP_PATH.
Definition portal_broadcast (iface : bytes) : bytes := B "--broadcast" ++ DESKTOP ++ B "org.freedesktop.portal." ++ iface ++ B ".*@" ++ DESKTOP_PATH.

(** The rules of the objects a call or a session makes. *)
Definition object_rules (option_ : bytes) : list bytes :=
  map (fun o => option_ ++ DESKTOP ++ B "org.freedesktop.portal." ++ o.1 ++ B ".*@" ++ o.2) [(B "Request", REQUEST_PATH); (B "Session", SESSION_PATH)].

Definition portal_rules (children : list Portal.t) : list bytes :=
  let ifaces := PORTAL_SAFE ++ concat (map Portal.interfaces children) in
  map portal_call ifaces ++ [B "--call=org.freedesktop.portal.Documents=*"] ++
  map portal_broadcast ifaces ++ [B "--broadcast=org.freedesktop.portal.Documents=*"] ++
  object_rules (B "--call") ++ object_rules (B "--broadcast") ++
  [B "--call" ++ DESKTOP ++ B "org.freedesktop.DBus.Properties.Get@" ++ DESKTOP_PATH;
   B "--call" ++ DESKTOP ++ B "org.freedesktop.DBus.Properties.GetAll@" ++ DESKTOP_PATH;
   B "--call" ++ DESKTOP ++ B "org.freedesktop.DBus.Introspectable.Introspect@" ++ DESKTOP_PATH].

Definition camera_rules : list bytes := [portal_call (B "Camera"); portal_broadcast (B "Camera")].

Definition INPUT_METHOD_RULES : list bytes := [B "--talk=org.freedesktop.portal.Fcitx"; B "--talk=org.freedesktop.portal.IBus"].

Definition A11Y_RULES : list bytes :=
  [B "--call=org.a11y.atspi.Registry=org.a11y.atspi.Socket.Embed@/org/a11y/atspi/accessible/root";
   B "--call=org.a11y.atspi.Registry=org.a11y.atspi.Socket.Unembed@/org/a11y/atspi/accessible/root";
   B "--call=org.a11y.atspi.Registry=org.a11y.atspi.Registry.GetRegisteredEvents@/org/a11y/atspi/registry";
   B "--call=org.a11y.atspi.Registry=org.a11y.atspi.DeviceEventController.GetKeystrokeListeners@/org/a11y/atspi/registry/deviceeventcontroller";
   B "--call=org.a11y.atspi.Registry=org.a11y.atspi.DeviceEventController.GetDeviceEventListeners@/org/a11y/atspi/registry/deviceeventcontroller";
   B "--call=org.a11y.atspi.Registry=org.a11y.atspi.DeviceEventController.NotifyListenersSync@/org/a11y/atspi/registry/deviceeventcontroller";
   B "--call=org.a11y.atspi.Registry=org.a11y.atspi.DeviceEventController.NotifyListenersAsync@/org/a11y/atspi/registry/deviceeventcontroller";
   B "--broadcast=org.a11y.atspi.Registry=org.a11y.atspi.Registry.EventListenerRegistered@/org/a11y/atspi/registry";
   B "--broadcast=org.a11y.atspi.Registry=org.a11y.atspi.Registry.EventListenerDeregistered@/org/a11y/atspi/registry"].

Record Rule := mkRule { arg : bytes; node : nat }.
Record Section_ := mkSection { s_node : nat; rules : list Rule }.
Record Plan := mkPlan { session : option Section_; system : option Section_; a11y : option Section_;
                        flatpak_info_ : bytes; portals : bool; app_id_ : bytes }.

Definition buses (p : Plan) : list (bytes * bytes) :=
  (if session p then [(SESSION_SOCKET, SESSION_NODE)] else []) ++
  (if system p then [(SYSTEM_SOCKET, SYSTEM_NODE)] else []) ++
  (if a11y p then [(A11Y_SOCKET, A11Y_NODE)] else []).

Definition render (r : BusRule.t) : bytes :=
  match r with
  | BusRule.See n => B "--see=" ++ n
  | BusRule.Talk n => B "--talk=" ++ n
  | BusRule.Own n => B "--own=" ++ n
  | BusRule.Call n r => B "--call=" ++ n ++ B "=" ++ r
  | BusRule.Broadcast n r => B "--broadcast=" ++ n ++ B "=" ++ r
  end.

(** Appends a rule unless it is there. *)
Definition push (node_ : nat) (rules : list Rule) (rule : bytes) : list Rule :=
  if existsb (fun r => bool_decide (arg r = rule)) rules then rules else rules ++ [mkRule rule node_].

Definition explicit_rules (l : list BusRule.t) (node_ : nat) : list Rule := fold_left (push node_) (map render l) [].

(** What a service adds to the rules of the session bus. *)
Definition bundle (s : Service.t) : list bytes :=
  match s with
  | Service.Portals children => portal_rules children
  | Service.Notify => [B "--talk=org.freedesktop.Notifications"]
  | Service.Tray => [B "--talk=org.kde.StatusNotifierWatcher"]
  | Service.InputMethod => INPUT_METHOD_RULES
  | Service.Mpris name => [B "--own=org.mpris.MediaPlayer2." ++ name]
  | Service.Camera _ => camera_rules
  | Service.Wayland _ | Service.X11 _ | Service.Network _ | Service.Dri _ | Service.Pipewire _ | Service.Pulseaudio _
  | Service.Gamepad _ _ | Service.Hidraw | Service.HomeShare _ _ _ | Service.PathShare _ _ _ | Service.EtcShare _
  | Service.Dbus _ | Service.SystemBus _ | Service.AppRuntime _ _ | Service.A11y => []
  end.

Fixpoint bundles (i : nat) (l : list Service.t) (rules : list Rule) : list Rule :=
  match l with
  | [] => rules
  | s :: l => bundles (S i) l (fold_left (push i) (bundle s) rules)
  end.

(** [enumerate().find_map(f)]. *)
Fixpoint find_map {A} (f : Service.t -> option A) (i : nat) (l : list Service.t) : option (nat * A) :=
  match l with
  | [] => None
  | s :: l => match f s with Some a => Some (i, a) | None => find_map f (S i) l end
  end.

Definition dbus_of (s : Service.t) : option (list BusRule.t) := match s with Service.Dbus rules => Some rules | _ => None end.
Definition system_of (s : Service.t) : option (list BusRule.t) := match s with Service.SystemBus rules => Some rules | _ => None end.
Definition a11y_of (s : Service.t) : option unit := match s with Service.A11y => Some tt | _ => None end.

(** ** Who the sandbox is *)

Definition digit_first (s : bytes) : bool := match s with b :: _ => is_ascii_digit b | [] => false end.

Definition app_id (instance : bytes) : bytes :=
  let tail := map (fun b => if bool_decide (b = DOT) then UNDERSCORE else b) instance in
  B "org.bubbler." ++ (if digit_first tail then UNDERSCORE :: tail else tail).

Definition flatpak_instance_id (instance : bytes) : bytes := B "bubbler-" ++ instance.

Definition flatpak_info (instance : bytes) (portals : bool) : bytes :=
  B "[Application]" ++ [LF] ++ B "name=" ++ app_id instance ++ [LF] ++
  (if portals then [LF] ++ B "[Instance]" ++ [LF] ++ B "instance-id=" ++ flatpak_instance_id instance ++ [LF] else []).

Definition flatpak_instance_dir (env : Env) (instance : bytes) : bytes :=
  Path.join (Path.join (runtime_dir env) FLATPAK_DIR) (flatpak_instance_id instance).

Definition plan (services : list Service.t) (instance : bytes) : option Plan :=
  let session := find_map dbus_of 0 services in
  let system := find_map system_of 0 services in
  match session, system with
  | None, None => None
  | _, _ =>
    let portals := existsb is_portals services in
    Some (mkPlan
      ((fun d => mkSection d.1 (bundles 0 services (explicit_rules d.2 d.1))) <$> session)
      ((fun d => mkSection d.1 (explicit_rules d.2 d.1)) <$> system)
      ((fun d => mkSection d.1 (fold_left (push d.1) A11Y_RULES [])) <$> find_map a11y_of 0 services)
      (flatpak_info instance portals) portals (app_id instance))
  end.

(** ** Where the sockets are *)

(** [launcher::instance_runtime_dir]. *)
Definition instance_runtime_dir (env : Env) (instance : bytes) : bytes := Path.join (Path.join (runtime_dir env) RUNTIME_SUBDIR) instance.

Definition socket_dir (instance_runtime : bytes) : bytes := Path.join instance_runtime (B "dbus").
Definition proxy_bus_path (instance_runtime socket : bytes) : bytes := Path.join (socket_dir instance_runtime) socket.
Definition app_bus_path (instance_runtime socket : bytes) : bytes := Path.join instance_runtime socket.

(** The path of a [unix:path=] address. *)
Definition COMMA : byte := Init.Byte.x2c.
Definition EQUALS : byte := Init.Byte.x3d.

Fixpoint until (sep : byte) (l : bytes) : bytes :=
  match l with b :: l => if bool_decide (b = sep) then [] else b :: until sep l | [] => [] end.

Definition unix_path (address : bytes) : option bytes :=
  rest ← Bytes.strip_prefix (B "unix:path=") address;
  let path := until COMMA rest in
  if bool_decide (path = []) then None else Some path.

Definition address_path (address : option bytes) (var service : bytes) : result LaunchError.t (option bytes) :=
  match address with
  | Some (_ :: _ as a) =>
    match unix_path a with
    | Some p => Ok (Some p)
    | None => Err (LaunchError.BadValue service
        (B "$" ++ var ++ B " names no Unix socket path; bubbler can proxy only a `unix:path=<path>` address"))
    end
  | _ => Ok None
  end.

Definition host_bus (env : Env) : result LaunchError.t bytes :=
  p ← address_path (dbus_address env) (B "DBUS_SESSION_BUS_ADDRESS") (B "dbus");
  Ok (default (Path.join (runtime_dir env) (B "bus")) p).

Definition host_system_bus (env : Env) : result LaunchError.t bytes :=
  p ← address_path (dbus_system_address env) (B "DBUS_SYSTEM_BUS_ADDRESS") (B "system-bus");
  Ok (default SYSTEM_BUS_PATH p).

(** A path without [.] and [..]: [PathBuf::pop] and [push]. *)
Definition lexical_step (out : bytes) (c : component) : bytes :=
  match c with
  | CurDir => out
  | ParentDir => default out (Path.parent out)
  | RootDir => Path.join out [SLASH]
  | Normal s => Path.join out s
  end.
Definition lexical (p : bytes) : bytes := fold_left lexical_step (components p) [].

Section Resolve.
Context `{Host}.

Definition resolve (p : bytes) : bytes :=
  match canonicalize p with
  | Some real => lexical real
  | None =>
    match Path.parent p, Path.file_name p with
    | Some dir, Some name => match canonicalize dir with Some real => Path.join (lexical real) name | None => lexical p end
    | _, _ => lexical p
    end
  end.

Definition outside_our_runtime (env : Env) (node_ : bytes) (p : bytes) : result LaunchError.t bytes :=
  let ours := resolve (Path.join (runtime_dir env) RUNTIME_SUBDIR) in
  let p := resolve p in
  if Path.starts_with p ours then
    Err (LaunchError.BadValue node_ (B "the host bus address names a socket under bubbler's own runtime directory"))
  else Ok p.

Definition guarded_host_bus (env : Env) : result LaunchError.t bytes := p ← host_bus env; outside_our_runtime env SESSION_NODE p.
Definition guarded_host_system_bus (env : Env) : result LaunchError.t bytes := p ← host_system_bus env; outside_our_runtime env SYSTEM_NODE p.
End Resolve.

(** ** The proxy's command *)

Definition proxy_program (env : Env) : bytes := default PROXY_BIN (proxy_override env).

Record HostBuses := mkBuses { b_session : option bytes; b_system : option bytes; b_a11y : option bytes }.

Definition bus_nodes (instance_runtime : bytes) (log : bool) (b : option Section_ * option bytes * bytes) : list (bytes * option nat) :=
  match b with
  | (Some section, Some host, socket) =>
    let n := Some (s_node section) in
    [(B "unix:path=" ++ host, n); (proxy_bus_path instance_runtime socket, n); (B "--filter", n)] ++
    (if log then [(B "--log", n)] else []) ++ map (fun r => (arg r, Some (node r))) (rules section)
  | _ => []
  end.

Definition proxy_command_nodes (program : bytes) (p : Plan) (b : HostBuses) (instance_runtime : bytes) (log : bool) (ready_fd : bytes)
  : list (bytes * option nat) :=
  [(program, None); (B "--fd=" ++ ready_fd, None)] ++
  concat (map (bus_nodes instance_runtime log)
    [(session p, b_session b, SESSION_SOCKET); (system p, b_system b, SYSTEM_SOCKET); (a11y p, b_a11y b, A11Y_SOCKET)]).

Definition proxy_command (program : bytes) (p : Plan) (b : HostBuses) (instance_runtime : bytes) (log : bool) (ready_fd : bytes) : list bytes :=
  map fst (proxy_command_nodes program p b instance_runtime log ready_fd).
End Dbus.
