(* ===== verification/Sidecar.v ===== *)
(** The processes beside a sandbox: what the Wayland proxy and the two audio servers are told
    (bubbler-core/src/wayland.rs, pipewire.rs), the command line the Wayland proxy reads
    (bubbler-wl-proxy/src/main.rs), and the names and sockets of an instance (instance.rs). *)
From S2P Require Import WlPolicy SafeText.
From S2P Require Export DbusPlan.

(** ** The Wayland proxy *)

Module Wayland.
Definition ENGINE : bytes := B "org.bubbler".
Definition SOCKET_NAME : bytes := B "wayland".
Definition CONTEXT_SOCKET_NAME : bytes := B "wayland-context".
Definition PROXY_NAME : bytes := B "bubbler-wl-proxy".
Definition PROXY_BIN : bytes := B "/usr/lib/bubbler/bubbler-wl-proxy".

Definition locate_proxy `{Host} (env : Env) : result LaunchError.t (bytes * Found) :=
  locate_binary (wl_proxy_override env) PROXY_NAME PROXY_BIN (B "wayland").

Inductive WaylandPlan := Proxy (socket : bytes) | Host_.

Definition socket_path (instance_runtime : bytes) : bytes := Path.join instance_runtime SOCKET_NAME.
Definition context_socket_path (instance_runtime : bytes) : bytes := Path.join instance_runtime CONTEXT_SOCKET_NAME.

Definition plan (mode : WaylandMode.t) (instance_runtime : bytes) : WaylandPlan :=
  match mode with
  | WaylandMode.Host => Host_
  | WaylandMode.Sandboxed _ => Proxy (socket_path instance_runtime)
  end.

Record ProxyPlan := mkPlan { listener : bytes; upstream : bytes; context_ : bool; clipboard : Clipboard.t }.

Definition context (instance_runtime : bytes) (c : Clipboard.t) : ProxyPlan :=
  mkPlan (socket_path instance_runtime) (context_socket_path instance_runtime) true c.
Definition fallback (instance_runtime session : bytes) (c : Clipboard.t) : ProxyPlan :=
  mkPlan (socket_path instance_runtime) session false c.

Definition gate (p : ProxyPlan) : bytes := match clipboard p with Clipboard.Paste => B "paste" | Clipboard.Open => B "open" end.

Definition command_nodes (p : ProxyPlan) (program : bytes) (node : nat) (listen_fd ready_fd : bytes) : list (bytes * option nat) :=
  [(program, None); (B "--listen-fd", None); (listen_fd, None); (B "--upstream", None); (upstream p, None);
   (B "--gate", Some node); (gate p, Some node)] ++
  (if context_ p then [] else [(B "--fallback-deny", None)]) ++
  [(B "--log-fd", None); (B "2", None); (B "--ready-fd", None); (ready_fd, None)].

(** [refuse_inherited]: whether a connection was inherited. *)
Definition refuse_inherited (socket : option bytes) : bool := match socket with Some _ => true | None => false end.
End Wayland.

(** ** What the Wayland proxy reads *)

Module WlProxy.
Record Args := mkArgs { listen_fd : Z; upstream : bytes; gate : WlPolicy.Gate; fallback_deny : bool; log_fd : option Z; ready_fd : option Z }.

#[global] Instance Args_eq_dec : EqDecision Args.
Proof. solve_decision. Defined.

Definition number (word : bytes) : option Z :=
  fd ← (if utf8_valid word then parse_i32 word else None);
  if fd >=? 0 then Some fd else None.

(** What the loop has read so far. *)
Record partial := mkPartial {
  p_listen : option Z; p_upstream : option bytes; p_gate : option WlPolicy.Gate; p_deny : bool; p_log : option Z; p_ready : option Z }.

Fixpoint parse_loop (fuel : nat) (it : list bytes) (p : partial) : option partial :=
  match fuel with
  | O => None
  | S fuel =>
    match it with
    | [] => Some p
    | word :: it =>
      if negb (utf8_valid word) then None
      else if bool_decide (word = B "--listen-fd") && bool_decide (p_listen p = None) then
        match it with
        | v :: it => fd ← number v; parse_loop fuel it (mkPartial (Some fd) (p_upstream p) (p_gate p) (p_deny p) (p_log p) (p_ready p))
        | [] => None
        end
      else if bool_decide (word = B "--upstream") && bool_decide (p_upstream p = None) then
        match it with
        | v :: it => parse_loop fuel it (mkPartial (p_listen p) (Some v) (p_gate p) (p_deny p) (p_log p) (p_ready p))
        | [] => None
        end
      else if bool_decide (word = B "--gate") && bool_decide (p_gate p = None) then
        match it with
        | v :: it =>
          g ← (if bool_decide (v = B "paste") then Some WlPolicy.Paste else if bool_decide (v = B "open") then Some WlPolicy.Open else None);
          parse_loop fuel it (mkPartial (p_listen p) (p_upstream p) (Some g) (p_deny p) (p_log p) (p_ready p))
        | [] => None
        end
      else if bool_decide (word = B "--fallback-deny") && negb (p_deny p) then
        parse_loop fuel it (mkPartial (p_listen p) (p_upstream p) (p_gate p) true (p_log p) (p_ready p))
      else if bool_decide (word = B "--log-fd") && bool_decide (p_log p = None) then
        match it with
        | v :: it => fd ← number v; parse_loop fuel it (mkPartial (p_listen p) (p_upstream p) (p_gate p) (p_deny p) (Some fd) (p_ready p))
        | [] => None
        end
      else if bool_decide (word = B "--ready-fd") && bool_decide (p_ready p = None) then
        match it with
        | v :: it => fd ← number v; parse_loop fuel it (mkPartial (p_listen p) (p_upstream p) (p_gate p) (p_deny p) (p_log p) (Some fd))
        | [] => None
        end
      else None
    end
  end.

(** No descriptor is named twice. *)
Fixpoint distinct (l : list Z) : bool := match l with fd :: l => negb (bool_decide (fd ∈ l)) && distinct l | [] => true end.

Definition parse_from (it : list bytes) : option Args :=
  p ← parse_loop (S (length it)) it (mkPartial None None None false None None);
  listen ← p_listen p; up ← p_upstream p; g ← p_gate p;
  if distinct (listen :: omap (fun o => o) [p_log p; p_ready p]) then Some (mkArgs listen up g (p_deny p) (p_log p) (p_ready p)) else None.
End WlProxy.

(** ** The audio servers *)

Module Pipewire.
Definition ENGINE : bytes := B "org.bubbler".
Definition ACCESS : bytes := B "restricted".
Definition PW_CONTAINER : bytes := B "/usr/bin/pw-container".
Definition HOLDER_INSIDE : bytes := B "/run/bubbler-pw-hold".
Definition REPORT_FD : bytes := B "BUBBLER_PW_REPORT_FD".
Definition SOCKET_NAME : bytes := B "pipewire-0".
Definition RUN_ID_SHOWN : bytes := B "<run id>".
Definition PIPEWIRE : bytes := B "/usr/bin/pipewire".
Definition PULSE_MODULE : bytes := B "/usr/lib/pipewire-0.3/libpipewire-module-protocol-pulse.so".
Definition PULSE_CONF : bytes := B "pipewire-pulse.conf".
Definition PULSE_CONFIG_INSIDE : bytes := B "/tmp/cfg".
Definition PULSE_ADOPTED : bytes := B "pulse-native".
Definition REMOTE_INSIDE : bytes := B "/run/pipewire-0".

(** [AudioSet] is whether there is a microphone. *)
Record Context := mkContext { instance_runtime : bytes; instance : bytes; run_id : bytes; microphone : bool }.

Definition host_socket (runtime_dir : bytes) : bytes := Path.join runtime_dir SOCKET_NAME.
Definition dir (instance_runtime : bytes) : bytes := Path.join instance_runtime (B "pw").
Definition socket (instance_runtime : bytes) : bytes := Path.join instance_runtime SOCKET_NAME.
Definition pulse_dir (instance_runtime : bytes) : bytes := Path.join instance_runtime (B "pwpulse").
Definition pulse_socket_dir (instance_runtime : bytes) : bytes := Path.join (pulse_dir instance_runtime) (B "pulse").
Definition pulse_socket (instance_runtime : bytes) : bytes := Path.join instance_runtime PULSE_ADOPTED.
Definition pulse_config_dir (instance_runtime : bytes) : bytes := Path.join (pulse_dir instance_runtime) (B "cfg").

Definition pulse_conf_dirs (config_home : bytes) : list bytes :=
  [Path.join config_home (B "pipewire"); B "/etc/pipewire"; B "/usr/share/pipewire"].

Definition pulse_conf `{Host} (config_home : bytes) : option bytes :=
  List.find (is_type FileType.File) (map (fun d => Path.join d PULSE_CONF) (pulse_conf_dirs config_home)).

Definition pulse_command : list bytes := [PIPEWIRE; B "-c"; PULSE_CONF].

Definition grant (microphone : bool) : bytes := if microphone then B "playback,microphone" else B "playback".

Definition properties (instance run_id : bytes) (microphone : bool) : bytes :=
  let pairs := [(B "pipewire.sec.engine", ENGINE); (B "pipewire.sec.app-id", instance); (B "pipewire.sec.instance-id", run_id);
                (B "pipewire.access", ACCESS); (B "pipewire.sec.bubbler.audio", grant microphone)] in
  B "{" ++ join (B ",") (map (fun kv => json_string kv.1 ++ B ":" ++ json_string kv.2) pairs) ++ B "}".

Definition command (properties : bytes) : list bytes := [PW_CONTAINER; B "-P"; properties; B "--"; HOLDER_INSIDE].
End Pipewire.

(** ** The name of an instance *)

Module Instance_.
Inductive InstanceError := InvalidName (name : bytes) | SocketPathTooLong (p : bytes).

Definition is_try_name (name : bytes) : bool :=
  match Bytes.strip_prefix (B "try-") name with
  | Some pid => negb (bool_decide (pid = [])) && forallb is_ascii_digit pid
  | None => false
  end.

Definition validate_name (name : bytes) : result InstanceError unit :=
  if is_plain_name name && negb (is_try_name name) then Ok tt else Err (InvalidName name).

Definition SUN_PATH_MAX : Z := 108.

(** [exec::SOCKET_NAME]. *)
Definition EXEC_SOCKET : bytes := B "init.sock".

Definition checked_sockets (runtime : bytes) : list bytes :=
  [Dbus.proxy_bus_path runtime Dbus.SYSTEM_SOCKET; Dbus.proxy_bus_path runtime Dbus.SESSION_SOCKET; Path.join runtime EXEC_SOCKET;
   Dbus.app_bus_path runtime Dbus.SYSTEM_SOCKET; Dbus.app_bus_path runtime Dbus.SESSION_SOCKET].

Definition check_socket_paths (env : Env) (name : bytes) : result InstanceError unit :=
  match List.find (fun p => len p + 1 >? SUN_PATH_MAX) (checked_sockets (Dbus.instance_runtime_dir env name)) with
  | Some p => Err (SocketPathTooLong p)
  | None => Ok tt
  end.
End Instance_.
