(* ===== verification/DbusSpec.v ===== *)
(** What the sidecars are told is what the configuration grants: the rules of a bus come from
    the nodes that name it, the bus proxy and the Wayland proxy read their command lines as
    they are meant, and an instance has an application id a portal accepts. *)
From S2P Require Import WlPolicy.
From S2P Require Export Sidecar Sweep.
Import Dbus.

(** ** Rules *)

Lemma push_elem n rules rule r : r ∈ push n rules rule <-> r ∈ rules \/ (r = mkRule rule n /\ rule ∉ map arg rules).
Proof.
  unfold push. destruct (existsb _ rules) eqn:E.
  - apply existsb_exists in E as (x & Hx%list_elem_of_In & Hr). apply bool_decide_eq_true in Hr. split; [by left|]. intros [?|(-> & Hn)]; [done|].
    exfalso. apply Hn, list_elem_of_fmap. by exists x.
  - rewrite elem_of_app, list_elem_of_singleton. split; intros [?|Hr]; try by left.
    + right. split; [done|]. intros (x & -> & Hx)%list_elem_of_fmap.
      assert (existsb (fun r => bool_decide (arg r = arg x)) rules = true) as Ht by (apply existsb_exists; exists x; split; [by apply list_elem_of_In|by apply bool_decide_eq_true]). congruence.
    + right. apply Hr.
Qed.

Lemma rule_push_nodup n rules rule : NoDup (map arg rules) -> NoDup (map arg (push n rules rule)).
Proof.
  intros Hn. unfold push. destruct (existsb _ rules) eqn:E; [done|]. rewrite map_app. apply NoDup_app. split; [done|]. split; [|repeat constructor; by apply not_elem_of_nil].
  intros x Hx Hs. apply list_elem_of_singleton in Hs as ->. cbn in Hx. apply list_elem_of_fmap in Hx as (y & Hy & Hin).
  assert (existsb (fun r => bool_decide (arg r = rule)) rules = true) as Ht by (apply existsb_exists; exists y; split; [by apply list_elem_of_In|by apply bool_decide_eq_true]). congruence.
Qed.

(** What a list of rules has after more were pushed by a node. *)
Lemma pushes_elem n l rules r : r ∈ fold_left (push n) l rules <-> r ∈ rules \/ (node r = n /\ arg r ∈ l /\ arg r ∉ map arg rules).
Proof.
  revert rules. induction l as [|a l IH]; intros rules; cbn [fold_left].
  - split; [by left|]. intros [?|(_ & Hn & _)]; [done|by apply elem_of_nil in Hn].
  - rewrite IH, push_elem. split.
    + intros [[?|(-> & Hn)]|(<- & Hl & Hn)]; [by left|right; split; [done|]; split; [by left|done]|].
      right. split; [done|]. split; [by right|]. intros (x & Hx & Hin)%list_elem_of_fmap. apply Hn, list_elem_of_fmap. exists x. split; [done|]. apply push_elem. by left.
    + intros [?|(<- & Hl & Hn)]; [left; by left|]. destruct (decide (arg r = a)) as [<-|Hne]; [left; right; by destruct r|].
      right. split; [done|]. split; [by apply elem_of_cons in Hl as [?|?]|]. intros (x & Hx & Hin)%list_elem_of_fmap. apply push_elem in Hin as [Hin|(-> & _)]; [|by cbn in Hx].
      apply Hn, list_elem_of_fmap. by exists x.
Qed.

Lemma pushes_args n l rules s : s ∈ map arg (fold_left (push n) l rules) <-> s ∈ map arg rules \/ s ∈ l.
Proof.
  split.
  - intros (r & -> & Hr)%list_elem_of_fmap. apply pushes_elem in Hr as [Hr|(_ & Hl & _)]; [left; apply list_elem_of_fmap; by exists r|by right].
  - intros Hs. destruct (decide (s ∈ map arg rules)) as [Hin|Hn].
    + apply list_elem_of_fmap in Hin as (r & -> & Hr). apply list_elem_of_fmap. exists r. split; [done|]. apply pushes_elem. by left.
    + destruct Hs as [?|Hl]; [done|]. apply list_elem_of_fmap. exists (mkRule s n). split; [done|]. apply pushes_elem. by right.
Qed.

Lemma pushes_nodup n l rules : NoDup (map arg rules) -> NoDup (map arg (fold_left (push n) l rules)).
Proof. revert rules. induction l as [|a l IH]; intros rules Hn; cbn [fold_left]; [done|]. by apply IH, rule_push_nodup. Qed.

(** The bundles of the services from [i] on. *)
Lemma bundles_elem i l rules r : r ∈ bundles i l rules <->
  r ∈ rules \/ (arg r ∉ map arg rules /\ exists k s, l !! k = Some s /\ node r = (i + k)%nat /\ arg r ∈ bundle s /\
                forall j t, (j < k)%nat -> l !! j = Some t -> arg r ∉ bundle t).
Proof.
  revert i rules. induction l as [|s l IH]; intros i rules; cbn [bundles].
  - split; [by left|]. by intros [?|(_ & k & s & Hk & _)].
  - rewrite IH, pushes_elem. split.
    + intros [[?|(Hn & Hb & Hr)]|(Hr & k & t & Hk & Hn & Hb & Hf)]; [by left| |].
      * right. split; [done|]. exists 0%nat, s. rewrite Nat.add_0_r. repeat split; try done. intros j t Hj. lia.
      * assert (arg r ∉ map arg rules /\ arg r ∉ bundle s) as [Hnr Hns] by (split; intros Hin; apply Hr, pushes_args; [by left|by right]).
        right. split; [done|]. exists (S k), t. repeat split; try done; [lia|]. intros [|j] u Hj Hu; [by injection Hu as <-|]. apply (Hf j u); [lia|done].
    + intros [?|(Hr & [|k] & t & Hk & Hn & Hb & Hf)]; [left; by left| |].
      * injection Hk as <-. left. right. split; [lia|]. by split.
      * right. split; [|exists k, t; repeat split; try done; [lia|]; intros j u Hj Hu; apply (Hf (S j) u); [lia|done]].
        intros [Hin|Hin]%pushes_args; [done|]. by apply (Hf 0%nat s) in Hin; [..|lia|].
Qed.

Lemma bundles_nodup i l rules : NoDup (map arg rules) -> NoDup (map arg (bundles i l rules)).
Proof. revert i rules. induction l as [|s l IH]; intros i rules Hn; cbn [bundles]; [done|]. by apply IH, pushes_nodup. Qed.

Lemma find_map_some {A} (f : Service.t -> option A) i l n a : find_map f i l = Some (n, a) ->
  exists k s, n = (i + k)%nat /\ l !! k = Some s /\ f s = Some a /\ forall j t, (j < k)%nat -> l !! j = Some t -> f t = None.
Proof.
  revert i. induction l as [|s l IH]; intros i Hf; cbn [find_map] in Hf; [done|]. destruct (f s) as [b|] eqn:E.
  - injection Hf as <- <-. exists 0%nat, s. rewrite Nat.add_0_r. repeat split; try done. intros j t Hj. lia.
  - apply IH in Hf as (k & t & -> & Hk & Ht & Hn). exists (S k), t. repeat split; try done; [lia|]. intros [|j] u Hj Hu; [by injection Hu as <-|]. apply (Hn j u); [lia|done].
Qed.

Lemma find_map_none {A} (f : Service.t -> option A) i l : find_map f i l = None <-> Forall (fun s => f s = None) l.
Proof. revert i. induction l as [|s l IH]; intros i; cbn [find_map]; [by split|]. rewrite Forall_cons, <-(IH (S i)). destruct (f s); naive_solver. Qed.

Lemma explicit_elem l n r : r ∈ explicit_rules l n <-> node r = n /\ arg r ∈ map render l.
Proof.
  unfold explicit_rules. rewrite pushes_elem. split; [intros [Hn|(? & ? & _)]; [by apply elem_of_nil in Hn|done]|]. intros [? ?]. right. split; [done|]. split; [done|]. apply not_elem_of_nil.
Qed.

Lemma plan_parts services instance p : plan services instance = Some p ->
  session p = (fun d => mkSection d.1 (bundles 0 services (explicit_rules d.2 d.1))) <$> find_map dbus_of 0 services /\
  system p = (fun d => mkSection d.1 (explicit_rules d.2 d.1)) <$> find_map system_of 0 services /\
  a11y p = (fun d => mkSection d.1 (fold_left (push d.1) A11Y_RULES [])) <$> find_map a11y_of 0 services.
Proof. unfold plan. case_match; [|case_match]; intros Hp; simplify_eq/=; done. Qed.

Lemma pushes_elem_nil n l r : r ∈ fold_left (push n) l [] <-> node r = n /\ arg r ∈ l.
Proof.
  rewrite pushes_elem. split; [intros [Hn|(? & ? & _)]; [by apply elem_of_nil in Hn|done]|]. intros [? ?]. right. split; [done|]. split; [done|]. apply not_elem_of_nil.
Qed.

(** The session bus: the rules of its node, then what the services bring. *)
Lemma session_rules services k rs r : r ∈ bundles 0 services (explicit_rules rs k) <->
  (node r = k /\ arg r ∈ map render rs) \/
  (arg r ∉ map render rs /\ exists s, services !! node r = Some s /\ arg r ∈ bundle s /\
     forall j t, (j < node r)%nat -> services !! j = Some t -> arg r ∉ bundle t).
Proof.
  rewrite bundles_elem, explicit_elem. assert (arg r ∈ map arg (explicit_rules rs k) <-> arg r ∈ map render rs) as ->.
  { unfold explicit_rules. rewrite pushes_args. split; [intros [Hn|?]; [by apply elem_of_nil in Hn|done]|by right]. }
  split; (intros [?|(Hn & Hr)]; [by left|right; split; [done|]]).
  - destruct Hr as (j & s & Hj & -> & Hb & Hm). by exists s.
  - destruct Hr as (s & Hj & Hb & Hm). by exists (node r), s.
Qed.

(** The first service of one kind, which [mk] makes and [f] recognises. *)
Lemma first_found {A} (f : Service.t -> option A) (mk : A -> Service.t) l : (forall s a, f s = Some a <-> s = mk a) ->
  match find_map f 0 l with
  | None => forall a, mk a ∉ l
  | Some (n, a) => l !! n = Some (mk a) /\ forall j b, (j < n)%nat -> l !! j <> Some (mk b)
  end.
Proof.
  intros Hf. destruct (find_map f 0 l) as [[n a]|] eqn:E.
  - apply find_map_some in E as (k & s & -> & Hk & Hs%Hf & Hb). subst s. split; [done|]. intros j b Hj E. apply Hb in E; [|done]. by rewrite (proj2 (Hf _ _) eq_refl) in E.
  - apply find_map_none in E. rewrite Forall_forall in E. intros a Ha%E. by rewrite (proj2 (Hf _ _) eq_refl) in Ha.
Qed.

Lemma dbus_of_iff s rs : dbus_of s = Some rs <-> s = Service.Dbus rs.
Proof. destruct s; naive_solver. Qed.
Lemma system_of_iff s rs : system_of s = Some rs <-> s = Service.SystemBus rs.
Proof. destruct s; naive_solver. Qed.
Lemma a11y_of_iff s u : a11y_of s = Some u <-> s = (fun _ => Service.A11y) u.
Proof. destruct s, u; naive_solver. Qed.

Lemma nodup_pushed n l : NoDup (map arg (fold_left (push n) l [])).
Proof. apply pushes_nodup. constructor. Qed.

(** C5. Each bus a sandbox was granted is filtered by what the configuration wrote and nothing
    else.  There is a session bus exactly when a [dbus] node is among the services: every rule
    of it is one of the first such node's own, or one of the bundle of the first service that
    asks for it, under that service's index, and every such rule is there.  There is a system
    bus exactly when a [system-bus] node is, with the rules of the first alone, and an
    accessibility bus exactly when that is granted, with the fixed set.  No bus has a rule
    twice, and there is no plan exactly when neither of the first two is granted. *)
Theorem bus_rules_are_the_granted services instance :
  (plan services instance = None <-> forall rules_, Service.Dbus rules_ ∉ services /\ Service.SystemBus rules_ ∉ services) /\
  forall p, plan services instance = Some p ->
    match session p with
    | None => forall rules_, Service.Dbus rules_ ∉ services
    | Some sec => exists rules_,
       services !! s_node sec = Some (Service.Dbus rules_) /\
       (forall j other, (j < s_node sec)%nat -> services !! j <> Some (Service.Dbus other)) /\ NoDup (map arg (rules sec)) /\
       forall r, r ∈ rules sec <->
         (node r = s_node sec /\ arg r ∈ map render rules_) \/
         (arg r ∉ map render rules_ /\ exists s, services !! node r = Some s /\ arg r ∈ bundle s /\
            forall j t, (j < node r)%nat -> services !! j = Some t -> arg r ∉ bundle t)
    end /\
    match system p with
    | None => forall rules_, Service.SystemBus rules_ ∉ services
    | Some sec => exists rules_,
       services !! s_node sec = Some (Service.SystemBus rules_) /\
       (forall j other, (j < s_node sec)%nat -> services !! j <> Some (Service.SystemBus other)) /\ NoDup (map arg (rules sec)) /\
       forall r, r ∈ rules sec <-> node r = s_node sec /\ arg r ∈ map render rules_
    end /\
    match a11y p with
    | None => Service.A11y ∉ services
    | Some sec =>
       services !! s_node sec = Some Service.A11y /\ (forall j, (j < s_node sec)%nat -> services !! j <> Some Service.A11y) /\
       NoDup (map arg (rules sec)) /\ forall r, r ∈ rules sec <-> node r = s_node sec /\ arg r ∈ A11Y_RULES
    end.
Proof.
  pose proof (first_found dbus_of Service.Dbus services dbus_of_iff) as Hd. pose proof (first_found system_of Service.SystemBus services system_of_iff) as Hs.
  pose proof (first_found a11y_of (fun _ => Service.A11y) services a11y_of_iff) as Ha. split.
  - unfold plan. destruct (find_map dbus_of 0 services) as [[n rs]|]; [|destruct (find_map system_of 0 services) as [[n rs]|]]; split; try done; intros Hn.
    + destruct Hd as [Hd _]. apply list_elem_of_lookup_2 in Hd. by destruct (Hn rs).
    + destruct Hs as [Hs _]. apply list_elem_of_lookup_2 in Hs. by destruct (Hn rs).
  - intros p Hp. apply plan_parts in Hp as (-> & -> & ->). split_and!.
    + destruct (find_map dbus_of 0 services) as [[n rs]|]; cbn; [|done]. destruct Hd as [Hn Hf]. exists rs. split; [done|]. split; [done|].
      split; [apply bundles_nodup, nodup_pushed|]. apply session_rules.
    + destruct (find_map system_of 0 services) as [[n rs]|]; cbn; [|done]. destruct Hs as [Hn Hf]. exists rs. split; [done|]. split; [done|].
      split; [apply nodup_pushed|]. intros r. apply explicit_elem.
    + destruct (find_map a11y_of 0 services) as [[n []]|]; cbn; [|by apply (Ha ())]. destruct Ha as [Hn Hf]. split; [done|]. split; [intros j; by apply (Hf j ())|].
      split; [exact (nodup_pushed n A11Y_RULES)|]. intros r. exact (pushes_elem_nil n A11Y_RULES r).
Qed.

(** ** The bus proxy's command line *)

(** As [xdg-dbus-proxy(1)] reads it: options, then an address with the path it is served at
    and the options that apply to it, again and again. *)
Definition is_option (w : bytes) : bool := Bytes.starts_with (B "--") w.

Fixpoint read_options (l : list bytes) : list bytes * list bytes :=
  match l with
  | w :: l' => if is_option w then let '(o, r) := read_options l' in (w :: o, r) else ([], l)
  | [] => ([], [])
  end.

Fixpoint read_buses (fuel : nat) (l : list bytes) : list (bytes * bytes * list bytes) :=
  match fuel, l with
  | S fuel, address :: path :: l => let '(o, r) := read_options l in (address, path, o) :: read_buses fuel r
  | _, _ => []
  end.

(** One bus: its address, where it is served, and what may pass. *)
Definition served (instance_runtime : bytes) (log : bool) (b : option Section_ * option bytes * bytes) : option (bytes * bytes * list bytes) :=
  match b with
  | (Some section, Some host, socket) =>
    Some (B "unix:path=" ++ host, proxy_bus_path instance_runtime socket, B "--filter" :: (if log then [B "--log"] else []) ++ map arg (rules section))
  | _ => None
  end.

Lemma read_options_app o l : Forall (fun w => is_option w = true) o -> match l with w :: _ => is_option w = false | [] => True end -> read_options (o ++ l) = (o, l).
Proof.
  intros Ho Hl. induction Ho as [|w o Hw _ IH]; cbn [app read_options]; [|by rewrite Hw, IH]. destruct l as [|w l]; [done|]. cbn [read_options]. by rewrite Hl.
Qed.

Definition bus_words (x : bytes * bytes * list bytes) : list bytes := x.1.1 :: x.1.2 :: x.2.

Lemma read_buses_words xs fuel : (length xs <= fuel)%nat ->
  Forall (fun x => is_option x.1.1 = false /\ Forall (fun w => is_option w = true) x.2) xs -> read_buses fuel (concat (map bus_words xs)) = xs.
Proof.
  intros Hf Hx. revert fuel Hf. induction Hx as [|[[a p] o] xs [Ha Ho] Hxs IH]; intros fuel Hf; [by destruct fuel|]. destruct fuel as [|fuel]; cbn [length] in Hf; [lia|].
  cbn [map concat bus_words fst snd app read_buses] in *. rewrite read_options_app; [by rewrite IH by lia|done|].
  destruct Hxs as [|[[a' p'] o'] xs [Ha' _] _]; done.
Qed.

Lemma bus_nodes_words rt log l : concat (map (fun b => map fst (bus_nodes rt log b)) l) = concat (map bus_words (omap (served rt log) l)).
Proof.
  induction l as [|[[[s|] [h|]] k] l IH]; [done|..]; try exact IH. cbn [map concat omap list_omap served bus_words fst snd]. rewrite IH. f_equal.
  cbn [bus_nodes app map fst]. do 3 f_equal. rewrite map_app, map_map. destruct log; done.
Qed.

Lemma option_of_push n l rules : Forall (fun r => is_option (arg r) = true) rules -> Forall (fun a => is_option a = true) l ->
  Forall (fun r => is_option (arg r) = true) (fold_left (push n) l rules).
Proof.
  intros Hr Hl. apply Forall_forall. intros r [Hin|(_ & Hin & _)]%pushes_elem; [by rewrite Forall_forall in Hr; apply Hr|]. rewrite Forall_forall in Hl. by apply Hl.
Qed.

Lemma option_prefix s t : is_option s = true -> is_option (s ++ t) = true.
Proof.
  unfold is_option. intros Hs. apply starts_with_spec in Hs as [q ->]. apply starts_with_spec. exists (q ++ t). by rewrite <-app_assoc.
Qed.

Lemma render_option r : is_option (render r) = true.
Proof. destruct r; unfold render; by apply option_prefix. Qed.

Lemma portal_options children : Forall (fun a => is_option a = true) (portal_rules children).
Proof.
  unfold portal_rules. repeat rewrite Forall_app. repeat split; try (repeat constructor; done);
    apply Forall_map, Forall_forall; intros i _; unfold portal_call, portal_broadcast; by apply option_prefix.
Qed.

Lemma bundle_options s : Forall (fun a => is_option a = true) (bundle s).
Proof.
  destruct s; cbn [bundle]; first [exact (Forall_nil_2 _) | apply portal_options | by repeat constructor | constructor; [by apply option_prefix|constructor]].
Qed.

Lemma bundles_options i l rules : Forall (fun r => is_option (arg r) = true) rules -> Forall (fun r => is_option (arg r) = true) (bundles i l rules).
Proof. revert i rules. induction l as [|s l IH]; intros i rules Hr; cbn [bundles]; [done|]. apply IH, option_of_push; [done|apply bundle_options]. Qed.

Lemma explicit_options l n : Forall (fun r => is_option (arg r) = true) (explicit_rules l n).
Proof. apply option_of_push; [done|]. apply Forall_map, Forall_forall. intros r _. apply render_option. Qed.

Lemma plan_options services instance p : plan services instance = Some p ->
  Forall (fun b => match b with Some sec => Forall (fun r => is_option (arg r) = true) (rules sec) | None => True end) [session p; system p; a11y p].
Proof.
  intros Hp. apply plan_parts in Hp as (-> & -> & ->). repeat constructor.
  - destruct (find_map dbus_of 0 services); [|done]. apply bundles_options, explicit_options.
  - destruct (find_map system_of 0 services); [|done]. apply explicit_options.
  - destruct (find_map a11y_of 0 services); [|done]. apply option_of_push; [done|]. repeat constructor.
Qed.

(** C6. The bus proxy is told what the plan says: its command line, read as the proxy reads
    it, is the readiness descriptor and, bus by bus, the host's socket, where the filtered one
    is made, the filter, and exactly the rules of that bus.  No rule is taken for a bus, and
    no bus runs without the filter or with another's rules. *)
Theorem proxy_reads_the_plan services instance p program b rt log ready :
  plan services instance = Some p ->
  exists words, proxy_command program p b rt log ready = program :: words /\
    let '(o, r) := read_options words in
    o = [B "--fd=" ++ ready] /\
    read_buses (length r) r = omap (served rt log) [(session p, b_session b, SESSION_SOCKET); (system p, b_system b, SYSTEM_SOCKET); (a11y p, b_a11y b, A11Y_SOCKET)].
Proof.
  intros Hp%plan_options. unfold proxy_command, proxy_command_nodes.
  set (l := [(session p, b_session b, SESSION_SOCKET); (system p, b_system b, SYSTEM_SOCKET); (a11y p, b_a11y b, A11Y_SOCKET)]).
  rewrite map_app, concat_map, map_map, bus_nodes_words. cbn [map fst app]. eexists. split; [reflexivity|].
  assert (Forall (fun x => is_option x.1.1 = false /\ Forall (fun w => is_option w = true) x.2) (omap (served rt log) l)) as Hx.
  { apply Forall_forall. intros x (y & Hy & Hs)%list_elem_of_omap.
    assert (match y.1.1 with Some sec => Forall (fun r => is_option (arg r) = true) (rules sec) | None => True end) as Hr.
    { rewrite Forall_forall in Hp. apply Hp. unfold l in Hy. repeat (apply elem_of_cons in Hy as [->|Hy]; [cbn [fst]; set_solver|]). by apply elem_of_nil in Hy. }
    destruct y as [[[s|] [h|]] k]; try done. injection Hs as <-. cbn [fst snd] in *. split; [reflexivity|]. constructor; [done|]. apply Forall_app. split; [destruct log; repeat constructor|].
    by apply Forall_map. }
  pose proof (read_options_app [B "--fd=" ++ ready] (concat (map bus_words (omap (served rt log) l)))) as Hro. cbn [app] in Hro. rewrite Hro.
  - split; [done|]. apply read_buses_words; [|exact Hx]. generalize (omap (served rt log) l). intros xs. induction xs as [|x xs IH]; [done|]. cbn [map concat bus_words length app]. rewrite length_app. lia.
  - constructor; [|done]. by apply option_prefix.
  - destruct Hx as [|x xs [Hx _] _]; [done|]. by destruct x as [[a q] o].
Qed.

(** ** The Wayland proxy's command line *)

Definition gate_of (c : Clipboard.t) : WlPolicy.Gate := match c with Clipboard.Paste => WlPolicy.Paste | Clipboard.Open => WlPolicy.Open end.

Lemma wl_number_decimal n : 0 <= n <= I32_MAX -> WlProxy.number (decimal n) = Some n.
Proof.
  intros Hn. unfold WlProxy.number. rewrite utf8_decimal by lia. rewrite parse_i32_decimal by done. cbn [mbind option_bind]. destruct (n >=? 0) eqn:E; [done|]. bool_to_prop. lia.
Qed.

Section Words.
Import WlProxy.
Lemma read_listen fuel v it p : p_listen p = None -> parse_loop (S fuel) (B "--listen-fd" :: v :: it) p =
  (fd ← number v; parse_loop fuel it (mkPartial (Some fd) (p_upstream p) (p_gate p) (p_deny p) (p_log p) (p_ready p))).
Proof. destruct p. cbn [p_listen]. intros ->. reflexivity. Qed.
Lemma read_upstream fuel v it p : p_upstream p = None -> parse_loop (S fuel) (B "--upstream" :: v :: it) p =
  parse_loop fuel it (mkPartial (p_listen p) (Some v) (p_gate p) (p_deny p) (p_log p) (p_ready p)).
Proof. destruct p. cbn [p_upstream]. intros ->. reflexivity. Qed.
Lemma read_gate fuel plan it p : p_gate p = None -> parse_loop (S fuel) (B "--gate" :: Wayland.gate plan :: it) p =
  parse_loop fuel it (mkPartial (p_listen p) (p_upstream p) (Some (gate_of (Wayland.clipboard plan))) (p_deny p) (p_log p) (p_ready p)).
Proof. destruct p, plan as [? ? ? []]; cbn [p_gate]; intros ->; reflexivity. Qed.
Lemma read_deny fuel it p : p_deny p = false -> parse_loop (S fuel) (B "--fallback-deny" :: it) p =
  parse_loop fuel it (mkPartial (p_listen p) (p_upstream p) (p_gate p) true (p_log p) (p_ready p)).
Proof. destruct p. cbn [p_deny]. intros ->. reflexivity. Qed.
Lemma read_log fuel v it p : p_log p = None -> parse_loop (S fuel) (B "--log-fd" :: v :: it) p =
  (fd ← number v; parse_loop fuel it (mkPartial (p_listen p) (p_upstream p) (p_gate p) (p_deny p) (Some fd) (p_ready p))).
Proof. destruct p. cbn [p_log]. intros ->. reflexivity. Qed.
Lemma read_ready fuel v it p : p_ready p = None -> parse_loop (S fuel) (B "--ready-fd" :: v :: it) p =
  (fd ← number v; parse_loop fuel it (mkPartial (p_listen p) (p_upstream p) (p_gate p) (p_deny p) (p_log p) (Some fd))).
Proof. destruct p. cbn [p_ready]. intros ->. reflexivity. Qed.
End Words.

(** The Wayland proxy reads what the launcher writes: the listening socket and the ready
    pipe under their numbers, its stderr as the log, the socket it connects to, the gate the
    configuration asked for, and [--fallback-deny] exactly where the compositor registered no
    security context. *)
Theorem wl_proxy_reads_its_plan plan program node listen ready :
  0 <= listen <= I32_MAX -> 0 <= ready <= I32_MAX -> NoDup [listen; 2; ready] ->
  exists words, map fst (Wayland.command_nodes plan program node (decimal listen) (decimal ready)) = program :: words /\
    WlProxy.parse_from words = Some (WlProxy.mkArgs listen (Wayland.upstream plan) (gate_of (Wayland.clipboard plan)) (negb (Wayland.context_ plan)) (Some 2) (Some ready)).
Proof.
  intros Hl Hr Hn. unfold Wayland.command_nodes. cbn [app map fst]. eexists. split; [reflexivity|].
  assert (number_2 : WlProxy.number (B "2") = Some 2) by reflexivity.
  assert (WlProxy.distinct [listen; 2; ready] = true) as Hd.
  { apply NoDup_cons in Hn as [H1 Hn]. apply NoDup_cons in Hn as [H2 _]. cbn [WlProxy.distinct]. by rewrite (bool_decide_false _ H1), (bool_decide_false _ H2). }
  unfold WlProxy.parse_from. cbn [length]. rewrite read_listen, (wl_number_decimal listen) by done. cbn [mbind option_bind WlProxy.p_listen WlProxy.p_upstream WlProxy.p_gate WlProxy.p_deny WlProxy.p_log WlProxy.p_ready].
  rewrite read_upstream by done. cbn [WlProxy.p_listen WlProxy.p_upstream WlProxy.p_gate WlProxy.p_deny WlProxy.p_log WlProxy.p_ready]. rewrite read_gate by done.
  destruct (Wayland.context_ plan); cbn [app map fst length negb]; rewrite ?read_deny by done; rewrite read_log, number_2 by done;
    cbn [mbind option_bind WlProxy.p_listen WlProxy.p_upstream WlProxy.p_gate WlProxy.p_deny WlProxy.p_log WlProxy.p_ready];
    rewrite read_ready, (wl_number_decimal ready) by done; cbn [mbind option_bind WlProxy.p_listen WlProxy.p_upstream WlProxy.p_gate WlProxy.p_deny WlProxy.p_log WlProxy.p_ready WlProxy.parse_loop omap list_omap];
    by rewrite Hd.
Qed.

(** ** The names of an instance *)

Definition tail_of (instance : bytes) : bytes := map (fun b => if bool_decide (b = DOT) then UNDERSCORE else b) instance.

Definition id_byte (b : byte) : bool := is_ascii_alphanumeric b || bool_decide (b = UNDERSCORE) || bool_decide (b = DASH).

Lemma tail_bytes instance : is_plain_name instance = true -> tail_of instance <> [] /\ forallb id_byte (tail_of instance) = true.
Proof.
  unfold is_plain_name. rewrite !andb_true_iff, negb_true_iff, bool_decide_eq_false. intros ((((Hne & _) & _) & _) & Hb). split; [by destruct instance|].
  unfold tail_of. rewrite forallb_spec in *. apply Forall_map. eapply Forall_impl; [exact Hb|]. intros b. unfold id_byte. case_bool_decide; [done|]. by rewrite orb_false_r.
Qed.

Lemma id_no_dot l : forallb id_byte l = true -> DOT ∉ l.
Proof. rewrite forallb_spec, Forall_forall. intros Hb Hin. by apply Hb in Hin. Qed.

(** A byte a name may have, once its dots are out or not. *)
Lemma name_no_lf instance : is_plain_name instance = true -> LF ∉ instance.
Proof.
  unfold is_plain_name. rewrite !andb_true_iff. intros (_ & Hb) Hin. rewrite forallb_spec, Forall_forall in Hb. by apply Hb in Hin.
Qed.
Lemma id_no_lf l : forallb id_byte l = true -> LF ∉ l.
Proof. rewrite forallb_spec, Forall_forall. intros Hb Hin. by apply Hb in Hin. Qed.

Ltac no_such := let H := fresh in intros H; vm_compute in H; repeat (apply elem_of_cons in H as [H|H]; [discriminate H|]); by apply elem_of_nil in H.

Lemma info_lines id iid portals : LF ∉ id -> LF ∉ iid ->
  split_on LF (B "[Application]" ++ [LF] ++ B "name=" ++ id ++ [LF] ++ (if portals : bool then [LF] ++ B "[Instance]" ++ [LF] ++ B "instance-id=" ++ iid ++ [LF] else [])) =
  [B "[Application]"; B "name=" ++ id; []] ++ (if portals then [B "[Instance]"; B "instance-id=" ++ iid; []] else []).
Proof.
  intros Hid Hiid. cbn [app]. rewrite split_on_app by no_such.
  assert (forall pre x, LF ∉ pre -> LF ∉ x -> LF ∉ pre ++ x) as Happ by (intros pre x Hp Hx [?|?]%elem_of_app; done).
  rewrite app_assoc, split_on_app by (apply Happ; [no_such|done]). f_equal. f_equal.
  destruct portals; [|done]. cbn [app]. change (LF :: ?l) with ([] ++ LF :: l). rewrite (split_on_app LF []) by apply not_elem_of_nil. rewrite split_on_app by no_such.
  rewrite app_assoc, split_on_app by (apply Happ; [no_such|done]). done.
Qed.

(** The application id made of a name an instance may have is one a portal accepts, if
    the name is not too long for one: it has no other element than the two prefixes and one
    of letters, digits, [_] and [-]; and the identity file made of it is the lines it should
    be, which no name can add to. *)
Theorem app_id_is_accepted instance :
  is_plain_name instance = true -> len instance <= 242 ->
  is_valid_app_id (app_id instance) = true /\
  forall portals, split_on LF (flatpak_info instance portals) =
    [B "[Application]"; B "name=" ++ app_id instance; []] ++ (if portals then [B "[Instance]"; B "instance-id=" ++ flatpak_instance_id instance; []] else []).
Proof.
  intros Hp Hl. pose proof (tail_bytes instance Hp) as [Hne Hb]. unfold app_id. fold (tail_of instance).
  set (t := if digit_first (tail_of instance) then UNDERSCORE :: tail_of instance else tail_of instance).
  assert (t <> [] /\ forallb id_byte t = true /\ len t <= 243) as (Htn & Ht & Htl).
  { assert (len (tail_of instance) = len instance) as Hlt by (unfold tail_of, len; by rewrite length_map).
    unfold t. destruct (digit_first _); [split; [done|]; cbn [forallb]; rewrite len_cons; split; [done|lia]|]. split; [done|]. split; [done|lia]. }
  split.
  - unfold is_valid_app_id. rewrite bool_decide_false by done. rewrite len_app. assert (len (B "org.bubbler.") = 12) as -> by reflexivity.
    destruct (12 + len t >? 255) eqn:E; [bool_to_prop; lia|]. cbn [orb].
    change (B "org.bubbler." ++ t) with (B "org" ++ DOT :: B "bubbler" ++ DOT :: t). rewrite !split_on_app by (intros Hin; by vm_compute in Hin; repeat (apply elem_of_cons in Hin as [Hin|Hin]; [discriminate Hin|]); apply elem_of_nil in Hin).
    rewrite (split_on_no_sep_id DOT t) by by apply id_no_dot. cbn. rewrite !andb_true_r. unfold app_id_element. rewrite bool_decide_false by done. cbn [negb andb].
    exact Ht.
  - intros portals. unfold flatpak_info. rewrite info_lines; [done|..].
    + unfold app_id. fold (tail_of instance). fold t. intros [Hin|Hin]%elem_of_app; [by revert Hin; no_such|]. by apply (id_no_lf t).
    + unfold flatpak_instance_id. intros [Hin|Hin]%elem_of_app; [by revert Hin; no_such|]. by apply (name_no_lf instance).
Qed.

(** Two instances may have one application id, and so one entry in the permission store and
    one view of the documents. *)
Lemma app_id_is_shared : Instance_.validate_name (B "a.b") = Ok tt /\ Instance_.validate_name (B "a_b") = Ok tt /\ app_id (B "a.b") = app_id (B "a_b").
Proof. repeat split; vm_compute; reflexivity. Qed.

Definition name_of (n : nat) : bytes := repeat Init.Byte.x61 n.

(** The check of the socket paths leaves out the longest: a name whose checked sockets all
    fit has a security context socket that does not. *)
Lemma context_socket_may_not_fit :
  let env := demo_env in let name := name_of 72 in
  Instance_.validate_name name = Ok tt /\ Instance_.check_socket_paths env name = Ok tt /\
  len (Wayland.context_socket_path (instance_runtime_dir env name)) + 1 > Instance_.SUN_PATH_MAX.
Proof. cbv zeta. repeat split; vm_compute; reflexivity. Qed.

(** ** A configuration to run it on *)

Definition demo_services : list Service.t :=
  [Service.Notify; Service.Dbus [BusRule.Talk (B "org.freedesktop.Notifications"); BusRule.Own (B "org.example.App")];
   Service.Portals [Portal.Location]; Service.Camera false; Service.SystemBus [BusRule.See (B "org.freedesktop.NetworkManager")]; Service.A11y].

Lemma demo_plan : exists p, plan demo_services (B "t") = Some p.
Proof. eexists. vm_compute. reflexivity. Qed.

Lemma bus_rules_are_the_granted_witness : exists p sec, plan demo_services (B "t") = Some p /\ session p = Some sec /\
  mkRule (B "--talk=org.freedesktop.Notifications") 1 ∈ rules sec /\ mkRule (portal_call (B "Camera")) 3 ∈ rules sec.
Proof.
  destruct demo_plan as [p Hp]. destruct (bus_rules_are_the_granted demo_services (B "t")) as [_ Hr]. destruct (Hr p Hp) as (Hs & _).
  assert (session p = (fun d => mkSection d.1 (bundles 0 demo_services (explicit_rules d.2 d.1))) <$> find_map dbus_of 0 demo_services) as Es by exact (proj1 (plan_parts _ _ _ Hp)).
  cbn [find_map demo_services dbus_of fmap option_fmap option_map] in Es. rewrite Es in Hs. destruct Hs as (rs & Hl & _ & _ & Hrules). injection Hl as <-.
  exists p. eexists. split; [exact Hp|]. split; [exact Es|]. split.
  - apply Hrules. left. split; [reflexivity|]. by left.
  - apply Hrules. right. split; [by_decide|]. eexists. split; [reflexivity|]. split; [by left|].
    intros j t Hj Ht. cbn [node] in Hj. destruct j as [|[|[|j]]]; [injection Ht as <-..|lia]; by_decide.
Defined.

Lemma proxy_reads_the_plan_witness : exists p words, plan demo_services (B "t") = Some p /\
  proxy_command (B "xdg-dbus-proxy") p (mkBuses (Some (B "/run/user/1000/bus")) None None) (B "/run/user/1000/bubbler/t") false (B "3") = B "xdg-dbus-proxy" :: words /\
  (read_options words).1 = [B "--fd=3"].
Proof.
  destruct demo_plan as [p Hp]. exists p.
  destruct (proxy_reads_the_plan demo_services (B "t") p (B "xdg-dbus-proxy") (mkBuses (Some (B "/run/user/1000/bus")) None None) (B "/run/user/1000/bubbler/t") false (B "3") Hp) as (words & Hc & Hr).
  exists words. split; [exact Hp|]. split; [exact Hc|]. destruct (read_options words) as [o r]. exact (proj1 Hr).
Defined.

Lemma wl_proxy_reads_its_plan_witness : exists words,
  map fst (Wayland.command_nodes (Wayland.fallback (B "/r") (B "/run/user/1000/wayland-1") Clipboard.Open) (B "p") 0 (decimal 3) (decimal 4)) = B "p" :: words /\
  WlProxy.parse_from words = Some (WlProxy.mkArgs 3 (B "/run/user/1000/wayland-1") WlPolicy.Open true (Some 2) (Some 4)).
Proof.
  destruct (wl_proxy_reads_its_plan (Wayland.fallback (B "/r") (B "/run/user/1000/wayland-1") Clipboard.Open) (B "p") 0 3 4) as (words & Hw & Hp);
    [unfold I32_MAX; lia|unfold I32_MAX; lia|by_decide|]. exists words. split; [exact Hw|exact Hp].
Defined.

Lemma app_id_is_accepted_witness : is_valid_app_id (app_id (B "9.x-y")) = true /\ app_id (B "9.x-y") = B "org.bubbler._9_x-y".
Proof. split; [|reflexivity]. apply (app_id_is_accepted (B "9.x-y")); [reflexivity|]. vm_compute. intros H. discriminate H. Defined.
