(* ===== verification/Shares.v ===== *)
(** What a share of a host path may be (bubbler-core/src/service.rs): the source resolved and
    confined, the roots that are never shared, shares that contain one another, and where a
    share lands in the sandbox.

    A path of the configuration is its components, and [path_text] the text Rust collects
    from them; a path of a flag is text as it was given. *)
From S2P Require Export Bwrap.

Definition BadValue := LaunchError.BadValue.

Module End_.
Inductive t := Source | Destination.
#[global] Instance eq_dec : EqDecision t.
Proof. solve_decision. Defined.
End End_.

Definition DENIED_ROOTS : list bytes :=
  [B "/proc"; B "/sys"; B "/dev"; B "/etc"; B "/usr"; B "/opt"; B "/home"; B "/tmp"; B "/var"; B "/run"].
Definition MEDIA_ROOT : bytes := B "/run/media".

(** Whether two paths are the same or one contains the other. *)
Definition nested (a b : bytes) : bool := Path.starts_with a b || Path.starts_with b a.

(** A share: its place among the services, its destination, its source, its mode. *)
Record PathShare := mkShare { sh_node : nat; sh_dst : bytes; sh_src : bytes; sh_mode : ShareMode.t }.

(** Why a share was refused. *)
Definition denied_reason (written src root : bytes) (e : End_.t) : bytes :=
  match e with
  | End_.Destination => Path.display written ++ B " would be bound over " ++ Path.display root ++ B ", which bubbler never shares"
  | End_.Source =>
    let target := if Path.eqb src root then Path.display root else Path.display src ++ B ", which overlaps " ++ Path.display root in
    if Path.eqb src written then B "bubbler never shares " ++ target
    else Path.display written ++ B " resolves to " ++ target ++ B ", which bubbler never shares"
  end.

Definition fixed_root (p : bytes) (env : Env) : option bytes :=
  if match test_allow_path env with Some allow => Path.starts_with p allow | None => false end then None
  else if Path.eqb p [SLASH] then Some [SLASH]
  else
    let on_media := Path.starts_with p MEDIA_ROOT in
    List.find (fun root => nested p root && negb (on_media && bool_decide (root = B "/run"))) DENIED_ROOTS.

Definition overlap_where (a_src b_src : bytes) : bytes := B " (they resolve to " ++ Path.display a_src ++ B " and " ++ Path.display b_src ++ B ")".
Definition overlap_reason (a_dst b_dst where_ : bytes) : bytes :=
  Path.display a_dst ++ B " and " ++ Path.display b_dst ++ B " overlap" ++ where_ ++ B "; one share cannot contain another".

(** Why one share overlaps another; [None] for the source of one that has none. *)
Definition overlap (src dst : bytes) (other_src : option bytes) (other_dst : bytes) : option bytes :=
  if nested dst other_dst then Some (overlap_reason dst other_dst [])
  else match other_src with
       | Some o => if nested src o then Some (overlap_reason dst other_dst (overlap_where src o)) else None
       | None => None
       end.

(** The first of the later shares that overlaps this one. *)
Fixpoint overlap_with (a : PathShare) (l : list PathShare) : option bytes :=
  match l with
  | [] => None
  | b :: l => match overlap (sh_src a) (sh_dst a) (Some (sh_src b)) (sh_dst b) with Some r => Some r | None => overlap_with a l end
  end.

Fixpoint overlaps (l : list PathShare) : option bytes :=
  match l with
  | [] => None
  | a :: l => match overlap_with a l with Some r => Some r | None => overlaps l end
  end.

Section Shares.
Context `{Host}.

Definition resolve_source (service src : bytes) (probe : bytes -> bytes -> result LaunchError.t bytes) : result LaunchError.t bytes :=
  match canonicalize src with
  | None => Err (LaunchError.MissingResource service src)
  | Some real => probe service real
  end.

Definition confine (service root src outside : bytes) : result LaunchError.t bytes :=
  match canonicalize root with
  | None => Err (LaunchError.MissingResource service root)
  | Some root =>
    real ← resolve_source service src require_exists;
    if negb (Path.starts_with real root) then Err (BadValue service (Path.display src ++ B " resolves outside " ++ outside)) else Ok real
  end.

(** The roots the environment names, as they are and resolved. *)
Definition env_roots (env : Env) : list bytes :=
  let under dir := Path.join (default dir (canonicalize dir)) (B "bubbler") in
  let named := [home env; runtime_dir env; Path.join (data_home env) (B "bubbler"); under (data_home env);
                Path.join (config_home env) (B "bubbler"); under (config_home env)] ++
               match profile_dir_override env with Some d => [d] | None => [] end in
  named ++ omap canonicalize named.

Definition denied_root (env : Env) (canonical written : bytes) : option (bytes * End_.t) :=
  if Path.eqb canonical [SLASH] || Path.eqb written [SLASH] then Some ([SLASH], End_.Source)
  else
    let roots := env_roots env in
    match List.find (nested canonical) roots with
    | Some root => Some (root, End_.Source)
    | None =>
      match List.find (nested written) roots with
      | Some root => Some (root, End_.Destination)
      | None =>
        if nested written SANDBOX_HOME then Some (SANDBOX_HOME, End_.Destination)
        else match fixed_root canonical env with
             | Some root => Some (root, End_.Source)
             | None => match fixed_root written env with Some root => Some (root, End_.Destination) | None => None end
             end
      end
    end.

Definition reserved_reason (env : Env) (written : bytes) : option bytes :=
  let src := default written (canonicalize written) in
  '(root, e) ← denied_root env src written;
  Some (denied_reason written src root e).

(** A source that is not there, of a share that need not be. *)
Definition skipped (optional : bool) (written : bytes) (r : result LaunchError.t bytes) : bool :=
  match r with Err (LaunchError.MissingResource _ p) => optional && Path.eqb p written | _ => false end.

(** The share of one service, if it is one that is made. *)
Definition path_share (env : Env) (i : nat) (s : Service.t) : result LaunchError.t (option PathShare) :=
  match s with
  | Service.PathShare p mode optional =>
    let path := path_text p in
    let resolved := resolve_source (B "path-share") path require_dir_or_file in
    if skipped optional path resolved then Ok None
    else
      src ← resolved;
      match denied_root env src path with
      | Some (root, e) => Err (BadValue (B "path-share") (denied_reason path src root e))
      | None => Ok (Some (mkShare i path src mode))
      end
  | _ => Ok None
  end.

Fixpoint path_shares_loop (env : Env) (i : nat) (services : list Service.t) : result LaunchError.t (list PathShare) :=
  match services with
  | [] => Ok []
  | s :: services =>
    share ← path_share env i s;
    shares ← path_shares_loop env (S i) services;
    Ok (match share with Some sh => sh :: shares | None => shares end)
  end.

Definition path_shares (services : list Service.t) (env : Env) : result LaunchError.t (list PathShare) :=
  shares ← path_shares_loop env 0 services;
  match overlaps shares with
  | Some reason => Err (BadValue (B "path-share") reason)
  | None => Ok shares
  end.

(** ** Shares of the home *)

Definition denied_root_in_home (env : Env) (canonical dst : bytes) : option (bytes * End_.t) :=
  if Path.eqb dst SANDBOX_HOME then Some (SANDBOX_HOME, End_.Destination)
  else
    let homes := home env :: match canonicalize (home env) with Some h => [h] | None => [] end in
    root ← List.find (nested canonical) (List.filter (fun root => negb (existsb (fun h => Path.eqb h root) homes)) (env_roots env));
    Some (root, End_.Source).

Definition deny_reserved_in_home (env : Env) (service written src dst : bytes) : result LaunchError.t unit :=
  match denied_root_in_home env src dst with
  | Some (root, e) => Err (BadValue service (denied_reason written src root e))
  | None => Ok tt
  end.

Definition reserved_in_home_reason (env : Env) (rel : bytes) : option bytes :=
  let written := Path.join (home env) rel in
  let src := default written (canonicalize written) in
  let dst := Path.join SANDBOX_HOME rel in
  '(root, e) ← denied_root_in_home env src dst;
  Some (denied_reason written src root e).

(** The source of a [home-share], and [None] where it is skipped. *)
Definition home_source (env : Env) (rel : bytes) (optional : bool) : result LaunchError.t (option bytes) :=
  let written := Path.join (home env) rel in
  let confined := confine (B "home-share") (home env) written (B "the home directory") in
  if skipped optional written confined then Ok None else src ← confined; Ok (Some src).

Definition bind_mode (mode : ShareMode.t) (src dst : bytes) : BwrapArgs -> BwrapArgs :=
  match mode with ShareMode.ReadOnly => ro_bind src dst | ShareMode.ReadWrite => bind src dst end.

Definition home_share (env : Env) (rel : bytes) (mode : ShareMode.t) (optional : bool) (a : BwrapArgs) : result LaunchError.t BwrapArgs :=
  source ← home_source env rel optional;
  match source with
  | None => Ok a
  | Some src =>
    let dst := Path.join SANDBOX_HOME rel in
    _ ← deny_reserved_in_home env (B "home-share") (Path.join (home env) rel) src dst;
    Ok (bind_mode mode src dst a)
  end.

(** ** Shares of a run *)

Fixpoint home_shares (env : Env) (services : list Service.t) : result LaunchError.t (list (option bytes * bytes)) :=
  match services with
  | [] => Ok []
  | Service.HomeShare p _ optional :: services =>
    source ← home_source env (path_text p) optional;
    rest ← home_shares env services;
    Ok (match source with Some src => (Some src, Path.join SANDBOX_HOME (path_text p)) :: rest | None => rest end)
  | _ :: services => home_shares env services
  end.

Definition config_shares (services : list Service.t) (env : Env) : result LaunchError.t (list (option bytes * bytes)) :=
  homes ← home_shares env services;
  shares ← path_shares services env;
  Ok (homes ++ map (fun s => (Some (sh_src s), sh_dst s)) shares).

Definition share_paths (env : Env) (written : bytes) : result LaunchError.t (bytes * bytes) :=
  match components written with
  | RootDir :: comps =>
    if negb (forallb is_normal comps) then
      Err (BadValue (B "--share") (Path.display written ++ B " contains `.` or `..`; give the path without them"))
    else
      match Path.strip_prefix written (home env) with
      | Some rel =>
        src ← confine (B "--share") (home env) written (B "the home directory");
        src ← require_dir_or_file (B "--share") src;
        let dst := Path.join SANDBOX_HOME rel in
        _ ← deny_reserved_in_home env (B "--share") written src dst;
        Ok (src, dst)
      | None =>
        src ← resolve_source (B "--share") written require_dir_or_file;
        match denied_root env src written with
        | Some (root, e) => Err (BadValue (B "--share") (denied_reason written src root e))
        | None => Ok (src, path_text (components written))
        end
      end
  | _ => Err (BadValue (B "--share") (Path.display written ++ B " is not absolute"))
  end.

Definition first_overlap (src dst : bytes) (l : list (option bytes * bytes)) : option bytes :=
  head (omap (fun o => overlap src dst o.1 o.2) l).

Definition share_one (env : Env) (config : list (option bytes * bytes)) (out : list (bytes * bytes)) (written : bytes)
  : result LaunchError.t (list (bytes * bytes)) :=
  '(src, dst) ← share_paths env written;
  if existsb (fun o => Path.eqb o.2 dst) config then Err (BadValue (B "--share") (Path.display written ++ B " already shared by config.kdl"))
  else if existsb (fun o => Path.eqb o.2 dst) out then Err (BadValue (B "--share") (Path.display written ++ B " given twice"))
  else match first_overlap src dst (config ++ map (fun o => (Some o.1, o.2)) out) with
       | Some reason => Err (BadValue (B "--share") reason)
       | None => Ok (out ++ [(src, dst)])
       end.

(** Every flag as its source and destination. *)
Definition share_plan (services : list Service.t) (shares : list (bytes * ShareMode.t)) (env : Env) : result LaunchError.t (list (bytes * bytes)) :=
  config ← config_shares services env;
  fold_res (share_one env config) [] (map fst shares).
End Shares.
