(* ===== verification/SharesSpec.v ===== *)
(** What is shared keeps clear of what is reserved: a share is accepted exactly when no path
    at or below it, on the host or in the sandbox, is at or below a root that bubbler keeps
    or another share. *)
From Stdlib Require Import Sorted.
From S2P Require Export Shares Sweep.

(** ** Paths *)

Lemma components_slash p q : p <> [] -> components (p ++ SLASH :: q) = components p ++ omap (component_of false) (split_on SLASH q).
Proof.
  intros Hp. unfold components. rewrite split_on_app_sep. pose proof (split_on_nonempty SLASH p) as Hn. pose proof (split_on_nonempty SLASH q) as Hq.
  destruct (split_on SLASH p) as [|a l] eqn:E; [done|]. cbn [app]. rewrite omap_app, app_assoc. f_equal. case_bool_decide as Ha; [|done].
  destruct l as [|b l]; cbn [app]; [|by rewrite !bool_decide_false]. exfalso. apply Hp. pose proof (join_split SLASH p) as Hj. rewrite E in Hj. subst a. by cbn in Hj.
Qed.

Lemma starts_with_self p : Path.starts_with p p = true.
Proof. apply starts_with_spec. exists []. by rewrite app_nil_r. Qed.

Lemma starts_with_trans a b c : Path.starts_with a b = true -> Path.starts_with b c = true -> Path.starts_with a c = true.
Proof. unfold Path.starts_with. rewrite !starts_with_spec. intros [q Hq] [r Hr]. exists (r ++ q). by rewrite app_assoc, <-Hr. Qed.

(** What is joined to a directory lies below it, unless it is absolute. *)
Lemma join_below dir name : dir <> [] -> Path.is_absolute name = false -> Path.starts_with (Path.join dir name) dir = true.
Proof.
  intros Hd Hn. unfold Path.join. rewrite Hn. unfold Path.starts_with. apply starts_with_spec.
  destruct (List.rev dir) as [|c l] eqn:E; [by apply (f_equal (@List.rev byte)) in E; rewrite rev_involutive in E|].
  assert (dir = List.rev l ++ [c]) as Hdir by (apply (f_equal (@List.rev byte)) in E; rewrite rev_involutive in E; exact E).
  case_bool_decide as Hc; [|eexists; by apply components_slash]. subst c. rewrite Hdir, <-app_assoc. cbn [app].
  destruct (decide (List.rev l = [])) as [->|Hl].
  - cbn [app]. change (components [SLASH]) with [RootDir]. unfold components. change (SLASH :: name) with ([] ++ SLASH :: name). rewrite split_on_app by apply not_elem_of_nil.
    rewrite bool_decide_true by done. pose proof (split_on_nonempty SLASH name) as Hs. rewrite (bool_decide_false _ Hs). cbn [app]. by eexists.
  - rewrite components_slash by done. rewrite (components_slash (List.rev l) []) by done. cbn [split_on omap list_omap component_of]. rewrite app_nil_r. by eexists.
Qed.

Lemma starts_absolute pre name : Bytes.starts_with pre name = true -> pre <> [] -> Path.is_absolute pre = false -> Path.is_absolute name = false.
Proof. intros [q ->]%starts_with_spec Hp Ha. by destruct pre. Qed.

(** Two paths apart: nothing is at or below both. *)
Definition apart (a b : bytes) : Prop := forall p, Path.starts_with p a = true -> Path.starts_with p b = false.

Lemma nested_apart a b : nested a b = false <-> apart a b.
Proof.
  unfold nested, apart. rewrite orb_false_iff. split.
  - intros [Hab Hba] p Ha. destruct (Path.starts_with p b) eqn:Hb; [|done]. exfalso. unfold Path.starts_with in Ha, Hb. rewrite starts_with_spec in Ha, Hb.
    destruct Ha as [q Hq], Hb as [r Hr]. rewrite Hq in Hr. destruct (app_eq_inv _ _ _ _ Hr) as [(k & Hk & _)|(k & Hk & _)].
    + assert (Path.starts_with a b = true) as Ht by (unfold Path.starts_with; apply starts_with_spec; by exists k). congruence.
    + assert (Path.starts_with b a = true) as Ht by (unfold Path.starts_with; apply starts_with_spec; by exists k). congruence.
  - intros Hp. split.
    + destruct (Path.starts_with a b) eqn:E; [|done]. by rewrite (Hp a (starts_with_self a)) in E.
    + destruct (Path.starts_with b a) eqn:E; [|done]. specialize (Hp b E). by rewrite starts_with_self in Hp.
Qed.

(** ** What may be shared *)

Lemma find_none {A} (f : A -> bool) l : List.find f l = None <-> Forall (fun a => f a = false) l.
Proof.
  induction l as [|a l IH]; cbn [List.find]; [by split|]. rewrite Forall_cons, <-IH. destruct (f a); naive_solver.
Qed.

Section Shares.
Context `{Host}.

(** Where a share may not be whatever the environment says, at either end. *)
Definition fixed_ok (env : Env) (p : bytes) : Prop :=
  (exists allow, test_allow_path env = Some allow /\ Path.starts_with p allow = true) \/
  (components p <> [RootDir] /\
   forall root, root ∈ DENIED_ROOTS -> apart p root \/ (root = B "/run" /\ Path.starts_with p MEDIA_ROOT = true)).

(** A share of [src] bound at [dst] meets nothing that is reserved. *)
Definition clear (env : Env) (src dst : bytes) : Prop :=
  components src <> [RootDir] /\ components dst <> [RootDir] /\
  (forall root, root ∈ env_roots env -> apart src root /\ apart dst root) /\
  apart dst SANDBOX_HOME /\ fixed_ok env src /\ fixed_ok env dst.

Lemma eqb_slash p : Path.eqb p [SLASH] = false <-> components p <> [RootDir].
Proof. unfold Path.eqb. by rewrite bool_decide_eq_false. Qed.

Lemma fixed_root_none env p : fixed_root p env = None <-> fixed_ok env p.
Proof.
  unfold fixed_root, fixed_ok. destruct (test_allow_path env) as [allow|].
  - destruct (Path.starts_with p allow) eqn:Ea; [split; [intros _; left; by exists allow|done]|].
    destruct (Path.eqb p [SLASH]) eqn:Es; [split; [done|]; intros [(x & [= <-] & Hx)|[Hn _]]; [congruence|by apply eqb_slash in Hn; congruence]|].
    rewrite find_none, Forall_forall. split.
    + intros Hf. right. split; [by apply eqb_slash|]. intros root Hr. specialize (Hf root Hr). apply andb_false_iff in Hf as [Hf|Hf]; [left; by apply nested_apart|].
      right. apply negb_false_iff, andb_true_iff in Hf as [Hm Hb]. by apply bool_decide_eq_true in Hb.
    + intros [(x & [= <-] & Hx)|[_ Hf]]; [congruence|]. intros root Hr. destruct (Hf root Hr) as [Hp|[-> Hm]]; [by apply nested_apart in Hp; rewrite Hp|]. by rewrite Hm, bool_decide_true, andb_false_r.
  - destruct (Path.eqb p [SLASH]) eqn:Es; [split; [done|]; intros [(x & [=] & _)|[Hn _]]; by apply eqb_slash in Hn; congruence|].
    rewrite find_none, Forall_forall. split.
    + intros Hf. right. split; [by apply eqb_slash|]. intros root Hr. specialize (Hf root Hr). apply andb_false_iff in Hf as [Hf|Hf]; [left; by apply nested_apart|].
      right. apply negb_false_iff, andb_true_iff in Hf as [Hm Hb]. by apply bool_decide_eq_true in Hb.
    + intros [(x & [=] & _)|[_ Hf]]. intros root Hr. destruct (Hf root Hr) as [Hp|[-> Hm]]; [by apply nested_apart in Hp; rewrite Hp|]. by rewrite Hm, bool_decide_true, andb_false_r.
Qed.

Lemma denied_root_none env src dst : denied_root env src dst = None <-> clear env src dst.
Proof.
  unfold denied_root, clear. rewrite <-!eqb_slash, <-!fixed_root_none, <-nested_apart.
  destruct (Path.eqb src [SLASH]), (Path.eqb dst [SLASH]); try (split; [done|by intros (? & ? & _)]). cbn [orb].
  assert ((forall root, root ∈ env_roots env -> apart src root /\ apart dst root) <-> List.find (nested src) (env_roots env) = None /\ List.find (nested dst) (env_roots env) = None) as ->.
  { rewrite !find_none, !Forall_forall. setoid_rewrite nested_apart. naive_solver. }
  destruct (List.find (nested src) (env_roots env)) as [r|]; [split; [done|]; by intros (_ & _ & (? & _) & _)|].
  destruct (List.find (nested dst) (env_roots env)) as [r|]; [split; [done|]; by intros (_ & _ & (_ & ?) & _)|].
  destruct (nested dst SANDBOX_HOME); [split; [done|]; by intros (_ & _ & _ & ? & _)|].
  destruct (fixed_root src env); [split; [done|]; by intros (_ & _ & _ & _ & ? & _)|]. destruct (fixed_root dst env); [split; [done|]; by intros (_ & _ & _ & _ & _ & ?)|]. by split.
Qed.

(** ** The shares of a configuration *)

Definition resolved (p src : bytes) : Prop := canonicalize p = Some src /\ (file_type src = Some FileType.Dir \/ file_type src = Some FileType.File).

(** The share is optional and what it names is not there. *)
Definition absent (o : bool) (p : bytes) : Prop := o = true /\ (canonicalize p = None \/ exists src, canonicalize p = Some src /\ file_type src = None /\ Path.eqb src p = true).

Lemma resolve_ok service p src : resolve_source service p require_dir_or_file = Ok src <-> resolved p src.
Proof.
  unfold resolve_source, resolved. destruct (canonicalize p) as [real|]; [|by split; [|intros [? _]]]. unfold require_dir_or_file. rewrite require_ok. split.
  - intros [-> (t & Ht & Ha)]. split; [done|]. rewrite Ht. destruct t; try discriminate Ha; [by right|by left].
  - intros [[= ->] Ht]. split; [done|]. destruct Ht as [Ht|Ht]; by eexists.
Qed.

Lemma eqb_refl p : Path.eqb p p = true.
Proof. unfold Path.eqb. by apply bool_decide_eq_true. Qed.

Lemma skipped_absent service o p : skipped o p (resolve_source service p require_dir_or_file) = true <-> absent o p.
Proof.
  unfold skipped, absent, resolve_source, require_dir_or_file, require. destruct (canonicalize p) as [real|].
  - destruct (file_type real) as [t|] eqn:Et; [split; [by destruct (_ || _)|]; intros (_ & [?|(src & [= <-] & Hs & _)]); congruence|].
    rewrite andb_true_iff. split; [intros [Ho He]; split; [done|]; right; by exists real|]. intros [Ho [?|(src & [= <-] & _ & He)]]; [done|]. by split.
  - rewrite eqb_refl, andb_true_r. split; [intros ->; split; [done|by left]|by intros [-> _]].
Qed.

Definition share_of (env : Env) (i : nat) (s : Service.t) (sh : PathShare) : Prop :=
  exists p m o, s = Service.PathShare p m o /\ sh_node sh = i /\ sh_dst sh = path_text p /\ sh_mode sh = m /\ resolved (path_text p) (sh_src sh).

Lemma path_share_ok env i s r : path_share env i s = Ok r ->
  match r with
  | Some sh => share_of env i s sh /\ clear env (sh_src sh) (sh_dst sh)
  | None => forall sh, ~ share_of env i s sh
  end.
Proof.
  unfold path_share. destruct s as [| | | | | | |p m o| | | | | | | | | | | | |]; try (intros [= <-]; by intros sh (? & ? & ? & ? & _)).
  destruct (skipped o _ _) eqn:Es.
  - intros [= <-] sh (p' & m' & o' & [= <- <- <-] & _ & _ & _ & Hr%(resolve_ok (B "path-share"))). by rewrite Hr in Es.
  - destruct (resolve_source _ _ _) as [src|] eqn:Er; [|done]. cbn [mbind result_bind]. destruct (denied_root env src (path_text p)) as [[root e]|] eqn:Ed; [done|].
    intros [= <-]. cbn [sh_src sh_dst]. split; [|by apply denied_root_none]. exists p, m, o. by repeat (split; [done|]); apply resolve_ok in Er.
Qed.

Lemma path_share_err env i s e : path_share env i s = Err e ->
  exists p m o, s = Service.PathShare p m o /\ ~ absent o (path_text p) /\ ~ exists src, resolved (path_text p) src /\ clear env src (path_text p).
Proof.
  unfold path_share. destruct s as [| | | | | | |p m o| | | | | | | | | | | | |]; try done. destruct (skipped o _ _) eqn:Es; [done|]. intros He.
  exists p, m, o. split; [done|]. split; [intros Ha; apply (skipped_absent (B "path-share")) in Ha; congruence|].
  intros (src & Hr%(resolve_ok (B "path-share")) & Hc%denied_root_none). rewrite Hr in He. cbn [mbind result_bind] in He. by rewrite Hc in He.
Qed.

Lemma loop_ok env i services shares : path_shares_loop env i services = Ok shares ->
  (forall sh, sh ∈ shares <-> exists k s, services !! k = Some s /\ share_of env (i + k) s sh) /\ Forall (fun sh => clear env (sh_src sh) (sh_dst sh)) shares.
Proof.
  revert i shares. induction services as [|s services IH]; intros i shares; cbn [path_shares_loop].
  - intros [= <-]. split; [|constructor]. intros sh. split; [by intros ?%elem_of_nil|by intros (k & s & Hk & _)].
  - destruct (path_share env i s) as [r|] eqn:Er; [|done]. cbn [mbind result_bind]. destruct (path_shares_loop env (S i) services) as [l|] eqn:El; [|done].
    cbn [mbind result_bind]. intros Hs. destruct (IH _ _ El) as [He Hc]. apply path_share_ok in Er.
    assert (forall sh, (exists k t, (s :: services) !! k = Some t /\ share_of env (i + k) t sh) <-> share_of env i s sh \/ sh ∈ l) as Hin.
    { intros sh. rewrite He. split.
      - intros ([|k] & t & Hk & Ht); [injection Hk as <-; left; by rewrite Nat.add_0_r in Ht|]. right. exists k, t. split; [done|]. by rewrite Nat.add_succ_comm.
      - intros [Ht|(k & t & Hk & Ht)]; [exists 0%nat, s; split; [done|]; by rewrite Nat.add_0_r|]. exists (S k), t. split; [done|]. by rewrite <-Nat.add_succ_comm. }
    destruct r as [sh|]; injection Hs as <-.
    + destruct Er as [Hsh Hcl]. split; [|by constructor]. intros x. rewrite Hin, elem_of_cons. split; [intros [->|?]; [by left|by right]|]. intros [Hx|?]; [|by right]. left.
      destruct Hsh as (p & m & o & -> & Hn & Hd & Hm & [Hr _]), Hx as (p' & m' & o' & [= <- <- <-] & Hn' & Hd' & Hm' & [Hr' _]). destruct x, sh. cbn in *. subst. rewrite Hr in Hr'. by injection Hr' as ->.
    + split; [|done]. intros x. rewrite Hin. split; [by right|]. intros [Hx|?]; [by apply Er in Hx|done].
Qed.

Lemma loop_err env i services e : path_shares_loop env i services = Err e -> exists k s, services !! k = Some s /\ exists e', path_share env (i + k) s = Err e'.
Proof.
  revert i. induction services as [|s services IH]; intros i; cbn [path_shares_loop]; [done|]. destruct (path_share env i s) as [r|e'] eqn:Er; cbn [mbind result_bind].
  - destruct (path_shares_loop env (S i) services) as [l|e''] eqn:El; [done|]. cbn [mbind result_bind]. intros [= ->]. destruct (IH _ El) as (k & t & Hk & x & Hx). exists (S k), t. split; [done|]. exists x. by rewrite <-Nat.add_succ_comm.
  - intros _. exists 0%nat, s. split; [done|]. exists e'. by rewrite Nat.add_0_r.
Qed.

(** Neither end of one share meets the same end of the other. *)
Definition disjoint_ends (src dst src' dst' : bytes) : Prop := apart src src' /\ apart dst dst'.

Lemma overlap_none src dst o dst' : overlap src dst (Some o) dst' = None <-> disjoint_ends src dst o dst'.
Proof. unfold overlap, disjoint_ends. rewrite <-!nested_apart. destruct (nested dst dst'), (nested src o); naive_solver. Qed.

Lemma overlap_with_none a l : overlap_with a l = None <-> Forall (fun b => disjoint_ends (sh_src a) (sh_dst a) (sh_src b) (sh_dst b)) l.
Proof.
  induction l as [|b l IH]; cbn [overlap_with]; [by split|]. rewrite Forall_cons, <-IH, <-overlap_none. destruct (overlap _ _ _ _); naive_solver.
Qed.

Definition all_apart (l : list PathShare) : Prop :=
  forall i j a b, (i < j)%nat -> l !! i = Some a -> l !! j = Some b -> disjoint_ends (sh_src a) (sh_dst a) (sh_src b) (sh_dst b).

Lemma overlaps_none l : overlaps l = None <-> all_apart l.
Proof.
  unfold all_apart. induction l as [|a l IH]; cbn [overlaps]; [split; [by intros _ ? ? ? ? _ ?|done]|]. destruct (overlap_with a l) eqn:E.
  - split; [done|]. intros Hd. assert (overlap_with a l = None) as Hn; [|congruence]. apply overlap_with_none, Forall_forall. intros b [j Hj]%list_elem_of_lookup. apply (Hd 0%nat (S j)); [lia|done|done].
  - apply overlap_with_none in E. rewrite Forall_forall in E. rewrite IH. split.
    + intros Hl [|i] [|j] x y Hij Hx Hy; try lia; [injection Hx as <-; apply E; by eapply list_elem_of_lookup_2|]. apply (Hl i j); [lia|done|done].
    + intros Hl i j x y Hij Hx Hy. apply (Hl (S i) (S j)); [lia|done|done].
Qed.

Lemma overlap_with_some a l r : overlap_with a l = Some r -> exists b, b ∈ l /\ ~ disjoint_ends (sh_src a) (sh_dst a) (sh_src b) (sh_dst b).
Proof.
  induction l as [|b l IH]; cbn [overlap_with]; [done|]. destruct (overlap _ _ _ _) eqn:E.
  - intros _. exists b. split; [by left|]. intros Hd%overlap_none. congruence.
  - intros (c & Hc & Hd)%IH. exists c. split; [by right|done].
Qed.

(** Shares stand in the order of their nodes. *)
Lemma loop_sorted env i services shares : path_shares_loop env i services = Ok shares -> StronglySorted (fun a b => (sh_node a < sh_node b)%nat) shares.
Proof.
  revert i shares. induction services as [|s services IH]; intros i shares; cbn [path_shares_loop]; [intros [= <-]; constructor|].
  destruct (path_share env i s) as [r|] eqn:Er; [|done]. cbn [mbind result_bind]. destruct (path_shares_loop env (S i) services) as [l|] eqn:El; [|done].
  cbn [mbind result_bind]. intros [= <-]. specialize (IH _ _ El). apply path_share_ok in Er. apply loop_ok in El as [He _]. destruct r as [sh|]; [|done].
  constructor; [done|]. apply Forall_forall. intros x (k & t & _ & (p & m & o & _ & -> & _))%He. destruct Er as ((p' & m' & o' & _ & -> & _) & _). lia.
Qed.

Lemma overlaps_some l r : StronglySorted (fun a b => (sh_node a < sh_node b)%nat) l -> overlaps l = Some r ->
  exists a b, a ∈ l /\ b ∈ l /\ (sh_node a < sh_node b)%nat /\ ~ disjoint_ends (sh_src a) (sh_dst a) (sh_src b) (sh_dst b).
Proof.
  induction 1 as [|a l Hl IH Ha]; cbn [overlaps]; [done|]. rewrite Forall_forall in Ha. destruct (overlap_with a l) eqn:E.
  - intros _. apply overlap_with_some in E as (b & Hb & Hd). exists a, b. split; [by left|]. split; [by right|]. split; [by apply Ha|done].
  - intros (x & y & Hx & Hy & Hd)%IH. exists x, y. split; [by right|]. split; [by right|done].
Qed.

(** C4. The paths a configuration shares are exactly those it names that are there, and
    nothing else comes with one: no path at or below a share is at or below a root that is
    reserved or another share, neither on the host nor where it lands.  Where sharing is
    refused there is a share that is not there though it has to be, or that meets such a
    root, or two that meet. *)
Theorem shares_keep_clear services env :
  match path_shares services env with
  | Ok shares =>
    (forall sh, sh ∈ shares <-> exists s, services !! sh_node sh = Some s /\ share_of env (sh_node sh) s sh) /\
    (forall sh, sh ∈ shares -> clear env (sh_src sh) (sh_dst sh)) /\ all_apart shares
  | Err _ =>
    (exists p m o, Service.PathShare p m o ∈ services /\ ~ absent o (path_text p) /\ ~ exists src, resolved (path_text p) src /\ clear env src (path_text p)) \/
    (exists s t a b, (sh_node a < sh_node b)%nat /\ services !! sh_node a = Some s /\ services !! sh_node b = Some t /\ share_of env (sh_node a) s a /\
       share_of env (sh_node b) t b /\ ~ disjoint_ends (sh_src a) (sh_dst a) (sh_src b) (sh_dst b))
  end.
Proof.
  unfold path_shares. destruct (path_shares_loop env 0 services) as [shares|e] eqn:E; cbn [mbind result_bind].
  - pose proof (loop_sorted _ _ _ _ E) as Hsort. apply loop_ok in E as [Hin Hc].
    assert (forall sh, sh ∈ shares <-> exists s, services !! sh_node sh = Some s /\ share_of env (sh_node sh) s sh) as Hmem.
    { intros sh. rewrite Hin. split; [intros (k & s & Hk & Hs)|intros (s & Hk & Hs); by exists (sh_node sh), s]. cbn [Nat.add] in Hs. pose proof Hs as (p & m & o & -> & Hn & _). subst k. by eexists. }
    destruct (overlaps shares) eqn:Eo.
    + right. destruct (overlaps_some _ _ Hsort Eo) as (a & b & (s & Hs & Ha)%Hmem & (t & Ht & Hb)%Hmem & Hab & Hd). by exists s, t, a, b.
    + apply overlaps_none in Eo. split; [|split; [|done]].
      * exact Hmem.
      * by rewrite Forall_forall in Hc.
  - left. apply loop_err in E as (k & s & Hk & e' & He'). apply path_share_err in He' as (p & m & o & -> & Hr). exists p, m, o. split; [by eapply list_elem_of_lookup_2|done].
Qed.

(** ** Shares that land in the home *)

(** A source below the home as the host resolves it, apart from every reserved root that is
    not the home itself, at a place below the sandbox's home. *)
Definition home_clear (env : Env) (src dst : bytes) : Prop :=
  (exists h, canonicalize (home env) = Some h /\ Path.starts_with src h = true) /\ components dst <> components SANDBOX_HOME /\
  forall root, root ∈ env_roots env -> (Path.eqb (home env) root = true \/ exists h, canonicalize (home env) = Some h /\ Path.eqb h root = true) \/ apart src root.

Lemma confine_ok service root src outside real : confine service root src outside = Ok real ->
  (exists r, canonicalize root = Some r /\ Path.starts_with real r = true) /\ canonicalize src = Some real.
Proof.
  unfold confine. destruct (canonicalize root) as [r|]; [|done]. destruct (resolve_source service src require_exists) as [x|] eqn:E; [|done]. cbn [mbind result_bind].
  destruct (Path.starts_with x r) eqn:Es; [|done]. intros [= <-]. split; [by exists r|]. unfold resolve_source in E. destruct (canonicalize src) as [y|]; [|done].
  unfold require_exists in E. destruct (file_type y); [|done]. by injection E as ->.
Qed.

Lemma deny_home_ok env service written src dst : deny_reserved_in_home env service written src dst = Ok tt ->
  components dst <> components SANDBOX_HOME /\
  forall root, root ∈ env_roots env -> (Path.eqb (home env) root = true \/ exists h, canonicalize (home env) = Some h /\ Path.eqb h root = true) \/ apart src root.
Proof.
  unfold deny_reserved_in_home, denied_root_in_home. destruct (Path.eqb dst SANDBOX_HOME) eqn:Ed; [done|]. intros Hd. split; [unfold Path.eqb in Ed; by apply bool_decide_eq_false in Ed|].
  destruct (List.find _ _) as [r|] eqn:Ef; [done|]. apply find_none in Ef. rewrite Forall_forall in Ef. intros root Hr.
  destruct (existsb (fun h => Path.eqb h root) (home env :: match canonicalize (home env) with Some h => [h] | None => [] end)) eqn:Eh.
  - left. apply existsb_exists in Eh as (h & [->|Hin] & He); [by left|]. right. destruct (canonicalize (home env)) as [x|]; [|done]. destruct Hin as [->|[]]. by exists h.
  - right. apply nested_apart, Ef. apply list_elem_of_In, filter_In. split; [by apply list_elem_of_In|]. by rewrite Eh.
Qed.

Lemma home_source_ok env rel o src : home_source env rel o = Ok (Some src) ->
  canonicalize (Path.join (home env) rel) = Some src /\ exists h, canonicalize (home env) = Some h /\ Path.starts_with src h = true.
Proof.
  unfold home_source. destruct (skipped _ _ _); [done|]. destruct (confine _ _ _ _) as [x|] eqn:E; [|done]. cbn [mbind result_bind]. intros [= <-].
  apply confine_ok in E as [Hh Hc]. by split.
Qed.

(** ** The shares of a run *)

(** What one flag comes to. *)
Definition flag_ok (env : Env) (written : bytes) (x : bytes * bytes) : Prop :=
  resolved written x.1 /\ (exists comps, components written = RootDir :: comps /\ forallb is_normal comps = true) /\
  ((exists rel, Path.strip_prefix written (home env) = Some rel /\ x.2 = Path.join SANDBOX_HOME rel /\ home_clear env x.1 x.2) \/
   (Path.strip_prefix written (home env) = None /\ x.2 = path_text (components written) /\ clear env x.1 written)).

Lemma share_paths_ok env written x : share_paths env written = Ok x -> flag_ok env written x.
Proof.
  unfold share_paths, flag_ok. destruct (components written) as [|[| | |] comps] eqn:Ec; try done. destruct (forallb is_normal comps) eqn:En; [|done]. cbn [negb].
  destruct (Path.strip_prefix written (home env)) as [rel|].
  - destruct (confine _ _ _ _) as [src|] eqn:E; [|done]. cbn [mbind result_bind]. destruct (require_dir_or_file _ src) as [src'|] eqn:Er; [|done]. cbn [mbind result_bind].
    destruct (deny_reserved_in_home _ _ _ _ _) as [[]|] eqn:Ed; [|done]. cbn [mbind result_bind]. intros [= <-]. cbn [fst snd].
    apply confine_ok in E as [Hh Hc]. unfold require_dir_or_file in Er. apply require_ok in Er as (-> & t & Ht & Ha). split; [split; [done|]; rewrite Ht; destruct t; try discriminate Ha; [by right|by left]|].
    split; [by exists comps|]. left. exists rel. split; [done|]. split; [done|]. split; [done|]. by apply (deny_home_ok env (B "--share") written).
  - destruct (resolve_source _ _ _) as [src|] eqn:E; [|done]. cbn [mbind result_bind]. destruct (denied_root env src written) as [[root e]|] eqn:Ed; [done|].
    intros [= <-]. cbn [fst snd]. split; [by apply resolve_ok in E|]. split; [by exists comps|]. right. split; [done|]. split; [done|]. by apply denied_root_none.
Qed.

Definition config_apart (config : list (option bytes * bytes)) (x : bytes * bytes) : Prop :=
  forall o dst, (Some o, dst) ∈ config -> disjoint_ends x.1 x.2 o dst.
Definition flags_apart (l : list (bytes * bytes)) : Prop :=
  forall i j a b, (i < j)%nat -> l !! i = Some a -> l !! j = Some b -> disjoint_ends b.1 b.2 a.1 a.2.

Lemma first_overlap_none src dst l : first_overlap src dst l = None <-> Forall (fun o => overlap src dst o.1 o.2 = None) l.
Proof.
  unfold first_overlap. induction l as [|o l IH]; cbn [omap list_omap]; [by split|]. rewrite Forall_cons, <-IH. destruct (overlap _ _ _ _); naive_solver.
Qed.

Lemma share_one_ok env config out written out' : share_one env config out written = Ok out' ->
  exists x, out' = out ++ [x] /\ flag_ok env written x /\ config_apart config x /\ forall a, a ∈ out -> disjoint_ends x.1 x.2 a.1 a.2.
Proof.
  unfold share_one. destruct (share_paths env written) as [[src dst]|] eqn:E; [|done]. cbn [mbind result_bind].
  destruct (existsb _ config); [done|]. destruct (existsb _ out); [done|]. destruct (first_overlap _ _ _) eqn:Ef; [done|]. intros [= <-].
  apply first_overlap_none in Ef. rewrite Forall_app, !Forall_forall in Ef. destruct Ef as [Hc Ho]. exists (src, dst). split; [done|]. split; [by apply share_paths_ok|]. split.
  - intros o d Hin. apply overlap_none, (Hc _ Hin).
  - intros a Ha. apply overlap_none. apply (Ho (Some a.1, a.2)). apply list_elem_of_fmap. by exists a.
Qed.

Lemma plan_loop_ok env config flags out plan : fold_res (share_one env config) out flags = Ok plan -> flags_apart out -> Forall (config_apart config) out ->
  exists new, plan = out ++ new /\ Forall2 (flag_ok env) flags new /\ flags_apart plan /\ Forall (config_apart config) plan.
Proof.
  revert out. induction flags as [|w flags IH]; intros out; cbn [fold_res].
  - intros [= <-] Ha Hc. exists []. by rewrite app_nil_r.
  - destruct (share_one env config out w) as [out'|] eqn:E; [|done]. intros Hp Ha Hc. apply share_one_ok in E as (x & -> & Hx & Hcx & Hout).
    destruct (IH _ Hp) as (new & -> & Hn & Hap & Hcp).
    + intros i j a b Hij Hi Hj. apply lookup_app_Some in Hj as [Hj|[Hl Hj]].
      * rewrite lookup_app_l in Hi by (apply lookup_lt_Some in Hj; lia). by apply (Ha i j).
      * apply list_lookup_singleton_Some in Hj as [Hj <-]. rewrite lookup_app_l in Hi by lia. apply Hout. by eapply list_elem_of_lookup_2.
    + apply Forall_app. split; [done|]. by constructor.
    + exists (x :: new). rewrite <-app_assoc in *. split; [done|]. split; [by constructor|]. done.
Qed.

(** The shares given on the command line are held to what those of the configuration
    are: each is there, absolute and without [.] or [..]; one below the home stays below it
    when links are resolved, lands below the sandbox's home and keeps clear of what bubbler
    keeps there, any other lands at its own path clear of every reserved root; and none
    meets another flag or a share of the configuration, at either end. *)
Theorem flags_keep_clear services shares env plan :
  share_plan services shares env = Ok plan ->
  Forall2 (flag_ok env) (map fst shares) plan /\ flags_apart plan /\
  exists config, config_shares services env = Ok config /\ Forall (config_apart config) plan.
Proof.
  unfold share_plan. destruct (config_shares services env) as [config|] eqn:Ec; [|done]. cbn [mbind result_bind]. intros Hp.
  destruct (plan_loop_ok env config _ _ _ Hp) as (new & -> & Hn & Ha & Hc); [by intros ? ? ? ? _ ?|constructor|]. cbn [app] in *.
  split; [done|]. split; [done|]. by exists config.
Qed.
End Shares.

(** ** A host to share from *)

Section Demo.
#[local] Instance shared_host : Host :=
  {| file_type _ := Some FileType.Dir; list_dir _ := []; canonicalize p := Some p; is_mountpoint _ := None; writable _ := false;
     read_link _ := Ok None; read _ := None; current_exe := None |}.

Definition share_services : list Service.t :=
  [Service.PathShare [RootDir; Normal (B "srv"); Normal (B "music")] ShareMode.ReadOnly false; Service.Notify].

Lemma flags_keep_clear_witness : exists plan, share_plan share_services [(B "/home/user/work", ShareMode.ReadWrite); (B "/mnt/disk", ShareMode.ReadOnly)] demo_env = Ok plan /\
  flags_apart plan /\ share_plan share_services [(B "/srv/music/x", ShareMode.ReadOnly)] demo_env <> Ok [(B "/srv/music/x", B "/srv/music/x")].
Proof.
  assert (exists plan, share_plan share_services [(B "/home/user/work", ShareMode.ReadWrite); (B "/mnt/disk", ShareMode.ReadOnly)] demo_env = Ok plan) as [plan Hp] by (eexists; vm_compute; reflexivity).
  exists plan. split; [exact Hp|]. split; [exact (proj1 (proj2 (flags_keep_clear _ _ _ _ Hp)))|]. intros E. vm_compute in E. discriminate E.
Defined.
End Demo.
