(* ===== verification/Dri.v ===== *)
(** The GPU (bubbler-core/src/service/dri.rs): the render nodes udev links to, the primary
    nodes where they are asked for, and the devices' own directories with the primary nodes
    in them masked. *)
From S2P Require Export Bwrap.

Definition DRI_DEV : bytes := B "/dev/dri".
Definition DRM_CLASS : bytes := B "/sys/class/drm".

(** [BTreeSet::insert]: names in the order of their bytes, each once. *)
Fixpoint bytes_lt (a b : bytes) : bool :=
  match a, b with
  | [], [] => false
  | [], _ :: _ => true
  | _ :: _, [] => false
  | x :: a, y :: b => (u8 x <? u8 y) || ((u8 x =? u8 y) && bytes_lt a b)
  end.

Fixpoint insert_name (n : bytes) (l : list bytes) : list bytes :=
  match l with
  | [] => [n]
  | m :: l' => if bool_decide (n = m) then l else if bytes_lt n m then n :: l else m :: insert_name n l'
  end.

Section Dri.
Context `{Host}.

(** The node a link of udev's names: [../<node>] and no other shape. *)
Definition linked_node (target : bytes) : option bytes :=
  match components target with [ParentDir; Normal node] => Some node | _ => None end.

Definition dri_node (by_path : bytes) (acc : list bytes * list bytes) (entry : bytes) : list bytes * list bytes :=
  let '(render, card) := acc in
  let node := match read_link (Path.join by_path entry) with Ok (Some target) => linked_node target | _ => None end in
  if ends_with (B "-render") entry then (match node with Some n => insert_name n render | None => render end, card)
  else if ends_with (B "-card") entry then (render, match node with Some n => insert_name n card | None => card end)
  else acc.

Definition dri_nodes (by_path : bytes) : list bytes * list bytes := fold_left (dri_node by_path) (list_dir by_path) ([], []).

Definition dri_driver (dir : bytes) : option bytes :=
  match read_link (Path.join dir (B "driver")) with Ok (Some target) => Path.file_name target | _ => None end.

Definition dri_binds_a_primary_node : bool :=
  let '(render, _) := dri_nodes (Path.join DRI_DEV (B "by-path")) in
  existsb (fun name =>
    match canonicalize (Path.join (Path.join DRM_CLASS name) (B "device")) with
    | Some dir => bool_decide (dri_driver dir = Some (B "nvidia"))
    | None => false
    end) render.

(** One entry of a device's [drm] directory, where the primary nodes stay out. *)
Definition mask_card (nvidia : bool) (drm : bytes) (a : BwrapArgs) (entry : bytes) : BwrapArgs :=
  let card := Path.join drm entry in
  if negb (starts_with (B "card") entry) || negb (is_type FileType.Dir card) then a
  else
    let a := if nvidia then let node := Path.join DRI_DEV entry in dev_bind node node a else a in
    mask_dir card a.

Definition dri_sysfs (kms : bool) (a : BwrapArgs) (name : bytes) : result LaunchError.t BwrapArgs :=
  let class := Path.join DRM_CLASS name in
  let link := Path.join class (B "device") in
  match canonicalize link with
  | None => Err (LaunchError.MissingResource (B "dri") link)
  | Some dir =>
    match Path.strip_prefix dir (B "/sys/devices") with
    | None => Err (LaunchError.BadValue (B "dri") (B "`" ++ Path.display link ++ B "` resolves to `" ++ Path.display dir ++ B "`, outside /sys/devices"))
    | Some rel =>
      let a := ro_bind dir dir a in
      let drm := Path.join dir (B "drm") in
      let a := if kms then a
               else fold_left (mask_card (bool_decide (dri_driver dir = Some (B "nvidia"))) drm) (list_dir drm) a in
      Ok (symlink (Path.join (Path.join (Path.join (B "../../devices") rel) (B "drm")) name) class a)
    end
  end.

Definition dev_node (dev : bytes) (a : BwrapArgs) (name : bytes) : BwrapArgs := let node := Path.join dev name in dev_bind node node a.

Definition ro_dir (service : bytes) (a : BwrapArgs) (p : bytes) : result LaunchError.t BwrapArgs := p ← require_dir service p; Ok (ro_bind p p a).

Definition nvidia_node (a : BwrapArgs) (name : bytes) : BwrapArgs :=
  let p := Path.join (B "/dev") name in
  if starts_with (B "nvidia") name && is_type FileType.CharDevice p then dev_bind p p a else a.

Definition nvidia_module (a : BwrapArgs) (name : bytes) : BwrapArgs :=
  let p := Path.join (B "/sys/module") name in
  if starts_with (B "nvidia") name && is_type FileType.Dir p then ro_bind p p a else a.

Definition dri (kms : bool) (a : BwrapArgs) : result LaunchError.t BwrapArgs :=
  dev ← require_dir (B "dri") DRI_DEV;
  let by_path := Path.join dev (B "by-path") in
  let '(render, card) := dri_nodes by_path in
  if bool_decide (render = []) then Err (LaunchError.MissingResource (B "dri") by_path)
  else
    let a := fold_left (dev_node dev) render a in
    let a := if kms then fold_left (dev_node dev) card a else a in
    a ← fold_res (ro_dir (B "dri")) a [B "/sys/dev/char"; B "/sys/devices/system/cpu"];
    a ← fold_res (dri_sysfs kms) a render;
    let version := Path.join DRM_CLASS (B "version") in
    let a := if is_type FileType.File version then ro_bind version version a else a in
    let a := fold_left nvidia_node (list_dir (B "/dev")) a in
    Ok (fold_left nvidia_module (list_dir (B "/sys/module")) a).
End Dri.
