(* ===== verification/Grants.v ===== *)
(** The grants of a configuration as calls of the builder (bubbler-core/src/service.rs).

    A grant may warn on stderr; the lines are kept beside the arguments.  [Panicked] is a
    builder function that found no operation to replace. *)
From S2P Require Export Sidecar Shares Dri.

Definition NET_PROXY_NAME : bytes := B "bubbler-net-proxy".
Definition NET_PROXY_INSTALLED : bytes := B "/usr/lib/bubbler/bubbler-net-proxy".
Definition NET_PROXY_INSIDE : bytes := B "/run/bubbler-net-proxy".

Inductive Fault := Refused (e : LaunchError.t) | Panicked.

#[global] Instance Fault_eq_dec : EqDecision Fault.
Proof. solve_decision. Defined.

(** The arguments so far and what was said on stderr. *)
Record St := mkSt { built : BwrapArgs; said : list bytes }.

Definition put (f : BwrapArgs -> BwrapArgs) (s : St) : St := mkSt (f (built s)) (said s).
Definition warn (line : bytes) (s : St) : St := mkSt (built s) (said s ++ [line]).
Definition lift {A} (r : result LaunchError.t A) : result Fault A := match r with Ok a => Ok a | Err e => Err (Refused e) end.
Definition sure {A} (o : option A) : result Fault A := match o with Some a => Ok a | None => Err Panicked end.
Definition try_put (f : BwrapArgs -> result LaunchError.t BwrapArgs) (s : St) : result Fault St := a ← lift (f (built s)); Ok (mkSt a (said s)).

Record ServiceCtx := mkCtx { instance_runtime : bytes; dbus : option Dbus.Plan; wayland_plan : option Wayland.WaylandPlan; init_bin : bytes }.

Section Grants.
Context `{Host} `{IpText}.

Definition net_proxy_program (env : Env) : result LaunchError.t (bytes * Found) :=
  locate_binary (net_proxy_override env) NET_PROXY_NAME NET_PROXY_INSTALLED (B "network").

Definition put_env (pairs : list (bytes * bytes)) (s : St) : St := fold_left (fun s kv => put (setenv kv.1 kv.2) s) pairs s.

Definition network (env : Env) (cfg : NetworkConfig) (s : St) : result Fault St :=
  let host := bool_decide (mode cfg = Mode.Host) in
  let s := if host then put share_net s else s in
  s ← match resolv_conf cfg with
      | Some content => Ok (put (ro_bind_data content (B "/etc/resolv.conf")) s)
      | None => if host then p ← lift (require_file (B "network") (B "/etc/resolv.conf")); Ok (put (ro_bind p p) s) else Ok s
      end;
  if bool_decide (allow_hosts cfg = []) then Ok s
  else
    '(program, _) ← lift (net_proxy_program env);
    Ok (put_env (proxy_env PROXY_PORT) (put (ro_bind program NET_PROXY_INSIDE) s)).

Definition check_wayland_display (value : option bytes) : result LaunchError.t bytes :=
  match value with
  | None => Err (LaunchError.MissingEnv (B "wayland") (B "WAYLAND_DISPLAY"))
  | Some display =>
    match components display with
    | [Normal _] => Ok display
    | _ => Err (BadValue (B "wayland") (B "cannot use WAYLAND_DISPLAY=" ++ from_utf8_lossy display ++ B "; only a plain socket name is supported"))
    end
  end.

Definition wayland_display_of (env : Env) : result LaunchError.t bytes := check_wayland_display (wayland_display env).

Definition wayland (env : Env) (claim_session : bool) (plan : option Wayland.WaylandPlan) (s : St) : result Fault St :=
  display ← lift (wayland_display_of env);
  let inside := Path.join (runtime_dir env) display in
  s ← match plan with
      | Some (Wayland.Proxy socket) => Ok (put (ro_bind socket inside) s)
      | _ => sock ← lift (require_socket (B "wayland") inside); Ok (put (ro_bind sock sock) s)
      end;
  let s := put (setenv (B "WAYLAND_DISPLAY") display) s in
  Ok (if claim_session then put (setenv (B "XDG_SESSION_TYPE") (B "wayland")) s else s).

Definition x11_display_number (display : bytes) : option Z :=
  if negb (utf8_valid display) then None
  else
    rest ← match Bytes.strip_prefix [COLON] display with Some r => Some r | None => Bytes.strip_prefix (B "unix:") display end;
    num ← head (split_on DOT rest);
    if starts_with [PLUS] num then None else parse_uint U32_MAX num.

Definition x11_cookie (env : Env) : result LaunchError.t (option bytes) :=
  match xauthority env with
  | Some xa => p ← require_file (B "x11") xa; Ok (Some p)
  | None => let p := Path.join (home env) (B ".Xauthority") in Ok (if is_type FileType.File p then Some p else None)
  end.

Definition x11_grant (env : Env) (mode : X11Mode.t) (s : St) : result Fault St :=
  match mode with
  | X11Mode.Nested nested =>
    _ ← lift (require_file (B "x11") XWAYLAND);
    Ok (put (x11_server (xwayland_argv nested) (Config.wm nested)) (put (setenv (B "DISPLAY") (B ":0")) s))
  | X11Mode.Host =>
    match display env with
    | None => Err (Refused (LaunchError.MissingEnv (B "x11") (B "DISPLAY")))
    | Some display =>
      match x11_display_number display with
      | None => Err (Refused (BadValue (B "x11") (B "cannot use DISPLAY=" ++ from_utf8_lossy display ++ B "; only local displays like :0 are supported")))
      | Some n =>
        sock ← lift (require_socket (B "x11") (B "/tmp/.X11-unix/X" ++ decimal n));
        let s := put (setenv (B "DISPLAY") (B ":" ++ decimal n)) (put (ro_bind sock sock) s) in
        cookie ← lift (x11_cookie env);
        Ok (match cookie with
            | Some p => let inner := Path.join SANDBOX_HOME (B ".Xauthority") in put (setenv (B "XAUTHORITY") inner) (put (ro_bind p inner) s)
            | None => s
            end)
      end
    end
  end.

(** A directory bound read-only where the host has it. *)
Definition optional_dir (service : bytes) (p : bytes) (s : St) : result Fault St :=
  match file_type p with
  | None => Ok s
  | Some FileType.Dir => Ok (put (ro_bind p p) s)
  | Some _ => Err (Refused (LaunchError.WrongType service p (B "a directory")))
  end.

(** The character devices of [/dev] with one of these names. *)
Definition dev_nodes (named : bytes -> bool) (s : St) : St :=
  fold_left (fun s name =>
    let p := Path.join (B "/dev") name in
    if named name && is_type FileType.CharDevice p then put (dev_bind_try p p) s else s) (list_dir (B "/dev")) s.

Definition hidraw (service : bytes) (s : St) : result Fault St :=
  optional_dir service (B "/sys/class/hidraw") (dev_nodes (starts_with (B "hidraw")) s).

Definition gamepad_uinput (s : St) : result Fault St :=
  p ← lift (require (B "gamepad") (B "/dev/uinput") (B "a character device") (fun t => bool_decide (t = FileType.CharDevice)));
  Ok (warn (B "bubbler: warning: gamepad uinput=#true: the sandbox can create virtual input devices and type into your session")
        (put (dev_bind p p) s)).

Definition gamepad (hidraw_node : option (bytes * Origin.t)) (uinput : bool) (s : St) : result Fault St :=
  let pad := origin (built s) in
  dev ← lift (require_dir (B "gamepad") (B "/dev/input"));
  let s := put (dev_bind dev dev) s in
  s ← try_put (fun a => fold_res (ro_dir (B "gamepad")) a [B "/sys/class/input"; B "/sys/devices"]) s;
  s ← optional_dir (B "gamepad") (B "/run/udev") s;
  s ← match hidraw_node with
      | Some (node, o) => s ← hidraw node (put (tag o) s); Ok (put (tag pad) s)
      | None => Ok s
      end;
  if uinput then gamepad_uinput s else Ok s.

Definition is_gamepad (s : Service.t) : bool := match s with Service.Gamepad _ _ => true | _ => false end.

Definition camera_nodes (udev : bool) (s : St) : result Fault St :=
  fold_res (fun s p => optional_dir (B "camera") p s) (dev_nodes (fun n => starts_with (B "video") n || starts_with (B "media") n) s)
    ([B "/dev/v4l"; B "/sys/class/video4linux"; B "/sys/bus/media"] ++ if udev then [B "/run/udev"] else []).

Definition camera (services : list Service.t) (nodes : bool) (s : St) : result Fault St :=
  if negb (existsb is_portals services) then Err (Refused (BadValue (B "camera") (B "requires portals")))
  else if nodes then camera_nodes (negb (existsb is_gamepad services)) s
  else Ok s.

Definition audio_context : result LaunchError.t unit := _ ← require_file (B "pipewire") Pipewire.PW_CONTAINER; Ok tt.

Definition pipewire (env : Env) (ctx : ServiceCtx) (s : St) : result Fault St :=
  _ ← lift audio_context;
  Ok (put (ro_bind (Pipewire.socket (instance_runtime ctx)) (Path.join (runtime_dir env) (B "pipewire-0"))) s).

Definition pulseaudio (env : Env) (ctx : ServiceCtx) (s : St) : result Fault St :=
  _ ← lift audio_context;
  _ ← lift (require_file (B "pulseaudio") Pipewire.PULSE_MODULE);
  let inside := Path.join (runtime_dir env) (B "pulse/native") in
  Ok (put (setenv (B "PULSE_SERVER") (B "unix:" ++ inside)) (put (ro_bind (Pipewire.pulse_socket (instance_runtime ctx)) inside) s)).

Definition dbus_socket (env : Env) (ctx : ServiceCtx) (s : St) : St :=
  let inside := Path.join (runtime_dir env) (B "bus") in
  put (setenv (B "DBUS_SESSION_BUS_ADDRESS") (B "unix:path=" ++ inside))
    (put (ro_bind (Dbus.app_bus_path (instance_runtime ctx) Dbus.SESSION_SOCKET) inside) s).

Definition system_bus_socket (ctx : ServiceCtx) (s : St) : St :=
  put (ro_bind (Dbus.app_bus_path (instance_runtime ctx) Dbus.SYSTEM_SOCKET) Dbus.SYSTEM_BUS_PATH) s.

Definition a11y (env : Env) (ctx : ServiceCtx) (s : St) : result Fault St :=
  match dbus ctx ≫= Dbus.a11y with
  | None => Err (Refused (BadValue Dbus.A11Y_NODE (B "requires dbus")))
  | Some _ =>
    let inside := Path.join (Path.join (runtime_dir env) (B "at-spi")) (B "bus") in
    Ok (put (setenv (B "AT_SPI_BUS_ADDRESS") (B "unix:path=" ++ inside))
          (put (ro_bind (Dbus.app_bus_path (instance_runtime ctx) Dbus.A11Y_SOCKET) inside) s))
  end.

Definition input_method : St -> St := put (setenv (B "IBUS_USE_PORTAL") (B "1")).

Definition portals (env : Env) (ctx : ServiceCtx) (s : St) : result Fault St :=
  match (plan ← dbus ctx; if Dbus.session plan then Some plan else None) with
  | None => Err (Refused (BadValue (B "portals") (B "requires dbus")))
  | Some plan =>
    let s := put (flatpak_spawn_shim (init_bin ctx)) (put (ro_bind_data (Dbus.flatpak_info_ plan) Dbus.FLATPAK_INFO) s) in
    let doc := Path.join (runtime_dir env) (B "doc") in
    if is_type FileType.Dir doc && bool_decide (is_mountpoint doc = Some true)
    then Ok (put (bind (Path.join (Path.join doc (B "by-app")) (Dbus.app_id_ plan)) doc) s)
    else Ok (warn (B "bubbler: warning: portals: no document portal at " ++ Path.display doc ++
                   B ", so a file picked in a portal dialog cannot be opened inside") s)
  end.

Fixpoint apply_env_loop (i : nat) (pairs : list (bytes * bytes)) (s : St) : result Fault St :=
  match pairs with
  | [] => Ok s
  | (k, v) :: pairs =>
    let s := put (tag (Origin.Env i)) s in
    if bool_decide (k ∈ RESERVED_ENV) then Err (Refused (BadValue (B "env") (k ++ B " is set by bubbler and cannot be overridden")))
    else apply_env_loop (S i) pairs (put (setenv k v) s)
  end.
Definition apply_env : list (bytes * bytes) -> St -> result Fault St := apply_env_loop 0.

Definition etc_share (name : bytes) (a : BwrapArgs) : result LaunchError.t BwrapArgs :=
  let dst := Path.join (B "/etc") name in
  src ← confine (B "etc-share") (B "/etc") dst (B "/etc");
  Ok (ro_bind src dst a).

Definition app_runtime_dir (env : Env) (id : bytes) : bytes := Path.join (Path.join (runtime_dir env) (B "app")) id.

Definition app_runtime (env : Env) (id : bytes) (mode : ShareMode.t) : BwrapArgs -> BwrapArgs :=
  let dir := app_runtime_dir env id in bind_mode mode dir dir.

(** ** All of them *)

Definition is_x11 (s : Service.t) : bool := match s with Service.X11 _ => true | _ => false end.

(** One service of the loop. *)
Definition apply_one (services : list Service.t) (env : Env) (ctx : ServiceCtx) (svc : Service.t) (s : St) : result Fault St :=
  match svc with
  | Service.Wayland _ => wayland env (negb (existsb is_x11 services)) (wayland_plan ctx) s
  | Service.X11 mode => x11_grant env mode s
  | Service.Network cfg => network env cfg s
  | Service.HomeShare p mode optional => try_put (home_share env (path_text p) mode optional) s
  | Service.Dri kms => try_put (dri kms) s
  | Service.Pipewire _ => pipewire env ctx s
  | Service.Pulseaudio _ => pulseaudio env ctx s
  | Service.EtcShare name => try_put (etc_share name) s
  | Service.AppRuntime id mode => Ok (put (app_runtime env id mode) s)
  | Service.Dbus _ => Ok (dbus_socket env ctx s)
  | Service.SystemBus _ => Ok (system_bus_socket ctx s)
  | Service.Portals _ => portals env ctx s
  | Service.Camera nodes => camera services nodes s
  | Service.PathShare _ _ _ | Service.Gamepad _ _ | Service.Hidraw | Service.Notify | Service.Tray | Service.Mpris _ => Ok s
  | Service.A11y => a11y env ctx s
  | Service.InputMethod => Ok (input_method s)
  end.

Fixpoint apply_loop (services : list Service.t) (env : Env) (ctx : ServiceCtx) (i : nat) (l : list Service.t) (s : St) : result Fault St :=
  match l with
  | [] => Ok s
  | svc :: l => s ← apply_one services env ctx svc (put (tag (Origin.Service i)) s); apply_loop services env ctx (S i) l s
  end.

Definition gamepad_of (s : Service.t) : option (bool * bool) := match s with Service.Gamepad h u => Some (h, u) | _ => None end.
Definition hidraw_of (s : Service.t) : option unit := match s with Service.Hidraw => Some tt | _ => None end.

(** The node the raw HID devices are granted by. *)
Definition hidraw_node (services : list Service.t) : option (bytes * Origin.t) :=
  let pad := Dbus.find_map gamepad_of 0 services in
  match Dbus.find_map hidraw_of 0 services, pad with
  | Some (i, _), _ => Some (B "hidraw", Origin.Service i)
  | None, Some (i, (true, _)) => Some (B "gamepad", Origin.Service i)
  | None, _ => None
  end.

Definition apply_devices (services : list Service.t) (s : St) : result Fault St :=
  match Dbus.find_map gamepad_of 0 services with
  | Some (i, (_, uinput)) => gamepad (hidraw_node services) uinput (put (tag (Origin.Service i)) s)
  | None => match hidraw_node services with Some (node, o) => hidraw node (put (tag o) s) | None => Ok s end
  end.

Definition apply_share (s : St) (sh : PathShare) : St := put (bind_mode (sh_mode sh) (sh_src sh) (sh_dst sh)) (put (tag (Origin.Service (sh_node sh))) s).

Definition apply_all (services : list Service.t) (env : Env) (ctx : ServiceCtx) (s : St) : result Fault St :=
  shares ← lift (path_shares services env);
  s ← apply_loop services env ctx 0 services s;
  s ← apply_devices services s;
  Ok (fold_left apply_share shares s).

(** The shares of the command line, and the first directory of them. *)
Fixpoint bind_shares (i : nat) (l : list (ShareMode.t * (bytes * bytes))) (cwd : option bytes) (s : St) : St * option bytes :=
  match l with
  | [] => (s, cwd)
  | (mode, (src, dst)) :: l =>
    let s := put (bind_mode mode src dst) (put (tag (Origin.Share i)) s) in
    let cwd := match cwd with Some d => Some d | None => if is_type FileType.Dir src then Some dst else None end in
    bind_shares (S i) l cwd s
  end.

Definition apply_shares (services : list Service.t) (shares : list (bytes * ShareMode.t)) (env : Env) (s : St) : result Fault St :=
  if bool_decide (shares = []) then Ok s
  else
    plan ← lift (share_plan services shares env);
    let '(s, cwd) := bind_shares 0 (zip (map snd shares) plan) None s in
    match cwd with Some d => a ← sure (chdir d (built s)); Ok (mkSt a (said s)) | None => Ok s end.
End Grants.
