(* ===== verification/Launch.v ===== *)
(** From a configuration to the arguments of its sandbox and of the processes beside it
    (bubbler-core/src/launcher.rs): [build_args_on], the filter, the dry run's allocator and
    the argv of each sidecar.

    Whether the note on skipped calls was given in this process is [noted]; the lines on
    stderr are those of [St].  [native] is the architecture bubbler was built for. *)
From S2P Require Export Grants.

(** ** What a dry run allocates *)

Definition data_name (prefix dest : bytes) : bytes :=
  prefix ++ Bytes.join [DASH] (omap (fun c => match c with Normal part => Some part | _ => None end) (components dest)).

Definition SIDECAR_PREFIX : bytes := B "proxy-".

Module DryRunAlloc.
Record t := mk { next : Z; dir : bytes; prefix : bytes }.
Definition new (dir : bytes) : t := mk 2 dir [].
Definition sidecar (dir : bytes) : t := mk 2 dir SIDECAR_PREFIX.
Definition bump (w : t) : result FsError (bytes * t) := let n := next w + 1 in Ok (decimal n, mk n (dir w) (prefix w)).

#[global] Instance alloc : FdAllocator t :=
  {| data _ := bump; file dest _ w := Ok (Path.join (dir w) (data_name (prefix w) dest), w); init_socket := bump; ready_pipe := bump;
     listener := bump; info_pipe := bump; block_pipe := bump |}.
End DryRunAlloc.

(** ** The configuration *)

Record Instance_t := mkInstanceT { i_name : bytes; i_dir : bytes; i_config : InstanceConfig }.
Definition instance_home (inst : Instance_t) : bytes := Path.join (i_dir inst) (B "home").

Definition network_of (services : list Service.t) : option NetworkConfig :=
  head (omap (fun s => match s with Service.Network cfg => Some cfg | _ => None end) services).
Definition wayland_mode (services : list Service.t) : option WaylandMode.t :=
  head (omap (fun s => match s with Service.Wayland mode => Some mode | _ => None end) services).
Definition wayland_node (services : list Service.t) : option Z := position is_wayland services.
Definition network_node (services : list Service.t) : option Z := position (fun s => match s with Service.Network _ => true | _ => false end) services.

Definition resolve_command (inst : Instance_t) (command : option (list bytes)) : result LaunchError.t (list bytes) :=
  match command with
  | Some ((_ :: _) as c) => Ok c
  | _ => match Config.command (i_config inst) with Some c => Ok c | None => Err LaunchError.MissingCommand end
  end.

(** ** The sandbox *)

Section Build.
Context `{Host} `{IpText} {F : Type} `{Libseccomp F} `{Target} (native : bytes).

Definition compile_for (set : RuleSet.t) (env : Env) (noted : bool) : result LaunchError.t (option Program) * bool * list bytes :=
  let '(r, noted, lines) := compile native set (seccomp_log env) noted in
  (match r with Ok p => Ok p | Err e => Err (LaunchError.Seccomp e) end, noted, lines).

Definition apply_seccomp (set : option RuleSet.t) (env : Env) (instance : bytes) (noted : bool) (s : St) : result Fault (St * bool) :=
  match set with
  | None => Ok (warn (B "bubbler: seccomp disabled for instance " ++ instance) s, noted)
  | Some set =>
    let '(r, noted, lines) := compile_for set env noted in
    let s := fold_left (fun s l => warn l s) lines s in
    program ← lift r;
    Ok (match program with
        | None => warn (B "bubbler: seccomp has no rules left for instance " ++ instance) s
        | Some p => put (add_seccomp (p_bytes p) (arches p)) s
        end, noted)
  end.

(** The first service that makes the sandbox wait at its start. *)
Definition waits (services : list Service.t) (plan : option Dbus.Plan) : option Z :=
  match (if match plan with Some p => Dbus.portals p | None => false end then position is_portals services else None) with
  | Some i => Some i
  | None => position (fun s => match s with Service.Network c => is_isolated c | _ => false end) services
  end.

(** The context the services are applied in. *)
Definition service_ctx (env : Env) (inst : Instance_t) (init : bytes) : ServiceCtx :=
  let runtime := Dbus.instance_runtime_dir env (i_name inst) in
  let services := services (i_config inst) in
  mkCtx runtime (Dbus.plan services (i_name inst)) ((fun m => Wayland.plan m runtime) <$> wayland_mode services) init.

Definition build_args (env : Env) (inst : Instance_t) (command : option (list bytes)) (tty : bool) (noted : bool)
  : result Fault (St * list bytes * bool) :=
  command ← lift (resolve_command inst command);
  let cfg := i_config inst in
  let plan := Dbus.plan (services cfg) (i_name inst) in
  init ← lift (locate env);
  let ctx := service_ctx env inst init in
  let a := baseline env (instance_home inst) in
  let a := if bool_decide (userns cfg = Userns.Disable) then disable_userns (tag Origin.Userns a) else a in
  a ← (if bool_decide (etc cfg = EtcMode.Host) then sure (bind_host_etc (tag Origin.Etc a)) else Ok a);
  a ← match tmp cfg with Some size => sure (tmp_size size (tag Origin.Tmp a)) | None => Ok a end;
  let a := if tty then ctty a else a in
  let a := match waits (services cfg) plan with
           | Some i => block_until_released (tag (Origin.Service (Z.to_nat i)) a)
           | None => a
           end in
  let s := mkSt (tag Origin.Seccomp a) [] in
  '(s, noted) ← apply_seccomp (RuleSet.with_ (seccomp cfg)) env (i_name inst) noted s;
  s ← apply_all (services cfg) env ctx s;
  s ← apply_shares (services cfg) (shares cfg) env s;
  s ← apply_env (Config.env cfg) s;
  Ok (put (bind_init init) (put (tag Origin.Init) s), command, noted).

Definition build_argv {W} `{FdAllocator W} (env : Env) (inst : Instance_t) (command : option (list bytes)) (tty noted : bool) (w : W)
  : result Fault (Argv * W) :=
  '(s, command, _) ← build_args env inst command tty noted;
  lift (finish (built s) command w).

Definition explain (env : Env) (inst : Instance_t) (command : option (list bytes)) (tty noted : bool) : result Fault (list Explained) :=
  '(s, command, _) ← build_args env inst command tty noted;
  '(es, _) ← lift (finish_explained (built s) command (DryRunAlloc.new (Dbus.instance_runtime_dir env (i_name inst))));
  Ok es.

(** ** The sidecars *)

(** The filter every sidecar gets, whatever the instance's own. *)
Definition default_filter (env : Env) (noted : bool) (s : St) : result Fault (St * bool) :=
  let s := put (tag Origin.Seccomp) s in
  let '(r, noted, lines) := compile_for RuleSet.default_set env noted in
  let s := fold_left (fun s l => warn l s) lines s in
  program ← lift r;
  Ok (match program with Some p => put (add_seccomp (p_bytes p) (arches p)) s | None => s end, noted).

Context {W : Type} `{FdAllocator W}.

Definition pw_context_argv (env : Env) (ctx : Pipewire.Context) (noted : bool) (w : W) : result Fault (Argv * W) :=
  '(report, w) ← lift (allocated (ready_pipe w));
  init ← lift (locate env);
  let a := pw_context_baseline (Pipewire.host_socket (runtime_dir env)) (Pipewire.dir (Pipewire.instance_runtime ctx)) in
  '(s, _) ← default_filter env noted (mkSt a []);
  let a := setenv Pipewire.REPORT_FD report (setenv (B "XDG_RUNTIME_DIR") (runtime_dir env)
             (ro_bind init Pipewire.HOLDER_INSIDE (tag Origin.Command (built s)))) in
  lift (finish_plain a (Pipewire.command (Pipewire.properties (Pipewire.instance ctx) (Pipewire.run_id ctx) (Pipewire.microphone ctx))) w).

Definition pw_pulse_argv (env : Env) (instance_runtime : bytes) (noted : bool) (w : W) : result Fault (Argv * W) :=
  let a := pw_pulse_baseline (Pipewire.socket instance_runtime) Pipewire.REMOTE_INSIDE (Pipewire.pulse_dir instance_runtime) in
  '(s, _) ← default_filter env noted (mkSt a []);
  let a := setenv (B "PIPEWIRE_CONFIG_DIR") Pipewire.PULSE_CONFIG_INSIDE (setenv (B "PIPEWIRE_REMOTE") Pipewire.REMOTE_INSIDE
             (setenv (B "XDG_RUNTIME_DIR") (B "/tmp") (tag Origin.Command (built s)))) in
  lift (finish_plain a Pipewire.pulse_command w).

(** An element of a command with the node that asked for it. *)
Definition by_node (c : bytes * option nat) : bytes * Origin.t := (c.1, match c.2 with Some n => Origin.Service n | None => Origin.Command end).

Definition proxy_args (env : Env) (plan : Dbus.Plan) (buses : Dbus.HostBuses) (dir : bytes) (noted : bool) (w : W)
  : result Fault (BwrapArgs * list (bytes * Origin.t) * W) :=
  '(ready, w) ← lift (allocated (ready_pipe w));
  let program := Dbus.proxy_program env in
  let command := map by_node (Dbus.proxy_command_nodes program plan buses dir (dbus_log env) ready) in
  let a := proxy_baseline (Dbus.b_session buses) (Dbus.b_system buses) (Dbus.b_a11y buses) (Dbus.socket_dir dir) in
  '(s, _) ← default_filter env noted (mkSt a []);
  let a := ro_bind_data (Dbus.flatpak_info_ plan) Dbus.FLATPAK_INFO (tag Origin.Identity (built s)) in
  a ← (if proxy_override env then program ← lift (require_file (B "dbus") program); Ok (ro_bind program program (tag Origin.Command a)) else Ok a);
  Ok (a, command, w).

Definition proxy_argv (env : Env) (plan : Dbus.Plan) (buses : Dbus.HostBuses) (dir : bytes) (noted : bool) (w : W) : result Fault (Argv * W) :=
  '(a, command, w) ← proxy_args env plan buses dir noted w;
  lift (finish_plain a (map fst command) w).

Definition wl_proxy_args (env : Env) (plan : Wayland.ProxyPlan) (node : nat) (noted : bool) (w : W)
  : result Fault (BwrapArgs * list (bytes * Origin.t) * W) :=
  '(listen, w) ← lift (allocated (listener w));
  '(ready, w) ← lift (allocated (ready_pipe w));
  '(program, found) ← lift (Wayland.locate_proxy env);
  let command := map by_node (Wayland.command_nodes plan program node listen ready) in
  '(s, _) ← default_filter env noted (mkSt (wl_proxy_baseline (Wayland.upstream plan)) []);
  let a := built s in
  let a := match found with Installed => a | _ => ro_bind program program (tag Origin.Command a) end in
  Ok (a, command, w).

Definition wl_proxy_argv (env : Env) (plan : Wayland.ProxyPlan) (node : nat) (noted : bool) (w : W) : result Fault (Argv * W) :=
  '(a, command, w) ← wl_proxy_args env plan node noted w;
  lift (finish_plain a (map fst command) w).

Definition wl_proxy_plan (env : Env) (inst : Instance_t) : option Wayland.ProxyPlan :=
  match wayland_mode (services (i_config inst)) with
  | Some (WaylandMode.Sandboxed clipboard) => Some (Wayland.context (Dbus.instance_runtime_dir env (i_name inst)) clipboard)
  | _ => None
  end.
End Build.

Section Explain.
Context `{Host} `{IpText} {F : Type} `{Libseccomp F} `{Target} (native : bytes).

Definition explain_wayland_proxy (env : Env) (inst : Instance_t) (noted : bool) : result Fault (option (list Explained)) :=
  match wl_proxy_plan env inst, wayland_node (services (i_config inst)) with
  | Some plan, Some node =>
    '(a, command, w) ← wl_proxy_args native env plan (Z.to_nat node) noted (DryRunAlloc.sidecar (Dbus.instance_runtime_dir env (i_name inst)));
    '(es, _) ← lift (finish_plain_explained a command w);
    Ok (Some es)
  | _, _ => Ok None
  end.

(** [chunks(2)]. *)
Fixpoint pairs_of (l : list bytes) : list (list bytes) :=
  match l with
  | a :: b :: l => [a; b] :: pairs_of l
  | [a] => [[a]]
  | [] => []
  end.

Definition explain_net_proxy (env : Env) (inst : Instance_t) : result Fault (option (list Explained)) :=
  let services := services (i_config inst) in
  match network_of services, network_node services with
  | Some cfg, Some node =>
    if bool_decide (allow_hosts cfg = []) then Ok None
    else
      '(program, _) ← lift (net_proxy_program env);
      Ok (Some (mkExplained Origin.Command [NET_PROXY_INSIDE] (Some (B "bound read-only from " ++ Path.display program)) ::
                map (fun pair => mkExplained (Origin.Service (Z.to_nat node)) pair None)
                  (pairs_of (net_proxy_argv cfg (mkProxyFds (B "<ready-fd>") (B "2")) (net_proxy_log env)))))
  | _, _ => Ok None
  end.
End Explain.
