(* ===== verification/GrantsSpec.v ===== *)
(** What the grants may do: every argument a service adds is one its own node asks for, a
    device node comes with a device grant alone, and the sandbox built for any configuration
    is confined, with the host's network only where the configuration shares it. *)
From S2P Require Import BwrapSpec DbusSpec SharesSpec.
From S2P Require Export Launch.

(** ** How arguments grow *)

Section Grows.
Context `{Host}.

(** Whether the sandbox shares the host's network. *)
Definition net (a : BwrapArgs) : bool := existsb (holds (B "--share-net")) (namespaces a).

(** [a'] is [a] with more binds, masks and variables, each as [Q] has it, and the network
    shared only if [b]. *)
Record grows (Q : Item -> Prop) (b : bool) (a a' : BwrapArgs) : Prop := {
  g_steps : rtc step a a';
  g_net : namespaces a <> [] -> namespaces a' <> [] /\ net a' = net a || b;
  g_binds : exists new, binds a' = binds a ++ new /\ Forall Q new;
  g_masks : exists new, masks a' = masks a ++ new /\ Forall Q new;
  g_env : exists new, env a' = env a ++ new /\ Forall Q new }.

Lemma grows_refl Q a : grows Q false a a.
Proof. split; [done|by rewrite orb_false_r|exists []; by rewrite app_nil_r..]. Qed.

Lemma grow_trans Q b b' x y z : grows Q b x y -> grows Q b' y z -> grows Q (b || b') x z.
Proof.
  intros [S1 N1 (b1 & B1 & Q1) (m1 & M1 & R1) (e1 & E1 & T1)] [S2 N2 (b2 & B2 & Q2) (m2 & M2 & R2) (e2 & E2 & T2)]. split.
  - by etransitivity.
  - intros Hx. destruct (N1 Hx) as [Hy Hn1]. destruct (N2 Hy) as [Hz Hn2]. split; [done|]. by rewrite Hn2, Hn1, orb_assoc.
  - exists (b1 ++ b2). rewrite B2, B1, app_assoc. split; [done|]. by apply Forall_app.
  - exists (m1 ++ m2). rewrite M2, M1, app_assoc. split; [done|]. by apply Forall_app.
  - exists (e1 ++ e2). rewrite E2, E1, app_assoc. split; [done|]. by apply Forall_app.
Qed.

Lemma grows_mono (Q R : Item -> Prop) b a a' : (forall i, Q i -> R i) -> grows Q b a a' -> grows R b a a'.
Proof.
  intros Hi [S N (b1 & B1 & Q1) (m1 & M1 & R1) (e1 & E1 & T1)]. split; [done..| | |];
    [exists b1|exists m1|exists e1]; (split; [done|]); (eapply Forall_impl; [eassumption|exact Hi]).
Qed.

Lemma none {A} (Q : A -> Prop) l : exists new, l = l ++ new /\ Forall Q new.
Proof. exists []. by rewrite app_nil_r. Qed.
Lemma one {A} (Q : A -> Prop) l x : Q x -> exists new, l ++ [x] = l ++ new /\ Forall Q new.
Proof. intros Hx. exists [x]. split; [done|]. by constructor. Qed.

Ltac same_net := intros ?; split; [done|by rewrite orb_false_r].

Lemma grows_tag Q o a : grows Q false a (tag o a).
Proof. split; [apply rtc_once, step_tag|same_net|apply none..]. Qed.

Lemma grows_bind Q a k : step a (add_bind k a) -> Q (mkItem (origin a) k) -> grows Q false a (add_bind k a).
Proof. intros Hs Hq. split; [by apply rtc_once|same_net|by apply one|apply none..]. Qed.

Lemma grows_setenv Q k v a : Q (setenv_item (origin a) k v) -> grows Q false a (setenv k v a).
Proof. intros Hq. split; [apply rtc_once, step_setenv|same_net|apply none..|by apply one]. Qed.

Lemma grows_mask Q d a : Forall Q (mask_items (origin a, d)) -> grows Q false a (mask_dir d a).
Proof. intros Hq. split; [apply rtc_once, step_mask|same_net|apply none|eexists; by split|apply none]. Qed.

Lemma grows_x11 Q argv wm a : grows Q false a (x11_server argv wm a).
Proof. split; [apply rtc_once, step_x11|same_net|apply none..]. Qed.

Lemma grows_shim Q p a : Forall (fun k => Q (mkItem (origin a) k))
    [Kind.Noted [B "--overlay-src"; B "/usr/bin"; B "--tmp-overlay"; B "/usr/bin"] (B "flatpak-spawn shim (glycin, gdk-pixbuf)");
     Kind.Args [B "--ro-bind"; p; FLATPAK_SPAWN_INSIDE]; Kind.Args [B "--remount-ro"; B "/usr/bin"]] -> grows Q false a (flatpak_spawn_shim p a).
Proof.
  intros Hq. split; [apply rtc_once, step_shim|same_net| |apply none..].
  exists (map (mkItem (origin a)) [Kind.Noted [B "--overlay-src"; B "/usr/bin"; B "--tmp-overlay"; B "/usr/bin"] (B "flatpak-spawn shim (glycin, gdk-pixbuf)");
     Kind.Args [B "--ro-bind"; p; FLATPAK_SPAWN_INSIDE]; Kind.Args [B "--remount-ro"; B "/usr/bin"]]).
  split; [|by apply Forall_map]. cbn [map]. unfold flatpak_spawn_shim, ro_bind, add_bind, with_binds. cbn [binds origin]. by rewrite <-!app_assoc.
Qed.

Lemma grows_share_net Q a : grows Q true a (share_net a).
Proof.
  split; [apply rtc_once, step_share_net| |..].
  - intros Hn. unfold net. rewrite orb_true_r. unfold share_net. destruct (existsb _ (namespaces a)) eqn:E; [done|]. cbn [with_namespaces namespaces].
    destruct (namespaces a) as [|i ns]; [done|]. split; [done|]. cbn [existsb]. by rewrite orb_true_r.
  - unfold share_net. destruct (existsb _ _); apply none.
  - unfold share_net. destruct (existsb _ _); apply none.
  - unfold share_net. destruct (existsb _ _); apply none.
Qed.

(** The same, with the tag in force left as it was: what a grant does. *)
Definition kept (Q : Item -> Prop) (b : bool) (a a' : BwrapArgs) : Prop := grows Q b a a' /\ origin a' = origin a.

Lemma kept_refl Q a : kept Q false a a.
Proof. split; [apply grows_refl|done]. Qed.
Lemma kept_trans Q b b' x y z : kept Q b x y -> kept Q b' y z -> kept Q (b || b') x z.
Proof. intros [G1 O1] [G2 O2]. split; [by eapply grow_trans|]. by rewrite O2. Qed.
Lemma kept_then Q x y z : kept Q false x y -> kept Q false y z -> kept Q false x z.
Proof. apply (kept_trans Q false false). Qed.

(** What [Q] has to take of a grant whose tag is [o]. *)
Definition takes (Q : Item -> Prop) (o : Origin.t) (G : Kind.t -> Prop) : Prop := forall k, G k -> Q (mkItem o k).

Lemma kept_bind Q a s d : Q (mkItem (origin a) (Kind.Args [B "--bind"; s; d])) -> kept Q false a (bind s d a).
Proof. intros Hq. split; [apply grows_bind; [apply step_bind|done]|done]. Qed.
Lemma kept_ro Q a s d : Q (mkItem (origin a) (Kind.Args [B "--ro-bind"; s; d])) -> kept Q false a (ro_bind s d a).
Proof. intros Hq. split; [apply grows_bind; [apply step_ro_bind|done]|done]. Qed.
Lemma kept_dev Q a s d : Q (mkItem (origin a) (Kind.Args [B "--dev-bind"; s; d])) -> kept Q false a (dev_bind s d a).
Proof. intros Hq. split; [apply grows_bind; [apply step_dev_bind|done]|done]. Qed.
Lemma kept_dev_try Q a s d : Q (mkItem (origin a) (Kind.Args [B "--dev-bind-try"; s; d])) -> kept Q false a (dev_bind_try s d a).
Proof. intros Hq. split; [apply grows_bind; [apply step_dev_bind_try|done]|done]. Qed.
Lemma kept_symlink Q a s d : Q (mkItem (origin a) (Kind.Args [B "--symlink"; s; d])) -> kept Q false a (symlink s d a).
Proof. intros Hq. split; [apply grows_bind; [apply step_symlink|done]|done]. Qed.
Lemma kept_data Q a c d : Q (mkItem (origin a) (Kind.Data c d)) -> kept Q false a (ro_bind_data c d a).
Proof. intros Hq. split; [apply grows_bind; [apply step_data|done]|done]. Qed.
Lemma kept_setenv Q a k v : Q (setenv_item (origin a) k v) -> kept Q false a (setenv k v a).
Proof. intros Hq. split; [by apply grows_setenv|done]. Qed.

Lemma kept_fold {A} Q (f : BwrapArgs -> A -> BwrapArgs) l a :
  (forall x b, x ∈ l -> origin b = origin a -> kept Q false b (f b x)) -> kept Q false a (fold_left f l a).
Proof.
  revert a. induction l as [|x l IH]; intros a Hf; cbn [fold_left]; [apply kept_refl|]. pose proof (Hf x a ltac:(by left) eq_refl) as Hx. eapply kept_then; [exact Hx|].
  apply IH. intros y b Hy Hb. apply Hf; [by right|]. rewrite Hb. apply Hx.
Qed.

Lemma kept_fold_res {A} Q (f : BwrapArgs -> A -> result LaunchError.t BwrapArgs) l a a' :
  (forall x b b', x ∈ l -> origin b = origin a -> f b x = Ok b' -> kept Q false b b') -> fold_res f a l = Ok a' -> kept Q false a a'.
Proof.
  revert a. induction l as [|x l IH]; intros a Hf; cbn [fold_res]; [intros [= <-]; apply kept_refl|]. destruct (f a x) as [b|] eqn:E; [|done]. intros Hr.
  pose proof (Hf x a b ltac:(by left) eq_refl E) as Hx. eapply kept_then; [exact Hx|]. apply IH; [|done]. intros y c c' Hy Hc. apply Hf; [by right|]. rewrite Hc. apply Hx.
Qed.
End Grows.

(** ** What a node asks for *)

Section Granted.
Context `{Host} `{IpText} (env : Env) (ctx : ServiceCtx).

Definition hid (p : bytes) : Prop := exists name, starts_with (B "hidraw") name = true /\ p = Path.join (B "/dev") name.

(** The devices of a grant. *)
Definition device_of (svc : Service.t) (p : bytes) : Prop :=
  match svc with
  | Service.Dri _ => Path.starts_with p DRI_DEV = true \/ exists name, starts_with (B "nvidia") name = true /\ p = Path.join (B "/dev") name
  | Service.Gamepad h u => p = B "/dev/input" \/ (u = true /\ p = B "/dev/uinput") \/ (h = true /\ hid p)
  | Service.Hidraw => hid p
  | Service.Camera true => exists name, starts_with (B "video") name || starts_with (B "media") name = true /\ p = Path.join (B "/dev") name
  | _ => False
  end.

(** What it may bind read-only. *)
Definition read_of (svc : Service.t) (s d : bytes) : Prop :=
  match svc with
  | Service.Wayland _ => (exists display, check_wayland_display (wayland_display env) = Ok display /\ d = Path.join (runtime_dir env) display) /\
                         (s = d \/ wayland_plan ctx = Some (Wayland.Proxy s))
  | Service.X11 X11Mode.Host => (s = d /\ exists n, s = B "/tmp/.X11-unix/X" ++ decimal n) \/ d = Path.join SANDBOX_HOME (B ".Xauthority")
  | Service.Network cfg => (mode cfg = Mode.Host /\ s = B "/etc/resolv.conf" /\ d = s) \/ (allow_hosts cfg <> [] /\ d = NET_PROXY_INSIDE)
  | Service.HomeShare p ShareMode.ReadOnly _ => d = Path.join SANDBOX_HOME (path_text p) /\ home_clear env s d
  | Service.PathShare p ShareMode.ReadOnly _ => d = path_text p /\ clear env s d
  | Service.EtcShare name => d = Path.join (B "/etc") name /\ exists e, canonicalize (B "/etc") = Some e /\ Path.starts_with s e = true
  | Service.AppRuntime id ShareMode.ReadOnly => s = app_runtime_dir env id /\ d = s
  | Service.Pipewire _ => s = Pipewire.socket (instance_runtime ctx) /\ d = Path.join (runtime_dir env) (B "pipewire-0")
  | Service.Pulseaudio _ => s = Pipewire.pulse_socket (instance_runtime ctx) /\ d = Path.join (runtime_dir env) (B "pulse/native")
  | Service.Dbus _ => s = Dbus.app_bus_path (instance_runtime ctx) Dbus.SESSION_SOCKET /\ d = Path.join (runtime_dir env) (B "bus")
  | Service.SystemBus _ => s = Dbus.app_bus_path (instance_runtime ctx) Dbus.SYSTEM_SOCKET /\ d = Dbus.SYSTEM_BUS_PATH
  | Service.A11y => s = Dbus.app_bus_path (instance_runtime ctx) Dbus.A11Y_SOCKET /\ d = Path.join (Path.join (runtime_dir env) (B "at-spi")) (B "bus")
  | Service.Portals _ => s = init_bin ctx /\ d = FLATPAK_SPAWN_INSIDE
  | Service.Dri _ | Service.Gamepad _ _ | Service.Hidraw | Service.Camera true =>
    d = s /\ (Path.starts_with s (B "/sys") = true \/ s = B "/dev/v4l" \/ s = B "/run/udev")
  | _ => False
  end.

(** What it may bind to be written. *)
Definition write_of (svc : Service.t) (s d : bytes) : Prop :=
  match svc with
  | Service.HomeShare p ShareMode.ReadWrite _ => d = Path.join SANDBOX_HOME (path_text p) /\ home_clear env s d
  | Service.PathShare p ShareMode.ReadWrite _ => d = path_text p /\ clear env s d
  | Service.AppRuntime id ShareMode.ReadWrite => s = app_runtime_dir env id /\ d = s
  | Service.Portals _ => d = Path.join (runtime_dir env) (B "doc") /\ exists p, dbus ctx = Some p /\ s = Path.join (Path.join d (B "by-app")) (Dbus.app_id_ p)
  | _ => False
  end.

Definition names_of (svc : Service.t) : list bytes :=
  match svc with
  | Service.Wayland _ => [B "WAYLAND_DISPLAY"; B "XDG_SESSION_TYPE"]
  | Service.X11 _ => [B "DISPLAY"; B "XAUTHORITY"]
  | Service.Network cfg => if bool_decide (allow_hosts cfg = []) then [] else PROXY_ENV_NAMES
  | Service.Pulseaudio _ => [B "PULSE_SERVER"]
  | Service.Dbus _ => [B "DBUS_SESSION_BUS_ADDRESS"]
  | Service.A11y => [B "AT_SPI_BUS_ADDRESS"]
  | Service.InputMethod => [B "IBUS_USE_PORTAL"]
  | _ => []
  end.

Inductive granted : Service.t -> Kind.t -> Prop :=
| gr_read svc s d : read_of svc s d -> granted svc (Kind.Args [B "--ro-bind"; s; d])
| gr_write svc s d : write_of svc s d -> granted svc (Kind.Args [B "--bind"; s; d])
| gr_device svc p : device_of svc p -> granted svc (Kind.Args [B "--dev-bind"; p; p])
| gr_device_try svc p : device_of svc p -> granted svc (Kind.Args [B "--dev-bind-try"; p; p])
| gr_link kms target name : granted (Service.Dri kms) (Kind.Args [B "--symlink"; target; Path.join DRM_CLASS name])
| gr_mask d : granted (Service.Dri false) (Kind.Args [B "--size"; B "4096"; B "--tmpfs"; d])
| gr_masked d : granted (Service.Dri false) (Kind.Args [B "--remount-ro"; d])
| gr_resolv cfg c : resolv_conf cfg = Some c -> granted (Service.Network cfg) (Kind.Data c (B "/etc/resolv.conf"))
| gr_info children p : dbus ctx = Some p -> granted (Service.Portals children) (Kind.Data (Dbus.flatpak_info_ p) Dbus.FLATPAK_INFO)
| gr_shim children note : granted (Service.Portals children) (Kind.Noted [B "--overlay-src"; B "/usr/bin"; B "--tmp-overlay"; B "/usr/bin"] note)
| gr_shim_ro children : granted (Service.Portals children) (Kind.Args [B "--remount-ro"; B "/usr/bin"])
| gr_env svc k v : k ∈ names_of svc -> granted svc (Kind.Args [B "--setenv"; k; v]).

Definition is_host_network (svc : Service.t) : bool := match svc with Service.Network cfg => bool_decide (mode cfg = Mode.Host) | _ => false end.

(** A grant made under the tag of [o] has what its node asks for. *)
Definition takes_of (Q : Item -> Prop) (o : Origin.t) (svc : Service.t) : Prop := forall k, granted svc k -> Q (mkItem o k).

Ltac took HQ := match goal with |- ?Q (mkItem _ ?k) => refine (HQ k _) | |- ?Q (setenv_item _ ?k ?v) => refine (HQ (Kind.Args [B "--setenv"; k; v]) _) end.
Lemma lift_ok {A} (r : result LaunchError.t A) a : lift r = Ok a -> r = Ok a.
Proof. destruct r; [by intros [= ->]|done]. Qed.

Ltac ok_inv := repeat match goal with
  | Hr : lift _ = Ok _ |- _ => apply lift_ok in Hr
  | Hr : (?m ≫= _) = Ok _ |- _ => let E := fresh "E" in destruct m as [?|?] eqn:E; cbn [mbind result_bind] in Hr; [|discriminate Hr]
  | Hr : Ok _ = Ok _ |- _ => injection Hr as Hr; subst
  | Hr : Err _ = Ok _ |- _ => discriminate Hr
  end.

(** ** Service by service *)

Lemma wayland_kept Q mode claim s s' : takes_of Q (origin (built s)) (Service.Wayland mode) -> wayland env claim (wayland_plan ctx) s = Ok s' -> kept Q false (built s) (built s').
Proof.
  intros HQ Hr. unfold wayland in Hr. destruct (wayland_display_of env) as [display|] eqn:Ed; [|done]. cbn [lift mbind result_bind] in Hr.
  assert (exists s1, kept Q false (built s) (built s1) /\ s' = (if claim then put (setenv (B "XDG_SESSION_TYPE") (B "wayland")) (put (setenv (B "WAYLAND_DISPLAY") display) s1) else put (setenv (B "WAYLAND_DISPLAY") display) s1)) as (s1 & Hk & ->).
  { assert (exists d, check_wayland_display (wayland_display env) = Ok d /\ Path.join (runtime_dir env) display = Path.join (runtime_dir env) d) as Hd by (by exists display).
    destruct (wayland_plan ctx) as [[socket|]|] eqn:Ep; ok_inv.
    - eexists. split; [|reflexivity]. apply kept_ro. took HQ. apply gr_read. split; [done|by right].
    - apply require_ok in E0 as (-> & _). eexists. split; [|reflexivity]. apply kept_ro. took HQ. apply gr_read. split; [done|by left].
    - apply require_ok in E0 as (-> & _). eexists. split; [|reflexivity]. apply kept_ro. took HQ. apply gr_read. split; [done|by left]. }
  assert (takes_of Q (origin (built s1)) (Service.Wayland mode)) as HQ1 by (rewrite (proj2 Hk); exact HQ).
  eapply kept_then; [exact Hk|]. destruct claim.
  - eapply kept_then; [|apply kept_setenv; took HQ1; apply gr_env; by right; left]. apply kept_setenv. took HQ1. apply gr_env. by left.
  - apply kept_setenv. took HQ1. apply gr_env. by left.
Qed.


Ltac probed := repeat match goal with
  | Hr : require_socket _ _ = Ok _ |- _ => apply require_ok in Hr as (-> & _)
  | Hr : require_file _ _ = Ok _ |- _ => apply require_ok in Hr as (-> & _)
  | Hr : require_dir _ _ = Ok _ |- _ => apply require_ok in Hr as (-> & _)
  end.

(** One builder call after the rest. *)
Ltac after_rest HQ := cbn [put built]; first
  [ eapply kept_then; [|apply kept_setenv; took HQ; apply gr_env]
  | eapply kept_then; [|apply kept_ro; took HQ; apply gr_read]
  | eapply kept_then; [|apply kept_bind; took HQ; apply gr_write]
  | eapply kept_then; [|apply kept_dev; took HQ; apply gr_device] ].

Lemma x11_kept Q mode s s' : takes_of Q (origin (built s)) (Service.X11 mode) -> x11_grant env mode s = Ok s' -> kept Q false (built s) (built s').
Proof.
  intros HQ Hr. destruct mode as [nested|]; cbn [x11_grant] in Hr.
  - ok_inv. cbn [put built]. eapply kept_then; [|by split; [apply grows_x11|]]. apply kept_setenv. took HQ. apply gr_env. by left.
  - destruct (display env) as [d|]; [|done]. destruct (x11_display_number d) as [n|]; [|done]. ok_inv. probed.
    assert (kept Q false (built s) (setenv (B "DISPLAY") (B ":" ++ decimal n) (ro_bind (B "/tmp/.X11-unix/X" ++ decimal n) (B "/tmp/.X11-unix/X" ++ decimal n) (built s)))) as Hk.
    { after_rest HQ; [|by left]. apply kept_ro. took HQ. apply gr_read. left. split; [done|]. by exists n. }
    match goal with |- context [match ?c with _ => _ end] => destruct c as [p|] end; [|exact Hk].
    after_rest HQ; [|by right; left]. after_rest HQ; [exact Hk|by right].
Qed.

Lemma put_env_kept Q pairs s : (forall k v, (k, v) ∈ pairs -> Q (setenv_item (origin (built s)) k v)) -> kept Q false (built s) (built (put_env pairs s)).
Proof.
  unfold put_env. revert s. induction pairs as [|[k v] pairs IH]; intros s HQ; cbn [fold_left]; [apply kept_refl|].
  eapply kept_then; [|apply IH; intros k' v' Hin; apply HQ; by right]. apply kept_setenv, HQ. by left.
Qed.

Lemma proxy_env_names port k v : (k, v) ∈ proxy_env port -> k ∈ PROXY_ENV_NAMES.
Proof. unfold proxy_env. intros (n & [= -> _] & Hn)%list_elem_of_fmap. done. Qed.

Lemma network_kept Q cfg s s' : takes_of Q (origin (built s)) (Service.Network cfg) -> network env cfg s = Ok s' ->
  kept Q (is_host_network (Service.Network cfg)) (built s) (built s').
Proof.
  intros HQ Hr. unfold network in Hr. cbn [is_host_network].
  set (s1 := if bool_decide (mode cfg = Mode.Host) then put share_net s else s) in Hr.
  assert (kept Q (bool_decide (mode cfg = Mode.Host)) (built s) (built s1)) as H1.
  { unfold s1. destruct (bool_decide _); [|apply kept_refl]. split; [apply grows_share_net|]. cbn [put built]. unfold share_net. by destruct (existsb _ _). }
  assert (takes_of Q (origin (built s1)) (Service.Network cfg)) as HQ1 by (rewrite (proj2 H1); exact HQ). clearbody s1.
  rewrite <-(orb_false_r (bool_decide _)). eapply kept_trans; [exact H1|]. clear H1.
  assert (exists s2, kept Q false (built s1) (built s2) /\ (if bool_decide (allow_hosts cfg = []) then Ok s2 else ('(program, _) ← lift (net_proxy_program env);
    Ok (put_env (proxy_env PROXY_PORT) (put (ro_bind program NET_PROXY_INSIDE) s2)))) = Ok s') as (s2 & H2 & Hs').
  { destruct (resolv_conf cfg) as [c|] eqn:Ec.
    - cbn [mbind result_bind] in Hr. eexists. split; [|exact Hr]. apply kept_data. took HQ1. by apply gr_resolv.
    - destruct (bool_decide (mode cfg = Mode.Host)) eqn:Em; [|eexists; split; [apply kept_refl|exact Hr]].
      destruct (require_file (B "network") (B "/etc/resolv.conf")) as [p|] eqn:Ep; [|done]. cbn [lift mbind result_bind] in Hr. probed. eexists. split; [|exact Hr].
      apply kept_ro. took HQ1. apply gr_read. left. apply bool_decide_eq_true in Em. done. }
  eapply kept_then; [exact H2|]. case_bool_decide as Ea; [injection Hs' as <-; apply kept_refl|].
  destruct (net_proxy_program env) as [[program f]|]; [|done]. cbn [lift mbind result_bind] in Hs'.
  assert (s' = put_env (proxy_env PROXY_PORT) (put (ro_bind program NET_PROXY_INSIDE) s2)) as -> by congruence. clear Hs' Hr.
  assert (takes_of Q (origin (built s2)) (Service.Network cfg)) as HQ2 by (rewrite (proj2 H2); exact HQ1).
  assert (kept Q false (built s2) (built (put (ro_bind program NET_PROXY_INSIDE) s2))) as H3 by (apply kept_ro; took HQ2; apply gr_read; by right).
  eapply kept_then; [exact H3|]. apply put_env_kept. intros k v Hin. rewrite (proj2 H3). took HQ2. apply gr_env. cbn [names_of]. rewrite bool_decide_false by done. by eapply proxy_env_names.
Qed.

Lemma home_share_kept Q p mode o a a' : takes_of Q (origin a) (Service.HomeShare p mode o) -> home_share env (path_text p) mode o a = Ok a' -> kept Q false a a'.
Proof.
  intros HQ Hr. unfold home_share in Hr. destruct (home_source env (path_text p) o) as [[src|]|] eqn:Es; cbn [mbind result_bind] in Hr; try done; [|injection Hr as <-; apply kept_refl].
  destruct (deny_reserved_in_home _ _ _ _ _) as [[]|] eqn:Ed; [|done]. cbn [mbind result_bind] in Hr. injection Hr as <-.
  apply home_source_ok in Es as [_ Hh]. assert (home_clear env src (Path.join SANDBOX_HOME (path_text p))) as Hc by (split; [exact Hh|by eapply deny_home_ok]).
  destruct mode; cbn [bind_mode]; [apply kept_ro; took HQ; by apply gr_read|apply kept_bind; took HQ; by apply gr_write].
Qed.

Lemma optional_dir_kept Q svc service p s s' : takes_of Q (origin (built s)) svc -> read_of svc p p -> optional_dir service p s = Ok s' -> kept Q false (built s) (built s').
Proof.
  intros HQ Hp Hr. unfold optional_dir in Hr. destruct (file_type p) as [[]|]; try done; injection Hr as <-; [|apply kept_refl]. apply kept_ro. took HQ. by apply gr_read.
Qed.

Lemma dev_nodes_kept Q svc named s : takes_of Q (origin (built s)) svc -> (forall name, named name = true -> device_of svc (Path.join (B "/dev") name)) -> kept Q false (built s) (built (dev_nodes named s)).
Proof.
  intros HQ Hd. unfold dev_nodes. generalize (list_dir (B "/dev")). intros l. revert s HQ. induction l as [|n l IH]; intros s HQ; cbn [fold_left]; [apply kept_refl|].
  destruct (named n && _) eqn:E; [|by apply IH]. apply andb_true_iff in E as [E _]. eapply kept_then; [apply kept_dev_try; took HQ; by apply gr_device_try, Hd|].
  by apply (IH (put (dev_bind_try (Path.join (B "/dev") n) (Path.join (B "/dev") n)) s)).
Qed.

Lemma hidraw_kept Q svc service s s' : takes_of Q (origin (built s)) svc -> (forall p, hid p -> device_of svc p) -> read_of svc (B "/sys/class/hidraw") (B "/sys/class/hidraw") ->
  hidraw service s = Ok s' -> kept Q false (built s) (built s').
Proof.
  intros HQ Hd Hs Hr. unfold hidraw in Hr.
  assert (kept Q false (built s) (built (dev_nodes (starts_with (B "hidraw")) s))) as Hk by (apply (dev_nodes_kept Q svc); [exact HQ|]; intros name Hn; apply Hd; by exists name).
  eapply kept_then; [exact Hk|]. eapply optional_dir_kept; [|exact Hs|exact Hr]. rewrite (proj2 Hk). exact HQ.
Qed.


Lemma kept_id Q a a' : a' = a -> kept Q false a a'.
Proof. intros ->. apply kept_refl. Qed.

Lemma ro_dir_kept Q svc service p a a' : takes_of Q (origin a) svc -> read_of svc p p -> ro_dir service a p = Ok a' -> kept Q false a a'.
Proof. intros HQ Hp Hr. unfold ro_dir in Hr. ok_inv. probed. apply kept_ro. took HQ. by apply gr_read. Qed.

Lemma component_no_slash p n : Normal n ∈ components p -> SLASH ∉ n.
Proof.
  unfold components. pose proof (split_on_no_sep SLASH p) as Hp. destruct (split_on SLASH p) as [|w ws]; [by intros ?%elem_of_nil|].
  assert (forall b s, component_of b s = Some (Normal n) -> s = n) as Hc by (intros b s; unfold component_of; repeat case_bool_decide; try done; [by destruct b|by intros [= ->]]).
  intros [Hn|Hn]%elem_of_app.
  - case_bool_decide; [case_bool_decide; [by apply elem_of_nil in Hn|by apply list_elem_of_singleton in Hn]|]. destruct (component_of true w) as [c|] eqn:E; [|by apply elem_of_nil in Hn].
    apply list_elem_of_singleton in Hn as <-. apply Hc in E as ->. apply Hp. by left.
  - apply list_elem_of_omap in Hn as (s & Hs & ->%Hc). apply Hp. by right.
Qed.

Lemma no_slash_relative n : SLASH ∉ n -> Path.is_absolute n = false.
Proof. intros Hn. destruct n as [|c n]; [done|]. cbn [Path.is_absolute]. apply bool_decide_false. intros ->. apply Hn. by left. Qed.

Lemma dri_nodes_relative by_path : Forall (fun n => Path.is_absolute n = false) (dri_nodes by_path).1 /\ Forall (fun n => Path.is_absolute n = false) (dri_nodes by_path).2.
Proof.
  assert (forall n l, Path.is_absolute n = false -> Forall (fun n => Path.is_absolute n = false) l -> Forall (fun n => Path.is_absolute n = false) (insert_name n l)) as Hi.
  { intros n l Hn. induction 1 as [|m l Hm Hl IH]; cbn [insert_name]; [by repeat constructor|]. case_bool_decide; [by constructor|]. destruct (bytes_lt n m); by repeat constructor. }
  unfold dri_nodes. generalize (list_dir by_path). intros l.
  assert (forall acc, Forall (fun n => Path.is_absolute n = false) acc.1 /\ Forall (fun n => Path.is_absolute n = false) acc.2 ->
    Forall (fun n => Path.is_absolute n = false) (fold_left (dri_node by_path) l acc).1 /\ Forall (fun n => Path.is_absolute n = false) (fold_left (dri_node by_path) l acc).2) as Hl.
  2: { apply Hl. by split. }
  induction l as [|e l IH]; intros [r c] [Hr Hc]; cbn [fold_left]; [by split|]. apply IH. unfold dri_node. cbn [fst snd] in Hr, Hc.
  assert (forall n, (match read_link (Path.join by_path e) with Ok (Some target) => linked_node target | _ => None end) = Some n -> Path.is_absolute n = false) as Hn.
  { intros n. destruct (read_link _) as [[target|]|]; try done. unfold linked_node. destruct (components target) as [|[] [|[] []]] eqn:E; try done. intros [= <-].
    eapply no_slash_relative, (component_no_slash target). rewrite E. by right; left. }
  destruct (match read_link (Path.join by_path e) with Ok (Some target) => linked_node target | _ => None end) as [n|].
  - specialize (Hn n eq_refl). destruct (ends_with (B "-render") e); [split; [by apply Hi|done]|]. destruct (ends_with (B "-card") e); [split; [done|by apply Hi]|by split].
  - destruct (ends_with (B "-render") e); [by split|]. destruct (ends_with (B "-card") e); by split.
Qed.

Lemma dev_node_kept Q kms a name : takes_of Q (origin a) (Service.Dri kms) -> Path.is_absolute name = false -> kept Q false a (dev_node DRI_DEV a name).
Proof. intros HQ Hn. unfold dev_node. apply kept_dev. took HQ. apply gr_device. left. by apply join_below. Qed.

Lemma dev_dir_kept Q kms names a : takes_of Q (origin a) (Service.Dri kms) -> Forall (fun n => Path.is_absolute n = false) names -> kept Q false a (fold_left (dev_node DRI_DEV) names a).
Proof. intros HQ Hn. apply kept_fold. intros x b Hx Hb. apply (dev_node_kept _ kms); [by rewrite Hb|]. rewrite Forall_forall in Hn. by apply Hn. Qed.

Lemma mask_card_kept Q nvidia drm a entry : takes_of Q (origin a) (Service.Dri false) -> kept Q false a (mask_card nvidia drm a entry).
Proof.
  intros HQ. unfold mask_card. destruct (starts_with (B "card") entry) eqn:Es; [|apply kept_refl]. destruct (is_type _ _); [|apply kept_refl]. cbn [negb orb].
  assert (forall a d, takes_of Q (origin a) (Service.Dri false) -> kept Q false a (mask_dir d a)) as Hm.
  { intros x d Hx. split; [|done]. apply grows_mask. constructor; [exact (Hx _ (gr_mask d))|]. constructor; [exact (Hx _ (gr_masked d))|constructor]. }
  destruct nvidia; [|by apply Hm]. eapply kept_then; [|by apply Hm]. apply (dev_node_kept _ false); [exact HQ|]. by eapply starts_absolute.
Qed.

Lemma dri_sysfs_kept Q kms a name a' : takes_of Q (origin a) (Service.Dri kms) -> dri_sysfs kms a name = Ok a' -> kept Q false a a'.
Proof.
  intros HQ Hr. unfold dri_sysfs in Hr. destruct (canonicalize _) as [dir|]; [|done]. destruct (Path.strip_prefix dir (B "/sys/devices")) as [rel|] eqn:Ep; [|done].
  assert (Path.starts_with dir (B "/sys") = true) as Hd.
  { unfold Path.strip_prefix in Ep. destruct (Path.starts_with dir (B "/sys/devices")) eqn:Ed; [|done]. by eapply starts_with_trans. }
  injection Hr as <-. assert (kept Q false a (ro_bind dir dir a)) as H1 by (apply kept_ro; took HQ; apply gr_read; split; [done|by left]). eapply kept_then; [exact H1|].
  assert (forall x, takes_of Q (origin x) (Service.Dri kms) -> forall target, kept Q false x (symlink target (Path.join DRM_CLASS name) x)) as Hl.
  { intros x Hx target. apply kept_symlink. took Hx. apply gr_link. }
  destruct kms; [by apply Hl|].
  assert (kept Q false (ro_bind dir dir a) (fold_left (mask_card (bool_decide (dri_driver dir = Some (B "nvidia"))) (Path.join dir (B "drm"))) (list_dir (Path.join dir (B "drm"))) (ro_bind dir dir a))) as H2.
  { apply kept_fold. intros x b _ Hb. apply mask_card_kept. by rewrite Hb. }
  eapply kept_then; [exact H2|]. apply Hl. rewrite (proj2 H2). exact HQ.
Qed.


Lemma kept_takes Q svc a a' : kept Q false a a' -> takes_of Q (origin a) svc -> takes_of Q (origin a') svc.
Proof. intros [_ ->]. done. Qed.

(** One step, then the rest under the same tag. *)
Ltac next Hk := eapply kept_then; [exact Hk|]; match goal with HQ : takes_of _ _ _ |- _ => let HN := fresh "HQ" in pose proof (kept_takes _ _ _ _ Hk HQ) as HN; clear HQ; rename HN into HQ end.

Lemma dri_kept Q kms a a' : takes_of Q (origin a) (Service.Dri kms) -> dri kms a = Ok a' -> kept Q false a a'.
Proof.
  intros HQ Hr. unfold dri in Hr. destruct (require_dir (B "dri") DRI_DEV) as [dev|] eqn:Ed; [|done]. cbn [mbind result_bind] in Hr. probed.
  pose proof (dri_nodes_relative (Path.join DRI_DEV (B "by-path"))) as [Hrender Hcard]. destruct (dri_nodes _) as [render card]. cbn [fst snd] in Hrender, Hcard. case_bool_decide; [done|].
  pose proof (dev_dir_kept Q kms render a HQ Hrender) as K1. next K1.
  assert (forall x, takes_of Q (origin x) (Service.Dri kms) -> kept Q false x (if kms then fold_left (dev_node DRI_DEV) card x else x)) as K2 by (intros x Hx; destruct kms; [by apply dev_dir_kept with true|apply kept_refl]).
  match goal with HQ : takes_of Q (origin ?x) _ |- _ => pose proof (K2 x HQ) as K3 end. next K3. clear K2.
  match type of Hr with context [fold_res (ro_dir (B "dri")) ?x ?l] => destruct (fold_res (ro_dir (B "dri")) x l) as [a2|] eqn:E2; [|done]; cbn [mbind result_bind] in Hr; eassert (kept Q false x a2) as K4 end.
  { eapply kept_fold_res; [|exact E2]. intros p b b' Hp Hb Hro. apply (ro_dir_kept Q (Service.Dri kms) (B "dri") p); [by rewrite Hb| |done]. split; [done|]. left.
    apply elem_of_cons in Hp as [->|Hp%list_elem_of_singleton]; [done|by subst p]. }
  next K4. destruct (fold_res (dri_sysfs kms) a2 render) as [a3|] eqn:E3; [|done]. cbn [mbind result_bind] in Hr. injection Hr as <-.
  assert (kept Q false a2 a3) as K5 by (eapply kept_fold_res; [|exact E3]; intros p b b' Hp Hb Hro; apply (dri_sysfs_kept Q kms b p); [by rewrite Hb|done]).
  next K5. assert (kept Q false a3 (if is_type FileType.File (Path.join DRM_CLASS (B "version")) then ro_bind (Path.join DRM_CLASS (B "version")) (Path.join DRM_CLASS (B "version")) a3 else a3)) as K6.
  { destruct (is_type _ _); [|apply kept_refl]. apply kept_ro. match goal with HQ : takes_of _ _ _ |- _ => took HQ end. apply gr_read. split; [done|by left]. }
  next K6. match goal with |- kept _ _ ?x (fold_left nvidia_module _ (fold_left nvidia_node ?l ?x)) => assert (kept Q false x (fold_left nvidia_node l x)) as K7 end.
  { apply kept_fold. intros n b _ Hb. unfold nvidia_node. destruct (starts_with (B "nvidia") n) eqn:En; [|apply kept_refl]. destruct (is_type FileType.CharDevice (Path.join (B "/dev") n)); [|apply kept_refl]. apply kept_dev. rewrite Hb.
    match goal with HQ : takes_of _ _ _ |- _ => took HQ end. apply gr_device. right. by exists n. }
  next K7. apply kept_fold. intros n b _ Hb. unfold nvidia_module. destruct (starts_with (B "nvidia") n) eqn:En; [|apply kept_refl]. destruct (is_type FileType.Dir (Path.join (B "/sys/module") n)); [|apply kept_refl]. apply kept_ro. rewrite Hb.
  match goal with HQ : takes_of _ _ _ |- _ => took HQ end. apply gr_read. split; [done|]. left. eapply (starts_with_trans _ (B "/sys/module")); [|done]. apply join_below; [done|]. by eapply starts_absolute.
Qed.

Lemma pipewire_kept Q b s s' : takes_of Q (origin (built s)) (Service.Pipewire b) -> pipewire env ctx s = Ok s' -> kept Q false (built s) (built s').
Proof. intros HQ Hr. unfold pipewire in Hr. ok_inv. apply kept_ro. took HQ. by apply gr_read. Qed.

Lemma pulseaudio_kept Q b s s' : takes_of Q (origin (built s)) (Service.Pulseaudio b) -> pulseaudio env ctx s = Ok s' -> kept Q false (built s) (built s').
Proof. intros HQ Hr. unfold pulseaudio in Hr. ok_inv. after_rest HQ; [|by left]. apply kept_ro. took HQ. by apply gr_read. Qed.

Lemma dbus_kept Q rules s : takes_of Q (origin (built s)) (Service.Dbus rules) -> kept Q false (built s) (built (dbus_socket env ctx s)).
Proof. intros HQ. unfold dbus_socket. after_rest HQ; [|by left]. apply kept_ro. took HQ. by apply gr_read. Qed.

Lemma system_bus_kept Q rules s : takes_of Q (origin (built s)) (Service.SystemBus rules) -> kept Q false (built s) (built (system_bus_socket ctx s)).
Proof. intros HQ. apply kept_ro. took HQ. by apply gr_read. Qed.

Lemma a11y_kept Q s s' : takes_of Q (origin (built s)) Service.A11y -> a11y env ctx s = Ok s' -> kept Q false (built s) (built s').
Proof. intros HQ Hr. unfold a11y in Hr. destruct (dbus ctx ≫= Dbus.a11y); [|done]. injection Hr as <-. after_rest HQ; [|by left]. apply kept_ro. took HQ. by apply gr_read. Qed.

Lemma portals_kept Q children s s' : takes_of Q (origin (built s)) (Service.Portals children) -> portals env ctx s = Ok s' -> kept Q false (built s) (built s').
Proof.
  intros HQ Hr. unfold portals in Hr. destruct (dbus ctx) as [plan|] eqn:Ep; [|done]. cbn [mbind option_bind] in Hr. destruct (Dbus.session plan); [|done].
  assert (kept Q false (built s) (ro_bind_data (Dbus.flatpak_info_ plan) Dbus.FLATPAK_INFO (built s))) as K1 by (apply kept_data; took HQ; by apply gr_info).
  assert (kept Q false (built s) (flatpak_spawn_shim (init_bin ctx) (ro_bind_data (Dbus.flatpak_info_ plan) Dbus.FLATPAK_INFO (built s)))) as K2.
  { eapply kept_then; [exact K1|]. split; [|done]. apply grows_shim. repeat constructor; [took HQ; apply gr_shim|took HQ; by apply gr_read|took HQ; apply gr_shim_ro]. }
  match goal with Hr : (if ?c then _ else _) = _ |- _ => destruct c end; injection Hr as <-; [|exact K2]. after_rest HQ; [exact K2|]. cbn [write_of]. split; [done|]. by exists plan.
Qed.

Lemma etc_share_kept Q name a a' : takes_of Q (origin a) (Service.EtcShare name) -> etc_share name a = Ok a' -> kept Q false a a'.
Proof.
  intros HQ Hr. unfold etc_share in Hr. destruct (confine _ _ _ _) as [src|] eqn:E; [|done]. cbn [mbind result_bind] in Hr. injection Hr as <-. apply kept_ro. took HQ. apply gr_read.
  split; [done|]. by apply confine_ok in E as [He _].
Qed.

Lemma app_runtime_kept Q id mode a : takes_of Q (origin a) (Service.AppRuntime id mode) -> kept Q false a (app_runtime env id mode a).
Proof. intros HQ. unfold app_runtime. destruct mode; cbn [bind_mode]; [apply kept_ro; took HQ; by apply gr_read|apply kept_bind; took HQ; by apply gr_write]. Qed.

Lemma camera_kept Q services nodes s s' : takes_of Q (origin (built s)) (Service.Camera nodes) -> camera services nodes s = Ok s' -> kept Q false (built s) (built s').
Proof.
  intros HQ Hr. unfold camera in Hr. destruct (negb _); [done|]. destruct nodes; [|injection Hr as <-; apply kept_refl]. unfold camera_nodes in Hr.
  match type of Hr with fold_res _ (dev_nodes ?named s) _ = _ => assert (kept Q false (built s) (built (dev_nodes named s))) as K1 by (apply (dev_nodes_kept Q (Service.Camera true)); [exact HQ|]; intros n Hn; by exists n) end.
  next K1. match type of Hr with fold_res _ ?x _ = _ => revert Hr HQ; generalize x end. clear s K1.
  assert (Forall (fun p => read_of (Service.Camera true) p p) ([B "/dev/v4l"; B "/sys/class/video4linux"; B "/sys/bus/media"] ++ (if negb (existsb is_gamepad services) then [B "/run/udev"] else []))) as Hl.
  { apply Forall_app. split; [constructor; [split; [done|by right; left]|]; constructor; [split; [done|by left]|]; constructor; [split; [done|by left]|constructor]|].
    destruct (negb _); constructor; [split; [done|by right; right]|constructor]. }
  generalize dependent ([B "/dev/v4l"; B "/sys/class/video4linux"; B "/sys/bus/media"] ++ (if negb (existsb is_gamepad services) then [B "/run/udev"] else [])).
  induction 1 as [|p l Hp _ IH]; intros s Hr HQ; cbn [fold_res] in Hr; [injection Hr as <-; apply kept_refl|].
  destruct (optional_dir (B "camera") p s) as [s1|] eqn:E1; [|done]. pose proof (optional_dir_kept Q (Service.Camera true) _ p s s1 HQ Hp E1) as Hstep. next Hstep. by apply IH.
Qed.


Lemma try_put_ok f s s' : try_put f s = Ok s' -> f (built s) = Ok (built s').
Proof. unfold try_put. intros Hr. ok_inv. by destruct (f (built s)) as [a'|]; [injection E as ->|]. Qed.

(** A node that grants the raw HID devices. *)
Definition is_hid (svc : Service.t) : Prop := svc = Service.Hidraw \/ exists u, svc = Service.Gamepad true u.

Lemma hidraw_under Q svc o node s s' : is_hid svc -> takes_of Q o svc -> hidraw node (put (tag o) s) = Ok s' -> grows Q false (built s) (built s').
Proof.
  intros Hi HQ Hr. apply (grow_trans _ false false _ (tag o (built s))); [apply grows_tag|]. apply (hidraw_kept Q svc node (put (tag o) s)); [exact HQ| | |exact Hr].
  - intros p Hp. destruct Hi as [->|[u ->]]; [exact Hp|]. by right; right.
  - destruct Hi as [->|[u ->]]; (split; [done|by left]).
Qed.

Lemma pads_kept Q h u s s' : takes_of Q (origin (built s)) (Service.Gamepad h u) ->
  (dev ← lift (require_dir (B "gamepad") (B "/dev/input"));
   s ← try_put (fun a => fold_res (ro_dir (B "gamepad")) a [B "/sys/class/input"; B "/sys/devices"]) (put (dev_bind dev dev) s);
   optional_dir (B "gamepad") (B "/run/udev") s) = Ok s' -> kept Q false (built s) (built s').
Proof.
  intros HQ Hr. ok_inv. probed. assert (kept Q false (built s) (dev_bind (B "/dev/input") (B "/dev/input") (built s))) as K1 by (apply kept_dev; took HQ; apply gr_device; by left). next K1.
  apply try_put_ok in E0. cbn [put built] in E0.
  match type of E0 with _ = Ok ?x => assert (kept Q false (dev_bind (B "/dev/input") (B "/dev/input") (built s)) x) as K2 end.
  { eapply kept_fold_res; [|exact E0]. intros p b b' Hp Hb Hro. apply (ro_dir_kept Q (Service.Gamepad h u) (B "gamepad") p); [by rewrite Hb| |done]. split; [done|]. left.
    apply elem_of_cons in Hp as [->|Hp%list_elem_of_singleton]; [done|by subst p]. }
  next K2. eapply (optional_dir_kept Q (Service.Gamepad h u)); [exact HQ| |exact Hr]. split; [done|by right; right].
Qed.

Lemma uinput_kept Q h s s' : takes_of Q (origin (built s)) (Service.Gamepad h true) -> gamepad_uinput s = Ok s' -> kept Q false (built s) (built s').
Proof. intros HQ Hr. unfold gamepad_uinput in Hr. ok_inv. apply require_ok in E as (-> & _). apply kept_dev. took HQ. apply gr_device. right. by left. Qed.

Lemma gamepad_grows Q h u node s s' : takes_of Q (origin (built s)) (Service.Gamepad h u) ->
  (forall n o, node = Some (n, o) -> exists svc, is_hid svc /\ takes_of Q o svc) -> gamepad node u s = Ok s' -> grows Q false (built s) (built s').
Proof.
  intros HQ Hn Hr. assert (exists s1, (dev ← lift (require_dir (B "gamepad") (B "/dev/input"));
    s ← try_put (fun a => fold_res (ro_dir (B "gamepad")) a [B "/sys/class/input"; B "/sys/devices"]) (put (dev_bind dev dev) s);
    optional_dir (B "gamepad") (B "/run/udev") s) = Ok s1 /\
    (s ← match node with Some (n, o) => t ← hidraw n (put (tag o) s1); Ok (put (tag (origin (built s))) t) | None => Ok s1 end; if u then gamepad_uinput s else Ok s) = Ok s') as (s1 & E1 & E2).
  { unfold gamepad in Hr. destruct (lift (require_dir _ _)) as [dev|]; [|done]. cbn [mbind result_bind] in Hr |- *. destruct (try_put _ _) as [x|]; [|done]. cbn [mbind result_bind] in Hr |- *.
    destruct (optional_dir _ _ x) as [y|] eqn:Ey; [|done]. cbn [mbind result_bind] in Hr |- *. exists y. split; [done|exact Hr]. }
  clear Hr. pose proof (pads_kept Q h u s s1 HQ E1) as K1. apply (grow_trans _ false false _ (built s1)); [apply K1|].
  destruct node as [[n o]|].
  - destruct (Hn n o eq_refl) as (svc & Hi & Ho). destruct (hidraw n (put (tag o) s1)) as [s2|] eqn:E3; [|done]. cbn [mbind result_bind] in E2.
    apply (grow_trans _ false false _ (built s2)); [by eapply hidraw_under|]. apply (grow_trans _ false false _ (tag (origin (built s)) (built s2))); [apply grows_tag|].
    destruct u; [|injection E2 as <-; apply grows_refl]. apply (uinput_kept Q h (put (tag (origin (built s))) s2)); [exact HQ|exact E2].
  - cbn [mbind result_bind] in E2. destruct u; [|injection E2 as <-; apply grows_refl]. apply (uinput_kept Q h); [rewrite (proj2 K1); exact HQ|exact E2].
Qed.


(** ** All of them *)

Lemma try_put_kept Q f s s' : (forall a', f (built s) = Ok a' -> kept Q false (built s) a') -> try_put f s = Ok s' -> kept Q false (built s) (built s').
Proof. intros Hf Hr%try_put_ok. by apply Hf. Qed.

Lemma apply_one_kept Q services svc s s' : takes_of Q (origin (built s)) svc -> apply_one services env ctx svc s = Ok s' ->
  kept Q (is_host_network svc) (built s) (built s').
Proof.
  intros HQ Hr.
  destruct svc as [m|m|cfg|k|b|b|p m o|p m o|n|r|r|c| | |h u| |n|r| | |id m]; cbn [apply_one is_host_network] in Hr |- *; try (injection Hr as <-; apply kept_refl).
  - by eapply wayland_kept.
  - by eapply x11_kept.
  - by eapply network_kept.
  - eapply try_put_kept; [|exact Hr]. intros a'. by apply dri_kept.
  - by eapply pipewire_kept.
  - by eapply pulseaudio_kept.
  - eapply try_put_kept; [|exact Hr]. intros a'. by apply home_share_kept.
  - eapply try_put_kept; [|exact Hr]. intros a'. by apply etc_share_kept.
  - injection Hr as <-. by eapply dbus_kept.
  - injection Hr as <-. by eapply system_bus_kept.
  - by eapply portals_kept.
  - by eapply camera_kept.
  - by eapply a11y_kept.
  - injection Hr as <-. apply kept_setenv. took HQ. apply gr_env. by left.
  - injection Hr as <-. by apply app_runtime_kept.
Qed.

(** Added for a service of the list, as its node asks. *)
Definition asked (services : list Service.t) (i : Item) : Prop :=
  exists n svc, i_origin i = Origin.Service n /\ services !! n = Some svc /\ granted svc (kind i).

Lemma asked_takes services n svc : services !! n = Some svc -> takes_of (asked services) (Origin.Service n) svc.
Proof. intros Hn k Hk. by exists n, svc. Qed.

Lemma apply_loop_grows services l i s s' : (forall k svc, l !! k = Some svc -> services !! (i + k)%nat = Some svc) ->
  apply_loop services env ctx i l s = Ok s' -> grows (asked services) (existsb is_host_network l) (built s) (built s').
Proof.
  revert i s. induction l as [|svc l IH]; intros i s Hl Hr; cbn [apply_loop existsb] in *; [injection Hr as <-; apply grows_refl|].
  destruct (apply_one services env ctx svc (put (tag (Origin.Service i)) s)) as [s1|] eqn:E; [|done]. cbn [mbind result_bind] in Hr.
  eapply (grow_trans _ false _ _ (tag (Origin.Service i) (built s))); [apply grows_tag|]. eapply (grow_trans _ _ _ _ (built s1)).
  - eapply (apply_one_kept _ _ _ (put (tag (Origin.Service i)) s)); [|exact E]. apply asked_takes. specialize (Hl 0%nat svc eq_refl). by rewrite Nat.add_0_r in Hl.
  - eapply IH; [|exact Hr]. intros k t Hk. rewrite Nat.add_succ_comm. by apply (Hl (S k)).
Qed.

Lemma hidraw_node_is services n o : hidraw_node services = Some (n, o) -> exists svc, is_hid svc /\ takes_of (asked services) o svc.
Proof.
  unfold hidraw_node. destruct (Dbus.find_map hidraw_of 0 services) as [[i []]|] eqn:Eh.
  - intros [= <- <-]. apply find_map_some in Eh as (k & svc & -> & Hk & Hs & _). destruct svc; try done. exists Service.Hidraw. split; [by left|]. by apply asked_takes.
  - destruct (Dbus.find_map gamepad_of 0 services) as [[i [[] u]]|] eqn:Eg; try done. intros [= <- <-]. apply find_map_some in Eg as (k & svc & -> & Hk & Hs & _). destruct svc as [| | | | | | | | | | | | | |h v| | | | | |]; try done.
    injection Hs as -> ->. exists (Service.Gamepad true u). split; [by right; exists u|]. by apply asked_takes.
Qed.

Lemma apply_devices_grows services s s' : apply_devices services s = Ok s' -> grows (asked services) false (built s) (built s').
Proof.
  unfold apply_devices. destruct (Dbus.find_map gamepad_of 0 services) as [[i [h u]]|] eqn:Eg.
  - apply find_map_some in Eg as (k & svc & -> & Hk & Hs & _). destruct svc as [| | | | | | | | | | | | | |h' u'| | | | | |]; try done. injection Hs as -> ->. intros Hr.
    apply (grow_trans _ false false _ (tag (Origin.Service k) (built s))); [apply grows_tag|].
    eapply (gamepad_grows _ h u (hidraw_node services) (put (tag (Origin.Service k)) s)); [by apply asked_takes| |exact Hr]. intros n o. apply hidraw_node_is.
  - destruct (hidraw_node services) as [[n o]|] eqn:Eh; [|intros [= <-]; apply grows_refl]. destruct (hidraw_node_is _ _ _ Eh) as (svc & Hi & Ho). by apply hidraw_under with svc.
Qed.

Lemma share_grows services s sh svc : services !! sh_node sh = Some svc -> share_of env (sh_node sh) svc sh -> clear env (sh_src sh) (sh_dst sh) ->
  grows (asked services) false (built s) (built (apply_share s sh)).
Proof.
  intros Hs (p & m & o & -> & _ & Hd & Hm & _) Hc. apply (grow_trans _ false false _ (tag (Origin.Service (sh_node sh)) (built s))); [apply grows_tag|].
  pose proof (asked_takes services _ _ Hs) as HQ. unfold apply_share. cbn [put built]. rewrite Hm. destruct m; cbn [bind_mode]; [apply kept_ro|apply kept_bind]; cbn [origin tag].
  - took HQ. apply gr_read. by split.
  - took HQ. apply gr_write. by split.
Qed.

Lemma apply_all_grows services s s' : apply_all services env ctx s = Ok s' -> grows (asked services) (existsb is_host_network services) (built s) (built s').
Proof.
  intros Hr. unfold apply_all in Hr. destruct (path_shares services env) as [l|] eqn:Ep; [|done]. cbn [lift mbind result_bind] in Hr.
  destruct (apply_loop services env ctx 0 services s) as [s1|] eqn:E1; [|done]. cbn [mbind result_bind] in Hr. destruct (apply_devices services s1) as [s2|] eqn:E2; [|done].
  cbn [mbind result_bind] in Hr. injection Hr as <-. rewrite <-(orb_false_r (existsb _ _)). apply (grow_trans _ _ _ _ (built s1)); [by apply (apply_loop_grows services services 0)|].
  apply (grow_trans _ false false _ (built s2)); [by apply apply_devices_grows|]. clear E1 E2. unfold path_shares in Ep. destruct (path_shares_loop env 0 services) as [l'|] eqn:El; [|done].
  cbn [mbind result_bind] in Ep. destruct (overlaps l'); [done|]. injection Ep as ->. apply loop_ok in El as [He Hc]. rewrite Forall_forall in Hc.
  assert (Forall (fun sh => exists svc, services !! sh_node sh = Some svc /\ share_of env (sh_node sh) svc sh /\ clear env (sh_src sh) (sh_dst sh)) l) as Hl.
  { apply Forall_forall. intros sh Hsh. specialize (Hc sh Hsh). apply He in Hsh as (k & svc & Hk & Hs). pose proof Hs as (p & m & o & _ & Hn & _). cbn [Nat.add] in Hs, Hn. subst k. by exists svc. }
  clear He Hc. generalize dependent s2. induction Hl as [|sh l (svc & Hs & Ho & Hc) _ IH]; intros t; cbn [fold_left]; [apply grows_refl|].
  apply (grow_trans _ false false _ (built (apply_share t sh))); [by eapply share_grows|]. apply IH.
Qed.
End Granted.


(** ** The sandbox of a configuration *)

Section Sandbox.
Context `{Host} `{IpText} {F : Type} `{Libseccomp F} `{Target} (native : bytes).

(** Bound for a flag of the command line. *)
Definition shared (env : Env) (flags : list (bytes * ShareMode.t)) (i : Item) : Prop :=
  exists n written mode src dst, i_origin i = Origin.Share n /\ flags !! n = Some (written, mode) /\ flag_ok env written (src, dst) /\
    kind i = Kind.Args [match mode with ShareMode.ReadOnly => B "--ro-bind" | ShareMode.ReadWrite => B "--bind" end; src; dst].

(** Set by an [env] node, and none of the variables that are the sandbox's own. *)
Definition set_by (pairs : list (bytes * bytes)) (i : Item) : Prop :=
  exists n k v, i_origin i = Origin.Env n /\ pairs !! n = Some (k, v) /\ k ∉ RESERVED_ENV /\ kind i = Kind.Args [B "--setenv"; k; v].

Lemma bind_shares_grows env flags l i cwd s s' cwd' :
  (forall k mode src dst, l !! k = Some (mode, (src, dst)) -> exists written, flags !! (i + k)%nat = Some (written, mode) /\ flag_ok env written (src, dst)) ->
  bind_shares i l cwd s = (s', cwd') -> grows (shared env flags) false (built s) (built s').
Proof.
  revert i cwd s. induction l as [|[mode [src dst]] l IH]; intros i cwd s Hl Hb; cbn [bind_shares] in Hb; [injection Hb as <- _; apply grows_refl|].
  apply (grow_trans _ false false _ (tag (Origin.Share i) (built s))); [apply grows_tag|].
  apply (grow_trans _ false false _ (bind_mode mode src dst (tag (Origin.Share i) (built s)))).
  - destruct (Hl 0%nat mode src dst eq_refl) as (written & Hw & Hf). rewrite Nat.add_0_r in Hw.
    destruct mode; cbn [bind_mode]; [apply kept_ro; by exists i, written, ShareMode.ReadOnly, src, dst|apply kept_bind; by exists i, written, ShareMode.ReadWrite, src, dst].
  - eapply (IH _ _ (put (bind_mode mode src dst) (put (tag (Origin.Share i)) s))); [|exact Hb]. intros k m x y Hk. rewrite Nat.add_succ_comm. by apply (Hl (S k)).
Qed.

Lemma replace_chdir_net dir l l' : replace_first (fun i => if holds (B "--chdir") i then Some (op (i_origin i) [B "--chdir"; dir]) else None) l = Some l' ->
  existsb (holds (B "--share-net")) l' = existsb (holds (B "--share-net")) l /\ l' <> [].
Proof.
  revert l'. induction l as [|i l IH]; intros l' Hr; cbn [replace_first] in Hr; [done|]. destruct (holds (B "--chdir") i) eqn:Eh.
  - injection Hr as <-. split; [|done]. cbn [existsb]. f_equal. unfold holds in *. destruct i as [o k]. cbn [kind i_origin op] in *. destruct k as [[|a r]| | | | |]; try done. apply bool_decide_eq_true in Eh. by subst a.
  - apply fmap_Some in Hr as (l1 & Hl1 & ->). destruct (IH _ Hl1) as [He _]. split; [|done]. cbn [existsb]. by rewrite He.
Qed.

Lemma grows_chdir Q dir a a' : chdir dir a = Some a' -> grows Q false a a'.
Proof.
  intros Hc. pose proof (step_chdir _ _ _ Hc) as Hs. unfold chdir in Hc. destruct (replace_first _ _) as [ns|] eqn:E; [|done]. cbn [mbind option_bind] in Hc. injection Hc as <-.
  apply replace_chdir_net in E as [Hn Hne]. split; [by apply rtc_once| |apply none..]. intros _. split; [exact Hne|]. unfold net. cbn [with_namespaces namespaces]. by rewrite Hn, orb_false_r.
Qed.

Lemma plan_flags services flags env plan : share_plan services flags env = Ok plan -> Forall2 (flag_ok env) (map fst flags) plan.
Proof.
  intros Ep. unfold share_plan in Ep. destruct (config_shares services env) as [config|]; [|done]. cbn [mbind result_bind] in Ep.
  destruct (plan_loop_ok env config _ _ _ Ep) as (new & -> & Hn & _); [by intros ? ? ? ? _ ?|constructor|]. exact Hn.
Qed.

Lemma planned_flags services flags env plan : share_plan services flags env = Ok plan ->
  forall k mode src dst, zip (map snd flags) plan !! k = Some (mode, (src, dst)) -> exists written, flags !! k = Some (written, mode) /\ flag_ok env written (src, dst).
Proof.
  intros Hf%plan_flags k mode src dst (m & x & [= -> ->] & Hm & Hx)%lookup_zip_with_Some. rewrite list_lookup_fmap in Hm.
  apply fmap_Some in Hm as ([w m'] & Hk & ->). exists w. split; [done|]. destruct (Forall2_lookup_r _ _ _ _ _ Hf Hx) as (w' & Hw' & Hok). rewrite list_lookup_fmap, Hk in Hw'. by injection Hw' as <-.
Qed.

Lemma apply_shares_grows services flags env s s' : apply_shares services flags env s = Ok s' -> grows (shared env flags) false (built s) (built s').
Proof.
  intros Hr. unfold apply_shares in Hr. case_bool_decide; [injection Hr as <-; apply grows_refl|]. destruct (share_plan services flags env) as [plan|] eqn:Ep; [|done].
  cbn [lift mbind result_bind] in Hr. destruct (bind_shares 0 (zip (map snd flags) plan) None s) as [s1 cwd] eqn:Eb.
  apply (grow_trans _ false false _ (built s1)).
  - eapply (bind_shares_grows env flags); [|exact Eb]. by apply (planned_flags services).
  - destruct cwd as [d|]; [|injection Hr as <-; apply grows_refl]. destruct (chdir d (built s1)) as [a|] eqn:Ec; [|done]. cbn [sure mbind result_bind] in Hr. injection Hr as <-. by eapply grows_chdir.
Qed.

Lemma apply_env_grows pairs all i s s' : (forall k p, pairs !! k = Some p -> all !! (i + k)%nat = Some p) -> apply_env_loop i pairs s = Ok s' -> grows (set_by all) false (built s) (built s').
Proof.
  revert i s. induction pairs as [|[k v] pairs IH]; intros i s Hl Hr; cbn [apply_env_loop] in Hr; [injection Hr as <-; apply grows_refl|].
  case_bool_decide as Hk; [done|]. apply (grow_trans _ false false _ (tag (Origin.Env i) (built s))); [apply grows_tag|].
  apply (grow_trans _ false false _ (setenv k v (tag (Origin.Env i) (built s)))).
  - apply grows_setenv. exists i, k, v. split; [done|]. split; [|done]. specialize (Hl 0%nat _ eq_refl). by rewrite Nat.add_0_r in Hl.
  - eapply (IH (S i) (put (setenv k v) (put (tag (Origin.Env i)) s))); [|exact Hr]. intros j p Hj. rewrite Nat.add_succ_comm. by apply (Hl (S j)).
Qed.


(** ** Before the grants *)

Lemma grows_skeleton Q a a' : step a a' -> namespaces a' = namespaces a -> binds a' = binds a -> masks a' = masks a -> Bwrap.env a' = Bwrap.env a -> grows Q false a a'.
Proof.
  intros Hs Hn Hb Hm He. split; [by apply rtc_once| |..]; [|rewrite Hb|rewrite Hm|rewrite He]; try apply none. unfold net. rewrite Hn, orb_false_r. by intros ?.
Qed.

Lemma grows_wait Q a a' i : step a a' -> a' = with_namespaces (fun ns => ns ++ [i]) a -> holds (B "--share-net") i = false -> grows Q false a a'.
Proof.
  intros Hs -> Hi. split; [by apply rtc_once| |apply none..]. intros Hne. split; [cbn [with_namespaces namespaces]; destruct (namespaces a); discriminate|]. unfold net. cbn [with_namespaces namespaces].
  rewrite existsb_app. cbn [existsb]. by rewrite Hi, !orb_false_r.
Qed.

Lemma grows_userns Q a : grows Q false a (disable_userns a).
Proof.
  pose proof (step_userns a) as Hs. destruct (existsb (holds (B "--unshare-user")) (namespaces a)) eqn:E; unfold disable_userns in *; rewrite E in *; [apply grows_refl|].
  by eapply grows_wait.
Qed.

Lemma grows_block Q a : grows Q false a (block_until_released a).
Proof. by eapply grows_wait; [apply step_block|reflexivity|]. Qed.

Lemma grows_seccomp Q p r a : grows Q false a (add_seccomp p r a).
Proof. by eapply grows_wait; [apply step_seccomp|reflexivity|]. Qed.

Lemma grows_ctty Q a : grows Q false a (ctty a).
Proof. by apply grows_skeleton; [apply step_ctty|..]. Qed.

Lemma baseline_skeleton env home : exists etc tmp, etc = etc_allowlist env /\ tmp_item tmp /\ skeleton (baseline env home) = skeleton_front ++ etc ++ skeleton_devices ++ tmp :: skeleton_end home.
Proof. exists (etc_allowlist env), (sized_tmpfs TMP_SIZE (B "/tmp")). split; [done|]. split; [by do 2 eexists|]. apply skeleton_parts. Qed.

(** Neither of the operations the source expects to be there is missing. *)
Lemma etc_there Q env home a : confined env home a -> skeleton a = skeleton (baseline env home) ->
  exists a', bind_host_etc (tag Origin.Etc a) = Some a' /\ grows Q false a a'.
Proof.
  intros Hc Hsk. destruct (baseline_skeleton env home) as (etc & tmp & He & Ht & Hb). rewrite Hb in Hsk.
  assert (confined env home (tag Origin.Etc a)) as Hc' by (eapply step_confined; [apply step_tag|done]).
  pose proof (host_etc_at _ etc tmp env home Hc' (or_introl He) Ht Hsk) as Hh. destruct (bind_host_etc (tag Origin.Etc a)) as [a'|] eqn:E; [|done].
  exists a'. split; [done|]. apply (grow_trans _ false false _ (tag Origin.Etc a)); [apply grows_tag|].
  pose proof (step_host_etc _ _ E) as Hs. unfold bind_host_etc in E. destruct (split_at_first (is_tmpfs _) _) as [[x y]|]; [|done]. cbn [mbind option_bind] in E.
  destruct (split_at_first is_data y) as [[u v]|]; [|done]. cbn [mbind option_bind] in E. destruct v as [|[o1 []] [|[o2 []] v]]; try done. injection E as <-. by apply grows_skeleton.
Qed.

Lemma tmp_there Q env home n a : confined env home a -> exists a', tmp_size n (tag Origin.Tmp a) = Some a' /\ grows Q false a a'.
Proof.
  intros Hc. assert (confined env home (tag Origin.Tmp a)) as Hc' by (eapply step_confined; [apply step_tag|done]).
  destruct (tmp_size_at _ n _ _ Hc') as (a' & Ha & _). exists a'. split; [done|]. apply (grow_trans _ false false _ (tag Origin.Tmp a)); [apply grows_tag|].
  pose proof (step_tmp_size _ _ _ Ha) as Hs. unfold tmp_size in Ha. destruct (replace_first _ _) as [sk|]; [|done]. cbn [mbind option_bind] in Ha. injection Ha as <-. by apply grows_skeleton.
Qed.

Lemma grows_confined Q b env home a a' : grows Q b a a' -> confined env home a -> confined env home a'.
Proof. intros Hg. by apply steps_confined, Hg. Qed.

Lemma apply_seccomp_grows Q set env name noted s s' noted' : apply_seccomp native set env name noted s = Ok (s', noted') -> grows Q false (built s) (built s').
Proof.
  unfold apply_seccomp. destruct set as [set|]; [|intros [= <- _]; apply grows_refl]. destruct (compile_for native set env noted) as [[r n] lines].
  assert (forall lines s, built (fold_left (fun s l => warn l s) lines s) = built s) as Hw by (intros l; induction l as [|x l IH]; intros t; [done|]; cbn [fold_left]; by rewrite IH).
  destruct r as [[p|]|]; cbn [lift mbind result_bind]; [| |done]; intros [= <- _]; cbn [put warn built]; rewrite Hw; [apply grows_seccomp|apply grows_refl].
Qed.


(** ** The builder is never short of an operation *)

Definition calm {A} (r : result Fault A) : Prop := r <> Err Panicked.

Lemma calm_bind {A C} (m : result Fault A) (f : A -> result Fault C) : calm m -> (forall a, m = Ok a -> calm (f a)) -> calm (m ≫= f).
Proof. intros Hm Hf. destruct m as [a|e]; [by apply Hf|]. intros He. apply Hm. cbn in He. congruence. Qed.
Lemma calm_lift {A} (r : result LaunchError.t A) : calm (lift r).
Proof. by destruct r. Qed.

Ltac calming := repeat match goal with
  | |- calm (lift _) => apply calm_lift
  | |- calm (_ ≫= _) => apply calm_bind; [|intros ? _]
  | |- calm (Ok _) => discriminate
  | |- calm (Err (Refused _)) => discriminate
  | |- calm (match ?x with _ => _ end) => destruct x
  end.

Lemma optional_dir_calm service p s : calm (optional_dir service p s).
Proof. unfold optional_dir. calming. Qed.
Lemma try_put_calm f s : calm (try_put f s).
Proof. unfold try_put. calming. Qed.
Lemma hidraw_calm service s : calm (hidraw service s).
Proof. apply optional_dir_calm. Qed.
Lemma fold_calm {A} (f : St -> A -> result Fault St) l s : (forall s a, calm (f s a)) -> calm (fold_res f s l).
Proof. intros Hf. revert s. induction l as [|a l IH]; intros s; cbn [fold_res]; [done|]. pose proof (Hf s a) as Ha. destruct (f s a); [apply IH|exact Ha]. Qed.

Lemma gamepad_calm node u s : calm (gamepad node u s).
Proof.
  unfold gamepad, gamepad_uinput. calming; try apply try_put_calm; try apply optional_dir_calm; apply hidraw_calm.
Qed.

Lemma apply_one_calm services env ctx svc s : calm (apply_one services env ctx svc s).
Proof.
  destruct svc as [m|m|cfg|k|b|b|p m o|p m o|n|r|r|c| | |h u| |n|r| | |id m]; cbn [apply_one]; try done; try apply try_put_calm.
  - unfold wayland. calming.
  - unfold x11_grant. calming.
  - unfold network. calming.
  - unfold pipewire. calming.
  - unfold pulseaudio. calming.
  - unfold portals. calming.
  - unfold camera, camera_nodes. calming. apply fold_calm. intros. apply optional_dir_calm.
  - unfold a11y. calming.
Qed.

Lemma apply_loop_calm services env ctx l i s : calm (apply_loop services env ctx i l s).
Proof. revert i s. induction l as [|svc l IH]; intros i s; cbn [apply_loop]; [done|]. apply calm_bind; [apply apply_one_calm|]. intros a _. apply IH. Qed.

Lemma apply_all_calm services env ctx s : calm (apply_all services env ctx s).
Proof.
  unfold apply_all. apply calm_bind; [apply calm_lift|]. intros sh _. apply calm_bind; [apply apply_loop_calm|]. intros s1 _. apply calm_bind; [|done].
  unfold apply_devices. destruct (Dbus.find_map _ _ _) as [[i [h u]]|]; [apply gamepad_calm|]. destruct (hidraw_node services) as [[n o]|]; [apply hidraw_calm|done].
Qed.

Lemma apply_env_calm pairs i s : calm (apply_env_loop i pairs s).
Proof. revert i s. induction pairs as [|[k v] pairs IH]; intros i s; cbn [apply_env_loop]; [done|]. case_bool_decide; [done|]. apply IH. Qed.

Lemma apply_seccomp_calm set env name noted s : calm (apply_seccomp native set env name noted s).
Proof. unfold apply_seccomp. destruct set as [set|]; [|done]. destruct (compile_for native set env noted) as [[r n] l]. calming. Qed.

Lemma apply_shares_calm services flags env s home : confined env home (built s) -> calm (apply_shares services flags env s).
Proof.
  intros Hc. unfold apply_shares. case_bool_decide; [done|]. destruct (share_plan services flags env) as [plan|] eqn:Ep; [|done]. cbn [lift mbind result_bind].
  destruct (bind_shares 0 (zip (map snd flags) plan) None s) as [s1 cwd] eqn:Eb. destruct cwd as [d|]; [|done].
  assert (confined env home (built s1)) as Hc1.
  { eapply grows_confined; [|exact Hc]. eapply (bind_shares_grows env flags); [|exact Eb]. by apply (planned_flags services). }
  destruct (chdir_at _ d _ _ Hc1) as (a & -> & _). done.
Qed.


(** ** The whole *)

(** Everything a configuration may put into its sandbox. *)
Definition of_config (env : Env) (inst : Instance_t) (init : bytes) (i : Item) : Prop :=
  asked env (service_ctx env inst init) (services (i_config inst)) i \/ shared env (shares (i_config inst)) i \/
  set_by (Config.env (i_config inst)) i \/ (i_origin i = Origin.Init /\ kind i = Kind.Args [B "--ro-bind"; init; INIT_INSIDE]).

Lemma front_grows Q env inst (tty : bool) (w : option Z) a1 a2 :
  grows Q false (baseline env (instance_home inst)) a1 -> grows Q false a1 a2 ->
  let a3 := if tty then ctty a2 else a2 in
  grows Q false (baseline env (instance_home inst)) (tag Origin.Seccomp (match w with Some i => block_until_released (tag (Origin.Service (Z.to_nat i)) a3) | None => a3 end)).
Proof.
  intros G1 G2 a3. apply (grow_trans _ false false _ a1); [exact G1|]. apply (grow_trans _ false false _ a2); [exact G2|].
  apply (grow_trans _ false false _ a3); [subst a3; destruct tty; [apply grows_ctty|apply grows_refl]|].
  destruct w as [i|]; [|apply grows_tag]. apply (grow_trans _ false false _ (tag (Origin.Service (Z.to_nat i)) a3)); [apply grows_tag|].
  apply (grow_trans _ false false _ (block_until_released (tag (Origin.Service (Z.to_nat i)) a3))); [apply grows_block|apply grows_tag].
Qed.

Lemma build_grows env inst command tty noted :
  match build_args native env inst command tty noted with
  | Ok (s, _, _) => exists init, locate env = Ok init /\
      grows (of_config env inst init) (existsb is_host_network (services (i_config inst))) (baseline env (instance_home inst)) (built s)
  | Err f => f <> Panicked
  end.
Proof.
  unfold build_args. destruct (resolve_command inst command) as [cmd|]; [|done]. cbn [lift mbind result_bind]. destruct (locate env) as [init|]; [|done]. cbn [lift mbind result_bind].
  set (cfg := i_config inst). set (Q := of_config env inst init). set (base := baseline env (instance_home inst)).
  set (a0 := if bool_decide (userns cfg = Userns.Disable) then disable_userns (tag Origin.Userns base) else base).
  assert (grows Q false base a0) as G0.
  { subst a0. case_bool_decide; [|apply grows_refl]. apply (grow_trans _ false false _ (tag Origin.Userns base)); [apply grows_tag|apply grows_userns]. }
  assert (skeleton a0 = skeleton base) as Hsk by (subst a0; case_bool_decide; [|done]; unfold disable_userns; by destruct (existsb _ _)).
  clearbody a0. pose proof (grows_confined _ _ env (instance_home inst) _ _ G0 (baseline_confined _ _)) as C0.
  assert (exists a1, (if bool_decide (etc cfg = EtcMode.Host) then sure (bind_host_etc (tag Origin.Etc a0)) else Ok a0) = Ok a1 /\ grows Q false a0 a1) as (a1 & E1 & G1).
  { case_bool_decide; [|by exists a0; split; [|apply grows_refl]]. destruct (etc_there Q _ _ _ C0 Hsk) as (a1 & -> & G1). by exists a1. }
  rewrite E1. cbn [mbind result_bind]. clear E1. pose proof (grows_confined _ _ _ _ _ _ G1 C0) as C1. pose proof (grow_trans _ _ _ _ _ _ G0 G1) as G01. cbn [orb] in G01.
  assert (exists a2, match tmp cfg with Some size => sure (tmp_size size (tag Origin.Tmp a1)) | None => Ok a1 end = Ok a2 /\ grows Q false a1 a2) as (a2 & E2 & G2).
  { destruct (tmp cfg) as [n|]; [|by exists a1; split; [|apply grows_refl]]. destruct (tmp_there Q _ _ n _ C1) as (a2 & -> & G2). by exists a2. }
  rewrite E2. cbn [mbind result_bind]. clear E2.
  pose proof (front_grows Q env inst tty (waits (services cfg) (Dbus.plan (services cfg) (i_name inst))) a1 a2 G01 G2) as G3. cbv zeta in G3. fold base in G3.
  match goal with |- context [mkSt ?x []] => set (a3 := x) in * end. clearbody a3.
  pose proof (apply_seccomp_calm (RuleSet.with_ (seccomp cfg)) env (i_name inst) noted (mkSt a3 [])) as P4.
  destruct (apply_seccomp native (RuleSet.with_ (seccomp cfg)) env (i_name inst) noted (mkSt a3 [])) as [[s4 n4]|e4] eqn:E4; cbn [mbind result_bind]; [|congruence].
  apply (apply_seccomp_grows Q) in E4. cbn [built] in E4. pose proof (grow_trans _ _ _ _ _ _ G3 E4) as G4. cbn [orb] in G4. clear P4 G3 E4.
  pose proof (apply_all_calm (services cfg) env (service_ctx env inst init) s4) as P5.
  destruct (apply_all (services cfg) env (service_ctx env inst init) s4) as [s5|e5] eqn:E5; cbn [mbind result_bind]; [|congruence]. clear P5.
  apply apply_all_grows, (grows_mono _ Q) in E5; [|intros i Hi; by left]. pose proof (grow_trans _ _ _ _ _ _ G4 E5) as G5. cbn [orb] in G5. clear G4 E5.
  pose proof (apply_shares_calm (services cfg) (shares cfg) env s5 _ (grows_confined _ _ _ _ _ _ G5 (baseline_confined _ _))) as P6.
  destruct (apply_shares (services cfg) (shares cfg) env s5) as [s6|e6] eqn:E6; cbn [mbind result_bind]; [|congruence]. clear P6.
  apply apply_shares_grows, (grows_mono _ Q) in E6; [|intros i Hi; by right; left]. pose proof (grow_trans _ _ _ _ _ _ G5 E6) as G6. rewrite orb_false_r in G6. clear G5 E6.
  unfold apply_env. pose proof (apply_env_calm (Config.env cfg) 0 s6) as P7. destruct (apply_env_loop 0 (Config.env cfg) s6) as [s7|e7] eqn:E7; cbn [mbind result_bind]; [|congruence]. clear P7.
  apply (apply_env_grows _ (Config.env cfg)), (grows_mono _ Q) in E7; [|intros i Hi; by do 2 right; left|done]. pose proof (grow_trans _ _ _ _ _ _ G6 E7) as G7. rewrite orb_false_r in G7. clear G6 E7.
  exists init. split; [done|]. rewrite <-(orb_false_r (existsb _ _)). apply (grow_trans _ _ _ _ (built s7)); [exact G7|].
  apply (grow_trans _ false false _ (tag Origin.Init (built s7))); [apply grows_tag|]. apply kept_ro. by do 3 right.
Qed.

(** C3. Whatever the configuration, the environment and the host, building its sandbox never
    finds the operation it means to replace missing; and a sandbox that is built is confined:
    every namespace unshared, the skeleton and the cleared environment as the baseline made
    them. *)
Theorem every_sandbox_is_confined env inst command tty noted :
  match build_args native env inst command tty noted with
  | Ok (s, _, _) => confined env (instance_home inst) (built s)
  | Err f => f <> Panicked
  end.
Proof.
  pose proof (build_grows env inst command tty noted) as Hb. destruct (build_args native env inst command tty noted) as [[[s c] n]|f]; [|exact Hb].
  destruct Hb as (init & _ & Hg). eapply grows_confined; [exact Hg|apply baseline_confined].
Qed.

(** C2. The sandbox has the network of the host exactly when a [network] node of its
    configuration asks for it. *)
Theorem network_is_shared_only_when_asked env inst command tty noted s c n :
  build_args native env inst command tty noted = Ok (s, c, n) ->
  net (built s) = true <-> exists cfg, Service.Network cfg ∈ services (i_config inst) /\ mode cfg = Mode.Host.
Proof.
  intros Hb. pose proof (build_grows env inst command tty noted) as Hg. rewrite Hb in Hg. destruct Hg as (init & _ & Hg). destruct (g_net _ _ _ _ Hg) as [_ ->]; [done|].
  assert (net (baseline env (instance_home inst)) = false) as -> by reflexivity. rewrite orb_false_l, existsb_exists. split.
  - intros ([] & Hin & Hn); try discriminate Hn. cbn [is_host_network] in Hn. apply bool_decide_eq_true in Hn. exists cfg. split; [by apply list_elem_of_In|done].
  - intros (cfg & Hin & Hm). exists (Service.Network cfg). split; [by apply list_elem_of_In|]. by apply bool_decide_eq_true.
Qed.

(** C1. Every bind, device, generated file, link, mask and variable of a sandbox beyond those
    every sandbox has comes from a node of its configuration, is named as that node's, and is
    one that node may ask for: a device comes with a node for devices alone, a directory to
    write with a share or the document portal, a path of the host clear of what is reserved.
    Beside these there are the shares and the variables of the command line and the
    supervisor. *)
Theorem everything_bound_is_asked_for env inst command tty noted s c n :
  build_args native env inst command tty noted = Ok (s, c, n) ->
  exists init, locate env = Ok init /\
    Forall (of_config env inst init) (binds (built s)) /\ Forall (of_config env inst init) (masks (built s)) /\
    exists sets, Bwrap.env (built s) = Bwrap.env (baseline env (instance_home inst)) ++ sets /\ Forall (of_config env inst init) sets.
Proof.
  intros Hb. pose proof (build_grows env inst command tty noted) as Hg. rewrite Hb in Hg. destruct Hg as (init & Hi & Hg). exists init. split; [done|].
  destruct (g_binds _ _ _ _ Hg) as (bs & -> & Hbs), (g_masks _ _ _ _ Hg) as (ms & -> & Hms). split; [exact Hbs|]. split; [exact Hms|]. apply Hg.
Qed.
End Sandbox.


(** ** A configuration to run it on *)

Section Demo.
#[local] Instance demo_grants_host : Host :=
  {| file_type p := if bool_decide (p = B "/srv/music" \/ p = B "/home/user/Documents") then Some FileType.Dir else
                    if bool_decide (p = INIT_INSTALLED \/ p = B "/etc/resolv.conf") then Some FileType.File else None;
     list_dir _ := []; canonicalize p := Some p; is_mountpoint _ := None; writable _ := false; read _ := None; current_exe := None; read_link _ := Ok None |}.
#[local] Instance demo_grants_text : IpText := {| ip_from_str _ := None; ip_text _ := [] |}.
#[local] Instance demo_grants_seccomp : Libseccomp unit := {|
  filter_new _ := Ok tt; set_act_badarch _ f := Ok f; add_arch _ f := Ok f; add_rule _ _ f := Ok f; add_rule_conditional _ _ _ f := Ok f;
  export_bpf _ := Ok []; from_name _ := None |}.
#[local] Instance demo_grants_target : Target := true.

Definition demo_network (m : Mode.t) : NetworkConfig := mkNetwork m [] [] false Outbound.Allow [] [].
Definition demo_config (m : Mode.t) : InstanceConfig :=
  mkInstance [Service.Network (demo_network m); Service.PathShare [RootDir; Normal (B "srv"); Normal (B "music")] ShareMode.ReadOnly false; Service.InputMethod]
    [(B "/home/user/Documents", ShareMode.ReadWrite)] (Some [B "app"]) [(B "LANG", B "C")] EtcMode.Host (Some 4096) Pty default_seccomp Userns.Disable [] None [].
Definition demo_instance (m : Mode.t) : Instance_t := mkInstanceT (B "app") (B "/home/user/.local/share/bubbler/app") (demo_config m).

Lemma demo_builds m : exists s c n, build_args (B "x86_64") demo_env (demo_instance m) None true false = Ok (s, c, n).
Proof. destruct m; do 3 eexists; vm_compute; reflexivity. Qed.

Lemma network_is_shared_only_when_asked_witness : exists s c n s' c' n',
  build_args (B "x86_64") demo_env (demo_instance Mode.Host) None true false = Ok (s, c, n) /\ net (built s) = true /\
  build_args (B "x86_64") demo_env (demo_instance Mode.Isolated) None true false = Ok (s', c', n') /\ net (built s') <> true.
Proof.
  destruct (demo_builds Mode.Host) as (s & c & n & Hb), (demo_builds Mode.Isolated) as (s' & c' & n' & Hb'). exists s, c, n, s', c', n'. split; [exact Hb|]. split.
  - apply (network_is_shared_only_when_asked _ _ _ _ _ _ _ _ _ Hb). exists (demo_network Mode.Host). split; [by left|reflexivity].
  - split; [exact Hb'|]. intros Hn. apply (network_is_shared_only_when_asked _ _ _ _ _ _ _ _ _ Hb') in Hn as (cfg & Hin & Hm).
    unfold demo_instance, demo_config in Hin. cbn [i_config services] in Hin. apply elem_of_cons in Hin as [[= ->]|Hin]; [discriminate Hm|].
    apply elem_of_cons in Hin as [Hin|Hin]; [discriminate Hin|]. apply elem_of_cons in Hin as [Hin|Hin]; [discriminate Hin|]. by apply elem_of_nil in Hin.
Defined.

Lemma everything_bound_is_asked_for_witness : exists s c n init,
  build_args (B "x86_64") demo_env (demo_instance Mode.Host) None true false = Ok (s, c, n) /\ length (binds (built s)) = 4%nat /\
  Forall (of_config demo_env (demo_instance Mode.Host) init) (binds (built s)).
Proof.
  assert (exists s c n, build_args (B "x86_64") demo_env (demo_instance Mode.Host) None true false = Ok (s, c, n) /\ length (binds (built s)) = 4%nat) as (s & c & n & Hb & Hl)
    by (do 3 eexists; split; [vm_compute; reflexivity|reflexivity]).
  destruct (everything_bound_is_asked_for _ _ _ _ _ _ _ _ _ Hb) as (init & _ & Hf & _). exists s, c, n, init. split; [exact Hb|]. split; [exact Hl|exact Hf].
Defined.
End Demo.
