(* ===== verification/ConfigScan.v ===== *)
(** What [crates/bubbler-core/src/config.rs] reads of a text before and beside the KDL
    parser: the bounds a text must keep, the lines it has, and where its kept [/-] lines
    are.  Every loop runs on the bytes left, as fuel; [ConfigScanFacts] shows that is
    enough. *)
From S2P Require Export Config.

Definition at_byte (b : bytes) (i : Z) (n : Z) : bool := match get b i with Some c => u8 c =? n | None => false end.

(** Length of the newline at [at_], if one starts there. *)
Definition newline_len (b : bytes) (at_ : Z) : option Z :=
  c ← get b at_;
  if (u8 c =? 13) && at_byte b (at_ + 1) 10 then Some 2
  else if (u8 c =? 13) || (u8 c =? 10) || (u8 c =? 11) || (u8 c =? 12) then Some 1
  else if (u8 c =? 194) && at_byte b (at_ + 1) 133 then Some 2
  else if (u8 c =? 226) && at_byte b (at_ + 1) 128 && (at_byte b (at_ + 2) 168 || at_byte b (at_ + 2) 169) then Some 3
  else None.

Fixpoint line_comment_loop (fuel : nat) (b : bytes) (i : Z) : Z :=
  match fuel with
  | O => len b
  | S fuel =>
    if i <? len b then
      match newline_len b i with Some _ => i | None => line_comment_loop fuel b (i + 1) end
    else len b
  end.
Definition line_comment_end (b : bytes) (at_ : Z) : Z := line_comment_loop (length b) b at_.

(** The end of a block comment and the marks it holds. *)
Fixpoint block_comment_loop (fuel : nat) (b : bytes) (open marks i : Z) : Z * Z :=
  let over := (len b, if at_byte b i 42 || at_byte b i 47 then marks + 1 else marks) in
  match fuel with
  | O => over
  | S fuel =>
    if (i + 1 <? len b) && (marks <=? MAX_COMMENT_MARKS) then
      if at_byte b i 47 && at_byte b (i + 1) 42 then block_comment_loop fuel b (open + 1) (marks + 2) (i + 2)
      else if at_byte b i 42 && at_byte b (i + 1) 47 then
        if open - 1 =? 0 then (i + 2, marks) else block_comment_loop fuel b (open - 1) (marks + 2) (i + 2)
      else if at_byte b i 42 || at_byte b i 47 then block_comment_loop fuel b open (marks + 1) (i + 1)
      else block_comment_loop fuel b open marks (i + 1)
    else over
  end.
Definition block_comment_end (b : bytes) (at_ : Z) : Z * Z := block_comment_loop (length b) b 1 0 (at_ + 2).

Definition char_boundary (b : bytes) (i : Z) : bool :=
  (i =? len b) || match get b i with Some c => negb (is_cont c) | None => false end.

Fixpoint line_loop (fuel : nat) (b : bytes) (line i : Z) : Z :=
  match fuel with
  | O => line
  | S fuel =>
    if i <? len b then
      match newline_len b i with
      | Some n => line_loop fuel b (Z.min U32_MAX (line + 1)) (i + n)
      | None => line_loop fuel b line (i + 1)
      end
    else line
  end.
Definition line_at (text : bytes) (offset : Z) : option Z :=
  if char_boundary text offset then let b := upto text offset in Some (line_loop (length b) b 1 0) else None.

(** The check over the bytes from [i] on, [opens] braces seen. *)
Fixpoint bounds_loop (rest text : bytes) (i opens : Z) : result ConfigError unit :=
  match rest with
  | [] => Ok tt
  | c :: rest =>
    if u8 c =? 123 then
      let opens := opens + 1 in
      if opens >? MAX_NESTING then Err (TooDeep (default 0 (line_at text i)) MAX_NESTING)
      else bounds_loop rest text (i + 1) opens
    else if (u8 c =? 47) && at_byte text (i + 1) 42 then
      let '(_, marks) := block_comment_end text i in
      if marks >? MAX_COMMENT_MARKS then Err (CommentTooBusy (default 0 (line_at text i)) MAX_COMMENT_MARKS)
      else bounds_loop rest text (i + 1) opens
    else bounds_loop rest text (i + 1) opens
  end.

Definition check_bounds (text : bytes) : result ConfigError unit :=
  if len text >? MAX_BYTES then Err (TooLarge (len text) MAX_BYTES) else bounds_loop text text 0 0.

(** ** Strings *)

Definition space_len (b : bytes) (at_ : Z) : option Z :=
  c ← get b at_;
  if (u8 c =? 9) || (u8 c =? 32) then Some 1
  else if (u8 c =? 194) && at_byte b (at_ + 1) 160 then Some 2
  else if (u8 c =? 225) && at_byte b (at_ + 1) 154 && at_byte b (at_ + 2) 128 then Some 3
  else if (u8 c =? 226) && at_byte b (at_ + 1) 128 &&
          match get b (at_ + 2) with Some d => ((128 <=? u8 d) && (u8 d <=? 138)) || (u8 d =? 175) | None => false end then Some 3
  else if (u8 c =? 226) && at_byte b (at_ + 1) 129 && at_byte b (at_ + 2) 159 then Some 3
  else if (u8 c =? 227) && at_byte b (at_ + 1) 128 && at_byte b (at_ + 2) 128 then Some 3
  else None.

Fixpoint only_spaces_loop (fuel : nat) (b : bytes) (escapes : bool) (i : Z) : bool :=
  match fuel with
  | O => true
  | S fuel =>
    if i <? len b then
      if escapes && at_byte b i 92 then
        match space_len b (i + 1) with Some n => only_spaces_loop fuel b escapes (i + 1 + n) | None => false end
      else match space_len b i with Some n => only_spaces_loop fuel b escapes (i + n) | None => false end
    else true
  end.
Definition only_spaces (b : bytes) (escapes : bool) : bool := only_spaces_loop (length b) b escapes 0.

(** How many [#] start [l]. *)
Fixpoint hashes_of (l : bytes) : Z :=
  match l with
  | c :: l => if u8 c =? 35 then 1 + hashes_of l else 0
  | [] => 0
  end.

Definition three_quotes (b : bytes) (i : Z) : bool := at_byte b i 34 && at_byte b (i + 1) 34 && at_byte b (i + 2) 34.

Definition is_some {A} (o : option A) : bool := match o with Some _ => true | None => false end.

Fixpoint string_loop (fuel : nat) (b : bytes) (hashes : Z) (triple : bool) (line_start i : Z) : option Z :=
  match fuel with
  | O => None
  | S fuel =>
    if i <? len b then
      match newline_len b i with
      | Some n => string_loop fuel b hashes triple (i + n) (i + n)
      | None =>
        if at_byte b i 92 && (hashes =? 0) then
          string_loop fuel b hashes triple line_start (i + (if is_some (newline_len b (i + 1)) then 1 else 2))
        else if at_byte b i 34 then
          if triple && (negb (three_quotes b i) || negb (only_spaces (upto (from b line_start) (i - line_start)) (hashes =? 0)))
          then string_loop fuel b hashes triple line_start (i + 1)
          else
            let after := i + (if triple then 3 else 1) in
            if hashes_of (from b after) >=? hashes then Some (after + hashes)
            else string_loop fuel b hashes triple line_start after
        else string_loop fuel b hashes triple line_start (i + 1)
      end
    else None
  end.

Definition string_end (b : bytes) (quote hashes : Z) : option Z :=
  let triple := three_quotes b quote && is_some (newline_len b (quote + 3)) in
  let i := quote + (if triple then 3 else 1) in
  string_loop (length b) b hashes triple i i.

(** ** Kept lines *)

Fixpoint escline_loop (fuel : nat) (b : bytes) (i : Z) : Z :=
  match fuel with
  | O => len b
  | S fuel =>
    if i <? len b then
      match newline_len b i with
      | Some n => i + n
      | None =>
        if at_byte b i 32 || at_byte b i 9 then escline_loop fuel b (i + 1)
        else if at_byte b i 47 && at_byte b (i + 1) 47 then escline_loop fuel b (line_comment_end b i)
        else i
      end
    else len b
  end.
Definition escline_end (b : bytes) (at_ : Z) : Z := escline_loop (length b) b (at_ + 1).

(** Where the scan goes on after the byte at [i], which opens no line, and the depth there. *)
Definition step_over (b : bytes) (i depth : Z) : Z * Z :=
  if at_byte b i 47 && at_byte b (i + 1) 47 then (line_comment_end b i, depth)
  else if at_byte b i 47 && at_byte b (i + 1) 42 then ((block_comment_end b i).1, depth)
  else if at_byte b i 92 then (escline_end b i, depth)
  else if at_byte b i 34 then (default (i + 1) (string_end b i 0), depth)
  else if at_byte b i 35 then
    let hashes := hashes_of (from b i) in
    if at_byte b (i + hashes) 34 then (default (i + hashes + 1) (string_end b (i + hashes) hashes), depth)
    else (i + hashes, depth)
  else if at_byte b i 123 then (i + 1, depth + 1)
  else if at_byte b i 125 then (i + 1, Z.max 0 (depth - 1))
  else (i + 1, depth).

Fixpoint marks_loop (fuel : nat) (b : bytes) (depth : Z) (opens_line : bool) (i : Z) : list Z :=
  match fuel with
  | O => []
  | S fuel =>
    if i <? len b then
      if opens_line && (depth =? 0) && at_byte b i 47 && at_byte b (i + 1) 45 then i :: marks_loop fuel b depth false (i + 2)
      else match newline_len b i with
           | Some n => marks_loop fuel b depth true (i + n)
           | None => let '(next, depth) := step_over b i depth in marks_loop fuel b depth false next
           end
    else []
  end.
Definition slashdash_marks (text : bytes) : list Z := marks_loop (length text) text 0 true 0.

(** The text without its marks. *)
Fixpoint cut_marks (text : bytes) (cut : Z) (marks : list Z) : bytes :=
  match marks with
  | [] => from text cut
  | mark :: marks => upto (from text cut) (mark - cut) ++ cut_marks text (mark + 2) marks
  end.
Definition bare (text : bytes) : bytes := cut_marks text 0 (slashdash_marks text).
