(* ===== verification/ConfigScanFacts.v ===== *)
(** Facts of the scanners of [ConfigScan]: they move on, so their fuel is enough, and what
    they do with a text that is put together from parts. *)
From S2P Require Export ConfigScan KdlOut.

(** ** Bytes of a text with parts *)

Lemma get_shift {A} (pre l : list A) k : 0 <= k -> get (pre ++ l) (len pre + k) = get l k.
Proof.
  intros Hk. unfold get. rewrite len_app. pose proof (len_nonneg pre).
  destruct (Z.ltb_spec (len pre + k) (len pre + len l)), (Z.ltb_spec k (len l)); try lia.
  - rewrite !(proj2 (Z.leb_le _ _)) by lia. cbn [andb]. unfold len. rewrite lookup_app_r by lia. f_equal. lia.
  - by rewrite !andb_false_r.
Qed.

Lemma at_byte_shift pre l k n : 0 <= k -> at_byte (pre ++ l) (len pre + k) n = at_byte l k n.
Proof. intros Hk. unfold at_byte. by rewrite get_shift. Qed.

Lemma at_byte_0 pre c l n : at_byte (pre ++ c :: l) (len pre) n = (u8 c =? n).
Proof. unfold at_byte. by rewrite get_app_mid. Qed.

Lemma at_byte_1 pre c d l n : at_byte (pre ++ c :: d :: l) (len pre + 1) n = (u8 d =? n).
Proof.
  unfold at_byte. replace (pre ++ c :: d :: l) with ((pre ++ [c]) ++ d :: l) by (by rewrite <-app_assoc).
  replace (len pre + 1) with (len (pre ++ [c])) by (by rewrite len_app). by rewrite get_app_mid.
Qed.

Lemma newline_len_shift pre l k : 0 <= k -> newline_len (pre ++ l) (len pre + k) = newline_len l k.
Proof.
  intros Hk. unfold newline_len. rewrite get_shift by done.
  rewrite <-!Z.add_assoc, !at_byte_shift by lia. done.
Qed.

Lemma from_shift {A} (pre l : list A) k : 0 <= k -> from (pre ++ l) (len pre + k) = from l k.
Proof.
  intros Hk. unfold from, len. rewrite skipn_app, (drop_ge pre) by lia. cbn [app]. f_equal. lia.
Qed.

(** ** Moving on *)

Lemma newline_pos b i n : newline_len b i = Some n -> 0 < n.
Proof.
  unfold newline_len. destruct (get b i); [|done]. cbn [mbind option_bind].
  repeat match goal with |- context [if ?x then _ else _] => destruct x end; intros [= <-]; lia.
Qed.

Lemma at_byte_len b i n : at_byte b i n = true -> 0 <= i < len b.
Proof.
  unfold at_byte, get. destruct (Z.leb_spec 0 i), (Z.ltb_spec i (len b)); cbn; done || lia.
Qed.

Lemma line_comment_ge fuel b i : i <= len b -> i <= line_comment_loop fuel b i.
Proof.
  revert i. induction fuel as [|fuel IH]; intros i Hi; cbn; [done|].
  destruct (Z.ltb_spec i (len b)); [|lia]. destruct (newline_len b i); [lia|]. specialize (IH (i + 1)). lia.
Qed.

Lemma line_comment_gt b i : at_byte b i 47 = true -> i < line_comment_end b i.
Proof.
  intros Hi. pose proof (at_byte_len _ _ _ Hi). unfold line_comment_end.
  destruct (length b) as [|fuel] eqn:E; [unfold len in *; lia|]. cbn. destruct (Z.ltb_spec i (len b)); [|lia].
  assert (newline_len b i = None) as ->.
  { unfold at_byte in Hi. unfold newline_len. destruct (get b i) as [c|]; [|done]. cbn.
    apply Z.eqb_eq in Hi. by rewrite !Hi. }
  pose proof (line_comment_ge fuel b (i + 1)). lia.
Qed.

Lemma block_comment_ge fuel b open marks i : i <= len b -> i <= (block_comment_loop fuel b open marks i).1.
Proof.
  revert open marks i. induction fuel as [|fuel IH]; intros open marks i Hi; cbn [block_comment_loop]; [done|].
  destruct (Z.ltb_spec (i + 1) (len b)); cbn [andb]; [|done].
  pose proof (fun o m => IH o m (i + 1) ltac:(lia)). pose proof (fun o m => IH o m (i + 2) ltac:(lia)).
  repeat case_match; cbn; try lia; (eapply Z.le_trans; [|eauto]); lia.
Qed.

Lemma escline_ge fuel b i : i <= len b -> i <= escline_loop fuel b i.
Proof.
  revert i. induction fuel as [|fuel IH]; intros i Hi; cbn [escline_loop]; [done|].
  destruct (Z.ltb_spec i (len b)); [|lia]. destruct (newline_len b i) eqn:E; [apply newline_pos in E; lia|].
  destruct (_ || _); [specialize (IH (i + 1)); lia|]. destruct (_ && _); [|done].
  pose proof (line_comment_ge (length b) b i Hi). unfold line_comment_end.
  destruct (Z.le_gt_cases (line_comment_loop (length b) b i) (len b)) as [Hl|Hl]; [specialize (IH _ Hl); lia|].
  destruct fuel; cbn; [lia|]. destruct (Z.ltb_spec (line_comment_loop (length b) b i) (len b)); lia.
Qed.

Lemma hashes_nonneg l : 0 <= hashes_of l.
Proof. induction l as [|c l IH]; cbn; [done|]. destruct (_ =? _); lia. Qed.

Lemma string_gt fuel b hashes triple ls i e : 0 <= hashes -> string_loop fuel b hashes triple ls i = Some e -> i < e.
Proof.
  revert ls i. induction fuel as [|fuel IH]; intros ls i Hh; cbn [string_loop]; [done|].
  destruct (i <? len b); [|done]. destruct (newline_len b i) eqn:E.
  { apply newline_pos in E. intros He%IH; lia. }
  destruct (_ && (_ =? _)); [intros He%IH; [destruct (is_some _); lia|lia]|].
  destruct (at_byte b i 34); [|intros He%IH; lia].
  destruct (_ && _); [intros He%IH; lia|]. destruct (_ >=? _).
  - intros [= <-]. destruct triple; lia.
  - intros He%IH; [destruct triple; lia|lia].
Qed.

Lemma string_end_gt b q hashes e : 0 <= hashes -> string_end b q hashes = Some e -> q < e.
Proof.
  intros Hh. unfold string_end. intros He%string_gt; [|done]. destruct (_ && _); lia.
Qed.

Lemma hashes_pos b i : at_byte b i 35 = true -> 0 < hashes_of (from b i).
Proof.
  unfold at_byte, get, from. destruct (_ && _); [|done]. destruct (b !! Z.to_nat i) as [c|] eqn:E; [|done].
  intros Hc. rewrite (drop_S _ _ _ E). cbn. rewrite Hc. pose proof (hashes_nonneg (drop (S (Z.to_nat i)) b)). lia.
Qed.

Lemma step_over_gt b i depth : 0 <= i < len b -> i < (step_over b i depth).1.
Proof.
  intros Hi. unfold step_over.
  destruct (at_byte b i 47 && at_byte b (i + 1) 47) eqn:E1; [apply andb_true_iff in E1 as [E1 _]; by apply line_comment_gt|].
  destruct (at_byte b i 47 && at_byte b (i + 1) 42) eqn:E2.
  { apply andb_true_iff in E2 as [_ E2]. apply at_byte_len in E2. cbn. unfold block_comment_end.
    pose proof (block_comment_ge (length b) b 1 0 (i + 2)). lia. }
  destruct (at_byte b i 92); [unfold escline_end; pose proof (escline_ge (length b) b (i + 1)); cbn; lia|].
  destruct (at_byte b i 34); [cbn; destruct (string_end b i 0) eqn:E; cbn; [by apply string_end_gt in E|lia]|].
  destruct (at_byte b i 35) eqn:E3.
  - apply hashes_pos in E3. destruct (at_byte b _ 34); cbn; [|lia].
    destruct (string_end b _ _) eqn:E; cbn; [apply string_end_gt in E; lia|lia].
  - destruct (at_byte b i 123); [cbn; lia|]. destruct (at_byte b i 125); cbn; lia.
Qed.

(** The fuel of [marks_loop] is enough: more changes nothing. *)
Lemma marks_fuel b f g depth opens i : 0 <= i -> len b - i <= Z.of_nat f -> len b - i <= Z.of_nat g ->
  marks_loop f b depth opens i = marks_loop g b depth opens i.
Proof.
  revert g depth opens i. induction f as [|f IH]; intros g depth opens i Hi Hf Hg.
  { destruct g as [|g]; [done|]. cbn [marks_loop]. destruct (Z.ltb_spec i (len b)); [lia|done]. }
  destruct g as [|g]; cbn [marks_loop]; [destruct (Z.ltb_spec i (len b)); [lia|done]|].
  destruct (Z.ltb_spec i (len b)); [|done].
  destruct (opens && _ && _ && _); [f_equal; apply IH; lia|].
  destruct (newline_len b i) eqn:E; [apply newline_pos in E; apply IH; lia|].
  pose proof (step_over_gt b i depth ltac:(lia)). destruct (step_over b i depth) as [j d]; cbn in *. apply IH; lia.
Qed.

Definition marks_at (b : bytes) (depth : Z) (opens_line : bool) (i : Z) : list Z := marks_loop (Z.to_nat (len b - i)) b depth opens_line i.

Lemma marks_at_step b depth opens i : 0 <= i < len b ->
  marks_at b depth opens i =
  if opens && (depth =? 0) && at_byte b i 47 && at_byte b (i + 1) 45 then i :: marks_at b depth false (i + 2)
  else match newline_len b i with
       | Some n => marks_at b depth true (i + n)
       | None => let '(next, depth) := step_over b i depth in marks_at b depth false next
       end.
Proof.
  intros Hi. unfold marks_at. destruct (Z.to_nat (len b - i)) as [|f] eqn:Ef; [lia|]. cbn [marks_loop].
  destruct (Z.ltb_spec i (len b)); [|lia].
  assert (forall d o j, i < j -> marks_loop f b d o j = marks_loop (Z.to_nat (len b - j)) b d o j) as Hm
    by (intros d o j Hj; apply marks_fuel; lia).
  destruct (opens && _ && _ && _); [f_equal; apply Hm; lia|].
  destruct (newline_len b i) eqn:E; [apply newline_pos in E; apply Hm; lia|].
  pose proof (step_over_gt b i depth ltac:(lia)). destruct (step_over b i depth) as [j d]; cbn in *. apply Hm; lia.
Qed.

Lemma slashdash_marks_at b : slashdash_marks b = marks_at b 0 true 0.
Proof. unfold slashdash_marks, marks_at. f_equal. unfold len. lia. Qed.

(** ** A quoted value is stepped over *)

Lemma string_fuel b h triple f g ls i : 0 <= h -> 0 <= i -> len b - i <= Z.of_nat f -> len b - i <= Z.of_nat g ->
  string_loop f b h triple ls i = string_loop g b h triple ls i.
Proof.
  intros Hh. revert g ls i. induction f as [|f IH]; intros g ls i Hi Hf Hg.
  { destruct g as [|g]; [done|]. cbn [string_loop]. destruct (Z.ltb_spec i (len b)); [lia|done]. }
  destruct g as [|g]; cbn [string_loop]; [destruct (Z.ltb_spec i (len b)); [lia|done]|].
  destruct (Z.ltb_spec i (len b)); [|done]. destruct (newline_len b i) eqn:E; [apply newline_pos in E; apply IH; lia|].
  destruct (at_byte b i 92 && _); [destruct (is_some _); apply IH; lia|].
  destruct (at_byte b i 34); [|apply IH; lia]. destruct (triple && _); [apply IH; lia|].
  destruct (_ >=? _); [done|]. destruct triple; apply IH; lia.
Qed.

Lemma string_ls b h f ls ls' i : string_loop f b h false ls i = string_loop f b h false ls' i.
Proof.
  revert ls ls' i. induction f as [|f IH]; intros ls ls' i; cbn [string_loop]; [done|].
  destruct (i <? len b); [|done]. destruct (newline_len b i); [done|].
  destruct (_ && _); [apply IH|]. destruct (at_byte b i 34); cbn [andb]; [|apply IH]. destruct (_ >=? _); [done|apply IH].
Qed.

(** The end of a quoted string of one line, its inside from [i] on. *)
Definition str_at (b : bytes) (i : Z) : option Z := string_loop (Z.to_nat (len b - i)) b 0 false 0 i.

Lemma str_at_step b i : 0 <= i < len b ->
  str_at b i = match newline_len b i with
               | Some n => str_at b (i + n)
               | None => if at_byte b i 92 then str_at b (i + (if is_some (newline_len b (i + 1)) then 1 else 2))
                         else if at_byte b i 34 then Some (i + 1) else str_at b (i + 1)
               end.
Proof.
  intros Hi. unfold str_at. destruct (Z.to_nat (len b - i)) as [|f] eqn:Ef; [lia|]. cbn [string_loop].
  destruct (Z.ltb_spec i (len b)); [|lia].
  assert (forall ls j, i < j -> string_loop f b 0 false ls j = string_loop (Z.to_nat (len b - j)) b 0 false 0 j) as Hm
    by (intros ls j Hj; rewrite (string_ls _ _ _ ls 0); apply string_fuel; lia).
  destruct (newline_len b i) eqn:E; [apply newline_pos in E; apply Hm; lia|].
  rewrite Z.eqb_refl, andb_true_r. destruct (at_byte b i 92); [destruct (is_some _); apply Hm; lia|].
  destruct (at_byte b i 34); cbn [andb]; [|apply Hm; lia].
  pose proof (hashes_nonneg (from b (i + 1))). destruct (Z.geb_spec (hashes_of (from b (i + 1))) 0); [f_equal; lia|lia].
Qed.

Definition raw_byte (b : byte) : Prop := u8 b <> 34 /\ u8 b <> 92.

Lemma at_byte_cons b l k n : 0 <= k -> at_byte (b :: l) (k + 1) n = at_byte l k n.
Proof. intros Hk. rewrite Z.add_comm. exact (at_byte_shift [b] l k n Hk). Qed.

Lemma at_byte_head c l n : at_byte (c :: l) 0 n = (u8 c =? n).
Proof. exact (at_byte_0 [] c l n). Qed.

Lemma at_byte_second c d l n : at_byte (c :: d :: l) 1 n = (u8 d =? n).
Proof. exact (at_byte_1 [] c d l n). Qed.

(** A newline of several bytes does not reach past a quote or a backslash. *)
Lemma newline_within p l c r n : Forall raw_byte l -> l <> [] -> u8 c = 34 \/ u8 c = 92 ->
  newline_len (p ++ l ++ c :: r) (len p) = Some n -> n <= len l.
Proof.
  intros Hl Hn Hc. rewrite <-(Z.add_0_r (len p)), newline_len_shift by lia.
  destruct l as [|b l]; [done|]. unfold newline_len. cbn [app].
  rewrite (get_app_mid [] (l ++ c :: r) b : get (b :: l ++ c :: r) 0 = Some b). cbn [mbind option_bind].
  change (0 + 2) with (1 + 1). rewrite !at_byte_cons by lia.
  rewrite len_cons. pose proof (len_nonneg l).
  destruct l as [|b2 l].
  - cbn [app]. rewrite !at_byte_head.
    repeat match goal with |- context [if ?x then _ else _] => destruct x eqn:? end; intros [= <-]; lia.
  - destruct l as [|b3 l]; [|rewrite !len_cons; pose proof (len_nonneg l);
      repeat match goal with |- context [if ?x then _ else _] => destruct x end; intros [= <-]; lia].
    cbn [app]. rewrite !at_byte_second. rewrite !len_cons in *.
    repeat match goal with |- context [if ?x then _ else _] => destruct x eqn:? end; intros [= <-]; change (len []) with 0 in *; lia.
Qed.

Lemma str_skip l : Forall raw_byte l -> forall p c r, u8 c = 34 \/ u8 c = 92 ->
  str_at (p ++ l ++ c :: r) (len p) = str_at (p ++ l ++ c :: r) (len p + len l).
Proof.
  remember (length l) as n eqn:En. revert l En. induction n as [n IH] using lt_wf_ind. intros l -> Hl p c r Hc.
  destruct l as [|b l]; [f_equal; change (len []) with 0; lia|].
  pose proof (Forall_inv Hl) as [Hb1 Hb2]. set (t := p ++ (b :: l) ++ c :: r).
  assert (0 <= len p < len t) by (subst t; rewrite !len_app, !len_cons; pose proof (len_nonneg p); pose proof (len_nonneg l); pose proof (len_nonneg r); lia).
  rewrite str_at_step by done. subst t.
  destruct (newline_len _ _) as [n|] eqn:E.
  - pose proof (newline_pos _ _ _ E). apply newline_within in E; [|done|done|done].
    set (m := Z.to_nat n). assert (m <= length (b :: l))%nat by (subst m; unfold len in E; lia).
    assert (p ++ (b :: l) ++ c :: r = (p ++ take m (b :: l)) ++ drop m (b :: l) ++ c :: r) as Ht
      by (by rewrite <-app_assoc, (app_assoc (take m _)), take_drop).
    assert (len p + n = len (p ++ take m (b :: l))) as Hp by (rewrite len_app; unfold len; rewrite length_take; lia).
    rewrite Hp, Ht. rewrite (IH (length (drop m (b :: l)))); [|rewrite length_drop; cbn [length] in *; lia|done|by apply Forall_drop|done].
    f_equal. rewrite len_app. unfold len. rewrite length_take, length_drop. lia.
  - cbn [app]. rewrite !at_byte_0. rewrite (proj2 (Z.eqb_neq _ _) Hb1), (proj2 (Z.eqb_neq _ _) Hb2).
    assert (p ++ b :: l ++ c :: r = (p ++ [b]) ++ l ++ c :: r) as Ht by (by rewrite <-app_assoc).
    rewrite Ht. replace (len p + 1) with (len (p ++ [b])) by (by rewrite len_app).
    rewrite (IH (length l)); [|cbn; lia|done|by inversion Hl|done]. f_equal. rewrite len_app, !len_cons. change (len []) with 0. lia.
Qed.

(** What [quote] writes between its quotes: bytes that mean themselves, and escapes. *)
Inductive body : bytes -> Prop :=
| body_nil : body []
| body_raw b l : raw_byte b -> body l -> body (b :: l)
| body_esc e l : 32 < u8 e < 127 -> body l -> body (BACKSLASH :: e :: l).

Lemma body_split l : body l ->
  exists l1, Forall raw_byte l1 /\ (l = l1 \/ exists e l2, l = l1 ++ BACKSLASH :: e :: l2 /\ 32 < u8 e < 127 /\ body l2).
Proof.
  induction 1 as [|b l Hb Hl (l1 & H1 & IH)|e l He Hl _].
  - exists []. split; [constructor|by left].
  - exists (b :: l1). split; [by constructor|]. destruct IH as [->|(e & l2 & -> & He & H2)]; [by left|right].
    exists e, l2. by split.
  - exists []. split; [constructor|right]. by exists e, l.
Qed.

Lemma body_app_raw l k : Forall raw_byte l -> body k -> body (l ++ k).
Proof. induction 1; [done|]. intros Hk. cbn. constructor; auto. Qed.

Lemma hex_lower_raw n : 0 <= n < 16 -> raw_byte (hex_lower n).
Proof.
  intros Hn. unfold raw_byte, hex_lower. rewrite u8_to_u8. destruct (Z.ltb_spec n 10); rewrite Z.mod_small by lia; lia.
Qed.

Lemma body_escape_code n l : 0 <= n < 256 -> body l -> body (escape_code n ++ l).
Proof.
  intros Hn Hl. unfold escape_code, hex_number. apply (body_esc Init.Byte.x75); [done|].
  assert (0 <= n / 16 < 16) by (split; [apply Z.div_pos; lia|apply Z.div_lt_upper_bound; lia]).
  assert (0 <= n mod 16 < 16) by (apply Z.mod_pos_bound; lia).
  change (body ((Init.Byte.x7b :: (if n <? 16 then [hex_lower n] else [hex_lower (n / 16); hex_lower (n mod 16)]) ++ [Init.Byte.x7d]) ++ l)).
  apply body_app_raw; [|done]. constructor; [done|]. apply Forall_app. split; [|by repeat constructor].
  destruct (Z.ltb_spec n 16); repeat constructor; apply hex_lower_raw; lia.
Qed.

Lemma body_quote_byte b l : body l -> body (quote_byte b ++ l).
Proof.
  intros Hl. unfold quote_byte. pose proof (u8_range b).
  repeat case_bool_decide; try (by apply body_esc).
  destruct ((u8 b <? 32) || (u8 b =? 127)); [by apply body_escape_code|]. apply body_raw; [|done].
  split; intros E; [apply (H0 : b <> QUOTE)|apply (H1 : b <> BACKSLASH)]; by apply u8_inj.
Qed.

Lemma quote_chars_2 b c s : quote_chars (b :: c :: s) =
  if (u8 b =? 194) && (128 <=? u8 c) && (u8 c <=? 159) then escape_code (u8 c) ++ quote_chars s else quote_byte b ++ quote_chars (c :: s).
Proof. done. Qed.

Lemma body_quote_chars s : body (quote_chars s).
Proof.
  induction s as [s IH] using (induction_ltof1 _ (@length byte)); unfold ltof in IH.
  destruct s as [|b [|c s]]; [constructor|cbn [quote_chars]|rewrite quote_chars_2].
  - rewrite <-(app_nil_r (quote_byte b)). apply body_quote_byte. constructor.
  - pose proof (u8_range c). destruct (_ && _ && _); [apply body_escape_code|apply body_quote_byte]; try lia; apply IH; cbn; lia.
Qed.

Lemma get_range {A} (l : list A) i x : get l i = Some x -> 0 <= i < len l.
Proof. unfold get. destruct (Z.leb_spec 0 i), (Z.ltb_spec i (len l)); done || lia. Qed.

Lemma newline_printable b i c : get b i = Some c -> 13 < u8 c < 127 -> newline_len b i = None.
Proof.
  intros Hc Hp. unfold newline_len. rewrite Hc. cbn [mbind option_bind].
  repeat match goal with |- context [u8 c =? ?n] => rewrite (proj2 (Z.eqb_neq (u8 c) n)) by lia end. done.
Qed.

Lemma str_body l : body l -> forall p r, str_at (p ++ l ++ QUOTE :: r) (len p) = Some (len p + len l + 1).
Proof.
  remember (length l) as n eqn:En. revert l En. induction n as [n IH] using lt_wf_ind. intros l -> Hl p r.
  destruct (body_split l Hl) as (l1 & H1 & [->|(e & l2 & -> & He & H2)]).
  - rewrite str_skip by (try done; by left). set (t := p ++ l1 ++ QUOTE :: r).
    assert (t = (p ++ l1) ++ QUOTE :: r) as Ht by (subst t; by rewrite app_assoc).
    assert (len p + len l1 = len (p ++ l1)) as Hp by (by rewrite len_app).
    assert (get t (len p + len l1) = Some QUOTE) as Hg by (rewrite Hp, Ht; apply get_app_mid).
    rewrite str_at_step by (by eapply get_range).
    rewrite (newline_printable _ _ _ Hg) by done. unfold at_byte. rewrite Hg. done.
  - rewrite <-app_assoc. cbn [app]. rewrite str_skip by (try done; by right).
    set (t := p ++ l1 ++ BACKSLASH :: e :: l2 ++ QUOTE :: r).
    assert (t = (p ++ l1) ++ BACKSLASH :: e :: l2 ++ QUOTE :: r) as Ht by (subst t; by rewrite app_assoc).
    assert (t = (p ++ l1 ++ [BACKSLASH]) ++ e :: l2 ++ QUOTE :: r) as Ht1 by (subst t; by rewrite <-!app_assoc).
    assert (t = (p ++ l1 ++ [BACKSLASH; e]) ++ l2 ++ QUOTE :: r) as Ht2 by (subst t; by rewrite <-!app_assoc).
    assert (len p + len l1 = len (p ++ l1)) as Hp by (by rewrite len_app).
    assert (get t (len p + len l1) = Some BACKSLASH) as Hg by (rewrite Hp, Ht; apply get_app_mid).
    assert (get t (len p + len l1 + 1) = Some e) as Hg1.
    { replace (len p + len l1 + 1) with (len (p ++ l1 ++ [BACKSLASH])) by (rewrite !len_app; change (len [BACKSLASH]) with 1; lia).
      rewrite Ht1. apply get_app_mid. }
    rewrite str_at_step by (by eapply get_range).
    rewrite (newline_printable _ _ _ Hg) by done. rewrite (newline_printable _ _ _ Hg1) by lia.
    assert (at_byte t (len p + len l1) 92 = true) as -> by (unfold at_byte; by rewrite Hg).
    cbn [is_some]. replace (len p + len l1 + 2) with (len (p ++ l1 ++ [BACKSLASH; e])) by (rewrite !len_app; change (len [BACKSLASH; e]) with 2; lia).
    rewrite Ht2, (IH (length l2)); [|rewrite length_app; cbn; lia|done|done].
    f_equal. rewrite !len_app, !len_cons. change (len []) with 0. lia.
Qed.

(** What follows a value is not a quote. *)
Definition no_quote (r : bytes) : Prop := match r with c :: _ => u8 c <> 34 | [] => True end.

Lemma body_head l c r : body l -> l = c :: r -> u8 c <> 34.
Proof. intros Hl ->. inversion Hl as [|b l' [Hb _]|]; subst; [done|]. by intros [=]. Qed.

(** Whatever a value holds, the text [quote] writes for it is one string to the scanner:
    it ends exactly at the quote that was put after the value. *)
Lemma quoted_value_ends p s r :
  no_quote r -> string_end (p ++ quote s ++ r) (len p) 0 = Some (len p + len (quote s)).
Proof.
  intros Hr. pose proof (body_quote_chars s) as Hb. unfold quote. set (l := quote_chars s) in *.
  set (t := p ++ ([QUOTE] ++ l ++ [QUOTE]) ++ r).
  assert (t = p ++ QUOTE :: l ++ QUOTE :: r) as Ht by (subst t; cbn; by rewrite <-app_assoc).
  assert (t = (p ++ [QUOTE]) ++ l ++ QUOTE :: r) as Ht1 by (rewrite Ht, <-app_assoc; done).
  assert (three_quotes t (len p) = false) as H3.
  { unfold three_quotes. rewrite Ht. apply andb_false_iff.
    destruct l as [|c l']; cbn [app].
    - right. replace (p ++ QUOTE :: QUOTE :: r) with ((p ++ [QUOTE]) ++ QUOTE :: r) by (by rewrite <-app_assoc).
      destruct r as [|c r].
      + destruct (at_byte _ _ _) eqn:E; [|done]. apply at_byte_len in E. rewrite !len_app, !len_cons in E. change (len []) with 0 in E. lia.
      + replace (len p + 2) with (len (p ++ [QUOTE]) + 1) by (rewrite len_app; change (len [QUOTE]) with 1; lia).
        rewrite at_byte_1. by apply Z.eqb_neq.
    - left. rewrite at_byte_1. rewrite (proj2 (Z.eqb_neq _ _) (body_head _ _ _ Hb eq_refl)). apply andb_false_r. }
  unfold string_end. rewrite H3. cbn [andb].
  assert (len p + 1 = len (p ++ [QUOTE])) as Hp by (by rewrite len_app).
  assert (0 <= len p + 1) by (pose proof (len_nonneg p); lia).
  transitivity (str_at t (len p + 1)).
  - unfold str_at. rewrite (string_ls _ _ _ _ 0). apply string_fuel; unfold len; lia.
  - rewrite Ht1, Hp, str_body by done. f_equal. rewrite !len_app. change (len [QUOTE]) with 1. lia.
Qed.

(** ** Scanning a text in pieces

    [runs d o s d' o' ok]: a scan that reaches [s] at depth [d], at the start of a line
    when [o], leaves it at depth [d'], and [s] opens no kept line; what follows is [ok]. *)
Definition runs (d : Z) (o : bool) (s : bytes) (d' : Z) (o' : bool) (ok : bytes -> Prop) : Prop :=
  forall pre rest, ok rest -> marks_at (pre ++ s ++ rest) d o (len pre) = marks_at (pre ++ s ++ rest) d' o' (len pre + len s).

Definition anything (_ : bytes) : Prop := True.

Lemma runs_cat d o s1 d1 o1 ok1 s2 d2 o2 (ok2 : bytes -> Prop) :
  runs d o s1 d1 o1 ok1 -> runs d1 o1 s2 d2 o2 ok2 -> (forall rest, ok2 rest -> ok1 (s2 ++ rest)) -> runs d o (s1 ++ s2) d2 o2 ok2.
Proof.
  intros H1 H2 Hok pre rest Hr. rewrite <-!app_assoc. rewrite H1 by auto.
  rewrite (app_assoc pre s1 (s2 ++ rest)), <-len_app. rewrite H2 by done. f_equal. rewrite !len_app. lia.
Qed.

Lemma runs_weaken d o s d' o' ok (ok' : bytes -> Prop) : runs d o s d' o' ok -> (forall r, ok' r -> ok r) -> runs d o s d' o' ok'.
Proof. intros H Hok pre rest Hr. auto. Qed.

Lemma runs_nil d o ok : runs d o [] d o ok.
Proof. intros pre rest _. f_equal. change (len []) with 0. lia. Qed.

(** A byte that is no newline, quote, comment, brace, [#] or backslash. *)
Definition plain (b : byte) : Prop := 13 < u8 b < 127 /\ ~ (u8 b = 34 \/ u8 b = 35 \/ u8 b = 47 \/ u8 b = 92 \/ u8 b = 123 \/ u8 b = 125).

Lemma runs_byte d o (b : byte) d' :
  13 < u8 b < 127 -> u8 b <> 47 -> (forall pre rest, step_over (pre ++ b :: rest) (len pre) d = (len pre + 1, d')) ->
  runs d o [b] d' false anything.
Proof.
  intros Hb Hs Hst pre rest _. cbn [app]. change (len [b]) with 1.
  assert (get (pre ++ b :: rest) (len pre) = Some b) as Hg by apply get_app_mid.
  rewrite marks_at_step by (by eapply get_range). rewrite at_byte_0, (proj2 (Z.eqb_neq _ _) Hs), andb_false_r. cbn [andb].
  rewrite (newline_printable _ _ _ Hg Hb), Hst. done.
Qed.

Lemma runs_plain_byte d o b : plain b -> runs d o [b] d false anything.
Proof.
  intros [Hb Hn]. apply runs_byte; [done|lia|]. intros pre rest. unfold step_over. rewrite !at_byte_0.
  repeat match goal with |- context [u8 b =? ?n] => rewrite (proj2 (Z.eqb_neq (u8 b) n)) by lia end. done.
Qed.

Lemma runs_plain d o s : Forall plain s -> s <> [] -> runs d o s d false anything.
Proof.
  intros Hs. revert o. induction Hs as [|b s Hb _ IH]; intros o Hn; [done|]. destruct s as [|c s]; [by apply runs_plain_byte|].
  change (b :: c :: s) with ([b] ++ c :: s). eapply runs_cat; [by apply runs_plain_byte|by apply IH|done].
Qed.

Lemma runs_open d o : runs d o (B "{") (d + 1) false anything.
Proof. apply (runs_byte d o Init.Byte.x7b); [done|done|]. intros pre rest. unfold step_over. by rewrite !at_byte_0. Qed.

Lemma runs_close d o : 0 < d -> runs d o (B "}") (d - 1) false anything.
Proof.
  intros Hd. apply (runs_byte d o Init.Byte.x7d); [done|done|]. intros pre rest. unfold step_over. rewrite !at_byte_0. cbn.
  f_equal. lia.
Qed.

Lemma runs_newline d o : runs d o [LF] d true anything.
Proof.
  intros pre rest _. cbn [app]. change (len [LF]) with 1.
  assert (get (pre ++ LF :: rest) (len pre) = Some LF) as Hg by apply get_app_mid.
  rewrite marks_at_step by (by eapply get_range). rewrite at_byte_0, andb_false_r. cbn [andb].
  unfold newline_len. rewrite Hg. done.
Qed.

Lemma runs_quote d o s : runs d o (quote s) d false no_quote.
Proof.
  intros pre rest Hr. set (t := pre ++ quote s ++ rest).
  assert (get t (len pre) = Some QUOTE) as Hg by (subst t; apply get_app_mid).
  rewrite marks_at_step by (by eapply get_range).
  assert (forall n, at_byte t (len pre) n = (34 =? n)) as Ha by (intros n; unfold at_byte; by rewrite Hg).
  rewrite Ha. change (34 =? 47) with false. rewrite andb_false_r. cbn [andb].
  rewrite (newline_printable _ _ _ Hg) by done. unfold step_over. rewrite !Ha. cbn [andb Z.eqb Pos.eqb].
  subst t. by rewrite quoted_value_ends.
Qed.

(** [#true] is a keyword, not a raw string. *)
Lemma runs_true d o : runs d o (B "#true") d false anything.
Proof.
  change (B "#true") with (B "#" ++ B "true"). intros pre rest _. rewrite <-app_assoc.
  set (t := pre ++ B "#" ++ B "true" ++ rest).
  assert (get t (len pre) = Some Init.Byte.x23) as Hg by (subst t; apply get_app_mid).
  rewrite marks_at_step by (by eapply get_range).
  assert (forall n, at_byte t (len pre) n = (35 =? n)) as Ha by (intros n; unfold at_byte; by rewrite Hg).
  rewrite Ha. change (35 =? 47) with false. rewrite andb_false_r. cbn [andb].
  rewrite (newline_printable _ _ _ Hg) by done. unfold step_over. rewrite !Ha. cbn [andb Z.eqb Pos.eqb].
  assert (hashes_of (from t (len pre)) = 1) as -> by (subst t; by rewrite from_app).
  assert (at_byte t (len pre + 1) 34 = false) as -> by (subst t; apply at_byte_1).
  subst t. replace (pre ++ B "#" ++ B "true" ++ rest) with ((pre ++ B "#") ++ B "true" ++ rest) by (by rewrite <-app_assoc).
  replace (len pre + 1) with (len (pre ++ B "#")) by (by rewrite len_app).
  rewrite (runs_plain d false (B "true")); [f_equal; rewrite !len_app; change (len (B "#true")) with 5; change (len (B "#")) with 1; change (len (B "true")) with 4; lia| |done|done].
  repeat constructor; try done; cbn; intros [|[|[|[|[]]]]]; done.
Qed.

(** ** The pieces nodes are written from *)

(** What may follow a piece: the next one, or the end of the line. *)
Definition soft (r : bytes) : Prop := match r with c :: _ => c = SPACE \/ c = LF | [] => True end.

Lemma soft_no_quote r : soft r -> no_quote r.
Proof. destruct r as [|c r]; [done|]. by intros [->| ->]. Qed.

(** Properties and arguments: nothing, or a space and what stays on the line. *)
Definition mid (s : bytes) : Prop := (forall r, soft r -> soft (s ++ r)) /\ forall d, runs d false s d false soft.

(** A node on one line. *)
Definition inline (s : bytes) : Prop := forall d o, runs d o s d false soft.

Lemma mid_nil : mid [].
Proof. split; [done|]. intros d. apply runs_nil. Qed.

Lemma mid_app a b : mid a -> mid b -> mid (a ++ b).
Proof.
  intros [Ha1 Ha2] [Hb1 Hb2]. split.
  - intros r Hr. rewrite <-app_assoc. auto.
  - intros d. by eapply runs_cat; [apply Ha2|apply Hb2|].
Qed.

Lemma plain_space : plain SPACE.
Proof. split; [done|]. cbn. lia. Qed.

Lemma mid_word w : Forall plain w -> mid (SPACE :: w).
Proof.
  intros Hw. split; [intros r _; by left|]. intros d. eapply runs_weaken; [apply runs_plain|done]; [constructor; [apply plain_space|done]|done].
Qed.

Lemma mid_val w v : Forall plain w -> mid ((SPACE :: w) ++ quote v).
Proof.
  intros Hw. split; [intros r _; by left|]. intros d. eapply runs_cat.
  - apply runs_plain; [constructor; [apply plain_space|done]|done].
  - eapply runs_weaken; [apply runs_quote|apply soft_no_quote].
  - done.
Qed.

Lemma mid_true w : Forall plain w -> mid ((SPACE :: w) ++ B "#true").
Proof.
  intros Hw. split; [intros r _; by left|]. intros d. eapply runs_cat.
  - apply runs_plain; [constructor; [apply plain_space|done]|done].
  - eapply runs_weaken; [apply runs_true|done].
  - done.
Qed.

Lemma mid_concat {A} (f : A -> bytes) l : (forall x, x ∈ l -> mid (f x)) -> mid (concat (map f l)).
Proof.
  induction l as [|x l IH]; intros Hf; cbn; [apply mid_nil|]. apply mid_app; [apply Hf, elem_of_cons; by left|].
  apply IH. intros y Hy. apply Hf, elem_of_cons. by right.
Qed.

Lemma inline_mid w m : Forall plain w -> w <> [] -> mid m -> inline (w ++ m).
Proof. intros Hw Hn [_ Hm] d o. eapply runs_cat; [by apply runs_plain|apply Hm|done]. Qed.

Lemma inline_word w : Forall plain w -> w <> [] -> inline w.
Proof. intros Hw Hn. rewrite <-(app_nil_r w). apply inline_mid; [done..|apply mid_nil]. Qed.

(** Plain texts, decided. *)
Definition plainb (b : byte) : bool :=
  (13 <? u8 b) && (u8 b <? 127) && negb ((u8 b =? 34) || (u8 b =? 35) || (u8 b =? 47) || (u8 b =? 92) || (u8 b =? 123) || (u8 b =? 125)).

Lemma plainb_spec l : forallb plainb l = true -> Forall plain l.
Proof.
  rewrite forallb_spec. intros Hl. eapply Forall_impl; [exact Hl|]. intros b Hb. unfold plainb in Hb. unfold plain. lia.
Qed.

Lemma plain_impl (P : byte -> bool) l : (forall b, P b = true -> plainb b = true) -> forallb P l = true -> Forall plain l.
Proof.
  intros HP Hl. apply plainb_spec. rewrite forallb_spec in *. eapply Forall_impl; [exact Hl|]. intros b. apply HP.
Qed.

Lemma plain_decimal n : 0 <= n -> Forall plain (decimal n).
Proof.
  intros Hn. apply (plain_impl is_ascii_digit); [|by apply decimal_spec]. intros b. unfold is_ascii_digit, plainb. lia.
Qed.

(** ** Blocks *)

Lemma block_kids_run d kids : 0 < d -> Forall inline kids ->
  runs d true (concat (map (fun kid => B "    " ++ kid ++ [LF]) kids)) d true anything.
Proof.
  intros Hd. induction 1 as [|k kids Hk _ IH]; cbn [map concat]; [apply runs_nil|].
  eapply (runs_cat _ _ _ _ _ anything); [|exact IH|done].
  eapply runs_cat; [apply runs_plain; [by apply plainb_spec|done]| |done].
  eapply runs_cat; [apply Hk|apply runs_newline|]. intros rest _. by right.
Qed.

(** A whole node: nothing in it opens a kept line, and it is balanced. *)
Definition clean (s : bytes) : Prop := forall o, runs 0 o s 0 false soft.

Lemma inline_clean s : inline s -> clean s.
Proof. intros H o. apply H. Qed.

Lemma block_clean w m kids : Forall plain w -> w <> [] -> mid m -> Forall inline kids -> clean (block (w ++ m) kids).
Proof.
  intros Hw Hn [_ Hm] Hk o. unfold block. rewrite <-app_assoc. eapply runs_cat; [by apply runs_plain| |done].
  change (B " {") with (B " " ++ B "{"). rewrite <-!app_assoc. eapply runs_cat; [apply Hm| |intros rest _; by left].
  eapply runs_cat; [apply runs_plain; [by apply plainb_spec|done]| |done].
  eapply runs_cat; [apply runs_open| |done].
  eapply runs_cat; [apply runs_newline| |done].
  eapply runs_cat; [apply block_kids_run; [lia|done]| |done].
  eapply runs_weaken; [exact (runs_close 1 true ltac:(lia))|done].
Qed.
