(* ===== verification/ConfigText.v ===== *)
(** The theorems about the text of a configuration: no value of one can open or hide a
    [/-] line, and what the parser may be handed is bounded. *)
From S2P Require Export NetworkSpec ConfigScanFacts.

(** ** Every node is clean *)

(** What the parser leaves in a node that is not a quoted value. *)
Definition service_ok (s : Service.t) : Prop := match s with Service.Network cfg => network_wf cfg | _ => True end.
Definition node_ok (n : Node.t) : Prop :=
  match n with
  | Node.Service s => service_ok s
  | Node.Env pairs => Forall (fun p => is_env_key p.1 = true) pairs
  | _ => True
  end.

(** A text that needs no escape is quoted as it is. *)
Definition bare_char (b : byte) : bool := (32 <=? u8 b) && (u8 b <? 127) && negb ((u8 b =? 34) || (u8 b =? 92)).

Lemma quote_bare s : forallb bare_char s = true -> quote s = quoted s.
Proof.
  intros Hs. unfold quote, quoted. do 2 f_equal. induction s as [|b s IH]; [done|].
  cbn in Hs. apply andb_true_iff in Hs as [Hb Hs]. specialize (IH Hs).
  assert (quote_byte b = [b]) as Hq.
  { unfold quote_byte. rewrite !bool_decide_false by (intros ->; discriminate Hb).
    unfold bare_char in Hb. destruct ((u8 b <? 32) || (u8 b =? 127)) eqn:E; [lia|done]. }
  destruct s as [|c s]; [by cbn; rewrite Hq|]. rewrite quote_chars_2, IH, Hq.
  unfold bare_char in Hb. destruct ((u8 b =? 194) && _ && _) eqn:E; [lia|done].
Qed.

Lemma bare_impl (P : byte -> bool) l : (forall b, P b = true -> bare_char b = true) -> forallb P l = true -> forallb bare_char l = true.
Proof. intros HP. rewrite !forallb_spec. intros Hl. eapply Forall_impl; [exact Hl|]. intros b. apply HP. Qed.

Lemma bare_decimal n : 0 <= n -> forallb bare_char (decimal n) = true.
Proof.
  intros Hn. apply (bare_impl is_ascii_digit); [|by apply decimal_spec]. intros b. unfold is_ascii_digit, bare_char. lia.
Qed.

Lemma alnum_bare b : is_ascii_alphanumeric b = true -> bare_char b = true.
Proof. unfold is_ascii_alphanumeric, is_ascii_digit, is_ascii_upper, is_ascii_lower, bare_char. lia. Qed.

Lemma label_bare s : valid_label s -> forallb bare_char s = true.
Proof.
  intros (_ & _ & Hc & _)%valid_label_iff. apply forallb_spec. eapply Forall_impl; [exact Hc|]. intros b. cbn beta. unfold HostPattern.label_char.
  rewrite orb_true_iff, bool_decide_eq_true. intros [Hb| ->]; [by apply alnum_bare|done].
Qed.

Lemma bare_join ws : Forall (fun w => forallb bare_char w = true) ws -> forallb bare_char (join [DOT] ws) = true.
Proof.
  induction 1 as [|w ws Hw _ IH]; [done|]. destruct ws as [|v ws]; [done|].
  rewrite join_cons by done. by rewrite !forallb_app, Hw, IH.
Qed.

Lemma pattern_bare p : wf_pattern p -> forallb bare_char (HostPattern.fmt p) = true.
Proof.
  intros [Hv (l & Hl & _)]. assert (HostPattern.labels p <> []) as Hn by (by destruct (HostPattern.labels p)).
  assert (Forall (fun w => forallb bare_char w = true) (HostPattern.labels p)).
  { eapply Forall_impl; [exact Hv|]. intros w [Hw _]. by apply label_bare. }
  rewrite fmt_join by done. apply bare_join. unfold wild_pieces. destruct (HostPattern.wildcard p); [by constructor|done].
Qed.

Ltac plain_text := apply plainb_spec; reflexivity.

Section Nodes.
Context `{IpText, !IpTextLaws}.

Lemma ip_bare a : forallb bare_char (ip_text a) = true.
Proof.
  apply (bare_impl ip_char); [|apply ip_text_chars]. intros b. unfold ip_char, is_ascii_digit.
  rewrite !orb_true_iff, !bool_decide_eq_true. intros [[Hb| ->]| ->]; [|done|done]. unfold bare_char. lia.
Qed.

Lemma cidr_bare c : 0 <= Cidr.prefix c -> forallb bare_char (Cidr.fmt c) = true.
Proof.
  intros Hp. unfold Cidr.fmt. destruct (_ =? _); [apply ip_bare|]. by rewrite !forallb_app, ip_bare, bare_decimal.
Qed.

Lemma mid_flag w on : Forall plain w -> mid (flag w on).
Proof.
  intros Hw. unfold flag. destruct on; [|apply mid_nil].
  change (B " " ++ w ++ B "=#true") with (SPACE :: w ++ B "=" ++ B "#true"). rewrite app_assoc.
  apply (mid_true (w ++ B "=")). apply Forall_app. split; [done|plain_text].
Qed.

Lemma x11_clean x : clean (x11 x).
Proof.
  apply inline_clean, inline_mid; [plain_text|done|]. repeat apply mid_app.
  - case_bool_decide; [apply mid_nil|]. apply (mid_val (B "geometry=")). plain_text.
  - apply mid_flag. plain_text.
  - apply mid_flag. plain_text.
  - destruct (wm x); [|apply mid_nil]. apply (mid_val (B "wm=")). plain_text.
Qed.

Lemma inline_val w v : Forall plain w -> w <> [] -> inline (w ++ SPACE :: quote v).
Proof. intros Hw Hn. apply inline_mid; [done..|]. by apply (mid_val []). Qed.

Lemma network_kid_inline cfg k : network_wf cfg -> k ∈ network_kids cfg -> inline k.
Proof.
  intros Hw. unfold network_kids. rewrite !elem_of_app, !list_elem_of_fmap.
  intros [Hk|[(i & -> & _)|[(a & -> & Ha)|[(a & -> & Ha)|[(f & -> & Hf)|Hk]]]]].
  - case_bool_decide; [|by apply elem_of_nil in Hk]. apply list_elem_of_singleton in Hk as ->.
    rewrite <-quote_bare by done. apply (inline_val (B "outbound")); [plain_text|done].
  - apply (inline_val (B "dns")); [plain_text|done].
  - pose proof (w_out _ Hw) as Ho. rewrite Forall_forall in Ho. destruct (Ho a Ha) as [(_ & Hp & _) Hn].
    unfold AllowOut.fmt. rewrite <-quote_bare by (apply cidr_bare; lia).
    apply (inline_mid (B "allow-out")); [plain_text|done|]. apply (mid_app ([SPACE] ++ quote _)); [by apply (mid_val [])|]. apply mid_app.
    + destruct (AllowOut.port a); [|apply mid_nil]. apply (mid_word (B "port=" ++ decimal z)). apply Forall_app.
      split; [plain_text|]. apply plain_decimal. unfold port_wf in Hn. lia.
    + destruct (AllowOut.proto a) as [p|]; [|apply mid_nil]. rewrite <-quote_bare by (by destruct p).
      apply (mid_val (B "proto=")). plain_text.
  - pose proof (w_hosts _ Hw) as Ho. rewrite Forall_forall in Ho. destruct (Ho a Ha) as (Hp & _ & Hn).
    unfold AllowHost.fmt. rewrite <-quote_bare by (by apply pattern_bare).
    apply (inline_mid (B "allow-host")); [plain_text|done|]. apply (mid_app ([SPACE] ++ quote _)); [by apply (mid_val [])|].
    destruct (negb _); [|apply mid_nil]. apply (mid_word (B "port=" ++ decimal (AllowHost.port a))). apply Forall_app.
    split; [plain_text|]. apply plain_decimal. unfold port_wf in Hn. lia.
  - pose proof (w_forwards _ Hw) as Ho. rewrite Forall_forall in Ho. pose proof (Ho f Hf) as Hn. unfold allow_port.
    change (B "allow-port " ++ ?x) with (B "allow-port" ++ SPACE :: x).
    apply inline_mid; [plain_text|done|]. apply (mid_app (SPACE :: decimal (f_port f))).
    + apply mid_word, plain_decimal. unfold port_wf in Hn. lia.
    + destruct (udp f); [|apply mid_nil]. apply (mid_true (B "udp=")). plain_text.
  - destruct (no_ipv6 cfg); [|by apply elem_of_nil in Hk]. apply list_elem_of_singleton in Hk as ->. apply inline_word; [plain_text|done].
Qed.

Lemma network_clean cfg : network_wf cfg -> clean (network cfg).
Proof.
  intros Hw. unfold network.
  assert (exists m, mid m /\ B "network" ++ match mode cfg with Mode.Isolated => [] | Mode.Host => B " " ++ quoted (B "host") | Mode.None_ => B " " ++ quoted (B "none") end
    = B "network" ++ m) as (m & Hm & ->).
  { eexists. split; [|reflexivity]. destruct (mode cfg); [apply mid_nil| |]; rewrite <-quote_bare by done; by apply (mid_val []). }
  case_bool_decide.
  - apply inline_clean, inline_mid; [plain_text|done|done].
  - apply block_clean; [plain_text|done|done|]. apply Forall_forall. intros k. by apply network_kid_inline.
Qed.

Lemma word_block_clean w kids : Forall plain w -> w <> [] -> Forall inline kids -> clean (KdlOut.block w kids).
Proof. intros Hw Hn Hk. rewrite <-(app_nil_r w). by apply block_clean; [| |apply mid_nil|]. Qed.

Lemma bus_rule_inline r : inline (bus_rule r).
Proof.
  destruct r; cbn [bus_rule];
    [apply (inline_val (B "see"))|apply (inline_val (B "talk"))|apply (inline_val (B "own"))|apply (inline_val (B "call"))|apply (inline_val (B "broadcast"))];
    (plain_text || done).
Qed.

Lemma bus_block_clean w rules : Forall plain w -> w <> [] -> clean (bus_block w rules).
Proof.
  intros Hw Hn. apply word_block_clean; [done|done|]. apply Forall_map, Forall_forall. intros r _. apply bus_rule_inline.
Qed.

Lemma word_clean w : forallb plainb w = true -> w <> [] -> clean w.
Proof. intros Hw Hn. apply inline_clean, inline_word; [by apply plainb_spec|done]. Qed.

Lemma audio_clean w b : Forall plain w -> w <> [] -> clean (audio_node w b).
Proof.
  intros Hw Hn. destruct b; [|by apply inline_clean, inline_word].
  apply word_block_clean; [done|done|]. repeat constructor. apply inline_word; [plain_text|done].
Qed.
End Nodes.

Section Whole.
Context `{IpText, !IpTextLaws}.

Lemma share_clean w p m optional : Forall plain w -> w <> [] ->
  clean (w ++ SPACE :: quote p ++ B " mode=" ++ share_mode m ++ optional_suffix optional).
Proof.
  intros Hw Hn. apply inline_clean, inline_mid; [done..|].
  apply (mid_app (SPACE :: quote p)); [by apply (mid_val [])|].
  change (B " mode=" ++ share_mode m ++ optional_suffix optional) with ((SPACE :: B "mode=" ++ share_mode m) ++ optional_suffix optional).
  apply mid_app; [apply mid_word; destruct m; plain_text|]. destruct optional; [|apply mid_nil].
  apply (mid_true (B "optional=")). plain_text.
Qed.

Lemma inline_val_clean w v : Forall plain w -> w <> [] -> clean (w ++ SPACE :: quote v).
Proof. intros Hw Hn. by apply inline_clean, inline_val. Qed.

Lemma prop_clean w p v : forallb plainb w = true -> w <> [] -> forallb plainb p = true -> clean (w ++ (SPACE :: p) ++ quote v).
Proof. intros Hw Hn Hp. apply inline_clean, inline_mid; [by apply plainb_spec|done|]. by apply mid_val, plainb_spec. Qed.

Lemma mid_clean w m : forallb plainb w = true -> w <> [] -> mid m -> clean (w ++ m).
Proof. intros Hw Hn Hm. apply inline_clean, inline_mid; [by apply plainb_spec|done|done]. Qed.

Lemma prop_true_clean w p : forallb plainb w = true -> w <> [] -> forallb plainb p = true -> clean (w ++ (SPACE :: p) ++ B "#true").
Proof. intros Hw Hn Hp. apply inline_clean, inline_mid; [by apply plainb_spec|done|]. by apply mid_true, plainb_spec. Qed.

Lemma text_ok n w s t : text n w s = Ok t -> t = s.
Proof. unfold text. destruct (utf8_valid s); intros; by inv_ok. Qed.

Lemma service_clean s t : service_ok s -> service s = Ok t -> clean t.
Proof.
  intros Ho Hs. destruct s as [[[|]|]|[x|]|cfg|[|]|m|m|p m o|p m o|n|rs|rs|ch| | |h u| |n|n| | |i m]; cbn [service] in Hs; inv_ok;
    try (by apply word_clean).
  - rewrite <-quote_bare by done. by apply (prop_clean (B "wayland") (B "clipboard=") (B "open")).
  - rewrite <-quote_bare by done. by apply (inline_val_clean (B "wayland")); [plain_text|].
  - apply x11_clean.
  - rewrite <-quote_bare by done. by apply (inline_val_clean (B "x11")); [plain_text|].
  - by apply network_clean.
  - by apply (prop_true_clean (B "dri") (B "kms=")).
  - apply audio_clean; [plain_text|done].
  - apply audio_clean; [plain_text|done].
  - apply (share_clean (B "home-share")); [plain_text|done].
  - apply (share_clean (B "path-share")); [plain_text|done].
  - apply (inline_val_clean (B "etc-share")); [plain_text|done].
  - case_bool_decide; [by apply word_clean|]. apply bus_block_clean; [plain_text|done].
  - destruct (bool_decide _); [done|]. destruct (head _); [done|]. inv_ok. apply bus_block_clean; [plain_text|done].
  - case_bool_decide; [by apply word_clean|]. apply word_block_clean; [plain_text|done|].
    apply Forall_map, Forall_forall. intros c _. destruct c; (apply inline_word; [plain_text|done]).
  - apply (mid_clean (B "gamepad")); [done|done|]. apply mid_app; apply mid_flag; plain_text.
  - destruct n; [|by apply word_clean].
    by apply (prop_true_clean (B "camera") (B "nodes=")).
  - by apply (prop_clean (B "mpris") (B "name=")).
  - rewrite <-(app_nil_r (share_mode m)). exact (share_clean (B "app-runtime") i m false ltac:(plain_text) ltac:(done)).
Qed.

Lemma env_key_plain k : is_env_key k = true -> Forall plain k /\ k <> [].
Proof.
  unfold is_env_key. destruct k as [|b k]; [done|]. rewrite andb_true_iff, orb_true_iff, bool_decide_eq_true.
  intros [Hb Hk]. split; [|done].
  assert (forall c, is_ascii_alphanumeric c = true -> plainb c = true) as Ha
    by (intros c; unfold is_ascii_alphanumeric, is_ascii_digit, is_ascii_upper, is_ascii_lower, plainb; lia).
  apply plainb_spec. cbn. apply andb_true_iff. split.
  - destruct Hb as [Hb| ->]; [|done]. apply Ha. unfold is_ascii_alphabetic in Hb. unfold is_ascii_alphanumeric. by rewrite <-orb_assoc, Hb, orb_true_r.
  - rewrite forallb_spec in *. eapply Forall_impl; [exact Hk|]. intros c. cbn beta. rewrite orb_true_iff, bool_decide_eq_true.
    intros [Hc| ->]; [by apply Ha|done].
Qed.

Lemma pairs_mid pairs : Forall (fun p => is_env_key p.1 = true) pairs ->
  mid (concat (map (fun '(k, v) => B " " ++ k ++ B "=" ++ quote v) pairs)).
Proof.
  intros Hp. apply mid_concat. intros [k v] Hin. rewrite Forall_forall in Hp. destruct (env_key_plain k (Hp _ Hin)) as [Hk _].
  rewrite !app_assoc. apply (mid_val (k ++ B "=")). apply Forall_app. split; [done|plain_text].
Qed.

Lemma command_words_mid argv t : command_words argv = Ok t -> mid t.
Proof.
  revert t. induction argv as [|a argv IH]; intros t Ht; cbn [command_words] in Ht; inv_ok; [apply mid_nil|].
  apply text_ok in E as ->. apply (mid_app ([SPACE] ++ quote a)); [by apply (mid_val [])|]. by apply IH.
Qed.

Lemma seccomp_clean cfg : clean (seccomp_ cfg).
Proof.
  apply word_block_clean; [plain_text|done|]. unfold seccomp_kids. rewrite !Forall_app. split_and!.
  - case_bool_decide as Ha; [constructor|]. constructor; [|constructor].
    destruct (Seccomp.allow cfg) as [|n l]; [done|]. clear Ha.
    change (B "allow " ++ ?x) with (B "allow" ++ SPACE :: x).
    apply inline_mid; [plain_text|done|]. revert n. induction l as [|n' l IH]; intros n; cbn [map]; [by apply (mid_val [])|].
    rewrite join_cons by done. apply (mid_app ([SPACE] ++ quote n)); [by apply (mid_val [])|]. apply IH.
  - apply Forall_map, Forall_forall. intros d _. change (B "deny " ++ ?x) with (B "deny" ++ SPACE :: x).
    apply inline_mid; [plain_text|done|]. apply (mid_app ([SPACE] ++ quote d.1)); [by apply (mid_val [])|].
    apply (mid_val (B "errno=")). plain_text.
  - destruct (disable cfg); repeat constructor. apply inline_word; [plain_text|done].
Qed.

Lemma env_clean p : is_env_key p.1 = true -> clean (env_ p).
Proof.
  intros Hp. apply (inline_clean (B "env" ++ SPACE :: p.1 ++ B "=" ++ quote p.2)), inline_mid; [plain_text|done|].
  destruct (env_key_plain _ Hp) as [Hk _]. rewrite app_assoc. apply (mid_val (p.1 ++ B "=")). apply Forall_app. split; [done|plain_text].
Qed.

Lemma lint_clean a : clean (lint_allow a).
Proof.
  apply (mid_clean (B "lint-allow") (SPACE :: quote (check_id a) ++ (SPACE :: B "reason=") ++ quote (reason a))); [done|done|].
  apply (mid_app (SPACE :: quote (check_id a))); [by apply (mid_val [])|]. apply mid_val. plain_text.
Qed.

Lemma etc_clean m : clean (etc_ m).
Proof.
  destruct m; [by apply word_clean|]. unfold etc_. rewrite <-quote_bare by done. by apply (inline_val_clean (B "etc")); [plain_text|].
Qed.

Lemma tmp_clean z : clean (tmp_ z).
Proof.
  unfold tmp_. match goal with |- clean (let '(n, u) := ?x in _) => destruct x as [n unit_] end. by apply (prop_clean (B "tmp") (B "size=")).
Qed.

Lemma command_clean argv t : command_ argv = Ok t -> clean t.
Proof.
  unfold command_. intros Ht. inv_ok. apply (mid_clean (B "command")); [done|done|]. by eapply command_words_mid.
Qed.

Lemma node_clean n t : node_ok n -> node n = Ok t -> clean t.
Proof.
  intros Ho Hn. destruct n as [s|ps|l|m|z|m|m|cfg|d|argv]; cbn [node] in Hn; inv_ok.
  - by eapply service_clean.
  - destruct (bool_decide _); [done|]. inv_ok. apply (mid_clean (B "env")); [done|done|]. by apply pairs_mid.
  - destruct l as [|a [|b l]]; inv_ok. apply lint_clean.
  - apply etc_clean.
  - apply tmp_clean.
  - by apply (inline_val_clean (B "tty")); [plain_text|].
  - by apply (inline_val_clean (B "userns")); [plain_text|].
  - apply seccomp_clean.
  - by apply (inline_val_clean (B "desktop")); [plain_text|].
  - by eapply command_clean.
Qed.
End Whole.

(** ** A text of lines, some of them kept *)

Definition prefixed (x : bool * bytes) : bytes := (if x.1 then B "/-" else []) ++ x.2.
Definition line (x : bool * bytes) : bytes := prefixed x ++ [LF].

(** Where the kept lines start. *)
Fixpoint kept_at (i : Z) (ls : list (bool * bytes)) : list Z :=
  match ls with
  | [] => []
  | x :: ls => (if x.1 then [i] else []) ++ kept_at (i + len (line x)) ls
  end.

Lemma marks_end b d o : marks_at b d o (len b) = [].
Proof. unfold marks_at. by rewrite Z.sub_diag. Qed.

Lemma clean_line s pre rest o : clean s -> marks_at (pre ++ s ++ LF :: rest) 0 o (len pre) = marks_at (pre ++ s ++ LF :: rest) 0 true (len pre + len s + 1).
Proof.
  intros Hs. rewrite (Hs o) by (by right).
  replace (pre ++ s ++ LF :: rest) with ((pre ++ s) ++ [LF] ++ rest) by (by rewrite <-!app_assoc).
  rewrite <-len_app. by rewrite (runs_newline 0 false).
Qed.

Lemma marks_lines ls : Forall (fun x => clean x.2) ls -> forall pre,
  marks_at (pre ++ concat (map line ls)) 0 true (len pre) = kept_at (len pre) ls.
Proof.
  induction 1 as [|[off s] ls Hs _ IH]; intros pre; cbn [map concat kept_at].
  { rewrite app_nil_r. apply marks_end. }
  unfold line, prefixed in *. cbn [fst snd] in *. set (tl := concat (map (fun x => _) ls)) in *.
  assert (forall p, marks_at (p ++ s ++ LF :: tl) 0 true (len p + len s + 1) = kept_at (len p + len s + 1) ls) as Hrest.
  { intros p. replace (p ++ s ++ LF :: tl) with ((p ++ s ++ [LF]) ++ tl) by (by rewrite <-!app_assoc).
    replace (len p + len s + 1) with (len (p ++ s ++ [LF])) by (rewrite !len_app; change (len [LF]) with 1; lia). apply IH. }
  destruct off; cbn [app].
  - set (t := pre ++ ((B "/-" ++ s) ++ [LF]) ++ tl).
    assert (t = (pre ++ B "/-") ++ s ++ LF :: tl) as Ht by (subst t; by rewrite <-!app_assoc).
    assert (get t (len pre) = Some SLASH) as Hg by (apply get_app_mid).
    assert (at_byte t (len pre + 1) 45 = true) as Hd by (apply at_byte_1).
    rewrite marks_at_step by (by eapply get_range). rewrite Hd. unfold at_byte at 1. rewrite Hg. cbn [andb Z.eqb Pos.eqb u8].
    change (if true && (u8 SLASH =? 47) && true then ?x else ?y) with x. f_equal.
    replace (len pre + 2) with (len (pre ++ B "/-")) by (by rewrite len_app).
    rewrite Ht, clean_line by done. rewrite Hrest. f_equal. rewrite !len_app. change (len (B "/-")) with 2. change (len [LF]) with 1. lia.
  - rewrite <-!app_assoc. cbn [app]. rewrite clean_line by done. rewrite Hrest. f_equal. rewrite !len_app. change (len [LF]) with 1. lia.
Qed.

Lemma cut_lines ls : forall pre mid_, 
  cut_marks (pre ++ mid_ ++ concat (map line ls)) (len pre) (kept_at (len pre + len mid_) ls) = mid_ ++ concat (map (fun x => x.2 ++ [LF]) ls).
Proof.
  induction ls as [|[off s] ls IH]; intros pre mid_; cbn [map concat kept_at].
  { cbn. rewrite !app_nil_r. by rewrite from_app. }
  unfold line at 1, prefixed. cbn [fst snd]. destruct off.
  - cbn [app cut_marks]. rewrite from_app. replace (len pre + len mid_ - len pre) with (len mid_) by lia.
    rewrite upto_app. f_equal.
    set (p := pre ++ mid_ ++ B "/-").
    replace (pre ++ mid_ ++ ((B "/-" ++ s) ++ [LF]) ++ concat (map line ls)) with (p ++ (s ++ [LF]) ++ concat (map line ls))
      by (subst p; by rewrite <-!app_assoc).
    replace (len pre + len mid_ + 2) with (len p) by (subst p; rewrite !len_app; change (len (B "/-")) with 2; lia).
    replace (len pre + len mid_ + len (line (true, s))) with (len p + len (s ++ [LF])); [apply IH|].
    subst p. unfold line, prefixed. cbn [fst snd]. rewrite !len_app. lia.
  - cbn [app].
    replace (pre ++ mid_ ++ (s ++ [LF]) ++ concat (map line ls)) with (pre ++ (mid_ ++ s ++ [LF]) ++ concat (map line ls)) by (by rewrite <-!app_assoc).
    replace (len pre + len mid_ + len (line (false, s))) with (len pre + len (mid_ ++ s ++ [LF])).
    + rewrite IH. by rewrite <-!app_assoc.
    + unfold line, prefixed. cbn [fst snd app]. rewrite !len_app. lia.
Qed.

(** The scan of such a text finds the kept lines, and cutting gives the others as written. *)
Lemma lines_scanned ls : Forall (fun x => clean x.2) ls ->
  slashdash_marks (concat (map line ls)) = kept_at 0 ls /\ bare (concat (map line ls)) = concat (map (fun x => x.2 ++ [LF]) ls).
Proof.
  intros Hl. assert (slashdash_marks (concat (map line ls)) = kept_at 0 ls) as E
    by (rewrite slashdash_marks_at; exact (marks_lines ls Hl [])).
  split; [done|]. unfold bare. rewrite E. exact (cut_lines ls [] []).
Qed.

(** ** The entries of a section *)

Definition offs_of {T} (es : list (Entry T)) : list Disabled := omap (fun e => match e with KdlOut.Off _ d => Some d | _ => None end) es.
Definition ons_of {T} (es : list (Entry T)) : list T := omap (fun e => match e with Enabled x => Some x | _ => None end) es.

Definition picked (is_ : Node.t -> bool) (at_ : Z -> bool) (ds : list Disabled) : list Disabled :=
  List.filter (fun d => is_ (Config.node d) && at_ (before d)) ds.

Lemma picked_split is_ a1 a2 a ds :
  (forall d, d ∈ ds -> a (before d) = xorb (a1 (before d)) (a2 (before d))) -> (forall d, d ∈ ds -> a1 (before d) && a2 (before d) = false) ->
  picked is_ a1 ds ++ picked is_ a2 ds ≡ₚ picked is_ a ds.
Proof.
  unfold picked. induction ds as [|d ds IH]; intros Hx Hn; cbn [List.filter]; [done|].
  assert (forall e, e ∈ ds -> e ∈ d :: ds) as Hs by (intros; by right).
  specialize (IH (fun e He => Hx e (Hs e He)) (fun e He => Hn e (Hs e He))).
  rewrite (Hx d (list_elem_of_here _ _)). specialize (Hn d (list_elem_of_here _ _)).
  destruct (is_ (Config.node d)); cbn [andb]; [|done].
  destruct (a1 (before d)), (a2 (before d)); try done; cbn [xorb app].
  - by rewrite IH.
  - by rewrite <-Permutation_middle, IH.
Qed.

Lemma picked_ext is_ a1 a2 ds : (forall d, d ∈ ds -> a1 (before d) = a2 (before d)) -> picked is_ a1 ds = picked is_ a2 ds.
Proof.
  unfold picked. induction ds as [|d ds IH]; intros Hx; cbn [List.filter]; [done|].
  rewrite (Hx d (list_elem_of_here _ _)), IH; [done|]. intros e He. apply Hx. by right.
Qed.

Section Entries.
Context {T : Type} (is_ : Node.t -> bool) (ds : list Disabled).

Definition of_section (at_ : Z -> bool) : list (Entry T) :=
  omap (fun '(i, d) => if is_ (Config.node d) && at_ (before d) then Some (KdlOut.Off i d) else None) (imap (fun i d => (i, d)) ds).

Lemma of_section_offs at_ : offs_of (of_section at_) = picked is_ at_ ds /\ ons_of (of_section at_) = [].
Proof.
  unfold of_section, picked.
  assert (forall (f : nat -> nat) l,
    offs_of (omap (fun '(i, d) => if is_ (Config.node d) && at_ (before d) then Some (@KdlOut.Off T i d) else None) (imap (fun i d => (f i, d)) l))
      = List.filter (fun d => is_ (Config.node d) && at_ (before d)) l /\
    ons_of (omap (fun '(i, d) => if is_ (Config.node d) && at_ (before d) then Some (@KdlOut.Off T i d) else None) (imap (fun i d => (f i, d)) l)) = []) as Hg.
  { intros f l. revert f. induction l as [|d l IH]; intros f; [done|]. cbn [imap]. specialize (IH (fun i => f (S i))) as [IH1 IH2].
    change (omap ?h (?x :: ?k)) with (match h x with Some y => y :: omap h k | None => omap h k end). cbn beta iota. cbn [List.filter].
    unfold compose. destruct (is_ _ && _); [|done]. split; [|exact IH2].
    change (offs_of (?x :: ?k)) with (match (match x with KdlOut.Off _ d => Some d | _ => None end) with Some y => y :: offs_of k | None => offs_of k end).
    cbn iota. by f_equal. }
  exact (Hg (fun i => i) ds).
Qed.
End Entries.

Lemma ons_app {T} (a b : list (Entry T)) : ons_of (a ++ b) = ons_of a ++ ons_of b.
Proof. apply omap_app_local. Qed.
Lemma offs_app {T} (a b : list (Entry T)) : offs_of (a ++ b) = offs_of a ++ offs_of b.
Proof. apply omap_app_local. Qed.

Lemma section_loop_ons {T} is_ ds i (en : list T) : ons_of (section_loop (of_section is_ ds) i en) = en.
Proof.
  revert i. induction en as [|x en IH]; intros i; [done|]. cbn [section_loop].
  rewrite !ons_app, IH. by rewrite (proj2 (of_section_offs _ _ _)).
Qed.

Lemma section_loop_offs {T} is_ ds i (en : list T) : 0 <= i ->
  offs_of (section_loop (of_section is_ ds) i en ++ of_section is_ ds (fun before => before >=? i + len en)) ≡ₚ picked is_ (fun before => before >=? i) ds.
Proof.
  revert i. induction en as [|x en IH]; intros i Hi; cbn [section_loop app].
  { rewrite (proj1 (of_section_offs _ _ _)). by rewrite Z.add_0_r. }
  rewrite <-!app_assoc, offs_app, (proj1 (of_section_offs _ _ _)). cbn [app].
  change (offs_of (?x :: ?k)) with (offs_of k). specialize (IH (i + 1) ltac:(lia)).
  replace (i + len (x :: en)) with (i + 1 + len en) by (unfold len; cbn [length]; lia). rewrite IH.
  apply picked_split; intros d _; [|lia]. destruct (before d =? i) eqn:E, (before d >=? i + 1) eqn:E', (before d >=? i) eqn:E''; done || lia.
Qed.

(** Every entry of a section is written back once: the enabled as they stand, the kept
    lines of that section wherever they fall. *)
Lemma section_entries_all {T} cfg is_ (en : list T) : Forall (fun d => 0 <= before d) (disabled cfg) ->
  ons_of (section_entries cfg is_ en) = en /\
  offs_of (section_entries cfg is_ en) ≡ₚ List.filter (fun d => is_ (Config.node d)) (disabled cfg).
Proof.
  intros Hb.
  change (section_entries cfg is_ en)
    with (section_loop (of_section is_ (disabled cfg)) 0 en ++ of_section is_ (disabled cfg) (fun before => before >=? 0 + len en)).
  split.
  - rewrite ons_app. rewrite (section_loop_ons is_ (disabled cfg)). rewrite (proj2 (of_section_offs is_ (disabled cfg) _)). apply app_nil_r.
  - rewrite section_loop_offs by lia.
    rewrite (picked_ext _ _ (fun _ => true)); [|intros d Hd; rewrite Forall_forall in Hb; specialize (Hb d Hd); cbn beta in *; lia].
    unfold picked. erewrite List.filter_ext; [reflexivity|]. intros d. apply andb_true_r.
Qed.

Section Written.
Context `{IpText}.

(** What the kept and the live lines of a section were written from. *)
Definition kept (ls : list (bool * bytes)) : list bytes := map snd (List.filter fst ls).
Definition live (ls : list (bool * bytes)) : list bytes := map snd (List.filter (fun x => negb x.1) ls).

Lemma kept_app a b : kept (a ++ b) = kept a ++ kept b.
Proof. unfold kept. by rewrite List.filter_app, map_app. Qed.
Lemma live_app a b : live (a ++ b) = live a ++ live b.
Proof. unfold live. by rewrite List.filter_app, map_app. Qed.

Definition text_of (d : Disabled) (t : bytes) : Prop := node (Config.node d) = Ok t.

Lemma lines_of_spec es l : lines_of es = Ok l ->
  exists ls, l = map prefixed ls /\ live ls = ons_of es /\ Forall2 text_of (offs_of es) (kept ls).
Proof.
  revert l. induction es as [|[x|i d] es IH]; intros l Hl; cbn [lines_of] in Hl; inv_ok.
  - by exists [].
  - match goal with HL : lines_of es = Ok _ |- _ => destruct (IH _ HL) as (ls & -> & Hv & Hk) end. exists ((false, x) :: ls). repeat split; [|exact Hk].
    change (live ((false, x) :: ls)) with (x :: live ls). by rewrite Hv.
  - match goal with HL : lines_of es = Ok _ |- _ => destruct (IH _ HL) as (ls & -> & Hv & Hk) end. unfold disabled_ in E. inv_ok. eexists ((true, _) :: ls). repeat split; [exact Hv|].
    constructor; [done|exact Hk].
Qed.

Lemma section_spec cfg rank en l : Forall (fun d => 0 <= before d) (disabled cfg) -> section cfg rank en = Ok l ->
  exists ls ds, l = map prefixed ls /\ live ls = en /\ Forall2 text_of ds (kept ls) /\
    ds ≡ₚ List.filter (fun d => section_rank (Config.node d) =? rank) (disabled cfg).
Proof.
  intros Hb Hs. apply lines_of_spec in Hs as (ls & -> & Hv & Hk).
  destruct (section_entries_all cfg (fun n => section_rank n =? rank) en Hb) as [Ho Hf]. exists ls. eexists. split_and!; [done| |exact Hk|exact Hf].
  by rewrite Hv.
Qed.
End Written.

(** ** The whole text *)

Lemma ranks_cover {A} (f : A -> Z) rs l : NoDup rs -> Forall (fun a => f a ∈ rs) l ->
  concat (map (fun r => List.filter (fun a => f a =? r) l) rs) ≡ₚ l.
Proof.
  intros Hn. induction 1 as [|a l Ha _ IH]; [clear Hn; induction rs as [|r rs IHr]; [done|exact IHr]|].
  assert (forall qs, NoDup qs -> concat (map (fun r => List.filter (fun a => f a =? r) (a :: l)) qs) ≡ₚ
    (if decide (f a ∈ qs) then [a] else []) ++ concat (map (fun r => List.filter (fun a => f a =? r) l) qs)) as Hq.
  { clear. induction qs as [|q qs IH]; intros Hn; [rewrite decide_False by (by inversion 1); done|]. apply NoDup_cons in Hn as [Hq Hn].
    cbn [map concat List.filter]. rewrite (IH Hn). destruct (Z.eqb_spec (f a) q) as [->|Hne].
    - rewrite (decide_False (P := q ∈ qs)) by done. rewrite (decide_True (P := q ∈ q :: qs)) by (by left). done.
    - destruct (decide (f a ∈ qs)) as [Hi|Hi].
      + rewrite (decide_True (P := f a ∈ q :: qs)) by (by right). cbn [app]. symmetry. apply Permutation_middle.
      + rewrite (decide_False (P := f a ∈ q :: qs)); [done|]. intros [He|He]%elem_of_cons; done. }
  rewrite Hq, decide_True by done. cbn [app]. by rewrite IH.
Qed.

Lemma section_rank_in n : section_rank n ∈ [0; 1; 2; 3; 4; 5; 6; 7; 8; 9].
Proof. destruct n; cbn [section_rank]; set_solver. Qed.

(** The configuration with its kept lines deleted. *)
Definition undisabled (cfg : InstanceConfig) : InstanceConfig :=
  mkInstance (services cfg) (shares cfg) (command cfg) (env cfg) (etc cfg) (tmp cfg) (tty cfg) (seccomp cfg) (userns cfg) (lint_allows cfg) (desktop cfg) [].

(** What the parser and the types leave in a configuration. *)
Record cfg_ok (cfg : InstanceConfig) : Prop := {
  ok_services : Forall service_ok (services cfg);
  ok_env : Forall (fun p => is_env_key p.1 = true) (env cfg);
  ok_disabled : Forall (fun d => node_ok (Config.node d) /\ 0 <= before d) (disabled cfg) }.

Lemma ons_loop_live {T} (en : list T) i : section_loop (fun _ => []) i en = map Enabled en.
Proof. revert i. induction en as [|x en IH]; intros i; cbn; [done|]. by rewrite IH. Qed.

Section Rendered.
Context `{IpText, !IpTextLaws}.

Lemma lines_of_live en : lines_of (map Enabled en) = Ok en.
Proof. induction en as [|x en IH]; cbn; [done|]. by rewrite IH. Qed.

Lemma section_live cfg rank en : section (undisabled cfg) rank en = Ok en.
Proof.
  unfold section, section_entries. cbn [disabled undisabled imap omap list_omap].
  rewrite ons_loop_live, app_nil_r. apply lines_of_live.
Qed.

Lemma services_clean l ts : Forall service_ok l -> services_ l = Ok ts -> Forall clean ts.
Proof.
  intros Hl. revert ts. induction Hl as [|s l Hs _ IH]; intros ts Ht; cbn [services_] in Ht; inv_ok; [done|].
  constructor; [by eapply service_clean|by apply IH].
Qed.

Lemma when_clean b t : clean t -> Forall clean (when b t).
Proof. intros Ht. destruct b; by repeat constructor. Qed.

(** A section: its lines, the kept and the live of them, and that each is clean. *)
Definition written_as (ds : list Disabled) (en l : list bytes) (ls : list (bool * bytes)) : Prop :=
  l = map prefixed ls /\ live ls = en /\ (exists ds', Forall2 text_of ds' (kept ls) /\ ds' ≡ₚ ds) /\ Forall (fun x => clean x.2) ls.

Lemma written_app ds1 ds2 en1 en2 l1 l2 ls1 ls2 :
  written_as ds1 en1 l1 ls1 -> written_as ds2 en2 l2 ls2 -> written_as (ds1 ++ ds2) (en1 ++ en2) (l1 ++ l2) (ls1 ++ ls2).
Proof.
  intros (-> & <- & (d1 & Hk1 & Hp1) & Hc1) (-> & <- & (d2 & Hk2 & Hp2) & Hc2). unfold written_as.
  rewrite map_app, live_app, kept_app. repeat split.
  - exists (d1 ++ d2). split; [by apply Forall2_app|by rewrite Hp1, Hp2].
  - by apply Forall_app.
Qed.

Lemma parts_forall (P : bytes -> Prop) ls : Forall P (kept ls) -> Forall P (live ls) -> Forall (fun x => P x.2) ls.
Proof.
  induction ls as [|[[|] x] ls IH]; intros Hk Hl; constructor.
  - by inversion Hk.
  - apply IH; [by inversion Hk|done].
  - by inversion Hl.
  - apply IH; [done|by inversion Hl].
Qed.

Lemma section_written cfg rank en l : cfg_ok cfg -> Forall clean en -> section cfg rank en = Ok l ->
  exists ls, written_as (List.filter (fun d => section_rank (Config.node d) =? rank) (disabled cfg)) en l ls.
Proof.
  intros [_ _ Hd] Hen Hs. apply Forall_and in Hd as [Hd Hb]. apply section_spec in Hs as (ls & ds & -> & Hl & Hk & Hp); [|done].
  exists ls. split; [done|]. split; [done|]. split; [by exists ds|]. apply parts_forall; [|by rewrite Hl].
  assert (Forall (fun d => node_ok (Config.node d)) ds) as Hds.
  { rewrite Hp. rewrite Forall_forall in *. intros d Hin. apply Hd. apply list_elem_of_In, filter_In in Hin as [Hin _]. by apply list_elem_of_In. }
  clear Hp Hl. revert Hds. generalize dependent (kept ls). intros ks Hk. induction Hk as [|d t ds ts Ht _ IH]; intros Hds; [done|]. inversion_clear Hds.
  constructor; [by eapply node_clean|by apply IH].
Qed.
End Rendered.

(** The ten sections of a file, given its services' and its command's text. *)
Definition parts (cfg : InstanceConfig) (svcs cmd : list bytes) : list (Z * list bytes) :=
  [(0, map lint_allow (lint_allows cfg)); (1, svcs); (2, map env_ (env cfg));
   (3, when (negb (bool_decide (etc cfg = EtcMode.Allowlist))) (etc_ (etc cfg)));
   (4, match tmp cfg with Some t => [tmp_ t] | None => [] end);
   (5, when (negb (bool_decide (tty cfg = Pty))) (tty_ (tty cfg)));
   (6, when (negb (bool_decide (userns cfg = Userns.Allow))) (userns_ (userns cfg)));
   (7, when (negb (bool_decide (seccomp cfg = default_seccomp))) (seccomp_ (seccomp cfg)));
   (8, match desktop cfg with Some n => [desktop_ n] | None => [] end); (9, cmd)].

Definition command_lines (cfg : InstanceConfig) : result ConfigError (list bytes) :=
  match command cfg with Some argv => n ← command_ argv; Ok [n] | None => Ok [] end.

Section Rendering.
Context `{IpText, !IpTextLaws}.

Lemma nodes_parts cfg l : nodes cfg = Ok l <-> exists svcs cmd ts,
  services_ (services cfg) = Ok svcs /\ command_lines cfg = Ok cmd /\
  Forall2 (fun p t => section cfg p.1 p.2 = Ok t) (parts cfg svcs cmd) ts /\ l = concat ts.
Proof.
  split.
  - unfold nodes. fold (command_lines cfg). intros Hn. inv_ok. do 3 eexists. repeat split; [|eassumption|..]; [eassumption| |].
    + repeat (constructor; [eassumption|]). constructor.
    + cbn [concat]. by rewrite app_nil_r.
  - intros (svcs & cmd & ts & Hs & Hc & Ht & ->). unfold parts in Ht.
    repeat match goal with HF : Forall2 _ (_ :: _) _ |- _ => inversion_clear HF | HF : Forall2 _ [] _ |- _ => inversion_clear HF end.
    cbn [fst snd] in *. unfold nodes. fold (command_lines cfg). rewrite Hs, Hc. cbn [mbind result_bind].
    repeat match goal with HS : section _ _ _ = Ok _ |- _ => rewrite HS; clear HS; cbn [mbind result_bind] end.
    cbn [concat]. by rewrite app_nil_r.
Qed.

Lemma parts_clean cfg svcs cmd : cfg_ok cfg -> services_ (services cfg) = Ok svcs -> command_lines cfg = Ok cmd ->
  Forall (fun p => Forall clean p.2) (parts cfg svcs cmd).
Proof.
  intros [Hs He _] Hv Hc. unfold parts. repeat apply List.Forall_cons; cbn [fst snd]; try apply List.Forall_nil.
  - apply Forall_map, Forall_forall. intros a _. apply lint_clean.
  - by eapply services_clean.
  - apply Forall_map. eapply Forall_impl; [exact He|]. apply env_clean.
  - apply when_clean, etc_clean.
  - destruct (tmp cfg); [|constructor]. constructor; [apply tmp_clean|constructor].
  - apply when_clean, (node_clean (Node.Tty (tty cfg))); done.
  - apply when_clean, (node_clean (Node.Userns (userns cfg))); done.
  - apply when_clean, seccomp_clean.
  - destruct (desktop cfg) as [dn|]; [|constructor]. constructor; [|constructor]. by apply (node_clean (Node.Desktop dn)).
  - unfold command_lines in Hc. destruct (command cfg); inv_ok; [|constructor]. constructor; [by eapply command_clean|constructor].
Qed.

Lemma written_parts cfg ps ts : cfg_ok cfg -> Forall (fun p => Forall clean p.2) ps ->
  Forall2 (fun p t => section cfg p.1 p.2 = Ok t) ps ts ->
  exists ls, written_as (concat (map (fun r => List.filter (fun d => section_rank (Config.node d) =? r) (disabled cfg)) (map fst ps)))
    (concat (map snd ps)) (concat ts) ls.
Proof.
  intros Hc Hp Ht. revert Hp. induction Ht as [|[r en] t ps ts Hs _ IH]; intros Hp.
  - exists []. split; [done|]. split; [done|]. split; [by exists []|done].
  - inversion_clear Hp as [|? ? Hen Hp']. destruct (IH Hp') as (ls & Hls).
    destruct (section_written _ _ _ _ Hc Hen Hs) as (ls1 & Hls1).
    exists (ls1 ++ ls). cbn [map concat fst snd]. by apply written_app.
Qed.

(** The lines of a file: those of the configuration without its kept nodes, and the kept
    ones among them. *)
Lemma nodes_written cfg l : cfg_ok cfg -> nodes cfg = Ok l ->
  exists ls en ds, nodes (undisabled cfg) = Ok en /\ written_as ds en l ls /\ ds ≡ₚ disabled cfg.
Proof.
  intros Hc (svcs & cmd & ts & Hs & Hm & Ht & ->)%nodes_parts.
  destruct (written_parts cfg _ _ Hc (parts_clean _ _ _ Hc Hs Hm) Ht) as (ls & Hls).
  eexists ls, _, _. split; [|split; [exact Hls|]].
  - apply nodes_parts. exists svcs, cmd, (map snd (parts cfg svcs cmd)). split; [done|]. split; [done|]. split; [|done].
    change (parts (undisabled cfg) svcs cmd) with (parts cfg svcs cmd). apply Forall2_fmap_r, Forall_Forall2_diag, Forall_forall.
    intros p _. apply section_live.
  - apply (ranks_cover (fun d => section_rank (Config.node d))).
    + apply (bool_decide_unpack (NoDup [0; 1; 2; 3; 4; 5; 6; 7; 8; 9])), I.
    + apply Forall_forall. intros d _. apply section_rank_in.
Qed.
End Rendering.

(** ** The bounds on what the parser is handed *)

Definition braces (s : bytes) : Z := len (List.filter (fun c => u8 c =? 123) s).
(** [/*] at [i], whose comment holds more marks than the bound. *)
Definition busy (text : bytes) (i : Z) : Prop :=
  at_byte text i 47 = true /\ at_byte text (i + 1) 42 = true /\ MAX_COMMENT_MARKS < (block_comment_end text i).2.

Lemma at_byte_mid pre c rest n : at_byte (pre ++ c :: rest) (len pre) n = (u8 c =? n).
Proof. unfold at_byte. by rewrite get_app_mid. Qed.

Lemma line_at_ascii pre c rest : u8 c < 128 -> exists l, ConfigScan.line_at (pre ++ c :: rest) (len pre) = Some l.
Proof.
  intros Hc. unfold ConfigScan.line_at, char_boundary. rewrite get_app_mid.
  assert (is_cont c = false) as -> by (by destruct c). rewrite orb_true_r. by eexists.
Qed.

(** The braces and the comments so far are within their bounds. *)
Definition calm (text : bytes) (i : Z) : Prop := braces (upto text i) <= MAX_NESTING /\ forall j, 0 <= j < i -> ~ busy text j.

Lemma braces_snoc pre c : braces (pre ++ [c]) = braces pre + (if u8 c =? 123 then 1 else 0).
Proof. unfold braces. rewrite List.filter_app, len_app. cbn. by destruct (_ =? _). Qed.

Lemma calm_text_snoc pre c rest : calm (pre ++ c :: rest) (len pre) -> braces (pre ++ [c]) <= MAX_NESTING -> ~ busy (pre ++ c :: rest) (len pre) ->
  calm (pre ++ c :: rest) (len pre + 1).
Proof.
  intros [_ Hb] Hn Hy. split.
  - replace (pre ++ c :: rest) with ((pre ++ [c]) ++ rest) by (by rewrite <-app_assoc).
    replace (len pre + 1) with (len (pre ++ [c])) by (by rewrite len_app). by rewrite upto_app.
  - intros j Hj. destruct (Z.eq_dec j (len pre)) as [->|]; [done|]. apply Hb. lia.
Qed.

(** What [check_bounds] answers: [Ok] when nothing in the text passes its bound, else the
    first thing that does and the line it is on. *)
Definition bounds_answer (text : bytes) (r : result ConfigError unit) : Prop :=
  match r with
  | Ok _ => calm text (len text)
  | Err (TooDeep l m) => m = MAX_NESTING /\ exists i, calm text i /\ at_byte text i 123 = true /\ braces (upto text i) = MAX_NESTING /\ ConfigScan.line_at text i = Some l
  | Err (CommentTooBusy l m) => m = MAX_COMMENT_MARKS /\ exists i, calm text i /\ busy text i /\ ConfigScan.line_at text i = Some l
  | _ => False
  end.

Lemma bounds_loop_spec rest : forall pre, calm (pre ++ rest) (len pre) ->
  bounds_answer (pre ++ rest) (bounds_loop rest (pre ++ rest) (len pre) (braces pre)).
Proof.
  induction rest as [|c rest IH]; intros pre Hp; cbn [bounds_loop].
  { cbn [bounds_answer]. by rewrite app_nil_r in *. }
  assert (forall o, o = braces (pre ++ [c]) -> braces (pre ++ [c]) <= MAX_NESTING -> ~ busy (pre ++ c :: rest) (len pre) ->
    bounds_answer (pre ++ c :: rest) (bounds_loop rest (pre ++ c :: rest) (len pre + 1) o)) as Hgo.
  { intros o -> Hn Hy. pose proof (calm_text_snoc _ _ _ Hp Hn Hy) as Hc. specialize (IH (pre ++ [c])).
    rewrite <-app_assoc in IH. rewrite len_app in IH. by apply IH. }
  pose proof Hp as [Hn _]. rewrite upto_app in Hn. pose proof (braces_snoc pre c) as Hs.
  assert (forall n, u8 c = n -> n < 128 -> exists l, ConfigScan.line_at (pre ++ c :: rest) (len pre) = Some l) as Hl
    by (intros n Hc Hlt; apply line_at_ascii; lia).
  destruct (u8 c =? 123) eqn:Hb.
  - destruct (Z.gtb_spec (braces pre + 1) MAX_NESTING).
    + cbn [bounds_answer]. split; [done|]. exists (len pre). destruct (Hl 123) as [l ->]; [lia..|].
      split; [done|]. split; [by rewrite at_byte_mid|]. rewrite upto_app. split; [lia|done].
    + apply Hgo; [lia|lia|]. intros (Ha & _). rewrite at_byte_mid in Ha. lia.
  - destruct ((u8 c =? 47) && at_byte (pre ++ c :: rest) (len pre + 1) 42) eqn:Hc.
    + apply andb_true_iff in Hc as [Hc1 Hc2]. destruct (block_comment_end (pre ++ c :: rest) (len pre)) as [e m] eqn:He.
      destruct (Z.gtb_spec m MAX_COMMENT_MARKS).
      * cbn [bounds_answer]. split; [done|]. exists (len pre). destruct (Hl 47) as [l ->]; [lia..|].
        split; [done|]. split; [|done]. unfold busy. rewrite at_byte_mid, He. cbn [snd]. split_and!; [done|done|lia].
      * apply Hgo; [lia|lia|]. intros (_ & _ & Hm). rewrite He in Hm. cbn [snd] in Hm. lia.
    + apply Hgo; [lia|lia|]. intros (Ha & Ha' & _). rewrite at_byte_mid in Ha. by rewrite Ha, Ha' in Hc.
Qed.

(** The check before the KDL parser is exactly its three bounds.  It refuses a text for
    its length when it is longer than [MAX_BYTES]; else it refuses it at the first byte where
    the thirty-third brace stands, or where a comment of more than [MAX_COMMENT_MARKS] marks
    opens, with the line of that byte, whichever comes first; else it accepts it, and then no
    brace count and no comment in the text passes its bound. *)
Theorem check_bounds_refuses text :
  match check_bounds text with
  | Err (TooLarge n m) => n = len text /\ m = MAX_BYTES /\ MAX_BYTES < len text
  | r => len text <= MAX_BYTES /\ bounds_answer text r
  end.
Proof.
  unfold check_bounds. destruct (Z.gtb_spec (len text) MAX_BYTES); [done|].
  assert (bounds_answer text (bounds_loop text text 0 0)) as Ha.
  { apply (bounds_loop_spec text []). split; [done|]. intros j Hj. unfold len in Hj. cbn [length] in Hj. lia. }
  destruct (bounds_loop text text 0 0) as [u|[]]; try done; by destruct Ha.
Qed.

(** No value can break out of its quotes.  Whatever bytes a value holds, quotes,
    backslashes, newlines and controls among them, the scanner that finds the kept lines
    reads what [quote] writes for it as one string that ends exactly at the closing quote,
    when no quote follows at once: what follows a value is a space, a newline or the end. *)
Theorem quoted_value_is_one_string p s r : at_byte r 0 34 = false ->
  string_end (p ++ quote s ++ r) (len p) 0 = Some (len p + len (quote s)).
Proof.
  intros Hr. apply quoted_value_ends. destruct r as [|c r]; [done|]. pose proof (at_byte_mid [] c r 34) as He.
  cbn [app] in He. change (len []) with 0 in He. rewrite He in Hr. cbn [no_quote]. lia.
Qed.

(** What is written as kept is read back as kept, and nothing else.  The text of a
    configuration is a list of lines, some of them prefixed with [/-]; the scanner that
    looks for kept lines finds exactly the starts of those, whatever the values in any of
    them hold, and the text without its marks is the same lines written as enabled.  The
    kept lines are the nodes of [disabled], each once; the others are the lines of the same
    configuration with [disabled] empty, in their order. *)
Theorem kept_lines_are_kept `{IpText, !IpTextLaws} cfg text : cfg_ok cfg -> render cfg = Ok text ->
  exists ls ds, text = concat (map line ls) /\ slashdash_marks text = kept_at 0 ls /\
    bare text = concat (map (fun x => x.2 ++ [LF]) ls) /\
    nodes (undisabled cfg) = Ok (live ls) /\ Forall2 text_of ds (kept ls) /\ ds ≡ₚ disabled cfg.
Proof.
  unfold render. intros Hc Hr. inv_ok. destruct (nodes_written _ _ Hc E) as (ls & en & ds & Hn & (-> & Hl & (ds' & Hk & Hp) & Hcl) & Hd).
  assert (concat (map (fun n => n ++ [LF]) (map prefixed ls)) = concat (map line ls)) as Ht by (by rewrite map_map).
  rewrite Ht. destruct (lines_scanned ls Hcl) as [Hm Hb]. exists ls, ds'. rewrite Hl.
  do 5 (split; [done|]). by rewrite Hp.
Qed.

Lemma quoted_value_is_one_string_witness :
  let v := [QUOTE; BACKSLASH; LF; QUOTE; QUOTE; QUOTE] ++ B "/-" in
  string_end (B "env A=" ++ quote v ++ [LF]) 6 0 = Some (6 + len (quote v)).
Proof. exact (quoted_value_is_one_string (B "env A=") ([QUOTE; BACKSLASH; LF; QUOTE; QUOTE; QUOTE] ++ B "/-") [LF] eq_refl). Defined.

(** A file with a kept grant, a kept block and values that try to look like one. *)
Definition demo_config : InstanceConfig :=
  mkInstance [Service.Notify; Service.Network demo_network] [] (Some [B "sh"; LF :: B "/-tray"]) [(B "A", QUOTE :: LF :: B "/-tray {")] EtcMode.Host (Some 4096)
    Pty default_seccomp Userns.Allow [] None
    [mkDisabled (Node.Service Service.Tray) 1; mkDisabled (Node.Etc EtcMode.Host) 7; mkDisabled (Node.Service (Service.Pipewire true)) 0].

#[local] Existing Instance demo_text.
#[local] Existing Instance demo_text_laws.

Lemma kept_lines_are_kept_witness :
  exists text ls ds, render demo_config = Ok text /\ slashdash_marks text = kept_at 0 ls /\ length (slashdash_marks text) = 3%nat /\
    nodes (undisabled demo_config) = Ok (live ls) /\ Forall2 text_of ds (kept ls) /\ ds ≡ₚ disabled demo_config.
Proof.
  assert (exists text, render demo_config = Ok text) as (text & Hr) by (eexists; vm_compute; reflexivity).
  assert (cfg_ok demo_config) as Hc.
  { constructor.
    - constructor; [exact I|]. constructor; [exact demo_network_wf|constructor].
    - constructor; [reflexivity|constructor].
    - repeat (constructor; [split; [exact I|cbn; lia]|]). constructor. }
  destruct (kept_lines_are_kept demo_config text Hc Hr) as (ls & ds & _ & Hm & _ & Hn & Hk & Hp).
  exists text, ls, ds. do 2 (split; [assumption|]). split; [|do 2 (split; [assumption|]); assumption].
  revert Hr. clear. intros [= <-]. vm_compute. reflexivity.
Defined.
