(* ===== verification/ConfigParse.v ===== *)
(** The nodes of a configuration as they are read: [crates/bubbler-core/src/config.rs], and
    the table of [lint.rs] that [lint-allow] is resolved against.

    The KDL document is what the [kdl] crate hands over: nodes with a name, entries and
    children.  Each parser of the source is a definition of its name; a loop over entries is
    [fold_res] over a step of its own. *)
From S2P Require Export ConfigScan KdlOut.

(** ** What the [kdl] crate hands over *)

Inductive KdlValue := KString (s : bytes) | KInteger (n : Z) | KFloat | KBool (b : bool) | KNull.

(** [KdlEntry]: an argument without a name, a property with one; whether it has a type
    annotation. *)
Record KdlEntry := mkEntry { e_name : option bytes; e_value : KdlValue; e_ty : bool }.

(** [KdlNode]: name, offset of the name, type annotation, entries, children, and the text
    before the node when the node carries its format. *)
Inductive KdlNode := mkNode {
  n_name : bytes; n_offset : Z; n_ty : bool; n_entries : list KdlEntry; n_children : option (list KdlNode); n_leading : option bytes }.

(** [KdlDocument]: its nodes, and the leading and trailing text of its format. *)
Record KdlDocument := mkDocument { d_nodes : list KdlNode; d_format : option (bytes * bytes) }.

(** [KdlDocument::parse] on its thread: the document, or why there is none. *)
Class Kdl := { kdl_parse : bytes -> result ConfigError KdlDocument }.

(** libseccomp's number for a name. *)
Class SyscallNames := { syscall_number : bytes -> option Z }.

Definition as_string (v : KdlValue) : option bytes := match v with KString s => Some s | _ => None end.
Definition as_integer (v : KdlValue) : option Z := match v with KInteger n => Some n | _ => None end.
Definition as_bool (v : KdlValue) : option bool := match v with KBool b => Some b | _ => None end.

(** ** White space *)

(** [s.chars().any(char::is_whitespace)]. *)
Fixpoint holds_white (s : bytes) : bool :=
  match s with [] => false | _ :: s' => is_some (white_at s) || holds_white s' end.

(** [s.trim().is_empty()]. *)
Fixpoint all_white_loop (fuel : nat) (s : bytes) : bool :=
  match s, fuel with
  | [], _ => true
  | _, O => false
  | _, S fuel => match white_at s with Some k => all_white_loop fuel (drop k s) | None => false end
  end.
Definition all_white (s : bytes) : bool := all_white_loop (length s) s.

(** ** The checks a [lint-allow] may name *)

Module Severity.
Inductive t := Error | Warning | Note.

#[global] Instance eq_dec : EqDecision t.
Proof. solve_decision. Defined.
End Severity.

Definition DIFFERS_CHECK : bytes := B "audio-policy-differs".

Definition CHECKS : list (bytes * Severity.t) :=
  [(B "allow-host-wildcard", Severity.Note); (B "app-runtime-rw", Severity.Note); (DIFFERS_CHECK, Severity.Warning);
   (B "audio-policy-missing", Severity.Warning); (B "bundle-without-dbus", Severity.Error);
   (B "camera-nodes-none-present", Severity.Note); (B "camera-nodes-no-hotplug", Severity.Note);
   (B "camera-without-portals", Severity.Error); (B "command-not-found", Severity.Note); (B "dbus-name-is-host-exec", Severity.Error);
   (B "dbus-name-is-risky", Severity.Warning); (B "dbus-without-rules", Severity.Warning); (B "desktop-entry-missing", Severity.Note);
   (B "dri-kms", Severity.Note); (B "dri-nvidia-primary", Severity.Note); (B "dup-name-policy", Severity.Error);
   (B "env-looks-secret", Severity.Warning); (B "etc-host", Severity.Warning); (B "home-share-reserved", Severity.Error);
   (B "home-share-sensitive", Severity.Warning); (B "lint-allow-unused", Severity.Note); (B "mpris-wildcard", Severity.Warning);
   (B "network-host", Severity.Warning); (B "outbound-deny", Severity.Note); (B "own-on-system-bus", Severity.Error);
   (B "own-too-wide", Severity.Warning); (B "ozone-hint-unnecessary", Severity.Note); (B "path-share-mountpoint", Severity.Warning);
   (B "path-share-reserved", Severity.Error); (B "path-share-socket", Severity.Warning); (B "pipewire-microphone", Severity.Note);
   (B "portal-talk-without-portals", Severity.Warning); (B "repeat-outside-block", Severity.Note); (B "seccomp-disabled", Severity.Warning);
   (B "secrets-access", Severity.Note); (B "share-source-missing", Severity.Warning); (B "system-bus-polkit-name", Severity.Warning);
   (B "tty-passthrough", Severity.Warning); (B "tty-passthrough-without-seccomp", Severity.Warning);
   (B "userns-disabled-with-nested-sandbox", Severity.Warning); (B "wayland-clipboard-open", Severity.Warning);
   (B "wayland-host", Severity.Warning); (B "x11-nested-no-wm", Severity.Note); (B "x11-without-reason", Severity.Warning)].

Definition check (id : bytes) : option (bytes * Severity.t) := List.find (fun c => bool_decide (c.1 = id)) CHECKS.

(** ** What the parsers share *)

Definition bad (n : KdlNode) (reason : bytes) : ConfigError := BadArgument (n_name n) reason.
Definition unknown_property (n : KdlNode) (p : bytes) : ConfigError := UnknownProperty (n_name n) p.

Definition reject_types (n : KdlNode) : result ConfigError unit :=
  if n_ty n || existsb e_ty (n_entries n) then Err (bad n (B "type annotations are not supported")) else Ok tt.

Definition reject_arguments (n : KdlNode) : result ConfigError unit :=
  match n_entries n with
  | [] => Ok tt
  | e :: _ => match e_name e with Some p => Err (unknown_property n p) | None => Err (bad n (B "takes no arguments")) end
  end.

Definition no_children (n : KdlNode) : result ConfigError unit :=
  match n_children n with Some _ => Err (bad n (B "takes no children")) | None => Ok tt end.

Definition reject_entries (n : KdlNode) : result ConfigError unit := _ ← reject_arguments n; no_children n.

(** The value of an entry as a string, a switch or a port, or the refusal. *)
Definition string_of (n : KdlNode) (e : KdlEntry) (reason : bytes) : result ConfigError bytes := ok_or (as_string (e_value e)) (bad n reason).
Definition bool_of (n : KdlNode) (e : KdlEntry) (prop : bytes) : result ConfigError bool :=
  ok_or (as_bool (e_value e)) (bad n (prop ++ B " must be #true or #false")).
Definition port_of (n : KdlNode) (e : KdlEntry) : result ConfigError Z :=
  ok_or (i ← as_integer (e_value e); if (1 <=? i) && (i <=? U16_MAX) then Some i else None) (bad n (B "expects a port number from 1 to 65535")).

Definition one_string_arg (n : KdlNode) : result ConfigError bytes :=
  match head (omap e_name (n_entries n)) with
  | Some p => Err (unknown_property n p)
  | None =>
    match n_entries n with
    | [e] => string_of n e (B "expects exactly one string argument")
    | _ => Err (bad n (B "expects exactly one string argument"))
    end
  end.

(** A string, one and no children. *)
Definition lone_string (n : KdlNode) : result ConfigError bytes := s ← one_string_arg n; _ ← no_children n; Ok s.

Definition parse_include (n : KdlNode) : result ConfigError bytes := lone_string n.

(** ** Shares *)

Section Share.
Context {T : Type} (what : bytes) (validate : KdlNode -> bytes -> result ConfigError T) (allow_optional : bool).

Definition share_entry (n : KdlNode) (st : option T * ShareMode.t * bool) (e : KdlEntry) : result ConfigError (option T * ShareMode.t * bool) :=
  let '(value, mode, optional) := st in
  match e_name e with
  | None =>
    if is_some value then Err (bad n (B "expects exactly one " ++ what ++ B " argument"))
    else s ← string_of n e (what ++ B " must be a string"); v ← validate n s; Ok (Some v, mode, optional)
  | Some p =>
    if bool_decide (p = B "mode") then
      match as_string (e_value e) with
      | Some m =>
        if bool_decide (m = B "ro") then Ok (value, ShareMode.ReadOnly, optional)
        else if bool_decide (m = B "rw") then Ok (value, ShareMode.ReadWrite, optional)
        else Err (bad n (B "mode must be " ++ quoted (B "ro") ++ B " or " ++ quoted (B "rw")))
      | None => Err (bad n (B "mode must be " ++ quoted (B "ro") ++ B " or " ++ quoted (B "rw")))
      end
    else if bool_decide (p = B "optional") && allow_optional then
      o ← bool_of n e (B "optional"); Ok (value, mode, o)
    else Err (unknown_property n p)
  end.

Definition parse_share (n : KdlNode) : result ConfigError (T * ShareMode.t * bool) :=
  '(value, mode, optional) ← fold_res (share_entry n) (None, ShareMode.ReadOnly, false) (n_entries n);
  _ ← no_children n;
  v ← ok_or value (bad n (B "expects exactly one " ++ what ++ B " argument"));
  Ok (v, mode, optional).
End Share.

Definition validate_app_id (n : KdlNode) (s : bytes) : result ConfigError bytes :=
  if negb (is_valid_app_id s) then
    Err (bad n (B "expects an application id such as " ++ quoted (B "org.example.App") ++
      B ": at least two `.`-separated elements of letters, digits and `_`, `-` allowed in the last"))
  else Ok s.

Definition validate_absolute (n : KdlNode) (s : bytes) : result ConfigError path :=
  match components s with
  | RootDir :: rest => if forallb is_normal rest then Ok (components s)
                       else Err (bad n (B "path must be absolute and contain no `.` or `..` component"))
  | _ => Err (bad n (B "path must be absolute and contain no `.` or `..` component"))
  end.

Definition validate_relative (n : KdlNode) (s : bytes) : result ConfigError path :=
  if bool_decide (s = []) || negb (forallb is_normal (components s)) then
    Err (bad n (B "path must be relative to the home directory and contain no `..`"))
  else Ok (components s).

Definition etc_share_entry (n : KdlNode) (name : option bytes) (e : KdlEntry) : result ConfigError (option bytes) :=
  match e_name e with
  | Some p => Err (unknown_property n p)
  | None =>
    if is_some name then Err (bad n (B "expects exactly one name argument"))
    else
      s ← string_of n e (B "name must be a string");
      match components s with
      | [Normal entry] =>
        match List.find (fun r => bool_decide (entry = r)) RESERVED_ETC with
        | Some r => Err (bad n (B "the sandbox owns /etc/" ++ r))
        | None => Ok (Some entry)
        end
      | _ => Err (bad n (B "name must be a single entry directly under /etc"))
      end
  end.

Definition parse_etc_share (n : KdlNode) : result ConfigError Service.t :=
  name ← fold_res (etc_share_entry n) None (n_entries n);
  _ ← no_children n;
  name ← ok_or name (bad n (B "expects exactly one name argument"));
  Ok (Service.EtcShare name).

(** ** Bus rules *)

Definition bus_name (n : KdlNode) (s : bytes) : result ConfigError bytes :=
  if negb (is_bus_name s) then
    Err (bad n (B "expects a D-Bus well-known name such as " ++ quoted (B "org.example.App") ++ B ", optionally ending in `.*`"))
  else Ok s.

(** The rule one child writes. *)
Definition bus_rule_of (n : KdlNode) (own_allowed : bool) (child : KdlNode) : result ConfigError BusRule.t :=
  _ ← reject_types child;
  _ ← no_children child;
  let kind := n_name child in
  arg ← one_string_arg child;
  if bool_decide (kind = B "see") || bool_decide (kind = B "talk") || bool_decide (kind = B "own") then
    if bool_decide (kind = B "own") && negb own_allowed then Err (bad n (B "own is not allowed on the system bus"))
    else
      name ← bus_name child arg;
      Ok (if bool_decide (kind = B "see") then BusRule.See name
          else if bool_decide (kind = B "talk") then BusRule.Talk name else BusRule.Own name)
  else if bool_decide (kind = B "call") || bool_decide (kind = B "broadcast") then
    '(name, rule) ← ok_or (Cidr.split_once Init.Byte.x3d arg) (bad child (B "expects " ++ quoted (B "<name>=<rule>")));
    name ← bus_name child name;
    if bool_decide (rule = []) || (holds_white rule || bool_decide (NUL ∈ rule)) then
      Err (bad child (B "rule after `=` must be non-empty and hold no whitespace"))
    else Ok (if bool_decide (kind = B "call") then BusRule.Call name rule else BusRule.Broadcast name rule)
  else Err (UnknownNode kind).

(** The policy the rules before give the name of [rule], when it is another. *)
Definition policy_clash (rules : list BusRule.t) (rule : BusRule.t) : option (bytes * bytes * bytes) :=
  '(name, level) ← BusRule.policy rule;
  '(_, was) ← List.find (fun x => bool_decide (x.1 = name)) (omap BusRule.policy rules);
  if bool_decide (was = level) then None else Some (name, was, level).

Definition bus_rule_step (n : KdlNode) (own_allowed : bool) (rules : list BusRule.t) (child : KdlNode) : result ConfigError (list BusRule.t) :=
  rule ← bus_rule_of n own_allowed child;
  match policy_clash rules rule with
  | Some (name, was, level) =>
    Err (bad n (B "grants " ++ ticked name ++ B " as " ++ ticked was ++ B " and as " ++ ticked level ++ B "; one name takes one policy"))
  | None => Ok (rules ++ [rule])
  end.

Definition parse_bus_rules (n : KdlNode) (own_allowed : bool) : result ConfigError (list BusRule.t) :=
  _ ← reject_arguments n;
  match n_children n with
  | None => Ok []
  | Some children => fold_res (bus_rule_step n own_allowed) [] children
  end.

Definition parse_dbus (n : KdlNode) : result ConfigError Service.t := rules ← parse_bus_rules n true; Ok (Service.Dbus rules).

Definition parse_system_bus (n : KdlNode) : result ConfigError Service.t :=
  rules ← parse_bus_rules n false;
  if bool_decide (rules = []) then Err (bad n (B "expects at least one `see`, `talk`, `call` or `broadcast` rule"))
  else Ok (Service.SystemBus rules).

Definition mpris_entry (n : KdlNode) (name : option bytes) (e : KdlEntry) : result ConfigError (option bytes) :=
  match e_name e with
  | Some p =>
    if bool_decide (p = B "name") then
      s ← string_of n e (B "name must be a string");
      if negb (is_name_glob s 1) then Err (bad n (B "name must be dot-separated name elements, `*` allowed last")) else Ok (Some s)
    else Err (unknown_property n p)
  | None => Err (bad n (B "expects a name=" ++ quoted (B "...") ++ B " property, not arguments"))
  end.

Definition parse_mpris (n : KdlNode) : result ConfigError Service.t :=
  name ← fold_res (mpris_entry n) None (n_entries n);
  _ ← no_children n;
  name ← ok_or name (bad n (B "expects a name=" ++ quoted (B "...") ++ B " property"));
  Ok (Service.Mpris name).

(** ** Lint acceptances and the environment *)

Definition lint_entry (n : KdlNode) (st : option bytes * option bytes) (e : KdlEntry) : result ConfigError (option bytes * option bytes) :=
  let '(id, reason) := st in
  match e_name e with
  | None =>
    if is_some id then Err (bad n (B "expects exactly one check id argument"))
    else s ← string_of n e (B "check id must be a string"); Ok (Some s, reason)
  | Some p =>
    if bool_decide (p = B "reason") then s ← string_of n e (B "reason must be a string"); Ok (id, Some s)
    else Err (unknown_property n p)
  end.

Definition parse_lint_allow (n : KdlNode) : result ConfigError LintAllow :=
  '(id, reason) ← fold_res (lint_entry n) (None, None) (n_entries n);
  _ ← no_children n;
  id ← ok_or id (bad n (B "expects exactly one check id argument"));
  match check id with
  | None =>
    let shape := forallb (fun b => is_ascii_lower b || is_ascii_digit b || bool_decide (b = DASH)) id in
    Err (if shape then bad n (ticked id ++ B " is not a lint check")
         else bad n (B "expects a lint check id such as " ++ quoted (B "x11-without-reason")))
  | Some (_, severity) =>
    if bool_decide (severity = Severity.Error) then Err (bad n (ticked id ++ B " reports an error, and an error cannot be accepted away"))
    else
      reason ← ok_or reason (bad n (B "expects a reason=" ++ quoted (B "...") ++ B " property"));
      if all_white reason then Err (bad n (B "reason must say why the finding is accepted"))
      else match forbidden_byte reason with
           | Some what => Err (bad n (B "reason contains " ++ what))
           | None => Ok (mkLintAllow id reason)
           end
  end.

Definition env_entry (n : KdlNode) (out : list (bytes * bytes)) (e : KdlEntry) : result ConfigError (list (bytes * bytes)) :=
  key ← ok_or (e_name e) (bad n (B "expects KEY=" ++ quoted (B "value") ++ B " properties, not arguments"));
  val ← string_of n e (B "values must be strings");
  if negb (is_env_key key) then Err (bad n (ticked key ++ B " is not a usable variable name"))
  else match forbidden_byte val with
       | Some what => Err (bad n (B "value of " ++ key ++ B " contains " ++ what))
       | None =>
         if bool_decide (key ∈ RESERVED_ENV) then Err (bad n (key ++ B " is set by bubbler and cannot be overridden"))
         else if existsb (fun kv => bool_decide (kv.1 = key)) out then Err (Duplicate key)
         else Ok (out ++ [(key, val)])
       end.

Definition parse_env (n : KdlNode) : result ConfigError (list (bytes * bytes)) :=
  if bool_decide (n_entries n = []) then Err (bad n (B "expects KEY=" ++ quoted (B "value") ++ B " properties"))
  else out ← fold_res (env_entry n) [] (n_entries n); _ ← no_children n; Ok out.

(** ** The network *)

(** What [HostPattern::parse] says, as written. *)
Definition allow_error_text (e : allow_error) : bytes :=
  match e with
  | NameTooLong => B "a name is at most 253 characters, trailing dot included"
  | OnlyWildcard => B "a wildcard stands for one label under a name, as in `*.example.com`"
  | AddressName => B "a name whose last label is all digits is an address, and an address is what `allow-out` names; the proxy matches names only"
  | EmptyLabel => B "a name holds no empty label: no two dots in a row, and none at the start"
  | LabelTooLong => B "a label is at most 63 characters"
  | LabelChars => B "a label holds ASCII letters, digits and `-` only; write an internationalised name as the `xn--` form it resolves as, and a `*` as the whole first label"
  | LabelDash => B "a label neither starts nor ends with `-`"
  | NotNamePort => B "an allowed target is written `name:port`"
  | PortShape => B "a port is one to five digits"
  | PortRange => B "a port is between 1 and 65535"
  end.

(** [IpAddr::is_loopback]. *)
Definition is_loopback (a : IpAddr) : bool :=
  match a with
  | V4 o => match o with b :: _ => u8 b =? 127 | [] => false end
  | V6 o => be_val o =? 1
  end.

Section NetworkNode.
Context `{IpText}.

Definition allow_out_entry (n : KdlNode) (st : option Cidr.t * option Z * option Proto.t) (e : KdlEntry)
  : result ConfigError (option Cidr.t * option Z * option Proto.t) :=
  let '(dest, port, proto) := st in
  match e_name e with
  | None =>
    if is_some dest then Err (bad n (B "expects exactly one destination argument"))
    else s ← string_of n e (B "destination must be a quoted address"); c ← Cidr.from_str s; Ok (Some c, port, proto)
  | Some p =>
    if bool_decide (p = B "port") then
      if is_some port then Err (Duplicate (B "allow-out port"))
      else i ← port_of n e; Ok (dest, Some i, proto)
    else if bool_decide (p = B "proto") then
      if is_some proto then Err (Duplicate (B "allow-out proto"))
      else
        s ← string_of n e (B "proto must be " ++ quoted (B "tcp") ++ B " or " ++ quoted (B "udp"));
        q ← Proto.from_str s; Ok (dest, port, Some q)
    else Err (unknown_property n p)
  end.

Definition parse_allow_out (n : KdlNode) : result ConfigError AllowOut.t :=
  '(dest, port, proto) ← fold_res (allow_out_entry n) (None, None, None) (n_entries n);
  dest ← ok_or dest (bad n (B "expects exactly one destination argument"));
  Ok (AllowOut.mk dest port proto).

Definition allow_host_entry (n : KdlNode) (st : option HostPattern.t * option Z) (e : KdlEntry) : result ConfigError (option HostPattern.t * option Z) :=
  let '(pattern, port) := st in
  match e_name e with
  | None =>
    if is_some pattern then Err (bad n (B "expects exactly one name argument"))
    else
      s ← string_of n e (B "the name must be a quoted host name");
      p ← map_err (fun reason => bad n (allow_error_text reason)) (HostPattern.parse s); Ok (Some p, port)
  | Some p =>
    if bool_decide (p = B "port") then
      if is_some port then Err (Duplicate (B "allow-host port"))
      else i ← port_of n e; Ok (pattern, Some i)
    else Err (unknown_property n p)
  end.

Definition parse_allow_host (n : KdlNode) : result ConfigError AllowHost.t :=
  '(pattern, port) ← fold_res (allow_host_entry n) (None, None) (n_entries n);
  pattern ← ok_or pattern (bad n (B "expects exactly one name argument"));
  Ok (AllowHost.mk pattern (default AllowHost.DEFAULT_PORT port)).

Definition parse_dns (n : KdlNode) : result ConfigError IpAddr :=
  s ← one_string_arg n; ok_or (ip_from_str s) (bad n (B "expects an IP address such as " ++ quoted (B "1.1.1.1"))).

Definition allow_port_entry (n : KdlNode) (st : option Z * option bool) (e : KdlEntry) : result ConfigError (option Z * option bool) :=
  let '(port, udp) := st in
  match e_name e with
  | None =>
    if is_some port then Err (bad n (B "expects exactly one port argument"))
    else i ← port_of n e; Ok (Some i, udp)
  | Some p =>
    if bool_decide (p = B "udp") then
      if is_some udp then Err (Duplicate (B "allow-port udp"))
      else b ← bool_of n e (B "udp"); Ok (port, Some b)
    else Err (unknown_property n p)
  end.

Definition parse_allow_port (n : KdlNode) : result ConfigError Forward :=
  '(port, udp) ← fold_res (allow_port_entry n) (None, None) (n_entries n);
  port ← ok_or port (bad n (B "expects exactly one port argument"));
  Ok (mkForward port (default false udp)).

(** The mode argument. *)
Definition mode_entry (n : KdlNode) (m : option Mode.t) (e : KdlEntry) : result ConfigError (option Mode.t) :=
  match e_name e with
  | Some p => Err (unknown_property n p)
  | None =>
    if is_some m then Err (bad n (B "expects at most one mode argument"))
    else
      s ← string_of n e (B "mode must be " ++ quoted (B "host") ++ B " or " ++ quoted (B "none"));
      m ← Mode.from_str s; Ok (Some m)
  end.

(** One child, with whether an [outbound] was seen. *)
Definition network_child (st : NetworkConfig * bool) (child : KdlNode) : result ConfigError (NetworkConfig * bool) :=
  let '(cfg, seen) := st in
  let '(mkNetwork m dns fwd no6 ob ao ah) := cfg in
  let name := n_name child in
  _ ← reject_types child;
  _ ← no_children child;
  if bool_decide (name = B "dns") then
    ip ← parse_dns child;
    if is_loopback ip && bool_decide (m = Mode.Isolated) then
      Err (bad child (B "a loopback address is the sandbox's own loopback in an isolated network namespace, not the host's; name a routable resolver, or write `network "
        ++ quoted (B "host") ++ B "`"))
    else if bool_decide (ip ∈ dns) then Err (Duplicate (B "dns " ++ quoted (ip_text ip)))
    else Ok (mkNetwork m (dns ++ [ip]) fwd no6 ob ao ah, seen)
  else if bool_decide (name = B "allow-port") then
    f ← parse_allow_port child;
    if bool_decide (f ∈ fwd) then Err (Duplicate (B "allow-port " ++ decimal (f_port f) ++ (if udp f then B " udp=#true" else [])))
    else Ok (mkNetwork m dns (fwd ++ [f]) no6 ob ao ah, seen)
  else if bool_decide (name = B "no-ipv6") then
    _ ← reject_entries child;
    if no6 then Err (Duplicate (B "no-ipv6")) else Ok (mkNetwork m dns fwd true ob ao ah, seen)
  else if bool_decide (name = B "outbound") then
    if seen then Err (Duplicate (B "outbound"))
    else s ← one_string_arg child; o ← Outbound.from_str s; Ok (mkNetwork m dns fwd no6 o ao ah, true)
  else if bool_decide (name = B "allow-out") then
    a ← parse_allow_out child;
    if bool_decide (a ∈ ao) then Err (Duplicate (B "allow-out " ++ AllowOut.fmt a))
    else Ok (mkNetwork m dns fwd no6 ob (ao ++ [a]) ah, seen)
  else if bool_decide (name = B "allow-host") then
    a ← parse_allow_host child;
    if bool_decide (a ∈ ah) then Err (Duplicate (B "allow-host " ++ AllowHost.fmt a))
    else Ok (mkNetwork m dns fwd no6 ob ao (ah ++ [a]), seen)
  else Err (UnknownNode name).

(** What the children may not say together, or under the mode. *)
Definition network_refusal (cfg : NetworkConfig) (seen_outbound : bool) : option bytes :=
  let isolated := bool_decide (mode cfg = Mode.Isolated) in
  let deny := bool_decide (outbound cfg = Outbound.Deny) in
  let dns := negb (bool_decide (n_dns cfg = [])) in
  let fwd := negb (bool_decide (n_forwards cfg = [])) in
  let outs := negb (bool_decide (allow_out cfg = [])) in
  let hosts := negb (bool_decide (allow_hosts cfg = [])) in
  if bool_decide (mode cfg = Mode.None_) && dns then
    Some (B "`dns` names a resolver the sandbox would have to reach over a network, and `none` grants none")
  else if negb isolated && fwd then
    Some (B "`allow-port` forwards into the sandbox's own network namespace, which `host` and `none` do not have")
  else if negb isolated && no_ipv6 cfg then
    Some (B "`no-ipv6` configures the pasta sidecar, which only the isolated network namespace runs")
  else if negb isolated && (seen_outbound || outs) then
    Some (B "`outbound` filters the sandbox's own network namespace, which `host` and `none` do not have; rules under `host` would land on the host's own ruleset")
  else if negb isolated && hosts then
    Some (B "`allow-host` is reached through a proxy of bubbler's inside the sandbox's own network namespace, which `host` and `none` do not have")
  else if no_ipv6 cfg && (existsb Cidr.is_ipv6 (n_dns cfg) || existsb (fun a => Cidr.is_ipv6 (Cidr.addr (AllowOut.dest a))) (allow_out cfg)) then
    Some (B "`no-ipv6` leaves the sandbox no IPv6 address, so an IPv6 `dns` or `allow-out` under it names something nothing in the sandbox could reach")
  else if negb deny && outs then
    Some (B "`allow-out` names destinations that are only a rule under `outbound " ++ quoted (B "deny") ++ B "`; without it nothing is filtered and nothing is installed")
  else if negb deny && hosts then
    Some (B "`allow-host` names what the sandbox may reach where everything else is refused, so it needs `outbound " ++ quoted (B "deny")
      ++ B "`: without it the name is reachable already and no proxy runs")
  else if hosts && existsb (fun f => f_port f =? PROXY_PORT) (n_forwards cfg) then
    Some (B "`allow-port " ++ decimal PROXY_PORT ++ B "` is the egress proxy's port under `allow-host`: choose another port for the forward")
  else match List.find (fun a => AllowHost.port a =? PROXY_PORT) (allow_hosts cfg) with
       | Some a => Some (B "`allow-host " ++ AllowHost.fmt a ++ B "` names " ++ decimal PROXY_PORT ++
           B ", which is the egress proxy's own port inside the sandbox: name the port the service is served on")
       | None => None
       end.

Definition parse_network (n : KdlNode) : result ConfigError Service.t :=
  m ← fold_res (mode_entry n) None (n_entries n);
  '(cfg, seen) ← fold_res network_child (mkNetwork (default Mode.Isolated m) [] [] false Outbound.Allow [] [], false) (default [] (n_children n));
  match network_refusal cfg seen with
  | Some reason => Err (bad n reason)
  | None => Ok (Service.Network cfg)
  end.
End NetworkNode.

(** ** Switches and modes *)

(** The refusal of a property written twice. *)
Definition twice_written (n : KdlNode) (p : bytes) : ConfigError := Duplicate (n_name n ++ B " " ++ p).

Definition gamepad_entry (n : KdlNode) (st : option bool * option bool) (e : KdlEntry) : result ConfigError (option bool * option bool) :=
  let '(hidraw, uinput) := st in
  match e_name e with
  | None => Err (bad n (B "takes no arguments"))
  | Some p =>
    if bool_decide (p = B "hidraw") then
      if is_some hidraw then Err (twice_written n p) else b ← bool_of n e p; Ok (Some b, uinput)
    else if bool_decide (p = B "uinput") then
      if is_some uinput then Err (twice_written n p) else b ← bool_of n e p; Ok (hidraw, Some b)
    else Err (unknown_property n p)
  end.

Definition parse_gamepad (n : KdlNode) : result ConfigError Service.t :=
  '(hidraw, uinput) ← fold_res (gamepad_entry n) (None, None) (n_entries n);
  _ ← no_children n;
  Ok (Service.Gamepad (default false hidraw) (default false uinput)).

(** The loop of [parse_camera] and [parse_dri], each with one property. *)
Definition one_switch_entry (prop : bytes) (n : KdlNode) (st : option bool) (e : KdlEntry) : result ConfigError (option bool) :=
  match e_name e with
  | None => Err (bad n (B "takes no arguments"))
  | Some p =>
    if bool_decide (p = prop) then
      if is_some st then Err (twice_written n p) else b ← bool_of n e p; Ok (Some b)
    else Err (unknown_property n p)
  end.

Definition parse_camera (n : KdlNode) : result ConfigError Service.t :=
  nodes ← fold_res (one_switch_entry (B "nodes") n) None (n_entries n);
  _ ← no_children n;
  Ok (Service.Camera (default false nodes)).

Definition parse_dri (n : KdlNode) : result ConfigError Service.t :=
  kms ← fold_res (one_switch_entry (B "kms") n) None (n_entries n);
  _ ← no_children n;
  Ok (Service.Dri (default false kms)).

(** The mode argument of [etc], [wayland] and [x11], which can only be ["host"]. *)
Definition host_argument (n : KdlNode) (host : bool) (e : KdlEntry) : result ConfigError unit :=
  if host then Err (bad n (B "expects at most one mode argument"))
  else
    s ← string_of n e (B "mode must be " ++ quoted (B "host"));
    if bool_decide (s = B "host") then Ok tt else Err (bad n (B "expected `host`, got " ++ ticked s)).

Definition etc_entry (n : KdlNode) (host : bool) (e : KdlEntry) : result ConfigError bool :=
  match e_name e with
  | None => _ ← host_argument n host e; Ok true
  | Some p => Err (unknown_property n p)
  end.

Definition parse_etc (n : KdlNode) : result ConfigError EtcMode.t :=
  _ ← no_children n;
  host ← fold_res (etc_entry n) false (n_entries n);
  Ok (if (host : bool) then EtcMode.Host else EtcMode.Allowlist).

Definition wayland_entry (n : KdlNode) (st : bool * option Clipboard.t) (e : KdlEntry) : result ConfigError (bool * option Clipboard.t) :=
  let '(host, clipboard) := st in
  match e_name e with
  | None => _ ← host_argument n host e; Ok (true, clipboard)
  | Some p =>
    if negb (bool_decide (p = B "clipboard")) then Err (unknown_property n p)
    else if is_some clipboard then Err (twice_written n p)
    else
      s ← string_of n e (B "clipboard must be " ++ quoted (B "open"));
      if bool_decide (s = B "open") then Ok (host, Some Clipboard.Open) else Err (bad n (B "expected `open`, got " ++ ticked s))
  end.

Definition parse_wayland (n : KdlNode) : result ConfigError WaylandMode.t :=
  _ ← no_children n;
  '(host, clipboard) ← fold_res (wayland_entry n) (false, None) (n_entries n);
  if (host : bool) then
    if is_some clipboard then Err (bad n (quoted (B "host") ++ B " takes no properties")) else Ok WaylandMode.Host
  else Ok (WaylandMode.Sandboxed (default Clipboard.Paste clipboard)).

(** What names one program on the sandbox's [PATH]. *)
Definition is_wm (s : bytes) : bool :=
  negb (bool_decide (s = [])) && negb (starts_with [DASH] s) && negb (bool_decide (SLASH ∈ s)) && negb (holds_white s || bool_decide (NUL ∈ s)).

Module Window.
Record t := mk { host : bool; geometry_ : option bytes; fullscreen_ : option bool; grab_ : option bool; wm_ : option bytes }.
End Window.

Definition x11_entry (n : KdlNode) (st : Window.t) (e : KdlEntry) : result ConfigError Window.t :=
  let '(Window.mk host geometry fullscreen grab wm) := st in
  match e_name e with
  | None => _ ← host_argument n host e; Ok (Window.mk true geometry fullscreen grab wm)
  | Some p =>
    if bool_decide (p = B "geometry") then
      if is_some geometry then Err (twice_written n p)
      else
        s ← string_of n e (B "geometry must be a string like " ++ quoted (B "1280x720"));
        g ← ok_or (parse_geometry s) (bad n (B "geometry must be `<width>x<height>`, got " ++ ticked s));
        Ok (Window.mk host (Some g) fullscreen grab wm)
    else if bool_decide (p = B "wm") then
      if is_some wm then Err (twice_written n p)
      else
        s ← string_of n e (B "wm must be a string like " ++ quoted (B "twm"));
        if is_wm s then Ok (Window.mk host geometry fullscreen grab (Some s))
        else Err (bad n (B "wm must be one program name: no leading `-`, no `/`, whitespace or NUL, got " ++ ticked s))
    else if bool_decide (p = B "fullscreen") then
      if is_some fullscreen then Err (twice_written n p) else b ← bool_of n e p; Ok (Window.mk host geometry (Some b) grab wm)
    else if bool_decide (p = B "grab") then
      if is_some grab then Err (twice_written n p) else b ← bool_of n e p; Ok (Window.mk host geometry fullscreen (Some b) wm)
    else Err (unknown_property n p)
  end.

Definition parse_x11 (n : KdlNode) : result ConfigError X11Mode.t :=
  _ ← no_children n;
  w ← fold_res (x11_entry n) (Window.mk false None None None None) (n_entries n);
  let '(Window.mk host geometry fullscreen grab wm) := w in
  if host then
    if is_some geometry || is_some fullscreen || is_some grab || is_some wm then Err (bad n (quoted (B "host") ++ B " takes no properties"))
    else Ok X11Mode.Host
  else Ok (X11Mode.Nested (mkNested (default (Config.geometry default_nested) geometry) (default false fullscreen) (default false grab) wm)).

Definition parse_userns (n : KdlNode) : result ConfigError Userns.t := arg ← lone_string n; Userns.from_str arg.
Definition parse_tty (n : KdlNode) : result ConfigError TtyMode := arg ← lone_string n; ok_or (tty_mode arg) (BadArgument (B "tty") (B "expected `pty`, `passthrough` or `none`, got " ++ ticked arg)).

Definition tmp_entry (n : KdlNode) (written : option bytes) (e : KdlEntry) : result ConfigError (option bytes) :=
  match e_name e with
  | Some p =>
    if bool_decide (p = B "size") then s ← string_of n e (B "size must be a string"); Ok (Some s)
    else Err (UnknownProperty (B "tmp") p)
  | None => Err (bad n (B "takes no argument; write `size=" ++ quoted (B "2G") ++ B "`"))
  end.

Definition parse_tmp (n : KdlNode) : result ConfigError Z :=
  _ ← no_children n;
  written ← fold_res (tmp_entry n) None (n_entries n);
  written ← ok_or written (bad n (B "expects `size=" ++ quoted (B "<n>K|M|G") ++ B "`"));
  '(digits, scale) ← ok_or (size_scale written) (bad n (B "expects a decimal number with a `K`, `M` or `G` suffix, e.g. " ++ quoted (B "2G")));
  if starts_with [PLUS] digits then Err (bad n (B "expects a decimal number before the suffix"))
  else
    size ← ok_or (i ← parse_uint U64_MAX digits; checked_mul i scale) (bad n (B "expects a decimal number before the suffix"));
    if size =? 0 then Err (bad n (B "a /tmp of zero bytes is a sandbox with no /tmp"))
    else if size >? TMP_SIZE_MAX then Err (bad n (B "is larger than the 64G bubbler accepts"))
    else Ok size.

(** ** System calls *)

Section SeccompNode.
Context `{SyscallNames}.

Definition syscall_name (n : KdlNode) (s : bytes) : result ConfigError bytes :=
  let plain := negb (bool_decide (s = [])) && forallb (fun b => is_ascii_lower b || is_ascii_digit b || bool_decide (b = UNDERSCORE)) s in
  if negb plain then Err (bad n (B "expects a syscall name such as " ++ quoted (B "keyctl")))
  else
    let numbered := existsb (fun x => bool_decide (x.1 = s)) DEFAULT_ENOSYS_NUMBERED in
    if negb (is_some (syscall_number s)) && negb numbered then Err (bad n (ticked s ++ B " is not a syscall name libseccomp knows"))
    else Ok s.

Definition syscall_names_entry (n : KdlNode) (names : list bytes) (e : KdlEntry) : result ConfigError (list bytes) :=
  match e_name e with
  | Some p => if bool_decide (p = B "errno") then Ok names else Err (unknown_property n p)
  | None => s ← string_of n e (B "expects syscall names as strings"); name ← syscall_name n s; Ok (names ++ [name])
  end.

Definition syscall_names (n : KdlNode) : result ConfigError (list bytes) :=
  names ← fold_res (syscall_names_entry n) [] (n_entries n);
  if bool_decide (names = []) then Err (bad n (B "expects at least one syscall name")) else Ok names.

Definition errno_entry (n : KdlNode) (errno : Errno) (e : KdlEntry) : result ConfigError Errno :=
  if bool_decide (e_name e = Some (B "errno")) then
    match as_string (e_value e) with
    | Some s =>
      if bool_decide (s = B "EPERM") then Ok Eperm
      else if bool_decide (s = B "ENOSYS") then Ok Enosys
      else Err (bad n (B "errno must be " ++ quoted (B "EPERM") ++ B " or " ++ quoted (B "ENOSYS")))
    | None => Err (bad n (B "errno must be " ++ quoted (B "EPERM") ++ B " or " ++ quoted (B "ENOSYS")))
    end
  else Ok errno.

Definition deny_errno (n : KdlNode) : result ConfigError Errno := fold_res (errno_entry n) Eperm (n_entries n).

Definition deny_name (child : KdlNode) (errno : Errno) (cfg : SeccompConfig) (name : bytes) : result ConfigError SeccompConfig :=
  if bool_decide (name = B "prctl") then Err (bad child (B "glibc and Chromium need prctl"))
  else Ok (mkConfig (Seccomp.allow cfg) (Seccomp.deny cfg ++ [(name, errno)]) (disable cfg)).

Definition seccomp_child (cfg : SeccompConfig) (child : KdlNode) : result ConfigError SeccompConfig :=
  _ ← reject_types child;
  _ ← no_children child;
  let name := n_name child in
  if bool_decide (name = B "allow") then
    match head (omap e_name (n_entries child)) with
    | Some p => Err (UnknownProperty (B "allow") p)
    | None => names ← syscall_names child; Ok (mkConfig (Seccomp.allow cfg ++ names) (Seccomp.deny cfg) (disable cfg))
    end
  else if bool_decide (name = B "deny") then
    errno ← deny_errno child; names ← syscall_names child; fold_res (deny_name child errno) cfg names
  else if bool_decide (name = B "disable") then
    _ ← reject_entries child; Ok (mkConfig (Seccomp.allow cfg) (Seccomp.deny cfg) true)
  else Err (UnknownNode name).

Definition parse_seccomp (n : KdlNode) : result ConfigError SeccompConfig :=
  _ ← reject_arguments n; fold_res seccomp_child default_seccomp (default [] (n_children n)).
End SeccompNode.

Definition parse_desktop (n : KdlNode) : result ConfigError bytes :=
  name ← lone_string n;
  if negb (desktop_plain name) || is_some (forbidden_byte name) then
    Err (bad n (B "expects the file name of a desktop entry, such as " ++ quoted (B "org.example.App.desktop")))
  else Ok name.

Definition command_entry (n : KdlNode) (argv : list bytes) (e : KdlEntry) : result ConfigError (list bytes) :=
  match e_name e with
  | Some p => Err (unknown_property n p)
  | None =>
    s ← string_of n e (B "arguments must be strings");
    match forbidden_byte s with
    | Some what => Err (bad n (B "argument " ++ decimal (len argv + 1) ++ B " contains " ++ what))
    | None => Ok (argv ++ [s])
    end
  end.

Definition parse_command (n : KdlNode) : result ConfigError (list bytes) :=
  argv ← fold_res (command_entry n) [] (n_entries n);
  _ ← no_children n;
  if bool_decide (argv = []) then Err (bad n (B "needs at least one argument")) else Ok argv.

(** ** Portals and audio *)

(** [child] under the name of the line-form node. *)
Definition line_form (name : bytes) (child : KdlNode) : KdlNode :=
  mkNode name (n_offset child) (n_ty child) (n_entries child) (n_children child) (n_leading child).

Definition has_entries_or_children (n : KdlNode) : bool := negb (bool_decide (n_entries n = [])) || is_some (n_children n).

Definition portals_child (n : KdlNode) (st : list Portal.t * option (Service.t * Z)) (child : KdlNode)
  : result ConfigError (list Portal.t * option (Service.t * Z)) :=
  let '(children, camera) := st in
  _ ← reject_types child;
  let name := n_name child in
  if bool_decide (name = B "camera") then
    if is_some camera then Err (Duplicate name)
    else c ← parse_camera (line_form (B "camera") child); Ok (children, Some (c, n_offset child))
  else
    match Portal.from_name name with
    | None => Err (bad n (ticked name ++ B " is not a portal; the children are " ++ join (B ", ") (map Portal.node_name Portal.ALL) ++ B " and camera"))
    | Some portal =>
      if has_entries_or_children child then Err (bad n (ticked name ++ B " takes no arguments, properties or children"))
      else if bool_decide (portal ∈ children) then Err (Duplicate name)
      else Ok (children ++ [portal], camera)
    end.

Definition parse_portals (n : KdlNode) : result ConfigError (Service.t * option (Service.t * Z)) :=
  _ ← reject_types n;
  _ ← reject_arguments n;
  match n_children n with
  | None => Ok (Service.Portals [], None)
  | Some kids => '(children, camera) ← fold_res (portals_child n) ([], None) kids; Ok (Service.Portals children, camera)
  end.

Definition audio_child (n : KdlNode) (microphone : bool) (child : KdlNode) : result ConfigError bool :=
  _ ← reject_types child;
  let name := n_name child in
  if negb (bool_decide (name = B "microphone")) then
    Err (bad n (ticked name ++ B " is not a child of " ++ ticked (n_name n) ++ B "; the only child is `microphone`"))
  else if has_entries_or_children child then Err (bad n (B "`microphone` takes no arguments, properties or children"))
  else if microphone then Err (Duplicate (B "microphone"))
  else Ok true.

Definition parse_audio (n : KdlNode) : result ConfigError bool :=
  _ ← reject_types n;
  _ ← reject_arguments n;
  fold_res (audio_child n) false (default [] (n_children n)).

(** ** One node *)

Section One.
Context `{IpText, SyscallNames}.

(** Whether a node has the name [w]. *)
Definition named (n : KdlNode) (w : string) : bool := bool_decide (n_name n = B w).
#[local] Arguments named n w%_string.

(** The arm of the match each name takes. *)
Definition parse_named (n : KdlNode) (profile : bool) : result ConfigError Node.t :=
  let name := n_name n in
  if named n "pipewire" then m ← parse_audio n; Ok (Node.Service (Service.Pipewire m))
  else if named n "pulseaudio" then m ← parse_audio n; Ok (Node.Service (Service.Pulseaudio m))
  else if named n "notify" then _ ← reject_entries n; Ok (Node.Service Service.Notify)
  else if named n "tray" then _ ← reject_entries n; Ok (Node.Service Service.Tray)
  else if named n "hidraw" then _ ← reject_entries n; Ok (Node.Service Service.Hidraw)
  else if named n "a11y" then _ ← reject_entries n; Ok (Node.Service Service.A11y)
  else if named n "input-method" then _ ← reject_entries n; Ok (Node.Service Service.InputMethod)
  else if named n "home-share" then '(p, m, o) ← parse_share (B "path") validate_relative true n; Ok (Node.Service (Service.HomeShare p m o))
  else if named n "path-share" then '(p, m, o) ← parse_share (B "path") validate_absolute true n; Ok (Node.Service (Service.PathShare p m o))
  else if named n "app-runtime" then '(id, m, _) ← parse_share (B "id") validate_app_id false n; Ok (Node.Service (Service.AppRuntime id m))
  else if named n "portals" then '(portals, _) ← parse_portals n; Ok (Node.Service portals)
  else if named n "dri" then s ← parse_dri n; Ok (Node.Service s)
  else if named n "etc-share" then s ← parse_etc_share n; Ok (Node.Service s)
  else if named n "dbus" then s ← parse_dbus n; Ok (Node.Service s)
  else if named n "wayland" then m ← parse_wayland n; Ok (Node.Service (Service.Wayland m))
  else if named n "x11" then m ← parse_x11 n; Ok (Node.Service (Service.X11 m))
  else if named n "network" then s ← parse_network n; Ok (Node.Service s)
  else if named n "gamepad" then s ← parse_gamepad n; Ok (Node.Service s)
  else if named n "camera" then s ← parse_camera n; Ok (Node.Service s)
  else if named n "system-bus" then s ← parse_system_bus n; Ok (Node.Service s)
  else if named n "mpris" then s ← parse_mpris n; Ok (Node.Service s)
  else if named n "etc" then m ← parse_etc n; Ok (Node.Etc m)
  else if named n "tmp" then t ← parse_tmp n; Ok (Node.Tmp t)
  else if named n "tty" then m ← parse_tty n; Ok (Node.Tty m)
  else if named n "userns" then m ← parse_userns n; Ok (Node.Userns m)
  else if named n "seccomp" then s ← parse_seccomp n; Ok (Node.Seccomp s)
  else if named n "env" then pairs ← parse_env n; Ok (Node.Env pairs)
  else if named n "lint-allow" then a ← parse_lint_allow n; Ok (Node.LintAllow [a])
  else if named n "include" then
    Err (bad n (if profile then B "cannot be turned off: it names a layer rather than granting anything"
                else B "include is only valid in profiles"))
  else if named n "desktop" then d ← parse_desktop n; Ok (Node.Desktop d)
  else if named n "command" then argv ← parse_command n; Ok (Node.Command argv)
  else Err (UnknownNode name).

Definition parse_one (n : KdlNode) (profile : bool) : result ConfigError Node.t :=
  _ ← reject_types n;
  if negb (bool_decide (n_name n ∈ NODES)) && negb (bool_decide (n_name n = B "include")) then Err (UnknownNode (n_name n))
  else parse_named n profile.

(** ** Blocks *)

Definition ENV_CHILD : bytes := B "an env child is one KEY " ++ quoted (B "value") ++ B " pair: exactly one string argument".

(** A child of a repeatable block as the line-form node it stands for. *)
Definition block_line (n : KdlNode) (out : list KdlNode) (child : KdlNode) : result ConfigError (list KdlNode) :=
  _ ← reject_types child;
  let line := line_form (n_name n) child in
  let with_entries es := mkNode (n_name line) (n_offset line) (n_ty line) es (n_children line) (n_leading line) in
  if bool_decide (n_name n = B "env") then
    match n_entries child with
    | [e] =>
      match e_name e, as_string (e_value e) with
      | None, Some value => Ok (out ++ [with_entries [mkEntry (Some (n_name child)) (KString value) false]])
      | _, _ => Err (bad n ENV_CHILD)
      end
    | _ => Err (bad n ENV_CHILD)
    end
  else Ok (out ++ [with_entries (mkEntry None (KString (n_name child)) false :: n_entries child)]).

Definition parse_repeatable_block (n : KdlNode) : result ConfigError (option (list KdlNode)) :=
  if negb (bool_decide (n_name n ∈ REPEATABLE)) then Ok None
  else match n_children n with
       | None => Ok None
       | Some kids =>
         _ ← reject_types n;
         if negb (bool_decide (n_entries n = [])) then Err (bad n (B "takes an argument or children, not both"))
         else out ← fold_res (block_line n) [] kids; Ok (Some out)
       end.

Definition parse_line (profile : bool) (out : list (Node.t * Z)) (line : KdlNode) : result ConfigError (list (Node.t * Z)) :=
  one ← parse_one line profile; Ok (out ++ [(one, n_offset line)]).

(** Everything a top-level node grants, each with the offset it was written at. *)
Definition parse_node (n : KdlNode) (profile : bool) : result ConfigError (list (Node.t * Z)) :=
  blk ← parse_repeatable_block n;
  match blk with
  | Some lines => fold_res (parse_line profile) [] lines
  | None =>
    if bool_decide (n_name n = B "portals") && is_some (n_children n) then
      '(portals, camera) ← parse_portals n;
      Ok ((Node.Service portals, n_offset n) :: match camera with Some (c, offset) => [(Node.Service c, offset)] | None => [] end)
    else one ← parse_one n profile; Ok [(one, n_offset n)]
  end.
End One.
