(* ===== verification/ConfigDoc.v ===== *)
(** A whole configuration as it is read: [parse_doc] of
    [crates/bubbler-core/src/config.rs], with the kept [/-] lines between its nodes, the
    duplicates it refuses, the grants that need one another, and the line of every grant. *)
From S2P Require Export ConfigParse.

(** [slice::sort_by_key], which is stable. *)
Section Sort.
Context {A : Type} (key : A -> Z).

Fixpoint insert_by (a : A) (l : list A) : list A :=
  match l with
  | [] => [a]
  | b :: l' => if key a <=? key b then a :: l else b :: insert_by a l'
  end.

Fixpoint sort_by_key (l : list A) : list A :=
  match l with [] => [] | a :: l => insert_by a (sort_by_key l) end.
End Sort.

(** [Vec::resize]. *)
Definition resize {A} (n : Z) (a : A) (l : list A) : list A := upto l n ++ replicate (Z.to_nat (n - len l)) a.

Module Lines.
Record t := mk { services : list (option Z); env : list (option Z); userns : option Z; seccomp : option Z }.
Definition default_ : t := mk [] [] None None.
End Lines.

(** A configuration with one field set. *)
Definition with_services (c : InstanceConfig) x : InstanceConfig := mkInstance x (shares c) (command c) (env c) (etc c) (tmp c) (tty c) (seccomp c) (userns c) (lint_allows c) (desktop c) (disabled c).
Definition with_command (c : InstanceConfig) x : InstanceConfig := mkInstance (services c) (shares c) x (env c) (etc c) (tmp c) (tty c) (seccomp c) (userns c) (lint_allows c) (desktop c) (disabled c).
Definition with_env (c : InstanceConfig) x : InstanceConfig := mkInstance (services c) (shares c) (command c) x (etc c) (tmp c) (tty c) (seccomp c) (userns c) (lint_allows c) (desktop c) (disabled c).
Definition with_etc (c : InstanceConfig) x : InstanceConfig := mkInstance (services c) (shares c) (command c) (env c) x (tmp c) (tty c) (seccomp c) (userns c) (lint_allows c) (desktop c) (disabled c).
Definition with_tmp (c : InstanceConfig) x : InstanceConfig := mkInstance (services c) (shares c) (command c) (env c) (etc c) x (tty c) (seccomp c) (userns c) (lint_allows c) (desktop c) (disabled c).
Definition with_tty (c : InstanceConfig) x : InstanceConfig := mkInstance (services c) (shares c) (command c) (env c) (etc c) (tmp c) x (seccomp c) (userns c) (lint_allows c) (desktop c) (disabled c).
Definition with_seccomp (c : InstanceConfig) x : InstanceConfig := mkInstance (services c) (shares c) (command c) (env c) (etc c) (tmp c) (tty c) x (userns c) (lint_allows c) (desktop c) (disabled c).
Definition with_userns (c : InstanceConfig) x : InstanceConfig := mkInstance (services c) (shares c) (command c) (env c) (etc c) (tmp c) (tty c) (seccomp c) x (lint_allows c) (desktop c) (disabled c).
Definition with_lint_allows (c : InstanceConfig) x : InstanceConfig := mkInstance (services c) (shares c) (command c) (env c) (etc c) (tmp c) (tty c) (seccomp c) (userns c) x (desktop c) (disabled c).
Definition with_desktop (c : InstanceConfig) x : InstanceConfig := mkInstance (services c) (shares c) (command c) (env c) (etc c) (tmp c) (tty c) (seccomp c) (userns c) (lint_allows c) x (disabled c).
Definition with_disabled (c : InstanceConfig) x : InstanceConfig := mkInstance (services c) (shares c) (command c) (env c) (etc c) (tmp c) (tty c) (seccomp c) (userns c) (lint_allows c) (desktop c) x.

Section Doc.
Context `{IpText, SyscallNames, Kdl}.

Definition parse_document (text : bytes) : result ConfigError KdlDocument := _ ← check_bounds text; kdl_parse text.

(** ** Kept lines *)

Definition disabled_node (profile : bool) (at_ : Counts.t) (out : list Disabled) (n : KdlNode) : result ConfigError (list Disabled) :=
  ps ← parse_node n profile; Ok (out ++ map (fun p => mkDisabled p.1 (Counts.before at_ p.1)) ps).

Definition disabled_in (text : bytes) (profile : bool) (at_ : Counts.t) : result ConfigError (list Disabled) :=
  if bool_decide (slashdash_marks text = []) then Ok []
  else doc ← parse_document (bare text); fold_res (disabled_node profile at_) [] (d_nodes doc).

(** ** The nodes of a file, one after another *)

Record St := mkSt { s_cfg : InstanceConfig; s_lines : Lines.t; s_includes : list bytes; seen_tty : bool; seen_userns : bool; seen_etc : bool; seen_seccomp : bool }.

Definition with_cfg (st : St) (c : InstanceConfig) : St :=
  mkSt c (s_lines st) (s_includes st) (seen_tty st) (seen_userns st) (seen_etc st) (seen_seccomp st).

Definition add_env (cfg : InstanceConfig) (kv : bytes * bytes) : result ConfigError InstanceConfig :=
  if existsb (fun held => bool_decide (held.1 = kv.1)) (env cfg) then Err (Duplicate kv.1) else Ok (with_env cfg (env cfg ++ [kv])).

Definition add_lint_allow (cfg : InstanceConfig) (a : LintAllow) : result ConfigError InstanceConfig :=
  if existsb (fun held => bool_decide (check_id held = check_id a)) (lint_allows cfg) then Err (Duplicate (B "lint-allow " ++ quoted (check_id a)))
  else Ok (with_lint_allows cfg (lint_allows cfg ++ [a])).

(** What one node adds to the configuration. *)
Definition add_node (st : St) (n : Node.t) : result ConfigError St :=
  let cfg := s_cfg st in
  let dup : result ConfigError St := Err (Duplicate (Node.name n)) in
  match n with
  | Node.Service svc => l ← grant (services cfg) svc; Ok (with_cfg st (with_services cfg l))
  | Node.Env pairs => c ← fold_res add_env cfg pairs; Ok (with_cfg st c)
  | Node.LintAllow allows => c ← fold_res add_lint_allow cfg allows; Ok (with_cfg st c)
  | Node.Etc m =>
    if seen_etc st then dup
    else Ok (mkSt (with_etc cfg m) (s_lines st) (s_includes st) (seen_tty st) (seen_userns st) true (seen_seccomp st))
  | Node.Tmp size => if bool_decide (tmp cfg <> None) then dup else Ok (with_cfg st (with_tmp cfg (Some size)))
  | Node.Tty m =>
    if seen_tty st then dup
    else Ok (mkSt (with_tty cfg m) (s_lines st) (s_includes st) true (seen_userns st) (seen_etc st) (seen_seccomp st))
  | Node.Userns m =>
    if seen_userns st then dup
    else Ok (mkSt (with_userns cfg m) (s_lines st) (s_includes st) (seen_tty st) true (seen_etc st) (seen_seccomp st))
  | Node.Seccomp s =>
    if seen_seccomp st then dup
    else Ok (mkSt (with_seccomp cfg s) (s_lines st) (s_includes st) (seen_tty st) (seen_userns st) (seen_etc st) true)
  | Node.Desktop d => if bool_decide (desktop cfg <> None) then dup else Ok (with_cfg st (with_desktop cfg (Some d)))
  | Node.Command argv => if bool_decide (command cfg <> None) then dup else Ok (with_cfg st (with_command cfg (Some argv)))
  end.

(** The line of what a node granted. *)
Definition place (text name : bytes) (offset : Z) (st : St) : St :=
  let cfg := s_cfg st in
  let ls := s_lines st in
  let grew := (len (Lines.services ls) <? len (services cfg)) || (len (Lines.env ls) <? len (env cfg)) in
  let userns := bool_decide (name = B "userns") in
  let seccomp := bool_decide (name = B "seccomp") in
  if grew || (userns || seccomp) then
    let line := ConfigScan.line_at text offset in
    let ls := Lines.mk (resize (len (services cfg)) line (Lines.services ls)) (resize (len (env cfg)) line (Lines.env ls))
                (if userns then line else Lines.userns ls) (if seccomp then line else Lines.seccomp ls) in
    mkSt cfg ls (s_includes st) (seen_tty st) (seen_userns st) (seen_etc st) (seen_seccomp st)
  else st.

Definition doc_part (text : bytes) (st : St) (part : Node.t * Z) : result ConfigError St :=
  st ← add_node st part.1; Ok (place text (Node.name part.1) part.2 st).

Definition keep (st : St) (found : list Disabled) : St := with_cfg st (with_disabled (s_cfg st) (disabled (s_cfg st) ++ found)).

Definition doc_node (text : bytes) (profile : bool) (st : St) (n : KdlNode) : result ConfigError St :=
  st ← match n_leading n with
       | Some leading => found ← disabled_in leading profile (Counts.of_ (s_cfg st)); Ok (keep st found)
       | None => Ok st
       end;
  if bool_decide (n_name n = B "include") then
    _ ← reject_types n;
    if negb profile then Err (bad n (B "include is only valid in profiles"))
    else
      name ← parse_include n;
      Ok (mkSt (s_cfg st) (s_lines st) (s_includes st ++ [name]) (seen_tty st) (seen_userns st) (seen_etc st) (seen_seccomp st))
  else parts ← parse_node n profile; fold_res (doc_part text) st parts.

(** What is left under the last node. *)
Definition doc_tail (profile : bool) (doc : KdlDocument) (st : St) : result ConfigError St :=
  match d_format doc with
  | None => Ok st
  | Some (leading, trailing) =>
    found ← disabled_in (if bool_decide (d_nodes doc = []) then leading else trailing) profile (Counts.of_ (s_cfg st));
    Ok (keep st found)
  end.

(** The grants that need one another, checked on an instance's own file. *)
Definition check_needs (profile : bool) (l : list Service.t) : result ConfigError unit :=
  if profile then Ok tt
  else match bundle_without_dbus l with
       | Some n => Err (BadArgument n (B "requires dbus"))
       | None =>
         if camera_without_portals l then Err (BadArgument (B "camera") (B "requires portals"))
         else if nested_x11_without_display_stack l then Err (BadArgument (B "x11") (B "requires wayland and dri"))
         else Ok tt
       end.

Definition start_ : St := mkSt default_config Lines.default_ [] false false false false.

Definition parse_doc (text : bytes) (profile : bool) : result ConfigError (RawProfile * Lines.t) :=
  doc ← parse_document text;
  st ← fold_res (doc_node text profile) start_ (d_nodes doc);
  st ← doc_tail profile doc st;
  let cfg := s_cfg st in
  let cfg := with_disabled cfg (sort_by_key (fun d => section_rank (Config.node d)) (disabled cfg)) in
  _ ← check_needs profile (services cfg);
  Ok (mkRaw cfg (s_includes st) (seen_tty st) (seen_userns st) (seen_etc st), s_lines st).

Definition parse (text : bytes) : result ConfigError InstanceConfig := r ← parse_doc text false; Ok (config r.1).
Definition node_lines (text : bytes) : result ConfigError Lines.t := r ← parse_doc text false; Ok r.2.
Definition parse_profile (text : bytes) : result ConfigError RawProfile := r ← parse_doc text true; Ok r.1.
End Doc.
