(* ===== verification/AudioPolicy.v ===== *)
(** The WirePlumber policy that scopes an audio grant (bubbler-core/src/audio_policy.rs): where
    the two files are looked for, which of them a host misses or holds in another version,
    and what a run is told of it.

    The files themselves are embedded from [contrib/wireplumber] when bubbler is built:
    [PolicyFiles] stands for them. *)
From S2P Require Export Host ConfigDoc.

Class PolicyFiles := { DROP_IN : bytes; HOOK : bytes }.

Definition DROP_IN_NAME : bytes := B "50-bubbler.conf".
Definition HOOK_NAME : bytes := B "bubbler/refuse-links.lua".
Definition DATA_DIR : bytes := B "/usr/share".
Definition SYSCONF_DIR : bytes := B "/etc".

(** [dirs.contains(&dir)], which compares paths by their components. *)
Definition push_dir (sub : bytes) (dirs : list bytes) (base : bytes) : list bytes :=
  let dir := Path.join base sub in if existsb (Path.eqb dir) dirs then dirs else dirs ++ [dir].

Definition install_dirs (env : Env) : list bytes :=
  fold_left (push_dir (B "wireplumber/wireplumber.conf.d")) (config_home env :: config_dirs env ++ SYSCONF_DIR :: data_dirs env ++ [DATA_DIR]) [].

Definition hook_dirs (env : Env) : list bytes :=
  fold_left (push_dir (B "wireplumber/scripts")) (data_home env :: data_dirs env ++ [DATA_DIR]) [].

(** The instance's audio grant: whether the microphone is in it. *)
Definition audio_step (set : option bool) (svc : Service.t) : option bool :=
  match svc with
  | Service.Pipewire m | Service.Pulseaudio m => Some (default false set || m)
  | _ => set
  end.
Definition audio (cfg : InstanceConfig) : option bool := fold_left audio_step (services cfg) None.

Module Missing.
Inductive t := DropIn | Hook | Both.
#[global] Instance eq_dec : EqDecision t.
Proof. solve_decision. Defined.

Definition run_warning (m : t) : bytes :=
  match m with
  | DropIn => B "audio policy drop-in not found (50-bubbler.conf): the sandbox has full access to every PipeWire node (microphone and every other client's audio reachable)"
  | Hook => B "audio policy hook script not found (bubbler/refuse-links.lua): another client's stream and the sink's monitor are recordable"
  | Both => B "audio policy drop-in and hook script not found (50-bubbler.conf, bubbler/refuse-links.lua): the sandbox has full access to every PipeWire node (microphone and every other client's audio reachable)"
  end.

Definition explain_suffix (m : t) : bytes :=
  match m with
  | DropIn => B " (policy drop-in 50-bubbler.conf not found: microphone reachable)"
  | Hook => B " (policy hook script bubbler/refuse-links.lua not found: another client's audio recordable)"
  | Both => B " (policy drop-in 50-bubbler.conf and hook script bubbler/refuse-links.lua not found: microphone reachable)"
  end.
End Missing.

Definition EXPLAIN_SUFFIX_DIFFERS : bytes :=
  B " (policy files 50-bubbler.conf and bubbler/refuse-links.lua differ from this bubbler's: grant not enforced as documented)".

(** ** What a shell is given *)

Definition is_plain_byte (b : byte) : bool := is_ascii_alphanumeric b || bool_decide (b ∈ B "_@%+=:,./-").
Definition APOSTROPHE : byte := Init.Byte.x27.

(** [text.replace('\'', r"'\''")]. *)
Definition escape_quote (b : byte) : bytes := if bool_decide (b = APOSTROPHE) then B "'\''" else [b].

Definition shell_word (p : bytes) : bytes :=
  let text := Path.display p in
  if negb (bool_decide (text = [])) && forallb is_plain_byte text then text
  else APOSTROPHE :: concat (map escape_quote text) ++ [APOSTROPHE].

Definition differs_message (paths : list bytes) : bytes :=
  B "audio policy differs from this bubbler's in " ++ join (B " and ") (map Path.display paths) ++
  B ": under an older policy a sandbox can claim the microphone grant for itself".

(** [Path::ends_with]. *)
Definition path_ends_with (p tail : bytes) : bool := Bytes.starts_with (List.rev (components tail)) (List.rev (components p)).

Definition first_dir (l : list bytes) : bytes := match l with d :: _ => d | [] => [] end.

Definition differs_step (env : Env) (p : bytes) : bytes :=
  let is_hook := path_ends_with p HOOK_NAME in
  let script := if is_hook then B " --script" else [] in
  if Path.starts_with p (config_home env) || Path.starts_with p (data_home env) then
    B "`bubbler audio-policy --print" ++ script ++ B " > " ++ shell_word p ++ B "`"
  else if Path.starts_with p DATA_DIR then B "update the package that installed " ++ Path.display p
  else
    let user_copy := if is_hook then Path.join (first_dir (hook_dirs env)) HOOK_NAME else Path.join (first_dir (install_dirs env)) DROP_IN_NAME in
    B "`mkdir -p " ++ shell_word (default [] (Path.parent user_copy)) ++ B " && bubbler audio-policy --print" ++ script ++ B " > " ++
    shell_word user_copy ++ B "`, which outranks " ++ Path.display p.

Definition differs_help (paths : list bytes) (env : Env) : bytes :=
  join (B " and ") (map (differs_step env) paths) ++
  B ", then `systemctl --user restart wireplumber`; a copy edited on purpose is accepted with `lint-allow " ++ quoted DIFFERS_CHECK ++
  B " reason=" ++ quoted (B "...") ++ B "`".

(** ** What the host holds *)

Section Probe.
Context `{Host} `{PolicyFiles}.

(** The first of the directories that holds the file. *)
Definition first_holding (name : bytes) (dirs : list bytes) : option bytes :=
  head (List.filter (fun p => is_some (file_type p)) (map (fun dir => Path.join dir name) dirs)).

Definition installed (env : Env) : option bytes := first_holding DROP_IN_NAME (install_dirs env).
Definition hook_installed (env : Env) : option bytes := first_holding HOOK_NAME (hook_dirs env).

Definition readable (p : option bytes) : bool := match p with Some p => is_some (Host.read p) | None => false end.

Definition missing (env : Env) : option Missing.t :=
  match readable (installed env), readable (hook_installed env) with
  | true, true => None
  | false, true => Some Missing.DropIn
  | true, false => Some Missing.Hook
  | false, false => Some Missing.Both
  end.

Definition differs (x : option bytes * bytes) : option bytes :=
  p ← x.1; text ← Host.read p; if bool_decide (text = x.2) then None else Some p.

Definition differing (env : Env) : list bytes := omap differs [(installed env, DROP_IN); (hook_installed env, HOOK)].

Definition run_warning (cfg : InstanceConfig) (env : Env) : option bytes :=
  _ ← audio cfg;
  let missing := Missing.run_warning <$> missing env in
  let accepted := existsb (fun a => bool_decide (check_id a = DIFFERS_CHECK)) (lint_allows cfg) in
  let paths := if accepted then [] else differing env in
  let differs := if bool_decide (paths = []) then None else Some (differs_message paths ++ B "; " ++ differs_help paths env) in
  match missing, differs with
  | Some m, Some d => Some (m ++ B "; " ++ d)
  | Some m, None => Some m
  | None, d => d
  end.

Definition explain_suffix (env : Env) : bytes :=
  match missing env with
  | Some m => Missing.explain_suffix m
  | None => if bool_decide (differing env = []) then [] else EXPLAIN_SUFFIX_DIFFERS
  end.
End Probe.

(** ** What is promised *)

(** What a POSIX shell reads as one word, up to a blank, and what follows it. *)
Fixpoint sh_word (quoted_ : bool) (l : bytes) : option (bytes * bytes) :=
  match l with
  | [] => if quoted_ then None else Some ([], [])
  | b :: l' =>
    if bool_decide (b = APOSTROPHE) then sh_word (negb quoted_) l'
    else if quoted_ then '(w, r) ← sh_word true l'; Some (b :: w, r)
    else if bool_decide (b = BACKSLASH) then
      match l' with c :: l'' => '(w, r) ← sh_word false l''; Some (c :: w, r) | [] => None end
    else if bool_decide (b = SPACE) then Some ([], l)
    else if is_plain_byte b then '(w, r) ← sh_word false l'; Some (b :: w, r)
    else None
  end.

Lemma plain_not_special b : is_plain_byte b = true -> b <> APOSTROPHE /\ b <> BACKSLASH /\ b <> SPACE.
Proof. destruct b; by vm_compute. Qed.

Lemma sh_plain text rest : forallb is_plain_byte text = true -> sh_word false (text ++ SPACE :: rest) = Some (text, SPACE :: rest).
Proof.
  induction text as [|b text IH]; [reflexivity|]. cbn [forallb app sh_word]. intros [Hb Ht]%andb_true_iff. destruct (plain_not_special b Hb) as (H1 & H2 & H3).
  rewrite !bool_decide_false by done. by rewrite Hb, (IH Ht).
Qed.

Lemma sh_quoted text rest : sh_word true (concat (map escape_quote text) ++ APOSTROPHE :: SPACE :: rest) = Some (text, SPACE :: rest).
Proof.
  induction text as [|b text IH]; [reflexivity|]. cbn [map concat]. unfold escape_quote at 1. case_bool_decide as Hb; cbn [app sh_word].
  - subst b. change (B "'\''") with [APOSTROPHE; BACKSLASH; APOSTROPHE; APOSTROPHE]. cbn [app sh_word negb]. by rewrite IH.
  - rewrite bool_decide_false by done. by rewrite IH.
Qed.

(** A path in a command bubbler prints is read by the shell it is pasted into as that
    path, whatever characters it holds. *)
Theorem shell_reads_the_path p rest : sh_word false (shell_word p ++ SPACE :: rest) = Some (Path.display p, SPACE :: rest).
Proof.
  unfold shell_word. destruct (negb _ && forallb _ _) eqn:E.
  - apply andb_true_iff in E as [_ E]. by apply sh_plain.
  - cbn [app]. rewrite <-app_assoc. cbn [app sh_word negb]. rewrite bool_decide_true by done. apply sh_quoted.
Qed.

Section Warning.
Context `{Host} `{PolicyFiles}.

(** The policy is the one this binary embeds, in both its files. *)
Definition in_force (env : Env) : Prop :=
  (exists p, installed env = Some p /\ Host.read p = Some DROP_IN) /\ (exists p, hook_installed env = Some p /\ Host.read p = Some HOOK).
Definition loaded (env : Env) : Prop :=
  (exists p, installed env = Some p /\ Host.read p <> None) /\ (exists p, hook_installed env = Some p /\ Host.read p <> None).

Lemma readable_spec o : readable o = true <-> exists p, o = Some p /\ Host.read p <> None.
Proof.
  unfold readable. destruct o as [p|]; [|split; [done|by intros (p & ? & _)]]. destruct (Host.read p) eqn:E; cbn; split; try done.
  - intros _. exists p. by rewrite E.
  - intros (q & [= <-] & Hq). congruence.
Qed.

Lemma missing_none env : missing env = None <-> loaded env.
Proof. unfold missing, loaded. rewrite <-!readable_spec. destruct (readable (installed env)), (readable (hook_installed env)); split; try done; by intros [? ?]. Qed.

Lemma differs_none o text : (exists p, o = Some p /\ Host.read p <> None) -> differs (o, text) = None <-> exists p, o = Some p /\ Host.read p = Some text.
Proof.
  intros (p & -> & Hp). unfold differs. cbn [fst snd mbind option_bind]. destruct (Host.read p) as [t|] eqn:E; [|done]. cbn [mbind option_bind]. case_bool_decide as Ht.
  - subst t. split; [intros _; by exists p|done].
  - split; [done|]. intros (q & [= <-] & Hq). congruence.
Qed.

Lemma differing_none env : loaded env -> differing env = [] <-> in_force env.
Proof.
  intros [Hd Hh]. unfold differing, in_force. rewrite <-(differs_none _ DROP_IN Hd), <-(differs_none _ HOOK Hh). cbn [omap list_omap].
  destruct (differs (installed env, DROP_IN)), (differs (hook_installed env, HOOK)); split; try done; by intros [? ?].
Qed.

Lemma audio_none cfg : audio cfg = None <-> Forall (fun s => forall m, s <> Service.Pipewire m /\ s <> Service.Pulseaudio m) (services cfg).
Proof.
  unfold audio. generalize (services cfg). intros l. assert (forall o, fold_left audio_step l o = None <-> o = None /\ Forall (fun s => forall m, s <> Service.Pipewire m /\ s <> Service.Pulseaudio m) l) as Hl.
  { induction l as [|s l IH]; intros o; cbn [fold_left]; [split; [by intros ->|by intros [-> _]]|]. rewrite IH, Forall_cons. destruct s; cbn [audio_step]; naive_solver. }
  rewrite Hl. naive_solver.
Qed.

(** A run that grants audio is warned unless the host loads both files of the policy, and
    either they are this bubbler's or the configuration accepts that they are not; nothing
    accepts that one is missing, and a run that grants none is never warned. *)
Theorem audio_run_is_warned cfg env :
  run_warning cfg env = None <->
  audio cfg = None \/ in_force env \/ loaded env /\ exists a, a ∈ lint_allows cfg /\ check_id a = DIFFERS_CHECK.
Proof.
  unfold run_warning. destruct (audio cfg) as [m|]; [|cbn; split; [by left|done]]. cbn [mbind option_bind].
  assert (in_force env -> loaded env) as Hl by (intros [(p & Hp & Rp) (q & Hq & Rq)]; split; [exists p|exists q]; split; congruence).
  assert (existsb (fun a => bool_decide (check_id a = DIFFERS_CHECK)) (lint_allows cfg) = true <-> exists a, a ∈ lint_allows cfg /\ check_id a = DIFFERS_CHECK) as Ha.
  { rewrite existsb_exists. setoid_rewrite bool_decide_eq_true. by setoid_rewrite list_elem_of_In. }
  destruct (missing env) as [c|] eqn:Em.
  - assert (~ loaded env) as Hn by (intros Hx%missing_none; congruence). cbn. split; [by case_match|]. intros [?|[?|[? _]]]; [done| |done]. by apply Hl in H1.
  - apply missing_none in Em. pose proof (differing_none env Em) as Hd. rewrite <-Hd, <-Ha. destruct (existsb _ _); cbn [fmap option_fmap option_map].
    + rewrite bool_decide_true by done. split; [|done]. intros _. by right; right.
    + case_bool_decide; split; try done; [intros _; right; by left|]. intros [?|[?|[_ ?]]]; congruence.
Qed.
End Warning.

Section Demo.
#[local] Instance demo_policy_host : Host :=
  {| file_type _ := Some FileType.File; list_dir _ := []; canonicalize p := Some p; is_mountpoint _ := None; writable _ := false; read_link _ := Ok None;
     Host.read p := Some (B "old"); current_exe := None |}.
#[local] Instance demo_policy_files : PolicyFiles := {| DROP_IN := B "new"; HOOK := B "old" |}.
Definition demo_home : Env := mkEnv (B "/home/u") (B "/home/u/.local/share") (B "/home/u/.config") DEFAULT_CONFIG_DIRS DEFAULT_DATA_DIRS (B "/run/user/1000") 1000 1000
  None None None [] None None None None false false false None None None None None None.

Example differing_demo : differing demo_home = [B "/home/u/.config/wireplumber/wireplumber.conf.d/50-bubbler.conf"].
Proof. reflexivity. Qed.
End Demo.
