(* ===== verification/ConfigWf.v ===== *)
(** What a configuration holds once it was read: every value of every node passed its
    check, no two grants are of the same thing, and the kept lines are in order. *)
From S2P Require Export NetworkSpec ConfigDoc.

(** ** Well-formed values *)

(** The children of a network say nothing that cannot apply. *)
Record network_meant (cfg : NetworkConfig) : Prop := {
  m_none : mode cfg = Mode.None_ -> n_dns cfg = [];
  m_shared : mode cfg <> Mode.Isolated -> cfg = mkNetwork (mode cfg) (n_dns cfg) [] false Outbound.Allow [] [];
  m_isolated : mode cfg = Mode.Isolated -> Forall (fun a => is_loopback a = false) (n_dns cfg);
  m_filtered : allow_out cfg <> [] \/ allow_hosts cfg <> [] -> outbound cfg = Outbound.Deny;
  m_ipv6 : no_ipv6 cfg = true ->
    Forall (fun a => Cidr.is_ipv6 a = false) (n_dns cfg) /\ Forall (fun a => Cidr.is_ipv6 (Cidr.addr (AllowOut.dest a)) = false) (allow_out cfg);
  m_proxy : allow_hosts cfg <> [] ->
    Forall (fun f => f_port f <> PROXY_PORT) (n_forwards cfg) /\ Forall (fun a => AllowHost.port a <> PROXY_PORT) (allow_hosts cfg);
  m_once : NoDup (n_dns cfg) /\ NoDup (n_forwards cfg) /\ NoDup (allow_out cfg) /\ NoDup (allow_hosts cfg) }.

(** A piece of a path: no slash, and neither empty nor one of the two dots. *)
Definition piece (s : bytes) : Prop := s <> [] /\ s <> B "." /\ s <> B ".." /\ SLASH ∉ s.
Definition pieces (p : path) : Prop := exists l, p = map Normal l /\ Forall piece l.

Definition rule_wf (r : BusRule.t) : Prop :=
  match r with
  | BusRule.See n | BusRule.Talk n | BusRule.Own n => is_bus_name n = true
  | BusRule.Call n rule | BusRule.Broadcast n rule => is_bus_name n = true /\ rule <> [] /\ holds_white rule = false /\ NUL ∉ rule
  end.

Record rules_wf (rules : list BusRule.t) : Prop := {
  each_rule : Forall rule_wf rules;
  one_policy : forall r1 r2 name l1 l2, r1 ∈ rules -> r2 ∈ rules ->
    BusRule.policy r1 = Some (name, l1) -> BusRule.policy r2 = Some (name, l2) -> l1 = l2 }.

Definition service_wf (s : Service.t) : Prop :=
  match s with
  | Service.X11 (X11Mode.Nested x) =>
    (exists w h, 0 < w <= U32_MAX /\ 0 < h <= U32_MAX /\ geometry x = decimal w ++ B "x" ++ decimal h) /\
    match wm x with Some w => is_wm w = true | None => True end
  | Service.Network cfg => network_wf cfg /\ network_meant cfg
  | Service.HomeShare p _ _ => p <> [] /\ pieces p
  | Service.PathShare p _ _ => exists q, p = RootDir :: q /\ pieces q
  | Service.EtcShare name => piece name /\ name ∉ RESERVED_ETC
  | Service.AppRuntime id _ => is_valid_app_id id = true
  | Service.Dbus rules => rules_wf rules
  | Service.SystemBus rules => rules_wf rules /\ rules <> [] /\ forall n, BusRule.Own n ∉ rules
  | Service.Portals children => NoDup children
  | Service.Mpris name => is_name_glob name 1 = true
  | _ => True
  end.

Definition pair_wf (kv : bytes * bytes) : Prop := is_env_key kv.1 = true /\ kv.1 ∉ RESERVED_ENV /\ forbidden_byte kv.2 = None.
Definition allow_wf (a : LintAllow) : Prop :=
  (exists severity, check (check_id a) = Some (check_id a, severity) /\ severity <> Severity.Error) /\
  all_white (reason a) = false /\ forbidden_byte (reason a) = None.
(** A size is a whole number of kibibytes. *)
Definition size_wf (size : Z) : Prop := 0 < size <= TMP_SIZE_MAX /\ size mod 1024 = 0.
Definition desktop_wf (name : bytes) : Prop := desktop_plain name = true /\ forbidden_byte name = None.
Definition argv_wf (argv : list bytes) : Prop := argv <> [] /\ Forall (fun a => forbidden_byte a = None) argv.

Section Known.
Context `{SyscallNames}.

(** A plain identifier that libseccomp or the table of the denylist has a number for. *)
Definition plain_call (name : bytes) : Prop :=
  name <> [] /\ forallb (fun b => is_ascii_lower b || is_ascii_digit b || bool_decide (b = UNDERSCORE)) name = true.
Definition known (name : bytes) : Prop :=
  plain_call name /\ ((exists nr, syscall_number name = Some nr) \/ exists nr, (name, nr) ∈ DEFAULT_ENOSYS_NUMBERED).
Definition seccomp_wf (cfg : SeccompConfig) : Prop :=
  Forall known (Seccomp.allow cfg) /\ Forall (fun d => known d.1 /\ d.1 <> B "prctl") (Seccomp.deny cfg).

Definition node_wf (n : Node.t) : Prop :=
  match n with
  | Node.Service s => service_wf s
  | Node.Env pairs => pairs <> [] /\ Forall pair_wf pairs /\ NoDup pairs.*1
  | Node.LintAllow allows => exists a, allows = [a] /\ allow_wf a
  | Node.Tmp size => size_wf size
  | Node.Seccomp cfg => seccomp_wf cfg
  | Node.Desktop name => desktop_wf name
  | Node.Command argv => argv_wf argv
  | Node.Etc _ | Node.Tty _ | Node.Userns _ => True
  end.
End Known.

(** ** Reading a parser backwards *)

Ltac parsed :=
  repeat (inv_ok; match goal with
    | Hp : (match ?x with _ => _ end) = Ok _ |- _ => let E := fresh "E" in destruct x eqn:E; try discriminate Hp
    | Hp : (match ?x with _ => _ end) = Some _ |- _ => let E := fresh "E" in destruct x eqn:E; try discriminate Hp
    end); inv_ok; bool_to_prop; subst.

(** Closed tests of names. *)
Ltac names_in :=
  repeat match goal with
  | |- context [bool_decide (B ?x = B ?y)] =>
      let b := eval vm_compute in (bool_decide (B x = B y)) in change (bool_decide (B x = B y)) with b
  | |- context [bool_decide (Some (B ?x) = Some (B ?y))] =>
      let b := eval vm_compute in (bool_decide (Some (B x) = Some (B y))) in change (bool_decide (Some (B x) = Some (B y))) with b
  end; cbn iota.

(** What every turn of the loop of a parser keeps. *)
Ltac loop_inv P HF := match goal with Hl : fold_res _ _ _ = Ok _ |- _ => rename Hl into HF; apply (fold_res_inv P) in HF end.

(** ** Shares *)

Lemma split_on_no sep l : Forall (fun s => sep ∉ s) (split_on sep l).
Proof. apply Forall_forall. intros w. apply split_on_no_sep. Qed.

Lemma component_of_piece first s c : SLASH ∉ s -> component_of first s = Some (Normal c) -> piece c.
Proof.
  unfold component_of. intros Hs Hc. repeat (case_bool_decide; [by destruct first|]). by injection Hc as <-.
Qed.

Lemma normal_pieces p : Forall (fun c => forall s, c = Normal s -> piece s) p -> forallb is_normal p = true -> pieces p.
Proof.
  induction 1 as [|c p Hc _ IH]; cbn [forallb]; [by exists []|]. intros [Hn Hp]%andb_true_iff.
  destruct (IH Hp) as (l & -> & Hl). destruct c as [| | |s]; try discriminate Hn. exists (s :: l). split; [done|]. constructor; [by apply Hc|done].
Qed.

Lemma components_normal s : Forall (fun c => forall n, c = Normal n -> piece n) (components s).
Proof.
  unfold components. pose proof (split_on_no SLASH s) as Hs. destruct (split_on SLASH s) as [|p ps]; [done|].
  inversion_clear Hs as [|? ? Hp Hps]. apply Forall_app. split.
  - case_bool_decide; [case_bool_decide; repeat constructor; discriminate|].
    destruct (component_of true p) eqn:Ec; [|constructor]. constructor; [|constructor]. intros n ->. by eapply component_of_piece.
  - induction Hps as [|q ps Hq _ IH]; cbn [omap list_omap]; [constructor|].
    destruct (component_of false q) eqn:Ec; [|exact IH]. constructor; [|exact IH]. intros n ->. by eapply component_of_piece.
Qed.

Lemma components_nonempty s : s <> [] -> components s <> [].
Proof.
  intros Hs Hc. unfold components in Hc. pose proof (join_split SLASH s) as Hj. destruct (split_on SLASH s) as [|q qs]; [by rewrite <-Hj in Hs|].
  apply app_eq_nil in Hc as [Hc _]. case_bool_decide.
  - case_bool_decide; [|done]. subst q qs. by rewrite <-Hj in Hs.
  - unfold component_of in Hc. rewrite bool_decide_false in Hc by done. by repeat case_bool_decide.
Qed.

Lemma relative_wf n s p : validate_relative n s = Ok p -> p <> [] /\ pieces p.
Proof.
  unfold validate_relative. intros Hv. parsed. split; [by apply components_nonempty|]. by apply normal_pieces; [apply components_normal|].
Qed.

Lemma absolute_wf n s p : validate_absolute n s = Ok p -> exists q, p = RootDir :: q /\ pieces q.
Proof.
  unfold validate_absolute. intros Hv. pose proof (components_normal s) as Hn. parsed. eexists. split; [done|].
  inversion_clear Hn. by apply normal_pieces.
Qed.

Lemma share_value {T} (P : T -> Prop) what validate allow n v m o :
  (forall s t, validate n s = Ok t -> P t) -> parse_share what validate allow n = Ok (v, m, o) -> P v /\ (allow = false -> o = false).
Proof.
  intros Hv. unfold parse_share. intros Hp. inv_ok. destruct r as [[value mode] optional]. parsed.
  assert (match Some v with Some t => P t | None => True end /\ (allow = false -> o = false)) as Hi; [|exact Hi].
  loop_inv (fun st : option T * ShareMode.t * bool => match st.1.1 with Some t => P t | None => True end /\ (allow = false -> st.2 = false)) HF;
    [exact HF|..|done].
  intros [[value mode] optional] e [[value' mode'] optional'] _ Hst He. unfold share_entry in He. cbn [fst snd] in *. parsed; try exact Hst.
  - split; [apply Hst|done].
  - split; [by eapply Hv|by apply Hst].
Qed.

Lemma etc_share_wf n s : parse_etc_share n = Ok s -> service_wf s.
Proof.
  unfold parse_etc_share. intros Hp. inv_ok.
  loop_inv (fun st => match st with Some name => piece name /\ name ∉ RESERVED_ETC | None => True end) HF; [by parsed|..|done].
  intros st e st' _ _ He. unfold etc_share_entry in He. parsed. 
  match goal with Hc : components ?w = _ |- _ => pose proof (components_normal w) as Hn; rewrite Hc in Hn end.
  inversion_clear Hn as [|? ? Hs _]. split; [by apply Hs|]. intros Hin.
  match goal with Hf : List.find _ _ = None |- _ => eapply List.find_none in Hf; [|by apply list_elem_of_In] end. bool_to_prop. done.
Qed.

(** ** Rules of a bus *)

Lemma bus_name_ok n s name : bus_name n s = Ok name -> name = s /\ is_bus_name name = true.
Proof. unfold bus_name. intros Hb. by parsed. Qed.

Lemma bus_rule_wf n own child r : bus_rule_of n own child = Ok r -> rule_wf r /\ (own = false -> forall name, r <> BusRule.Own name).
Proof.
  unfold bus_rule_of. intros Hr. parsed; repeat match goal with Hb : bus_name _ _ = Ok _ |- _ => apply bus_name_ok in Hb as [-> Hb] end;
    repeat case_bool_decide; cbn [rule_wf]; repeat split; try done.
  intros ->. naive_solver.
Qed.

Lemma policy_clash_none rules rule : policy_clash rules rule = None -> forall name level r l, BusRule.policy rule = Some (name, level) ->
  r ∈ rules -> BusRule.policy r = Some (name, l) ->
  (exists r0 l0, List.find (fun x => bool_decide (x.1 = name)) (omap BusRule.policy rules) = Some (r0, l0) /\ l0 = level).
Proof.
  intros Hc name level r l Hr Hin Hp. unfold policy_clash in Hc. rewrite Hr in Hc. cbn in Hc.
  destruct (List.find _ _) as [[m was]|] eqn:Ef.
  - exists m, was. split; [done|]. cbn in Hc. by case_bool_decide.
  - assert ((name, l) ∈ omap BusRule.policy rules) as Hm by (apply list_elem_of_omap; by exists r).
    eapply List.find_none in Ef; [|by apply list_elem_of_In]. cbn in Ef. by rewrite bool_decide_true in Ef.
Qed.

(** The first policy a name has is the one every other rule for it has. *)
Lemma one_policy_snoc rules rule :
  (forall r1 r2 name l1 l2, r1 ∈ rules -> r2 ∈ rules -> BusRule.policy r1 = Some (name, l1) -> BusRule.policy r2 = Some (name, l2) -> l1 = l2) ->
  policy_clash rules rule = None ->
  forall r1 r2 name l1 l2, r1 ∈ rules ++ [rule] -> r2 ∈ rules ++ [rule] ->
    BusRule.policy r1 = Some (name, l1) -> BusRule.policy r2 = Some (name, l2) -> l1 = l2.
Proof.
  intros Hone Hc.
  assert (forall r name l level, r ∈ rules -> BusRule.policy r = Some (name, l) -> BusRule.policy rule = Some (name, level) -> l = level) as Hnew.
  { intros r name l level Hin Hr Hp. destruct (policy_clash_none _ _ Hc _ _ _ _ Hp Hin Hr) as (m & was & Hf & ->).
    apply List.find_some in Hf as [Hm Hn]. cbn in Hn. bool_to_prop. subst m.
    apply list_elem_of_In, list_elem_of_omap in Hm as (r' & Hin' & Hr'). exact (Hone r r' name l level Hin Hin' Hr Hr'). }
  intros r1 r2 name l1 l2 [H1|H1%list_elem_of_singleton]%elem_of_app [H2|H2%list_elem_of_singleton]%elem_of_app Hp1 Hp2; subst.
  - by eapply (Hone r1 r2).
  - by eapply Hnew.
  - symmetry. by eapply Hnew.
  - congruence.
Qed.

Lemma parse_bus_rules_wf n own rules : parse_bus_rules n own = Ok rules ->
  rules_wf rules /\ (own = false -> forall name, BusRule.Own name ∉ rules).
Proof.
  unfold parse_bus_rules. intros Hp.
  assert (rules_wf [] /\ (own = false -> forall name, BusRule.Own name ∉ [])) as H0.
  { split; [split; [done|]|]; intros; by match goal with Hn : _ ∈ [] |- _ => apply elem_of_nil in Hn | |- _ ∉ [] => apply not_elem_of_nil end. }
  parsed; [|exact H0].
  loop_inv (fun rules => rules_wf rules /\ (own = false -> forall name, BusRule.Own name ∉ rules)) HF; [exact HF|..|exact H0].
  intros rs child rs' _ [[Hr Ho] Hown] Hs. unfold bus_rule_step in Hs. parsed.
  match goal with Hb : bus_rule_of _ _ _ = Ok _ |- _ => apply bus_rule_wf in Hb as [Hb Hnot] end. split; [split|].
  - apply Forall_app. by split; [|constructor].
  - by apply one_policy_snoc.
  - intros Hf name [?|He%list_elem_of_singleton]%elem_of_app; [by eapply Hown|]. by eapply Hnot.
Qed.

Lemma mpris_wf n s : parse_mpris n = Ok s -> service_wf s.
Proof.
  unfold parse_mpris. intros Hp. inv_ok.
  loop_inv (fun st => match st with Some name => is_name_glob name 1 = true | None => True end) HF; [by parsed|..|done].
  intros st e st' _ _ He. unfold mpris_entry in He. by parsed.
Qed.

(** ** Acceptances and the environment *)

Lemma lint_allow_wf n a : parse_lint_allow n = Ok a -> allow_wf a.
Proof.
  unfold parse_lint_allow. intros Hp. parsed. unfold allow_wf. cbn. split; [|done]. unfold check in *.
  match goal with Hf : List.find _ _ = Some ?c |- _ => exists c.2; pose proof (List.find_some _ _ Hf) as [_ Hc] end. cbn in Hc. bool_to_prop. subst. done.
Qed.

Lemma parse_env_wf n pairs : parse_env n = Ok pairs -> pairs <> [] /\ Forall pair_wf pairs /\ NoDup pairs.*1.
Proof.
  unfold parse_env. intros Hp. parsed. rename E into Hne. split.
  - destruct (n_entries n) as [|e es]; [done|]. clear Hne.
    assert (forall es out out', out <> [] -> fold_res (env_entry n) out es = Ok out' -> out' <> []) as Hk.
    { clear. intros es out out' Ho Hf. refine (fold_res_inv (fun out => out <> []) _ _ _ _ _ Ho Hf).
      intros s a s' _ _ Ha. unfold env_entry in Ha. parsed. by destruct s. }
    match goal with Hl : fold_res _ _ (e :: es) = Ok _ |- _ => cbn [fold_res] in Hl; destruct (env_entry n [] e) as [o|] eqn:Ee; [|done]; apply Hk in Hl end; [done|].
    unfold env_entry in Ee. by parsed.
  - loop_inv (fun out : list (bytes * bytes) => Forall pair_wf out /\ NoDup out.*1) HF; [exact HF|..|by repeat constructor].
    intros out e out' _ [Hw Hn] He. unfold env_entry in He. parsed. split.
    + apply Forall_app. split; [done|]. constructor; [|constructor]. by unfold pair_wf.
    + rewrite fmap_app. apply NoDup_snoc; [done|]. by apply key_absent.
Qed.

(** ** The network *)

Section NetworkWf.
Context `{IpText, !IpTextLaws}.

Lemma port_of_wf n e p : port_of n e = Ok p -> port_wf p.
Proof.
  unfold port_of, port_wf. intros Hp. inv_ok. destruct (as_integer _) as [i|]; [|done]. cbn in Hp. destruct ((1 <=? i) && _) eqn:E; inv_ok. lia.
Qed.

Lemma parse_dns_wf n a : parse_dns n = Ok a -> ip_wf a.
Proof. unfold parse_dns. intros Hp. inv_ok. by eapply ip_from_wf. Qed.

Definition out_wf (a : AllowOut.t) : Prop := cidr_wf (AllowOut.dest a) /\ match AllowOut.port a with Some p => port_wf p | None => True end.

Lemma parse_allow_out_wf n a : parse_allow_out n = Ok a -> out_wf a.
Proof.
  unfold parse_allow_out. intros Hp. inv_ok. destruct r as [[dest port] proto]. parsed.
  loop_inv (fun st : option Cidr.t * option Z * option Proto.t =>
    match st.1.1 with Some c => cidr_wf c | None => True end /\ match st.1.2 with Some p => port_wf p | None => True end) HF; [exact HF|..|done].
  intros [[d p] q] e [[d' p'] q'] _ Hst He. unfold allow_out_entry in He. cbn [fst snd] in *. parsed; try exact Hst.
  - split; [apply Hst|]. by eapply port_of_wf.
  - split; [|apply Hst]. by eapply cidr_read.
Qed.

Lemma parse_allow_host_wf n a : parse_allow_host n = Ok a -> host_wf a.
Proof.
  unfold parse_allow_host. intros Hp. inv_ok. destruct r as [p port]. parsed.
  loop_inv (fun st : option HostPattern.t * option Z =>
    match st.1 with Some p => wf_pattern p /\ len (HostPattern.fmt p) <= 253 | None => True end /\
    match st.2 with Some p => port_wf p | None => True end) HF; [|..|done].
  - destruct HF as [[Hw Hl] Hn]. split; [done|]. split; [done|]. cbn in *. destruct port; [done|]. unfold port_wf, AllowHost.DEFAULT_PORT, U16_MAX. cbn. lia.
  - intros [d p'] e [d' p''] _ Hst He. unfold allow_host_entry in He. cbn [fst snd] in *. parsed; try exact Hst.
    + split; [apply Hst|]. by eapply port_of_wf.
    + split; [|apply Hst].
      match goal with Hm : map_err _ (HostPattern.parse ?s) = Ok _ |- _ => destruct (HostPattern.parse s) eqn:Eh; [|done]; cbn in Hm; inv_ok end.
      split; [by eapply parse_wf|]. pose proof (fmt_len _ _ Eh). apply parse_iff in Eh as [? _]. lia.
Qed.

Lemma parse_allow_port_wf n f : parse_allow_port n = Ok f -> port_wf (f_port f).
Proof.
  unfold parse_allow_port. intros Hp. inv_ok. destruct r as [p u]. parsed.
  loop_inv (fun st : option Z * option bool => match st.1 with Some p => port_wf p | None => True end) HF; [exact HF|..|done].
  intros [d p'] e [d' p''] _ Hst He. unfold allow_port_entry in He. cbn [fst snd] in *. parsed; try exact Hst. by eapply port_of_wf.
Qed.

(** What holds of the network between two children. *)
Record net_inv (m : Mode.t) (st : NetworkConfig * bool) : Prop := {
  i_mode : mode st.1 = m;
  i_wf : network_wf st.1;
  i_loop : m = Mode.Isolated -> Forall (fun a => is_loopback a = false) (n_dns st.1);
  i_once : NoDup (n_dns st.1) /\ NoDup (n_forwards st.1) /\ NoDup (allow_out st.1) /\ NoDup (allow_hosts st.1);
  i_seen : st.2 = false -> outbound st.1 = Outbound.Allow }.

Lemma network_child_inv m st child st' : net_inv m st -> network_child st child = Ok st' -> net_inv m st'.
Proof.
  intros [Hm [Wd Wf Wo Wh] Hl (Nd & Nf & No & Nh) Hs] Hc. destruct st as [[m0 dns fwd no6 ob ao ah] seen]. cbn in Hm. subst m0. unfold network_child in Hc.
  cbn in *. destruct (reject_types child); [|done]. destruct (no_children child); [|done]. cbn [mbind result_bind] in Hc.
  parsed; (split; [reflexivity|split|..]); cbn; try done; try (apply Forall_app; split; [done|]; constructor; [|constructor]).
  all: try (by eapply parse_dns_wf); try (by eapply parse_allow_out_wf); try (by eapply parse_allow_host_wf); try (by eapply parse_allow_port_wf).
  - intros ->. apply Forall_app. split; [by apply Hl|]. constructor; [|constructor].
    match goal with Hb : _ && _ = false |- _ => rewrite bool_decide_true, andb_true_r in Hb by done; exact Hb end.
  - split_and!; [|done..]. by apply NoDup_snoc.
  - split_and!; [done| |done..]. by apply NoDup_snoc.
  - split_and!; [done|done| |done]. by apply NoDup_snoc.
  - split_and!; [done..|]. by apply NoDup_snoc.
Qed.
End NetworkWf.

Section NetworkMeant.
Context `{IpText, !IpTextLaws}.

Lemma forall_of_existsb {A} (f : A -> bool) (P : A -> Prop) l : (forall a, f a = false -> P a) -> existsb f l = false -> Forall P l.
Proof. intros Hf He. apply Forall_forall. intros a Ha. apply Hf. by apply (proj1 (existsb_none f l) He). Qed.

Lemma and_false (a b : bool) : a && b = false -> a = true -> b = false.
Proof. intros Hab ->. exact Hab. Qed.

Lemma not_empty {A} `{EqDecision A} (l : list A) : negb (bool_decide (l = [])) = false -> l = [].
Proof. intros. by bool_to_prop. Qed.

(** The tests of [network_refusal], as implications. *)
Lemma refusal_none cfg seen : network_refusal cfg seen = None ->
  let isolated := bool_decide (mode cfg = Mode.Isolated) in
  let deny := bool_decide (outbound cfg = Outbound.Deny) in
  (mode cfg = Mode.None_ -> n_dns cfg = []) /\
  (isolated = false -> n_forwards cfg = [] /\ no_ipv6 cfg = false /\ seen = false /\ allow_out cfg = [] /\ allow_hosts cfg = []) /\
  (no_ipv6 cfg = true -> existsb Cidr.is_ipv6 (n_dns cfg) = false /\ existsb (fun a => Cidr.is_ipv6 (Cidr.addr (AllowOut.dest a))) (allow_out cfg) = false) /\
  (deny = false -> allow_out cfg = [] /\ allow_hosts cfg = []) /\
  (allow_hosts cfg <> [] -> existsb (fun f => f_port f =? PROXY_PORT) (n_forwards cfg) = false) /\
  List.find (fun a => AllowHost.port a =? PROXY_PORT) (allow_hosts cfg) = None.
Proof.
  intros Hr isolated deny. unfold network_refusal in Hr. fold isolated deny in Hr.
  repeat match type of Hr with (if ?b then Some _ else _) = None => destruct b eqn:?; [discriminate Hr|] end.
  destruct (List.find _ _) eqn:Hf; [discriminate Hr|]. clear Hr.
  repeat match goal with Hb : ?a && ?b = false |- _ => pose proof (and_false a b Hb); clear Hb end.
  split; [|split; [|split; [|split; [|split; [|done]]]]].
  - intros Hm. apply not_empty. rewrite bool_decide_true in * by done. auto.
  - intros Hi. rewrite Hi in *. cbn [negb] in *. assert (seen || negb (bool_decide (allow_out cfg = [])) = false) as Hs by auto.
    apply orb_false_iff in Hs as [-> Ha]. split_and!; try (by apply not_empty; auto); auto.
  - intros Hn. assert (existsb Cidr.is_ipv6 (n_dns cfg) || existsb (fun a => Cidr.is_ipv6 (Cidr.addr (AllowOut.dest a))) (allow_out cfg) = false) as Hv by auto.
    by apply orb_false_iff in Hv.
  - intros Hd. rewrite Hd in *. split; apply not_empty; auto.
  - intros Hh. rewrite bool_decide_false in * by done. auto.
Qed.

Lemma refusal_meant m cfg seen : net_inv m (cfg, seen) -> network_refusal cfg seen = None -> network_meant cfg.
Proof.
  intros [Hm _ Hl Ho Hs] (Rn & Ri & R6 & Rd & Rh & Rp)%refusal_none. cbn [fst snd] in *. subst m. split; try done.
  - intros Hi. destruct Ri as (Hf & H6 & -> & Ha & Hh); [by apply bool_decide_eq_false_2|]. specialize (Hs eq_refl). destruct cfg; cbn in *; by subst.
  - intros Hn. destruct (decide (outbound cfg = Outbound.Deny)) as [|Hd]; [done|]. destruct Rd as [Ha Hh]; [by apply bool_decide_eq_false_2|].
    rewrite Ha, Hh in Hn. by destruct Hn.
  - intros H6. destruct (R6 H6) as [Hd Ha]. split; [by apply (forall_of_existsb Cidr.is_ipv6)|].
    by apply (forall_of_existsb (fun a => Cidr.is_ipv6 (Cidr.addr (AllowOut.dest a)))).
  - intros Hn. split; [apply (forall_of_existsb (fun f => f_port f =? PROXY_PORT)); [intros f; lia|by apply Rh]|]. apply Forall_forall. intros a Ha.
    eapply List.find_none in Rp; [|by apply list_elem_of_In]. cbn in Rp. lia.
Qed.

Lemma parse_network_wf n s : parse_network n = Ok s -> service_wf s.
Proof.
  unfold parse_network. intros Hp. inv_ok. destruct r0 as [cfg seen]. parsed.
  assert (net_inv (default Mode.Isolated r) (cfg, seen)) as Hi.
  { match goal with Hc : fold_res network_child _ _ = Ok _ |- _ => refine (fold_res_inv _ _ _ _ _ _ _ Hc) end.
    - intros st c st' _. apply network_child_inv.
    - split; cbn; try done; try (by repeat split; constructor). }
  split; [apply Hi|]. by eapply refusal_meant.
Qed.
End NetworkMeant.

(** ** The display, sizes and words *)

Lemma digits_positive l acc : 0 < acc -> forallb is_ascii_digit l = true -> 0 < fold_left (fun acc b => 10 * acc + digit_val b) l acc.
Proof.
  revert acc. induction l as [|b l IH]; intros acc Ha; cbn [fold_left forallb]; [done|].
  intros [Hb Hl]%andb_true_iff. apply IH; [|done]. unfold is_ascii_digit, digit_val in *. lia.
Qed.

Lemma positive_range s w : positive s = Some w -> 0 < w <= U32_MAX.
Proof.
  unfold positive. intros Hp. destruct (forallb is_ascii_digit s) eqn:Hd; [|done]. destruct (starts_with (B "0") s) eqn:Hs; [done|]. cbn [andb negb] in Hp.
  pose proof (parse_uint_range _ _ _ Hp). split; [|lia].
  destruct s as [|b s]; [done|]. rewrite parse_uint_digits in Hp by done. destruct (digits_val (b :: s) <=? U32_MAX); inv_ok.
  unfold digits_val. cbn [fold_left forallb] in *. apply andb_true_iff in Hd as [Hb Hd]. apply digits_positive; [|done].
  assert (u8 b <> 48); [|unfold is_ascii_digit, digit_val in *; lia]. intros H48. by rewrite (u8_inj b Init.Byte.x30 H48) in Hs.
Qed.

Lemma parse_geometry_wf s g : parse_geometry s = Some g ->
  exists w h, 0 < w <= U32_MAX /\ 0 < h <= U32_MAX /\ g = decimal w ++ B "x" ++ decimal h.
Proof.
  unfold parse_geometry. intros Hp. destruct (Cidr.split_once _ s) as [[w h]|]; [|done]. cbn in Hp.
  destruct (positive w) as [w'|] eqn:Ew; [|done]. destruct (positive h) as [h'|] eqn:Eh; [|done]. cbn in Hp. injection Hp as <-.
  exists w', h'. split; [by eapply positive_range|]. split; [by eapply positive_range|done].
Qed.

Lemma parse_x11_wf n m : parse_x11 n = Ok m -> service_wf (Service.X11 m).
Proof.
  unfold parse_x11. intros Hp. inv_ok. destruct r0 as [host g f gr w]. destruct host; [by parsed|]. inv_ok. cbn.
  loop_inv (fun st => match Window.geometry_ st with
      | Some g => exists w h, 0 < w <= U32_MAX /\ 0 < h <= U32_MAX /\ g = decimal w ++ B "x" ++ decimal h | None => True end /\
    match Window.wm_ st with Some w => is_wm w = true | None => True end) HF; [|..|done].
  - destruct HF as [Hg Hw]. cbn in *. split; [|done]. destruct g; [done|]. exists 1280, 720. split; [unfold U32_MAX; lia|]. split; [unfold U32_MAX; lia|done].
  - intros [h1 g1 f1 gr1 w1] e [h2 g2 f2 gr2 w2] _ Hst He. unfold x11_entry in He. cbn in *. parsed; try exact Hst.
    + split; [|apply Hst]. by eapply parse_geometry_wf.
    + by split; [apply Hst|].
Qed.

Lemma size_scale_kib s ds scale : size_scale s = Some (ds, scale) -> 0 < scale /\ scale mod 1024 = 0.
Proof. unfold size_scale. intros Hs. destruct (last s); [|done]. repeat case_bool_decide; by inv_ok. Qed.

Lemma parse_tmp_wf n t : parse_tmp n = Ok t -> size_wf t.
Proof.
  unfold parse_tmp. intros Hp. parsed. unfold size_wf.
  match goal with Hs : size_scale _ = Some _ |- _ => apply size_scale_kib in Hs as [Hs Hk] end.
  match goal with Hd : _ ≫= _ = Some t |- _ => destruct (parse_uint U64_MAX _) eqn:Eu; [|done]; cbn in Hd; apply parse_uint_range in Eu; unfold checked_mul in Hd end.
  parsed. split; [nia|]. rewrite Z.mul_mod, Hk, Z.mul_0_r by lia. done.
Qed.

Lemma parse_desktop_wf n name : parse_desktop n = Ok name -> desktop_wf name.
Proof. unfold parse_desktop. intros Hp. parsed. unfold desktop_wf. split; [done|]. by destruct (forbidden_byte _). Qed.

Lemma parse_command_wf n argv : parse_command n = Ok argv -> argv_wf argv.
Proof.
  unfold parse_command. intros Hp. parsed. split; [done|].
  loop_inv (Forall (fun a => forbidden_byte a = None)) HF; [done|..|done].
  intros st e st' _ Hst He. unfold command_entry in He. parsed. apply Forall_app. split; [done|]. by constructor.
Qed.

(** ** System calls *)

Section SeccompWf.
Context `{SyscallNames}.

Lemma syscall_name_known n s name : syscall_name n s = Ok name -> known name.
Proof.
  unfold syscall_name. intros Hp. parsed. unfold known. split; [by split|].
  match goal with Hb : _ && _ = false |- _ => apply andb_false_iff in Hb as [Hb|Hb] end; bool_to_prop.
  - left. destruct (syscall_number name) as [nr|]; [by exists nr|done].
  - right. match goal with Hb : existsb _ _ = true |- _ => apply existsb_spec in Hb as ([m nr] & Hin & Hm) end. cbn in Hm. bool_to_prop. subst m. by exists nr.
Qed.

Lemma syscall_names_known n names : syscall_names n = Ok names -> Forall known names.
Proof.
  unfold syscall_names. intros Hp. parsed. loop_inv (Forall known) HF; [done|..|done].
  intros st e st' _ Hst He. unfold syscall_names_entry in He. parsed; [done|]. apply Forall_app. split; [done|]. constructor; [by eapply syscall_name_known|done].
Qed.

Lemma parse_seccomp_wf n cfg : parse_seccomp n = Ok cfg -> seccomp_wf cfg.
Proof.
  unfold parse_seccomp. intros Hp. inv_ok.
  refine (fold_res_inv seccomp_wf _ _ _ _ _ _ Hp); [|by split].
  intros st c st' _ [Ha Hd] Hc. unfold seccomp_child in Hc. parsed.
  - split; [|done]. cbn. apply Forall_app. split; [done|]. by eapply syscall_names_known.
  - match goal with Hn : syscall_names _ = Ok _ |- _ => apply syscall_names_known in Hn; rename Hn into Hk end.
    refine (fold_res_inv seccomp_wf _ _ _ _ _ _ Hc); [|by split].
    intros s name s' Hin [Ha' Hd'] Hs. unfold deny_name in Hs. parsed. split; [done|]. cbn. apply Forall_app. split; [done|].
    rewrite Forall_forall in Hk. constructor; [|done]. split; [by apply Hk|done].
  - by split.
Qed.
End SeccompWf.

Lemma portals_wf n s c : parse_portals n = Ok (s, c) -> service_wf s /\ match c with Some (svc, _) => exists b, svc = Service.Camera b | None => True end.
Proof.
  unfold parse_portals. intros Hp. parsed; [|by split; [constructor|]].
  loop_inv (fun st : list Portal.t * option (Service.t * Z) => NoDup st.1 /\
    match st.2 with Some (svc, _) => exists b, svc = Service.Camera b | None => True end) HF; [exact HF|..|by split; [constructor|]].
  intros [ch cam] k [ch' cam'] _ [Hn Hc] Hk. unfold portals_child in Hk. cbn [fst snd] in *. parsed.
  - split; [done|]. match goal with Hcam : parse_camera _ = Ok _ |- _ => unfold parse_camera in Hcam end. parsed. by eexists.
  - split; [|done]. by apply NoDup_snoc.
Qed.

(** ** One node *)

Section NodeWf.
Context `{IpText, !IpTextLaws, SyscallNames}.

Lemma app_id_wf n id m o : parse_share (B "id") validate_app_id false n = Ok (id, m, o) -> is_valid_app_id id = true.
Proof.
  intros Hs. eapply (share_value (fun id => is_valid_app_id id = true)); [|exact Hs]. intros s t Hv. unfold validate_app_id in Hv. by parsed.
Qed.

Lemma parse_named_wf n profile x : parse_named n profile = Ok x -> node_wf x.
Proof.
  unfold parse_named. intros Hp.
  repeat match type of Hp with (if ?b then _ else _) = _ => destruct b; [|] | Err _ = _ => discriminate Hp end; inv_ok; try exact I.
  - destruct r as [[v m] o]. inv_ok. eapply (share_value (fun p => p <> [] /\ pieces p)); [|exact E]. intros s t. apply relative_wf.
  - destruct r as [[v m] o]. inv_ok. eapply (share_value (fun p => exists q, p = RootDir :: q /\ pieces q)); [|exact E]. intros s t. apply absolute_wf.
  - destruct r as [[v m] o]. inv_ok. by eapply app_id_wf.
  - destruct r as [s c]. inv_ok. by eapply portals_wf.
  - unfold parse_dri in E. parsed. exact I.
  - by eapply etc_share_wf.
  - unfold parse_dbus in E. inv_ok. by eapply parse_bus_rules_wf.
  - by eapply parse_x11_wf.
  - by eapply parse_network_wf.
  - unfold parse_gamepad in E. inv_ok. destruct r0. inv_ok. exact I.
  - unfold parse_camera in E. parsed. exact I.
  - unfold parse_system_bus in E. parsed. 
    match goal with Hb : parse_bus_rules _ _ = Ok _ |- _ => apply parse_bus_rules_wf in Hb as [Hw Ho] end. split; [done|]. split; [done|]. by apply Ho.
  - by eapply mpris_wf.
  - by eapply parse_tmp_wf.
  - by eapply parse_seccomp_wf.
  - by eapply parse_env_wf.
  - eexists. split; [done|]. by eapply lint_allow_wf.
  - by eapply parse_desktop_wf.
  - by eapply parse_command_wf.
Qed.

Lemma parse_one_wf n profile x : parse_one n profile = Ok x -> node_wf x.
Proof. unfold parse_one. intros Hp. parsed; by eapply parse_named_wf. Qed.

(** Every part of a top-level node is well formed. *)
Lemma parse_node_wf n profile ps : parse_node n profile = Ok ps -> Forall (fun p => node_wf p.1) ps.
Proof.
  unfold parse_node. intros Hp. inv_ok. destruct r as [lines|].
  - refine (fold_res_inv (Forall (fun p => node_wf p.1)) _ _ _ _ _ _ Hp); [|done].
    intros st l st' _ Hst Hl. unfold parse_line in Hl. inv_ok. apply Forall_app. split; [done|]. constructor; [|done]. by eapply parse_one_wf.
  - destruct (_ && _).
    + inv_ok. destruct r as [s c]. inv_ok. apply portals_wf in E0 as [Hs Hc]. constructor; [exact Hs|].
      destruct c as [[svc o]|]; [|constructor]. destruct Hc as [b ->]. by repeat constructor.
    + inv_ok. constructor; [|done]. by eapply parse_one_wf.
Qed.
End NodeWf.

(** ** A whole configuration *)

Definition option_wf {A} (P : A -> Prop) (o : option A) : Prop := match o with Some a => P a | None => True end.

(** The order of the kept lines: by section, and down a section by their place in it. *)
Definition kept_order (d1 d2 : Disabled) : Prop :=
  section_rank (Config.node d1) < section_rank (Config.node d2) \/
  (section_rank (Config.node d1) = section_rank (Config.node d2) /\ before d1 <= before d2).

Section Wf.
Context `{SyscallNames}.

Record cfg_wf (cfg : InstanceConfig) : Prop := {
  c_services : Forall service_wf (services cfg);
  c_once : ForallOrdPairs (fun held svc => Same.twice svc held = false) (services cfg);
  c_env : Forall pair_wf (env cfg) /\ NoDup (map fst (env cfg));
  c_lints : Forall allow_wf (lint_allows cfg) /\ NoDup (map check_id (lint_allows cfg));
  c_tmp : option_wf size_wf (tmp cfg);
  c_seccomp : seccomp_wf (seccomp cfg);
  c_desktop : option_wf desktop_wf (desktop cfg);
  c_command : option_wf argv_wf (command cfg);
  c_shares : shares cfg = [] }.

(** A kept line is a node that would have been read, at a place its section has. *)
Definition kept_wf (cfg : InstanceConfig) (d : Disabled) : Prop :=
  node_wf (Config.node d) /\ 0 <= before d <= Counts.before (Counts.of_ cfg) (Config.node d).
End Wf.

(** What an instance's own file must hold together. *)
Record needs_met (l : list Service.t) : Prop := {
  n_dbus : forall s, s ∈ l -> bundle_name s <> None -> exists rules, Service.Dbus rules ∈ l;
  n_camera : forall b, Service.Camera b ∈ l -> exists ch, Service.Portals ch ∈ l;
  n_display : forall x, Service.X11 (X11Mode.Nested x) ∈ l -> (exists m, Service.Wayland m ∈ l) /\ exists k, Service.Dri k ∈ l }.

Lemma existsb_is {A} (f : A -> bool) l : existsb f l = true -> exists a, a ∈ l /\ f a = true.
Proof. apply existsb_spec. Qed.

Lemma has_kind {A} (f : A -> bool) l a : a ∈ l -> f a = true -> existsb f l = true.
Proof. intros Ha Hf. apply existsb_spec. by exists a. Qed.

Lemma check_needs_met l : check_needs false l = Ok tt -> needs_met l.
Proof.
  unfold check_needs. intros Hc. parsed. split.
  - intros s Hs Hb. destruct (has_dbus l) eqn:Hd.
    + apply existsb_spec in Hd as (d & Hin & Hd). destruct d; try discriminate Hd. by eexists.
    + unfold bundle_without_dbus in *. rewrite Hd in *. destruct (bundle_name s) as [w|] eqn:Hw; [|done].
      assert (w ∈ omap bundle_name l) as Hin by (apply list_elem_of_omap; by exists s).
      destruct (omap bundle_name l); [by apply elem_of_nil in Hin|done].
  - intros b Hb. unfold camera_without_portals in *. rewrite (has_kind is_camera l _ Hb) in * by done. cbn [andb] in *.
    match goal with Hn : negb _ = false |- _ => apply negb_false_iff, existsb_spec in Hn as (p & Hin & Hp) end. destruct p; try discriminate Hp. by eexists.
  - intros x Hx. unfold nested_x11_without_display_stack in *. rewrite (has_kind is_nested_x11 l _ Hx) in * by done. cbn [andb] in *.
    match goal with Hn : negb _ = false |- _ => apply negb_false_iff, andb_true_iff in Hn as [(w & Hin & Hw)%existsb_spec (d & Hin' & Hd)%existsb_spec] end.
    split; [destruct w; try discriminate Hw|destruct d; try discriminate Hd]; by eexists.
Qed.

Lemma ordpairs_snoc {A} (R : A -> A -> Prop) l a : ForallOrdPairs R l -> Forall (fun b => R b a) l -> ForallOrdPairs R (l ++ [a]).
Proof.
  induction 1 as [|b l Hb _ IH]; intros Hl; cbn [app]; [repeat constructor|]. inversion_clear Hl.
  constructor; [|by apply IH]. apply Forall_app. split; [done|]. by constructor.
Qed.

Lemma ordpairs_app {A} (R : A -> A -> Prop) l k : ForallOrdPairs R l -> ForallOrdPairs R k -> (forall a b, a ∈ l -> b ∈ k -> R a b) -> ForallOrdPairs R (l ++ k).
Proof.
  induction 1 as [|b l Hb _ IH]; intros Hk Hl; cbn [app]; [done|].
  constructor; [|apply IH; [done|]; intros; apply Hl; [by right|done]]. apply Forall_app. split; [done|]. apply Forall_forall. intros c Hc. apply Hl; [by left|done].
Qed.

(** A stable sort orders what was in order within each key. *)
Section SortFacts.
Context {A : Type} (key : A -> Z).

Lemma insert_perm a l : insert_by key a l ≡ₚ a :: l.
Proof.
  induction l as [|b l IH]; cbn [insert_by]; [done|]. destruct (_ <=? _); [done|]. rewrite IH. apply Permutation_swap.
Qed.

Lemma sort_perm l : sort_by_key key l ≡ₚ l.
Proof. induction l as [|a l IH]; cbn [sort_by_key]; [done|]. by rewrite insert_perm, IH. Qed.

Lemma insert_ordered (R : A -> A -> Prop) a l :
  (forall b c, key b < key c -> R b c) ->
  ForallOrdPairs (fun b c => key b <= key c /\ R b c) l -> Forall (fun b => key a = key b -> R a b) l ->
  ForallOrdPairs (fun b c => key b <= key c /\ R b c) (insert_by key a l).
Proof.
  intros Hlt. induction 1 as [|b l Hb Hl IH]; intros Ha; cbn [insert_by]; [by repeat constructor|]. inversion_clear Ha as [|? ? Hab Ha'].
  destruct (Z.leb_spec (key a) (key b)).
  - constructor; [|by constructor]. constructor.
    + split; [done|]. destruct (Z.eq_dec (key a) (key b)); [by apply Hab|]. apply Hlt. lia.
    + rewrite Forall_forall in *. intros c Hc. destruct (Hb c Hc). split; [lia|]. destruct (Z.eq_dec (key a) (key c)); [by apply Ha'|]. apply Hlt. lia.
  - constructor; [|by apply IH]. rewrite insert_perm. constructor; [|done]. split; [lia|]. apply Hlt. lia.
Qed.

Lemma sort_ordered (R : A -> A -> Prop) l :
  (forall b c, key b < key c -> R b c) -> ForallOrdPairs (fun b c => key b = key c -> R b c) l ->
  ForallOrdPairs (fun b c => key b <= key c /\ R b c) (sort_by_key key l).
Proof.
  intros Hlt. induction 1 as [|a l Ha _ IH]; cbn [sort_by_key]; [constructor|].
  apply insert_ordered; [done|done|]. by rewrite sort_perm.
Qed.
End SortFacts.
