(* ===== verification/ConfigDocFacts.v ===== *)
(** The theorems about reading a whole configuration: what every configuration that was
    read holds, and where its grants and its kept lines are. *)
From S2P Require Export ConfigWf.

Definition counts_le (c c' : InstanceConfig) : Prop := forall n, Counts.before (Counts.of_ c) n <= Counts.before (Counts.of_ c') n.

Lemma counts_le_refl c : counts_le c c.
Proof. intros n. lia. Qed.

Lemma one_le b : 0 <= Counts.one b <= 1.
Proof. destruct b; cbn; lia. Qed.

Section DocWf.
Context `{IpText, !IpTextLaws, SyscallNames, Kdl}.

(** What holds between two nodes, the lines of the grants aside. *)
Record inv (st : St) : Prop := {
  i_cfg : cfg_wf (s_cfg st);
  i_etc : seen_etc st = false -> etc (s_cfg st) = EtcMode.Allowlist;
  i_tty : seen_tty st = false -> tty (s_cfg st) = Pty;
  i_userns : seen_userns st = false -> userns (s_cfg st) = Userns.Allow;
  i_seccomp : seen_seccomp st = false -> seccomp (s_cfg st) = default_seccomp;
  i_kept : Forall (kept_wf (s_cfg st)) (disabled (s_cfg st));
  i_order : ForallOrdPairs (fun d1 d2 => section_rank (Config.node d1) = section_rank (Config.node d2) -> before d1 <= before d2) (disabled (s_cfg st)) }.

Lemma kept_mono c c' d : counts_le c c' -> kept_wf c d -> kept_wf c' d.
Proof. intros Hc [Hn Hb]. split; [done|]. specialize (Hc (Config.node d)). lia. Qed.

(** A node leaves the kept lines alone and no section shorter. *)
Definition grows (c c' : InstanceConfig) : Prop :=
  counts_le c c' /\ disabled c' = disabled c /\ len (services c) <= len (services c') /\ len (env c) <= len (env c').

Lemma grows_trans c1 c2 c3 : grows c1 c2 -> grows c2 c3 -> grows c1 c3.
Proof. intros (L1 & D1 & S1 & E1) (L2 & D2 & S2 & E2). split; [intros n; specialize (L1 n); specialize (L2 n); lia|]. split; [congruence|lia]. Qed.

Lemma kept_grows c c' : grows c c' -> Forall (kept_wf c) (disabled c) -> Forall (kept_wf c') (disabled c').
Proof. intros (Hc & -> & _) Hk. eapply Forall_impl; [exact Hk|]. intros d. by apply kept_mono. Qed.

(** A change to what is not a mode. *)
Definition same_modes (c c' : InstanceConfig) : Prop := etc c' = etc c /\ tty c' = tty c /\ userns c' = userns c /\ seccomp c' = seccomp c.

Definition better (c c' : InstanceConfig) : Prop := cfg_wf c' /\ grows c c' /\ same_modes c c'.

Lemma better_refl c : cfg_wf c -> better c c.
Proof. intros Hc. split; [done|]. split; [|done]. split; [apply counts_le_refl|]. split; [done|lia]. Qed.

Lemma better_trans c1 c2 c3 : better c1 c2 -> better c2 c3 -> better c1 c3.
Proof.
  intros (_ & G1 & E1 & T1 & U1 & S1) (W2 & G2 & E2 & T2 & U2 & S2). split; [done|]. split; [by eapply grows_trans|]. unfold same_modes. repeat split; congruence.
Qed.

Ltac counted := intros [| | | | | | | | |]; cbn; rewrite ?len_app, ?len_cons, ?len_nil; lia.

Lemma add_env_wf c kv c' : pair_wf kv -> cfg_wf c -> add_env c kv = Ok c' -> better c c'.
Proof.
  intros Hkv [Hs Ho [He Hn] Hl Ht Hsc Hd Hcm Hsh] Ha. unfold add_env in Ha. parsed. split; [|split; [|done]].
  - split; try done. cbn. split; [apply Forall_app; split; [done|by constructor]|]. rewrite map_app. apply NoDup_snoc; [done|]. by apply key_absent.
  - split; [counted|]. split; [done|]. cbn. rewrite len_app, len_cons, len_nil. lia.
Qed.

Lemma add_lint_wf c a c' : allow_wf a -> cfg_wf c -> add_lint_allow c a = Ok c' -> better c c'.
Proof.
  intros Hkv [Hs Ho He [Hl Hn] Ht Hsc Hd Hcm Hsh] Ha. unfold add_lint_allow in Ha. parsed. split; [|split; [|done]].
  - split; try done. cbn. split; [apply Forall_app; split; [done|by constructor]|]. rewrite map_app. apply NoDup_snoc; [done|]. by apply key_absent.
  - split; [counted|]. split; [done|]. cbn. lia.
Qed.

Lemma fold_better {A} (f : InstanceConfig -> A -> result ConfigError InstanceConfig) (P : A -> Prop) l c c' :
  (forall c a c', P a -> cfg_wf c -> f c a = Ok c' -> better c c') -> Forall P l -> cfg_wf c -> fold_res f c l = Ok c' -> better c c'.
Proof.
  intros Hf Hl Hc. refine (fold_res_inv (better c) f l c c' _ (better_refl c Hc)).
  intros s a s' Hin Hs Ha. eapply better_trans; [exact Hs|]. rewrite Forall_forall in Hl. eapply Hf; [by apply Hl|apply Hs|done].
Qed.

Lemma grant_wf c svc l : service_wf svc -> cfg_wf c -> grant (services c) svc = Ok l -> better c (with_services c l).
Proof.
  intros Hw [Hs Ho He Hl Ht Hsc Hd Hcm Hsh] Hg. unfold grant in Hg. parsed. split; [|split; [|done]].
  - split; try done; cbn; [apply Forall_app; split; [done|by constructor]|]. apply ordpairs_snoc; [done|].
    apply Forall_forall. intros held Hin. by apply (proj1 (existsb_none _ _) E).
  - split; [counted|]. split; [done|]. cbn. rewrite len_app, len_cons, len_nil. lia.
Qed.

(** The modes and the single nodes. *)
Lemma set_wf c c' : cfg_wf c -> services c' = services c -> env c' = env c -> lint_allows c' = lint_allows c -> shares c' = shares c ->
  option_wf size_wf (tmp c') -> seccomp_wf (seccomp c') -> option_wf desktop_wf (desktop c') -> option_wf argv_wf (command c') -> cfg_wf c'.
Proof. intros [] Hs He Hl Hsh ? ? ? ?. split; rewrite ?Hs, ?He, ?Hl, ?Hsh; done. Qed.

Lemma keep_inv st st' : inv st -> better (s_cfg st) (s_cfg st') ->
  seen_etc st' = seen_etc st -> seen_tty st' = seen_tty st -> seen_userns st' = seen_userns st -> seen_seccomp st' = seen_seccomp st ->
  inv st' /\ grows (s_cfg st) (s_cfg st').
Proof.
  intros [Hc He Ht Hu Hs Hk Ho] (Hw & Hg & Me & Mt & Mu & Ms) Se St_ Su Ss. split; [|done].
  split; rewrite ?Se, ?St_, ?Su, ?Ss, ?Me, ?Mt, ?Mu, ?Ms; try done; [by eapply kept_grows|]. destruct Hg as (_ & -> & _). done.
Qed.

(** A mode is written once, over its default. *)
Ltac first_written := split; [|split; [done|cbn; lia]]; intros [| | | | | | | | |]; cbn; try lia;
  first [rewrite bool_decide_true by done | rewrite bool_decide_false by (let X := fresh in intros X; by apply X)];
  cbn; unfold Counts.one; repeat case_match; lia.

Lemma mode_inv st c' (m1 m2 m3 m4 : bool) : inv st -> cfg_wf c' -> grows (s_cfg st) c' ->
  (m1 = false -> seen_tty st = false /\ tty c' = tty (s_cfg st)) -> (m2 = false -> seen_userns st = false /\ userns c' = userns (s_cfg st)) ->
  (m3 = false -> seen_etc st = false /\ etc c' = etc (s_cfg st)) -> (m4 = false -> seen_seccomp st = false /\ seccomp c' = seccomp (s_cfg st)) ->
  inv (mkSt c' (s_lines st) (s_includes st) m1 m2 m3 m4) /\ grows (s_cfg st) c'.
Proof.
  intros [Hc He Ht Hu Hs Hk Ho] Hw Hg M1 M2 M3 M4. split; [|done]. split; cbn; try done.
  - intros Hm. destruct (M3 Hm) as [? ->]. auto.
  - intros Hm. destruct (M1 Hm) as [? ->]. auto.
  - intros Hm. destruct (M2 Hm) as [? ->]. auto.
  - intros Hm. destruct (M4 Hm) as [? ->]. auto.
  - by eapply kept_grows.
  - destruct Hg as (_ & -> & _). done.
Qed.

Lemma add_node_inv st n st' : inv st -> node_wf n -> add_node st n = Ok st' -> inv st' /\ grows (s_cfg st) (s_cfg st').
Proof.
  intros Hi Hn Ha. pose proof Hi as [Hc He Ht Hu Hs Hk Ho]. destruct n as [svc|pairs|allows|m|size|m|m|sc|d|argv]; cbn [add_node] in Ha; cbn [node_wf] in Hn.
  - inv_ok. apply keep_inv; [done| |done..]. by eapply grant_wf.
  - inv_ok. apply keep_inv; [done| |done..]. destruct Hn as (_ & Hp & _). eapply fold_better; [|exact Hp|done|done]. apply add_env_wf.
  - inv_ok. apply keep_inv; [done| |done..]. destruct Hn as (a & -> & Hp). eapply (fold_better _ allow_wf); [|by constructor|done|done]. apply add_lint_wf.
  - destruct (seen_etc st) eqn:Em; [done|]. inv_ok. specialize (He eq_refl). apply mode_inv; try done; [|first_written]. destruct Hc. by eapply set_wf.
  - destruct (bool_decide _) eqn:Em; [done|]. inv_ok. apply bool_decide_eq_false, dec_stable in Em. apply keep_inv; [done| |done..].
    split; [destruct Hc; by eapply set_wf|]. split; [first_written|done].
  - destruct (seen_tty st) eqn:Em; [done|]. inv_ok. specialize (Ht eq_refl). apply mode_inv; try done; [|first_written]. destruct Hc. by eapply set_wf.
  - destruct (seen_userns st) eqn:Em; [done|]. inv_ok. specialize (Hu eq_refl). apply mode_inv; try done; [|first_written]. destruct Hc. by eapply set_wf.
  - destruct (seen_seccomp st) eqn:Em; [done|]. inv_ok. specialize (Hs eq_refl). apply mode_inv; try done; [|first_written]. destruct Hc. by eapply set_wf.
  - destruct (bool_decide _) eqn:Em; [done|]. inv_ok. apply bool_decide_eq_false, dec_stable in Em. apply keep_inv; [done| |done..].
    split; [destruct Hc; by eapply set_wf|]. split; [first_written|done].
  - destruct (bool_decide _) eqn:Em; [done|]. inv_ok. apply bool_decide_eq_false, dec_stable in Em. apply keep_inv; [done| |done..].
    split; [destruct Hc; by eapply set_wf|]. split; [first_written|done].
Qed.
End DocWf.

Section DocLines.
Context `{IpText, !IpTextLaws, SyscallNames, Kdl}.

(** Every grant has its line. *)
Definition lines_ok (st : St) : Prop := len (Lines.services (s_lines st)) = len (services (s_cfg st)) /\ len (Lines.env (s_lines st)) = len (env (s_cfg st)).

Lemma len_resize {A} n (a : A) l : 0 <= n -> len (resize n a l) = n.
Proof. intros Hn. unfold resize, len, upto. rewrite length_app, length_take, length_replicate. lia. Qed.

Lemma place_ok text name offset st :
  len (Lines.services (s_lines st)) <= len (services (s_cfg st)) -> len (Lines.env (s_lines st)) <= len (env (s_cfg st)) ->
  lines_ok (place text name offset st).
Proof.
  intros Hs He. unfold place. pose proof (len_nonneg (services (s_cfg st))). pose proof (len_nonneg (env (s_cfg st))).
  destruct (_ || (_ || _)) eqn:Hg; unfold lines_ok; cbn.
  - by rewrite !len_resize.
  - apply orb_false_iff in Hg as [Hg _]. lia.
Qed.

Lemma place_inv text name offset st : inv st -> inv (place text name offset st).
Proof. intros []. unfold place. by destruct (_ || (_ || _)). Qed.

Lemma doc_part_inv text st part st' : inv st /\ lines_ok st -> node_wf part.1 -> doc_part text st part = Ok st' -> inv st' /\ lines_ok st'.
Proof.
  intros [Hi [Ls Le]] Hw Hp. unfold doc_part in Hp. inv_ok. destruct (add_node_inv _ _ _ Hi Hw E) as [Hi' (_ & _ & Gs & Ge)].
  assert (s_lines r = s_lines st) as Hl.
  { clear -E. destruct part.1; cbn [add_node] in E; parsed; done. }
  split; [by apply place_inv|]. apply place_ok; rewrite Hl; lia.
Qed.

Lemma disabled_in_wf text profile at_ found : disabled_in text profile at_ = Ok found ->
  Forall (fun d => node_wf (Config.node d) /\ before d = Counts.before at_ (Config.node d)) found.
Proof.
  unfold disabled_in. intros Hd. parsed; [constructor|].
  refine (fold_res_inv _ _ _ _ _ _ _ Hd); [|constructor]. intros st n st' _ Hst Hn. unfold disabled_node in Hn. inv_ok.
  apply Forall_app. split; [done|]. apply Forall_map. match goal with Hp : parse_node _ _ = Ok _ |- _ => apply parse_node_wf in Hp; eapply Forall_impl; [exact Hp|] end. by intros p.
Qed.

Lemma places_nonneg c n : 0 <= Counts.before (Counts.of_ c) n.
Proof. destruct n; cbn; try apply len_nonneg; apply one_le. Qed.

Lemma rank_counts at_ n1 n2 : section_rank n1 = section_rank n2 -> Counts.before at_ n1 = Counts.before at_ n2.
Proof. by destruct n1, n2. Qed.

Lemma keep_found st found : inv st /\ lines_ok st -> 
  Forall (fun d => node_wf (Config.node d) /\ before d = Counts.before (Counts.of_ (s_cfg st)) (Config.node d)) found ->
  inv (keep st found) /\ lines_ok (keep st found).
Proof.
  intros [[Hc He Ht Hu Hs Hk Ho] Hl] Hf. split; [|exact Hl]. split; cbn; try done.
  - destruct Hc. by split.
  - apply Forall_app. split; [exact Hk|]. eapply Forall_impl; [exact Hf|]. intros d [Hn Hb]. split; [done|]. cbn in *.
    rewrite Hb. split; [apply places_nonneg|]. change (Counts.of_ (with_disabled (s_cfg st) _)) with (Counts.of_ (s_cfg st)). lia.
  - rewrite Forall_forall in Hf, Hk. apply ordpairs_app; [exact Ho| |].
    + clear -Hf. induction found as [|d found IH]; [constructor|]. constructor; [|apply IH; intros; apply Hf; by right].
      apply Forall_forall. intros e He Hr. destruct (Hf d (list_elem_of_here _ _)) as [_ ->]. destruct (Hf e (list_elem_of_further _ _ _ He)) as [_ ->].
      by rewrite (rank_counts _ _ _ Hr).
    + intros d e Hd Hin Hr. destruct (Hk d Hd) as [_ Hb]. destruct (Hf e Hin) as [_ ->]. rewrite <-(rank_counts _ _ _ Hr). lia.
Qed.

Lemma doc_node_inv text profile st n st' : inv st /\ lines_ok st -> doc_node text profile st n = Ok st' -> inv st' /\ lines_ok st'.
Proof.
  intros Hi Hn. unfold doc_node in Hn. inv_ok.
  assert (inv r /\ lines_ok r) as Hr.
  { destruct (n_leading n); inv_ok; [|done]. apply keep_found; [done|]. by eapply disabled_in_wf. }
  clear E. destruct (bool_decide _).
  - parsed. destruct Hr as [[] Hl]. by split.
  - inv_ok. apply parse_node_wf in E. refine (fold_res_inv (fun st => inv st /\ lines_ok st) _ _ _ _ _ Hr Hn).
    intros s p s' Hin Hs Hp. rewrite Forall_forall in E. eapply doc_part_inv; [exact Hs|by apply E|exact Hp].
Qed.

Lemma start_inv : inv start_ /\ lines_ok start_.
Proof.
  split; [|done]. split; cbn; try done; [|exact (FOP_nil _)].
  split; cbn; try done; [exact (FOP_nil _)|split; constructor..].
Qed.
End DocLines.

Section Read.
Context `{IpText, !IpTextLaws, SyscallNames, Kdl}.

Lemma doc_includes text st n st' : s_includes st = [] -> doc_node text false st n = Ok st' -> s_includes st' = [].
Proof.
  intros Hs Hn. unfold doc_node in Hn. inv_ok.
  assert (s_includes r = []) as Hr by (destruct (n_leading n); inv_ok; done). clear E Hs. destruct (bool_decide _).
  - inv_ok. cbn in *. done.
  - inv_ok. refine (fold_res_inv (fun st => s_includes st = []) _ _ _ _ _ Hr Hn). intros s p s' _ Hs Hp. unfold doc_part in Hp. inv_ok.
    assert (s_includes r1 = s_includes s) as Hi by (clear -E0; destruct p.1; cbn [add_node] in E0; parsed; done).
    unfold place. destruct (_ || (_ || _)); cbn; congruence.
Qed.

(** The invariant at the end of a file, before the kept lines are sorted. *)
Lemma parse_doc_inv text profile raw ls : parse_doc text profile = Ok (raw, ls) ->
  exists st, inv st /\ lines_ok st /\ (profile = false -> s_includes st = []) /\ check_needs profile (services (s_cfg st)) = Ok tt /\
    config raw = with_disabled (s_cfg st) (sort_by_key (fun d => section_rank (Config.node d)) (disabled (s_cfg st))) /\
    includes raw = s_includes st /\ ls = s_lines st.
Proof.
  unfold parse_doc. intros Hp. inv_ok. rename r into doc, r0 into st1, r1 into st2, r2 into u. destruct u. exists st2.
  assert (inv st1 /\ lines_ok st1) as Hone.
  { refine (fold_res_inv (fun st => inv st /\ lines_ok st) _ _ _ _ _ start_inv E0). intros s n s' _. apply doc_node_inv. }
  assert ((inv st2 /\ lines_ok st2) /\ s_includes st2 = s_includes st1) as [[Hi Hl] Hinc].
  { unfold doc_tail in E1. destruct (d_format doc) as [[leading trailing]|]; inv_ok; [|done].
    split; [|done]. apply keep_found; [done|]. by eapply disabled_in_wf. }
  split; [exact Hi|]. split; [exact Hl|]. split; [|by split_and!]. intros ->. rewrite Hinc.
  refine (fold_res_inv (fun st => s_includes st = []) _ _ _ _ _ _ E0); [|done]. intros s n s' _. apply doc_includes.
Qed.

(** ** What a grant is of

    A node that is one per file, a share by its path or its name, and an audio node with a
    microphone apart from one without: [grant] compares those two whole. *)
Inductive Thing := Once (node : bytes) | OfPath (node : bytes) (p : path) | Named (node name : bytes) | Audio (node : bytes) (microphone : bool).

#[global] Instance Thing_eq_dec : EqDecision Thing.
Proof. solve_decision. Defined.

Definition thing (s : Service.t) : Thing :=
  match s with
  | Service.HomeShare p _ _ | Service.PathShare p _ _ => OfPath (Service.node_name s) p
  | Service.EtcShare n => Named (Service.node_name s) n
  | Service.AppRuntime i _ => Named (Service.node_name s) i
  | Service.Pipewire m | Service.Pulseaudio m => Audio (Service.node_name s) m
  | _ => Once (Service.node_name s)
  end.

Lemma same_thing a b : thing a = thing b -> Same.twice b a = true.
Proof. destruct a, b; cbn; intros [=]; subst; rewrite ?bool_decide_true by done; done. Qed.

Lemma things_once l : ForallOrdPairs (fun held svc => Same.twice svc held = false) l -> NoDup (map thing l).
Proof.
  induction 1 as [|s l Hs _ IH]; cbn [map]; constructor; [|exact IH]. intros (s' & Ht & Hin)%list_elem_of_fmap.
  rewrite Forall_forall in Hs. specialize (Hs s' Hin). by rewrite same_thing in Hs.
Qed.

(** A second grant of a thing is a duplicate, and nothing else is: so [pipewire] and
    [pipewire { microphone }] are both granted. *)
Theorem grant_refuses_the_same_thing held svc :
  grant held svc = if bool_decide (thing svc ∈ map thing held) then Err (Duplicate (Service.node_name svc)) else Ok (held ++ [svc]).
Proof.
  assert (forall a b, Same.twice b a = true -> thing a = thing b) as Hback by (intros a b; destruct a, b; cbn; intros Ht; bool_to_prop; congruence).
  unfold grant. case_bool_decide as Hin.
  - apply list_elem_of_fmap in Hin as (s & Ht & Hin). assert (existsb (Same.twice svc) held = true) as ->; [|done].
    apply existsb_spec. exists s. split; [done|]. by apply same_thing.
  - assert (existsb (Same.twice svc) held = false) as ->; [|done]. apply not_true_is_false. intros (s & Hs & Ht)%existsb_spec.
    apply Hin, list_elem_of_fmap. exists s. split; [symmetry; by apply Hback|done].
Qed.

(** C20. A configuration that was read is well formed, whatever the text: every value of
    every node passed the check of its node (names, paths, sizes, ports, system calls, the
    network's children together); every grant is there once, a share once by its path
    or name and an audio node once with a microphone and once without; no variable is set
    and no finding accepted twice; an instance's own file includes nothing and
    what its grants need of one another is there; a kept line is a node that would have
    been read, the kept lines are in the order of their sections and each stands at a place
    its section has; and every grant and every variable has a line. *)
Theorem read_config_is_well_formed text profile raw ls : parse_doc text profile = Ok (raw, ls) ->
  cfg_wf (config raw) /\
  NoDup (map thing (services (config raw))) /\ NoDup (map fst (env (config raw))) /\ NoDup (map check_id (lint_allows (config raw))) /\
  Forall (kept_wf (config raw)) (disabled (config raw)) /\ ForallOrdPairs kept_order (disabled (config raw)) /\
  (profile = false -> includes raw = [] /\ needs_met (services (config raw))) /\
  length (Lines.services ls) = length (services (config raw)) /\ length (Lines.env ls) = length (env (config raw)).
Proof.
  intros (st & [Hc _ _ _ _ Hk Ho] & [Ls Le] & Hinc & Hn & -> & -> & ->)%parse_doc_inv. cbn.
  split; [destruct Hc; by split|]. split; [apply things_once, Hc|]. split; [apply Hc|]. split; [apply Hc|]. split.
  { apply (Forall_impl (kept_wf (s_cfg st))); [by rewrite sort_perm|]. intros d Hd. exact Hd. }
  split.
  { assert (ForallOrdPairs (fun b c => section_rank (Config.node b) = section_rank (Config.node c) -> kept_order b c) (disabled (s_cfg st))) as Hk'.
    { clear -Ho. induction Ho as [|a l Ha _ IH]; constructor; [|done]. eapply Forall_impl; [exact Ha|]. intros d Hb Hr. right. auto. }
    apply (sort_ordered (fun d => section_rank (Config.node d))) in Hk'; [|intros b c Hlt; left; exact Hlt].
    clear -Hk'. induction Hk' as [|a l Ha _ IH]; constructor; [|done]. eapply Forall_impl; [exact Ha|]. by intros d [_ Hd]. }
  split; [|unfold len in *; lia]. intros ->. split; [by apply Hinc|]. by apply check_needs_met.
Qed.
End Read.

(** A file with a kept line, a block and two grants that need one another, as the KDL
    parser hands it over. *)
Definition demo_file : bytes := B "/-tray" ++ [LF] ++ B "portals { camera }" ++ [LF] ++ B "dbus" ++ [LF] ++ B "env A=1" ++ [LF].
Definition demo_node (name : bytes) (offset : Z) (es : list KdlEntry) (kids : option (list KdlNode)) (leading : bytes) : KdlNode :=
  mkNode name offset false es kids (Some leading).
Definition demo_doc : KdlDocument :=
  mkDocument [demo_node (B "portals") 7 [] (Some [demo_node (B "camera") 17 [] None []]) (B "/-tray" ++ [LF]);
              demo_node (B "dbus") 26 [] None []; demo_node (B "env") 31 [mkEntry (Some (B "A")) (KString (B "1")) false] None []] None.

#[local] Instance demo_kdl : Kdl :=
  {| kdl_parse t := if bool_decide (t = demo_file) then Ok demo_doc
       else if bool_decide (t = B "tray" ++ [LF]) then Ok (mkDocument [demo_node (B "tray") 0 [] None []] None) else Err Syntax |}.
#[local] Instance demo_syscalls : SyscallNames := {| syscall_number s := if bool_decide (s = B "keyctl") then Some 250 else None |}.
#[local] Existing Instance demo_text.
#[local] Existing Instance demo_text_laws.

Lemma read_config_is_well_formed_witness :
  exists raw ls, parse_doc demo_file false = Ok (raw, ls) /\ services (config raw) = [Service.Portals []; Service.Camera false; Service.Dbus []] /\
    length (disabled (config raw)) = 1%nat /\ Lines.services ls = [Some 2; Some 2; Some 3] /\ cfg_wf (config raw) /\ needs_met (services (config raw)).
Proof.
  assert (exists raw ls, parse_doc demo_file false = Ok (raw, ls) /\ services (config raw) = [Service.Portals []; Service.Camera false; Service.Dbus []] /\
    length (disabled (config raw)) = 1%nat /\ Lines.services ls = [Some 2; Some 2; Some 3]) as (raw & ls & Hp & Hs & Hd & Hl)
    by (eexists _, _; split; [vm_compute; reflexivity|]; split_and!; reflexivity).
  destruct (read_config_is_well_formed demo_file false raw ls Hp) as (Hw & _ & _ & _ & _ & _ & Hn & _).
  exists raw, ls. do 4 (split; [assumption|]). split; [assumption|]. exact (proj2 (Hn eq_refl)).
Defined.
