(* ===== verification/KdlDoc.v ===== *)
(** The KDL document a configuration is written as, and that the emitters of [KdlOut] write
    exactly its canonical text: the reference definition of the emitters. *)
From S2P Require Export ConfigText ConfigDocFacts.

(** ** Canonical text, and the document it is of *)

(** A value as it is spelled. *)
Inductive word := Quoted (s : bytes) | Bare (s : bytes) | Num (n : Z) | Truth (b : bool).

(** An entry, a node on a line, and a node with perhaps children on lines of their own. *)
Record written := mkWritten { w_prop : option bytes; w_word : word }.
Record line_node := mkLine { l_name : bytes; l_entries : list written }.
Record cnode := mkCnode { c_line : line_node; c_kids : option (list line_node) }.

Definition show_word (w : word) : bytes :=
  match w with Quoted s => quote s | Bare s => s | Num n => decimal n | Truth b => if b then B "#true" else B "#false" end.
Definition show_entry (e : written) : bytes :=
  SPACE :: match w_prop e with Some p => p ++ B "=" ++ show_word (w_word e) | None => show_word (w_word e) end.
Definition show_line (n : line_node) : bytes := l_name n ++ concat (map show_entry (l_entries n)).
Definition show_node (n : cnode) : bytes :=
  match c_kids n with Some kids => KdlOut.block (show_line (c_line n)) (map show_line kids) | None => show_line (c_line n) end.

(** What the text means to the KDL parser, offsets and formats aside. *)
Definition value_of (w : word) : KdlValue :=
  match w with Quoted s | Bare s => KString s | Num n => KInteger n | Truth b => KBool b end.
Definition entry_of (e : written) : KdlEntry := mkEntry (w_prop e) (value_of (w_word e)) false.
Definition kid_of (n : line_node) : KdlNode := mkNode (l_name n) 0 false (map entry_of (l_entries n)) None None.
Definition node_of (n : cnode) : KdlNode :=
  mkNode (l_name (c_line n)) 0 false (map entry_of (l_entries (c_line n))) (option_map (map kid_of) (c_kids n)) None.

(** ** The documents of the values *)

Definition arg (s : bytes) : written := mkWritten None (Quoted s).
Definition num (n : Z) : written := mkWritten None (Num n).
Definition prop (p : bytes) (w : word) : written := mkWritten (Some p) w.
Definition ln (name : bytes) (es : list written) : line_node := mkLine name es.
Definition nd (name : bytes) (es : list written) (kids : option (list line_node)) : cnode := mkCnode (ln name es) kids.
Definition switch (p : bytes) (on : bool) : list written := if on then [prop p (Truth true)] else [].
Definition some_kids (kids : list line_node) : option (list line_node) := if bool_decide (kids = []) then None else Some kids.

Definition x11_doc (x : NestedX11) : cnode :=
  nd (B "x11")
    ((if bool_decide (geometry x = geometry default_nested) then [] else [prop (B "geometry") (Quoted (geometry x))]) ++
     switch (B "fullscreen") (fullscreen x) ++ switch (B "grab") (grab x) ++
     match wm x with Some w => [prop (B "wm") (Quoted w)] | None => [] end) None.

Definition allow_port_doc (f : Forward) : line_node := ln (B "allow-port") (num (f_port f) :: switch (B "udp") (udp f)).

Section Docs.
Context `{IpText}.

Definition allow_out_doc (a : AllowOut.t) : line_node :=
  ln (B "allow-out")
    (arg (Cidr.fmt (AllowOut.dest a)) ::
     match AllowOut.port a with Some p => [prop (B "port") (Num p)] | None => [] end ++
     match AllowOut.proto a with Some p => [prop (B "proto") (Quoted (Proto.keyword p))] | None => [] end).

Definition allow_host_doc (a : AllowHost.t) : line_node :=
  ln (B "allow-host")
    (arg (HostPattern.fmt (AllowHost.pattern a)) ::
     if negb (AllowHost.port a =? AllowHost.DEFAULT_PORT) then [prop (B "port") (Num (AllowHost.port a))] else []).

Definition network_kids_doc (cfg : NetworkConfig) : list line_node :=
  (if bool_decide (outbound cfg = Outbound.Deny) then [ln (B "outbound") [arg (B "deny")]] else []) ++
  map (fun ip => ln (B "dns") [arg (ip_text ip)]) (n_dns cfg) ++
  map allow_out_doc (allow_out cfg) ++
  map allow_host_doc (allow_hosts cfg) ++
  map allow_port_doc (n_forwards cfg) ++
  (if no_ipv6 cfg then [ln (B "no-ipv6") []] else []).

Definition network_doc (cfg : NetworkConfig) : cnode :=
  nd (B "network") (match mode cfg with Mode.Isolated => [] | Mode.Host => [arg (B "host")] | Mode.None_ => [arg (B "none")] end)
    (some_kids (network_kids_doc cfg)).

Definition bus_rule_doc (r : BusRule.t) : line_node :=
  match r with
  | BusRule.See n => ln (B "see") [arg n]
  | BusRule.Talk n => ln (B "talk") [arg n]
  | BusRule.Own n => ln (B "own") [arg n]
  | BusRule.Call n rule => ln (B "call") [arg (n ++ B "=" ++ rule)]
  | BusRule.Broadcast n rule => ln (B "broadcast") [arg (n ++ B "=" ++ rule)]
  end.

Definition audio_doc (name : bytes) (microphone : bool) : cnode := nd name [] (if microphone then Some [ln (B "microphone") []] else None).

Definition share_entries (v : bytes) (m : ShareMode.t) (optional : bool) : list written :=
  [arg v; prop (B "mode") (Bare (share_mode m))] ++ switch (B "optional") optional.

Definition service_doc (s : Service.t) : cnode :=
  match s with
  | Service.Wayland (WaylandMode.Sandboxed Clipboard.Paste) => nd (B "wayland") [] None
  | Service.Wayland (WaylandMode.Sandboxed Clipboard.Open) => nd (B "wayland") [prop (B "clipboard") (Quoted (B "open"))] None
  | Service.Wayland WaylandMode.Host => nd (B "wayland") [arg (B "host")] None
  | Service.X11 (X11Mode.Nested x) => x11_doc x
  | Service.X11 X11Mode.Host => nd (B "x11") [arg (B "host")] None
  | Service.Network cfg => network_doc cfg
  | Service.Dri kms => nd (B "dri") (switch (B "kms") kms) None
  | Service.Pipewire m => audio_doc (B "pipewire") m
  | Service.Pulseaudio m => audio_doc (B "pulseaudio") m
  | Service.Portals ch => nd (B "portals") [] (some_kids (map (fun p => ln (Portal.node_name p) []) ch))
  | Service.Notify => nd (B "notify") [] None
  | Service.Tray => nd (B "tray") [] None
  | Service.A11y => nd (B "a11y") [] None
  | Service.InputMethod => nd (B "input-method") [] None
  | Service.Hidraw => nd (B "hidraw") [] None
  | Service.Camera nodes => nd (B "camera") (switch (B "nodes") nodes) None
  | Service.Gamepad hidraw uinput => nd (B "gamepad") (switch (B "hidraw") hidraw ++ switch (B "uinput") uinput) None
  | Service.HomeShare p m o => nd (B "home-share") (share_entries (path_text p) m o) None
  | Service.PathShare p m o => nd (B "path-share") (share_entries (path_text p) m o) None
  | Service.EtcShare name => nd (B "etc-share") [arg name] None
  | Service.AppRuntime id m => nd (B "app-runtime") (share_entries id m false) None
  | Service.Mpris name => nd (B "mpris") [prop (B "name") (Quoted name)] None
  | Service.Dbus rules => nd (B "dbus") [] (some_kids (map bus_rule_doc rules))
  | Service.SystemBus rules => nd (B "system-bus") [] (Some (map bus_rule_doc rules))
  end.

Definition lint_doc (a : LintAllow) : cnode := nd (B "lint-allow") [arg (check_id a); prop (B "reason") (Quoted (reason a))] None.
Definition env_doc (pairs : list (bytes * bytes)) : cnode := nd (B "env") (map (fun kv => prop kv.1 (Quoted kv.2)) pairs) None.
Definition etc_doc (m : EtcMode.t) : cnode := nd (B "etc") (match m with EtcMode.Allowlist => [] | EtcMode.Host => [arg (B "host")] end) None.

(** The size as [tmp_] writes it. *)
Definition size_text (size : Z) : bytes :=
  let '(n, unit) :=
    if size mod (1024 * 1024 * 1024) =? 0 then (size / (1024 * 1024 * 1024), B "G")
    else if size mod (1024 * 1024) =? 0 then (size / (1024 * 1024), B "M")
    else if size mod 1024 =? 0 then (size / 1024, B "K")
    else (size, B "K") in
  decimal n ++ unit.

Definition tmp_doc (size : Z) : cnode := nd (B "tmp") [prop (B "size") (Quoted (size_text size))] None.
Definition tty_word (m : TtyMode) : bytes := match m with Pty => B "pty" | Passthrough => B "passthrough" | NoTty => B "none" end.
Definition tty_doc (m : TtyMode) : cnode := nd (B "tty") [arg (tty_word m)] None.
Definition userns_doc (m : Userns.t) : cnode := nd (B "userns") [arg (match m with Userns.Allow => B "allow" | Userns.Disable => B "disable" end)] None.

Definition seccomp_doc (cfg : SeccompConfig) : cnode :=
  nd (B "seccomp") []
    (Some ((if bool_decide (Seccomp.allow cfg = []) then [] else [ln (B "allow") (map arg (Seccomp.allow cfg))]) ++
           map (fun d => ln (B "deny") [arg d.1; prop (B "errno") (Quoted (errno_name d.2))]) (Seccomp.deny cfg) ++
           (if disable cfg then [ln (B "disable") []] else []))).

Definition desktop_doc (name : bytes) : cnode := nd (B "desktop") [arg name] None.
Definition command_doc (argv : list bytes) : cnode := nd (B "command") (map arg argv) None.

Definition node_doc (n : Node.t) : cnode :=
  match n with
  | Node.Service s => service_doc s
  | Node.Env pairs => env_doc pairs
  | Node.LintAllow allows => match allows with [a] => lint_doc a | _ => nd (B "lint-allow") [] None end
  | Node.Etc m => etc_doc m
  | Node.Tmp size => tmp_doc size
  | Node.Tty m => tty_doc m
  | Node.Userns m => userns_doc m
  | Node.Seccomp cfg => seccomp_doc cfg
  | Node.Desktop name => desktop_doc name
  | Node.Command argv => command_doc argv
  end.
End Docs.

(** ** The emitters write the documents *)

Ltac flat := unfold show_node, show_line, nd, ln; cbn [c_line c_kids l_name l_entries map concat show_entry w_prop w_word show_word arg prop num app].

Section Shown.
Context `{IpText, !IpTextLaws}.

Lemma show_switch p on : concat (map show_entry (switch p on)) = flag p on.
Proof. destruct on; [|done]. cbn. by rewrite app_nil_r. Qed.

Lemma show_entries_app a b : concat (map show_entry (a ++ b)) = concat (map show_entry a) ++ concat (map show_entry b).
Proof. by rewrite map_app, concat_app. Qed.

Lemma x11_shown x : x11 x = show_node (x11_doc x).
Proof.
  unfold x11, x11_doc. flat. rewrite !show_entries_app, !show_switch. f_equal. f_equal; [by case_bool_decide; cbn; rewrite ?app_nil_r|].
  do 2 f_equal. destruct (wm x); cbn; by rewrite ?app_nil_r.
Qed.

Lemma allow_port_shown f : allow_port f = show_line (allow_port_doc f).
Proof.
  unfold allow_port, allow_port_doc. flat. rewrite show_switch. by destruct (udp f).
Qed.

Lemma allow_out_shown a : out_wf a -> B "allow-out " ++ AllowOut.fmt a = show_line (allow_out_doc a).
Proof.
  intros [(_ & Hp & _) _]. unfold AllowOut.fmt, allow_out_doc. flat. rewrite <-quote_bare by (apply cidr_bare; lia).
  rewrite show_entries_app. change (B "allow-out " ++ ?x) with (B "allow-out" ++ SPACE :: x). do 3 f_equal.
  f_equal; [by destruct (AllowOut.port a); cbn; rewrite ?app_nil_r|].
  destruct (AllowOut.proto a) as [p|]; [|done]. rewrite <-quote_bare by (by destruct p). cbn. by rewrite app_nil_r.
Qed.

Lemma allow_host_shown a : host_wf a -> B "allow-host " ++ AllowHost.fmt a = show_line (allow_host_doc a).
Proof.
  intros (Hp & _). unfold AllowHost.fmt, allow_host_doc. flat. rewrite <-quote_bare by (by apply pattern_bare).
  change (B "allow-host " ++ ?x) with (B "allow-host" ++ SPACE :: x). do 3 f_equal. destruct (negb _); cbn; by rewrite ?app_nil_r.
Qed.

Lemma map_shown {A} (f : A -> bytes) (g : A -> line_node) (P : A -> Prop) l :
  (forall a, P a -> f a = show_line (g a)) -> Forall P l -> map f l = map show_line (map g l).
Proof. intros Hf. induction 1 as [|a l Ha _ IH]; cbn; [done|]. by rewrite Hf, IH. Qed.

Lemma forall_true {A} (l : list A) : Forall (fun _ => True) l.
Proof. apply Forall_forall. done. Qed.

Lemma network_kids_shown cfg : network_wf cfg -> network_kids cfg = map show_line (network_kids_doc cfg).
Proof.
  intros [_ _ Ho Hh]. unfold network_kids, network_kids_doc. rewrite !map_app. f_equal; [|f_equal; [|f_equal; [|f_equal; [|f_equal]]]].
  - case_bool_decide; [|done]. rewrite <-quote_bare by done. flat. by rewrite app_nil_r.
  - eapply (map_shown _ _ (fun _ => True)); [|apply forall_true]. intros ip _. flat. by rewrite app_nil_r.
  - eapply map_shown; [|exact Ho]. apply allow_out_shown.
  - eapply map_shown; [|exact Hh]. apply allow_host_shown.
  - eapply (map_shown _ _ (fun _ => True)); [|apply forall_true]. intros f _. apply allow_port_shown.
  - by destruct (no_ipv6 cfg).
Qed.

(** A block of children, or the bare node without any. *)
Lemma some_kids_shown name es kids :
  show_node (nd name es (some_kids kids)) =
  if bool_decide (map show_line kids = []) then show_line (ln name es) else KdlOut.block (show_line (ln name es)) (map show_line kids).
Proof.
  unfold some_kids. destruct kids as [|k kids]; [done|]. rewrite !bool_decide_false by done. done.
Qed.

Lemma network_shown cfg : network_wf cfg -> network cfg = show_node (network_doc cfg).
Proof.
  intros Hw. unfold network, network_doc. rewrite some_kids_shown, network_kids_shown by done.
  assert (B "network" ++ match mode cfg with Mode.Isolated => [] | Mode.Host => B " " ++ quoted (B "host") | Mode.None_ => B " " ++ quoted (B "none") end =
    show_line (ln (B "network") (match mode cfg with Mode.Isolated => [] | Mode.Host => [arg (B "host")] | Mode.None_ => [arg (B "none")] end))) as ->; [|done].
  unfold show_line, ln. cbn [l_name l_entries]. f_equal. destruct (mode cfg); [done| |]; rewrite <-quote_bare by done; cbn; by rewrite app_nil_r.
Qed.

Lemma rules_shown rules : map bus_rule rules = map show_line (map bus_rule_doc rules).
Proof.
  eapply (map_shown _ _ (fun _ => True)); [|apply forall_true]. intros r _. destruct r; cbn [bus_rule bus_rule_doc]; flat; by rewrite app_nil_r.
Qed.

Lemma share_shown name v m o : name ++ SPACE :: quote v ++ B " mode=" ++ share_mode m ++ optional_suffix o =
  show_node (nd name (share_entries v m o) None).
Proof.
  unfold share_entries. flat. do 3 f_equal. rewrite show_switch. by destruct o.
Qed.

Lemma service_shown s t : service_wf s -> service s = Ok t -> t = show_node (service_doc s).
Proof.
  intros Hw Hs. destruct s as [[[|]|]|[x|]|cfg|[|]|m|m|p m o|p m o|n|rs|rs|ch| | |h u| |n|n| | |i m]; cbn [service] in Hs; inv_ok; try reflexivity; cbn [service_doc].
  - apply x11_shown.
  - apply network_shown, Hw.
  - by destruct m.
  - by destruct m.
  - apply text_ok in E as ->. apply (share_shown (B "home-share")).
  - apply text_ok in E as ->. apply (share_shown (B "path-share")).
  - apply text_ok in E as ->. flat. by rewrite app_nil_r.
  - unfold bus_block. rewrite some_kids_shown, rules_shown. destruct rs; [done|]. by rewrite !bool_decide_false.
  - destruct (bool_decide _); [done|]. destruct (head _); [done|]. inv_ok. unfold bus_block. by rewrite rules_shown.
  - rewrite some_kids_shown. replace (map show_line (map (fun p => ln (Portal.node_name p) []) ch)) with (map Portal.node_name ch).
    + destruct ch; [done|]. by rewrite !bool_decide_false.
    + rewrite map_map. apply map_ext. intros p. unfold show_line. cbn. by rewrite app_nil_r.
  - flat. rewrite show_entries_app, !show_switch. done.
  - by destruct n.
  - flat. by rewrite app_nil_r.
  - rewrite <-(app_nil_r (share_mode m)). exact (share_shown (B "app-runtime") i m false).
Qed.

Lemma seccomp_shown cfg : seccomp_ cfg = show_node (seccomp_doc cfg).
Proof.
  unfold seccomp_, seccomp_doc, show_node. cbn [c_kids nd c_line]. f_equal. unfold seccomp_kids. rewrite !map_app. f_equal; [|f_equal].
  - case_bool_decide; [done|]. flat. f_equal. destruct (Seccomp.allow cfg) as [|n l]; [done|].
    change (B "allow " ++ ?x) with (B "allow" ++ SPACE :: x). f_equal. clear. revert n. induction l as [|m l IH]; intros n; cbn [map concat]; [cbn; by rewrite app_nil_r|].
    rewrite join_cons by done. specialize (IH m). cbn [map concat] in IH. rewrite <-IH. done.
  - rewrite map_map. apply map_ext. intros [n e]. flat. by rewrite app_nil_r.
  - by destruct (disable cfg).
Qed.

Lemma tmp_shown size : tmp_ size = show_node (tmp_doc size).
Proof.
  unfold tmp_, tmp_doc, size_text. flat. rewrite app_nil_r. match goal with |- context [let '(n, u) := ?x in _] => destruct x as [n u] end. done.
Qed.

Lemma env_shown pairs : B "env" ++ concat (map (fun '(k, v) => B " " ++ k ++ B "=" ++ quote v) pairs) = show_node (env_doc pairs).
Proof. unfold env_doc. flat. f_equal. rewrite map_map. f_equal. apply map_ext. by intros [k v]. Qed.

Lemma command_words_shown argv r : command_words argv = Ok r -> r = concat (map show_entry (map arg argv)).
Proof.
  revert r. induction argv as [|a argv IH]; intros r Hr; cbn [command_words] in Hr; inv_ok; [done|].
  apply text_ok in E as ->. cbn [map concat]. by rewrite (IH _ E0).
Qed.

Lemma command_shown argv t : command_ argv = Ok t -> t = show_node (command_doc argv).
Proof. unfold command_, command_doc. intros Hc. inv_ok. by rewrite (command_words_shown _ _ E). Qed.

Lemma lint_shown a : lint_allow a = show_node (lint_doc a).
Proof. unfold lint_allow, lint_doc. flat. by rewrite app_nil_r. Qed.

Lemma word_shown name v : name ++ SPACE :: quote v = show_node (nd name [arg v] None).
Proof. flat. by rewrite app_nil_r. Qed.

Lemma etc_shown m : etc_ m = show_node (etc_doc m).
Proof. destruct m; [done|]. unfold etc_. rewrite <-quote_bare by done. exact (word_shown (B "etc") (B "host")). Qed.

(** What a node is written as is the canonical text of its document. *)
Lemma node_shown `{SyscallNames} n t : node_wf n -> node n = Ok t -> t = show_node (node_doc n).
Proof.
  intros Hw Hn. destruct n as [s|ps|l|m|z|m|m|cfg|d|argv]; cbn [node] in Hn; inv_ok; cbn [node_doc].
  - by apply service_shown.
  - destruct (bool_decide _); [done|]. inv_ok. apply env_shown.
  - destruct l as [|a [|b l]]; inv_ok. apply lint_shown.
  - apply etc_shown.
  - apply tmp_shown.
  - exact (word_shown (B "tty") _).
  - exact (word_shown (B "userns") _).
  - apply seccomp_shown.
  - exact (word_shown (B "desktop") _).
  - by apply command_shown.
Qed.
End Shown.
