(* ===== verification/ConfigReadBack.v ===== *)
(** Reading back what was written: the parsers of [ConfigParse] on the documents of
    [KdlDoc]. *)
From S2P Require Export KdlDoc.

(** ** Offsets and formats do not matter to a node *)

Definition strip (k : KdlNode) : KdlNode := mkNode (n_name k) 0 (n_ty k) (n_entries k) (n_children k) None.
Definition erase (n : KdlNode) : KdlNode := mkNode (n_name n) 0 (n_ty n) (n_entries n) (option_map (map strip) (n_children n)) None.

Lemma fold_map {E S A C} (f : S -> C -> result E S) (g : A -> C) l s : fold_res f s (map g l) = fold_res (fun s a => f s (g a)) s l.
Proof. revert s. induction l as [|a l IH]; intros s; cbn; [done|]. destruct (f s (g a)); [apply IH|done]. Qed.

Lemma fold_ext {E S A} (f g : S -> A -> result E S) l s : (forall s a, f s a = g s a) -> fold_res f s l = fold_res g s l.
Proof. intros Hf. revert s. induction l as [|a l IH]; intros s; cbn; [done|]. rewrite Hf. destruct (g s a); [apply IH|done]. Qed.

Lemma fold_strip {E S} (f : S -> KdlNode -> result E S) kids s : (forall s k, f s (strip k) = f s k) -> fold_res f s (map strip kids) = fold_res f s kids.
Proof. intros Hf. rewrite fold_map. by apply fold_ext. Qed.

Lemma fold_default {E S} (f : S -> KdlNode -> result E S) kids s : (forall s k, f s (strip k) = f s k) ->
  fold_res f s (default [] (option_map (map strip) kids)) = fold_res f s (default [] kids).
Proof. intros Hf. destruct kids; [|done]. by apply fold_strip. Qed.

Section Erase.
Context `{IpText, SyscallNames}.

Lemma no_children_erase n : no_children (erase n) = no_children n.
Proof. by destruct n as [? ? ? ? [|] ?]. Qed.

Lemma parse_audio_erase n : parse_audio (erase n) = parse_audio n.
Proof.
  unfold parse_audio. destruct n as [name o ty es kids l]. cbn [n_children erase].
  rewrite fold_default by (intros s [? ? ? ? [|] ?]; reflexivity). reflexivity.
Qed.

Lemma parse_bus_rules_erase n own : parse_bus_rules (erase n) own = parse_bus_rules n own.
Proof.
  unfold parse_bus_rules. destruct n as [name o ty es [kids|] l]; [|reflexivity]. cbn [n_children erase option_map].
  rewrite fold_strip by (intros s [? ? ? ? [|] ?]; reflexivity). reflexivity.
Qed.

Lemma parse_network_erase n : parse_network (erase n) = parse_network n.
Proof.
  unfold parse_network. destruct n as [name o ty es kids l]. cbn [n_children erase n_entries].
  assert (forall m, fold_res network_child (mkNetwork (default Mode.Isolated m) [] [] false Outbound.Allow [] [], false) (default [] (option_map (map strip) kids)) =
    fold_res network_child (mkNetwork (default Mode.Isolated m) [] [] false Outbound.Allow [] [], false) (default [] kids)) as Hk.
  { intros m. apply fold_default. intros [[] ?] [? ? ? ? [|] ?]; reflexivity. }
  match goal with |- ?m ≫= _ = ?m' ≫= _ => change m' with m; destruct m as [m0|e]; [|reflexivity] end.
  cbn [mbind result_bind]. by rewrite Hk.
Qed.

Lemma parse_seccomp_erase n : parse_seccomp (erase n) = parse_seccomp n.
Proof.
  unfold parse_seccomp. destruct n as [name o ty es kids l]. cbn [n_children erase].
  rewrite fold_default by (intros s [? ? ? ? [|] ?]; reflexivity). reflexivity.
Qed.

(** The camera of a [portals] block, its offset aside. *)
Definition unplaced (st : list Portal.t * option (Service.t * Z)) : list Portal.t * option (Service.t * Z) :=
  (st.1, option_map (fun c => (c.1, 0)) st.2).

Lemma portals_loop_erase n kids st :
  fold_res (portals_child n) (unplaced st) (map strip kids) = unplaced <$> fold_res (portals_child n) st kids.
Proof.
  revert st. induction kids as [|k kids IH]; intros st; [done|]. cbn [map fold_res].
  assert (portals_child n (unplaced st) (strip k) = unplaced <$> portals_child n st k) as ->.
  { destruct st as [ch cam], k as [kn ko kty kes kk kl]. unfold portals_child. unfold unplaced at 1. cbn [fst snd].
    match goal with |- (reject_types ?a ≫= _) = _ <$> (reject_types ?b ≫= _) => change (reject_types a) with (reject_types b); destruct (reject_types b) as [[]|]; [|reflexivity] end.
    cbn [mbind result_bind n_name strip]. case_bool_decide.
    - destruct cam as [c|]; [reflexivity|]. cbn [option_map is_some].
      match goal with |- (parse_camera ?a ≫= _) = _ <$> (parse_camera ?b ≫= _) => assert (parse_camera a = parse_camera b) as -> by (by destruct kk); by destruct (parse_camera b) end.
    - destruct (Portal.from_name kn); [|reflexivity].
      match goal with |- (if has_entries_or_children ?a then _ else _) = _ <$> (if has_entries_or_children ?b then _ else _) =>
        assert (has_entries_or_children a = has_entries_or_children b) as -> by (by destruct kk); destruct (has_entries_or_children b); [reflexivity|] end.
      by case_bool_decide. }
  destruct (portals_child n st k); [|reflexivity]. apply IH.
Qed.

Lemma parse_portals_erase n : parse_portals (erase n) = (fun r => (r.1, option_map (fun c => (c.1, 0)) r.2)) <$> parse_portals n.
Proof.
  destruct n as [name o ty es kids l]. unfold parse_portals.
  match goal with |- (reject_types ?a ≫= _) = _ <$> (reject_types ?b ≫= _) => change (reject_types a) with (reject_types b); destruct (reject_types b) as [[]|]; [|reflexivity] end.
  cbn [mbind result_bind].
  match goal with |- (reject_arguments ?a ≫= _) = _ <$> (reject_arguments ?b ≫= _) => change (reject_arguments a) with (reject_arguments b); destruct (reject_arguments b) as [[]|]; [|reflexivity] end.
  cbn [mbind result_bind n_children erase]. destruct kids as [kids|]; [|reflexivity]. cbn [option_map].
  pose proof (portals_loop_erase (mkNode name o ty es (Some kids) l) kids ([], None)) as Hl.
  match goal with |- fold_res ?f ?s ?k ≫= _ = _ => change (fold_res f s k) with (fold_res (portals_child (mkNode name o ty es (Some kids) l)) (unplaced ([], None)) k) end.
  rewrite Hl. by destruct (fold_res _ ([], None) kids) as [[ch cam]|].
Qed.

(** The parsers that look at no child. *)
Lemma reject_entries_erase n : reject_entries (erase n) = reject_entries n.
Proof. by destruct n as [? ? ? ? [|] ?]. Qed.
Lemma parse_dri_erase n : parse_dri (erase n) = parse_dri n.
Proof. by destruct n as [? ? ? ? [|] ?]. Qed.
Lemma parse_etc_share_erase n : parse_etc_share (erase n) = parse_etc_share n.
Proof. by destruct n as [? ? ? ? [|] ?]. Qed.
Lemma parse_wayland_erase n : parse_wayland (erase n) = parse_wayland n.
Proof. by destruct n as [? ? ? ? [|] ?]. Qed.
Lemma parse_x11_erase n : parse_x11 (erase n) = parse_x11 n.
Proof. by destruct n as [? ? ? ? [|] ?]. Qed.
Lemma parse_gamepad_erase n : parse_gamepad (erase n) = parse_gamepad n.
Proof. by destruct n as [? ? ? ? [|] ?]. Qed.
Lemma parse_camera_erase n : parse_camera (erase n) = parse_camera n.
Proof. by destruct n as [? ? ? ? [|] ?]. Qed.
Lemma parse_mpris_erase n : parse_mpris (erase n) = parse_mpris n.
Proof. by destruct n as [? ? ? ? [|] ?]. Qed.
Lemma parse_etc_erase n : parse_etc (erase n) = parse_etc n.
Proof. by destruct n as [? ? ? ? [|] ?]. Qed.
Lemma parse_tmp_erase n : parse_tmp (erase n) = parse_tmp n.
Proof. by destruct n as [? ? ? ? [|] ?]. Qed.
Lemma parse_tty_erase n : parse_tty (erase n) = parse_tty n.
Proof. by destruct n as [? ? ? ? [|] ?]. Qed.
Lemma parse_userns_erase n : parse_userns (erase n) = parse_userns n.
Proof. by destruct n as [? ? ? ? [|] ?]. Qed.
Lemma parse_env_erase n : parse_env (erase n) = parse_env n.
Proof. by destruct n as [? ? ? ? [|] ?]. Qed.
Lemma parse_lint_allow_erase n : parse_lint_allow (erase n) = parse_lint_allow n.
Proof. by destruct n as [? ? ? ? [|] ?]. Qed.
Lemma parse_desktop_erase n : parse_desktop (erase n) = parse_desktop n.
Proof. by destruct n as [? ? ? ? [|] ?]. Qed.
Lemma parse_command_erase n : parse_command (erase n) = parse_command n.
Proof. by destruct n as [? ? ? ? [|] ?]. Qed.
Lemma parse_share_erase {T} what (validate : KdlNode -> bytes -> result ConfigError T) allow n :
  (forall s, validate (erase n) s = validate n s) -> parse_share what validate allow (erase n) = parse_share what validate allow n.
Proof.
  intros Hv. unfold parse_share. change (n_entries (erase n)) with (n_entries n). rewrite no_children_erase.
  rewrite (fold_ext (share_entry what validate allow (erase n)) (share_entry what validate allow n)); [reflexivity|].
  intros [[v m] o] e. unfold share_entry. change (bad (erase n)) with (bad n). change (string_of (erase n)) with (string_of n).
  change (bool_of (erase n)) with (bool_of n). change (unknown_property (erase n)) with (unknown_property n).
  destruct (e_name e); [reflexivity|]. destruct (is_some v); [reflexivity|]. destruct (string_of _ _ _); [|reflexivity]. cbn [mbind result_bind]. by rewrite Hv.
Qed.

Lemma parse_dbus_erase n : parse_dbus (erase n) = parse_dbus n.
Proof. unfold parse_dbus. by rewrite parse_bus_rules_erase. Qed.
Lemma parse_system_bus_erase n : parse_system_bus (erase n) = parse_system_bus n.
Proof. unfold parse_system_bus. by rewrite parse_bus_rules_erase. Qed.

Lemma portals_only n : (parse_portals (erase n) ≫= fun '(portals, _) => Ok (Node.Service portals)) =
  (parse_portals n ≫= fun '(portals, _) => Ok (Node.Service portals) : result ConfigError Node.t).
Proof. rewrite parse_portals_erase. by destruct (parse_portals n) as [[]|]. Qed.

Lemma parse_named_erase n profile : parse_named (erase n) profile = parse_named n profile.
Proof.
  unfold parse_named, named. change (n_name (erase n)) with (n_name n). change (bad (erase n)) with (bad n).
  rewrite parse_audio_erase, portals_only, parse_network_erase, parse_seccomp_erase, parse_dbus_erase, parse_system_bus_erase.
  rewrite !parse_share_erase by reflexivity.
  rewrite reject_entries_erase, parse_dri_erase, parse_etc_share_erase, parse_wayland_erase, parse_x11_erase, parse_gamepad_erase, parse_camera_erase, parse_mpris_erase, parse_etc_erase, parse_tmp_erase, parse_tty_erase, parse_userns_erase, parse_env_erase, parse_lint_allow_erase, parse_desktop_erase, parse_command_erase.
  reflexivity.
Qed.

(** A node reads the same wherever it stands. *)
Lemma parse_one_erase n profile : parse_one (erase n) profile = parse_one n profile.
Proof.
  unfold parse_one. rewrite parse_named_erase. change (n_name (erase n)) with (n_name n). change (reject_types (erase n)) with (reject_types n). reflexivity.
Qed.
End Erase.

(** ** The arm a name takes *)

Lemma reject_types_doc n : reject_types (node_of n) = Ok tt.
Proof.
  unfold reject_types. cbn [n_ty node_of n_entries orb]. generalize (l_entries (c_line n)). intros es. by replace (existsb e_ty (map entry_of es)) with false by (by induction es).
Qed.

Lemma reject_types_kid k : reject_types (kid_of k) = Ok tt.
Proof.
  unfold reject_types. cbn [n_ty kid_of n_entries orb]. generalize (l_entries k). intros es. by replace (existsb e_ty (map entry_of es)) with false by (by induction es).
Qed.

Ltac take_arm :=
  unfold parse_one; rewrite reject_types_doc; cbn [mbind result_bind n_name node_of c_line nd ln l_name];
  match goal with |- context [bool_decide (?w ∈ NODES)] => change (bool_decide (w ∈ NODES)) with true end; cbn [negb andb];
  unfold parse_named, named; cbn [n_name node_of c_line nd ln l_name]; names_in.

Section Read.
Context `{IpText, !IpTextLaws, SyscallNames}.

Lemma read_switch_dri kms p : parse_one (node_of (service_doc (Service.Dri kms))) p = Ok (Node.Service (Service.Dri kms)).
Proof. cbn [service_doc]. take_arm. by destruct kms. Qed.

Lemma read_share {T} (what : bytes) (validate : KdlNode -> bytes -> result ConfigError T) allow name v m o r :
  (forall n, validate n v = Ok r) -> (allow = false -> o = false) ->
  parse_share what validate allow (node_of (nd name (share_entries v m o) None)) = Ok (r, m, o).
Proof.
  intros Hv Ho. unfold parse_share. cbn [n_entries node_of c_line nd ln l_entries share_entries app map fold_res].
  unfold share_entry at 1. cbn. rewrite Hv. cbn. destruct allow, o; try (by destruct m). by specialize (Ho eq_refl).
Qed.
End Read.

(** ** Texts of values *)

Lemma component_piece first s : piece s -> component_of first s = Some (Normal s).
Proof. intros (He & Hd & Hdd & _). unfold component_of. by rewrite !bool_decide_false. Qed.

Lemma components_pieces ws : ws <> [] -> Forall piece ws ->
  components (join [SLASH] ws) = map Normal ws /\ components (join [SLASH] ([] :: ws)) = RootDir :: map Normal ws.
Proof.
  intros Hn Hw.
  assert (Forall (fun w => SLASH ∉ w) ws) as Hs by (eapply Forall_impl; [exact Hw|]; by intros w (_ & _ & _ & ?)).
  assert (forall l, Forall piece l -> omap (component_of false) l = map Normal l) as Hm.
  { clear. induction 1 as [|w l Hw _ IH]; [done|]. cbn [omap list_omap map]. rewrite component_piece by done. by rewrite <-IH. }
  split; unfold components.
  - rewrite split_join by done. destruct ws as [|w ws]; [done|]. inversion_clear Hw as [|? ? Hw1 Hw2]. rewrite bool_decide_false by apply Hw1.
    rewrite component_piece by done. by rewrite Hm.
  - rewrite split_join; [|done|constructor; [apply not_elem_of_nil|done]]. rewrite bool_decide_true, bool_decide_false by done. by rewrite Hm.
Qed.

Lemma texts_normal l : map component_text (map Normal l) = l.
Proof. induction l as [|w l IH]; [done|]. cbn. by rewrite IH. Qed.

Lemma relative_text p : p <> [] -> pieces p -> components (path_text p) = p.
Proof.
  intros Hn (l & -> & Hl). assert (l <> []) by (by destruct l). unfold path_text.
  replace (match map Normal l with [RootDir] => B "/" | _ => join [SLASH] (map component_text (map Normal l)) end) with (join [SLASH] l).
  - by apply components_pieces.
  - rewrite texts_normal. by destruct l as [|w [|v l]].
Qed.

Lemma absolute_text q : pieces q -> components (path_text (RootDir :: q)) = RootDir :: q.
Proof.
  intros (l & -> & Hl). destruct l as [|w l]; [reflexivity|].
  change (path_text (RootDir :: map Normal (w :: l))) with (join [SLASH] ([] :: map component_text (map Normal (w :: l)))).
  rewrite texts_normal. by apply components_pieces.
Qed.

Lemma normal_map l : forallb is_normal (map Normal l) = true.
Proof. induction l; [done|]. done. Qed.

Lemma read_relative n p : p <> [] -> pieces p -> validate_relative n (path_text p) = Ok p.
Proof.
  intros Hn Hp. unfold validate_relative. rewrite relative_text by done. pose proof Hp as (l & -> & Hl). rewrite normal_map.
  rewrite bool_decide_false; [done|]. intros He. pose proof (relative_text _ Hn Hp) as Ht. rewrite He in Ht. by rewrite <-Ht in Hn.
Qed.

Lemma read_absolute n q : pieces q -> validate_absolute n (path_text (RootDir :: q)) = Ok (RootDir :: q).
Proof. intros Hp. unfold validate_absolute. rewrite absolute_text by done. destruct Hp as (l & -> & _). by rewrite normal_map. Qed.

Lemma digits_val_below l : forallb is_ascii_digit l = true -> 0 <= digits_val l < 10 ^ len l.
Proof.
  induction l as [|b l IH] using rev_ind; [done|]. rewrite forallb_app. cbn [forallb]. intros [Hl Hb]%andb_true_iff. specialize (IH Hl).
  assert (10 ^ len (l ++ [b]) = 10 * 10 ^ len l) as ->.
  { rewrite len_app, len_cons, len_nil, <-Z.pow_succ_r by apply len_nonneg. by f_equal. }
  rewrite digits_val_app. unfold is_ascii_digit, digit_val in *. lia.
Qed.

Lemma decimal_first n : 0 < n -> starts_with (B "0") (decimal n) = false.
Proof.
  intros Hn. destruct (decimal_spec n ltac:(lia)) as (Hne & Hd & Hv & Hb). destruct (decimal n) as [|b l] eqn:E; [done|].
  unfold starts_with. cbn. destruct (decide (Init.Byte.x30 = b)) as [<-|]; [|done]. exfalso.
  cbn [forallb] in Hd. apply andb_true_iff in Hd as [_ Hd]. pose proof (digits_val_below l Hd).
  assert (digits_val l = n) by (rewrite <-Hv; done). rewrite len_cons in Hb. replace (1 + len l - 1) with (len l) in Hb by lia. lia.
Qed.

Lemma decimal_no b n : 0 <= n -> is_ascii_digit b = false -> b ∉ decimal n.
Proof.
  intros Hn Hb Hin. destruct (decimal_spec n Hn) as (_ & Hd & _). rewrite forallb_spec, Forall_forall in Hd. specialize (Hd _ Hin). congruence.
Qed.

Lemma positive_decimal n : 0 < n <= U32_MAX -> positive (decimal n) = Some n.
Proof.
  intros Hn. unfold positive. destruct (decimal_spec n ltac:(lia)) as (_ & -> & _). rewrite decimal_first by lia. apply parse_uint_decimal. lia.
Qed.

Lemma geometry_text w h : 0 < w <= U32_MAX -> 0 < h <= U32_MAX ->
  parse_geometry (decimal w ++ B "x" ++ decimal h) = Some (decimal w ++ B "x" ++ decimal h).
Proof.
  intros Hw Hh. unfold parse_geometry. change (B "x" ++ decimal h) with (Init.Byte.x78 :: decimal h).
  rewrite split_once_app by (apply decimal_no; [lia|done]). cbn [mbind option_bind]. rewrite !positive_decimal by done. done.
Qed.

Lemma size_scale_text n b : size_scale (decimal n ++ [b]) = match
    (if bool_decide (b = Init.Byte.x4b) then Some 1024 else if bool_decide (b = Init.Byte.x4d) then Some (1024 * 1024)
     else if bool_decide (b = Init.Byte.x47) then Some (1024 * 1024 * 1024) else None) with Some s => Some (decimal n, s) | None => None end.
Proof.
  unfold size_scale. rewrite last_snoc. rewrite len_app, len_cons, len_nil. replace (len (decimal n) + (1 + 0) - 1) with (len (decimal n)) by lia.
  rewrite upto_app. by repeat case_bool_decide.
Qed.

Lemma size_text_read size : size_wf size -> exists n scale b,
  size_text size = decimal n ++ [b] /\ size_scale (size_text size) = Some (decimal n, scale) /\ 0 <= n /\ n * scale = size /\ 0 < scale.
Proof.
  intros [Hs Hk]. unfold size_text.
  assert (forall k, 0 < k -> size mod k = 0 -> 0 <= size / k /\ size / k * k = size) as Hd.
  { intros k Hk0 Hm. split; [apply Z.div_pos; lia|]. pose proof (Z.div_mod size k ltac:(lia)). lia. }
  destruct (Z.eqb_spec (size mod (1024 * 1024 * 1024)) 0) as [Hg|_]; [|destruct (Z.eqb_spec (size mod (1024 * 1024)) 0) as [Hg|_]; [|rewrite Hk; cbn [Z.eqb]]].
  - destruct (Hd (1024 * 1024 * 1024) ltac:(lia) Hg) as [Hlo Hhi]. exists (size / (1024 * 1024 * 1024)), (1024 * 1024 * 1024), Init.Byte.x47. split; [done|]. split; [apply (size_scale_text _ Init.Byte.x47)|]. split; [exact Hlo|]. split; [exact Hhi|lia].
  - destruct (Hd (1024 * 1024) ltac:(lia) Hg) as [Hlo Hhi]. exists (size / (1024 * 1024)), (1024 * 1024), Init.Byte.x4d. split; [done|]. split; [apply (size_scale_text _ Init.Byte.x4d)|]. split; [exact Hlo|]. split; [exact Hhi|lia].
  - destruct (Hd 1024 ltac:(lia) Hk) as [Hlo Hhi]. exists (size / 1024), 1024, Init.Byte.x4b. split; [done|]. split; [apply (size_scale_text _ Init.Byte.x4b)|]. split; [exact Hlo|]. split; [exact Hhi|lia].
Qed.

Lemma read_tmp size : size_wf size -> parse_tmp (node_of (tmp_doc size)) = Ok size.
Proof.
  intros Hw. destruct (size_text_read size Hw) as (n & scale & b & Ht & Hsc & Hn & Hm & Hp). destruct Hw as [Hs _].
  unfold parse_tmp, tmp_doc. cbn [no_children n_children node_of nd c_kids option_map mbind result_bind n_entries c_line ln l_entries map fold_res].
  unfold tmp_entry. cbn [entry_of prop w_prop w_word e_name e_value value_of string_of as_string ok_or mbind result_bind]. names_in. cbn [mbind result_bind ok_or string_of as_string e_value value_of].
  rewrite Hsc. cbn [ok_or mbind result_bind].
  assert (starts_with [PLUS] (decimal n) = false) as ->.
  { destruct (decimal n) as [|c l] eqn:E; [done|]. unfold starts_with. cbn. destruct (decide (PLUS = c)) as [<-|]; [|done].
    exfalso. by apply (decimal_no PLUS n); [| |rewrite E; left]. }
  unfold TMP_SIZE_MAX in Hs. rewrite parse_uint_decimal by (unfold U64_MAX; nia). cbn [mbind option_bind]. unfold checked_mul. rewrite Hm.
  rewrite (proj2 (Z.leb_le _ _)) by (unfold U64_MAX; lia). cbn [ok_or mbind result_bind].
  rewrite (proj2 (Z.eqb_neq _ _)) by lia. destruct (Z.gtb_spec size TMP_SIZE_MAX) as [Hgt|]; [unfold TMP_SIZE_MAX in Hgt; lia|done].
Qed.

(** ** Children *)

Section Kids.
Context `{IpText, !IpTextLaws}.

(** Children that are each read, in order. *)
Lemma fold_kids {A S} (f : S -> KdlNode -> result ConfigError S) (g : A -> line_node) (st : list A -> S) (P : list A -> A -> Prop) l :
  (forall done_ a, P done_ a -> f (st done_) (kid_of (g a)) = Ok (st (done_ ++ [a]))) ->
  (forall k a m, l = k ++ a :: m -> P k a) ->
  forall k m, l = k ++ m -> fold_res f (st k) (map kid_of (map g m)) = Ok (st l).
Proof.
  intros Hf HP k m. revert k. induction m as [|a m IH]; intros k Hl; cbn [map fold_res].
  - by rewrite app_nil_r in Hl; subst.
  - rewrite Hf by (by eapply HP). apply IH. rewrite Hl. by rewrite <-app_assoc.
Qed.

Lemma port_read n p e : port_wf p -> e_value e = KInteger p -> port_of n e = Ok p.
Proof.
  intros Hp He. unfold port_of. rewrite He. cbn [as_integer mbind option_bind]. unfold port_wf in Hp.
  rewrite (proj2 (Z.leb_le 1 p)), (proj2 (Z.leb_le p U16_MAX)) by lia. done.
Qed.

Lemma out_port_read n d q p : port_wf p -> allow_out_entry n (d, None, q) (entry_of (prop (B "port") (Num p))) = Ok (d, Some p, q).
Proof. intros Hp. unfold allow_out_entry. cbn [e_name entry_of prop w_prop is_some]. names_in. erewrite port_read; [|exact Hp|done]. done. Qed.

Lemma host_port_read n d p : port_wf p -> allow_host_entry n (d, None) (entry_of (prop (B "port") (Num p))) = Ok (d, Some p).
Proof. intros Hp. unfold allow_host_entry. cbn [e_name entry_of prop w_prop is_some]. names_in. erewrite port_read; [|exact Hp|done]. done. Qed.

Lemma forward_port_read n u p : port_wf p -> allow_port_entry n (None, u) (entry_of (num p)) = Ok (Some p, u).
Proof. intros Hp. unfold allow_port_entry. cbn [e_name entry_of num w_prop is_some]. erewrite port_read; [|exact Hp|done]. done. Qed.

Lemma out_dest_read n c : cidr_wf c -> allow_out_entry n (None, None, None) (entry_of (arg (Cidr.fmt c))) = Ok (Some c, None, None).
Proof. intros Hc. unfold allow_out_entry. cbn. by rewrite cidr_printed. Qed.

Lemma host_name_read n p : wf_pattern p -> len (HostPattern.fmt p) <= 253 ->
  allow_host_entry n (None, None) (entry_of (arg (HostPattern.fmt p))) = Ok (Some p, None).
Proof. intros Hp Hl. unfold allow_host_entry. cbn. by rewrite parse_fmt. Qed.

Lemma read_allow_out a : out_wf a -> parse_allow_out (kid_of (allow_out_doc a)) = Ok a.
Proof.
  intros [Hc Hp]. destruct a as [d p q]. unfold parse_allow_out. set (n := kid_of _).
  change (n_entries n) with (entry_of (arg (Cidr.fmt d)) :: map entry_of (match p with Some p => [prop (B "port") (Num p)] | None => [] end ++
    match q with Some q => [prop (B "proto") (Quoted (Proto.keyword q))] | None => [] end)). clearbody n.
  cbn [fold_res]. rewrite out_dest_read by done. rewrite map_app, fold_app. cbn [AllowOut.port] in Hp.
  destruct p as [p|]; cbn [map fold_res]; [rewrite out_port_read by done|]; by destruct q as [[]|].
Qed.

Lemma read_allow_host a : host_wf a -> parse_allow_host (kid_of (allow_host_doc a)) = Ok a.
Proof.
  intros (Hw & Hl & Hp). destruct a as [pt p]. cbn [AllowHost.port AllowHost.pattern] in *. unfold parse_allow_host. set (n := kid_of _).
  change (n_entries n) with (entry_of (arg (HostPattern.fmt pt)) :: map entry_of (if negb (p =? AllowHost.DEFAULT_PORT) then [prop (B "port") (Num p)] else [])). clearbody n.
  cbn [fold_res]. rewrite host_name_read by done.
  destruct (Z.eqb_spec p AllowHost.DEFAULT_PORT) as [->|Hne]; cbn [negb map fold_res]; [done|]. by rewrite host_port_read.
Qed.

Lemma read_allow_port f : port_wf (f_port f) -> parse_allow_port (kid_of (allow_port_doc f)) = Ok f.
Proof.
  intros Hp. destruct f as [p u]. unfold parse_allow_port. set (n := kid_of _).
  change (n_entries n) with (entry_of (num p) :: map entry_of (switch (B "udp") u)). clearbody n.
  cbn [fold_res]. rewrite forward_port_read by done. by destruct u.
Qed.

Lemma read_dns a : ip_wf a -> parse_dns (kid_of (ln (B "dns") [arg (ip_text a)])) = Ok a.
Proof. intros Ha. unfold parse_dns. cbn. by rewrite ip_from_text. Qed.
End Kids.

Section NetworkBack.
Context `{IpText, !IpTextLaws}.

Lemma fold_all {A S} (f : S -> KdlNode -> result ConfigError S) (g : A -> line_node) (st : list A -> S) l :
  NoDup l -> (forall k a, a ∉ k -> a ∈ l -> f (st k) (kid_of (g a)) = Ok (st (k ++ [a]))) ->
  fold_res f (st []) (map kid_of (map g l)) = Ok (st l).
Proof.
  intros Hn Hf. assert (forall k m, l = k ++ m -> fold_res f (st k) (map kid_of (map g m)) = Ok (st l)) as Hgo; [|by apply (Hgo [])].
  intros k m. revert k. induction m as [|a m IH]; intros k Hl; cbn [map fold_res]; [by rewrite app_nil_r in Hl; subst|].
  rewrite Hf.
  - apply IH. rewrite Hl. by rewrite <-app_assoc.
  - intros Hin. rewrite Hl in Hn. apply NoDup_app in Hn as (_ & Hd & _). eapply Hd; [exact Hin|by left].
  - rewrite Hl. apply elem_of_app. right. by left.
Qed.

Ltac child_of w :=
  unfold network_child; rewrite reject_types_kid;
  match goal with |- context [no_children ?k] => change (no_children k) with (Ok tt : result ConfigError unit); change (n_name k) with w end;
  cbn [mbind result_bind]; names_in.

Lemma dns_child m fwd no6 ob ao ah seen k a : ip_wf a -> (m = Mode.Isolated -> is_loopback a = false) -> a ∉ k ->
  network_child (mkNetwork m k fwd no6 ob ao ah, seen) (kid_of (ln (B "dns") [arg (ip_text a)])) = Ok (mkNetwork m (k ++ [a]) fwd no6 ob ao ah, seen).
Proof.
  intros Ha Hl Hk. child_of (B "dns"). rewrite read_dns by done. cbn [mbind result_bind].
  destruct (decide (m = Mode.Isolated)) as [Hm|Hm].
  - rewrite (Hl Hm). cbn [andb]. by rewrite bool_decide_false.
  - rewrite (bool_decide_false (m = Mode.Isolated)) by done. rewrite andb_false_r. by rewrite bool_decide_false.
Qed.

Lemma out_child m dns fwd no6 ob k ah seen a : out_wf a -> a ∉ k ->
  network_child (mkNetwork m dns fwd no6 ob k ah, seen) (kid_of (allow_out_doc a)) = Ok (mkNetwork m dns fwd no6 ob (k ++ [a]) ah, seen).
Proof. intros Ha Hk. child_of (B "allow-out"). rewrite (read_allow_out a) by done. cbn [mbind result_bind]. by rewrite bool_decide_false. Qed.

Lemma host_child m dns fwd no6 ob ao k seen a : host_wf a -> a ∉ k ->
  network_child (mkNetwork m dns fwd no6 ob ao k, seen) (kid_of (allow_host_doc a)) = Ok (mkNetwork m dns fwd no6 ob ao (k ++ [a]), seen).
Proof. intros Ha Hk. child_of (B "allow-host"). rewrite (read_allow_host a) by done. cbn [mbind result_bind]. by rewrite bool_decide_false. Qed.

Lemma port_child m dns k no6 ob ao ah seen f : port_wf (f_port f) -> f ∉ k ->
  network_child (mkNetwork m dns k no6 ob ao ah, seen) (kid_of (allow_port_doc f)) = Ok (mkNetwork m dns (k ++ [f]) no6 ob ao ah, seen).
Proof. intros Ha Hk. child_of (B "allow-port"). rewrite (read_allow_port f) by done. cbn [mbind result_bind]. by rewrite bool_decide_false. Qed.

Lemma network_kids_read cfg : network_wf cfg -> network_meant cfg ->
  fold_res network_child (mkNetwork (mode cfg) [] [] false Outbound.Allow [] [], false) (map kid_of (network_kids_doc cfg)) =
  Ok (cfg, bool_decide (outbound cfg = Outbound.Deny)).
Proof.
  intros [Wd Wf Wo Wh] [_ _ Ml _ _ _ (Nd & Nf & No & Nh)]. destruct cfg as [m dns fwd no6 ob ao ah]. cbn in *.
  unfold network_kids_doc. cbn [outbound n_dns allow_out allow_hosts n_forwards no_ipv6 mode]. rewrite !map_app. rewrite fold_app.
  assert (fold_res network_child (mkNetwork m [] [] false Outbound.Allow [] [], false)
    (map kid_of (if bool_decide (ob = Outbound.Deny) then [ln (B "outbound") [arg (B "deny")]] else [])) =
    Ok (mkNetwork m [] [] false ob [] [], bool_decide (ob = Outbound.Deny))) as ->.
  { destruct ob; [reflexivity|]. change (bool_decide (Outbound.Deny = Outbound.Deny)) with true. cbn [map fold_res]. child_of (B "outbound"). done. }
  cbn [mbind result_bind]. generalize (bool_decide (ob = Outbound.Deny)) as seen. intros seen. rewrite Forall_forall in Wd; rewrite Forall_forall in Wf; rewrite Forall_forall in Wo; rewrite Forall_forall in Wh.
  rewrite fold_app, (fold_all _ _ (fun k => (mkNetwork m k [] false ob [] [], seen)) dns Nd).
  2:{ intros k a Hk Ha. apply dns_child; [by apply Wd| |done]. intros ->. specialize (Ml eq_refl). rewrite Forall_forall in Ml. by apply Ml. }
  cbn [mbind result_bind]. rewrite fold_app, (fold_all _ _ (fun k => (mkNetwork m dns [] false ob k [], seen)) ao No).
  2:{ intros k a Hk Ha. apply out_child; [by apply Wo|done]. }
  cbn [mbind result_bind]. rewrite fold_app, (fold_all _ _ (fun k => (mkNetwork m dns [] false ob ao k, seen)) ah Nh).
  2:{ intros k a Hk Ha. apply host_child; [by apply Wh|done]. }
  cbn [mbind result_bind]. rewrite fold_app, (fold_all _ _ (fun k => (mkNetwork m dns k false ob ao ah, seen)) fwd Nf).
  2:{ intros k a Hk Ha. apply port_child; [by apply Wf|done]. }
  cbn [mbind result_bind]. destruct no6; [|done]. cbn [map fold_res]. child_of (B "no-ipv6"). done.
Qed.
End NetworkBack.

Section ServiceBack.
Context `{IpText, !IpTextLaws}.

Lemma existsb_forall {A} (f : A -> bool) l : Forall (fun a => f a = false) l -> existsb f l = false.
Proof. intros Hl. apply existsb_none. by rewrite Forall_forall in Hl. Qed.

Lemma meant_refusal cfg : network_meant cfg -> network_refusal cfg (bool_decide (outbound cfg = Outbound.Deny)) = None.
Proof.
  intros [Mn Ms _ Mf M6 Mp _]. unfold network_refusal.
  destruct (decide (mode cfg = Mode.Isolated)) as [Hi|Hi].
  - rewrite (bool_decide_true (mode cfg = Mode.Isolated)) by done. rewrite (bool_decide_false (mode cfg = Mode.None_)) by (by rewrite Hi). cbn [negb andb].
    assert (no_ipv6 cfg && (existsb Cidr.is_ipv6 (n_dns cfg) || existsb (fun a => Cidr.is_ipv6 (Cidr.addr (AllowOut.dest a))) (allow_out cfg)) = false) as ->.
    { destruct (no_ipv6 cfg) eqn:E6; [|done]. destruct (M6 eq_refl) as [Hd Ho]. by rewrite !existsb_forall. }
    assert (negb (bool_decide (outbound cfg = Outbound.Deny)) && negb (bool_decide (allow_out cfg = [])) = false) as ->.
    { destruct (decide (allow_out cfg = [])) as [->|Hn]; [apply andb_false_r|]. rewrite bool_decide_true; [done|]. apply Mf. by left. }
    assert (negb (bool_decide (outbound cfg = Outbound.Deny)) && negb (bool_decide (allow_hosts cfg = [])) = false) as ->.
    { destruct (decide (allow_hosts cfg = [])) as [->|Hn]; [apply andb_false_r|]. rewrite bool_decide_true; [done|]. apply Mf. by right. }
    destruct (decide (allow_hosts cfg = [])) as [->|Hn]; [done|]. destruct (Mp Hn) as [Hf Hh].
    rewrite existsb_forall by (eapply Forall_impl; [exact Hf|]; cbn; lia). rewrite andb_false_r.
    destruct (List.find _ _) as [a|] eqn:Ef; [|done]. apply List.find_some in Ef as [Hin Hp]. rewrite Forall_forall in Hh. apply list_elem_of_In, Hh in Hin. lia.
  - specialize (Ms Hi). rewrite (bool_decide_false (mode cfg = Mode.Isolated)) by done. rewrite Ms. cbn [outbound n_forwards no_ipv6 allow_out allow_hosts n_dns mode negb andb orb].
    cbn. destruct (decide (mode cfg = Mode.None_)) as [Hm|Hm].
    + rewrite (Mn Hm). by rewrite andb_false_r.
    + by rewrite bool_decide_false.
Qed.

Lemma read_network cfg : network_wf cfg -> network_meant cfg -> parse_network (node_of (network_doc cfg)) = Ok (Service.Network cfg).
Proof.
  intros Hw Hm. unfold parse_network.
  assert (default [] (n_children (node_of (network_doc cfg))) = map kid_of (network_kids_doc cfg)) as ->.
  { cbn. unfold some_kids. destruct (network_kids_doc cfg); [done|]. by rewrite bool_decide_false. }
  assert (exists m, fold_res (mode_entry (node_of (network_doc cfg))) None (n_entries (node_of (network_doc cfg))) = Ok m /\ default Mode.Isolated m = mode cfg) as (m & -> & Hd).
  { unfold network_doc. cbn [n_entries node_of c_line nd ln l_entries]. destruct (mode cfg); [by exists None|by exists (Some Mode.Host)|by exists (Some Mode.None_)]. }
  cbn [mbind result_bind]. rewrite Hd, network_kids_read by done. cbn [mbind result_bind]. by rewrite meant_refusal.
Qed.

Lemma name_elements_no l b : is_ascii_alphanumeric b = false -> b <> UNDERSCORE -> b <> DASH -> b <> STAR ->
  name_elements l = true -> Forall (fun e => b ∉ e) l.
Proof.
  intros Ha Hu Hd Hst. induction l as [|e l IH]; cbn [name_elements]; [constructor|]. intros [He Hl]%andb_true_iff. constructor; [|by apply IH]. intros Hin.
  apply orb_true_iff in He as [He|He].
  - destruct e as [|c e]; [done|]. cbn in He. apply andb_true_iff in He as [Hc He]. apply elem_of_cons in Hin as [<-|Hin].
    + assert (is_ascii_alphabetic b = false) as Hb by (unfold is_ascii_alphanumeric, is_ascii_alphabetic, is_ascii_upper, is_ascii_lower, is_ascii_digit in *; lia).
      rewrite Hb, !bool_decide_false in Hc by done. done.
    + rewrite forallb_spec, Forall_forall in He. specialize (He _ Hin). cbn in He. by rewrite Ha, !bool_decide_false in He.
  - apply andb_true_iff in He as [_ He]. bool_to_prop. subst e. apply elem_of_cons in Hin as [Hin|Hin]; [done|by apply elem_of_nil in Hin].
Qed.

(** The [=] of a rule is not in the name. *)
Lemma rule_split m rule : is_bus_name m = true -> Cidr.split_once Init.Byte.x3d (m ++ B "=" ++ rule) = Some (m, rule).
Proof.
  intros Hm. apply split_once_app. intros Hin. unfold is_bus_name, is_name_glob in Hm. apply andb_true_iff in Hm as [Hm _].
  pose proof (name_elements_no _ Init.Byte.x3d eq_refl ltac:(done) ltac:(done) ltac:(done) Hm) as Hel.
  rewrite <-(join_split DOT m) in Hin.
  assert (Forall (fun b => b <> Init.Byte.x3d) (join [DOT] (split_on DOT m))) as Hall.
  { apply Forall_join; [done|]. eapply Forall_impl; [exact Hel|]. intros e He. apply Forall_forall. intros b Hb ->. done. }
  rewrite Forall_forall in Hall. by apply (Hall _ Hin).
Qed.

Lemma kid_rule n own r : rule_wf r -> (forall name, r = BusRule.Own name -> own = true) -> bus_rule_of n own (kid_of (bus_rule_doc r)) = Ok r.
Proof.
  intros Hw Ho. unfold bus_rule_of. rewrite reject_types_kid.
  destruct r as [m|m|m|m rule|m rule]; cbn [rule_wf] in Hw.
  1-3: match goal with |- context [no_children ?k] => change (no_children k) with (Ok tt : result ConfigError unit); change (one_string_arg k) with (Ok m : result ConfigError bytes) end;
    cbn [mbind result_bind bus_rule_doc kid_of ln n_name l_name]; names_in; cbn [orb andb];
    rewrite ?(Ho m eq_refl); cbn [negb andb]; unfold bus_name; rewrite Hw; reflexivity.
  1-2: destruct Hw as (Hm & Hr & Hwh & Hnul);
    match goal with |- context [no_children ?k] => change (no_children k) with (Ok tt : result ConfigError unit); change (one_string_arg k) with (Ok (m ++ B "=" ++ rule) : result ConfigError bytes) end;
    cbn [mbind result_bind bus_rule_doc kid_of ln n_name l_name]; names_in; cbn [orb andb];
    rewrite (rule_split m rule Hm); cbn [ok_or mbind result_bind]; unfold bus_name; rewrite Hm; cbn [negb mbind result_bind];
    rewrite Hwh; rewrite !bool_decide_false by done; reflexivity.
Qed.

Lemma no_clash (rules k : list BusRule.t) r : (forall r1 r2 name l1 l2, r1 ∈ rules -> r2 ∈ rules -> BusRule.policy r1 = Some (name, l1) -> BusRule.policy r2 = Some (name, l2) -> l1 = l2) ->
  (forall x, x ∈ k -> x ∈ rules) -> r ∈ rules -> policy_clash k r = None.
Proof.
  intros Hone Hk Hr. unfold policy_clash. destruct (BusRule.policy r) as [[name level]|] eqn:Hp; [|done]. cbn.
  destruct (List.find _ _) as [[m was]|] eqn:Ef; [|done]. cbn. apply List.find_some in Ef as [Hin Hm]. cbn in Hm. bool_to_prop. subst m.
  apply list_elem_of_In, list_elem_of_omap in Hin as (x & Hx & Hxp). rewrite bool_decide_true; [done|]. eapply (Hone x r name); [by apply Hk|done..].
Qed.

Lemma read_rules n own rules : rules_wf rules -> (forall name, BusRule.Own name ∈ rules -> own = true) ->
  fold_res (bus_rule_step n own) [] (map kid_of (map bus_rule_doc rules)) = Ok rules.
Proof.
  intros [Hw Hone] Ho.
  assert (forall k m, rules = k ++ m -> fold_res (bus_rule_step n own) k (map kid_of (map bus_rule_doc m)) = Ok rules) as Hgo; [|by apply (Hgo [])].
  intros k m. revert k. induction m as [|r m IH]; intros k Hl; cbn [map fold_res]; [by rewrite app_nil_r in Hl; subst|].
  assert (r ∈ rules) as Hr by (rewrite Hl; apply elem_of_app; right; by left). unfold bus_rule_step at 1. rewrite Forall_forall in Hw.
  rewrite kid_rule; [|by apply Hw|intros name ->; by eapply Ho]. cbn [mbind result_bind]. rewrite (no_clash rules k r Hone); [|intros x Hx; rewrite Hl; apply elem_of_app; by left|done].
  apply IH. rewrite Hl. by rewrite <-app_assoc.
Qed.
End ServiceBack.

Section Back.
Context `{IpText, !IpTextLaws, SyscallNames}.

Ltac an_entry := cbn [entry_of prop arg w_prop w_word e_name e_value value_of]; names_in; cbn [is_some].

Lemma string_prop n p s m : string_of n (entry_of (prop p (Quoted s))) m = Ok s.
Proof. done. Qed.

Lemma string_arg n s m : string_of n (entry_of (arg s)) m = Ok s.
Proof. done. Qed.

Lemma geometry_entry n h f gr w g : parse_geometry g = Some g ->
  x11_entry n (Window.mk h None f gr w) (entry_of (prop (B "geometry") (Quoted g))) = Ok (Window.mk h (Some g) f gr w).
Proof. intros Hg. unfold x11_entry. an_entry. rewrite string_prop. cbn [mbind result_bind]. by rewrite Hg. Qed.

Lemma wm_entry n h g f gr w : is_wm w = true ->
  x11_entry n (Window.mk h g f gr None) (entry_of (prop (B "wm") (Quoted w))) = Ok (Window.mk h g f gr (Some w)).
Proof. intros Hw. unfold x11_entry. an_entry. rewrite string_prop. cbn [mbind result_bind]. by rewrite Hw. Qed.

Lemma read_x11 x : service_wf (Service.X11 (X11Mode.Nested x)) -> parse_x11 (node_of (x11_doc x)) = Ok (X11Mode.Nested x).
Proof.
  intros [(w & h & Hw & Hh & Hg) Hwm]. destruct x as [g f gr wm_]. cbn [geometry wm] in *.
  assert (parse_geometry g = Some g) as Hp by (rewrite Hg; by apply geometry_text). clear Hg.
  unfold parse_x11. set (n := node_of _). change (no_children n) with (Ok tt : result ConfigError unit). cbn [mbind result_bind].
  change (n_entries n) with (map entry_of ((if bool_decide (g = geometry default_nested) then [] else [prop (B "geometry") (Quoted g)]) ++
     switch (B "fullscreen") f ++ switch (B "grab") gr ++ match wm_ with Some w => [prop (B "wm") (Quoted w)] | None => [] end)).
  clearbody n. rewrite !map_app, !fold_app.
  set (g0 := if bool_decide (g = geometry default_nested) then None else Some g).
  assert (fold_res (x11_entry n) (Window.mk false None None None None) (map entry_of (if bool_decide (g = geometry default_nested) then [] else [prop (B "geometry") (Quoted g)])) =
    Ok (Window.mk false g0 None None None)) as ->.
  { unfold g0. case_bool_decide; [done|]. cbn [map fold_res]. by rewrite geometry_entry. }
  cbn [mbind result_bind]. rewrite fold_app.
  assert (fold_res (x11_entry n) (Window.mk false g0 None None None) (map entry_of (switch (B "fullscreen") f)) = Ok (Window.mk false g0 (if f then Some true else None) None None)) as ->
    by (by destruct f).
  cbn [mbind result_bind]. rewrite fold_app.
  assert (fold_res (x11_entry n) (Window.mk false g0 (if f then Some true else None) None None) (map entry_of (switch (B "grab") gr)) =
    Ok (Window.mk false g0 (if f then Some true else None) (if gr then Some true else None) None)) as -> by (by destruct gr).
  cbn [mbind result_bind].
  assert (fold_res (x11_entry n) (Window.mk false g0 (if f then Some true else None) (if gr then Some true else None) None)
    (map entry_of (match wm_ with Some w => [prop (B "wm") (Quoted w)] | None => [] end)) =
    Ok (Window.mk false g0 (if f then Some true else None) (if gr then Some true else None) wm_)) as ->.
  { destruct wm_ as [v|]; [|done]. cbn [map fold_res]. by rewrite wm_entry. }
  cbn [mbind result_bind]. unfold g0. do 3 f_equal; [by case_bool_decide|by destruct f|by destruct gr].
Qed.

Lemma read_portals ch : NoDup ch -> parse_portals (node_of (service_doc (Service.Portals ch))) = Ok (Service.Portals ch, None).
Proof.
  intros Hn. unfold parse_portals. cbn [service_doc]. rewrite reject_types_doc. set (n := node_of _). change (reject_arguments n) with (Ok tt : result ConfigError unit).
  cbn [mbind result_bind]. change (n_children n) with (option_map (map kid_of) (some_kids (map (fun p => ln (Portal.node_name p) []) ch))). clearbody n. unfold some_kids.
  case_bool_decide as He; [by destruct ch|]. cbn [option_map].
  rewrite (fold_all (portals_child n) (fun p => ln (Portal.node_name p) []) (fun k => (k, None)) ch Hn); [done|].
  intros k p Hk _. unfold portals_child. rewrite reject_types_kid. cbn [mbind result_bind].
  assert (Portal.from_name (n_name (kid_of (ln (Portal.node_name p) []))) = Some p /\ bool_decide (n_name (kid_of (ln (Portal.node_name p) [])) = B "camera") = false) as [-> ->]
    by (by destruct p).
  change (has_entries_or_children (kid_of (ln (Portal.node_name p) []))) with false. cbn iota. by rewrite bool_decide_false.
Qed.

Lemma read_bus_block name rules own : rules_wf rules -> (forall n, BusRule.Own n ∈ rules -> own = true) ->
  parse_bus_rules (node_of (nd name [] (some_kids (map bus_rule_doc rules)))) own = Ok rules.
Proof.
  intros Hw Ho. unfold parse_bus_rules. set (n := node_of _). change (reject_arguments n) with (Ok tt : result ConfigError unit). cbn [mbind result_bind].
  change (n_children n) with (option_map (map kid_of) (some_kids (map bus_rule_doc rules))). clearbody n. unfold some_kids.
  case_bool_decide as He; [by destruct rules|]. cbn [option_map]. by apply read_rules.
Qed.

Lemma read_etc_share name : piece name -> name ∉ RESERVED_ETC -> parse_etc_share (node_of (nd (B "etc-share") [arg name] None)) = Ok (Service.EtcShare name).
Proof.
  intros Hp Hr. unfold parse_etc_share. set (n := node_of _). change (no_children n) with (Ok tt : result ConfigError unit).
  change (n_entries n) with [entry_of (arg name)]. clearbody n. cbn [fold_res]. unfold etc_share_entry. change (e_name (entry_of (arg name))) with (@None bytes).
  rewrite string_arg. cbn [is_some mbind result_bind].
  destruct (components_pieces [name] ltac:(done) ltac:(by constructor)) as [Hc _]. cbn [join map] in Hc. rewrite Hc.
  destruct (List.find _ _) as [r|] eqn:Ef; [|done]. apply List.find_some in Ef as [Hin He]. bool_to_prop. subst r. by apply list_elem_of_In in Hin.
Qed.

Lemma read_mpris name : is_name_glob name 1 = true -> parse_mpris (node_of (nd (B "mpris") [prop (B "name") (Quoted name)] None)) = Ok (Service.Mpris name).
Proof.
  intros Hn. unfold parse_mpris. set (n := node_of _). change (no_children n) with (Ok tt : result ConfigError unit).
  change (n_entries n) with [entry_of (prop (B "name") (Quoted name))]. clearbody n. cbn [fold_res]. unfold mpris_entry. cbn [e_name entry_of prop w_prop]. names_in.
  rewrite string_prop. cbn [mbind result_bind]. by rewrite Hn.
Qed.

Lemma read_service s t p : service_wf s -> service s = Ok t -> parse_one (node_of (service_doc s)) p = Ok (Node.Service s).
Proof.
  intros Hw Ht. destruct s as [[[|]|]|[x|]|cfg|kms|m|m|q m o|q m o|n|rs|rs|ch| | |h u| |nodes|n| | |i m]; cbn [service_doc]; try (take_arm; reflexivity).
  - take_arm. by rewrite read_x11.
  - unfold network_doc. take_arm. fold (network_doc cfg). destruct Hw as [Hw Hm]. by rewrite read_network.
  - take_arm. by destruct kms.
  - take_arm. by destruct m.
  - take_arm. by destruct m.
  - take_arm. erewrite read_share; [reflexivity|intros n; apply read_relative; apply Hw|done].
  - take_arm. destruct Hw as (q' & -> & Hq). erewrite read_share; [reflexivity|intros n; apply read_absolute; exact Hq|done].
  - take_arm. destruct Hw as [Hp Hr]. by rewrite read_etc_share.
  - take_arm. unfold parse_dbus. rewrite read_bus_block; [done|exact Hw|done].
  - destruct Hw as (Hr & Hne & Ho). take_arm. unfold parse_system_bus.
    replace (Some (map bus_rule_doc rs)) with (some_kids (map bus_rule_doc rs)) by (unfold some_kids; by destruct rs).
    rewrite read_bus_block; [|done|intros m Hin; by destruct (Ho m)]. cbn [mbind result_bind]. by rewrite bool_decide_false.
  - pose proof (read_portals ch Hw) as Hr. cbn [service_doc] in Hr. take_arm. by rewrite Hr.
  - take_arm. by destruct h, u.
  - take_arm. by destruct nodes.
  - take_arm. cbn in Hw. by rewrite read_mpris.
  - take_arm. cbn in Hw. erewrite (read_share (B "id") validate_app_id false _ i m false i); [reflexivity| |done]. intros n. unfold validate_app_id. by rewrite Hw.
Qed.
End Back.

Section NodeBack.
Context `{IpText, !IpTextLaws, SyscallNames}.

Lemma read_env pairs : pairs <> [] -> Forall pair_wf pairs -> NoDup pairs.*1 -> parse_env (node_of (env_doc pairs)) = Ok pairs.
Proof.
  intros Hne Hw Hn. unfold parse_env. set (n := node_of _). change (no_children n) with (Ok tt : result ConfigError unit).
  change (n_entries n) with (map entry_of (map (fun kv => prop kv.1 (Quoted kv.2)) pairs)). rewrite bool_decide_false by (by destruct pairs). clearbody n.
  assert (forall k m, pairs = k ++ m -> fold_res (env_entry n) k (map entry_of (map (fun kv => prop kv.1 (Quoted kv.2)) m)) = Ok pairs) as Hgo.
  { intros k m. revert k. induction m as [|[key v] m IH]; intros k Hl; cbn [map fold_res]; [by rewrite app_nil_r in Hl; subst|].
    assert (pair_wf (key, v)) as (Hk & Hr & Hf) by (rewrite Hl in Hw; apply Forall_app in Hw as [_ Hw]; by inversion Hw).
    unfold env_entry at 1. change (e_name (entry_of (prop (key, v).1 (Quoted (key, v).2)))) with (Some key). cbn [ok_or mbind result_bind]. rewrite string_prop. cbn [mbind result_bind fst snd] in *.
    rewrite Hk, Hf. cbn [negb]. rewrite bool_decide_false by done.
    assert (existsb (fun kv => bool_decide (kv.1 = key)) k = false) as ->.
    { apply key_absent. intros Hin. rewrite Hl, fmap_app in Hn. apply NoDup_app in Hn as (_ & Hd & _). apply (Hd key); [exact Hin|]. by left. }
    apply IH. rewrite Hl. by rewrite <-app_assoc. }
  rewrite (Hgo [] pairs eq_refl). done.
Qed.

Lemma read_lint a : allow_wf a -> parse_lint_allow (node_of (lint_doc a)) = Ok a.
Proof.
  intros ((sev & Hc & Hs) & Hw & Hf). destruct a as [id why]. cbn [check_id reason] in *. unfold parse_lint_allow. set (n := node_of _). change (no_children n) with (Ok tt : result ConfigError unit).
  change (n_entries n) with [entry_of (arg id); entry_of (prop (B "reason") (Quoted why))]. clearbody n.
  assert (fold_res (lint_entry n) (None, None) [entry_of (arg id); entry_of (prop (B "reason") (Quoted why))] = Ok (Some id, Some why)) as -> by reflexivity.
  cbn [mbind result_bind ok_or]. rewrite Hc. rewrite bool_decide_false by done. cbn [ok_or mbind result_bind]. by rewrite Hw, Hf.
Qed.

Lemma read_lone name s : lone_string (node_of (nd name [arg s] None)) = Ok s.
Proof. done. Qed.

Lemma read_command argv : argv_wf argv -> parse_command (node_of (command_doc argv)) = Ok argv.
Proof.
  intros [Hne Hw]. unfold parse_command. set (n := node_of _). change (no_children n) with (Ok tt : result ConfigError unit).
  change (n_entries n) with (map entry_of (map arg argv)). clearbody n.
  assert (forall k m, argv = k ++ m -> fold_res (command_entry n) k (map entry_of (map arg m)) = Ok argv) as Hgo.
  { intros k m. revert k. induction m as [|a m IH]; intros k Hl; cbn [map fold_res]; [by rewrite app_nil_r in Hl; subst|].
    assert (forbidden_byte a = None) as Ha by (rewrite Hl in Hw; apply Forall_app in Hw as [_ Hw]; by inversion Hw).
    unfold command_entry at 1. change (e_name (entry_of (arg a))) with (@None bytes). cbn iota. rewrite string_arg. cbn [mbind result_bind]. rewrite Ha.
    apply IH. rewrite Hl. by rewrite <-app_assoc. }
  rewrite (Hgo [] argv eq_refl). cbn [mbind result_bind]. by rewrite bool_decide_false.
Qed.

(** ** System calls *)

Lemma read_name n name : known name -> syscall_name n name = Ok name.
Proof.
  intros [[Hne Hp] Hk]. unfold syscall_name. rewrite bool_decide_false, Hp by done. cbn [negb andb].
  assert (negb (is_some (syscall_number name)) && negb (existsb (fun x => bool_decide (x.1 = name)) DEFAULT_ENOSYS_NUMBERED) = false) as ->; [|done].
  destruct Hk as [(nr & ->)|(nr & Hin)]; [done|]. apply andb_false_iff. right. apply negb_false_iff, existsb_spec. exists (name, nr). split; [done|]. by apply bool_decide_eq_true.
Qed.

Lemma read_names n l es : Forall known l -> (forall e, e ∈ es -> exists w, e = entry_of (prop (B "errno") w)) -> l <> [] ->
  n_entries n = map entry_of (map arg l) ++ es -> syscall_names n = Ok l.
Proof.
  intros Hl He Hne Hn. unfold syscall_names. rewrite Hn, fold_app.
  assert (forall k m, l = k ++ m -> fold_res (syscall_names_entry n) k (map entry_of (map arg m)) = Ok l) as Hgo.
  { intros k m. revert k. induction m as [|a m IH]; intros k Hk; cbn [map fold_res]; [by rewrite app_nil_r in Hk; subst|].
    unfold syscall_names_entry at 1. change (e_name (entry_of (arg a))) with (@None bytes). cbn iota. rewrite string_arg. cbn [mbind result_bind].
    rewrite read_name by (rewrite Hk in Hl; apply Forall_app in Hl as [_ Hl]; by inversion Hl). apply IH. rewrite Hk. by rewrite <-app_assoc. }
  rewrite (Hgo [] l eq_refl). cbn [mbind result_bind].
  assert (fold_res (syscall_names_entry n) l es = Ok l) as ->; [|cbn [mbind result_bind]; by rewrite bool_decide_false].
  clear -He. induction es as [|e es IH]; [done|]. cbn [fold_res]. destruct (He e (list_elem_of_here _ _)) as [w ->].
  unfold syscall_names_entry at 1. change (e_name (entry_of (prop (B "errno") w))) with (Some (B "errno")). names_in. apply IH. intros e Hin. apply He. by right.
Qed.

Lemma read_errno n name e : n_entries n = [entry_of (arg name); entry_of (prop (B "errno") (Quoted (errno_name e)))] -> deny_errno n = Ok e.
Proof. intros Hn. unfold deny_errno. rewrite Hn. by destruct e. Qed.

Lemma read_seccomp cfg : seccomp_wf cfg -> parse_seccomp (node_of (seccomp_doc cfg)) = Ok cfg.
Proof.
  intros [Ha Hd]. destruct cfg as [al de di]. cbn [Seccomp.allow Seccomp.deny] in *. unfold parse_seccomp. set (n := node_of _). change (reject_arguments n) with (Ok tt : result ConfigError unit).
  change (default [] (n_children n)) with (map kid_of ((if bool_decide (al = []) then [] else [ln (B "allow") (map arg al)]) ++
    map (fun d => ln (B "deny") [arg d.1; prop (B "errno") (Quoted (errno_name d.2))]) de ++ (if di then [ln (B "disable") []] else []))). clearbody n.
  cbn [mbind result_bind]. rewrite !map_app, !fold_app.
  assert (fold_res seccomp_child default_seccomp (map kid_of (if bool_decide (al = []) then [] else [ln (B "allow") (map arg al)])) = Ok (mkConfig al [] false)) as ->.
  { case_bool_decide as He; [by subst|]. cbn [map fold_res]. unfold seccomp_child. rewrite reject_types_kid. set (k := kid_of _).
    change (no_children k) with (Ok tt : result ConfigError unit). change (n_name k) with (B "allow"). cbn [mbind result_bind]. names_in.
    assert (head (omap e_name (n_entries k)) = None) as ->.
    { change (n_entries k) with (map entry_of (map arg al)). clear. induction al as [|a al IH]; [done|exact IH]. }
    rewrite (read_names k al []); [done|done|intros e Hin; by apply elem_of_nil in Hin|done|]. rewrite app_nil_r. done. }
  cbn [mbind result_bind]. rewrite fold_app.
  assert (forall k m, de = k ++ m -> fold_res seccomp_child (mkConfig al k false) (map kid_of (map (fun d => ln (B "deny") [arg d.1; prop (B "errno") (Quoted (errno_name d.2))]) m)) =
    Ok (mkConfig al de false)) as Hgo.
  { intros k m. revert k. induction m as [|[name e] m IH]; intros k Hk; cbn [map fold_res]; [by rewrite app_nil_r in Hk; subst|].
    assert (known name /\ name <> B "prctl") as [Hkn Hpr] by (rewrite Hk in Hd; apply Forall_app in Hd as [_ Hd]; by inversion Hd).
    unfold seccomp_child at 1. rewrite reject_types_kid. set (kid := kid_of _).
    change (no_children kid) with (Ok tt : result ConfigError unit). change (n_name kid) with (B "deny"). cbn [mbind result_bind]. names_in.
    rewrite (read_errno kid name e eq_refl). cbn [mbind result_bind].
    rewrite (read_names kid [name] [entry_of (prop (B "errno") (Quoted (errno_name e)))]); [|by constructor|intros x ->%list_elem_of_singleton; by eexists|done|done].
    cbn [mbind result_bind fold_res]. unfold deny_name at 1. rewrite bool_decide_false by done. cbn [Seccomp.allow Seccomp.deny disable].
    apply IH. rewrite Hk. by rewrite <-app_assoc. }
  rewrite (Hgo [] de eq_refl). cbn [mbind result_bind]. by destruct di.
Qed.

(** Every node that is well formed is read back from what it is written as. *)
Lemma read_node n t p : node_wf n -> node n = Ok t -> parse_one (node_of (node_doc n)) p = Ok n.
Proof.
  intros Hw Ht. destruct n as [s|ps|l|m|z|m|m|cfg|d|argv]; cbn [node_doc node_wf node] in *.
  - by eapply read_service.
  - destruct Hw as (Hne & Hw & Hn). take_arm. fold (nd (B "env") (map (fun kv => prop kv.1 (Quoted kv.2)) ps) None). fold (env_doc ps). by rewrite read_env.
  - destruct Hw as (a & -> & Hw). take_arm. by rewrite read_lint.
  - take_arm. by destruct m.
  - take_arm. by rewrite read_tmp.
  - take_arm. by destruct m.
  - take_arm. by destruct m.
  - take_arm. by rewrite read_seccomp.
  - take_arm. unfold parse_desktop, desktop_doc. rewrite read_lone. cbn [mbind result_bind]. destruct Hw as [Hd Hf]. by rewrite Hd, Hf.
  - take_arm. by rewrite read_command.
Qed.
End NodeBack.

Section Placed.
Context `{IpText, !IpTextLaws, SyscallNames}.

(** A node of the document of [x], wherever it stands, is one part: [x]. *)
Lemma read_placed n x t p : node_wf x -> node x = Ok t -> erase n = node_of (node_doc x) -> parse_node n p = Ok [(x, n_offset n)].
Proof.
  intros Hw Ht He. pose proof (read_node x t p Hw Ht) as Hr. rewrite <-He, parse_one_erase in Hr.
  assert (n_name n = n_name (node_of (node_doc x))) as Hname by (by rewrite <-He).
  assert (bool_decide (n_name n ∈ REPEATABLE) = true -> n_children n = None) as Hrep.
  { rewrite Hname. assert (option_map (map strip) (n_children n) = n_children (node_of (node_doc x))) as Hk by (by rewrite <-He).
    intros Hin. enough (n_children (node_of (node_doc x)) = None) as Hnone by (rewrite Hnone in Hk; by destruct (n_children n)).
    clear -Hin. destruct x as [s|ps|l|m|z|m|m|cfg|d|argv]; cbn [node_doc] in *; try reflexivity; try discriminate Hin.
    - destruct s as [[[|]|]|[x|]|cfg|kms|m|m|q m o|q m o|n|rs|rs|ch| | |h u| |nodes|n| | |i m]; try reflexivity; discriminate Hin.
    - by destruct l as [|a [|b l]]. }
  unfold parse_node, parse_repeatable_block.
  assert ((if negb (bool_decide (n_name n ∈ REPEATABLE)) then Ok None
    else match n_children n with
         | None => Ok None
         | Some kids => _ ← reject_types n;
           if negb (bool_decide (n_entries n = [])) then Err (bad n (B "takes an argument or children, not both"))
           else out ← fold_res (block_line n) [] kids; Ok (Some out)
         end) = (Ok None : result ConfigError (option (list KdlNode)))) as ->.
  { destruct (bool_decide (n_name n ∈ REPEATABLE)); [|done]. cbn [negb]. by rewrite Hrep. }
  cbn [mbind result_bind]. destruct (bool_decide (n_name n = B "portals") && is_some (n_children n)) eqn:Hp; [|by rewrite Hr].
  apply andb_true_iff in Hp as [Hp _]. bool_to_prop. rewrite Hname in Hp.
  assert (exists ch, x = Node.Service (Service.Portals ch)) as [ch ->].
  { clear -Hp. destruct x as [s|ps|l|m|z|m|m|cfg|d|argv]; cbn [node_doc] in Hp; try discriminate Hp.
    - destruct s as [[[|]|]|[x|]|cfg|kms|m|m|q m o|q m o|n|rs|rs|ch| | |h u| |nodes|n| | |i m]; try discriminate Hp. by eexists.
    - by destruct l as [|a [|b l]]. }
  pose proof (read_portals ch Hw) as Hpp. cbn [node_doc] in He. rewrite <-He, parse_portals_erase in Hpp.
  destruct (parse_portals n) as [[s c]|]; [|done]. cbn in Hpp. injection Hpp as -> Hc. by destruct c.
Qed.
End Placed.
