(* ===== verification/KdlText.v ===== *)
(** The part of the KDL 2 language a canonical configuration is written in, as a reader of
    its own, and that the canonical text of a document reads as that document.

    [Kdl2] is not translated from the program: it is what the KDL 2 specification says of
    identifiers, quoted strings and their escapes, decimal integers, booleans, properties,
    blocks of children and [/-], for a text with one node or child on a line.  What it
    refuses it says nothing about; what it reads, the KDL parser is taken to read so
    ([KdlLaws]). *)
From S2P Require Export ConfigReadBack.

Module Kdl2.

(** ** Characters *)

(** The characters KDL 2 does not let stand in a text, and the two line separators, by
    their UTF-8: U+200E, U+200F, U+2028 to U+202E, U+2066 to U+2069, U+FEFF. *)
Definition unsayable_at (s : bytes) : bool :=
  match s with
  | b :: c :: d :: _ =>
    ((u8 b =? 226) && (u8 c =? 128) && ((u8 d =? 142) || (u8 d =? 143) || ((168 <=? u8 d) && (u8 d <=? 174)))) ||
    ((u8 b =? 226) && (u8 c =? 129) && ((166 <=? u8 d) && (u8 d <=? 169))) ||
    ((u8 b =? 239) && (u8 c =? 187) && (u8 d =? 191))
  | _ => false
  end.

(** None of them is in [s]. *)
Fixpoint sayable (s : bytes) : bool :=
  match s with [] => true | _ :: s' => negb (unsayable_at s) && sayable s' end.

(** U+0085, a newline. *)
Definition nel_at (s : bytes) : bool :=
  match s with b :: c :: _ => (u8 b =? 194) && (u8 c =? 133) | _ => false end.

(** What an escape of one letter stands for. *)
Definition escaped (e : byte) : option byte :=
  if u8 e =? 110 then Some LF else if u8 e =? 114 then Some CR else if u8 e =? 116 then Some TAB
  else if u8 e =? 92 then Some BACKSLASH else if u8 e =? 34 then Some QUOTE
  else if u8 e =? 98 then Some (to_u8 8) else if u8 e =? 102 then Some (to_u8 12) else if u8 e =? 115 then Some SPACE
  else None.

Definition hex_digit (b : byte) : option Z :=
  if is_ascii_digit b then Some (u8 b - 48)
  else if (97 <=? u8 b) && (u8 b <=? 102) then Some (u8 b - 87)
  else if (65 <=? u8 b) && (u8 b <=? 70) then Some (u8 b - 55)
  else None.

(** The UTF-8 of a code point below 256. *)
Definition utf8_of (n : Z) : bytes := if n <? 128 then [to_u8 n] else [to_u8 (192 + n / 64); to_u8 (128 + n mod 64)].

Definition put (v : bytes) (r : option (bytes * bytes)) : option (bytes * bytes) :=
  match r with Some (w, rest) => Some (v ++ w, rest) | None => None end.

(** A quoted string from behind its first quote on: its value, and what follows it.  An
    escape by code is read with one or two digits. *)
Fixpoint string_ (s : bytes) : option (bytes * bytes) :=
  match s with
  | [] => None
  | b :: s' =>
    if u8 b =? 34 then Some ([], s')
    else if u8 b =? 92 then
      match s' with
      | [] => None
      | e :: r =>
        match escaped e with
        | Some v => put [v] (string_ r)
        | None =>
          match r with
          | o :: h :: c :: r1 =>
            if (u8 e =? 117) && (u8 o =? 123) then
              match hex_digit h with
              | None => None
              | Some x =>
                if u8 c =? 125 then put (utf8_of x) (string_ r1)
                else match hex_digit c, r1 with
                     | Some y, c2 :: r2 => if u8 c2 =? 125 then put (utf8_of (16 * x + y)) (string_ r2) else None
                     | _, _ => None
                     end
              end
            else None
          | _ => None
          end
        end
      end
    else if (u8 b <? 32) || (u8 b =? 127) || nel_at s || unsayable_at s then None
    else put [b] (string_ s')
  end.

(** ** Words *)

Fixpoint span (p : byte -> bool) (l : bytes) : bytes * bytes :=
  match l with
  | [] => ([], [])
  | b :: l' => if p b then let '(a, r) := span p l' in (b :: a, r) else ([], l)
  end.

Definition ident_char (b : byte) : bool := is_ascii_alphanumeric b || (u8 b =? 95) || (u8 b =? 45).
Definition ident_start (b : byte) : bool := is_ascii_alphabetic b || (u8 b =? 95).

(** The words that may not stand bare. *)
Definition KEYWORDS : list bytes := [B "true"; B "false"; B "null"; B "inf"; B "nan"].

Definition identifier (w : bytes) : bool :=
  match w with b :: _ => ident_start b | [] => false end && forallb ident_char w && negb (bool_decide (w ∈ KEYWORDS)).

Definition ident (s : bytes) : option (bytes * bytes) :=
  let '(w, r) := span ident_char s in if identifier w then Some (w, r) else None.

(** The most digits of a number that is read. *)
Definition DIGITS : Z := 18.

Definition value (s : bytes) : option (KdlValue * bytes) :=
  match s with
  | [] => None
  | b :: s' =>
    if u8 b =? 34 then match string_ s' with Some (v, r) => Some (KString v, r) | None => None end
    else if u8 b =? 35 then
      match strip_prefix (B "true") s' with
      | Some r => Some (KBool true, r)
      | None => match strip_prefix (B "false") s' with Some r => Some (KBool false, r) | None => None end
      end
    else if is_ascii_digit b then
      let '(w, r) := span is_ascii_digit s in if len w <=? DIGITS then Some (KInteger (digits_val w), r) else None
    else match ident s with Some (w, r) => Some (KString w, r) | None => None end
  end.

(** An argument, or a property: a word with [=] behind it. *)
Definition entry (s : bytes) : option (KdlEntry * bytes) :=
  match ident s with
  | Some (w, e :: r) =>
    if u8 e =? 61 then match value r with Some (v, r) => Some (mkEntry (Some w) v false, r) | None => None end
    else Some (mkEntry None (KString w) false, e :: r)
  | Some (w, []) => Some (mkEntry None (KString w) false, [])
  | None => match value s with Some (v, r) => Some (mkEntry None v false, r) | None => None end
  end.

(** ** Lines *)

(** The entries of a line, each behind a blank, and whether the line opens a block. *)
Fixpoint entries (fuel : nat) (s : bytes) : option (list KdlEntry * bool) :=
  match fuel with
  | O => None
  | S fuel =>
    match s with
    | [] => Some ([], false)
    | b :: r =>
      if negb (u8 b =? 32) then None
      else if bool_decide (r = B "{") then Some ([], true)
      else match entry r with
           | Some (e, r) => match entries fuel r with Some (es, o) => Some (e :: es, o) | None => None end
           | None => None
           end
    end
  end.

Definition read_line (s : bytes) : option (bytes * list KdlEntry * bool) :=
  match ident s with
  | Some (name, r) => match entries (S (length r)) r with Some (es, o) => Some (name, es, o) | None => None end
  | None => None
  end.

(** ** Documents *)

(** A block being read: whether it is kept by a [/-], its text so far, its name and
    entries, and the children so far. *)
Record open := mkOpen { o_off : bool; o_raw : bytes; o_name : bytes; o_entries : list KdlEntry; o_kids : list KdlNode }.

(** What has been read: the nodes, the kept text since the last of them, and the open
    block. *)
Record state := mkRead { s_nodes : list KdlNode; s_lead : bytes; s_open : option open }.

Definition plain_node (name : bytes) (es : list KdlEntry) (kids : option (list KdlNode)) (lead : option bytes) : KdlNode :=
  mkNode name 0 false es kids lead.

(** A node that is complete: its text is kept, or it is put to the nodes. *)
Definition emit (st : state) (off : bool) (raw name : bytes) (es : list KdlEntry) (kids : option (list KdlNode)) : state :=
  if off then mkRead (s_nodes st) (s_lead st ++ raw) None
  else mkRead (s_nodes st ++ [plain_node name es kids (Some (s_lead st))]) [] None.

Definition step (st : state) (l : bytes) : option state :=
  match s_open st with
  | Some o =>
    if bool_decide (l = B "}") then
      Some (emit st (o_off o) (o_raw o ++ l ++ [LF]) (o_name o) (o_entries o) (Some (o_kids o)))
    else
      match strip_prefix (B "    ") l with
      | Some k =>
        match read_line k with
        | Some (name, es, false) =>
          Some (mkRead (s_nodes st) (s_lead st)
            (Some (mkOpen (o_off o) (o_raw o ++ l ++ [LF]) (o_name o) (o_entries o) (o_kids o ++ [plain_node name es None None]))))
        | _ => None
        end
      | None => None
      end
  | None =>
    let '(off, body) := match strip_prefix (B "/-") l with Some body => (true, body) | None => (false, l) end in
    match read_line body with
    | Some (name, es, true) => Some (mkRead (s_nodes st) (s_lead st) (Some (mkOpen off (l ++ [LF]) name es [])))
    | Some (name, es, false) => Some (emit st off (l ++ [LF]) name es None)
    | None => None
    end
  end.

Fixpoint steps (st : state) (ls : list bytes) : option state :=
  match ls with
  | [] => Some st
  | l :: ls => match step st l with Some st => steps st ls | None => None end
  end.

(** Every line ends with a newline. *)
Definition lines (text : bytes) : option (list bytes) :=
  let ls := split_on LF text in if bool_decide (List.last ls [] = []) then Some (removelast ls) else None.

Definition document (text : bytes) : option KdlDocument :=
  match lines text with
  | Some ls => match steps (mkRead [] [] None) ls with
               | Some (mkRead nodes lead None) => Some (mkDocument nodes (Some (lead, lead)))
               | _ => None
               end
  | None => None
  end.

(** Two documents say the same: node by node, with the text before each, and behind the
    last. *)
Definition same (d d' : KdlDocument) : Prop :=
  map (fun n => (erase n, n_leading n)) (d_nodes d) = map (fun n => (erase n, n_leading n)) (d_nodes d') /\
  exists leading trailing leading' trailing', d_format d = Some (leading, trailing) /\ d_format d' = Some (leading', trailing') /\
    (if bool_decide (d_nodes d = []) then leading = leading' else trailing = trailing').
End Kdl2.

(** The [kdl] crate reads what [Kdl2] reads, and as it does. *)
Class KdlLaws `{Kdl} : Prop := {
  kdl_reads text doc : Kdl2.document text = Some doc -> exists doc', kdl_parse text = Ok doc' /\ Kdl2.same doc' doc }.

(** ** A quoted value is read back *)

Lemma byte_case (b c : byte) : u8 b = u8 c -> b = c.
Proof. apply u8_inj. Qed.

Lemma hex_lower_digit n : 0 <= n < 16 -> Kdl2.hex_digit (hex_lower n) = Some n.
Proof.
  intros Hn. assert (exists k, (k < 16)%nat /\ n = Z.of_nat k) as (k & Hk & ->) by (exists (Z.to_nat n); lia).
  do 16 (destruct k as [|k]; [reflexivity|]). lia.
Qed.

Lemma put_put v w r : Kdl2.put v (Kdl2.put w r) = Kdl2.put (v ++ w) r.
Proof. destruct r as [[u rest]|]; [|done]. cbn. by rewrite app_assoc. Qed.

(** An escape by code is read as its code point. *)
Lemma string_escape_code n t : 0 <= n < 256 -> Kdl2.string_ (escape_code n ++ t) = Kdl2.put (Kdl2.utf8_of n) (Kdl2.string_ t).
Proof.
  intros Hn. unfold escape_code, hex_number. change (B "u{") with [Init.Byte.x75; Init.Byte.x7b]. change (B "}") with [Init.Byte.x7d].
  destruct (Z.ltb_spec n 16).
  - cbn [app Kdl2.string_]. rewrite hex_lower_digit by lia. reflexivity.
  - assert (0 <= n / 16 < 16) by (split; [apply Z.div_pos; lia|apply Z.div_lt_upper_bound; lia]).
    assert (0 <= n mod 16 < 16) by (apply Z.mod_pos_bound; lia).
    cbn [app Kdl2.string_]. rewrite !hex_lower_digit by lia.
    assert (u8 (hex_lower (n mod 16)) =? 125 = false) as Hc.
    { pose proof (hex_lower_digit (n mod 16) ltac:(lia)) as Hh. destruct (Z.eqb_spec (u8 (hex_lower (n mod 16))) 125) as [E|]; [|done].
      apply (byte_case _ Init.Byte.x7d) in E. rewrite E in Hh. discriminate Hh. }
    change (u8 BACKSLASH =? 34) with false. change (u8 BACKSLASH =? 92) with true. cbn [Kdl2.escaped].
    change (u8 Init.Byte.x75 =? 110) with false. cbn. rewrite Hc. do 2 f_equal. pose proof (Z.div_mod n 16 ltac:(lia)). lia.
Qed.

(** A byte above ASCII that [quote] leaves is the byte that was given to it. *)
Lemma quote_head s r c t : quote_chars s ++ QUOTE :: r = c :: t -> 128 <= u8 c -> u8 c <> 194 ->
  exists s', s = c :: s' /\ t = quote_chars s' ++ QUOTE :: r.
Proof.
  intros E Hc H194. destruct s as [|b s]; [injection E as <- <-; exfalso; revert Hc; by_decide|].
  assert (forall x y, quote_byte b ++ x = c :: y -> b = c /\ y = x) as Hq.
  { intros x y Hx. unfold quote_byte in Hx. repeat (case_bool_decide; [injection Hx as <- <-; exfalso; revert Hc; by_decide|]).
    destruct (_ || _); [injection Hx as <- <-; exfalso; revert Hc; by_decide|]. by injection Hx as -> <-. }
  destruct s as [|d s].
  - apply Hq in E as [-> ->]. by exists [].
  - rewrite quote_chars_2 in E. destruct (_ && _ && _).
    + injection E as <- <-. exfalso. revert Hc. by_decide.
    + rewrite <-app_assoc in E. apply Hq in E as [-> ->]. by exists (d :: s).
Qed.

(** What is refused in the quoted text would be refused in the value. *)
Lemma unsayable_quoted b s r : Kdl2.unsayable_at (b :: quote_chars s ++ QUOTE :: r) = true -> Kdl2.unsayable_at (b :: s) = true.
Proof.
  destruct (quote_chars s ++ QUOTE :: r) as [|c [|d t]] eqn:E; [done..|]. intros Hu.
  assert (128 <= u8 c /\ u8 c <> 194 /\ 128 <= u8 d /\ u8 d <> 194) as (Hc & Hc' & Hd & Hd').
  { cbn [Kdl2.unsayable_at] in Hu. lia. }
  apply quote_head in E as (s' & -> & E); [|done..]. symmetry in E. by apply quote_head in E as (s'' & -> & _).
Qed.

Lemma string_quote_byte b s t : 
  (bool_decide (b = QUOTE) || bool_decide (b = BACKSLASH) || bool_decide (b = LF) || bool_decide (b = CR) || bool_decide (b = TAB)
   || (u8 b <? 32) || (u8 b =? 127) || negb (Kdl2.nel_at (b :: t) || Kdl2.unsayable_at (b :: t))) = true ->
  Kdl2.string_ t = s -> Kdl2.string_ (quote_byte b ++ t) = Kdl2.put [b] s.
Proof.
  intros Hb <-. unfold quote_byte. pose proof (u8_range b).
  do 5 (case_bool_decide; [subst b; reflexivity|]). cbn [orb] in Hb.
  destruct ((u8 b <? 32) || (u8 b =? 127)) eqn:Ec.
  - rewrite string_escape_code by lia. f_equal. unfold Kdl2.utf8_of. destruct (Z.ltb_spec (u8 b) 128); [by rewrite to_u8_u8|lia].
  - cbn [app Kdl2.string_].
    assert (u8 b =? 34 = false) as -> by (apply Z.eqb_neq; intros E; by apply (byte_case b QUOTE) in E).
    assert (u8 b =? 92 = false) as -> by (apply Z.eqb_neq; intros E; by apply (byte_case b BACKSLASH) in E).
    rewrite Ec. cbn [orb] in *. by destruct (Kdl2.nel_at _ || _).
Qed.

(** Every value is read back from its quotes, whatever is escaped in it. *)
Lemma quoted_reads s r : Kdl2.sayable s = true -> Kdl2.string_ (quote_chars s ++ QUOTE :: r) = Some (s, r).
Proof.
  induction s as [s IH] using (induction_ltof1 _ (@length byte)); unfold ltof in IH. intros Hs.
  destruct s as [|b s]; [done|]. cbn [Kdl2.sayable] in Hs. apply andb_true_iff in Hs as [Hu Hs].
  assert ((forall c s', s = c :: s' -> u8 b = 194 -> 128 <= u8 c <= 159 -> False) ->
    Kdl2.string_ (quote_byte b ++ quote_chars s ++ QUOTE :: r) = Some (b :: s, r)) as Hone.
  { intros Hn. erewrite string_quote_byte; [| |apply IH; [cbn; lia|done]]; [done|].
    rewrite orb_true_iff, negb_true_iff. right. apply orb_false_iff. split.
    - destruct (quote_chars s ++ QUOTE :: r) as [|c t] eqn:E; [done|]. cbn [Kdl2.nel_at]. apply andb_false_iff.
      destruct (Z.eqb_spec (u8 b) 194); [right|by left]. apply Z.eqb_neq. intros Hc.
      destruct (quote_head _ _ _ _ E) as (s' & -> & _); [lia|lia|]. apply (Hn c s'); [reflexivity|lia|lia].
    - apply not_true_is_false. intros E. apply unsayable_quoted in E. by rewrite E in Hu. }
  destruct s as [|c s]; [by apply Hone|]. rewrite quote_chars_2. pose proof (u8_range c).
  destruct ((u8 b =? 194) && (128 <=? u8 c) && (u8 c <=? 159)) eqn:E.
  - rewrite <-app_assoc, string_escape_code by lia. cbn [Kdl2.sayable] in Hs. apply andb_true_iff in Hs as [_ Hs].
    rewrite IH by (done || cbn; lia). cbn [Kdl2.put]. do 2 f_equal. unfold Kdl2.utf8_of. replace (u8 c <? 128) with false by lia.
    assert (u8 c / 64 = 2) as Hd by (symmetry; apply Z.div_unique with (u8 c - 128); lia).
    pose proof (Z.mod_eq (u8 c) 64 ltac:(lia)) as Hm. rewrite Hd in *. replace (128 + u8 c mod 64) with (u8 c) by lia.
    rewrite to_u8_u8. replace b with (to_u8 (192 + 2)); [done|]. apply byte_case. assert (u8 b = 194) as -> by lia. done.
  - rewrite <-app_assoc. apply Hone. intros c' s' [= <- <-] Hb Hc. lia.
Qed.

(** ** A line is read back *)

Definition word_ok (w : word) : Prop :=
  match w with
  | Quoted s => Kdl2.sayable s = true
  | Bare s => Kdl2.identifier s = true
  | Num n => 0 <= n < 10 ^ (Kdl2.DIGITS - 1)
  | Truth _ => True
  end.
Definition entry_ok (e : written) : Prop :=
  match w_prop e with Some p => Kdl2.identifier p = true | None => True end /\ word_ok (w_word e).
Definition line_ok (n : line_node) : Prop := Kdl2.identifier (l_name n) = true /\ Forall entry_ok (l_entries n).
Definition cnode_ok (n : cnode) : Prop := line_ok (c_line n) /\ match c_kids n with Some kids => Forall line_ok kids | None => True end.

(** What follows a word is not of it. *)
Definition stops (r : bytes) : Prop := match r with b :: _ => b = SPACE | [] => True end.
Definition halts (p : byte -> bool) (r : bytes) : Prop := match r with b :: _ => p b = false | [] => True end.

Lemma span_stops p w r : forallb p w = true -> halts p r -> Kdl2.span p (w ++ r) = (w, r).
Proof.
  intros Hw Hr. induction w as [|b w IH]; cbn [app Kdl2.span].
  - destruct r as [|b r]; [done|]. cbn in *. by rewrite Hr.
  - cbn in Hw. apply andb_true_iff in Hw as [-> Hw]. by rewrite IH.
Qed.

Lemma ident_reads w r : Kdl2.identifier w = true -> halts Kdl2.ident_char r -> Kdl2.ident (w ++ r) = Some (w, r).
Proof.
  intros Hw Hr. unfold Kdl2.ident. rewrite span_stops; [by rewrite Hw| |done].
  unfold Kdl2.identifier in Hw. by apply andb_true_iff in Hw as [[_ Hw]%andb_true_iff _].
Qed.

Lemma stops_halts p r : p SPACE = false -> stops r -> halts p r.
Proof. destruct r as [|b r]; [done|]. by intros Hp ->. Qed.

(** What does not start as a word does is no identifier. *)
Lemma no_ident b s : Kdl2.ident_start b = false -> Kdl2.ident (b :: s) = None.
Proof.
  intros Hb. unfold Kdl2.ident. cbn [Kdl2.span]. destruct (Kdl2.ident_char b); [|done]. destruct (Kdl2.span _ s) as [w r].
  unfold Kdl2.identifier. by rewrite Hb.
Qed.

Lemma identifier_head w r : Kdl2.identifier w = true -> exists b s, w ++ r = b :: s /\ Kdl2.ident_start b = true.
Proof.
  destruct w as [|b w]; [done|]. unfold Kdl2.identifier. intros [[Hb _]%andb_true_iff _]%andb_true_iff. by exists b, (w ++ r).
Qed.

Lemma start_plain b : Kdl2.ident_start b = true -> u8 b =? 34 = false /\ u8 b =? 35 = false /\ is_ascii_digit b = false.
Proof. unfold Kdl2.ident_start, is_ascii_alphabetic, is_ascii_upper, is_ascii_lower, is_ascii_digit. lia. Qed.

Lemma number_head n r : 0 <= n -> exists b s, decimal n ++ r = b :: s /\ is_ascii_digit b = true.
Proof.
  intros Hn. destruct (decimal_spec n Hn) as (Hne & Hd & _). destruct (decimal n) as [|b s]; [done|].
  cbn in Hd. apply andb_true_iff in Hd as [Hd _]. by exists b, (s ++ r).
Qed.

Lemma digit_plain b : is_ascii_digit b = true -> u8 b =? 34 = false /\ u8 b =? 35 = false /\ Kdl2.ident_start b = false.
Proof. unfold Kdl2.ident_start, is_ascii_alphabetic, is_ascii_upper, is_ascii_lower, is_ascii_digit. lia. Qed.

Lemma value_reads w r : word_ok w -> stops r -> Kdl2.value (show_word w ++ r) = Some (value_of w, r).
Proof.
  intros Hw Hr. destruct w as [s|s|n|b]; cbn [show_word value_of word_ok] in *.
  - unfold quote. rewrite <-!app_assoc. cbn [app Kdl2.value]. change (u8 QUOTE =? 34) with true. cbn iota. by rewrite quoted_reads.
  - destruct (identifier_head s r Hw) as (b & t & E & Hb). pose proof (start_plain b Hb) as (H1 & H2 & H3).
    unfold Kdl2.value. rewrite E, H1, H2, H3, <-E. rewrite ident_reads; [done..|]. by apply stops_halts.
  - destruct (number_head n r ltac:(lia)) as (b & t & E & Hb). pose proof (digit_plain b Hb) as (H1 & H2 & _).
    unfold Kdl2.value. rewrite E, H1, H2, Hb, <-E. destruct (decimal_spec n ltac:(lia)) as (_ & Hd & Hv & Hl).
    rewrite span_stops; [|done|by apply stops_halts]. rewrite Hv.
    assert (len (decimal n) <= Kdl2.DIGITS) as Hle; [|by rewrite (proj2 (Z.leb_le _ _) Hle)].
    unfold Kdl2.DIGITS in *. destruct (Z.le_gt_cases (len (decimal n)) 18) as [|Hgt]; [done|].
    assert (10 ^ 18 <= 10 ^ (len (decimal n) - 1)) by (apply Z.pow_le_mono_r; lia). lia.
  - destruct b; cbn [show_word app Kdl2.value]; [change (B "#true" ++ r) with (Init.Byte.x23 :: B "true" ++ r)|change (B "#false" ++ r) with (Init.Byte.x23 :: B "false" ++ r)];
      cbn; by rewrite ?decide_True by done.
Qed.

Lemma entry_reads e r : entry_ok e -> stops r -> Kdl2.entry (List.tl (show_entry e) ++ r) = Some (entry_of e, r).
Proof.
  intros [Hp Hw] Hr. destruct e as [[p|] w]; cbn [show_entry w_prop w_word List.tl] in *; unfold Kdl2.entry.
  - rewrite <-app_assoc. change (B "=" ++ show_word w) with (Init.Byte.x3d :: show_word w). cbn [app].
    rewrite ident_reads by done. change (u8 Init.Byte.x3d =? 61) with true. cbn iota. by rewrite value_reads.
  - destruct w as [s|s|n|b].
    + pose proof (value_reads (Quoted s) r Hw Hr) as Hv. cbn [show_word] in *. unfold quote in *. cbn [app] in *. rewrite no_ident by done. by rewrite Hv.
    + cbn [show_word word_ok] in *. rewrite ident_reads by (done || by apply stops_halts).
      destruct r as [|c r]; [done|]. cbn in Hr. by subst c.
    + pose proof (value_reads (Num n) r Hw Hr) as Hv. cbn [show_word word_ok] in *. destruct (number_head n r ltac:(lia)) as (b & t & E & Hb).
      rewrite E in *. rewrite no_ident by (by apply digit_plain). by rewrite Hv.
    + pose proof (value_reads (Truth b) r Hw Hr) as Hv. assert (Kdl2.ident (show_word (Truth b) ++ r) = None) as -> by (by destruct b). by rewrite Hv.
Qed.

Definition opening (o : bool) : bytes := if o then B " {" else [].

Lemma stops_entries es o : stops (concat (map show_entry es) ++ opening o).
Proof. destruct es as [|e es]; [by destruct o|]. done. Qed.

Lemma entries_read es o fuel : (length es < fuel)%nat -> Forall entry_ok es ->
  Kdl2.entries fuel (concat (map show_entry es) ++ opening o) = Some (map entry_of es, o).
Proof.
  revert es. induction fuel as [|fuel IH]; intros es Hf Hes; [lia|]. destruct Hes as [|e es He Hes]; [by destruct o|].
  cbn [map concat]. rewrite <-app_assoc. pose proof (entry_reads e _ He (stops_entries es o)) as Hr.
  change (show_entry e) with (SPACE :: List.tl (show_entry e)). cbn [app Kdl2.entries].
  change (u8 SPACE =? 32) with true. cbn [negb]. rewrite bool_decide_false by (intros E; by rewrite E in Hr).
  rewrite Hr, IH by (done || cbn in Hf; lia). done.
Qed.

Lemma entries_long es : (length es <= length (concat (map show_entry es)))%nat.
Proof. induction es as [|e es IH]; [done|]. cbn [map concat]. rewrite length_app. cbn [show_entry length]. lia. Qed.

Lemma line_reads n o : line_ok n -> Kdl2.read_line (show_line n ++ opening o) = Some (l_name n, map entry_of (l_entries n), o).
Proof.
  intros [Hn He]. unfold Kdl2.read_line, show_line. rewrite <-app_assoc. rewrite ident_reads; [|done|].
  - rewrite entries_read; [done| |done]. rewrite length_app. pose proof (entries_long (l_entries n)). lia.
  - apply stops_halts; [done|apply stops_entries].
Qed.

(** ** A node is read back *)

Lemma hex_no_LF n : 0 <= n < 256 -> LF ∉ escape_code n.
Proof.
  intros Hn. assert (exists k, (k < 256)%nat /\ n = Z.of_nat k) as (k & Hk & ->) by (exists (Z.to_nat n); lia). clear Hn.
  assert (forallb (fun k => bool_decide (LF ∉ escape_code (Z.of_nat k))) (seq 0 256) = true) as Hall by (vm_compute; reflexivity).
  rewrite forallb_forall in Hall. specialize (Hall k). rewrite in_seq, bool_decide_eq_true in Hall. apply Hall. lia.
Qed.

Lemma quote_byte_no_LF b : LF ∉ quote_byte b.
Proof.
  unfold quote_byte. pose proof (u8_range b). repeat (case_bool_decide; [by_decide|]). destruct (_ || _); [by apply hex_no_LF|].
  intros Hb%list_elem_of_singleton. done.
Qed.

Lemma quote_chars_no_LF s : LF ∉ quote_chars s.
Proof.
  induction s as [s IH] using (induction_ltof1 _ (@length byte)); unfold ltof in IH.
  destruct s as [|b [|c s]]; [apply not_elem_of_nil|apply quote_byte_no_LF|]. rewrite quote_chars_2. pose proof (u8_range c).
  destruct (_ && _ && _); intros [Hb|Hb]%elem_of_app; revert Hb;
    [by apply hex_no_LF|apply IH; cbn; lia|apply quote_byte_no_LF|apply IH; cbn; lia].
Qed.

Lemma identifier_no_LF w : Kdl2.identifier w = true -> LF ∉ w.
Proof.
  intros [[_ Hw]%andb_true_iff _]%andb_true_iff Hin. rewrite forallb_forall in Hw. by specialize (Hw LF (proj1 (list_elem_of_In _ _) Hin)).
Qed.

Lemma word_no_LF w : word_ok w -> LF ∉ show_word w.
Proof.
  destruct w as [s|s|n|[|]]; cbn [word_ok show_word]; intros Hw; [| | |by_decide..].
  - unfold quote. rewrite !elem_of_app, !list_elem_of_singleton. intros [Hs|[Hs|Hs]]; [done|by apply quote_chars_no_LF in Hs|done].
  - by apply identifier_no_LF.
  - destruct (decimal_spec n ltac:(lia)) as (_ & Hd & _). rewrite forallb_forall in Hd. intros Hin.
    by specialize (Hd LF (proj1 (list_elem_of_In _ _) Hin)).
Qed.

Lemma line_no_LF n : line_ok n -> LF ∉ show_line n.
Proof.
  intros [Hn He]. unfold show_line. rewrite elem_of_app. intros [Hi|Hi]; [by apply identifier_no_LF in Hi|]. revert Hi.
  induction He as [|[[p|] w] es [Hp Hw] _ IH]; cbn [map concat show_entry w_prop w_word] in *; [apply not_elem_of_nil|..];
    unfold show_entry; cbn [w_prop w_word app]; rewrite elem_of_cons, elem_of_app; intros [|[Hi|Hi]]; [done| |by apply IH|done| |by apply IH].
  - rewrite !elem_of_app in Hi. destruct Hi as [Hi|[Hi|Hi]]; [by apply identifier_no_LF in Hi|revert Hi; by_decide|by apply word_no_LF in Hi].
  - by apply word_no_LF in Hi.
Qed.

(** The lines of a node, and of one that is kept. *)
Definition node_lines (off : bool) (n : cnode) : list bytes :=
  let pre := if off then B "/-" else [] in
  match c_kids n with
  | Some kids => (pre ++ show_line (c_line n) ++ B " {") :: map (fun k => B "    " ++ show_line k) kids ++ [B "}"]
  | None => [pre ++ show_line (c_line n)]
  end.

Definition ended (ls : list bytes) : bytes := concat (map (fun l => l ++ [LF]) ls).

Lemma ended_app a b : ended (a ++ b) = ended a ++ ended b.
Proof. unfold ended. by rewrite map_app, concat_app. Qed.

Lemma node_lines_text off n : ended (node_lines off n) = line (off, show_node n).
Proof.
  unfold node_lines, show_node, line, prefixed. destruct (c_kids n) as [kids|]; cbn [fst snd].
  - unfold KdlOut.block, ended. cbn [map concat]. rewrite map_app, concat_app, !map_map. cbn [map concat]. rewrite app_nil_r, <-!app_assoc.
    by do 3 f_equal.
  - unfold ended. cbn [map concat]. by rewrite app_nil_r.
Qed.

Lemma node_lines_plain off n : cnode_ok n -> Forall (fun l => LF ∉ l) (node_lines off n).
Proof.
  intros [Hl Hk]. assert (LF ∉ (if off then B "/-" else [])) as Hp by (destruct off; by_decide). pose proof (line_no_LF _ Hl) as Hn.
  unfold node_lines. destruct (c_kids n) as [kids|].
  - constructor; [|apply Forall_app; split; [|by repeat constructor; by_decide]].
    + rewrite !elem_of_app. intros [?|[?|Hi]]; [done..|revert Hi; by_decide].
    + apply Forall_map. eapply Forall_impl; [exact Hk|]. intros k Hk'. rewrite elem_of_app. intros [Hi|Hi]; [revert Hi; by_decide|by apply line_no_LF in Hi].
  - constructor; [|done]. rewrite elem_of_app. by intros [?|?].
Qed.

Lemma strip_app {A} `{EqDecision A} (p l : list A) : strip_prefix p (p ++ l) = Some l.
Proof. induction p as [|a p IH]; [done|]. cbn. by rewrite decide_True. Qed.

Lemma no_mark n t : line_ok n -> strip_prefix (B "/-") (show_line n ++ t) = None.
Proof.
  intros [Hn _]. unfold show_line. rewrite <-app_assoc. destruct (identifier_head (l_name n) (concat (map show_entry (l_entries n)) ++ t) Hn) as (b & s & -> & Hb).
  cbn. rewrite decide_False; [done|]. intros <-. by vm_compute in Hb.
Qed.

Lemma kids_steps st o kids ls : Kdl2.s_open st = Some o -> Forall line_ok kids ->
  Kdl2.steps st (map (fun k => B "    " ++ show_line k) kids ++ ls) =
  Kdl2.steps (Kdl2.mkRead (Kdl2.s_nodes st) (Kdl2.s_lead st) (Some (Kdl2.mkOpen (Kdl2.o_off o)
    (Kdl2.o_raw o ++ ended (map (fun k => B "    " ++ show_line k) kids)) (Kdl2.o_name o) (Kdl2.o_entries o) (Kdl2.o_kids o ++ map kid_of kids)))) ls.
Proof.
  intros Ho Hk. revert st o Ho. induction Hk as [|k kids Hk _ IH]; intros st o Ho.
  - cbn. rewrite !app_nil_r. destruct st as [ns ld op], o. cbn in *. by subst op.
  - cbn [map app Kdl2.steps]. unfold Kdl2.step at 1. rewrite Ho. rewrite bool_decide_false by done. rewrite strip_app.
    pose proof (line_reads k false Hk) as Hr. cbn [opening] in Hr. rewrite app_nil_r in Hr. rewrite Hr. erewrite IH by done.
    cbn [Kdl2.s_nodes Kdl2.s_lead Kdl2.o_off Kdl2.o_raw Kdl2.o_name Kdl2.o_entries Kdl2.o_kids map]. unfold ended. cbn [map concat]. by rewrite <-!app_assoc.
Qed.

(** The lines of a node, read from outside a block, are that node. *)
Lemma node_steps st off n ls : Kdl2.s_open st = None -> cnode_ok n ->
  Kdl2.steps st (node_lines off n ++ ls) =
  Kdl2.steps (Kdl2.emit st off (line (off, show_node n)) (l_name (c_line n)) (map entry_of (l_entries (c_line n))) (option_map (map kid_of) (c_kids n))) ls.
Proof.
  intros Ho [Hl Hk]. rewrite <-node_lines_text. set (pre := if off then B "/-" else []).
  assert (forall t, match strip_prefix (B "/-") (pre ++ show_line (c_line n) ++ t) with Some body => (true, body) | None => (false, pre ++ show_line (c_line n) ++ t) end
    = (off, show_line (c_line n) ++ t)) as Hs.
  { intros t. subst pre. destruct off; [by rewrite strip_app|]. cbn [app]. by rewrite no_mark. }
  unfold node_lines. fold pre. destruct (c_kids n) as [kids|].
  - cbn [app Kdl2.steps]. unfold Kdl2.step at 1. rewrite Ho, Hs. change (B " {") with (opening true). rewrite line_reads by done. cbn beta iota.
    rewrite <-(app_assoc (map _ _)). erewrite kids_steps by done. cbn [app Kdl2.steps]. unfold Kdl2.step at 1. cbn [Kdl2.s_open].
    rewrite bool_decide_true by done. f_equal. cbn [Kdl2.s_nodes Kdl2.s_lead Kdl2.o_off Kdl2.o_raw Kdl2.o_name Kdl2.o_entries Kdl2.o_kids option_map]. cbn beta iota.
    unfold ended, opening. cbn [map concat]. rewrite map_app, concat_app. cbn [map concat]. rewrite app_nil_r, <-!app_assoc. done.
  - cbn [app Kdl2.steps]. unfold Kdl2.step at 1. rewrite Ho. specialize (Hs []). rewrite app_nil_r in Hs. rewrite Hs.
    pose proof (line_reads (c_line n) false Hl) as Hr. cbn [opening] in Hr. rewrite app_nil_r in Hr. cbn beta iota. rewrite Hr.
    cbn beta iota. unfold ended. cbn [map concat]. by rewrite app_nil_r.
Qed.

Lemma ended_lines ls : Forall (fun l => LF ∉ l) ls -> Kdl2.lines (ended ls) = Some ls.
Proof.
  intros Hl. unfold Kdl2.lines. assert (split_on LF (ended ls) = ls ++ [[]]) as ->.
  { induction Hl as [|l ls Hl _ IH]; [done|]. unfold ended. cbn [map concat]. rewrite <-app_assoc. cbn [app]. rewrite split_on_app by done.
    fold (ended ls). by rewrite IH. }
  rewrite List.last_last, bool_decide_true, removelast_last; done.
Qed.

(** ** The documents of a configuration are of the language *)

(** The values of a document that stand in quotes. *)
Definition line_values (l : line_node) : list bytes :=
  omap (fun e => match w_word e with Quoted s => Some s | _ => None end) (l_entries l).
Definition values (n : cnode) : list bytes := line_values (c_line n) ++ concat (map line_values (default [] (c_kids n))).

(** What holds of the rest of it. *)
Definition word_shape (w : word) : Prop := match w with Quoted _ => True | w => word_ok w end.
Definition entry_shape (e : written) : Prop :=
  match w_prop e with Some p => Kdl2.identifier p = true | None => True end /\ word_shape (w_word e).
Definition line_shape (n : line_node) : Prop := Kdl2.identifier (l_name n) = true /\ Forall entry_shape (l_entries n).

Lemma shaped_line n : line_shape n -> Forall (fun s => Kdl2.sayable s = true) (line_values n) -> line_ok n.
Proof.
  intros [Hn He] Hv. split; [done|]. unfold line_values in Hv. induction He as [|[p w] es [Hp Hw] _ IH]; [done|].
  cbn [w_prop w_word] in *. destruct w as [s|s|k|b]; cbn in Hv; [apply Forall_cons in Hv as [Hs Hv]|..]; (constructor; [by split|by apply IH]).
Qed.

Lemma shaped_node n : line_shape (c_line n) -> Forall line_shape (default [] (c_kids n)) ->
  Forall (fun s => Kdl2.sayable s = true) (values n) -> cnode_ok n.
Proof.
  unfold values. intros Hl Hk [Hv Hvs]%Forall_app. split; [by apply shaped_line|]. destruct (c_kids n) as [kids|]; [|done]. cbn in *.
  induction Hk as [|k kids Hk _ IH]; [done|]. cbn in Hvs. apply Forall_app in Hvs as [Hv1 Hv2].
  constructor; [by apply shaped_line|by apply IH].
Qed.

(** What the words of a node are, beside its values: its names and keys are identifiers, so
    that only a key of [env] can be a word KDL keeps for itself. *)
Definition in_kdl (n : Node.t) `{IpText} : Prop :=
  Forall (fun s => Kdl2.sayable s = true) (values (node_doc n)) /\
  match n with Node.Env pairs => Forall (fun kv => kv.1 ∉ Kdl2.KEYWORDS) pairs | _ => True end.

Lemma env_key_identifier k : is_env_key k = true -> k ∉ Kdl2.KEYWORDS -> Kdl2.identifier k = true.
Proof.
  destruct k as [|b k]; [done|]. cbn [is_env_key]. intros [Hb Hk]%andb_true_iff Hw. unfold Kdl2.identifier.
  rewrite bool_decide_false by done. rewrite andb_true_r. 
  assert (forall c, is_ascii_alphanumeric c || bool_decide (c = UNDERSCORE) = true -> Kdl2.ident_char c = true) as Hc.
  { intros c. unfold Kdl2.ident_char. rewrite !orb_true_iff, bool_decide_eq_true. intros [Ha| ->]; [by left; left|by left; right]. }
  assert (Kdl2.ident_start b = true) as Hs.
  { revert Hb. unfold Kdl2.ident_start. rewrite !orb_true_iff, bool_decide_eq_true. intros [Ha| ->]; [by left|by right]. }
  cbn [forallb]. rewrite Hs. cbn [andb]. apply andb_true_iff. split.
  - apply Hc. revert Hb. rewrite !orb_true_iff. intros [Ha|?]; [left|by right]. revert Ha.
    unfold is_ascii_alphabetic, is_ascii_alphanumeric, is_ascii_upper, is_ascii_lower, is_ascii_digit. lia.
  - rewrite forallb_forall in *. intros c Hin. by apply Hc, Hk.
Qed.

Ltac shape := repeat first [done | apply List.Forall_nil | apply List.Forall_cons | apply Forall_app; split | split].

Lemma switch_shape p on : Kdl2.identifier p = true -> Forall entry_shape (switch p on).
Proof. intros Hp. destruct on; shape. Qed.

Lemma args_shape l : Forall entry_shape (map arg l).
Proof. apply Forall_map, Forall_forall. shape. Qed.

Lemma lines_shape {A} (f : A -> line_node) (P : A -> Prop) l : (forall a, P a -> line_shape (f a)) -> Forall P l -> Forall line_shape (map f l).
Proof. intros Hf Hl. apply Forall_map. eapply Forall_impl; [exact Hl|exact Hf]. Qed.

Lemma some_kids_shape kids : Forall line_shape kids -> Forall line_shape (default [] (some_kids kids)).
Proof. intros Hk. unfold some_kids. by case_bool_decide. Qed.

Lemma share_shape v m o : Forall entry_shape (share_entries v m o).
Proof. unfold share_entries. apply Forall_app. split; [by destruct m; shape|by apply switch_shape]. Qed.

Section Shape.
Context `{IpText}.

Lemma port_shape p : port_wf p -> word_shape (Num p).
Proof. unfold port_wf. cbn. change U16_MAX with 65535. change (10 ^ (Kdl2.DIGITS - 1)) with 100000000000000000. lia. Qed.

Lemma network_shape cfg : network_wf cfg -> Forall line_shape (network_kids_doc cfg).
Proof.
  intros [_ Hf Ho Hh]. unfold network_kids_doc. repeat (apply Forall_app; split).
  - case_bool_decide; shape.
  - apply (lines_shape _ (fun _ => True)); [shape|apply forall_true].
  - eapply lines_shape; [|exact Ho]. intros a [_ Hp]. split; [done|]. cbn [allow_out_doc ln l_entries]. constructor; [by split|].
    apply Forall_app. split; [destruct (AllowOut.port a); [|constructor]|by destruct (AllowOut.proto a); shape].
    constructor; [|constructor]. split; [done|by apply port_shape].
  - eapply lines_shape; [|exact Hh]. intros a (_ & _ & Hp). split; [done|]. cbn [allow_host_doc ln l_entries]. constructor; [by split|].
    destruct (negb _); [|constructor]. constructor; [|constructor]. split; [done|by apply port_shape].
  - eapply lines_shape; [|exact Hf]. intros f Hp. split; [done|]. cbn [allow_port_doc ln l_entries]. constructor; [by split; [|apply port_shape]|].
    by apply switch_shape.
  - destruct (no_ipv6 cfg); shape.
Qed.

Lemma rules_shape rules : Forall line_shape (map bus_rule_doc rules).
Proof. apply (lines_shape _ (fun _ => True)); [|apply forall_true]. intros [] _; shape. Qed.

Lemma service_shape s : service_wf s -> line_shape (c_line (service_doc s)) /\ Forall line_shape (default [] (c_kids (service_doc s))).
Proof.
  intros Hw. destruct s as [[[|]|]|[x|]|cfg|[|]|m|m|p m o|p m o|n|rs|rs|ch| | |h u| |n|n| | |i m]; cbn [service_doc];
    try (split; [shape|constructor]; fail);
    try (split; [split; [done|apply share_shape]|constructor]; fail).
  - split; [split; [done|]|constructor]. cbn [x11_doc nd ln c_line l_entries]. repeat (apply Forall_app; split); try (by apply switch_shape).
    + case_bool_decide; shape.
    + destruct (wm x); shape.
  - unfold network_doc. cbn [nd c_line c_kids]. split; [destruct (mode cfg); shape|]. apply some_kids_shape, network_shape, Hw.
  - destruct m; split; shape.
  - destruct m; split; shape.
  - split; [shape|]. apply some_kids_shape, rules_shape.
  - split; [shape|]. apply rules_shape.
  - split; [shape|]. apply some_kids_shape. apply (lines_shape _ (fun _ => True)); [|apply forall_true]. intros [] _; shape.
  - split; [|constructor]. split; [done|]. apply Forall_app. split; by apply switch_shape.
  - split; [|constructor]. split; [done|]. by apply switch_shape.
Qed.

(** A node that is well formed, and whose values and keys KDL can say, is of the language. *)
Lemma node_in_kdl `{SyscallNames} n : node_wf n -> in_kdl n -> cnode_ok (node_doc n).
Proof.
  intros Hw [Hv Hk]. assert (line_shape (c_line (node_doc n)) /\ Forall line_shape (default [] (c_kids (node_doc n)))) as [Hl Hc];
    [|by apply shaped_node].
  destruct n as [s|ps|l|m|z|m|m|cfg|d|argv]; cbn [node_doc] in *; try (split; [shape|constructor]; fail).
  - by apply service_shape.
  - split; [|constructor]. split; [done|]. cbn. apply Forall_map. destruct Hw as (_ & Hp & _). rewrite Forall_forall in *.
    intros kv Hin. split; [|done]. cbn. apply env_key_identifier; [by apply Hp|by apply Hk].
  - destruct l as [|a [|b l]]; split; shape.
  - destruct m; split; shape.
  - split; [shape|]. cbn [seccomp_doc nd c_kids default]. repeat (apply Forall_app; split).
    + case_bool_decide; [constructor|]. constructor; [|constructor]. split; [done|apply args_shape].
    + apply (lines_shape _ (fun _ => True)); [shape|apply forall_true].
    + destruct (disable cfg); shape.
  - split; [|constructor]. split; [done|apply args_shape].
Qed.
End Shape.

(** What [Kdl2] reads it reads the same twice. *)
Lemma kdl2_same t doc : Kdl2.document t = Some doc -> Kdl2.same doc doc.
Proof.
  unfold Kdl2.document. destruct (Kdl2.lines t); [|done]. destruct (Kdl2.steps _ _) as [[ns lead [o|]]|]; [done| |done].
  intros [= <-]. split; [done|]. do 4 eexists. split; [done|]. split; [done|]. by case_bool_decide.
Qed.
