(* ===== verification/ConfigRoundTrip.v ===== *)
(** What bubbler writes is what it reads: [parse] of [render] is the configuration. *)
From S2P Require Export KdlText.

(** ** The lines of a configuration *)

(** Each line that is written, as a node: the sections in the order of [section_rank]. *)
Definition node_parts (cfg : InstanceConfig) : list (Z * list Node.t) :=
  [(0, map (fun a => Node.LintAllow [a]) (lint_allows cfg)); (1, map Node.Service (services cfg)); (2, map (fun kv => Node.Env [kv]) (env cfg));
   (3, when (negb (bool_decide (etc cfg = EtcMode.Allowlist))) (Node.Etc (etc cfg)));
   (4, match tmp cfg with Some t => [Node.Tmp t] | None => [] end);
   (5, when (negb (bool_decide (tty cfg = Pty))) (Node.Tty (tty cfg)));
   (6, when (negb (bool_decide (userns cfg = Userns.Allow))) (Node.Userns (userns cfg)));
   (7, when (negb (bool_decide (seccomp cfg = default_seccomp))) (Node.Seccomp (seccomp cfg)));
   (8, match desktop cfg with Some n => [Node.Desktop n] | None => [] end);
   (9, match command cfg with Some argv => [Node.Command argv] | None => [] end)].

Definition entry_line (e : Entry Node.t) : bool * Node.t :=
  match e with KdlOut.Enabled n => (false, n) | KdlOut.Off _ d => (true, Config.node d) end.

Definition section_lines (cfg : InstanceConfig) (p : Z * list Node.t) : list (bool * Node.t) :=
  map entry_line (section_entries cfg (fun n => section_rank n =? p.1) p.2).

Definition config_lines (cfg : InstanceConfig) : list (bool * Node.t) := concat (map (section_lines cfg) (node_parts cfg)).

Section Lines.
Context `{IpText, !IpTextLaws, SyscallNames}.

Definition doc_text (n : Node.t) : bytes := show_node (node_doc n).
Definition lines_text (ls : list (bool * Node.t)) : bytes := concat (map (fun x => line (x.1, doc_text x.2)) ls).

Definition entry_map {T U} (f : T -> U) (e : Entry T) : Entry U :=
  match e with KdlOut.Enabled x => KdlOut.Enabled (f x) | KdlOut.Off i d => KdlOut.Off i d end.

Lemma of_section_map {T U} (f : T -> U) is_ ds at_ : map (entry_map f) (@of_section T is_ ds at_) = @of_section U is_ ds at_.
Proof.
  unfold of_section. generalize (imap (fun i d => (i, d)) ds). intros l. induction l as [|[i d] l IH]; [done|].
  change (omap ?h (?x :: ?k)) with (match h x with Some y => y :: omap h k | None => omap h k end). cbn beta iota.
  destruct (is_ _ && _); cbn [map entry_map]; by rewrite IH.
Qed.

Lemma section_entries_map {T U} (f : T -> U) cfg is_ en :
  section_entries cfg is_ (map f en) = map (entry_map f) (section_entries cfg is_ en).
Proof.
  change (section_entries cfg is_ (map f en)) with (section_loop (of_section is_ (disabled cfg)) 0 (map f en) ++ of_section is_ (disabled cfg) (fun before => before >=? len (map f en))).
  change (section_entries cfg is_ en) with (section_loop (of_section is_ (disabled cfg)) 0 en ++ of_section is_ (disabled cfg) (fun before => before >=? len en)).
  rewrite len_map, map_app, of_section_map. f_equal. generalize 0 as i. induction en as [|x en IH]; intros i; [done|].
  cbn [map section_loop]. rewrite !map_app, of_section_map. cbn [map entry_map]. by rewrite IH.
Qed.

(** The lines a section writes, when its kept nodes are well formed. *)
(** What the kept nodes of a configuration that was read are. *)
Definition kept_ok (cfg : InstanceConfig) : Prop := Forall (fun d => node_wf (Config.node d) /\ 0 <= before d) (disabled cfg).

Lemma section_offs cfg is_ ns : kept_ok cfg -> Forall (fun d => node_wf (Config.node d)) (offs_of (@section_entries Node.t cfg is_ ns)).
Proof.
  intros Hk. apply Forall_and in Hk as [Hw Hb]. destruct (section_entries_all cfg is_ ns Hb) as [_ Ho]. rewrite Ho.
  rewrite Forall_forall in *. intros d Hin. apply list_elem_of_In, filter_In in Hin as [Hin _]. apply Hw. by apply list_elem_of_In.
Qed.

Lemma kept_entries_written es : Forall (fun d => node_wf (Config.node d)) (offs_of es) -> forall t,
  lines_of (map (entry_map doc_text) es) = Ok t ->
  t = map (fun x => prefixed (x.1, doc_text x.2)) (map entry_line es) /\ Forall (fun x => x.1 = true -> exists t, node x.2 = Ok t) (map entry_line es).
Proof.
  induction es as [|[x|i d] es IH]; intros Ho u Hu; cbn [map lines_of entry_map] in Hu; inv_ok; [done| |].
  - match goal with Hl : lines_of _ = Ok _ |- _ => destruct (IH Ho _ Hl) as [-> Hf] end. split; [done|]. constructor; [done|exact Hf].
  - change (offs_of (KdlOut.Off i d :: es)) with (d :: offs_of es) in Ho. inversion_clear Ho as [|? ? Hn Ho'].
    match goal with Hl : lines_of _ = Ok _ |- _ => destruct (IH Ho' _ Hl) as [-> Hf] end. unfold disabled_ in *. inv_ok.
    match goal with Hl : node _ = Ok ?r |- _ => pose proof (node_shown _ _ Hn Hl) as ->; split; [done|]; constructor; [intros _; by eexists|exact Hf] end.
Qed.

(** The lines a section writes. *)
Lemma section_written_as cfg (r : Z) (ns : list Node.t) (t : list bytes) : kept_ok cfg -> section cfg r (map doc_text ns) = Ok t ->
  t = map (fun x => prefixed (x.1, doc_text x.2)) (section_lines cfg (r, ns)) /\
  Forall (fun x => x.1 = true -> exists t, node x.2 = Ok t) (section_lines cfg (r, ns)).
Proof.
  intros Hk. unfold section, section_lines. rewrite section_entries_map. cbn [fst snd]. apply kept_entries_written. by apply section_offs.
Qed.

Lemma services_shown l ts : Forall service_wf l -> services_ l = Ok ts ->
  ts = map doc_text (map Node.Service l) /\ Forall (fun n => exists t, node n = Ok t) (map Node.Service l).
Proof.
  intros Hl. revert ts. induction Hl as [|s l Hs _ IH]; intros ts Ht; cbn [services_] in Ht; inv_ok; [done|].
  match goal with Hv : services_ _ = Ok _ |- _ => destruct (IH _ Hv) as [-> Hf] end.
  split; [cbn [map]; f_equal; by apply (node_shown (Node.Service s))|]. constructor; [by eexists|done].
Qed.

Lemma env_line_shown kv : env_ kv = doc_text (Node.Env [kv]).
Proof. unfold doc_text. cbn [node_doc]. rewrite <-env_shown. destruct kv as [k v]. cbn [map concat]. by rewrite app_nil_r. Qed.

Lemma cons_part {A} (r : Z) (x y : A) l k : x = y -> l = k -> (r, x) :: l = (r, y) :: k.
Proof. by intros -> ->. Qed.

(** The live lines a file is written from are those of [node_parts]. *)
Lemma parts_shown cfg svcs cmd : cfg_wf cfg -> services_ (services cfg) = Ok svcs -> command_lines cfg = Ok cmd ->
  parts cfg svcs cmd = map (fun p => (p.1, map doc_text p.2)) (node_parts cfg) /\
  Forall (fun p => Forall (fun n => exists t, node n = Ok t) p.2) (node_parts cfg).
Proof.
  intros Hw Hs Hc. destruct (services_shown _ _ (c_services _ Hw) Hs) as [-> Hsv]. split.
  - unfold parts, node_parts. cbn [map fst snd]. repeat (apply cons_part; [rewrite ?map_map; try done|]); [..|done].
    + apply map_ext. apply lint_shown.
    + apply map_ext. apply env_line_shown.
    + destruct (negb _); [|done]. cbn [when map]. f_equal. apply etc_shown.
    + destruct (tmp cfg); [|done]. cbn [map]. f_equal. apply tmp_shown.
    + destruct (negb _); [|done]. cbn [when map]. f_equal. apply (word_shown (B "tty")).
    + destruct (negb _); [|done]. cbn [when map]. f_equal. apply (word_shown (B "userns")).
    + destruct (negb _); [|done]. cbn [when map]. f_equal. apply seccomp_shown.
    + destruct (desktop cfg); [|done]. cbn [map]. f_equal. apply (word_shown (B "desktop")).
    + unfold command_lines in Hc. destruct (command cfg); inv_ok; [|done]. cbn [map]. f_equal. by apply command_shown.
  - unfold node_parts. repeat apply List.Forall_cons; cbn [snd]; try apply List.Forall_nil; try exact Hsv.
    + apply Forall_map, Forall_forall. intros a _. by eexists.
    + apply Forall_map, Forall_forall. intros kv _. by eexists.
    + destruct (negb _); [|constructor]. constructor; [by eexists|constructor].
    + destruct (tmp cfg); [|constructor]. constructor; [by eexists|constructor].
    + destruct (negb _); [|constructor]. constructor; [by eexists|constructor].
    + destruct (negb _); [|constructor]. constructor; [by eexists|constructor].
    + destruct (negb _); [|constructor]. constructor; [by eexists|constructor].
    + destruct (desktop cfg); [|constructor]. constructor; [by eexists|constructor].
    + unfold command_lines in Hc. destruct (command cfg); inv_ok; [|constructor]. constructor; [|constructor]. by eexists.
Qed.
End Lines.

Section Text.
Context `{IpText, !IpTextLaws, SyscallNames}.

(** A line that can be written and read. *)
Definition line_wf (x : bool * Node.t) : Prop := node_wf x.2 /\ exists t, node x.2 = Ok t.

Lemma parts_wf cfg : cfg_wf cfg -> Forall (fun p => Forall node_wf p.2) (node_parts cfg).
Proof.
  intros [Hs _ [He _] [Hl _] Ht Hsc Hd Hc _]. unfold node_parts. repeat apply List.Forall_cons; cbn [snd]; try apply List.Forall_nil.
  - apply Forall_map. eapply Forall_impl; [exact Hl|]. intros a Ha. by exists a.
  - apply Forall_map. eapply Forall_impl; [exact Hs|]. done.
  - apply Forall_map. eapply Forall_impl; [exact He|]. intros kv Hkv. split; [done|]. split; [by constructor|apply NoDup_singleton].
  - destruct (negb _); [|constructor]. constructor; [exact I|constructor].
  - destruct (tmp cfg); [|constructor]. constructor; [done|constructor].
  - destruct (negb _); [|constructor]. constructor; [exact I|constructor].
  - destruct (negb _); [|constructor]. constructor; [exact I|constructor].
  - destruct (negb _); [|constructor]. constructor; [exact Hsc|constructor].
  - destruct (desktop cfg); [|constructor]. constructor; [exact Hd|constructor].
  - destruct (command cfg); [|constructor]. constructor; [exact Hc|constructor].
Qed.

Lemma section_lines_wf cfg r ns : kept_ok cfg -> Forall node_wf ns -> Forall (fun n => exists t, node n = Ok t) ns ->
  Forall (fun x => x.1 = true -> exists t, node x.2 = Ok t) (section_lines cfg (r, ns)) -> Forall line_wf (section_lines cfg (r, ns)).
Proof.
  intros Hk Hw Ht. unfold section_lines. cbn [fst snd]. pose proof (section_offs cfg (fun n => section_rank n =? r) ns Hk) as Ho.
  apply Forall_and in Hk as [_ Hb]. destruct (section_entries_all cfg (fun n => section_rank n =? r) ns Hb) as [Hon _].
  rewrite <-Hon in Hw, Ht. revert Hw Ht Ho. clear. generalize (section_entries cfg (fun n => section_rank n =? r) ns). intros es.
  induction es as [|[x|i d] es IH]; intros Hw Ht Ho Hf; cbn [map entry_line] in *; [constructor|..].
  - change (ons_of (KdlOut.Enabled x :: es)) with (x :: ons_of es) in Hw, Ht. inversion_clear Hw. inversion_clear Ht. inversion_clear Hf. constructor; [by split|by apply IH].
  - change (offs_of (KdlOut.Off i d :: es)) with (d :: offs_of es) in Ho. inversion_clear Ho. inversion_clear Hf as [|? ? Hx Hf']. constructor; [split; [done|by apply Hx]|by apply IH].
Qed.

(** The text of a configuration is that of its lines, and each of them is well formed. *)
Lemma render_lines cfg text : cfg_wf cfg -> kept_ok cfg -> render cfg = Ok text ->
  text = lines_text (config_lines cfg) /\ Forall line_wf (config_lines cfg).
Proof.
  intros Hw Hk Hr. unfold render in Hr. inv_ok. apply nodes_parts in E as (svcs & cmd & ts & Hs & Hc & Ht & ->).
  destruct (parts_shown cfg svcs cmd Hw Hs Hc) as [Hp Hn]. rewrite Hp in Ht. pose proof (parts_wf cfg Hw) as Hpw. unfold config_lines. clear Hp Hs Hc.
  revert ts Ht Hn Hpw. generalize (node_parts cfg). intros ps. induction ps as [|[r ns] ps IH]; intros ts Ht Hn Hpw; cbn [map] in *; inversion_clear Ht as [|? ? ? ? Hsec Hts]; [done|].
  inversion_clear Hn as [|? ? Hn1 Hn2]. inversion_clear Hpw as [|? ? Hw1 Hw2]. cbn [fst snd] in *. destruct (section_written_as _ _ _ _ Hk Hsec) as [-> Hf].
  destruct (IH _ Hts Hn2 Hw2) as [Htx Hl]. cbn [concat]. split.
  - rewrite map_app, concat_app, Htx. unfold lines_text. rewrite (map_app _ (section_lines cfg (r, ns))), concat_app. f_equal. by rewrite map_map.
  - apply Forall_app. split; [by apply section_lines_wf|done].
Qed.

Lemma line_clean x : line_wf x -> clean (doc_text x.2).
Proof.
  intros [Hw [t Ht]]. rewrite <-(node_shown _ _ Hw Ht : t = doc_text x.2). eapply node_clean; [|exact Ht].
  destruct x as [o n]. cbn [snd] in *. destruct n as [s|ps|l|m|z|m|m|c|d|argv]; try exact I; cbn in *.
  - destruct s; try exact I. apply Hw.
  - destruct Hw as (_ & Hw & _). eapply Forall_impl; [exact Hw|]. intros kv. apply proj1.
Qed.

Lemma lines_text_scanned ls : Forall line_wf ls ->
  slashdash_marks (lines_text ls) = kept_at 0 (map (fun x => (x.1, doc_text x.2)) ls) /\
  bare (lines_text ls) = lines_text (map (fun x => (false, x.2)) ls).
Proof.
  intros Hl. assert (lines_text ls = concat (map line (map (fun x => (x.1, doc_text x.2)) ls))) as E by (unfold lines_text; by rewrite map_map).
  destruct (lines_scanned (map (fun x => (x.1, doc_text x.2)) ls)) as [Hm Hb].
  { apply Forall_map. eapply Forall_impl; [exact Hl|]. intros x. apply line_clean. }
  rewrite E. split; [done|]. rewrite Hb. unfold lines_text. by rewrite !map_map.
Qed.
End Text.

(** ** What the KDL parser makes of the lines *)

(** The enabled nodes, each with the kept lines above it, and the kept lines under the last. *)
Fixpoint runs (acc : list Node.t) (ls : list (bool * Node.t)) : list (list Node.t * Node.t) * list Node.t :=
  match ls with
  | [] => ([], acc)
  | (true, n) :: ls => runs (acc ++ [n]) ls
  | (false, n) :: ls => let '(rs, tail) := runs [] ls in ((acc, n) :: rs, tail)
  end.

Section Reads.
Context `{IpText, !IpTextLaws, SyscallNames, Kdl}.

Definition kept_text (run : list Node.t) : bytes := lines_text (map (fun n => (true, n)) run).

(** The document is of the lines: a node each, with the kept lines above it in its leading
    text; what is under the last node, or all of a file without one, is the document's. *)
Definition denotes (ls : list (bool * Node.t)) (doc : KdlDocument) : Prop :=
  let '(rs, tail) := runs [] ls in
  Forall2 (fun r d => erase d = node_of (node_doc r.2) /\ n_leading d = Some (kept_text r.1)) rs (d_nodes doc) /\
  exists leading trailing, d_format doc = Some (leading, trailing) /\ (if bool_decide (d_nodes doc = []) then leading else trailing) = kept_text tail.

(** What holds of the whole text, and of each run of kept lines once their marks are cut:
    the texts that are handed to the KDL parser. *)
Definition every_text (P : list (bool * Node.t) -> Prop) (ls : list (bool * Node.t)) : Prop :=
  P ls /\ Forall (fun run => run <> [] -> P (map (fun n => (false, n)) run)) ((runs [] ls).2 :: map fst (runs [] ls).1).

(** The KDL parser reads the text of the lines as what it says; the text is within the bounds
    of a file; so it is read. *)
Definition reads (ls : list (bool * Node.t)) : Prop := exists doc, kdl_parse (lines_text ls) = Ok doc /\ denotes ls doc.
Definition bounded (ls : list (bool * Node.t)) : Prop := check_bounds (lines_text ls) = Ok tt.
Definition parses (ls : list (bool * Node.t)) : Prop := exists doc, parse_document (lines_text ls) = Ok doc /\ denotes ls doc.

Lemma bounded_parses ls : every_text reads ls -> every_text bounded ls -> every_text parses ls.
Proof.
  assert (forall l, reads l -> bounded l -> parses l) as Hl.
  { intros l (doc & Hk & Hd) Hb. exists doc. split; [|done]. unfold parse_document. by rewrite Hb. }
  intros [Hr Hrs] [Hb Hbs]. split; [by apply Hl|]. rewrite Forall_forall in Hrs |- *. rewrite Forall_forall in Hbs.
  intros run Hin Hne. apply Hl; [by apply Hrs|by apply Hbs].
Qed.

(** A state, the lines of its grants aside. *)
Definition core (st : St) : St := mkSt (s_cfg st) Lines.default_ (s_includes st) (seen_tty st) (seen_userns st) (seen_etc st) (seen_seccomp st).

Lemma add_node_core st n c : add_node (core st) n = Ok c -> exists st', add_node st n = Ok st' /\ core st' = c.
Proof.
  destruct n; cbn [add_node core s_cfg seen_tty seen_userns seen_etc seen_seccomp]; intros Ha; parsed;
    repeat match goal with
    | Hb : ?x = Ok _ |- context [?x ≫= _] => rewrite Hb; cbn [mbind result_bind]
    | Hb : ?b = _ |- context [if ?b then _ else _] => rewrite Hb
    | Hb : ?P |- context [bool_decide ?P] => rewrite (bool_decide_true P) by exact Hb
    | Hb : ~ ?P |- context [bool_decide ?P] => rewrite (bool_decide_false P) by exact Hb
    end; eexists; (split; [reflexivity|done]).
Qed.

Lemma place_core text name offset st : core (place text name offset st) = core st.
Proof. unfold place. by destruct (_ || (_ || _)). Qed.

(** One line, as [doc_node] and [doc_tail] take it. *)
Definition take_line (st : St) (x : bool * Node.t) : result ConfigError St :=
  if x.1 then Ok (keep st [mkDisabled x.2 (Counts.before (Counts.of_ (s_cfg st)) x.2)]) else add_node st x.2.

Lemma runs_single ls : Forall (fun x => x.1 = false) ls -> runs [] ls = (map (fun x => ([], x.2)) ls, []).
Proof. induction 1 as [|[o n] ls Ho _ IH]; [done|]. cbn in Ho. subst o. cbn [runs map snd]. by rewrite IH. Qed.

(** The kept lines of a run are read as the nodes they keep. *)
Lemma disabled_in_run run profile at_ : Forall line_wf (map (fun n => (true, n)) run) -> (run <> [] -> parses (map (fun n => (false, n)) run)) ->
  disabled_in (kept_text run) profile at_ = Ok (map (fun n => mkDisabled n (Counts.before at_ n)) run).
Proof.
  intros Hw Hr. destruct (lines_text_scanned _ Hw) as [Hm Hb]. unfold disabled_in, kept_text. rewrite Hm, Hb.
  destruct run as [|n run]; [done|]. rewrite bool_decide_false by done.
  destruct (Hr ltac:(done)) as (doc & Hp & Hd).
  replace (map (fun x => (false, x.2)) (map (fun n => (true, n)) (n :: run))) with (map (fun n => (false, n)) (n :: run)) by (by rewrite map_map). rewrite Hp. cbn [mbind result_bind].
  unfold denotes in Hd. rewrite runs_single in Hd by (apply Forall_map, Forall_forall; done). destruct Hd as [Hd _]. rewrite map_map in Hd.
  apply (proj1 (List.Forall_map _ _ _)) in Hw. revert Hd Hw. generalize (n :: run) as l, (d_nodes doc). clear Hm Hb Hr Hp doc run n. intros l ds Hd.
  assert (forall out, Forall (fun n => line_wf (true, n)) l -> fold_res (disabled_node profile at_) out ds = Ok (out ++ map (fun n => mkDisabled n (Counts.before at_ n)) l)) as Hgo; [|intros Hw; exact (Hgo [] Hw)].
  remember (map (fun x => ([], (false, x).2)) l) as rs eqn:Ers. revert l Ers. induction Hd as [|r d rs ds [He _] _ IH]; intros l Ers out Hw; destruct l as [|x l]; try discriminate Ers; [by rewrite app_nil_r|].
  injection Ers as -> ->. inversion_clear Hw as [|? ? [Hn [t Ht]] Hl]. cbn [fold_res snd fst] in *. unfold disabled_node at 1.
  rewrite (read_placed d x t profile Hn Ht He). cbn [mbind result_bind map fst]. rewrite IH with (l := l) by done. by rewrite <-app_assoc.
Qed.
End Reads.

(** The KDL of the lines. *)
Section Spelled.
Context `{IpText, !IpTextLaws, SyscallNames}.

Definition with_leading (n : Node.t) (run : list Node.t) : KdlNode :=
  let k := node_of (node_doc n) in mkNode (n_name k) (n_offset k) (n_ty k) (n_entries k) (n_children k) (Some (kept_text run)).

Lemma node_of_erased n run : erase (with_leading n run) = node_of (node_doc n).
Proof. unfold erase, with_leading, node_of. cbn. f_equal. destruct (c_kids (node_doc n)) as [kids|]; cbn; [|done]. f_equal. rewrite map_map. by apply map_ext. Qed.

Definition doc_of (ls : list (bool * Node.t)) : KdlDocument :=
  let '(rs, tail) := runs [] ls in mkDocument (map (fun r => with_leading r.2 r.1) rs) (Some (kept_text tail, kept_text tail)).

Lemma kept_text_snoc run n : kept_text (run ++ [n]) = kept_text run ++ line (true, doc_text n).
Proof. unfold kept_text, lines_text. rewrite map_app, map_app, concat_app. cbn [map concat fst snd]. by rewrite app_nil_r. Qed.

Lemma lines_steps ls : Forall (fun x => cnode_ok (node_doc x.2)) ls -> forall nodes acc,
  Kdl2.steps (Kdl2.mkRead nodes (kept_text acc) None) (concat (map (fun x => node_lines x.1 (node_doc x.2)) ls)) =
  Some (Kdl2.mkRead (nodes ++ map (fun r => with_leading r.2 r.1) (runs acc ls).1) (kept_text (runs acc ls).2) None).
Proof.
  induction 1 as [|[[|] n] ls Hn _ IH]; intros nodes acc; cbn [map concat runs fst snd] in *.
  - cbn [Kdl2.steps]. by rewrite app_nil_r.
  - rewrite node_steps by done. cbn [Kdl2.emit Kdl2.s_nodes Kdl2.s_lead].
    change (line (true, show_node (node_doc n))) with (line (true, doc_text n)). by rewrite <-kept_text_snoc, IH.
  - rewrite node_steps by done. cbn [Kdl2.emit Kdl2.s_nodes Kdl2.s_lead]. specialize (IH (nodes ++ [with_leading n acc]) []).
    destruct (runs [] ls) as [rs tail]. cbn [fst snd map] in *. rewrite <-app_assoc in IH. exact IH.
Qed.

(** The lines are read as the document they were written from. *)
Lemma document_reads ls : Forall line_wf ls -> Forall (fun x => in_kdl x.2) ls -> Kdl2.document (lines_text ls) = Some (doc_of ls).
Proof.
  intros Hw Hs. assert (Forall (fun x => cnode_ok (node_doc x.2)) ls) as Hok.
  { apply (Forall_impl (fun x => line_wf x /\ in_kdl x.2)); [apply Forall_and; by split|]. intros x [[Hx _] Hx']. by apply node_in_kdl. }
  assert (lines_text ls = ended (concat (map (fun x => node_lines x.1 (node_doc x.2)) ls))) as ->.
  { unfold lines_text. clear. induction ls as [|x ls IH]; [done|]. cbn [map concat]. by rewrite ended_app, node_lines_text, <-IH. }
  unfold Kdl2.document. rewrite ended_lines.
  - change (@nil byte) with (kept_text []). rewrite (lines_steps ls Hok). unfold doc_of. by destruct (runs [] ls).
  - apply Forall_concat, Forall_map. eapply Forall_impl; [exact Hok|]. intros x. apply node_lines_plain.
Qed.

Lemma same_denotes ls doc : Kdl2.same doc (doc_of ls) -> denotes ls doc.
Proof.
  unfold Kdl2.same, doc_of, denotes. destruct (runs [] ls) as [rs tail]. cbn [d_nodes d_format]. intros [Hn (l & t & l' & t' & -> & Hf & Hlt)].
  injection Hf as <- <-. split; [|do 2 eexists; split; [done|]; by case_bool_decide]. clear Hlt. revert rs Hn. generalize (d_nodes doc). intros ds.
  induction ds as [|d ds IH]; intros [|[run n] rs] Hn; try discriminate Hn; [constructor|]. cbn [map fst snd] in Hn. apply (inj2 cons) in Hn as [[He Hl]%pair_equal_spec Hn].
  constructor; [|by apply IH]. by rewrite He, node_of_erased.
Qed.

Lemma runs_all (P : Node.t -> Prop) ls acc : Forall P acc -> Forall (fun x => P x.2) ls ->
  Forall (Forall P) ((runs acc ls).2 :: map fst (runs acc ls).1).
Proof.
  intros Ha Hl. revert acc Ha. induction Hl as [|[[|] n] ls Hn _ IH]; intros acc Ha; cbn [runs fst snd map] in *.
  - by repeat constructor.
  - apply IH, Forall_app. split; [done|by repeat constructor].
  - specialize (IH [] ltac:(constructor)). destruct (runs [] ls) as [rs tail]. cbn [fst snd map] in *. inversion_clear IH.
    by repeat constructor.
Qed.

(** So the KDL parser reads every text it is handed as what it says. *)
Lemma texts_read `{!Kdl, !KdlLaws} ls : Forall line_wf ls -> Forall (fun x => in_kdl x.2) ls -> every_text reads ls.
Proof.
  assert (forall l, Forall line_wf l -> Forall (fun x => in_kdl x.2) l -> reads l) as Hr.
  { intros l Hw Hs. destruct (kdl_reads _ _ (document_reads l Hw Hs)) as (doc & Hp & Hd). exists doc. split; [done|]. by apply same_denotes. }
  intros Hw Hs. split; [by apply Hr|].
  assert (Forall (fun x => (node_wf x.2 /\ exists t, node x.2 = Ok t) /\ in_kdl x.2) ls) as Hb.
  { apply Forall_and. split; [exact Hw|done]. }
  apply (runs_all (fun n => (node_wf n /\ exists t, node n = Ok t) /\ in_kdl n)) with (acc := []) in Hb; [|done].
  eapply Forall_impl; [exact Hb|]. intros run Hrun _. apply Forall_and in Hrun as [Hr1 Hr2]. apply Hr; by apply Forall_map.
Qed.
End Spelled.

Section Taken.
Context `{IpText, !IpTextLaws, SyscallNames, Kdl}.

Definition kept_of (run : list Node.t) : list (bool * Node.t) := map (fun n => (true, n)) run.
Definition flatten (rs : list (list Node.t * Node.t)) : list (bool * Node.t) := concat (map (fun r => kept_of r.1 ++ [(false, r.2)]) rs).

Lemma runs_flat ls acc : kept_of acc ++ ls = flatten (runs acc ls).1 ++ kept_of (runs acc ls).2.
Proof.
  revert acc. induction ls as [|[[|] n] ls IH]; intros acc; cbn [runs].
  - by rewrite app_nil_r.
  - rewrite <-IH. unfold kept_of. rewrite map_app, <-app_assoc. done.
  - specialize (IH []). destruct (runs [] ls) as [rs tail]. cbn [fst snd] in *. unfold flatten in *. cbn [map concat fst snd]. rewrite <-!app_assoc. cbn [app].
    rewrite <-IH. done.
Qed.

Definition keeps (st : St) (run : list Node.t) : St := keep st (map (fun n => mkDisabled n (Counts.before (Counts.of_ (s_cfg st)) n)) run).

Lemma keep_keep st a b : keep (keep st a) b = keep st (a ++ b).
Proof. unfold keep, with_cfg, with_disabled. cbn. by rewrite app_assoc. Qed.

Lemma keep_nil st : keep st [] = st.
Proof. destruct st as [[] ? ? ? ? ? ?]. unfold keep, with_cfg, with_disabled. cbn. by rewrite app_nil_r. Qed.

Lemma take_kept run st : fold_res take_line st (kept_of run) = Ok (keeps st run).
Proof.
  revert st. induction run as [|n run IH]; intros st; [by rewrite <-(keep_nil st) at 1|]. cbn [kept_of map fold_res]. unfold take_line at 1. cbn [fst snd].
  fold (kept_of run). rewrite IH. unfold keeps. rewrite keep_keep. done.
Qed.

Lemma include_name n : line_wf (false, n) -> bool_decide (n_name (node_of (node_doc n)) = B "include") = false.
Proof.
  intros [Hw _]. cbn [snd] in Hw. destruct n as [s|ps|l|m|z|m|m|c|d|argv]; cbn [node_doc]; try reflexivity.
  - destruct s as [[[|]|]|[x|]|cfg|kms|m|m|q m o|q m o|n|rs|rs|ch| | |h u| |nodes|n| | |i m]; reflexivity.
  - destruct Hw as (a & -> & _). reflexivity.
Qed.

Lemma doc_node_line text profile st d run n : Forall line_wf (kept_of run) -> (run <> [] -> parses (map (fun n => (false, n)) run)) -> line_wf (false, n) ->
  erase d = node_of (node_doc n) -> n_leading d = Some (kept_text run) ->
  doc_node text profile st d = (st ← add_node (keeps st run) n; Ok (place text (Node.name n) (n_offset d) st)).
Proof.
  intros Hk Hr Hn He Hl. unfold doc_node. rewrite Hl, (disabled_in_run run profile _ Hk Hr). cbn [mbind result_bind].
  assert (bool_decide (n_name d = B "include") = false) as ->.
  { change (n_name d) with (n_name (erase d)). rewrite He. by apply include_name. }
  pose proof Hn as [Hw [t Ht]]. cbn [snd] in *. rewrite (read_placed d n t profile Hw Ht He). cbn [mbind result_bind fold_res]. unfold doc_part. cbn [fst snd].
  change (keep st (map (fun n => mkDisabled n (Counts.before (Counts.of_ (s_cfg st)) n)) run)) with (keeps st run).
  destruct (add_node (keeps st run) n); [|done]. done.
Qed.

Lemma keeps_core st run : core (keeps st run) = keeps (core st) run.
Proof. done. Qed.

(** Reading the nodes is taking the lines one by one. *)
Lemma nodes_taken text profile rs ds st c :
  Forall2 (fun r d => erase d = node_of (node_doc r.2) /\ n_leading d = Some (kept_text r.1)) rs ds ->
  Forall line_wf (flatten rs) -> Forall (fun run => run <> [] -> parses (map (fun n => (false, n)) run)) (map fst rs) ->
  fold_res take_line (core st) (flatten rs) = Ok c -> exists st', fold_res (doc_node text profile) st ds = Ok st' /\ core st' = c.
Proof.
  intros Hd. revert st. induction Hd as [|[run n] d rs ds [He Hl] _ IH]; intros st Hw Hr Ht.
  { cbn in Ht. injection Ht as <-. by exists st. }
  cbn [flatten map concat fst snd] in *. fold (flatten rs) in *. apply Forall_app in Hw as [[Hk Hn]%Forall_app Hw]. inversion_clear Hn as [|? ? Hn' _]. inversion_clear Hr as [|? ? Hr1 Hr2].
  rewrite fold_app, fold_app, take_kept in Ht. cbn [mbind result_bind fold_res] in Ht. rewrite <-keeps_core in Ht.
  change (take_line (core (keeps st run)) (false, n)) with (add_node (core (keeps st run)) n) in Ht.
  destruct (add_node (core (keeps st run)) n) as [c1|] eqn:Ea; [|done]. cbn [mbind result_bind] in Ht. apply add_node_core in Ea as (st1 & Ha & <-).
  cbn [fold_res]. rewrite (doc_node_line text profile st d run n Hk Hr1 Hn' He Hl), Ha. cbn [mbind result_bind]. apply IH; [done|done|]. by rewrite place_core.
Qed.

(** A whole file. *)
Lemma lines_taken text profile ls doc c : every_text parses ls -> Forall line_wf ls -> denotes ls doc ->
  fold_res take_line start_ ls = Ok c ->
  exists st st', fold_res (doc_node text profile) start_ (d_nodes doc) = Ok st /\ doc_tail profile doc st = Ok st' /\ core st' = c.
Proof.
  intros [_ Hr] Hw Hd Ht. pose proof (runs_flat ls []) as Hf. cbn [kept_of map app] in Hf. unfold denotes in Hd.
  destruct (runs [] ls) as [rs tail]. cbn [fst snd] in *. destruct Hd as (Hd & leading & trailing & Hfm & Htail). inversion_clear Hr as [|? ? Hrt Hrr].
  rewrite Hf in Ht, Hw. apply Forall_app in Hw as [Hw Hwt]. rewrite fold_app in Ht.
  destruct (fold_res take_line start_ (flatten rs)) as [c1|] eqn:E1; [|done]. cbn [mbind result_bind] in Ht. rewrite take_kept in Ht. injection Ht as <-.
  destruct (nodes_taken text profile rs (d_nodes doc) start_ c1 Hd Hw Hrr E1) as (st & Hst & <-).
  exists st. eexists. split; [exact Hst|]. unfold doc_tail. rewrite Hfm, Htail, (disabled_in_run tail profile _ Hwt Hrt). cbn [mbind result_bind]. split; [reflexivity|]. done.
Qed.
End Taken.

(** ** The sections, one after another *)

(** The configuration with the sections before [r] whole, [i] entries of section [r], and
    nothing of the sections after. *)
Section Stage.
Context (cfg : InstanceConfig).

Definition pick {A} (k r : Z) (i : nat) (l : list A) : list A := if k <? r then l else if k =? r then take i l else [].
Definition seen (k r : Z) (i : nat) : bool := (k <? r) || ((k =? r) && bool_decide (i <> 0%nat)).
Definition mode_at {A} (k r : Z) (i : nat) (x d : A) : A := if seen k r i then x else d.

Definition stage (r : Z) (i : nat) (ds : list Disabled) : St :=
  mkSt (mkInstance (pick 1 r i (services cfg)) [] (mode_at 9 r i (command cfg) None) (pick 2 r i (env cfg)) (mode_at 3 r i (etc cfg) EtcMode.Allowlist)
          (mode_at 4 r i (tmp cfg) None) (mode_at 5 r i (tty cfg) Pty) (mode_at 7 r i (seccomp cfg) default_seccomp)
          (mode_at 6 r i (userns cfg) Userns.Allow) (pick 0 r i (lint_allows cfg)) (mode_at 8 r i (desktop cfg) None) ds)
    Lines.default_ []
    (seen 5 r i && negb (bool_decide (tty cfg = Pty))) (seen 6 r i && negb (bool_decide (userns cfg = Userns.Allow)))
    (seen 3 r i && negb (bool_decide (etc cfg = EtcMode.Allowlist))) (seen 7 r i && negb (bool_decide (seccomp cfg = default_seccomp))).

(** What a section needs: each of its lines is added, its entries are counted, and all of
    them are all of the section. *)
Definition section_ok `{SyscallNames} (p : Z * list Node.t) : Prop :=
  (forall i x ds, p.2 !! i = Some x -> add_node (stage p.1 i ds) x = Ok (stage p.1 (S i) ds)) /\
  (forall i n ds, (i <= length p.2)%nat -> section_rank n = p.1 -> Counts.before (Counts.of_ (s_cfg (stage p.1 i ds))) n = Z.of_nat i) /\
  (forall ds, stage p.1 (length p.2) ds = stage (p.1 + 1) 0 ds).

Lemma take_all {A} (l : list A) i : (length l <= i)%nat -> take i l = l.
Proof. apply take_ge. Qed.

(** The mode sections: at most one line. *)
Lemma one_line (ns : list Node.t) n b : ns = when b n -> forall i x, ns !! i = Some x -> i = 0%nat /\ b = true /\ x = n.
Proof. intros ->. destruct b; intros [|i] x Hx; cbn in Hx; by inv_ok. Qed.

Lemma lints_ok `{SyscallNames} : NoDup (map check_id (lint_allows cfg)) -> section_ok (0, map (fun a => Node.LintAllow [a]) (lint_allows cfg)).
Proof.
  intros Hn. split; [|split]; cbn [fst snd].
  - intros i x ds Hx. rewrite list_lookup_fmap in Hx. destruct (lint_allows cfg !! i) as [a|] eqn:Ha; [|done]. injection Hx as <-.
    cbn [add_node fold_res s_cfg stage]. unfold add_lint_allow. cbn [lint_allows]. change (pick 0 0 i (lint_allows cfg)) with (take i (lint_allows cfg)).
    assert (existsb (fun held => bool_decide (check_id held = check_id a)) (take i (lint_allows cfg)) = false) as ->.
    { apply key_absent. intros Hin. assert (check_id a ∉ map check_id (take i (lint_allows cfg))) as Hno; [|done].
      rewrite <-(take_drop_middle _ _ _ Ha), map_app in Hn. apply NoDup_app in Hn as (_ & Hd & _). intros Hk. apply (Hd _ Hk). by left. }
    unfold stage, with_cfg, with_lint_allows. cbn. unfold pick. cbn. do 3 f_equal. by rewrite <-(take_S_r _ _ _ Ha).
  - intros i n ds Hi Hr. rewrite length_map in Hi. destruct n; try discriminate Hr. cbn. unfold pick. cbn. unfold len. rewrite length_take. lia.
  - intros ds. rewrite length_map. unfold stage, pick, mode_at, seen. cbn. by rewrite firstn_all.
Qed.

Lemma services_ok `{SyscallNames} : ForallOrdPairs (fun held svc => Same.twice svc held = false) (services cfg) ->
  section_ok (1, map Node.Service (services cfg)).
Proof.
  intros Hn. split; [|split]; cbn [fst snd].
  - intros i x ds Hx. rewrite list_lookup_fmap in Hx. destruct (services cfg !! i) as [s|] eqn:Hs; [|done]. injection Hx as <-.
    cbn [add_node s_cfg stage]. cbn [services]. change (pick 1 1 i (services cfg)) with (take i (services cfg)). unfold grant.
    assert (existsb (Same.twice s) (take i (services cfg)) = false) as ->.
    { apply not_true_iff_false. intros (h & Hin & Hh)%existsb_spec. rewrite <-(take_drop_middle _ _ _ Hs) in Hn.
      clear Hs. induction (take i (services cfg)) as [|h' l IH]; [by apply elem_of_nil in Hin|]. cbn [app] in Hn. inversion_clear Hn as [|? ? Hh' Hl].
      apply elem_of_cons in Hin as [->|Hin]; [|by apply IH]. apply Forall_app in Hh' as [_ Hh']. inversion_clear Hh'. congruence. }
    cbn [mbind result_bind]. unfold stage, with_cfg, with_services. cbn. unfold pick. cbn. do 3 f_equal. by rewrite <-(take_S_r _ _ _ Hs).
  - intros i n ds Hi Hr. rewrite length_map in Hi. destruct n; try discriminate Hr. cbn. unfold pick. cbn. unfold len. rewrite length_take. lia.
  - intros ds. rewrite length_map. unfold stage, pick, mode_at, seen. cbn. by rewrite firstn_all.
Qed.

Lemma envs_ok `{SyscallNames} : NoDup (map fst (env cfg)) -> section_ok (2, map (fun kv => Node.Env [kv]) (env cfg)).
Proof.
  intros Hn. split; [|split]; cbn [fst snd].
  - intros i x ds Hx. rewrite list_lookup_fmap in Hx. destruct (env cfg !! i) as [a|] eqn:Ha; [|done]. injection Hx as <-.
    cbn [add_node fold_res s_cfg stage]. unfold add_env. cbn [env]. change (pick 2 2 i (env cfg)) with (take i (env cfg)).
    assert (existsb (fun held => bool_decide (held.1 = a.1)) (take i (env cfg)) = false) as ->.
    { apply key_absent. rewrite <-(take_drop_middle _ _ _ Ha), map_app in Hn. apply NoDup_app in Hn as (_ & Hd & _). intros Hk. apply (Hd _ Hk). by left. }
    unfold stage, with_cfg, with_env. cbn. unfold pick. cbn. do 3 f_equal. by rewrite <-(take_S_r _ _ _ Ha).
  - intros i n ds Hi Hr. rewrite length_map in Hi. destruct n; try discriminate Hr. cbn. unfold pick. cbn. unfold len. rewrite length_take. lia.
  - intros ds. rewrite length_map. unfold stage, pick, mode_at, seen. cbn. by rewrite firstn_all.
Qed.

(** A section of one line at most. *)
Lemma single_ok `{SyscallNames} r n b :
  (b = true -> forall ds, add_node (stage r 0 ds) n = Ok (stage r 1 ds)) ->
  (forall i m ds, (i <= if b then 1 else 0)%nat -> section_rank m = r -> Counts.before (Counts.of_ (s_cfg (stage r i ds))) m = Z.of_nat i) ->
  (forall ds, stage r (if b then 1 else 0) ds = stage (r + 1) 0 ds) -> section_ok (r, when b n).
Proof.
  intros Ha Hb He. split; [|split]; cbn [fst snd].
  - intros i x ds Hx. destruct (one_line _ _ _ eq_refl _ _ Hx) as (-> & -> & ->). by apply Ha.
  - intros i m ds Hi. apply Hb. by destruct b.
  - intros ds. rewrite <-He. by destruct b.
Qed.

Ltac at_stage :=
  try match goal with |- context [stage (?r + 1)] => let v := eval compute in (r + 1) in change (r + 1) with v end;
  unfold stage, mode_at, pick, seen; cbn;
  repeat change (bool_decide (0%nat <> 0%nat)) with false; repeat change (bool_decide (1%nat <> 0%nat)) with true; cbn.

Ltac single P Hd :=
  apply single_ok;
  [ intros Hd ds; at_stage; rewrite ?Hd; try done
  | intros i m ds Hi Hr; destruct m; try discriminate Hr; destruct i as [|[|i]]; [done| |case_match; lia]; at_stage; case_match; [try done|lia]
  | intros ds; destruct (decide P) as [Hd|Hd]; [rewrite !(bool_decide_true P) by exact Hd|rewrite !(bool_decide_false P) by exact Hd]; cbn [negb]; at_stage;
    rewrite ?(bool_decide_true P) by exact Hd; rewrite ?(bool_decide_false P) by exact Hd; rewrite ?Hd; try done ].

Lemma etc_ok `{SyscallNames} : section_ok (3, when (negb (bool_decide (etc cfg = EtcMode.Allowlist))) (Node.Etc (etc cfg))).
Proof. single (etc cfg = EtcMode.Allowlist) Hd. Qed.

Lemma tty_ok `{SyscallNames} : section_ok (5, when (negb (bool_decide (tty cfg = Pty))) (Node.Tty (tty cfg))).
Proof. single (tty cfg = Pty) Hd. Qed.

Lemma userns_ok `{SyscallNames} : section_ok (6, when (negb (bool_decide (userns cfg = Userns.Allow))) (Node.Userns (userns cfg))).
Proof. single (userns cfg = Userns.Allow) Hd. Qed.

Lemma seccomp_ok `{SyscallNames} : section_ok (7, when (negb (bool_decide (seccomp cfg = default_seccomp))) (Node.Seccomp (seccomp cfg))).
Proof. single (seccomp cfg = default_seccomp) Hd. Qed.

(** A section of an option: its one line sets it. *)
Lemma option_ok `{SyscallNames} {A} r (o : option A) (node_ : A -> Node.t) :
  (forall a, o = Some a -> forall ds, add_node (stage r 0 ds) (node_ a) = Ok (stage r 1 ds)) ->
  (forall i m ds, (i <= if o then 1 else 0)%nat -> section_rank m = r -> Counts.before (Counts.of_ (s_cfg (stage r i ds))) m = Z.of_nat i) ->
  (forall ds, stage r (if o then 1 else 0) ds = stage (r + 1) 0 ds) -> section_ok (r, match o with Some a => [node_ a] | None => [] end).
Proof.
  intros Ha Hb He. split; [|split]; cbn [fst snd].
  - intros i x ds Hx. destruct o as [a|]; [|done]. destruct i as [|i]; [|done]. injection Hx as <-. by apply Ha.
  - intros i m ds Hi. apply Hb. by destruct o.
  - intros ds. rewrite <-He. by destruct o.
Qed.

Ltac optional o :=
  apply option_ok;
  [ intros a Ha ds; at_stage; rewrite ?Ha; try done
  | intros i m ds Hi Hr; destruct m; try discriminate Hr; destruct i as [|[|i]]; [done| |case_match; lia]; at_stage; destruct o; [try done|lia]
  | intros ds; destruct o eqn:Ho; at_stage; rewrite ?Ho; try done ].

Lemma tmp_ok `{SyscallNames} : section_ok (4, match tmp cfg with Some t => [Node.Tmp t] | None => [] end).
Proof. optional (tmp cfg). Qed.

Lemma desktop_ok `{SyscallNames} : section_ok (8, match desktop cfg with Some n => [Node.Desktop n] | None => [] end).
Proof. optional (desktop cfg). Qed.

Lemma command_ok `{SyscallNames} : section_ok (9, match command cfg with Some argv => [Node.Command argv] | None => [] end).
Proof. optional (command cfg). Qed.

Lemma sections_ok `{SyscallNames} : cfg_wf cfg -> Forall section_ok (node_parts cfg).
Proof.
  intros [? ? [_ ?] [_ ?] ? ? ? ? ?]. unfold node_parts.
  repeat apply List.Forall_cons; try apply List.Forall_nil;
    [by apply lints_ok|by apply services_ok|by apply envs_ok|apply etc_ok|apply tmp_ok|apply tty_ok|apply userns_ok|apply seccomp_ok|apply desktop_ok|apply command_ok].
Qed.

(** *** The kept lines of a section *)

Definition marked (l : list Disabled) : list (bool * Node.t) := map (fun d => (true, Config.node d)) l.

(** Down a list in the order of [key], those at [i] come before those after it. *)
Lemma filter_next {A} (P : A -> bool) (key : A -> Z) (i : Z) (l : list A) :
  ForallOrdPairs (fun a b => P a = true -> P b = true -> key a <= key b) l ->
  List.filter (fun a => P a && (key a =? i)) l ++ List.filter (fun a => P a && (key a >=? i + 1)) l = List.filter (fun a => P a && (key a >=? i)) l.
Proof.
  induction 1 as [|a l Ha _ IH]; cbn [List.filter]; [done|]. destruct (P a) eqn:Hp; cbn [andb]; [|exact IH].
  destruct (Z.eqb_spec (key a) i) as [->|Hi].
  - rewrite (proj2 (Z.geb_le i i)) by lia. replace (i >=? i + 1) with false by lia. cbn [app]. by rewrite IH.
  - destruct (key a >=? i) eqn:E.
    + replace (key a >=? i + 1) with true by lia.
      assert (List.filter (fun a => P a && (key a =? i)) l = []) as Hz.
      { clear IH. induction Ha as [|b l Hb _ IH]; cbn [List.filter]; [done|]. destruct (P b) eqn:Hq; cbn [andb]; [|exact IH].
        specialize (Hb eq_refl eq_refl). replace (key b =? i) with false by lia. exact IH. }
      rewrite Hz in *. cbn [app] in *. by rewrite IH.
    + replace (key a >=? i + 1) with false by lia. exact IH.
Qed.

Lemma offs_marked (es : list (Entry Node.t)) : ons_of es = [] -> map entry_line es = marked (offs_of es).
Proof.
  induction es as [|[x|i d] es IH]; intros Ho; [done|done|].
  change (ons_of (KdlOut.Off i d :: es)) with (ons_of es) in Ho. change (offs_of (KdlOut.Off i d :: es)) with (d :: offs_of es). cbn [map marked entry_line]. by rewrite IH.
Qed.

Lemma of_section_marked is_ ds at_ : map entry_line (of_section is_ ds at_) = marked (picked is_ at_ ds).
Proof. destruct (@of_section_offs Node.t is_ ds at_) as [Ho Hn]. rewrite (offs_marked _ Hn). by rewrite Ho. Qed.

Lemma keep_stage r i ds l : keep (stage r i ds) l = stage r i (ds ++ l).
Proof. done. Qed.

Lemma take_marked `{SyscallNames} r i l ds :
  Forall (fun d => forall ds, Counts.before (Counts.of_ (s_cfg (stage r i ds))) (Config.node d) = before d) l ->
  fold_res take_line (stage r i ds) (marked l) = Ok (stage r i (ds ++ l)).
Proof.
  intros Hl. revert ds. induction Hl as [|[x b] l Hd _ IH]; intros ds; [by rewrite app_nil_r|]. cbn [marked map fold_res Config.node before] in *.
  unfold take_line at 1. cbn [fst snd]. rewrite Hd, keep_stage. cbn [mbind result_bind]. fold (marked l). rewrite IH. by rewrite <-app_assoc.
Qed.

Definition of_rank (r : Z) (n : Node.t) : bool := section_rank n =? r.

(** The lines of a section, taken from any of its entries on. *)
Lemma take_section `{SyscallNames} r ns D en i : section_ok (r, ns) ->
  ForallOrdPairs kept_order (disabled cfg) -> Forall (fun d => section_rank (Config.node d) = r -> before d <= len ns) (disabled cfg) ->
  (forall k, en !! k = ns !! (i + k)%nat) -> (i + length en)%nat = length ns ->
  fold_res take_line (stage r i D) (map entry_line (section_loop (of_section (of_rank r) (disabled cfg)) (Z.of_nat i) en ++ of_section (of_rank r) (disabled cfg) (fun b => b >=? len ns)))
  = Ok (stage r (length ns) (D ++ picked (of_rank r) (fun b => b >=? Z.of_nat i) (disabled cfg))).
Proof.
  intros (Hadd & Hcount & _) Ho Hb. cbn [fst snd] in *. revert i D. induction en as [|x en IH]; intros i D Hen Hi; cbn [section_loop app length] in *.
  - replace i with (length ns) in * by lia. rewrite of_section_marked. apply take_marked. apply Forall_forall. intros d Hd ds.
    apply list_elem_of_In, filter_In in Hd as [Hd Hs]. apply list_elem_of_In in Hd. rewrite Forall_forall in Hb. specialize (Hb d Hd). unfold of_rank, len in *.
    rewrite Hcount; lia.
  - rewrite <-app_assoc, map_app, of_section_marked, fold_app, take_marked.
    2:{ apply Forall_forall. intros d Hd ds. apply list_elem_of_In, filter_In in Hd as [Hd Hs]. unfold of_rank in *. rewrite Hcount; lia. }
    cbn [mbind result_bind app map entry_line fold_res]. unfold take_line at 1. cbn [fst snd].
    rewrite (Hadd i x) by (rewrite <-(Nat.add_0_r i), <-Hen; done). cbn [mbind result_bind]. replace (Z.of_nat i + 1) with (Z.of_nat (S i)) by lia.
    rewrite IH by (try lia; intros k; specialize (Hen (S k)); change (en !! k = ns !! (i + S k)%nat) in Hen; rewrite Hen; f_equal; lia). do 2 f_equal. rewrite <-app_assoc. f_equal.
    replace (Z.of_nat (S i)) with (Z.of_nat i + 1) by lia. apply (filter_next (fun d => of_rank r (Config.node d)) before).
    clear -Ho. induction Ho as [|d ds Hd _ IH]; constructor; [|done]. eapply Forall_impl; [exact Hd|]. intros e [Hlt|[He Hle]]; unfold of_rank; lia.
Qed.

Lemma take_stage `{SyscallNames} r ns D : section_ok (r, ns) ->
  ForallOrdPairs kept_order (disabled cfg) -> Forall (fun d => 0 <= before d) (disabled cfg) ->
  Forall (fun d => section_rank (Config.node d) = r -> before d <= len ns) (disabled cfg) ->
  fold_res take_line (stage r 0 D) (section_lines cfg (r, ns)) = Ok (stage (r + 1) 0 (D ++ List.filter (fun d => of_rank r (Config.node d)) (disabled cfg))).
Proof.
  intros Hs Ho H0 Hb. pose proof (take_section r ns D ns 0 Hs Ho Hb (fun k => eq_refl) eq_refl) as Ht. unfold section_lines. cbn [fst snd].
  change (section_entries cfg ?f ns) with (section_loop (of_section (of_rank r) (disabled cfg)) 0 ns ++ of_section (of_rank r) (disabled cfg) (fun b => b >=? len ns)).
  change (Z.of_nat 0) with 0 in Ht. rewrite Ht. destruct Hs as (_ & _ & Hs). cbn [fst snd] in Hs. rewrite Hs. do 3 f_equal.
  unfold picked. apply filter_ext_in. intros d Hd. rewrite Forall_forall in H0. specialize (H0 d (proj2 (list_elem_of_In _ _) Hd)). replace (before d >=? 0) with true by lia. apply andb_true_r.
Qed.

Lemma part_count r ns n : (r, ns) ∈ node_parts cfg -> section_rank n = r -> Counts.before (Counts.of_ cfg) n = len ns.
Proof.
  unfold node_parts. intros Hin Hr. repeat (apply elem_of_cons in Hin as [[= -> ->]|Hin]); [..|by apply elem_of_nil in Hin]; destruct n; try discriminate Hr;
    cbn [Counts.before Counts.of_ Counts.lint_allows_ Counts.services_ Counts.env_ Counts.etc_ Counts.tmp_ Counts.tty_ Counts.userns_ Counts.seccomp_ Counts.desktop_ Counts.command_];
    rewrite ?len_map; try done; try (by destruct (negb _));
    match goal with |- context [match ?o with Some _ => _ | None => _ end] => by destruct o end.
Qed.

Lemma ranks n : 0 <= section_rank n < 10.
Proof. destruct n; cbn; lia. Qed.

Lemma take_parts `{SyscallNames} ps r D :
  ForallOrdPairs kept_order (disabled cfg) -> Forall (fun d => 0 <= before d) (disabled cfg) -> Forall section_ok ps ->
  Forall (fun p => Forall (fun d => section_rank (Config.node d) = p.1 -> before d <= len p.2) (disabled cfg)) ps ->
  map fst ps = map (fun k => r + Z.of_nat k) (seq 0 (length ps)) -> 10 <= r + Z.of_nat (length ps) ->
  fold_res take_line (stage r 0 D) (concat (map (section_lines cfg) ps)) =
  Ok (stage (r + Z.of_nat (length ps)) 0 (D ++ List.filter (fun d => section_rank (Config.node d) >=? r) (disabled cfg))).
Proof.
  intros Ho H0 Hs. revert r D. induction Hs as [|[k ns] ps Hk _ IH]; intros r D Hb Hr H10; cbn [map concat length fst] in *.
  - rewrite Z.add_0_r in *. replace (List.filter _ _) with (@nil Disabled); [by rewrite app_nil_r|].
    induction (disabled cfg) as [|d ds IHd]; [done|]. cbn [List.filter]. pose proof (ranks (Config.node d)). replace (_ >=? r) with false by lia.
    inversion_clear Ho. inversion_clear H0. by apply IHd.
  - injection Hr as Hk0 Hr. replace k with r in * by lia. inversion_clear Hb as [|? ? Hb1 Hb2]. rewrite fold_app, (take_stage r ns D Hk Ho H0 Hb1). cbn [mbind result_bind].
    rewrite IH by (try lia; try done; rewrite Hr, <-seq_shift, map_map; apply map_ext; intros; lia). do 2 f_equal; [lia|]. rewrite <-app_assoc. f_equal.
    pose proof (filter_next (fun _ => true) (fun d => section_rank (Config.node d)) r (disabled cfg)) as Hf. cbn [andb] in Hf. apply Hf.
    clear -Ho. induction Ho as [|d ds Hd _ IH]; constructor; [|done]. eapply Forall_impl; [exact Hd|]. intros e [Hlt|[He Hle]]; lia.
Qed.

(** All the lines, taken from the start, make the configuration. *)
Lemma config_taken `{SyscallNames} : cfg_wf cfg -> Forall (kept_wf cfg) (disabled cfg) -> ForallOrdPairs kept_order (disabled cfg) ->
  fold_res take_line start_ (config_lines cfg) = Ok (stage 10 0 (disabled cfg)).
Proof.
  intros Hw Hk Ho. change start_ with (stage 0 0 []). unfold config_lines. rewrite take_parts; try done.
  - change (length (node_parts cfg)) with 10%nat. change (0 + Z.of_nat 10) with 10. do 2 f_equal. cbn [app].
    induction (disabled cfg) as [|d ds IH]; [done|]. cbn [List.filter]. pose proof (ranks (Config.node d)). replace (_ >=? 0) with true by lia.
    f_equal. inversion_clear Hk. inversion_clear Ho. by apply IH.
  - eapply Forall_impl; [exact Hk|]. intros d [_ Hd]. lia.
  - by apply sections_ok.
  - apply Forall_forall. intros [r ns] Hp. eapply Forall_impl; [exact Hk|]. intros d [_ Hd] Hr. cbn [fst snd] in *. rewrite (part_count r ns _ Hp Hr) in Hd. lia.
Qed.

Lemma stage_whole : shares cfg = [] -> s_cfg (stage 10 0 (disabled cfg)) = cfg.
Proof. intros Hs. unfold stage, mode_at, pick, seen. cbn. rewrite <-Hs. by destruct cfg. Qed.
End Stage.

Lemma insert_front {A} (key : A -> Z) a l : Forall (fun b => key a <= key b) l -> insert_by key a l = a :: l.
Proof. intros Hl. destruct l as [|b l]; [done|]. inversion_clear Hl. cbn [insert_by]. by replace (key a <=? key b) with true by lia. Qed.

Lemma sort_sorted {A} (key : A -> Z) l : ForallOrdPairs (fun a b => key a <= key b) l -> sort_by_key key l = l.
Proof. induction 1 as [|a l Ha _ IH]; cbn [sort_by_key]; [done|]. by rewrite IH, insert_front. Qed.

Lemma check_needs_ok l : needs_met l -> check_needs false l = Ok tt.
Proof.
  intros [Hd Hc Hx]. unfold check_needs.
  assert (bundle_without_dbus l = None) as ->.
  { unfold bundle_without_dbus. destruct (has_dbus l) eqn:E; [done|]. destruct (omap bundle_name l) as [|w ws] eqn:Eo; [done|].
    assert (w ∈ omap bundle_name l) as (s & Hs & Hb)%list_elem_of_omap by (rewrite Eo; by left).
    destruct (Hd s Hs ltac:(congruence)) as (rules & Hr). unfold has_dbus in E. rewrite (has_kind _ l _ Hr) in E; done. }
  assert (camera_without_portals l = false) as ->.
  { unfold camera_without_portals. destruct (existsb is_camera l) eqn:E; [|done]. apply existsb_spec in E as (s & Hs & Hk). destruct s; try discriminate Hk.
    destruct (Hc _ Hs) as (ch & Hch). by rewrite (has_kind _ l _ Hch). }
  assert (nested_x11_without_display_stack l = false) as ->; [|done].
  unfold nested_x11_without_display_stack. destruct (existsb is_nested_x11 l) eqn:E; [|done]. apply existsb_spec in E as (s & Hs & Hk).
  destruct s as [|[x|]| | | | | | | | | | | | | | | | | | |]; try discriminate Hk. destruct (Hx _ Hs) as [[m Hm] [k Hkm]].
  by rewrite (has_kind _ l _ Hm), (has_kind _ l _ Hkm).
Qed.

Section Written.
Context `{IpText, !IpTextLaws, SyscallNames, Kdl}.

(** Reading the lines of a configuration is reading the configuration, up to the check of
    what its grants need of one another. *)
Lemma parse_lines cfg :
  cfg_wf cfg -> Forall (kept_wf cfg) (disabled cfg) -> ForallOrdPairs kept_order (disabled cfg) -> Forall line_wf (config_lines cfg) ->
  every_text reads (config_lines cfg) -> every_text bounded (config_lines cfg) ->
  parse (lines_text (config_lines cfg)) = (_ ← check_needs false (services cfg); Ok cfg).
Proof.
  intros Hw Hk Ho Hl Hr Hb. pose proof (bounded_parses _ Hr Hb) as Hp. destruct Hp as [(doc & Hdoc & Hden) Hruns].
  destruct (lines_taken (lines_text (config_lines cfg)) false _ doc _ (conj (ex_intro _ doc (conj Hdoc Hden)) Hruns) Hl Hden (config_taken cfg Hw Hk Ho)) as (st & st' & Hst & Htl & Hc).
  unfold parse, parse_doc. rewrite Hdoc. cbn [mbind result_bind]. rewrite Hst. cbn [mbind result_bind]. rewrite Htl. cbn [mbind result_bind].
  assert (s_cfg st' = cfg) as ->.
  { change (s_cfg (core st') = cfg). rewrite Hc. by apply stage_whole, c_shares. }
  change (services (with_disabled cfg ?ds)) with (services cfg). destruct (check_needs false (services cfg)) as [[]|]; [|done]. cbn [mbind result_bind fst config]. f_equal.
  rewrite sort_sorted; [by destruct cfg|].
  clear -Ho. induction Ho as [|d ds Hd _ IH]; constructor; [|done]. eapply Forall_impl; [exact Hd|]. intros e [Hlt|[He _]]; lia.
Qed.

Lemma kept_wf_ok cfg : Forall (kept_wf cfg) (disabled cfg) -> kept_ok cfg.
Proof. intros Hk. eapply Forall_impl; [exact Hk|]. intros d [Hd Hd']. split; [done|lia]. Qed.

(** C19. The configuration that is written is the one that is read back, every grant, every
    mode and every kept line in its place: for a configuration as one that was read is, a
    text that the writer gives is that of its lines, and [parse] of it is the
    configuration it was written from.

    It is so where KDL 2 can say it at all: no value holds a character KDL refuses in
    a text or takes for a newline and [quote] leaves as it is (U+200E, U+200F, U+2028 to
    U+202E, U+2066 to U+2069, U+FEFF), no variable of [env] is a word KDL keeps
    ([true], [false], [null], [inf], [nan]), and each text handed to the KDL parser is
    within the bounds of a file, its size and its depth of braces.  Of the KDL parser it
    is used only that it reads what [Kdl2] reads. *)
Theorem written_config_is_read_back `{!KdlLaws} cfg t :
  cfg_wf cfg -> Forall (kept_wf cfg) (disabled cfg) -> ForallOrdPairs kept_order (disabled cfg) -> needs_met (services cfg) ->
  render cfg = Ok t -> Forall (fun x => in_kdl x.2) (config_lines cfg) -> every_text bounded (config_lines cfg) ->
  t = lines_text (config_lines cfg) /\ parse t = Ok cfg.
Proof.
  intros Hw Hk Ho Hn Ht Hs Hb. destruct (render_lines cfg t Hw (kept_wf_ok _ Hk) Ht) as [-> Hl]. split; [done|].
  rewrite (parse_lines cfg Hw Hk Ho Hl (texts_read _ Hl Hs) Hb). by rewrite (check_needs_ok _ Hn).
Qed.
End Written.

(** A configuration with a grant kept above another, written and read. *)
Definition shown_cfg : InstanceConfig :=
  mkInstance [Service.Wayland (WaylandMode.Sandboxed Clipboard.Paste); Service.Dri true] [] (Some [B "app"]) [(B "A", B "1")] EtcMode.Allowlist None Pty default_seccomp Userns.Allow [] None
    [mkDisabled (Node.Service Service.Notify) 1].

#[local] Existing Instance demo_text.
#[local] Existing Instance demo_text_laws.
#[local] Instance no_names : SyscallNames := {| syscall_number _ := None |}.

(** A KDL parser that reads [Kdl2] and no more. *)
#[local] Instance kdl2 : Kdl :=
  {| kdl_parse t := match Kdl2.document t with Some doc => Ok doc | None => Err Syntax end |}.

#[local] Instance kdl2_laws : KdlLaws.
Proof. split. intros t doc Hd. exists doc. unfold kdl_parse, kdl2. rewrite Hd. split; [done|]. by eapply kdl2_same. Qed.

Lemma shown_runs : (runs [] (config_lines shown_cfg)).2 :: map fst (runs [] (config_lines shown_cfg)).1 = [[]; []; [Node.Service Service.Notify]; []; []].
Proof. vm_compute. reflexivity. Qed.

Lemma written_config_is_read_back_witness :
  exists t, render shown_cfg = Ok t /\ t = B "wayland" ++ [LF] ++ B "/-notify" ++ [LF] ++ B "dri kms=#true" ++ [LF] ++ B "env A=" ++ quoted (B "1") ++ [LF] ++ B "command " ++ quoted (B "app") ++ [LF] /\ parse t = Ok shown_cfg.
Proof.
  assert (exists t, render shown_cfg = Ok t /\ t = B "wayland" ++ [LF] ++ B "/-notify" ++ [LF] ++ B "dri kms=#true" ++ [LF] ++ B "env A=" ++ quoted (B "1") ++ [LF] ++ B "command " ++ quoted (B "app") ++ [LF])
    as (t & Ht & Hs) by (eexists; split; [vm_compute; reflexivity|]; vm_compute; reflexivity).
  exists t. split; [exact Ht|]. split; [exact Hs|]. refine (proj2 (written_config_is_read_back shown_cfg t _ _ _ _ Ht _ _)).
  - split; cbn; repeat constructor; try set_solver; try done.
  - repeat constructor; vm_compute; congruence.
  - repeat constructor.
  - split; cbn; set_solver.
  - repeat constructor; by_decide.
  - split; [vm_compute; reflexivity|].
    rewrite shown_runs. repeat (apply List.Forall_cons; [intros Hne; first [by destruct Hne|vm_compute; reflexivity]|]). constructor.
Defined.
