(* ===== verification/Profile.v ===== *)
(** Profiles (bubbler-core/src/profile.rs): the layers that hold a name, the walk down their
    includes, and the merge of the layers into one configuration.

    A layer is a file of the user's directory, a file of the system's, or a text compiled
    in.  [Resolver.expand] visits a layer after the layers it includes; [Merged] is what the
    visited layers come to, each item with the layer that put it there; [finish] writes it
    out and reads it back.  The file system is [Files] and does not change during a walk;
    [Profiles] is the text of the built-in profiles. *)
From S2P Require Export ConfigDoc KdlOut Host.

(** ** Files *)

(** [fs::metadata(path)?.len()], and the bytes of the file. *)
Class Files := { file_len : bytes -> result FsError Z; file_bytes : bytes -> result FsError bytes }.

(** [include_str!] of a built-in profile. *)
Class Profiles := { built_in : bytes -> bytes }.

Inductive ReadError := ReadIo (e : FsError) | ReadTooLarge (e : ConfigError).

Definition read_bounded `{Files} (p : bytes) : result ReadError bytes :=
  let too_large n := Err (ReadTooLarge (TooLarge n MAX_BYTES)) in
  match file_len p with
  | Err e => Err (ReadIo e)
  | Ok size =>
    if size >? MAX_BYTES then too_large size
    else match file_bytes p with
         | Err e => Err (ReadIo e)
         | Ok content =>
           let text := upto content (MAX_BYTES + 1) in
           if negb (utf8_valid text) then Err (ReadIo (mkFs false (B "stream did not contain valid UTF-8")))
           else if len text >? MAX_BYTES then too_large (len text) else Ok text
         end
  end.

(** [Path::join] of a name that is not absolute. *)
Definition join_path (dir file : bytes) : bytes :=
  match List.rev dir with
  | [] => file
  | c :: _ => if bool_decide (c = SLASH) then dir ++ file else dir ++ SLASH :: file
  end.

(** ** Layers *)

Definition PROFILE_HEADER : bytes := B "// bubbler profile: ".
Definition SYSTEM_DIR : bytes := B "/usr/share/bubbler/profiles".
Definition MAX_DEPTH : Z := 8.

Definition NAMES : list bytes :=
  [B "agent"; B "alacritty"; B "chromium"; B "claude-code"; B "claude-code-strict"; B "code"; B "firefox"; B "generic"; B "keepassxc";
   B "kitty"; B "libreoffice"; B "lutris"; B "mpv"; B "spotify"; B "steam"; B "thunderbird"; B "vesktop"].

(** The text of a built-in profile. *)
Definition lookup_built_in `{Profiles} (name : bytes) : option bytes :=
  if bool_decide (name ∈ NAMES) then Some (built_in name) else None.

Module Origin.
Inductive t := User | System | BuiltIn.
#[global] Instance eq_dec : EqDecision t.
Proof. solve_decision. Defined.
Definition fmt (o : t) : bytes := match o with User => B "user" | System => B "system" | BuiltIn => B "built-in" end.
End Origin.

Module Layer.
Record t := mk { name : bytes; origin : Origin.t; path : option bytes; text : bytes }.

#[global] Instance eq_dec : EqDecision t.
Proof. solve_decision. Defined.

Definition label (l : t) : bytes :=
  match path l with
  | Some p => from_utf8_lossy p
  | None => B "built-in profile `" ++ name l ++ B "`"
  end.
End Layer.

(** A path that is one by its components, as [PathBuf] compares. *)
Module LayerId.
Inductive t := File (p : bytes) | BuiltIn (n : bytes).

Definition label (i : t) : bytes :=
  match i with File p => from_utf8_lossy p | BuiltIn n => B "built-in profile `" ++ n ++ B "`" end.

(** What the comparison looks at. *)
Definition key (i : t) : path + bytes := match i with File p => inl (components p) | BuiltIn n => inr n end.
Definition eqb (i j : t) : bool := bool_decide (key i = key j).
End LayerId.

Definition contains_id (l : list LayerId.t) (i : LayerId.t) : bool := existsb (LayerId.eqb i) l.
Definition chain_labels (chain : list LayerId.t) (last : LayerId.t) : list bytes := map LayerId.label (chain ++ [last]).

Inductive ProfileError :=
| NotFound (name : bytes)
| Cycle (chain : list bytes)
| IncludesTooDeep (chain : list bytes)
| Parse (origin : bytes) (source : ConfigError)
| SelfIncludeAtBottom (label : bytes)
| Conflict (node a b : bytes)
| InvalidName (name : bytes)
| Io (p : bytes) (e : FsError).

#[global] Instance ProfileError_eq_dec : EqDecision ProfileError.
Proof. solve_decision. Defined.

(** ** What the layers come to *)

Record Src := mkSrc { origin : Origin.t; src_path : option bytes; label : bytes }.

#[global] Instance Src_eq_dec : EqDecision Src.
Proof. solve_decision. Defined.

Definition sourced (A : Type) : Type := A * Src.

(** The first item [f] takes: its place, what [f] makes of it and its source. *)
Fixpoint slot {A C} (f : A -> option C) (l : list (sourced A)) : option (nat * C * Src) :=
  match l with
  | [] => None
  | (a, src) :: l =>
    match f a with
    | Some c => Some (0%nat, c, src)
    | None => match slot f l with Some (i, c, s) => Some (S i, c, s) | None => None end
    end
  end.

(** [Vec::push] unless it is held. *)
Definition push_new {A} `{EqDecision A} (held : list A) (a : A) : list A := if bool_decide (a ∈ held) then held else held ++ [a].
Definition union {A} `{EqDecision A} (held more : list A) : list A := fold_left push_new more held.

Section Merge.
Context `{IpText}.

(** The rules of two layers; a name takes one policy. *)
Fixpoint union_bus_rules (node : bytes) (held : list BusRule.t) (held_src : Src) (rules : list BusRule.t) (src : Src) : result ProfileError (list BusRule.t) :=
  match rules with
  | [] => Ok held
  | r :: rules =>
    let clash :=
      match BusRule.policy r with
      | Some (name, level) =>
        match List.find (fun x => bool_decide (x.1 = name)) (omap BusRule.policy held) with
        | Some (_, was) => if bool_decide (was = level) then None else Some (was, name, level)
        | None => None
        end
      | None => None
      end in
    match clash with
    | Some (was, name, level) =>
      Err (Conflict node (was ++ B " " ++ quoted name ++ B " in " ++ label held_src) (level ++ B " " ++ quoted name ++ B " in " ++ label src))
    | None => union_bus_rules node (push_new held r) held_src rules src
    end
  end.

Definition home_share (s : Service.t) : option (path * ShareMode.t) := match s with Service.HomeShare p m _ => Some (p, m) | _ => None end.
Definition path_share (s : Service.t) : option (path * ShareMode.t) := match s with Service.PathShare p m _ => Some (p, m) | _ => None end.
Definition app_runtime (s : Service.t) : option (bytes * ShareMode.t) := match s with Service.AppRuntime i m => Some (i, m) | _ => None end.

Definition mode_conflict (node : bytes) (a : ShareMode.t) (a_src : Src) (b : ShareMode.t) (b_src : Src) : ProfileError :=
  Conflict node (B "mode=" ++ share_mode a ++ B " in " ++ label a_src) (B "mode=" ++ share_mode b ++ B " in " ++ label b_src).

(** Whether a share of the same kind and key is held, once the two modes agree. *)
Definition holds_share {K} `{EqDecision K} (held : list (sourced Service.t)) (svc : Service.t) (src : Src) (name : bytes)
    (same : Service.t -> option (K * ShareMode.t)) : result ProfileError bool :=
  match same svc with
  | None => Ok false
  | Some (key, mode) =>
    match slot (fun s => match same s with Some (k, m) => if bool_decide (k = key) then Some m else None | None => None end) held with
    | None => Ok false
    | Some (_, held_mode, held_src) =>
      if bool_decide (held_mode = mode) then Ok true
      else
        let node := match service svc with Ok n => n | Err _ => name end in
        Err (mode_conflict (without_mode node) held_mode held_src mode src)
    end
  end.

(** [optional] or'ed into the share [same] finds; [same] gives the flag and the share with
    another. *)
Definition merge_share_optional (held : list (sourced Service.t)) (optional : bool) (src : Src)
    (same : Service.t -> option (bool * (bool -> Service.t))) : list (sourced Service.t) :=
  match slot same held with
  | Some (i, (o, set), _) => <[i := (set (o || optional), src)]> held
  | None => held
  end.

(** The item [f] finds, replaced by what [f] makes of it; the new grant, when there is none. *)
Definition merge_slot {C} (held : list (sourced Service.t)) (svc : Service.t) (src : Src) (f : Service.t -> option C)
    (g : C -> Src -> result ProfileError Service.t) : result ProfileError (list (sourced Service.t)) :=
  match slot f held with
  | Some (i, c, held_src) => s ← g c held_src; Ok (<[i := (s, src)]> held)
  | None => Ok (held ++ [(svc, src)])
  end.

(** The network of the layer below and the one of this layer. *)
Definition merge_network (cfg : NetworkConfig) (src : Src) (held : NetworkConfig) (held_src : Src) : result ProfileError Service.t :=
  if bool_decide (outbound held = Outbound.Deny) && negb (bool_decide (outbound cfg = Outbound.Deny)) then
    Err (Conflict (B "network") (B "outbound " ++ quoted (B "deny") ++ B " in " ++ label held_src)
          (B "a `network` node without it in " ++ label src ++ B "; write `outbound " ++ quoted (B "deny")
           ++ B "` there too, or do not include the layer that filters"))
  else Ok (Service.Network (mkNetwork (mode cfg) (union (n_dns held) (n_dns cfg)) (union (n_forwards held) (n_forwards cfg)) (no_ipv6 held || no_ipv6 cfg)
             (outbound cfg) (union (allow_out held) (allow_out cfg)) (union (allow_hosts held) (allow_hosts cfg)))).

Definition add_service (held : list (sourced Service.t)) (svc : Service.t) (src : Src) : result ProfileError (list (sourced Service.t)) :=
  let push := Ok (held ++ [(svc, src)]) in
  let replace (is_ : Service.t -> bool) := merge_slot held svc src (fun s => if is_ s then Some tt else None) (fun _ _ => Ok svc) in
  match svc with
  | Service.HomeShare p _ optional =>
    found ← holds_share held svc src (B "home-share") home_share;
    if found : bool then
      Ok (merge_share_optional held optional src (fun s =>
            match s with Service.HomeShare q m o => if bool_decide (q = p) then Some (o, Service.HomeShare q m) else None | _ => None end))
    else push
  | Service.PathShare p _ optional =>
    found ← holds_share held svc src (B "path-share") path_share;
    if found : bool then
      Ok (merge_share_optional held optional src (fun s =>
            match s with Service.PathShare q m o => if bool_decide (q = p) then Some (o, Service.PathShare q m) else None | _ => None end))
    else push
  | Service.AppRuntime _ _ =>
    found ← holds_share held svc src (B "app-runtime") app_runtime;
    if found : bool then Ok held else push
  | Service.Dbus rules =>
    merge_slot held svc src (fun s => match s with Service.Dbus h => Some h | _ => None end)
      (fun h h_src => rs ← union_bus_rules (B "dbus") h h_src rules src; Ok (Service.Dbus rs))
  | Service.Network cfg => merge_slot held svc src (fun s => match s with Service.Network h => Some h | _ => None end) (merge_network cfg src)
  | Service.Gamepad hidraw uinput =>
    merge_slot held svc src (fun s => match s with Service.Gamepad h u => Some (h, u) | _ => None end)
      (fun h _ => Ok (Service.Gamepad (h.1 || hidraw) (h.2 || uinput)))
  | Service.Dri kms => merge_slot held svc src (fun s => match s with Service.Dri h => Some h | _ => None end) (fun h _ => Ok (Service.Dri (h || kms)))
  | Service.Portals children =>
    merge_slot held svc src (fun s => match s with Service.Portals h => Some h | _ => None end) (fun h _ => Ok (Service.Portals (union h children)))
  | Service.Camera nodes => merge_slot held svc src (fun s => match s with Service.Camera h => Some h | _ => None end) (fun h _ => Ok (Service.Camera (h || nodes)))
  | Service.SystemBus rules =>
    merge_slot held svc src (fun s => match s with Service.SystemBus h => Some h | _ => None end)
      (fun h h_src => rs ← union_bus_rules (B "system-bus") h h_src rules src; Ok (Service.SystemBus rs))
  | Service.Mpris _ => replace (fun s => match s with Service.Mpris _ => true | _ => false end)
  | Service.Wayland _ => replace is_wayland
  | Service.X11 _ => replace (fun s => match s with Service.X11 _ => true | _ => false end)
  | Service.Pipewire microphone =>
    merge_slot held svc src (fun s => match s with Service.Pipewire h => Some h | _ => None end) (fun h _ => Ok (Service.Pipewire (h || microphone)))
  | Service.Pulseaudio microphone =>
    merge_slot held svc src (fun s => match s with Service.Pulseaudio h => Some h | _ => None end) (fun h _ => Ok (Service.Pulseaudio (h || microphone)))
  | Service.Notify | Service.Tray | Service.A11y | Service.InputMethod | Service.Hidraw | Service.EtcShare _ =>
    if existsb (fun s => bool_decide (s.1 = svc)) held then Ok held else push
  end.
End Merge.

Module Merged.
Record t := mk {
  services : list (sourced Service.t);
  env : list (sourced (bytes * bytes));
  etc : option (sourced EtcMode.t);
  tmp : option (sourced Z);
  tty : option (sourced TtyMode);
  userns : option (sourced Userns.t);
  seccomp : SeccompConfig;
  seccomp_src : option Src;
  command : option (sourced (list bytes));
  desktop : option (sourced bytes);
  lint_allows : list (sourced LintAllow);
  disabled : list (sourced Disabled) }.

(** [Merged::default]. *)
Definition default_ : t := mk [] [] None None None None default_seccomp None None None [] [].

(** The item with the key of [a] replaced, or [a] added. *)
Definition put {A K} `{EqDecision K} (key : A -> K) (src : Src) (held : list (sourced A)) (a : A) : list (sourced A) :=
  match slot (fun h => if bool_decide (key h = key a) then Some tt else None) held with
  | Some (i, _, _) => <[i := (a, src)]> held
  | None => held ++ [(a, src)]
  end.

(** What this layer says, else what was held. *)
Definition decide_ {A} (src : Src) (set : option A) (held : option (sourced A)) : option (sourced A) :=
  match set with Some a => Some (a, src) | None => held end.

Definition merge `{IpText} (m : t) (raw : RawProfile) (src : Src) : result ProfileError t :=
  let cfg := config raw in
  svcs ← fold_res (fun held svc => add_service held svc src) (services m) (Config.services cfg);
  let sec := Config.seccomp cfg in
  let sec_set := negb (bool_decide (sec = default_seccomp)) in
  Ok (mk svcs
        (fold_left (put fst src) (Config.env cfg) (env m))
        (decide_ src (if etc_set raw then Some (Config.etc cfg) else None) (etc m))
        (decide_ src (Config.tmp cfg) (tmp m))
        (decide_ src (if tty_set raw then Some (Config.tty cfg) else None) (tty m))
        (decide_ src (if userns_set raw then Some (Config.userns cfg) else None) (userns m))
        (if sec_set then
           mkConfig (union (Seccomp.allow (seccomp m)) (Seccomp.allow sec)) (union (Seccomp.deny (seccomp m)) (Seccomp.deny sec))
             (disable (seccomp m) || disable sec)
         else seccomp m)
        (if sec_set then Some src else seccomp_src m)
        (decide_ src (Config.command cfg) (command m))
        (decide_ src (Config.desktop cfg) (desktop m))
        (fold_left (put check_id src) (Config.lint_allows cfg) (lint_allows m))
        (disabled m ++ map (fun d => (d, src)) (Config.disabled cfg))).
End Merged.

(** ** The flattened profile *)

Record NodeOrigin := mkNodeOrigin { no_node : bytes; no_origin : Origin.t; no_path : option bytes }.
Record Resolved := mkResolved { r_config : InstanceConfig; r_text : bytes; r_origins : list NodeOrigin }.

Section Finish.
Context `{IpText, SyscallNames, Kdl}.

(** The kept lines of one section, under its last node. *)
Definition kept (entries : list (sourced Disabled)) (rank : Z) (name : bytes) : result ProfileError (list (sourced bytes)) :=
  fold_res (fun out e => match disabled_ e.1 with
                         | Ok n => Ok (out ++ [(n, e.2)])
                         | Err source => Err (Parse (B "flattened profile `" ++ name ++ B "`") source)
                         end) [] (List.filter (fun e => section_rank (Config.node e.1) =? rank) entries).

(** One item that is written where it is not the default. *)
Definition said {A} (write : A -> bytes) (plain : A -> bool) (item : option (sourced A)) : list (sourced bytes) :=
  match item with Some (a, src) => if plain a then [] else [(write a, src)] | None => [] end.

Definition flat_origins (m : Merged.t) (name : bytes) : result ProfileError (list (sourced bytes)) :=
  let bad {A} (r : result ConfigError A) : result ProfileError A :=
    match r with Ok a => Ok a | Err source => Err (Parse (B "flattened profile `" ++ name ++ B "`") source) end in
  let keep rank := kept (Merged.disabled m) rank name in
  k0 ← keep 0;
  svcs ← fold_res (fun out s => n ← bad (service s.1); Ok (out ++ [(n, s.2)])) [] (Merged.services m);
  k1 ← keep 1;
  k2 ← keep 2;
  k3 ← keep 3;
  k4 ← keep 4;
  k5 ← keep 5;
  k6 ← keep 6;
  k7 ← keep 7;
  k8 ← keep 8;
  cmd ← match Merged.command m with Some (argv, src) => n ← bad (command_ argv); Ok [(n, src)] | None => Ok [] end;
  k9 ← keep 9;
  Ok (map (fun a => (lint_allow a.1, a.2)) (Merged.lint_allows m) ++ k0 ++
      svcs ++ k1 ++
      map (fun e => (env_ e.1, e.2)) (Merged.env m) ++ k2 ++
      said etc_ (fun e => bool_decide (e = EtcMode.Allowlist)) (Merged.etc m) ++ k3 ++
      said tmp_ (fun _ => false) (Merged.tmp m) ++ k4 ++
      said tty_ (fun t => bool_decide (t = Pty)) (Merged.tty m) ++ k5 ++
      said userns_ (fun u => bool_decide (u = Userns.Allow)) (Merged.userns m) ++ k6 ++
      match Merged.seccomp_src m with
      | Some src => if bool_decide (Merged.seccomp m = default_seccomp) then [] else [(seccomp_ (Merged.seccomp m), src)]
      | None => []
      end ++ k7 ++
      said desktop_ (fun _ => false) (Merged.desktop m) ++ k8 ++
      cmd ++ k9).

Definition finish (m : Merged.t) (name : bytes) : result ProfileError Resolved :=
  origins ← flat_origins m name;
  let text := concat (map (fun o => o.1 ++ [LF]) origins) in
  match ConfigDoc.parse text with
  | Err source => Err (Parse (B "flattened profile `" ++ name ++ B "`") source)
  | Ok config => Ok (mkResolved config text (map (fun o => mkNodeOrigin o.1 (origin o.2) (src_path o.2)) origins))
  end.

(** ** The walk *)

(** The includes of a layer whose nodes the parser rejects. *)
Definition include_of (n : KdlNode) : option bytes :=
  if bool_decide (n_name n = B "include") && bool_decide (n_children n = None) then
    match n_entries n with
    | [e] => match e_name e with None => as_string (e_value e) | Some _ => None end
    | _ => None
    end
  else None.
Definition includes_of (text : bytes) : result ConfigError (list bytes) := doc ← parse_document text; Ok (omap include_of (d_nodes doc)).

End Finish.

Module Visit.
Inductive t := Merge (acc : Merged.t) | Collect (out : list Layer.t).
Definition collecting (v : t) : bool := match v with Collect _ => true | Merge _ => false end.
End Visit.

Module Resolver.
Record t := mk { user_dir : bytes; system_dir : bytes }.

(** [Resolver::new], from the two things it takes of the environment. *)
Definition new (config_home : bytes) (profile_dir_override : option bytes) : t :=
  mk (join_path (join_path config_home (B "bubbler")) (B "profiles")) (default SYSTEM_DIR profile_dir_override).

Section Walk.
Context `{IpText, SyscallNames, Kdl, Files, Profiles}.

Definition file_layer (name : bytes) (out : list Layer.t) (where_ : Origin.t * bytes) : result ProfileError (list Layer.t) :=
  let p := join_path where_.2 (name ++ B ".kdl") in
  match read_bounded p with
  | Ok text => Ok (out ++ [Layer.mk name where_.1 (Some p) text])
  | Err (ReadTooLarge source) => Err (Parse (from_utf8_lossy p) source)
  | Err (ReadIo e) => if not_found e then Ok out else Err (Io p e)
  end.

Definition lookup (r : t) (name : bytes) : result ProfileError (list Layer.t) :=
  if negb (is_plain_name name) then Ok []
  else
    out ← fold_res (file_layer name) [] [(Origin.User, user_dir r); (Origin.System, system_dir r)];
    Ok (match lookup_built_in name with Some text => out ++ [Layer.mk name Origin.BuiltIn None text] | None => out end).

(** What a walk carries: what it does with a layer, the layers it is inside of, and the
    layers it has visited. *)
Record walk := mkWalk { visit : Visit.t; chain : list LayerId.t; done_ : list LayerId.t }.

Definition id_of (name : bytes) (l : Layer.t) : LayerId.t :=
  match Layer.path l with Some p => LayerId.File p | None => LayerId.BuiltIn name end.

(** The nodes of the layer, when they parse, and its includes. *)
Definition read_layer (collecting : bool) (l : Layer.t) : result ProfileError (option RawProfile * list bytes) :=
  match parse_profile (Layer.text l) with
  | Ok raw => Ok (Some raw, includes raw)
  | Err source =>
    if collecting then
      match includes_of (Layer.text l) with
      | Ok incs => Ok (None, incs)
      | Err source => Err (Parse (Layer.label l) source)
      end
    else Err (Parse (Layer.label l) source)
  end.

Definition visit_layer (v : Visit.t) (l : Layer.t) (raw : option RawProfile) : result ProfileError Visit.t :=
  match v with
  | Visit.Merge acc =>
    match raw with
    | Some raw => acc ← Merged.merge acc raw (mkSrc (Layer.origin l) (Layer.path l) (Layer.label l)); Ok (Visit.Merge acc)
    | None => Ok v
    end
  | Visit.Collect out => Ok (Visit.Collect (out ++ [l]))
  end.

(** The includes of a layer, each by [expand]. *)
Fixpoint expand_all (expand : bytes -> nat -> walk -> option (result ProfileError walk)) (name : bytes) (skip below : nat) (label : bytes)
    (incs : list bytes) (w : walk) : option (result ProfileError walk) :=
  match incs with
  | [] => Some (Ok w)
  | inc :: incs =>
    let one :=
      if negb (bool_decide (inc = name)) then expand inc 0%nat w
      else if bool_decide (below = 0%nat) then Some (Err (SelfIncludeAtBottom label))
      else expand inc (S skip) w in
    match one with
    | Some (Ok w) => expand_all expand name skip below label incs w
    | other => other
    end
  end.

(** The [skip]th layer of [name], its includes first. *)
Fixpoint expand (fuel : nat) (r : t) (name : bytes) (skip : nat) (w : walk) : option (result ProfileError walk) :=
  match fuel with
  | O => None
  | S fuel =>
    match lookup r name with
    | Err e => Some (Err e)
    | Ok layers =>
      match layers !! skip with
      | None => Some (Err (NotFound name))
      | Some layer =>
        let below := (length layers - (skip + 1))%nat in
        let id := id_of name layer in
        if contains_id (chain w) id then Some (Err (Cycle (chain_labels (chain w) id)))
        else if contains_id (done_ w) id then Some (Ok w)
        else if len (chain w) >=? MAX_DEPTH then Some (Err (IncludesTooDeep (chain_labels (chain w) id)))
        else
          match read_layer (Visit.collecting (visit w)) layer with
          | Err e => Some (Err e)
          | Ok (raw, incs) =>
            match expand_all (expand fuel r) name skip below (Layer.label layer) incs (mkWalk (visit w) (chain w ++ [id]) (done_ w)) with
            | Some (Ok w) =>
              Some (v ← visit_layer (visit w) layer raw;
                    Ok (match last (chain w) with
                        | Some id => mkWalk v (removelast (chain w)) (done_ w ++ [id])
                        | None => mkWalk v (chain w) (done_ w)
                        end))
            | other => other
            end
          end
      end
    end
  end.

(** The chain is at most [MAX_DEPTH] long, so this is deep enough. *)
Definition DEPTH_FUEL : nat := 9.

Definition resolve (r : t) (name : bytes) : option (result ProfileError Resolved) :=
  match expand DEPTH_FUEL r name 0 (mkWalk (Visit.Merge Merged.default_) [] []) with
  | Some (Ok w) => match visit w with Visit.Merge acc => Some (finish acc name) | Visit.Collect _ => None end
  | Some (Err e) => Some (Err e)
  | None => None
  end.

Definition layers (r : t) (name : bytes) : option (result ProfileError (list Layer.t)) :=
  match expand DEPTH_FUEL r name 0 (mkWalk (Visit.Collect []) [] []) with
  | Some (Ok w) => match visit w with Visit.Collect out => Some (Ok out) | Visit.Merge _ => None end
  | Some (Err e) => Some (Err e)
  | None => None
  end.
End Walk.
End Resolver.

(** ** Text for a reader *)

Definition TEMPLATE : bytes :=
  B "// Grants a new instance is seeded with, e.g.:" ++ [LF] ++ B "//   wayland" ++ [LF] ++ B "//   network" ++ [LF] ++
  B "//   home-share " ++ quoted (B "Downloads") ++ B " mode=rw" ++ [LF] ++ B "// and a default command:" ++ [LF] ++
  B "//   command " ++ quoted (B "foot") ++ [LF].

Definition starter (name : bytes) (below : bool) : bytes :=
  PROFILE_HEADER ++ name ++ B " (user layer)" ++ [LF] ++ (if below then B "include " ++ quoted name ++ [LF] else TEMPLATE).

(** [show] over the origins, each with whether the one before came from the same layer. *)
Fixpoint show_loop (last : option NodeOrigin) (l : list NodeOrigin) : list bytes :=
  match l with
  | [] => []
  | n :: l =>
    let same := match last with Some p => bool_decide (no_origin p = no_origin n) && bool_decide (option_map components (no_path p) = option_map components (no_path n)) | None => false end in
    (if same then [] else [B "// from: " ++ match no_path n with Some p => p | None => B "built-in" end]) ++ [no_node n] ++ show_loop (Some n) l
  end.
Definition show (name : bytes) (resolved : Resolved) : list bytes := (PROFILE_HEADER ++ name) :: show_loop None (r_origins resolved).
