(* ===== verification/ProfileWalk.v ===== *)
(** The walk down the includes of a profile: that it ends, in which order it visits the
    layers, that listing them and merging them is one walk, and what its refusals mean. *)
From S2P Require Import NetworkSpec.
From S2P Require Export Profile.

Section Walk.
Context `{IpText, SyscallNames, Kdl, Files, Profiles}.
Context (r : Resolver.t).
Import Resolver.

(** ** Layers by name and place *)

(** The [skip]th layer of a name. *)
Definition pos : Type := bytes * nat.

Definition layer_at (p : pos) : option Layer.t :=
  match lookup r p.1 with Ok ls => ls !! p.2 | Err _ => None end.

(** The layer an include of the layer at [p] asks for. *)
Definition target (p : pos) (inc : bytes) : pos := if bool_decide (inc = p.1) then (p.1, S p.2) else (inc, 0%nat).

(** The includes of a layer, read as a listing reads them. *)
Definition incs_of (l : Layer.t) : list bytes :=
  match read_layer true l with Ok (_, incs) => incs | Err _ => [] end.

Inductive edge (p q : pos) : Prop :=
  | edge_of l inc : layer_at p = Some l -> inc ∈ incs_of l -> q = target p inc -> edge p q.

(** The identity of the layer at [p], as the walk compares them. *)
Definition key_at (p : pos) : option (path + bytes) := option_map (fun l => LayerId.key (id_of p.1 l)) (layer_at p).

Lemma contains_spec l i : contains_id l i = true <-> LayerId.key i ∈ map LayerId.key l.
Proof.
  unfold contains_id. rewrite existsb_spec, list_elem_of_fmap. split; intros (j & Hj & He).
  - unfold LayerId.eqb in He. bool_to_prop. exists j. done.
  - exists j. split; [done|]. unfold LayerId.eqb. by apply bool_decide_eq_true.
Qed.

(** What a layer is read as when its nodes are to be merged is what it is listed as. *)
Lemma read_layer_listed l raw incs : read_layer false l = Ok (raw, incs) -> read_layer true l = Ok (raw, incs) /\ exists p, raw = Some p /\ parse_profile (Layer.text l) = Ok p.
Proof.
  unfold read_layer. destruct (parse_profile (Layer.text l)) as [p|e] eqn:Hp; [|done]. intros [= <- <-]. split; [done|]. by exists p.
Qed.

Lemma read_layer_incs c l raw incs : read_layer c l = Ok (raw, incs) -> incs_of l = incs.
Proof.
  unfold incs_of. destruct c; [by intros ->|]. intros Hr. destruct (read_layer_listed _ _ _ Hr) as [-> _]. done.
Qed.

(** ** It ends *)

(** What is left of a walk once a layer is done: the chain as it was. *)
Lemma expand_all_chain f name skip below lbl incs w w' :
  (forall n k w w', f n k w = Some (Ok w') -> chain w' = chain w) ->
  expand_all f name skip below lbl incs w = Some (Ok w') -> chain w' = chain w.
Proof.
  intros Hf. revert w. induction incs as [|inc incs IH]; intros w Hw; cbn [expand_all] in Hw; [by injection Hw as <-|].
  destruct (negb _).
  - destruct (f inc 0%nat w) as [[w1|]|] eqn:E; try done. rewrite (IH _ Hw). by eapply Hf.
  - case_bool_decide; [done|]. destruct (f inc (S skip) w) as [[w1|]|] eqn:E; try done. rewrite (IH _ Hw). by eapply Hf.
Qed.

Lemma last_snoc_id {A} (l : list A) x : last (l ++ [x]) = Some x /\ removelast (l ++ [x]) = l.
Proof. split; [apply last_snoc|apply removelast_last]. Qed.

Lemma expand_chain fuel name skip w w' : expand fuel r name skip w = Some (Ok w') -> chain w' = chain w.
Proof.
  revert name skip w w'. induction fuel as [|fuel IH]; intros name skip w w' He; cbn [expand] in He; [done|].
  destruct (lookup r name) as [ls|]; [|done]. destruct (ls !! skip) as [l|]; [|done].
  destruct (contains_id (chain w) _); [done|]. destruct (contains_id (done_ w) _); [by injection He as <-|].
  destruct (_ >=? _); [done|]. destruct (read_layer _ l) as [[raw incs]|]; [|done].
  destruct (expand_all _ _ _ _ _ _ _) as [[w1|]|] eqn:Ea; try done. apply expand_all_chain in Ea; [|exact IH]. cbn [chain] in Ea.
  injection He as He. destruct (visit_layer _ _ _); [|done]. cbn [mbind result_bind] in He. injection He as <-.
  rewrite Ea. destruct (last_snoc_id (chain w) (id_of name l)) as [-> ->]. done.
Qed.

Lemma expand_all_returns f name skip below lbl incs w (c : list LayerId.t) :
  (forall n k w, chain w = c -> exists res, f n k w = Some res) -> (forall n k w w', f n k w = Some (Ok w') -> chain w' = chain w) ->
  chain w = c -> exists res, expand_all f name skip below lbl incs w = Some res.
Proof.
  intros Hf Hc. revert w. induction incs as [|inc incs IH]; intros w Hw; cbn [expand_all]; [by eexists|].
  destruct (negb _).
  - destruct (Hf inc 0%nat w Hw) as [[w1|e] E]; rewrite E; [|by eexists]. apply IH. by rewrite (Hc _ _ _ _ E).
  - case_bool_decide; [by eexists|]. destruct (Hf inc (S skip) w Hw) as [[w1|e] E]; rewrite E; [|by eexists]. apply IH. by rewrite (Hc _ _ _ _ E).
Qed.

Lemma expand_returns fuel name skip w : (9 - length (chain w) <= fuel)%nat -> (1 <= fuel)%nat -> exists res, expand fuel r name skip w = Some res.
Proof.
  revert name skip w. induction fuel as [|fuel IH]; intros name skip w Hf Hpos; [lia|]. cbn [expand].
  destruct (lookup r name) as [ls|]; [|by eexists]. destruct (ls !! skip) as [l|]; [|by eexists].
  destruct (contains_id (chain w) _); [by eexists|]. destruct (contains_id (done_ w) _); [by eexists|].
  destruct (len (chain w) >=? MAX_DEPTH) eqn:Ed; [by eexists|]. destruct (read_layer _ l) as [[raw incs]|]; [|by eexists].
  unfold MAX_DEPTH, len in Ed.
  destruct (expand_all_returns (expand fuel r) name skip (length ls - (skip + 1)) (Layer.label l) incs (mkWalk (visit w) (chain w ++ [id_of name l]) (done_ w)) (chain w ++ [id_of name l])) as [res Hr].
  - intros n k v Hv. apply IH; [rewrite Hv, length_app; cbn; lia|]. lia.
  - intros n k v v'. apply expand_chain.
  - done.
  - rewrite Hr. destruct res as [w1|e]; by eexists.
Qed.
End Walk.

Section Order.
Context `{IpText, SyscallNames, Kdl, Files, Profiles}.
Context (r : Resolver.t).
Import Resolver.

(** ** Merging is listing *)

Definition src_of (l : Layer.t) : Src := mkSrc (Layer.origin l) (Layer.path l) (Layer.label l).

(** The nodes of a layer, or why it has none. *)
Definition raw_of (l : Layer.t) : result ProfileError RawProfile :=
  match parse_profile (Layer.text l) with Ok raw => Ok raw | Err source => Err (Parse (Layer.label l) source) end.

(** The layers one after another, merged. *)
Definition merge_layers (m : Merged.t) (ls : list Layer.t) : result ProfileError Merged.t :=
  fold_res (fun m l => raw ← raw_of l; Merged.merge m raw (src_of l)) m ls.

(** A walk that merges and the one that lists, from the same place. *)
Definition lists (f : walk -> option (result ProfileError walk)) : Prop :=
  forall w w' acc out, visit w = Visit.Merge acc -> f w = Some (Ok w') ->
    exists ls acc', f (mkWalk (Visit.Collect out) (chain w) (done_ w)) = Some (Ok (mkWalk (Visit.Collect (out ++ ls)) (chain w') (done_ w'))) /\
      visit w' = Visit.Merge acc' /\ merge_layers acc ls = Ok acc'.

Lemma merge_layers_app m a b : merge_layers m (a ++ b) = (m ← merge_layers m a; merge_layers m b).
Proof. apply fold_app. Qed.

(** One include of the layer. *)
Definition one_include (f : bytes -> nat -> walk -> option (result ProfileError walk)) (name : bytes) (skip below : nat) (lbl inc : bytes) (w : walk) :
    option (result ProfileError walk) :=
  if negb (bool_decide (inc = name)) then f inc 0%nat w
  else if bool_decide (below = 0%nat) then Some (Err (SelfIncludeAtBottom lbl)) else f inc (S skip) w.

Lemma expand_all_one f name skip below lbl inc incs w :
  expand_all f name skip below lbl (inc :: incs) w =
  match one_include f name skip below lbl inc w with Some (Ok w) => expand_all f name skip below lbl incs w | other => other end.
Proof.
  cbn [expand_all]. unfold one_include. destruct (negb _); [by destruct (f inc 0%nat w) as [[]|]|]. case_bool_decide; [done|].
  by destruct (f inc (S skip) w) as [[]|].
Qed.

Lemma expand_all_lists f name skip below lbl incs : (forall n k, lists (f n k)) -> lists (expand_all f name skip below lbl incs).
Proof.
  intros Hf. induction incs as [|inc incs IH]; intros w w' acc out Hw He.
  - injection He as <-. exists [], acc. cbn. rewrite app_nil_r. split; [done|by split].
  - assert (lists (one_include f name skip below lbl inc)) as Hg.
    { unfold one_include. intros w0 w0' a o. destruct (negb _); [apply Hf|]. case_bool_decide; [done|]. apply Hf. }
    rewrite expand_all_one in He |- *.
    destruct (one_include f name skip below lbl inc w) as [[w1|]|] eqn:Eg; try done. destruct (Hg w w1 acc out Hw Eg) as (ls1 & a1 & Hc & Hv & Hm).
    destruct (IH w1 w' a1 (out ++ ls1) Hv He) as (ls2 & a2 & Hc2 & Hv2 & Hm2). exists (ls1 ++ ls2), a2. split; [|split; [done|]].
    + rewrite Hc, Hc2. by rewrite app_assoc.
    + rewrite merge_layers_app, Hm. exact Hm2.
Qed.

Lemma expand_lists fuel name skip : lists (expand fuel r name skip).
Proof.
  revert name skip. induction fuel as [|fuel IH]; intros name skip w w' acc out Hw He; cbn [expand] in *; [done|].
  destruct (lookup r name) as [ls|]; [|done]. destruct (ls !! skip) as [l|]; [|done]. cbn [chain done_ visit] in *.
  destruct (contains_id (chain w) _); [done|]. destruct (contains_id (done_ w) _).
  { injection He as <-. exists [], acc. rewrite app_nil_r. split; [done|]. done. }
  destruct (_ >=? _); [done|]. rewrite Hw in He. cbn [Visit.collecting] in *.
  destruct (read_layer false l) as [[raw incs]|] eqn:Er; [|done]. destruct (read_layer_listed _ _ _ Er) as [Er' (p & -> & Hp)]. rewrite Er'.
  destruct (expand_all _ _ _ _ _ _ _) as [[w1|]|] eqn:Ea; try done.
  destruct (expand_all_lists (expand fuel r) name skip (length ls - (skip + 1)) (Layer.label l) incs IH (mkWalk (Visit.Merge acc) (chain w ++ [id_of name l]) (done_ w)) w1 acc out eq_refl Ea) as (ls1 & a1 & Hc & Hv & Hm).
  cbn [chain done_] in Hc. rewrite Hc. cbn [visit chain done_]. rewrite Hv in He. unfold visit_layer in *. injection He as He.
  destruct (Merged.merge a1 p (mkSrc (Layer.origin l) (Layer.path l) (Layer.label l))) as [a2|] eqn:Em; [|done]. cbn [mbind result_bind] in He.
  exists (ls1 ++ [l]), a2. rewrite app_assoc. cbn [mbind result_bind]. split; [|split].
  - by destruct (last (chain w1)); injection He as <-.
  - by destruct (last (chain w1)); injection He as <-.
  - rewrite merge_layers_app, Hm. cbn. unfold raw_of. rewrite Hp. cbn. unfold src_of. by rewrite Em.
Qed.

(** ** The order *)

Definition keys (l : list LayerId.t) : list (path + bytes) := map LayerId.key l.
Definition keys_of (vs : list pos) : list (path + bytes) := omap (key_at r) vs.

(** Each include of a visited layer was done before it. *)
Definition closed (dn : list (path + bytes)) (vs : list pos) : Prop :=
  forall i v q, vs !! i = Some v -> edge r v q -> exists k, key_at r q = Some k /\ k ∈ dn ++ keys_of (take i vs).

Lemma keys_of_app a b : keys_of (a ++ b) = keys_of a ++ keys_of b.
Proof. apply omap_app_local. Qed.

Lemma closed_app dn a b : closed dn a -> closed (dn ++ keys_of a) b -> closed dn (a ++ b).
Proof.
  intros Ha Hb i v q Hi He. destruct (decide (i < length a)%nat) as [Hl|Hl].
  - rewrite lookup_app_l in Hi by done. destruct (Ha i v q Hi He) as (k & Hk & Hin). exists k. split; [done|]. rewrite take_app_le by lia. done.
  - rewrite lookup_app_r in Hi by lia. destruct (Hb _ v q Hi He) as (k & Hk & Hin). exists k. split; [done|].
    rewrite take_app_ge by lia. rewrite keys_of_app. by rewrite app_assoc.
Qed.

(** What a listing visited: layers not met before, each after its includes, all of them
    reached from where it started. *)
Record visited (w w' : walk) (from_ : pos -> Prop) (vs : list pos) : Prop := {
  v_layers : exists out ls, visit w = Visit.Collect out /\ visit w' = Visit.Collect (out ++ ls) /\ Forall2 (fun p l => layer_at r p = Some l) vs ls;
  v_done : keys (done_ w') = keys (done_ w) ++ keys_of vs;
  v_once : NoDup (keys_of vs) /\ forall k, k ∈ keys_of vs -> k ∉ keys (done_ w) /\ k ∉ keys (chain w);
  v_closed : closed (keys (done_ w)) vs;
  v_from : Forall from_ vs }.

Lemma visited_app w w1 w2 F a b : chain w1 = chain w -> visited w w1 F a -> visited w1 w2 F b -> visited w w2 F (a ++ b).
Proof.
  intros Hc [(o1 & l1 & Hv1 & Hv1' & Hl1) Hd1 [Hn1 Hf1] Hc1 Hr1] [(o2 & l2 & Hv2 & Hv2' & Hl2) Hd2 [Hn2 Hf2] Hc2 Hr2]. split.
  - exists o1, (l1 ++ l2). split; [done|]. split; [|by apply Forall2_app]. rewrite Hv1' in Hv2. injection Hv2 as <-. by rewrite app_assoc.
  - rewrite Hd2, Hd1, keys_of_app. by rewrite app_assoc.
  - rewrite keys_of_app. split.
    + apply NoDup_app. split; [done|]. split; [|done]. intros k Hk Hk'. apply (proj1 (Hf2 k Hk')). rewrite Hd1. apply elem_of_app. by right.
    + intros k [Hk|Hk]%elem_of_app; [by apply Hf1|]. destruct (Hf2 k Hk) as [Hn Hm]. split; [|by rewrite <-Hc]. intros Hin. apply Hn. rewrite Hd1. apply elem_of_app. by left.
  - apply closed_app; [done|]. by rewrite <-Hd1.
  - by apply Forall_app.
Qed.

Lemma visited_none w F : (exists out, visit w = Visit.Collect out) -> visited w w F [].
Proof.
  intros [out Hv]. split.
  - exists out, []. rewrite app_nil_r. done.
  - cbn. by rewrite app_nil_r.
  - split; [constructor|]. intros k Hk. by apply elem_of_nil in Hk.
  - intros i v q Hi. by rewrite lookup_nil in Hi.
  - constructor.
Qed.

Lemma visited_impl w w' (F G : pos -> Prop) vs : (forall v, F v -> G v) -> visited w w' F vs -> visited w w' G vs.
Proof. intros HF [? ? ? ? Hf]. split; try done. eapply Forall_impl; [exact Hf|exact HF]. Qed.

Lemma visited_listing w w' F vs : visited w w' F vs -> exists out, visit w' = Visit.Collect out.
Proof. intros [(out & ls & _ & Hv & _) _ _ _ _]. by eexists. Qed.

(** What a listing of the layer at [p] comes to. *)
Definition lists_from (f : walk -> option (result ProfileError walk)) (p : pos) : Prop :=
  forall w w', (exists out, visit w = Visit.Collect out) -> f w = Some (Ok w') ->
    chain w' = chain w /\ exists vs, visited w w' (rtc (edge r) p) vs /\ exists k, key_at r p = Some k /\ k ∈ keys (done_ w') /\
      (k ∉ keys (done_ w) -> last vs = Some p).

Lemma expand_all_visited f name skip below lbl l incs w w' :
  (forall n k, lists_from (f n k) (n, k)) -> layer_at r (name, skip) = Some l -> (forall inc, inc ∈ incs -> inc ∈ incs_of l) ->
  (exists out, visit w = Visit.Collect out) -> expand_all f name skip below lbl incs w = Some (Ok w') ->
  chain w' = chain w /\ exists vs, visited w w' (fun v => exists q, edge r (name, skip) q /\ rtc (edge r) q v) vs /\
    forall inc, inc ∈ incs -> exists k, key_at r (target (name, skip) inc) = Some k /\ k ∈ keys (done_ w').
Proof.
  intros Hf Hl. revert w. induction incs as [|inc incs IH]; intros w Hin Hv He.
  - injection He as <-. split; [done|]. exists []. split; [by apply visited_none|]. intros inc Hi. by apply elem_of_nil in Hi.
  - rewrite expand_all_one in He. destruct (one_include f name skip below lbl inc w) as [[w1|]|] eqn:Eo; try done.
    assert (lists_from (one_include f name skip below lbl inc) (target (name, skip) inc)) as Hg.
    { unfold one_include, target. cbn [fst snd]. intros v v'. case_bool_decide; cbn [negb]; [|apply Hf]. case_bool_decide; [done|]. subst inc. apply Hf. }
    destruct (Hg w w1 Hv Eo) as (Hc1 & vs1 & Hs1 & k & Hk & Hkin & _).
    destruct (IH w1 (fun i Hi => Hin i ltac:(by right)) (visited_listing _ _ _ _ Hs1) He) as (Hc2 & vs2 & Hs2 & Hall).
    split; [congruence|]. exists (vs1 ++ vs2). split.
    + eapply visited_app; [exact Hc1| |exact Hs2]. eapply visited_impl; [|exact Hs1]. intros v Hr. exists (target (name, skip) inc). split; [|done].
      econstructor; [exact Hl|apply Hin; by left|done].
    + intros i [->|Hi]%elem_of_cons; [|by apply Hall]. exists k. split; [done|]. rewrite (v_done _ _ _ _ Hs2). apply elem_of_app. by left.
Qed.

Lemma layer_key p l : layer_at r p = Some l -> key_at r p = Some (LayerId.key (id_of p.1 l)).
Proof. unfold key_at. by intros ->. Qed.

Lemma expand_visited fuel name skip : lists_from (expand fuel r name skip) (name, skip).
Proof.
  revert name skip. induction fuel as [|fuel IH]; intros name skip w w' Hv He; [done|].
  pose proof (expand_chain r _ _ _ _ _ He) as Hc. split; [exact Hc|]. cbn [expand] in He.
  destruct (lookup r name) as [ls|] eqn:El; [|done]. destruct (ls !! skip) as [l|] eqn:Es; [|done].
  assert (layer_at r (name, skip) = Some l) as Hl by (unfold layer_at; cbn; by rewrite El).
  pose proof (layer_key _ _ Hl) as Hk. cbn [fst] in Hk.
  destruct (contains_id (chain w) (id_of name l)) eqn:Ec; [done|]. destruct (contains_id (done_ w) (id_of name l)) eqn:Ed.
  { injection He as <-. exists []. split; [by apply visited_none|]. exists (LayerId.key (id_of name l)). split; [done|].
    apply contains_spec in Ed. by split. }
  destruct (_ >=? _); [done|]. destruct (read_layer _ l) as [[raw incs]|] eqn:Er; [|done].
  destruct (expand_all _ _ _ _ _ _ _) as [[w1|]|] eqn:Ea; try done.
  set (w0 := mkWalk (visit w) (chain w ++ [id_of name l]) (done_ w)) in Ea.
  destruct (expand_all_visited (expand fuel r) name skip _ _ l incs w0 w1 IH Hl ltac:(intros i Hi; by rewrite (read_layer_incs _ _ _ _ Er)) Hv Ea) as (Hc1 & vs & Hs & Hall).
  rewrite Hc1 in He. cbn [w0 chain] in He. destruct (last_snoc_id (chain w) (id_of name l)) as [Hla Hlr]. rewrite Hla, Hlr in He.
  destruct (visited_listing _ _ _ _ Hs) as [out1 Hv1]. rewrite Hv1 in He. cbn in He. injection He as <-.
  destruct Hs as [(o & lls & Hvo & Hvo' & Hls) Hd [Hn Hf] Hcl Hfr]. cbn [w0 visit done_ chain] in *.
  exists (vs ++ [(name, skip)]).
  assert (keys_of [(name, skip)] = [LayerId.key (id_of name l)]) as Hone by (cbn; by rewrite Hk).
  split; [split|].
  - exists o, (lls ++ [l]). split; [done|]. split; [rewrite Hv1 in Hvo'; injection Hvo' as ->; cbn; by rewrite app_assoc|]. apply Forall2_app; [done|]. by repeat constructor.
  - cbn [done_]. unfold keys in *. rewrite map_app, Hd, keys_of_app, Hone, <-app_assoc. done.
  - rewrite keys_of_app, Hone. split.
    + apply NoDup_app. split; [done|]. split; [|apply NoDup_singleton]. intros k Hkin ->%list_elem_of_singleton. destruct (Hf _ Hkin) as [_ Hno]. apply Hno.
      unfold keys. rewrite map_app. apply elem_of_app. right. by left.
    + intros k [Hkin| ->%list_elem_of_singleton]%elem_of_app.
      * destruct (Hf _ Hkin) as [Ha Hb]. split; [done|]. intros Hi. apply Hb. unfold keys. rewrite map_app. apply elem_of_app. by left.
      * split; intros Hi; [apply (proj2 (contains_spec (done_ w) _)) in Hi; congruence|apply (proj2 (contains_spec (chain w) _)) in Hi; congruence].
  - apply closed_app; [done|]. intros [|i] v q Hi Hedge; [|by destruct i]. cbn in Hi. injection Hi as <-. cbn [take]. rewrite app_nil_r, <-Hd.
    destruct Hedge as [l' inc Hl' Hin ->]. rewrite Hl in Hl'. injection Hl' as <-. apply Hall. by rewrite <-(read_layer_incs _ _ _ _ Er).
  - apply Forall_app. split; [|by repeat constructor]. eapply Forall_impl; [exact Hfr|]. intros v (q & Hq & Hr). by eapply rtc_l.
  - exists (LayerId.key (id_of name l)). split; [done|]. split; [|intros _; apply last_snoc]. cbn [done_]. unfold keys. rewrite map_app. apply elem_of_app. right. by left.
Qed.

(** ** Listing is merging *)

(** A walk that lists, and the one that merges what is listed. *)
Definition merges (f : walk -> option (result ProfileError walk)) : Prop :=
  forall ch dn out w', f (mkWalk (Visit.Collect out) ch dn) = Some (Ok w') ->
    exists ls, visit w' = Visit.Collect (out ++ ls) /\ forall acc acc', merge_layers acc ls = Ok acc' ->
      f (mkWalk (Visit.Merge acc) ch dn) = Some (Ok (mkWalk (Visit.Merge acc') (chain w') (done_ w'))).

Lemma expand_all_merges f name skip below lbl incs : (forall n k, merges (f n k)) -> merges (expand_all f name skip below lbl incs).
Proof.
  intros Hf. induction incs as [|inc incs IH]; intros ch dn out w' He.
  - injection He as <-. exists []. split; [by rewrite app_nil_r|]. by intros acc acc' [= <-].
  - assert (merges (one_include f name skip below lbl inc)) as Hg.
    { unfold one_include. intros c d o w0. destruct (negb _); [apply Hf|]. case_bool_decide; [done|]. apply Hf. }
    rewrite expand_all_one in He. destruct (one_include f name skip below lbl inc _) as [[w1|]|] eqn:Eg; try done.
    destruct (Hg _ _ _ _ Eg) as (ls1 & Hv1 & Hm1). destruct w1 as [v1 c1 d1]. cbn [visit chain done_] in *. subst v1.
    destruct (IH _ _ _ _ He) as (ls2 & Hv2 & Hm2). exists (ls1 ++ ls2). split; [by rewrite app_assoc|]. intros acc acc' Hm.
    rewrite merge_layers_app in Hm. destruct (merge_layers acc ls1) as [a1|] eqn:E1; [|done]. cbn [mbind result_bind] in Hm.
    rewrite expand_all_one, (Hm1 _ _ E1). by apply Hm2.
Qed.

Lemma expand_merges fuel name skip : merges (expand fuel r name skip).
Proof.
  revert name skip. induction fuel as [|fuel IH]; intros name skip ch dn out w' He; cbn [expand] in *; [done|].
  destruct (lookup r name) as [ls|]; [|done]. destruct (ls !! skip) as [l|]; [|done]. cbn [chain done_ visit] in *.
  destruct (contains_id ch _); [done|]. destruct (contains_id dn _).
  { injection He as <-. exists []. split; [cbn; by rewrite app_nil_r|]. by intros acc acc' [= <-]. }
  destruct (_ >=? _); [done|]. cbn [Visit.collecting] in *.
  destruct (read_layer true l) as [[raw incs]|] eqn:Er; [|done].
  destruct (expand_all _ _ _ _ _ _ _) as [[w1|]|] eqn:Ea; try done.
  destruct (expand_all_merges (expand fuel r) name skip (length ls - (skip + 1)) (Layer.label l) incs IH _ _ _ _ Ea) as (ls1 & Hv & Hm).
  rewrite Hv in He. cbn in He. exists (ls1 ++ [l]). split.
  { destruct (last (chain w1)); injection He as <-; cbn; by rewrite app_assoc. }
  intros acc acc' Hacc. rewrite merge_layers_app in Hacc. destruct (merge_layers acc ls1) as [a1|] eqn:E1; [|done].
  cbn [mbind result_bind] in Hacc. cbn in Hacc. unfold raw_of in Hacc. destruct (parse_profile (Layer.text l)) as [p|] eqn:Hp; [|done]. cbn [mbind result_bind] in Hacc.
  assert (read_layer false l = Ok (Some p, incs)) as ->.
  { unfold read_layer in *. rewrite Hp in *. by injection Er as <- <-. }
  rewrite (Hm _ _ E1). cbn [visit visit_layer chain done_]. change (mkSrc (Layer.origin l) (Layer.path l) (Layer.label l)) with (src_of l).
  destruct (Merged.merge a1 p (src_of l)) as [a2|]; [|done]. injection Hacc as <-. cbn [mbind result_bind].
  by destruct (last (chain w1)); injection He as <-.
Qed.

(** ** Why a walk is refused *)

(** The way down to [q]: as many includes as layers the walk is inside of, each of them above [q]. *)
Definition inside (root q : pos) (ch : list LayerId.t) : Prop :=
  nsteps (edge r) (length ch) root q /\ forall k, k ∈ keys ch -> exists p, key_at r p = Some k /\ rtc (edge r) root p /\ tc (edge r) p q.

Definition reason (root : pos) (e : ProfileError) : Prop :=
  match e with
  | NotFound n => exists k, rtc (edge r) root (n, k) /\ exists ls, lookup r n = Ok ls /\ ls !! k = None
  | Cycle _ => exists p q, rtc (edge r) root p /\ tc (edge r) p q /\ key_at r p = key_at r q /\ key_at r q <> None
  | IncludesTooDeep c => length c = 9%nat /\ exists q, nsteps (edge r) 8 root q
  | SelfIncludeAtBottom lbl =>
    exists p l, rtc (edge r) root p /\ layer_at r p = Some l /\ lbl = Layer.label l /\ p.1 ∈ incs_of l /\ layer_at r (p.1, S p.2) = None
  | Parse o source =>
    exists p, rtc (edge r) root p /\
      (lookup r p.1 = Err e \/ exists l, layer_at r p = Some l /\ o = Layer.label l /\ is_ok (parse_profile (Layer.text l)) = false /\ includes_of (Layer.text l) = Err source)
  | Io _ _ => exists p, rtc (edge r) root p /\ lookup r p.1 = Err e
  | Conflict _ _ _ | InvalidName _ => False
  end.

Definition refuses (f : walk -> option (result ProfileError walk)) (root p : pos) : Prop :=
  forall w e, (exists out, visit w = Visit.Collect out) -> inside root p (chain w) -> (length (chain w) <= 8)%nat -> f w = Some (Err e) -> reason root e.

Lemma inside_reached root q ch : inside root q ch -> rtc (edge r) root q.
Proof. intros [Hn _]. apply rtc_nsteps. by eexists. Qed.

Lemma inside_step root p q ch l : inside root p ch -> layer_at r p = Some l -> edge r p q -> inside root q (ch ++ [id_of p.1 l]).
Proof.
  intros [Hn Hk] Hl He. split.
  - rewrite length_app, Nat.add_1_r. by eapply nsteps_r.
  - intros k Hin. unfold keys in Hin. rewrite map_app in Hin. apply elem_of_app in Hin as [Hin|Hin].
    + destruct (Hk k Hin) as (p0 & Hp0 & Hr & Ht). exists p0. split; [done|]. split; [done|]. by eapply tc_r.
    + apply list_elem_of_singleton in Hin as ->. exists p. split; [by apply layer_key|]. split; [apply rtc_nsteps; by eexists|by apply tc_once].
Qed.

Lemma file_layer_refuses n out where_ e : file_layer n out where_ = Err e -> (exists o s, e = Parse o s) \/ exists p x, e = Io p x.
Proof.
  unfold file_layer. destruct (read_bounded _) as [t|[x|s]]; [done|..].
  - destruct (not_found x); [done|]. intros [= <-]. right. by eexists _, _.
  - intros [= <-]. left. by eexists _, _.
Qed.

Lemma lookup_refuses n e : lookup r n = Err e -> (exists o s, e = Parse o s) \/ exists p x, e = Io p x.
Proof.
  unfold lookup. destruct (negb _); [done|]. cbn [fold_res]. destruct (file_layer n [] _) eqn:E1; [|cbn; intros [= <-]; by eapply file_layer_refuses].
  destruct (file_layer n _ (Origin.System, _)) eqn:E2; [|cbn; intros [= <-]; by eapply file_layer_refuses]. cbn. by destruct (lookup_built_in n).
Qed.

Lemma expand_all_refuses f name skip l ls incs root ch w e :
  (forall n k, refuses (f n k) root (n, k)) -> (forall n k, lists_from (f n k) (n, k)) ->
  lookup r name = Ok ls -> ls !! skip = Some l -> (forall inc, inc ∈ incs -> inc ∈ incs_of l) ->
  inside root (name, skip) ch -> (length ch < 8)%nat -> chain w = ch ++ [id_of name l] -> (exists out, visit w = Visit.Collect out) ->
  expand_all f name skip (length ls - (skip + 1)) (Layer.label l) incs w = Some (Err e) -> reason root e.
Proof.
  intros Hf Hl Hls Hs Hin Hi H8. revert w. induction incs as [|inc incs IH]; intros w Hc Hv He; [done|].
  assert (layer_at r (name, skip) = Some l) as Hla by (unfold layer_at; cbn; by rewrite Hls).
  assert (edge r (name, skip) (target (name, skip) inc)) as Hedge by (econstructor; [done|apply Hin; by left|done]).
  pose proof (inside_step _ _ _ _ _ Hi Hla Hedge) as Hi'. cbn [fst] in Hi'. rewrite <-Hc in Hi'.
  assert (length (chain w) <= 8)%nat as Hl8 by (rewrite Hc, length_app; cbn; lia).
  rewrite expand_all_one in He. destruct (one_include f name skip _ _ inc w) as [[w1|e1]|] eqn:Eo; [..|done].
  - unfold one_include, target in *. cbn [fst snd] in *.
    assert (exists n k, f n k w = Some (Ok w1)) as (n & k & Ho).
    { case_bool_decide; cbn [negb] in Eo; [|by eexists _, _]. case_bool_decide; [done|]. by eexists _, _. }
    destruct (Hl n k w w1 Hv Ho) as (Hc1 & vs & Hvs & _). apply (IH (fun i Hx => Hin i ltac:(by right)) w1); [congruence|by eapply visited_listing|done].
  - injection He as ->. unfold one_include, target in *. cbn [fst snd] in *. case_bool_decide; cbn [negb] in Eo.
    + subst inc. case_bool_decide as Hb; [|by eapply Hf]. injection Eo as <-. exists (name, skip), l. cbn [fst snd].
      split; [by eapply inside_reached|]. split; [done|]. split; [done|]. split; [apply Hin; by left|]. unfold layer_at. cbn. rewrite Hls. apply lookup_ge_None. lia.
    + by eapply Hf.
Qed.

Lemma expand_refuses fuel root name skip : refuses (expand fuel r name skip) root (name, skip).
Proof.
  revert name skip. induction fuel as [|fuel IH]; intros name skip w e Hv Hi H8 He; [done|]. cbn [expand] in He.
  pose proof (inside_reached _ _ _ Hi) as Hr.
  destruct (lookup r name) as [ls|e1] eqn:El.
  2:{ injection He as <-. destruct (lookup_refuses _ _ El) as [(o & s & ->)|(p & x & ->)]; exists (name, skip); cbn; auto. }
  destruct (ls !! skip) as [l|] eqn:Es; [|injection He as <-; exists skip; split; [done|by exists ls]].
  assert (layer_at r (name, skip) = Some l) as Hl by (unfold layer_at; cbn; by rewrite El).
  pose proof (layer_key _ _ Hl) as Hk. cbn [fst] in Hk.
  destruct (contains_id (chain w) (id_of name l)) eqn:Ec.
  { injection He as <-. apply contains_spec in Ec. destruct Hi as [_ Hi]. destruct (Hi _ Ec) as (p & Hp & Hrp & Ht). exists p, (name, skip). by rewrite Hp, Hk. }
  destruct (contains_id (done_ w) (id_of name l)); [done|].
  destruct (len (chain w) >=? MAX_DEPTH) eqn:Ed.
  { injection He as <-. unfold MAX_DEPTH, len in Ed. destruct Hi as [Hn Hi].
    split; [unfold chain_labels; rewrite length_map, length_app; cbn; lia|]. exists (name, skip). by replace 8%nat with (length (chain w)) by lia. }
  destruct Hv as [out Hv]. rewrite Hv in He. cbn [Visit.collecting] in He.
  destruct (read_layer true l) as [[raw incs]|] eqn:Er.
  - destruct (expand_all _ _ _ _ _ _ _) as [[w1|e1]|] eqn:Ea; [| |done].
    + assert (exists out, visit w1 = Visit.Collect out) as [o Ho].
      { destruct (expand_all_visited (expand fuel r) name skip _ _ l incs (mkWalk (Visit.Collect out) (chain w ++ [id_of name l]) (done_ w)) w1 (fun n k => expand_visited fuel n k) Hl ltac:(intros i Hx; by rewrite (read_layer_incs _ _ _ _ Er)) ltac:(by exists out) Ea)
          as (_ & vs & Hvs & _). by eapply visited_listing. }
      rewrite Ho in He. cbn in He. done.
    + injection He as <-. eapply (expand_all_refuses (expand fuel r) name skip l ls incs root (chain w)); [exact IH|intros; apply expand_visited|exact El|exact Es| |exact Hi|unfold MAX_DEPTH, len in Ed; lia| | |exact Ea].
      * intros i Hx. by rewrite (read_layer_incs _ _ _ _ Er).
      * done.
      * by exists out.
  - injection He as <-. unfold read_layer in Er. destruct (parse_profile (Layer.text l)) eqn:Ep; [done|]. destruct (includes_of (Layer.text l)) eqn:Ei; [done|]. injection Er as <-.
    exists (name, skip). split; [done|]. right. exists l. by rewrite Ep.
Qed.

(** ** The walk of a profile *)

Definition merging : walk := mkWalk (Visit.Merge Merged.default_) [] [].
Definition listing : walk := mkWalk (Visit.Collect []) [] [].

Lemma layers_ok name ls : layers r name = Some (Ok ls) <-> exists w, expand DEPTH_FUEL r name 0 listing = Some (Ok w) /\ visit w = Visit.Collect ls.
Proof.
  unfold layers. fold listing. split.
  - destruct (expand DEPTH_FUEL r name 0 listing) as [[w|]|]; try done. destruct (visit w) as [|out] eqn:Ev; [done|]. intros [= <-]. by exists w.
  - intros (w & -> & Hv). by rewrite Hv.
Qed.

Lemma listing_lists name skip w : expand DEPTH_FUEL r name skip listing = Some (Ok w) -> exists out, visit w = Visit.Collect out.
Proof.
  intros He. destruct (expand_visited DEPTH_FUEL name skip listing w ltac:(by exists []) He) as (_ & vs & Hvs & _). by eapply visited_listing.
Qed.

(** C27. Every profile is resolved or refused: whatever the files and whatever they include,
    the chain of includes is at most [MAX_DEPTH] layers long, so the walk ends, when it
    merges the layers and when it lists them. *)
Theorem walk_returns name : (exists res, resolve r name = Some res) /\ (exists res, layers r name = Some res).
Proof.
  split.
  - unfold resolve. fold merging. destruct (expand_returns r DEPTH_FUEL name 0 merging ltac:(cbv; lia) ltac:(cbv; lia)) as [[w|e] Hr]; rewrite Hr; [|by eexists].
    destruct (expand_lists DEPTH_FUEL name 0 merging w Merged.default_ [] eq_refl Hr) as (ls & acc & _ & -> & _). by eexists.
  - unfold layers. fold listing. destruct (expand_returns r DEPTH_FUEL name 0 listing ltac:(cbv; lia) ltac:(cbv; lia)) as [[w|e] Hr]; rewrite Hr; [|by eexists].
    destruct (listing_lists _ _ _ Hr) as [out ->]. by eexists.
Qed.

(** The order of the layers.  What [layers] lists are layers of the name itself and of
    what it includes, however deep; no layer is listed twice, by the path or the built-in
    name it is; every layer comes after each layer one of its includes names, an include of
    its own name being the next layer of that name; and the layer the name resolves to comes
    last. *)
Theorem layers_visited_in_order name ls : layers r name = Some (Ok ls) ->
  exists vs, Forall2 (fun p l => layer_at r p = Some l) vs ls /\ Forall (rtc (edge r) (name, 0%nat)) vs /\
    NoDup (keys_of vs) /\ closed [] vs /\ last vs = Some (name, 0%nat).
Proof.
  intros (w & He & Hv)%layers_ok.
  destruct (expand_visited DEPTH_FUEL name 0 listing w ltac:(by exists []) He) as (_ & vs & [(o & ls' & Ho & Hls & Hat) _ [Hn _] Hc Hr] & k & _ & _ & Hlast).
  exists vs. injection Ho as <-. rewrite Hls in Hv. injection Hv as <-. do 4 (split; [done|]). apply Hlast. apply not_elem_of_nil.
Qed.

Lemma resolve_lists name res : resolve r name = Some (Ok res) ->
  exists ls acc, layers r name = Some (Ok ls) /\ merge_layers Merged.default_ ls = Ok acc /\ finish acc name = Ok res.
Proof.
  unfold resolve. fold merging. destruct (expand _ _ _ _ _) as [[w|]|] eqn:He; try done. destruct (expand_lists DEPTH_FUEL name 0 merging w Merged.default_ [] eq_refl He) as (ls & acc & Hc & -> & Hm).
  intros [= Hf]. exists ls, acc. split; [|done]. apply layers_ok. by eexists.
Qed.

(** Resolving merges what listing lists: a profile resolves to a result exactly when its
    layers can be listed, the nodes of each of them parse, they merge in that order, and
    what they come to can be written and read back, as that result. *)
Theorem resolve_merges_the_listed name res :
  resolve r name = Some (Ok res) <->
  exists ls acc, layers r name = Some (Ok ls) /\ merge_layers Merged.default_ ls = Ok acc /\ finish acc name = Ok res.
Proof.
  split.
  - apply resolve_lists.
  - intros (ls & acc & (w & He & Hv)%layers_ok & Hm & Hf). unfold resolve.
    destruct (expand_merges DEPTH_FUEL name 0 [] [] [] w He) as (ls' & Hls & Hgo). rewrite Hls in Hv. injection Hv as ->.
    rewrite (Hgo _ _ Hm). cbn [visit]. by rewrite Hf.
Qed.

(** A refused walk has its reason: an unknown name is reached by includes and has no
    layer at the place asked for; a cycle is a layer that reaches itself; a chain that is
    too deep is eight includes one inside the other; a profile that includes its own name
    at the bottom does so and has no layer below; and a text or a file that is blamed is
    that of a layer that is reached and cannot be read. *)
Theorem refused_walk_has_its_reason name e : layers r name = Some (Err e) -> reason (name, 0%nat) e.
Proof.
  intros Hl. unfold layers in Hl. fold listing in Hl. destruct (expand DEPTH_FUEL r name 0 listing) as [[w|e']|] eqn:He; [|injection Hl as <-|done].
  - destruct (listing_lists _ _ _ He) as [out Ho]. by rewrite Ho in Hl.
  - apply (expand_refuses DEPTH_FUEL (name, 0%nat) name 0 listing e'); [by exists []| |cbn; lia|exact He].
    split; [constructor|]. intros k Hk. by apply elem_of_nil in Hk.
Qed.
End Order.

(** A user's [kitty] that includes the built-in one and [generic], which it includes too; and
    an [agent] that includes [code], which includes [agent]. *)
Section Demo.
Import Resolver.
#[local] Existing Instance demo_text.
#[local] Existing Instance demo_text_laws.

Definition incl (name : bytes) (offset : Z) : KdlNode := mkNode (B "include") offset false [mkEntry None (KString name) false] None (Some []).
Definition plain (name : bytes) : KdlNode := mkNode name 0 false [] None (Some []).

#[local] Instance walk_names : SyscallNames := {| syscall_number _ := None |}.
#[local] Instance walk_kdl : Kdl :=
  {| kdl_parse t := if bool_decide (t = B "user") then Ok (mkDocument [incl (B "kitty") 0; incl (B "generic") 0; plain (B "dri")] None)
       else if bool_decide (t = B "kitty") then Ok (mkDocument [incl (B "generic") 0; plain (B "notify")] None)
       else if bool_decide (t = B "generic") then Ok (mkDocument [plain (B "dbus")] None)
       else if bool_decide (t = B "agent") then Ok (mkDocument [incl (B "code") 0] None)
       else if bool_decide (t = B "code") then Ok (mkDocument [incl (B "agent") 0] None)
       else if bool_decide (t = B "dbus" ++ [LF] ++ B "notify" ++ [LF] ++ B "dri" ++ [LF]) then Ok (mkDocument [plain (B "dbus"); plain (B "notify"); plain (B "dri")] None)
       else Err Syntax |}.
#[local] Instance walk_files : Files :=
  {| file_len p := if bool_decide (p = B "/u/kitty.kdl") then Ok 4 else Err (mkFs true (B "no such file"));
     file_bytes p := if bool_decide (p = B "/u/kitty.kdl") then Ok (B "user") else Err (mkFs true (B "no such file")) |}.
#[local] Instance walk_profiles : Profiles := {| built_in name := name |}.

Definition demo_resolver : Resolver.t := Resolver.mk (B "/u") (B "/s").

Lemma layers_visited_in_order_witness :
  exists ls vs, layers demo_resolver (B "kitty") = Some (Ok ls) /\ map Layer.text ls = [B "generic"; B "kitty"; B "user"] /\ last vs = Some (B "kitty", 0%nat).
Proof.
  assert (exists ls, layers demo_resolver (B "kitty") = Some (Ok ls) /\ map Layer.text ls = [B "generic"; B "kitty"; B "user"]) as (ls & Hl & Ht)
    by (eexists; split; vm_compute; reflexivity).
  destruct (layers_visited_in_order demo_resolver (B "kitty") ls Hl) as (vs & _ & _ & _ & _ & Hlast).
  exists ls, vs. split; [exact Hl|]. split; [exact Ht|exact Hlast].
Defined.

Lemma refused_walk_has_its_reason_witness :
  exists e, layers demo_resolver (B "agent") = Some (Err e) /\ e = Cycle [B "built-in profile `agent`"; B "built-in profile `code`"; B "built-in profile `agent`"] /\
    reason demo_resolver (B "agent", 0%nat) e.
Proof.
  assert (exists e, layers demo_resolver (B "agent") = Some (Err e) /\ e = Cycle [B "built-in profile `agent`"; B "built-in profile `code`"; B "built-in profile `agent`"]) as (e & Hl & He)
    by (eexists; split; vm_compute; reflexivity).
  exists e. split; [exact Hl|]. split; [exact He|]. exact (refused_walk_has_its_reason demo_resolver (B "agent") e Hl).
Defined.
End Demo.
