(* ===== verification/ProfileMerge.v ===== *)
(** What the layers of a profile come to: merging a grant into those held as joining it with
    the one of its kind, the grants of the layers as a union, the choices as the last one
    made, and the conflicts as grants that are contrary. *)
From S2P Require Import NetworkSpec.
From S2P Require Export ConfigWf ConfigText ProfileWalk.

(** ** A grant joined with the one of its kind *)

(** What two grants share when they are merged into one. *)
Inductive Kind :=
| KHome (p : path) | KPath (p : path) | KEtcFile (n : bytes) | KRuntime (i : bytes) | KWayland | KX11 | KNetwork | KDri | KPipewire | KPulseaudio
| KDbus | KSystemBus | KPortals | KNotify | KTray | KGamepad | KHidraw | KCamera | KMpris | KA11y | KInputMethod.

#[global] Instance Kind_eq_dec : EqDecision Kind.
Proof. solve_decision. Defined.

Definition kind_of (s : Service.t) : Kind :=
  match s with
  | Service.Wayland _ => KWayland | Service.X11 _ => KX11 | Service.Network _ => KNetwork | Service.Dri _ => KDri
  | Service.Pipewire _ => KPipewire | Service.Pulseaudio _ => KPulseaudio | Service.HomeShare p _ _ => KHome p | Service.PathShare p _ _ => KPath p
  | Service.EtcShare n => KEtcFile n | Service.Dbus _ => KDbus | Service.SystemBus _ => KSystemBus | Service.Portals _ => KPortals
  | Service.Notify => KNotify | Service.Tray => KTray | Service.Gamepad _ _ => KGamepad | Service.Hidraw => KHidraw | Service.Camera _ => KCamera
  | Service.Mpris _ => KMpris | Service.A11y => KA11y | Service.InputMethod => KInputMethod | Service.AppRuntime i _ => KRuntime i
  end.

Section Join.
Context `{IpText}.

(** The held share, when the modes agree. *)
Definition agree (h : Service.t) (hm : ShareMode.t) (hs : Src) (svc : Service.t) (m : ShareMode.t) (src : Src) (name : bytes) (joined : sourced Service.t) :
    result ProfileError (sourced Service.t) :=
  if bool_decide (hm = m) then Ok joined
  else Err (mode_conflict (without_mode (match service svc with Ok n => n | Err _ => name end)) hm hs m src).

(** What becomes of the grant [h] that is held and the grant [svc] of the same kind. *)
Definition join_grants (h : Service.t) (hs : Src) (svc : Service.t) (src : Src) : result ProfileError (sourced Service.t) :=
  match h, svc with
  | Service.HomeShare p hm ho, Service.HomeShare _ m o => agree h hm hs svc m src (B "home-share") (Service.HomeShare p hm (ho || o), src)
  | Service.PathShare p hm ho, Service.PathShare _ m o => agree h hm hs svc m src (B "path-share") (Service.PathShare p hm (ho || o), src)
  | Service.AppRuntime i hm, Service.AppRuntime _ m => agree h hm hs svc m src (B "app-runtime") (h, hs)
  | Service.Dbus hr, Service.Dbus rs => rs ← union_bus_rules (B "dbus") hr hs rs src; Ok (Service.Dbus rs, src)
  | Service.SystemBus hr, Service.SystemBus rs => rs ← union_bus_rules (B "system-bus") hr hs rs src; Ok (Service.SystemBus rs, src)
  | Service.Network held, Service.Network cfg => s ← merge_network cfg src held hs; Ok (s, src)
  | Service.Gamepad hh hu, Service.Gamepad h u => Ok (Service.Gamepad (hh || h) (hu || u), src)
  | Service.Dri hk, Service.Dri k => Ok (Service.Dri (hk || k), src)
  | Service.Portals hc, Service.Portals c => Ok (Service.Portals (union hc c), src)
  | Service.Camera hn, Service.Camera n => Ok (Service.Camera (hn || n), src)
  | Service.Pipewire hm, Service.Pipewire m => Ok (Service.Pipewire (hm || m), src)
  | Service.Pulseaudio hm, Service.Pulseaudio m => Ok (Service.Pulseaudio (hm || m), src)
  | Service.Wayland _, Service.Wayland _ | Service.X11 _, Service.X11 _ | Service.Mpris _, Service.Mpris _ => Ok (svc, src)
  | _, _ => Ok (h, hs)
  end.

Definition same_kind (k : Kind) (s : Service.t) : option Service.t := if bool_decide (kind_of s = k) then Some s else None.

(** Adding a grant, by its kind. *)
Definition add_by_kind (held : list (sourced Service.t)) (svc : Service.t) (src : Src) : result ProfileError (list (sourced Service.t)) :=
  match slot (same_kind (kind_of svc)) held with
  | Some (i, h, hs) => j ← join_grants h hs svc src; Ok (<[i := j]> held)
  | None => Ok (held ++ [(svc, src)])
  end.

Lemma slot_map {A C D} (f : A -> option C) (g : A -> option D) (h : C -> D) l : (forall a, g a = option_map h (f a)) ->
  slot g l = match slot f l with Some (i, c, s) => Some (i, h c, s) | None => None end.
Proof.
  intros Hg. induction l as [|[a s] l IH]; [done|]. cbn [slot]. rewrite Hg. destruct (f a); [done|]. cbn [option_map]. rewrite IH. by destruct (slot f l) as [[[i c] s']|].
Qed.

Lemma slot_spec {A C} (f : A -> option C) l i c s : slot f l = Some (i, c, s) -> exists a, l !! i = Some (a, s) /\ f a = Some c.
Proof.
  revert i. induction l as [|[a s'] l IH]; intros i; cbn [slot]; [done|]. destruct (f a) eqn:Hf.
  - intros [= <- <- <-]. by exists a.
  - destruct (slot f l) as [[[j d] t]|]; [|done]. intros [= <- <- <-]. by apply IH.
Qed.

Lemma slot_none {A C} (f : A -> option C) l : slot f l = None <-> Forall (fun a => f a.1 = None) l.
Proof.
  induction l as [|[a s] l IH]; cbn [slot]; [split; [constructor|done]|]. rewrite Forall_cons. cbn [fst]. rewrite <-IH.
  destruct (f a); [naive_solver|]. destruct (slot f l) as [[[? ?] ?]|]; naive_solver.
Qed.

Lemma same_kind_spec k s c : same_kind k s = Some c <-> c = s /\ kind_of s = k.
Proof. unfold same_kind. case_bool_decide; naive_solver. Qed.

Definition mode_of (s : Service.t) : ShareMode.t :=
  match s with Service.HomeShare _ m _ | Service.PathShare _ m _ | Service.AppRuntime _ m => m | _ => ShareMode.ReadOnly end.

Lemma merge_slot_kind {C} (f : Service.t -> option C) (h : Service.t -> C) held svc src g :
  (forall s, f s = option_map h (same_kind (kind_of svc) s)) ->
  (forall s hs, kind_of s = kind_of svc -> join_grants s hs svc src = (t ← g (h s) hs; Ok (t, src))) ->
  merge_slot held svc src f g = add_by_kind held svc src.
Proof.
  intros Hf Hg. unfold merge_slot, add_by_kind. rewrite (slot_map (same_kind (kind_of svc)) _ h _ Hf).
  destruct (slot (same_kind (kind_of svc)) held) as [[[i c] hs]|] eqn:Hs; [|done]. destruct (slot_spec _ _ _ _ _ Hs) as (a & _ & [-> Hk]%same_kind_spec).
  rewrite Hg by done. by destruct (g (h a) hs).
Qed.

Lemma share_kind {K} `{EqDecision K} (same : Service.t -> option (K * ShareMode.t)) held svc src name key m (o : bool) set :
  same svc = Some (key, m) ->
  (forall s, match same s with Some (k, m) => if bool_decide (k = key) then Some m else None | None => None end = option_map mode_of (same_kind (kind_of svc) s)) ->
  (forall s hs, kind_of s = kind_of svc -> join_grants s hs svc src = agree s (mode_of s) hs svc m src name (set s hs)) ->
  (found ← holds_share held svc src name same;
   if found : bool then Ok (match slot (same_kind (kind_of svc)) held with Some (i, s, hs) => <[i := set s hs]> held | None => held end) else Ok (held ++ [(svc, src)]))
  = add_by_kind held svc src.
Proof.
  intros Hs Hf Hj. unfold holds_share, add_by_kind. rewrite Hs. rewrite (slot_map (same_kind (kind_of svc)) _ mode_of _ Hf).
  destruct (slot (same_kind (kind_of svc)) held) as [[[i c] hs]|] eqn:Hsl; [|done]. destruct (slot_spec _ _ _ _ _ Hsl) as (a & _ & [-> Hk]%same_kind_spec).
  rewrite Hj by done. unfold agree. by case_bool_decide.
Qed.

Ltac kinds := let s := fresh "s" in intros s; destruct s; unfold same_kind; cbn; repeat case_bool_decide; (done || congruence).
Ltac joins := let s := fresh "s" in let hs := fresh in let Hk := fresh in intros s hs Hk; destruct s; try discriminate Hk; (done || (cbn; by destruct (union_bus_rules _ _ _ _ _)) || (cbn in Hk; injection Hk as ->; done)).

(** A grant without parts: held is held. *)
Lemma held_kind held svc src :
  (forall s, kind_of s = kind_of svc <-> s = svc) -> (forall s hs, kind_of s = kind_of svc -> join_grants s hs svc src = Ok (s, hs)) ->
  (if existsb (fun s => bool_decide (s.1 = svc)) held then Ok held else Ok (held ++ [(svc, src)])) = add_by_kind held svc src.
Proof.
  intros Hk Hj. unfold add_by_kind. destruct (slot (same_kind (kind_of svc)) held) as [[[i c] hs]|] eqn:Hsl.
  - destruct (slot_spec _ _ _ _ _ Hsl) as (a & Ha & [-> Hka]%same_kind_spec). rewrite Hj by done. cbn [mbind result_bind]. rewrite list_insert_id by done.
    assert (existsb (fun s => bool_decide (s.1 = svc)) held = true) as ->; [|done]. apply existsb_spec. exists (a, hs). split; [by eapply list_elem_of_lookup_2|]. cbn. apply bool_decide_eq_true. by apply Hk.
  - assert (existsb (fun s => bool_decide (s.1 = svc)) held = false) as ->; [|done]. apply not_true_iff_false. intros ([s hs] & Hin & Hs)%existsb_spec. cbn in Hs. bool_to_prop. subst s.
    apply slot_none in Hsl. rewrite Forall_forall in Hsl. specialize (Hsl _ Hin). cbn in Hsl. unfold same_kind in Hsl. by rewrite bool_decide_true in Hsl.
Qed.

Ltac plain_kind := apply held_kind; [intros s; split; [destruct s; cbn; congruence|by intros ->]|joins].

Lemma add_service_kind held svc src : add_service held svc src = add_by_kind held svc src.
Proof.
  destruct svc as [w|x|cfg|k|mic|mic|p m o|p m o|n|rs|rs|ch| | |h u| |nodes|n| | |i m].
  - apply (merge_slot_kind _ (fun _ => tt)); [kinds|joins].
  - apply (merge_slot_kind _ (fun _ => tt)); [kinds|joins].
  - apply (merge_slot_kind _ (fun s => match s with Service.Network h => h | _ => default_network end)); [kinds|joins].
  - apply (merge_slot_kind _ (fun s => match s with Service.Dri h => h | _ => false end)); [kinds|joins].
  - apply (merge_slot_kind _ (fun s => match s with Service.Pipewire h => h | _ => false end)); [kinds|joins].
  - apply (merge_slot_kind _ (fun s => match s with Service.Pulseaudio h => h | _ => false end)); [kinds|joins].
  - cbn [add_service]. rewrite <-(share_kind home_share held _ src (B "home-share") p m o
      (fun s hs => (match s with Service.HomeShare q hm ho => Service.HomeShare q hm (ho || o) | _ => s end, src))); [|done|kinds|joins].
    destruct (holds_share _ _ _ _ _) as [[]|]; [|done..]. cbn [mbind result_bind]. f_equal. unfold merge_share_optional.
    rewrite (slot_map (same_kind (KHome p)) _ (fun s => match s with Service.HomeShare q hm ho => (ho, Service.HomeShare q hm) | _ => (false, fun _ => s) end)) by kinds.
    cbn [kind_of]. destruct (slot _ held) as [[[i c] hs]|] eqn:Hsl; [|done]. destruct (slot_spec _ _ _ _ _ Hsl) as (a & _ & [-> Hk]%same_kind_spec). by destruct a.
  - cbn [add_service]. rewrite <-(share_kind path_share held _ src (B "path-share") p m o
      (fun s hs => (match s with Service.PathShare q hm ho => Service.PathShare q hm (ho || o) | _ => s end, src))); [|done|kinds|joins].
    destruct (holds_share _ _ _ _ _) as [[]|]; [|done..]. cbn [mbind result_bind]. f_equal. unfold merge_share_optional.
    rewrite (slot_map (same_kind (KPath p)) _ (fun s => match s with Service.PathShare q hm ho => (ho, Service.PathShare q hm) | _ => (false, fun _ => s) end)) by kinds.
    cbn [kind_of]. destruct (slot _ held) as [[[i c] hs]|] eqn:Hsl; [|done]. destruct (slot_spec _ _ _ _ _ Hsl) as (a & _ & [-> Hk]%same_kind_spec). by destruct a.
  - plain_kind.
  - apply (merge_slot_kind _ (fun s => match s with Service.Dbus h => h | _ => [] end)); [kinds|]. joins.
  - apply (merge_slot_kind _ (fun s => match s with Service.SystemBus h => h | _ => [] end)); [kinds|joins].
  - apply (merge_slot_kind _ (fun s => match s with Service.Portals h => h | _ => [] end)); [kinds|joins].
  - plain_kind.
  - plain_kind.
  - apply (merge_slot_kind _ (fun s => match s with Service.Gamepad h u => (h, u) | _ => (false, false) end)); [kinds|joins].
  - plain_kind.
  - apply (merge_slot_kind _ (fun s => match s with Service.Camera h => h | _ => false end)); [kinds|joins].
  - apply (merge_slot_kind _ (fun _ => tt)); [kinds|joins].
  - plain_kind.
  - plain_kind.
  - cbn [add_service]. rewrite <-(share_kind app_runtime held _ src (B "app-runtime") i m false (fun s hs => (s, hs))); [|done|kinds|joins].
    destruct (holds_share _ _ _ _ _) as [[]|]; [|done..]. cbn [mbind result_bind]. f_equal.
    destruct (slot _ held) as [[[j c] hs]|] eqn:Hsl; [|done]. destruct (slot_spec _ _ _ _ _ Hsl) as (a & Ha & [-> Hk]%same_kind_spec).
    symmetry. by apply list_insert_id.
Qed.
End Join.

(** ** Grants and choices *)

(** What a configuration grants, in pieces that add up. *)
Inductive Grant :=
| GKind (k : Kind)
| GMode (k : Kind) (m : ShareMode.t) | GOptional (k : Kind)
| GRule (system : bool) (r : BusRule.t)
| GPortal (p : Portal.t)
| GHidrawPads | GUinput | GKms | GCameraNodes | GMicrophone (k : Kind)
| GDeny | GDns (ip : IpAddr) | GForward (f : Forward) | GOut (a : AllowOut.t) | GHost (a : AllowHost.t) | GNoIpv6
| GCall (name : bytes) | GNoCall (d : bytes * Errno) | GNoFilter.

Definition on {A} (b : bool) (a : A) : list A := if b then [a] else [].

Definition grants (s : Service.t) : list Grant :=
  GKind (kind_of s) ::
  match s with
  | Service.HomeShare p m o => GMode (KHome p) m :: on o (GOptional (KHome p))
  | Service.PathShare p m o => GMode (KPath p) m :: on o (GOptional (KPath p))
  | Service.AppRuntime i m => [GMode (KRuntime i) m]
  | Service.Dbus rs => map (GRule false) rs
  | Service.SystemBus rs => map (GRule true) rs
  | Service.Portals ps => map GPortal ps
  | Service.Gamepad h u => on h GHidrawPads ++ on u GUinput
  | Service.Dri k => on k GKms
  | Service.Camera n => on n GCameraNodes
  | Service.Pipewire m => on m (GMicrophone KPipewire)
  | Service.Pulseaudio m => on m (GMicrophone KPulseaudio)
  | Service.Network cfg =>
      on (bool_decide (outbound cfg = Outbound.Deny)) GDeny ++ map GDns (n_dns cfg) ++ map GForward (n_forwards cfg) ++ map GOut (allow_out cfg) ++
      map GHost (allow_hosts cfg) ++ on (no_ipv6 cfg) GNoIpv6
  | _ => []
  end.

Definition call_grants (s : SeccompConfig) : list Grant :=
  map GCall (Seccomp.allow s) ++ map GNoCall (Seccomp.deny s) ++ on (disable s) GNoFilter.

(** What is one choice, which the last layer that makes it makes. *)
Inductive Choice :=
| CWayland (m : WaylandMode.t) | CX11 (m : X11Mode.t) | CMpris (n : bytes) | CNetwork (m : Mode.t)
| CEnv (kv : bytes * bytes) | CLint (a : LintAllow)
| CEtc (m : EtcMode.t) | CTmp (size : Z) | CTty (m : TtyMode) | CUserns (u : Userns.t) | CCommand (argv : list bytes) | CDesktop (n : bytes).

Inductive Topic :=
| TWayland | TX11 | TMpris | TNetwork | TEnv (k : bytes) | TLint (id : bytes) | TEtc | TTmp | TTty | TUserns | TCommand | TDesktop.

#[global] Instance Topic_eq_dec : EqDecision Topic.
Proof. solve_decision. Defined.

Definition topic (c : Choice) : Topic :=
  match c with
  | CWayland _ => TWayland | CX11 _ => TX11 | CMpris _ => TMpris | CNetwork _ => TNetwork | CEnv kv => TEnv kv.1 | CLint a => TLint (check_id a)
  | CEtc _ => TEtc | CTmp _ => TTmp | CTty _ => TTty | CUserns _ => TUserns | CCommand _ => TCommand | CDesktop _ => TDesktop
  end.

Definition choices (s : Service.t) : list Choice :=
  match s with
  | Service.Wayland m => [CWayland m] | Service.X11 m => [CX11 m] | Service.Mpris n => [CMpris n] | Service.Network cfg => [CNetwork (mode cfg)]
  | _ => []
  end.

(** The last choice made on a topic. *)
Definition last_on (t : Topic) (l : list Choice) : option Choice := last (List.filter (fun c => bool_decide (topic c = t)) l).

Lemma last_on_app t a b : last_on t (a ++ b) = match last_on t b with Some c => Some c | None => last_on t a end.
Proof. unfold last_on. rewrite List.filter_app. apply last_app. Qed.

(** ** Joining adds up *)

Lemma elem_on {A} b (a x : A) : x ∈ on b a <-> b = true /\ x = a.
Proof. unfold on. destruct b; [rewrite list_elem_of_singleton|rewrite elem_of_nil]; naive_solver. Qed.

Lemma elem_push {A} `{EqDecision A} (l : list A) a x : x ∈ push_new l a <-> x ∈ l \/ x = a.
Proof. unfold push_new. case_bool_decide; [naive_solver|]. rewrite elem_of_app, list_elem_of_singleton. naive_solver. Qed.

Lemma elem_union {A} `{EqDecision A} (l k : list A) x : x ∈ union l k <-> x ∈ l \/ x ∈ k.
Proof.
  unfold union. revert l. induction k as [|a k IH]; intros l; cbn [fold_left]; [rewrite elem_of_nil; naive_solver|].
  rewrite IH, elem_push, elem_of_cons. naive_solver.
Qed.

Lemma elem_union_map {A C} `{EqDecision A} (f : A -> C) (l k : list A) y : y ∈ map f (union l k) <-> y ∈ map f l \/ y ∈ map f k.
Proof. rewrite !list_elem_of_fmap. setoid_rewrite elem_union. naive_solver. Qed.

Lemma union_nil {A} `{EqDecision A} (l : list A) : union l [] = l.
Proof. done. Qed.

Section Adds.
Context `{IpText}.

Lemma union_rules_elem node hs src rs : forall held rs', union_bus_rules node held hs rs src = Ok rs' -> forall r, r ∈ rs' <-> r ∈ held \/ r ∈ rs.
Proof.
  induction rs as [|r rs IH]; intros held rs' Hu x; cbn [union_bus_rules] in Hu; [injection Hu as <-; rewrite elem_of_nil; naive_solver|].
  destruct (match BusRule.policy r with Some _ => _ | None => _ end) as [[[? ?] ?]|]; [done|].
  rewrite (IH _ _ Hu), elem_push, elem_of_cons. naive_solver.
Qed.

Lemma union_rules_map node hs src sys rs held rs' : union_bus_rules node held hs rs src = Ok rs' ->
  forall g, g ∈ map (GRule sys) rs' <-> g ∈ map (GRule sys) held \/ g ∈ map (GRule sys) rs.
Proof.
  intros Hu g. rewrite !list_elem_of_fmap. setoid_rewrite (union_rules_elem _ _ _ _ _ _ Hu). naive_solver.
Qed.

(** Two grants of one kind, joined: the grants of both, and the later choice. *)
Lemma join_adds h hs svc src j : kind_of h = kind_of svc -> join_grants h hs svc src = Ok j ->
  kind_of j.1 = kind_of svc /\ (forall g, g ∈ grants j.1 <-> g ∈ grants h \/ g ∈ grants svc) /\ choices j.1 = choices svc.
Proof.
  intros Hk Hj. destruct h, svc; try discriminate Hk; cbn [kind_of] in Hk; cbn [join_grants] in Hj; unfold agree, merge_network in Hj; repeat (case_bool_decide; try discriminate Hj);
    cbn [andb negb] in Hj; inv_ok; try (injection Hk as <-); cbn [fst];
    (split; [done|]); (split; [|done]); intros g; unfold grants; cbn [kind_of];
    rewrite ?elem_of_cons, ?elem_of_app, ?elem_on, ?orb_true_iff, ?elem_union_map, ?elem_of_nil; cbn [outbound n_dns n_forwards allow_out allow_hosts no_ipv6];
    rewrite ?elem_on, ?orb_true_iff, ?elem_union_map, ?bool_decide_eq_true; try naive_solver.
  all: match goal with Hu : union_bus_rules _ _ _ _ _ = Ok _ |- _ => rewrite (union_rules_map _ _ _ _ _ _ _ Hu) end; naive_solver.
Qed.

(** ** A layer's grants *)

Definition held_grants (held : list (sourced Service.t)) : list Grant := concat (map grants (map fst held)).
Definition held_choices (held : list (sourced Service.t)) : list Choice := concat (map choices (map fst held)).
Definition kinds_of (held : list (sourced Service.t)) : list Kind := map kind_of (map fst held).

Lemma elem_concat {A} (l : list (list A)) x : x ∈ concat l <-> exists k, k ∈ l /\ x ∈ k.
Proof. rewrite !list_elem_of_In, in_concat. split; intros (k & Hk & Hx); exists k; by rewrite !list_elem_of_In in *. Qed.

Lemma held_grants_elem held g : g ∈ held_grants held <-> exists s src, (s, src) ∈ held /\ g ∈ grants s.
Proof.
  unfold held_grants. rewrite elem_concat, map_map. setoid_rewrite list_elem_of_fmap. split.
  - intros (k & ([s src] & -> & Hin) & Hg). by exists s, src.
  - intros (s & src & Hin & Hg). exists (grants s). split; [|done]. by exists (s, src).
Qed.

Lemma slot_kind_unique held svc i h hs : NoDup (kinds_of held) -> slot (same_kind (kind_of svc)) held = Some (i, h, hs) ->
  held !! i = Some (h, hs) /\ kind_of h = kind_of svc /\ forall j x, held !! j = Some x -> kind_of x.1 = kind_of svc -> j = i.
Proof.
  intros Hn Hs. destruct (slot_spec _ _ _ _ _ Hs) as (a & Ha & [-> Hk]%same_kind_spec). split; [done|]. split; [done|].
  intros j x Hj Hx. unfold kinds_of in Hn. rewrite map_map in Hn. eapply (NoDup_lookup _ j i (kind_of svc) Hn); (etrans; [apply list_lookup_fmap|]); [etrans; [exact (f_equal (fmap _) Hj)|]; cbn; by rewrite Hx|etrans; [exact (f_equal (fmap _) Ha)|]; cbn; by rewrite Hk].
Qed.

(** Adding a grant adds its pieces, makes its choice, and holds one grant of a kind. *)
Lemma add_service_adds held svc src held' : NoDup (kinds_of held) -> add_service held svc src = Ok held' ->
  NoDup (kinds_of held') /\ (forall g, g ∈ held_grants held' <-> g ∈ held_grants held \/ g ∈ grants svc).
Proof.
  intros Hn. rewrite add_service_kind. unfold add_by_kind. destruct (slot _ held) as [[[i h] hs]|] eqn:Hs.
  - destruct (slot_kind_unique _ _ _ _ _ Hn Hs) as (Hi & Hk & Hu). intros Ha. inv_ok. destruct (join_adds _ _ _ _ _ Hk E) as (Hkj & Hg & _).
    pose proof (take_drop_middle _ _ _ Hi) as Hm. assert (i < length held)%nat as Hlt by (by eapply lookup_lt_Some).
    assert (<[i:=r]> held = take i held ++ r :: drop (S i) held) as Hins by (by apply insert_take_drop). rewrite Hins.
    split.
    + rewrite <-Hm in Hn. unfold kinds_of in *. rewrite !map_app in *. cbn [map fst] in *. by rewrite Hkj, <-Hk.
    + assert (forall x, x ∈ held <-> x ∈ take i held \/ x = (h, hs) \/ x ∈ drop (S i) held) as Hel
        by (intros x; rewrite <-Hm at 1; by rewrite elem_of_app, elem_of_cons).
      intros g. rewrite !held_grants_elem. setoid_rewrite Hel.
      assert (forall x, x ∈ take i held ++ r :: drop (S i) held <-> x ∈ take i held \/ x = r \/ x ∈ drop (S i) held) as Hel' by (intros x; by rewrite elem_of_app, elem_of_cons).
      setoid_rewrite Hel'. destruct r as [j src']. cbn [fst] in *. split.
      * intros (s & s0 & [Hin|[[= -> ->]|Hin]] & Hgs); [left; naive_solver|apply Hg in Hgs as [|]; [left; naive_solver|by right]|left; naive_solver].
      * intros [(s & s0 & [Hin|[[= -> ->]|Hin]] & Hgs)|Hgs]; [naive_solver|..|naive_solver|]; (exists j, src'; split; [naive_solver|]; apply Hg; naive_solver).
  - intros [= <-]. apply slot_none in Hs. split.
    + unfold kinds_of. rewrite !map_app. cbn. apply NoDup_snoc; [done|]. rewrite map_map. intros ([s s0] & Hks & Hin)%list_elem_of_fmap. rewrite Forall_forall in Hs. specialize (Hs _ Hin).
      cbn [fst] in *. unfold same_kind in Hs. by rewrite bool_decide_true in Hs.
    + intros g. unfold held_grants. rewrite !map_app, concat_app, elem_of_app. cbn. by rewrite app_nil_r.
Qed.

(** ** Choices *)

(** The choices held, the new ones made after them, and the choices that stand. *)
Definition overrides (old new res : list Choice) : Prop :=
  forall c, c ∈ res <-> match last_on (topic c) new with Some d => c = d | None => c ∈ old end.

Lemma overrides_nil old : overrides old [] old.
Proof. done. Qed.

Lemma overrides_app a n1 b n2 c : overrides a n1 b -> overrides b n2 c -> overrides a (n1 ++ n2) c.
Proof. intros Ho1 Ho2 x. rewrite (Ho2 x), last_on_app. destruct (last_on (topic x) n2); [done|]. apply Ho1. Qed.

Lemma last_on_one c d : last_on (topic c) [d] = if bool_decide (topic d = topic c) then Some d else None.
Proof. unfold last_on. cbn. by case_bool_decide. Qed.

Lemma overrides_one old d res : (forall c, c ∈ res <-> c = d \/ (c ∈ old /\ topic c <> topic d)) -> overrides old [d] res.
Proof. intros Hr c. rewrite Hr, last_on_one. case_bool_decide; naive_solver. Qed.

Lemma held_choices_elem held c : c ∈ held_choices held <-> exists s src, (s, src) ∈ held /\ c ∈ choices s.
Proof.
  unfold held_choices. rewrite elem_concat, map_map. setoid_rewrite list_elem_of_fmap. split.
  - intros (k & ([s src] & -> & Hin) & Hg). by exists s, src.
  - intros (s & src & Hin & Hg). exists (choices s). split; [|done]. by exists (s, src).
Qed.

Lemma choices_kind s c : c ∈ choices s -> (forall s', kind_of s' = kind_of s <-> exists d, choices s' = [d] /\ topic d = topic c).
Proof.
  intros Hc s'. destruct s; cbn in Hc; try (by apply elem_of_nil in Hc); apply list_elem_of_singleton in Hc as ->; cbn [topic kind_of];
    (split; [intros Hk; destruct s'; try discriminate Hk; by eexists|intros (d & Hd & Ht); destruct s'; try discriminate Hd; injection Hd as <-; (done || discriminate Ht)]).
Qed.

Lemma choices_cases s : choices s = [] \/ exists d, choices s = [d].
Proof. destruct s; cbn; eauto. Qed.

(** The choices of the grants of other kinds stay, and those of this kind are made anew. *)
Lemma kind_overrides (O : Service.t -> Prop) (E : Choice -> Prop) svc old res :
  (forall c, c ∈ old <-> (exists s, O s /\ c ∈ choices s) \/ E c) -> (forall c, c ∈ res <-> (exists s, O s /\ c ∈ choices s) \/ c ∈ choices svc) ->
  (forall s, O s -> kind_of s <> kind_of svc) -> (forall c, E c -> exists h, kind_of h = kind_of svc /\ c ∈ choices h) -> overrides old (choices svc) res.
Proof.
  intros Hold Hres Ho HE. destruct (choices_cases svc) as [Hz|[d Hd]].
  - rewrite Hz in *. intros c. cbn. rewrite Hold, Hres, elem_of_nil. split; [naive_solver|]. intros [?|He]; [by left|]. exfalso.
    destruct (HE c He) as (h & Hk & Hc). destruct (proj1 (choices_kind h c Hc svc) ltac:(done)) as (? & Hx & _). congruence.
  - pose proof (choices_kind svc d ltac:(rewrite Hd; by left)) as Hck. rewrite Hd in *. apply overrides_one. intros c. rewrite Hold, Hres, list_elem_of_singleton.
    assert (forall s, kind_of s <> kind_of svc -> c ∈ choices s -> topic c <> topic d) as Hne.
    { intros s Hs Hc Ht. destruct (choices_cases s) as [Hz|[e He]]; [rewrite Hz in Hc; by apply elem_of_nil in Hc|].
      rewrite He in Hc. apply list_elem_of_singleton in Hc as ->. apply Hs, Hck. by exists e. }
    split.
    + intros [(s & Hs & Hc)|]; [|by left]. right. split; [left; by exists s|]. by apply (Hne s); [apply Ho|].
    + intros [|[[?|He] Ht]]; [by right|by left|]. exfalso. destruct (HE c He) as (h & Hk & Hc). destruct (proj1 (Hck h) Hk) as (e & Hee & Hte).
      rewrite Hee in Hc. apply list_elem_of_singleton in Hc as ->. by apply Ht.
Qed.

Lemma add_service_overrides held svc src held' : NoDup (kinds_of held) -> add_service held svc src = Ok held' ->
  overrides (held_choices held) (choices svc) (held_choices held').
Proof.
  intros Hn. rewrite add_service_kind. unfold add_by_kind. destruct (slot _ held) as [[[i h] hs]|] eqn:Hs.
  - destruct (slot_kind_unique _ _ _ _ _ Hn Hs) as (Hi & Hk & Hu). intros Ha. inv_ok. destruct (join_adds _ _ _ _ _ Hk E) as (_ & _ & Hc).
    pose proof (take_drop_middle _ _ _ Hi) as Hm. assert (i < length held)%nat as Hlt by (by eapply lookup_lt_Some).
    assert (<[i:=r]> held = take i held ++ r :: drop (S i) held) as -> by (by apply insert_take_drop). destruct r as [j src'].
    apply (kind_overrides (fun s => exists s0, (s, s0) ∈ take i held ++ drop (S i) held) (fun c => c ∈ choices h)).
    + intros c. rewrite held_choices_elem. setoid_rewrite elem_of_app.
      assert (forall x, x ∈ held <-> x ∈ take i held \/ x = (h, hs) \/ x ∈ drop (S i) held) as Hel by (intros x; rewrite <-Hm at 1; by rewrite elem_of_app, elem_of_cons).
      setoid_rewrite Hel. naive_solver.
    + intros c. rewrite held_choices_elem. setoid_rewrite elem_of_app. setoid_rewrite elem_of_cons. cbn [fst] in Hc. rewrite <-Hc. naive_solver.
    + intros s [s0 [Hin|Hin]%elem_of_app] Hks; apply list_elem_of_lookup in Hin as (k & Hj).
      * pose proof (lookup_lt_Some _ _ _ Hj) as Hj'. rewrite length_take in Hj'. rewrite lookup_take_lt in Hj by lia. specialize (Hu _ _ Hj Hks). lia.
      * rewrite lookup_drop in Hj. specialize (Hu _ _ Hj Hks). lia.
    + intros c Hch. by exists h.
  - intros [= <-]. apply slot_none in Hs. apply (kind_overrides (fun s => exists s0, (s, s0) ∈ held) (fun _ => False)); [..|done].
    + intros c. rewrite held_choices_elem. naive_solver.
    + intros c. rewrite held_choices_elem. setoid_rewrite elem_of_app. setoid_rewrite list_elem_of_singleton. naive_solver.
    + intros s [s0 Hin] Hks. rewrite Forall_forall in Hs. specialize (Hs _ Hin). cbn in Hs. unfold same_kind in Hs. by rewrite bool_decide_true in Hs.
Qed.

(** ** A whole layer *)

Definition opt_choice {A} (C : A -> Choice) (o : option A) : list Choice := match o with Some a => [C a] | None => [] end.

Definition all_grants (m : Merged.t) : list Grant := held_grants (Merged.services m) ++ call_grants (Merged.seccomp m).
Definition raw_grants (raw : RawProfile) : list Grant := concat (map grants (services (config raw))) ++ call_grants (seccomp (config raw)).

Definition all_choices (m : Merged.t) : list Choice :=
  held_choices (Merged.services m) ++ map (fun e => CEnv e.1) (Merged.env m) ++ map (fun a => CLint a.1) (Merged.lint_allows m) ++
  opt_choice (fun x => CEtc x.1) (Merged.etc m) ++ opt_choice (fun x => CTmp x.1) (Merged.tmp m) ++ opt_choice (fun x => CTty x.1) (Merged.tty m) ++
  opt_choice (fun x => CUserns x.1) (Merged.userns m) ++ opt_choice (fun x => CCommand x.1) (Merged.command m) ++ opt_choice (fun x => CDesktop x.1) (Merged.desktop m).

Definition raw_choices (raw : RawProfile) : list Choice :=
  let cfg := config raw in
  concat (map choices (services cfg)) ++ map CEnv (env cfg) ++ map CLint (lint_allows cfg) ++
  opt_choice CEtc (if etc_set raw then Some (etc cfg) else None) ++ opt_choice CTmp (tmp cfg) ++ opt_choice CTty (if tty_set raw then Some (tty cfg) else None) ++
  opt_choice CUserns (if userns_set raw then Some (userns cfg) else None) ++ opt_choice CCommand (command cfg) ++ opt_choice CDesktop (desktop cfg).

(** The part of a file a topic is of; choices of one part leave those of another alone. *)
Definition part_of (t : Topic) : nat :=
  match t with
  | TWayland | TX11 | TMpris | TNetwork => 0 | TEnv _ => 1 | TLint _ => 2 | TEtc => 3 | TTmp => 4 | TTty => 5 | TUserns => 6 | TCommand => 7 | TDesktop => 8
  end%nat.

Definition in_part (P : nat -> Prop) (l : list Choice) : Prop := forall c, c ∈ l -> P (part_of (topic c)).

Lemma last_on_some t l d : last_on t l = Some d -> d ∈ l /\ topic d = t.
Proof.
  unfold last_on. intros Hl. apply last_Some_elem_of in Hl. apply list_elem_of_In, filter_In in Hl as [Hin Ht]. bool_to_prop. by apply list_elem_of_In in Hin.
Qed.

Lemma overrides_parts k a1 n1 r1 a2 n2 r2 :
  overrides a1 n1 r1 -> overrides a2 n2 r2 -> in_part (eq k) a1 -> in_part (eq k) n1 -> in_part (fun i => k < i)%nat a2 -> in_part (fun i => k < i)%nat n2 ->
  overrides (a1 ++ a2) (n1 ++ n2) (r1 ++ r2).
Proof.
  intros Ho1 Ho2 Ha1 Hn1 Ha2 Hn2 c. rewrite elem_of_app, (Ho1 c), (Ho2 c), last_on_app.
  assert (forall d, last_on (topic c) n1 = Some d -> k = part_of (topic c)) as H1' by (intros d [Hd <-]%last_on_some; by apply Hn1).
  assert (forall d, last_on (topic c) n2 = Some d -> (k < part_of (topic c))%nat) as H2' by (intros d [Hd <-]%last_on_some; by apply Hn2).
  pose proof (Ha1 c) as Hc1. pose proof (Ha2 c) as Hc2.
  destruct (last_on (topic c) n2) as [d|]; [specialize (H2' d eq_refl)|]; (destruct (last_on (topic c) n1) as [e|]; [specialize (H1' e eq_refl)|]).
  - lia.
  - split; [intros [Hx|]; [apply Hc1 in Hx; lia|done]|by right].
  - split; [intros [|Hx]; [done|apply Hc2 in Hx; lia]|by left].
  - by rewrite elem_of_app.
Qed.

Lemma decide_overrides {A} (C : A -> Choice) (t : Topic) src set held : (forall a, topic (C a) = t) ->
  overrides (opt_choice (fun x => C x.1) held) (opt_choice C set) (opt_choice (fun x => C x.1) (Merged.decide_ src set held)).
Proof.
  intros Ht. destruct set as [a|]; cbn [Merged.decide_ opt_choice]; [|apply overrides_nil]. apply overrides_one. intros c. cbn [opt_choice fst]. rewrite list_elem_of_singleton. split; [by left|].
  intros [|[Hc Hne]]; [done|]. exfalso. apply Hne. destruct held as [[b s]|]; cbn in Hc; [|by apply elem_of_nil in Hc]. apply list_elem_of_singleton in Hc as ->. by rewrite !Ht.
Qed.

Section Put.
Context {A K : Type} `{EqDecision K} (key : A -> K) (C : A -> Choice) (T : K -> Topic).
Context (HT : forall a, topic (C a) = T (key a)) (Tinj : forall k k', T k = T k' -> k = k').

Definition put_keys (held : list (sourced A)) : list K := map (fun x => key x.1) held.

Lemma others_differ held i b x : NoDup (put_keys held) -> held !! i = Some b -> x ∈ take i held ++ drop (S i) held -> key x.1 <> key b.1.
Proof.
  intros Hn Hi Hx Hk. unfold put_keys in Hn. rewrite <-(take_drop_middle _ _ _ Hi), map_app in Hn. cbn [map] in Hn.
  apply NoDup_app in Hn as (_ & Hd & [Hb _]%NoDup_cons).
  apply elem_of_app in Hx as [Hx|Hx]; [apply (Hd (key b.1)); [|by left]|apply Hb]; apply list_elem_of_fmap; by exists x.
Qed.

Lemma split_at {X} (l : list X) i b x : l !! i = Some b -> x ∈ l <-> x = b \/ x ∈ take i l ++ drop (S i) l.
Proof. intros Hi. rewrite <-(take_drop_middle _ _ _ Hi) at 1. rewrite !elem_of_app, elem_of_cons. naive_solver. Qed.

Lemma put_overrides src held a : NoDup (put_keys held) ->
  NoDup (put_keys (Merged.put key src held a)) /\ overrides (map (fun x => C x.1) held) [C a] (map (fun x => C x.1) (Merged.put key src held a)).
Proof.
  intros Hn. unfold Merged.put. destruct (slot _ held) as [[[i u] hs]|] eqn:Hs.
  - destruct (slot_spec _ _ _ _ _ Hs) as (b & Hi & Hb). case_bool_decide as Hk; [clear Hb|done].
    assert (i < length held)%nat as Hlt by (by eapply lookup_lt_Some). split.
    + unfold put_keys in *. rewrite insert_take_drop by done. rewrite <-(take_drop_middle _ _ _ Hi) in Hn. rewrite !map_app in *. cbn [map fst] in *. by rewrite <-Hk.
    + apply overrides_one. intros c. change (c ∈ (fun x => C x.1) <$> <[i:=(a, src)]> held <-> c = C a \/ (c ∈ (fun x => C x.1) <$> held) /\ topic c <> topic (C a)).
      rewrite !list_elem_of_fmap. setoid_rewrite (split_at held i _ _ Hi).
      assert (forall x, x ∈ <[i:=(a, src)]> held <-> x = (a, src) \/ x ∈ take i held ++ drop (S i) held) as Hel.
      { intros x. rewrite insert_take_drop by done. rewrite !elem_of_app, elem_of_cons. naive_solver. }
      setoid_rewrite Hel. split.
      * intros (x & -> & [->|Hx]); [by left|]. right. split; [exists x; auto|]. rewrite !HT. intros Ht%Tinj. apply (others_differ held i (b, hs) x Hn Hi Hx). by cbn; rewrite Hk.
      * intros [->|[(x & -> & [->|Hx]) Hne]]; [exists (a, src); auto|..|exists x; auto]. exfalso. apply Hne. rewrite !HT. cbn. by rewrite Hk.
  - apply slot_none in Hs. rewrite Forall_forall in Hs.
    assert (forall x, x ∈ held -> key x.1 <> key a) as Hno by (intros x Hx Hk; specialize (Hs x Hx); by rewrite bool_decide_true in Hs). split.
    + unfold put_keys in *. rewrite map_app. apply NoDup_snoc; [done|]. intros (x & Hx & Hin)%list_elem_of_fmap. by apply (Hno x Hin).
    + rewrite map_app. cbn [map fst]. apply overrides_one. intros c. rewrite elem_of_app, list_elem_of_singleton. split; [|naive_solver].
      intros [(x & -> & Hin)%list_elem_of_fmap|]; [|by left]. right. split; [apply list_elem_of_fmap; by exists x|]. rewrite !HT. intros Ht%Tinj. by apply (Hno x Hin).
Qed.

Lemma puts_override src l held : NoDup (put_keys held) ->
  NoDup (put_keys (fold_left (Merged.put key src) l held)) /\ overrides (map (fun x => C x.1) held) (map C l) (map (fun x => C x.1) (fold_left (Merged.put key src) l held)).
Proof.
  revert held. induction l as [|a l IH]; intros held Hn; [by split|]. destruct (put_overrides src held a Hn) as [Hn1 Ho1]. destruct (IH _ Hn1) as [Hn2 Ho2].
  split; [exact Hn2|]. exact (overrides_app _ [C a] _ _ _ Ho1 Ho2).
Qed.
End Put.

(** ** The merge of a layer *)

Record minv (m : Merged.t) : Prop := {
  mi_kinds : NoDup (kinds_of (Merged.services m));
  mi_env : NoDup (put_keys fst (Merged.env m));
  mi_lints : NoDup (put_keys check_id (Merged.lint_allows m));
  mi_seccomp : Merged.seccomp_src m = None -> Merged.seccomp m = default_seccomp }.

Lemma default_minv : minv Merged.default_.
Proof. by split; try constructor. Qed.

Lemma services_merge svcs src held held' : NoDup (kinds_of held) -> fold_res (fun held svc => add_service held svc src) held svcs = Ok held' ->
  NoDup (kinds_of held') /\ (forall g, g ∈ held_grants held' <-> g ∈ held_grants held \/ g ∈ concat (map grants svcs)) /\
  overrides (held_choices held) (concat (map choices svcs)) (held_choices held').
Proof.
  revert held. induction svcs as [|s svcs IH]; intros held Hn Hf; cbn [fold_res map concat] in *.
  - injection Hf as <-. split; [done|]. split; [|apply overrides_nil]. intros g. rewrite elem_of_nil. naive_solver.
  - destruct (add_service held s src) as [h1|] eqn:E; [|done]. destruct (add_service_adds _ _ _ _ Hn E) as [Hn1 Hg1]. pose proof (add_service_overrides _ _ _ _ Hn E) as Ho1.
    destruct (IH _ Hn1 Hf) as (Hn2 & Hg2 & Ho2). split; [done|]. split; [|by eapply overrides_app].
    intros g. rewrite Hg2, Hg1, elem_of_app. naive_solver.
Qed.

Lemma call_grants_union a b g :
  g ∈ call_grants (mkConfig (union (Seccomp.allow a) (Seccomp.allow b)) (union (Seccomp.deny a) (Seccomp.deny b)) (disable a || disable b)) <-> g ∈ call_grants a \/ g ∈ call_grants b.
Proof.
  unfold call_grants. cbn [Seccomp.allow Seccomp.deny disable]. rewrite !elem_of_app, !elem_union_map, !elem_on, orb_true_iff. naive_solver.
Qed.

Lemma in_part_app P a b : in_part P a -> in_part P b -> in_part P (a ++ b).
Proof. intros Ha Hb c [Hc|Hc]%elem_of_app; auto. Qed.

Lemma in_part_map {A} (P : nat -> Prop) (C : A -> Choice) l : (forall a, P (part_of (topic (C a)))) -> in_part P (map C l).
Proof. intros HP c (a & -> & _)%list_elem_of_fmap. apply HP. Qed.

Lemma in_part_opt {A} (P : nat -> Prop) (C : A -> Choice) o : (forall a, P (part_of (topic (C a)))) -> in_part P (opt_choice C o).
Proof. intros HP c Hc. destruct o as [a|]; cbn in Hc; [apply list_elem_of_singleton in Hc as ->; apply HP|by apply elem_of_nil in Hc]. Qed.

Lemma choices_part s c : c ∈ choices s -> part_of (topic c) = 0%nat.
Proof. destruct s; cbn; intros Hc; (apply list_elem_of_singleton in Hc as -> || apply elem_of_nil in Hc); done. Qed.

Lemma in_part_held held : in_part (eq 0%nat) (held_choices held).
Proof. intros c (s & _ & _ & Hc)%held_choices_elem. by rewrite (choices_part _ _ Hc). Qed.

Lemma in_part_services l : in_part (eq 0%nat) (concat (map choices l)).
Proof. intros c (k & (s & -> & _)%list_elem_of_fmap & Hc)%elem_concat. by rewrite (choices_part _ _ Hc). Qed.

Ltac in_parts :=
  repeat first [ apply in_part_app | apply in_part_map; intros; cbn; (reflexivity || lia) | apply in_part_opt; intros; cbn; (reflexivity || lia)
               | apply in_part_held | apply in_part_services ].

Lemma merge_adds m raw src m' : minv m -> Merged.merge m raw src = Ok m' ->
  minv m' /\ (forall g, g ∈ all_grants m' <-> g ∈ all_grants m \/ g ∈ raw_grants raw) /\ overrides (all_choices m) (raw_choices raw) (all_choices m') /\
  map fst (Merged.disabled m') = map fst (Merged.disabled m) ++ disabled (config raw).
Proof.
  intros [Hk He Hl Hs]. unfold Merged.merge. intros Hm. inv_ok. destruct (services_merge _ _ _ _ Hk E) as (Hk' & Hg & Ho).
  destruct (puts_override fst CEnv TEnv (fun _ => eq_refl) ltac:(by intros ? ? [=]) src (env (config raw)) _ He) as [He' Hoe].
  destruct (puts_override check_id CLint TLint (fun _ => eq_refl) ltac:(by intros ? ? [=]) src (lint_allows (config raw)) _ Hl) as [Hl' Hol].
  split; [|split; [|split]].
  - split; [done|done|done|]. cbn [Merged.seccomp Merged.seccomp_src]. by case_bool_decide.
  - intros g. unfold all_grants, raw_grants. cbn [Merged.services Merged.seccomp]. rewrite !elem_of_app, Hg. case_bool_decide as Hd; cbn [negb].
    + rewrite Hd. cbn. rewrite !elem_of_nil. naive_solver.
    + rewrite call_grants_union. naive_solver.
  - unfold all_choices, raw_choices. cbn [Merged.services Merged.env Merged.lint_allows Merged.etc Merged.tmp Merged.tty Merged.userns Merged.command Merged.desktop].
    apply (overrides_parts 0); [exact Ho| |in_parts..]. apply (overrides_parts 1); [exact Hoe| |in_parts..]. apply (overrides_parts 2); [exact Hol| |in_parts..].
    apply (overrides_parts 3); [by apply (decide_overrides CEtc TEtc)| |in_parts..]. apply (overrides_parts 4); [by apply (decide_overrides CTmp TTmp)| |in_parts..].
    apply (overrides_parts 5); [by apply (decide_overrides CTty TTty)| |in_parts..]. apply (overrides_parts 6); [by apply (decide_overrides CUserns TUserns)| |in_parts..].
    apply (overrides_parts 7); [by apply (decide_overrides CCommand TCommand)| |in_parts..]. by apply (decide_overrides CDesktop TDesktop).
  - cbn [Merged.disabled]. rewrite map_app, map_map. by rewrite map_id.
Qed.

(** ** The merge of the layers *)

Lemma merge_layers_adds `{SyscallNames, Kdl} ls m m' : minv m -> merge_layers m ls = Ok m' ->
  exists raws, Forall2 (fun l raw => raw_of l = Ok raw) ls raws /\ minv m' /\
    (forall g, g ∈ all_grants m' <-> g ∈ all_grants m \/ g ∈ concat (map raw_grants raws)) /\
    overrides (all_choices m) (concat (map raw_choices raws)) (all_choices m') /\
    map fst (Merged.disabled m') = map fst (Merged.disabled m) ++ concat (map (fun raw => disabled (config raw)) raws).
Proof.
  revert m. induction ls as [|l ls IH]; intros m Hi Hm.
  - injection Hm as <-. exists []. split; [constructor|]. split; [done|]. cbn. rewrite app_nil_r. split; [|split; [apply overrides_nil|done]]. intros g. rewrite elem_of_nil. naive_solver.
  - cbn [merge_layers fold_res] in Hm. destruct (raw_of l) as [raw|] eqn:Er; [|done]. cbn [mbind result_bind] in Hm. destruct (Merged.merge m raw (src_of l)) as [m1|] eqn:Em; [|done].
    destruct (merge_adds _ _ _ _ Hi Em) as (Hi1 & Hg1 & Ho1 & Hd1). destruct (IH m1 Hi1 Hm) as (raws & Hr & Hi2 & Hg2 & Ho2 & Hd2).
    exists (raw :: raws). split; [by constructor|]. split; [done|]. cbn [map concat]. split; [|split].
    + intros g. rewrite Hg2, Hg1, elem_of_app. naive_solver.
    + by eapply overrides_app.
    + rewrite Hd2, Hd1. by rewrite app_assoc.
Qed.
End Adds.
