(* ===== verification/ProfileSpec.v ===== *)
(** What a flattened profile is: the grants of its layers added up and the last of their
    choices; which layers are refused; and its text, which is that of the configuration the
    layers come to. *)
From S2P Require Import NetworkSpec ConfigDocFacts.
From S2P Require Export ProfileMerge ConfigRoundTrip.

(** ** Grants that cannot both hold *)

(** Two levels for one name. *)
Definition rules_clash (r r' : BusRule.t) : Prop :=
  exists name l l', BusRule.policy r = Some (name, l) /\ BusRule.policy r' = Some (name, l') /\ l <> l'.

Definition contrary (a b : Grant) : Prop :=
  match a, b with
  | GMode k m, GMode k' m' => k = k' /\ m <> m'
  | GRule s r, GRule s' r' => s = s' /\ rules_clash r r'
  | _, _ => False
  end.

Definition opens (s : Service.t) : Prop := exists cfg, s = Service.Network cfg /\ outbound cfg <> Outbound.Deny.

(** A grant that cannot be added to those held: a share in another mode, a name under another
    policy, a network without the filter that is asked for. *)
Definition clashes (held : list Grant) (s : Service.t) : Prop :=
  (exists a b, a ∈ held /\ b ∈ grants s /\ contrary a b) \/ (GDeny ∈ held /\ opens s).

Definition agreed (l : list Grant) : Prop := forall a b, a ∈ l -> b ∈ l -> ~ contrary a b.

Section Clash.
Context `{IpText}.

Definition rules_agree (l : list BusRule.t) : Prop := forall r r', r ∈ l -> r' ∈ l -> ~ rules_clash r r'.

Lemma rules_agree_one rules name l was : rules_agree rules ->
  List.find (fun x => bool_decide (x.1 = name)) (omap BusRule.policy rules) = Some (l, was) ->
  (exists r, r ∈ rules /\ BusRule.policy r = Some (name, was)) /\ forall r lv, r ∈ rules -> BusRule.policy r = Some (name, lv) -> lv = was.
Proof.
  intros Ha Hf. apply List.find_some in Hf as [Hin Hn]. cbn in Hn. bool_to_prop. subst l. apply list_elem_of_In, list_elem_of_omap in Hin as (r & Hr & Hp).
  split; [by exists r|]. intros r' lv Hr' Hp'. destruct (decide (lv = was)); [done|]. exfalso. apply (Ha r' r Hr' Hr). by exists name, lv, was.
Qed.

Lemma union_refused node hs src rules : forall held, rules_agree held -> rules_agree rules ->
  (exists e, union_bus_rules node held hs rules src = Err e) <-> exists r r', r ∈ held /\ r' ∈ rules /\ rules_clash r r'.
Proof.
  induction rules as [|r rules IH]; intros held Hh Hr; cbn [union_bus_rules].
  { split; [by intros (e & [=])|]. intros (x & y & _ & Hy & _). by apply elem_of_nil in Hy. }
  assert (rules_agree rules) as Hr' by (intros x y Hx Hy; apply Hr; by right).
  assert ((forall x, x ∈ held -> ~ rules_clash x r) ->
    ((exists e, union_bus_rules node (push_new held r) hs rules src = Err e) <-> exists x y, x ∈ held /\ y ∈ r :: rules /\ rules_clash x y)) as Hgo.
  { intros Hno. rewrite IH; [|..|done].
    - setoid_rewrite elem_push. setoid_rewrite elem_of_cons. split; intros (x & y & Hx & Hy & Hc).
      + destruct Hx as [Hx| ->]; [by exists x, y; auto|]. exfalso. apply (Hr r y); [by left|by right|done].
      + destruct Hy as [->|Hy]; [by destruct (Hno x Hx)|]. exists x, y. auto.
    - intros x y [Hx| ->]%elem_push [Hy| ->]%elem_push; [by apply Hh|by apply Hno|..].
      + intros (n & l & l' & Hl & Hl' & Hne). apply (Hno y Hy). exists n, l', l. auto.
      + intros (n & l & l' & Hl & Hl' & Hne). congruence. }
  destruct (BusRule.policy r) as [[name level]|] eqn:Hp.
  2:{ apply Hgo. intros x Hx (n & l & l' & _ & Hl & _). congruence. }
  destruct (List.find _ _) as [[n was]|] eqn:Hf.
  - destruct (rules_agree_one _ _ _ _ Hh Hf) as [(w & Hw & Hwp) Hone]. case_bool_decide as Hl.
    + apply Hgo. intros x Hx (m & l & l' & Hlx & Hlr & Hne). rewrite Hp in Hlr. injection Hlr as <- <-. rewrite (Hone _ _ Hx Hlx) in Hne. done.
    + split; [|intros _; by eexists]. intros _. exists w, r. split; [done|]. split; [by left|]. by exists name, was, level.
  - apply Hgo. intros x Hx (m & l & l' & Hlx & Hlr & Hne). rewrite Hp in Hlr. injection Hlr as <- <-.
    eapply List.find_none in Hf; [|apply list_elem_of_In, list_elem_of_omap; by exists x]. cbn in Hf. by rewrite bool_decide_true in Hf.
Qed.

Lemma union_conflict node held hs rules src e : union_bus_rules node held hs rules src = Err e -> exists a b, e = Conflict node a b.
Proof.
  revert held. induction rules as [|r rules IH]; intros held; cbn [union_bus_rules]; [done|].
  destruct (match BusRule.policy r with Some _ => _ | None => _ end) as [[[? ?] ?]|]; [|apply IH]. intros [= <-]. by eexists _, _.
Qed.

(** The rules of a bus as grants. *)
Lemma rules_contrary sys held rules :
  (exists a b, a ∈ map (GRule sys) held /\ b ∈ map (GRule sys) rules /\ contrary a b) <-> exists r r', r ∈ held /\ r' ∈ rules /\ rules_clash r r'.
Proof.
  setoid_rewrite list_elem_of_fmap. split.
  - intros (a & b & (r & -> & Hr) & (r' & -> & Hr') & [_ Hc]). by exists r, r'.
  - intros (r & r' & Hr & Hr' & Hc). exists (GRule sys r), (GRule sys r'). split; [by exists r|]. split; [by exists r'|]. by split.
Qed.

Lemma agreed_rules sys rest rs : agreed (rest ++ map (GRule sys) rs) -> rules_agree rs.
Proof.
  intros Ha r r' Hr Hr' Hc. apply (Ha (GRule sys r) (GRule sys r')); [apply elem_of_app; right; apply list_elem_of_fmap; by exists r|apply elem_of_app; right; apply list_elem_of_fmap; by exists r'|].
  by split.
Qed.

Definition shared (s : Service.t) : Prop := match s with Service.HomeShare _ _ _ | Service.PathShare _ _ _ | Service.AppRuntime _ _ => True | _ => False end.
Definition rules_of (s : Service.t) : list BusRule.t := match s with Service.Dbus rs | Service.SystemBus rs => rs | _ => [] end.

Ltac grant_cases x :=
  destruct x; unfold grants; cbn [kind_of]; rewrite ?elem_of_cons, ?elem_of_app, ?elem_on, ?elem_of_nil, ?list_elem_of_fmap; intros; destruct_or?; try done;
  repeat match goal with Hx : exists _, _ |- _ => destruct Hx as (? & ? & ?) end; try done; destruct_and?; try done; simplify_eq.

Lemma mode_kind x k m : GMode k m ∈ grants x -> k = kind_of x /\ mode_of x = m /\ shared x.
Proof. by grant_cases x. Qed.

Lemma rule_kind x s r : GRule s r ∈ grants x -> kind_of x = (if s then KSystemBus else KDbus) /\ r ∈ rules_of x.
Proof. by grant_cases x. Qed.

Lemma deny_grant x : GDeny ∈ grants x <-> exists cfg, x = Service.Network cfg /\ outbound cfg = Outbound.Deny.
Proof.
  split; [grant_cases x; bool_to_prop; by eexists|]. intros (cfg & -> & Hd). unfold grants. rewrite Hd. right. by left.
Qed.

(** Which grants are contrary to which. *)
Lemma contrary_spec h svc : (exists a b, a ∈ grants h /\ b ∈ grants svc /\ contrary a b) <->
  kind_of h = kind_of svc /\ ((shared h /\ mode_of h <> mode_of svc) \/ exists r r', r ∈ rules_of h /\ r' ∈ rules_of svc /\ rules_clash r r').
Proof.
  split.
  - intros (a & b & Ha & Hb & Hc). destruct a; try done; destruct b; try done.
    + destruct Hc as [<- Hne]. destruct (mode_kind _ _ _ Ha) as (Hk & Hm & Hs), (mode_kind _ _ _ Hb) as (Hk' & Hm' & _). split; [congruence|]. left. split; [done|congruence].
    + destruct Hc as [<- Hcl]. destruct (rule_kind _ _ _ Ha) as [Hk Hr], (rule_kind _ _ _ Hb) as [Hk' Hr']. split; [congruence|]. right. by eexists _, _.
  - intros [Hk [[Hs Hm]|(r & r' & Hr & Hr' & Hc)]].
    + exists (GMode (kind_of h) (mode_of h)), (GMode (kind_of svc) (mode_of svc)). split; [destruct h; try done; right; by left|]. split; [|done].
      destruct h; try done; destruct svc; try discriminate Hk; right; by left.
    + destruct h as [| | | | | | | | |rs|rs| | | | | | | | | |]; cbn in Hr; try (by apply elem_of_nil in Hr); destruct svc as [| | | | | | | | |ss|ss| | | | | | | | | |]; try discriminate Hk; cbn in Hr'.
      * exists (GRule false r), (GRule false r'). split; [right; apply list_elem_of_fmap; by exists r|]. split; [right; apply list_elem_of_fmap; by exists r'|by split].
      * exists (GRule true r), (GRule true r'). split; [right; apply list_elem_of_fmap; by exists r|]. split; [right; apply list_elem_of_fmap; by exists r'|by split].
Qed.

Lemma agreed_rules_of s : agreed (grants s) -> rules_agree (rules_of s).
Proof.
  intros Ha r r' Hr Hr' Hc. destruct (proj2 (contrary_spec s s)) as (a & b & Hin & Hin' & Hc'); [|exact (Ha a b Hin Hin' Hc')].
  split; [done|]. right. by exists r, r'.
Qed.

(** Joining is refused exactly when the two cannot both hold. *)
Definition refused {A} (x : result ProfileError A) (why : Prop) : Prop :=
  ((exists e, x = Err e) <-> why) /\ forall e, x = Err e -> exists n a b, e = Conflict n a b.

Lemma refused_ok {A} (a : A) why : ~ why -> refused (Ok a) why.
Proof. intros Hn. split; [|done]. split; [by intros (e & [=])|done]. Qed.

Lemma refused_iff {A} (x : result ProfileError A) why why' : (why <-> why') -> refused x why -> refused x why'.
Proof. unfold refused. by intros <-. Qed.

Lemma refused_bind {A C} (x : result ProfileError A) (f : A -> C) why : refused x why -> refused (a ← x; Ok (f a)) why.
Proof.
  intros [Hw Hc]. destruct x as [a|e]; cbn.
  - apply refused_ok. rewrite <-Hw. by intros (e & [=]).
  - split; [rewrite <-Hw; split; intros (e' & [= <-]); by eexists|]. intros e' [= <-]. by apply Hc.
Qed.

Lemma agree_refused h hm hs svc m src name j : refused (agree h hm hs svc m src name j) (hm <> m).
Proof.
  unfold agree. case_bool_decide; [apply refused_ok; naive_solver|]. split; [split; [done|intros _; by eexists]|]. intros e [= <-]. unfold mode_conflict. by eexists _, _, _.
Qed.

Lemma bus_refused node hs src held rules : rules_agree held -> rules_agree rules ->
  refused (union_bus_rules node held hs rules src) (exists r r', r ∈ held /\ r' ∈ rules /\ rules_clash r r').
Proof.
  intros Hh Hr. split; [by apply union_refused|]. intros e He. destruct (union_conflict _ _ _ _ _ _ He) as (a & b & ->). by eexists _, _, _.
Qed.

Lemma network_refused cfg src held hs : refused (merge_network cfg src held hs) (outbound held = Outbound.Deny /\ outbound cfg <> Outbound.Deny).
Proof.
  unfold merge_network. repeat case_bool_decide; cbn [andb negb]; try (apply refused_ok; naive_solver).
  split; [split; [done|intros _; by eexists]|]. intros e [= <-]. by eexists _, _, _.
Qed.

Lemma clashes_kind h svc : kind_of h = kind_of svc ->
  clashes (grants h) svc <-> (shared h /\ mode_of h <> mode_of svc) \/ (exists r r', r ∈ rules_of h /\ r' ∈ rules_of svc /\ rules_clash r r') \/ (GDeny ∈ grants h /\ opens svc).
Proof. intros Hk. unfold clashes. rewrite contrary_spec. naive_solver. Qed.

Lemma join_refused h hs svc src : kind_of h = kind_of svc -> agreed (grants h) -> agreed (grants svc) -> refused (join_grants h hs svc src) (clashes (grants h) svc).
Proof.
  intros Hk Hh Hs. eapply refused_iff; [symmetry; by apply clashes_kind|]. apply agreed_rules_of in Hh, Hs.
  destruct h, svc; try discriminate Hk; cbn [shared mode_of rules_of join_grants] in *;
    try (apply refused_ok; rewrite deny_grant; setoid_rewrite elem_of_nil; naive_solver).
  - eapply refused_iff; [|apply refused_bind, network_refused]. rewrite deny_grant. unfold opens. setoid_rewrite elem_of_nil. naive_solver.
  - eapply refused_iff; [|apply agree_refused]. rewrite deny_grant. setoid_rewrite elem_of_nil. naive_solver.
  - eapply refused_iff; [|apply agree_refused]. rewrite deny_grant. setoid_rewrite elem_of_nil. naive_solver.
  - eapply refused_iff; [|by apply refused_bind, bus_refused]. rewrite deny_grant. naive_solver.
  - eapply refused_iff; [|by apply refused_bind, bus_refused]. rewrite deny_grant. naive_solver.
  - eapply refused_iff; [|apply agree_refused]. rewrite deny_grant. setoid_rewrite elem_of_nil. naive_solver.
Qed.

(** ** Layers that are refused *)

Lemma contrary_sym a b : contrary a b -> contrary b a.
Proof.
  destruct a, b; try done; cbn; [intros [-> Hn]; auto|]. intros [-> (n & l & l' & Hl & Hl' & Hne)]. split; [done|]. exists n, l', l. auto.
Qed.

Lemma service_agreed s : service_wf s -> agreed (grants s).
Proof.
  intros Hs a b Ha Hb Hc. destruct (proj1 (contrary_spec s s)) as [_ [[_ Hm]|(r & r' & Hr & Hr' & (n & l & l' & Hl & Hl' & Hne))]]; [by exists a, b|done|].
  destruct s; cbn in Hr; try (by apply elem_of_nil in Hr); [|destruct Hs as [Hs _]]; apply Hne; by eapply (one_policy _ Hs r r').
Qed.

Lemma clashes_ext G G1 G2 s : (forall g, g ∈ G <-> g ∈ G1 \/ g ∈ G2) -> clashes G s <-> clashes G1 s \/ clashes G2 s.
Proof. intros HG. unfold clashes. setoid_rewrite HG. naive_solver. Qed.

Lemma clashes_same_kind h svc : clashes (grants h) svc -> kind_of h = kind_of svc.
Proof.
  intros [(a & b & Ha & Hb & Hc)|[(cfg & -> & _)%deny_grant (cfg' & -> & _)]]; [|done]. by destruct (proj1 (contrary_spec h svc)) as [Hk _]; [exists a, b|].
Qed.

Lemma clashes_held held svc : clashes (held_grants held) svc <-> exists s src, (s, src) ∈ held /\ clashes (grants s) svc.
Proof.
  unfold clashes. setoid_rewrite held_grants_elem. naive_solver.
Qed.

(** Two grants of one file are never contrary. *)
Lemma twice_no_clash s s' : Same.twice s' s = false -> ~ clashes (grants s) s'.
Proof.
  intros Ht Hc. pose proof (clashes_same_kind _ _ Hc) as Hk. apply (proj1 (clashes_kind _ _ Hk)) in Hc as [[Hs _]|[(r & r' & Hr & _)|[(cfg & -> & _)%deny_grant (cfg' & -> & _)]]]; [..|done].
  - destruct s; try done; destruct s'; try discriminate Hk; cbn in Ht, Hk; injection Hk as ->; by rewrite bool_decide_true in Ht.
  - destruct s; cbn in Hr; try (by apply elem_of_nil in Hr); destruct s'; discriminate Hk || discriminate Ht.
Qed.

Lemma add_service_refused held svc src : NoDup (kinds_of held) -> agreed (held_grants held) -> agreed (grants svc) ->
  refused (add_service held svc src) (clashes (held_grants held) svc).
Proof.
  intros Hn Hh Hs. rewrite add_service_kind. unfold add_by_kind. destruct (slot _ held) as [[[i h] hs]|] eqn:Hsl.
  - destruct (slot_kind_unique _ _ _ _ _ Hn Hsl) as (Hi & Hk & Hu). apply list_elem_of_lookup_2 in Hi as Hin.
    assert (agreed (grants h)) as Hah by (intros a b Ha Hb; apply Hh; apply held_grants_elem; by exists h, hs).
    eapply refused_iff; [|by apply refused_bind, join_refused]. rewrite clashes_held. split; [intros Hc; by exists h, hs|].
    intros (s & s0 & Hs' & Hc). pose proof (clashes_same_kind _ _ Hc) as Hks. apply list_elem_of_lookup in Hs' as (j & Hj).
    specialize (Hu _ _ Hj Hks). subst j. pose proof (eq_trans (eq_sym Hi) Hj) as Heq. injection Heq as -> ->. done.
  - apply refused_ok. intros (s & s0 & Hin & Hc)%clashes_held. pose proof (clashes_same_kind _ _ Hc) as Hks. apply slot_none in Hsl. rewrite Forall_forall in Hsl.
    specialize (Hsl _ Hin). cbn in Hsl. unfold same_kind in Hsl. by rewrite bool_decide_true in Hsl.
Qed.

Lemma add_service_agreed held svc src held' : NoDup (kinds_of held) -> agreed (held_grants held) -> agreed (grants svc) ->
  add_service held svc src = Ok held' -> agreed (held_grants held').
Proof.
  intros Hn Hh Hs Ha. destruct (add_service_adds _ _ _ _ Hn Ha) as [_ Hg].
  assert (~ clashes (held_grants held) svc) as Hno.
  { intros Hc. destruct (add_service_refused held svc src Hn Hh Hs) as [[_ He] _]. destruct (He Hc) as [e He']. congruence. }
  intros a b [Ha'|Ha']%Hg [Hb'|Hb']%Hg Hc; [by apply (Hh a b)|..|by apply (Hs a b)]; apply Hno; left.
  - by exists a, b.
  - apply contrary_sym in Hc. by exists b, a.
Qed.

Lemma services_refused svcs src held : NoDup (kinds_of held) -> agreed (held_grants held) -> Forall service_wf svcs ->
  ForallOrdPairs (fun held svc => Same.twice svc held = false) svcs ->
  refused (fold_res (fun held svc => add_service held svc src) held svcs) (exists s, s ∈ svcs /\ clashes (held_grants held) s).
Proof.
  revert held. induction svcs as [|s svcs IH]; intros held Hn Hh Hw Ho; cbn [fold_res].
  - apply refused_ok. intros (s & Hs & _). by apply elem_of_nil in Hs.
  - inversion_clear Hw as [|? ? Hs Hw']. inversion_clear Ho as [|? ? Ht Ho']. apply service_agreed in Hs. destruct (add_service_refused held s src Hn Hh Hs) as [Hiff Hcon].
    destruct (add_service held s src) as [h1|e] eqn:E.
    + destruct (add_service_adds _ _ _ _ Hn E) as [Hn1 Hg1]. eapply refused_iff; [|apply (IH h1 Hn1); [exact (add_service_agreed held s src h1 Hn Hh Hs E)|done|done]].
      assert (~ clashes (held_grants held) s) as Hno by (intros Hc; apply Hiff in Hc as [e [=]]).
      setoid_rewrite elem_of_cons. rewrite Forall_forall in Ht. split.
      * intros (s' & Hs' & Hc). exists s'. split; [by right|]. apply (clashes_ext _ _ _ s' Hg1) in Hc as [|Hc]; [done|]. by destruct (twice_no_clash _ _ (Ht s' Hs')).
      * intros (s' & [->|Hs'] & Hc); [done|]. exists s'. split; [done|]. apply (clashes_ext _ _ _ s' Hg1). by left.
    + split; [|intros e' [= <-]; by apply Hcon]. split; [|intros _; by eexists]. intros _. exists s. split; [by left|]. apply Hiff. by eexists.
Qed.

Lemma merge_refused `{SyscallNames} m raw src : minv m -> agreed (held_grants (Merged.services m)) -> cfg_wf (config raw) ->
  refused (Merged.merge m raw src) (exists s, s ∈ services (config raw) /\ clashes (held_grants (Merged.services m)) s).
Proof.
  intros [Hk _ _ _] Ha Hw. unfold Merged.merge. apply refused_bind. apply services_refused; [done|done|apply Hw|apply Hw].
Qed.
Lemma services_agreed svcs src held held' : NoDup (kinds_of held) -> agreed (held_grants held) -> Forall service_wf svcs ->
  fold_res (fun held svc => add_service held svc src) held svcs = Ok held' -> agreed (held_grants held').
Proof.
  revert held. induction svcs as [|s svcs IH]; intros held Hn Hh Hw Hf; cbn [fold_res] in Hf; [by injection Hf as <-|]. inversion_clear Hw as [|? ? Hs Hw'].
  destruct (add_service held s src) as [h1|] eqn:E; [|done]. apply (IH h1); [by eapply add_service_adds|by eapply add_service_agreed; [| |apply service_agreed|]|done|done].
Qed.

Section Layers.
Context `{!IpTextLaws, SyscallNames, Kdl}.

Lemma raw_wf l raw : raw_of l = Ok raw -> cfg_wf (config raw).
Proof.
  unfold raw_of, parse_profile. destruct (parse_doc (Layer.text l) true) as [[p ls]|] eqn:Hp; cbn; [|done]. intros [= <-].
  destruct (parse_doc_inv _ _ _ _ Hp) as (st & [Hc _ _ _ _ _ _] & _ & _ & _ & -> & _). by destruct Hc.
Qed.

Lemma layers_agreed ls m m' : minv m -> agreed (held_grants (Merged.services m)) -> merge_layers m ls = Ok m' ->
  minv m' /\ agreed (held_grants (Merged.services m')).
Proof.
  revert m. induction ls as [|l ls IH]; intros m Hi Ha Hm; [by injection Hm as <-|]. cbn [merge_layers fold_res] in Hm.
  destruct (raw_of l) as [raw|] eqn:Er; [|done]. cbn [mbind result_bind] in Hm. destruct (Merged.merge m raw (src_of l)) as [m1|] eqn:Em; [|done].
  destruct (merge_adds _ _ _ _ Hi Em) as [Hi1 _]. apply (IH m1 Hi1); [|done]. unfold Merged.merge in Em. inv_ok. cbn [Merged.services].
  eapply services_agreed; [apply Hi|exact Ha| |done]. by apply (c_services _ (raw_wf _ _ Er)).
Qed.

(** C24. A flattened profile is the layers added up.  When layers merge, every piece of a
    grant (a share and its mode, a bus rule, a portal, a device, a destination, the egress
    filter, a system call) is in the result exactly when a layer wrote it, so nothing is
    granted that no layer wrote and nothing a layer wrote is lost; every choice (the mode of
    a network, of Wayland, of X11, a variable, a limit, the command) is the last one a layer
    made on its topic; each kind of grant is there once; and the lines kept out of use are
    kept, layer by layer. *)
Theorem flattened_profile_adds_up ls acc : merge_layers Merged.default_ ls = Ok acc ->
  exists raws, Forall2 (fun l raw => parse_profile (Layer.text l) = Ok raw) ls raws /\
    (forall g, g ∈ all_grants acc <-> exists raw, raw ∈ raws /\ g ∈ raw_grants raw) /\
    (forall c, c ∈ all_choices acc <-> last_on (topic c) (concat (map raw_choices raws)) = Some c) /\
    NoDup (kinds_of (Merged.services acc)) /\
    map fst (Merged.disabled acc) = concat (map (fun raw => disabled (config raw)) raws).
Proof.
  intros Hm. destruct (merge_layers_adds _ _ _ default_minv Hm) as (raws & Hr & [Hk _ _ _] & Hg & Ho & Hd). exists raws. split.
  { eapply Forall2_impl; [exact Hr|]. intros l raw. unfold raw_of. destruct (parse_profile (Layer.text l)); [by intros [= ->]|done]. }
  split; [|split; [|by split]].
  - intros g. rewrite Hg, elem_concat. setoid_rewrite list_elem_of_fmap. cbn. rewrite elem_of_nil. naive_solver.
  - intros c. rewrite (Ho c). destruct (last_on (topic c) _) as [d|]; [naive_solver|]. cbn. rewrite elem_of_nil. naive_solver.
Qed.

(** C25. A layer is refused exactly when it contradicts the layers below it.  Over layers that
    merged, the next layer that parses fails to merge exactly when one of its grants cannot
    be held beside a grant below: a share of the same path or runtime in the other mode, a
    bus name under another policy, or a network without the egress filter over one that
    filters; and it fails with the conflict that names them. *)
Theorem layer_refused_iff_contrary ls acc l raw : merge_layers Merged.default_ ls = Ok acc -> raw_of l = Ok raw ->
  ((exists e, Merged.merge acc raw (src_of l) = Err e) <-> exists s, s ∈ services (config raw) /\ clashes (all_grants acc) s) /\
  forall e, Merged.merge acc raw (src_of l) = Err e -> exists n a b, e = Conflict n a b.
Proof.
  intros Hm Hr. destruct (layers_agreed _ _ _ default_minv ltac:(intros a b Ha; by apply elem_of_nil in Ha) Hm) as [Hi Ha].
  destruct (merge_refused acc raw (src_of l) Hi Ha (raw_wf _ _ Hr)) as [Hiff Hcon]. split; [|exact Hcon]. rewrite Hiff.
  assert (forall s, clashes (held_grants (Merged.services acc)) s <-> clashes (all_grants acc) s) as Hc; [|by setoid_rewrite Hc].
  intros s. unfold all_grants, clashes. setoid_rewrite elem_of_app.
  assert (forall g, g ∈ call_grants (Merged.seccomp acc) -> (forall b, ~ contrary g b) /\ g <> GDeny) as Hg.
  { intros g. unfold call_grants. rewrite !elem_of_app, elem_on, !list_elem_of_fmap. intros [(? & -> & _)|[(? & -> & _)|[_ ->]]]; (split; [by intros b []|done]). }
  split; [naive_solver|]. intros [(a & b & [Hin|Hin] & Hb & Hab)|[[Hin|Hin] Hop]].
  - left. by exists a, b.
  - by destruct (proj1 (Hg _ Hin) b).
  - by right.
  - by destruct (proj2 (Hg _ Hin)).
Qed.
End Layers.
End Clash.

(** A layer that filters, one that does not, and one that grants another thing. *)
Section Demo.
#[local] Existing Instance demo_text.
#[local] Existing Instance demo_text_laws.
#[local] Existing Instance walk_names.

#[local] Instance layer_kdl : Kdl :=
  {| kdl_parse t := if bool_decide (t = B "deny") then
         Ok (mkDocument [mkNode (B "network") 0 false [] (Some [mkNode (B "outbound") 0 false [mkEntry None (KString (B "deny")) false] None (Some [])]) (Some [])] None)
       else if bool_decide (t = B "open") then Ok (mkDocument [ProfileWalk.plain (B "network")] None)
       else if bool_decide (t = B "dri") then Ok (mkDocument [ProfileWalk.plain (B "dri")] None)
       else Err Syntax |}.

Definition demo_layer (text : bytes) : Layer.t := Layer.mk text Origin.User None text.

Lemma flattened_profile_adds_up_witness :
  exists acc (raws : list RawProfile), merge_layers Merged.default_ [demo_layer (B "deny"); demo_layer (B "dri")] = Ok acc /\
    map fst (Merged.services acc) = [Service.Network (mkNetwork Mode.Isolated [] [] false Outbound.Deny [] []); Service.Dri false] /\
    (GDeny ∈ all_grants acc <-> exists raw, raw ∈ raws /\ GDeny ∈ raw_grants raw).
Proof.
  assert (exists acc, merge_layers Merged.default_ [demo_layer (B "deny"); demo_layer (B "dri")] = Ok acc /\
    map fst (Merged.services acc) = [Service.Network (mkNetwork Mode.Isolated [] [] false Outbound.Deny [] []); Service.Dri false]) as (acc & Hm & Hs) by (eexists; split; vm_compute; reflexivity).
  destruct (flattened_profile_adds_up _ acc Hm) as (raws & _ & Hg & _). exists acc, raws. split; [exact Hm|]. split; [exact Hs|exact (Hg GDeny)].
Defined.

Lemma layer_refused_iff_contrary_witness :
  exists acc raw e n a b, merge_layers Merged.default_ [demo_layer (B "deny")] = Ok acc /\ raw_of (demo_layer (B "open")) = Ok raw /\
    Merged.merge acc raw (src_of (demo_layer (B "open"))) = Err e /\ e = Conflict n a b /\ exists s, s ∈ services (config raw) /\ clashes (all_grants acc) s.
Proof.
  assert (exists acc raw e, merge_layers Merged.default_ [demo_layer (B "deny")] = Ok acc /\ raw_of (demo_layer (B "open")) = Ok raw /\
    Merged.merge acc raw (src_of (demo_layer (B "open"))) = Err e) as (acc & raw & e & Hm & Hr & He) by (do 3 eexists; split; [vm_compute; reflexivity|]; split; [vm_compute; reflexivity|]; vm_compute; reflexivity).
  destruct (layer_refused_iff_contrary _ acc (demo_layer (B "open")) raw Hm Hr) as [Hiff Hcon]. destruct (Hcon e He) as (n & a & b & Hc).
  exists acc, raw, e, n, a, b. split; [exact Hm|]. split; [exact Hr|]. split; [exact He|]. split; [exact Hc|]. apply Hiff. exists e. exact He.
Defined.
End Demo.
