(* ===== verification/ProfileOrigins.v ===== *)
(** Which layer a node of a flattened profile is credited to: what each layer says, subject
    by subject, and the source the merge keeps for a subject. *)
From S2P Require Export ProfileSpec.

(** ** What a layer says *)

(** What a line of a profile is about: a grant by its kind, a variable, a finding, or one of
    the settings. *)
Inductive Subject :=
| SGrant (k : Kind) | SEnv (key : bytes) | SLint (id : bytes)
| SEtc | STmp | STty | SUserns | SSeccomp | SDesktop | SCommand.

Definition says (raw : RawProfile) (s : Subject) : bool :=
  match s with
  | SGrant k => bool_decide (k ∈ map kind_of (services (config raw)))
  | SEnv key => bool_decide (key ∈ map fst (env (config raw)))
  | SLint id => bool_decide (id ∈ map check_id (lint_allows (config raw)))
  | SEtc => etc_set raw
  | STmp => is_some (tmp (config raw))
  | STty => tty_set raw
  | SUserns => userns_set raw
  | SSeccomp => negb (bool_decide (seccomp (config raw) = default_seccomp))
  | SDesktop => is_some (desktop (config raw))
  | SCommand => is_some (command (config raw))
  end.

(** A grant without parts, or one a second layer adds nothing to: it stays the first's. *)
Definition first_keeps (s : Subject) : bool :=
  match s with SGrant (KNotify | KTray | KA11y | KInputMethod | KHidraw | KEtcFile _ | KRuntime _) => true | _ => false end.

(** ** Whose an item is *)

Definition whose {A} (p : A -> bool) (l : list (sourced A)) : option Src := option_map snd (List.find (fun x => p x.1) l).

Lemma whose_app {A} (p : A -> bool) l k : whose p (l ++ k) = match whose p l with Some s => Some s | None => whose p k end.
Proof. unfold whose. induction l as [|x l IH]; [done|]. cbn [app List.find]. by destruct (p x.1). Qed.

Lemma whose_none {A} (p : A -> bool) l : Forall (fun x => p x.1 = false) l -> whose p l = None.
Proof. unfold whose. induction 1 as [|x l Hx _ IH]; [done|]. cbn [List.find]. by rewrite Hx. Qed.

Lemma whose_insert {A} (p : A -> bool) l i a b : l !! i = Some a -> p a.1 = false -> p b.1 = false -> whose p (<[i := b]> l) = whose p l.
Proof.
  unfold whose. revert i. induction l as [|x l IH]; intros [|i] Hi Ha Hb; [done..|injection Hi as ->|]; cbn.
  - by rewrite Ha, Hb.
  - destruct (p x.1); [done|]. by apply (IH i).
Qed.

(** The place [slot] finds is that of the item whose source it is. *)
Lemma slot_whose {A C} (f : A -> option C) (p : A -> bool) l : (forall a, p a = is_some (f a)) ->
  match slot f l with
  | Some (i, _, s) => whose p l = Some s /\ forall b, p b.1 = true -> whose p (<[i := b]> l) = Some b.2
  | None => whose p l = None
  end.
Proof.
  intros Hp. unfold whose. induction l as [|[a s] l IH]; [done|]. cbn [slot]. destruct (f a) as [c|] eqn:Hf.
  - cbn. rewrite Hp, Hf. split; [done|]. intros b Hb. by rewrite Hb.
  - destruct (slot f l) as [[[i c] t]|]; cbn; rewrite Hp, Hf; [|done]. destruct IH as [Hw Hi]. split; [done|]. intros b Hb. by apply Hi.
Qed.

(** When keys are distinct it is the source of the item. *)
Lemma whose_key {A K} `{EqDecision K} (key : A -> K) l a src : NoDup (map (fun x => key x.1) l) -> (a, src) ∈ l ->
  whose (fun b => bool_decide (key b = key a)) l = Some src.
Proof.
  unfold whose. induction l as [|[b s] l IH]; [by intros _ ?%elem_of_nil|]. cbn [map fst]. intros [Hb Hn]%NoDup_cons Hin. cbn [List.find fst].
  case_bool_decide as Hk.
  - apply elem_of_cons in Hin as [[= <- <-]|Hin]; [done|]. exfalso. apply Hb. rewrite Hk. apply list_elem_of_fmap. by exists (a, src).
  - apply elem_of_cons in Hin as [[= <- <-]|Hin]; [done|]. by apply IH.
Qed.

(** ** What a merge does to it *)

Definition is_kind (k : Kind) (s : Service.t) : bool := bool_decide (kind_of s = k).

Lemma join_src `{IpText} h hs svc src j : kind_of h = kind_of svc -> join_grants h hs svc src = Ok j ->
  kind_of j.1 = kind_of svc /\ j.2 = if first_keeps (SGrant (kind_of svc)) then hs else src.
Proof.
  intros Hk Hj. rewrite <-Hk. destruct h, svc; try discriminate Hk; cbn [join_grants] in Hj; unfold agree, merge_network in Hj;
    repeat (inv_ok; case_match; try discriminate Hj); inv_ok; by split.
Qed.

(** What is kept of a source that was held, when a layer says something on the subject. *)
Definition takes (s : Subject) (held : option Src) (src : Src) : option Src := Some (if first_keeps s then default src held else src).

Lemma add_whose `{IpText} held svc src held' k : add_service held svc src = Ok held' ->
  whose (is_kind k) held' = if bool_decide (kind_of svc = k) then takes (SGrant k) (whose (is_kind k) held) src else whose (is_kind k) held.
Proof.
  rewrite add_service_kind. unfold add_by_kind, takes.
  pose proof (slot_whose (same_kind (kind_of svc)) (is_kind (kind_of svc)) held
    ltac:(intros a; unfold is_kind, same_kind; by case_bool_decide)) as Hw'.
  destruct (slot _ held) as [[[i c] hs]|] eqn:Hs.
  - destruct (slot_spec _ _ _ _ _ Hs) as (a & Ha & [-> Hka]%same_kind_spec). destruct Hw' as [Hw Hi]. intros Hj. inv_ok.
    destruct (join_src _ _ _ _ _ Hka E) as [Hk Hsrc]. case_bool_decide as Hd.
    + subst k. rewrite Hi by (unfold is_kind; by apply bool_decide_eq_true). rewrite Hw. cbn [default]. by rewrite Hsrc.
    + apply (whose_insert _ _ _ _ _ Ha); unfold is_kind; cbn; apply bool_decide_eq_false; congruence.
  - intros [= <-]. rewrite whose_app. unfold whose at 2. cbn [List.find fst]. unfold is_kind at 2. case_bool_decide as Hd.
    + subst k. rewrite Hw'. cbn [option_map snd default]. by destruct (first_keeps (SGrant (kind_of svc))).
    + cbn [option_map]. by destruct (whose (is_kind k) held).
Qed.

Lemma adds_whose `{IpText} svcs held src held' k : fold_res (fun held svc => add_service held svc src) held svcs = Ok held' ->
  whose (is_kind k) held' = if bool_decide (k ∈ map kind_of svcs) then takes (SGrant k) (whose (is_kind k) held) src else whose (is_kind k) held.
Proof.
  revert held. induction svcs as [|svc svcs IH]; intros held Hf; cbn [fold_res map] in *; [injection Hf as <-; by rewrite bool_decide_false by apply not_elem_of_nil|].
  destruct (add_service held svc src) as [h1|] eqn:E; [|done]. rewrite (IH _ Hf), (add_whose _ _ _ _ k E). unfold takes.
  destruct (decide (kind_of svc = k)) as [Hk|Hk]; [rewrite (bool_decide_true (kind_of svc = k)) by done|rewrite (bool_decide_false (kind_of svc = k)) by done].
  - rewrite (bool_decide_true (k ∈ kind_of svc :: map kind_of svcs)) by (rewrite Hk; by left). case_bool_decide; [|done]. cbn [default]. by destruct (first_keeps (SGrant k)).
  - destruct (decide (k ∈ map kind_of svcs)) as [Hi|Hi]; [rewrite !bool_decide_true by (done || by right)|rewrite !bool_decide_false]; [done|done| |done].
    by intros [->|?]%elem_of_cons.
Qed.

Lemma put_whose {A K} `{EqDecision K} (key : A -> K) src held a k :
  whose (fun b => bool_decide (key b = k)) (Merged.put key src held a) =
  if bool_decide (key a = k) then Some src else whose (fun b => bool_decide (key b = k)) held.
Proof.
  unfold Merged.put. pose proof (slot_whose (fun h => if bool_decide (key h = key a) then Some tt else None) (fun b => bool_decide (key b = key a)) held
    ltac:(intros b; cbn beta; destruct (decide (key b = key a)); by rewrite ?bool_decide_true, ?bool_decide_false by done)) as Hw'. destruct (slot _ held) as [[[i u] hs]|] eqn:Hs.
  - destruct Hw' as [_ Hi]. case_bool_decide as Hd.
    + subst k. by rewrite Hi by (by apply bool_decide_eq_true).
    + destruct (slot_spec _ _ _ _ _ Hs) as (b & Hb & Hbk). case_bool_decide as Hk; [|done].
      apply (whose_insert _ _ _ _ _ Hb); cbn; apply bool_decide_eq_false; congruence.
  - rewrite whose_app. unfold whose at 2. cbn [List.find fst]. case_bool_decide as Hd; [subst k; by rewrite Hw'|].
    cbn [option_map]. by destruct (whose (fun b => bool_decide (key b = k)) held).
Qed.

Lemma puts_whose {A K} `{EqDecision K} (key : A -> K) src l held k :
  whose (fun b => bool_decide (key b = k)) (fold_left (Merged.put key src) l held) =
  if bool_decide (k ∈ map key l) then Some src else whose (fun b => bool_decide (key b = k)) held.
Proof.
  revert held. induction l as [|a l IH]; intros held; cbn [fold_left map]; [by rewrite bool_decide_false by apply not_elem_of_nil|].
  rewrite IH, put_whose. destruct (decide (k ∈ map key l)) as [Hi|Hi].
  - by rewrite !bool_decide_true by (done || by right).
  - rewrite (bool_decide_false (k ∈ map key l)) by done. destruct (decide (key a = k)) as [Hk|Hk].
    + by rewrite !bool_decide_true by (done || (rewrite Hk; by left)).
    + rewrite !bool_decide_false; [done| |done]. by intros [->|?]%elem_of_cons.
Qed.

(** ** The source a subject has *)

Definition src_at (m : Merged.t) (s : Subject) : option Src :=
  match s with
  | SGrant k => whose (is_kind k) (Merged.services m)
  | SEnv key => whose (fun kv => bool_decide (kv.1 = key)) (Merged.env m)
  | SLint id => whose (fun a => bool_decide (check_id a = id)) (Merged.lint_allows m)
  | SEtc => option_map snd (Merged.etc m)
  | STmp => option_map snd (Merged.tmp m)
  | STty => option_map snd (Merged.tty m)
  | SUserns => option_map snd (Merged.userns m)
  | SSeccomp => Merged.seccomp_src m
  | SDesktop => option_map snd (Merged.desktop m)
  | SCommand => option_map snd (Merged.command m)
  end.

Lemma merge_src `{IpText} m raw src m' s : Merged.merge m raw src = Ok m' ->
  src_at m' s = if says raw s then takes s (src_at m s) src else src_at m s.
Proof.
  unfold Merged.merge. intros Hm. inv_ok.
  destruct s as [k|key|id| | | | | | | ]; cbn [src_at says Merged.services Merged.env Merged.lint_allows Merged.etc Merged.tmp Merged.tty Merged.userns
    Merged.seccomp_src Merged.desktop Merged.command].
  - by apply adds_whose.
  - apply puts_whose.
  - apply puts_whose.
  - by destruct (etc_set raw).
  - by destruct (tmp (config raw)).
  - by destruct (tty_set raw).
  - by destruct (userns_set raw).
  - by destruct (negb _).
  - by destruct (desktop (config raw)).
  - by destruct (command (config raw)).
Qed.

Section Layers.
Context `{IpText, SyscallNames, Kdl}.

Definition layer_says (s : Subject) (l : Layer.t) : bool := match raw_of l with Ok raw => says raw s | Err _ => false end.

(** The layer a subject is credited to: the last that says anything on it, or the first
    where a later one has nothing to add. *)
Definition credited (ls : list Layer.t) (s : Subject) : option Layer.t :=
  (if first_keeps s then head else last) (List.filter (layer_says s) ls).

(** The layer keeps this node behind a [/-]. *)
Definition layer_keeps (n : Node.t) (l : Layer.t) : Prop := exists raw d, raw_of l = Ok raw /\ d ∈ disabled (config raw) /\ Config.node d = n.

Lemma layers_src ls : forall m m' s, merge_layers m ls = Ok m' ->
  src_at m' s = if first_keeps s then match src_at m s with Some x => Some x | None => option_map src_of (credited ls s) end
                else match credited ls s with Some l => Some (src_of l) | None => src_at m s end.
Proof.
  unfold credited. induction ls as [|l ls IH]; intros m m' s Hm.
  { injection Hm as <-. destruct (first_keeps s); cbn; [by destruct (src_at m s)|done]. }
  cbn [merge_layers fold_res] in Hm. destruct (raw_of l) as [raw|] eqn:Er; [|done]. cbn [mbind result_bind] in Hm.
  destruct (Merged.merge m raw (src_of l)) as [m1|] eqn:Em; [|done]. pose proof (merge_src _ _ _ _ s Em) as Hs.
  rewrite (IH m1 m' s Hm), Hs. cbn [List.filter].
  assert (layer_says s l = says raw s) as -> by (unfold layer_says; by rewrite Er). unfold takes.
  destruct (says raw s); [|by destruct (first_keeps s)]. destruct (first_keeps s).
  - cbn. by destruct (src_at m s).
  - rewrite last_cons. by destruct (last (List.filter (layer_says s) ls)).
Qed.

Lemma layers_kept ls : forall m m' d src, merge_layers m ls = Ok m' -> (d, src) ∈ Merged.disabled m' ->
  (d, src) ∈ Merged.disabled m \/ exists l, l ∈ ls /\ layer_keeps (Config.node d) l /\ src = src_of l.
Proof.
  induction ls as [|l ls IH]; intros m m' d src Hm Hin; [injection Hm as <-; by left|].
  cbn [merge_layers fold_res] in Hm. destruct (raw_of l) as [raw|] eqn:Er; [|done]. cbn [mbind result_bind] in Hm.
  destruct (Merged.merge m raw (src_of l)) as [m1|] eqn:Em; [|done].
  destruct (IH m1 m' d src Hm Hin) as [Hin1|(l' & Hl & Hk & ->)]; [|right; exists l'; split; [by right|done]].
  unfold Merged.merge in Em. inv_ok. cbn [Merged.disabled] in Hin1. apply elem_of_app in Hin1 as [?|(d' & [= -> ->] & Hd)%list_elem_of_fmap]; [by left|].
  right. exists l. split; [by left|]. split; [by exists raw, d'|done].
Qed.
End Layers.
