(* ===== verification/ProfileText.v ===== *)
(** The text of a flattened profile: it is written in the order of [kdl_out::nodes], so it is
    the text of the configuration its layers come to. *)
From S2P Require Import NetworkSpec ConfigDocFacts.
From S2P Require Export ProfileOrigins.

(** ** The configuration the layers come to *)

Definition flat_base (m : Merged.t) : InstanceConfig :=
  mkInstance (map fst (Merged.services m)) [] (option_map fst (Merged.command m)) (map fst (Merged.env m))
    (default EtcMode.Allowlist (option_map fst (Merged.etc m))) (option_map fst (Merged.tmp m)) (default Pty (option_map fst (Merged.tty m)))
    (Merged.seccomp m) (default Userns.Allow (option_map fst (Merged.userns m))) (map fst (Merged.lint_allows m)) (option_map fst (Merged.desktop m)) [].

(** A kept line at the end of its section. *)
Definition at_end (m : Merged.t) (d : Disabled) : Disabled :=
  mkDisabled (Config.node d) (Counts.before (Counts.of_ (flat_base m)) (Config.node d)).

Definition flat_kept (m : Merged.t) : list Disabled :=
  map (at_end m) (sort_by_key (fun d => section_rank (Config.node d)) (map fst (Merged.disabled m))).

Definition flat_config (m : Merged.t) : InstanceConfig := with_disabled (flat_base m) (flat_kept m).

Lemma filter_insert {A} (key : A -> Z) r a l : List.filter (fun x => key x =? r) (insert_by key a l) = List.filter (fun x => key x =? r) (a :: l).
Proof.
  induction l as [|b l IH]; cbn [insert_by]; [done|]. destruct (key a <=? key b) eqn:E; [done|]. cbn [List.filter] in *. rewrite IH.
  destruct (key b =? r) eqn:Eb, (key a =? r) eqn:Ea; done || lia.
Qed.

Lemma filter_sort {A} (key : A -> Z) r l : List.filter (fun x => key x =? r) (sort_by_key key l) = List.filter (fun x => key x =? r) l.
Proof. induction l as [|a l IH]; [done|]. cbn [sort_by_key]. rewrite filter_insert. cbn [List.filter]. by rewrite IH. Qed.

Lemma filter_map_comm {A C} (f : A -> C) (P : C -> bool) l : List.filter P (map f l) = map f (List.filter (fun a => P (f a)) l).
Proof. induction l as [|a l IH]; [done|]. cbn [map List.filter]. rewrite IH. by destruct (P (f a)). Qed.

Section Text.
Context `{IpText}.

(** ** One section *)

(** The kept lines of a section, one under another. *)
Fixpoint kept_lines (l : list Disabled) : result ConfigError (list bytes) :=
  match l with
  | [] => Ok []
  | d :: l => n ← disabled_ d; rest ← kept_lines l; Ok (n :: rest)
  end.

Lemma kept_lines_nodes l l' : map Config.node l = map Config.node l' -> kept_lines l = kept_lines l'.
Proof.
  revert l'. induction l as [|d l IH]; intros [|d' l'] Hn; try discriminate Hn; [done|]. injection Hn as Hd Hn. cbn [kept_lines]. unfold disabled_. rewrite Hd. by rewrite (IH _ Hn).
Qed.

Lemma lines_of_offs es : ons_of es = [] -> lines_of es = kept_lines (offs_of es).
Proof.
  induction es as [|[x|i d] es IH]; intros Ho; [done|done|]. change (ons_of (KdlOut.Off i d :: es)) with (@ons_of bytes es) in Ho.
  change (offs_of (KdlOut.Off i d :: es)) with (d :: @offs_of bytes es). cbn [lines_of kept_lines]. by rewrite IH.
Qed.

Lemma lines_of_enabled en es : lines_of (map KdlOut.Enabled en ++ es) = (t ← lines_of es; Ok (en ++ t)).
Proof. induction en as [|x en IH]; cbn [map app lines_of]; [by destruct (lines_of es)|]. rewrite IH. by destruct (lines_of es). Qed.

Lemma no_entries {T} (es : list (Entry T)) : offs_of es = [] -> ons_of es = [] -> es = [].
Proof. destruct es as [|[x|i d] es]; [done|..]; cbn; done. Qed.

Lemma section_loop_end {T} is_ ds i (en : list T) : Forall (fun d => is_ (Config.node d) = true -> before d >= i + len en) ds ->
  section_loop (of_section is_ ds) i en = map KdlOut.Enabled en.
Proof.
  revert i. induction en as [|x en IH]; intros i Hd; [done|]. cbn [section_loop map].
  assert (@of_section T is_ ds (fun b => b =? i) = []) as ->.
  { destruct (@of_section_offs T is_ ds (fun b => b =? i)) as [Ho Hn]. apply no_entries; [|done]. rewrite Ho. unfold picked. clear IH Ho Hn.
    induction Hd as [|d ds Hd _ IHd]; [done|]. cbn [List.filter]. destruct (is_ (Config.node d)); cbn [andb]; [|exact IHd]. specialize (Hd eq_refl).
    rewrite len_cons in Hd. pose proof (len_nonneg en). replace (before d =? i) with false by lia. exact IHd. }
  cbn [app]. f_equal. apply IH. eapply Forall_impl; [exact Hd|]. intros d Hx Hi. specialize (Hx Hi). rewrite len_cons in Hx. lia.
Qed.

(** A section whose kept lines are all at its end. *)
Lemma section_end cfg r en : Forall (fun d => section_rank (Config.node d) = r -> before d = len en) (disabled cfg) ->
  section cfg r en = (ks ← kept_lines (List.filter (fun d => section_rank (Config.node d) =? r) (disabled cfg)); Ok (en ++ ks)).
Proof.
  intros Hd. unfold section.
  change (section_entries cfg ?f en) with (section_loop (of_section f (disabled cfg)) 0 en ++ of_section f (disabled cfg) (fun b => b >=? len en)).
  rewrite section_loop_end, lines_of_enabled.
  - destruct (@of_section_offs bytes (fun n => section_rank n =? r) (disabled cfg) (fun b => b >=? len en)) as [Ho Hn]. rewrite lines_of_offs, Ho by done. unfold picked.
    erewrite filter_ext_in; [done|]. intros d Hin. apply list_elem_of_In in Hin. rewrite Forall_forall in Hd. specialize (Hd d Hin). cbn beta.
    destruct (section_rank (Config.node d) =? r) eqn:E; [|done]. cbn [andb]. specialize (Hd ltac:(lia)). lia.
  - eapply Forall_impl; [exact Hd|]. cbn beta. intros d Hx Hr. specialize (Hx ltac:(lia)). lia.
Qed.

Lemma kept_as_lines es r name : match Profile.kept es r name with Ok k => kept_lines (List.filter (fun d => section_rank (Config.node d) =? r) (map fst es)) = Ok (map fst k)
                                | Err e => exists source, e = Parse (B "flattened profile `" ++ name ++ B "`") source /\
                                    kept_lines (List.filter (fun d => section_rank (Config.node d) =? r) (map fst es)) = Err source end.
Proof.
  unfold Profile.kept. rewrite filter_map_comm. set (l := List.filter (fun e => section_rank (Config.node e.1) =? r) es). clearbody l.
  assert (forall out, match fold_res (fun out e => match disabled_ e.1 with Ok n => Ok (out ++ [(n, e.2)]) | Err source => Err (Parse (B "flattened profile `" ++ name ++ B "`") source) end) out l with
    | Ok k => exists k', kept_lines (map fst l) = Ok (map fst k') /\ k = out ++ k'
    | Err e => exists source, e = Parse (B "flattened profile `" ++ name ++ B "`") source /\ kept_lines (map fst l) = Err source end) as Hg.
  { induction l as [|[d s] l IH]; intros out; [exists []; by rewrite app_nil_r|]. cbn [fold_res map fst snd kept_lines]. destruct (disabled_ d) as [n|e]; [|by exists e]. cbn [mbind result_bind].
    specialize (IH (out ++ [(n, s)])). destruct (fold_res _ _ l) as [k|e].
    - destruct IH as (k' & -> & ->). exists ((n, s) :: k'). split; [done|]. by rewrite <-app_assoc.
    - destruct IH as (source & -> & ->). by exists source. }
  specialize (Hg []). destruct (fold_res _ [] l) as [k|e]; [|done]. by destruct Hg as (k' & -> & ->).
Qed.

(** ** The whole text *)

Lemma flat_section m r en name k : (forall n, section_rank n = r -> Counts.before (Counts.of_ (flat_base m)) n = len en) ->
  Profile.kept (Merged.disabled m) r name = Ok k -> section (flat_config m) r en = Ok (en ++ map fst k).
Proof.
  intros Hc Hk. pose proof (kept_as_lines (Merged.disabled m) r name) as Hl. rewrite Hk in Hl.
  rewrite section_end.
  - change (disabled (flat_config m)) with (flat_kept m).
    assert (kept_lines (List.filter (fun d => section_rank (Config.node d) =? r) (flat_kept m)) = Ok (map fst k)) as ->; [|done]. rewrite <-Hl. apply kept_lines_nodes.
    unfold flat_kept. rewrite filter_map_comm, map_map. cbn [at_end Config.node]. by rewrite (filter_sort (fun d => section_rank (Config.node d))).
  - change (disabled (flat_config m)) with (flat_kept m). unfold flat_kept. apply Forall_map, Forall_forall. intros d _ Hr. cbn [at_end before Config.node] in *. by apply Hc.
Qed.

Lemma flat_services (l : list (sourced Service.t)) name out svcs :
  fold_res (fun out s => n ← match service s.1 with Ok a => Ok a | Err source => Err (Parse (B "flattened profile `" ++ name ++ B "`") source) end; Ok (out ++ [(n, s.2)])) out l = Ok svcs ->
  exists new, svcs = out ++ new /\ services_ (map fst l) = Ok (map fst new).
Proof.
  revert out. induction l as [|[s src] l IH]; intros out Hf; cbn [fold_res map fst snd services_] in *; [injection Hf as <-; exists []; by rewrite app_nil_r|].
  destruct (service s) as [n|]; [|done]. cbn [mbind result_bind] in *. destruct (IH _ Hf) as (new & -> & ->). exists ((n, src) :: new). by rewrite <-app_assoc.
Qed.

Lemma said_when {A} `{EqDecision A} (write : A -> bytes) (d : A) (o : option (sourced A)) :
  map fst (said write (fun a => bool_decide (a = d)) o) = when (negb (bool_decide (default d (option_map fst o) = d))) (write (default d (option_map fst o))).
Proof. unfold said. destruct o as [[a s]|]; cbn; [by case_bool_decide|]. by rewrite bool_decide_true. Qed.

Lemma said_option {A} (write : A -> bytes) (o : option (sourced A)) :
  map fst (said write (fun _ => false) o) = match option_map fst o with Some a => [write a] | None => [] end.
Proof. by destruct o as [[a s]|]. Qed.

Lemma services_len l t : services_ l = Ok t -> len t = len l.
Proof.
  revert t. induction l as [|s l IH]; intros t Hs; cbn [services_] in Hs; [by injection Hs as <-|]. inv_ok. rewrite !len_cons. by rewrite (IH _ E0).
Qed.

Lemma flat_nodes `{!IpTextLaws} m name os : (Merged.seccomp_src m = None -> Merged.seccomp m = default_seccomp) ->
  flat_origins m name = Ok os -> nodes (flat_config m) = Ok (map fst os).
Proof.
  intros Hsec Hf. unfold flat_origins in Hf. inv_ok.
  destruct (flat_services _ _ _ _ E0) as (new & -> & Hsv). cbn [app] in *.
  assert (command_lines (flat_config m) = Ok (map fst r9)) as Hcmd.
  { unfold command_lines. change (command (flat_config m)) with (option_map fst (Merged.command m)).
    destruct (Merged.command m) as [[argv src]|]; cbn [option_map fst] in *; [|by injection E9 as <-]. unfold mbind, result_bind in *. destruct (command_ argv); [|done]. by injection E9 as <-. }
  assert (Hsec' : map fst (match Merged.seccomp_src m with
      | Some src => if bool_decide (Merged.seccomp m = default_seccomp) then [] else [(seccomp_ (Merged.seccomp m), src)]
      | None => []
      end) = when (negb (bool_decide (Merged.seccomp m = default_seccomp))) (seccomp_ (Merged.seccomp m))).
  { destruct (Merged.seccomp_src m) eqn:Es; [by case_bool_decide|]. by rewrite bool_decide_true by (by apply Hsec). }
  apply nodes_parts. eexists _, _, (map (fun p => p.1.2 ++ map fst p.2) (zip (parts (flat_config m) (map fst new) (map fst r9)) [r; r1; r2; r3; r4; r5; r6; r7; r8; r10])).
  split; [exact Hsv|]. split; [exact Hcmd|]. split.
  - unfold parts. cbn [zip zip_with map fst snd].
    repeat (apply List.Forall2_cons; [cbn [fst snd]; eapply flat_section; [|eassumption]; intros n Hr; destruct n; try discriminate Hr; cbn; rewrite ?len_map|]);
      [..|apply List.Forall2_nil]; try done.
    all: try (by rewrite <-(len_map fst new), (services_len _ _ Hsv), len_map).
    all: try (by match goal with |- context [negb (@bool_decide ?P ?D)] => destruct (@bool_decide P D) end).
    all: try (by destruct (option_map fst _)).
    rewrite <-(len_map fst r9). unfold command_lines in Hcmd. change (command (flat_config m)) with (option_map fst (Merged.command m)) in Hcmd.
    destruct (option_map fst (Merged.command m)) as [words|]; [|by injection Hcmd as <-].
    destruct (command_ words); [|done]. by injection Hcmd as <-.
  - unfold parts. cbn [zip zip_with map fst snd concat]. rewrite !map_app, !map_map, !said_when, !said_option, Hsec', <-!app_assoc. cbn [fst snd app]. rewrite app_nil_r.
    change (lint_allows (flat_config m)) with (map fst (Merged.lint_allows m)). change (env (flat_config m)) with (map fst (Merged.env m)). by rewrite !map_map.
Qed.

(** ** The lines of it, and whose they are *)

(** A section of the lines: its nodes, and under them what is kept. *)
Lemma flat_section_lines m r (ns : list Node.t) : (forall n, section_rank n = r -> Counts.before (Counts.of_ (flat_base m)) n = len ns) ->
  section_lines (flat_config m) (r, ns) =
  map (pair false) ns ++ map (fun e => (true, Config.node e.1)) (List.filter (fun e => section_rank (Config.node e.1) =? r) (Merged.disabled m)).
Proof.
  intros Hc. unfold section_lines. cbn [fst snd]. set (f := fun n => section_rank n =? r).
  assert (Forall (fun d => f (Config.node d) = true -> before d = len ns) (flat_kept m)) as Hd.
  { unfold flat_kept. apply Forall_map, Forall_forall. intros d _ Hr. cbn [at_end before Config.node] in *. apply Hc. unfold f in Hr. lia. }
  change (section_entries (flat_config m) f ns) with (section_loop (of_section f (flat_kept m)) 0 ns ++ of_section f (flat_kept m) (fun b => b >=? len ns)).
  rewrite section_loop_end, map_app, map_map.
  - f_equal. destruct (@of_section_offs Node.t f (flat_kept m) (fun b => b >=? len ns)) as [Ho Hn].
    assert (forall es : list (Entry Node.t), ons_of es = [] -> map entry_line es = map (fun d => (true, Config.node d)) (offs_of es)) as Hes.
    { induction es as [|[x|i d] es IH]; intros He; [done|done|]. change (offs_of (KdlOut.Off i d :: es)) with (d :: @offs_of Node.t es). cbn [map entry_line].
      f_equal. by apply IH. }
    rewrite Hes, Ho by done. unfold picked.
    erewrite (filter_ext_in _ (fun d => section_rank (Config.node d) =? r)).
    + unfold flat_kept. rewrite filter_map_comm, map_map. cbn [at_end Config.node]. rewrite (filter_sort (fun d => section_rank (Config.node d))).
      rewrite filter_map_comm, map_map. done.
    + intros d Hin. apply list_elem_of_In in Hin. rewrite Forall_forall in Hd. specialize (Hd d Hin). fold (f (Config.node d)).
      destruct (f (Config.node d)); [|done]. specialize (Hd eq_refl). cbn [andb]. lia.
  - eapply Forall_impl; [exact Hd|]. intros d Hx Hr. rewrite (Hx Hr). lia.
Qed.

(** A line as it is written. *)
Definition written (x : bool * Node.t) : result ConfigError bytes :=
  t ← node x.2; Ok (if x.1 then B "/-" ++ t else t).

(** What a line that is not kept is about. *)
Definition subject (n : Node.t) : option Subject :=
  match n with
  | Node.Service s => Some (SGrant (kind_of s))
  | Node.Env [kv] => Some (SEnv kv.1)
  | Node.LintAllow [a] => Some (SLint (check_id a))
  | Node.Etc _ => Some SEtc
  | Node.Tmp _ => Some STmp
  | Node.Tty _ => Some STty
  | Node.Userns _ => Some SUserns
  | Node.Seccomp _ => Some SSeccomp
  | Node.Desktop _ => Some SDesktop
  | Node.Command _ => Some SCommand
  | _ => None
  end.

(** The source a line has among what was merged. *)
Definition sourced_line (m : Merged.t) (x : bool * Node.t) (src : Src) : Prop :=
  if x.1 then exists d, (d, src) ∈ Merged.disabled m /\ Config.node d = x.2
  else exists s, subject x.2 = Some s /\ src_at m s = Some src.

Definition line_from (m : Merged.t) (x : bool * Node.t) (o : sourced bytes) : Prop := written x = Ok o.1 /\ sourced_line m x o.2.

Lemma kept_from m r name k : Profile.kept (Merged.disabled m) r name = Ok k ->
  Forall2 (line_from m) (map (fun e => (true, Config.node e.1)) (List.filter (fun e => section_rank (Config.node e.1) =? r) (Merged.disabled m))) k.
Proof.
  unfold Profile.kept. set (l := List.filter _ _).
  assert (Forall (fun e => e ∈ Merged.disabled m) l) as Hl by (apply Forall_forall; intros e [He _]%list_elem_of_In%filter_In; by apply list_elem_of_In).
  clearbody l.
  assert (forall out, fold_res (fun out e => match disabled_ e.1 with Ok n => Ok (out ++ [(n, e.2)]) | Err source => Err (Parse (B "flattened profile `" ++ name ++ B "`") source) end) out l = Ok k ->
    exists new, k = out ++ new /\ Forall2 (line_from m) (map (fun e => (true, Config.node e.1)) l) new) as Hg.
  { induction Hl as [|[d s] l Hd _ IH]; intros out Hf; cbn [fold_res fst snd] in Hf; [injection Hf as <-; exists []; rewrite app_nil_r; by split; [|constructor]|].
    destruct (disabled_ d) as [n|] eqn:En; [|done]. destruct (IH _ Hf) as (new & -> & Hn). exists ((n, s) :: new). split; [by rewrite <-app_assoc|].
    cbn [map fst]. constructor; [|done]. split; [exact En|]. by exists d. }
  intros Hf. by destruct (Hg [] Hf) as (new & -> & Hn).
Qed.

Lemma services_from m name svcs : NoDup (kinds_of (Merged.services m)) ->
  fold_res (fun out s => n ← match service s.1 with Ok a => Ok a | Err source => Err (Parse (B "flattened profile `" ++ name ++ B "`") source) end; Ok (out ++ [(n, s.2)])) [] (Merged.services m) = Ok svcs ->
  Forall2 (line_from m) (map (pair false) (map Node.Service (map fst (Merged.services m)))) svcs.
Proof.
  intros Hn. assert (Forall (fun s => src_at m (SGrant (kind_of s.1)) = Some s.2) (Merged.services m)) as Hl.
  { apply Forall_forall. intros [s src] Hin. cbn [src_at fst snd]. apply (whose_key kind_of); [|done]. unfold kinds_of in Hn. by rewrite map_map in Hn. }
  clear Hn. revert Hl. generalize (Merged.services m). intros l Hl.
  assert (forall out, fold_res (fun out s => n ← match service s.1 with Ok a => Ok a | Err source => Err (Parse (B "flattened profile `" ++ name ++ B "`") source) end; Ok (out ++ [(n, s.2)])) out l = Ok svcs ->
    exists new, svcs = out ++ new /\ Forall2 (line_from m) (map (pair false) (map Node.Service (map fst l))) new) as Hg.
  { induction Hl as [|[s src] l Hs _ IH]; intros out Hf; cbn [fold_res fst snd] in *; [injection Hf as <-; exists []; rewrite app_nil_r; by split; [|constructor]|].
    destruct (service s) as [n|] eqn:En; [|done]. cbn [mbind result_bind] in Hf. destruct (IH _ Hf) as (new & -> & Hn). exists ((n, src) :: new).
    split; [by rewrite <-app_assoc|]. cbn [map fst]. constructor; [|done]. split; [unfold written; cbn; by rewrite En|].
    exists (SGrant (kind_of s)). by split. }
  intros Hf. destruct (Hg [] Hf) as (new & -> & Hn). exact Hn.
Qed.

(** Items that cannot fail to be written. *)
Lemma items_from {A} m (f : A -> Node.t) (write : A -> bytes) (s : A -> Subject) (l : list (sourced A)) :
  (forall a, node (f a) = Ok (write a) /\ subject (f a) = Some (s a)) -> Forall (fun a => src_at m (s a.1) = Some a.2) l ->
  Forall2 (line_from m) (map (pair false) (map f (map fst l))) (map (fun a => (write a.1, a.2)) l).
Proof.
  intros Hf Hl. induction Hl as [|[a src] l Ha _ IH]; [constructor|]. cbn [map fst snd]. destruct (Hf a) as [Hn Hs]. constructor; [|exact IH].
  split; [unfold written; cbn; by rewrite Hn|]. by exists (s a).
Qed.

Lemma option_from {A} `{EqDecision A} m (f : A -> Node.t) (write : A -> bytes) (s : Subject) (d : A) (o : option (sourced A)) :
  (forall a, node (f a) = Ok (write a) /\ subject (f a) = Some s) -> src_at m s = option_map snd o ->
  Forall2 (line_from m) (map (pair false) (when (negb (bool_decide (default d (option_map fst o) = d))) (f (default d (option_map fst o)))))
    (said write (fun a => bool_decide (a = d)) o).
Proof.
  intros Hf Hs. destruct o as [[a src]|]; cbn in *; [|by rewrite bool_decide_true]. case_bool_decide; constructor; [|constructor].
  destruct (Hf a) as [Hn Ha]. split; [unfold written; cbn; by rewrite Hn|]. by exists s.
Qed.

Lemma plain_from {A} m (f : A -> Node.t) (write : A -> bytes) (s : Subject) (o : option (sourced A)) :
  (forall a, node (f a) = Ok (write a) /\ subject (f a) = Some s) -> src_at m s = option_map snd o ->
  Forall2 (line_from m) (map (pair false) (match option_map fst o with Some a => [f a] | None => [] end)) (said write (fun _ => false) o).
Proof.
  intros Hf Hs. destruct o as [[a src]|]; cbn in *; constructor; [|constructor].
  destruct (Hf a) as [Hn Ha]. split; [unfold written; cbn; by rewrite Hn|]. by exists s.
Qed.

(** Each line of the configuration is written as the node that is listed, and has the
    source that was merged for it. *)
Lemma flat_from m name os : minv m -> flat_origins m name = Ok os -> Forall2 (line_from m) (config_lines (flat_config m)) os.
Proof.
  intros [Hk He Hl Hsec] Hf. unfold flat_origins in Hf. inv_ok. pose proof (services_from _ _ _ Hk E0) as Hsv.
  unfold config_lines, node_parts. cbn [map concat]. rewrite app_nil_r.
  rewrite !flat_section_lines by (intros n Hr; destruct n; try discriminate Hr; cbn; rewrite ?len_map;
    repeat match goal with |- context [negb (@bool_decide ?P ?D)] => destruct (@bool_decide P D) | |- context [option_map fst ?o] => destruct (option_map fst o) end; done).
  rewrite <-!app_assoc.
  repeat first [apply Forall2_app; [|try (eapply kept_from; eassumption)] | eapply kept_from; eassumption].
  - apply (items_from m (fun a => Node.LintAllow [a]) lint_allow (fun a => SLint (check_id a))); [done|].
    apply Forall_forall. intros [b src] Hin. by apply (whose_key check_id).
  - exact Hsv.
  - apply (items_from m (fun kv => Node.Env [kv]) env_ (fun kv => SEnv kv.1)).
    + intros [k v]. split; [cbn; by rewrite app_nil_r|done].
    + apply Forall_forall. intros [b src] Hin. by apply (whose_key fst).
  - by apply (option_from m Node.Etc etc_ SEtc).
  - by apply (plain_from m Node.Tmp tmp_ STmp).
  - by apply (option_from m Node.Tty tty_ STty).
  - by apply (option_from m Node.Userns userns_ SUserns).
  - change (seccomp (flat_config m)) with (Merged.seccomp m). destruct (Merged.seccomp_src m) as [src|] eqn:Es.
    + case_bool_decide; constructor; [|constructor]. split; [done|]. by exists SSeccomp.
    + by rewrite bool_decide_true by (by apply Hsec).
  - by apply (plain_from m Node.Desktop desktop_ SDesktop).
  - change (command (flat_config m)) with (option_map fst (Merged.command m)).
    destruct (Merged.command m) as [[argv src]|] eqn:Ec; cbn [option_map fst]; [|injection E9 as <-; constructor].
    destruct (command_ argv) as [n|] eqn:En; [|done]. injection E9 as <-. constructor; [|constructor].
    split; [unfold written; cbn; by rewrite En|]. exists SCommand. cbn. by rewrite Ec.
Qed.

End Text.

(** ** What the layers come to is well formed *)

Section Wf.
Context `{IpText, !IpTextLaws, SyscallNames, Kdl}.

(** The parts of a grant, less what its rules and its children must agree on. *)
Definition parts_wf_of (s : Service.t) : Prop :=
  match s with
  | Service.Network cfg => network_wf cfg
  | Service.Dbus rules => Forall rule_wf rules
  | Service.SystemBus rules => Forall rule_wf rules /\ rules <> [] /\ forall n, BusRule.Own n ∉ rules
  | _ => service_wf s
  end.

Lemma service_parts s : service_wf s -> parts_wf_of s.
Proof. destruct s; try done; cbn; [by intros []|by intros []|intros ([] & ? & ?)]; by split. Qed.

Lemma push_nodup {A} `{EqDecision A} (l : list A) a : NoDup l -> NoDup (push_new l a).
Proof. intros Hl. unfold push_new. case_bool_decide; [done|]. apply NoDup_app. split; [done|]. split; [by intros x Hx ->%list_elem_of_singleton|apply NoDup_singleton]. Qed.

Lemma union_nodup {A} `{EqDecision A} (l k : list A) : NoDup l -> NoDup (Profile.union l k).
Proof. unfold Profile.union. revert l. induction k as [|a k IH]; intros l Hl; cbn [fold_left]; [done|]. by apply IH, push_nodup. Qed.

Lemma union_forall {A} `{EqDecision A} (P : A -> Prop) (l k : list A) : Forall P l -> Forall P k -> Forall P (Profile.union l k).
Proof. rewrite !Forall_forall. intros Hl Hk x [?|?]%elem_union; auto. Qed.

Lemma rules_forall (P : BusRule.t -> Prop) node held hs rs src rs' : union_bus_rules node held hs rs src = Ok rs' ->
  Forall P held -> Forall P rs -> Forall P rs'.
Proof. rewrite !Forall_forall. intros Hu Hh Hr x [?|?]%(union_rules_elem _ _ _ _ _ _ Hu); auto. Qed.

Lemma join_parts h hs svc src j : kind_of h = kind_of svc -> parts_wf_of h -> parts_wf_of svc -> join_grants h hs svc src = Ok j -> parts_wf_of j.1.
Proof.
  intros Hk Hh Hs Hj. destruct h, svc; try discriminate Hk; cbn [join_grants] in Hj; unfold agree, merge_network in Hj; repeat (inv_ok; case_match; try discriminate Hj); inv_ok; cbn [fst parts_wf_of] in *; try done.
  - destruct Hh as [? ? ? ?], Hs as [? ? ? ?]. split; cbn; by apply union_forall.
  - by eapply rules_forall.
  - destruct Hh as (Hh & Hn & Ho), Hs as (Hs & _ & Hso). split; [by eapply rules_forall|]. split.
    + destruct rules as [|rule ?]; [done|]. assert (rule ∈ r) as Hin by (apply (union_rules_elem _ _ _ _ _ _ E); left; by left). intros ->. by apply elem_of_nil in Hin.
    + intros n [Hin|Hin]%(union_rules_elem _ _ _ _ _ _ E); [by apply (Ho n)|by apply (Hso n)].
  - by apply union_nodup.
Qed.

Record flat_wf (m : Merged.t) : Prop := {
  f_services : Forall (fun s => parts_wf_of s.1) (Merged.services m);
  f_env : Forall (fun e => pair_wf e.1) (Merged.env m);
  f_lints : Forall (fun a => allow_wf a.1) (Merged.lint_allows m);
  f_tmp : option_wf size_wf (option_map fst (Merged.tmp m));
  f_seccomp : seccomp_wf (Merged.seccomp m);
  f_desktop : option_wf desktop_wf (option_map fst (Merged.desktop m));
  f_command : option_wf argv_wf (option_map fst (Merged.command m));
  f_kept : Forall (fun d => node_wf (Config.node d.1)) (Merged.disabled m) }.

Lemma default_flat : flat_wf Merged.default_.
Proof. split; cbn; try done; by constructor. Qed.

Lemma services_parts svcs src held held' : Forall service_wf svcs -> Forall (fun s => parts_wf_of s.1) held ->
  fold_res (fun held svc => add_service held svc src) held svcs = Ok held' -> Forall (fun s => parts_wf_of s.1) held'.
Proof.
  revert held. induction svcs as [|s svcs IH]; intros held Hw Hh Hf; cbn [fold_res] in Hf; [by injection Hf as <-|]. inversion_clear Hw as [|? ? Hs Hw'].
  destruct (add_service held s src) as [h1|] eqn:E; [|done]. apply (IH h1); [done| |done]. clear IH Hf. rewrite add_service_kind in E. unfold add_by_kind in E.
  apply service_parts in Hs. destruct (slot _ held) as [[[i h] hs]|] eqn:Hsl.
  - destruct (slot_spec _ _ _ _ _ Hsl) as (a & Ha & [-> Hk]%same_kind_spec). inv_ok. apply Forall_insert; [done|]. eapply join_parts; [exact Hk| |exact Hs|done].
    rewrite Forall_forall in Hh. apply (Hh (a, hs)). by eapply list_elem_of_lookup_2.
  - inv_ok. apply Forall_app. split; [done|]. by constructor.
Qed.

Lemma puts_forall {A K} `{EqDecision K} (P : A -> Prop) (key : A -> K) src l held : Forall P l -> Forall (fun a => P a.1) held ->
  Forall (fun a => P a.1) (fold_left (Merged.put key src) l held).
Proof.
  intros Hl. revert held. induction Hl as [|a l Ha _ IH]; intros held Hh; cbn [fold_left]; [done|]. apply IH. unfold Merged.put.
  destruct (slot _ held) as [[[i u] hs]|]; [by apply Forall_insert|]. apply Forall_app. split; [done|]. by constructor.
Qed.

Lemma decide_wf {A} (P : A -> Prop) src set (held : option (sourced A)) : option_wf P set -> option_wf P (option_map fst held) ->
  option_wf P (option_map fst (Merged.decide_ src set held)).
Proof. by destruct set. Qed.

Lemma merge_flat m raw src m' : flat_wf m -> cfg_wf (config raw) -> Forall (fun d => node_wf (Config.node d)) (disabled (config raw)) ->
  Merged.merge m raw src = Ok m' -> flat_wf m'.
Proof.
  intros [Hs He Hl Ht Hc Hd Ha Hk] [Ws _ [We _] [Wl _] Wt Wc Wd Wa _] Wk. unfold Merged.merge. intros Hm. inv_ok.
  split; cbn [Merged.services Merged.env Merged.lint_allows Merged.tmp Merged.seccomp Merged.desktop Merged.command Merged.disabled].
  - by eapply services_parts.
  - by apply puts_forall.
  - by apply puts_forall.
  - by apply decide_wf.
  - case_match; [|done]. destruct Hc, Wc. split; cbn; by apply union_forall.
  - by apply decide_wf.
  - by apply decide_wf.
  - apply Forall_app. split; [done|]. by apply Forall_map.
Qed.

Lemma raw_kept l raw : raw_of l = Ok raw -> Forall (fun d => node_wf (Config.node d)) (disabled (config raw)).
Proof.
  unfold raw_of, parse_profile. destruct (parse_doc (Layer.text l) true) as [[p ls]|] eqn:Hp; cbn; [|done]. intros [= <-].
  destruct (parse_doc_inv _ _ _ _ Hp) as (st & [_ _ _ _ _ Hk _] & _ & _ & _ & -> & _). cbn [disabled with_disabled].
  rewrite sort_perm. eapply Forall_impl; [exact Hk|]. by intros d [? _].
Qed.

Lemma layers_flat ls m m' : flat_wf m -> merge_layers m ls = Ok m' -> flat_wf m'.
Proof.
  revert m. induction ls as [|l ls IH]; intros m Hw Hm; [by injection Hm as <-|]. cbn [merge_layers fold_res] in Hm.
  destruct (raw_of l) as [raw|] eqn:Er; [|done]. cbn [mbind result_bind] in Hm. destruct (Merged.merge m raw (src_of l)) as [m1|] eqn:Em; [|done].
  apply (IH m1); [|done]. exact (merge_flat _ _ _ _ Hw (raw_wf _ _ Er) (raw_kept _ _ Er) Em).
Qed.

(** ** The configuration the layers come to *)

Lemma twice_kind held svc : Same.twice svc held = true -> kind_of held = kind_of svc.
Proof. destruct svc, held; cbn; intros Ht; bool_to_prop; subst; try done; congruence. Qed.

Lemma kinds_once l : NoDup (map kind_of l) -> ForallOrdPairs (fun held svc => Same.twice svc held = false) l.
Proof.
  induction l as [|s l IH]; cbn [map]; intros Hn; [constructor|]. apply NoDup_cons in Hn as [Hs Hn]. constructor; [|by apply IH].
  apply Forall_forall. intros s' Hs'. apply not_true_iff_false. intros Ht%twice_kind. apply Hs. apply list_elem_of_fmap. by exists s'.
Qed.

Definition networks_meant (cfg : InstanceConfig) : Prop := forall n, Service.Network n ∈ services cfg -> network_meant n.

Lemma agreed_policy system (rules : list BusRule.t) (held : list Grant) : agreed held -> (forall r, r ∈ rules -> GRule system r ∈ held) ->
  forall r1 r2 name l1 l2, r1 ∈ rules -> r2 ∈ rules -> BusRule.policy r1 = Some (name, l1) -> BusRule.policy r2 = Some (name, l2) -> l1 = l2.
Proof.
  intros Ha Hin r1 r2 name l1 l2 H1' H2' Hp1 Hp2. destruct (decide (l1 = l2)) as [|Hne]; [done|]. destruct (Ha (GRule system r1) (GRule system r2)); [by apply Hin..|].
  split; [done|]. by exists name, l1, l2.
Qed.

Lemma flat_services_wf m : agreed (held_grants (Merged.services m)) -> flat_wf m -> networks_meant (flat_config m) -> Forall service_wf (services (flat_config m)).
Proof.
  intros Ha Hw Hn. change (services (flat_config m)) with (map fst (Merged.services m)) in *. apply Forall_map, Forall_forall. intros [s src] Hin.
  pose proof (f_services _ Hw) as Hp. rewrite Forall_forall in Hp. specialize (Hp _ Hin). cbn [fst] in *.
  assert (forall g, g ∈ grants s -> g ∈ held_grants (Merged.services m)) as Hg by (intros g Hgs; apply held_grants_elem; by exists s, src).
  destruct s as [| |cfg| | | | | | |rules|rules| | | | | | | | | |]; try done; cbn [parts_wf_of service_wf] in *.
  - split; [done|]. apply Hn. apply list_elem_of_fmap. by exists (Service.Network cfg, src).
  - split; [done|]. apply (agreed_policy false rules _ Ha). intros r Hr. apply Hg. cbn. right. apply list_elem_of_fmap. by exists r.
  - destruct Hp as (Hp & Hne & Ho). split; [|done]. split; [done|]. apply (agreed_policy true rules _ Ha). intros r Hr. apply Hg. cbn. right. apply list_elem_of_fmap. by exists r.
Qed.

Lemma flat_config_wf m : minv m -> agreed (held_grants (Merged.services m)) -> flat_wf m -> networks_meant (flat_config m) -> cfg_wf (flat_config m).
Proof.
  intros [Hk He Hl _] Ha Hw Hn. split.
  - by apply flat_services_wf.
  - by apply kinds_once.
  - split; [apply Forall_map, Hw|]. cbn. rewrite map_map. exact He.
  - split; [apply Forall_map, Hw|]. cbn. rewrite map_map. exact Hl.
  - apply Hw.
  - apply Hw.
  - apply Hw.
  - apply Hw.
  - done.
Qed.

Lemma flat_kept_wf m : flat_wf m -> Forall (kept_wf (flat_config m)) (flat_kept m).
Proof.
  intros Hw. unfold flat_kept. rewrite Forall_map, sort_perm, Forall_map. eapply Forall_impl; [exact (f_kept _ Hw)|]. intros d Hd.
  split; [exact Hd|]. split; [apply places_nonneg|done].
Qed.

Lemma flat_kept_order m : ForallOrdPairs kept_order (flat_kept m).
Proof.
  assert (forall l, ForallOrdPairs (fun b c => section_rank (Config.node b) = section_rank (Config.node c) -> True) l) as Ht by (induction l; constructor; [by apply Forall_forall|done]).
  pose proof (sort_ordered (fun d => section_rank (Config.node d)) (fun _ _ => True) (map fst (Merged.disabled m)) ltac:(done) (Ht _)) as Hs. unfold flat_kept.
  induction Hs as [|a l Ha _ IH]; cbn [map]; constructor; [|done]. apply Forall_map. eapply Forall_impl; [exact Ha|]. intros d [Hd _].
  unfold kept_order. cbn [at_end Config.node before]. destruct (Z.eq_dec (section_rank (Config.node a)) (section_rank (Config.node d))) as [He|]; [|left; lia].
  right. split; [done|]. by rewrite (rank_counts _ _ _ He).
Qed.

(** What a line is credited to: the layer that keeps it, or the one its subject is credited
    to. *)
Definition line_of_layer (ls : list Layer.t) (x : bool * Node.t) (l : Layer.t) : Prop :=
  if x.1 then l ∈ ls /\ layer_keeps x.2 l else exists s, subject x.2 = Some s /\ credited ls s = Some l.

(** The source that was merged for a line is that of the layer. *)
Lemma line_layer ls m x (o : sourced bytes) : merge_layers Merged.default_ ls = Ok m -> sourced_line m x o.2 ->
  exists l, line_of_layer ls x l /\ origin o.2 = Layer.origin l /\ src_path o.2 = Layer.path l.
Proof.
  intros Hm. unfold sourced_line, line_of_layer. destruct x.1.
  - intros (d & Hd & Hn). destruct (layers_kept _ _ _ _ _ Hm Hd) as [Hin|(l & Hl & Hk & ->)]; [by apply elem_of_nil in Hin|].
    exists l. rewrite <-Hn. done.
  - intros (s & Hs & Hsrc). rewrite (layers_src _ _ _ s Hm) in Hsrc. assert (src_at Merged.default_ s = None) as Hd by (by destruct s).
    rewrite Hd in Hsrc. assert (exists l, credited ls s = Some l /\ o.2 = src_of l) as (l & Hc & ->).
    { destruct (first_keeps s), (credited ls s) as [l|]; try discriminate Hsrc; exists l; cbn in Hsrc; split; congruence. }
    exists l. split; [by exists s|done].
Qed.

(** C26. The text of a resolved profile is that of the configuration its layers come to: the
    grants, the choices and the kept lines of the merged layers, written by [render].
    The nodes that are listed are the lines of that configuration, one under another
    the whole text, and each carries the origin and the file of the layer it is credited
    to: a kept line of a layer that keeps it, a grant, a variable or a setting of the last
    layer that says anything on it, a grant without parts of the first.  What is launched
    is what that text reads as; and that is the very configuration when its network means
    something, KDL 2 can say every value and key of it, and the text is within the bounds
    of a file. *)
Theorem resolved_text_is_rendered `{Files, Profiles} r name res : Resolver.resolve r name = Some (Ok res) ->
  exists ls acc, Resolver.layers r name = Some (Ok ls) /\ merge_layers Merged.default_ ls = Ok acc /\
    render (flat_config acc) = Ok (r_text res) /\ parse (r_text res) = Ok (r_config res) /\
    r_text res = concat (map (fun o => no_node o ++ [LF]) (r_origins res)) /\
    Forall2 (fun x o => written x = Ok (no_node o) /\
      exists l, line_of_layer ls x l /\ no_origin o = Layer.origin l /\ no_path o = Layer.path l) (config_lines (flat_config acc)) (r_origins res) /\
    (KdlLaws -> networks_meant (flat_config acc) -> Forall (fun x => in_kdl x.2) (config_lines (flat_config acc)) ->
     every_text bounded (config_lines (flat_config acc)) -> r_config res = flat_config acc).
Proof.
  intros Hres. destruct (resolve_lists _ _ _ Hres) as (ls & acc & Hl & Hm & Hf). exists ls, acc. split; [done|]. split; [done|].
  destruct (layers_agreed _ _ _ default_minv ltac:(intros a b Ha; by apply elem_of_nil in Ha) Hm) as [Hi Ha]. pose proof (layers_flat _ _ _ default_flat Hm) as Hw.
  unfold finish in Hf. destruct (flat_origins acc name) as [os|] eqn:Ho; [|done]. cbn [mbind result_bind] in Hf.
  pose proof (flat_from _ _ _ Hi Ho) as Hfrom. apply flat_nodes in Ho; [|apply Hi].
  assert (render (flat_config acc) = Ok (concat (map (fun o => o.1 ++ [LF]) os))) as Hr by (unfold render; rewrite Ho; cbn [mbind result_bind]; by rewrite map_map).
  destruct (ConfigDoc.parse _) as [cfg|] eqn:Hp; [|done]. injection Hf as <-. cbn [r_text r_config r_origins]. split; [done|]. split; [done|]. split; [by rewrite map_map|]. split.
  - apply Forall2_fmap_r. eapply Forall2_impl; [exact Hfrom|]. intros x o [Hx Hs]. split; [done|]. by apply (line_layer ls acc).
  - intros Hlaws Hn Hk Hb. pose proof (flat_config_wf _ Hi Ha Hw Hn) as Hc. pose proof (flat_kept_wf _ Hw) as Hkw.
    destruct (render_lines _ _ Hc (kept_wf_ok (flat_config acc) Hkw) Hr) as [Ht Hl']. rewrite Ht in Hp.
    rewrite (parse_lines _ Hc Hkw (flat_kept_order acc) Hl' (texts_read _ Hl' Hk) Hb) in Hp. destruct (check_needs _ _); [|done]. by injection Hp as <-.
Qed.
End Wf.

(** The [kitty] of the user and what its flattened text is read as. *)
Section Demo.
#[local] Existing Instance demo_text.
#[local] Existing Instance demo_text_laws.
#[local] Existing Instance walk_names.
#[local] Existing Instance walk_files.
#[local] Existing Instance walk_profiles.

Definition kitty_lines : list (bool * Node.t) := map (fun s => (false, Node.Service s)) [Service.Dbus []; Service.Notify; Service.Dri false].

(** The documents of the walk, and for any other text what [Kdl2] reads. *)
#[local] Instance kitty_kdl : Kdl :=
  {| kdl_parse t := match Kdl2.document t with Some doc => Ok doc | None => @kdl_parse walk_kdl t end |}.

#[local] Instance kitty_laws : KdlLaws.
Proof. split. intros t doc Hd. exists doc. unfold kdl_parse, kitty_kdl. rewrite Hd. split; [done|]. by eapply kdl2_same. Qed.

Lemma resolved_text_is_rendered_witness :
  exists res acc, Resolver.resolve demo_resolver (B "kitty") = Some (Ok res) /\ r_text res = B "dbus" ++ [LF] ++ B "notify" ++ [LF] ++ B "dri" ++ [LF] /\
    map (fun o => (no_origin o, no_path o)) (r_origins res) = [(Origin.BuiltIn, None); (Origin.BuiltIn, None); (Origin.User, Some (B "/u/kitty.kdl"))] /\
    services (flat_config acc) = [Service.Dbus []; Service.Notify; Service.Dri false] /\ render (flat_config acc) = Ok (r_text res) /\ r_config res = flat_config acc.
Proof.
  assert (exists res, Resolver.resolve demo_resolver (B "kitty") = Some (Ok res) /\ r_text res = B "dbus" ++ [LF] ++ B "notify" ++ [LF] ++ B "dri" ++ [LF] /\
    map (fun o => (no_origin o, no_path o)) (r_origins res) = [(Origin.BuiltIn, None); (Origin.BuiltIn, None); (Origin.User, Some (B "/u/kitty.kdl"))]) as (res & Hr & Ht & Ho)
    by (eexists; split; [vm_compute; reflexivity|]; split; vm_compute; reflexivity).
  destruct (resolved_text_is_rendered demo_resolver (B "kitty") res Hr) as (ls & acc & Hl & Hm & Hre & _ & _ & _ & Hc). exists res, acc.
  assert (exists ls' acc', Resolver.layers demo_resolver (B "kitty") = Some (Ok ls') /\ merge_layers Merged.default_ ls' = Ok acc' /\
    services (flat_config acc') = [Service.Dbus []; Service.Notify; Service.Dri false] /\ config_lines (flat_config acc') = kitty_lines) as (ls' & acc' & Hl' & Hm' & Hs & Hk)
    by (do 2 eexists; split; [vm_compute; reflexivity|]; split; [vm_compute; reflexivity|]; split; vm_compute; reflexivity).
  rewrite Hl in Hl'. injection Hl' as <-. rewrite Hm in Hm'. injection Hm' as <-. split; [exact Hr|]. split; [exact Ht|]. split; [exact Ho|]. split; [exact Hs|]. split; [exact Hre|]. apply Hc.
  - exact kitty_laws.
  - unfold networks_meant. rewrite Hs. intros n Hin. clear -Hin. set_solver.
  - rewrite Hk. repeat constructor.
  - rewrite Hk. split; [vm_compute; reflexivity|]. repeat constructor; intros []; reflexivity.
Defined.
End Demo.
