(* ===== verification/Lint.v ===== *)
(** The linter (bubbler-core/src/lint.rs): what is read off the KDL of a profile's layers or of
    a configuration, which findings there are, and which of them a [lint-allow] takes away.

    A finding is where it is, what it weighs and the check that reports it; the sentence and
    the advice beside it are text for a reader and left out, as is what prints them. *)
From S2P Require Import Profile.
From S2P Require Export Shares Dri AudioPolicy.

(** ** The checks *)

Definition Check : Type := bytes * Severity.t.

Definition ALLOW_HOST_WILDCARD : Check := (B "allow-host-wildcard", Severity.Note).
Definition APP_RUNTIME_RW : Check := (B "app-runtime-rw", Severity.Note).
Definition AUDIO_POLICY_MISSING : Check := (B "audio-policy-missing", Severity.Warning).
Definition AUDIO_POLICY_DIFFERS : Check := (DIFFERS_CHECK, Severity.Warning).
Definition BUNDLE_WITHOUT_DBUS : Check := (B "bundle-without-dbus", Severity.Error).
Definition CAMERA_NODES_NONE_PRESENT : Check := (B "camera-nodes-none-present", Severity.Note).
Definition CAMERA_NODES_NO_HOTPLUG : Check := (B "camera-nodes-no-hotplug", Severity.Note).
Definition CAMERA_WITHOUT_PORTALS : Check := (B "camera-without-portals", Severity.Error).
Definition COMMAND_NOT_FOUND : Check := (B "command-not-found", Severity.Note).
Definition DESKTOP_ENTRY_MISSING : Check := (B "desktop-entry-missing", Severity.Note).
Definition DBUS_WITHOUT_RULES : Check := (B "dbus-without-rules", Severity.Warning).
Definition DBUS_NAME_IS_HOST_EXEC : Check := (B "dbus-name-is-host-exec", Severity.Error).
Definition DBUS_NAME_IS_RISKY : Check := (B "dbus-name-is-risky", Severity.Warning).
Definition DRI_KMS : Check := (B "dri-kms", Severity.Note).
Definition DRI_NVIDIA_PRIMARY : Check := (B "dri-nvidia-primary", Severity.Note).
Definition DUP_NAME_POLICY : Check := (B "dup-name-policy", Severity.Error).
Definition ENV_LOOKS_SECRET : Check := (B "env-looks-secret", Severity.Warning).
Definition ETC_HOST : Check := (B "etc-host", Severity.Warning).
Definition HOME_SHARE_RESERVED : Check := (B "home-share-reserved", Severity.Error).
Definition HOME_SHARE_SENSITIVE : Check := (B "home-share-sensitive", Severity.Warning).
Definition LINT_ALLOW_UNUSED : Check := (B "lint-allow-unused", Severity.Note).
Definition MPRIS_WILDCARD : Check := (B "mpris-wildcard", Severity.Warning).
Definition NETWORK_HOST : Check := (B "network-host", Severity.Warning).
Definition OUTBOUND_DENY : Check := (B "outbound-deny", Severity.Note).
Definition OWN_ON_SYSTEM_BUS : Check := (B "own-on-system-bus", Severity.Error).
Definition OWN_TOO_WIDE : Check := (B "own-too-wide", Severity.Warning).
Definition OZONE_HINT_UNNECESSARY : Check := (B "ozone-hint-unnecessary", Severity.Note).
Definition PATH_SHARE_MOUNTPOINT : Check := (B "path-share-mountpoint", Severity.Warning).
Definition PATH_SHARE_RESERVED : Check := (B "path-share-reserved", Severity.Error).
Definition PATH_SHARE_SOCKET : Check := (B "path-share-socket", Severity.Warning).
Definition PIPEWIRE_MICROPHONE : Check := (B "pipewire-microphone", Severity.Note).
Definition PORTAL_TALK_WITHOUT_PORTALS : Check := (B "portal-talk-without-portals", Severity.Warning).
Definition REPEAT_OUTSIDE_BLOCK : Check := (B "repeat-outside-block", Severity.Note).
Definition SECCOMP_DISABLED : Check := (B "seccomp-disabled", Severity.Warning).
Definition SECRETS_ACCESS : Check := (B "secrets-access", Severity.Note).
Definition SHARE_SOURCE_MISSING : Check := (B "share-source-missing", Severity.Warning).
Definition SYSTEM_BUS_POLKIT_NAME : Check := (B "system-bus-polkit-name", Severity.Warning).
Definition TTY_PASSTHROUGH : Check := (B "tty-passthrough", Severity.Warning).
Definition TTY_PASSTHROUGH_WITHOUT_SECCOMP : Check := (B "tty-passthrough-without-seccomp", Severity.Warning).
Definition USERNS_DISABLED_WITH_NESTED_SANDBOX : Check := (B "userns-disabled-with-nested-sandbox", Severity.Warning).
Definition WAYLAND_CLIPBOARD_OPEN : Check := (B "wayland-clipboard-open", Severity.Warning).
Definition WAYLAND_HOST : Check := (B "wayland-host", Severity.Warning).
Definition X11_NESTED_NO_WM : Check := (B "x11-nested-no-wm", Severity.Note).
Definition X11_WITHOUT_REASON : Check := (B "x11-without-reason", Severity.Warning).

(** ** Reports *)

Module Where.
Inductive t := File (p : bytes) | BuiltIn (name : bytes).

(** Equality of paths is that of their components. *)
Definition key (w : t) : path + bytes := match w with File p => inl (components p) | BuiltIn n => inr n end.
Definition eqb (v w : t) : bool := bool_decide (key v = key w).

Definition label (w : t) : bytes := match w with File p => p | BuiltIn name => B "built-in:" ++ name end.
End Where.

Record Finding := mkFinding { at_ : Where.t; line : option Z; col : option Z; f_check : Check }.
Definition severity (f : Finding) : Severity.t := (f_check f).2.
Definition f_id (f : Finding) : bytes := (f_check f).1.

Record Report := mkReport { findings : list Finding; layers : list Where.t }.

Definition count (r : Report) (s : Severity.t) : Z := len (List.filter (fun f => bool_decide (severity f = s)) (findings r)).

Definition same_finding (f g : Finding) : bool :=
  Where.eqb (at_ f) (at_ g) && bool_decide (line f = line g) && bool_decide (col f = col g) && bool_decide (f_id f = f_id g).

Definition add_layer (ls : list Where.t) (w : Where.t) : list Where.t := if existsb (fun v => Where.eqb v w) ls then ls else ls ++ [w].
Definition add_finding (fs : list Finding) (f : Finding) : list Finding := if existsb (fun g => same_finding g f) fs then fs else fs ++ [f].

Definition absorb (r other : Report) : Report :=
  mkReport (fold_left add_finding (findings other) (findings r)) (fold_left add_layer (layers other) (layers r)).

Definition exit_code (r : Report) (deny_warnings : bool) : Z :=
  if count r Severity.Error >? 0 then 2
  else if count r Severity.Warning >? 0 then (if deny_warnings then 2 else 1)
  else 0.

Definition plural (n : Z) (one many : bytes) : bytes := decimal n ++ B " " ++ (if n =? 1 then one else many).
Definition summary (r : Report) : bytes :=
  plural (len (layers r)) (B "layer linted") (B "layers linted") ++ B ", " ++ plural (count r Severity.Error) (B "error") (B "errors") ++ B ", " ++
  plural (count r Severity.Warning) (B "warning") (B "warnings") ++ B ", " ++ plural (count r Severity.Note) (B "note") (B "notes").

(** ** The lists *)

Definition NESTERS : list bytes :=
  [B "chromium"; B "chrome"; B "code"; B "codium"; B "vesktop"; B "discord"; B "steam"; B "lutris"; B "firefox"; B "thunderbird"; B "obsidian";
   B "signal-desktop"].
Definition SENSITIVE_TREE : list bytes := [B ".ssh"; B ".gnupg"; B ".pki"; B ".password-store"; B ".local/share/keyrings"; B ".mozilla"].
Definition SENSITIVE_ROOT : list bytes := [B ".config"; B ".local"; B ".local/share"; B ".cache"].
Definition POLKIT_NAMES : list bytes :=
  [B "org.freedesktop.UDisks2"; B "org.freedesktop.NetworkManager"; B "org.freedesktop.systemd1"; B "org.freedesktop.PackageKit";
   B "org.freedesktop.login1"; B "org.freedesktop.hostname1"; B "org.freedesktop.timedate1"].
Definition SECRET_SEGMENTS : list bytes :=
  [B "TOKEN"; B "TOKENS"; B "SECRET"; B "SECRETS"; B "PASSWORD"; B "PASSWD"; B "APIKEY"; B "CREDENTIAL"; B "CREDENTIALS"; B "PAT"].
Definition SECRET_PAIRS : list (bytes * bytes) := [(B "API", B "KEY"); (B "ACCESS", B "KEY"); (B "SECRET", B "KEY")].
Definition SECRET_VALUES : list bytes := [B "ghp_"; B "sk-"; B "AKIA"].
Definition SECRETS_NAME : bytes := B "org.freedesktop.secrets".
Definition HOST_EXEC_NAMES : list bytes := [B "org.freedesktop.systemd1"; B "org.freedesktop.Flatpak"; B "org.freedesktop.impl.portal.*"; B "ca.desrt.dconf"].
Definition RISKY_NAMES : list bytes := [B "org.kde.KWin"; B "org.gnome.Shell"; B "org.freedesktop.FileManager1"; SECRETS_NAME].
Definition PORTAL_PREFIX : bytes := B "org.freedesktop.portal.".
Definition BUNDLES : list bytes := [B "portals"; B "notify"; B "tray"; B "mpris"; B "a11y"; B "input-method"].
Definition PARSER_EQUIVALENT : list bytes := map fst [BUNDLE_WITHOUT_DBUS; CAMERA_WITHOUT_PORTALS; DUP_NAME_POLICY; OWN_ON_SYSTEM_BUS].

Definition explains_a_parse_failure (r : Report) : bool :=
  let errors := List.filter (fun f => bool_decide (severity f = Severity.Error)) (findings r) in
  negb (bool_decide (errors = [])) && forallb (fun f => bool_decide (f_id f ∈ PARSER_EQUIVALENT)) errors.

(** ** Nodes *)

Definition kids (n : KdlNode) : list KdlNode := default [] (n_children n).

(** The first argument, where it is a string. *)
Definition arg (n : KdlNode) : option bytes := e ← List.find (fun e => negb (is_some (e_name e))) (n_entries n); as_string (e_value e).

Definition entry (n : KdlNode) (key : bytes) : option KdlEntry := List.find (fun e => bool_decide (e_name e = Some key)) (n_entries n).
Definition prop (n : KdlNode) (key : bytes) : option bytes := e ← entry n key; as_string (e_value e).
Definition flag (n : KdlNode) (key : bytes) : option bool := e ← entry n key; as_bool (e_value e).

Definition is_node (name : bytes) (n : KdlNode) : bool := bool_decide (n_name n = name).
Definition has_kid (name : bytes) (n : KdlNode) : bool := existsb (is_node name) (kids n).

Definition rule_name (n : KdlNode) : option bytes :=
  a ← arg n;
  if bool_decide (n_name n = B "call") || bool_decide (n_name n = B "broadcast") then head (split_on Init.Byte.x3d a) else Some a.

Definition STAR : byte := Init.Byte.x2a.

(** [name.strip_suffix('*')]. *)
Definition strip_star (s : bytes) : option bytes := match List.rev s with b :: l => if bool_decide (b = STAR) then Some (List.rev l) else None | [] => None end.

Definition under (glob name : bytes) : bool := match strip_star glob with Some prefix => starts_with prefix name | None => false end.
Definition name_covers (written listed : bytes) : bool := bool_decide (written = listed) || under written listed || under listed written.

Definition x11_manages_its_windows (n : KdlNode) : bool := bool_decide (flag n (B "fullscreen") = Some true) || is_some (prop n (B "wm")).

Definition upper_byte (b : byte) : byte := if is_ascii_lower b then to_u8 (u8 b - 32) else b.

(** [windows(2)]. *)
Fixpoint windows2 {A} (l : list A) : list (A * A) :=
  match l with a :: (b :: _) as l' => (a, b) :: windows2 l' | _ => [] end.

Definition looks_secret (key value : bytes) : bool :=
  let segments := split_on UNDERSCORE (map upper_byte key) in
  existsb (fun s => bool_decide (s ∈ SECRET_SEGMENTS)) segments || existsb (fun w => bool_decide (w ∈ SECRET_PAIRS)) (windows2 segments) ||
  existsb (fun p => starts_with p value) SECRET_VALUES.

Definition is_nester (argv0 : bytes) : bool :=
  let base := match Path.file_name argv0 with Some n => if utf8_valid n then n else argv0 | None => argv0 end in
  starts_with (B "electron") base || bool_decide (base ∈ NESTERS).

(** Whether a line-form node has a form as the child of a block. *)
Definition as_block_child (n : KdlNode) : bool :=
  if bool_decide (n_name n = B "env") then
    match n_entries n with e :: _ => is_some (as_string (e_value e)) && is_some (e_name e) | [] => false end
  else match n_entries n with
       | first :: rest =>
         negb (is_some (e_name first)) && is_some (as_string (e_value first)) &&
         forallb (fun e => is_some (as_string (e_value e)) && is_some (e_name e)) rest
       | [] => false
       end.

(** ** A layer as the checks read it *)

Section Lint.
Context `{IpText} `{SyscallNames} `{Kdl}.

Record Source := mkSource { s_at : Where.t; s_text : bytes; s_doc : KdlDocument; s_flat : list KdlNode }.

Definition flatten_node (n : KdlNode) : list KdlNode :=
  match parse_repeatable_block n with
  | Ok (Some lines) => lines
  | _ => n :: (if is_node (B "portals") n then List.filter (is_node (B "camera")) (kids n) else [])
  end.

Definition Source_read (at_ : Where.t) (text : bytes) : result ConfigError Source :=
  doc ← parse_document text; Ok (mkSource at_ text doc (concat (map flatten_node (d_nodes doc)))).

(** Whether a character starts at [i], or the text ends there. *)
Definition is_char_boundary (b : bytes) (i : Z) : bool := match get b i with Some c => negb ((128 <=? u8 c) && (u8 c <=? 191)) | None => true end.

Fixpoint char_end (fuel : nat) (b : bytes) (i : Z) : Z :=
  match fuel with
  | O => i
  | S fuel => if (i <? len b) && negb (is_char_boundary b i) then char_end fuel b (i + 1) else i
  end.

Fixpoint position_loop (fuel : nat) (b : bytes) (i line col : Z) : Z * Z :=
  match fuel with
  | O => (line, col)
  | S fuel =>
    if i <? len b then
      match newline_len b i with
      | Some n => position_loop fuel b (i + n) (Z.min (line + 1) U32_MAX) 1
      | None => position_loop fuel b (char_end (length b) b (i + 1)) line (Z.min (col + 1) U32_MAX)
      end
    else (line, col)
  end.

Definition position (s : Source) (offset : Z) : option Z * option Z :=
  match s_at s with
  | Where.BuiltIn _ => (None, None)
  | Where.File _ =>
    let before := upto (s_text s) (Z.min offset (len (s_text s))) in
    let '(line, col) := position_loop (length before) before 0 1 1 in (Some line, Some col)
  end.

(** A finding before its place is worked out. *)
Record Pending := mkPending { p_layer : nat; p_offset : Z; p_check : Check }.

Definition push (layer : nat) (n : KdlNode) (check : Check) : Pending := mkPending layer (n_offset n) check.

Definition top (s : Source) (name : bytes) : list KdlNode := List.filter (is_node name) (s_flat s).

(** Every rule of every bus node with its bus. *)
Definition bus_rules (s : Source) : list (bytes * KdlNode) :=
  concat (map (fun bus => concat (map (fun n => map (pair bus) (kids n)) (top s bus))) [B "dbus"; B "system-bus"]).

Definition enumerate {A} (l : list A) : list (nat * A) := zip (seq 0 (length l)) l.

(** The last node of this name in the last layer that has one. *)
Definition last_node (sources : list Source) (name : bytes) : option (nat * KdlNode) :=
  head (omap (fun x => n ← last (top x.2 name); Some (x.1, n)) (List.rev (enumerate sources))).

Definition anywhere (sources : list Source) (name : bytes) : bool := existsb (fun s => negb (bool_decide (top s name = []))) sources.

(** ** Checks of one layer *)

Definition LEVELS : list bytes := [B "see"; B "talk"; B "own"; B "call"; B "broadcast"].

Definition bus_name_rule (i : nat) (rule : KdlNode) : list Pending :=
  if negb (bool_decide (n_name rule ∈ LEVELS)) then []
  else match rule_name rule with
       | None => []
       | Some name =>
         (if existsb (name_covers name) HOST_EXEC_NAMES then [push i rule DBUS_NAME_IS_HOST_EXEC] else []) ++
         (if existsb (name_covers name) RISKY_NAMES then [push i rule DBUS_NAME_IS_RISKY] else [])
       end.
Definition bus_names (i : nat) (s : Source) : list Pending := concat (map (fun r => bus_name_rule i r.2) (bus_rules s)).

Definition allow_host_rule (i : nat) (child : KdlNode) : list Pending :=
  match a ← arg child; match HostPattern.parse a with Ok p => Some p | Err _ => None end with
  | Some p => if HostPattern.wildcard p && (len (HostPattern.labels p) =? 1) then [push i child ALLOW_HOST_WILDCARD] else []
  | None => []
  end.

Definition network_node (i : nat) (n : KdlNode) : list Pending :=
  (if existsb (fun c => is_node (B "outbound") c && bool_decide (arg c = Some (B "deny"))) (kids n) then [push i n OUTBOUND_DENY] else []) ++
  concat (map (allow_host_rule i) (List.filter (is_node (B "allow-host")) (kids n))).

Definition microphone_note (i : nat) (n : KdlNode) : list Pending := if has_kid (B "microphone") n then [push i n PIPEWIRE_MICROPHONE] else [].

Definition env_entry (i : nat) (n : KdlNode) (e : KdlEntry) : list Pending :=
  match e_name e with
  | None => []
  | Some key =>
    (if bool_decide (key = B "ELECTRON_OZONE_PLATFORM_HINT") then [push i n OZONE_HINT_UNNECESSARY] else []) ++
    (if looks_secret key (default [] (as_string (e_value e))) then [push i n ENV_LOOKS_SECRET] else [])
  end.
Definition env_node (i : nat) (n : KdlNode) : list Pending := concat (map (env_entry i n) (n_entries n)).

Definition repeat_kind (i : nat) (s : Source) (kind : bytes) : list Pending :=
  let written := List.filter (fun n => is_node kind n && negb (is_some (n_children n))) (d_nodes (s_doc s)) in
  match written with
  | first :: _ :: _ => if forallb as_block_child (take 3 written) then [push i first REPEAT_OUTSIDE_BLOCK] else []
  | _ => []
  end.
Definition repeat_outside_block (i : nat) (s : Source) : list Pending := concat (map (repeat_kind i s) REPEATABLE).

Definition own_too_wide (i : nat) (rule : KdlNode) : list Pending :=
  match name ← arg rule; strip_star name with
  | None => []
  | Some prefix => if len (List.filter (fun e => negb (bool_decide (e = []))) (split_on DOT prefix)) >=? 3 then [] else [push i rule OWN_TOO_WIDE]
  end.

Definition dbus_rule (i : nat) (rule : KdlNode) : list Pending :=
  (if is_node (B "own") rule then own_too_wide i rule else []) ++
  (if (is_node (B "talk") rule || is_node (B "own") rule) && bool_decide (rule_name rule = Some SECRETS_NAME) then [push i rule SECRETS_ACCESS] else []).
Definition dbus_node (i : nat) (n : KdlNode) : list Pending := concat (map (dbus_rule i) (kids n)).

(** [name.strip_suffix(".*").unwrap_or(name)]. *)
Definition bare_name (name : bytes) : bytes := default name (p ← strip_star name; match List.rev p with b :: l => if bool_decide (b = DOT) then Some (List.rev l) else None | [] => None end).

Definition system_rule (i : nat) (rule : KdlNode) : list Pending :=
  match rule_name rule with
  | None => []
  | Some name =>
    if is_node (B "own") rule then [push i rule OWN_ON_SYSTEM_BUS]
    else if is_node (B "talk") rule then (if bool_decide (bare_name name ∈ POLKIT_NAMES) then [push i rule SYSTEM_BUS_POLKIT_NAME] else [])
    else []
  end.
Definition system_bus (i : nat) (n : KdlNode) : list Pending := concat (map (system_rule i) (kids n)).

Context `{Host} `{PolicyFiles} (env : Env) (search_path : list bytes).

Definition camera_present : bool :=
  existsb (fun name => (starts_with (B "video") name || starts_with (B "media") name) && is_type FileType.CharDevice (Path.join (B "/dev") name)) (list_dir (B "/dev")).

Definition camera_nodes (i : nat) (n : KdlNode) : list Pending :=
  (if camera_present then [] else [push i n CAMERA_NODES_NONE_PRESENT]) ++ [push i n CAMERA_NODES_NO_HOTPLUG].

(** The findings, and whether the source is one a share should name. *)
Definition share_source (i : nat) (n : KdlNode) (source : bytes) : list Pending * bool :=
  match file_type source with
  | None => if bool_decide (flag n (B "optional") = Some true) then ([], false) else ([push i n SHARE_SOURCE_MISSING], false)
  | Some t => if bool_decide (t = FileType.Dir) || bool_decide (t = FileType.File) then ([], true) else ([push i n SHARE_SOURCE_MISSING], false)
  end.

Definition home_share_node (i : nat) (n : KdlNode) : list Pending :=
  match arg n with
  | None => []
  | Some p =>
    (if is_some (reserved_in_home_reason env p) then [push i n HOME_SHARE_RESERVED] else []) ++
    (if existsb (Path.starts_with p) SENSITIVE_TREE || existsb (fun r => Path.eqb r p) SENSITIVE_ROOT then [push i n HOME_SHARE_SENSITIVE] else []) ++
    (share_source i n (Path.join (home env) p)).1
  end.

Definition path_share_node (i : nat) (n : KdlNode) : list Pending :=
  match arg n with
  | None => []
  | Some p =>
    let source := default p (canonicalize p) in
    let named_socket := match Path.file_name p with Some f => utf8_valid f && (ends_with (B ".sock") f || ends_with (B ".socket") f) | None => false end in
    (if is_some (reserved_reason env p) then [push i n PATH_SHARE_RESERVED] else []) ++
    (if named_socket || is_type FileType.Socket source then [push i n PATH_SHARE_SOCKET]
     else
       let '(found, fit) := share_source i n source in
       found ++
       (if negb fit then []
        else
          (if bool_decide (prop n (B "mode") = Some (B "rw")) && bool_decide (is_mountpoint source = Some true) then [push i n PATH_SHARE_MOUNTPOINT] else []) ++
          (if existsb (fun name => is_type FileType.Socket (Path.join source name)) (list_dir source) then [push i n PATH_SHARE_SOCKET] else [])))
  end.

(** The arm each node takes. *)
Definition layer_node (i : nat) (n : KdlNode) : list Pending :=
  let nm := fun w => is_node (B w) n in
  let host := bool_decide (arg n = Some (B "host")) in
  if nm "x11" then
    if host then [push i n X11_WITHOUT_REASON] else if x11_manages_its_windows n then [] else [push i n X11_NESTED_NO_WM]
  else if nm "tty" then if bool_decide (arg n = Some (B "passthrough")) then [push i n TTY_PASSTHROUGH] else []
  else if nm "etc" then if host then [push i n ETC_HOST] else []
  else if nm "network" then if host then [push i n NETWORK_HOST] else network_node i n
  else if nm "wayland" then if host then [push i n WAYLAND_HOST] else []
  else if nm "seccomp" then if has_kid (B "disable") n then [push i n SECCOMP_DISABLED] else []
  else if nm "env" then env_node i n
  else if nm "home-share" then home_share_node i n
  else if nm "path-share" then path_share_node i n
  else if nm "etc-share" then match arg n with Some name => (share_source i n (Path.join (B "/etc") name)).1 | None => [] end
  else if nm "dri" then
    if bool_decide (flag n (B "kms") = Some true) then [push i n DRI_KMS] else if dri_binds_a_primary_node then [push i n DRI_NVIDIA_PRIMARY] else []
  else if nm "camera" then if bool_decide (flag n (B "nodes") = Some true) then camera_nodes i n else []
  else if nm "portals" then if has_kid (B "secrets") n then [push i n SECRETS_ACCESS] else []
  else if nm "pipewire" || nm "pulseaudio" then microphone_note i n
  else if nm "dbus" then dbus_node i n
  else if nm "system-bus" then system_bus i n
  else if nm "app-runtime" then if bool_decide (prop n (B "mode") = Some (B "rw")) then [push i n APP_RUNTIME_RW] else []
  else if nm "mpris" then if bool_decide (prop n (B "name") = Some [STAR]) then [push i n MPRIS_WILDCARD] else []
  else [].

Definition per_layer (i : nat) (s : Source) : list Pending := bus_names i s ++ repeat_outside_block i s ++ concat (map (layer_node i) (s_flat s)).

(** ** Checks over the layers *)

Definition audio_node (sources : list Source) : option (nat * KdlNode) :=
  head (omap (fun x => n ← List.find (fun n => is_node (B "pipewire") n || is_node (B "pulseaudio") n) (s_flat x.2); Some (x.1, n)) (enumerate sources)).

Definition audio_policy_missing (sources : list Source) : list Pending :=
  match missing env, audio_node sources with Some _, Some (i, n) => [push i n AUDIO_POLICY_MISSING] | _, _ => [] end.

Definition audio_policy_differs (sources : list Source) : list Pending :=
  if bool_decide (differing env = []) then []
  else match audio_node sources with Some (i, n) => [push i n AUDIO_POLICY_DIFFERS] | None => [] end.

Definition over_layers (f : nat -> Source -> list Pending) (sources : list Source) : list Pending := concat (map (fun x => f x.1 x.2) (enumerate sources)).

Definition unmet_bundles (i : nat) (s : Source) : list Pending :=
  map (fun n => push i n BUNDLE_WITHOUT_DBUS) (List.filter (fun n => bool_decide (n_name n ∈ BUNDLES)) (s_flat s)).

Definition dbus_without_rules (sources : list Source) : list Pending :=
  let nodes := concat (map (fun x => map (pair x.1) (top x.2 (B "dbus"))) (enumerate sources)) in
  match nodes with
  | (i, n) :: _ => if forallb (fun x => bool_decide (kids x.2 = [])) nodes then [push i n DBUS_WITHOUT_RULES] else []
  | [] => []
  end.

Definition portal_rule (i : nat) (rule : KdlNode) : list Pending :=
  match rule_name rule with Some name => if starts_with PORTAL_PREFIX name then [push i rule PORTAL_TALK_WITHOUT_PORTALS] else [] | None => [] end.

Definition unmet_portals (i : nat) (s : Source) : list Pending :=
  map (fun n => push i n CAMERA_WITHOUT_PORTALS) (top s (B "camera")) ++ concat (map (fun r => portal_rule i r.2) (bus_rules s)).

(** Each name of each bus with the policy it was first given. *)
Definition policy_step (i : nat) (st : list (bytes * bytes * bytes) * list Pending) (r : bytes * KdlNode) : list (bytes * bytes * bytes) * list Pending :=
  let '(policies, found) := st in
  let '(bus, rule) := r in
  let level := n_name rule in
  if negb (bool_decide (level ∈ [B "see"; B "talk"; B "own"])) then st
  else match rule_name rule with
       | None => st
       | Some name =>
         match List.find (fun p => bool_decide (p.1 = (bus, name))) policies with
         | Some (_, was) => if bool_decide (was = level) then (policies ++ [(bus, name, level)], found) else (policies, found ++ [push i rule DUP_NAME_POLICY])
         | None => (policies ++ [(bus, name, level)], found)
         end
       end.
Definition dup_policies (sources : list Source) : list Pending :=
  (fold_left (fun st x => fold_left (policy_step x.1) (bus_rules x.2) st) (enumerate sources) ([], [])).2.

Definition clipboard_open (sources : list Source) : list Pending :=
  match last_node sources (B "wayland") with
  | Some (i, n) => if bool_decide (prop n (B "clipboard") = Some (B "open")) then [push i n WAYLAND_CLIPBOARD_OPEN] else []
  | None => []
  end.

Definition home_share_covers (sources : list Source) (rel : bytes) : bool :=
  existsb (Path.starts_with rel) (omap arg (concat (map (fun s => top s (B "home-share")) sources))).

Definition on_path (sources : list Source) (argv0 : bytes) : bool :=
  if len (components argv0) >? 1 then
    match Path.strip_prefix argv0 SANDBOX_HOME with
    | Some rest => home_share_covers sources rest && is_some (file_type (Path.join (home env) rest))
    | None => is_some (file_type argv0)
    end
  else existsb (fun dir => is_some (file_type (Path.join dir argv0))) search_path.

(** [desktop::Dirs::lookup]. *)
Definition entry_dirs : list bytes := map (fun d => Path.join d (B "applications")) (data_home env :: data_dirs env).
Definition entry_exists (name : bytes) : bool := existsb (fun dir => is_some (file_type (Path.join dir name))) entry_dirs.

Definition command_node (sources : list Source) : option (nat * KdlNode * bytes) :=
  '(i, n) ← last_node sources (B "command"); a ← arg n; Some (i, n, a).

Definition nested_userns (sources : list Source) : list Pending :=
  match last_node sources (B "userns"), command_node sources with
  | Some (i, n), Some (_, _, argv0) => if bool_decide (arg n = Some (B "disable")) && is_nester argv0 then [push i n USERNS_DISABLED_WITH_NESTED_SANDBOX] else []
  | _, _ => []
  end.

Definition command_not_found (sources : list Source) : list Pending :=
  match command_node sources with Some (i, n, argv0) => if on_path sources argv0 then [] else [push i n COMMAND_NOT_FOUND] | None => [] end.

Definition desktop_missing (sources : list Source) : list Pending :=
  match ('(i, n) ← last_node sources (B "desktop"); a ← arg n; Some (i, n, a)) with
  | Some (i, n, name) => if entry_exists name then [] else [push i n DESKTOP_ENTRY_MISSING]
  | None => []
  end.

Definition unguarded_terminal (sources : list Source) : list Pending :=
  let disabled := existsb (fun s => existsb (has_kid (B "disable")) (top s (B "seccomp"))) sources in
  match last_node sources (B "tty") with
  | Some (i, n) => if bool_decide (arg n = Some (B "passthrough")) && disabled then [push i n TTY_PASSTHROUGH_WITHOUT_SECCOMP] else []
  | None => []
  end.

Definition across_layers (sources : list Source) : list Pending :=
  let has_dbus := anywhere sources (B "dbus") in
  let has_bundle := existsb (anywhere sources) BUNDLES in
  (if has_dbus then [] else over_layers unmet_bundles sources) ++
  (if has_dbus && negb has_bundle then dbus_without_rules sources else []) ++
  (if anywhere sources (B "portals") then [] else over_layers unmet_portals sources) ++
  dup_policies sources ++ clipboard_open sources ++ nested_userns sources ++ command_not_found sources ++ desktop_missing sources ++ unguarded_terminal sources.

(** ** A run *)

Definition unused_allows (sources : list Source) (found : list Pending) : list Pending :=
  let silenced := map (fun p => (p_check p).1) (List.filter (fun p => negb (bool_decide ((p_check p).2 = Severity.Error))) found) in
  over_layers (fun i s => omap (fun n => id ← arg n; if bool_decide (id ∈ silenced) then None else Some (push i n LINT_ALLOW_UNUSED)) (top s (B "lint-allow"))) sources.

(** What is found, in the order the checks run. *)
Definition pending (sources : list Source) : list Pending :=
  let found := over_layers per_layer sources ++ across_layers sources ++ audio_policy_missing sources ++ audio_policy_differs sources in
  found ++ unused_allows sources found.

Definition allowed_ids (sources : list Source) : list bytes := omap arg (concat (map (fun s => top s (B "lint-allow")) sources)).

(** A [lint-allow] names the check, which is no error and not the one about [lint-allow]. *)
Definition accepted (allowed : list bytes) (p : Pending) : bool :=
  negb (bool_decide ((p_check p).2 = Severity.Error)) && negb (bool_decide ((p_check p).1 = LINT_ALLOW_UNUSED.1)) && bool_decide ((p_check p).1 ∈ allowed).

Definition found_at (sources : list Source) (p : Pending) : option Finding :=
  s ← sources !! p_layer p; let '(line, col) := position s (p_offset p) in Some (mkFinding (s_at s) line col (p_check p)).

(** [sort_by_key(|p| (p.layer, p.offset))], which is stable: by the offset, then by the layer. *)
Definition in_file_order (l : list Pending) : list Pending := sort_by_key (fun p => Z.of_nat (p_layer p)) (sort_by_key p_offset l).

Definition run (sources : list Source) : Report :=
  let allowed := allowed_ids sources in
  mkReport (omap (fun p => if accepted allowed p then None else found_at sources p) (in_file_order (pending sources))) (map s_at sources).

(** ** What is linted *)

Inductive LintError := ProfileE (e : ProfileError) | ConfigE (e : ConfigError) | IoE (p : bytes) (e : FsError).

Definition config_err {A} (r : result ConfigError A) : result LintError A := map_err ConfigE r.

Definition lint_text (at_ : Where.t) (text : bytes) : result LintError Report :=
  source ← config_err (Source_read at_ text);
  let report := run [source] in
  _ ← (if explains_a_parse_failure report then Ok tt else _ ← config_err (parse text); Ok tt);
  Ok report.

Context `{Files} `{Profiles}.

Definition lint_config (p : bytes) : result LintError Report :=
  text ← match read_bounded p with Ok text => Ok text | Err (ReadIo e) => Err (IoE p e) | Err (ReadTooLarge e) => Err (ConfigE e) end;
  lint_text (Where.File p) text.

Definition where_of (l : Layer.t) : Where.t := match Layer.path l with Some p => Where.File p | None => Where.BuiltIn (Layer.name l) end.

Definition read_layer_source (out : list Source) (l : Layer.t) : result LintError (list Source) :=
  s ← config_err (Source_read (where_of l) (Layer.text l)); Ok (out ++ [s]).

Definition lint_profile (r : Resolver.t) (name : bytes) : option (result LintError Report) :=
  layers ← Resolver.layers r name;
  match layers with
  | Err e => Some (Err (ProfileE e))
  | Ok layers =>
    match fold_res read_layer_source [] layers with
    | Err e => Some (Err e)
    | Ok sources =>
      let report := run sources in
      if explains_a_parse_failure report then Some (Ok report)
      else resolved ← Resolver.resolve r name; Some (match resolved with Ok _ => Ok report | Err e => Err (ProfileE e) end)
    end
  end.

(** The profiles of every layer one after another; [names] is what [Resolver::list] answers. *)
Fixpoint lint_all_loop (r : Resolver.t) (out : Report) (names : list bytes) : option (result LintError Report) :=
  match names with
  | [] => Some (Ok out)
  | name :: names =>
    one ← lint_profile r name;
    match one with Ok report => lint_all_loop r (absorb out report) names | Err e => Some (Err e) end
  end.
Definition lint_all (r : Resolver.t) (names : list bytes) : option (result LintError Report) := lint_all_loop r (mkReport [] []) names.
End Lint.
