(* ===== verification/LintSpec.v ===== *)
(** The theorems about the linter: that its verdict is the parser's, and that what it reports
    clean grants nothing wide that the file does not acknowledge. *)
From S2P Require Export ConfigDocFacts Lint.

(** Takes the tests of names in a hypothesis apart, one after another. *)
Ltac by_name Hp :=
  repeat match type of Hp with (if ?b then _ else _) = Ok _ => destruct b eqn:?; [|] | Err _ = _ => discriminate Hp end; inv_ok.

Section Nodes.
Context `{IpText, SyscallNames, Kdl}.

(** ** Nodes and what they are parsed to *)

Ltac kind_of_parser := repeat match goal with
  | Hk : ?f _ = Ok _ |- _ =>
    match f with parse_dri => idtac | parse_etc_share => idtac | parse_dbus => idtac | parse_gamepad => idtac
      | parse_camera => idtac | parse_system_bus => idtac | parse_mpris => idtac | parse_portals => idtac end;
    unfold f in Hk; parsed
  | Hk : parse_network _ = Ok _ |- _ => unfold parse_network in Hk; parsed
  end.

(** The kind of what a node is parsed to is the node's name. *)
Lemma parse_named_name n profile x : parse_named n profile = Ok x -> Node.name x = n_name n.
Proof.
  unfold parse_named, named. intros Hp. by_name Hp; bool_to_prop; cbn [Node.name Service.node_name]; try congruence;
    repeat match goal with r : _ * _ |- _ => destruct r end; inv_ok; kind_of_parser; cbn [Node.name Service.node_name]; try congruence.
Qed.


(** ** The flat nodes of a source and what a file's nodes grant *)

(** [m] is read off [n] and [x] is what the parser makes of it. *)
Definition reads (n m : KdlNode) (x : Node.t) : Prop := m ∈ flatten_node n /\ parse_named m false = Ok x.

Lemma line_form_same name child : n_name child = name -> line_form name child = child.
Proof. intros <-. by destruct child. Qed.

Lemma flatten_lines n lines : parse_repeatable_block n = Ok (Some lines) -> flatten_node n = lines.
Proof. unfold flatten_node. by intros ->. Qed.

Lemma flatten_itself n : parse_repeatable_block n = Ok None -> n ∈ flatten_node n.
Proof. unfold flatten_node. intros ->. left. Qed.

Lemma parse_one_named n profile x : parse_one n profile = Ok x -> parse_named n profile = Ok x.
Proof. unfold parse_one. intros Hp. inv_ok. destruct (_ && _); [done|exact Hp]. Qed.

Lemma named_portals n svc c : n_name n = B "portals" -> parse_portals n = Ok (svc, c) -> parse_named n false = Ok (Node.Service svc).
Proof.
  intros Hn Hp. unfold parse_named, named. rewrite Hn.
  names_in. by rewrite Hp.
Qed.

Lemma named_camera n s : n_name n = B "camera" -> parse_camera n = Ok s -> parse_named n false = Ok (Node.Service s).
Proof.
  intros Hn Hp. unfold parse_named, named. rewrite Hn.
  names_in. by rewrite Hp.
Qed.

(** The camera of a portals node is one of its children. *)
Lemma portals_camera n svc c offset : parse_portals n = Ok (svc, Some (c, offset)) ->
  exists child, child ∈ kids n /\ n_name child = B "camera" /\ parse_camera child = Ok c.
Proof.
  unfold parse_portals, kids. intros Hp. parsed. cbn.
  loop_inv (fun st : list Portal.t * option (Service.t * Z) => match st.2 with
    | Some (c, _) => exists child, child ∈ l /\ n_name child = B "camera" /\ parse_camera child = Ok c | None => True end) HF; [exact HF|..|done].
  intros [children camera] child st' Hin Hst Hc. unfold portals_child in Hc. apply bind_ok in Hc as ([] & _ & Hc). cbn in Hst.
  destruct (bool_decide (n_name child = B "camera")) eqn:Hk.
  - bool_to_prop. destruct (is_some camera); [discriminate Hc|]. rewrite line_form_same in Hc by done.
    apply bind_ok in Hc as (c' & Hc' & Hs). injection Hs as <-. by exists child.
  - clear HF. by parsed.
Qed.

(** Every part of a node was read off one of its flat nodes. *)
Lemma part_is_read n parts p : parse_node n false = Ok parts -> p ∈ parts -> exists m, reads n m p.1.
Proof.
  unfold parse_node. intros Hp Hin. inv_ok. destruct r as [lines|].
  - apply flatten_lines in E. unfold reads. rewrite E. clear E.
    refine (fold_res_inv (fun out => forall p, p ∈ out -> exists m, m ∈ lines /\ parse_named m false = Ok p.1) _ _ _ _ _ _ Hp _ Hin); [|by intros q Hq%not_elem_of_nil].
    intros out line out' Hl Ho Hs. unfold parse_line in Hs. inv_ok. intros q [Hq|Hq%list_elem_of_singleton]%elem_of_app; [by apply Ho|]. subst q.
    exists line. split; [done|]. by apply parse_one_named.
  - pose proof (flatten_itself n E) as Hn. destruct (_ && _) eqn:Hk; inv_ok.
    + apply andb_true_iff in Hk as [Hk _]. bool_to_prop. destruct r as [svc c]. injection Hp as <-.
      apply elem_of_cons in Hin as [->|Hin]; [exists n; split; [done|by eapply named_portals]|].
      destruct c as [[c offset]|]; [|by apply not_elem_of_nil in Hin]. apply list_elem_of_singleton in Hin as ->. cbn.
      apply portals_camera in E0 as (child & Hc & Hname & Hp). exists child. split; [|by apply named_camera].
      unfold flatten_node. rewrite E. right. unfold is_node. rewrite bool_decide_true by done.
      apply list_elem_of_In, filter_In. split; [by apply list_elem_of_In|]. by apply bool_decide_eq_true.
    + apply list_elem_of_singleton in Hin as ->. exists n. split; [done|]. by apply parse_one_named.
Qed.


(** Every flat node has its part, the camera of a portals node aside. *)
Lemma read_has_part n parts m : parse_node n false = Ok parts -> m ∈ flatten_node n ->
  (exists p, p ∈ parts /\ parse_named m false = Ok p.1) \/ (n_name m = B "camera" /\ n_name n = B "portals" /\ n ∈ flatten_node n).
Proof.
  unfold parse_node. intros Hp Hin. inv_ok. destruct r as [lines|].
  - apply flatten_lines in E. rewrite E in Hin. clear E. left.
    assert (Forall (fun line => exists p, p ∈ parts /\ parse_named line false = Ok p.1) lines) as Hf.
    { refine (fold_res_each (fun line out => exists p, p ∈ out /\ parse_named line false = Ok p.1) _ _ _ _ _ _ Hp).
      - intros out line out' _ Hs. unfold parse_line in Hs. inv_ok. exists (r, n_offset line). split; [apply elem_of_app; right; by left|]. by apply parse_one_named.
      - intros out line line' out' (p & Hq & Hr) Hs. unfold parse_line in Hs. inv_ok. exists p. split; [apply elem_of_app; by left|done]. }
    rewrite Forall_forall in Hf. by apply Hf.
  - pose proof (flatten_itself n E) as Hn. unfold flatten_node in Hin. rewrite E in Hin. apply elem_of_cons in Hin as [->|Hin].
    + left. destruct (_ && _) eqn:Hk; inv_ok.
      * apply andb_true_iff in Hk as [Hk _]. bool_to_prop. destruct r as [svc c]. injection Hp as <-. eexists. split; [left|]. by eapply named_portals.
      * eexists. split; [left|]. by apply parse_one_named.
    + right. destruct (is_node (B "portals") n) eqn:Hk; [|by apply not_elem_of_nil in Hin]. unfold is_node in Hk. bool_to_prop.
      apply list_elem_of_In, filter_In in Hin as [_ Hc]. unfold is_node in Hc. bool_to_prop. done.
Qed.

(** ** What a file's configuration holds and which node wrote it *)

(** The configuration holds what a node grants; the lines that say nothing wide are left out. *)
Definition holds (cfg : InstanceConfig) (x : Node.t) : Prop :=
  match x with
  | Node.Service s => s ∈ services cfg
  | Node.LintAllow allows => forall a, a ∈ allows -> a ∈ lint_allows cfg
  | _ => True
  end.

(** What stands in the configuration, each under the node that would write it. *)
Definition stands (cfg : InstanceConfig) (x : Node.t) : Prop :=
  match x with
  | Node.Service s => s ∈ services cfg
  | Node.Etc EtcMode.Host => etc cfg = EtcMode.Host
  | Node.Tty Passthrough => tty cfg = Passthrough
  | Node.Seccomp s => seccomp cfg = s /\ s <> default_seccomp
  | _ => False
  end.

Lemma add_env_rest c kv c' : add_env c kv = Ok c' -> c' = with_env c (env c').
Proof. unfold add_env. intros Ha. parsed. by destruct c. Qed.

Lemma add_lint_rest c a c' : add_lint_allow c a = Ok c' -> c' = with_lint_allows c (lint_allows c ++ [a]).
Proof. unfold add_lint_allow. intros Ha. by parsed. Qed.

Lemma add_envs_rest pairs c c' : fold_res add_env c pairs = Ok c' -> c' = with_env c (env c').
Proof.
  intros Hf. refine (fold_res_inv (fun c' => c' = with_env c (env c')) _ _ _ _ _ _ Hf); [|by destruct c].
  intros s kv s' _ -> Ha. apply add_env_rest in Ha as ->. by cbn.
Qed.

Lemma add_lints_rest allows c c' : fold_res add_lint_allow c allows = Ok c' -> c' = with_lint_allows c (lint_allows c ++ allows).
Proof.
  revert c. induction allows as [|a l IH]; intros c; cbn [fold_res]; [intros [= <-]; rewrite app_nil_r; by destruct c|].
  destruct (add_lint_allow c a) as [c1|e] eqn:Ea; [|done]. intros Hf%IH. apply add_lint_rest in Ea as ->. rewrite Hf. cbn. by rewrite <-app_assoc.
Qed.

(** A node adds what it grants, takes nothing away, and what stands afterwards it wrote or stood before. *)
Lemma add_node_holds st x st' : add_node st x = Ok st' ->
  holds (s_cfg st') x /\ (forall y, holds (s_cfg st) y -> holds (s_cfg st') y) /\
  (forall y, stands (s_cfg st') y -> stands (s_cfg st) y \/ y = x).
Proof.
  intros Ha. destruct x as [svc|pairs|allows|m|size|m|m|sc|d|argv]; cbn [add_node] in Ha; inv_ok.
  - unfold grant in E. destruct (existsb _ _); [discriminate E|]. inv_ok. cbn. split; [apply elem_of_app; right; by left|]. split.
    + intros [] Hy; cbn in *; try done. apply elem_of_app. by left.
    + intros y Hy. destruct y as [s| | | | | | | | |]; cbn in *; try (by left). apply elem_of_app in Hy as [Hy|Hy%list_elem_of_singleton]; [by left|right; by subst].
  - apply add_envs_rest in E as ->. cbn. split; [done|]. split; [by intros []|]. intros y Hy. left. by destruct y.
  - apply add_lints_rest in E as ->. cbn. split; [intros a Hy; apply elem_of_app; by right|]. split.
    + intros [] Hy; cbn in *; try done. intros a Hin. apply elem_of_app. left. by apply Hy.
    + intros y Hy. left. by destruct y.
  - destruct (seen_etc st); inv_ok. cbn. split; [done|]. split; [by intros []|]. intros y Hy. destruct y as [| | |[]| |[]| | | |]; cbn in *; try (by left); right; congruence.
  - destruct (bool_decide _); inv_ok. cbn. split; [done|]. split; [by intros []|]. intros y Hy. left. by destruct y.
  - destruct (seen_tty st); inv_ok. cbn. split; [done|]. split; [by intros []|]. intros y Hy. destruct y as [| | |[]| |[]| | | |]; cbn in *; try (by left); right; congruence.
  - destruct (seen_userns st); inv_ok. cbn. split; [done|]. split; [by intros []|]. intros y Hy. left. by destruct y.
  - destruct (seen_seccomp st); inv_ok. cbn. split; [done|]. split; [by intros []|]. intros y Hy.
    destruct y as [| | | | | | |s| |]; cbn in *; try (by left). right. destruct Hy as [-> _]. done.
  - destruct (bool_decide _); inv_ok. cbn. split; [done|]. split; [by intros []|]. intros y Hy. left. by destruct y.
  - destruct (bool_decide _); inv_ok. cbn. split; [done|]. split; [by intros []|]. intros y Hy. left. by destruct y.
Qed.

Lemma place_holds text name offset st : (forall y, holds (s_cfg (place text name offset st)) y <-> holds (s_cfg st) y) /\
  (forall y, stands (s_cfg (place text name offset st)) y <-> stands (s_cfg st) y).
Proof. unfold place. by destruct (_ || (_ || _)). Qed.

Lemma keep_holds st found : (forall y, holds (s_cfg (keep st found)) y <-> holds (s_cfg st) y) /\
  (forall y, stands (s_cfg (keep st found)) y <-> stands (s_cfg st) y).
Proof. split; intros [| | |[]| |[]| | | |]; reflexivity. Qed.

Lemma doc_part_holds text st p st' : doc_part text st p = Ok st' ->
  holds (s_cfg st') p.1 /\ (forall y, holds (s_cfg st) y -> holds (s_cfg st') y) /\
  (forall y, stands (s_cfg st') y -> stands (s_cfg st) y \/ y = p.1).
Proof.
  unfold doc_part. intros Hp. inv_ok. destruct (add_node_holds _ _ _ E) as (Hx & Hk & Hs).
  destruct (place_holds text (Node.name p.1) p.2 r) as [Ph Ps]. split; [by apply Ph|]. split; intros y Hy; [by apply Ph, Hk|by apply Hs, Ps].
Qed.

(** The parts of one node, all of them held in the end. *)
Lemma doc_parts_hold text parts st st' : fold_res (doc_part text) st parts = Ok st' ->
  (forall p, p ∈ parts -> holds (s_cfg st') p.1) /\ (forall y, holds (s_cfg st) y -> holds (s_cfg st') y) /\
  (forall y, stands (s_cfg st') y -> stands (s_cfg st) y \/ exists p, p ∈ parts /\ p.1 = y).
Proof.
  intros Hf. split.
  { apply Forall_forall. refine (fold_res_each (fun p st => holds (s_cfg st) p.1) _ _ _ _ _ _ Hf).
    - intros s p s' _ Hp. by apply doc_part_holds in Hp as [Hp _].
    - intros s p q s' Hq Hp. apply doc_part_holds in Hp as (_ & Hk & _). by apply Hk. }
  split.
  - intros y Hy. refine (fold_res_inv (fun st => holds (s_cfg st) y) _ _ _ _ _ Hy Hf). intros s p s' _ Hs Hp.
    apply doc_part_holds in Hp as (_ & Hk & _). by apply Hk.
  - refine (fold_res_inv (fun st' => forall y, stands (s_cfg st') y -> stands (s_cfg st) y \/ exists p, p ∈ parts /\ p.1 = y) _ _ _ _ _ _ Hf); [|by intros y; left].
    intros s p s' Hin Hs Hp y Hy. apply doc_part_holds in Hp as (_ & _ & Hk). apply Hk in Hy as [Hy| ->]; [by apply Hs|]. right. by exists p.
Qed.

Lemma doc_node_holds text st n st' : doc_node text false st n = Ok st' ->
  exists parts, parse_node n false = Ok parts /\ (forall p, p ∈ parts -> holds (s_cfg st') p.1) /\
    (forall y, holds (s_cfg st) y -> holds (s_cfg st') y) /\
    (forall y, stands (s_cfg st') y -> stands (s_cfg st) y \/ exists p, p ∈ parts /\ p.1 = y).
Proof.
  unfold doc_node. intros Hn. inv_ok.
  assert ((forall y, holds (s_cfg r) y <-> holds (s_cfg st) y) /\ (forall y, stands (s_cfg r) y <-> stands (s_cfg st) y)) as [Kh Ks].
  { destruct (n_leading n); inv_ok; [apply keep_holds|done]. }
  destruct (bool_decide _); [inv_ok; done|]. inv_ok. exists r0. split; [done|]. destruct (doc_parts_hold _ _ _ _ Hn) as (Hp & Hk & Hs).
  split; [done|]. split; [intros y Hy; by apply Hk, Kh|]. intros y [Hy|Hy]%Hs; [left; by apply Ks|by right].
Qed.

Lemma doc_holds text doc cfg : parse text = Ok cfg -> parse_document text = Ok doc ->
  (forall n, n ∈ d_nodes doc -> exists parts, parse_node n false = Ok parts /\ forall p, p ∈ parts -> holds cfg p.1) /\
  (forall x, stands cfg x -> exists n parts p, n ∈ d_nodes doc /\ parse_node n false = Ok parts /\ p ∈ parts /\ p.1 = x).
Proof.
  unfold parse, parse_doc. intros Hp Hd. rewrite Hd in Hp. apply bind_ok in Hp as ([raw ls] & Hp & [= <-]). cbn [mbind result_bind] in Hp.
  apply bind_ok in Hp as (st & E & Hp). apply bind_ok in Hp as (st' & E0 & Hp). apply bind_ok in Hp as (u & _ & [= <- <-]). cbn.
  assert ((forall y, holds (s_cfg st') y <-> holds (s_cfg st) y) /\ (forall y, stands (s_cfg st') y <-> stands (s_cfg st) y)) as [Kh Ks].
  { unfold doc_tail in E0. destruct (d_format doc) as [[leading trailing]|]; inv_ok; [apply keep_holds|done]. }
  assert (forall c l y, (holds (with_disabled c l) y <-> holds c y) /\ (stands (with_disabled c l) y <-> stands c y)) as Hw.
  { intros c l y. split; by destruct y as [| | |[]| |[]| | | |]. }
  split.
  - intros n Hn.
    assert (Forall (fun n => exists parts, parse_node n false = Ok parts /\ forall p, p ∈ parts -> holds (s_cfg st) p.1) (d_nodes doc)) as Hf.
    { refine (fold_res_each (fun n st => exists parts, parse_node n false = Ok parts /\ forall p, p ∈ parts -> holds (s_cfg st) p.1) _ _ _ _ _ _ E).
      - intros s a s' _ Ha. apply doc_node_holds in Ha as (parts & Hp & Hh & _). by exists parts.
      - intros s a b s' (parts & Hp & Hh) Ha. apply doc_node_holds in Ha as (_ & _ & _ & Hk & _). exists parts. split; [done|]. intros p Hin. by apply Hk, Hh. }
    rewrite Forall_forall in Hf. destruct (Hf n Hn) as (parts & Hp & Hh). exists parts. split; [done|]. intros p Hin. by apply Hw, Kh, Hh.
  - intros x Hx%Hw%Ks. revert x Hx.
    refine (fold_res_inv (fun st => forall x, stands (s_cfg st) x -> exists n parts p, n ∈ d_nodes doc /\ parse_node n false = Ok parts /\ p ∈ parts /\ p.1 = x) _ _ _ _ _ _ E).
    + intros s n s' Hin Hs Hn x Hx. apply doc_node_holds in Hn as (parts & Hp & _ & _ & Hk). apply Hk in Hx as [Hx|(p & Hp' & <-)]; [by apply Hs|].
      by exists n, parts, p.
    + intros [s| | |[]| |[]| |s| |] Hx; cbn in Hx; try done; [by apply not_elem_of_nil in Hx|]. destruct Hx as [<- Hx]. done.
Qed.

(** ** The same of the flat nodes *)

Lemma flat_holds at_ text s cfg : parse text = Ok cfg -> Source_read at_ text = Ok s ->
  (forall m, m ∈ s_flat s -> (exists x, parse_named m false = Ok x /\ holds cfg x) \/
     (n_name m = B "camera" /\ exists n, n ∈ s_flat s /\ n_name n = B "portals")) /\
  (forall x, stands cfg x -> exists m, m ∈ s_flat s /\ parse_named m false = Ok x).
Proof.
  unfold Source_read. intros Hp Hs. inv_ok. rename r into doc. cbn. destruct (doc_holds _ _ _ Hp E) as [Hh Hst].
  assert (forall m n, n ∈ d_nodes doc -> m ∈ flatten_node n -> m ∈ concat (map flatten_node (d_nodes doc))) as Hin.
  { intros m n Hn Hm. apply list_elem_of_In, in_concat. exists (flatten_node n). split; [by apply in_map, list_elem_of_In|by apply list_elem_of_In]. }
  split.
  - intros m Hm. apply list_elem_of_In, in_concat in Hm as (l & (n & <- & Hn)%in_map_iff & Hm). apply list_elem_of_In in Hm, Hn.
    destruct (Hh n Hn) as (parts & Hparts & Hall). destruct (read_has_part _ _ _ Hparts Hm) as [(p & Hp' & Hx)|(Hc & Hn' & Hself)].
    + left. exists p.1. split; [done|]. by apply Hall.
    + right. split; [done|]. exists n. split; [by eapply Hin|done].
  - intros x Hx. destruct (Hst x Hx) as (n & parts & p & Hn & Hparts & Hp' & <-). destruct (part_is_read _ _ _ Hparts Hp') as (m & Hm & Hx').
    exists m. split; [by eapply Hin|done].
Qed.

End Nodes.

(** ** Which checks report *)

(** A pending finding of the layer [i]; one that the parser would refuse as well only under [G]. *)
Definition of_layer (G : Prop) (i : nat) (p : Pending) : Prop := p_layer p = i /\ ((p_check p).1 ∈ PARSER_EQUIVALENT -> G).

Lemma of_layer_quiet G i n c : bool_decide (c.1 ∈ PARSER_EQUIVALENT) = false -> of_layer G i (push i n c).
Proof. intros Hc%bool_decide_eq_false. by split. Qed.

Lemma of_layer_loud (G : Prop) i n c : G -> of_layer G i (push i n c).
Proof. by split. Qed.

(** What a check that never says what the parser says pushes. *)
Ltac quiet :=
  repeat match goal with
  | |- Forall _ [] => apply Forall_nil_2
  | |- Forall _ (_ ++ _) => apply Forall_app; split
  | |- Forall _ (_ :: _) => apply Forall_cons_2
  | |- Forall _ (concat (map _ _)) => apply Forall_concat_map; intros ? _
  | |- of_layer _ _ (push _ _ _) => apply of_layer_quiet; vm_compute; reflexivity
  | |- Forall _ (if ?b then _ else _) => destruct b
  | |- Forall _ (match ?x with _ => _ end) => destruct x
  | |- Forall _ (let '(_, _) := ?x in _) => destruct x
  end.

Section Quiet.
Context `{IpText} `{SyscallNames} `{Kdl} `{Host} `{PolicyFiles} (env : Env) (search_path : list bytes) (G : Prop).

Lemma bus_names_of_layer i s : Forall (of_layer G i) (bus_names i s).
Proof. unfold bus_names, bus_name_rule. quiet. Qed.

Lemma repeat_of_layer i s : Forall (of_layer G i) (repeat_outside_block i s).
Proof. unfold repeat_outside_block, repeat_kind. quiet. Qed.

Lemma share_source_of_layer i n source : Forall (of_layer G i) (share_source i n source).1.
Proof. unfold share_source. destruct (file_type source) as [t|]; [destruct (_ || _)|destruct (bool_decide _)]; cbn [fst]; quiet. Qed.

Lemma home_share_of_layer i n : Forall (of_layer G i) (home_share_node env i n).
Proof. unfold home_share_node. quiet. apply share_source_of_layer. Qed.

Lemma path_share_of_layer i n : Forall (of_layer G i) (path_share_node env i n).
Proof.
  unfold path_share_node. destruct (arg n) as [p|]; [|quiet]. cbv zeta. apply Forall_app. split; [quiet|]. destruct (_ || _); [quiet|].
  match goal with |- context [share_source i n ?src] => pose proof (share_source_of_layer i n src) as Hs; destruct (share_source i n src) as [found fit] end.
  cbn [fst] in Hs. apply Forall_app. split; [exact Hs|quiet].
Qed.

Lemma dbus_node_of_layer i n : Forall (of_layer G i) (dbus_node i n).
Proof. unfold dbus_node, dbus_rule, own_too_wide. quiet. Qed.

(** A rule to own a name of the system bus is refused by the parser as well. *)
Lemma system_bus_of_layer i n : (forall rule, rule ∈ kids n -> n_name rule = B "own" -> G) -> Forall (of_layer G i) (system_bus i n).
Proof.
  intros Hg. unfold system_bus. apply Forall_concat_map. intros rule Hr. unfold system_rule. destruct (rule_name rule); [|quiet].
  destruct (is_node (B "own") rule) eqn:Ho; [|quiet]. unfold is_node in Ho. bool_to_prop. constructor; [|quiet]. apply of_layer_loud. by eapply Hg.
Qed.

Lemma layer_node_of_layer i n : (forall rule, n_name n = B "system-bus" -> rule ∈ kids n -> n_name rule = B "own" -> G) ->
  Forall (of_layer G i) (layer_node env i n).
Proof.
  intros Hg. unfold layer_node. cbv zeta.
  repeat match goal with |- Forall _ (if is_node ?w n || _ then _ else _) => destruct (is_node w n) eqn:?; cbn [orb]
    | |- Forall _ (if is_node ?w n then _ else _) => destruct (is_node w n) eqn:? end;
    try (first [apply home_share_of_layer | apply path_share_of_layer | apply dbus_node_of_layer]; fail);
    try (unfold network_node, allow_host_rule, env_node, env_entry, microphone_note, camera_nodes; quiet; fail).
  - destruct (arg n); [apply share_source_of_layer|quiet].
  - apply system_bus_of_layer. unfold is_node in *. bool_to_prop. intros rule. by apply Hg.
Qed.

(** ** Every finding of a run *)

Definition within (n : nat) (p : Pending) : Prop := (p_layer p < n)%nat /\ ((p_check p).1 ∈ PARSER_EQUIVALENT -> G).

Lemma of_layer_within i n p : (i < n)%nat -> of_layer G i p -> within n p.
Proof. intros Hi [Hl Hp]. split; [by rewrite Hl|done]. Qed.

Lemma enumerate_elem {A} (l : list A) i a : (i, a) ∈ enumerate l -> l !! i = Some a.
Proof.
  unfold enumerate. intros (k & Hk)%list_elem_of_lookup. apply lookup_zip_Some in Hk as [Hi Ha]. apply lookup_seq in Hi as [-> _]. exact Ha.
Qed.

Lemma enumerate_within {A} (l : list A) i a : (i, a) ∈ enumerate l -> (i < length l)%nat /\ a ∈ l.
Proof. intros Hi%enumerate_elem. split; [by eapply lookup_lt_Some|by eapply list_elem_of_lookup_2]. Qed.

Lemma over_layers_within f sources : (forall i s, s ∈ sources -> Forall (of_layer G i) (f i s)) -> Forall (within (length sources)) (over_layers f sources).
Proof.
  intros Hf. apply Forall_concat_map. intros [i s] [Hi Hs]%enumerate_within. cbn. eapply Forall_impl; [by apply Hf|]. intros p. by apply of_layer_within.
Qed.

Lemma last_node_within sources name i n : last_node sources name = Some (i, n) -> (i < length sources)%nat.
Proof.
  unfold last_node. intros Hl. apply head_Some_elem_of, list_elem_of_omap in Hl as ([j s] & Hj & Hn).
  apply list_elem_of_In, in_rev, list_elem_of_In in Hj.
  apply enumerate_within in Hj as [Hj _]. cbn in Hn. destruct (last _); [|discriminate Hn]. by injection Hn as <- <-.
Qed.

Lemma quiet_within n i m c : (i < n)%nat -> bool_decide (c.1 ∈ PARSER_EQUIVALENT) = false -> within n (push i m c).
Proof. intros Hi Hc. by apply (of_layer_within i), of_layer_quiet. Qed.

(** Where a check says what the parser says, the parser has [G] to say. *)
Record explained (sources : list Source) : Prop := {
  x_own : forall s n rule, s ∈ sources -> n ∈ s_flat s -> n_name n = B "system-bus" -> rule ∈ kids n -> n_name rule = B "own" -> G;
  x_bundle : anywhere sources (B "dbus") = false -> forall s n, s ∈ sources -> n ∈ s_flat s -> n_name n ∈ BUNDLES -> G;
  x_camera : anywhere sources (B "portals") = false -> forall s n, s ∈ sources -> n ∈ s_flat s -> n_name n = B "camera" -> G;
  x_policy : dup_policies sources <> [] -> G }.

Lemma per_layer_of_layer sources i s : explained sources -> s ∈ sources -> Forall (of_layer G i) (per_layer env i s).
Proof.
  intros Hx Hs. unfold per_layer. apply Forall_app. split; [apply bus_names_of_layer|]. apply Forall_app. split; [apply repeat_of_layer|].
  apply Forall_concat_map. intros n Hn. apply layer_node_of_layer. intros rule. by apply (x_own sources Hx s).
Qed.

Lemma elem_top s name n : n ∈ top s name <-> n ∈ s_flat s /\ n_name n = name.
Proof. unfold top, is_node. rewrite list_elem_of_In, filter_In, <-list_elem_of_In. by rewrite bool_decide_eq_true. Qed.

Lemma unmet_bundles_of_layer sources i s : explained sources -> anywhere sources (B "dbus") = false -> s ∈ sources ->
  Forall (of_layer G i) (unmet_bundles i s).
Proof.
  intros Hx Hd Hs. unfold unmet_bundles. apply Forall_map, Forall_forall. intros n [Hn Hb]%list_elem_of_In%filter_In.
  apply of_layer_loud. apply list_elem_of_In in Hn. apply bool_decide_eq_true in Hb. by eapply x_bundle.
Qed.

Lemma unmet_portals_of_layer sources i s : explained sources -> anywhere sources (B "portals") = false -> s ∈ sources ->
  Forall (of_layer G i) (unmet_portals i s).
Proof.
  intros Hx Hd Hs. unfold unmet_portals. apply Forall_app. split; [|unfold portal_rule; quiet].
  apply Forall_map, Forall_forall. intros n [Hn Hc]%elem_top. apply of_layer_loud. by eapply x_camera.
Qed.

Lemma policy_step_layer n i st r : (i < n)%nat -> Forall (fun p => p_layer p < n)%nat st.2 -> Forall (fun p => p_layer p < n)%nat (policy_step i st r).2.
Proof.
  intros Hi Hst. destruct st as [policies found], r as [bus rule]. cbn in Hst. unfold policy_step. destruct (negb _); [done|].
  destruct (rule_name rule); [|done]. destruct (List.find _ _) as [[p was]|]; [|done]. destruct (bool_decide _); [done|].
  apply Forall_app. split; [done|]. by constructor.
Qed.

Lemma dup_policies_within sources : explained sources -> Forall (within (length sources)) (dup_policies sources).
Proof.
  intros Hx. assert (Forall (fun p => p_layer p < length sources)%nat (dup_policies sources)) as Hl.
  { unfold dup_policies. apply (fold_left_inv (fun st => Forall (fun p => p_layer p < length sources)%nat st.2)); [|done].
    intros st [i s] [Hi _]%enumerate_within Hst. apply (fold_left_inv (fun st => Forall (fun p => p_layer p < length sources)%nat st.2)); [|done].
    intros st' r _. by apply policy_step_layer. }
  apply Forall_forall. intros p Hp. rewrite Forall_forall in Hl. split; [by apply Hl|]. intros _. apply (x_policy _ Hx). intros He. rewrite He in Hp.
  by apply not_elem_of_nil in Hp.
Qed.

Lemma command_node_within sources i n a : command_node sources = Some (i, n, a) -> (i < length sources)%nat.
Proof.
  unfold command_node. destruct (last_node sources _) as [[j m]|] eqn:El; [|done]. cbn. destruct (arg m); [|done]. intros [= <- <- <-].
  by eapply last_node_within.
Qed.

(** A finding about the last node of a name. *)
Ltac at_last := repeat match goal with
  | |- Forall _ (match last_node ?l ?w with _ => _ end) => let E := fresh in destruct (last_node l w) as [[? ?]|] eqn:E; [apply last_node_within in E|]
  | |- Forall _ (match command_node ?l with _ => _ end) => let E := fresh in destruct (command_node l) as [[[? ?] ?]|] eqn:E; [apply command_node_within in E|]
  | |- Forall _ [] => apply Forall_nil_2
  | |- Forall _ (if ?b then _ else _) => destruct b
  | |- Forall _ [push _ _ _] => apply Forall_cons_2; [apply quiet_within; [assumption|vm_compute; reflexivity]|apply Forall_nil_2]
  end.

Lemma across_layers_within sources : explained sources -> Forall (within (length sources)) (across_layers env search_path sources).
Proof.
  intros Hx. unfold across_layers. cbv zeta. repeat (apply Forall_app; split).
  - destruct (anywhere sources (B "dbus")) eqn:Hd; [by constructor|]. apply over_layers_within. intros i s Hs. by eapply unmet_bundles_of_layer.
  - destruct (_ && _); [|by constructor]. unfold dbus_without_rules.
    match goal with |- context [match ?l with _ => _ end] => destruct l as [|[i n] rest] eqn:El end; [by constructor|].
    destruct (forallb _ _); [|by constructor]. apply Forall_cons_2; [|by constructor]. apply quiet_within; [|reflexivity].
    assert ((i, n) ∈ concat (map (fun x => map (pair x.1) (top x.2 (B "dbus"))) (enumerate sources))) as Hin by (rewrite El; left).
    apply list_elem_of_In, in_concat in Hin as (l & ([j s] & <- & Hj)%in_map_iff & (m & [= -> ->] & _)%in_map_iff).
    apply list_elem_of_In in Hj. by apply enumerate_within in Hj as [Hj _].
  - destruct (anywhere sources (B "portals")) eqn:Hd; [by constructor|]. apply over_layers_within. intros i s Hs. by eapply unmet_portals_of_layer.
  - by apply dup_policies_within.
  - unfold clipboard_open. at_last.
  - unfold nested_userns. at_last.
  - unfold command_not_found. at_last.
  - unfold desktop_missing. destruct (last_node sources _) as [[i n]|] eqn:El; cbn; [|by constructor]. apply last_node_within in El. destruct (arg n); cbn; at_last.
  - unfold unguarded_terminal. cbv zeta. at_last.
Qed.

Lemma audio_node_within sources i n : audio_node sources = Some (i, n) -> (i < length sources)%nat.
Proof.
  unfold audio_node. intros Hl. apply head_Some_elem_of, list_elem_of_omap in Hl as ([j s] & Hj & Hn). apply enumerate_within in Hj as [Hj _].
  cbn in Hn. destruct (List.find _ _); [|discriminate Hn]. by injection Hn as <- <-.
Qed.

Lemma pending_within sources : explained sources -> Forall (within (length sources)) (pending env search_path sources).
Proof.
  intros Hx. unfold pending. cbv zeta. apply Forall_app. split.
  - rewrite !Forall_app. split_and!.
    + apply over_layers_within. intros i s Hs. by eapply per_layer_of_layer.
    + by apply across_layers_within.
    + unfold audio_policy_missing. destruct (missing env); [|by constructor]. destruct (audio_node sources) as [[i n]|] eqn:Ea; [|by constructor].
      apply audio_node_within in Ea. at_last.
    + unfold audio_policy_differs. destruct (bool_decide _); [by constructor|]. destruct (audio_node sources) as [[i n]|] eqn:Ea; [|by constructor].
      apply audio_node_within in Ea. at_last.
  - unfold unused_allows. apply over_layers_within. intros i s _. apply Forall_forall. intros p (n & _ & Hp)%list_elem_of_omap.
    cbv beta in Hp. destruct (arg n); [|discriminate Hp]. cbn in Hp. destruct (bool_decide _); [discriminate Hp|]. injection Hp as <-. by apply of_layer_quiet.
Qed.
End Quiet.


(** ** The rules of a bus, read twice *)

Section Buses.
Context `{IpText} `{!IpTextLaws} `{SyscallNames} `{Kdl}.

Lemma one_arg_is child a : one_string_arg child = Ok a -> arg child = Some a.
Proof.
  unfold one_string_arg, arg, string_of. intros Ho. destruct (n_entries child) as [|e []] eqn:Ee; cbn in Ho; try (by repeat case_match).
  cbn. destruct (e_name e); cbn in *; [discriminate Ho|]. inv_ok. done.
Qed.

(** The linter reads the name and the level of a rule that the parser read. *)
Lemma read_policy n own child r name : bus_rule_of n own child = Ok r -> n_name child ∈ [B "see"; B "talk"; B "own"] -> rule_name child = Some name ->
  BusRule.policy r = Some (name, n_name child).
Proof.
  unfold bus_rule_of. intros Hr Hl Hn. apply bind_ok in Hr as (_ & _ & Hr). apply bind_ok in Hr as (_ & _ & Hr). cbv zeta in Hr.
  apply bind_ok in Hr as (a & Ha & Hr). apply one_arg_is in Ha. unfold rule_name in Hn. rewrite Ha in Hn. cbn [mbind option_bind] in Hn.
  assert (bool_decide (n_name child = B "call") || bool_decide (n_name child = B "broadcast") = false) as Hc.
  { clear -Hl. repeat (apply elem_of_cons in Hl as [->|Hl]; [reflexivity|]). by apply not_elem_of_nil in Hl. }
  rewrite Hc in Hn. injection Hn as ->.
  repeat (apply elem_of_cons in Hl as [Hl|Hl]; [rewrite Hl in *; revert Hr; names_in; cbn [orb andb]|]); try (by apply not_elem_of_nil in Hl).
  - intros Hr. apply bind_ok in Hr as (b & Hb & [= <-]). by apply bus_name_ok in Hb as [-> _].
  - intros Hr. apply bind_ok in Hr as (b & Hb & [= <-]). by apply bus_name_ok in Hb as [-> _].
  - destruct (negb own); [discriminate|]. intros Hr. apply bind_ok in Hr as (b & Hb & [= <-]). by apply bus_name_ok in Hb as [-> _].
Qed.

Lemma rule_is_read n own rules child : parse_bus_rules n own = Ok rules -> child ∈ kids n -> exists r, r ∈ rules /\ bus_rule_of n own child = Ok r.
Proof.
  unfold parse_bus_rules, kids. intros Hp Hc. apply bind_ok in Hp as (_ & _ & Hp). destruct (n_children n) as [children|]; cbn in Hc; [|by apply not_elem_of_nil in Hc].
  revert child Hc. apply Forall_forall. refine (fold_res_each (fun child rules => exists r, r ∈ rules /\ bus_rule_of n own child = Ok r) _ _ _ _ _ _ Hp).
  - intros s child s' _ Hs. unfold bus_rule_step in Hs. inv_ok. destruct (policy_clash _ _) as [[[? ?] ?]|]; [discriminate Hs|]. inv_ok.
    exists r. split; [apply elem_of_app; right; by left|done].
  - intros s a b s' (r & Hr & Hb) Hs. unfold bus_rule_step in Hs. inv_ok. destruct (policy_clash _ _) as [[[? ?] ?]|]; [discriminate Hs|]. inv_ok.
    exists r. split; [apply elem_of_app; by left|done].
Qed.

Lemma no_own_read n child r : bus_rule_of n false child = Ok r -> n_name child <> B "own".
Proof.
  unfold bus_rule_of. intros Hr Hn. rewrite Hn in Hr. apply bind_ok in Hr as (_ & _ & Hr). apply bind_ok in Hr as (_ & _ & Hr). cbv zeta in Hr.
  apply bind_ok in Hr as (a & Ha & Hr). revert Hr. names_in. by cbn [orb andb negb].
Qed.

(** The arms of the two buses. *)
Lemma named_dbus n x : parse_named n false = Ok x -> n_name n = B "dbus" -> exists rules, x = Node.Service (Service.Dbus rules) /\ parse_bus_rules n true = Ok rules.
Proof.
  unfold parse_named, named. intros Hp Hn. rewrite Hn in Hp. revert Hp. names_in. intros Hp. apply bind_ok in Hp as (s & Hs & [= <-]).
  unfold parse_dbus in Hs. apply bind_ok in Hs as (rules & Hs & [= <-]). by exists rules.
Qed.

Lemma named_system_bus n x : parse_named n false = Ok x -> n_name n = B "system-bus" ->
  exists rules, x = Node.Service (Service.SystemBus rules) /\ parse_bus_rules n false = Ok rules.
Proof.
  unfold parse_named, named. intros Hp Hn. rewrite Hn in Hp. revert Hp. names_in. intros Hp. apply bind_ok in Hp as (s & Hs & [= <-]).
  unfold parse_system_bus in Hs. apply bind_ok in Hs as (rules & Hs & Hr). destruct (bool_decide _); [discriminate Hr|]. injection Hr as <-. by exists rules.
Qed.

(** ** Policies *)

Definition rule_policy (r : bytes * KdlNode) : option (bytes * bytes * bytes) :=
  if negb (bool_decide (n_name r.2 ∈ [B "see"; B "talk"; B "own"])) then None else name ← rule_name r.2; Some (r.1, name, n_name r.2).

(** Where every name has one policy, no rule is reported. *)
Lemma policies_quiet i rules : (forall r1 r2 k l1 l2, r1 ∈ rules -> r2 ∈ rules -> rule_policy r1 = Some (k, l1) -> rule_policy r2 = Some (k, l2) -> l1 = l2) ->
  (fold_left (policy_step i) rules ([], [])).2 = [].
Proof.
  intros Hone. apply (fold_left_inv (fun st => (forall p, p ∈ st.1 -> exists r, r ∈ rules /\ rule_policy r = Some p) /\ st.2 = [])); [|by split; [intros p Hp%not_elem_of_nil|]].
  intros [policies found] [bus rule] Hin [Hp Hf]. cbn in Hp, Hf. subst found. pose proof (eq_refl (rule_policy (bus, rule))) as Hr. unfold rule_policy in Hr at 2.
  cbn [fst snd] in Hr. unfold policy_step. cbv zeta. destruct (negb _); [by split|]. destruct (rule_name rule) as [name|]; [|by split]. cbn in Hr.
  assert (forall p, p ∈ policies ++ [(bus, name, n_name rule)] -> exists r, r ∈ rules /\ rule_policy r = Some p) as Hsnoc.
  { intros p [Hq|Hq%list_elem_of_singleton]%elem_of_app; [by apply Hp|]. subst p. by exists (bus, rule). }
  destruct (List.find _ policies) as [[k was]|] eqn:Ef; [|by split]. apply List.find_some in Ef as [Hk Hb]. cbn in Hb. bool_to_prop. subst k.
  rewrite <-list_elem_of_In in Hk. apply Hp in Hk as (r0 & Hr0 & Hk). rewrite bool_decide_true by (by eapply (Hone r0 (bus, rule))). by split.
Qed.
End Buses.


(** ** What was read leaves the parser's checks nothing to say *)

Section Verdict.
Context `{IpText} `{!IpTextLaws} `{SyscallNames} `{Kdl}.

Lemma parse_met text cfg : parse text = Ok cfg ->
  Forall service_wf (services cfg) /\ ForallOrdPairs (fun held svc => Same.twice svc held = false) (services cfg) /\ needs_met (services cfg).
Proof.
  unfold parse. intros Hp. apply bind_ok in Hp as ([raw ls] & Hp & [= <-]). apply parse_doc_inv in Hp as (st & [Hc _ _ _ _ _ _] & _ & _ & Hn & -> & _).
  destruct Hc. cbn. split; [done|]. split; [done|]. by apply check_needs_met.
Qed.

Lemma once_same {A} (R : A -> A -> Prop) l a b : ForallOrdPairs R l -> a ∈ l -> b ∈ l -> ~ R a b -> ~ R b a -> a = b.
Proof.
  induction 1 as [|c l Hc _ IH]; intros Ha Hb Hab Hba; [by apply not_elem_of_nil in Ha|]. rewrite Forall_forall in Hc.
  apply elem_of_cons in Ha as [->|Ha], Hb as [->|Hb]; [done|by destruct Hab; apply Hc|by destruct Hba; apply Hc|by apply IH].
Qed.

Definition svc_of (bus : bytes) (rules : list BusRule.t) : Service.t :=
  if bool_decide (bus = B "dbus") then Service.Dbus rules else Service.SystemBus rules.

Section Read.
Context (at_ : Where.t) (text : bytes) (s : Source) (cfg : InstanceConfig) (Hp : parse text = Ok cfg) (Hs : Source_read at_ text = Ok s).

Lemma flat_read m : m ∈ s_flat s -> n_name m <> B "camera" -> exists x, parse_named m false = Ok x /\ holds cfg x /\ Node.name x = n_name m.
Proof.
  intros Hm Hc. destruct (flat_holds _ _ _ _ Hp Hs) as [Hh _]. destruct (Hh m Hm) as [(x & Hx & Hx')|[? _]]; [|done]. exists x. split; [done|]. split; [done|].
  by eapply parse_named_name.
Qed.

Lemma standing_read x : stands cfg x -> exists m, m ∈ s_flat s /\ parse_named m false = Ok x /\ n_name m = Node.name x.
Proof.
  intros Hx. destruct (flat_holds _ _ _ _ Hp Hs) as [_ Hst]. destruct (Hst x Hx) as (m & Hm & Hr). exists m. split; [done|]. split; [done|].
  symmetry. by eapply parse_named_name.
Qed.

Lemma standing_anywhere svc : svc ∈ services cfg -> anywhere [s] (Service.node_name svc) = true.
Proof.
  intros Hin. destruct (standing_read (Node.Service svc) Hin) as (m & Hm & _ & Hn). unfold anywhere. cbn [existsb]. apply orb_true_iff. left.
  apply negb_true_iff, bool_decide_eq_false. intros He. assert (m ∈ top s (Service.node_name svc)) as Ht by (by apply elem_top). rewrite He in Ht.
  by apply not_elem_of_nil in Ht.
Qed.

(** Each rule of a bus and the rules it is one of. *)
Lemma bus_rule_read bus rule : (bus, rule) ∈ bus_rules s ->
  exists rules n own, svc_of bus rules ∈ services cfg /\ parse_bus_rules n own = Ok rules /\ rule ∈ kids n /\ (bus = B "dbus" \/ own = false).
Proof.
  unfold bus_rules. intros (l & (b & <- & Hb)%in_map_iff & Hin)%list_elem_of_In%in_concat.
  apply list_elem_of_In in Hin. apply list_elem_of_In, in_concat in Hin as (l & (n & <- & Hn)%in_map_iff & Hin).
  apply in_map_iff in Hin as (k & [= -> ->] & Hk). apply list_elem_of_In in Hn, Hk. apply elem_top in Hn as [Hn Hname].
  assert (bus = B "dbus" \/ bus = B "system-bus") as [Hbus|Hbus] by (destruct Hb as [<-|[<-|[]]]; auto).
  - destruct (flat_read n Hn) as (x & Hx & Hh & _); [rewrite Hname, Hbus; discriminate|]. rewrite Hbus in Hname.
    destruct (named_dbus _ _ Hx Hname) as (rules & -> & Hr). exists rules, n, true. unfold svc_of. rewrite bool_decide_true by done. auto.
  - destruct (flat_read n Hn) as (x & Hx & Hh & _); [rewrite Hname, Hbus; discriminate|]. rewrite Hbus in Hname.
    destruct (named_system_bus _ _ Hx Hname) as (rules & -> & Hr). exists rules, n, false. unfold svc_of. rewrite bool_decide_false by (rewrite Hbus; discriminate). auto.
Qed.

Lemma svc_once bus rules1 rules2 : svc_of bus rules1 ∈ services cfg -> svc_of bus rules2 ∈ services cfg -> rules1 = rules2.
Proof.
  intros H1' H2'. destruct (parse_met _ _ Hp) as (_ & Ho & _).
  assert (svc_of bus rules1 = svc_of bus rules2) as He.
  { apply (once_same _ _ _ _ Ho H1' H2'); unfold svc_of; destruct (bool_decide _); discriminate. }
  unfold svc_of in He. destruct (bool_decide _); by injection He.
Qed.

Lemma rules_agree r1 r2 k l1 l2 : r1 ∈ bus_rules s -> r2 ∈ bus_rules s -> rule_policy r1 = Some (k, l1) -> rule_policy r2 = Some (k, l2) -> l1 = l2.
Proof.
  destruct r1 as [bus1 rule1], r2 as [bus2 rule2]. intros (rules1 & n1 & o1 & S1 & P1 & K1 & _)%bus_rule_read (rules2 & n2 & o2 & S2 & P2 & K2 & _)%bus_rule_read.
  unfold rule_policy. cbn [fst snd]. intros Hr1 Hr2.
  destruct (negb _) eqn:L1 in Hr1; [discriminate Hr1|]. destruct (negb _) eqn:L2 in Hr2; [discriminate Hr2|].
  destruct (rule_name rule1) as [m1|] eqn:N1; [|discriminate Hr1]. destruct (rule_name rule2) as [m2|] eqn:N2; [|discriminate Hr2].
  cbn in Hr1, Hr2. injection Hr1 as Hk1 <-. injection Hr2 as Hk2 <-. rewrite <-Hk2 in Hk1. injection Hk1 as -> ->. clear Hk2. bool_to_prop.
  destruct (rule_is_read _ _ _ _ P1 K1) as (r1 & E1 & B1), (rule_is_read _ _ _ _ P2 K2) as (r2 & E2 & B2).
  rewrite (svc_once _ _ _ S2 S1) in E2. apply read_policy with (name := m2) in B1, B2; try done.
  assert (rules_wf rules1) as [_ Hone].
  { destruct (parse_met _ _ Hp) as (Hw & _ & _). rewrite Forall_forall in Hw. specialize (Hw _ S1). unfold svc_of in Hw. destruct (bool_decide _); [done|apply Hw]. }
  exact (Hone r1 r2 _ _ _ E1 E2 B1 B2).
Qed.

Lemma read_explained : explained False [s].
Proof.
  split.
  - intros s' n rule ->%list_elem_of_singleton Hn Hname Hr Ho. destruct (flat_read n Hn) as (x & Hx & _ & _); [rewrite Hname; discriminate|].
    destruct (named_system_bus _ _ Hx Hname) as (rules & -> & Hrules). destruct (rule_is_read _ _ _ _ Hrules Hr) as (r & _ & Hb). by apply no_own_read in Hb.
  - intros Hd s' n ->%list_elem_of_singleton Hn Hb.
    assert (n_name n <> B "camera") as Hc by (intros Hc; rewrite Hc in Hb; revert Hb; by apply (bool_decide_unpack (B "camera" ∉ BUNDLES))).
    destruct (flat_read n Hn Hc) as (x & _ & Hh & Hx). destruct (parse_met _ _ Hp) as (_ & _ & [Hdbus _ _]). rewrite <-Hx in Hb.
    destruct x as [svc| | | | | | | | |]; try (revert Hb; by apply (bool_decide_unpack (_ ∉ BUNDLES))).
    destruct (Hdbus svc Hh) as (rules & Hin); [destruct svc; try done; exfalso; revert Hb; by apply (bool_decide_unpack (_ ∉ BUNDLES))|].
    apply standing_anywhere in Hin. discriminate (eq_trans (eq_sym Hin) Hd).
  - intros Hd s' n ->%list_elem_of_singleton Hn Hc. destruct (flat_holds _ _ _ _ Hp Hs) as [Hh _]. destruct (Hh n Hn) as [(x & Hx & Hx')|(_ & m & Hm & Hname)].
    + pose proof (parse_named_name _ _ _ Hx) as Hname. rewrite Hc in Hname. destruct x as [svc| | | | | | | | |]; try discriminate Hname.
      destruct svc; try discriminate Hname. destruct (parse_met _ _ Hp) as (_ & _ & [_ Hcam _]). destruct (Hcam _ Hx') as (ch & Hin).
      apply standing_anywhere in Hin. discriminate (eq_trans (eq_sym Hin) Hd).
    + unfold anywhere in Hd. cbn [existsb] in Hd. apply orb_false_iff in Hd as [Hd _]. apply negb_false_iff, bool_decide_eq_true in Hd.
      assert (m ∈ top s (B "portals")) as Ht by (by apply elem_top). rewrite Hd in Ht. by apply not_elem_of_nil in Ht.
  - intros Hd. apply Hd. unfold dup_policies, enumerate. cbn [length seq zip zip_with fold_left fst snd]. apply policies_quiet. exact rules_agree.
Qed.
End Read.
End Verdict.


(** ** A run *)

Section Runs.
Context `{IpText} `{!IpTextLaws} `{SyscallNames} `{Kdl} `{Host} `{PolicyFiles} (env : Env) (search_path : list bytes).

(** The findings of a run before their places are worked out, in the order they are reported. *)
Definition reported (sources : list Source) : list Pending :=
  List.filter (fun p => negb (accepted (allowed_ids sources) p)) (in_file_order (pending env search_path sources)).

Lemma omap_if {A C} (b : A -> bool) (f : A -> option C) l :
  omap (fun a => if b a then None else f a) l = omap f (List.filter (fun a => negb (b a)) l).
Proof. induction l as [|a l IH]; cbn; [done|]. destruct (b a); cbn; [done|]. by rewrite IH. Qed.

Lemma run_findings sources : findings (run env search_path sources) = omap (found_at sources) (reported sources).
Proof. unfold run, reported. cbn [findings]. apply omap_if. Qed.

Lemma in_file_order_perm l : in_file_order l ≡ₚ l.
Proof. unfold in_file_order. by rewrite !sort_perm. Qed.

Lemma elem_reported sources p : p ∈ reported sources <-> p ∈ pending env search_path sources /\ accepted (allowed_ids sources) p = false.
Proof.
  unfold reported. rewrite list_elem_of_In, filter_In, <-list_elem_of_In, negb_true_iff, in_file_order_perm. done.
Qed.

(** Every finding has its source, so none is lost on the way into the report. *)
Lemma reported_layer sources p : p ∈ reported sources -> (p_layer p < length sources)%nat.
Proof.
  intros [Hp _]%elem_reported. assert (explained True sources) as Hx by (by split).
  pose proof (pending_within env search_path True _ Hx) as Hw. rewrite Forall_forall in Hw. by apply Hw.
Qed.

Lemma found_at_source sources p : (p_layer p < length sources)%nat ->
  exists s, sources !! p_layer p = Some s /\ found_at sources p = Some (mkFinding (s_at s) (position s (p_offset p)).1 (position s (p_offset p)).2 (p_check p)).
Proof.
  intros [s Hs]%lookup_lt_is_Some_2. exists s. split; [done|]. unfold found_at. rewrite Hs. cbn [mbind option_bind]. by destruct (position s (p_offset p)).
Qed.

Lemma all_found sources : Forall2 (fun p f => found_at sources p = Some f) (reported sources) (findings (run env search_path sources)).
Proof.
  rewrite run_findings. pose proof (reported_layer sources) as Hl. induction (reported sources) as [|p l IH]; cbn; [constructor|].
  destruct (found_at_source sources p) as (s & _ & Hs); [apply Hl; left|]. rewrite Hs. constructor; [exact Hs|]. apply IH. intros q Hq. apply Hl. by right.
Qed.

Lemma finding_reported sources f : f ∈ findings (run env search_path sources) -> exists p, p ∈ reported sources /\ found_at sources p = Some f /\ p_check p = f_check f.
Proof.
  rewrite run_findings. intros (p & Hp & Hf)%list_elem_of_omap. exists p. split; [done|]. split; [done|].
  destruct (found_at_source sources p (reported_layer _ _ Hp)) as (s & _ & Hs). rewrite Hs in Hf. by injection Hf as <-.
Qed.


Lemma reported_ordered sources : ForallOrdPairs (fun p q => (p_layer p < p_layer q)%nat \/ (p_layer p = p_layer q /\ p_offset p <= p_offset q)) (reported sources).
Proof.
  unfold reported, in_file_order. generalize (pending env search_path sources). intros l.
  assert (ForallOrdPairs (fun p q => p_offset p <= p_offset q) (sort_by_key p_offset l)) as Ho.
  { assert (ForallOrdPairs (fun p q => p_offset p <= p_offset q /\ True) (sort_by_key p_offset l)) as Ht.
    { apply sort_ordered; [done|]. induction l; constructor; [by apply Forall_forall|done]. }
    induction Ht as [|a k Ha _ IH]; constructor; [|done]. eapply Forall_impl; [exact Ha|]. by intros q [Hq _]. }
  assert (ForallOrdPairs (fun p q => Z.of_nat (p_layer p) <= Z.of_nat (p_layer q) /\
    ((p_layer p < p_layer q)%nat \/ (p_layer p = p_layer q /\ p_offset p <= p_offset q)))
    (sort_by_key (fun p => Z.of_nat (p_layer p)) (sort_by_key p_offset l))) as Hs.
  { apply sort_ordered; [intros b c Hlt; left; lia|]. induction Ho as [|a k Ha _ IH]; constructor; [|done].
    eapply Forall_impl; [exact Ha|]. intros q Hq He. right. split; [lia|done]. }
  clear Ho. induction Hs as [|a k Ha _ IH]; cbn; [constructor|]. destruct (negb _); [|done]. constructor; [|done].
  apply Forall_forall. intros q [Hq _]%list_elem_of_In%filter_In. rewrite Forall_forall in Ha. by apply Ha, list_elem_of_In.
Qed.

(** ** The verdict *)

Lemma explains_finding r : explains_a_parse_failure r = true -> exists f, f ∈ findings r /\ f_id f ∈ PARSER_EQUIVALENT.
Proof.
  unfold explains_a_parse_failure. cbv zeta. intros [Hn Ha]%andb_true_iff. apply negb_true_iff, bool_decide_eq_false in Hn.
  destruct (List.filter _ _) as [|f fs] eqn:Ef; [done|]. cbn [forallb] in Ha. apply andb_true_iff in Ha as [Ha _]. apply bool_decide_eq_true in Ha. exists f. split; [|done].
  assert (In f (f :: fs)) as Hin by (by left). rewrite <-Ef in Hin. apply filter_In in Hin as [Hin _]. by apply list_elem_of_In.
Qed.

Lemma read_quiet at_ text s cfg f : parse text = Ok cfg -> Source_read at_ text = Ok s ->
  f ∈ findings (run env search_path [s]) -> f_id f ∈ PARSER_EQUIVALENT -> False.
Proof.
  intros Hp Hs (p & [Hp' _]%elem_reported & _ & Hc)%finding_reported Hid.
  pose proof (pending_within env search_path False _ (read_explained _ _ _ _ Hp Hs)) as Hw. rewrite Forall_forall in Hw. apply (Hw p Hp'). by rewrite Hc.
Qed.

(** C8. What the linter says of a file is what the parser says of it: a report holds a
    finding of one of the parser's own checks (a bundle without [dbus], a camera without
    [portals], two policies for one name, a name owned on the system bus) exactly when the
    file is one that is not read, and where there is no report the linter fails with the
    parser's own refusal.  So a file that is refused is never reported clean, and no file
    that can be run is told it cannot. *)
Theorem lint_tells_whether_it_parses at_ text :
  match lint_text env search_path at_ text with
  | Ok report => (exists f, f ∈ findings report /\ f_id f ∈ PARSER_EQUIVALENT) <-> is_ok (parse text) = false
  | Err e => exists c, e = ConfigE c /\ parse text = Err c
  end.
Proof.
  unfold lint_text, config_err. destruct (Source_read at_ text) as [s|c] eqn:Es; cbn [map_err mbind result_bind].
  - destruct (explains_a_parse_failure _) eqn:Hx; cbn [mbind result_bind].
    + apply explains_finding in Hx as (f & Hf & Hid). split; [intros _|by exists f]. destruct (parse text) as [cfg|] eqn:Hp; [|done].
      by destruct (read_quiet at_ text s cfg f).
    + destruct (parse text) as [cfg|c] eqn:Hp; cbn [map_err mbind result_bind is_ok]; [|by exists c].
      split; [|done]. intros (f & Hf & Hid). by destruct (read_quiet at_ text s cfg f).
  - exists c. split; [done|]. unfold Source_read in Es. unfold parse, parse_doc. destruct (parse_document text) as [doc|]; [discriminate Es|].
    by injection Es as ->.
Qed.

(** A report says everything that was found, once each and in the order of the layers
    and of the file, and leaves out only what a [lint-allow] of some layer names: never an
    error, never the finding about an unused [lint-allow]. *)
Theorem report_loses_nothing sources :
  exists ps, Forall2 (fun p f => found_at sources p = Some f /\ p_check p = f_check f) ps (findings (run env search_path sources)) /\
    (forall p, p ∈ pending env search_path sources ->
       p ∈ ps \/ ((p_check p).1 ∈ allowed_ids sources /\ (p_check p).2 <> Severity.Error /\ p_check p <> LINT_ALLOW_UNUSED)) /\
    (exists left_out, pending env search_path sources ≡ₚ ps ++ left_out) /\
    ForallOrdPairs (fun p q => (p_layer p < p_layer q)%nat \/ (p_layer p = p_layer q /\ p_offset p <= p_offset q)) ps.
Proof.
  exists (reported sources). split_and!.
  - pose proof (all_found sources) as Hf. eapply Forall2_impl; [exact Hf|]. intros p f Hp. split; [done|].
    unfold found_at in Hp. destruct (sources !! p_layer p) as [s|]; [|discriminate Hp]. cbn in Hp. destruct (position s _). by injection Hp as <-.
  - intros p Hp. destruct (accepted (allowed_ids sources) p) eqn:Ha; [right|left; by apply elem_reported].
    unfold accepted in Ha. apply andb_true_iff in Ha as [[He Hu]%andb_true_iff Hin]. bool_to_prop. split; [done|]. split; [done|]. intros Heq. by rewrite Heq in Hu.
  - exists (List.filter (fun p => accepted (allowed_ids sources) p) (in_file_order (pending env search_path sources))).
    rewrite <-(in_file_order_perm (pending env search_path sources)) at 1. unfold reported.
    induction (in_file_order _) as [|p l IH]; cbn; [done|]. destruct (accepted _ p); cbn; [|by rewrite <-IH].
    rewrite IH at 1. apply Permutation_middle.
  - apply reported_ordered.
Qed.

End Runs.

(** ** What the linter reads of a node is what the parser read *)

Section Reading.
Context {S : Type} (sel : KdlEntry -> bool) (f : S -> KdlEntry -> result ConfigError S) (none : S -> Prop) (reads_ : S -> bytes -> Prop).

(** A parser that takes one entry of a kind, a string, and refuses a second. *)
Context (step : forall st e st', f st e = Ok st' ->
  if sel e then none st /\ exists s, as_string (e_value e) = Some s /\ reads_ st' s
  else (none st -> none st') /\ forall s, reads_ st s -> reads_ st' s).
Context (excl : forall st s, none st -> reads_ st s -> False).


End Reading.

Section Read.
Context `{IpText} `{SyscallNames}.











End Read.


(** ** The arms of the parser *)

Section Arms.
Context `{IpText} `{SyscallNames}.



(** ** The name a rule of a bus is about *)




End Arms.


(** ** The names a rule lets be reached *)

(** As [is_bus_name] documents it: a last element [*] covers the name and every name below it. *)
Definition reaches (rule n : bytes) : Prop :=
  rule = n \/ exists base, rule = base ++ [DOT; STAR] /\ (n = base \/ exists below, n = base ++ DOT :: below).

(** The names that run a command on the host for whoever talks to them: three of their own,
    and every backend of a portal. *)
Definition RUNNERS : list bytes := [B "org.freedesktop.systemd1"; B "org.freedesktop.Flatpak"; B "ca.desrt.dconf"].
(** The names that reach the rest of the session. *)
Definition SESSION_NAMES : list bytes := [B "org.kde.KWin"; B "org.gnome.Shell"; B "org.freedesktop.FileManager1"; B "org.freedesktop.secrets"].






(** ** What a clean report says *)


Section Clean.
Context `{IpText} `{!IpTextLaws} `{SyscallNames} `{Kdl} `{Host} `{PolicyFiles} (env : Env) (search_path : list bytes).



(** ** The players of an [mpris] node *)











Section OneFile.
Context (at_ : Where.t) (text : bytes) (s : Source) (cfg : InstanceConfig) (Hp : parse text = Ok cfg) (Hs : Source_read at_ text = Ok s).







End OneFile.

End Clean.


(** ** A property written twice *)

(** C37. The linter does not see that the family of a name covers the name: a rule written [X.*]
    for a name [X] that runs commands on the host, or that reaches the session, is a name the
    parser takes and reaches [X], and neither of the two checks of names reports it. *)
Theorem family_of_a_name_is_not_reported i rule n : n ∈ RUNNERS \/ n ∈ SESSION_NAMES -> n_name rule ∈ LEVELS -> rule_name rule = Some (n ++ [DOT; STAR]) ->
  is_bus_name (n ++ [DOT; STAR]) = true /\ reaches (n ++ [DOT; STAR]) n /\ bus_name_rule i rule = [].
Proof.
  intros Hn Hl Hr. split; [|split; [right; exists n; split; [done|by left]|]].
  - assert (Forall (fun n => is_bus_name (n ++ [DOT; STAR]) = true) (RUNNERS ++ SESSION_NAMES)) as Hall by by_decide.
    rewrite Forall_forall in Hall. apply Hall, elem_of_app, Hn.
  - unfold bus_name_rule. rewrite bool_decide_true by done. cbn [negb]. rewrite Hr.
    assert (Forall (fun n => existsb (name_covers (n ++ [DOT; STAR])) (HOST_EXEC_NAMES ++ RISKY_NAMES) = false) (RUNNERS ++ SESSION_NAMES)) as Hall by by_decide.
    rewrite Forall_forall in Hall. specialize (Hall n (proj2 (elem_of_app _ _ _) Hn)). rewrite existsb_app in Hall. apply orb_false_iff in Hall as [-> ->]. done.
Qed.

(** C38. The linter reads the first of a property written twice and the parser keeps the
    last: an [mpris] node whose first [name] is any other name and whose second is [*] is
    granted every player on the bus, and [mpris-wildcard] is not reported, nor anything
    else of that node. *)
Theorem doubled_name_is_not_reported `{Host} env i n a ty1 ty2 :
  n_name n = B "mpris" -> n_children n = None ->
  n_entries n = [mkEntry (Some (B "name")) (KString a) ty1; mkEntry (Some (B "name")) (KString [STAR]) ty2] ->
  is_name_glob a 1 = true -> a <> [STAR] ->
  parse_mpris n = Ok (Service.Mpris [STAR]) /\ layer_node env i n = [].
Proof.
  intros Hn Hc He Ha Hs. split.
  - unfold parse_mpris, no_children. rewrite He, Hc. cbn [fold_res]. unfold mpris_entry, string_of. cbn [e_name e_value as_string ok_or mbind result_bind]. names_in.
    rewrite Ha. cbn [negb]. replace (is_name_glob [STAR] 1) with true by (vm_compute; reflexivity). reflexivity.
  - unfold layer_node, is_node. cbv zeta. rewrite Hn. names_in. cbn [orb]. unfold prop, entry. rewrite He. cbn [List.find e_name].
    names_in. cbn [mbind option_bind as_string e_value]. by rewrite bool_decide_false by congruence.
Qed.

(** ** Files *)

Section Demo.
Local Definition node (name : bytes) (offset : Z) (es : list KdlEntry) (kids : option (list KdlNode)) : KdlNode := mkNode name offset false es kids None.
Local Definition word (s : bytes) : KdlEntry := mkEntry None (KString s) false.
Local Definition keyed (k s : bytes) : KdlEntry := mkEntry (Some k) (KString s) false.

(** A file that shares the host's X server and says why, and one that needs a bus. *)
Definition demo_clean : bytes := B "clean".
Definition demo_bundle : bytes := B "bundle".
#[local] Instance demo_lint_kdl : Kdl :=
  {| kdl_parse t :=
       if bool_decide (t = demo_clean) then
         Ok (mkDocument [node (B "x11") 0 [word (B "host")] None;
                         node (B "lint-allow") 11 [word (B "x11-without-reason"); keyed (B "reason") (B "the window manager")] None;
                         node (B "dbus") 60 [] (Some [node (B "talk") 67 [word (B "org.example.App")] None])] None)
       else if bool_decide (t = demo_bundle) then Ok (mkDocument [node (B "tray") 0 [] None] None) else Err Syntax |}.
#[local] Instance demo_lint_syscalls : SyscallNames := {| syscall_number _ := None |}.
#[local] Instance demo_lint_host : Host :=
  {| file_type _ := Some FileType.File; list_dir _ := []; canonicalize p := Some p; is_mountpoint _ := None; writable _ := false; read_link _ := Ok None;
     Host.read p := None; current_exe := None |}.
#[local] Instance demo_lint_policy : PolicyFiles := {| DROP_IN := B "rule"; HOOK := B "hook" |}.
#[local] Existing Instance demo_text.
#[local] Existing Instance demo_text_laws.
Local Definition at_file : Where.t := Where.File (B "/home/u/config.kdl").

Lemma lint_tells_whether_it_parses_witness :
  exists report, lint_text demo_home [] at_file demo_bundle = Ok report /\ map f_id (findings report) = [B "bundle-without-dbus"] /\
    is_ok (parse demo_bundle) = false /\ exists f, f ∈ findings report /\ f_id f ∈ PARSER_EQUIVALENT.
Proof.
  assert (exists report, lint_text demo_home [] at_file demo_bundle = Ok report /\ map f_id (findings report) = [B "bundle-without-dbus"]) as (report & Hr & Hf)
    by (eexists; split; [vm_compute; reflexivity|reflexivity]).
  pose proof (lint_tells_whether_it_parses demo_home [] at_file demo_bundle) as Ht. rewrite Hr in Ht.
  assert (is_ok (parse demo_bundle) = false) as Hp by (vm_compute; reflexivity).
  exists report. split; [assumption|]. split; [assumption|]. split; [assumption|]. exact (proj2 Ht Hp).
Defined.


Lemma doubled_name_is_not_reported_witness :
  parse_mpris (node (B "mpris") 0 [keyed (B "name") (B "firefox"); keyed (B "name") (B "*")] None) = Ok (Service.Mpris (B "*")) /\
  layer_node demo_home 0 (node (B "mpris") 0 [keyed (B "name") (B "firefox"); keyed (B "name") (B "*")] None) = [].
Proof. by apply (doubled_name_is_not_reported demo_home 0 _ (B "firefox") false false). Defined.

Lemma family_of_a_name_is_not_reported_witness :
  reaches (B "org.freedesktop.systemd1.*") (B "org.freedesktop.systemd1") /\ bus_name_rule 0 (node (B "talk") 0 [word (B "org.freedesktop.systemd1.*")] None) = [].
Proof.
  destruct (family_of_a_name_is_not_reported 0 (node (B "talk") 0 [word (B "org.freedesktop.systemd1.*")] None) (B "org.freedesktop.systemd1")) as (_ & Hr & Hn);
    [left; left|by_decide|reflexivity|]. split; [exact Hr|exact Hn].
Defined.
End Demo.
