(* ===== verification/Desktop.v ===== *)
(** Launcher entries (bubbler-core/src/desktop.rs): which entry of the host an instance's own
    is copied from, the copy with the few keys changed that make it start through bubbler, and
    which files of the user's directory are bubbler's to write and to remove.

    The files are those of a class; a [&str] is its bytes, and what is split at ASCII
    characters is split bytewise. *)
From S2P Require Import WlTables NetworkSpec.
From S2P Require Export Host Config ConfigParse SafeText.

(** ** The files *)

Inductive ReadFailed := InvalidData | ReadFs (e : FsError).

(** [std::fs] as the module uses it: a file's text, a directory's names, whether what is there
    is a link, where a path leads, and whether it is a file that can be run. *)
Class Entries := {
  read_to_string : bytes -> result ReadFailed bytes;
  read_dir : bytes -> option (list bytes);
  is_symlink : bytes -> result FsError bool;
  real_path : bytes -> option bytes;
  executable : bytes -> bool }.

Module DesktopError.
Inductive t :=
| NoCommand (name : bytes) | HintNotFound (name : bytes) (dirs : list bytes) | NotFound (command : bytes)
| Ambiguous (command : bytes) (candidates : list bytes) | NoEntryGroup | NoExec | Hidden | Generated (instance : bytes)
| NotUtf8 (p : bytes) | ProgramNotUtf8 | Foreign (p : bytes) | OtherInstance (p instance : bytes) | NotGenerated (instance dir : bytes)
| Io (p : bytes) (e : FsError).
End DesktopError.

Definition SUFFIX : bytes := B " (Bubbler)".
Definition MARKER : bytes := B "X-Bubbler-Instance".
Definition BINARY : bytes := B "bubbler".
Definition APPLICATIONS : bytes := B "applications".
Definition ENTRY_GROUP : bytes := B "Desktop Entry".

Module Dirs.
Record t := mk { user : bytes; system : list bytes }.
Definition from_env (env : Env) : t :=
  mk (Path.join (data_home env) APPLICATIONS) (map (fun d => Path.join d APPLICATIONS) (data_dirs env)).
Definition lookup (d : t) : list bytes := user d :: system d.
End Dirs.

(** ** Lines *)

Definition BRACKET : byte := Init.Byte.x5b.
Definition EQ_SIGN : byte := Init.Byte.x3d.

(** A line without the carriage return of its ending. *)
Definition strip_cr (l : bytes) : bytes := default l (strip_suffix [CR] l).

(** [str::lines]: a carriage return is part of an ending only before a newline. *)
Definition lines (text : bytes) : list bytes :=
  match List.rev (split_on LF text) with
  | tail :: init => map strip_cr (List.rev init) ++ (if bool_decide (tail = []) then [] else [tail])
  | [] => []
  end.

Definition header (line : bytes) : option bytes := l ← strip_prefix [BRACKET] line; strip_suffix (B "]") l.

Definition trim_start (s : bytes) : bytes := concat (trim_front (chars s)).
Definition trim_end (s : bytes) : bytes := concat (List.rev (trim_front (List.rev (chars s)))).

Definition split_key (line : bytes) : option (bytes * bytes) :=
  '(key, value) ← Cidr.split_once EQ_SIGN line; Some (trim_end key, trim_start value).

Definition base_key (key : bytes) : bytes := default key (head (split_on BRACKET key)).

Fixpoint skip_while {A} (f : A -> bool) (l : list A) : list A :=
  match l with a :: l' => if f a then skip_while f l' else l | [] => [] end.
Fixpoint take_while {A} (f : A -> bool) (l : list A) : list A :=
  match l with a :: l' => if f a then a :: take_while f l' else [] | [] => [] end.

(** The lines of the first group of a name. *)
Definition group_lines (text group : bytes) : list bytes :=
  take_while (fun l => negb (is_some (header l))) (drop 1 (skip_while (fun l => negb (bool_decide (header l = Some group))) (lines text))).

(** ** What an entry says of itself *)

Module Head.
Record t := mk { exec : option bytes; marker : option bytes; no_display : bool; hidden : bool }.
Definition new : t := mk None None false false.

Definition line (h : t) (l : bytes) : t :=
  match split_key l with
  | None => h
  | Some (key, value) =>
    if bool_decide (key = B "Exec") && negb (is_some (exec h)) then mk (Some value) (marker h) (no_display h) (hidden h)
    else if bool_decide (key = MARKER) && negb (is_some (marker h)) then mk (exec h) (Some value) (no_display h) (hidden h)
    else if bool_decide (key = B "NoDisplay") then mk (exec h) (marker h) (no_display h || bool_decide (value = B "true")) (hidden h)
    else if bool_decide (key = B "Hidden") then mk (exec h) (marker h) (no_display h) (hidden h || bool_decide (value = B "true"))
    else h
  end.
End Head.

Definition head_of (text : bytes) : Head.t := fold_left Head.line (group_lines text ENTRY_GROUP) Head.new.
Definition owner (text : bytes) : option bytes := Head.marker (head_of text).

(** ** Command lines *)

Definition BACKTICK : byte := Init.Byte.x60.
Definition DOLLAR : byte := Init.Byte.x24.
Definition PERCENT : byte := Init.Byte.x25.
Definition RESERVED : list byte := B " " ++ [TAB; LF; QUOTE] ++ B "'\><~|&;$*?#()" ++ [BACKTICK].

(** The characters of a quoted word, to the quote that closes it. *)
Fixpoint quoted_word (escaped : bool) (out s : bytes) : option bytes :=
  match s with
  | [] => None
  | c :: s =>
    if negb escaped && bool_decide (c = BACKSLASH) then quoted_word true out s
    else if negb escaped && bool_decide (c = QUOTE) then Some out
    else quoted_word false (out ++ [c]) s
  end.

Definition is_ascii_white (b : byte) : bool := bool_decide (b ∈ [SPACE; TAB; LF; Init.Byte.x0c; CR]).

Definition exec_program (value : bytes) : option bytes :=
  let value := trim_start value in
  match strip_prefix [QUOTE] value with
  | Some rest => quoted_word false [] rest
  | None => match take_while (fun b => negb (is_ascii_white b)) (skip_while is_ascii_white value) with [] => None | word => Some word end
  end.

Definition double_percent (b : byte) : bytes := if bool_decide (b = PERCENT) then [b; b] else [b].
Definition escape (b : byte) : bytes := if bool_decide (b ∈ [QUOTE; BACKTICK; DOLLAR; BACKSLASH]) then [BACKSLASH; b] else [b].

Definition exec_quote (value : bytes) : bytes :=
  let value := concat (map double_percent value) in
  if negb (existsb (fun b => bool_decide (b ∈ RESERVED)) value) then value
  else [QUOTE] ++ concat (map escape value) ++ [QUOTE].

(** ** The copy *)

Record Present := mkPresent { try_exec : bool; dbus_activatable : bool }.

(** What the loop over the lines keeps: the lines written, the group they are in, and which of
    the keys the entry's group had. *)
Record Copy := mkCopy { c_out : list bytes; c_group : option bytes; c_present : Present }.

Definition added (present : Present) (instance_ program eol : bytes) : list bytes :=
  map (fun l => l ++ eol)
    ((if try_exec present then [] else [B "TryExec=" ++ program]) ++
     (if dbus_activatable present then [] else [B "DBusActivatable=false"]) ++ [MARKER ++ B "=" ++ instance_]).

Definition push_added (out : list bytes) (present : Present) (instance_ program eol : bytes) : list bytes :=
  let back := List.rev out in
  List.rev (skip_while all_white back) ++ added present instance_ program eol ++ List.rev (take_while all_white back).

Definition in_entry (g : option bytes) : bool := bool_decide (g = Some ENTRY_GROUP).

(** Where a group ends. *)
Definition end_group (instance_ program eol : bytes) (st : Copy) : list bytes :=
  if in_entry (c_group st) then push_added (c_out st) (c_present st) instance_ program eol else c_out st.

Definition patch_line (launch instance_ program eol : bytes) (st : Copy) (line : bytes) : Copy :=
  let body := strip_cr line in
  let cr := if bool_decide (body = line) then [] else [CR] in
  match header body with
  | Some name => mkCopy (end_group instance_ program eol st ++ [line]) (Some name) (c_present st)
  | None =>
    let entry := in_entry (c_group st) in
    let keep := mkCopy (c_out st ++ [line]) (c_group st) (c_present st) in
    let write l p := mkCopy (c_out st ++ [l ++ cr]) (c_group st) p in
    match split_key body with
    | None => keep
    | Some (key, value) =>
      if entry && bool_decide (base_key key = B "Name") then write (key ++ B "=" ++ value ++ SUFFIX) (c_present st)
      else if bool_decide (key = B "Exec") then write (key ++ B "=" ++ launch ++ value) (c_present st)
      else if entry && bool_decide (key = B "TryExec") then write (key ++ B "=" ++ program) (mkPresent true (dbus_activatable (c_present st)))
      else if entry && bool_decide (key = B "DBusActivatable") then write (key ++ B "=false") (mkPresent (try_exec (c_present st)) true)
      else keep
    end
  end.

(** [text.split('\n')] without the empty piece after the last newline. *)
Definition body_lines (text : bytes) : list bytes :=
  if ends_with [LF] text then List.rev (drop 1 (List.rev (split_on LF text))) else split_on LF text.

Definition launch_of (program instance_ : bytes) : bytes := exec_quote program ++ B " open " ++ instance_ ++ B " -- ".

(** Whether [pat] occurs in [l]. *)
Fixpoint contains (pat l : bytes) : bool := starts_with pat l || match l with [] => false | _ :: l' => contains pat l' end.

Definition patch (text instance_ program : bytes) : result DesktopError.t bytes :=
  match owner text with
  | Some o => Err (DesktopError.Generated o)
  | None =>
    if negb (utf8_valid program) then Err DesktopError.ProgramNotUtf8
    else if negb (existsb (fun l => bool_decide (header l = Some ENTRY_GROUP)) (lines text)) then Err DesktopError.NoEntryGroup
    else if negb (is_some (Head.exec (head_of text))) then Err DesktopError.NoExec
    else if Head.hidden (head_of text) then Err DesktopError.Hidden
    else
      let eol := if contains [CR; LF] text then [CR] else [] in
      let st := fold_left (patch_line (launch_of program instance_) instance_ program eol) (body_lines text) (mkCopy [] None (mkPresent false false)) in
      Ok (Bytes.join [LF] (end_group instance_ program eol st) ++ (if ends_with [LF] text then [LF] else []))
  end.

(** ** Which entry is copied, and where to *)

Section Files.
Context `{Entries}.

Definition text_of (p : bytes) : option bytes := match read_to_string p with Ok t => Some t | Err _ => None end.

Definition find (dirs : Dirs.t) (file : bytes) (shown : bool) : option bytes :=
  List.find (fun p =>
    match text_of p with
    | Some t => negb (is_some (Head.marker (head_of t))) && negb (shown && Head.no_display (head_of t))
    | None => false
    end) (map (fun d => Path.join d file) (Dirs.lookup dirs)).

(** [Vec<OsString>::sort]. *)
Fixpoint insert_name (n : bytes) (l : list bytes) : list bytes :=
  match l with m :: l' => match cmp_bytes n m with Gt => m :: insert_name n l' | _ => n :: l end | [] => [n] end.
Fixpoint sort_names (l : list bytes) : list bytes := match l with [] => [] | n :: l => insert_name n (sort_names l) end.

(** [Path::extension] is [desktop]. *)
Definition is_entry_name (name : bytes) : bool :=
  match Path.file_name name with
  | Some f => match rsplit_once DOT f with Some (stem, ext) => negb (bool_decide (stem = [])) && bool_decide (ext = B "desktop") | None => false end
  | None => false
  end.

Definition runs (command : bytes) (h : Head.t) : bool :=
  match (e ← Head.exec h; exec_program e) with Some p => bool_decide (Path.file_name p = Some command) | None => false end.

Definition scan_name (command dir : bytes) (found : list bytes) (name : bytes) : list bytes :=
  if negb (is_entry_name name) || existsb (fun p => bool_decide (Path.file_name p = Some name)) found then found
  else
    let path := Path.join dir name in
    match text_of path with
    | None => found
    | Some t =>
      let h := head_of t in
      if is_some (Head.marker h) || Head.no_display h || Head.hidden h then found
      else if runs command h then found ++ [path] else found
    end.

Definition scan_dir (command : bytes) (found : list bytes) (dir : bytes) : list bytes :=
  match read_dir dir with Some names => fold_left (scan_name command dir) (sort_names names) found | None => found end.

Definition scan (dirs : Dirs.t) (command : bytes) : list bytes := fold_left (scan_dir command) (Dirs.lookup dirs) [].

Definition command_name (cfg : InstanceConfig) : option bytes := argv ← Config.command cfg; w ← head argv; Path.file_name w.

Definition source (dirs : Dirs.t) (name : bytes) (cfg : InstanceConfig) : result DesktopError.t bytes :=
  match desktop cfg with
  | Some hint => ok_or (find dirs hint false) (DesktopError.HintNotFound hint (Dirs.lookup dirs))
  | None =>
    match command_name cfg with
    | None => Err (DesktopError.NoCommand name)
    | Some command =>
      match find dirs (command ++ B ".desktop") true with
      | Some path => Ok path
      | None =>
        match scan dirs command with
        | [] => Err (DesktopError.NotFound (from_utf8_lossy command))
        | [path] => Ok path
        | paths => Err (DesktopError.Ambiguous (from_utf8_lossy command) (map (fun p => from_utf8_lossy (default p (Path.file_name p))) paths))
        end
      end
    end
  end.

Definition render (source_ instance_ program : bytes) : result DesktopError.t bytes :=
  match read_to_string source_ with
  | Ok text => patch text instance_ program
  | Err InvalidData => Err (DesktopError.NotUtf8 source_)
  | Err (ReadFs e) => Err (DesktopError.Io source_ e)
  end.

Definition target (dirs : Dirs.t) (instance_ source_ : bytes) (replace : bool) : bytes :=
  Path.join (Dirs.user dirs)
    (if replace then default (B "bubbler.desktop") (Path.file_name source_) else B "bubbler-" ++ instance_ ++ B ".desktop").

(** The refusals of [write]; what follows them makes the directory and the file. *)
Definition write (path instance_ : bytes) : result DesktopError.t unit :=
  match is_symlink path with
  | Ok true => Err (DesktopError.Foreign path)
  | Ok false =>
    match read_to_string path with
    | Ok held =>
      match owner held with
      | Some o => if bool_decide (o = instance_) then Ok tt else Err (DesktopError.OtherInstance path o)
      | None => Err (DesktopError.Foreign path)
      end
    | Err InvalidData => Err (DesktopError.Foreign path)
    | Err (ReadFs e) => Err (DesktopError.Io path e)
    end
  | Err e => if not_found e then Ok tt else Err (DesktopError.Io path e)
  end.

Definition generated (dirs : Dirs.t) : list (bytes * bytes) :=
  match read_dir (Dirs.user dirs) with
  | None => []
  | Some names => omap (fun n => let path := Path.join (Dirs.user dirs) n in t ← text_of path; o ← owner t; Some (path, o)) (List.filter is_entry_name (sort_names names))
  end.

(** The files [remove] deletes. *)
Definition remove (dirs : Dirs.t) (instance_ : bytes) : result DesktopError.t (list bytes) :=
  match map fst (List.filter (fun x => bool_decide (x.2 = instance_)) (generated dirs)) with
  | [] => Err (DesktopError.NotGenerated instance_ (Dirs.user dirs))
  | mine => Ok mine
  end.

Definition program (exe : bytes) (search_path : list bytes) : bytes :=
  let real := default exe (real_path exe) in
  match (c ← List.find executable (map (fun dir => Path.join dir BINARY) search_path); real_path c) with
  | Some found => if Path.eqb found real then BINARY else real
  | None => real
  end.
End Files.


(** ** Reading an entry *)

(** The keys of an entry as a launcher reads them, each with the group it is in and the text
    after its equals sign. *)
Definition read_line (st : option bytes * list (option bytes * bytes * bytes)) (line : bytes) : option bytes * list (option bytes * bytes * bytes) :=
  let body := strip_cr line in
  match header body with
  | Some name => (Some name, st.2)
  | None => match Cidr.split_once EQ_SIGN body with Some (key, value) => (st.1, st.2 ++ [(st.1, trim_end key, value)]) | None => st end
  end.

Definition read (ls : list bytes) : option bytes * list (option bytes * bytes * bytes) := fold_left read_line ls (None, []).
Definition keys (text : bytes) : list (option bytes * bytes * bytes) := (read (split_on LF text)).2.

(** The keys that the copy changes: the name of the entry, every command line, and the three
    that decide whether a launcher uses it. *)
Definition owned (k : option bytes * bytes * bytes) : bool :=
  bool_decide (k.1.2 = B "Exec") ||
  in_entry k.1.1 && (bool_decide (base_key k.1.2 = B "Name") || bool_decide (k.1.2 ∈ [B "TryExec"; B "DBusActivatable"; MARKER])).

Definition others (ks : list (option bytes * bytes * bytes)) : list (option bytes * bytes * bytes) := List.filter (fun k => negb (owned k)) ks.

(** ** What the copy of a line is *)

(** A line of the group [g]: the name of the entry says what it is a copy of, every command
    line keeps its own words behind those that reach bubbler, and the two keys that a launcher
    asks before it runs anything say bubbler's. *)
Definition line_copied (launch prog : bytes) (g : option bytes) (line : bytes) : bytes :=
  let body := strip_cr line in
  let ending := if bool_decide (body = line) then [] else [CR] in
  match Cidr.split_once EQ_SIGN body with
  | None => line
  | Some (k, v) =>
    let key := trim_end k in
    let value := trim_start v in
    let say w := key ++ B "=" ++ w ++ ending in
    if bool_decide (key = B "Exec") then say (launch ++ value)
    else if negb (in_entry g) then line
    else if bool_decide (base_key key = B "Name") then say (value ++ B " (Bubbler)")
    else if bool_decide (key = B "TryExec") then say prog
    else if bool_decide (key = B "DBusActivatable") then say (B "false")
    else line
  end.

(** The lines one after another, each in the group of the last header before it. *)
Fixpoint lines_copied (launch prog : bytes) (g : option bytes) (ls : list bytes) : list bytes :=
  match ls with
  | [] => []
  | l :: ls =>
    match header (strip_cr l) with
    | Some name => l :: lines_copied launch prog (Some name) ls
    | None => line_copied launch prog g l :: lines_copied launch prog g ls
    end
  end.

(** [l] is [k] with lines put in between that are all [new]. *)
Inductive with_lines (new : bytes -> Prop) : list bytes -> list bytes -> Prop :=
| with_nil : with_lines new [] []
| with_old x k l : with_lines new k l -> with_lines new (x :: k) (x :: l)
| with_new x k l : new x -> with_lines new k l -> with_lines new k (x :: l).

(** A line that bubbler adds, ended as the entry ends its own. *)
Definition bubblers (inst prog eol x : bytes) : Prop :=
  x ∈ [B "TryExec=" ++ prog ++ eol; B "DBusActivatable=false" ++ eol; MARKER ++ B "=" ++ inst ++ eol].

(** ** Lines and trimming *)

Lemma chars_fuel_whole fuel s : Forall whole (chars_fuel fuel s).
Proof.
  revert s. induction fuel as [|fuel IH]; intros [|b s]; cbn [chars_fuel]; try constructor. destruct (utf8_next (b :: s)) as [k|k] eqn:E; [|constructor].
  constructor; [by apply next_whole in E as [E _]|apply IH].
Qed.

Lemma chars_fuel_elem fuel s b : b ∈ concat (chars_fuel fuel s) -> b ∈ s.
Proof.
  revert s. induction fuel as [|fuel IH]; intros [|c s]; cbn [chars_fuel concat]; try (by intros ?%not_elem_of_nil). destruct (utf8_next (c :: s)) as [k|k]; cbn [concat]; [|by intros ?%not_elem_of_nil].
  intros [Hb|Hb]%elem_of_app; [by eapply subseteq_take|]. apply IH in Hb. by eapply subseteq_drop.
Qed.

Lemma trim_front_suffix l : exists k, l = k ++ trim_front l.
Proof. induction l as [|c l [k IH]]; cbn; [by exists []|]. destruct (is_space c); [exists (c :: k); cbn; by f_equal|by exists []]. Qed.

Lemma trim_front_idem l : trim_front (trim_front l) = trim_front l.
Proof. induction l as [|c l IH]; cbn; [done|]. destruct (is_space c) eqn:E; [done|]. cbn. by rewrite E. Qed.

Lemma trim_end_idem s : trim_end (trim_end s) = trim_end s.
Proof.
  unfold trim_end at 1. unfold trim_end at 1. rewrite chars_concat.
  - by rewrite rev_involutive, trim_front_idem.
  - apply Forall_rev. destruct (trim_front_suffix (List.rev (chars s))) as [k Hk]. pose proof (chars_fuel_whole (length s) s) as Hw. fold (chars s) in Hw.
    apply Forall_rev in Hw. rewrite Hk in Hw. by apply Forall_app in Hw as [_ Hw].
Qed.

Lemma concat_elem {A} (b : A) (l : list (list A)) : b ∈ concat l <-> exists c, c ∈ l /\ b ∈ c.
Proof. rewrite list_elem_of_In, in_concat. by setoid_rewrite list_elem_of_In. Qed.

Lemma trim_end_elem s b : b ∈ trim_end s -> b ∈ s.
Proof.
  unfold trim_end. intros (c & Hc & Hb)%concat_elem. destruct (trim_front_suffix (List.rev (chars s))) as [k Hk].
  apply (chars_fuel_elem (length s)), concat_elem. exists c. split; [|done]. rewrite list_elem_of_In in *. apply in_rev in Hc.
  apply in_rev. fold (chars s). rewrite Hk. apply in_or_app. by right.
Qed.

Lemma trim_start_elem s b : b ∈ trim_start s -> b ∈ s.
Proof.
  unfold trim_start. intros (c & Hc & Hb)%concat_elem. destruct (trim_front_suffix (chars s)) as [k Hk].
  apply (chars_fuel_elem (length s)), concat_elem. exists c. split; [|done]. fold (chars s). rewrite Hk. apply elem_of_app. by right.
Qed.

Lemma strip_cr_snoc s : strip_cr (s ++ [CR]) = s.
Proof. unfold strip_cr. by rewrite (proj2 (strip_suffix_some [CR] (s ++ [CR]) s) eq_refl). Qed.

Lemma strip_cr_cases s : s = strip_cr s ++ [CR] \/ (strip_cr s = s /\ forall t, s <> t ++ [CR]).
Proof.
  unfold strip_cr. destruct (strip_suffix [CR] s) as [t|] eqn:E; [left; by apply strip_suffix_some in E|right]. split; [done|].
  intros t Ht. by rewrite (proj2 (strip_suffix_some [CR] s t) Ht) in E.
Qed.

Lemma strip_cr_id s : CR ∉ s -> strip_cr s = s.
Proof. intros Hs. destruct (strip_cr_cases s) as [He|[He _]]; [|done]. destruct Hs. rewrite He. apply elem_of_app. right. by left. Qed.

Lemma strip_cr_app p b s : b <> CR -> strip_cr (p ++ b :: s) = p ++ b :: strip_cr s.
Proof.
  intros Hb. destruct (strip_cr_cases s) as [He|[He Hn]].
  - rewrite He at 1. change (b :: strip_cr s ++ [CR]) with ((b :: strip_cr s) ++ [CR]). by rewrite app_assoc, strip_cr_snoc.
  - rewrite He. destruct (strip_cr_cases (p ++ b :: s)) as [Ht|[Ht _]]; [|done]. exfalso.
    destruct (exists_last (l := b :: s)) as (t & c & Hc); [done|]. rewrite Hc in Ht. rewrite app_assoc in Ht. apply app_inj_2 in Ht as [_ Ht]; [|done]. injection Ht as ->.
    destruct t as [|b' t]; cbn in Hc; injection Hc as Hc1 Hc2; [by rewrite Hc1 in Hb|]. by apply (Hn t).
Qed.

Lemma header_first l name : header l = Some name -> exists t, l = BRACKET :: t.
Proof. unfold header. destruct (strip_prefix [BRACKET] l) as [t|] eqn:E; [|done]. apply strip_prefix_some in E as ->. by exists t. Qed.

(** A line of a key, as it is written and as it is read. *)
Lemma read_written g ks key rest : EQ_SIGN ∉ key -> (forall t, key <> BRACKET :: t) -> key <> [] ->
  read_line (g, ks) (key ++ B "=" ++ rest) = (g, ks ++ [(g, trim_end key, strip_cr rest)]).
Proof.
  intros Hk Hb Hne. unfold read_line. change (key ++ B "=" ++ rest) with (key ++ EQ_SIGN :: rest). rewrite strip_cr_app by discriminate.
  destruct (header _) as [name|] eqn:Eh.
  - apply header_first in Eh as [t Ht]. destruct key as [|b key]; [done|]. injection Ht as -> _. by destruct (Hb key).
  - by rewrite split_once_app.
Qed.

Lemma white_at_plain s k : white_at s = Some k -> exists b t, s = b :: t /\ (forall c, c ∈ take k s -> c <> EQ_SIGN /\ c <> BRACKET) /\ (0 < k)%nat.
Proof.
  unfold white_at. intros Hw. destruct s as [|b s]; [done|]. exists b, s. split; [done|].
  assert (forall c, 128 <= u8 c \/ 9 <= u8 c <= 13 \/ u8 c = 32 -> c <> EQ_SIGN /\ c <> BRACKET) as Hp.
  { intros c Hc. split; intros ->; vm_compute in Hc; intuition discriminate. }
  destruct (_ || _) eqn:E1 in Hw.
  { injection Hw as <-. split; [|lia]. intros c Hc. cbn in Hc. apply list_elem_of_singleton in Hc as ->. apply Hp. lia. }
  destruct s as [|c s]; [done|]. destruct (_ && _) eqn:E2 in Hw.
  { injection Hw as <-. split; [|lia]. intros d Hd. cbn in Hd. apply Hp. repeat (apply elem_of_cons in Hd as [->|Hd]); [lia..|by apply not_elem_of_nil in Hd]. }
  destruct s as [|d s]; [done|]. destruct (_ || _) eqn:E3 in Hw; [|done]. injection Hw as <-. split; [|lia].
  intros e He. cbn in He. apply Hp. repeat (apply elem_of_cons in He as [->|He]); [lia..|by apply not_elem_of_nil in He].
Qed.

Lemma all_white_plain s c : all_white s = true -> c ∈ s -> c <> EQ_SIGN /\ c <> BRACKET.
Proof.
  unfold all_white. generalize (length s). intros fuel. revert s. induction fuel as [|fuel IH]; intros [|b s] Hw Hc; try done; try (by apply not_elem_of_nil in Hc).
  cbn [all_white_loop] in Hw. destruct (white_at (b :: s)) as [k|] eqn:E; [|done]. destruct (white_at_plain _ _ E) as (_ & _ & _ & Hp & _).
  rewrite <-(take_drop k (b :: s)) in Hc. apply elem_of_app in Hc as [Hc|Hc]; [by apply Hp|by eapply IH].
Qed.

Lemma strip_cr_elem s c : c ∈ strip_cr s -> c ∈ s.
Proof. intros Hc. destruct (strip_cr_cases s) as [He|[He _]]; [rewrite He; apply elem_of_app; by left|by rewrite <-He]. Qed.

(** A blank line says nothing. *)
Lemma read_blank st l : all_white l = true -> read_line st l = st.
Proof.
  intros Hw. unfold read_line. destruct (header _) as [name|] eqn:Eh.
  - apply header_first in Eh as [t Ht]. assert (BRACKET ∈ l) as Hin by (apply strip_cr_elem; rewrite Ht; by left). by destruct (all_white_plain l BRACKET Hw Hin).
  - rewrite split_once_none; [done|]. intros Hin%strip_cr_elem. by destruct (all_white_plain l EQ_SIGN Hw Hin).
Qed.

Lemma read_blanks st ls : Forall (fun l => all_white l = true) ls -> fold_left read_line ls st = st.
Proof. revert st. induction ls as [|l ls IH]; intros st Hw; [done|]. inversion_clear Hw. cbn [fold_left]. by rewrite read_blank, IH. Qed.

Lemma while_split {A} (f : A -> bool) l : l = take_while f l ++ skip_while f l /\ Forall (fun a => f a = true) (take_while f l).
Proof.
  induction l as [|a l [IH Hf]]; cbn; [done|]. destruct (f a) eqn:E; cbn; [|by split]. split; [by f_equal|by constructor].
Qed.

(** The keys that are added come after those of the lines, whatever blank lines follow. *)
Lemma read_push_added st out present inst prog eol : fold_left read_line (push_added out present inst prog eol) st =
  fold_left read_line (added present inst prog eol) (fold_left read_line out st).
Proof.
  unfold push_added. cbv zeta. destruct (while_split all_white (List.rev out)) as [Hs Hw]. apply Forall_rev in Hw. rewrite !fold_left_app, (read_blanks _ _ Hw).
  f_equal. apply (f_equal (@List.rev bytes)) in Hs. rewrite rev_involutive, rev_app_distr in Hs. rewrite Hs at 2. by rewrite fold_left_app, (read_blanks _ _ Hw).
Qed.


(** ** The copy, line by line *)

Section Copied.
Context (inst prog eol : bytes).
Context (Hprog : LF ∉ prog /\ CR ∉ prog) (Hinst : LF ∉ inst /\ CR ∉ inst) (Heol : eol = [] \/ eol = [CR]).
Let launch := launch_of prog inst.

(** What a key of the copy may say. *)
Definition key_ok (k : option bytes * bytes * bytes) : Prop :=
  (k.1.2 = B "Exec" -> exists cmd, k.2 = launch_of prog inst ++ cmd) /\
  (in_entry k.1.1 = true -> k.1.2 = B "DBusActivatable" -> k.2 = B "false") /\
  (in_entry k.1.1 = true -> k.1.2 = B "TryExec" -> k.2 = prog).

Definition entry_key (k v : bytes) : option bytes * bytes * bytes := (Some ENTRY_GROUP, k, v).

Record complete (ks : list (option bytes * bytes * bytes)) : Prop := {
  has_try : entry_key (B "TryExec") prog ∈ ks;
  has_dbus : entry_key (B "DBusActivatable") (B "false") ∈ ks;
  has_marker : entry_key MARKER inst ∈ ks }.

Definition seen (ls : list bytes) : Prop := exists l, l ∈ ls /\ header (strip_cr l) = Some ENTRY_GROUP.

(** The lines read so far and the copy of them. *)
Record copied (ls : list bytes) (st : Copy) : Prop := {
  c_read : (read ls).1 = c_group st;
  c_same : (read (c_out st)).1 = c_group st;
  c_ok : Forall key_ok (read (c_out st)).2;
  c_others : others (read (c_out st)).2 = others (read ls).2;
  c_try : try_exec (c_present st) = true -> entry_key (B "TryExec") prog ∈ (read (c_out st)).2;
  c_dbus : dbus_activatable (c_present st) = true -> entry_key (B "DBusActivatable") (B "false") ∈ (read (c_out st)).2;
  c_done : seen ls -> in_entry (c_group st) = true \/ complete (read (c_out st)).2;
  c_plain : Forall (fun l => LF ∉ l) (c_out st) }.

Lemma others_app a b : others (a ++ b) = others a ++ others b.
Proof. unfold others. apply List.filter_app. Qed.

Lemma read_snoc ls l : read (ls ++ [l]) = read_line (read ls) l.
Proof. unfold read. by rewrite fold_left_app. Qed.

Lemma complete_app a b : complete a -> complete (a ++ b).
Proof. intros [Ht Hd Hm]. split; apply elem_of_app; by left. Qed.

(** A line that is copied as it is, where it is none of the keys that are changed. *)
Lemma added_reads present g ks : in_entry g = true -> exists new,
  fold_left read_line (added present inst prog eol) (g, ks) = (g, ks ++ new) /\ Forall key_ok new /\ others new = [] /\
  (try_exec present = false -> entry_key (B "TryExec") prog ∈ new) /\
  (dbus_activatable present = false -> entry_key (B "DBusActivatable") (B "false") ∈ new) /\ entry_key MARKER inst ∈ new.
Proof.
  intros Hg. unfold in_entry in Hg. apply bool_decide_eq_true in Hg. subst g.
  assert (forall ks (k : bytes) v, EQ_SIGN ∉ k -> (forall t, k <> BRACKET :: t) -> k <> [] -> trim_end k = k -> CR ∉ v ->
    read_line (Some ENTRY_GROUP, ks) ((k ++ B "=" ++ v) ++ eol) = (Some ENTRY_GROUP, ks ++ [entry_key k v])) as Hone.
  { intros ks0 k v Hk Hb Hne Ht Hv. rewrite <-!app_assoc, read_written by done. rewrite Ht. unfold entry_key. do 4 f_equal.
    destruct Heol as [->| ->]; [rewrite app_nil_r; by apply strip_cr_id|by apply strip_cr_snoc]. }
  assert (forall (k : bytes), k = B "TryExec" \/ k = B "DBusActivatable" \/ k = MARKER -> EQ_SIGN ∉ k /\ (forall t, k <> BRACKET :: t) /\ k <> [] /\ trim_end k = k) as Hk.
  { intros k [->|[->| ->]]; (split; [by apply (bool_decide_unpack _)|]); (split; [discriminate|]); (split; [discriminate|]); vm_compute; reflexivity. }
  assert (key_ok (entry_key (B "TryExec") prog)) as K1 by (by split_and!).
  assert (key_ok (entry_key (B "DBusActivatable") (B "false"))) as K2 by (by split_and!).
  assert (key_ok (entry_key MARKER inst)) as K3 by (by split_and!).
  assert (CR ∉ B "false") as Hf by (by apply (bool_decide_unpack _)). destruct Hprog as [_ Hp], Hinst as [_ Hi].
  exists ((if try_exec present then [] else [entry_key (B "TryExec") prog]) ++
     (if dbus_activatable present then [] else [entry_key (B "DBusActivatable") (B "false")]) ++ [entry_key MARKER inst]).
  unfold added. destruct (Hk (B "TryExec")) as (T1 & T2 & T3 & T4); [auto|]. destruct (Hk (B "DBusActivatable")) as (D1 & D2 & D3 & D4); [auto|].
  destruct (Hk MARKER) as (M1 & M2 & M3 & M4); [auto|].
  pose proof (fun ks => Hone ks _ prog T1 T2 T3 T4 Hp) as R1. pose proof (fun ks => Hone ks _ (B "false") D1 D2 D3 D4 Hf) as R2. pose proof (fun ks => Hone ks _ inst M1 M2 M3 M4 Hi) as R3.
  split_and!.
  - destruct (try_exec present), (dbus_activatable present); cbn [app map fold_left];
      repeat match goal with
      | |- context [read_line (Some ENTRY_GROUP, ?ks) ((B "TryExec=" ++ prog) ++ eol)] => change (B "TryExec=" ++ prog) with (B "TryExec" ++ B "=" ++ prog); rewrite (R1 ks)
      | |- context [read_line (Some ENTRY_GROUP, ?ks) (B "DBusActivatable=false" ++ eol)] => change (B "DBusActivatable=false") with (B "DBusActivatable" ++ B "=" ++ B "false"); rewrite (R2 ks)
      | |- context [read_line (Some ENTRY_GROUP, ?ks) ((MARKER ++ B "=" ++ inst) ++ eol)] => rewrite (R3 ks)
      end; by rewrite <-?app_assoc.
  - destruct (try_exec present), (dbus_activatable present); cbn [app]; by repeat constructor.
  - destruct (try_exec present), (dbus_activatable present); vm_compute; reflexivity.
  - intros ->. by left.
  - intros ->. apply elem_of_app. right. by left.
  - apply elem_of_app. right. apply elem_of_app. right. by left.
Qed.


Lemma added_plain present : Forall (fun l => LF ∉ l) (added present inst prog eol).
Proof.
  destruct Hprog as [Hp _], Hinst as [Hi _]. assert (LF ∉ eol) as He by (destruct Heol as [->| ->]; by apply (bool_decide_unpack _)).
  unfold added. apply Forall_map. apply Forall_app. split; [|apply Forall_app; split].
  - destruct (try_exec present); constructor; [|constructor]. intros [[Hb|Hb]%elem_of_app|Hb]%elem_of_app; [revert Hb; by apply (bool_decide_unpack (LF ∉ B "TryExec="))|done..].
  - destruct (dbus_activatable present); constructor; [|constructor]. intros [Hb|Hb]%elem_of_app; [revert Hb; by apply (bool_decide_unpack (LF ∉ B "DBusActivatable=false"))|done].
  - constructor; [|constructor]. intros [[Hb|[Hb|Hb]%elem_of_app]%elem_of_app|Hb]%elem_of_app; [revert Hb; by apply (bool_decide_unpack (LF ∉ MARKER))|revert Hb; by apply (bool_decide_unpack (LF ∉ B "="))|done..].
Qed.

Lemma push_added_plain out present : Forall (fun l => LF ∉ l) out -> Forall (fun l => LF ∉ l) (push_added out present inst prog eol).
Proof.
  intros Ho. unfold push_added. cbv zeta. destruct (while_split all_white (List.rev out)) as [Hs _]. apply Forall_rev in Ho. rewrite Hs in Ho.
  apply Forall_app in Ho as [Ht Hk]. apply Forall_app. split; [by apply Forall_rev|]. apply Forall_app. split; [apply added_plain|by apply Forall_rev].
Qed.

(** The end of a group leaves the entry with its three keys. *)
Lemma end_group_copied ls st : copied ls st -> exists new, read (end_group inst prog eol st) = (c_group st, (read (c_out st)).2 ++ new) /\
  Forall key_ok new /\ others new = [] /\ (seen ls -> complete ((read (c_out st)).2 ++ new)) /\ Forall (fun l => LF ∉ l) (end_group inst prog eol st).
Proof.
  intros [Hr Hs Hk Ho Ht Hd Hc Hp]. unfold end_group. destruct (in_entry (c_group st)) eqn:Hg.
  - destruct (added_reads (c_present st) (c_group st) (read (c_out st)).2 Hg) as (new & Hn & Hnk & Hno & Nt & Nd & Nm). exists new. split.
    { unfold read at 1. rewrite read_push_added. fold (read (c_out st)). rewrite <-Hn, <-Hs. by destruct (read (c_out st)). }
    split; [done|]. split; [done|]. split; [|by apply push_added_plain]. intros _. split.
    + destruct (try_exec (c_present st)) eqn:E; apply elem_of_app; [left; by apply Ht|right; by apply Nt].
    + destruct (dbus_activatable (c_present st)) eqn:E; apply elem_of_app; [left; by apply Hd|right; by apply Nd].
    + apply elem_of_app. by right.
  - exists []. rewrite app_nil_r. split; [rewrite <-Hs; by destruct (read (c_out st))|]. split; [constructor|]. split; [done|]. split; [|done].
    intros Hseen. by destruct (Hc Hseen).
Qed.

Lemma seen_snoc ls l : seen (ls ++ [l]) -> seen ls \/ header (strip_cr l) = Some ENTRY_GROUP.
Proof. intros (m & [Hm|Hm%list_elem_of_singleton]%elem_of_app & Hh); [left; by exists m|right; by subst]. Qed.

(** One more key, in the text and in the copy, that is changed in neither or in both. *)
Lemma copied_key ls st line l k v k' v' p : copied ls st -> header (strip_cr line) = None ->
  read_line (read ls) line = ((read ls).1, (read ls).2 ++ [(c_group st, k, v)]) ->
  read_line (read (c_out st)) l = ((read (c_out st)).1, (read (c_out st)).2 ++ [(c_group st, k', v')]) ->
  key_ok (c_group st, k', v') -> others [(c_group st, k, v)] = others [(c_group st, k', v')] -> LF ∉ l ->
  (try_exec p = true -> try_exec (c_present st) = true \/ (c_group st, k', v') = entry_key (B "TryExec") prog) ->
  (dbus_activatable p = true -> dbus_activatable (c_present st) = true \/ (c_group st, k', v') = entry_key (B "DBusActivatable") (B "false")) ->
  copied (ls ++ [line]) (mkCopy (c_out st ++ [l]) (c_group st) p).
Proof.
  intros [Hr Hs Hk Ho Ht Hd Hc Hp] Hh E1 E2 Hok Hoth Hl Pt Pd. split; cbn [c_out c_group c_present]; rewrite ?read_snoc, ?E1, ?E2; cbn [fst snd]; try done.
  - apply Forall_app. split; [done|]. by constructor.
  - by rewrite !others_app, Ho, Hoth.
  - intros Hp'. apply elem_of_app. destruct (Pt Hp') as [Hp''| ->]; [left; by apply Ht|right; by left].
  - intros Hp'. apply elem_of_app. destruct (Pd Hp') as [Hp''| ->]; [left; by apply Hd|right; by left].
  - intros [Hseen|Hseen]%seen_snoc; [|congruence]. destruct (Hc Hseen) as [Hg|Hg]; [by left|right; by apply complete_app].
  - apply Forall_app. split; [done|]. by constructor.
Qed.

(** A line that says nothing. *)
Lemma copied_silent ls st line : copied ls st -> header (strip_cr line) = None -> Cidr.split_once EQ_SIGN (strip_cr line) = None -> LF ∉ line ->
  copied (ls ++ [line]) (mkCopy (c_out st ++ [line]) (c_group st) (c_present st)).
Proof.
  intros [Hr Hs Hk Ho Ht Hd Hc Hp] Hh He Hl.
  assert (forall r, read_line r line = r) as Hread by (intros [g ks]; unfold read_line; by rewrite Hh, He).
  split; cbn [c_out c_group c_present]; rewrite ?read_snoc, ?Hread; try done.
  - intros [Hseen|Hseen]%seen_snoc; [by apply Hc|congruence].
  - apply Forall_app. split; [done|]. by constructor.
Qed.

Lemma copied_header ls st line name : copied ls st -> header (strip_cr line) = Some name -> LF ∉ line ->
  copied (ls ++ [line]) (mkCopy (end_group inst prog eol st ++ [line]) (Some name) (c_present st)).
Proof.
  intros Hcopied Hh Hl. destruct (end_group_copied _ _ Hcopied) as (new & Hn & Hnk & Hno & Hcomp & Hplain). destruct Hcopied as [Hr Hs Hk Ho Ht Hd Hc Hp].
  assert (forall r, read_line r line = (Some name, r.2)) as Hread by (intros r; unfold read_line; by rewrite Hh).
  split; cbn [c_out c_group c_present]; rewrite ?read_snoc, ?Hread, ?Hn; cbn [fst snd]; try done.
  - by apply Forall_app.
  - by rewrite others_app, Hno, app_nil_r.
  - intros Hp'. apply elem_of_app. left. by apply Ht.
  - intros Hp'. apply elem_of_app. left. by apply Hd.
  - intros [Hseen|Hseen]%seen_snoc; [right; by apply Hcomp|]. left. unfold in_entry. apply bool_decide_eq_true. congruence.
  - apply Forall_app. split; [done|]. by constructor.
Qed.


Lemma base_key_named key w : base_key key = w -> w <> [] -> (forall t, key <> BRACKET :: t) /\ key <> [].
Proof. unfold base_key. intros Hb Hw. split; [intros t ->|intros ->]; cbn in Hb; by rewrite <-Hb in Hw. Qed.

Lemma launch_space : exists l, launch = l ++ [SPACE].
Proof. exists (exec_quote prog ++ B " open " ++ inst ++ B " --"). unfold launch, launch_of. by rewrite <-!app_assoc. Qed.

Lemma launch_plain : LF ∉ launch.
Proof.
  destruct Hprog as [Hp _], Hinst as [Hi _]. assert (forall v, LF ∉ v -> LF ∉ exec_quote v) as Hq.
  { intros v Hv. assert (LF ∉ concat (map double_percent v)) as Hd.
    { intros (c & (b & <- & Hb)%list_elem_of_In%in_map_iff & Hc)%concat_elem. apply list_elem_of_In in Hb. unfold double_percent in Hc.
      case_bool_decide; repeat (apply elem_of_cons in Hc as [<-|Hc]; [done|]); by apply not_elem_of_nil in Hc. }
    unfold exec_quote. cbv zeta. destruct (negb _); [done|]. intros [Hc|[Hc|Hc]%elem_of_app]%elem_of_app; try (revert Hc; by apply (bool_decide_unpack (LF ∉ [QUOTE]))).
    apply concat_elem in Hc as (c & (b & <- & Hb)%list_elem_of_In%in_map_iff & Hc). apply list_elem_of_In in Hb. unfold escape in Hc.
    case_bool_decide; repeat (apply elem_of_cons in Hc as [Hc|Hc]; [try discriminate Hc; by subst|]); by apply not_elem_of_nil in Hc. }
  unfold launch, launch_of. intros [Hb|[Hb|[Hb|Hb]%elem_of_app]%elem_of_app]%elem_of_app; [by apply (Hq prog)|revert Hb; by apply (bool_decide_unpack (LF ∉ B " open "))|done|revert Hb; by apply (bool_decide_unpack (LF ∉ B " -- "))].
Qed.

(** The line a rewritten key is put on, with the carriage return it had. *)
Lemma written_reads g ks key x cr : EQ_SIGN ∉ key -> (forall t, key <> BRACKET :: t) -> key <> [] -> trim_end key = key -> cr = [] \/ cr = [CR] ->
  exists v, read_line (g, ks) ((key ++ B "=" ++ x) ++ cr) = (g, ks ++ [(g, key, v)]) /\ (v = x \/ v = strip_cr x).
Proof.
  intros Hk Hb Hne Ht Hcr. exists (strip_cr (x ++ cr)). split.
  - rewrite <-!app_assoc, read_written by done. by rewrite Ht.
  - destruct Hcr as [->| ->]; [right; by rewrite app_nil_r|left; apply strip_cr_snoc].
Qed.

Lemma split_once_some sep l w r : Cidr.split_once sep l = Some (w, r) -> l = w ++ sep :: r /\ sep ∉ w.
Proof.
  revert w. induction l as [|b l IH]; intros w; cbn; [done|]. destruct (decide (b = sep)) as [->|Hb]; [intros [= <- ->]; split; [done|apply not_elem_of_nil]|].
  destruct (Cidr.split_once sep l) as [[w' r']|]; cbn; [|done]. intros [= <- <-]. destruct (IH w' eq_refl) as [-> Hw]. split; [done|].
  intros [Hc|Hc]%elem_of_cons; [by symmetry in Hc|done].
Qed.

(** A line of a key, taken apart. *)
Record key_line (line k0 v0 : bytes) : Prop := {
  l_header : header (strip_cr line) = None;
  l_split : Cidr.split_once EQ_SIGN (strip_cr line) = Some (k0, v0);
  l_plain : LF ∉ line }.

Lemma key_line_reads line k0 v0 r : key_line line k0 v0 -> read_line r line = (r.1, r.2 ++ [(r.1, trim_end k0, v0)]).
Proof. intros [Hh Hs _]. unfold read_line. by rewrite Hh, Hs. Qed.

Lemma key_line_bytes line k0 v0 : key_line line k0 v0 -> EQ_SIGN ∉ trim_end k0 /\ LF ∉ trim_end k0 /\ LF ∉ trim_start v0.
Proof.
  intros [_ Hs Hl]. apply split_once_some in Hs as [Hb Hk].
  assert (forall b, b ∈ k0 \/ b ∈ v0 -> b ∈ line) as Hin.
  { intros b Hin. apply strip_cr_elem. rewrite Hb. apply elem_of_app. destruct Hin as [Hin|Hin]; [by left|right; by right]. }
  split_and!; intros Hx.
  - by apply Hk, trim_end_elem.
  - apply Hl, Hin. left. by apply trim_end_elem.
  - apply Hl, Hin. right. by apply trim_start_elem.
Qed.

(** A key that is written anew. *)
Lemma copied_write ls st line k0 v0 x cr p : copied ls st -> key_line line k0 v0 -> cr = [] \/ cr = [CR] ->
  let key := trim_end k0 in let g := c_group st in
  (forall t, key <> BRACKET :: t) -> key <> [] -> LF ∉ x -> (forall v w, owned (g, key, v) = true /\ owned (g, key, w) = true) ->
  (forall v, v = x \/ v = strip_cr x -> key_ok (g, key, v) /\
     (try_exec p = true -> try_exec (c_present st) = true \/ (g, key, v) = entry_key (B "TryExec") prog) /\
     (dbus_activatable p = true -> dbus_activatable (c_present st) = true \/ (g, key, v) = entry_key (B "DBusActivatable") (B "false"))) ->
  copied (ls ++ [line]) (mkCopy (c_out st ++ [(key ++ B "=" ++ x) ++ cr]) g p).
Proof.
  intros Hcopied Hline Hcr key g Hb Hne Hx Hown Hv. destruct (key_line_bytes _ _ _ Hline) as (Hke & Hkl & _).
  destruct (written_reads g (read (c_out st)).2 key x cr Hke Hb Hne (trim_end_idem k0) Hcr) as (v & Hr & Hvx). destruct (Hv v Hvx) as (Hok & Pt & Pd).
  assert (LF ∉ cr) as Hcl by (destruct Hcr as [->| ->]; by apply (bool_decide_unpack _)).
  apply (copied_key _ _ line _ key v0 key v); try done; [by destruct Hline|..].
  - rewrite (key_line_reads _ _ _ _ Hline). destruct Hcopied as [-> _ _ _ _ _ _ _]. done.
  - destruct Hcopied as [_ Hsame _ _ _ _ _ _]. fold g in Hsame. fold g. destruct (read (c_out st)) as [g' ks']. cbn in *. by subst g'.
  - destruct (Hown v0 v) as [O1 O2]. unfold key, g in O1, O2. unfold others, key. cbn [List.filter]. by rewrite O1, O2.
  - intros [[Hb'|[Hb'|Hb']%elem_of_app]%elem_of_app|Hb']%elem_of_app; [done|revert Hb'; by apply (bool_decide_unpack (LF ∉ B "="))|done..].
Qed.

(** A key that is none of those is copied with its line. *)
Lemma copied_keep ls st line k0 v0 : copied ls st -> key_line line k0 v0 -> trim_end k0 <> B "Exec" ->
  (in_entry (c_group st) = true -> trim_end k0 <> B "TryExec" /\ trim_end k0 <> B "DBusActivatable") ->
  copied (ls ++ [line]) (mkCopy (c_out st ++ [line]) (c_group st) (c_present st)).
Proof.
  intros Hcopied Hline He Hk. apply (copied_key _ _ line _ (trim_end k0) v0 (trim_end k0) v0); try done; try (by destruct Hline); try (by left).
  - rewrite (key_line_reads _ _ _ _ Hline). by destruct Hcopied as [-> _ _ _ _ _ _ _].
  - rewrite (key_line_reads _ _ _ _ Hline). by destruct Hcopied as [_ -> _ _ _ _ _ _].
  - split_and!; cbn; intros; [done|by destruct Hk|by destruct Hk].
Qed.

Lemma patch_line_copied ls st line : LF ∉ line -> copied ls st -> copied (ls ++ [line]) (patch_line launch inst prog eol st line).
Proof.
  intros Hl Hcopied. unfold patch_line. cbv zeta. destruct (header (strip_cr line)) as [name|] eqn:Hh; [by apply copied_header|].
  unfold split_key. destruct (Cidr.split_once EQ_SIGN (strip_cr line)) as [[k0 v0]|] eqn:Hs; cbn [mbind option_bind]; [|by apply copied_silent].
  assert (key_line line k0 v0) as Hline by done. destruct (key_line_bytes _ _ _ Hline) as (Hke & Hkl & Hvl).
  set (cr := if bool_decide (strip_cr line = line) then [] else [CR]). assert (cr = [] \/ cr = [CR]) as Hcr by (unfold cr; destruct (bool_decide _); auto).
  pose proof (fun x p => copied_write ls st line k0 v0 x cr p Hcopied Hline Hcr) as Hw. cbv zeta in Hw. clear Hcr. clearbody cr.
  destruct (in_entry (c_group st) && bool_decide (base_key (trim_end k0) = B "Name")) eqn:Kn.
  { apply andb_true_iff in Kn as [Hg Hn]. apply bool_decide_eq_true in Hn as Hn'. destruct (base_key_named _ _ Hn') as [Hb Hne]; [discriminate|]. apply Hw; try done.
    - intros [Hb'|Hb']%elem_of_app; [done|revert Hb'; by apply (bool_decide_unpack (LF ∉ SUFFIX))].
    - intros v w. unfold owned. cbn [fst snd]. by rewrite Hg, Hn, !orb_true_r.
    - intros v _. split; [|by split; left]. split_and!; cbn; intros; exfalso; match goal with Hk : trim_end k0 = _ |- _ => rewrite Hk in Hn'; discriminate Hn' end. }
  destruct (bool_decide (trim_end k0 = B "Exec")) eqn:Ke.
  { bool_to_prop. rewrite Ke in *. apply Hw; try done.
    - intros [Hb'|Hb']%elem_of_app; [by apply launch_plain|done].
    - intros v Hv. split; [|by split; left]. split_and!; cbn; try done. intros _. destruct Hv as [->| ->]; [by eexists|].
      destruct launch_space as [l Hls]. exists (strip_cr (trim_start v0)). fold launch. rewrite Hls, <-!app_assoc. by apply strip_cr_app. }
  bool_to_prop. destruct (in_entry (c_group st)) eqn:Hg; cbn [andb]; [|by eapply copied_keep; [done|exact Hline|done|]; rewrite Hg].
  unfold in_entry in Hg. apply bool_decide_eq_true in Hg. destruct (bool_decide (trim_end k0 = B "TryExec")) eqn:Kt.
  { bool_to_prop. rewrite Kt in *. destruct Hprog as [Hp1 Hp2]. apply Hw; try done.
    - intros v w. unfold owned, in_entry. cbn [fst snd]. by rewrite Hg.
    - intros v Hv. assert (v = prog) as -> by (destruct Hv as [->| ->]; [done|by apply strip_cr_id]). split; [by split_and!|]. rewrite Hg. split; [by right|by left]. }
  destruct (bool_decide (trim_end k0 = B "DBusActivatable")) eqn:Kd.
  { bool_to_prop. rewrite Kd in *. apply (Hw (B "false")); try done; [by apply (bool_decide_unpack _)|..].
    - intros v w. unfold owned, in_entry. cbn [fst snd]. by rewrite Hg.
    - intros v Hv. assert (v = B "false") as -> by (destruct Hv as [->| ->]; reflexivity). split; [by split_and!|]. rewrite Hg. split; [by left|by right]. }
  bool_to_prop. by eapply copied_keep; [done|exact Hline|done|].
Qed.
End Copied.


Lemma patch_lines_copied inst prog eol ls : (LF ∉ prog /\ CR ∉ prog) -> (LF ∉ inst /\ CR ∉ inst) -> eol = [] \/ eol = [CR] ->
  Forall (fun l => LF ∉ l) ls -> copied inst prog ls (fold_left (patch_line (launch_of prog inst) inst prog eol) ls (mkCopy [] None (mkPresent false false))).
Proof.
  intros Hp Hi He Hl. assert (copied inst prog [] (mkCopy [] None (mkPresent false false))) as H0.
  { split; cbn; try done. intros (l & Hin & _). by apply not_elem_of_nil in Hin. }
  assert (forall pre st, copied inst prog pre st -> copied inst prog (pre ++ ls) (fold_left (patch_line (launch_of prog inst) inst prog eol) ls st)) as Hgo; [|by apply (Hgo [])].
  induction Hl as [|l ls Hll _ IH]; intros pre st Hst; cbn [fold_left]; [by rewrite app_nil_r|].
  change (l :: ls) with ([l] ++ ls). rewrite app_assoc. apply IH. by apply patch_line_copied.
Qed.

(** ** Every line of the copy *)

Lemma with_lines_snoc new k l x : with_lines new k l -> with_lines new (k ++ [x]) (l ++ [x]).
Proof. induction 1; cbn; by repeat constructor. Qed.

Lemma with_lines_between new k a m b : Forall new m -> with_lines new k (a ++ b) -> with_lines new k (a ++ m ++ b).
Proof.
  intros Hm. revert k. induction a as [|x a IH]; intros k Hk; cbn in *.
  - induction Hm as [|y m Hy _ IHm]; cbn; [done|]. by constructor.
  - inversion Hk; subst; constructor; auto.
Qed.

Lemma added_bubblers present inst prog eol : Forall (bubblers inst prog eol) (added present inst prog eol).
Proof.
  assert (forall x, x = (B "TryExec=" ++ prog) ++ eol \/ x = B "DBusActivatable=false" ++ eol \/ x = (MARKER ++ B "=" ++ inst) ++ eol -> bubblers inst prog eol x) as Hb.
  { unfold bubblers. intros x [->|[->| ->]]; rewrite <-?app_assoc; set_solver. }
  unfold added. apply Forall_map. destruct (try_exec present), (dbus_activatable present); cbn [app]; repeat constructor; apply Hb; auto.
Qed.

Lemma push_added_with present inst prog eol k out : with_lines (bubblers inst prog eol) k out ->
  with_lines (bubblers inst prog eol) k (push_added out present inst prog eol).
Proof.
  intros Hk. unfold push_added. cbv zeta. destruct (while_split all_white (List.rev out)) as [Hs _]. apply (f_equal (@List.rev bytes)) in Hs.
  rewrite rev_involutive, rev_app_distr in Hs. apply with_lines_between; [apply added_bubblers|]. by rewrite <-Hs.
Qed.

Lemma end_group_with inst prog eol k st : with_lines (bubblers inst prog eol) k (c_out st) -> with_lines (bubblers inst prog eol) k (end_group inst prog eol st).
Proof. unfold end_group. destruct (in_entry _); [apply push_added_with|done]. Qed.

Lemma patch_line_with inst prog eol k st l : with_lines (bubblers inst prog eol) k (c_out st) ->
  match header (strip_cr l) with
  | Some name => c_group (patch_line (launch_of prog inst) inst prog eol st l) = Some name /\
      with_lines (bubblers inst prog eol) (k ++ [l]) (c_out (patch_line (launch_of prog inst) inst prog eol st l))
  | None => c_group (patch_line (launch_of prog inst) inst prog eol st l) = c_group st /\
      with_lines (bubblers inst prog eol) (k ++ [line_copied (launch_of prog inst) prog (c_group st) l]) (c_out (patch_line (launch_of prog inst) inst prog eol st l))
  end.
Proof.
  intros Hk. unfold patch_line. cbv zeta. destruct (header (strip_cr l)) as [name|]; cbn [c_group c_out].
  { split; [done|]. by apply with_lines_snoc, end_group_with. }
  unfold split_key, line_copied. destruct (Cidr.split_once EQ_SIGN (strip_cr l)) as [[key v]|]; cbn [mbind option_bind]; [|split; [done|]; by apply with_lines_snoc].
  cbv zeta. assert (forall k : bytes, base_key k = B "Name" -> k <> B "Exec") as Hne by (by intros ? ? ->).
  destruct (in_entry (c_group st)); cbn [andb negb]; cycle 1.
  { destruct (bool_decide (trim_end key = B "Exec")); cbn [c_group c_out]; rewrite <-?app_assoc; (split; [done|by apply with_lines_snoc]). }
  destruct (bool_decide (base_key _ = _)) eqn:Hn.
  { apply bool_decide_eq_true, Hne in Hn. rewrite (bool_decide_false (trim_end key = B "Exec")) by done. cbn [c_group c_out]. rewrite <-!app_assoc. split; [done|by apply with_lines_snoc]. }
  do 3 (match goal with |- context [bool_decide (trim_end key = ?w)] => destruct (bool_decide (trim_end key = w)) end;
    [cbn [c_group c_out]; rewrite <-?app_assoc; (split; [done|by apply with_lines_snoc])|]). split; [done|by apply with_lines_snoc].
Qed.

Lemma patch_lines_with inst prog eol ls : forall k st, with_lines (bubblers inst prog eol) k (c_out st) ->
  with_lines (bubblers inst prog eol) (k ++ lines_copied (launch_of prog inst) prog (c_group st) ls)
    (c_out (fold_left (patch_line (launch_of prog inst) inst prog eol) ls st)).
Proof.
  induction ls as [|l ls IH]; intros k st Hk; cbn [fold_left lines_copied]; [by rewrite app_nil_r|].
  pose proof (patch_line_with inst prog eol k st l Hk) as Hl. destruct (header (strip_cr l)) as [name|]; destruct Hl as [Hg Hw].
  - apply IH in Hw. rewrite Hg, <-app_assoc in Hw. exact Hw.
  - apply IH in Hw. rewrite Hg, <-app_assoc in Hw. exact Hw.
Qed.

(** ** The text and its lines *)

Lemma read_nil_line st : read_line st [] = st.
Proof. by destruct st. Qed.

Lemma body_lines_plain text : Forall (fun l => LF ∉ l) (body_lines text).
Proof.
  assert (Forall (fun l => LF ∉ l) (split_on LF text)) as Hs by (apply Forall_forall; intros l; by apply split_on_no_sep).
  unfold body_lines. destruct (ends_with [LF] text); [|done]. apply Forall_rev, Forall_drop, Forall_rev, Hs.
Qed.

Lemma split_ends text t : text = t ++ [LF] -> split_on LF text = split_on LF t ++ [[]].
Proof. intros ->. by rewrite split_on_app_sep. Qed.

Lemma keys_body text : keys text = (read (body_lines text)).2.
Proof.
  unfold keys, body_lines. destruct (ends_with [LF] text) eqn:He; [|done]. apply ends_with_spec in He as [t Ht].
  rewrite (split_ends _ _ Ht), rev_app_distr, read_snoc, read_nil_line. cbn [List.rev app drop]. by rewrite drop_0, rev_involutive.
Qed.

Lemma keys_join ls tail : ls <> [] -> Forall (fun l => LF ∉ l) ls -> tail = [] \/ tail = [LF] -> keys (Bytes.join [LF] ls ++ tail) = (read ls).2.
Proof.
  intros Hne Hl Ht. unfold keys. destruct Ht as [->| ->]; [by rewrite app_nil_r, split_join|]. rewrite (split_ends _ _ eq_refl), split_join by done.
  by rewrite read_snoc, read_nil_line.
Qed.

(** The guard of [patch] and the lines of its loop see the same groups. *)
Lemma lines_seen text : existsb (fun l => bool_decide (header l = Some ENTRY_GROUP)) (lines text) = true -> seen (body_lines text).
Proof.
  intros (l & Hl & Hh)%existsb_spec. apply bool_decide_eq_true in Hh. unfold lines in Hl. unfold seen, body_lines.
  destruct (List.rev (split_on LF text)) as [|tail init] eqn:Er; [by apply not_elem_of_nil in Hl|].
  assert (split_on LF text = List.rev init ++ [tail]) as Hs by (rewrite <-(rev_involutive (split_on LF text)), Er; done).
  apply elem_of_app in Hl as [Hl|Hl].
  - apply list_elem_of_In, in_map_iff in Hl as (m & <- & Hm). apply list_elem_of_In in Hm. exists m. split; [|done].
    destruct (ends_with [LF] text); cbn [drop]; [done|]. rewrite Hs. apply elem_of_app. by left.
  - destruct (bool_decide (tail = [])) eqn:Ht; [by apply not_elem_of_nil in Hl|]. bool_to_prop. apply list_elem_of_singleton in Hl as ->.
    exists tail. assert (strip_cr tail = tail) as Hid.
    { destruct (strip_cr_cases tail) as [He|[He _]]; [|done]. rewrite He in Hh. unfold header in Hh. destruct (strip_prefix [BRACKET] _) as [m|] eqn:Ep; [|discriminate Hh].
      cbn [mbind option_bind] in Hh. apply strip_suffix_some in Hh as ->. apply strip_prefix_some in Ep. change ([BRACKET] ++ ENTRY_GROUP ++ B "]") with (([BRACKET] ++ ENTRY_GROUP) ++ B "]") in Ep.
      by apply app_inj_tail in Ep as [_ Ep]. }
    rewrite Hid. split; [|done]. destruct (ends_with [LF] text) eqn:He; [|rewrite Hs; apply elem_of_app; right; by left].
    apply ends_with_spec in He as [t Hte]. apply split_ends in Hte. rewrite Hte in Hs. apply app_inj_tail in Hs as [_ Hs]. by symmetry in Hs.
Qed.

(** ** What the copy says *)

(** C9. Whatever entry an application ships, the copy of it starts through bubbler wherever
    a launcher looks.  Line by line it is the entry with [line_copied] made of each line: the
    entry's own name says it is a copy, every command line, of the entry and of each of its
    actions, is bubbler, the instance, the separator and then the vendor's own words, the two
    keys that are asked before it say bubbler's, and every other line is as it was, a comment or a
    blank one too; beside these lines there are only the ones that bubbler adds.  The copy
    ends as the entry does.  Read by a launcher, every command line goes through bubbler,
    also one that was added, the entry's own group says that the session bus is not to start
    it, which would be outside the sandbox, and that it is there when bubbler is, and it
    carries the instance's marker. *)
Theorem copied_entry_starts_through_bubbler text inst prog out : patch text inst prog = Ok out ->
  is_plain_name inst = true -> LF ∉ prog -> CR ∉ prog ->
  (exists ls, out = Bytes.join [LF] ls ++ (if ends_with [LF] text then [LF] else []) /\
    with_lines (bubblers inst prog (if contains [CR; LF] text then [CR] else [])) (lines_copied (launch_of prog inst) prog None (body_lines text)) ls) /\
  (forall g v, (g, B "Exec", v) ∈ keys out -> exists cmd, v = launch_of prog inst ++ cmd) /\
  (forall v, entry_key (B "DBusActivatable") v ∈ keys out -> v = B "false") /\
  (forall v, entry_key (B "TryExec") v ∈ keys out -> v = prog) /\
  complete inst prog (keys out) /\
  others (keys out) = others (keys text).
Proof.
  intros Hp Hplain Hl Hc. unfold patch in Hp. destruct (owner text); [discriminate Hp|]. destruct (negb (utf8_valid prog)); [discriminate Hp|].
  destruct (existsb _ _) eqn:Hg in Hp; [|discriminate Hp]. cbn [negb] in Hp. destruct (negb _); [discriminate Hp|]. destruct (Head.hidden _); [discriminate Hp|].
  cbv zeta in Hp. apply lines_seen in Hg. set (eol := if contains [CR; LF] text then [CR] else []) in Hp |- *.
  assert (eol = [] \/ eol = [CR]) as He by (unfold eol; destruct (contains _ _); auto). clearbody eol.
  assert (LF ∉ inst /\ CR ∉ inst) as Hi.
  { unfold is_plain_name in Hplain. apply andb_true_iff in Hplain as [_ Ha]. apply forallb_spec in Ha. rewrite Forall_forall in Ha. split; intros Hin; by apply Ha in Hin. }
  pose proof (patch_lines_copied inst prog eol (body_lines text) (conj Hl Hc) Hi He (body_lines_plain text)) as Hcopied.
  pose proof (patch_lines_with inst prog eol (body_lines text) [] (mkCopy [] None (mkPresent false false)) (with_nil _)) as Hw. cbn [app c_group] in Hw.
  set (st := fold_left _ _ _) in *. clearbody st. destruct (end_group_copied _ _ _ (conj Hl Hc) Hi He _ _ Hcopied) as (new & Hn & Hnk & Hno & Hcomp & Hpl).
  apply (end_group_with inst prog eol) in Hw. injection Hp as <-. assert (keys (Bytes.join [LF] (end_group inst prog eol st) ++ (if ends_with [LF] text then [LF] else [])) = (read (c_out st)).2 ++ new) as Hkeys.
  { rewrite keys_join; [by rewrite Hn|..|done|destruct (ends_with _ _); auto]. intros Hnil. rewrite Hnil in Hn. cbn in Hn. injection Hn as _ Hn.
    destruct (Hcomp Hg) as [Ht _ _]. rewrite <-Hn in Ht. by apply not_elem_of_nil in Ht. }
  split; [by exists (end_group inst prog eol st)|]. rewrite Hkeys. destruct Hcopied as [_ _ Hok Hoth _ _ _ _]. assert (Forall (key_ok inst prog) ((read (c_out st)).2 ++ new)) as Hall by (by apply Forall_app).
  rewrite Forall_forall in Hall. split_and!.
  - intros g v Hin. by apply (Hall _ Hin).
  - intros v Hin. by apply (Hall _ Hin).
  - intros v Hin. by apply (Hall _ Hin).
  - by apply Hcomp.
  - by rewrite others_app, Hno, app_nil_r, Hoth, keys_body.
Qed.

(** A copy is told from other files by its marker, which is read line by line with the
    endings taken off; but a carriage return before the end of the text is no ending.  There
    is an entry with such endings and no last newline whose copy carries its instance's name
    and a carriage return, so that it is another instance's to [write]. *)
Theorem unended_copy_is_not_the_instances : exists text out,
  patch text (B "kt") (B "/usr/bin/bubbler") = Ok out /\ owner out = Some (B "kt" ++ [CR]) /\
  forall `{Entries} p, is_symlink p = Ok false -> read_to_string p = Ok out ->
    write p (B "kt") = Err (DesktopError.OtherInstance p (B "kt" ++ [CR])).
Proof.
  exists (B "[Desktop Entry]" ++ [CR; LF] ++ B "Exec=kitty"). eexists. split; [vm_compute; reflexivity|].
  match goal with |- owner ?o = _ /\ _ => assert (owner o = Some (B "kt" ++ [CR])) as Ho by (vm_compute; reflexivity) end. split; [exact Ho|].
  intros He p Hs Hr. unfold write. by rewrite Hs, Hr, Ho.
Qed.


(** ** Command lines, written and read *)

Definition FF : byte := Init.Byte.x0c.

Lemma trim_start_id b s : u8 b < 128 -> is_space [b] = false -> utf8_valid (b :: s) = true -> trim_start (b :: s) = b :: s.
Proof.
  intros Hb Hw Hv. destruct (chars_valid _ Hv) as [Hc _]. assert (exists cs, chars (b :: s) = [b] :: cs) as [cs Hcs].
  { unfold chars. cbn [length chars_fuel]. unfold utf8_next. replace (u8 b <? 128) with true by lia. by eexists. }
  unfold trim_start. rewrite Hcs. cbn [trim_front]. by rewrite Hw, <-Hcs.
Qed.

Lemma quoted_word_escaped v out rest : quoted_word false out (concat (map escape v) ++ QUOTE :: rest) = Some (out ++ v).
Proof.
  revert out. induction v as [|b v IH]; intros out; cbn [map concat app].
  - cbn. by rewrite app_nil_r.
  - unfold escape. destruct (bool_decide (b ∈ _)) eqn:Hb.
    + cbn [app quoted_word negb andb]. rewrite bool_decide_true by done. rewrite IH, <-app_assoc. done.
    + apply bool_decide_eq_false in Hb. cbn [app quoted_word negb andb]. rewrite !bool_decide_false, IH, <-app_assoc; [done|set_solver..].
Qed.

Lemma no_percent v : PERCENT ∉ v -> concat (map double_percent v) = v.
Proof.
  induction v as [|b v IH]; intros Hv; cbn; [done|]. unfold double_percent at 1. rewrite bool_decide_false by set_solver. cbn. by rewrite IH by set_solver.
Qed.

Lemma word_taken v rest : Forall (fun b => is_ascii_white b = false) v -> take_while (fun b => negb (is_ascii_white b)) (v ++ SPACE :: rest) = v.
Proof. induction 1 as [|b v Hb _ IH]; cbn; [done|]. rewrite Hb. cbn. by rewrite IH. Qed.

(** A command line that begins with a program as [exec_quote] writes it is read as that
    program's, whatever the path holds of the characters the specification reserves: a
    launcher looks for the one it was written for. *)
Theorem quoted_program_is_read_back b p rest : let prog := b :: p in
  u8 b < 128 -> is_space [b] = false -> PERCENT ∉ prog -> CR ∉ prog -> FF ∉ prog ->
  utf8_valid (exec_quote prog ++ SPACE :: rest) = true ->
  exec_program (exec_quote prog ++ SPACE :: rest) = Some prog.
Proof.
  intros prog Hb Hw Hpc Hcr Hff. unfold exec_quote. cbv zeta. rewrite (no_percent prog Hpc). destruct (negb _) eqn:Hr; intros Hv; unfold exec_program; cbv zeta.
  - apply negb_true_iff in Hr. assert (forall c, c ∈ prog -> c ∉ RESERVED) as Hres.
    { intros c Hc. pose proof (proj1 (existsb_none _ _) Hr c Hc) as Hc'. by apply bool_decide_eq_false in Hc'. }
    assert (Forall (fun c => is_ascii_white c = false) prog) as Hwhite.
    { apply Forall_forall. intros c Hc. apply bool_decide_eq_false. intros Hin. specialize (Hres c Hc).
      repeat (apply elem_of_cons in Hin as [->|Hin]; [first [by apply Hcr | by apply Hff | apply Hres; by apply (bool_decide_unpack _)]|]).
      by apply not_elem_of_nil in Hin. }
    unfold prog in *. rewrite <-app_comm_cons in Hv |- *. rewrite trim_start_id by done. rewrite app_comm_cons.
    destruct (strip_prefix [QUOTE] _) as [t|] eqn:Es.
    + apply strip_prefix_some in Es. injection Es as -> _. exfalso. apply (Hres QUOTE); [by left|by apply (bool_decide_unpack _)].
    + inversion_clear Hwhite as [|? ? Hwb Hwp]. cbn [app skip_while]. rewrite Hwb. rewrite app_comm_cons, word_taken by (by constructor). done.
  - change ([QUOTE] ++ concat (map escape prog) ++ [QUOTE]) with (QUOTE :: concat (map escape prog) ++ [QUOTE]) in *.
    rewrite <-app_comm_cons in Hv |- *. rewrite trim_start_id; [|by vm_compute|by vm_compute|done]. cbn [strip_prefix]. rewrite decide_True by done.
    rewrite <-app_assoc. cbn [app]. apply (quoted_word_escaped prog []).
Qed.

(** ** An entry with an action *)

Section Demo.
Definition demo_entry : bytes :=
  Bytes.join [LF] [B "[Desktop Entry]"; B "Name=Kitty"; B "Exec=kitty %u"; B "DBusActivatable=true"; []; B "[Desktop Action new]"; B "Name=New"; B "Exec = kitty --new"; []].

Lemma copied_entry_starts_through_bubbler_witness : exists out, patch demo_entry (B "kt") (B "/usr/bin/bubbler") = Ok out /\
  length (keys out) = 7%nat /\ complete (B "kt") (B "/usr/bin/bubbler") (keys out) /\
  (Some (B "Desktop Action new"), B "Exec", B "/usr/bin/bubbler open kt -- kitty --new") ∈ keys out /\
  (forall g v, (g, B "Exec", v) ∈ keys out -> exists cmd, v = B "/usr/bin/bubbler open kt -- " ++ cmd).
Proof.
  assert (exists out, patch demo_entry (B "kt") (B "/usr/bin/bubbler") = Ok out /\ length (keys out) = 7%nat /\
    (Some (B "Desktop Action new"), B "Exec", B "/usr/bin/bubbler open kt -- kitty --new") ∈ keys out) as (out & Hp & Hl & Hin).
  { eexists. split; [vm_compute; reflexivity|]. split; [vm_compute; reflexivity|]. apply (bool_decide_unpack _). vm_compute. exact I. }
  destruct (copied_entry_starts_through_bubbler demo_entry (B "kt") (B "/usr/bin/bubbler") out Hp) as (_ & He & _ & _ & Hc & _);
    [reflexivity|by apply (bool_decide_unpack _)|by apply (bool_decide_unpack _)|].
  exists out. split; [exact Hp|]. split; [exact Hl|]. split; [exact Hc|]. split; [exact Hin|exact He].
Defined.

Lemma quoted_program_is_read_back_witness :
  exec_quote (B "/opt/my tools/bubbler") <> B "/opt/my tools/bubbler" /\
  exec_program (exec_quote (B "/opt/my tools/bubbler") ++ SPACE :: B "open kt -- kitty") = Some (B "/opt/my tools/bubbler").
Proof.
  split; [by vm_compute|]. apply (quoted_program_is_read_back Init.Byte.x2f (B "opt/my tools/bubbler"));
    [by vm_compute|reflexivity|by apply (bool_decide_unpack _)|by apply (bool_decide_unpack _)|by apply (bool_decide_unpack _)|vm_compute; reflexivity].
Defined.
End Demo.
